(* ===== verification/_CoqProject ===== *)
-Q . S2P
Prelude.v
RustStd.v
Collections.v
Effect.v
Vocab.v
External.v
Instances.v
Value.v
Envelope.v
Frame.v
Decode.v
Encode.v
Turtle.v
EncodeSpec.v
DecodeSpec.v
Wire.v
Transport.v
RoundTrip.v
TurtleParse.v
Request.v
Response.v
Entrainment.v
AuthTypes.v
Chain.v
Policy.v
Fingerprint.v
CivilDate.v
Cache.v
Human.v
Script.v
Auth.v
SparqlTerm.v
SparqlCompile.v
SparqlSpec.v
SparqlSafe.v
SparqlCursor.v
SparqlParse.v
SparqlParseSafe.v
SparqlSerialize.v
SparqlRoundTrip.v
SparqlTyping.v
SparqlStore.v
SparqlSurface.v
SparqlStoreInv.v
SparqlStoreSpec.v
SparqlStoreProps.v
SparqlDump.v
Authorizer.v
NodeDb.v
NodeSql.v
NodeGate.v
NodeDemo.v
NodeGateProps.v
NodeKnock.v
NodeExecute.v
NodeExecuteProps.v
NodeFrames.v
NodeProjection.v
NodeEntrain.v
NodeSparql.v
NodeSparqlProps.v
NodeDdl.v
NodeSpec.v
NodeDdlProps.v
NodeHelp.v
NodeChatMsg.v
NodeChat.v
NodeChatProps.v
Outbox.v
OutboxProps.v
NodeServe.v
OutboxDelivery.v
Web.v
Csv.v
WebApi.v
NodeApps.v
NodeSystem.v
NodeMods.v
NodeMedia.v
Remote.v
