(* ===== verification/Prelude.v ===== *)
(** * Resonator (rsntr): a verification library

    A Resonator node is a SQLite database that talks to other nodes in RDF
    objects over QUIC. A peer sends a request (a SQL statement, a SPARQL query, a
    chat message, a knock) in a Turtle envelope; the serving node decides whether
    to run it, runs it under an authorizer, and answers with a choreographed
    stream of envelopes. This library models the parts of that program that
    decide what is on the wire, who may do what, and what becomes of the
    database, translated from the Rust sources under [src/crates], and proves
    them correct.

    ** Parts and files

    Foundations, shared by every part:
    - [Prelude] (this file): Rust's [Result] with its [?] operator ([let?]),
      the hint databases and tactics, lemmas on lists.
    - [RustStd]: the standard library as the code uses it: bytes, UTF-8, ASCII
      classes, trimming, integer parsing and printing at the width of [i64] and
      [u64], little-endian [u32].
    - [Collections]: [BTreeMap] and [BTreeSet] as finite maps and sets with
      their iteration order.
    - [Effect]: code that threads a state and may fail ([let*], loops, what a
      failure leaves behind).
    - [External]: one type class per external library (oxrdf's terms and
      display, oxttl's push parser, float text, base64, ULIDs): operations are
      parameters, documented behaviour is a class of laws used only where a
      theorem needs it.
    - [Instances]: small concrete instances of those classes, with proofs of
      their laws, so that theorems which assume them can be run.

    The protocol crate ([protocol/src]):
    - [Vocab]: the IRIs, the error codes and errors ([vocab.rs], [error.rs]).
    - [Value]: values and their XSD text ([value.rs]).
    - [Envelope]: the object types and column names ([envelope.rs]).
    - [Encode], [Decode]: the Turtle writer, class by class; the reader of a
      triple graph and the incremental [EnvelopeParser] ([envelope.rs]).
    - [Frame], [Wire]: length-prefixed frames, and envelopes on the byte stream
      ([frame.rs]).
    - [Request], [Response], [Entrainment]: requests, and the two response
      choreographies as state machines ([request.rs], [response.rs],
      [entrainment.rs]).
    - [Turtle], [EncodeSpec], [DecodeSpec], [RoundTrip], [TurtleParse] are not
      code: an independent reader of the Turtle the writer uses, what it means
      for triples to represent an object, the two directions and the round trip
      on documents and streams, and an executable push parser that satisfies
      every law, with the witnesses that run the theorems.

    The stream half of the transport crate:
    - [Transport]: receiving, the plain-text probe, the hello exchange of both
      sides, the modulation gate ([transport/src/iroh_transport.rs]). The
      network is data: the reads to come and the outcomes of the writes.

    The authenticator crate ([authenticator/src]):
    - [AuthTypes]: decisions, footprints ([types.rs]), and the database as the
      tables the crate reads and writes, with statements that may fail.
    - [Chain]: the decider chain ([chain.rs]); [Policy], [Cache], [Human],
      [Script]: its tiers; [Fingerprint]: the key of a request; [CivilDate]:
      timestamps; [Auth]: the built-in chain as a whole.

    The SPARQL crate ([sparql/src]):
    - [SparqlTerm]: terms and the algebra ([term.rs], [ast.rs]).
    - [SparqlCursor], [SparqlParse]: the parser ([parser.rs]);
      [SparqlParseSafe] and [SparqlTyping] its totality and typing.
    - [SparqlCompile]: a query as one SQL statement ([compile.rs]);
      [SparqlSpec] and [SparqlSafe] its specification and quoting.
    - [SparqlSerialize]: JSON, Turtle and N-Triples ([serialize.rs]);
      [SparqlRoundTrip] reads the dump back with the parser.
    - [SparqlStore]: dictionary, triples, loading, updates, queries, the dump
      ([store.rs]); [SparqlStoreInv], [SparqlStoreSpec],
      [SparqlStoreProps], [SparqlDump] its theorems.
    - [SparqlSurface]: the SQL functions and the virtual table
      ([functions.rs], [vtab.rs]).

    The node crate ([node/src]):
    - [Authorizer]: footprints collected and enforced while SQLite prepares
      ([footprint.rs]).
    - [NodeDb]: the connection, the tables of the node, the ledger
      ([audit.rs]); [NodeSql]: the interface to the engine; [NodeDemo]: a small
      engine to run the theorems on.
    - [NodeGate], [NodeKnock], [NodeExecute]: what clears a request,
      strangers, the execution of a cleared statement, the statements of mods
      ([pipeline.rs]); [NodeGateProps], [NodeExecuteProps] their
      theorems.
    - [NodeFrames]: the node as its handlers see it, and how they send.
    - [NodeSparql] ([sparql_mod.rs]), [NodeProjection] ([projection.rs]),
      [NodeEntrain] ([entrain.rs] and the commit hooks), [NodeHelp]
      ([help.rs]), [NodeChatMsg] and [NodeChat] ([chat.rs]), [NodeSystem]
      ([system.rs]), [NodeMods] ([mod_install.rs], and pages), [NodeMedia] ([media.rs], streams of
      media): the lanes; [NodeSparqlProps], [NodeChatProps] theorems.
    - [NodeDdl]: the schema, its migration, the hello ([ddl.rs]);
      [NodeSpec]: what a piece of database code does, with rules for sequencing,
      loops and transactions; [NodeDdlProps].
    - [NodeApps]: the registry of apps ([apps.rs]).
    - [NodeServe]: the dispatch of both channels, from a frame to its response.

    Around the node:
    - [Outbox]: the queue of requests and the worker that ships them
      ([surfaces/src/outbox.rs]); [OutboxProps], and [OutboxDelivery], where the
      worker of one node meets the dispatch of another.
    - [Remote]: the virtual tables over peers ([surfaces/src/remote.rs]): one call
      and its response, [remote_query], and [iroh_remote] with its plans, its
      cursor and its writes.
    - [Web], [Csv], [WebApi]: the HTTP surface: failures and local execution,
      CSV import and export, the framed endpoints, the JSON API, the token gate
      and the routes ([web/src]).

    ** How the parts interact

    [Transport.send] and [recv] use [Wire.encode_envelope] and
    [decode_envelope], which frame ([Frame]) the text of [Encode] and feed it
    to the parser of [Decode]. The readers of [Response] and [Entrainment]
    consume the objects that [recv] yields. A request that passes
    [Transport.route_request] reaches [NodeServe], which picks the lane. The SQL
    lane screens it ([NodeGate]: a prepare under the collecting [Authorizer], the
    chain of [Chain.decide], a ledger row) and runs it ([NodeExecute]: a prepare
    under the enforcing authorizer, inside a transaction that also records the
    outcome of a write). The tiers of the chain share the database of the node
    ([AuthTypes.Conn] is a part of [NodeDb.NConn]): [Human.human_decide] parks a
    request that [Human.answer_inbox] later decides, which [Cache.cache_decide]
    then answers, under the key of [Fingerprint.statement_fingerprint]. A commit
    signals the entrained ([NodeEntrain]). Chat messages of a room are queued in
    the tables of [Outbox] by the transaction that stores them ([NodeChat]), and
    shipped by its worker. The HTTP handlers enter the same pipeline as the
    owner of the node. A table of [Remote] is read by a request like any other,
    which its peer answers with the frames of [NodeExecute].

    ** What is shown

    - The wire: every well-formed object of the plain classes survives its
      Turtle text, and a list of objects survives framing and any chunking; the
      text of an object reads back as exactly its statements, whatever its
      strings contain; each choreography reader accepts exactly the language of
      its protocol.
    - From end to end: every request frame for SQL, SPARQL, chat or help is
      answered with a response that the reader of the client accepts to a clean
      end, all of which arrives at a client that stays unless a frame is too
      large to encode, where it stops and the reader says so; a queued chat message arrives once, whatever the network loses; a
      table mirrored from a peer shows the rows that the response to its
      statement carries, which are all of them unless its trailer says otherwise.
    - Authority: the first tier within its mask decides; bad configuration
      denies; the most specific rule wins with denial at a tie; a parked answer
      is remembered for its request; the footprint that the chain allowed is the
      one under which the statement runs, and SQLite is asked for nothing outside
      it; what was approved can run, unless a peer both writes and reads a
      pragma. Unknown peers and
      denied requests change nothing but ledgers. A stranger is heard
      when two token buckets hold a token. HTTP requests without the token learn nothing; tables a
      caller may not read do not show in the system graph; points are
      offered to those who can invoke them, where the rules agree; a table belongs
      to one app, unless declarations race; a mod is installed by grant,
      capability by capability; a source of media starts for those whom a rule
      allows it, and its processes end with it if the client stays; authors of chat messages are who they
      say or vouched for by the host of the room.
    - Atomicity and repetition: a statement runs to its end (or the cap of its
      answer) and takes effect with its record, or has none; a write is applied once per request id, a message is stored and
      forwarded once, migrations are all or nothing and keep every row, column by
      column, and all settings but those they are there to change; the
      ledger has one row per request; requests of the outbox only move forward.
    - SPARQL: parsing answers on every text and what it gives is well typed;
      flattening is distribution; strings cannot leave their SQL literals; the
      store is a set of triples under every sequence of operations, updates are
      unions and differences, a dump restores it if its terms
      can be written.
    - Remote tables: the arguments of a query reach the peer in order, and the
      statements for a mirrored table read as SQL to what they mean, whatever
      its names hold.
    - Text formats: chat messages, CSV documents, JSON strings read back.
    - Deviations found on the way are theorems, lemmas or examples too, next to
      the property they limit.

    ** Bounds and fuel

    List chains in the decoder stop at the code's own bound of 1,000,000 nodes,
    and the round trip asks for lists shorter than that. Loops over a byte
    string take its length as fuel, since every turn consumes a byte (proved
    for the statement normaliser by [Fingerprint.norm_loop_fuel]); the parser of
    the decoder recurses on the bound the push parser gives for the items to
    come. The recursion of the SPARQL parser is as deep as the text nests: the
    openings ahead of the cursor are a bound ([SparqlParseSafe.parse_total]), and
    nested braces need it ([nested_braces_recurse]); the stack of the machine,
    which bounds the real recursion, is not modelled. A statement is a tree of rows that
    may be endless: stepping is bounded by the callbacks of the progress
    handler, which then interrupts it ([NodeExecute], theorem
    [endless_statement_stopped]); statements of mods have no handler, and one
    that does not end gives no result ([NodeExecute]). The worker of the outbox
    runs a given number of rounds; [OutboxDelivery] says which rounds deliver.

    Integers are kept at the width of the code where it can overflow: [i64]
    counters wrap or saturate as written, frame lengths are [u32], durations
    have their ceiling, time in the cache and tokens of the knock buckets are
    binary64.

    ** Not modelled

    External code is a parameter: SQLite (classes of [NodeSql] and
    [SparqlStore]), the Turtle grammar, SHA-256, JSON, Rhai, WebAssembly and the
    QUIC library. [Graph], [Generic] and [Vibration] payloads are encoded and
    decoded by the model, and are outside the round-trip theorem because their
    terms print through the external display. Of the transport: endpoint
    binding, the connection cache, tickets and blobs, which are calls into the
    network library. Of the node: the engine limits set on a connection, the bytes of a
    vibration that was cut short by its timeout, the timers and tasks around the database thread, and the delays of the watcher
    (in [NodeServe] some lanes are arguments of the dispatch: [NodeMods.node_lanes]
    and [NodeMedia.media_lanes] put the models of theirs in place). Of the surfaces: presence, the registration of
    the virtual tables; and a peer that never answers the worker of the
    outbox, which then waits for ever. Of the web crate: sockets, feeds,
    streams, the exchange with remote peers and starting the server. The command
    line, the host and guest of mods, and the foreign bindings are glue over
    these crates and are left out. *)

From stdpp Require Export base tactics list strings gmap sets.
From Stdlib Require Export ZArith Lia Ascii.

(** ** The result type

    Rust's [Result<A, E>], with the [?] operator as [let?]. *)

Inductive result (E A : Type) : Type :=
| Ok (a : A)
| Err (e : E).
Arguments Ok {E A} a.
Arguments Err {E A} e.

Definition rbind {E A B} (f : A -> result E B) (c : result E A) : result E B :=
  match c with
  | Ok a => f a
  | Err e => Err e
  end.

Definition rmap {E A B} (f : A -> B) (c : result E A) : result E B :=
  rbind (fun a => Ok (f a)) c.

Definition map_err {E E' A} (f : E -> E') (c : result E A) : result E' A :=
  match c with
  | Ok a => Ok a
  | Err e => Err (f e)
  end.

(** [Option::ok_or_else]. *)
Definition ok_or {E A} (e : E) (o : option A) : result E A :=
  match o with
  | Some a => Ok a
  | None => Err e
  end.

(** [Iterator::map(f).collect::<Result<Vec<_>, _>>()]: left to right, first
    error wins. *)
Fixpoint traverse {E A B} (f : A -> result E B) (l : list A) : result E (list B) :=
  match l with
  | [] => Ok []
  | a :: l' => rbind (fun b => rmap (cons b) (traverse f l')) (f a)
  end.

Definition is_ok {E A} (c : result E A) : bool :=
  match c with
  | Ok _ => true
  | Err _ => false
  end.

Declare Scope rsntr_scope.
Delimit Scope rsntr_scope with rsntr.

Notation "'let?' x := c 'in' k" := (rbind (fun x => k) c)
  (at level 10, x pattern, c at level 200, k at level 200,
   format "'[v' 'let?'  x  :=  c  'in' '/' k ']'") : rsntr_scope.

Open Scope rsntr_scope.

#[export] Instance result_eq_dec {E A} `{!EqDecision E, !EqDecision A} :
  EqDecision (result E A).
Proof. solve_decision. Defined.

(** ** Hint databases and tactics *)

Create HintDb rsntr.
Create Rewrite HintDb rsntr.
#[export] Hint Rewrite @app_nil_r @app_nil_l : rsntr.

(** Inverts a successful monadic step in hypothesis [H]. *)
Lemma rbind_Ok {E A B} (f : A -> result E B) c b :
  rbind f c = Ok b -> exists a, c = Ok a /\ f a = Ok b.
Proof. destruct c; simpl; [eauto | discriminate]. Qed.

Lemma rbind_Err {E A B} (f : A -> result E B) c e :
  rbind f c = Err e -> c = Err e \/ exists a, c = Ok a /\ f a = Err e.
Proof. destruct c; simpl; [eauto | by intros [= ->]; left]. Qed.

Lemma rmap_Ok {E A B} (f : A -> B) (c : result E A) b :
  rmap f c = Ok b -> exists a, c = Ok a /\ b = f a.
Proof. unfold rmap. intros (a & -> & [= <-])%rbind_Ok. eauto. Qed.

Lemma ok_or_Ok {E A} (e : E) (o : option A) a : ok_or e o = Ok a -> o = Some a.
Proof. destruct o; simpl; congruence. Qed.

Ltac inv_ok :=
  repeat match goal with
  | H : rbind _ _ = Ok _ |- _ => apply rbind_Ok in H as (? & ? & H)
  | H : rmap _ _ = Ok _ |- _ => apply rmap_Ok in H as (? & ? & H)
  | H : ok_or _ _ = Ok _ |- _ => apply ok_or_Ok in H
  | H : Ok _ = Ok _ |- _ => injection H as H; subst
  | H : Ok _ = Err _ |- _ => discriminate H
  | H : Err _ = Ok _ |- _ => discriminate H
  | H : ?x = _ |- _ => is_var x; subst x
  end.

(** Case analysis on every boolean test and every match of the goal. *)
Ltac split_matches :=
  repeat (case_match; simplify_eq/=; try done).

(** [lia] with division and remainder by constants. *)
Ltac divlia := Z.to_euclidean_division_equations; lia.

(** Exhaustive case analysis on a byte. *)
Ltac ascii_cases c := destruct c as [[] [] [] [] [] [] [] []].

(** ** Generic lemmas *)

Lemma traverse_Ok {E A B} (f : A -> result E B) l bs :
  traverse f l = Ok bs <-> Forall2 (fun a b => f a = Ok b) l bs.
Proof.
  split.
  - revert bs. induction l as [|a l IH]; intros bs H; simpl in H; inv_ok; [done|].
    constructor; eauto.
  - induction 1 as [|a b l bs Hab _ IH]; simpl; [done|]. by rewrite Hab, IH.
Qed.

Lemma traverse_map_Ok {E A B C} (f : B -> result E C) (g : A -> B) (h : A -> C) l :
  (forall a, a ∈ l -> f (g a) = Ok (h a)) -> traverse f (map g l) = Ok (map h l).
Proof.
  intros Hf. apply traverse_Ok. apply Forall2_fmap, Forall_Forall2_diag.
  apply Forall_forall. auto.
Qed.

Lemma traverse_length {E A B} (f : A -> result E B) l bs :
  traverse f l = Ok bs -> length bs = length l.
Proof. intros H%traverse_Ok. symmetry. by eapply Forall2_length. Qed.

Lemma filter_all {A} (P : A -> Prop) `{!forall x, Decision (P x)} (l : list A) :
  Forall P l -> filter P l = l.
Proof. induction 1 as [|x l Hx _ IH]; [done|]. by rewrite filter_cons_True, IH. Qed.

Lemma filter_none {A} (P : A -> Prop) `{!forall x, Decision (P x)} (l : list A) :
  Forall (fun x => ~ P x) l -> filter P l = [].
Proof. induction 1 as [|x l Hx _ IH]; [done|]. by rewrite filter_cons_False. Qed.

Lemma omap_length {A B} (f : A -> option B) l : (length (omap f l) <= length l)%nat.
Proof. induction l as [|a l IH]; cbn; [lia|]. destruct (f a); cbn; lia. Qed.

Lemma cons_app {A} (x : A) l : x :: l = [x] ++ l.
Proof. done. Qed.
