(* ===== verification/RustStd.v ===== *)
(** * RustStd: what the code uses of Rust's standard library

    A Rust [String] or [&str] is its UTF-8 byte sequence, a Rocq [string] whose
    [ascii] characters are the bytes ([utf8_valid] is the invariant Rust
    keeps). Functions that Rust documents on [char]s are written here on bytes
    where the two agree: every [char] the code singles out is ASCII, and no
    byte of a multi-byte UTF-8 sequence is ASCII. *)

From S2P Require Import Prelude.
From Stdlib Require Import DecimalString DecimalZ DecimalPos.

Open Scope Z_scope.

(** ** Bytes *)

Definition byte_val (c : ascii) : Z := Z.of_N (N_of_ascii c).
Definition byte_of (z : Z) : ascii := ascii_of_N (Z.to_N z).

Definition in_range (lo hi : Z) (c : ascii) : bool :=
  (lo <=? byte_val c) && (byte_val c <=? hi).

Definition is_ascii_digit (c : ascii) : bool := in_range 48 57 c.
Definition is_ascii_upper (c : ascii) : bool := in_range 65 90 c.
Definition is_ascii_lower (c : ascii) : bool := in_range 97 122 c.
Definition is_ascii_alphabetic (c : ascii) : bool := is_ascii_upper c || is_ascii_lower c.
Definition is_ascii_alphanumeric (c : ascii) : bool :=
  is_ascii_alphabetic c || is_ascii_digit c.
(** [u8::is_ascii_whitespace]: space, tab, line feed, form feed, return. *)
Definition is_ascii_whitespace (c : ascii) : bool :=
  bool_decide (byte_val c ∈ [32; 9; 10; 12; 13]).

Definition to_ascii_lowercase (c : ascii) : ascii :=
  if is_ascii_upper c then byte_of (byte_val c + 32) else c.

(** [char::to_digit(16)] of the character with this byte's value. *)
Definition hex_digit (c : ascii) : option Z :=
  if is_ascii_digit c then Some (byte_val c - 48)
  else if in_range 65 70 c then Some (byte_val c - 55)
  else if in_range 97 102 c then Some (byte_val c - 87)
  else None.

(** The double quote, which no string literal of this development holds. *)
Definition DQ : ascii := "034"%char.
Definition dq : string := String DQ "".
Definition NL : ascii := "010"%char.
Definition nl : string := String NL "".

(** A literal written with single quotes for the double quotes it has. *)
Fixpoint jq (s : string) : string :=
  match s with
  | "" => ""
  | String c s' => String (if bool_decide (c = "'"%char) then DQ else c) (jq s')
  end.

(** ** Strings *)

Fixpoint str_map (f : ascii -> string) (s : string) : string :=
  match s with
  | "" => ""
  | String c s' => f c +:+ str_map f s'
  end.

Definition char_str (c : ascii) : string := String c "".

Fixpoint str_forallb (p : ascii -> bool) (s : string) : bool :=
  match s with
  | "" => true
  | String c s' => p c && str_forallb p s'
  end.

Definition str_len (s : string) : nat := String.length s.

Definition is_empty (s : string) : bool :=
  match s with "" => true | _ => false end.

Fixpoint strip_prefix (p s : string) : option string :=
  match p, s with
  | "", _ => Some s
  | String a p', String b s' => if bool_decide (a = b) then strip_prefix p' s' else None
  | String _ _, "" => None
  end.

Definition starts_with (p s : string) : bool :=
  match strip_prefix p s with Some _ => true | None => false end.

(** [str::contains(char)]. *)
Fixpoint contains_char (c : ascii) (s : string) : bool :=
  match s with
  | "" => false
  | String b s' => bool_decide (b = c) || contains_char c s'
  end.

(** [str::split_once(char)]. *)
Fixpoint split_once (c : ascii) (s : string) : option (string * string) :=
  match s with
  | "" => None
  | String b s' =>
      if bool_decide (b = c) then Some ("", s')
      else match split_once c s' with
           | Some (l, r) => Some (String b l, r)
           | None => None
           end
  end.

(** Successive [push_str]s. *)
Definition str_concat (l : list string) : string := foldr String.append "" l.

Fixpoint join (sep : string) (l : list string) : string :=
  match l with
  | [] => ""
  | [s] => s
  | s :: l' => s +:+ sep +:+ join sep l'
  end.

Definition str_lower (s : string) : string :=
  str_map (fun c => char_str (to_ascii_lowercase c)) s.

(** [eq_ignore_ascii_case]. *)
Definition eq_nocase (a b : string) : bool := bool_decide (str_lower a = str_lower b).

Fixpoint str_rev (s : string) : string :=
  match s with
  | "" => ""
  | String c s' => str_rev s' +:+ char_str c
  end.

(** The UTF-8 encodings of the characters with Unicode's White_Space property,
    what [char::is_whitespace] (and so [str::trim]) tests. *)
Definition byte_str (l : list Z) : string :=
  foldr (fun z s => String (byte_of z) s) "" l.
Definition ws_encodings : list string :=
  map byte_str
    ([[9]; [10]; [11]; [12]; [13]; [32]; [0xC2; 0x85]; [0xC2; 0xA0]; [0xE1; 0x9A; 0x80];
      [0xE2; 0x80; 0x80]; [0xE2; 0x80; 0x81]; [0xE2; 0x80; 0x82]; [0xE2; 0x80; 0x83];
      [0xE2; 0x80; 0x84]; [0xE2; 0x80; 0x85]; [0xE2; 0x80; 0x86]; [0xE2; 0x80; 0x87];
      [0xE2; 0x80; 0x88]; [0xE2; 0x80; 0x89]; [0xE2; 0x80; 0x8A]; [0xE2; 0x80; 0xA8];
      [0xE2; 0x80; 0xA9]; [0xE2; 0x80; 0xAF]; [0xE2; 0x81; 0x9F]; [0xE3; 0x80; 0x80]]).

Fixpoint strip_any (ps : list string) (s : string) : option string :=
  match ps with
  | [] => None
  | p :: ps' => match strip_prefix p s with
                | Some r => Some r
                | None => strip_any ps' s
                end
  end.

Fixpoint trim_fuel (ps : list string) (fuel : nat) (s : string) : string :=
  match fuel with
  | O => s
  | S fuel' => match strip_any ps s with
               | Some r => trim_fuel ps fuel' r
               | None => s
               end
  end.
Definition trim_start (s : string) : string := trim_fuel ws_encodings (str_len s) s.
Definition trim_end (s : string) : string :=
  str_rev (trim_fuel (map str_rev ws_encodings) (str_len s) (str_rev s)).
(** [str::trim]. *)
Definition trim (s : string) : string := trim_end (trim_start s).

(** ** UTF-8 *)

Definition cont (c : ascii) : bool := in_range 0x80 0xBF c.

(** The check of [String::from_utf8] (RFC 3629's well-formed sequences). *)
Fixpoint utf8_valid (s : string) : bool :=
  match s with
  | "" => true
  | String a s1 =>
      if byte_val a <? 0x80 then utf8_valid s1
      else match s1 with
      | "" => false
      | String b s2 =>
          if in_range 0xC2 0xDF a then cont b && utf8_valid s2
          else match s2 with
          | "" => false
          | String c s3 =>
              if in_range 0xE0 0xE0 a then in_range 0xA0 0xBF b && cont c && utf8_valid s3
              else if in_range 0xE1 0xEC a then cont b && cont c && utf8_valid s3
              else if in_range 0xED 0xED a then in_range 0x80 0x9F b && cont c && utf8_valid s3
              else if in_range 0xEE 0xEF a then cont b && cont c && utf8_valid s3
              else match s3 with
              | "" => false
              | String d s4 =>
                  if in_range 0xF0 0xF0 a
                  then in_range 0x90 0xBF b && cont c && cont d && utf8_valid s4
                  else if in_range 0xF1 0xF3 a
                  then cont b && cont c && cont d && utf8_valid s4
                  else if in_range 0xF4 0xF4 a
                  then in_range 0x80 0x8F b && cont c && cont d && utf8_valid s4
                  else false
              end
          end
      end
  end.

(** [String::from_utf8_lossy] puts this for what is not well formed. *)
Definition replacement : string := byte_str [0xEF; 0xBF; 0xBD].

(** The second byte that may follow [a] in a sequence of three or four. *)
Definition second_ok (a b : ascii) : bool :=
  (in_range 0xE0 0xE0 a && in_range 0xA0 0xBF b) || (in_range 0xE1 0xEC a && cont b) ||
  (in_range 0xED 0xED a && in_range 0x80 0x9F b) || (in_range 0xEE 0xEF a && cont b) ||
  (in_range 0xF0 0xF0 a && in_range 0x90 0xBF b) || (in_range 0xF1 0xF3 a && cont b) ||
  (in_range 0xF4 0xF4 a && in_range 0x80 0x8F b).

(** Each maximal prefix of a sequence that goes wrong is replaced. *)
Fixpoint from_utf8_lossy (s : string) : string :=
  match s with
  | "" => ""
  | String a s1 =>
      if byte_val a <? 0x80 then String a (from_utf8_lossy s1)
      else if in_range 0xC2 0xDF a then
        match s1 with
        | String b s2 => if cont b then String a (String b (from_utf8_lossy s2)) else replacement +:+ from_utf8_lossy s1
        | "" => replacement
        end
      else if in_range 0xE0 0xEF a then
        match s1 with
        | String b s2 =>
            if second_ok a b then
              match s2 with
              | String c s3 =>
                  if cont c then String a (String b (String c (from_utf8_lossy s3)))
                  else replacement +:+ from_utf8_lossy s2
              | "" => replacement
              end
            else replacement +:+ from_utf8_lossy s1
        | "" => replacement
        end
      else if in_range 0xF0 0xF4 a then
        match s1 with
        | String b s2 =>
            if second_ok a b then
              match s2 with
              | String c s3 =>
                  if cont c then
                    match s3 with
                    | String d s4 =>
                        if cont d then String a (String b (String c (String d (from_utf8_lossy s4))))
                        else replacement +:+ from_utf8_lossy s3
                    | "" => replacement
                    end
                  else replacement +:+ from_utf8_lossy s2
              | "" => replacement
              end
            else replacement +:+ from_utf8_lossy s1
        | "" => replacement
        end
      else replacement +:+ from_utf8_lossy s1
  end.


(** [String::from_utf8]. *)
Definition from_utf8 (bytes : list Byte.byte) : option string :=
  let s := String.string_of_list_byte bytes in
  if utf8_valid s then Some s else None.
Definition as_bytes (s : string) : list Byte.byte := String.list_byte_of_string s.

(** [str::chars]-free view of raw bytes: a [u8] from an integer and back. *)
Definition u8 (z : Z) : Byte.byte := byte_of_ascii (byte_of (z mod 256)).
Definition u8_val (b : Byte.byte) : Z := byte_val (ascii_of_byte b).

(** [Vec::len] and friends, as the mathematical integer. *)
Definition zlen {A} (l : list A) : Z := Z.of_nat (length l).

(** [put_u32_le(z as u32)] and [u32::from_le_bytes]. *)
Definition u32_le (z : Z) : list Byte.byte :=
  let w := z mod 2 ^ 32 in
  [u8 w; u8 (Z.shiftr w 8); u8 (Z.shiftr w 16); u8 (Z.shiftr w 24)].
Definition from_u32_le (bs : list Byte.byte) : Z :=
  foldr (fun b acc => Z.lor (u8_val b) (Z.shiftl acc 8)) 0 bs.

(** ** Integers as text *)

Definition I64_MIN : Z := - 2 ^ 63.
Definition I64_MAX : Z := 2 ^ 63 - 1.
(** [as i64] of an unsigned integer. *)
Definition as_i64 (z : Z) : Z := (z + 2 ^ 63) mod 2 ^ 64 - 2 ^ 63.
(** [i64] addition of one, wrapping at the width. *)
Definition i64_incr (z : Z) : Z := (z + 1 + 2 ^ 63) mod 2 ^ 64 - 2 ^ 63.
Definition U64_MAX : Z := 2 ^ 64 - 1.
Definition is_i64 (z : Z) : bool := (I64_MIN <=? z) && (z <=? I64_MAX).
Definition is_u64 (z : Z) : bool := (0 <=? z) && (z <=? U64_MAX).

(** [Display] of an integer. *)
Definition int_to_string (z : Z) : string := NilZero.string_of_int (Z.to_int z).

(** [core::num::IntErrorKind]. *)
Inductive IntErrorKind : Type := IntEmpty | InvalidDigit | PosOverflow | NegOverflow.

Definition dec_digit (c : ascii) : option Z :=
  if is_ascii_digit c then Some (byte_val c - 48) else None.

(** The digit loop of [from_str_radix(_, 10)]: checked multiply and add. *)
Fixpoint digits_go (neg : bool) (lo hi acc : Z) (s : string) : result IntErrorKind Z :=
  match s with
  | "" => Ok acc
  | String c s' =>
      match dec_digit c with
      | None => Err InvalidDigit
      | Some d =>
          let mul := acc * 10 in
          let v := if neg then mul - d else mul + d in
          if (lo <=? mul) && (mul <=? hi) && (lo <=? v) && (v <=? hi)
          then digits_go neg lo hi v s'
          else Err (if neg then NegOverflow else PosOverflow)
      end
  end.

(** [<int>::from_str] for an integer type with bounds [lo..=hi]; only a signed
    type reads a leading minus as a sign. *)
Definition parse_int (signed : bool) (lo hi : Z) (s : string) : result IntErrorKind Z :=
  match s with
  | "" => Err IntEmpty
  | String c s' =>
      if (bool_decide (c = "+"%char) || bool_decide (c = "-"%char)) && is_empty s'
      then Err InvalidDigit
      else if bool_decide (c = "+"%char) then digits_go false lo hi 0 s'
      else if bool_decide (c = "-"%char) && signed then digits_go true lo hi 0 s'
      else digits_go false lo hi 0 s
  end.
Definition parse_i64 : string -> result IntErrorKind Z := parse_int true I64_MIN I64_MAX.
Definition parse_u64 : string -> result IntErrorKind Z := parse_int false 0 U64_MAX.

(** The hexadecimal digits [format!] prints, upper and lower case. *)
Definition HEX_UPPER : string := "0123456789ABCDEF".
Definition HEX_LOWER : string := "0123456789abcdef".
Definition nibble (tbl : string) (z : Z) : ascii :=
  default "0"%char (String.get (Z.to_nat z) tbl).
(** [{b:02X}] / [{b:02x}] of a byte. *)
Definition hex2 (tbl : string) (z : Z) : string :=
  String (nibble tbl (z / 16)) (String (nibble tbl (z mod 16)) "").

#[export] Instance IntErrorKind_eq_dec : EqDecision IntErrorKind.
Proof. solve_decision. Defined.

(** ** Lemmas on bytes *)

Lemma byte_val_range c : 0 <= byte_val c < 256.
Proof. unfold byte_val. pose proof (N_ascii_bounded c). lia. Qed.

Lemma byte_of_val c : byte_of (byte_val c) = c.
Proof. unfold byte_of, byte_val. by rewrite N2Z.id, ascii_N_embedding. Qed.

Lemma byte_val_of z : 0 <= z < 256 -> byte_val (byte_of z) = z.
Proof. intros ?. unfold byte_of, byte_val. rewrite N_ascii_embedding; lia. Qed.

Lemma byte_val_inj c d : byte_val c = byte_val d -> c = d.
Proof. intros H. by rewrite <-(byte_of_val c), H, byte_of_val. Qed.

Lemma in_range_spec lo hi c : in_range lo hi c = true <-> lo <= byte_val c <= hi.
Proof. unfold in_range. lia. Qed.

(** ** Lemmas on strings *)

Lemma app_str_cons c s1 s2 : String c s1 +:+ s2 = String c (s1 +:+ s2).
Proof. done. Qed.

Lemma app_str_nil_l s : "" +:+ s = s.
Proof. done. Qed.

Lemma app_str_nil_r s : s +:+ "" = s.
Proof. induction s as [|c s IH]; [done|]. by rewrite app_str_cons, IH. Qed.

Lemma app_str_assoc s1 s2 s3 : (s1 +:+ s2) +:+ s3 = s1 +:+ s2 +:+ s3.
Proof. induction s1 as [|c s1 IH]; [done|]. by rewrite !app_str_cons, IH. Qed.

Lemma app_str_inj_l s s1 s2 : s +:+ s1 = s +:+ s2 -> s1 = s2.
Proof. induction s as [|c s IH]; [done|]. rewrite !app_str_cons. intros [= H]. auto. Qed.

Lemma str_len_cons c s : str_len (String c s) = S (str_len s).
Proof. done. Qed.

Lemma str_len_app s1 s2 : str_len (s1 +:+ s2) = (str_len s1 + str_len s2)%nat.
Proof. induction s1 as [|c s1 IH]; [done|]. rewrite app_str_cons. unfold str_len in *. cbn. lia. Qed.

#[export] Hint Rewrite app_str_nil_r app_str_nil_l app_str_assoc app_str_cons str_len_app : rsntr.

Lemma str_map_app f s1 s2 : str_map f (s1 +:+ s2) = str_map f s1 +:+ str_map f s2.
Proof.
  induction s1 as [|c s1 IH]; [done|].
  rewrite app_str_cons. cbn. by rewrite IH, app_str_assoc.
Qed.

Lemma str_forallb_app p s1 s2 :
  str_forallb p (s1 +:+ s2) = str_forallb p s1 && str_forallb p s2.
Proof.
  induction s1 as [|c s1 IH]; [done|].
  rewrite app_str_cons. cbn. by rewrite IH, andb_assoc.
Qed.

Lemma str_forallb_impl (p q : ascii -> bool) s :
  (forall c, p c = true -> q c = true) -> str_forallb p s = true -> str_forallb q s = true.
Proof.
  intros Hpq. induction s as [|c s IH]; cbn; [done|].
  intros [Hc Hs]%andb_prop. by rewrite Hpq, IH.
Qed.

Lemma str_forallb_map p f s :
  (forall c, str_forallb p (f c) = true) -> str_forallb p (str_map f s) = true.
Proof.
  intros Hf. induction s as [|c s IH]; cbn; [done|]. by rewrite str_forallb_app, Hf, IH.
Qed.

Lemma strip_prefix_app p s : strip_prefix p (p +:+ s) = Some s.
Proof.
  induction p as [|c p IH]; [by destruct s|].
  rewrite app_str_cons. cbn. by rewrite bool_decide_true.
Qed.

Lemma strip_prefix_Some p s r : strip_prefix p s = Some r <-> s = p +:+ r.
Proof.
  split; [|intros ->; apply strip_prefix_app].
  revert s. induction p as [|c p IH]; intros s.
  - rewrite app_str_nil_l. destruct s; cbn; congruence.
  - destruct s as [|d s]; cbn; [done|]. rewrite app_str_cons.
    case_bool_decide; [subst|done]. by intros ->%IH.
Qed.

Lemma str_rev_app s1 s2 : str_rev (s1 +:+ s2) = str_rev s2 +:+ str_rev s1.
Proof.
  induction s1 as [|c s1 IH]; [cbn; by rewrite app_str_nil_r|].
  rewrite app_str_cons. cbn. by rewrite IH, app_str_assoc.
Qed.

Lemma str_rev_involutive s : str_rev (str_rev s) = s.
Proof. induction s as [|c s IH]; [done|]. cbn. by rewrite str_rev_app, IH. Qed.

Lemma str_forallb_rev p s : str_forallb p (str_rev s) = str_forallb p s.
Proof.
  induction s as [|c s IH]; [done|]. cbn. rewrite str_forallb_app, IH. cbn.
  by rewrite andb_true_r, andb_comm.
Qed.

(** A string of printing ASCII bytes is its own [trim]. *)
Definition is_graphic (c : ascii) : bool := in_range 33 126 c.

Lemma strip_any_graphic ps s :
  Forall (fun p => exists c p', p = String c p' /\ is_graphic c = false) ps ->
  str_forallb is_graphic s = true -> strip_any ps s = None.
Proof.
  intros Hps Hs. induction Hps as [|p ps (c & p' & -> & Hc) _ IH]; cbn; [done|].
  destruct s as [|d s]; cbn in *; [done|].
  rewrite bool_decide_false; [done|]. intros ->. by rewrite Hc in Hs.
Qed.

Lemma ws_not_graphic : Forall (fun p => exists c p', p = String c p' /\ is_graphic c = false) ws_encodings.
Proof. unfold ws_encodings. repeat (constructor; [cbn; eauto|]). constructor. Qed.

Lemma ws_rev_not_graphic :
  Forall (fun p => exists c p', p = String c p' /\ is_graphic c = false) (map str_rev ws_encodings).
Proof. unfold ws_encodings. repeat (constructor; [cbn; eauto|]). constructor. Qed.

Lemma trim_graphic s : str_forallb is_graphic s = true -> trim s = s.
Proof.
  intros Hs. assert (Htf : forall ps n t,
    Forall (fun p => exists c p', p = String c p' /\ is_graphic c = false) ps ->
    str_forallb is_graphic t = true -> trim_fuel ps n t = t).
  { intros ps [|n] t Hps Ht; cbn; [done|]. by rewrite strip_any_graphic. }
  unfold trim, trim_end, trim_start. rewrite (Htf ws_encodings); auto using ws_not_graphic.
  rewrite Htf, str_rev_involutive; auto using ws_rev_not_graphic. by rewrite str_forallb_rev.
Qed.

(** ** Lemmas on UTF-8 *)

Lemma utf8_valid_app s1 s2 :
  utf8_valid s1 = true -> utf8_valid (s1 +:+ s2) = utf8_valid s2.
Proof.
  remember (str_len s1) as n eqn:Hn. assert (Hle : (String.length s1 <= n)%nat)
    by (unfold str_len in Hn; lia). clear Hn.
  revert s1 Hle. induction n as [|n IH]; intros [|a s1] Hle; cbn in Hle;
    [done|lia|done|].
  rewrite app_str_cons. cbn. case_match; [apply IH; lia|].
  destruct s1 as [|b s1]; [done|]. rewrite app_str_cons. cbn in Hle.
  case_match; [intros [-> ?]%andb_prop; apply IH; [lia|done]|].
  destruct s1 as [|c s1]; [done|]. rewrite app_str_cons. cbn in Hle.
  repeat (case_match; [intros [-> ?]%andb_prop; apply IH; [lia|done]|]).
  destruct s1 as [|d s1]; [done|]. rewrite app_str_cons. cbn in Hle.
  repeat (case_match; [intros [-> ?]%andb_prop; apply IH; [lia|done]|]).
  done.
Qed.

Definition is_ascii (c : ascii) : bool := byte_val c <? 128.

Lemma utf8_valid_ascii s : str_forallb is_ascii s = true -> utf8_valid s = true.
Proof.
  induction s as [|c s IH]; [done|]. cbn. unfold is_ascii at 1.
  intros [-> Hs]%andb_prop. auto.
Qed.

Lemma from_utf8_as_bytes s : utf8_valid s = true -> from_utf8 (as_bytes s) = Some s.
Proof.
  intros Hs. unfold from_utf8, as_bytes.
  by rewrite String.string_of_list_byte_of_string, Hs.
Qed.

(** ** Lemmas on integers as text *)

(** The value a digit string adds to [acc]. *)
Fixpoint uint_val (acc : Z) (d : Decimal.uint) : Z :=
  match d with
  | Decimal.Nil => acc
  | Decimal.D0 d => uint_val (acc * 10) d
  | Decimal.D1 d => uint_val (acc * 10 + 1) d
  | Decimal.D2 d => uint_val (acc * 10 + 2) d
  | Decimal.D3 d => uint_val (acc * 10 + 3) d
  | Decimal.D4 d => uint_val (acc * 10 + 4) d
  | Decimal.D5 d => uint_val (acc * 10 + 5) d
  | Decimal.D6 d => uint_val (acc * 10 + 6) d
  | Decimal.D7 d => uint_val (acc * 10 + 7) d
  | Decimal.D8 d => uint_val (acc * 10 + 8) d
  | Decimal.D9 d => uint_val (acc * 10 + 9) d
  end.

Lemma uint_val_ge d acc : 0 <= acc -> acc <= uint_val acc d.
Proof.
  revert acc. induction d as [|d IH|d IH|d IH|d IH|d IH|d IH|d IH|d IH|d IH|d IH];
    intros acc H; cbn [uint_val]; [lia|..]; (etrans; [|apply IH]; lia).
Qed.

Lemma uint_val_pos_acc d p : Z.pos (Pos.of_uint_acc d p) = uint_val (Z.pos p) d.
Proof.
  revert p. induction d as [|d IH|d IH|d IH|d IH|d IH|d IH|d IH|d IH|d IH|d IH];
    intros p; cbn [uint_val Pos.of_uint_acc]; [done|..]; rewrite IH; f_equal; lia.
Qed.

Lemma uint_val_of_uint d : Z.of_N (Pos.of_uint d) = uint_val 0 d.
Proof.
  induction d; cbn [Pos.of_uint uint_val]; [done|exact IHd|..];
    cbn [Z.of_N]; apply uint_val_pos_acc.
Qed.

Lemma digits_guard_pos lo hi mul v :
  lo <= 0 -> 0 <= mul <= v ->
  (lo <=? mul) && (mul <=? hi) && (lo <=? v) && (v <=? hi) = (v <=? hi).
Proof.
  intros ??. replace (lo <=? mul) with true by lia. replace (lo <=? v) with true by lia.
  destruct (Z.leb_spec v hi); [|by rewrite andb_false_r].
  by replace (mul <=? hi) with true by lia.
Qed.

Lemma digits_guard_neg lo hi mul v :
  0 <= hi -> v <= mul <= 0 ->
  (lo <=? mul) && (mul <=? hi) && (lo <=? v) && (v <=? hi) = (lo <=? v).
Proof.
  intros ??. replace (mul <=? hi) with true by lia. replace (v <=? hi) with true by lia.
  rewrite andb_true_r.
  destruct (Z.leb_spec lo v); [|by rewrite andb_false_r].
  by replace (lo <=? mul) with true by lia.
Qed.

(** The digit loop computes the value of a decimal numeral, or overflows. *)
Lemma digits_go_uint lo hi acc d :
  lo <= 0 -> 0 <= acc <= hi ->
  digits_go false lo hi acc (NilEmpty.string_of_uint d) =
  if uint_val acc d <=? hi then Ok (uint_val acc d) else Err PosOverflow.
Proof.
  intros Hlo. revert acc.
  induction d as [|d IH|d IH|d IH|d IH|d IH|d IH|d IH|d IH|d IH|d IH];
    intros acc Hacc; [cbn; by replace (acc <=? hi) with true by lia|..];
    cbn [uint_val NilEmpty.string_of_uint digits_go] in *;
    (match goal with |- context [dec_digit ?c] =>
       let d := eval vm_compute in (dec_digit c) in change (dec_digit c) with d end);
    cbn iota beta zeta; rewrite ?Z.add_0_r;
    (match goal with |- (if ?b then _ else _) = (if uint_val ?a _ <=? _ then _ else _) =>
       pose proof (uint_val_ge d a ltac:(lia)); destruct b eqn:? end);
    [by apply IH; lia|case_match; [lia|done]|..];
    try (by apply IH; lia); (case_match; [lia|done]).
Qed.

Lemma digits_go_uint_neg lo hi acc d :
  0 <= hi -> 0 <= acc -> lo <= - acc ->
  digits_go true lo hi (- acc) (NilEmpty.string_of_uint d) =
  if lo <=? - uint_val acc d then Ok (- uint_val acc d) else Err NegOverflow.
Proof.
  intros Hhi. revert acc.
  induction d as [|d IH|d IH|d IH|d IH|d IH|d IH|d IH|d IH|d IH|d IH];
    intros acc Hacc Hlo; [cbn; by replace (lo <=? - acc) with true by lia|..];
    cbn [uint_val NilEmpty.string_of_uint digits_go] in *;
    (match goal with |- context [dec_digit ?c] =>
       let d := eval vm_compute in (dec_digit c) in change (dec_digit c) with d end);
    cbn iota beta zeta;
    (match goal with |- (if ?b then digits_go _ _ _ ?v _ else _) = (if _ <=? - uint_val ?a _ then _ else _) =>
       pose proof (uint_val_ge d a ltac:(lia)); replace v with (- a) by lia;
       rewrite digits_guard_neg by lia; destruct (Z.leb_spec lo (- a)) end);
    try (by apply IH; lia); (case_match; [lia|done]).
Qed.

Definition is_int_byte (c : ascii) : bool := is_ascii_digit c || bool_decide (c = "-"%char).

Lemma string_of_uint_digits d : str_forallb is_ascii_digit (NilEmpty.string_of_uint d) = true.
Proof. induction d; cbn; done. Qed.

Lemma int_to_string_bytes z : str_forallb is_int_byte (int_to_string z) = true.
Proof.
  assert (Hd : forall d, str_forallb is_int_byte (NilZero.string_of_uint d) = true).
  { intros d. unfold NilZero.string_of_uint. destruct d; [done|..];
      (eapply str_forallb_impl; [|apply string_of_uint_digits];
       intros c Hc; unfold is_int_byte; by rewrite Hc). }
  unfold int_to_string, NilZero.string_of_int. destruct (Z.to_int z); [apply Hd|].
  cbn. apply Hd.
Qed.

Lemma int_to_string_graphic z : str_forallb is_graphic (int_to_string z) = true.
Proof.
  eapply str_forallb_impl; [|apply int_to_string_bytes]. intros c.
  unfold is_int_byte. rewrite orb_true_iff. intros [H|H].
  - unfold is_ascii_digit in H. apply in_range_spec in H. apply in_range_spec. lia.
  - case_bool_decide; [by subst|done].
Qed.

Lemma parse_int_uint signed lo hi d :
  d <> Decimal.Nil -> lo <= 0 <= hi ->
  parse_int signed lo hi (NilEmpty.string_of_uint d) =
  if uint_val 0 d <=? hi then Ok (uint_val 0 d) else Err PosOverflow.
Proof.
  intros Hd Hr. rewrite <-(digits_go_uint lo hi 0 d) by lia.
  destruct d; [done|..]; reflexivity.
Qed.

Lemma parse_int_uint_neg lo hi d :
  d <> Decimal.Nil -> lo <= 0 <= hi ->
  parse_int true lo hi (String "-" (NilEmpty.string_of_uint d)) =
  if lo <=? - uint_val 0 d then Ok (- uint_val 0 d) else Err NegOverflow.
Proof.
  intros Hd Hr. rewrite <-(digits_go_uint_neg lo hi 0 d) by lia.
  destruct d; [done|..]; reflexivity.
Qed.

Lemma pos_to_uint_nonnil p : Pos.to_uint p <> Decimal.Nil.
Proof. apply DecimalPos.Unsigned.to_uint_nonnil. Qed.

Lemma uint_val_pos p : uint_val 0 (Pos.to_uint p) = Z.pos p.
Proof. by rewrite <-uint_val_of_uint, DecimalPos.Unsigned.of_to. Qed.

Lemma NilZero_nonnil d : d <> Decimal.Nil -> NilZero.string_of_uint d = NilEmpty.string_of_uint d.
Proof. by destruct d. Qed.

(** Parsing a printed integer gives it back when it is in range, and reports
    the overflow otherwise. *)
Lemma parse_int_print signed lo hi z :
  lo <= 0 <= hi -> (signed = true \/ 0 <= z) ->
  parse_int signed lo hi (int_to_string z) =
  if (lo <=? z) && (z <=? hi) then Ok z else Err (if 0 <=? z then PosOverflow else NegOverflow).
Proof.
  intros H0 Hs. unfold int_to_string, NilZero.string_of_int.
  destruct z as [|p|p]; cbn [Z.to_int].
  - rewrite (parse_int_uint _ _ _ (Decimal.D0 Decimal.Nil)) by done.
    change (uint_val 0 (Decimal.D0 Decimal.Nil)) with 0.
    by rewrite !(proj2 (Z.leb_le _ _)) by lia.
  - rewrite NilZero_nonnil, parse_int_uint, uint_val_pos by (done || lia || apply pos_to_uint_nonnil).
    by rewrite (proj2 (Z.leb_le lo _)) by lia.
  - destruct Hs as [->|Hs]; [|lia].
    rewrite NilZero_nonnil, parse_int_uint_neg, uint_val_pos
      by (done || lia || apply pos_to_uint_nonnil).
    change (- Z.pos p) with (Z.neg p).
    by rewrite (proj2 (Z.leb_le (Z.neg p) hi)), andb_true_r by lia.
Qed.

Lemma parse_i64_print z :
  parse_i64 (int_to_string z) =
  if is_i64 z then Ok z else Err (if 0 <=? z then PosOverflow else NegOverflow).
Proof. apply parse_int_print; unfold I64_MIN, I64_MAX; [lia|by left]. Qed.

Lemma parse_i64_to_string z : is_i64 z = true -> parse_i64 (int_to_string z) = Ok z.
Proof. rewrite parse_i64_print. by intros ->. Qed.

Lemma parse_u64_to_string z : is_u64 z = true -> parse_u64 (int_to_string z) = Ok z.
Proof.
  unfold is_u64. intros Hz. unfold parse_u64. rewrite parse_int_print; unfold U64_MAX in *; [|lia..].
  by rewrite Hz.
Qed.

Lemma digits_go_range neg lo hi acc s z :
  lo <= acc <= hi -> digits_go neg lo hi acc s = Ok z -> lo <= z <= hi.
Proof.
  revert acc. induction s as [|c s IH]; intros acc Hacc; cbn; [by intros [= ->]|].
  destruct (dec_digit c); [|done]. case_match; [|done]. apply IH. lia.
Qed.

(** A parsed integer is in the type's range. *)
Lemma parse_int_range signed lo hi s z :
  lo <= 0 <= hi -> parse_int signed lo hi s = Ok z -> lo <= z <= hi.
Proof.
  intros H0. unfold parse_int. destruct s as [|c s]; [done|].
  intros Hp. repeat (case_match; try done); by eapply digits_go_range.
Qed.

Lemma parse_i64_range s z : parse_i64 s = Ok z -> is_i64 z = true.
Proof.
  intros H%parse_int_range; unfold is_i64; unfold I64_MIN, I64_MAX in *; lia.
Qed.

(** ** Hexadecimal *)

Lemma hex_digit_nibble_upper z : 0 <= z < 16 -> hex_digit (nibble HEX_UPPER z) = Some z.
Proof.
  intros Hz. assert (z ∈ seqZ 0 16) as Hin by (apply elem_of_seqZ; lia). clear Hz.
  revert z Hin. apply Forall_forall. by repeat constructor.
Qed.

Lemma nibble_upper_plain z :
  0 <= z < 16 -> is_ascii_alphanumeric (nibble HEX_UPPER z) = true.
Proof.
  intros Hz. assert (z ∈ seqZ 0 16) as Hin by (apply elem_of_seqZ; lia). clear Hz.
  revert z Hin. apply Forall_forall. by repeat constructor.
Qed.

(** ** Lemmas on raw bytes *)

Lemma u8_val_range b : 0 <= u8_val b < 256.
Proof. apply byte_val_range. Qed.

Lemma u8_val_u8 z : u8_val (u8 z) = z mod 256.
Proof.
  unfold u8_val, u8. rewrite ascii_of_byte_of_ascii, byte_val_of; [done|].
  apply Z.mod_pos_bound. lia.
Qed.

Lemma u32_le_length z : length (u32_le z) = 4%nat.
Proof. done. Qed.

(** [Z.lor] of a byte and a shifted value is their sum. *)
Lemma lor_shiftl_byte x y : 0 <= x < 256 -> Z.lor x (Z.shiftl y 8) = x + y * 256.
Proof.
  intros Hx. rewrite Z.shiftl_mul_pow2 by lia.
  assert (Hand : Z.land x (y * 2 ^ 8) = 0).
  { rewrite <-(Z.mod_small x (2 ^ 8)) by lia. rewrite <-Z.land_ones by lia.
    apply Z.bits_inj'. intros n Hn. rewrite !Z.land_spec, Z.bits_0.
    destruct (Z.ltb_spec n 8).
    - by rewrite Z.mul_pow2_bits_low, andb_false_r by lia.
    - by rewrite Z.ones_spec_high, andb_false_r by lia. }
  by rewrite <-Z.lxor_lor, <-Z.add_nocarry_lxor by done.
Qed.

Lemma from_u32_le_u32_le z : 0 <= z < 2 ^ 32 -> from_u32_le (u32_le z) = z.
Proof.
  intros Hz. unfold u32_le, from_u32_le. rewrite Z.mod_small by done. cbn [foldr].
  rewrite !lor_shiftl_byte by apply u8_val_range. rewrite !u8_val_u8.
  rewrite !Z.shiftr_div_pow2 by lia. divlia.
Qed.

Lemma from_u32_le_range bs : 0 <= from_u32_le bs.
Proof.
  induction bs as [|b bs IH]; [done|].
  change (0 <= Z.lor (u8_val b) (Z.shiftl (from_u32_le bs) 8)).
  rewrite lor_shiftl_byte by apply u8_val_range. pose proof (u8_val_range b). lia.
Qed.

Lemma u8_of_val z b : z mod 256 = u8_val b -> u8 z = b.
Proof.
  unfold u8, u8_val. intros ->. by rewrite byte_of_val, byte_of_ascii_of_byte.
Qed.

Lemma u32_le_from_u32_le bs : length bs = 4%nat -> u32_le (from_u32_le bs) = bs.
Proof.
  destruct bs as [|b0 [|b1 [|b2 [|b3 [|]]]]]; try done. intros _.
  unfold from_u32_le, u32_le. cbn [foldr].
  rewrite !lor_shiftl_byte by apply u8_val_range.
  pose proof (u8_val_range b0). pose proof (u8_val_range b1).
  pose proof (u8_val_range b2). pose proof (u8_val_range b3).
  rewrite Z.mod_small by lia. rewrite !Z.shiftr_div_pow2 by lia.
  repeat f_equal; apply u8_of_val; divlia.
Qed.

Lemma as_bytes_of_bytes bs : as_bytes (String.string_of_list_byte bs) = bs.
Proof. apply String.list_byte_of_string_of_list_byte. Qed.

Lemma as_bytes_length s : length (as_bytes s) = str_len s.
Proof.
  unfold as_bytes, str_len, String.list_byte_of_string. rewrite length_map.
  induction s as [|c s IH]; [done|]. cbn. by f_equal.
Qed.
