(* ===== verification/Collections.v ===== *)
(** * Collections: the standard library's ordered maps and sets

    A [BTreeMap] is a finite map together with its iteration order, the
    bytewise order of its keys; a [BTreeSet] a finite set likewise. Maps with
    the same bindings are equal, so the order is a function of the value. *)

From S2P Require Import Prelude RustStd.
From stdpp Require Export sorting.

(** [BTreeSet<String>]: the elements in order. *)
Definition bs_iter (s : gset string) : list string := merge_sort String.le (elements s).

(** [BTreeMap<String, A>]: the keys and the entries in order. *)
Definition bt_keys {A} (m : gmap string A) : list string := bs_iter (dom m).

Definition bt_iter {A} (m : gmap string A) : list (string * A) :=
  omap (fun k => (k,.) <$> m !! k) (bt_keys m).

(** [BTreeMap::from_iter]: a later entry replaces an earlier one. *)
Definition bt_from_iter {A} (l : list (string * A)) : gmap string A :=
  foldl (fun m '(k, a) => <[k := a]> m) ∅ l.

(** ** Lemmas *)

Lemma elem_of_bs_iter x s : x ∈ bs_iter s <-> x ∈ s.
Proof. unfold bs_iter. by rewrite merge_sort_Permutation, elem_of_elements. Qed.

Lemma bs_iter_nil s : bs_iter s = [] -> s = ∅.
Proof.
  intros Hs. apply set_eq. intros x. rewrite <-elem_of_bs_iter, Hs. set_solver.
Qed.

Lemma bs_iter_sorted s : StronglySorted String.le (bs_iter s).
Proof. apply StronglySorted_merge_sort; apply _. Qed.

Lemma bs_iter_inj s1 s2 : bs_iter s1 = bs_iter s2 -> s1 = s2.
Proof. intros Hs. apply set_eq. intros x. by rewrite <-!elem_of_bs_iter, Hs. Qed.

Lemma elem_of_bt_keys {A} x (m : gmap string A) : x ∈ bt_keys m <-> is_Some (m !! x).
Proof. unfold bt_keys. by rewrite elem_of_bs_iter, elem_of_dom. Qed.

Lemma bt_keys_nil {A} (m : gmap string A) : bt_keys m = [] <-> m = ∅.
Proof.
  split; [|by intros ->]. intros Hk%bs_iter_nil. by apply dom_empty_iff_L.
Qed.

Lemma elem_of_bt_iter {A} k a (m : gmap string A) : (k, a) ∈ bt_iter m <-> m !! k = Some a.
Proof.
  unfold bt_iter. rewrite list_elem_of_omap. split.
  - intros (k' & _ & Hk). destruct (m !! k') eqn:E; by simplify_eq/=.
  - intros Hk. exists k. rewrite elem_of_bt_keys, Hk. naive_solver.
Qed.

Lemma bt_iter_inj {A} (m1 m2 : gmap string A) : bt_iter m1 = bt_iter m2 -> m1 = m2.
Proof.
  intros Hm. apply map_eq. intros k. apply option_eq. intros a.
  by rewrite <-!elem_of_bt_iter, Hm.
Qed.

(** Sorting is determined by the elements when distinct elements are
    distinguished by the order. *)
Lemma merge_sort_unique {A} (R : relation A) `{!forall x y, base.Decision (R x y), !Transitive R, !Total R} l1 l2 :
  (forall x y, x ∈ l1 -> y ∈ l1 -> R x y -> R y x -> x = y) -> l1 ≡ₚ l2 ->
  merge_sort R l1 = merge_sort R l2.
Proof.
  intros Hanti Hl. apply (StronglySorted_unique_strong R).
  - intros x y Hx Hy. rewrite merge_sort_Permutation in Hx, Hy. rewrite <-Hl in Hy. auto.
  - apply StronglySorted_merge_sort; apply _.
  - apply StronglySorted_merge_sort; apply _.
  - by rewrite !merge_sort_Permutation.
Qed.
