(* ===== verification/Effect.v ===== *)
(** * Effect: code over a state that may fail

    Computations that read and write a state and may stop with an error, the
    shape of the methods over a database connection: sequencing, loops that
    stop at the first error, and invariants. *)

From S2P Require Import Prelude.

Definition Eff (S E A : Type) : Type := S -> result E A * S.

Section effects.
Context {S E : Type}.

Definition eret {A} (a : A) : Eff S E A := fun s => (Ok a, s).
Definition ethrow {A} (e : E) : Eff S E A := fun s => (Err e, s).
Definition ebind {A B} (f : A -> Eff S E B) (m : Eff S E A) : Eff S E B :=
  fun s => match m s with
           | (Ok a, s') => f a s'
           | (Err e, s') => (Err e, s')
           end.

(** [?] on a value that is already there. *)
Definition elift {A} (r : result E A) : Eff S E A := fun s => (r, s).

(** Code that cannot fail, but reads and writes the state. *)
Definition etotal {A} (f : S -> A * S) : Eff S E A := fun s => let '(a, s') := f s in (Ok a, s').

(** [for a in l { .. }], threading a local [b]; an [Err] leaves the loop. *)
Fixpoint efold {A B} (f : B -> A -> Eff S E B) (b : B) (l : list A) : Eff S E B :=
  match l with
  | [] => eret b
  | a :: l' => ebind (fun b' => efold f b' l') (f b a)
  end.
End effects.

(** [.map_err(g)]. *)
Definition emap_err {S E F A} (g : E -> F) (m : Eff S E A) : Eff S F A :=
  fun s => match m s with
           | (Ok a, s') => (Ok a, s')
           | (Err e, s') => (Err (g e), s')
           end.

Notation "'let*' x := m 'in' k" := (ebind (fun x => k) m)
  (at level 10, x pattern, m at level 200, k at level 200,
   format "'[v' 'let*'  x  :=  m  'in' '/' k ']'") : rsntr_scope.

(** ** Hoare triples *)

Section hoare.
Context {S E : Type}.

(** From a state in [P]: a value and a state in [Q], or an error and a state in
    [R]. *)
Definition hoare {A} (P : S -> Prop) (m : Eff S E A) (Q : A -> S -> Prop) (R : S -> Prop) : Prop :=
  forall s, P s -> match m s with
                   | (Ok a, s') => Q a s'
                   | (Err _, s') => R s'
                   end.

Lemma hoare_ret {A} (a : A) (Q : A -> S -> Prop) R : hoare (Q a) (eret a) Q R.
Proof. by intros s H. Qed.

Lemma hoare_bind {A B} P (m : Eff S E A) (f : A -> Eff S E B) Q Q' R :
  hoare P m Q R -> (forall a, hoare (Q a) (f a) Q' R) -> hoare P (ebind f m) Q' R.
Proof.
  intros Hm Hf s Hs. specialize (Hm s Hs). unfold ebind. destruct (m s) as [[a|e] s']; [|done].
  by apply Hf.
Qed.

Lemma hoare_conseq {A} (P P' : S -> Prop) (m : Eff S E A) (Q Q' : A -> S -> Prop) (R R' : S -> Prop) :
  hoare P' m Q' R' -> (forall s, P s -> P' s) -> (forall a s, Q' a s -> Q a s) -> (forall s, R' s -> R s) ->
  hoare P m Q R.
Proof.
  intros Hm HP HQ HR s Hs. specialize (Hm s (HP s Hs)). destruct (m s) as [[a|e] s']; auto.
Qed.

Lemma hoare_pre {A} (P P' : S -> Prop) (m : Eff S E A) Q R :
  hoare P' m Q R -> (forall s, P s -> P' s) -> hoare P m Q R.
Proof. intros Hm HP. by eapply hoare_conseq. Qed.

Lemma hoare_lift {A} (r : result E A) (P : S -> Prop) : hoare P (elift r) (fun a s => r = Ok a /\ P s) P.
Proof. intros s Hs. cbn. by destruct r. Qed.

Lemma hoare_fold {A B} (f : B -> A -> Eff S E B) (Inv : B -> list A -> S -> Prop) R :
  (forall b a l, hoare (Inv b (a :: l)) (f b a) (fun b' s => Inv b' l s) R) ->
  forall l b, hoare (Inv b l) (efold f b l) (fun b' s => Inv b' [] s) R.
Proof.
  intros Hf l. induction l as [|a l IH]; intros b; cbn [efold]; [by intros s Hs|].
  eapply hoare_bind; [apply Hf|]. intros b'. apply IH.
Qed.
End hoare.

(** Triples whose error condition also looks at the error. *)
Section triples.
Context {S E : Type}.

Definition triple {A} (P : S -> Prop) (m : Eff S E A) (Q : A -> S -> Prop) (R : E -> S -> Prop) : Prop :=
  forall s, P s -> match m s with
                   | (Ok a, s') => Q a s'
                   | (Err e, s') => R e s'
                   end.

Lemma triple_ret {A} (a : A) (Q : A -> S -> Prop) R : triple (Q a) (eret a) Q R.
Proof. by intros s H. Qed.

Lemma triple_bind {A B} P (m : Eff S E A) (f : A -> Eff S E B) Q Q' R :
  triple P m Q R -> (forall a, triple (Q a) (f a) Q' R) -> triple P (ebind f m) Q' R.
Proof.
  intros Hm Hf s Hs. specialize (Hm s Hs). unfold ebind. destruct (m s) as [[a|e] s']; [|done].
  by apply Hf.
Qed.

Lemma triple_conseq {A} (P P' : S -> Prop) (m : Eff S E A) (Q Q' : A -> S -> Prop) (R R' : E -> S -> Prop) :
  triple P' m Q' R' -> (forall s, P s -> P' s) -> (forall a s, Q' a s -> Q a s) -> (forall e s, R' e s -> R e s) ->
  triple P m Q R.
Proof.
  intros Hm HP HQ HR s Hs. specialize (Hm s (HP s Hs)). destruct (m s) as [[a|e] s']; auto.
Qed.

Lemma triple_pre {A} (P P' : S -> Prop) (m : Eff S E A) Q R :
  triple P' m Q R -> (forall s, P s -> P' s) -> triple P m Q R.
Proof. intros Hm HP. by eapply triple_conseq. Qed.

Lemma triple_lift {A} (r : result E A) (P : S -> Prop) (R : E -> S -> Prop) :
  (forall e s, P s -> r = Err e -> R e s) -> triple P (elift r) (fun a s => r = Ok a /\ P s) R.
Proof. intros HR s Hs. cbn. destruct r; [done|]. by apply HR. Qed.

(** A condition that does not depend on the state. *)
Lemma triple_pure {A} (X : Prop) (P : S -> Prop) (m : Eff S E A) Q R :
  (X -> triple P m Q R) -> triple (fun s => X /\ P s) m Q R.
Proof. intros H s [HX HP]. by apply H. Qed.
End triples.
