(* ===== verification/Vocab.v ===== *)
(** * Vocab: the [rsntr:] vocabulary and the protocol's errors

    Models [crates/protocol/src/vocab.rs] and [crates/protocol/src/error.rs].
    IRIs are plain strings; [cls_X] is the source's [cls::X], [prop_X] its
    [prop::X]. *)

From S2P Require Import Prelude RustStd.

Definition RSNTR_NS : string := "http://resonator.network/v3/rsntr#".
Definition XSD_NS : string := "http://www.w3.org/2001/XMLSchema#".
Definition RDF_NS : string := "http://www.w3.org/1999/02/22-rdf-syntax-ns#".
Definition RDFS_NS : string := "http://www.w3.org/2000/01/rdf-schema#".

Definition IMPLIED_PREFIXES : list (string * string) :=
  [("rsntr", RSNTR_NS); ("xsd", XSD_NS); ("rdf", RDF_NS); ("rdfs", RDFS_NS)].

Definition rsntr_iri (local : string) : string := RSNTR_NS +:+ local.

(** ** Envelope classes *)

Definition cls_QUERY : string := rsntr_iri "Query".
Definition cls_EXECUTE : string := rsntr_iri "Execute".
Definition cls_RESULT : string := rsntr_iri "Result".
Definition cls_ROW : string := rsntr_iri "Row".
Definition cls_DONE : string := rsntr_iri "Done".
Definition cls_DENIED : string := rsntr_iri "Denied".
Definition cls_ERROR : string := rsntr_iri "Error".
Definition cls_HELLO : string := rsntr_iri "Hello".
Definition cls_KNOCK : string := rsntr_iri "Knock".
Definition cls_PRESENCE : string := rsntr_iri "Presence".
Definition cls_DECISION : string := rsntr_iri "Decision".
Definition cls_HELP : string := rsntr_iri "Help".
Definition cls_MEDIA : string := rsntr_iri "Media".
Definition cls_GRAPH : string := rsntr_iri "Graph".
Definition cls_BLOB_REF : string := rsntr_iri "BlobRef".
Definition cls_MESSAGE : string := rsntr_iri "Message".
Definition cls_PROJECTION : string := rsntr_iri "Projection".
Definition cls_RESONANCE_POINT : string := rsntr_iri "ResonancePoint".
Definition cls_EXCITABLE : string := rsntr_iri "Excitable".
Definition cls_RADIANT : string := rsntr_iri "Radiant".
Definition cls_SYMPATHETIC : string := rsntr_iri "Sympathetic".
Definition cls_COUPLING : string := rsntr_iri "Coupling".
Definition cls_FIELD : string := rsntr_iri "Field".
Definition cls_ENTRAIN : string := rsntr_iri "Entrain".
Definition cls_VIBRATION : string := rsntr_iri "Vibration".
Definition cls_DAMP : string := rsntr_iri "Damp".

(** ** Envelope properties *)

Definition prop_ID : string := rsntr_iri "id".
Definition prop_MOD : string := rsntr_iri "mod".
Definition prop_SIGNAL : string := rsntr_iri "signal".
Definition prop_PARAMS : string := rsntr_iri "params".
Definition prop_DATABASE : string := rsntr_iri "database".
Definition prop_ROW_LIMIT : string := rsntr_iri "rowLimit".
Definition prop_BYTE_LIMIT : string := rsntr_iri "byteLimit".
Definition prop_TIMEOUT_MS : string := rsntr_iri "timeoutMs".
Definition prop_COLUMN : string := rsntr_iri "column".
Definition prop_DECL_TYPE : string := rsntr_iri "declType".
Definition prop_SEQ : string := rsntr_iri "seq".
Definition prop_ROW_COUNT : string := rsntr_iri "rowCount".
Definition prop_AFFECTED_ROWS : string := rsntr_iri "affectedRows".
Definition prop_LAST_INSERT_ROWID : string := rsntr_iri "lastInsertRowid".
Definition prop_TRUNCATED : string := rsntr_iri "truncated".
Definition prop_CODE : string := rsntr_iri "code".
Definition prop_REASON : string := rsntr_iri "reason".
Definition prop_VER : string := rsntr_iri "ver".
Definition prop_ENC : string := rsntr_iri "enc".
Definition prop_MODS : string := rsntr_iri "mods".
Definition prop_HINT : string := rsntr_iri "hint".
Definition prop_TOPIC : string := rsntr_iri "topic".
Definition prop_CONTENT_TYPE : string := rsntr_iri "contentType".
Definition prop_ACCEPTS : string := rsntr_iri "accepts".
Definition prop_AT : string := rsntr_iri "at".
Definition prop_STATUS : string := rsntr_iri "status".
Definition prop_ENDPOINT : string := rsntr_iri "endpoint".
Definition prop_MESSAGE : string := rsntr_iri "message".
Definition prop_DECISION : string := rsntr_iri "decision".
Definition prop_DECIDED_BY : string := rsntr_iri "decidedBy".
Definition prop_HASH : string := rsntr_iri "hash".
Definition prop_BYTES : string := rsntr_iri "bytes".
Definition prop_NULL : string := rsntr_iri "null".
Definition prop_FROM : string := rsntr_iri "from".
Definition prop_ROOM : string := rsntr_iri "room".
Definition prop_BODY : string := rsntr_iri "body".
Definition prop_ATTACHMENT : string := rsntr_iri "attachment".
Definition prop_RE : string := rsntr_iri "re".
Definition prop_TAG : string := rsntr_iri "tag".
Definition prop_OFFERS : string := rsntr_iri "offers".
Definition prop_PROJECTS : string := rsntr_iri "projects".
Definition prop_COUPLING : string := rsntr_iri "coupling".
Definition prop_FIELD : string := rsntr_iri "field".
Definition prop_NAME : string := rsntr_iri "name".
Definition prop_DATATYPE : string := rsntr_iri "datatype".
Definition prop_REQUIRED : string := rsntr_iri "required".
Definition prop_DEFAULT : string := rsntr_iri "default".
Definition prop_ONE_OF : string := rsntr_iri "oneOf".
Definition prop_ICON : string := rsntr_iri "icon".
Definition prop_ROLE : string := rsntr_iri "role".
Definition prop_FIRES : string := rsntr_iri "fires".
Definition prop_SIGNAL_TEMPLATE : string := rsntr_iri "signalTemplate".
Definition prop_PARAMS_ORDER : string := rsntr_iri "paramsOrder".
Definition prop_POINT : string := rsntr_iri "point".

Definition RDFS_LABEL : string := "http://www.w3.org/2000/01/rdf-schema#label".
Definition RDFS_COMMENT : string := "http://www.w3.org/2000/01/rdf-schema#comment".
Definition PROJECTION_CHANGED : string := "urn:rsntr:projection-changed".
Definition XSD_BASE64_BINARY : string := "http://www.w3.org/2001/XMLSchema#base64Binary".
Definition COL_PREFIX : string := "col_".

(** The IRIs of [oxrdf::vocab] the code names. *)
Definition RDF_TYPE : string := RDF_NS +:+ "type".
Definition RDF_FIRST : string := RDF_NS +:+ "first".
Definition RDF_REST : string := RDF_NS +:+ "rest".
Definition RDF_NIL : string := RDF_NS +:+ "nil".
Definition XSD_STRING : string := XSD_NS +:+ "string".
Definition XSD_INTEGER : string := XSD_NS +:+ "integer".
Definition XSD_DOUBLE : string := XSD_NS +:+ "double".
Definition XSD_FLOAT : string := XSD_NS +:+ "float".
Definition XSD_DECIMAL : string := XSD_NS +:+ "decimal".

(** [mod_matches]: does a requested mod tag match an advertised one? *)
Definition mod_matches (requested advertised : string) : bool :=
  bool_decide (advertised = requested) ||
  match strip_prefix requested advertised with
  | Some rest =>
      match strip_prefix "-" rest with
      | Some v => match v with
                  | "" => false
                  | String c _ => is_ascii_digit c
                  end
      | None => false
      end
  | None => false
  end.

(** ** Errors *)

(** A formatted message is kept as the arguments of its [format!]: literal
    text and displayed values ([L]), and strings under [{:?}] ([D]), whose
    escaped rendering is not computed. *)
Inductive piece : Type :=
| L (s : string)
| D (s : string).
Abbreviation msg := (list piece).

Inductive ProtocolError : Type :=
| FrameTooLarge (len : Z)
| TruncatedFrame (remaining : Z)
| InvalidUtf8
| Syntax (e : string)
| Malformed (m : msg)
| Choreography (m : msg).

Definition malformed (m : msg) : ProtocolError := Malformed m.
Definition choreography (m : msg) : ProtocolError := Choreography m.

Inductive ErrorCode : Type :=
| AuthDenied
| Timeout
| LimitExceeded
| ModUnsupported
| EngineError
| ProtocolErrorCode
| PointUnknown.

Definition ErrorCode_ALL : list ErrorCode :=
  [AuthDenied; Timeout; LimitExceeded; ModUnsupported; EngineError; ProtocolErrorCode;
   PointUnknown].

Definition ErrorCode_as_str (c : ErrorCode) : string :=
  match c with
  | AuthDenied => "auth-denied"
  | Timeout => "timeout"
  | LimitExceeded => "limit-exceeded"
  | ModUnsupported => "mod-unsupported"
  | EngineError => "engine-error"
  | ProtocolErrorCode => "protocol-error"
  | PointUnknown => "point-unknown"
  end.

Definition ErrorCode_from_str (s : string) : result ProtocolError ErrorCode :=
  ok_or (malformed [L "unknown error code "; D s])
    (head (filter (fun c => ErrorCode_as_str c = s) ErrorCode_ALL)).

#[export] Instance piece_eq_dec : EqDecision piece.
Proof. solve_decision. Defined.
#[export] Instance ProtocolError_eq_dec : EqDecision ProtocolError.
Proof. solve_decision. Defined.
#[export] Instance ErrorCode_eq_dec : EqDecision ErrorCode.
Proof. solve_decision. Defined.

(** ** Properties *)

(** The error codes and their wire forms are in bijection: a wire text decodes
    to a code exactly when it is that code's text, anything else is a
    malformed-envelope error. *)
Theorem ErrorCode_wire_roundtrip (s : string) :
  (forall c, ErrorCode_from_str s = Ok c <-> s = ErrorCode_as_str c) /\
  ((forall c, s <> ErrorCode_as_str c) ->
   ErrorCode_from_str s = Err (Malformed [L "unknown error code "; D s])).
Proof.
  unfold ErrorCode_from_str, ErrorCode_ALL. split.
  - intros c. split.
    + intros H%ok_or_Ok.
      assert (Hin : c ∈ filter (fun c => ErrorCode_as_str c = s) ErrorCode_ALL).
      { unfold ErrorCode_ALL. apply list_elem_of_lookup. exists 0%nat.
        by rewrite <-head_lookup. }
      by apply list_elem_of_filter in Hin as [<- _].
    + intros ->. by destruct c.
  - intros Hs. rewrite filter_none; [done|]. apply Forall_forall. intros c _ H. by eapply Hs.
Qed.

(** A mod tag matches itself and its versioned forms (the tag, a dash, and a
    version starting with a digit), and nothing else. *)
Theorem mod_matches_spec (requested advertised : string) :
  mod_matches requested advertised = true <->
  advertised = requested \/
  exists d v, is_ascii_digit d = true /\ advertised = requested +:+ "-" +:+ String d v.
Proof.
  unfold mod_matches. rewrite orb_true_iff, bool_decide_eq_true. apply or_iff_compat_l. split.
  - repeat case_match; try done. intros Hd. eexists _, _. split; [done|].
    apply strip_prefix_Some in H as ->. by apply strip_prefix_Some in H0 as ->.
  - intros (d & v & Hd & ->). by rewrite !strip_prefix_app.
Qed.
