(* ===== verification/External.v ===== *)
(** * External: the interfaces of the code that is not in the repository

    The RDF data model as the code matches on it ([oxrdf]'s public types), and
    one type class per external library: its operations are parameters of the
    definitions that use them, and the behaviour the code relies on is a class
    of laws, required only by the theorems that need it. *)

From S2P Require Import Prelude RustStd.

(** ** RDF terms ([oxrdf]) *)

(** A [NamedNode] is its IRI; a [BlankNode] its label. *)
Inductive NamedOrBlankNode : Type :=
| NNode (iri : string)
| BNode (id : string).

Record Literal : Type := mkLiteral {
  lit_value : string;
  lit_datatype : string;
  lit_language : option string
}.

Inductive Term : Type :=
| TNamed (iri : string)
| TBlank (id : string)
| TLit (l : Literal).

Record Triple : Type := mkTriple {
  subject : NamedOrBlankNode;
  predicate : string;
  object : Term
}.

#[export] Instance NamedOrBlankNode_eq_dec : EqDecision NamedOrBlankNode.
Proof. solve_decision. Defined.
#[export] Instance Literal_eq_dec : EqDecision Literal.
Proof. solve_decision. Defined.
#[export] Instance Term_eq_dec : EqDecision Term.
Proof. solve_decision. Defined.
#[export] Instance Triple_eq_dec : EqDecision Triple.
Proof. solve_decision. Defined.

(** The [Display] implementations of [oxrdf]. *)
Class OxDisplay : Type := {
  show_named : string -> string;
  show_node : NamedOrBlankNode -> string;
  show_term : Term -> string
}.

(** ** The push-based Turtle parser ([oxttl]'s [LowLevelTurtleParser])

    [tp_next] is [parse_next]: [None] when the bytes seen so far hold no
    further triple. [tp_size] bounds the items still to come: the iterator is
    finite because every item consumes input. *)
Class TurtleParser : Type := {
  tp_state : Type;
  tp_new : list (string * string) -> tp_state;
  tp_extend : list Byte.byte -> tp_state -> tp_state;
  tp_end : tp_state -> tp_state;
  tp_next : tp_state -> option (result string Triple) * tp_state;
  tp_size : tp_state -> nat;
  tp_next_size st r st' : tp_next st = (Some r, st') -> (tp_size st' < tp_size st)%nat
}.

(** ** 64-bit floats as text (the standard library's [{:e}] and [parse])

    A float is its bit pattern ([f64::to_bits]), which is what the code
    compares. *)
Class F64Text : Type := {
  f64_lower_exp : Z -> string;
  f64_parse : string -> result string Z
}.

Definition f64_exp_mask : Z := 0x7FF0000000000000.
Definition f64_frac_mask : Z := 0x000FFFFFFFFFFFFF.
Definition F64_INFINITY : Z := 0x7FF0000000000000.
Definition F64_NEG_INFINITY : Z := 0xFFF0000000000000.
Definition F64_NAN : Z := 0x7FF8000000000000.
Definition f64_is_nan (b : Z) : bool :=
  (Z.land b f64_exp_mask =? f64_exp_mask) && negb (Z.land b f64_frac_mask =? 0).
Definition is_f64_bits (b : Z) : bool := (0 <=? b) && (b <? 2 ^ 64).
Definition f64_is_finite (b : Z) : bool := negb (Z.land b f64_exp_mask =? f64_exp_mask).

(** Shortest-round-trip printing: documented for [{:e}]. The text has no
    white space and is none of the tokens XSD reserves. *)
Class F64TextLaws {F : F64Text} : Prop := {
  f64_roundtrip b :
    is_f64_bits b = true -> f64_is_finite b = true -> f64_parse (f64_lower_exp b) = Ok b;
  f64_text_graphic b :
    is_f64_bits b = true -> f64_is_finite b = true ->
    str_forallb is_graphic (f64_lower_exp b) = true;
  f64_text_not_special b :
    is_f64_bits b = true -> f64_is_finite b = true ->
    f64_lower_exp b ∉ ["INF"; "+INF"; "-INF"; "NaN"]
}.

(** ** Base64, standard alphabet (the [base64] crate) *)

Class Base64 : Type := {
  b64_encode : list Byte.byte -> string;
  b64_decode : string -> result string (list Byte.byte)
}.

Class Base64Laws {B : Base64} : Prop := {
  b64_roundtrip bs : b64_decode (b64_encode bs) = Ok bs;
  b64_graphic bs : str_forallb is_graphic (b64_encode bs) = true
}.

(** ** ULIDs (the [ulid] crate) *)

Class UlidLib : Type := {
  ulid_to_string : list Byte.byte -> string;
  ulid_from_string : string -> result string (list Byte.byte)
}.

Class UlidLaws {U : UlidLib} : Prop := {
  ulid_roundtrip bs : length bs = 16%nat -> ulid_from_string (ulid_to_string bs) = Ok bs;
  ulid_length s bs : ulid_from_string s = Ok bs -> length bs = 16%nat
}.
