(* ===== verification/Instances.v ===== *)
(** * Instances: concrete external libraries

    Small concrete implementations of the interfaces of [External], with proofs
    of their laws. They stand for no real library: they show that the laws can
    hold, and let theorems that assume them be applied to concrete inputs. *)

From S2P Require Import Prelude RustStd External.

(** ** Floats: the bit pattern in decimal *)

Module DecimalFloat.

#[export] Instance decimal_f64 : F64Text := {|
  f64_lower_exp := int_to_string;
  f64_parse s := match parse_u64 s with
                 | Ok z => Ok z
                 | Err _ => Err "invalid float literal"
                 end
|}.

Lemma not_int_bytes s : str_forallb is_int_byte s = false -> forall z, int_to_string z <> s.
Proof. intros Hs z <-. by rewrite int_to_string_bytes in Hs. Qed.

#[export] Instance decimal_f64_laws : F64TextLaws.
Proof.
  split; cbn.
  - intros b Hb _. rewrite parse_u64_to_string; [done|].
    unfold is_f64_bits, is_u64, U64_MAX in *. lia.
  - intros b _ _. apply int_to_string_graphic.
  - intros b _ _. rewrite !elem_of_cons, elem_of_nil.
    intros [H|[H|[H|[H|[]]]]]; by apply not_int_bytes in H.
Qed.

End DecimalFloat.
Export DecimalFloat.

(** ** Byte strings in hexadecimal *)

Definition byte_hex (b : Byte.byte) : string := hex2 HEX_LOWER (byte_val (ascii_of_byte b)).

Fixpoint hex_of_bytes (bs : list Byte.byte) : string :=
  match bs with
  | [] => ""
  | b :: bs' => byte_hex b +:+ hex_of_bytes bs'
  end.

Fixpoint bytes_of_hex (s : string) : result string (list Byte.byte) :=
  match s with
  | "" => Ok []
  | String h "" => Err "odd length"
  | String h (String l s') =>
      match hex_digit h, hex_digit l with
      | Some x, Some y =>
          let? bs := bytes_of_hex s' in Ok (byte_of_ascii (byte_of (x * 16 + y)) :: bs)
      | _, _ => Err "invalid digit"
      end
  end.

Lemma nibble_lower z :
  0 <= z < 16 ->
  hex_digit (nibble HEX_LOWER z) = Some z /\ is_graphic (nibble HEX_LOWER z) = true.
Proof.
  intros Hz. assert (z ∈ seqZ 0 16) as Hin by (apply elem_of_seqZ; lia). clear Hz.
  revert z Hin. apply Forall_forall. by repeat constructor.
Qed.

Lemma byte_nibbles c : 0 <= byte_val c / 16 < 16 /\ 0 <= byte_val c mod 16 < 16.
Proof. pose proof (byte_val_range c). split; divlia. Qed.

Lemma bytes_of_hex_of_bytes bs : bytes_of_hex (hex_of_bytes bs) = Ok bs.
Proof.
  induction bs as [|b bs IH]; [done|]. cbn [hex_of_bytes]. unfold byte_hex, hex2.
  rewrite !app_str_cons, app_str_nil_l. cbn [bytes_of_hex].
  destruct (byte_nibbles (ascii_of_byte b)) as [[-> _]%nibble_lower [-> _]%nibble_lower].
  rewrite IH. cbn [rbind]. do 2 f_equal.
  rewrite (Z.mul_comm _ 16), <-Z.div_mod by lia. by rewrite byte_of_val, byte_of_ascii_of_byte.
Qed.

Lemma hex_of_bytes_graphic bs : str_forallb is_graphic (hex_of_bytes bs) = true.
Proof.
  induction bs as [|b bs IH]; [done|]. cbn [hex_of_bytes]. unfold byte_hex, hex2.
  rewrite !app_str_cons, app_str_nil_l. cbn [str_forallb].
  by destruct (byte_nibbles (ascii_of_byte b)) as [[_ ->]%nibble_lower [_ ->]%nibble_lower].
Qed.

Module HexCodecs.

#[export] Instance hex_base64 : Base64 := {|
  b64_encode := hex_of_bytes;
  b64_decode := bytes_of_hex
|}.

#[export] Instance hex_base64_laws : Base64Laws.
Proof. split; [exact bytes_of_hex_of_bytes|exact hex_of_bytes_graphic]. Qed.

#[export] Instance hex_ulid : UlidLib := {|
  ulid_to_string := hex_of_bytes;
  ulid_from_string s :=
    let? bs := bytes_of_hex s in
    if bool_decide (length bs = 16%nat) then Ok bs else Err "invalid length"
|}.

#[export] Instance hex_ulid_laws : UlidLaws.
Proof.
  split; cbn.
  - intros bs Hbs. rewrite bytes_of_hex_of_bytes. cbn. by rewrite bool_decide_true.
  - intros s bs H. inv_ok. case_bool_decide; [|done]. by inv_ok.
Qed.

End HexCodecs.
Export HexCodecs.

(** ** Terms in N-Triples form, strings unescaped *)

Module PlainDisplay.

#[export] Instance plain_display : OxDisplay :=
  let node n := match n with
                | NNode i => "<" +:+ i +:+ ">"
                | BNode b => "_:" +:+ b
                end in
  {| show_named i := "<" +:+ i +:+ ">";
     show_node := node;
     show_term t := match t with
                    | TNamed i => node (NNode i)
                    | TBlank b => node (BNode b)
                    | TLit l => dq +:+ lit_value l +:+ dq
                    end |}.

End PlainDisplay.
Export PlainDisplay.
