(* ===== verification/Value.v ===== *)
(** * Value: engine values and their RDF literal mapping

    Models [crates/protocol/src/value.rs]. *)

From S2P Require Import Prelude RustStd Vocab External Instances.

(** A [Real] is the bit pattern of its [f64], so Rocq's equality is the
    source's [PartialEq] (bit equality for reals). *)
Inductive Value : Type :=
| Null
| Integer (i : Z)
| Real (bits : Z)
| Text (s : string)
| Blob (b : list Byte.byte)
| BlobRef (hash : string) (bytes : Z).

#[export] Instance byte_eq_dec : EqDecision Byte.byte := Byte.byte_eq_dec.

(** [impl PartialEq for Value]. *)
Definition Value_eqb (x y : Value) : bool :=
  match x, y with
  | Null, Null => true
  | Integer a, Integer b => Z.eqb a b
  | Real a, Real b => Z.eqb a b
  | Text a, Text b => bool_decide (a = b)
  | Blob a, Blob b => bool_decide (a = b)
  | BlobRef h1 b1, BlobRef h2 b2 => bool_decide (h1 = h2) && Z.eqb b1 b2
  | _, _ => false
  end.

#[export] Instance Value_eq_dec : EqDecision Value.
Proof. solve_decision. Defined.

(** [Display] of [ParseIntError]. *)
Definition show_int_error (k : IntErrorKind) : string :=
  match k with
  | IntEmpty => "cannot parse integer from empty string"
  | InvalidDigit => "invalid digit found in string"
  | PosOverflow => "number too large to fit in target type"
  | NegOverflow => "number too small to fit in target type"
  end.

Section value.
Context `{!F64Text, !Base64}.

Definition format_double (f : Z) : string :=
  if f64_is_nan f then "NaN"
  else if f =? F64_INFINITY then "INF"
  else if f =? F64_NEG_INFINITY then "-INF"
  else f64_lower_exp f.

Definition parse_double (lex : string) : result ProtocolError Z :=
  if bool_decide (lex = "INF") || bool_decide (lex = "+INF") then Ok F64_INFINITY
  else if bool_decide (lex = "-INF") then Ok F64_NEG_INFINITY
  else if bool_decide (lex = "NaN") then Ok F64_NAN
  else map_err (fun e => malformed [L "invalid double literal "; D lex; L ": "; L e])
         (f64_parse (trim lex)).

Definition parse_integer (lex : string) : result ProtocolError Z :=
  map_err (fun e => malformed [L "invalid or out-of-range integer literal "; D lex; L ": ";
                               L (show_int_error e)])
    (parse_i64 (trim lex)).

Definition encode_base64 (bytes : list Byte.byte) : string := b64_encode bytes.

(** XSD permits white space in the lexical form. *)
Definition decode_base64 (lex : string) : result ProtocolError (list Byte.byte) :=
  let compact := str_map (fun c => if is_ascii_whitespace c then "" else char_str c) lex in
  map_err (fun e => malformed [L "invalid base64Binary literal: "; L e]) (b64_decode compact).

End value.

(** ** Properties *)

Lemma Value_eqb_eq x y : Value_eqb x y = true <-> x = y.
Proof.
  destruct x, y; cbn; try done;
    rewrite ?andb_true_iff, ?Z.eqb_eq, ?bool_decide_eq_true; naive_solver.
Qed.

(** The value ranges Rust's types enforce. *)
Definition Value_wf (v : Value) : bool :=
  match v with
  | Integer i => is_i64 i
  | Real b => is_f64_bits b
  | Text s => utf8_valid s
  | BlobRef h n => utf8_valid h && is_u64 n
  | Null | Blob _ => true
  end.

(** Integers survive the wire exactly: printing then parsing an [i64] gives it
    back, and a literal outside the [i64] range is an error, never wrapped. *)
Theorem parse_integer_exact (z : Z) :
  parse_integer (int_to_string z) =
  if is_i64 z then Ok z
  else Err (Malformed [L "invalid or out-of-range integer literal "; D (int_to_string z); L ": ";
                       L (if 0 <=? z then "number too large to fit in target type"
                          else "number too small to fit in target type")]).
Proof.
  unfold parse_integer. rewrite trim_graphic by apply int_to_string_graphic.
  rewrite parse_i64_print. unfold is_i64. by repeat case_match.
Qed.

Lemma land_pow2 b n : 0 <= n -> Z.land b (2 ^ n) = if Z.testbit b n then 2 ^ n else 0.
Proof.
  intros Hn. apply Z.bits_inj'. intros k Hk.
  rewrite Z.land_spec, Z.pow2_bits_eqb by lia.
  destruct (Z.eqb_spec n k) as [->|Hne]; [rewrite andb_true_r|rewrite andb_false_r].
  - destruct (Z.testbit b k); [by rewrite Z.pow2_bits_true|by rewrite Z.bits_0].
  - destruct (Z.testbit b n); [by rewrite Z.pow2_bits_false by lia|by rewrite Z.bits_0].
Qed.

(** A 64-bit pattern that is neither finite nor a NaN is an infinity. *)
Lemma f64_not_finite b :
  is_f64_bits b = true -> f64_is_finite b = false -> f64_is_nan b = false ->
  b = F64_INFINITY \/ b = F64_NEG_INFINITY.
Proof.
  unfold is_f64_bits, f64_is_finite, f64_is_nan. intros Hb.
  rewrite negb_false_iff. intros He. rewrite He. cbn. rewrite negb_false_iff, Z.eqb_eq.
  apply Z.eqb_eq in He. intros Hf.
  assert (Hsplit : b = Z.lor (Z.lor (Z.land b (2 ^ 63)) (Z.land b f64_exp_mask)) (Z.land b f64_frac_mask)).
  { rewrite <-!Z.land_lor_distr_r.
    change (Z.lor (Z.lor (2 ^ 63) f64_exp_mask) f64_frac_mask) with (Z.ones 64).
    rewrite Z.land_ones, Z.mod_small by lia. done. }
  rewrite He, Hf, land_pow2, Z.lor_0_r in Hsplit by lia.
  destruct (Z.testbit b 63); rewrite Hsplit; [by right|by left].
Qed.

Section laws.
Context `{!F64Text, !F64TextLaws, !Base64, !Base64Laws}.

(** Every double but a NaN with a payload survives the wire bit for bit (a
    NaN comes back as the canonical one): signed zeros and infinities too. *)
Theorem double_roundtrip (b : Z) :
  is_f64_bits b = true ->
  parse_double (format_double b) = Ok (if f64_is_nan b then F64_NAN else b).
Proof.
  intros Hb. unfold format_double.
  destruct (f64_is_nan b) eqn:Hn; [done|].
  destruct (Z.eqb_spec b F64_INFINITY) as [->|Hi]; [done|].
  destruct (Z.eqb_spec b F64_NEG_INFINITY) as [->|Hni]; [done|].
  destruct (f64_is_finite b) eqn:Hf;
    [|destruct (f64_not_finite b Hb Hf Hn); done].
  pose proof (f64_text_not_special b Hb Hf) as Hsp.
  unfold parse_double. rewrite !bool_decide_false by set_solver. cbn.
  by rewrite trim_graphic, f64_roundtrip by (done || by apply f64_text_graphic).
Qed.

Lemma compact_graphic s :
  str_forallb is_graphic s = true ->
  str_map (fun c => if is_ascii_whitespace c then "" else char_str c) s = s.
Proof.
  induction s as [|c s IH]; cbn; [done|]. intros [Hc Hs]%andb_prop. rewrite IH by done.
  unfold is_ascii_whitespace. rewrite bool_decide_false; [done|].
  apply in_range_spec in Hc. rewrite !elem_of_cons, elem_of_nil. lia.
Qed.

Lemma base64_roundtrip bs : decode_base64 (encode_base64 bs) = Ok bs.
Proof.
  unfold decode_base64, encode_base64.
  by rewrite compact_graphic, b64_roundtrip by apply b64_graphic.
Qed.

End laws.

Lemma double_roundtrip_witness :
  let b := 0x8000000000000000 in
  is_f64_bits b = true /\ parse_double (format_double b) = Ok b.
Proof. split; [reflexivity|]. exact (double_roundtrip 0x8000000000000000 eq_refl). Defined.
