(* ===== verification/Envelope.v ===== *)
(** * Envelope: the typed envelope objects

    Models the data of [crates/protocol/src/envelope.rs] (one record per
    struct, one constructor per enum variant), [envelope_class_name] of
    [request.rs], the row size estimate, and the column predicate codec. *)

From S2P Require Import Prelude RustStd Vocab External Value.

Record Statement : Type := mkStatement {
  st_id : string;
  st_modulation : string;
  st_signal : string;
  st_params : list Value;
  st_database : option string;
  st_row_limit : option Z;
  st_byte_limit : option Z;
  st_timeout_ms : option Z
}.

Record ResultHeader : Type := mkResultHeader {
  rh_id : string;
  rh_columns : list string;
  rh_decl_types : list string
}.

Record Row : Type := mkRow {
  row_seq : Z;
  row_cells : list (string * Value)
}.

Record Done : Type := mkDone {
  dn_id : string;
  dn_row_count : option Z;
  dn_affected_rows : option Z;
  dn_last_insert_rowid : option Z;
  dn_truncated : bool
}.

Record Denied : Type := mkDenied {
  dd_id : option string;
  dd_reason : option string
}.

Record ErrorEnvelope : Type := mkErrorEnvelope {
  er_id : option string;
  er_code : string;
  er_reason : option string
}.

Record Hello : Type := mkHello {
  hl_envelope_version : string;
  hl_encodings : list string;
  hl_mods : list string;
  hl_hint : option string
}.

Record Knock : Type := mkKnock {
  kn_id : option string;
  kn_message : string
}.

Record Presence : Type := mkPresence {
  pr_at : string;
  pr_status : option string;
  pr_endpoint : option string
}.

Record Decision : Type := mkDecision {
  dc_id : option string;
  dc_decision : string;
  dc_decided_by : string;
  dc_reason : option string;
  dc_at : option string
}.

Record Help : Type := mkHelp {
  hp_id : option string;
  hp_signal : string;
  hp_topics : list string
}.

Record Media : Type := mkMedia {
  md_id : string;
  md_content_type : string
}.

Record AudioDuplex : Type := mkAudioDuplex {
  ad_id : string;
  ad_content_type : option string;
  ad_accepts : string
}.

Record Graph : Type := mkGraph {
  gr_id : string;
  gr_seq : Z;
  gr_payload : list Triple
}.

Record Generic : Type := mkGeneric {
  gn_class : string;
  gn_props : list (string * Term)
}.

(** ** Projection vocabulary *)

Inductive PointKind : Type :=
| Excitable
| Radiant
| Sympathetic
| Bare
| Other (iri : string).

Record PointField : Type := mkPointField {
  pf_name : string;
  pf_datatype : option string;
  pf_required : bool;
  pf_default : option Value;
  pf_one_of : list Value;
  pf_hint : option string
}.

Record Point : Type := mkPoint {
  pt_iri : string;
  pt_kind : PointKind;
  pt_label : option string;
  pt_comment : option string;
  pt_icon : option string;
  pt_role : option string;
  pt_projects : option string;
  pt_coupling : list PointField;
  pt_modulation : option string;
  pt_signal : option string;
  pt_params_order : list string;
  pt_signal_template : option string;
  pt_fires : option string
}.

Record Projection : Type := mkProjection {
  pj_id : option string;
  pj_offers : list Point
}.

Record Entrain : Type := mkEntrain {
  en_id : string;
  en_point : string
}.

Record Damp : Type := mkDamp {
  dm_id : option string;
  dm_point : string
}.

Record Vibration : Type := mkVibration {
  vb_id : string;
  vb_point : string;
  vb_seq : Z;
  vb_at : option string;
  vb_payload : list Triple
}.

Inductive EnvelopeObject : Type :=
| OQuery (st : Statement)
| OExecute (st : Statement)
| OResult (h : ResultHeader)
| ORow (rows : list Row)
| ODone (d : Done)
| ODenied (d : Denied)
| OError (e : ErrorEnvelope)
| OHello (h : Hello)
| OKnock (k : Knock)
| OPresence (p : Presence)
| ODecision (d : Decision)
| OHelp (h : Help)
| OMedia (m : Media)
| OAudioDuplex (d : AudioDuplex)
| OProjection (p : Projection)
| OEntrain (e : Entrain)
| OVibration (v : Vibration)
| ODamp (d : Damp)
| OGraph (g : Graph)
| OGeneric (g : Generic).

(** [envelope_class_name]. *)
Definition envelope_class_name (obj : EnvelopeObject) : string :=
  match obj with
  | OQuery _ => "rsntr:Query"
  | OExecute _ => "rsntr:Execute"
  | OResult _ => "rsntr:Result"
  | ORow _ => "rsntr:Row"
  | ODone _ => "rsntr:Done"
  | ODenied _ => "rsntr:Denied"
  | OError _ => "rsntr:Error"
  | OHello _ => "rsntr:Hello"
  | OKnock _ => "rsntr:Knock"
  | OPresence _ => "rsntr:Presence"
  | ODecision _ => "rsntr:Decision"
  | OHelp _ => "rsntr:Help"
  | OMedia _ => "rsntr:Media"
  | OAudioDuplex _ => "rsntr:AudioDuplex"
  | OProjection _ => "rsntr:Projection"
  | OEntrain _ => "rsntr:Entrain"
  | OVibration _ => "rsntr:Vibration"
  | ODamp _ => "rsntr:Damp"
  | OGraph _ => "rsntr:Graph"
  | OGeneric _ => "a generic rsntr frame"
  end.

(** ** Row size estimate *)

Definition estimate_value_bytes (v : Value) : nat :=
  match v with
  | Null => 0
  | Integer _ => 20
  | Real _ => 26
  | Text t => str_len t + 16
  | Blob b => length b * 4 / 3 + 32
  | BlobRef hash _ => str_len hash + 64
  end.

Definition estimate_row_bytes (row : Row) : nat :=
  foldl (fun est '(name, value) => (est + (str_len name + 12) + estimate_value_bytes value)%nat)
    32%nat (row_cells row).

(** ** Column predicate names *)

Definition is_col_plain (c : ascii) : bool :=
  is_ascii_alphanumeric c || bool_decide (c = "_"%char).

Definition encode_col_byte (c : ascii) : string :=
  if is_col_plain c then char_str c else String "%" (hex2 HEX_UPPER (byte_val c)).

Definition encode_column_name (name : string) : string := str_map encode_col_byte name.

Definition bad (m : msg) : ProtocolError := malformed m.

Definition hex_pair (hi lo : ascii) : option Z :=
  match hex_digit hi, hex_digit lo with
  | Some h, Some l => Some (h * 16 + l)
  | _, _ => None
  end.

(** The loop of [decode_column_name] over the input bytes; [encoded] is the
    whole input, for the messages. *)
Fixpoint decode_col_go (encoded : string) (input : string) : result ProtocolError string :=
  match input with
  | "" => Ok ""
  | String b input' =>
      if negb (bool_decide (b = "%"%char))
      then rmap (String b) (decode_col_go encoded input')
      else match input' with
      | String hi (String lo input'') =>
          match hex_pair hi lo with
          | Some v => rmap (String (byte_of v)) (decode_col_go encoded input'')
          | None => Err (bad [L "invalid percent escape in column predicate "; D encoded])
          end
      | _ => Err (bad [L "truncated percent escape in column predicate "; D encoded])
      end
  end.

Definition decode_column_name (encoded : string) : result ProtocolError string :=
  let? bytes := decode_col_go encoded encoded in
  if utf8_valid bytes then Ok bytes
  else Err (bad [L "column predicate "; D encoded; L " does not decode to UTF-8"]).

#[export] Instance Row_eq_dec : EqDecision Row.
Proof. solve_decision. Defined.
#[export] Instance PointKind_eq_dec : EqDecision PointKind.
Proof. solve_decision. Defined.
#[export] Instance PointField_eq_dec : EqDecision PointField.
Proof. solve_decision. Defined.
#[export] Instance Point_eq_dec : EqDecision Point.
Proof. solve_decision. Defined.

(** ** Properties *)

Lemma decode_col_plain enc c s :
  is_col_plain c = true ->
  decode_col_go enc (String c s) = rmap (String c) (decode_col_go enc s).
Proof.
  intros Hc. cbn [decode_col_go]. rewrite bool_decide_false; [done|]. by intros ->.
Qed.

Lemma decode_col_escape enc c s :
  decode_col_go enc (String "%" (hex2 HEX_UPPER (byte_val c)) +:+ s) =
  rmap (String c) (decode_col_go enc s).
Proof.
  unfold hex2. rewrite !app_str_cons, app_str_nil_l. cbn [decode_col_go].
  rewrite bool_decide_true by done. cbn [negb]. unfold hex_pair.
  pose proof (byte_val_range c).
  rewrite !hex_digit_nibble_upper by divlia.
  by rewrite (Z.mul_comm _ 16), <-Z.div_mod, byte_of_val by lia.
Qed.

Lemma decode_encode_col enc name s :
  decode_col_go enc (encode_column_name name +:+ s) =
  rmap (fun t => name +:+ t) (decode_col_go enc s).
Proof.
  induction name as [|c name IH]; cbn [encode_column_name str_map].
  { rewrite app_str_nil_l. by destruct (decode_col_go enc s). }
  rewrite app_str_assoc. fold (encode_column_name name).
  unfold encode_col_byte. destruct (is_col_plain c) eqn:Hc.
  - unfold char_str. rewrite app_str_cons, app_str_nil_l, decode_col_plain, IH by done.
    by destruct (decode_col_go enc s).
  - rewrite decode_col_escape, IH. by destruct (decode_col_go enc s).
Qed.

(** Decoding inverts encoding on every column name (any UTF-8 text). *)
Theorem column_name_roundtrip (name : string) :
  utf8_valid name = true -> decode_column_name (encode_column_name name) = Ok name.
Proof.
  intros Hname. unfold decode_column_name.
  rewrite <-(app_str_nil_r (encode_column_name name)) at 2.
  rewrite decode_encode_col. cbn. by rewrite app_str_nil_r, Hname.
Qed.

Lemma column_name_roundtrip_witness :
  let name := "odd name/%" in
  utf8_valid name = true /\ decode_column_name (encode_column_name name) = Ok name.
Proof. split; [reflexivity|]. exact (column_name_roundtrip "odd name/%" eq_refl). Defined.

(** The bytes of an encoded name. *)
Definition is_col_safe (c : ascii) : bool := is_col_plain c || bool_decide (c = "%"%char).

(** An encoded name holds only letters, digits, underscores and percent signs,
    so it can never close the predicate it is part of. *)
Lemma encode_column_name_safe name : str_forallb is_col_safe (encode_column_name name) = true.
Proof.
  apply str_forallb_map. intros c. unfold encode_col_byte.
  unfold hex2. destruct (is_col_plain c) eqn:Hc; cbn [str_forallb char_str]; unfold is_col_safe.
  - by rewrite Hc.
  - pose proof (byte_val_range c). unfold is_col_plain.
    by rewrite !nibble_upper_plain by divlia.
Qed.
