(* ===== verification/Frame.v ===== *)
(** * Frame: the length-prefixed frame codec

    Models [crates/protocol/src/frame.rs]. A [BytesMut] is the list of its
    bytes. [encode_frame] returns the buffer it appended to, [decode_frame] and
    [decode_frame_eof] the buffer they consumed from, beside their results. *)

From S2P Require Import Prelude RustStd Vocab.

Definition MAX_FRAME_LEN : Z := 256 * 1024.

Definition encode_frame (payload dst : list Byte.byte) :
    result ProtocolError unit * list Byte.byte :=
  if MAX_FRAME_LEN <? zlen payload then (Err (FrameTooLarge (zlen payload)), dst)
  else (Ok tt, dst ++ u32_le (zlen payload) ++ payload).

Definition decode_frame (src : list Byte.byte) :
    result ProtocolError (option string) * list Byte.byte :=
  if zlen src <? 4 then (Ok None, src)
  else
    let len_bytes := take 4 src in
    let len := from_u32_le len_bytes in
    if MAX_FRAME_LEN <? len then (Err (FrameTooLarge len), src)
    else if zlen src <? 4 + len then (Ok None, src)
    else
      let src := drop 4 src in
      let payload := take (Z.to_nat len) src in
      let src := drop (Z.to_nat len) src in
      match from_utf8 payload with
      | Some text => (Ok (Some text), src)
      | None => (Err InvalidUtf8, src)
      end.

Definition decode_frame_eof (src : list Byte.byte) :
    result ProtocolError (option string) * list Byte.byte :=
  match decode_frame src with
  | (Err e, src') => (Err e, src')
  | (Ok (Some payload), src') => (Ok (Some payload), src')
  | (Ok None, src') =>
      match src' with
      | [] => (Ok None, src')
      | _ => (Err (TruncatedFrame (zlen src')), src')
      end
  end.

(** ** Properties *)

(** The wire form of one frame. *)
Definition frame_bytes (payload : list Byte.byte) : list Byte.byte :=
  u32_le (zlen payload) ++ payload.

Lemma zlen_app {A} (l1 l2 : list A) : zlen (l1 ++ l2) = zlen l1 + zlen l2.
Proof. unfold zlen. rewrite length_app. lia. Qed.

Lemma zlen_nonneg {A} (l : list A) : 0 <= zlen l.
Proof. unfold zlen. lia. Qed.

Lemma zlen_u32_le z : zlen (u32_le z) = 4.
Proof. done. Qed.

Lemma take_frame_header payload rest :
  zlen payload <= MAX_FRAME_LEN ->
  from_u32_le (take 4 (frame_bytes payload ++ rest)) = zlen payload.
Proof.
  intros Hlen. unfold frame_bytes. rewrite <-app_assoc.
  change 4%nat with (length (u32_le (zlen payload))). rewrite take_app_length.
  apply from_u32_le_u32_le. pose proof (zlen_nonneg payload).
  unfold MAX_FRAME_LEN in Hlen. lia.
Qed.

(** One complete frame at the front of the buffer is consumed exactly. *)
Lemma decode_frame_complete payload rest :
  zlen payload <= MAX_FRAME_LEN ->
  decode_frame (frame_bytes payload ++ rest) =
  (match from_utf8 payload with
   | Some text => Ok (Some text)
   | None => Err InvalidUtf8
   end, rest).
Proof.
  intros Hlen. unfold decode_frame. rewrite take_frame_header by done.
  assert (Hz : zlen (frame_bytes payload ++ rest) = 4 + zlen payload + zlen rest)
    by (unfold frame_bytes; rewrite !zlen_app, zlen_u32_le; done).
  pose proof (zlen_nonneg payload). pose proof (zlen_nonneg rest).
  rewrite Hz. repeat (case_match; [lia|]).
  unfold frame_bytes. rewrite <-app_assoc.
  change 4%nat with (length (u32_le (zlen payload))). rewrite drop_app_length.
  unfold zlen. rewrite Nat2Z.id, take_app_length, drop_app_length. by case_match.
Qed.

(** More bytes never change the frame already decoded. *)
Lemma decode_frame_mono src b r src' :
  decode_frame src = (r, src') -> r <> Ok None -> decode_frame (src ++ b) = (r, src' ++ b).
Proof.
  unfold decode_frame. intros H Hr. rewrite zlen_app. pose proof (zlen_nonneg b).
  destruct (Z.ltb_spec (zlen src) 4); [by simplify_eq|].
  destruct (Z.ltb_spec (zlen src + zlen b) 4); [lia|].
  rewrite take_app_le by (unfold zlen in *; lia). rewrite drop_app_le by (unfold zlen in *; lia).
  case_match; [by simplify_eq|].
  pose proof (from_u32_le_range (take 4 src)) as Hlen.
  set (len := from_u32_le (take 4 src)) in *. clearbody len.
  destruct (Z.ltb_spec (zlen src) (4 + len)); [by simplify_eq|].
  destruct (Z.ltb_spec (zlen src + zlen b) (4 + len)); [lia|].
  assert ((Z.to_nat len <= length (drop 4 src))%nat)
    by (rewrite length_drop; unfold zlen in *; lia).
  rewrite take_app_le, drop_app_le by done. by case_match; simplify_eq.
Qed.

Lemma decode_frame_None src src' : decode_frame src = (Ok None, src') -> src' = src.
Proof. unfold decode_frame. intros H. by repeat case_match; simplify_eq. Qed.

(** A decoded frame consumes at least its header. *)
Lemma decode_frame_shrinks src s src' :
  decode_frame src = (Ok (Some s), src') -> (length src' + 4 <= length src)%nat.
Proof.
  unfold decode_frame. intros H.
  repeat case_match; simplify_eq. rewrite !length_drop. unfold zlen in *. lia.
Qed.

Lemma decode_frame_sound src s src' :
  decode_frame src = (Ok (Some s), src') ->
  utf8_valid s = true /\ zlen (as_bytes s) <= MAX_FRAME_LEN /\
  src = frame_bytes (as_bytes s) ++ src'.
Proof.
  unfold decode_frame. intros H.
  repeat case_match; simplify_eq. unfold from_utf8 in *. case_match; simplify_eq.
  pose proof (from_u32_le_range (take 4 src)) as Hlen.
  set (len := from_u32_le (take 4 src)) in *.
  rewrite as_bytes_of_bytes.
  assert (Hl : zlen (take (Z.to_nat len) (drop 4 src)) = len).
  { unfold zlen in *. rewrite length_take, length_drop. lia. }
  split; [done|]. split; [lia|].
  unfold frame_bytes. rewrite Hl. unfold len at 1.
  rewrite u32_le_from_u32_le by (rewrite length_take; unfold zlen in *; lia).
  by rewrite <-app_assoc, take_drop, take_drop.
Qed.

(** Decoding is the exact inverse of encoding: a text of at most 256 KiB
    encodes to one frame, which decodes back to the text leaving exactly the
    bytes after it; and a decoded text is always a UTF-8 text within the
    budget whose frame the buffer started with. *)
Theorem frame_codec_inverse (s : string) (src src' : list Byte.byte) :
  (exists dst, encode_frame (as_bytes s) [] = (Ok tt, dst) /\ src = dst ++ src' /\
               utf8_valid s = true)
  <-> decode_frame src = (Ok (Some s), src').
Proof.
  split.
  - intros (dst & Henc & -> & Hs). unfold encode_frame in Henc. case_match; simplify_eq.
    rewrite app_nil_l. change (u32_le _ ++ as_bytes s) with (frame_bytes (as_bytes s)).
    rewrite decode_frame_complete by lia. by rewrite from_utf8_as_bytes.
  - intros (Hs & Hlen & ->)%decode_frame_sound.
    exists (frame_bytes (as_bytes s)). unfold encode_frame. rewrite (proj2 (Z.ltb_ge _ _)) by done.
    done.
Qed.

(** A frame that has not fully arrived is never an error nor a frame: every
    strict prefix of a frame leaves the buffer untouched and asks for more
    bytes, and is a truncation once the stream has ended (an empty buffer is a
    clean end). *)
Theorem decode_frame_partial (payload : list Byte.byte) (n : nat) :
  zlen payload <= MAX_FRAME_LEN -> Z.of_nat n < zlen (frame_bytes payload) ->
  let src := take n (frame_bytes payload) in
  decode_frame src = (Ok None, src) /\
  decode_frame_eof src =
    (if bool_decide (n = 0%nat) then Ok None else Err (TruncatedFrame (Z.of_nat n)), src).
Proof.
  intros Hlen Hn src.
  assert (Hsrc : zlen src = Z.of_nat n) by (unfold src, zlen in *; rewrite length_take; lia).
  assert (Hd : decode_frame src = (Ok None, src)).
  { unfold decode_frame. destruct (Z.ltb_spec (zlen src) 4); [done|].
    assert (take 4 src = u32_le (zlen payload)) as ->.
    { unfold src, frame_bytes. rewrite take_take.
      rewrite (Nat.min_l 4 n) by lia.
      change 4%nat with (length (u32_le (zlen payload))). apply take_app_length. }
    rewrite from_u32_le_u32_le
      by (pose proof (zlen_nonneg payload); unfold MAX_FRAME_LEN in *; lia).
    unfold frame_bytes in Hn. rewrite zlen_app, zlen_u32_le in Hn.
    rewrite (proj2 (Z.ltb_ge MAX_FRAME_LEN _)) by done.
    by rewrite (proj2 (Z.ltb_lt _ (4 + _))) by lia. }
  split; [done|]. unfold decode_frame_eof. rewrite Hd.
  case_bool_decide; subst; [done|]. rewrite <-Hsrc.
  clearbody src. destruct src as [|b src]; [unfold zlen in Hsrc; cbn in Hsrc; lia|done].
Qed.

Lemma decode_frame_partial_witness :
  zlen (as_bytes "turtle") <= MAX_FRAME_LEN /\
  decode_frame_eof (take 7 (frame_bytes (as_bytes "turtle"))) =
    (Err (TruncatedFrame 7), take 7 (frame_bytes (as_bytes "turtle"))).
Proof.
  split; [done|].
  exact (proj2 (decode_frame_partial (as_bytes "turtle") 7 ltac:(done) ltac:(done))).
Defined.

(** Oversized frames are refused on both sides without touching the buffer:
    encoding appends nothing, decoding consumes nothing, so a refused length
    prefix is refused again on every retry. *)
Theorem frame_budget (payload dst src : list Byte.byte) (len : Z) :
  (MAX_FRAME_LEN < zlen payload ->
   encode_frame payload dst = (Err (FrameTooLarge (zlen payload)), dst)) /\
  (MAX_FRAME_LEN < len < 2 ^ 32 ->
   decode_frame (u32_le len ++ src) = (Err (FrameTooLarge len), u32_le len ++ src)).
Proof.
  split.
  - intros H. unfold encode_frame. by rewrite (proj2 (Z.ltb_lt _ _)).
  - intros H. unfold decode_frame. rewrite zlen_app, zlen_u32_le. pose proof (zlen_nonneg src).
    rewrite (proj2 (Z.ltb_ge _ _)) by lia.
    change 4%nat with (length (u32_le len)). rewrite take_app_length.
    rewrite from_u32_le_u32_le by (unfold MAX_FRAME_LEN in *; lia).
    by rewrite (proj2 (Z.ltb_lt _ _)) by lia.
Qed.
