(* ===== verification/Decode.v ===== *)
(** * Decode: from a frame's triples to an envelope object

    Models the decoding half of [crates/protocol/src/envelope.rs]: [Doc] and
    its typed accessors, [decode] and its readers, and the incremental
    [EnvelopeParser] over the external Turtle parser. *)

From S2P Require Import Prelude RustStd Vocab External Value Envelope.

(** One frame's triples, document order intact. *)
Abbreviation Doc := (list Triple).

(** [Iterator::find_map]. *)
Fixpoint find_map {A B} (f : A -> option B) (l : list A) : option B :=
  match l with
  | [] => None
  | a :: l' => match f a with
               | Some b => Some b
               | None => find_map f l'
               end
  end.

(** [Option::transpose] after a [map]. *)
Definition traverse_opt {E A B} (f : A -> result E B) (o : option A) : result E (option B) :=
  match o with
  | None => Ok None
  | Some a => rmap Some (f a)
  end.

Definition LIST_BOUND : nat := Z.to_nat 1000000.

Section decode.
Context `{!OxDisplay, !F64Text, !Base64}.

(** ** Accessors *)

Definition pairs (doc : Doc) (s : NamedOrBlankNode) : list (string * Term) :=
  map (fun t => (predicate t, object t)) (filter (fun t => subject t = s) doc).

Definition one (doc : Doc) (s : NamedOrBlankNode) (pred : string) : option Term :=
  find_map (fun '(p, o) => if bool_decide (p = pred) then Some o else None) (pairs doc s).

Definition expected_literal {A} (pred : string) (other : Term) : result ProtocolError A :=
  Err (bad [L "expected a literal object for <"; L (show_named pred); L ">, got ";
            L (show_term other)]).

Definition text (doc : Doc) (s : NamedOrBlankNode) (pred : string) :
    result ProtocolError (option string) :=
  match one doc s pred with
  | None => Ok None
  | Some (TLit lit) => Ok (Some (lit_value lit))
  | Some other => expected_literal pred other
  end.

Definition need_text (doc : Doc) (s : NamedOrBlankNode) (pred : string) :
    result ProtocolError string :=
  let? o := text doc s pred in
  ok_or (bad [L "missing required property <"; L (show_named pred); L ">"]) o.

Definition int (doc : Doc) (s : NamedOrBlankNode) (pred : string) :
    result ProtocolError (option Z) :=
  let? o := text doc s pred in traverse_opt parse_integer o.

Definition boolean (doc : Doc) (s : NamedOrBlankNode) (pred : string) :
    result ProtocolError (option bool) :=
  let? o := text doc s pred in
  match o with
  | None => Ok None
  | Some lex =>
      let other := trim lex in
      if bool_decide (other = "true") || bool_decide (other = "1") then Ok (Some true)
      else if bool_decide (other = "false") || bool_decide (other = "0") then Ok (Some false)
      else Err (bad [L "invalid boolean literal "; D other])
  end.

Definition texts (doc : Doc) (s : NamedOrBlankNode) (pred : string) :
    result ProtocolError (list string) :=
  traverse
    (fun '(_, o) => match o with
                    | TLit lit => Ok (lit_value lit)
                    | other => expected_literal pred other
                    end)
    (filter (fun '(p, _) => p = pred) (pairs doc s)).

Definition iri (doc : Doc) (s : NamedOrBlankNode) (pred : string) :
    result ProtocolError (option string) :=
  match one doc s pred with
  | None => Ok None
  | Some (TNamed n) => Ok (Some n)
  | Some other => Err (bad [L "expected an IRI object for <"; L (show_named pred); L ">, got ";
                            L (show_term other)])
  end.

Definition need_iri (doc : Doc) (s : NamedOrBlankNode) (pred : string) :
    result ProtocolError string :=
  let? o := iri doc s pred in
  ok_or (bad [L "missing required IRI property <"; L (show_named pred); L ">"]) o.

(** The loop of [Doc::list]: [items] read so far, [here] the current node. *)
Fixpoint list_go (doc : Doc) (bound : nat) (items : list Term) (here : Term) :
    result ProtocolError (list Term) :=
  match bound with
  | O => Err (bad [L "rdf:List too long or cyclic"])
  | S bound' =>
      let step node :=
        let? first := ok_or (bad [L "rdf:List node without rdf:first"]) (one doc node RDF_FIRST) in
        let? rest := ok_or (bad [L "rdf:List node without rdf:rest"]) (one doc node RDF_REST) in
        list_go doc bound' (items ++ [first]) rest in
      match here with
      | TNamed n => if bool_decide (n = RDF_NIL) then Ok items else step (NNode n)
      | TBlank b => step (BNode b)
      | other => Err (bad [L "invalid rdf:List node: "; L (show_term other)])
      end
  end.

Definition rdf_list (doc : Doc) (head : Term) : result ProtocolError (list Term) :=
  list_go doc LIST_BOUND [] head.

Definition text_list (doc : Doc) (s : NamedOrBlankNode) (pred : string) :
    result ProtocolError (list string) :=
  match one doc s pred with
  | None => Ok []
  | Some head =>
      let? items := rdf_list doc head in
      traverse
        (fun t => match t with
                  | TLit lit => Ok (lit_value lit)
                  | other => Err (bad [L "expected a string in <"; L (show_named pred);
                                       L "> list, got "; L (show_term other)])
                  end) items
  end.

Definition value_of (doc : Doc) (term : Term) : result ProtocolError Value :=
  match term with
  | TNamed n =>
      if bool_decide (n = prop_NULL) then Ok Null
      else Err (bad [L "unexpected IRI in value position: <"; L (show_named n); L ">"])
  | TBlank b =>
      let s := BNode b in
      let not_blobref := Err (bad [L "blank node in value position is not a rsntr:BlobRef"]) in
      match one doc s RDF_TYPE with
      | Some (TNamed c) =>
          if bool_decide (c = cls_BLOB_REF) then
            let? hash := need_text doc s prop_HASH in
            let? lex := need_text doc s prop_BYTES in
            let? bytes := map_err (fun e => bad [L "invalid rsntr:bytes literal "; D lex; L ": ";
                                                 L (show_int_error e)])
                            (parse_u64 (trim lex)) in
            Ok (BlobRef hash bytes)
          else not_blobref
      | _ => not_blobref
      end
  | TLit lit =>
      let dt := lit_datatype lit in
      if bool_decide (dt = XSD_STRING) then Ok (Text (lit_value lit))
      else if bool_decide (dt = XSD_INTEGER) then rmap Integer (parse_integer (lit_value lit))
      else if bool_decide (dt = XSD_DOUBLE) || bool_decide (dt = XSD_FLOAT) ||
              bool_decide (dt = XSD_DECIMAL)
      then rmap Real (parse_double (lit_value lit))
      else if bool_decide (dt = XSD_BASE64_BINARY) then rmap Blob (decode_base64 (lit_value lit))
      else Err (bad [L "unsupported literal datatype <"; L (show_named dt); L "> in value position"])
  end.

Definition value_list (doc : Doc) (s : NamedOrBlankNode) (pred : string) :
    result ProtocolError (list Value) :=
  match one doc s pred with
  | None => Ok []
  | Some head => let? items := rdf_list doc head in traverse (value_of doc) items
  end.

(** ** Readers *)

Definition read_statement (doc : Doc) (s : NamedOrBlankNode) : result ProtocolError Statement :=
  let? id := need_text doc s prop_ID in
  let? modulation := need_text doc s prop_MOD in
  let? signal := need_text doc s prop_SIGNAL in
  let? params := value_list doc s prop_PARAMS in
  let? database := text doc s prop_DATABASE in
  let? row_limit := int doc s prop_ROW_LIMIT in
  let? byte_limit := int doc s prop_BYTE_LIMIT in
  let? timeout_ms := int doc s prop_TIMEOUT_MS in
  Ok (mkStatement id modulation signal params database row_limit byte_limit timeout_ms).

(** The loop of [read_row] over the subject's pairs. *)
Fixpoint read_row_go (doc : Doc) (seq : option Z) (cells : list (string * Value))
    (ps : list (string * Term)) : result ProtocolError (option Z * list (string * Value)) :=
  match ps with
  | [] => Ok (seq, cells)
  | (p, o) :: ps' =>
      if bool_decide (p = RDF_TYPE) then read_row_go doc seq cells ps'
      else if bool_decide (p = prop_SEQ) then
        match o with
        | TLit lit =>
            let? n := parse_integer (lit_value lit) in read_row_go doc (Some n) cells ps'
        | _ => Err (bad [L "rsntr:seq must be a literal, got "; L (show_term o)])
        end
      else match strip_prefix RSNTR_NS p ≫= strip_prefix COL_PREFIX with
      | Some encoded =>
          let? name := decode_column_name encoded in
          let? v := value_of doc o in
          read_row_go doc seq (cells ++ [(name, v)]) ps'
      | None => read_row_go doc seq cells ps'
      end
  end.

Definition read_row (doc : Doc) (s : NamedOrBlankNode) : result ProtocolError Row :=
  let? (seq, cells) := read_row_go doc None [] (pairs doc s) in
  let? seq := ok_or (bad [L "rsntr:Row without rsntr:seq"]) seq in
  Ok (mkRow seq cells).

Definition as_node (term : Term) : result ProtocolError NamedOrBlankNode :=
  match term with
  | TNamed n => Ok (NNode n)
  | TBlank b => Ok (BNode b)
  | other => Err (bad [L "expected a node, got "; L (show_term other)])
  end.

Definition read_field (doc : Doc) (t : Term) : result ProtocolError PointField :=
  let? node := as_node t in
  let? dflt := traverse_opt (value_of doc) (one doc node prop_DEFAULT) in
  let? name := need_text doc node prop_NAME in
  let? datatype := iri doc node prop_DATATYPE in
  let? required := boolean doc node prop_REQUIRED in
  let? one_of := value_list doc node prop_ONE_OF in
  let? hint := text doc node prop_HINT in
  Ok (mkPointField name datatype (default false required) dflt one_of hint).

Definition read_coupling (doc : Doc) (t : Term) : result ProtocolError (list PointField) :=
  let? node := as_node t in
  match one doc node prop_FIELD with
  | None => Ok []
  | Some head => let? items := rdf_list doc head in traverse (read_field doc) items
  end.

Definition point_kind_of (ty : option Term) : result ProtocolError PointKind :=
  match ty with
  | None => Ok Bare
  | Some (TNamed c) =>
      Ok (if bool_decide (c = cls_EXCITABLE) then Excitable
          else if bool_decide (c = cls_RADIANT) then Radiant
          else if bool_decide (c = cls_SYMPATHETIC) then Sympathetic
          else if bool_decide (c = cls_RESONANCE_POINT) then Bare
          else Other c)
  | Some other => Err (bad [L "point type must be an IRI, got "; L (show_term other)])
  end.

Definition read_point (doc : Doc) (iri : string) : result ProtocolError Point :=
  let s := NNode iri in
  let? kind := point_kind_of (one doc s RDF_TYPE) in
  let? coupling := match one doc s prop_COUPLING with
                   | None => Ok []
                   | Some t => read_coupling doc t
                   end in
  let? label := text doc s RDFS_LABEL in
  let? comment := text doc s RDFS_COMMENT in
  let? icon := text doc s prop_ICON in
  let? role := text doc s prop_ROLE in
  let? projects := text doc s prop_PROJECTS in
  let? modulation := text doc s prop_MOD in
  let? signal := text doc s prop_SIGNAL in
  let? params_order := text_list doc s prop_PARAMS_ORDER in
  let? signal_template := text doc s prop_SIGNAL_TEMPLATE in
  let? fires := text doc s prop_FIRES in
  Ok (mkPoint iri kind label comment icon role projects coupling modulation signal
        params_order signal_template fires).

Definition read_offer (doc : Doc) (term : Term) : result ProtocolError Point :=
  match term with
  | TNamed iri => read_point doc iri
  | _ => Err (bad [L "rsntr:offers entries must be point IRIs, got "; L (show_term term)])
  end.

Definition read_projection (doc : Doc) (s : NamedOrBlankNode) :
    result ProtocolError EnvelopeObject :=
  let? id := text doc s prop_ID in
  let? offers := match one doc s prop_OFFERS with
                 | None => Ok []
                 | Some head =>
                     let? items := rdf_list doc head in traverse (read_offer doc) items
                 end in
  Ok (OProjection (mkProjection id offers)).

Definition companions (doc : Doc) (s : NamedOrBlankNode) : list Triple :=
  filter (fun t => subject t <> s) doc.

Definition read_vibration (doc : Doc) (s : NamedOrBlankNode) :
    result ProtocolError EnvelopeObject :=
  let? id := need_text doc s prop_ID in
  let? point := need_iri doc s prop_POINT in
  let? seq := int doc s prop_SEQ in
  let? seq := ok_or (bad [L "rsntr:Vibration without rsntr:seq"]) seq in
  let? at_ := text doc s prop_AT in
  Ok (OVibration (mkVibration id point seq at_ (companions doc s))).

Definition read_graph (doc : Doc) (s : NamedOrBlankNode) : result ProtocolError EnvelopeObject :=
  let? id := need_text doc s prop_ID in
  let? seq := int doc s prop_SEQ in
  let? seq := ok_or (bad [L "rsntr:Graph without rsntr:seq"]) seq in
  Ok (OGraph (mkGraph id seq (companions doc s))).

(** ** The frame scan *)

(** Typed subjects with the local name of their class, in document order. *)
Abbreviation Typed := (list (NamedOrBlankNode * string)).

Definition scan_step (acc : Typed * option string) (t : Triple) : Typed * option string :=
  let '(typed, alien) := acc in
  if negb (bool_decide (predicate t = RDF_TYPE)) then acc
  else match object t with
  | TNamed class =>
      match strip_prefix RSNTR_NS class with
      | None => (typed, match alien with None => Some class | Some _ => alien end)
      | Some local =>
          if bool_decide (local = "BlobRef") then acc
          else if existsb (fun '(s, _) => bool_decide (s = subject t)) typed then acc
          else (typed ++ [(subject t, local)], alien)
      end
  | _ => acc
  end.

Definition scan (doc : Doc) : Typed * option string := foldl scan_step ([], None) doc.

Definition only (typed : Typed) (class : string) :
    result ProtocolError (option NamedOrBlankNode) :=
  match filter (fun '(_, c) => c = class) typed with
  | [] => Ok None
  | [(s, _)] => Ok (Some s)
  | _ => Err (bad [L "frame contains more than one rsntr:"; L class; L " subject"])
  end.

Definition alien_error {A} (class : string) : result ProtocolError A :=
  Err (bad [L "subject typed with non-rsntr class <"; L class; L ">"]).

(** The [match class.as_str()] of [decode]: the single typed subject. *)
Definition decode_single (doc : Doc) (s : NamedOrBlankNode) (class : string) :
    result ProtocolError EnvelopeObject :=
  if bool_decide (class = "Query") then rmap OQuery (read_statement doc s)
  else if bool_decide (class = "Execute") then rmap OExecute (read_statement doc s)
  else if bool_decide (class = "Result") then
    let? id := need_text doc s prop_ID in
    let? columns := text_list doc s prop_COLUMN in
    let? decl_types := text_list doc s prop_DECL_TYPE in
    Ok (OResult (mkResultHeader id columns decl_types))
  else if bool_decide (class = "Done") then
    let? id := need_text doc s prop_ID in
    let? row_count := int doc s prop_ROW_COUNT in
    let? affected_rows := int doc s prop_AFFECTED_ROWS in
    let? last_insert_rowid := int doc s prop_LAST_INSERT_ROWID in
    let? truncated := boolean doc s prop_TRUNCATED in
    Ok (ODone (mkDone id row_count affected_rows last_insert_rowid (default false truncated)))
  else if bool_decide (class = "Denied") then
    let? id := text doc s prop_ID in
    let? reason := text doc s prop_REASON in
    Ok (ODenied (mkDenied id reason))
  else if bool_decide (class = "Error") then
    let? id := text doc s prop_ID in
    let? code := need_text doc s prop_CODE in
    let? reason := text doc s prop_REASON in
    Ok (OError (mkErrorEnvelope id code reason))
  else if bool_decide (class = "Hello") then
    let? envelope_version := need_text doc s prop_VER in
    let? encodings := texts doc s prop_ENC in
    let? mods := texts doc s prop_MODS in
    let? hint := text doc s prop_HINT in
    Ok (OHello (mkHello envelope_version encodings mods hint))
  else if bool_decide (class = "Knock") then
    let? id := text doc s prop_ID in
    let? message := need_text doc s prop_MESSAGE in
    Ok (OKnock (mkKnock id message))
  else if bool_decide (class = "Presence") then
    let? at_ := need_text doc s prop_AT in
    let? status := text doc s prop_STATUS in
    let? endpoint := text doc s prop_ENDPOINT in
    Ok (OPresence (mkPresence at_ status endpoint))
  else if bool_decide (class = "Decision") then
    let? id := text doc s prop_ID in
    let? decision := need_text doc s prop_DECISION in
    let? decided_by := need_text doc s prop_DECIDED_BY in
    let? reason := text doc s prop_REASON in
    let? at_ := text doc s prop_AT in
    Ok (ODecision (mkDecision id decision decided_by reason at_))
  else if bool_decide (class = "Help") then
    let? id := text doc s prop_ID in
    let? signal := need_text doc s prop_SIGNAL in
    let? topics := texts doc s prop_TOPIC in
    Ok (OHelp (mkHelp id signal topics))
  else if bool_decide (class = "Media") then
    let? id := need_text doc s prop_ID in
    let? content_type := need_text doc s prop_CONTENT_TYPE in
    Ok (OMedia (mkMedia id content_type))
  else if bool_decide (class = "AudioDuplex") then
    let? id := need_text doc s prop_ID in
    let? content_type := text doc s prop_CONTENT_TYPE in
    let? accepts := need_text doc s prop_ACCEPTS in
    Ok (OAudioDuplex (mkAudioDuplex id content_type accepts))
  else if bool_decide (class = "Entrain") then
    let? id := need_text doc s prop_ID in
    let? point := need_iri doc s prop_POINT in
    Ok (OEntrain (mkEntrain id point))
  else if bool_decide (class = "Damp") then
    let? id := text doc s prop_ID in
    let? point := need_iri doc s prop_POINT in
    Ok (ODamp (mkDamp id point))
  else
    Ok (OGeneric (mkGeneric class (filter (fun '(p, _) => p <> RDF_TYPE) (pairs doc s)))).

Definition decode (doc : Doc) : result ProtocolError EnvelopeObject :=
  let '(typed, alien) := scan doc in
  if bool_decide (typed = []) then Err (bad [L "frame contains no envelope object"])
  else if forallb (fun '(_, c) => bool_decide (c = "Row")) typed then
    match alien with
    | Some class => alien_error class
    | None => rmap ORow (traverse (fun '(s, _) => read_row doc s) typed)
    end
  else
    let? projection := only typed "Projection" in
    match projection with
    | Some s => read_projection doc s
    | None =>
        let? vibration := only typed "Vibration" in
        match vibration with
        | Some s => read_vibration doc s
        | None =>
            let? graph := only typed "Graph" in
            match graph with
            | Some s => read_graph doc s
            | None =>
                match alien, typed with
                | Some class, _ => alien_error class
                | None, [(s, class)] => decode_single doc s class
                | None, _ =>
                    Err (bad [L "frame contains "; L (int_to_string (zlen typed));
                              L " typed subjects; exactly one is allowed (only rsntr:Row may repeat)"])
                end
            end
        end
    end.

(** ** The incremental parser *)

Section parser.
Context `{!TurtleParser}.

Record EnvelopeParser : Type := mkParser {
  inner : tp_state;
  seen : list Triple
}.

Definition EnvelopeParser_new : EnvelopeParser := mkParser (tp_new IMPLIED_PREFIXES) [].

(** The [while let] loop of [pump]; [n] bounds the items still to come, so
    the loop ends only when the parser yields nothing or an error. *)
Fixpoint pump_go (n : nat) :
    forall st, (tp_size st < n)%nat -> list Triple -> result ProtocolError unit * EnvelopeParser :=
  match n with
  | O => fun st H _ => False_rect _ (Nat.nlt_0_r _ H)
  | S n' => fun st H seen =>
      match tp_next st as r return tp_next st = r -> _ with
      | (None, st') => fun _ => (Ok tt, mkParser st' seen)
      | (Some (Err e), st') => fun _ => (Err (Syntax e), mkParser st' seen)
      | (Some (Ok t), st') => fun E =>
          pump_go n' st'
            (Nat.lt_le_trans _ _ _ (tp_next_size st (Ok t) st' E) (le_S_n _ _ H)) (seen ++ [t])
      end eq_refl
  end.

Definition pump (p : EnvelopeParser) : result ProtocolError unit * EnvelopeParser :=
  pump_go (S (tp_size (inner p))) (inner p) (Nat.lt_succ_diag_r _) (seen p).

Definition push (p : EnvelopeParser) (chunk : list Byte.byte) :
    result ProtocolError unit * EnvelopeParser :=
  pump (mkParser (tp_extend chunk (inner p)) (seen p)).

Definition finish (p : EnvelopeParser) : result ProtocolError EnvelopeObject :=
  match pump (mkParser (tp_end (inner p)) (seen p)) with
  | (Err e, _) => Err e
  | (Ok _, p') => decode (seen p')
  end.

Definition from_turtle (doc : string) : result ProtocolError EnvelopeObject :=
  match push EnvelopeParser_new (as_bytes doc) with
  | (Err e, _) => Err e
  | (Ok _, p) => finish p
  end.

End parser.
End decode.
