(* ===== verification/Encode.v ===== *)
(** * Encode: from an envelope object to its Turtle document

    Models the encoding half of [crates/protocol/src/envelope.rs]. Texts are
    UTF-8 byte strings: every character the escapes treat is ASCII, and the
    bytes of the others pass through, so the source's loop over [chars] is a
    map over bytes. *)

From S2P Require Import Prelude RustStd Vocab External Value Envelope.

(** ** String literals *)

Definition BS : ascii := "\"%char.
Definition CR : ascii := "013"%char.
Definition TAB : ascii := "009"%char.

(** [\u{:04X}] of a character below 0x20. *)
Definition u_escape (c : ascii) : string := "\u00" +:+ hex2 HEX_UPPER (byte_val c).

Definition quote_char (c : ascii) : string :=
  if bool_decide (c = DQ) then String BS (char_str DQ)
  else if bool_decide (c = BS) then String BS (char_str BS)
  else if bool_decide (c = NL) then "\n"
  else if bool_decide (c = CR) then "\r"
  else if byte_val c <? 0x20 then u_escape c
  else char_str c.

Definition quote (s : string) : string := dq +:+ str_map quote_char s +:+ dq.

Definition quote_long_char (c : ascii) : string :=
  if bool_decide (c = DQ) then String BS (char_str DQ)
  else if bool_decide (c = BS) then String BS (char_str BS)
  else if bool_decide (c = NL) || bool_decide (c = TAB) then char_str c
  else if bool_decide (c = CR) then "\r"
  else if byte_val c <? 0x20 then u_escape c
  else char_str c.

Definition dq3 : string := dq +:+ dq +:+ dq.

Definition quote_long (s : string) : string := dq3 +:+ str_map quote_long_char s +:+ dq3.

Definition quote_text (s : string) : string :=
  if contains_char NL s then quote_long s else quote s.

Definition iri_term (iri : string) : string := "<" +:+ iri +:+ ">".

(** [bool]'s [to_string]. *)
Definition bool_to_string (b : bool) : string := if b then "true" else "false".

(** ** Blocks *)

Module Block.

(** [Block { text }]. *)
Record t : Type := mk { text : string }.

Definition anon (class : string) : t := mk ("[] a rsntr:" +:+ class).

Definition named (subject_iri class_term : string) : t :=
  mk (iri_term subject_iri +:+ " a " +:+ class_term).

Definition pair (self : t) (pred obj : string) : t :=
  mk (text self +:+ (" ;" +:+ nl +:+ "   ") +:+ pred +:+ " " +:+ obj).

Definition opt_text (self : t) (pred : string) (v : option string) : t :=
  match v with
  | Some v => pair self pred (quote v)
  | None => self
  end.

Definition opt_int (self : t) (pred : string) (v : option Z) : t :=
  match v with
  | Some v => pair self pred (int_to_string v)
  | None => self
  end.

Definition repeated (self : t) (pred : string) (items : list string) : t :=
  match items with
  | [] => self
  | _ => pair self pred (join ", " (map quote items))
  end.

Definition opt_datetime (self : t) (pred : string) (v : option string) : t :=
  match v with
  | Some v => pair self pred (quote v +:+ "^^xsd:dateTime")
  | None => self
  end.

Definition close (self : t) : string := text self +:+ (" ." +:+ nl).

End Block.

Notation "b |.pair ( p , o )" := (Block.pair b p o) (at level 1, left associativity) : rsntr_scope.
Notation "b |.opt_text ( p , o )" := (Block.opt_text b p o)
  (at level 1, left associativity) : rsntr_scope.
Notation "b |.opt_int ( p , o )" := (Block.opt_int b p o)
  (at level 1, left associativity) : rsntr_scope.
Notation "b |.repeated ( p , o )" := (Block.repeated b p o)
  (at level 1, left associativity) : rsntr_scope.
Notation "b |.opt_datetime ( p , o )" := (Block.opt_datetime b p o)
  (at level 1, left associativity) : rsntr_scope.

Section encode.
Context `{!OxDisplay, !F64Text, !Base64}.

Definition value_term (v : Value) : string :=
  match v with
  | Null => "rsntr:null"
  | Integer i => int_to_string i
  | Real f => quote (format_double f) +:+ "^^xsd:double"
  | Text s => quote s
  | Blob b => quote (encode_base64 b) +:+ "^^xsd:base64Binary"
  | BlobRef hash bytes =>
      "[ a rsntr:BlobRef ; rsntr:hash " +:+ quote hash +:+ " ; rsntr:bytes " +:+
      int_to_string bytes +:+ " ]"
  end.

Definition text_collection (items : list string) : string :=
  "(" +:+ join " " (map quote items) +:+ ")".

Definition value_collection (items : list Value) : string :=
  "(" +:+ join " " (map value_term items) +:+ ")".

Definition statement_block (class : string) (st : Statement) : string :=
  let b := (Block.anon class)
             |.pair ("rsntr:id", quote (st_id st))
             |.pair ("rsntr:mod", quote (st_modulation st))
             |.pair ("rsntr:signal", quote_text (st_signal st)) in
  let b := match st_params st with
           | [] => b
           | params => b|.pair ("rsntr:params", value_collection params)
           end in
  Block.close
    (b|.opt_text ("rsntr:database", st_database st)
      |.opt_int ("rsntr:rowLimit", st_row_limit st)
      |.opt_int ("rsntr:byteLimit", st_byte_limit st)
      |.opt_int ("rsntr:timeoutMs", st_timeout_ms st)).

Definition payload_line (t : Triple) : string :=
  show_node (subject t) +:+ " " +:+ show_named (predicate t) +:+ " " +:+ show_term (object t) +:+
  (" ." +:+ nl).

Definition append_payload (out : string) (payload : list Triple) : string :=
  foldl (fun out t => out +:+ payload_line t) out payload.

Definition is_null (v : Value) : bool := match v with Null => true | _ => false end.

Definition cell_text (cell : string * Value) : string :=
  let '(name, v) := cell in
  if is_null v then ""
  else " ; rsntr:" +:+ COL_PREFIX +:+ encode_column_name name +:+ " " +:+ value_term v.

Definition row_text (row : Row) : string :=
  foldl (fun out cell => out +:+ cell_text cell)
    ("[] a rsntr:Row ; rsntr:seq " +:+ int_to_string (row_seq row)) (row_cells row) +:+
  (" ." +:+ nl).

(** ** Points *)

Definition point_class_term (kind : PointKind) : string :=
  match kind with
  | Excitable => "rsntr:Excitable"
  | Radiant => "rsntr:Radiant"
  | Sympathetic => "rsntr:Sympathetic"
  | Bare => "rsntr:ResonancePoint"
  | Other iri => iri_term iri
  end.

Definition datatype_term (iri : string) : string :=
  match strip_prefix XSD_NS iri with
  | Some local => "xsd:" +:+ local
  | None => iri_term iri
  end.

Definition field_parts (f : PointField) : list string :=
  ["rsntr:name " +:+ quote (pf_name f)] ++
  match pf_datatype f with
  | Some dt => ["rsntr:datatype " +:+ datatype_term dt]
  | None => []
  end ++
  (if pf_required f then ["rsntr:required true"] else []) ++
  match pf_default f with
  | Some d => ["rsntr:default " +:+ value_term d]
  | None => []
  end ++
  match pf_one_of f with
  | [] => []
  | one_of => ["rsntr:oneOf " +:+ value_collection one_of]
  end ++
  match pf_hint f with
  | Some h => ["rsntr:hint " +:+ quote h]
  | None => []
  end.

Definition field_term (f : PointField) : string :=
  "[ " +:+ join " ; " (field_parts f) +:+ " ]".

Definition point_block (pt : Point) : string :=
  let b := (Block.named (pt_iri pt) (point_class_term (pt_kind pt)))
             |.opt_text ("rdfs:label", pt_label pt)
             |.opt_text ("rdfs:comment", pt_comment pt)
             |.opt_text ("rsntr:icon", pt_icon pt)
             |.opt_text ("rsntr:role", pt_role pt)
             |.opt_text ("rsntr:projects", pt_projects pt) in
  let b := match pt_coupling pt with
           | [] => b
           | coupling =>
               b|.pair ("rsntr:coupling",
                      "[ rsntr:field (" +:+ join " " (map field_term coupling) +:+ ") ]")
           end in
  let b := b|.opt_text ("rsntr:mod", pt_modulation pt) in
  let b := match pt_signal pt with
           | Some t => b|.pair ("rsntr:signal", quote_text t)
           | None => b
           end in
  let b := match pt_params_order pt with
           | [] => b
           | order => b|.pair ("rsntr:paramsOrder", text_collection order)
           end in
  let b := match pt_signal_template pt with
           | Some t => b|.pair ("rsntr:signalTemplate", quote_text t)
           | None => b
           end in
  Block.close (b|.opt_text ("rsntr:fires", pt_fires pt)).

(** ** Envelopes *)

Definition plain_class (class : string) : bool :=
  negb (is_empty class) &&
  str_forallb (fun b => is_ascii_alphanumeric b || bool_decide (b = "_"%char)) class.

Definition encode (obj : EnvelopeObject) : result ProtocolError string :=
  match obj with
  | OQuery st => Ok (statement_block "Query" st)
  | OExecute st => Ok (statement_block "Execute" st)
  | OResult h =>
      let b := (Block.anon "Result")
                 |.pair ("rsntr:id", quote (rh_id h))
                 |.pair ("rsntr:column", text_collection (rh_columns h)) in
      let b := match rh_decl_types h with
               | [] => b
               | decl_types => b|.pair ("rsntr:declType", text_collection decl_types)
               end in
      Ok (Block.close b)
  | ORow [] => Err (bad [L "a row frame must contain at least one rsntr:Row"])
  | ORow rows => Ok (foldl (fun out row => out +:+ row_text row) "" rows)
  | ODone d =>
      Ok (Block.close
            ((Block.anon "Done")
               |.pair ("rsntr:id", quote (dn_id d))
               |.opt_int ("rsntr:rowCount", dn_row_count d)
               |.opt_int ("rsntr:affectedRows", dn_affected_rows d)
               |.opt_int ("rsntr:lastInsertRowid", dn_last_insert_rowid d)
               |.pair ("rsntr:truncated", bool_to_string (dn_truncated d))))
  | ODenied d =>
      Ok (Block.close
            ((Block.anon "Denied")
               |.opt_text ("rsntr:id", dd_id d)
               |.opt_text ("rsntr:reason", dd_reason d)))
  | OError e =>
      Ok (Block.close
            ((Block.anon "Error")
               |.opt_text ("rsntr:id", er_id e)
               |.pair ("rsntr:code", quote (er_code e))
               |.opt_text ("rsntr:reason", er_reason e)))
  | OHello h =>
      Ok (Block.close
            ((Block.anon "Hello")
               |.pair ("rsntr:ver", quote (hl_envelope_version h))
               |.repeated ("rsntr:enc", hl_encodings h)
               |.repeated ("rsntr:mods", hl_mods h)
               |.opt_text ("rsntr:hint", hl_hint h)))
  | OKnock k =>
      Ok (Block.close
            ((Block.anon "Knock")
               |.opt_text ("rsntr:id", kn_id k)
               |.pair ("rsntr:message", quote (kn_message k))))
  | OPresence p =>
      Ok (Block.close
            ((Block.anon "Presence")
               |.pair ("rsntr:at", quote (pr_at p) +:+ "^^xsd:dateTime")
               |.opt_text ("rsntr:status", pr_status p)
               |.opt_text ("rsntr:endpoint", pr_endpoint p)))
  | ODecision d =>
      Ok (Block.close
            ((Block.anon "Decision")
               |.opt_text ("rsntr:id", dc_id d)
               |.pair ("rsntr:decision", quote (dc_decision d))
               |.pair ("rsntr:decidedBy", quote (dc_decided_by d))
               |.opt_text ("rsntr:reason", dc_reason d)
               |.opt_datetime ("rsntr:at", dc_at d)))
  | OHelp h =>
      let b := (Block.anon "Help")|.opt_text ("rsntr:id", hp_id h) in
      let b := match hp_topics h with
               | [] => b
               | topics => b|.pair ("rsntr:topic", join ", " (map quote topics))
               end in
      Ok (Block.close (b|.pair ("rsntr:signal", quote_text (hp_signal h))))
  | OMedia m =>
      Ok (Block.close
            ((Block.anon "Media")
               |.pair ("rsntr:id", quote (md_id m))
               |.pair ("rsntr:contentType", quote (md_content_type m))))
  | OAudioDuplex d =>
      let b := (Block.anon "AudioDuplex")|.pair ("rsntr:id", quote (ad_id d)) in
      let b := match ad_content_type d with
               | Some ct => b|.pair ("rsntr:contentType", quote ct)
               | None => b
               end in
      Ok (Block.close (b|.pair ("rsntr:accepts", quote (ad_accepts d))))
  | OGraph gr =>
      let out := Block.close
                   ((Block.anon "Graph")
                      |.pair ("rsntr:id", quote (gr_id gr))
                      |.pair ("rsntr:seq", int_to_string (gr_seq gr))) in
      Ok (append_payload out (gr_payload gr))
  | OGeneric g =>
      if negb (plain_class (gn_class g)) then
        Err (bad [L "generic class "; D (gn_class g); L " is not a plain rsntr local name"])
      else
        Ok (Block.close
              (foldl (fun b '(p, o) => b|.pair (show_named p, show_term o))
                 (Block.anon (gn_class g)) (gn_props g)))
  | OProjection p =>
      let b := (Block.anon "Projection")|.opt_text ("rsntr:id", pj_id p) in
      let b := match pj_offers p with
               | [] => b
               | offers =>
                   b|.pair ("rsntr:offers",
                          "(" +:+ join " " (map (fun pt => iri_term (pt_iri pt)) offers) +:+ ")")
               end in
      Ok (foldl (fun out pt => out +:+ nl +:+ point_block pt) (Block.close b) (pj_offers p))
  | OEntrain e =>
      Ok (Block.close
            ((Block.anon "Entrain")
               |.pair ("rsntr:id", quote (en_id e))
               |.pair ("rsntr:point", iri_term (en_point e))))
  | ODamp d =>
      Ok (Block.close
            ((Block.anon "Damp")
               |.opt_text ("rsntr:id", dm_id d)
               |.pair ("rsntr:point", iri_term (dm_point d))))
  | OVibration v =>
      let out := Block.close
                   ((Block.anon "Vibration")
                      |.pair ("rsntr:id", quote (vb_id v))
                      |.pair ("rsntr:point", iri_term (vb_point v))
                      |.pair ("rsntr:seq", int_to_string (vb_seq v))
                      |.opt_datetime ("rsntr:at", vb_at v)) in
      Ok (append_payload out (vb_payload v))
  end.

Definition to_turtle (obj : EnvelopeObject) : result ProtocolError string := encode obj.

(** ** The row size estimate *)

Fixpoint str_repeat (c : ascii) (n : nat) : string :=
  match n with O => "" | S n' => String c (str_repeat c n') end.

Lemma quote_control_len n : str_len (quote (str_repeat "001" n)) = (6 * n + 2)%nat.
Proof.
  unfold quote. rewrite !str_len_app. change (str_len dq) with 1%nat.
  assert (str_len (str_map quote_char (str_repeat "001" n)) = (6 * n)%nat) as Hn; [|lia].
  induction n as [|n IH]; [done|]. cbn [str_repeat str_map]. rewrite str_len_app, IH.
  change (str_len (quote_char "001")) with 6%nat. lia.
Qed.

(** The size estimate of a row is not an upper bound of its encoded size: a
    text of [n] control characters is estimated at [n] bytes and a constant,
    and takes more than six times [n] bytes in the frame. *)
Theorem estimate_row_bytes_low (n : nat) :
  let row := mkRow 0 [("t", Text (str_repeat "001" n))] in
  estimate_row_bytes row = (n + 61)%nat /\ (6 * n + 48 <= str_len (row_text row))%nat.
Proof.
  intros row. split.
  - change (32 + (1 + 12) + (str_len (str_repeat "001" n) + 16) = n + 61)%nat.
    assert (str_len (str_repeat "001" n) = n) as ->; [|lia]. clear row.
    induction n as [|n IH]; [done|]. unfold str_len in *. cbn. by rewrite IH.
  - unfold row, row_text, cell_text. cbn [foldl row_cells row_seq is_null value_term].
    rewrite !str_len_app, quote_control_len.
    change (str_len "[] a rsntr:Row ; rsntr:seq ") with 27%nat.
    change (str_len (int_to_string 0)) with 1%nat. change (str_len " ; rsntr:") with 9%nat.
    change (str_len COL_PREFIX) with 4%nat. change (str_len (encode_column_name "t")) with 1%nat.
    change (str_len " ") with 1%nat. change (str_len " .") with 2%nat. change (str_len nl) with 1%nat. lia.
Qed.

End encode.
