(* ===== verification/Turtle.v ===== *)
(** * Turtle: the language of the frames, as a specification

    A reader for the part of Turtle 1.1 the frames are written in, from text
    to abstract syntax, and what it means for a list of triples to represent a
    document. Nothing here models code of the repository: it states the
    documented behaviour of the language, against which [RoundTrip] proves the
    encoder and the decoder of [envelope.rs]. The reader rejects what it does
    not cover (directives, comments, non-ASCII names, decimals, language tags),
    and is a right inverse of the grammar on what it covers. *)

From S2P Require Import Prelude RustStd Vocab External.

(** ** Abstract syntax *)

(** An object: literal, IRI, collection, blank node property list. *)
Inductive ast : Type :=
| ALit (l : Literal)
| AIri (iri : string)
| AColl (xs : list ast)
| ABnode (ps : list (string * ast)).

(** [None] is an anonymous subject. *)
Record stmt : Type := mkStmt {
  s_subj : option string;
  s_props : list (string * ast)
}.

Definition str_lit (s : string) : ast := ALit (mkLiteral s XSD_STRING None).
Definition typed_lit (dt s : string) : ast := ALit (mkLiteral s dt None).

(** The characters an IRI is written with directly. *)
Definition is_iri_char (c : ascii) : bool :=
  negb (in_range 0 0x20 c) && negb ((c =? "<") || (c =? ">") || (c =? DQ) || (c =? "{") ||
  (c =? "}") || (c =? "|") || (c =? "^") || (c =? "`") || (c =? "\"))%char.

(** The absolute IRIs the parser accepts between angle brackets ([oxiri]'s
    reading of RFC 3987). *)
Class IriSyntax : Type := {
  valid_iri : string -> bool;
  valid_iri_chars i : valid_iri i = true -> str_forallb is_iri_char i = true
}.

Section turtle.
Context `{!IriSyntax}.

(** ** Lexing: an automaton over the bytes *)

Inductive token : Type :=
| TkIri (iri : string)
| TkName (n : string)
| TkStr (v : string)
| TkTypedName (v n : string)
| TkTypedIri (v iri : string)
| TkPunct (c : ascii).

(** [long] marks a triple-quoted literal, [q] the quotes read since its last
    character, [v] the value so far. *)
Inductive lstate : Type :=
| LStart
| LName (n : string)
| LIri (i : string)
| LQuote1
| LQuote2
| LStr (v : string)
| LLong (q : nat) (v : string)
| LEsc (long : bool) (v : string)
| LHex (long : bool) (v : string) (k : nat) (code : Z)
| LEnd (v : string)
| LCaret (v : string)
| LType (v : string)
| LTypeName (v n : string)
| LTypeIri (v i : string).

Definition is_ws (c : ascii) : bool := (c =? " ")%char || (c =? "009")%char || (c =? NL)%char || (c =? "013")%char.
Definition is_close (c : ascii) : bool := (c =? ")")%char || (c =? "]")%char || (c =? ";")%char || (c =? ",")%char.
Definition is_punct (c : ascii) : bool :=
  is_close c || (c =? "(")%char || (c =? "[")%char || (c =? ".")%char.
Definition is_name_char (c : ascii) : bool :=
  is_ascii_alphanumeric c || (c =? "_")%char || (c =? ":")%char || (c =? "%")%char ||
  (c =? "-")%char || (c =? "+")%char.
(** A token that a delimiter ends: nothing else may follow it directly. *)
Definition ended (t : token) (c : ascii) : option (list token * lstate) :=
  if is_ws c then Some ([t], LStart)
  else if is_close c then Some ([t; TkPunct c], LStart)
  else None.

Definition snoc (s : string) (c : ascii) : string := s +:+ char_str c.

(** [ECHAR] *)
Definition unescape (c : ascii) : option ascii :=
  if (c =? "n")%char then Some NL
  else if (c =? "r")%char then Some "013"%char
  else if (c =? "t")%char then Some "009"%char
  else if (c =? "b")%char then Some "008"%char
  else if (c =? "f")%char then Some "012"%char
  else if ((c =? DQ) || (c =? "'") || (c =? "\"))%char then Some c
  else None.

Definition in_str (long : bool) (v : string) : lstate := if long then LLong 0 v else LStr v.

Definition quotes (q : nat) : string := Nat.iter q (fun s => String DQ s) "".

Definition lex_step (st : lstate) (c : ascii) : option (list token * lstate) :=
  match st with
  | LStart =>
      if is_ws c then Some ([], LStart)
      else if is_punct c then Some ([TkPunct c], LStart)
      else if (c =? "<")%char then Some ([], LIri "")
      else if (c =? DQ)%char then Some ([], LQuote1)
      else if is_name_char c then Some ([], LName (char_str c))
      else None
  | LName n => if is_name_char c then Some ([], LName (snoc n c)) else ended (TkName n) c
  | LIri i =>
      if (c =? ">")%char then if valid_iri i then Some ([TkIri i], LStart) else None
      else if is_iri_char c then Some ([], LIri (snoc i c))
      else None
  | LQuote1 =>
      if (c =? DQ)%char then Some ([], LQuote2)
      else if (c =? "\")%char then Some ([], LEsc false "")
      else if (c =? NL)%char || (c =? "013")%char then None
      else Some ([], LStr (char_str c))
  | LQuote2 =>
      if (c =? DQ)%char then Some ([], LLong 0 "")
      else if (c =? "^")%char then Some ([], LCaret "")
      else ended (TkStr "") c
  | LStr v =>
      if (c =? DQ)%char then Some ([], LEnd v)
      else if (c =? "\")%char then Some ([], LEsc false v)
      else if (c =? NL)%char || (c =? "013")%char then None
      else Some ([], LStr (snoc v c))
  | LLong q v =>
      if (c =? DQ)%char then
        if bool_decide (q = 2%nat) then Some ([], LEnd v) else Some ([], LLong (S q) v)
      else if (c =? "\")%char then Some ([], LEsc true (v +:+ quotes q))
      else Some ([], LLong 0 (snoc (v +:+ quotes q) c))
  | LEsc long v =>
      if (c =? "u")%char then Some ([], LHex long v 4 0)
      else match unescape c with
           | Some d => Some ([], in_str long (snoc v d))
           | None => None
           end
  | LHex long v k code =>
      match hex_digit c with
      | Some d =>
          let code := code * 16 + d in
          match k with
          | S (S k') => Some ([], LHex long v (S k') code)
          | _ => if code <? 0x80 then Some ([], in_str long (snoc v (byte_of code))) else None
          end
      | None => None
      end
  | LEnd v => if (c =? "^")%char then Some ([], LCaret v) else ended (TkStr v) c
  | LCaret v => if (c =? "^")%char then Some ([], LType v) else None
  | LType v =>
      if (c =? "<")%char then Some ([], LTypeIri v "")
      else if is_name_char c then Some ([], LTypeName v (char_str c))
      else None
  | LTypeName v n =>
      if is_name_char c then Some ([], LTypeName v (snoc n c)) else ended (TkTypedName v n) c
  | LTypeIri v i =>
      if (c =? ">")%char then if valid_iri i then Some ([TkTypedIri v i], LStart) else None
      else if is_iri_char c then Some ([], LTypeIri v (snoc i c))
      else None
  end.

(** The tokens of a text, from a state; the text must end between tokens. *)
Fixpoint lex (st : lstate) (s : string) : option (list token) :=
  match s with
  | "" => match st with LStart => Some [] | _ => None end
  | String c s' =>
      match lex_step st c with
      | Some (ts, st') => app ts <$> lex st' s'
      | None => None
      end
  end.

(** ** Parsing: a pushdown automaton over the tokens *)

Inductive frame : Type :=
| FSubj
| FPred (subj : option string) (ps : list (string * ast))
| FObj (subj : option string) (ps : list (string * ast)) (p : string)
| FAfter (subj : option string) (ps : list (string * ast))
| FColl (xs : list ast).

Abbreviation stack := (list frame).

(** Hands a complete term to what waits for it. *)
Definition deliver (a : ast) (k : stack) : option stack :=
  match k with
  | FSubj :: k =>
      match a with
      | AIri i => Some (FPred (Some i) [] :: k)
      | ABnode ps => Some (FPred None ps :: k)
      | _ => None
      end
  | FPred s ps :: k => match a with AIri p => Some (FObj s ps p :: k) | _ => None end
  | FObj s ps p :: k => Some (FAfter s (ps ++ [(p, a)]) :: k)
  | FColl xs :: k => Some (FColl (xs ++ [a]) :: k)
  | _ => None
  end.

Definition is_local (s : string) : bool :=
  negb (is_empty s) && str_forallb (fun c => is_ascii_alphanumeric c || (c =? "_")%char || (c =? "%")%char) s.

(** A prefixed name under the implied prefixes. *)
Definition resolve (n : string) : option string :=
  '(prefix, local) ← split_once ":" n;
  '(_, ns) ← find (fun '(p, _) => bool_decide (p = prefix)) IMPLIED_PREFIXES;
  if is_local local then Some (ns +:+ local) else None.

Definition is_integer_text (n : string) : bool :=
  match n with
  | "" => false
  | String c s =>
      if ((c =? "-") || (c =? "+"))%char then negb (is_empty s) && str_forallb is_ascii_digit s
      else str_forallb is_ascii_digit n
  end.

Definition term_of_name (n : string) : option ast :=
  if bool_decide (n = "true") || bool_decide (n = "false")
  then Some (typed_lit (XSD_NS +:+ "boolean") n)
  else if is_integer_text n then Some (typed_lit XSD_INTEGER n)
  else AIri <$> resolve n.

Definition parse_step (k : stack) (t : token) : option (list stmt * stack) :=
  let ret (k : option stack) := (fun k => ([], k)) <$> k in
  match t with
  | TkIri i => ret (deliver (AIri i) k)
  | TkName n =>
      match k with
      | FPred _ _ :: _ =>
          if bool_decide (n = "a") then ret (deliver (AIri RDF_TYPE) k)
          else ret (a ← term_of_name n; deliver a k)
      | _ => ret (a ← term_of_name n; deliver a k)
      end
  | TkStr v => ret (deliver (str_lit v) k)
  | TkTypedName v n => ret (dt ← resolve n; deliver (typed_lit dt v) k)
  | TkTypedIri v i => ret (deliver (typed_lit i v) k)
  | TkPunct c =>
      if (c =? "[")%char then
        match k with
        | FSubj :: _ | FObj _ _ _ :: _ | FColl _ :: _ => Some ([], FPred None [] :: k)
        | _ => None
        end
      else if (c =? "(")%char then
        match k with
        | FObj _ _ _ :: _ | FColl _ :: _ => Some ([], FColl [] :: k)
        | _ => None
        end
      else if (c =? "]")%char then
        match k with
        | FPred None ps :: k | FAfter None ps :: k => ret (deliver (ABnode ps) k)
        | _ => None
        end
      else if (c =? ")")%char then
        match k with
        | FColl xs :: k => ret (deliver (AColl xs) k)
        | _ => None
        end
      else if (c =? ";")%char then
        match k with
        | FAfter s ps :: k => Some ([], FPred s ps :: k)
        | _ => None
        end
      else if (c =? ",")%char then
        match k with
        | FAfter s ps :: k =>
            match last ps with
            | Some (p, _) => Some ([], FObj s ps p :: k)
            | None => None
            end
        | _ => None
        end
      else if (c =? ".")%char then
        match k with
        | [FAfter s ps] => Some ([mkStmt s ps], [FSubj])
        | _ => None
        end
      else None
  end.

Fixpoint parse (k : stack) (ts : list token) : option (list stmt) :=
  match ts with
  | [] => match k with [FSubj] => Some [] | _ => None end
  | t :: ts' =>
      match parse_step k t with
      | Some (ds, k') => app ds <$> parse k' ts'
      | None => None
      end
  end.

(** The statements of a document. *)
Definition read (text : string) : option (list stmt) := lex LStart text ≫= parse [FSubj].

End turtle.

(** ** What a document means *)

Section represents.
Context (doc : list Triple).

Definition about (s : NamedOrBlankNode) : list (string * Term) :=
  map (fun t => (predicate t, object t)) (filter (fun t => subject t = s) doc).

(** [matches a tm labels]: in [doc], the term [tm] stands for the object [a];
    [labels] are the blank nodes that stand for its parts. A property list is
    a blank node with exactly its properties, in order; a collection is a
    chain of cells. *)
Inductive matches : ast -> Term -> list string -> Prop :=
| m_lit l : matches (ALit l) (TLit l) []
| m_iri i : matches (AIri i) (TNamed i) []
| m_nil : matches (AColl []) (TNamed RDF_NIL) []
| m_cons c x xs tm tl l1 l2 :
    about (BNode c) ≡ₚ [(RDF_FIRST, tm); (RDF_REST, tl)] ->
    matches x tm l1 -> matches (AColl xs) tl l2 ->
    matches (AColl (x :: xs)) (TBlank c) (c :: l1 ++ l2)
| m_bnode b ps os l :
    about (BNode b) = zip (map fst ps) os -> matches_all (map snd ps) os l ->
    matches (ABnode ps) (TBlank b) (b :: l)
with matches_all : list ast -> list Term -> list string -> Prop :=
| ms_nil : matches_all [] [] []
| ms_cons a xs tm tms l1 l2 :
    matches a tm l1 -> matches_all xs tms l2 -> matches_all (a :: xs) (tm :: tms) (l1 ++ l2).

(** The subject of a statement, and the triples that state its properties. *)
Definition subject_of (st : stmt) (s : NamedOrBlankNode) : Prop :=
  match s_subj st with
  | Some i => s = NNode i
  | None => exists b, s = BNode b
  end.

Inductive stmts_match : list stmt -> list NamedOrBlankNode -> list Triple -> list string -> Prop :=
| sm_nil : stmts_match [] [] [] []
| sm_cons st s os sts ss ts l1 l2 :
    subject_of st s -> matches_all (map snd (s_props st)) os l1 ->
    stmts_match sts ss ts l2 ->
    stmts_match (st :: sts) (s :: ss)
      (zip_with (fun p o => mkTriple s p o) (map fst (s_props st)) os ++ ts) (l1 ++ l2).

(** The triples of a document: those about the statements' subjects are the
    statements' own, in document order; the others are about the blank nodes of
    their objects; and no blank node stands for two things. *)
Definition represents (sts : list stmt) : Prop :=
  exists ss ts ls, stmts_match sts ss ts ls /\
    NoDup (ss ++ map BNode ls) /\
    filter (fun t => subject t ∈ ss) doc = ts /\
    Forall (fun t => subject t ∈ ss ++ map BNode ls) doc.

End represents.

Scheme matches_ind2 := Minimality for matches Sort Prop
  with matches_all_ind2 := Minimality for matches_all Sort Prop.
