(* ===== verification/EncodeSpec.v ===== *)
(** * EncodeSpec: the document an envelope object is written as

    The abstract syntax of each envelope object ([stmts_of]), and the theorem
    that the text [encode] produces reads back as it: whatever the strings,
    names and values an object carries, they cannot change the shape of the
    document. *)

From S2P Require Import Prelude RustStd Vocab External Value Envelope Encode Turtle.
From Stdlib Require Import DecimalString.

(** ** The abstract syntax of objects *)

Section syntax.
Context `{!F64Text, !Base64}.

Definition XSD_DATETIME : string := XSD_NS +:+ "dateTime".

Definition int_lit (i : Z) : ast := typed_lit XSD_INTEGER (int_to_string i).
Definition bool_lit (b : bool) : ast := typed_lit (XSD_NS +:+ "boolean") (bool_to_string b).

Definition ast_of_value (v : Value) : ast :=
  match v with
  | Null => AIri prop_NULL
  | Integer i => int_lit i
  | Real f => typed_lit XSD_DOUBLE (format_double f)
  | Text s => str_lit s
  | Blob b => typed_lit XSD_BASE64_BINARY (encode_base64 b)
  | BlobRef hash bytes =>
      ABnode [(RDF_TYPE, AIri cls_BLOB_REF); (prop_HASH, str_lit hash); (prop_BYTES, int_lit bytes)]
  end.

(** Property lists. *)
Abbreviation props := (list (string * ast)).

Definition p_one (p : string) (a : ast) : props := [(p, a)].
Definition p_text (p v : string) : props := p_one p (str_lit v).
Definition p_opt {A} (p : string) (f : A -> ast) (o : option A) : props :=
  match o with Some a => [(p, f a)] | None => [] end.
Definition p_many (p : string) (vs : list string) : props := map (fun v => (p, str_lit v)) vs.
(** A collection, left out when empty. *)
Definition p_list {A} (p : string) (f : A -> ast) (xs : list A) : props :=
  match xs with [] => [] | _ => [(p, AColl (map f xs))] end.

Definition date_lit (s : string) : ast := typed_lit XSD_DATETIME s.

Definition typed (cls : string) (ps : props) : props := p_one RDF_TYPE (AIri cls) ++ ps.
Definition anon_stmt (cls : string) (ps : props) : stmt := mkStmt None (typed cls ps).

Definition statement_props (st : Statement) : props :=
  p_text prop_ID (st_id st) ++ p_text prop_MOD (st_modulation st) ++
  p_text prop_SIGNAL (st_signal st) ++ p_list prop_PARAMS ast_of_value (st_params st) ++
  p_opt prop_DATABASE str_lit (st_database st) ++ p_opt prop_ROW_LIMIT int_lit (st_row_limit st) ++
  p_opt prop_BYTE_LIMIT int_lit (st_byte_limit st) ++
  p_opt prop_TIMEOUT_MS int_lit (st_timeout_ms st).

Definition cell_props (cell : string * Value) : props :=
  if is_null cell.2 then []
  else [(RSNTR_NS +:+ COL_PREFIX +:+ encode_column_name cell.1, ast_of_value cell.2)].

Definition row_props (row : Row) : props :=
  (prop_SEQ, int_lit (row_seq row)) :: concat (map cell_props (row_cells row)).

Definition ast_of_field (f : PointField) : ast :=
  ABnode (p_text prop_NAME (pf_name f) ++ p_opt prop_DATATYPE AIri (pf_datatype f) ++
          (if pf_required f then [(prop_REQUIRED, bool_lit true)] else []) ++
          p_opt prop_DEFAULT ast_of_value (pf_default f) ++
          p_list prop_ONE_OF ast_of_value (pf_one_of f) ++ p_opt prop_HINT str_lit (pf_hint f)).

Definition kind_class (k : PointKind) : string :=
  match k with
  | Excitable => cls_EXCITABLE
  | Radiant => cls_RADIANT
  | Sympathetic => cls_SYMPATHETIC
  | Bare => cls_RESONANCE_POINT
  | Other iri => iri
  end.

Definition coupling_props (fields : list PointField) : props :=
  match fields with
  | [] => []
  | _ => [(prop_COUPLING, ABnode [(prop_FIELD, AColl (map ast_of_field fields))])]
  end.

Definition point_props (pt : Point) : props :=
  p_opt RDFS_LABEL str_lit (pt_label pt) ++ p_opt RDFS_COMMENT str_lit (pt_comment pt) ++
  p_opt prop_ICON str_lit (pt_icon pt) ++ p_opt prop_ROLE str_lit (pt_role pt) ++
  p_opt prop_PROJECTS str_lit (pt_projects pt) ++ coupling_props (pt_coupling pt) ++
  p_opt prop_MOD str_lit (pt_modulation pt) ++ p_opt prop_SIGNAL str_lit (pt_signal pt) ++
  p_list prop_PARAMS_ORDER str_lit (pt_params_order pt) ++
  p_opt prop_SIGNAL_TEMPLATE str_lit (pt_signal_template pt) ++
  p_opt prop_FIRES str_lit (pt_fires pt).

Definition point_stmt (pt : Point) : stmt :=
  mkStmt (Some (pt_iri pt)) (typed (kind_class (pt_kind pt)) (point_props pt)).

(** The document of an object; [None] for the classes that carry triples or
    terms of their own (Graph, Vibration, Generic). *)
Definition stmts_of (obj : EnvelopeObject) : option (list stmt) :=
  match obj with
  | OQuery st => Some [anon_stmt cls_QUERY (statement_props st)]
  | OExecute st => Some [anon_stmt cls_EXECUTE (statement_props st)]
  | OResult h =>
      Some [anon_stmt cls_RESULT
              (p_text prop_ID (rh_id h) ++ p_one prop_COLUMN (AColl (map str_lit (rh_columns h))) ++
               p_list prop_DECL_TYPE str_lit (rh_decl_types h))]
  | ORow rows => Some (map (fun row => anon_stmt cls_ROW (row_props row)) rows)
  | ODone d =>
      Some [anon_stmt cls_DONE
              (p_text prop_ID (dn_id d) ++ p_opt prop_ROW_COUNT int_lit (dn_row_count d) ++
               p_opt prop_AFFECTED_ROWS int_lit (dn_affected_rows d) ++
               p_opt prop_LAST_INSERT_ROWID int_lit (dn_last_insert_rowid d) ++
               p_one prop_TRUNCATED (bool_lit (dn_truncated d)))]
  | ODenied d =>
      Some [anon_stmt cls_DENIED
              (p_opt prop_ID str_lit (dd_id d) ++ p_opt prop_REASON str_lit (dd_reason d))]
  | OError e =>
      Some [anon_stmt cls_ERROR
              (p_opt prop_ID str_lit (er_id e) ++ p_text prop_CODE (er_code e) ++
               p_opt prop_REASON str_lit (er_reason e))]
  | OHello h =>
      Some [anon_stmt cls_HELLO
              (p_text prop_VER (hl_envelope_version h) ++ p_many prop_ENC (hl_encodings h) ++
               p_many prop_MODS (hl_mods h) ++ p_opt prop_HINT str_lit (hl_hint h))]
  | OKnock k =>
      Some [anon_stmt cls_KNOCK
              (p_opt prop_ID str_lit (kn_id k) ++ p_text prop_MESSAGE (kn_message k))]
  | OPresence p =>
      Some [anon_stmt cls_PRESENCE
              (p_one prop_AT (date_lit (pr_at p)) ++ p_opt prop_STATUS str_lit (pr_status p) ++
               p_opt prop_ENDPOINT str_lit (pr_endpoint p))]
  | ODecision d =>
      Some [anon_stmt cls_DECISION
              (p_opt prop_ID str_lit (dc_id d) ++ p_text prop_DECISION (dc_decision d) ++
               p_text prop_DECIDED_BY (dc_decided_by d) ++ p_opt prop_REASON str_lit (dc_reason d) ++
               p_opt prop_AT date_lit (dc_at d))]
  | OHelp h =>
      Some [anon_stmt cls_HELP
              (p_opt prop_ID str_lit (hp_id h) ++ p_many prop_TOPIC (hp_topics h) ++
               p_text prop_SIGNAL (hp_signal h))]
  | OMedia m =>
      Some [anon_stmt cls_MEDIA
              (p_text prop_ID (md_id m) ++ p_text prop_CONTENT_TYPE (md_content_type m))]
  | OAudioDuplex d =>
      Some [anon_stmt (rsntr_iri "AudioDuplex")
              (p_text prop_ID (ad_id d) ++ p_opt prop_CONTENT_TYPE str_lit (ad_content_type d) ++
               p_text prop_ACCEPTS (ad_accepts d))]
  | OProjection p =>
      Some (anon_stmt cls_PROJECTION
              (p_opt prop_ID str_lit (pj_id p) ++
               p_list prop_OFFERS (fun pt => AIri (pt_iri pt)) (pj_offers p))
            :: map point_stmt (pj_offers p))
  | OEntrain e =>
      Some [anon_stmt cls_ENTRAIN
              (p_text prop_ID (en_id e) ++ p_one prop_POINT (AIri (en_point e)))]
  | ODamp d =>
      Some [anon_stmt cls_DAMP
              (p_opt prop_ID str_lit (dm_id d) ++ p_one prop_POINT (AIri (dm_point d)))]
  | OGraph _ | OVibration _ | OGeneric _ => None
  end.

(** What must be an IRI is one. *)
Context `{!IriSyntax}.

Definition field_iris_ok (f : PointField) : bool :=
  match pf_datatype f with
  | None => true
  | Some dt => match strip_prefix XSD_NS dt with
               | Some local => is_local local
               | None => valid_iri dt
               end
  end.

Definition kind_ok (k : PointKind) : bool :=
  match k with Other iri => valid_iri iri | _ => true end.

Definition point_iris_ok (pt : Point) : bool :=
  valid_iri (pt_iri pt) && kind_ok (pt_kind pt) && forallb field_iris_ok (pt_coupling pt).

Definition iris_ok (obj : EnvelopeObject) : bool :=
  match obj with
  | OEntrain e => valid_iri (en_point e)
  | ODamp d => valid_iri (dm_point d)
  | OProjection p => forallb point_iris_ok (pj_offers p)
  | _ => true
  end.

End syntax.

(** ** Reading from a state *)

Section reading.
Context `{!IriSyntax}.

Abbreviation stack := (list frame).

(** Reading a text with the parser in a given state. *)
Definition rd (k : stack) (s : string) : option (list stmt) := lex LStart s ≫= parse k.

(** The rest of a text once a token has been handled. *)
Definition after (r : option (list stmt * stack)) (s : string) : option (list stmt) :=
  match r with
  | Some (ds, k) => app ds <$> rd k s
  | None => None
  end.

(** The rest of a text once a term is complete. *)
Definition then_rd (a : ast) (k : stack) (s : string) : option (list stmt) :=
  deliver a k ≫= fun k' => rd k' s.

(** What may follow a token that is only ended by the next character. *)
Definition delim (s : string) : bool :=
  match s with
  | String c _ => is_ws c || is_close c
  | "" => false
  end.

Definition in_obj (k : stack) : bool :=
  match k with FObj _ _ _ :: _ | FColl _ :: _ => true | _ => false end.

(** Evaluates a boolean test of the lexer on a closed character. *)
Ltac eval_test t := let v := eval vm_compute in t in
  lazymatch v with true => change t with true | false => change t with false end.
Ltac lex_steps :=
  cbn [lex lex_step];
  repeat (match goal with
          | |- context [is_ws ?c] => eval_test (is_ws c)
          | |- context [is_punct ?c] => eval_test (is_punct c)
          | |- context [is_name_char ?c] => eval_test (is_name_char c)
          | |- context [(?c =? ?d)%char] => eval_test (c =? d)%char
          end; cbn [lex lex_step orb andb]).

(** One token, then the rest of the text. *)
Lemma parse_token k t s : (app [t] <$> lex LStart s) ≫= parse k = after (parse_step k t) s.
Proof.
  unfold after, rd. destruct (lex LStart s) as [ts|], (parse_step k t) as [[ds k']|] eqn:E; cbn [fmap
    option_fmap option_map mbind option_bind parse app]; by rewrite ?E.
Qed.

Lemma after_silent k s : after (Some ([], k)) s = rd k s.
Proof. cbn [after]. by destruct (rd k s). Qed.

Lemma after_deliver a k s : after ((fun k => ([], k)) <$> deliver a k) s = then_rd a k s.
Proof. unfold after, then_rd. destruct (deliver a k) as [k'|]; [|done]. cbn. by destruct (rd k' s). Qed.

Lemma rd_ws k c s : is_ws c = true -> rd k (String c s) = rd k s.
Proof.
  intros Hc. unfold rd. cbn [lex lex_step]. rewrite Hc. by destruct (lex LStart s).
Qed.

Lemma is_ws_not_punct c : is_punct c = true -> is_ws c = false.
Proof. ascii_cases c; by vm_compute. Qed.

Lemma is_close_punct c : is_close c = true -> is_punct c = true.
Proof. unfold is_punct. by intros ->. Qed.

Lemma rd_punct k c s :
  is_punct c = true -> rd k (String c s) = after (parse_step k (TkPunct c)) s.
Proof.
  intros Hc. unfold rd. cbn [lex lex_step]. rewrite (is_ws_not_punct c Hc), Hc.
  apply parse_token.
Qed.

(** A pending token, ended by what follows. *)
Lemma rd_ended st t k s :
  (forall c, is_ws c || is_close c = true -> lex_step st c = ended t c) -> delim s = true ->
  (lex st s ≫= parse k) = after (parse_step k t) s.
Proof.
  intros Hst Hs. destruct s as [|c s]; [done|]. cbn [delim] in Hs.
  cbn [lex]. rewrite Hst by done. unfold ended.
  destruct (is_ws c) eqn:Hw; cbn [orb] in Hs.
  - rewrite parse_token. unfold after. destruct (parse_step k t) as [[ds k']|]; [|done].
    by rewrite rd_ws.
  - rewrite Hs. transitivity ((app [t] <$> lex LStart (String c s)) ≫= parse k).
    { cbn [lex lex_step]. rewrite Hw, (is_close_punct c Hs). by destruct (lex LStart s). }
    apply parse_token.
Qed.

(** *** Names *)

Lemma name_char_start c :
  is_name_char c = true ->
  is_ws c = false /\ is_punct c = false /\ (c =? "<")%char = false /\ (c =? DQ)%char = false.
Proof. ascii_cases c; by vm_compute. Qed.

Lemma delim_not_name c : is_ws c || is_close c = true -> is_name_char c = false.
Proof. ascii_cases c; by vm_compute. Qed.

Lemma snoc_app n c s : snoc n c +:+ s = n +:+ String c s.
Proof. unfold snoc. by rewrite app_str_assoc. Qed.

Lemma lex_name n m s :
  str_forallb is_name_char m = true -> lex (LName n) (m +:+ s) = lex (LName (n +:+ m)) s.
Proof.
  revert n. induction m as [|c m IH]; intros n Hm; cbn [str_forallb] in Hm.
  - by rewrite app_str_nil_r.
  - apply andb_prop in Hm as [Hc Hm]. rewrite app_str_cons. cbn [lex lex_step]. rewrite Hc.
    rewrite IH by done. rewrite snoc_app. by destruct (lex _ s).
Qed.

Lemma rd_name n k s :
  negb (is_empty n) && str_forallb is_name_char n = true -> delim s = true ->
  rd k (n +:+ s) = after (parse_step k (TkName n)) s.
Proof.
  destruct n as [|c n]; [done|]. cbn [is_empty negb andb str_forallb].
  intros [Hc Hn]%andb_prop Hs. unfold rd at 1. rewrite app_str_cons. cbn [lex lex_step].
  destruct (name_char_start c Hc) as (-> & -> & -> & ->). rewrite Hc, lex_name by done.
  unfold char_str. rewrite app_str_cons, app_str_nil_l.
  transitivity (lex (LName (String c n)) s ≫= parse k); [by destruct (lex _ s)|].
  apply rd_ended; [|done]. intros d Hd. cbn [lex_step]. by rewrite (delim_not_name d Hd).
Qed.

Lemma lex_type_name v n m s :
  str_forallb is_name_char m = true -> lex (LTypeName v n) (m +:+ s) = lex (LTypeName v (n +:+ m)) s.
Proof.
  revert n. induction m as [|c m IH]; intros n Hm; cbn [str_forallb] in Hm.
  - by rewrite app_str_nil_r.
  - apply andb_prop in Hm as [Hc Hm]. rewrite app_str_cons. cbn [lex lex_step]. rewrite Hc.
    rewrite IH by done. rewrite snoc_app. by destruct (lex _ s).
Qed.

(** *** IRIs *)

Lemma iri_char_not_end c : is_iri_char c = true -> (c =? ">")%char = false.
Proof. ascii_cases c; by vm_compute. Qed.

Lemma lex_iri i m s :
  str_forallb is_iri_char m = true ->
  lex (LIri i) (m +:+ String ">" s) =
  if valid_iri (i +:+ m) then cons (TkIri (i +:+ m)) <$> lex LStart s else None.
Proof.
  revert i. induction m as [|c m IH]; intros i Hm; cbn [str_forallb] in Hm.
  - rewrite app_str_nil_l, app_str_nil_r. cbn [lex lex_step Ascii.eqb Bool.eqb].
    by destruct (valid_iri i).
  - apply andb_prop in Hm as [Hc Hm]. rewrite app_str_cons. cbn [lex lex_step].
    rewrite (iri_char_not_end c Hc), Hc, IH by done. rewrite snoc_app.
    destruct (valid_iri _); [|done]. by destruct (lex LStart s).
Qed.

Lemma rd_iri i k s :
  valid_iri i = true -> rd k (iri_term i +:+ s) = then_rd (AIri i) k s.
Proof.
  intros Hi. unfold iri_term, rd at 1. rewrite !app_str_assoc, !app_str_cons, !app_str_nil_l.
  lex_steps. rewrite lex_iri by (by apply valid_iri_chars). rewrite app_str_nil_l, Hi.
  transitivity ((app [TkIri i] <$> lex LStart s) ≫= parse k); [by destruct (lex LStart s)|].
  rewrite parse_token. apply after_deliver.
Qed.

(** *** String literals *)

Lemma lex_silent st st' c s : lex_step st c = Some ([], st') -> lex st (String c s) = lex st' s.
Proof. intros Hc. cbn [lex]. rewrite Hc. by destruct (lex st' s). Qed.

Ltac silent := erewrite lex_silent by (cbn [lex_step]; lex_steps; reflexivity).

(** The six characters of a control escape. *)
Lemma lex_u_escape long v c s :
  (byte_val c <? 0x20) = true ->
  lex (LEsc long v) ((String "u" ("00" +:+ hex2 HEX_UPPER (byte_val c))) +:+ s) =
  lex (in_str long (snoc v c)) s.
Proof.
  intros Hc%Z.ltb_lt. pose proof (byte_val_range c). unfold hex2.
  rewrite !app_str_cons, !app_str_nil_l, !app_str_cons, !app_str_nil_l.
  silent.
  rewrite (lex_silent _ (LHex long v 3 0)) by done.
  rewrite (lex_silent _ (LHex long v 2 0)) by done.
  rewrite (lex_silent _ (LHex long v 1 (byte_val c / 16)))
    by (cbn [lex_step]; by rewrite hex_digit_nibble_upper by divlia).
  apply lex_silent. cbn [lex_step]. rewrite hex_digit_nibble_upper by divlia.
  replace (byte_val c / 16 * 16 + byte_val c mod 16) with (byte_val c) by divlia.
  rewrite (proj2 (Z.ltb_lt _ _)) by lia. by rewrite byte_of_val.
Qed.

Lemma u_escape_cons c : u_escape c = String BS (String "u" ("00" +:+ hex2 HEX_UPPER (byte_val c))).
Proof. done. Qed.

Lemma lex_quote_char v c s :
  lex (LStr v) (quote_char c +:+ s) = lex (LStr (snoc v c)) s.
Proof.
  unfold quote_char. repeat case_bool_decide; subst.
  1,2,3,4: unfold char_str; rewrite !app_str_cons, app_str_nil_l; by silent; silent.
  destruct (byte_val c <? 0x20) eqn:Hc.
  - rewrite u_escape_cons, app_str_cons. silent. by rewrite lex_u_escape.
  - unfold char_str. rewrite app_str_cons, app_str_nil_l. apply lex_silent. cbn [lex_step].
    rewrite !(proj2 (Ascii.eqb_neq _ _)) by done. done.
Qed.

Lemma lex_quote_map v t s : lex (LStr v) (str_map quote_char t +:+ s) = lex (LStr (v +:+ t)) s.
Proof.
  revert v. induction t as [|c t IH]; intros v; cbn [str_map].
  - by rewrite app_str_nil_l, app_str_nil_r.
  - by rewrite app_str_assoc, lex_quote_char, IH, snoc_app.
Qed.

Lemma lex_quote1 c s : lex LQuote1 (quote_char c +:+ s) = lex (LStr "") (quote_char c +:+ s).
Proof.
  unfold quote_char. repeat case_bool_decide; subst; try done.
  destruct (byte_val c <? 0x20) eqn:Hc; [by rewrite u_escape_cons, app_str_cons|].
  unfold char_str. rewrite app_str_cons. cbn [lex lex_step].
  by rewrite !(proj2 (Ascii.eqb_neq _ _)) by done.
Qed.

(** A short literal is read back to its value, whatever the value. *)
Lemma lex_quote v c s :
  c <> DQ -> lex LStart (quote v +:+ String c s) = lex (LEnd v) (String c s).
Proof.
  intros Hc. unfold quote, dq.
  rewrite !app_str_assoc, !app_str_cons, !app_str_nil_l. silent.
  destruct v as [|d v]; cbn [str_map].
  - rewrite app_str_nil_l. silent. cbn [lex lex_step].
    by rewrite (proj2 (Ascii.eqb_neq _ _)) by done.
  - rewrite app_str_assoc, lex_quote1, lex_quote_char, lex_quote_map.
    silent. unfold snoc. by rewrite app_str_nil_l.
Qed.

Lemma lex_quote_long_char v c s :
  lex (LLong 0 v) (quote_long_char c +:+ s) = lex (LLong 0 (snoc v c)) s.
Proof.
  assert (Hq : v +:+ quotes 0 = v) by apply app_str_nil_r.
  unfold quote_long_char. repeat case_bool_decide; subst; cbn [orb].
  all: try (unfold char_str; rewrite !app_str_cons, app_str_nil_l; silent; rewrite ?Hq; by try silent).
  destruct (byte_val c <? 0x20) eqn:Hc.
  - rewrite u_escape_cons, app_str_cons. silent. rewrite Hq. by rewrite lex_u_escape.
  - unfold char_str. rewrite app_str_cons, app_str_nil_l. apply lex_silent. cbn [lex_step].
    rewrite !(proj2 (Ascii.eqb_neq _ _)) by done. by rewrite Hq.
Qed.

Lemma lex_quote_long_map v t s :
  lex (LLong 0 v) (str_map quote_long_char t +:+ s) = lex (LLong 0 (v +:+ t)) s.
Proof.
  revert v. induction t as [|c t IH]; intros v; cbn [str_map].
  - by rewrite app_str_nil_l, app_str_nil_r.
  - by rewrite app_str_assoc, lex_quote_long_char, IH, snoc_app.
Qed.

Lemma lex_quote_long v s : lex LStart (quote_long v +:+ s) = lex (LEnd v) s.
Proof.
  unfold quote_long, dq3, dq.
  rewrite !app_str_assoc, !app_str_cons, !app_str_nil_l. do 3 silent.
  rewrite lex_quote_long_map, app_str_nil_l. by do 3 silent.
Qed.

Lemma delim_head s : delim s = true -> exists c s', s = String c s' /\ c <> DQ.
Proof. destruct s as [|c s]; [done|]. exists c, s. split; [done|]. by intros ->. Qed.

Lemma rd_lit_end v k s : delim s = true -> (lex (LEnd v) s ≫= parse k) = then_rd (str_lit v) k s.
Proof.
  intros Hs. rewrite (rd_ended _ (TkStr v)); [apply after_deliver| |done].
  intros c Hc. cbn [lex_step]. destruct (Ascii.eqb_spec c "^"); [by subst|done].
Qed.

Lemma rd_quote v k s : delim s = true -> rd k (quote v +:+ s) = then_rd (str_lit v) k s.
Proof.
  intros Hs. rewrite <-rd_lit_end by done. unfold rd.
  destruct (delim_head s Hs) as (c & s' & -> & Hc). by rewrite lex_quote.
Qed.

Lemma rd_quote_text v k s : delim s = true -> rd k (quote_text v +:+ s) = then_rd (str_lit v) k s.
Proof.
  intros Hs. unfold quote_text. case_match; [|by apply rd_quote].
  rewrite <-rd_lit_end by done. unfold rd. by rewrite lex_quote_long.
Qed.

Lemma rd_typed v n dt k s :
  negb (is_empty n) && str_forallb is_name_char n = true -> resolve n = Some dt ->
  delim s = true -> rd k (quote v +:+ "^^" +:+ n +:+ s) = then_rd (typed_lit dt v) k s.
Proof.
  intros Hn Hdt Hs. unfold rd. rewrite !app_str_cons, app_str_nil_l, lex_quote by done.
  destruct n as [|c n]; [done|]. cbn [is_empty negb andb str_forallb] in Hn.
  apply andb_prop in Hn as [Hc Hn]. do 2 silent. rewrite app_str_cons.
  rewrite (lex_silent _ (LTypeName v (char_str c)))
    by (cbn [lex_step]; destruct (name_char_start c Hc) as (_ & _ & -> & _); by rewrite Hc).
  rewrite lex_type_name by done. unfold char_str. rewrite app_str_cons, app_str_nil_l.
  rewrite (rd_ended _ (TkTypedName v (String c n))); [|intros d Hd; cbn [lex_step]; by rewrite (delim_not_name d Hd)|done].
  cbn [parse_step]. rewrite Hdt. apply after_deliver.
Qed.

(** *** Prefixed names and integers *)

(** A name the frames are written with: a term with no white space. *)
Definition name_term (n : string) (a : ast) : Prop :=
  negb (is_empty n) && str_forallb is_name_char n = true /\ n <> "a" /\ term_of_name n = Some a.

Lemma rd_name_term n a k s :
  name_term n a -> delim s = true -> rd k (n +:+ s) = then_rd a k s.
Proof.
  intros (Hn & Ha & Ht) Hs. rewrite rd_name by done. cbn [parse_step].
  rewrite (bool_decide_false (n = "a")) by done. rewrite Ht.
  transitivity (after ((fun k => ([], k)) <$> deliver a k) s); [by destruct k as [|[]]|].
  apply after_deliver.
Qed.

Lemma rd_a subj ps k s :
  delim s = true -> rd (FPred subj ps :: k) ("a" +:+ s) = rd (FObj subj ps RDF_TYPE :: k) s.
Proof. intros Hs. rewrite rd_name by done. apply (after_deliver (AIri RDF_TYPE) (FPred subj ps :: k)). Qed.

Lemma is_int_byte_name c : is_int_byte c = true -> is_name_char c = true.
Proof. ascii_cases c; by vm_compute. Qed.

Lemma uint_text_digits d :
  is_empty (NilZero.string_of_uint d) = false /\
  str_forallb is_ascii_digit (NilZero.string_of_uint d) = true.
Proof. pose proof (string_of_uint_digits d). by destruct d. Qed.

Lemma int_text_integer i : is_integer_text (int_to_string i) = true.
Proof.
  unfold int_to_string. destruct (Z.to_int i) as [d|d]; cbn [NilZero.string_of_int];
    destruct (uint_text_digits d) as [He Hd].
  - destruct (NilZero.string_of_uint d) as [|c s]; [done|]. cbn [is_integer_text].
    destruct ((c =? "-") || (c =? "+"))%char eqn:Hsign; [|done].
    exfalso. cbn [str_forallb] in Hd. apply andb_prop in Hd as [Hc _].
    revert Hc Hsign. clear. ascii_cases c; by vm_compute.
  - cbn [is_integer_text]. by rewrite He, Hd.
Qed.

Lemma int_name_term i : name_term (int_to_string i) (int_lit i).
Proof.
  pose proof (int_text_integer i) as Hi. split_and!.
  - apply andb_true_intro. split; [by destruct (int_to_string i)|].
    eapply str_forallb_impl; [apply is_int_byte_name|apply int_to_string_bytes].
  - intros Ha. by rewrite Ha in Hi.
  - unfold term_of_name. rewrite Hi.
    rewrite !bool_decide_false by (intros Heq; by rewrite Heq in Hi). done.
Qed.

Lemma bool_name_term b : name_term (bool_to_string b) (bool_lit b).
Proof. by destruct b. Qed.

(** A text in object position means [a], whatever follows. *)
Definition obj_text (x : string) (a : ast) : Prop :=
  forall k s, in_obj k = true -> delim s = true -> rd k (x +:+ s) = then_rd a k s.

Lemma obj_name n a : name_term n a -> obj_text n a.
Proof. intros Hn k s _. by apply rd_name_term. Qed.

Lemma obj_quote v : obj_text (quote v) (str_lit v).
Proof. intros k s _. apply rd_quote. Qed.

Lemma obj_quote_text v : obj_text (quote_text v) (str_lit v).
Proof. intros k s _. apply rd_quote_text. Qed.

Lemma obj_iri i : valid_iri i = true -> obj_text (iri_term i) (AIri i).
Proof. intros Hi k s _ _. by apply rd_iri. Qed.

Lemma obj_typed v n dt :
  negb (is_empty n) && str_forallb is_name_char n = true -> resolve n = Some dt ->
  obj_text (quote v +:+ "^^" +:+ n) (typed_lit dt v).
Proof. intros Hn Hdt k s _ Hs. rewrite !app_str_assoc. by apply rd_typed. Qed.

Lemma rd_open_bnode k s :
  in_obj k = true -> rd k (String "[" s) = rd (FPred None [] :: k) s.
Proof.
  intros Hk. rewrite rd_punct by done.
  destruct k as [|[] k]; try done; apply after_silent.
Qed.

Lemma rd_close_bnode ps k s :
  rd (FAfter None ps :: k) (String "]" s) = then_rd (ABnode ps) k s.
Proof. rewrite rd_punct by done. apply after_deliver. Qed.

Lemma rd_open_coll k s : in_obj k = true -> rd k (String "(" s) = rd (FColl [] :: k) s.
Proof.
  intros Hk. rewrite rd_punct by done.
  destruct k as [|[] k]; try done; apply after_silent.
Qed.

Lemma rd_close_coll xs k s : rd (FColl xs :: k) (String ")" s) = then_rd (AColl xs) k s.
Proof. rewrite rd_punct by done. apply after_deliver. Qed.

Lemma rd_semi subj ps k s :
  rd (FAfter subj ps :: k) (String ";" s) = rd (FPred subj ps :: k) s.
Proof. rewrite rd_punct by done. apply after_silent. Qed.

Lemma rd_pred n p subj ps k s :
  name_term n (AIri p) ->
  rd (FPred subj ps :: k) (n +:+ String " " s) = rd (FObj subj ps p :: k) s.
Proof. intros Hn. rewrite (rd_name_term _ _ _ _ Hn) by done.
  unfold then_rd. cbn [deliver mbind option_bind]. by apply rd_ws. Qed.

(** One property of a list: predicate, object, and what follows. *)
Lemma rd_prop n p x a subj ps k s :
  name_term n (AIri p) -> obj_text x a -> delim s = true ->
  rd (FPred subj ps :: k) (n +:+ String " " (x +:+ s)) = rd (FAfter subj (ps ++ [(p, a)]) :: k) s.
Proof. intros Hn Hx Hs. rewrite (rd_pred n p) by done. by rewrite Hx. Qed.

(** Collections. *)
Lemma rd_items {A} (f : A -> string) (g : A -> ast) xs : forall items k s,
  Forall (fun x => obj_text (f x) (g x)) xs -> xs <> [] ->
  rd (FColl items :: k) (join " " (map f xs) +:+ String ")" s) =
  then_rd (AColl (items ++ map g xs)) k s.
Proof.
  induction xs as [|a xs IH]; intros items k s Hxs Hne; [done|].
  apply Forall_cons in Hxs as [Ha Hxs]. cbn [map].
  destruct xs as [|b xs]; cbn [map join].
  - rewrite Ha by done. apply rd_close_coll.
  - rewrite !app_str_assoc, app_str_cons, app_str_nil_l, Ha by done.
    unfold then_rd at 1. cbn [deliver mbind option_bind]. rewrite rd_ws by done.
    change (rd (FColl (items ++ [g a]) :: k) (join " " (map f (b :: xs)) +:+ String ")" s) =
            then_rd (AColl (items ++ g a :: map g (b :: xs))) k s).
    rewrite IH by done. by rewrite <-app_assoc.
Qed.

Lemma obj_coll {A} (f : A -> string) (g : A -> ast) xs :
  Forall (fun x => obj_text (f x) (g x)) xs ->
  obj_text ("(" +:+ join " " (map f xs) +:+ ")") (AColl (map g xs)).
Proof.
  intros Hxs k s Hk Hs. rewrite !app_str_assoc, !app_str_cons, !app_str_nil_l.
  rewrite rd_open_coll by done. destruct xs as [|x xs].
  - apply rd_close_coll.
  - by rewrite (rd_items f g).
Qed.

Lemma obj_texts items : obj_text (text_collection items) (AColl (map str_lit items)).
Proof. apply obj_coll, Forall_true. apply obj_quote. Qed.

(** *** Fixed pieces of text *)

Fixpoint lex_run (st : lstate) (s : string) : option (list token * lstate) :=
  match s with
  | "" => Some ([], st)
  | String c s' => '(ts, st) ← lex_step st c; '(ts', st) ← lex_run st s'; Some (ts ++ ts', st)
  end.

Fixpoint parse_run (k : stack) (ts : list token) : option stack :=
  match ts with
  | [] => Some k
  | t :: ts' => match parse_step k t with Some ([], k) => parse_run k ts' | _ => None end
  end.

Lemma lex_run_app x ts st : forall st' s,
  lex_run st' x = Some (ts, st) -> lex st' (x +:+ s) = app ts <$> lex st s.
Proof.
  revert ts. induction x as [|c x IH]; intros ts st' s Hx; cbn [lex_run] in Hx.
  - injection Hx as <- <-. rewrite app_str_nil_l. by destruct (lex _ s).
  - rewrite app_str_cons. cbn [lex]. destruct (lex_step st' c) as [[ts1 st1]|]; [|done].
    cbn [mbind option_bind] in Hx. destruct (lex_run st1 x) as [[ts2 st2]|] eqn:E; [|done].
    injection Hx as <- ->. erewrite IH by done. destruct (lex st s); [|done].
    cbn. by rewrite <-app_assoc.
Qed.

Lemma parse_run_app ts : forall k k' ts',
  parse_run k ts = Some k' -> parse k (ts ++ ts') = parse k' ts'.
Proof.
  induction ts as [|t ts IH]; intros k k' ts' Hts; cbn [parse_run] in Hts.
  - by injection Hts as <-.
  - cbn [app parse]. destruct (parse_step k t) as [[[|] k1]|]; try done.
    rewrite (IH _ _ _ Hts). by destruct (parse k' ts').
Qed.

(** A fixed text that ends between tokens only moves the stack. *)
Lemma rd_fixed x ts k k' s :
  lex_run LStart x = Some (ts, LStart) -> parse_run k ts = Some k' ->
  rd k (x +:+ s) = rd k' s.
Proof.
  intros Hx Hk. unfold rd. rewrite (lex_run_app _ _ _ _ _ Hx).
  destruct (lex LStart s) as [ts'|]; [|done]. cbn. by apply parse_run_app.
Qed.

Ltac fixed x k' := rewrite (rd_fixed x _ _ k') by (reflexivity || (vm_compute; reflexivity)).

End reading.

(** ** The texts of values and blocks *)

Section texts.
Context `{!IriSyntax, !OxDisplay, !F64Text, !Base64}.

Lemma obj_value v : obj_text (value_term v) (ast_of_value v).
Proof.
  destruct v as [|i|f|s|b|hash bytes]; cbn [value_term ast_of_value].
  - by apply obj_name.
  - apply obj_name, int_name_term.
  - by apply obj_typed.
  - apply obj_quote.
  - by apply obj_typed.
  - intros k s Hk Hs. rewrite !app_str_assoc.
    destruct k as [|fr k]; [done|].
    rewrite (rd_fixed "[ a rsntr:BlobRef ; rsntr:hash " _ _
               (FObj None [(RDF_TYPE, AIri cls_BLOB_REF)] prop_HASH :: fr :: k))
      by (reflexivity || by destruct fr).
    rewrite obj_quote by done. unfold then_rd at 1. cbn [deliver mbind option_bind].
    rewrite (rd_fixed " ; rsntr:bytes " _ _
               (FObj None [(RDF_TYPE, AIri cls_BLOB_REF); (prop_HASH, str_lit hash)] prop_BYTES
                  :: fr :: k)) by reflexivity.
    rewrite (obj_name _ _ (int_name_term bytes)) by done.
    unfold then_rd at 1. cbn [deliver mbind option_bind].
    rewrite !app_str_cons, app_str_nil_l, rd_ws by done. apply rd_close_bnode.
Qed.

Lemma obj_values items : obj_text (value_collection items) (AColl (map ast_of_value items)).
Proof. apply obj_coll, Forall_true, obj_value. Qed.

(** *** Blocks *)

(** The text of a block under construction: read from the start of a document
    it leaves the parser after the last property. *)
Definition block_text (b : Block.t) (subj : option string) (ps : list (string * ast)) : Prop :=
  forall s, delim s = true -> rd [FSubj] (Block.text b +:+ s) = rd [FAfter subj ps] s.

Lemma block_pair b subj ps n p x a :
  block_text b subj ps -> name_term n (AIri p) -> obj_text x a ->
  block_text (Block.pair b n x) subj (ps ++ p_one p a).
Proof.
  intros Hb Hn Hx s Hs. unfold Block.pair. cbn [Block.text].
  set (sep := " ;" +:+ nl +:+ "   "). rewrite !app_str_assoc, Hb by done.
  rewrite (rd_fixed sep _ _ [FPred subj ps]) by reflexivity.
  rewrite app_str_cons, app_str_nil_l. by apply rd_prop.
Qed.

Lemma block_opt {A} b subj ps n p (x : A -> string) (f : A -> ast) (o : option A) :
  block_text b subj ps -> name_term n (AIri p) -> (forall a, obj_text (x a) (f a)) ->
  block_text (match o with Some a => Block.pair b n (x a) | None => b end) subj (ps ++ p_opt p f o).
Proof.
  intros Hb Hn Hx. destruct o as [a|]; cbn [p_opt]; [|by rewrite app_nil_r].
  by apply block_pair.
Qed.

Lemma rd_many p subj k vs : forall ps s,
  vs <> [] -> delim s = true ->
  rd (FObj subj ps p :: k) (join ", " (map quote vs) +:+ s) =
  rd (FAfter subj (ps ++ p_many p vs) :: k) s.
Proof.
  induction vs as [|v vs IH]; intros ps s Hne Hs; [done|]. cbn [map].
  destruct vs as [|w vs]; cbn [map join].
  - rewrite obj_quote by done. done.
  - rewrite !app_str_assoc, obj_quote by done.
    unfold then_rd at 1. cbn [deliver mbind option_bind].
    rewrite (rd_fixed ", " [TkPunct ","] _ (FObj subj (ps ++ [(p, str_lit v)]) p :: k));
      [|reflexivity|cbn; by rewrite last_snoc].
    change (quote w) with (hd "" (map quote (w :: vs))).
    change (rd (FObj subj (ps ++ [(p, str_lit v)]) p :: k) (join ", " (map quote (w :: vs)) +:+ s) =
            rd (FAfter subj (ps ++ p_many p (v :: w :: vs)) :: k) s).
    rewrite IH by done. by rewrite <-app_assoc.
Qed.

Lemma block_repeated b subj ps n p vs :
  block_text b subj ps -> name_term n (AIri p) ->
  block_text (Block.repeated b n vs) subj (ps ++ p_many p vs).
Proof.
  intros Hb Hn. destruct vs as [|v vs]; [by rewrite app_nil_r|].
  cbn [Block.repeated]. intros s Hs. unfold Block.pair. cbn [Block.text].
  set (sep := " ;" +:+ nl +:+ "   "). rewrite !app_str_assoc, Hb by done.
  rewrite (rd_fixed sep _ _ [FPred subj ps]) by reflexivity.
  rewrite app_str_cons, app_str_nil_l, (rd_pred n p) by done. by apply rd_many.
Qed.

Lemma is_local_name local : is_local local = true -> str_forallb is_name_char local = true.
Proof.
  unfold is_local. intros [_ Hall]%andb_prop. eapply str_forallb_impl; [|exact Hall].
  intros c. unfold is_name_char.
  by destruct (is_ascii_alphanumeric c), (c =? "_")%char, (c =? "%")%char, (c =? ":")%char.
Qed.

(** A local name under the [rsntr:] and [xsd:] prefixes. *)
Lemma name_term_prefixed prefix ns local :
  (prefix, ns) = ("rsntr", RSNTR_NS) \/ (prefix, ns) = ("xsd", XSD_NS) -> is_local local = true ->
  let n := prefix +:+ ":" +:+ local in
  (negb (is_empty n) && str_forallb is_name_char n = true /\ resolve n = Some (ns +:+ local)) /\
  name_term n (AIri (ns +:+ local)).
Proof.
  intros Hp Hlocal n.
  assert (Hn : negb (is_empty n) && str_forallb is_name_char n = true).
  { unfold n. apply andb_true_intro.
    rewrite !str_forallb_app, (is_local_name local Hlocal), andb_true_r.
    by destruct Hp as [[= -> ->]|[= -> ->]]. }
  assert (Hr : resolve n = Some (ns +:+ local)).
  { unfold resolve.
    assert (split_once ":" n = Some (prefix, local)) as ->
      by (unfold n; by destruct Hp as [[= -> ->]|[= -> ->]]).
    destruct Hp as [[= -> ->]|[= -> ->]]; cbn -[is_local RSNTR_NS XSD_NS]; by rewrite Hlocal. }
  split; [done|]. split_and!; [done|unfold n; by destruct Hp as [[= -> ->]|[= -> ->]]|].
  unfold term_of_name. rewrite Hr, !bool_decide_false;
    [unfold n; by destruct Hp as [[= -> ->]|[= -> ->]]..].
Qed.

Lemma name_term_local class :
  is_local class = true -> name_term ("rsntr:" +:+ class) (AIri (rsntr_iri class)).
Proof. intros Hc. by apply (name_term_prefixed "rsntr" RSNTR_NS); [left|]. Qed.

Lemma block_anon class :
  is_local class = true ->
  block_text (Block.anon class) None (p_one RDF_TYPE (AIri (rsntr_iri class))).
Proof.
  intros Hc s Hs. unfold Block.anon. cbn [Block.text].
  replace ("[] a rsntr:" +:+ class) with ("[] a " +:+ ("rsntr:" +:+ class)) by done.
  rewrite app_str_assoc, (rd_fixed "[] a " _ _ [FObj None [] RDF_TYPE]) by reflexivity.
  by rewrite (obj_name _ _ (name_term_local class Hc)).
Qed.

Lemma block_named i cls_term cls :
  valid_iri i = true -> obj_text cls_term (AIri cls) ->
  block_text (Block.named i cls_term) (Some i) (p_one RDF_TYPE (AIri cls)).
Proof.
  intros Hi Hc s Hs. unfold Block.named. cbn [Block.text]. rewrite !app_str_assoc, rd_iri by done.
  unfold then_rd. cbn [deliver mbind option_bind].
  rewrite (rd_fixed " a " _ _ [FObj (Some i) [] RDF_TYPE]) by reflexivity. by rewrite Hc.
Qed.

(** A text that reads as whole statements. *)
Definition doc_text (x : string) (sts : list stmt) : Prop :=
  forall s, rd [FSubj] (x +:+ s) = app sts <$> rd [FSubj] s.

Lemma doc_read x sts : doc_text x sts -> read x = Some sts.
Proof.
  intros Hx. unfold read. specialize (Hx ""). rewrite app_str_nil_r in Hx. unfold rd in Hx at 1.
  rewrite Hx. cbn. by rewrite app_nil_r.
Qed.

Lemma doc_app x y sts1 sts2 : doc_text x sts1 -> doc_text y sts2 -> doc_text (x +:+ y) (sts1 ++ sts2).
Proof.
  intros Hx Hy s. rewrite app_str_assoc, Hx, Hy. destruct (rd _ s); [|done].
  cbn. by rewrite app_assoc.
Qed.

Lemma doc_close b subj ps : block_text b subj ps -> doc_text (Block.close b) [mkStmt subj ps].
Proof.
  intros Hb s. unfold Block.close, nl. rewrite !app_str_assoc, Hb by done.
  rewrite !app_str_cons, !app_str_nil_l, rd_ws, rd_punct by done.
  cbn [parse_step after Ascii.eqb Bool.eqb]. by rewrite rd_ws.
Qed.

Lemma doc_foldl {A} (f : A -> string) (g : A -> list stmt) xs : forall out sts,
  doc_text out sts -> Forall (fun x => doc_text (f x) (g x)) xs ->
  doc_text (foldl (fun out x => out +:+ f x) out xs) (sts ++ concat (map g xs)).
Proof.
  induction xs as [|x xs IH]; intros out sts Hout Hxs; cbn [foldl map concat].
  - by rewrite app_nil_r.
  - apply Forall_cons in Hxs as [Hx Hxs]. rewrite app_assoc. apply IH; [by apply doc_app|done].
Qed.

(** *** Rows *)

Lemma col_safe_local c : is_col_safe c = true ->
  (is_ascii_alphanumeric c || (c =? "_")%char || (c =? "%")%char) = true.
Proof. ascii_cases c; by vm_compute. Qed.

Lemma col_name_term name :
  name_term ("rsntr:" +:+ COL_PREFIX +:+ encode_column_name name)
    (AIri (RSNTR_NS +:+ COL_PREFIX +:+ encode_column_name name)).
Proof.
  apply name_term_local. unfold is_local. apply andb_true_intro. split; [done|].
  rewrite str_forallb_app. apply andb_true_intro. split; [done|].
  eapply str_forallb_impl; [apply col_safe_local|apply encode_column_name_safe].
Qed.

Lemma rd_cells cells : forall ps x s,
  (forall s, delim s = true -> rd [FSubj] (x +:+ s) = rd [FAfter None ps] s) -> delim s = true ->
  rd [FSubj] (foldl (fun out cell => out +:+ cell_text cell) x cells +:+ s) =
  rd [FAfter None (ps ++ concat (map cell_props cells))] s.
Proof.
  induction cells as [|[name v] cells IH]; intros ps x s Hx Hs; cbn [foldl map concat].
  - rewrite Hx by done. by rewrite app_nil_r.
  - rewrite app_assoc. apply IH; [|done]. clear s Hs. intros s Hs.
    unfold cell_props, cell_text. cbn [fst snd]. destruct (is_null v).
    + rewrite app_str_nil_r, app_nil_r. by apply Hx.
    + replace (" ; rsntr:" +:+ COL_PREFIX +:+ encode_column_name name +:+ " " +:+ value_term v)
        with (" ; " +:+ (("rsntr:" +:+ COL_PREFIX +:+ encode_column_name name) +:+
              (" " +:+ value_term v)))
        by (rewrite !app_str_assoc; done).
      pose proof (col_name_term name) as Hn.
      set (n := "rsntr:" +:+ COL_PREFIX +:+ encode_column_name name) in *.
      rewrite !app_str_assoc, Hx by done.
      rewrite (rd_fixed " ; " _ _ [FPred None ps]) by reflexivity.
      rewrite app_str_cons, app_str_nil_l.
      apply rd_prop; [done|apply obj_value|done].
Qed.

Lemma doc_row row : doc_text (row_text row) [anon_stmt cls_ROW (row_props row)].
Proof.
  intros s. unfold row_text, nl.
  rewrite !app_str_assoc, (rd_cells _ (typed cls_ROW [(prop_SEQ, int_lit (row_seq row))])).
  - rewrite !app_str_cons, !app_str_nil_l, rd_ws, rd_punct by done.
    cbn [parse_step after Ascii.eqb Bool.eqb]. by rewrite rd_ws.
  - clear s. intros s Hs. rewrite app_str_assoc.
    rewrite (rd_fixed "[] a rsntr:Row ; rsntr:seq " _ _
               [FObj None [(RDF_TYPE, AIri cls_ROW)] prop_SEQ]) by reflexivity.
    by rewrite (obj_name _ _ (int_name_term (row_seq row))).
  - done.
Qed.

(** *** Points *)

Lemma obj_datatype dt :
  (match strip_prefix XSD_NS dt with Some local => is_local local | None => valid_iri dt end) = true ->
  obj_text (datatype_term dt) (AIri dt).
Proof.
  unfold datatype_term. destruct (strip_prefix XSD_NS dt) as [local|] eqn:E; [|apply obj_iri].
  apply strip_prefix_Some in E as ->. intros Hl. apply obj_name.
  by apply (name_term_prefixed "xsd" XSD_NS); [right|].
Qed.

(** One part of a property list written on one line. *)
Definition part_text (x : string) (pr : string * ast) : Prop :=
  exists n o, x = n +:+ String " " o /\ name_term n (AIri pr.1) /\ obj_text o pr.2.

Lemma rd_parts parts prs : Forall2 part_text parts prs -> parts <> [] -> forall ps k s,
  rd (FPred None ps :: k) (join " ; " parts +:+ " ]" +:+ s) = then_rd (ABnode (ps ++ prs)) k s.
Proof.
  induction 1 as [|x [p a] parts prs (n & o & -> & Hn & Ho) Hrest IH]; intros Hne ps k s; [done|].
  destruct Hrest as [|y pr parts prs Hy Hrest]; cbn [join].
  - rewrite app_str_assoc, app_str_cons, (rd_prop n p o a) by done.
    rewrite !app_str_cons, app_str_nil_l, rd_ws by done.
    apply rd_close_bnode.
  - rewrite !app_str_assoc, app_str_cons, (rd_prop n p o a) by done.
    rewrite (rd_fixed " ; " _ _ (FPred None (ps ++ [(p, a)]) :: k)) by reflexivity.
    cbn [join] in IH. rewrite IH by done. by rewrite <-app_assoc.
Qed.

Lemma part_intro (n : string) (o : string) p a :
  name_term n (AIri p) -> obj_text o a -> Forall2 part_text [n +:+ String " " o] [(p, a)].
Proof. intros Hn Ho. constructor; [|constructor]. by exists n, o. Qed.

Lemma part_opt {A} (n : string) p (x : A -> string) (f : A -> ast) (o : option A) :
  name_term n (AIri p) -> (forall a, o = Some a -> obj_text (x a) (f a)) ->
  Forall2 part_text (match o with Some a => [n +:+ String " " (x a)] | None => [] end) (p_opt p f o).
Proof. intros Hn Hx. destruct o as [a|]; [|constructor]. apply part_intro; auto. Qed.

Lemma field_parts_text f :
  field_iris_ok f = true ->
  Forall2 part_text (field_parts f)
    (p_text prop_NAME (pf_name f) ++ p_opt prop_DATATYPE AIri (pf_datatype f) ++
     (if pf_required f then [(prop_REQUIRED, bool_lit true)] else []) ++
     p_opt prop_DEFAULT ast_of_value (pf_default f) ++
     p_list prop_ONE_OF ast_of_value (pf_one_of f) ++ p_opt prop_HINT str_lit (pf_hint f)).
Proof.
  intros Hf. unfold field_parts. repeat apply Forall2_app.
  - apply (part_intro "rsntr:name"); [by vm_compute|apply obj_quote].
  - apply (part_opt "rsntr:datatype"); [by vm_compute|]. intros dt Hdt.
    unfold field_iris_ok in Hf. rewrite Hdt in Hf. by apply obj_datatype.
  - destruct (pf_required f); [|constructor].
    apply (part_intro "rsntr:required" "true"); [by vm_compute|].
    apply obj_name, (bool_name_term true).
  - apply (part_opt "rsntr:default"); [by vm_compute|]. intros v _. apply obj_value.
  - destruct (pf_one_of f) as [|v vs]; [constructor|].
    apply (part_intro "rsntr:oneOf"); [by vm_compute|]. apply obj_values.
  - apply (part_opt "rsntr:hint"); [by vm_compute|]. intros v _. apply obj_quote.
Qed.

Lemma obj_field f : field_iris_ok f = true -> obj_text (field_term f) (ast_of_field f).
Proof.
  intros Hf k s Hk Hs. unfold field_term. rewrite !app_str_assoc.
  destruct k as [|fr k]; [done|].
  rewrite (rd_fixed "[ " _ _ (FPred None [] :: fr :: k)) by (reflexivity || by destruct fr).
  by rewrite (rd_parts _ _ (field_parts_text f Hf)).
Qed.

Lemma obj_coupling fields :
  forallb field_iris_ok fields = true ->
  obj_text ("[ rsntr:field (" +:+ join " " (map field_term fields) +:+ ") ]")
    (ABnode [(prop_FIELD, AColl (map ast_of_field fields))]).
Proof.
  intros Hf k s Hk Hs. destruct k as [|fr k]; [done|].
  replace ("[ rsntr:field (" +:+ join " " (map field_term fields) +:+ ") ]")
    with ("[ rsntr:field " +:+ (("(" +:+ join " " (map field_term fields) +:+ ")") +:+ " ]"))
    by (rewrite !app_str_assoc; done).
  set (c := "(" +:+ join " " (map field_term fields) +:+ ")"). rewrite !app_str_assoc.
  rewrite (rd_fixed "[ rsntr:field " _ _ (FObj None [] prop_FIELD :: fr :: k))
    by (reflexivity || by destruct fr).
  unfold c. rewrite (obj_coll field_term ast_of_field); [|by apply Forall_forall; intros f Hin;
    apply obj_field; eapply forallb_forall; [exact Hf|by apply list_elem_of_In]|done..].
  unfold then_rd at 1. cbn [deliver mbind option_bind].
  rewrite !app_str_cons, app_str_nil_l, rd_ws by done.
  apply rd_close_bnode.
Qed.

Lemma obj_kind kind : kind_ok kind = true -> obj_text (point_class_term kind) (AIri (kind_class kind)).
Proof. destruct kind; intros Hk; try (by apply obj_name; vm_compute). by apply obj_iri. Qed.

Lemma block_quote_opt b subj ps n p (o : option string) :
  block_text b subj ps -> name_term n (AIri p) ->
  block_text (Block.opt_text b n o) subj (ps ++ p_opt p str_lit o).
Proof. intros Hb Hn. apply (block_opt _ _ _ n p quote); auto using obj_quote. Qed.

Lemma block_signal_opt b subj ps n p (o : option string) :
  block_text b subj ps -> name_term n (AIri p) ->
  block_text (match o with Some t => Block.pair b n (quote_text t) | None => b end) subj
    (ps ++ p_opt p str_lit o).
Proof. intros Hb Hn. apply (block_opt _ _ _ n p quote_text); auto using obj_quote_text. Qed.

Lemma block_int_opt b subj ps n p (o : option Z) :
  block_text b subj ps -> name_term n (AIri p) ->
  block_text (Block.opt_int b n o) subj (ps ++ p_opt p int_lit o).
Proof.
  intros Hb Hn. apply (block_opt _ _ _ n p int_to_string); auto. intros i.
  apply obj_name, int_name_term.
Qed.

Lemma obj_date v : obj_text (quote v +:+ "^^xsd:dateTime") (date_lit v).
Proof. by apply (obj_typed v "xsd:dateTime"). Qed.

Lemma block_date_opt b subj ps n p (o : option string) :
  block_text b subj ps -> name_term n (AIri p) ->
  block_text (Block.opt_datetime b n o) subj (ps ++ p_opt p date_lit o).
Proof.
  intros Hb Hn. apply (block_opt _ _ _ n p (fun v => quote v +:+ "^^xsd:dateTime"));
    auto using obj_date.
Qed.

Ltac name := by vm_compute.

(** Follows a block through its properties. *)
Ltac block :=
  repeat match goal with
  | |- block_text (Block.anon _) _ _ => by apply block_anon
  | |- block_text (Block.opt_text _ _ _) _ _ => apply block_quote_opt; [|name]
  | |- block_text (Block.opt_int _ _ _) _ _ => apply block_int_opt; [|name]
  | |- block_text (Block.opt_datetime _ _ _) _ _ => apply block_date_opt; [|name]
  | |- block_text (Block.repeated _ _ _) _ _ => apply block_repeated; [|name]
  | |- block_text (Block.pair _ _ _) _ _ => apply block_pair; [|name|]
  end; auto using obj_quote, obj_quote_text, obj_date, obj_iri, obj_name, int_name_term,
         bool_name_term, obj_texts.

Lemma statement_block_text class st :
  is_local class = true ->
  doc_text (statement_block class st) [anon_stmt (rsntr_iri class) (statement_props st)].
Proof.
  intros Hc. unfold statement_block. cbv zeta. apply doc_close.
  unfold typed, statement_props. rewrite !(assoc (++)).
  block. destruct (st_params st) as [|v vs]; cbn [p_list]; [rewrite app_nil_r|]; block.
  apply obj_values.
Qed.

Lemma point_block_text pt :
  point_iris_ok pt = true -> doc_text (point_block pt) [point_stmt pt].
Proof.
  unfold point_iris_ok. intros [[Hi Hk]%andb_prop Hf]%andb_prop.
  unfold point_block. cbv zeta. apply doc_close.
  unfold typed, point_props. rewrite !(assoc (++)).
  apply block_quote_opt; [|name]. apply block_signal_opt; [|name].
  assert (Hblock : block_text
    ((Block.named (pt_iri pt) (point_class_term (pt_kind pt)))
       |.opt_text ("rdfs:label", pt_label pt)|.opt_text ("rdfs:comment", pt_comment pt)
       |.opt_text ("rsntr:icon", pt_icon pt)|.opt_text ("rsntr:role", pt_role pt)
       |.opt_text ("rsntr:projects", pt_projects pt)) (Some (pt_iri pt))
    (((((p_one RDF_TYPE (AIri (kind_class (pt_kind pt))) ++ p_opt RDFS_LABEL str_lit (pt_label pt)) ++
    p_opt RDFS_COMMENT str_lit (pt_comment pt)) ++ p_opt prop_ICON str_lit (pt_icon pt)) ++
    p_opt prop_ROLE str_lit (pt_role pt)) ++ p_opt prop_PROJECTS str_lit (pt_projects pt))).
  { do 5 (apply block_quote_opt; [|name]). by apply block_named, obj_kind. }
  destruct (pt_params_order pt) as [|o os]; cbn [p_list]; [rewrite app_nil_r|
    apply block_pair; [|name|apply obj_texts]].
  all: apply block_signal_opt; [|name]; apply block_quote_opt; [|name].
  all: destruct (pt_coupling pt) as [|f fs]; cbn [coupling_props]; [by rewrite app_nil_r|].
  all: apply block_pair; [done|name|]; by apply obj_coupling.
Qed.

Lemma concat_map_single {A B} (f : A -> B) xs : concat (map (fun x => [f x]) xs) = map f xs.
Proof. induction xs as [|x xs IH]; [done|]. cbn. by rewrite IH. Qed.

Lemma doc_nl x sts : doc_text x sts -> doc_text (nl +:+ x) sts.
Proof. intros Hx s. unfold nl. by rewrite !app_str_cons, app_str_nil_l, rd_ws. Qed.

Lemma projection_text p text :
  forallb point_iris_ok (pj_offers p) = true -> encode (OProjection p) = Ok text ->
  doc_text text (anon_stmt cls_PROJECTION
              (p_opt prop_ID str_lit (pj_id p) ++
               p_list prop_OFFERS (fun pt => AIri (pt_iri pt)) (pj_offers p))
            :: map point_stmt (pj_offers p)).
Proof.
  intros Hp. cbn [encode]. intros [= <-].
  assert (Hoffers : Forall (fun pt => point_iris_ok pt = true) (pj_offers p)).
  { apply Forall_forall. intros pt Hin. eapply forallb_forall; [exact Hp|]. by apply list_elem_of_In. }
  rewrite (cons_app (anon_stmt _ _)).
  rewrite <-(concat_map_single point_stmt).
  apply (doc_foldl (fun pt => nl +:+ point_block pt)).
  - apply doc_close. unfold typed. rewrite !(assoc (++)).
    clear Hp. destruct (pj_offers p) as [|pt pts]; cbn [p_list]; [rewrite app_nil_r; block|].
    apply block_pair; [block|name|].
    apply (obj_coll (fun pt => iri_term (pt_iri pt)) (fun pt => AIri (pt_iri pt)) (pt :: pts)).
    eapply Forall_impl; [exact Hoffers|]. intros pt' Hpt. apply obj_iri.
    unfold point_iris_ok in Hpt. by apply andb_prop in Hpt as [[]%andb_prop _].
  - eapply Forall_impl; [exact Hoffers|]. intros pt Hpt. by apply doc_nl, point_block_text.
Qed.

Lemma encoded_text_read (obj : EnvelopeObject) (sts : list stmt) (doc : string) :
  stmts_of obj = Some sts -> iris_ok obj = true -> to_turtle obj = Ok doc -> read doc = Some sts.
Proof.
  intros Hsts Hiris Hdoc. apply doc_read. unfold to_turtle in Hdoc.
  destruct obj; cbn [stmts_of iris_ok] in *; try discriminate Hsts; apply (inj Some) in Hsts; subst sts.
  15: by apply projection_text.
  all: try (injection Hdoc as <-).
  1,2: by apply statement_block_text.
  2: { destruct rows as [|row rows]; [done|]. injection Hdoc as <-.
       rewrite <-(concat_map_single (fun row => anon_stmt cls_ROW (row_props row))).
       rewrite <-(app_nil_l (concat _)).
       apply (doc_foldl row_text (fun row => [anon_stmt cls_ROW (row_props row)]) (row :: rows) "" []).
       - intros s. rewrite app_str_nil_l. by destruct (rd _ s).
       - apply Forall_true, doc_row. }
  all: apply doc_close; unfold typed; rewrite ?(assoc (++)); block.
  - destruct (rh_decl_types h) as [|t ts]; cbn [p_list]; [rewrite app_nil_r|]; block.
  - destruct (hp_topics h) as [|t ts]; [rewrite app_nil_r; block|].
    apply (block_repeated _ _ _ "rsntr:topic" prop_TOPIC (t :: ts)); [block|name].
  - destruct (ad_content_type d); cbn [p_opt]; [|rewrite app_nil_r]; block.
Qed.

(** C6. Every envelope object the encoder writes by its own vocabulary reads back,
    under the grammar of Turtle, as exactly the statements of the object:
    no string, column name, value or IRI it carries can end its literal, add a
    property or start another statement. *)
Theorem encode_reads_back (obj : EnvelopeObject) (sts : list stmt) (doc : string) :
  stmts_of obj = Some sts -> iris_ok obj = true -> to_turtle obj = Ok doc -> read doc = Some sts.
Proof. exact (encoded_text_read obj sts doc). Qed.

End texts.
