(* ===== verification/DecodeSpec.v ===== *)
(** * DecodeSpec: decoding the triples that represent a document

    What the accessors of [Doc] and the readers of [decode] return on triples
    that represent a known document ([Turtle.represents]): first per node, then
    for the frame scan, then for whole envelope objects. *)

From S2P Require Import Prelude RustStd Vocab External Value Envelope Encode Turtle EncodeSpec Decode.

(** The first value of a predicate in a property list. *)
Fixpoint lookup_p (p : string) (ps : list (string * ast)) : option ast :=
  match ps with
  | [] => None
  | (q, a) :: ps' => if (q =? p)%string then Some a else lookup_p p ps'
  end.

(** A node with exactly these properties. *)
Definition node_has (doc : list Triple) (s : NamedOrBlankNode) (ps : list (string * ast)) : Prop :=
  exists os l, about doc s = zip (map fst ps) os /\ matches_all doc (map snd ps) os l.

Lemma lookup_app p a b :
  lookup_p p (a ++ b) = match lookup_p p a with Some x => Some x | None => lookup_p p b end.
Proof. induction a as [|[q x] a IH]; [done|]. cbn. by destruct (q =? p)%string. Qed.

Lemma lookup_one p q a : lookup_p p (p_one q a) = if (q =? p)%string then Some a else None.
Proof. done. Qed.

Lemma lookup_opt {A} p q (f : A -> ast) o :
  lookup_p p (p_opt q f o) = if (q =? p)%string then f <$> o else None.
Proof. destruct o; cbn; by destruct (q =? p)%string. Qed.

Lemma lookup_list {A} p q (f : A -> ast) xs :
  lookup_p p (p_list q f xs) =
  if (q =? p)%string then match xs with [] => None | _ => Some (AColl (map f xs)) end else None.
Proof. destruct xs; cbn; by destruct (q =? p)%string. Qed.

Lemma lookup_many_ne p q vs : (q =? p)%string = false -> lookup_p p (p_many q vs) = None.
Proof. intros Hq. induction vs; cbn; [done|]. by rewrite Hq. Qed.

Lemma match_some_id {A} (o : option A) : match o with Some x => Some x | None => None end = o.
Proof. by destruct o. Qed.

(** Evaluates a comparison of vocabulary IRIs. *)
Ltac eval_eqb :=
  repeat match goal with
  | |- context [(?a =? ?b)%string] =>
      let v := eval vm_compute in (a =? b)%string in
      lazymatch v with true => idtac | false => idtac end;
      change (a =? b)%string with v; cbn match
  end.

Ltac lookups :=
  unfold typed, p_text;
  repeat first [rewrite lookup_app|rewrite lookup_one|rewrite lookup_opt|rewrite lookup_list
               |rewrite lookup_many_ne by (vm_compute; reflexivity)];
  cbn [lookup_p]; eval_eqb; rewrite ?match_some_id; try done.

Section accessors.
Context `{!OxDisplay, !F64Text, !Base64} (doc : list Triple).

Lemma matches_all_length xs os l : matches_all doc xs os l -> length xs = length os.
Proof. induction 1; cbn; congruence. Qed.

Lemma find_map_pairs p ps : forall os l,
  matches_all doc (map snd ps) os l ->
  match lookup_p p ps with
  | None => find_map (fun '(q, o) => if bool_decide (q = p) then Some o else None)
              (zip (map fst ps) os) = None
  | Some a => exists tm l', find_map (fun '(q, o) => if bool_decide (q = p) then Some o else None)
                              (zip (map fst ps) os) = Some tm /\ matches doc a tm l'
  end.
Proof.
  induction ps as [|[q a] ps IH]; intros os l Hm; cbn [map lookup_p] in *; [done|].
  inversion Hm as [|? ? tm tms l1 l2 Ha Hps]; subst. cbn [zip zip_with find_map fst].
  destruct (String.eqb_spec q p) as [->|Hne].
  - rewrite bool_decide_true by done. eauto.
  - rewrite bool_decide_false by done. by eapply IH.
Qed.

(** [one] finds the first value of the predicate. *)
Lemma one_has s ps p :
  node_has doc s ps ->
  match lookup_p p ps with
  | None => one doc s p = None
  | Some a => exists tm l, one doc s p = Some tm /\ matches doc a tm l
  end.
Proof.
  intros (os & l & Habout & Hm). unfold one. change (pairs doc s) with (about doc s).
  rewrite Habout. by apply (find_map_pairs p ps os l).
Qed.

Lemma one_none s ps p : node_has doc s ps -> lookup_p p ps = None -> one doc s p = None.
Proof. intros Hs%(one_has _ _ p) Hp. by rewrite Hp in Hs. Qed.

Lemma one_some s ps p a :
  node_has doc s ps -> lookup_p p ps = Some a ->
  exists tm l, one doc s p = Some tm /\ matches doc a tm l.
Proof. intros Hs%(one_has _ _ p) Hp. by rewrite Hp in Hs. Qed.

Lemma matches_lit l tm ls : matches doc (ALit l) tm ls -> tm = TLit l.
Proof. by inversion 1. Qed.
Lemma matches_iri i tm ls : matches doc (AIri i) tm ls -> tm = TNamed i.
Proof. by inversion 1. Qed.

(** A way of writing a text as a literal. *)
Definition writes (f : string -> ast) : Prop := forall v, exists dt lang, f v = ALit (mkLiteral v dt lang).

Lemma writes_str : writes str_lit.
Proof. intros v. by eexists _, _. Qed.
Lemma writes_date : writes date_lit.
Proof. intros v. by eexists _, _. Qed.
Lemma writes_typed dt : writes (typed_lit dt).
Proof. intros v. by eexists _, _. Qed.
Hint Resolve writes_str writes_date writes_typed : rsntr.

Lemma text_has f s ps p o :
  node_has doc s ps -> writes f -> lookup_p p ps = f <$> o -> text doc s p = Ok o.
Proof.
  intros Hs Hf Hp. unfold text. destruct o as [v|]; cbn in Hp.
  - destruct (one_some _ _ _ _ Hs Hp) as (tm & l & -> & Hm).
    destruct (Hf v) as (dt & lang & Hv). rewrite Hv in Hm. by apply matches_lit in Hm as ->.
  - by rewrite (one_none _ _ _ Hs Hp).
Qed.

Lemma need_text_has f s ps p v :
  node_has doc s ps -> writes f -> lookup_p p ps = Some (f v) -> need_text doc s p = Ok v.
Proof.
  intros Hs Hf Hp. unfold need_text. by rewrite (text_has f s ps p (Some v)).
Qed.

Lemma parse_integer_print i : is_i64 i = true -> parse_integer (int_to_string i) = Ok i.
Proof.
  intros Hi. unfold parse_integer. rewrite trim_graphic by apply int_to_string_graphic.
  by rewrite parse_i64_to_string.
Qed.

Definition opt_i64 (o : option Z) : bool := match o with Some i => is_i64 i | None => true end.

Lemma int_has s ps p o :
  node_has doc s ps -> lookup_p p ps = int_lit <$> o -> opt_i64 o = true -> int doc s p = Ok o.
Proof.
  intros Hs Hp Ho. unfold int.
  rewrite (text_has (typed_lit XSD_INTEGER) s ps p (int_to_string <$> o));
    [|done|apply writes_typed|by rewrite Hp; destruct o].
  destruct o as [i|]; [|done]. cbn. by rewrite parse_integer_print.
Qed.

Lemma bool_has s ps p b :
  node_has doc s ps -> lookup_p p ps = Some (bool_lit b) -> boolean doc s p = Ok (Some b).
Proof.
  intros Hs Hp. unfold boolean.
  rewrite (text_has (typed_lit (XSD_NS +:+ "boolean")) s ps p (Some (bool_to_string b)));
    [|done|apply writes_typed|done].
  by destruct b.
Qed.

Lemma bool_none s ps p : node_has doc s ps -> lookup_p p ps = None -> boolean doc s p = Ok None.
Proof.
  intros Hs Hp. unfold boolean. by rewrite (text_has str_lit s ps p None) by auto with rsntr.
Qed.

Lemma iri_has s ps p o :
  node_has doc s ps -> lookup_p p ps = AIri <$> o -> iri doc s p = Ok o.
Proof.
  intros Hs Hp. unfold iri. destruct o as [i|]; cbn in Hp.
  - destruct (one_some _ _ _ _ Hs Hp) as (tm & l & -> & Hm). by apply matches_iri in Hm as ->.
  - by rewrite (one_none _ _ _ Hs Hp).
Qed.

Lemma need_iri_has s ps p i :
  node_has doc s ps -> lookup_p p ps = Some (AIri i) -> need_iri doc s p = Ok i.
Proof. intros Hs Hp. unfold need_iri. by rewrite (iri_has s ps p (Some i)). Qed.

(** Every value of a repeated predicate, in order. *)
Definition values_p (p : string) (ps : list (string * ast)) : list ast :=
  map snd (filter (fun '(q, _) => q = p) ps).

Lemma texts_pairs p ps vs : forall os l,
  matches_all doc (map snd ps) os l -> values_p p ps = map str_lit vs ->
  traverse (fun '(_, o) => match o with
                           | TLit lit => Ok (lit_value lit)
                           | other => expected_literal p other
                           end)
    (filter (fun '(q, _) => q = p) (zip (map fst ps) os)) = Ok vs.
Proof.
  revert vs. induction ps as [|[q a] ps IH]; intros vs os l Hm Hv; cbn [map] in *.
  - destruct vs; [|done]. inversion Hm; subst. done.
  - inversion Hm as [|? ? tm tms l1 l2 Ha Hps]; subst. cbn [zip zip_with fst].
    unfold values_p in Hv. destruct (decide (q = p)) as [->|Hne].
    + rewrite filter_cons_True in Hv by done. rewrite filter_cons_True by done.
      cbn [map snd] in Hv. destruct vs as [|v vs]; [done|]. injection Hv as -> Hv.
      apply matches_lit in Ha as ->. cbn [traverse lit_value rbind].
      by rewrite (IH vs tms l2).
    + rewrite filter_cons_False in Hv by done. rewrite filter_cons_False by done. by eapply IH.
Qed.

Lemma texts_has s ps p vs :
  node_has doc s ps -> values_p p ps = map str_lit vs -> texts doc s p = Ok vs.
Proof.
  intros (os & l & Habout & Hm) Hv. unfold texts. change (pairs doc s) with (about doc s).
  rewrite Habout. by apply (texts_pairs p ps vs os l).
Qed.

(** ** Lists *)

Lemma one_cell c first rest :
  about doc (BNode c) ≡ₚ [(RDF_FIRST, first); (RDF_REST, rest)] ->
  one doc (BNode c) RDF_FIRST = Some first /\ one doc (BNode c) RDF_REST = Some rest.
Proof.
  intros Hc. unfold one. change (pairs doc (BNode c)) with (about doc (BNode c)).
  symmetry in Hc. apply Permutation_length_2_inv in Hc as [->| ->]; cbn [find_map];
    rewrite ?(bool_decide_true (RDF_FIRST = RDF_FIRST)), ?(bool_decide_true (RDF_REST = RDF_REST))
      by done;
    rewrite ?(bool_decide_false (RDF_FIRST = RDF_REST)), ?(bool_decide_false (RDF_REST = RDF_FIRST))
      by done; done.
Qed.

Lemma list_go_matches xs : forall bound items tm l,
  matches doc (AColl xs) tm l -> (length xs < bound)%nat ->
  exists tms l', list_go doc bound items tm = Ok (items ++ tms) /\ matches_all doc xs tms l'.
Proof.
  induction xs as [|x xs IH]; intros bound items tm l Hm Hb; inversion Hm; subst;
    (destruct bound as [|bound]; [cbn in Hb; lia|]); cbn [list_go].
  - rewrite bool_decide_true by done. exists [], []. rewrite app_nil_r. split; [done|constructor].
  - match goal with H : about _ _ ≡ₚ _ |- _ => apply one_cell in H as [-> ->] end. cbn [ok_or rbind].
    edestruct (IH bound (items ++ [tm0])) as (tms & l' & Hgo & Hall); [done|cbn in Hb; lia|].
    exists (tm0 :: tms), (l1 ++ l'). rewrite Hgo, <-app_assoc. split; [done|]. by constructor.
Qed.

(** A well-formed collection is read back in order: every list of fewer than
    a million items. *)
Lemma rdf_list_matches xs tm l :
  matches doc (AColl xs) tm l -> (length xs < LIST_BOUND)%nat ->
  exists tms l', rdf_list doc tm = Ok tms /\ matches_all doc xs tms l'.
Proof. intros Hm Hb. by apply (list_go_matches xs LIST_BOUND [] tm l). Qed.

Lemma traverse_matches {A B E} (f : A -> ast) (r : Term -> result E B) (g : A -> B) xs :
  forall tms l, matches_all doc (map f xs) tms l ->
  (forall x tm l, x ∈ xs -> matches doc (f x) tm l -> r tm = Ok (g x)) ->
  traverse r tms = Ok (map g xs).
Proof.
  induction xs as [|x xs IH]; intros tms l Hm Hr; inversion Hm; subst; [done|].
  cbn [traverse map]. erewrite Hr by (done || left). cbn [rbind].
  erewrite IH; [done|done|]. intros y t k Hy. apply Hr. by right.
Qed.

Lemma text_list_has {A} (f : A -> string) s ps p (xs : list A) :
  node_has doc s ps ->
  lookup_p p ps = match xs with [] => None | _ => Some (AColl (map (fun x => str_lit (f x)) xs)) end
  \/ lookup_p p ps = Some (AColl (map (fun x => str_lit (f x)) xs)) ->
  (length xs < LIST_BOUND)%nat -> text_list doc s p = Ok (map f xs).
Proof.
  intros Hs Hp Hb. unfold text_list.
  assert (Hp' : (xs = [] /\ lookup_p p ps = None) \/
                lookup_p p ps = Some (AColl (map (fun x => str_lit (f x)) xs)))
    by (destruct Hp as [Hp|Hp]; [destruct xs; auto|auto]).
  destruct Hp' as [[-> Hn]|Hsome].
  - by rewrite (one_none _ _ _ Hs Hn).
  - destruct (one_some _ _ _ _ Hs Hsome) as (tm & l & -> & Hm).
    apply rdf_list_matches in Hm as (tms & l' & -> & Hall); [|by rewrite length_map].
    cbn [rbind]. eapply (traverse_matches (fun x => str_lit (f x))); [done|].
    intros x t k _ Ht. by apply matches_lit in Ht as ->.
Qed.

End accessors.

(** ** Values *)

Definition canon (v : Value) : Value :=
  match v with
  | Real b => Real (if f64_is_nan b then F64_NAN else b)
  | v => v
  end.

Section values.
Context `{!OxDisplay, !F64Text, !F64TextLaws, !Base64, !Base64Laws} (doc : list Triple).

Lemma value_of_matches v tm l :
  matches doc (ast_of_value v) tm l -> Value_wf v = true -> value_of doc tm = Ok (canon v).
Proof.
  intros Hm Hv. destruct v as [|i|b|s|b|hash bytes]; cbn [ast_of_value] in Hm.
  1: by apply matches_iri in Hm as ->.
  1-4: apply matches_lit in Hm as ->; unfold value_of; cbn [lit_datatype lit_value].
  - by rewrite parse_integer_print.
  - by rewrite double_roundtrip.
  - done.
  - by rewrite base64_roundtrip.
  - inversion Hm as [| | | |b ps os l' Habout Hall]; subst. unfold value_of.
    assert (Hs : node_has doc (BNode b) [(RDF_TYPE, AIri cls_BLOB_REF); (prop_HASH, str_lit hash);
                                       (prop_BYTES, int_lit bytes)]) by (by exists os, l').
    destruct (one_some doc _ _ RDF_TYPE _ Hs eq_refl) as (tm & k & -> & Ht).
    apply matches_iri in Ht as ->. rewrite bool_decide_true by done.
    rewrite (need_text_has doc str_lit _ _ prop_HASH hash Hs); [|apply writes_str|by lookups]. cbn [rbind].
    rewrite (need_text_has doc (typed_lit XSD_INTEGER) _ _ prop_BYTES (int_to_string bytes) Hs);
      [|apply writes_typed|by lookups]. cbn [rbind].
    rewrite trim_graphic by apply int_to_string_graphic.
    cbn [Value_wf] in Hv. apply andb_prop in Hv as [_ Hv]. by rewrite parse_u64_to_string.
Qed.

Lemma value_list_has s ps p vs :
  node_has doc s ps ->
  lookup_p p ps = match vs with [] => None | _ => Some (AColl (map ast_of_value vs)) end ->
  (length vs < LIST_BOUND)%nat -> Forall (fun v => Value_wf v = true) vs ->
  value_list doc s p = Ok (map canon vs).
Proof.
  intros Hs Hp Hb Hwf. unfold value_list. destruct vs as [|v vs].
  - by rewrite (one_none _ _ _ _ Hs Hp).
  - destruct (one_some _ _ _ _ _ Hs Hp) as (tm & l & -> & Hm).
    apply rdf_list_matches in Hm as (tms & l' & -> & Hall); [|by rewrite length_map].
    cbn [rbind]. eapply (traverse_matches doc ast_of_value); [done|].
    intros x t k Hx Ht. eapply value_of_matches; [done|]. by eapply Forall_forall in Hwf.
Qed.

End values.

(** ** The statements of a document *)

Section statements.
Context (doc : list Triple).

Lemma about_filter (ss : list NamedOrBlankNode) s :
  s ∈ ss -> about doc s = about (filter (fun t => subject t ∈ ss) doc) s.
Proof.
  intros Hs. unfold about. f_equal. rewrite list_filter_filter. apply list_filter_iff.
  intros t. split; [intros ->; by split|by intros [? _]].
Qed.

Lemma about_zip_same s ps os : length ps = length os ->
  about (zip_with (fun p o => mkTriple s p o) ps os) s = zip ps os.
Proof.
  revert os. induction ps as [|p ps IH]; intros [|o os] Hl; try done.
  unfold about. cbn [zip_with]. rewrite filter_cons_True by done. cbn [map predicate object].
  f_equal. apply IH. by injection Hl.
Qed.

Lemma about_zip_other s s' ps os : s <> s' ->
  about (zip_with (fun p o => mkTriple s p o) ps os) s' = [].
Proof.
  intros Hne. revert os. induction ps as [|p ps IH]; intros [|o os]; try done.
  unfold about. cbn [zip_with]. rewrite filter_cons_False by done. apply IH.
Qed.

Lemma about_app (ts1 ts2 : list Triple) s : about (ts1 ++ ts2) s = about ts1 s ++ about ts2 s.
Proof. unfold about. by rewrite filter_app, map_app. Qed.

Lemma about_absent (ts : list Triple) s : Forall (fun t => subject t <> s) ts -> about ts s = [].
Proof. intros Hts. unfold about. by rewrite filter_none. Qed.

Lemma zip_subjects s (ps : list string) os :
  Forall (fun t => subject t = s) (zip_with (fun p o => mkTriple s p o) ps os).
Proof. revert os. induction ps as [|p ps IH]; intros [|o os]; cbn; constructor; auto. Qed.

Lemma stmts_subjects sts ss ts ls :
  stmts_match doc sts ss ts ls -> Forall (fun t => subject t ∈ ss) ts.
Proof.
  induction 1 as [|st s os sts ss ts l1 l2 _ _ _ IH]; [constructor|].
  apply Forall_app. split.
  - eapply Forall_impl; [apply zip_subjects|]. intros t ->. left.
  - eapply Forall_impl; [exact IH|]. intros t. by right.
Qed.

Lemma stmts_about sts ss ts ls :
  stmts_match doc sts ss ts ls -> NoDup ss ->
  Forall2 (fun st s => exists os l, about ts s = zip (map fst (s_props st)) os /\
                                    matches_all doc (map snd (s_props st)) os l) sts ss.
Proof.
  induction 1 as [|st s os sts ss ts l1 l2 Hs Hm Hrest IH]; intros Hnd; [constructor|].
  apply NoDup_cons in Hnd as [Hnin Hnd].
  assert (Hlen : length (map fst (s_props st)) = length os).
  { apply matches_all_length in Hm. by rewrite !length_map in *. }
  constructor.
  - exists os, l1. split; [|done]. rewrite about_app, about_zip_same by done.
    rewrite about_absent, app_nil_r; [done|].
    eapply Forall_impl; [by eapply stmts_subjects|]. intros t Ht <-. done.
  - specialize (IH Hnd). apply Forall2_same_length_lookup_2; [by eapply Forall2_length|].
    intros i st' s' Hst' Hs'. pose proof (Forall2_lookup_lr _ _ _ _ _ _ IH Hst' Hs') as Hi.
    destruct Hi as (os' & l & Ha & Hall). exists os', l. split; [|done].
    rewrite about_app, about_zip_other; [done|]. intros <-. by eapply Hnin, list_elem_of_lookup_2.
Qed.

(** Every statement's subject has exactly the statement's properties. *)
Lemma stmts_nodes sts ss ts ls :
  stmts_match doc sts ss ts ls -> NoDup ss -> filter (fun t => subject t ∈ ss) doc = ts ->
  Forall2 (fun st s => node_has doc s (s_props st)) sts ss.
Proof.
  intros Hm Hnd Hts. pose proof (stmts_about _ _ _ _ Hm Hnd) as Ha.
  apply Forall2_same_length_lookup_2; [by eapply Forall2_length|].
  intros i st s Hst Hs. destruct (Forall2_lookup_lr _ _ _ _ _ _ Ha Hst Hs) as (os & l & Hab & Hall).
  exists os, l. split; [|done]. rewrite (about_filter ss) by (by eapply list_elem_of_lookup_2).
  by rewrite Hts.
Qed.

(** *** Nodes that are never envelope objects *)

Definition quiet (ls : list string) : Prop :=
  forall t b, t ∈ doc -> b ∈ ls -> subject t = BNode b -> predicate t = RDF_TYPE ->
              object t = TNamed cls_BLOB_REF.

Lemma quiet_app l1 l2 : quiet l1 -> quiet l2 -> quiet (l1 ++ l2).
Proof. intros H1 H2 t b Ht [Hb|Hb]%elem_of_app; [by eapply H1|by eapply H2]. Qed.

Lemma in_about t : t ∈ doc -> (predicate t, object t) ∈ about doc (subject t).
Proof.
  intros Ht. unfold about. apply list_elem_of_fmap. exists t. split; [done|].
  by apply list_elem_of_filter.
Qed.

End statements.

(** An object whose parts are at most blob references. *)
Definition inert (a : ast) : Prop := forall doc tm l, matches doc a tm l -> quiet doc l.

Lemma inert_all doc xs : forall tms l,
  Forall inert xs -> matches_all doc xs tms l -> quiet doc l.
Proof.
  induction xs as [|x xs IH]; intros tms l Hx Hm; inversion Hm; subst; [by intros t b _ []%elem_of_nil|].
  apply Forall_cons in Hx as [Hx Hxs]. apply quiet_app; [by eapply Hx|by eapply IH].
Qed.

Lemma inert_lit l : inert (ALit l).
Proof. intros doc tm ls Hm. inversion Hm. by intros t b _ []%elem_of_nil. Qed.

Lemma inert_iri i : inert (AIri i).
Proof. intros doc tm ls Hm. inversion Hm. by intros t b _ []%elem_of_nil. Qed.

Lemma inert_coll xs : Forall inert xs -> inert (AColl xs).
Proof.
  intros Hx doc. induction xs as [|x xs IH]; intros tm ls Hm; inversion Hm; subst;
    [by intros t b _ []%elem_of_nil|].
  apply Forall_cons in Hx as [Hx Hxs].
  rewrite (cons_app c). apply quiet_app; [|apply quiet_app; [by eapply Hx|by eapply IH]].
  intros t b Ht ->%list_elem_of_singleton Hsub Hp. apply in_about in Ht. rewrite Hsub, Hp in Ht.
  match goal with H : about _ _ ≡ₚ _ |- _ => rewrite H in Ht end.
  rewrite !elem_of_cons, elem_of_nil in Ht.
  destruct Ht as [Ht|[Ht|[]]]; apply (f_equal fst) in Ht; done.
Qed.

(** A property a nested node may have. *)
Definition inert_prop (pr : string * ast) : Prop :=
  inert pr.2 /\ (pr.1 = RDF_TYPE -> pr.2 = AIri cls_BLOB_REF).

Lemma inert_bnode ps : Forall inert_prop ps -> inert (ABnode ps).
Proof.
  intros Hps doc tm ls Hm. inversion Hm as [| | | |b ps' os l Habout Hall]; subst.
  rewrite (cons_app b). apply quiet_app.
  - intros t b' Ht ->%list_elem_of_singleton Hsub Hp. apply in_about in Ht. rewrite Hsub, Hp, Habout in Ht.
    clear Hm Habout. revert os l Hall Ht.
    induction Hps as [|[p a] ps [_ Hpr] _ IH]; intros os l Hall Ht; [by apply elem_of_nil in Ht|].
    cbn [map] in *. inversion Hall as [|? ? tm' tms l1 l2 Ha Hrest]; subst.
    cbn [zip zip_with fst snd] in *. apply elem_of_cons in Ht as [[= <- ->]|Ht]; [|by eapply IH].
    rewrite Hpr in Ha by done. by inversion Ha.
  - eapply inert_all; [|done]. apply Forall_fmap. eapply Forall_impl; [exact Hps|]. by intros ? [].
Qed.

(** ** The frame scan *)

Section scan.
Context (doc : list Triple).

Lemma scan_step_noop acc t :
  (predicate t = RDF_TYPE -> object t = TNamed cls_BLOB_REF) -> scan_step acc t = acc.
Proof.
  intros Ht. unfold scan_step. destruct acc as [typed alien]. case_bool_decide as Hp; [|done].
  by rewrite (Ht Hp).
Qed.

Lemma scan_filter (ss : list NamedOrBlankNode) ts acc :
  (forall t acc, t ∈ ts -> subject t ∉ ss -> scan_step acc t = acc) ->
  foldl scan_step acc ts = foldl scan_step acc (filter (fun t => subject t ∈ ss) ts).
Proof.
  revert acc. induction ts as [|t ts IH]; intros acc Hno; [done|]. cbn [foldl].
  destruct (decide (subject t ∈ ss)) as [Hin|Hnin].
  - rewrite filter_cons_True by done. apply IH. intros t' acc' Ht'. apply Hno. by right.
  - rewrite filter_cons_False by done. rewrite Hno by (done || left).
    apply IH. intros t' acc' Ht'. apply Hno. by right.
Qed.

Lemma scan_untyped s ps os acc :
  Forall (fun p => p <> RDF_TYPE) ps ->
  foldl scan_step acc (zip_with (fun p o => mkTriple s p o) ps os) = acc.
Proof.
  intros Hps. revert os acc. induction Hps as [|p ps Hp _ IH]; intros [|o os] acc; try done.
  cbn [zip_with foldl]. rewrite scan_step_noop by done. apply IH.
Qed.

(** A statement of class [c] whose other properties are not types. *)
Definition stmt_of_class (st : stmt) (c : string) : Prop :=
  exists ps, s_props st = typed c ps /\ Forall (fun pr => pr.1 <> RDF_TYPE /\ inert pr.2) ps.

Definition type_triple (s : NamedOrBlankNode) (c : string) : Triple :=
  mkTriple s RDF_TYPE (TNamed c).

Lemma scan_stmts sts ss ts ls : forall cs acc,
  stmts_match doc sts ss ts ls -> Forall2 stmt_of_class sts cs ->
  foldl scan_step acc ts = foldl scan_step acc (zip_with type_triple ss cs).
Proof.
  intros cs acc Hm. revert cs acc. induction Hm as [|st s os sts ss ts l1 l2 _ Hall _ IH];
    intros cs acc Hcs; inversion Hcs as [|? c ? cs' (ps & Hps & Hun) Hcs']; subst; [done|].
  rewrite Hps in *. unfold typed, p_one in *. cbn [app map fst snd] in *.
  inversion Hall as [|? ? tm tms k1 k2 Ha Hrest]; subst. apply matches_iri in Ha as ->.
  cbn [zip_with]. rewrite (cons_app (mkTriple _ _ _)), <-app_assoc, foldl_app. cbn [foldl].
  rewrite foldl_app, scan_untyped; [by apply IH|].
  apply Forall_fmap. eapply Forall_impl; [exact Hun|]. by intros ? [].
Qed.

Lemma stmts_quiet sts ss ts ls cs :
  stmts_match doc sts ss ts ls -> Forall2 stmt_of_class sts cs -> quiet doc ls.
Proof.
  intros Hm. revert cs. induction Hm as [|st s os sts ss ts l1 l2 _ Hall _ IH];
    intros cs Hcs; inversion Hcs as [|? c ? cs' (ps & Hps & Hun) Hcs']; subst.
  { by intros t b _ []%elem_of_nil. }
  apply quiet_app; [|by eapply IH]. eapply inert_all; [|done]. rewrite Hps.
  unfold typed, p_one. cbn [app map]. constructor; [apply inert_iri|].
  apply Forall_fmap. eapply Forall_impl; [exact Hun|]. by intros ? [].
Qed.

(** What the scan of a represented document sees: the types of its statements,
    in order. *)
Lemma scan_represents sts cs :
  represents doc sts -> Forall2 stmt_of_class sts cs ->
  exists ss, scan doc = foldl scan_step ([], None) (zip_with type_triple ss cs) /\
             NoDup ss /\ Forall2 (fun st s => node_has doc s (s_props st) /\ subject_of st s) sts ss /\
             length ss = length cs.
Proof.
  intros (ss & ts & ls & Hm & Hnd & Hts & Hall) Hcs. exists ss.
  apply NoDup_app in Hnd as (Hnd & _ & _).
  pose proof (stmts_nodes _ _ _ _ _ Hm Hnd Hts) as Hn. split_and!.
  - unfold scan. rewrite (scan_filter ss), Hts; [by eapply scan_stmts|].
    intros t acc Ht Hsub. apply scan_step_noop.
    eapply Forall_forall in Hall; [|exact Ht]. apply elem_of_app in Hall as [?|Hb]; [done|].
    apply list_elem_of_fmap in Hb as (b & Hb & Hin).
    intros Hp. by eapply stmts_quiet.
  - done.
  - clear -Hm Hn. revert Hn. induction Hm as [|st s os sts ss ts l1 l2 Hs _ _ IH]; intros Hn;
      inversion Hn; subst; constructor; auto.
  - apply Forall2_length in Hn. apply Forall2_length in Hcs. congruence.
Qed.

End scan.

(** ** Single-statement objects *)

Section single.
Context `{!OxDisplay, !F64Text, !F64TextLaws, !Base64, !Base64Laws} (doc : list Triple).

(** Properties of an envelope object: no second type, no typed parts. *)
Definition plain_props (ps : list (string * ast)) : Prop :=
  Forall (fun pr => pr.1 <> RDF_TYPE /\ inert pr.2) ps.

Lemma plain_app ps1 ps2 : plain_props ps1 -> plain_props ps2 -> plain_props (ps1 ++ ps2).
Proof. apply Forall_app_2. Qed.

Lemma plain_one p a : p <> RDF_TYPE -> inert a -> plain_props (p_one p a).
Proof. intros. by repeat constructor. Qed.

Lemma plain_opt {A} p (f : A -> ast) o :
  p <> RDF_TYPE -> (forall a, inert (f a)) -> plain_props (p_opt p f o).
Proof. intros. destruct o; repeat constructor; cbn; auto. Qed.

Lemma plain_many p vs : p <> RDF_TYPE -> plain_props (p_many p vs).
Proof. intros. apply Forall_fmap, Forall_true. intros v. split; [done|apply inert_lit]. Qed.

Lemma plain_list {A} p (f : A -> ast) xs :
  p <> RDF_TYPE -> (forall a, inert (f a)) -> plain_props (p_list p f xs).
Proof.
  intros Hp Hf. destruct xs; repeat constructor; cbn; [done|].
  apply inert_coll. constructor; [done|]. apply Forall_fmap, Forall_true. auto.
Qed.

Lemma inert_prop_plain p a : p <> RDF_TYPE -> inert a -> Forall inert_prop [(p, a)].
Proof. intros Hp Ha. constructor; [|constructor]. by split. Qed.

Lemma inert_value v : inert (ast_of_value v).
Proof.
  destruct v; try apply inert_lit; try apply inert_iri.
  apply inert_bnode. apply Forall_cons. split; [by split; [apply inert_iri|]|].
  rewrite cons_app. apply Forall_app_2; by apply inert_prop_plain, inert_lit.
Qed.

Lemma inert_prop_opt {A} p (f : A -> ast) o :
  p <> RDF_TYPE -> (forall a, inert (f a)) -> Forall inert_prop (p_opt p f o).
Proof. intros Hp Hf. destruct o; [by apply inert_prop_plain|constructor]. Qed.

Lemma inert_values vs : inert (AColl (map ast_of_value vs)).
Proof. apply inert_coll, Forall_fmap, Forall_true, inert_value. Qed.

Lemma inert_field f : inert (ast_of_field f).
Proof.
  apply inert_bnode. repeat apply Forall_app_2.
  - by apply inert_prop_plain, inert_lit.
  - by apply inert_prop_opt, inert_iri.
  - destruct (pf_required f); [|constructor]. by apply inert_prop_plain, inert_lit.
  - by apply inert_prop_opt, inert_value.
  - destruct (pf_one_of f) as [|v vs]; [constructor|].
    apply inert_prop_plain; [done|apply (inert_values (v :: vs))].
  - by apply inert_prop_opt; [|intros; apply inert_lit].
Qed.

Ltac plain :=
  repeat first [apply plain_app|apply plain_one|apply plain_opt|apply plain_many|apply plain_list];
  try (intros; first [apply inert_lit|apply inert_iri|apply inert_value]); try done.

(** A frame of one statement reaches the match on its class. *)
Lemma decode_one class ps :
  represents doc [anon_stmt (rsntr_iri class) ps] -> plain_props ps ->
  class ∉ ["BlobRef"; "Row"; "Projection"; "Vibration"; "Graph"] ->
  exists s, node_has doc s (typed (rsntr_iri class) ps) /\ decode doc = decode_single doc s class.
Proof.
  intros Hr Hps Hc.
  destruct (scan_represents doc _ [rsntr_iri class] Hr) as (ss & Hscan & _ & Hn & Hlen).
  { constructor; [|constructor]. by exists ps. }
  destruct ss as [|s [|]]; try done. exists s.
  inversion Hn as [|? ? ? ? [Hs _] _]; subst. split; [done|].
  unfold decode. rewrite Hscan. cbn [zip_with foldl scan_step type_triple predicate object].
  rewrite bool_decide_true by done. cbn [negb]. unfold rsntr_iri. rewrite strip_prefix_app.
  rewrite !elem_of_cons in Hc. rewrite (bool_decide_false (class = "BlobRef")) by naive_solver.
  cbn [existsb app forallb subject]. rewrite !bool_decide_false by (done || naive_solver).
  cbn [andb]. unfold only.
  rewrite !filter_cons_False by naive_solver. done.
Qed.

End single.
