(* ===== verification/Wire.v ===== *)
(** * Wire: envelope objects on the byte stream

    Models [encode_envelope] and [decode_envelope] of
    [crates/protocol/src/frame.rs] over the frame codec ([Frame]) and the
    envelope codec ([Encode], [Decode]), and relates the incremental
    [EnvelopeParser] to the document it is fed. *)

From S2P Require Import Prelude RustStd Vocab External Value Envelope Frame Decode Encode.

Section wire.
Context `{!OxDisplay, !F64Text, !Base64}.

Definition encode_envelope (obj : EnvelopeObject) (dst : list Byte.byte) :
    result ProtocolError unit * list Byte.byte :=
  match to_turtle obj with
  | Err e => (Err e, dst)
  | Ok turtle => encode_frame (as_bytes turtle) dst
  end.

(** [slice::chunks(n)], for [n] positive: [fuel] bounds the chunks. *)
Fixpoint chunks_go {A} (fuel : nat) (n : nat) (l : list A) : list (list A) :=
  match fuel, l with
  | _, [] => []
  | O, _ => []
  | S fuel', _ => take n l :: chunks_go fuel' n (drop n l)
  end.

Definition chunks {A} (n : nat) (l : list A) : list (list A) := chunks_go (length l) n l.

Definition PUSH_CHUNK : nat := Z.to_nat (8 * 1024).

Section parser.
Context `{!TurtleParser}.

(** The [for] loop with [?]: feed every chunk, stop at the first error. *)
Fixpoint push_all (p : EnvelopeParser) (cs : list (list Byte.byte)) :
    result ProtocolError unit * EnvelopeParser :=
  match cs with
  | [] => (Ok tt, p)
  | c :: cs' => match push p c with
                | (Err e, p') => (Err e, p')
                | (Ok _, p') => push_all p' cs'
                end
  end.

(** Parsing one payload in the given chunking. *)
Definition parse_chunks (cs : list (list Byte.byte)) : result ProtocolError EnvelopeObject :=
  match push_all EnvelopeParser_new cs with
  | (Err e, _) => Err e
  | (Ok _, p) => finish p
  end.

Definition decode_envelope (src : list Byte.byte) :
    result ProtocolError (option EnvelopeObject) * list Byte.byte :=
  match decode_frame src with
  | (Err e, src') => (Err e, src')
  | (Ok None, src') => (Ok None, src')
  | (Ok (Some payload), src') =>
      (rmap Some (parse_chunks (chunks PUSH_CHUNK (as_bytes payload))), src')
  end.

End parser.

(** ** What the push parser promises

    [tp_doc bs] is what the parser makes of the whole document [bs]: its
    triples up to the first syntax error, if any. [tp_at bs ended d st]: [st]
    has been fed [bs], ended or not, and has yielded the triples [d]. *)
Class TurtleParserLaws {P : TurtleParser} : Type := {
  tp_doc : list Byte.byte -> list Triple * option string;
  tp_at : list Byte.byte -> bool -> list Triple -> tp_state -> Prop;
  tp_at_new prefixes : prefixes = IMPLIED_PREFIXES -> tp_at [] false [] (tp_new prefixes);
  tp_at_extend bs c d st : tp_at bs false d st -> tp_at (bs ++ c) false d (tp_extend c st);
  tp_at_end bs d st : tp_at bs false d st -> tp_at bs true d (tp_end st);
  tp_at_next bs e d st t st' :
    tp_at bs e d st -> tp_next st = (Some (Ok t), st') -> tp_at bs e (d ++ [t]) st';
  tp_at_none bs e d st st' : tp_at bs e d st -> tp_next st = (None, st') -> tp_at bs e d st';
  tp_at_done bs d st st' :
    tp_at bs true d st -> tp_next st = (None, st') -> tp_doc bs = (d, None);
  tp_at_err bs e d st x st' more :
    tp_at bs e d st -> tp_next st = (Some (Err x), st') -> (e = true -> more = []) ->
    tp_doc (bs ++ more) = (d, Some x)
}.

(** The object a whole payload denotes. *)
Definition decode_doc `{!TurtleParser, !TurtleParserLaws} (bs : list Byte.byte) :
    result ProtocolError EnvelopeObject :=
  match tp_doc bs with
  | (_, Some x) => Err (Syntax x)
  | (d, None) => decode d
  end.

(** ** Properties *)

Lemma chunks_go_concat {A} fuel n (l : list A) :
  (0 < n)%nat -> (length l <= fuel)%nat -> concat (chunks_go fuel n l) = l.
Proof.
  intros Hn. revert l. induction fuel as [|fuel IH]; intros [|a l] Hl; try done.
  { cbn in Hl. lia. }
  cbn [chunks_go concat]. rewrite IH; [apply take_drop|].
  rewrite length_drop. cbn [length] in *. lia.
Qed.

(** [chunks] splits the slice without losing or reordering a byte. *)
Lemma chunks_concat {A} n (l : list A) : (0 < n)%nat -> concat (chunks n l) = l.
Proof. intros. by apply chunks_go_concat. Qed.

Lemma chunks_sizes {A} size (l : list A) : (0 < size)%nat -> Forall (fun b => (0 < length b <= size)%nat) (chunks size l).
Proof.
  intros Hsize. unfold chunks. generalize (length l) as fuel. intros fuel. revert l.
  induction fuel as [|fuel IH]; intros [|a l]; cbn [chunks_go]; constructor; [|apply IH].
  rewrite length_take. cbn [length]. lia.
Qed.

Section laws.
Context `{!TurtleParser, !TurtleParserLaws}.

(** Where a pump leaves the parser: exhausted at the same input, or stopped
    at the document's first error. *)
Lemma pump_go_spec n st (Hn : (tp_size st < n)%nat) bs e d :
  tp_at bs e d st ->
  match pump_go n st Hn d with
  | (Ok _, p) => tp_at bs e (seen p) (inner p) /\
                 (e = true -> tp_doc bs = (seen p, None))
  | (Err err, _) => exists x d', err = Syntax x /\
                    forall more, (e = true -> more = []) -> tp_doc (bs ++ more) = (d', Some x)
  end.
Proof.
  revert st Hn d. induction n as [|n IH]; intros st Hn d Hat; [lia|]. cbn [pump_go].
  generalize (fun r st' E => Nat.lt_le_trans _ _ _ (tp_next_size st r st' E) (le_S_n _ _ Hn)) as Hs.
  generalize (@eq_refl _ (tp_next st)).
  destruct (tp_next st) as [[[t|x]|] st'] eqn:E at 2 3 4; intros E' Hs.
  - apply IH. by eapply tp_at_next.
  - exists x, d. split; [done|]. intros more Hm. by eapply tp_at_err.
  - cbn. split; [by eapply tp_at_none|]. intros ->. by eapply tp_at_done.
Qed.

Lemma push_all_spec cs : forall bs p,
  tp_at bs false (seen p) (inner p) ->
  match push_all p cs with
  | (Ok _, p') => tp_at (bs ++ concat cs) false (seen p') (inner p')
  | (Err err, _) => exists x d', err = Syntax x /\ tp_doc (bs ++ concat cs) = (d', Some x)
  end.
Proof.
  induction cs as [|c cs IH]; intros bs p Hat; cbn [push_all concat].
  { by rewrite app_nil_r. }
  unfold push, pump. cbn [inner seen].
  pose proof (pump_go_spec _ _ (Nat.lt_succ_diag_r _) _ _ _ (tp_at_extend _ c _ _ Hat)) as Hp.
  destruct (pump_go _ _ _ _) as [[[]|err] p'].
  - destruct Hp as [Hp _]. specialize (IH _ _ Hp). by rewrite <-app_assoc in IH.
  - destruct Hp as (x & d' & -> & Hx). exists x, d'. split; [done|].
    rewrite app_assoc. by apply Hx.
Qed.

(** The incremental parser means its input: however a payload is chunked, the
    result is that of the whole document. *)
Theorem parse_chunks_spec (cs : list (list Byte.byte)) :
  parse_chunks cs = decode_doc (concat cs).
Proof.
  unfold parse_chunks, decode_doc.
  pose proof (push_all_spec cs [] EnvelopeParser_new (tp_at_new _ eq_refl)) as Hp.
  rewrite app_nil_l in Hp. destruct (push_all _ _) as [[[]|err] p].
  - unfold finish, pump. cbn [inner seen].
    pose proof (pump_go_spec _ _ (Nat.lt_succ_diag_r _) _ _ _ (tp_at_end _ _ _ Hp)) as He.
    destruct (pump_go _ _ _ _) as [[[]|err] p'].
    + destruct He as [_ He]. by rewrite He.
    + destruct He as (x & d' & -> & Hx). specialize (Hx [] (fun _ => eq_refl)).
      rewrite app_nil_r in Hx. by rewrite Hx.
  - destruct Hp as (x & d' & -> & Hx). by rewrite Hx.
Qed.

Lemma from_turtle_chunks doc : from_turtle doc = parse_chunks [as_bytes doc].
Proof.
  unfold from_turtle, parse_chunks, push_all.
  by destruct (push _ _) as [[[]|e] p].
Qed.

(** [decode_envelope] is the frame codec followed by [from_turtle]: the
    bounded chunks it feeds the parser cannot be told from the whole payload. *)
Theorem decode_envelope_spec (src : list Byte.byte) :
  decode_envelope src =
  match decode_frame src with
  | (Err e, src') => (Err e, src')
  | (Ok None, src') => (Ok None, src')
  | (Ok (Some payload), src') => (rmap Some (from_turtle payload), src')
  end.
Proof.
  unfold decode_envelope. destruct (decode_frame src) as [[[payload|]|e] src']; try done.
  rewrite from_turtle_chunks, !parse_chunks_spec.
  rewrite chunks_concat by (unfold PUSH_CHUNK; lia). cbn [concat]. by rewrite app_nil_r.
Qed.

End laws.
End wire.
