(* ===== verification/Transport.v ===== *)
(** * Transport: frames over one QUIC bi stream, and the hello exchange

    Models the stream half of [crates/transport/src/iroh_transport.rs]: the
    receive loop and its buffer, the plain-text probe, the hello handshake of
    both sides, and the modulation gate of [route_request]. The network is
    data: [reads] holds what the peer's half of the stream will deliver, one
    entry per [read] call, and [writes] the outcome of each [write_all]. *)

From S2P Require Import Prelude RustStd Vocab External Value Envelope Frame Decode Encode Wire.

Inductive TransportError : Type :=
| Protocol (e : ProtocolError)
| Stream (m : msg)
| InvalidPeerId (m : msg)
| InvalidTicket (m : msg)
| Bind (m : msg)
| Dial (m : msg)
| Handshake (m : msg)
| Refused (code reason : msg)
| Blobs (m : msg).

(** An [async] call: ready, or still waiting for the peer. *)
Inductive poll (A : Type) : Type :=
| Ready (r : result TransportError A)
| Pending.
Arguments Ready {A} r.
Arguments Pending {A}.

(** [RecvStream::read]: [Ok(Some(n))], [Ok(None)], [Err(e)]. *)
Inductive read_event : Type :=
| RdData (bs : list Byte.byte)
| RdEof
| RdErr (e : string).

Record IrohRequestStream : Type := mkStream {
  reads : list read_event;
  writes : list (option string);
  sent : list Byte.byte;
  finished : bool;
  buf : list Byte.byte;
  eof : bool
}.

Definition IrohRequestStream_new (reads : list read_event) (writes : list (option string)) :
    IrohRequestStream := mkStream reads writes [] false [] false.

Definition set_buf (b : list Byte.byte) (s : IrohRequestStream) : IrohRequestStream :=
  mkStream (reads s) (writes s) (sent s) (finished s) b (eof s).
Definition set_eof (s : IrohRequestStream) : IrohRequestStream :=
  mkStream (reads s) (writes s) (sent s) (finished s) (buf s) true.
Definition set_reads (r : list read_event) (s : IrohRequestStream) : IrohRequestStream :=
  mkStream r (writes s) (sent s) (finished s) (buf s) (eof s).

(** [SendStream::write_all]; a [write_all] past the listed outcomes succeeds. *)
Definition write_all (bytes : list Byte.byte) (s : IrohRequestStream) :
    result TransportError unit * IrohRequestStream :=
  match writes s with
  | Some e :: ws => (Err (Stream [L e]), mkStream (reads s) ws (sent s) (finished s) (buf s) (eof s))
  | ws => (Ok tt, mkStream (reads s) (tail ws) (sent s ++ bytes) (finished s) (buf s) (eof s))
  end.

(** [IrohRequestStream::finish]: the result of the inner call is ignored. *)
Definition finish_stream (s : IrohRequestStream) : result TransportError unit * IrohRequestStream :=
  (Ok tt, mkStream (reads s) (writes s) (sent s) true (buf s) (eof s)).

(** ** The plain-text probe *)

Definition PLAINTEXT_BANNER : string := jq (
  "resonator node (rsntr, envelope 0.1). I speak RDF objects over QUIC." +:+ nl +:+
  "Hand-driven? Ask me for help in one line:" +:+ nl +:+
  "  [] a rsntr:Query ; rsntr:mod 'help' ." +:+ nl +:+
  "and I will reply with usage. Not admitted? Knock:" +:+ nl +:+
  "  [] a rsntr:Knock ; rsntr:message 'who you are and what you want' ." +:+ nl).

(** [chars().all(|c| !c.is_control() || c.is_whitespace())] on UTF-8 bytes:
    the control characters are U+0000-001F, U+007F and U+0080-009F (two bytes,
    the first 0xC2), of which U+0009-000D and U+0085 are white space. *)
Fixpoint no_bare_control (s : string) : bool :=
  match s with
  | "" => true
  | String c s' =>
      (if in_range 0x00 0x1F c then in_range 0x09 0x0D c
       else if in_range 0x7F 0x7F c then false
       else if in_range 0xC2 0xC2 c then
         match s' with
         | String d _ => negb (in_range 0x80 0x9F d) || in_range 0x85 0x85 d
         | "" => true
         end
       else true) && no_bare_control s'
  end.

Definition looks_like_probe (buf : list Byte.byte) : bool :=
  if (4 <=? zlen buf) && (from_u32_le (take 4 buf) <=? MAX_FRAME_LEN) then false
  else match from_utf8 buf with
       | Some s => negb (is_empty s) && no_bare_control s
       | None => false
       end.

(** [plaintext_probe], given what its one [read] delivers. *)
Definition probe_step (ev : read_event) (s : IrohRequestStream) :
    result TransportError bool * IrohRequestStream :=
  match ev with
  | RdEof => (Ok false, set_eof s)
  | RdErr e => (Err (Stream [L e]), s)
  | RdData bs =>
      let s := set_buf (buf s ++ bs) s in
      if negb (looks_like_probe (buf s)) then (Ok false, s)
      else match write_all (as_bytes PLAINTEXT_BANNER) s with
           | (Err e, s) => (Err e, s)
           | (Ok _, s) => (Ok true, set_buf [] s)
           end
  end.

(** The acceptor's probe loop; [Ready (Ok tt)] when it breaks out. *)
Fixpoint probe_loop (rs : list read_event) (s : IrohRequestStream) :
    poll unit * IrohRequestStream :=
  match rs with
  | [] => (Pending, set_reads [] s)
  | ev :: rs' =>
      match probe_step ev (set_reads rs' s) with
      | (Ok true, s) => probe_loop rs' s
      | (Ok false, s) => (Ready (Ok tt), s)
      | (Err e, s) => (Ready (Err e), s)
      end
  end.

(** ** Hello *)

Definition hello_incompatibility (hello : Hello) : option (string * msg) :=
  if negb (bool_decide (hl_envelope_version hello = "0")) &&
     negb (starts_with "0." (hl_envelope_version hello)) then
    Some ("envelope-version",
          [L "this node speaks envelope 0.x only, got "; D (hl_envelope_version hello)])
  else if negb (existsb (fun e => bool_decide (e = "turtle")) (hl_encodings hello)) then
    Some ("encoding", [L "no common frame encoding: turtle is mandatory"])
  else None.

(** [Literal::new_simple_literal]. *)
Definition simple_literal (s : string) : Term := TLit (mkLiteral s XSD_STRING None).

Definition refused_envelope (code reason : string) : EnvelopeObject :=
  OGeneric (mkGeneric "Refused"
              [(prop_CODE, simple_literal code); (prop_REASON, simple_literal reason)]).

Definition parse_refused_step (acc : string * string) (pair : string * Term) : string * string :=
  let '(code, reason) := acc in
  match pair with
  | (predicate, TLit lit) =>
      if bool_decide (predicate = prop_CODE) then (lit_value lit, reason)
      else if bool_decide (predicate = prop_REASON) then (code, lit_value lit)
      else acc
  | _ => acc
  end.

Definition parse_refused (generic : Generic) : string * string :=
  foldl parse_refused_step ("unspecified", "") (gn_props generic).

(** Renderings derived for the compiler: [Debug] of an envelope object and
    [Display] of a message and of a transport error. *)
Class TransportText : Type := {
  debug_obj : EnvelopeObject -> string;
  show_msg : msg -> string;
  show_transport_error : TransportError -> string
}.

Section stream.
Context `{!OxDisplay, !F64Text, !Base64, !TurtleParser, !TransportText}.

Definition send (obj : EnvelopeObject) (s : IrohRequestStream) :
    result TransportError unit * IrohRequestStream :=
  match encode_envelope obj [] with
  | (Err e, _) => (Err (Protocol e), s)
  | (Ok _, out) => write_all out s
  end.

(** The [recv] loop: each turn that needs more bytes consumes one [read]. *)
Fixpoint recv_go (rs : list read_event) (s : IrohRequestStream) :
    poll (option EnvelopeObject) * IrohRequestStream :=
  match decode_envelope (buf s) with
  | (Err e, b) => (Ready (Err (Protocol e)), set_buf b s)
  | (Ok (Some obj), b) => (Ready (Ok (Some obj)), set_buf b s)
  | (Ok None, b) =>
      let s := set_buf b s in
      if eof s then
        match buf s with
        | [] => (Ready (Ok None), s)
        | _ => (Ready (Err (Stream [L "stream ended mid-frame with ";
                                    L (int_to_string (zlen (buf s))); L " trailing bytes"])), s)
        end
      else match rs with
           | [] => (Pending, s)
           | RdData chunk :: rs' => recv_go rs' (set_reads rs' (set_buf (buf s ++ chunk) s))
           | RdEof :: rs' => recv_go rs' (set_reads rs' (set_eof s))
           | RdErr e :: rs' => (Ready (Err (Stream [L e])), set_reads rs' s)
           end
  end.

Definition recv (s : IrohRequestStream) : poll (option EnvelopeObject) * IrohRequestStream :=
  recv_go (reads s) s.

Definition recv_raw (s : IrohRequestStream) :
    poll (option (list Byte.byte)) * IrohRequestStream :=
  match buf s with
  | _ :: _ => (Ready (Ok (Some (buf s))), set_buf [] s)
  | [] =>
      if eof s then (Ready (Ok None), s)
      else match reads s with
           | [] => (Pending, s)
           | RdData chunk :: rs' => (Ready (Ok (Some chunk)), set_reads rs' s)
           | RdEof :: rs' => (Ready (Ok None), set_reads rs' (set_eof s))
           | RdErr e :: rs' => (Ready (Err (Stream [L e])), set_reads rs' s)
           end
  end.

(** ** The accepting side *)

(** How the hello exchange of an accepted connection ends. *)
Inductive accept_outcome : Type :=
| Waiting
| Dropped
| ClosedExpectedHello
| RefusedHello (code : string)
| Accepted (peer_hello : Hello).

(** [Acceptor::accept], up to the request loop; [s] is the first bi stream. *)
Definition accept_hello (my_hello : Hello) (s : IrohRequestStream) :
    accept_outcome * IrohRequestStream :=
  match probe_loop (reads s) s with
  | (Pending, s) => (Waiting, s)
  | (Ready (Err _), s) => (Dropped, s)
  | (Ready (Ok _), s) =>
      match recv s with
      | (Pending, s) => (Waiting, s)
      | (Ready (Ok (Some (OHello peer_hello))), s) =>
          match hello_incompatibility peer_hello with
          | Some (code, reason) =>
              let '(_, s) := send (refused_envelope code (show_msg reason)) s in
              let '(_, s) := finish_stream s in
              (RefusedHello code, s)
          | None =>
              match send (OHello my_hello) s with
              | (Err _, s) => (Dropped, s)
              | (Ok _, s) => let '(_, s) := finish_stream s in (Accepted peer_hello, s)
              end
          end
      | (Ready _, s) => (ClosedExpectedHello, s)
      end
  end.

(** ** The dialing side: [dial_inner] from the hello stream on *)

Definition dial_hello (my_hello : Hello) (s : IrohRequestStream) :
    poll Hello * IrohRequestStream :=
  match send (OHello my_hello) s with
  | (Err e, s) => (Ready (Err e), s)
  | (Ok _, s) =>
      let '(_, s) := finish_stream s in
      match recv s with
      | (Pending, s) => (Pending, s)
      | (Ready (Ok (Some (OHello hello))), s) =>
          match hello_incompatibility hello with
          | Some (code, reason) => (Ready (Err (Refused [L code] reason)), s)
          | None => (Ready (Ok hello), s)
          end
      | (Ready (Ok (Some (OGeneric g))), s) =>
          if bool_decide (gn_class g = "Refused") then
            let '(code, reason) := parse_refused g in
            (Ready (Err (Refused [L code] [L reason])), s)
          else (Ready (Err (Handshake [L "expected hello, got "; L (debug_obj (OGeneric g))])), s)
      | (Ready (Ok (Some other)), s) =>
          (Ready (Err (Handshake [L "expected hello, got "; L (debug_obj other)])), s)
      | (Ready (Ok None), s) =>
          (Ready (Err (Handshake [L "stream closed before the peer's hello"])), s)
      | (Ready (Err e), s) => (Ready (Err (Handshake [L (show_transport_error e)])), s)
      end
  end.

(** ** Routing one request stream *)

Definition fast_fail (mods : list string) (first : EnvelopeObject) : option ErrorEnvelope :=
  match first with
  | OQuery s | OExecute s =>
      let served := existsb (fun t => mod_matches (st_modulation s) t) mods in
      if served then None
      else Some (mkErrorEnvelope (Some (st_id s)) (ErrorCode_as_str ModUnsupported)
                   (Some (show_msg [L "modulation "; D (st_modulation s);
                                    L " not served; this node demodulates [";
                                    L (join ", " mods); L "]"])))
  | OHello _ =>
      Some (mkErrorEnvelope None (ErrorCode_as_str ProtocolErrorCode)
              (Some "hello is only valid on the first stream of a connection"))
  | _ => None
  end.

Inductive route_outcome : Type :=
| RouteWaiting
| RouteDropped
| RouteFailed (err : ErrorEnvelope)
| RouteHandedOver (first : EnvelopeObject).

Definition route_request (mods : list string) (s : IrohRequestStream) :
    route_outcome * IrohRequestStream :=
  match recv s with
  | (Pending, s) => (RouteWaiting, s)
  | (Ready (Err _), s) | (Ready (Ok None), s) => (RouteDropped, s)
  | (Ready (Ok (Some first)), s) =>
      match fast_fail mods first with
      | Some err =>
          let '(_, s) := send (OError err) s in
          let '(_, s) := finish_stream s in
          (RouteFailed err, s)
      | None => (RouteHandedOver first, s)
      end
  end.

End stream.

(** ** Properties of the receive loop *)

Section recv.
Context `{!OxDisplay, !F64Text, !Base64, !TurtleParser}.

Lemma decode_envelope_mono b c r b' :
  decode_envelope b = (r, b') -> r <> Ok None -> decode_envelope (b ++ c) = (r, b' ++ c).
Proof.
  unfold decode_envelope. destruct (decode_frame b) as [fr b1] eqn:E. intros Hd Hr.
  rewrite (decode_frame_mono b c fr b1) by (done || (intros ->; simplify_eq)).
  destruct fr as [[payload|]|e]; by simplify_eq.
Qed.

Lemma decode_envelope_None b b' :
  decode_envelope b = (Ok None, b') -> b' = b.
Proof.
  unfold decode_envelope. destruct (decode_frame b) as [[[payload|]|e] b1] eqn:E; intros Hd.
  - destruct (parse_chunks _); simplify_eq.
  - simplify_eq. by apply decode_frame_None in E.
  - simplify_eq.
Qed.

(** The peer sends [bytes] and then ends its half, in whatever chunking: what
    the buffer and the network still hold. *)
Inductive wire (bytes : list Byte.byte) (s : IrohRequestStream) : Prop :=
| wire_open cs :
    eof s = false -> reads s = map RdData cs ++ [RdEof] -> buf s ++ concat cs = bytes -> wire bytes s
| wire_ended : eof s = true -> buf s = bytes -> wire bytes s.

(** What [recv] makes of the bytes still to come. *)
Definition recv_result (bytes : list Byte.byte) :
    result TransportError (option EnvelopeObject) * list Byte.byte :=
  match decode_envelope bytes with
  | (Err e, rest) => (Err (Protocol e), rest)
  | (Ok (Some obj), rest) => (Ok (Some obj), rest)
  | (Ok None, rest) =>
      match bytes with
      | [] => (Ok None, rest)
      | _ => (Err (Stream [L "stream ended mid-frame with "; L (int_to_string (zlen bytes));
                           L " trailing bytes"]), rest)
      end
  end.

Lemma recv_ended rs s :
  eof s = true ->
  exists s', recv_go rs s = (Ready (fst (recv_result (buf s))), s') /\
             wire (snd (recv_result (buf s))) s'.
Proof.
  intros He. unfold recv_result. destruct rs; cbn [recv_go];
  (destruct (decode_envelope (buf s)) as [[[obj|]|e] b] eqn:E; [| |];
   [eexists; split; [done|]; by apply wire_ended| |eexists; split; [done|]; by apply wire_ended];
   apply decode_envelope_None in E as ->; cbn [set_buf eof buf]; rewrite He;
   destruct (buf s) eqn:Hb; eexists; (split; [done|]); by apply wire_ended).
Qed.

Lemma recv_go_spec cs : forall s,
  eof s = false -> reads s = map RdData cs ++ [RdEof] ->
  exists s', recv_go (reads s) s = (Ready (fst (recv_result (buf s ++ concat cs))), s') /\
             wire (snd (recv_result (buf s ++ concat cs))) s'.
Proof.
  induction cs as [|c cs IH]; intros s He Hr.
  - cbn [map app concat] in *. rewrite Hr, app_nil_r. cbn [recv_go].
    destruct (decode_envelope (buf s)) as [[[obj|]|e] b] eqn:E.
    2: { apply decode_envelope_None in E as ->. cbn [set_buf eof]. rewrite He.
         apply (recv_ended [] (set_reads [] (set_eof (set_buf (buf s) s)))). done. }
    all: unfold recv_result; rewrite E; eexists; (split; [done|]).
    all: apply (wire_open _ _ []); [done..|by rewrite app_nil_r].
  - rewrite Hr. cbn [map app concat recv_go].
    destruct (decode_envelope (buf s)) as [[[obj|]|e] b] eqn:E.
    2: { apply decode_envelope_None in E as ->. cbn [set_buf eof]. rewrite He, app_assoc.
         apply (IH (set_reads (map RdData cs ++ [RdEof])
                      (set_buf (buf s ++ c) (set_buf (buf s) s)))); done. }
    all: unfold recv_result; rewrite (decode_envelope_mono _ (c ++ concat cs) _ _ E) by done.
    all: eexists; (split; [done|]); by apply (wire_open _ _ (c :: cs)).
Qed.

(** Reception does not depend on how the bytes arrive: with any split into
    reads, [recv] returns the first frame of the concatenation and leaves
    exactly the bytes after it; it never waits on a stream that has ended. *)
Theorem recv_chunk_independent (bytes : list Byte.byte) (s : IrohRequestStream) :
  wire bytes s ->
  exists s', recv s = (Ready (fst (recv_result bytes)), s') /\ wire (snd (recv_result bytes)) s'.
Proof.
  intros [cs He Hr <-|He <-]; [by apply recv_go_spec|by apply recv_ended].
Qed.

(** ** A whole stream *)

(** Successive [recv] calls that each yield an object. *)
Inductive recvs : IrohRequestStream -> list EnvelopeObject -> IrohRequestStream -> Prop :=
| recvs_nil s : recvs s [] s
| recvs_cons s obj s1 objs s2 :
    recv s = (Ready (Ok (Some obj)), s1) -> recvs s1 objs s2 -> recvs s (obj :: objs) s2.

End recv.

(** ** Properties of the probe *)

(** Once four bytes are there, the start of a frame within the budget is never
    taken for a probe, so a frame the peer sends whole is never discarded. *)
Theorem frame_never_probe (payload : list Byte.byte) (n : nat) :
  zlen payload <= MAX_FRAME_LEN -> (4 <= n)%nat ->
  looks_like_probe (take n (frame_bytes payload)) = false.
Proof.
  intros Hlen Hn. unfold looks_like_probe, frame_bytes.
  assert (take n (u32_le (zlen payload) ++ payload) =
          u32_le (zlen payload) ++ take (n - 4) payload) as ->.
  { rewrite take_app, (take_ge (u32_le _)) by done. done. }
  rewrite zlen_app, zlen_u32_le. pose proof (zlen_nonneg (take (n - 4) payload)).
  rewrite (proj2 (Z.leb_le 4 _)) by lia.
  change 4%nat with (length (u32_le (zlen payload))). rewrite take_app_length.
  rewrite from_u32_le_u32_le
    by (pose proof (zlen_nonneg payload); unfold MAX_FRAME_LEN in *; lia).
  by rewrite (proj2 (Z.leb_le _ MAX_FRAME_LEN)).
Qed.

Lemma frame_never_probe_witness :
  zlen (as_bytes "HELP") <= MAX_FRAME_LEN /\
  looks_like_probe (take 5 (frame_bytes (as_bytes "HELP"))) = false.
Proof.
  split; [done|]. exact (frame_never_probe (as_bytes "HELP") 5 ltac:(done) ltac:(lia)).
Defined.

(** A first read that splits the length prefix can be taken for a probe: the
    bytes read are then dropped, and the rest of a well-formed first frame (65
    bytes, so its prefix begins with a capital A) is refused as oversized. *)
Theorem probe_discards_split_prefix :
  let payload := repeat (Byte.x41) 65 in
  let s := IrohRequestStream_new
             [RdData (take 1 (frame_bytes payload)); RdData (drop 1 (frame_bytes payload)); RdEof]
             [] in
  let '(r, s') := probe_loop (reads s) s in
  r = Ready (Ok tt) /\ sent s' = as_bytes PLAINTEXT_BANNER /\
  decode_frame (buf s') = (Err (FrameTooLarge 0x41000000), buf s').
Proof. by vm_compute. Qed.

(** ** Properties of the handshake and the gate *)

(** The refusal a node sends is the refusal its dialer reports. *)
Theorem refused_roundtrip (code reason : string) :
  exists g, refused_envelope code reason = OGeneric g /\ gn_class g = "Refused" /\
            parse_refused g = (code, reason).
Proof. eexists. split; [done|]. by split. Qed.

Section session.
Context `{!OxDisplay, !F64Text, !Base64, !TurtleParser, !TransportText}.

Lemma hello_incompatibility_None h :
  hello_incompatibility h = None <->
  (hl_envelope_version h = "0" \/ starts_with "0." (hl_envelope_version h) = true) /\
  "turtle" ∈ hl_encodings h.
Proof.
  unfold hello_incompatibility.
  assert (Ht : existsb (fun e => bool_decide (e = "turtle")) (hl_encodings h) = true <->
               "turtle" ∈ hl_encodings h).
  { rewrite existsb_exists. setoid_rewrite bool_decide_eq_true.
    setoid_rewrite <-list_elem_of_In. naive_solver. }
  destruct (starts_with "0." _), (existsb _ _); repeat case_bool_decide; cbn;
    intuition congruence.
Qed.

(** A connection is accepted only after a hello this node can serve, and then
    exactly one of a refusal and this node's hello was sent as the answer. *)
Theorem accept_hello_compatible (my_hello h : Hello) (s s' : IrohRequestStream) :
  accept_hello my_hello s = (Accepted h, s') ->
  (hl_envelope_version h = "0" \/ starts_with "0." (hl_envelope_version h) = true) /\
  "turtle" ∈ hl_encodings h /\
  exists s1 s2 out, recv s1 = (Ready (Ok (Some (OHello h))), s2) /\
                    encode_envelope (OHello my_hello) [] = (Ok tt, out) /\
                    sent s' = sent s2 ++ out /\ finished s' = true.
Proof.
  unfold accept_hello.
  destruct (probe_loop (reads s) s) as [[[[]|]|] s1]; try done.
  destruct (recv s1) as [[[[[]|]|]|] s2] eqn:Er; try done.
  destruct (hello_incompatibility h0) as [[code reason]|] eqn:Eh.
  { by destruct (send _ _). }
  unfold send. destruct (encode_envelope (OHello my_hello) []) as [[[]|e] out] eqn:Ee; [|done].
  unfold write_all. destruct (writes s2) as [|[e|] ws] eqn:Ew; [| |]; intros Ha; simplify_eq/=.
  all: apply hello_incompatibility_None in Eh as [? ?].
  all: split_and!; [done..|]; by exists s1, s2, out.
Qed.

(** The gate in front of the node: what it hands over is the request's first
    frame, never a hello, and a statement only in a modulation this node
    advertises; a frame it stops is answered by one error frame. *)
Theorem route_request_gate (mods : list string) (s s' : IrohRequestStream) (first : EnvelopeObject) :
  route_request mods s = (RouteHandedOver first, s') ->
  recv s = (Ready (Ok (Some first)), s') /\
  match first with
  | OQuery st | OExecute st => exists t, t ∈ mods /\ mod_matches (st_modulation st) t = true
  | OHello _ => False
  | _ => True
  end.
Proof.
  unfold route_request. destruct (recv s) as [[[[o|]|e]|] s1] eqn:Er; intros Hr; simplify_eq.
  destruct (fast_fail mods o) as [err|] eqn:Ef.
  { destruct (send _ _). simplify_eq. }
  simplify_eq. split; [done|].
  destruct first; try done; cbn in Ef; destruct (existsb _ mods) eqn:Ex; try done.
  all: apply existsb_exists in Ex as (t & Ht & Hm); exists t; by rewrite list_elem_of_In.
Qed.

End session.
