(* ===== verification/RoundTrip.v ===== *)
(** * RoundTrip: what is encoded is what is decoded

    The well-formed envelope objects, the object that comes back ([normal]),
    and the theorem that decoding the triples of an object's document gives it;
    with [encoded_text_read] and a conforming Turtle parser, that the wire form
    of an object decodes to the object. *)

From S2P Require Import Prelude RustStd Vocab External Instances Value Envelope Frame Encode Turtle.
From S2P Require Import EncodeSpec Decode DecodeSpec Wire Transport.

Section wellformed.
Context `{!IriSyntax}.

Definition list_ok {A} (xs : list A) : bool := zlen xs <? 1000000.

Definition values_ok (vs : list Value) : bool := list_ok vs && forallb Value_wf vs.

Definition statement_ok (st : Statement) : bool :=
  values_ok (st_params st) && opt_i64 (st_row_limit st) && opt_i64 (st_byte_limit st) &&
  opt_i64 (st_timeout_ms st).

Definition row_ok (row : Row) : bool :=
  is_i64 (row_seq row) &&
  forallb (fun '(name, v) => utf8_valid name && Value_wf v) (row_cells row).

Definition field_ok (f : PointField) : bool :=
  match pf_default f with Some v => Value_wf v | None => true end && values_ok (pf_one_of f).

Definition kind_known (c : string) : bool :=
  bool_decide (c ∈ [cls_EXCITABLE; cls_RADIANT; cls_SYMPATHETIC; cls_RESONANCE_POINT; cls_PROJECTION]).

Definition point_ok (pt : Point) : bool :=
  match pt_kind pt with Other c => negb (kind_known c) | _ => true end &&
  list_ok (pt_coupling pt) && forallb field_ok (pt_coupling pt) && list_ok (pt_params_order pt).

(** What Rust's types and the frame budget guarantee (integer ranges, UTF-8,
    lists that fit a frame), IRIs where IRIs are written, and the conventions
    of the vocabulary: a point of a known class is not [Other], and no two
    points of a projection share an IRI. *)
Definition envelope_ok (obj : EnvelopeObject) : bool :=
  iris_ok obj &&
  match obj with
  | OQuery st | OExecute st => statement_ok st
  | OResult h => list_ok (rh_columns h) && list_ok (rh_decl_types h)
  | ORow rows => negb (bool_decide (rows = [])) && forallb row_ok rows
  | ODone d => opt_i64 (dn_row_count d) && opt_i64 (dn_affected_rows d) &&
               opt_i64 (dn_last_insert_rowid d)
  | OProjection p => list_ok (pj_offers p) && forallb point_ok (pj_offers p) &&
                     bool_decide (NoDup (map pt_iri (pj_offers p)))
  | OGraph _ | OVibration _ | OGeneric _ => false
  | _ => true
  end.

End wellformed.

(** The object that comes back: NULL cells are left out of a row, and a NaN is
    the canonical one. *)
Definition normal_statement (st : Statement) : Statement :=
  mkStatement (st_id st) (st_modulation st) (st_signal st) (map canon (st_params st))
    (st_database st) (st_row_limit st) (st_byte_limit st) (st_timeout_ms st).

Definition normal_cells (cells : list (string * Value)) : list (string * Value) :=
  map (fun '(name, v) => (name, canon v)) (filter (fun '(_, v) => is_null v = false) cells).

Definition normal_row (row : Row) : Row := mkRow (row_seq row) (normal_cells (row_cells row)).

Definition normal_field (f : PointField) : PointField :=
  mkPointField (pf_name f) (pf_datatype f) (pf_required f) (canon <$> pf_default f)
    (map canon (pf_one_of f)) (pf_hint f).

Definition normal_point (pt : Point) : Point :=
  mkPoint (pt_iri pt) (pt_kind pt) (pt_label pt) (pt_comment pt) (pt_icon pt) (pt_role pt)
    (pt_projects pt) (map normal_field (pt_coupling pt)) (pt_modulation pt) (pt_signal pt)
    (pt_params_order pt) (pt_signal_template pt) (pt_fires pt).

Definition normal (obj : EnvelopeObject) : EnvelopeObject :=
  match obj with
  | OQuery st => OQuery (normal_statement st)
  | OExecute st => OExecute (normal_statement st)
  | ORow rows => ORow (map normal_row rows)
  | OProjection p => OProjection (mkProjection (pj_id p) (map normal_point (pj_offers p)))
  | obj => obj
  end.

(** ** Decoding each class *)

Lemma list_ok_bound {A} (xs : list A) : list_ok xs = true -> (length xs < LIST_BOUND)%nat.
Proof. unfold list_ok, zlen, LIST_BOUND. lia. Qed.

Lemma values_ok_spec vs :
  values_ok vs = true -> (length vs < LIST_BOUND)%nat /\ Forall (fun v => Value_wf v = true) vs.
Proof.
  intros [Hl Hv]%andb_prop. split; [by apply list_ok_bound|].
  apply Forall_forall. intros v Hin. eapply forallb_forall; [exact Hv|]. by apply list_elem_of_In.
Qed.

Lemma inert_texts xs : inert (AColl (map str_lit xs)).
Proof. apply inert_coll, Forall_fmap, Forall_true. intros x. apply inert_lit. Qed.

Ltac plain :=
  repeat first [apply plain_app|apply plain_one|apply plain_opt|apply plain_many|apply plain_list];
  try (intros; first [apply inert_lit|apply inert_iri|apply inert_value|apply inert_texts]); try done.

Ltac not_special := rewrite !elem_of_cons, elem_of_nil; naive_solver.

(** The values of one predicate in a property list made of pieces. *)
Lemma values_app p a b : values_p p (a ++ b) = values_p p a ++ values_p p b.
Proof. unfold values_p. by rewrite filter_app, map_app. Qed.

Lemma values_one p q a : values_p p (p_one q a) = if (q =? p)%string then [a] else [].
Proof.
  unfold values_p, p_one. destruct (String.eqb_spec q p) as [->|Hne];
    [by rewrite filter_cons_True|by rewrite filter_cons_False].
Qed.

Lemma values_opt {A} p q (f : A -> ast) o :
  values_p p (p_opt q f o) =
  if (q =? p)%string then match o with Some a => [f a] | None => [] end else [].
Proof. destruct o; [apply values_one|]. by destruct (q =? p)%string. Qed.

Lemma values_many p q vs :
  values_p p (p_many q vs) = if (q =? p)%string then map str_lit vs else [].
Proof.
  unfold values_p, p_many. destruct (String.eqb_spec q p) as [->|Hne];
    induction vs as [|v vs IH]; cbn [map]; try done.
  - rewrite filter_cons_True by done. cbn. by rewrite IH.
  - by rewrite filter_cons_False.
Qed.

Ltac values :=
  unfold typed, p_text;
  repeat first [rewrite values_app|rewrite values_one|rewrite values_opt|rewrite values_many];
  eval_eqb; cbn [app]; rewrite ?app_nil_r; try done.

Section decode.
Context `{!IriSyntax, !OxDisplay, !F64Text, !F64TextLaws, !Base64, !Base64Laws} (doc : list Triple).

(** Reads one property of the node of hypothesis [H]. *)
Ltac need H p v :=
  rewrite (need_text_has doc str_lit _ _ p v H) by (apply writes_str || by lookups); cbn [rbind].
Ltac opt H p o :=
  rewrite (text_has doc str_lit _ _ p o H) by (apply writes_str || by lookups); cbn [rbind].
Ltac opt_date H p o :=
  rewrite (text_has doc date_lit _ _ p o H) by (apply writes_date || by lookups); cbn [rbind].
Ltac num H p o := rewrite (int_has doc _ _ p o H) by (by lookups || done); cbn [rbind].
Ltac many H p vs := rewrite (texts_has doc _ _ p vs H) by by values; cbn [rbind].

Lemma read_statement_has s c st :
  node_has doc s (typed c (statement_props st)) -> statement_ok st = true ->
  read_statement doc s = Ok (normal_statement st).
Proof.
  intros Hs Hst. unfold statement_ok in Hst. rewrite !andb_true_iff in Hst.
  destruct Hst as [[[Hv Hi1] Hi2] Hi3]. apply values_ok_spec in Hv as [Hl Hv].
  unfold read_statement, statement_props in *.
  need Hs prop_ID (st_id st). need Hs prop_MOD (st_modulation st).
  need Hs prop_SIGNAL (st_signal st).
  rewrite (value_list_has doc _ _ prop_PARAMS (st_params st) Hs) by (by lookups || done).
  cbn [rbind]. opt Hs prop_DATABASE (st_database st). num Hs prop_ROW_LIMIT (st_row_limit st).
  num Hs prop_BYTE_LIMIT (st_byte_limit st). num Hs prop_TIMEOUT_MS (st_timeout_ms st). done.
Qed.

Ltac one_class class Hr s Hs :=
  lazymatch type of Hr with represents _ [anon_stmt _ ?ps] =>
  destruct (decode_one doc class ps Hr) as (s & Hs & ->);
    [unfold statement_props, p_text; plain|rewrite !elem_of_cons, elem_of_nil; naive_solver|];
  unfold decode_single; repeat rewrite (bool_decide_false (class = _)) by done;
  rewrite (bool_decide_true (class = _)) by done end.

Lemma singleton_inj {A} (x y : A) : [x] = [y] -> x = y.
Proof. congruence. Qed.

(** What decoding returns on the document of an object of one statement. *)
Lemma decode_single_object obj st :
  stmts_of obj = Some [st] -> (forall rows, obj <> ORow rows) -> (forall p, obj <> OProjection p) ->
  represents doc [st] -> envelope_ok obj = true -> decode doc = Ok (normal obj).
Proof.
  intros Hst Hrow Hproj Hr [_ Hok]%andb_prop.
  destruct obj as [q|q|h|rows|d|d|e|h|k|p|d|h|m|d|p|e|v|d|g|g]; try discriminate Hst;
    try (by destruct (Hrow rows)); try (by destruct (Hproj p));
    apply (inj Some), singleton_inj in Hst; subst st; cbn [normal].
  - one_class "Query" Hr s Hs. by rewrite (read_statement_has s cls_QUERY q).
  - one_class "Execute" Hr s Hs. by rewrite (read_statement_has s cls_EXECUTE q).
  - one_class "Result" Hr s Hs. apply andb_prop in Hok as [Hc Hd].
    need Hs prop_ID (rh_id h).
    rewrite (text_list_has doc id _ _ prop_COLUMN (rh_columns h) Hs);
      [|right; by lookups|by apply list_ok_bound]. cbn [rbind].
    rewrite (text_list_has doc id _ _ prop_DECL_TYPE (rh_decl_types h) Hs);
      [|left; by lookups|by apply list_ok_bound]. cbn [rbind]. rewrite !map_id. by destruct h.
  - one_class "Done" Hr s Hs. rewrite !andb_true_iff in Hok. destruct Hok as [[Hi1 Hi2] Hi3].
    need Hs prop_ID (dn_id d). num Hs prop_ROW_COUNT (dn_row_count d).
    num Hs prop_AFFECTED_ROWS (dn_affected_rows d).
    num Hs prop_LAST_INSERT_ROWID (dn_last_insert_rowid d).
    rewrite (bool_has doc _ _ prop_TRUNCATED (dn_truncated d) Hs) by by lookups. by destruct d.
  - one_class "Denied" Hr s Hs. opt Hs prop_ID (dd_id d). opt Hs prop_REASON (dd_reason d).
    by destruct d.
  - one_class "Error" Hr s Hs. opt Hs prop_ID (er_id e). need Hs prop_CODE (er_code e).
    opt Hs prop_REASON (er_reason e). by destruct e.
  - one_class "Hello" Hr s Hs. need Hs prop_VER (hl_envelope_version h).
    many Hs prop_ENC (hl_encodings h). many Hs prop_MODS (hl_mods h).
    opt Hs prop_HINT (hl_hint h). by destruct h.
  - one_class "Knock" Hr s Hs. opt Hs prop_ID (kn_id k). need Hs prop_MESSAGE (kn_message k).
    by destruct k.
  - one_class "Presence" Hr s Hs.
    rewrite (need_text_has doc date_lit _ _ prop_AT (pr_at p) Hs) by (apply writes_date || by lookups).
    cbn [rbind]. opt Hs prop_STATUS (pr_status p). opt Hs prop_ENDPOINT (pr_endpoint p).
    by destruct p.
  - one_class "Decision" Hr s Hs. opt Hs prop_ID (dc_id d). need Hs prop_DECISION (dc_decision d).
    need Hs prop_DECIDED_BY (dc_decided_by d). opt Hs prop_REASON (dc_reason d).
    opt_date Hs prop_AT (dc_at d). by destruct d.
  - one_class "Help" Hr s Hs. opt Hs prop_ID (hp_id h). need Hs prop_SIGNAL (hp_signal h).
    many Hs prop_TOPIC (hp_topics h). by destruct h.
  - one_class "Media" Hr s Hs. need Hs prop_ID (md_id m). need Hs prop_CONTENT_TYPE (md_content_type m).
    by destruct m.
  - one_class "AudioDuplex" Hr s Hs. need Hs prop_ID (ad_id d).
    opt Hs prop_CONTENT_TYPE (ad_content_type d). need Hs prop_ACCEPTS (ad_accepts d). by destruct d.
  - one_class "Entrain" Hr s Hs. need Hs prop_ID (en_id e).
    rewrite (need_iri_has doc _ _ prop_POINT (en_point e) Hs) by by lookups. by destruct e.
  - one_class "Damp" Hr s Hs. opt Hs prop_ID (dm_id d).
    rewrite (need_iri_has doc _ _ prop_POINT (dm_point d) Hs) by by lookups. by destruct d.
Qed.

(** *** Rows *)

Lemma col_predicate name :
  let p := RSNTR_NS +:+ COL_PREFIX +:+ encode_column_name name in
  p <> RDF_TYPE /\ p <> prop_SEQ /\
  strip_prefix RSNTR_NS p ≫= strip_prefix COL_PREFIX = Some (encode_column_name name).
Proof.
  intros p. assert (Hp : strip_prefix RSNTR_NS p ≫= strip_prefix COL_PREFIX =
                         Some (encode_column_name name))
    by (unfold p; rewrite strip_prefix_app; cbn [mbind option_bind]; apply strip_prefix_app).
  split_and!; [..|done]; intros Heq; by rewrite Heq in Hp.
Qed.

Lemma read_cells_has cells : forall seq acc os l,
  matches_all doc (map snd (concat (map cell_props cells))) os l ->
  Forall (fun '(name, v) => utf8_valid name = true /\ Value_wf v = true) cells ->
  read_row_go doc seq acc (zip (map fst (concat (map cell_props cells))) os) =
  Ok (seq, acc ++ normal_cells cells).
Proof.
  induction cells as [|[name v] cells IH]; intros seq acc os l Hm Hok; cbn [map concat] in *.
  { by rewrite app_nil_r. }
  apply Forall_cons in Hok as [[Hname Hv] Hok]. unfold cell_props at 1 in Hm.
  unfold cell_props at 1. cbn [fst snd] in *. unfold normal_cells.
  destruct (is_null v) eqn:Hnull.
  - rewrite filter_cons_False by (by rewrite Hnull). by apply (IH seq acc os l).
  - rewrite filter_cons_True by done. cbn [app map fst snd] in *.
    inversion Hm as [|? ? tm tms l1 l2 Ha Hrest]; subst. cbn [zip zip_with read_row_go].
    destruct (col_predicate name) as (Ht & Hs & Hstrip).
    rewrite !bool_decide_false by done. rewrite Hstrip, column_name_roundtrip by done.
    cbn [rbind]. rewrite (value_of_matches doc v tm l1) by done. cbn [rbind].
    rewrite (IH _ _ _ _ Hrest Hok). by rewrite <-app_assoc.
Qed.

Lemma read_row_has s row :
  node_has doc s (typed cls_ROW (row_props row)) -> row_ok row = true ->
  read_row doc s = Ok (normal_row row).
Proof.
  intros (os & l & Habout & Hm) [Hseq Hcells]%andb_prop. unfold read_row.
  change (pairs doc s) with (about doc s). rewrite Habout. clear Habout.
  unfold typed, p_one, row_props in *. cbn [app map fst snd] in *.
  inversion Hm as [|? ? tm tms l1 l2 Ha Hm']; subst.
  inversion Hm' as [|? ? tm' tms' l3 l4 Hn Hrest]; subst. apply matches_lit in Hn as ->.
  cbn [zip zip_with read_row_go]. rewrite (bool_decide_true (RDF_TYPE = RDF_TYPE)) by done.
  rewrite (bool_decide_false (prop_SEQ = RDF_TYPE)), (bool_decide_true (prop_SEQ = prop_SEQ)) by done.
  cbn [lit_value]. rewrite parse_integer_print by done. cbn [rbind].
  rewrite (read_cells_has (row_cells row) _ [] _ _ Hrest); [done|].
  apply Forall_forall. intros [name v] Hin.
  eapply andb_prop, (proj1 (forallb_forall _ _) Hcells (name, v)). by apply list_elem_of_In.
Qed.

Lemma scan_rows ss : forall typed,
  NoDup (map fst typed ++ ss) ->
  foldl scan_step (typed, None) (zip_with type_triple ss (map (fun _ => cls_ROW) ss)) =
  (typed ++ map (fun s => (s, "Row")) ss, None).
Proof.
  induction ss as [|s ss IH]; intros typed Hnd; cbn [map zip_with foldl].
  { by rewrite app_nil_r. }
  cbn [scan_step type_triple predicate object subject].
  rewrite bool_decide_true by done. cbn [negb].
  change (strip_prefix RSNTR_NS cls_ROW) with (Some "Row"). cbn match. rewrite bool_decide_false by done.
  assert (existsb (fun '(s', _) => bool_decide (s' = s)) typed = false) as ->.
  { apply not_true_iff_false. rewrite existsb_exists. intros ([s' c] & Hin & ->%bool_decide_eq_true).
    apply NoDup_app in Hnd as (_ & Hnd & _). apply (Hnd s); [|left].
    apply list_elem_of_fmap. exists (s, c). split; [done|]. by apply list_elem_of_In. }
  rewrite IH; [by rewrite <-app_assoc|]. rewrite map_app. cbn [map fst]. by rewrite <-app_assoc.
Qed.

Lemma traverse_rows rows ss :
  Forall2 (fun row s => node_has doc s (typed cls_ROW (row_props row))) rows ss ->
  Forall (fun row => row_ok row = true) rows ->
  traverse (fun '(s, _) => read_row doc s) (map (fun s => (s, "Row")) ss) =
  Ok (map normal_row rows).
Proof.
  induction 1 as [|row s rows ss Hs _ IH]; [done|]. intros [Hrow Hok]%Forall_cons.
  cbn [map traverse]. rewrite (read_row_has s row) by done. cbn [rbind]. by rewrite IH.
Qed.

Lemma decode_rows_object rows :
  represents doc (map (fun row => anon_stmt cls_ROW (row_props row)) rows) ->
  rows <> [] -> forallb row_ok rows = true -> decode doc = Ok (ORow (map normal_row rows)).
Proof.
  intros Hr Hne Hok.
  destruct (scan_represents doc _ (map (fun _ => cls_ROW) rows) Hr) as (ss & Hscan & Hnd & Hn & Hlen).
  { apply Forall2_fmap, Forall_Forall2_diag, Forall_true. intros row. exists (row_props row).
    split; [done|]. unfold row_props. constructor; [split; [done|apply inert_lit]|].
    apply Forall_concat, Forall_fmap, Forall_true. intros [name v]. unfold cell_props. cbn.
    destruct (is_null v); [constructor|]. constructor; [|constructor].
    split; [apply (col_predicate name)|apply inert_value]. }
  assert (Hcs : map (fun _ : Row => cls_ROW) rows = map (fun _ => cls_ROW) ss).
  { rewrite length_map in Hlen. clear -Hlen. revert ss Hlen.
    induction rows; intros [|]; cbn; intros; try done. f_equal; auto. }
  rewrite Hcs in Hscan. rewrite (scan_rows ss []) in Hscan by done. cbn [app] in Hscan.
  unfold decode. rewrite Hscan. cbn beta iota. rewrite bool_decide_false by (by destruct ss, rows).
  assert (forallb (fun '(_, c) => bool_decide (c = "Row")) (map (fun s => (s, "Row")) ss) = true) as ->
    by (clear; induction ss; [done|cbn; done]).
  rewrite (traverse_rows rows ss); [done|by apply Forall2_fmap_l in Hn; eapply Forall2_impl;
    [exact Hn|intros row s []]|].
  apply Forall_forall. intros row Hin. apply (proj1 (forallb_forall _ _) Hok).
  by apply list_elem_of_In.
Qed.

(** *** Points *)

Lemma matches_bnode ps tm l :
  matches doc (ABnode ps) tm l -> exists b, tm = TBlank b /\ node_has doc (BNode b) ps.
Proof. inversion 1 as [| | | |b ps' os l' Ha Hm]; subst. exists b. split; [done|]. by exists os, l'. Qed.

Lemma opt_value_has s ps p o :
  node_has doc s ps -> lookup_p p ps = ast_of_value <$> o ->
  (forall v, o = Some v -> Value_wf v = true) ->
  traverse_opt (value_of doc) (one doc s p) = Ok (canon <$> o).
Proof.
  intros Hs Hp Ho. destruct o as [v|]; cbn in Hp.
  - destruct (one_some _ _ _ _ _ Hs Hp) as (tm & l & -> & Hm). cbn.
    by rewrite (value_of_matches doc v tm l) by auto.
  - by rewrite (one_none _ _ _ _ Hs Hp).
Qed.

Lemma read_field_has f tm l :
  matches doc (ast_of_field f) tm l -> field_ok f = true -> read_field doc tm = Ok (normal_field f).
Proof.
  intros (b & -> & Hs)%matches_bnode [Hd Hone]%andb_prop. apply values_ok_spec in Hone as [Hl Hv].
  unfold read_field. cbn [as_node rbind].
  assert (Hdef : lookup_p prop_DEFAULT
    (p_text prop_NAME (pf_name f) ++ p_opt prop_DATATYPE AIri (pf_datatype f) ++
     (if pf_required f then [(prop_REQUIRED, bool_lit true)] else []) ++
     p_opt prop_DEFAULT ast_of_value (pf_default f) ++
     p_list prop_ONE_OF ast_of_value (pf_one_of f) ++ p_opt prop_HINT str_lit (pf_hint f)) =
    ast_of_value <$> pf_default f) by (destruct (pf_required f); by lookups).
  rewrite (opt_value_has _ _ _ _ Hs Hdef) by (intros v Hv'; by rewrite Hv' in Hd).
  cbn [rbind]. clear Hdef.
  destruct (pf_required f) eqn:Hreq; need Hs prop_NAME (pf_name f);
    rewrite (iri_has doc _ _ prop_DATATYPE (pf_datatype f) Hs) by (by lookups); cbn [rbind].
  - rewrite (bool_has doc _ _ prop_REQUIRED true Hs) by by lookups. cbn [rbind].
    rewrite (value_list_has doc _ _ prop_ONE_OF (pf_one_of f) Hs) by (by lookups || done).
    cbn [rbind]. opt Hs prop_HINT (pf_hint f). unfold normal_field. by rewrite Hreq.
  - rewrite (bool_none doc _ _ prop_REQUIRED Hs) by by lookups. cbn [rbind].
    rewrite (value_list_has doc _ _ prop_ONE_OF (pf_one_of f) Hs) by (by lookups || done).
    cbn [rbind]. opt Hs prop_HINT (pf_hint f). unfold normal_field. by rewrite Hreq.
Qed.

Lemma lookup_coupling p fields :
  lookup_p p (coupling_props fields) =
  if (prop_COUPLING =? p)%string
  then match fields with
       | [] => None
       | _ => Some (ABnode [(prop_FIELD, AColl (map ast_of_field fields))])
       end
  else None.
Proof. destruct fields; cbn [coupling_props lookup_p]; by destruct (_ =? _)%string. Qed.

Ltac plookups := unfold point_props; lookups; rewrite ?lookup_coupling; lookups.
Ltac popt H p o :=
  rewrite (text_has doc str_lit _ _ p o H) by (apply writes_str || by plookups); cbn [rbind].

Lemma read_coupling_has s ps fields :
  node_has doc s ps ->
  lookup_p prop_COUPLING ps =
    match fields with
    | [] => None
    | _ => Some (ABnode [(prop_FIELD, AColl (map ast_of_field fields))])
    end ->
  list_ok fields = true -> forallb field_ok fields = true ->
  match one doc s prop_COUPLING with
  | None => Ok []
  | Some t => read_coupling doc t
  end = Ok (map normal_field fields).
Proof.
  intros Hs Hp Hl Hok. destruct fields as [|f fields].
  { by rewrite (one_none _ _ _ _ Hs Hp). }
  destruct (one_some _ _ _ _ _ Hs Hp) as (tm & l & -> & Hm).
  apply matches_bnode in Hm as (b & -> & Hb). unfold read_coupling. cbn [as_node rbind].
  destruct (one_some doc _ _ prop_FIELD (AColl (map ast_of_field (f :: fields))) Hb)
    as (tm & l' & -> & Hm); [by lookups|].
  apply rdf_list_matches in Hm as (tms & l'' & -> & Hall);
    [|rewrite length_map; by apply list_ok_bound].
  cbn [rbind]. eapply (traverse_matches doc ast_of_field); [done|].
  intros x t k Hx Ht. eapply read_field_has; [done|].
  apply (proj1 (forallb_forall _ _) Hok). by apply list_elem_of_In.
Qed.

Lemma read_point_has pt :
  node_has doc (NNode (pt_iri pt)) (s_props (point_stmt pt)) -> point_ok pt = true ->
  read_point doc (pt_iri pt) = Ok (normal_point pt).
Proof.
  unfold point_stmt. cbn [s_props]. intros Hs Hok. unfold point_ok in Hok.
  rewrite !andb_true_iff in Hok. destruct Hok as [[[Hk Hl] Hf] Ho].
  unfold read_point.
  destruct (one_some doc _ _ RDF_TYPE (AIri (kind_class (pt_kind pt))) Hs) as (tm & l & -> & Hm);
    [done|]. apply matches_iri in Hm as ->.
  assert (point_kind_of (Some (TNamed (kind_class (pt_kind pt)))) = Ok (pt_kind pt)) as ->.
  { destruct (pt_kind pt) as [| | | |c]; try done. cbn [kind_class point_kind_of].
    apply negb_true_iff, bool_decide_eq_false in Hk. rewrite !elem_of_cons in Hk.
    rewrite !bool_decide_false by naive_solver. done. }
  cbn [rbind]. rewrite (read_coupling_has _ _ (pt_coupling pt) Hs) by (done || by plookups).
  cbn [rbind]. popt Hs RDFS_LABEL (pt_label pt). popt Hs RDFS_COMMENT (pt_comment pt).
  popt Hs prop_ICON (pt_icon pt). popt Hs prop_ROLE (pt_role pt).
  popt Hs prop_PROJECTS (pt_projects pt). popt Hs prop_MOD (pt_modulation pt).
  popt Hs prop_SIGNAL (pt_signal pt).
  rewrite (text_list_has doc id _ _ prop_PARAMS_ORDER (pt_params_order pt) Hs);
    [|left; by plookups|by apply list_ok_bound]. cbn [rbind].
  popt Hs prop_SIGNAL_TEMPLATE (pt_signal_template pt). popt Hs prop_FIRES (pt_fires pt).
  by rewrite map_id.
Qed.

(** *** Projections *)

(** Points never look like a second envelope object to the scan. *)
Lemma scan_points ss : forall cs typed alien,
  Forall (fun c => c <> cls_PROJECTION) cs ->
  exists extra alien', foldl scan_step (typed, alien) (zip_with type_triple ss cs) =
                       (typed ++ extra, alien') /\
                       Forall (fun '(_, c) => c <> "Projection") extra.
Proof.
  induction ss as [|s ss IH]; intros [|c cs] typed alien Hcs; cbn [zip_with foldl];
    try (by exists [], alien; rewrite app_nil_r).
  apply Forall_cons in Hcs as [Hc Hcs].
  cbn [scan_step type_triple predicate object subject]. rewrite bool_decide_true by done.
  cbn [negb]. destruct (strip_prefix RSNTR_NS c) as [local|] eqn:Hlocal; [|by apply IH].
  case_bool_decide; [by apply IH|]. destruct (existsb _ typed); [by apply IH|].
  destruct (IH cs (typed ++ [(s, local)]) alien Hcs) as (extra & alien' & -> & Hx).
  exists ((s, local) :: extra), alien'. rewrite <-app_assoc. split; [done|]. constructor; [|done].
  intros ->. apply Hc. by apply strip_prefix_Some in Hlocal.
Qed.

Lemma plain_point_props pt : plain_props (point_props pt).
Proof.
  unfold point_props. plain. unfold coupling_props.
  destruct (pt_coupling pt) as [|f fs]; constructor; [|constructor]. split; [done|].
  apply inert_bnode, inert_prop_plain; [done|].
  apply inert_coll, Forall_fmap, Forall_true, inert_field.
Qed.

Lemma traverse_offers pts tms l ss :
  matches_all doc (map (fun pt => AIri (pt_iri pt)) pts) tms l ->
  Forall2 (fun pt s => node_has doc s (s_props (point_stmt pt)) /\ subject_of (point_stmt pt) s)
    pts ss ->
  Forall (fun pt => point_ok pt = true) pts ->
  traverse (read_offer doc) tms = Ok (map normal_point pts).
Proof.
  intros Hm Hss Hok. revert tms l Hm Hok.
  induction Hss as [|pt s pts ss [Hn ->] _ IH]; intros tms l Hm Hok; cbn [map] in *;
    inversion Hm as [|? ? tm tms' l1 l2 Ha Hrest]; subst; [done|].
  apply Forall_cons in Hok as [Hpt Hok]. apply matches_iri in Ha as ->.
  cbn [traverse read_offer]. rewrite read_point_has by done. cbn [rbind]. by rewrite (IH _ _ Hrest).
Qed.

Lemma decode_projection_object p sts :
  stmts_of (OProjection p) = Some sts -> represents doc sts ->
  list_ok (pj_offers p) = true -> forallb point_ok (pj_offers p) = true ->
  decode doc = Ok (normal (OProjection p)).
Proof.
  intros Hsts Hr Hl Hok. cbn [stmts_of] in Hsts. apply (inj Some) in Hsts. subst sts.
  assert (Hpts : Forall (fun pt => point_ok pt = true) (pj_offers p)).
  { apply Forall_forall. intros pt Hin. apply (proj1 (forallb_forall _ _) Hok).
    by apply list_elem_of_In. }
  destruct (scan_represents doc _
    (cls_PROJECTION :: map (fun pt => kind_class (pt_kind pt)) (pj_offers p)) Hr)
    as (ss & Hscan & _ & Hn & _).
  { constructor; [eexists; split; [reflexivity|]; plain|].
    apply Forall2_fmap, Forall_Forall2_diag, Forall_true. intros pt.
    exists (point_props pt). split; [done|apply plain_point_props]. }
  destruct ss as [|s ss]; [by apply Forall2_length in Hn|].
  apply Forall2_cons in Hn as [[Hs _] Hn]. apply Forall2_fmap_l in Hn.
  cbn [zip_with foldl scan_step type_triple predicate object subject existsb app] in Hscan.
  rewrite bool_decide_true in Hscan by done. cbn [negb] in Hscan.
  change (strip_prefix RSNTR_NS cls_PROJECTION) with (Some "Projection") in Hscan.
  cbn match in Hscan. rewrite bool_decide_false in Hscan by done.
  edestruct (scan_points ss (map (fun pt => kind_class (pt_kind pt)) (pj_offers p))
               [(s, "Projection")] None) as (extra & alien & Hx & Hextra).
  { apply Forall_fmap. eapply Forall_impl; [exact Hpts|]. intros pt Hpt. cbn.
    unfold point_ok in Hpt. rewrite !andb_true_iff in Hpt. destruct Hpt as [[[Hk _] _] _].
    destruct (pt_kind pt) as [| | | |c]; try done. cbn.
    apply negb_true_iff, bool_decide_eq_false in Hk. rewrite !elem_of_cons in Hk. naive_solver. }
  rewrite Hx in Hscan. unfold decode. rewrite Hscan. cbn beta iota.
  rewrite bool_decide_false by done. cbn [app forallb]. rewrite bool_decide_false by done.
  assert (only ((s, "Projection") :: extra) "Projection" = Ok (Some s)) as ->.
  { unfold only. rewrite filter_cons_True, filter_none; [done| |done].
    eapply Forall_impl; [exact Hextra|]. by intros [? ?]. }
  cbn [andb rbind]. unfold read_projection, anon_stmt in *. cbn [s_props] in Hs.
  opt Hs prop_ID (pj_id p).
  assert (Hoffers : match one doc s prop_OFFERS with
                    | None => Ok []
                    | Some head => let? items := rdf_list doc head in traverse (read_offer doc) items
                    end = Ok (map normal_point (pj_offers p))).
  { destruct (pj_offers p) as [|pt pts].
    - by rewrite (one_none _ _ _ prop_OFFERS Hs) by by lookups.
    - destruct (one_some _ _ _ prop_OFFERS
        (AColl (map (fun pt => AIri (pt_iri pt)) (pt :: pts))) Hs) as (tm & l & -> & Hm); [by lookups|].
      apply rdf_list_matches in Hm as (tms & l' & -> & Hall);
        [|rewrite length_map; by apply list_ok_bound].
      cbn [rbind]. by eapply traverse_offers. }
  rewrite Hoffers. done.
Qed.

(** Decoding inverts encoding at the level of triples: any list of triples
    that represents the document of a well-formed object, with whatever blank
    node labels and interleaving the parser chose, decodes to the object. *)
Theorem decode_represents (obj : EnvelopeObject) (sts : list stmt) :
  stmts_of obj = Some sts -> envelope_ok obj = true -> represents doc sts ->
  decode doc = Ok (normal obj).
Proof.
  intros Hsts Hok Hr. pose proof Hok as Hok'. unfold envelope_ok in Hok'.
  apply andb_prop in Hok' as [_ Hok'].
  destruct obj as [q|q| |rows| | | | | | | | | | |p| | | | |]; try done.
  4: { apply andb_prop in Hok' as [Hne Hrows]. apply negb_true_iff, bool_decide_eq_false in Hne.
       cbn [stmts_of] in Hsts. apply (inj Some) in Hsts. subst sts.
       by apply decode_rows_object. }
  14: { rewrite !andb_true_iff in Hok'. destruct Hok' as [[Hl Hp] _].
        by eapply decode_projection_object. }
  all: destruct sts as [|st [|]]; try discriminate Hsts; by apply (decode_single_object _ st).
Qed.

End decode.

(** ** The wire *)

Section wire.
Context `{!IriSyntax, !OxDisplay, !F64Text, !F64TextLaws, !Base64, !Base64Laws}.
Context `{!TurtleParser, !TurtleParserLaws}.

(** The parser conforms to the grammar on a text: if it is a document, its
    triples represent it. *)
Definition conforms_on (text : string) : Prop :=
  forall sts, read text = Some sts -> NoDup (omap s_subj sts) ->
  exists doc, tp_doc (as_bytes text) = (doc, None) /\ represents doc sts.

Lemma from_turtle_doc text : from_turtle text = decode_doc (as_bytes text).
Proof. rewrite from_turtle_chunks, parse_chunks_spec. cbn [concat]. by rewrite app_nil_r. Qed.

Lemma envelope_ok_encodes obj :
  envelope_ok obj = true -> exists sts text, stmts_of obj = Some sts /\ to_turtle obj = Ok text.
Proof.
  unfold envelope_ok. intros [_ Hok]%andb_prop.
  destruct obj as [| | |[|]| | | | | | | | | | | | | | | |]; try done; by eexists _, _.
Qed.

Lemma point_subjects pts : omap s_subj (map point_stmt pts) = map pt_iri pts.
Proof. induction pts as [|pt pts IH]; [done|]. cbn. by rewrite IH. Qed.

Lemma envelope_ok_subjects obj sts :
  envelope_ok obj = true -> stmts_of obj = Some sts -> NoDup (omap s_subj sts).
Proof.
  unfold envelope_ok. intros [_ Hok]%andb_prop Hsts.
  destruct obj as [| | |rows| | | | | | | | | | |p| | | | |]; try done;
    apply (inj Some) in Hsts; subst sts; try apply NoDup_nil_2.
  - assert (omap s_subj (map (fun row => anon_stmt cls_ROW (row_props row)) rows) = []) as ->
      by (clear; induction rows; done). apply NoDup_nil_2.
  - rewrite !andb_true_iff in Hok. destruct Hok as [_ Hnd%bool_decide_eq_true].
    cbn [omap list_omap anon_stmt s_subj]. by rewrite point_subjects.
Qed.

Lemma envelope_ok_text (obj : EnvelopeObject) :
  envelope_ok obj = true ->
  exists text, to_turtle obj = Ok text /\
               (conforms_on text -> from_turtle text = Ok (normal obj)).
Proof.
  intros Hok. destruct (envelope_ok_encodes obj Hok) as (sts & text & Hsts & Htext).
  exists text. split; [done|]. intros Hconf.
  assert (Hread : read text = Some sts).
  { eapply encoded_text_read; [done| |done]. unfold envelope_ok in Hok.
    by apply andb_prop in Hok as [? _]. }
  destruct (Hconf sts Hread) as (doc & Hdoc & Hr); [by eapply envelope_ok_subjects|].
  rewrite from_turtle_doc. unfold decode_doc. rewrite Hdoc. by eapply decode_represents.
Qed.

(** C1. The wire codec is lossless: the text of a well-formed envelope object
    parses back to that object. *)
Theorem envelope_roundtrip (obj : EnvelopeObject) :
  envelope_ok obj = true ->
  exists text, to_turtle obj = Ok text /\
               (conforms_on text -> from_turtle text = Ok (normal obj)).
Proof. exact (envelope_ok_text obj). Qed.

(** A text Rust can hold and the parser reads by the grammar. *)
Definition text_ok (obj : EnvelopeObject) : Prop :=
  forall text, to_turtle obj = Ok text -> utf8_valid text = true /\ conforms_on text.

Lemma encode_envelope_frame obj dst dst' :
  envelope_ok obj = true -> text_ok obj -> encode_envelope obj dst = (Ok tt, dst') ->
  exists fr, dst' = dst ++ fr /\
             forall rest, decode_envelope (fr ++ rest) = (Ok (Some (normal obj)), rest).
Proof.
  intros Hok Htext Henc. destruct (envelope_ok_text obj Hok) as (text & Ht & Hrt).
  destruct (Htext text Ht) as [Hutf Hconf]. unfold encode_envelope in Henc. rewrite Ht in Henc.
  unfold encode_frame in Henc. case_match; simplify_eq.
  exists (frame_bytes (as_bytes text)). split; [done|]. intros rest.
  rewrite decode_envelope_spec, decode_frame_complete, from_utf8_as_bytes by (done || lia).
  cbn. by rewrite Hrt.
Qed.

(** Frames sent one after another. *)
Fixpoint encode_all (objs : list EnvelopeObject) (dst : list Byte.byte) : option (list Byte.byte) :=
  match objs with
  | [] => Some dst
  | obj :: objs' => match encode_envelope obj dst with
                    | (Ok _, dst') => encode_all objs' dst'
                    | (Err _, _) => None
                    end
  end.

(** C2. End to end: whatever the peer encodes and however the network cuts it,
    successive [recv] calls yield exactly the objects sent, in order, and then
    the clean end of the stream. *)
Theorem stream_roundtrip (objs : list EnvelopeObject) (bytes : list Byte.byte)
    (s : IrohRequestStream) :
  Forall (fun obj => envelope_ok obj = true /\ text_ok obj) objs ->
  encode_all objs [] = Some bytes -> wire bytes s ->
  exists s1 s2, recvs s (map normal objs) s1 /\ recv s1 = (Ready (Ok None), s2).
Proof.
  intros Hobjs Henc.
  assert (Hgen : forall dst bytes, encode_all objs dst = Some bytes ->
    exists out, bytes = dst ++ out /\ forall s, wire out s ->
      exists s1 s2, recvs s (map normal objs) s1 /\ recv s1 = (Ready (Ok None), s2)).
  { clear bytes s Henc. induction Hobjs as [|obj objs [Hok Htext] _ IH]; intros dst bytes Henc;
      cbn [encode_all map] in *.
    - injection Henc as <-. exists []. rewrite app_nil_r. split; [done|]. intros s Hs.
      destruct (recv_chunk_independent [] s Hs) as (s2 & Hr & _). exists s, s2.
      split; [constructor|done].
    - destruct (encode_envelope obj dst) as [[[]|e] dst'] eqn:E; [|done].
      apply encode_envelope_frame in E as (fr & -> & Hdec); [|done..].
      destruct (IH _ _ Henc) as (out & -> & Hout). exists (fr ++ out).
      split; [by rewrite app_assoc|]. intros s Hs.
      destruct (recv_chunk_independent _ s Hs) as (s1 & Hr & Hw).
      unfold recv_result in Hr, Hw. rewrite Hdec in Hr, Hw. cbn in Hr, Hw.
      destruct (Hout s1 Hw) as (s2 & s3 & Hrs & Hend). exists s2, s3.
      split; [by econstructor|done]. }
  destruct (Hgen [] bytes Henc) as (out & -> & Hout). intros Hs. by apply Hout.
Qed.

End wire.
