(* ===== verification/TurtleParse.v ===== *)
(** * TurtleParse: an executable parser that conforms

    A Turtle parser made of the reader of [Turtle] and a generator of triples,
    with the interface the code uses ([TurtleParser]). It satisfies every law
    the development asks of the external parser, so those laws can hold
    together, and the theorems that use them can be run on concrete inputs. It
    models no code of the repository. *)

From S2P Require Import Prelude RustStd Vocab External Instances Value Envelope Frame Encode Turtle EncodeSpec.
From S2P Require Import Decode DecodeSpec Wire Transport RoundTrip.

(** ** Triples of a document *)

Fixpoint lab (n : nat) : string :=
  match n with O => "" | S n => String "b" (lab n) end.

Fixpoint gen (a : ast) (n : nat) : Term * list Triple * nat :=
  match a with
  | ALit l => (TLit l, [], n)
  | AIri i => (TNamed i, [], n)
  | AColl xs =>
      (fix go xs n :=
         match xs with
         | [] => (TNamed RDF_NIL, [], n)
         | x :: xs' =>
             let '(t, ts, n1) := gen x (S n) in
             let '(tl, ts', n2) := go xs' n1 in
             let c := BNode (lab n) in
             (TBlank (lab n), [mkTriple c RDF_FIRST t; mkTriple c RDF_REST tl] ++ ts ++ ts', n2)
         end) xs n
  | ABnode ps =>
      let '(ts, n') :=
        (fix go ps m :=
           match ps with
           | [] => ([], m)
           | (p, x) :: ps' =>
               let '(t, ts, m1) := gen x m in
               let '(ts', m2) := go ps' m1 in
               (mkTriple (BNode (lab n)) p t :: ts ++ ts', m2)
           end) ps (S n) in
      (TBlank (lab n), ts, n')
  end.

Fixpoint gen_props (s : NamedOrBlankNode) (ps : list (string * ast)) (m : nat) : list Triple * nat :=
  match ps with
  | [] => ([], m)
  | (p, x) :: ps' =>
      let '(t, ts, m1) := gen x m in
      let '(ts', m2) := gen_props s ps' m1 in
      (mkTriple s p t :: ts ++ ts', m2)
  end.

Fixpoint gen_doc (sts : list stmt) (n : nat) : list Triple :=
  match sts with
  | [] => []
  | st :: sts' =>
      let '(s, n0) := match s_subj st with Some i => (NNode i, n) | None => (BNode (lab n), S n) end in
      let '(ts, n1) := gen_props s (s_props st) n0 in
      ts ++ gen_doc sts' n1
  end.

(** ** They represent the document *)

Lemma ast_ind' (P : ast -> Prop) :
  (forall l, P (ALit l)) -> (forall i, P (AIri i)) ->
  (forall xs, Forall P xs -> P (AColl xs)) ->
  (forall ps, Forall (fun pr => P pr.2) ps -> P (ABnode ps)) -> forall a, P a.
Proof.
  intros Hl Hi Hc Hb. fix IH 1. intros [l|i|xs|ps]; [apply Hl|apply Hi|apply Hc|apply Hb].
  - induction xs; constructor; auto.
  - induction ps as [|[p x] ps IHps]; constructor; [apply IH|auto].
Qed.

Lemma lab_inj n m : lab n = lab m -> n = m.
Proof. revert m. induction n as [|n IH]; intros [|m]; try done. intros [= H]. f_equal. auto. Qed.

Definition owned (n n' : nat) (b : string) : Prop := exists i, (n <= i < n')%nat /\ b = lab i.

(** The triples [ts] are about the blank nodes [ls], all from the range. *)
Definition about_labels (n n' : nat) (ts : list Triple) (ls : list string) : Prop :=
  (n <= n')%nat /\ Forall (owned n n') ls /\ NoDup ls /\
  Forall (fun t => exists b, b ∈ ls /\ subject t = BNode b) ts.

(** [doc] says of the nodes [ls] exactly what [ts] says. *)
Definition agrees (doc ts : list Triple) (ls : list string) : Prop :=
  forall b, b ∈ ls -> about doc (BNode b) = about ts (BNode b).

Lemma owned_disjoint n m n' b : owned n m b -> owned m n' b -> False.
Proof. intros (i & Hi & ->) (j & Hj & Heq%lab_inj). lia. Qed.

Lemma owned_mono n n' m m' b : (m <= n)%nat -> (n' <= m')%nat -> owned n n' b -> owned m m' b.
Proof. intros ?? (i & Hi & ->). exists i. split; [lia|done]. Qed.

Lemma about_labels_app n m n' ts1 ts2 ls1 ls2 :
  about_labels n m ts1 ls1 -> about_labels m n' ts2 ls2 ->
  about_labels n n' (ts1 ++ ts2) (ls1 ++ ls2).
Proof.
  intros (H1 & Ho1 & Hn1 & Hs1) (H2 & Ho2 & Hn2 & Hs2). split_and!; [lia|..].
  - apply Forall_app. split; eapply Forall_impl; try done; intros b; apply owned_mono; lia.
  - apply NoDup_app. split_and!; [done| |done]. intros b Hb1 Hb2.
    eapply owned_disjoint; [by eapply Forall_forall in Ho1|by eapply Forall_forall in Ho2].
  - apply Forall_app. split; eapply Forall_impl; try done; intros t (b & Hb & Ht); exists b;
      (split; [apply elem_of_app; auto|done]).
Qed.

Lemma about_not_in ts (ls : list string) s :
  Forall (fun t => exists b, b ∈ ls /\ subject t = BNode b) ts ->
  (forall b, b ∈ ls -> s <> BNode b) -> about ts s = [].
Proof.
  intros Hts Hs. apply about_absent. eapply Forall_impl; [exact Hts|].
  intros t (b & Hb & Ht) Heq. apply (Hs b Hb). congruence.
Qed.

Lemma agrees_app doc n m n' ts1 ts2 ls1 ls2 :
  about_labels n m ts1 ls1 -> about_labels m n' ts2 ls2 -> agrees doc (ts1 ++ ts2) (ls1 ++ ls2) ->
  agrees doc ts1 ls1 /\ agrees doc ts2 ls2.
Proof.
  intros (_ & Ho1 & _ & Hs1) (_ & Ho2 & _ & Hs2) Ha. split; intros b Hb.
  - rewrite Ha, about_app by (apply elem_of_app; auto).
    rewrite (about_not_in ts2 ls2), app_nil_r; [done..|].
    intros b' Hb' [= <-]. eapply owned_disjoint; [by eapply Forall_forall in Ho1|by eapply Forall_forall in Ho2].
  - rewrite Ha, about_app by (apply elem_of_app; auto).
    rewrite (about_not_in ts1 ls1); [done..|].
    intros b' Hb' [= <-]. eapply owned_disjoint; [by eapply Forall_forall in Ho1|by eapply Forall_forall in Ho2].
Qed.

Definition gen_ok (a : ast) : Prop := forall n t ts n',
  gen a n = (t, ts, n') ->
  exists ls, about_labels n n' ts ls /\ forall doc, agrees doc ts ls -> matches doc a t ls.

(** The properties of a node outside the range. *)
Lemma gen_props_ok ps : Forall (fun pr => gen_ok pr.2) ps -> forall s m ts n',
  gen_props s ps m = (ts, n') -> (forall b, owned m n' b -> s <> BNode b) ->
  exists os ls nested, about_labels m n' nested ls /\ filter (fun t => subject t <> s) ts = nested /\
    filter (fun t => subject t = s) ts = zip_with (fun p o => mkTriple s p o) (map fst ps) os /\
    forall doc, agrees doc nested ls -> matches_all doc (map snd ps) os ls.
Proof.
  induction 1 as [|[p x] ps Hx _ IH]; intros s m ts n' Hg Hs; cbn [gen_props] in Hg.
  - injection Hg as <- <-. exists [], [], []. split_and!; try done; [|intros; constructor].
    split_and!; [done|constructor|constructor|constructor].
  - destruct (gen x m) as [[t ts1] m1] eqn:E. destruct (gen_props s ps m1) as [ts2 m2] eqn:E2.
    injection Hg as <- <-.
    destruct (Hx _ _ _ _ E) as (ls1 & Hl1 & Hm1).
    assert (m <= m1)%nat by apply Hl1.
    edestruct (IH s m1 ts2 m2 E2) as (os & ls2 & nested & Hl2 & Hne & Heq & Hm2).
    { intros b Hb. apply Hs. by eapply owned_mono; [..|exact Hb]. }
    assert (Hts1 : Forall (fun t => subject t <> s) ts1).
    { destruct Hl1 as (_ & Ho & _ & Hsub). eapply Forall_impl; [exact Hsub|].
      intros u (b & Hb & ->) <-. eapply Forall_forall in Ho; [|exact Hb].
      eapply Hs; [|done]. eapply owned_mono; [..|exact Ho]; [done|apply Hl2]. }
    exists (t :: os), (ls1 ++ ls2), (ts1 ++ nested). split_and!.
    + by eapply about_labels_app.
    + rewrite filter_cons_False by (cbn; auto). rewrite filter_app, Hne. f_equal.
      by apply filter_all.
    + rewrite filter_cons_True by done. rewrite filter_app, Heq, filter_none; [done|].
      eapply Forall_impl; [exact Hts1|]. auto.
    + intros doc Ha. eapply agrees_app in Ha as [Ha1 Ha2]; [|done..]. constructor; auto.
Qed.

Lemma gen_bnode ps n :
  gen (ABnode ps) n = let '(ts, n') := gen_props (BNode (lab n)) ps (S n) in (TBlank (lab n), ts, n').
Proof.
  cbn [gen].
  match goal with |- (let '(_, _) := ?f ps (S n) in _) = _ =>
    assert (Hf : forall ps m, f ps m = gen_props (BNode (lab n)) ps m) end.
  { clear ps. induction ps as [|[p x] ps IH]; intros m; [done|]. cbn [gen_props].
    destruct (gen x m) as [[t ts] m1]. rewrite IH. by destruct (gen_props _ ps m1). }
  by rewrite Hf.
Qed.

Lemma gen_coll_cons x xs n :
  gen (AColl (x :: xs)) n =
  let '(t, ts, n1) := gen x (S n) in
  let '(tl, ts', n2) := gen (AColl xs) n1 in
  let c := BNode (lab n) in
  (TBlank (lab n), [mkTriple c RDF_FIRST t; mkTriple c RDF_REST tl] ++ ts ++ ts', n2).
Proof. done. Qed.

Lemma owned_first n n' : (n < n')%nat -> owned n n' (lab n).
Proof. exists n. split; [lia|done]. Qed.

Lemma about_labels_fresh n n' ts ls s :
  about_labels (S n) n' ts ls -> s = BNode (lab n) -> about ts s = [].
Proof.
  intros (_ & Ho & _ & Hs) ->. apply (about_not_in ts ls); [done|].
  intros b Hb [= <-]. eapply Forall_forall in Ho as (i & Hi & Heq%lab_inj); [|exact Hb]. lia.
Qed.

(** A node of its own in front of others. *)
Lemma about_labels_cons n n' own ts ls :
  Forall (fun t => subject t = BNode (lab n)) own -> about_labels (S n) n' ts ls ->
  about_labels n n' (own ++ ts) (lab n :: ls).
Proof.
  intros Hown (Hn & Ho & Hnd & Hs). split_and!; [lia|..].
  - constructor; [apply owned_first; lia|]. eapply Forall_impl; [exact Ho|].
    intros b. apply owned_mono; lia.
  - constructor; [|done]. intros Hb.
    eapply Forall_forall in Ho as (i & Hi & Heq%lab_inj); [|exact Hb]. lia.
  - apply Forall_app. split.
    + eapply Forall_impl; [exact Hown|]. intros t Ht. exists (lab n). split; [left|done].
    + eapply Forall_impl; [exact Hs|]. intros t (b & Hb & Ht). exists b. split; [by right|done].
Qed.

Lemma agrees_cons doc n n' own ts ls :
  Forall (fun t => subject t = BNode (lab n)) own -> about_labels (S n) n' ts ls ->
  agrees doc (own ++ ts) (lab n :: ls) ->
  about doc (BNode (lab n)) = about own (BNode (lab n)) /\ agrees doc ts ls.
Proof.
  intros Hown Hl Ha. split.
  - rewrite Ha, about_app by left. by rewrite (about_labels_fresh n n' ts ls _ Hl eq_refl), app_nil_r.
  - intros b Hb. rewrite Ha, about_app by (by right).
    rewrite about_absent; [done|]. eapply Forall_impl; [exact Hown|]. intros t -> Heq.
    assert (Hbn : b = lab n) by congruence. destruct Hl as (_ & Ho & _ & _).
    eapply Forall_forall in Ho as (i & Hi & Hbi); [|exact Hb].
    rewrite Hbn in Hbi. apply lab_inj in Hbi. lia.
Qed.

Lemma gen_coll_ok xs : Forall gen_ok xs -> gen_ok (AColl xs).
Proof.
  induction 1 as [|x xs Hx _ IH]; intros n t ts n' Hg.
  - injection Hg as <- <- <-. exists []. split.
    + split_and!; [done|constructor|constructor|constructor].
    + intros doc _. constructor.
  - rewrite gen_coll_cons in Hg.
    destruct (gen x (S n)) as [[t1 ts1] n1] eqn:E1. destruct (gen (AColl xs) n1) as [[t2 ts2] n2] eqn:E2.
    cbv zeta in Hg. injection Hg as <- <- <-.
    destruct (Hx _ _ _ _ E1) as (ls1 & Hl1 & Hm1). destruct (IH _ _ _ _ E2) as (ls2 & Hl2 & Hm2).
    pose proof (about_labels_app _ _ _ _ _ _ _ Hl1 Hl2) as Hl.
    set (own := [mkTriple (BNode (lab n)) RDF_FIRST t1; mkTriple (BNode (lab n)) RDF_REST t2]).
    assert (Hown : Forall (fun t => subject t = BNode (lab n)) own) by (repeat constructor).
    exists (lab n :: ls1 ++ ls2). split.
    { exact (about_labels_cons n n2 own (ts1 ++ ts2) _ Hown Hl). }
    intros doc Ha. apply (agrees_cons doc n n2 own (ts1 ++ ts2)) in Ha as [Hc Ha]; [|done..].
    eapply agrees_app in Ha as [Ha1 Ha2]; [|done..].
    eapply m_cons; [|by apply Hm1|by apply Hm2]. rewrite Hc. unfold own, about.
    rewrite !filter_cons_True by done. done.
Qed.

Lemma about_filter_same (ts : list Triple) s : about (filter (fun t => subject t = s) ts) s = about ts s.
Proof. unfold about. rewrite list_filter_filter. f_equal. apply list_filter_iff. naive_solver. Qed.

Lemma about_filter_other (ts : list Triple) s s' :
  s' <> s -> about (filter (fun t => subject t <> s) ts) s' = about ts s'.
Proof.
  intros Hne. unfold about. rewrite list_filter_filter. f_equal. apply list_filter_iff.
  intros t. split; [by intros []|by intros <-].
Qed.

(** What a node's properties amount to, whatever the order they interleave
    with the parts'. *)
Lemma gen_props_about ps m s ts n' :
  Forall (fun pr => gen_ok pr.2) ps -> gen_props s ps m = (ts, n') ->
  (forall b, owned m n' b -> s <> BNode b) ->
  exists os ls nested, about_labels m n' nested ls /\
    filter (fun t => subject t = s) ts = zip_with (fun p o => mkTriple s p o) (map fst ps) os /\
    about ts s = zip (map fst ps) os /\
    (forall b, b ∈ ls -> about nested (BNode b) = about ts (BNode b)) /\
    Forall (fun t => subject t = s \/ exists b, b ∈ ls /\ subject t = BNode b) ts /\
    length ps = length os /\
    forall doc, agrees doc nested ls -> matches_all doc (map snd ps) os ls.
Proof.
  intros Hps Hg Hs. destruct (gen_props_ok ps Hps s m ts n' Hg Hs) as (os & ls & nested & Hl & Hne & Heq & Hm).
  assert (Hlen : length ps = length os).
  { assert (Hag : agrees nested nested ls) by by intros ?.
    apply Hm, matches_all_length in Hag. by rewrite length_map in Hag. }
  exists os, ls, nested. split_and!; try done.
  - rewrite <-about_filter_same, Heq. apply about_zip_same. by rewrite length_map.
  - intros b Hb. rewrite <-Hne, about_filter_other; [done|].
    destruct Hl as (_ & Ho & _ & _). intros <-. eapply Hs; [|done]. by eapply Forall_forall in Ho.
  - apply Forall_forall. intros t Ht. destruct (decide (subject t = s)) as [|Hd]; [by left|right].
    destruct Hl as (_ & _ & _ & Hsub). rewrite <-Hne in Hsub.
    eapply Forall_forall in Hsub; [exact Hsub|]. by apply list_elem_of_filter.
Qed.

Lemma gen_bnode_ok ps : Forall (fun pr => gen_ok pr.2) ps -> gen_ok (ABnode ps).
Proof.
  intros Hps n t ts n' Hg. rewrite gen_bnode in Hg.
  destruct (gen_props (BNode (lab n)) ps (S n)) as [ts' n1] eqn:E. injection Hg as <- <- <-.
  assert (Hfresh : forall b, owned (S n) n1 b -> BNode (lab n) <> BNode b)
    by (intros b (i & Hi & ->) [= Heq%lab_inj]; lia).
  destruct (gen_props_about ps _ _ _ _ Hps E Hfresh) as
    (os & ls & nested & Hl & _ & Habout & Hnest & Hsub & _ & Hm).
  destruct (about_labels_cons n n1 [] nested ls) as (Hn & Ho & Hnd & _); [constructor|done|].
  exists (lab n :: ls). split.
  - split_and!; [done..|]. eapply Forall_impl; [exact Hsub|].
    intros t [Ht|(b & Hb & Ht)]; [exists (lab n); split; [left|done]|exists b; split; [by right|done]].
  - intros doc Ha. eapply m_bnode; [rewrite Ha by left; exact Habout|].
    apply Hm. intros b Hb. rewrite Ha by (by right). by rewrite Hnest.
Qed.

Lemma gen_ok_all a : gen_ok a.
Proof.
  induction a as [l|i|xs Hxs|ps Hps] using ast_ind'.
  - intros n t ts n' [= <- <- <-]. exists []. split; [|constructor].
    split_and!; [done|constructor|constructor|constructor].
  - intros n t ts n' [= <- <- <-]. exists []. split; [|constructor].
    split_and!; [done|constructor|constructor|constructor].
  - by apply gen_coll_ok.
  - by apply gen_bnode_ok.
Qed.

(** *** Documents *)

Definition in_range (named : list string) (n n' : nat) (s : NamedOrBlankNode) : Prop :=
  match s with
  | NNode i => i ∈ named
  | BNode b => owned n n' b
  end.

Lemma filter_ext_in {A} (P Q : A -> Prop) `{!forall x, base.Decision (P x), !forall x, base.Decision (Q x)} l :
  Forall (fun x => P x <-> Q x) l -> filter P l = filter Q l.
Proof.
  induction 1 as [|x l Hx _ IH]; [done|]. destruct (decide (P x)).
  - rewrite !filter_cons_True by tauto. by rewrite IH.
  - rewrite !filter_cons_False by tauto. done.
Qed.

Lemma in_range_disjoint named i n m n' s :
  i ∉ named -> in_range [i] n m s \/ in_range [] n m s -> in_range named m n' s -> False.
Proof.
  destruct s as [j|b]; cbn.
  - intros Hi [->%list_elem_of_singleton|[]%elem_of_nil]. done.
  - intros _ [H|H]; by eapply owned_disjoint.
Qed.

Lemma Forall_in_range named named' n m n' m' l :
  (forall i, i ∈ named -> i ∈ named') -> (n' <= n)%nat -> (m <= m')%nat ->
  Forall (in_range named n m) l -> Forall (in_range named' n' m') l.
Proof.
  intros Hn ?? Hl. eapply Forall_impl; [exact Hl|]. intros [j|b]; cbn; [auto|]. by apply owned_mono.
Qed.

(** The nodes of one statement. *)
Definition subj_names (subj : option string) : list string :=
  match subj with Some i => [i] | None => [] end.

Lemma gen_stmt_ok subj ps n s n0 ts n1 :
  (s, n0) = match subj with Some i => (NNode i, n) | None => (BNode (lab n), S n) end ->
  gen_props s ps n0 = (ts, n1) ->
  exists os ls, (n <= n1)%nat /\ Forall (in_range (subj_names subj) n n1) (s :: map BNode ls) /\
    NoDup (s :: map BNode ls) /\ Forall (fun t => subject t ∈ s :: map BNode ls) ts /\
    subject_of (mkStmt subj ps) s /\
    filter (fun t => subject t = s) ts = zip_with (fun p o => mkTriple s p o) (map fst ps) os /\
    forall doc, (forall x, x ∈ map BNode ls -> about doc x = about ts x) ->
                matches_all doc (map snd ps) os ls.
Proof.
  intros Hs Hg.
  assert (Hfresh : forall b, owned n0 n1 b -> s <> BNode b).
  { destruct subj; injection Hs as -> ->; [done|]. intros b (j & Hj & ->) [= Heq%lab_inj]. lia. }
  destruct (gen_props_about ps n0 s ts n1) as (os & ls & nested & (Hn & Ho & Hnd & _) & Hown & _ & Hnest
    & Hsub & _ & Hm); [by apply Forall_true; intros ?; apply gen_ok_all|done..|].
  assert (n <= n0)%nat by (destruct subj; injection Hs as -> ->; lia).
  exists os, ls. split_and!.
  - lia.
  - constructor.
    + destruct subj; injection Hs as -> ->; cbn; [by left|]. apply owned_first. lia.
    + apply Forall_fmap. eapply Forall_impl; [exact Ho|]. intros b. by apply owned_mono.
  - constructor.
    + intros (b & -> & Hb)%list_elem_of_fmap. eapply Hfresh; [|done]. by eapply Forall_forall in Ho.
    + apply NoDup_fmap_2; [congruence|done].
  - eapply Forall_impl; [exact Hsub|]. intros t [->|(b & Hb & ->)]; [left|right].
    apply list_elem_of_fmap. eauto.
  - destruct subj; injection Hs as -> ->; cbn; [done|]. by eexists.
  - done.
  - intros doc Ha. apply Hm. intros b Hb. rewrite Ha by (apply list_elem_of_fmap; eauto).
    by rewrite Hnest.
Qed.

Lemma about_outside ts (nodes : list NamedOrBlankNode) s :
  Forall (fun t => subject t ∈ nodes) ts -> s ∉ nodes -> about ts s = [].
Proof.
  intros Hts Hs. apply about_absent. eapply Forall_impl; [exact Hts|]. by intros t Ht <-.
Qed.

Lemma gen_doc_ok sts : forall n,
  NoDup (omap s_subj sts) ->
  exists ss ls n', (n <= n')%nat /\ Forall (in_range (omap s_subj sts) n n') (ss ++ map BNode ls) /\
    NoDup (ss ++ map BNode ls) /\ Forall (fun t => subject t ∈ ss ++ map BNode ls) (gen_doc sts n) /\
    forall doc, (forall x, x ∈ map BNode ls -> about doc x = about (gen_doc sts n) x) ->
                stmts_match doc sts ss (filter (fun t => subject t ∈ ss) (gen_doc sts n)) ls.
Proof.
  induction sts as [|[subj ps] sts IH]; intros n Hnd.
  { exists [], [], n. split_and!; [done|constructor|apply NoDup_nil_2|constructor|]. constructor. }
  cbn [gen_doc s_subj s_props]. destruct (match subj with Some i => _ | None => _ end) as [s n0] eqn:Es.
  destruct (gen_props s ps n0) as [ts1 n1] eqn:E1. symmetry in Es.
  destruct (gen_stmt_ok _ _ _ _ _ _ _ Es E1)
    as (os & ls1 & Hn1 & Hr1 & Hnd1 & Hsub1 & Hs & Hown & Hm1).
  destruct (IH n1) as (ss & ls2 & n2 & Hn2 & Hr2 & Hnd2 & Hsub2 & Hm2).
  { destruct subj; [by apply NoDup_cons in Hnd as [_ Hnd]|done]. }
  assert (Hdisj : forall x, x ∈ s :: map BNode ls1 -> x ∈ ss ++ map BNode ls2 -> False).
  { intros x Hx1 Hx2. eapply Forall_forall in Hr1; [|exact Hx1]. eapply Forall_forall in Hr2; [|exact Hx2].
    destruct subj as [i|].
    - apply NoDup_cons in Hnd as [Hi _]. eapply (in_range_disjoint _ i); [exact Hi|by left|exact Hr2].
    - destruct x as [j|b]; [by apply elem_of_nil in Hr1|]. exact (owned_disjoint _ _ _ _ Hr1 Hr2). }
  assert (Hperm : (s :: ss) ++ map BNode (ls1 ++ ls2) ≡ₚ
                  (s :: map BNode ls1) ++ (ss ++ map BNode ls2)).
  { rewrite map_app. cbn [app]. constructor. rewrite !(assoc (++)). by rewrite (Permutation_app_comm ss). }
  exists (s :: ss), (ls1 ++ ls2), n2. split_and!.
  - lia.
  - rewrite Hperm. apply Forall_app. split.
    + eapply Forall_in_range; [| | |exact Hr1]; [|lia..].
      destruct subj; intros i; cbn; [by intros ->%list_elem_of_singleton; left|by intros []%elem_of_nil].
    + eapply Forall_in_range; [| | |exact Hr2]; [|lia..]. destruct subj; intros i; cbn; [by right|done].
  - rewrite Hperm. apply NoDup_app. split_and!; [done| |done]. intros x H1 H2. by eapply Hdisj.
  - apply Forall_app. split; (eapply Forall_impl; [eassumption|]); intros t Ht; rewrite Hperm;
      apply elem_of_app; auto.
  - intros doc Ha. rewrite filter_app.
    assert (Hf1 : filter (fun t => subject t ∈ s :: ss) ts1 =
                  zip_with (fun p o => mkTriple s p o) (map fst ps) os).
    { rewrite <-Hown. apply filter_ext_in. eapply Forall_impl; [exact Hsub1|]. intros t Ht.
      split; [|intros ->; left]. intros [->|Hin]%elem_of_cons; [done|].
      exfalso. eapply Hdisj; [exact Ht|]. apply elem_of_app. by left. }
    assert (Hf2 : filter (fun t => subject t ∈ s :: ss) (gen_doc sts n1) =
                  filter (fun t => subject t ∈ ss) (gen_doc sts n1)).
    { apply filter_ext_in. eapply Forall_impl; [exact Hsub2|]. intros t Ht.
      rewrite elem_of_cons. split; [|by right]. intros [Heq|Hin]; [|done].
      exfalso. apply (Hdisj s); [left|by rewrite <-Heq]. }
    rewrite Hf1, Hf2. constructor; [done| |].
    + apply Hm1. intros x Hx. rewrite Ha by (rewrite map_app; apply elem_of_app; by left).
      rewrite about_app, (about_outside (gen_doc _ _) _ _ Hsub2), app_nil_r; [done|].
      intros Hx2. eapply Hdisj; [by right|exact Hx2].
    + apply Hm2. intros x Hx. rewrite Ha by (rewrite map_app; apply elem_of_app; by right).
      rewrite about_app, (about_outside ts1 _ _ Hsub1); [done|].
      intros Hx1. eapply Hdisj; [exact Hx1|]. apply elem_of_app. by right.
Qed.

Lemma gen_doc_represents sts : NoDup (omap s_subj sts) -> represents (gen_doc sts 0) sts.
Proof.
  intros Hnd. destruct (gen_doc_ok sts 0 Hnd) as (ss & ls & n & _ & _ & Hnd' & Hsub & Hm).
  eexists ss, _, ls. split; [by apply Hm|]. done.
Qed.

(** ** The parser *)

Section parser.
Context `{!IriSyntax}.

(** What a whole document yields. *)
Definition parse_doc (bs : list Byte.byte) : list Triple * option string :=
  match read (String.string_of_list_byte bs) with
  | Some sts => (gen_doc sts 0, None)
  | None => ([], Some "syntax error")
  end.

(** The items still to come once the input has ended. *)
Definition doc_items (bs : list Byte.byte) : list (result string Triple) :=
  match parse_doc bs with
  | (ts, None) => map Ok ts
  | (_, Some e) => [Err e]
  end.

Record ref_state : Type := mkRefState {
  fed : list Byte.byte;
  pending : list (result string Triple)
}.

#[export] Instance ref_parser : TurtleParser.
Proof.
  refine {|
    tp_state := ref_state;
    tp_new _ := mkRefState [] [];
    tp_extend bs st := mkRefState (fed st ++ bs) (pending st);
    tp_end st := mkRefState (fed st) (doc_items (fed st));
    tp_next st := match pending st with
                  | [] => (None, st)
                  | i :: rest => (Some i, mkRefState (fed st) rest)
                  end;
    tp_size st := length (pending st)
  |}.
  intros [bs [|i rest]] r st'; cbn; [done|]. intros [= <- <-]. cbn. lia.
Defined.

(** A state that has been fed [bs] and has yielded the triples [d]. *)
Definition ref_at (bs : list Byte.byte) (ended : bool) (d : list Triple) (st : ref_state) : Prop :=
  fed st = bs /\
  if ended then map Ok d ++ pending st = doc_items bs else pending st = [] /\ d = [].

Lemma map_Ok_inj {E A} (l1 l2 : list A) : map (@Ok E A) l1 = map Ok l2 -> l1 = l2.
Proof. revert l2. induction l1; intros [|]; try done. intros [= -> Heq]. f_equal. auto. Qed.

#[export] Instance ref_parser_laws : TurtleParserLaws.
Proof.
  refine {| tp_doc := parse_doc; tp_at := ref_at |}.
  - by intros.
  - intros bs c d st (<- & Hp & ->). by split.
  - intros bs d st (<- & _ & ->). by split.
  - intros bs e d [f p] t st' (<- & Hd) Hnext. cbn in *. destruct p as [|i p]; [done|].
    injection Hnext as -> <-. split; [done|]. destruct e; [|by destruct Hd].
    cbn. by rewrite map_app, <-app_assoc.
  - intros bs e d [f [|i p]] st' Hat Hnext; cbn in *; by simplify_eq.
  - intros bs d [f [|i p]] st' (<- & Hd) Hnext; cbn in *; [|done]. rewrite app_nil_r in Hd.
    unfold doc_items in Hd. destruct (parse_doc f) as [ts [e|]].
    + by destruct d as [|? [|]].
    + by apply map_Ok_inj in Hd as ->.
  - intros bs e d [f [|i p]] x st' more (<- & Hd) Hnext Hmore; cbn in *; [done|].
    injection Hnext as -> <-. destruct e; [|by destruct Hd].
    rewrite Hmore, app_nil_r by done. unfold doc_items, parse_doc in *.
    destruct (read _) as [sts|].
    + exfalso. revert Hd. generalize (gen_doc sts 0). clear.
      induction d as [|t d IH]; intros [|t' ts]; try done. cbn. intros [= _ Hd]. by eapply IH.
    + destruct d as [|t [|]]; cbn in Hd; by simplify_eq.
Defined.

(** The parser conforms to the grammar, on every text. *)
Lemma ref_parser_conforms text : conforms_on text.
Proof.
  intros sts Hread Hnd. exists (gen_doc sts 0). split; [|by apply gen_doc_represents].
  cbn. unfold parse_doc, as_bytes. by rewrite String.string_of_list_byte_of_string, Hread.
Qed.

End parser.

(** ** Witnesses *)

(** A small, conservative notion of IRI: [urn:] and plain characters. *)
Definition is_urn_char (c : ascii) : bool :=
  is_ascii_alphanumeric c || (c =? ":")%char || (c =? "-")%char || (c =? "#")%char.

#[export] Instance urn_syntax : IriSyntax.
Proof.
  refine {| valid_iri i := starts_with "urn:" i && str_forallb is_urn_char i |}.
  intros i [_ Hi]%andb_prop. eapply str_forallb_impl; [|exact Hi].
  intros c. ascii_cases c; by vm_compute.
Defined.

(** A statement whose text tries to close its literal and add a property. *)
Definition wit_query : EnvelopeObject :=
  OQuery (mkStatement "01J" "sql-sqlite" (jq "select ' ; rsntr:rowLimit 1 . # \" +:+ nl +:+ "from t")
            [Null; Integer (-5); Text (jq "x')"); BlobRef "ab" 12] None (Some 10) None None).

Lemma encode_reads_back_witness :
  exists sts doc, stmts_of wit_query = Some sts /\ to_turtle wit_query = Ok doc /\ read doc = Some sts.
Proof.
  eexists _, _. split; [reflexivity|]. split; [reflexivity|].
  exact (encode_reads_back wit_query _ _ eq_refl eq_refl eq_refl).
Defined.

Definition wit_projection : EnvelopeObject :=
  OProjection (mkProjection (Some "01J")
    [mkPoint "urn:node:deploy" Excitable (Some "Deploy") None None None None
       [mkPointField "env" (Some (XSD_NS +:+ "string")) true (Some (Text "prod"))
          [Text "prod"; Text "dev"] None] (Some "sql-sqlite") (Some "insert") ["env"] None None;
     mkPoint "urn:node:log" (Other "urn:x:Log") None None None None None [] None None [] None None]).

Lemma envelope_roundtrip_witness :
  envelope_ok wit_projection = true /\
  exists text, to_turtle wit_projection = Ok text /\ from_turtle text = Ok (normal wit_projection).
Proof.
  assert (Hok : envelope_ok wit_projection = true) by (vm_compute; reflexivity).
  split; [exact Hok|].
  destruct (envelope_roundtrip wit_projection Hok) as (text & Ht & Hf).
  exists text. split; [exact Ht|]. apply Hf, ref_parser_conforms.
Defined.

Lemma decode_represents_witness :
  exists sts, stmts_of wit_query = Some sts /\ represents (gen_doc sts 0) sts /\
              decode (gen_doc sts 0) = Ok (normal wit_query).
Proof.
  eexists. split; [reflexivity|].
  split; [apply gen_doc_represents, NoDup_nil_2|].
  apply (decode_represents _ wit_query _ eq_refl); [vm_compute; reflexivity|].
  apply gen_doc_represents, NoDup_nil_2.
Defined.

(** The parser runs: the projection's own text, pushed in two chunks. *)
Example ref_parser_runs :
  match to_turtle wit_projection with
  | Ok text => parse_chunks [take 40 (as_bytes text); drop 40 (as_bytes text)]
  | Err e => Err e
  end = Ok (normal wit_projection).
Proof. vm_compute. reflexivity. Qed.

(** Two frames, cut in the middle of the first length prefix and of the first
    payload. *)
Definition wit_done : EnvelopeObject := ODone (mkDone "01J" (Some 2) None None false).

Lemma stream_roundtrip_witness :
  match encode_all [wit_query; wit_done] [] with
  | Some bytes =>
      exists s1 s2,
        recvs (IrohRequestStream_new
                 (map RdData [take 2 bytes; take 31 (drop 2 bytes); drop 33 bytes] ++ [RdEof]) [])
          [normal wit_query; wit_done] s1 /\ recv s1 = (Ready (Ok None), s2)
  | None => False
  end.
Proof.
  destruct (encode_all [wit_query; wit_done] []) as [bytes|] eqn:E;
    [|exfalso; revert E; vm_compute; discriminate].
  apply (stream_roundtrip [wit_query; wit_done] bytes); [|exact E|].
  - apply Forall_cons; split; [|apply Forall_cons; split; [|apply Forall_nil; exact I]].
    all: split; [vm_compute; reflexivity|]; intros text Ht; split; [|apply ref_parser_conforms].
    all: vm_compute in Ht; injection Ht as <-; vm_compute; reflexivity.
  - eapply wire_open; [reflexivity..|]. cbn [concat map buf IrohRequestStream_new app].
    rewrite app_nil_r. replace (drop 33 bytes) with (drop 31 (drop 2 bytes)) by (by rewrite drop_drop).
    by rewrite !take_drop.
Defined.

(** ** Witnesses of the wire and transport theorems *)

Definition wit_bytes : list Byte.byte := 
  match to_turtle wit_done with Ok text => as_bytes text | Err _ => [] end.

Lemma parse_chunks_spec_witness :
  parse_chunks [take 7 wit_bytes; drop 7 wit_bytes] = decode_doc wit_bytes /\
  decode_doc wit_bytes = Ok wit_done.
Proof.
  split; [|vm_compute; reflexivity].
  exact (parse_chunks_spec [take 7 wit_bytes; drop 7 wit_bytes]).
Defined.

Lemma decode_envelope_spec_witness :
  decode_envelope (frame_bytes wit_bytes ++ [Byte.x00]) = (Ok (Some wit_done), [Byte.x00]).
Proof. rewrite decode_envelope_spec. vm_compute. reflexivity. Defined.

Lemma recv_chunk_independent_witness :
  let bytes := frame_bytes wit_bytes in
  let s := IrohRequestStream_new [RdData (take 3 bytes); RdData (drop 3 bytes); RdEof] [] in
  wire bytes s /\ exists s', recv s = (Ready (Ok (Some wit_done)), s').
Proof.
  intros bytes s. assert (Hw : wire bytes s).
  { apply (wire_open _ _ [take 3 bytes; drop 3 bytes]); [reflexivity..|].
    cbn [concat buf s IrohRequestStream_new app]. rewrite app_nil_r. apply take_drop. }
  split; [exact Hw|]. destruct (recv_chunk_independent bytes s Hw) as (s' & Hr & _).
  exists s'. rewrite Hr. vm_compute. reflexivity.
Defined.

#[local] Instance wit_text : TransportText := {|
  debug_obj := envelope_class_name;
  show_msg _ := "refused";
  show_transport_error _ := "error"
|}.

Definition wit_hello : Hello := mkHello "0.1" ["turtle"] ["sql-sqlite"] None.

Definition wit_hello_stream : IrohRequestStream :=
  IrohRequestStream_new
    [RdData (as_bytes "hi" ); RdData (match encode_envelope (OHello wit_hello) [] with (_, out) => out end)] [].

Lemma accept_hello_compatible_witness :
  let r := accept_hello wit_hello wit_hello_stream in
  r = (Accepted wit_hello, snd r) /\ finished (snd r) = true.
Proof.
  intros r. assert (Hr : r = (Accepted wit_hello, snd r)) by (vm_compute; reflexivity).
  split; [exact Hr|].
  destruct (accept_hello_compatible wit_hello wit_hello wit_hello_stream (snd r) Hr)
    as (_ & _ & s1 & s2 & out & _ & _ & _ & Hf).
  exact Hf.
Defined.

Definition wit_route_stream : IrohRequestStream :=
  IrohRequestStream_new [RdData (match encode_envelope wit_query [] with (_, out) => out end)] [].

Lemma route_request_gate_witness :
  let r := route_request ["sql-sqlite-3"] wit_route_stream in
  r = (RouteHandedOver (normal wit_query), snd r) /\
  exists t, t ∈ ["sql-sqlite-3"] /\ mod_matches "sql-sqlite" t = true.
Proof.
  intros r. assert (Hr : r = (RouteHandedOver (normal wit_query), snd r)) by (vm_compute; reflexivity).
  split; [exact Hr|].
  exact (proj2 (route_request_gate ["sql-sqlite-3"] wit_route_stream (snd r) (normal wit_query) Hr)).
Defined.
