(* ===== verification/Request.v ===== *)
(** * Request: the in-memory form of a Query or Execute

    Models [crates/protocol/src/request.rs]. A ULID is its 16 bytes; its text
    form is the [ulid] crate's ([UlidLib]). [Request::new] draws a fresh ULID,
    which is an argument here. *)

From S2P Require Import Prelude RustStd Vocab External Instances Value Envelope.

Inductive RequestKind : Type := Query | Execute.

Record RequestOptions : Type := mkRequestOptions {
  row_limit : option Z;
  byte_limit : option Z;
  timeout_ms : option Z
}.

Definition RequestOptions_default : RequestOptions := mkRequestOptions None None None.

Record Request : Type := mkRequest {
  rq_id : list Byte.byte;
  rq_kind : RequestKind;
  rq_modulation : string;
  rq_signal : string;
  rq_params : list Value;
  rq_database : option string;
  rq_options : RequestOptions
}.

#[export] Instance RequestKind_eq_dec : EqDecision RequestKind.
Proof. solve_decision. Defined.

Section request.
Context `{!UlidLib}.

Definition Request_new (fresh : list Byte.byte) (kind : RequestKind) (modulation signal : string) :
    Request :=
  mkRequest fresh kind modulation signal [] None RequestOptions_default.

Definition id_string (self : Request) : string := ulid_to_string (rq_id self).

Definition parse_id (s : string) : result ProtocolError (list Byte.byte) :=
  map_err (fun e => malformed [L "invalid ULID request id "; D s; L ": "; L e])
    (ulid_from_string s).

Definition to_envelope (self : Request) : EnvelopeObject :=
  let st := mkStatement (id_string self) (rq_modulation self) (rq_signal self) (rq_params self)
              (rq_database self) (row_limit (rq_options self)) (byte_limit (rq_options self))
              (timeout_ms (rq_options self)) in
  match rq_kind self with
  | Query => OQuery st
  | Execute => OExecute st
  end.

Definition from_envelope (obj : EnvelopeObject) : result ProtocolError Request :=
  let? (kind, st) := match obj with
                     | OQuery st => Ok (Query, st)
                     | OExecute st => Ok (Execute, st)
                     | other =>
                         Err (malformed [L "expected a rsntr:Query or rsntr:Execute frame, got ";
                                         L (envelope_class_name other)])
                     end in
  let? id := parse_id (st_id st) in
  Ok (mkRequest id kind (st_modulation st) (st_signal st) (st_params st) (st_database st)
        (mkRequestOptions (st_row_limit st) (st_byte_limit st) (st_timeout_ms st))).

(** ** Properties *)

Context `{!UlidLaws}.

Lemma from_to_envelope (r : Request) : length (rq_id r) = 16%nat -> from_envelope (to_envelope r) = Ok r.
Proof.
  intros Hid. destruct r as [id [] ? ? ? ? [? ? ?]]; cbn in *;
    unfold parse_id, id_string; cbn; by rewrite ulid_roundtrip.
Qed.

(** Every request survives its envelope form, whatever its parameters and
    caps. *)
Theorem request_roundtrip (r : Request) :
  length (rq_id r) = 16%nat -> from_envelope (to_envelope r) = Ok r.
Proof. apply from_to_envelope. Qed.

(** Decoding accepts exactly the statement classes with a well-formed ULID,
    and keeps every field: re-encoding changes at most the spelling of the id. *)
Theorem from_envelope_spec (obj : EnvelopeObject) (r : Request) :
  from_envelope obj = Ok r <->
  exists st, (obj = OQuery st /\ rq_kind r = Query \/ obj = OExecute st /\ rq_kind r = Execute) /\
    ulid_from_string (st_id st) = Ok (rq_id r) /\
    to_envelope r =
      (match rq_kind r with Query => OQuery | Execute => OExecute end)
        (mkStatement (ulid_to_string (rq_id r)) (st_modulation st) (st_signal st) (st_params st)
           (st_database st) (st_row_limit st) (st_byte_limit st) (st_timeout_ms st)).
Proof.
  split.
  - destruct obj; try done; cbn; unfold parse_id; intros Hr.
    all: destruct (ulid_from_string (st_id st)) as [id|e] eqn:E; [|done].
    all: injection Hr as <-; exists st; by split_and!; [auto|..].
  - intros (st & Hobj & Hid & Henv). destruct r as [id kind m s ps db [rl bl tm]]; cbn in *.
    unfold to_envelope, id_string in Henv. cbn in Henv.
    destruct Hobj as [[-> ->]|[-> ->]]; cbn; unfold parse_id; rewrite Hid; cbn;
      by injection Henv as -> -> -> -> -> -> ->.
Qed.

End request.

Lemma request_roundtrip_witness :
  let r := mkRequest (repeat Byte.x07 16) Execute "sql-sqlite" "DELETE FROM t" [Integer 3; Null] None
             (mkRequestOptions (Some 10) None None) in
  length (rq_id r) = 16%nat /\ from_envelope (to_envelope r) = Ok r.
Proof. split; [done|]. by apply request_roundtrip. Defined.
