(* ===== verification/Response.v ===== *)
(** * Response: the state machine over one request's response frames

    Models [crates/protocol/src/response.rs], and states the language of the
    responses it accepts. *)

From S2P Require Import Prelude RustStd Vocab External Value Envelope.

Inductive ResponseEvent : Type :=
| EvHeader (h : ResultHeader)
| EvRows (rows : list Row)
| EvGraph (g : Graph)
| EvGeneric (g : Generic)
| EvDone (d : Done)
| EvDenied (d : Denied)
| EvError (e : ErrorEnvelope)
| EvHelp (signal : string) (topics : list string)
| EvMedia (m : Media).

Definition is_terminal (ev : ResponseEvent) : bool :=
  match ev with
  | EvDone _ | EvDenied _ | EvError _ | EvHelp _ _ | EvMedia _ => true
  | _ => false
  end.

Inductive State : Type :=
| AwaitHeader
| Rows (columns : list string)
| Graphs
| Generics
| Finished
| Failed.

Record ResponseReader : Type := mkReader {
  rr_id : string;
  state : State;
  next_seq : Z
}.

Definition ResponseReader_new (id : string) : ResponseReader := mkReader id AwaitHeader 0.

Definition is_finished (self : ResponseReader) : bool :=
  match state self with Finished => true | _ => false end.

Definition set_state (s : State) (self : ResponseReader) : ResponseReader :=
  mkReader (rr_id self) s (next_seq self).
Definition set_seq (n : Z) (self : ResponseReader) : ResponseReader :=
  mkReader (rr_id self) (state self) n.

(** The readers' [check_id]; [me] is the reader's own id. *)
Definition check_id (me : string) (id : option string) (class : string) :
    result ProtocolError unit :=
  match id with
  | None => Ok tt
  | Some id =>
      if bool_decide (id = me) then Ok tt
      else Err (choreography [L class; L " frame carries request id "; D id; L ", expected "; D me])
  end.

Definition finish (self : ResponseReader) : result ProtocolError unit :=
  match state self with
  | Finished => Ok tt
  | AwaitHeader =>
      Err (choreography [L "response stream ended before any frame (truncated: no header)"])
  | Rows _ | Graphs | Generics =>
      Err (choreography [L "response stream ended without a Done trailer"])
  | Failed => Err (choreography [L "response stream already failed"])
  end.

(** The cell loop of a row, then [next_seq += 1], for each row in turn;
    returns the sequence number reached. *)
Fixpoint check_cells (columns : list string) (cells : list (string * Value)) :
    result ProtocolError unit :=
  match cells with
  | [] => Ok tt
  | (name, _) :: cells' =>
      if negb (existsb (fun c => bool_decide (c = name)) columns) then
        Err (choreography [L "row cell names column "; D name; L " not declared by the header"])
      else check_cells columns cells'
  end.

Fixpoint check_rows (columns : list string) (next : Z) (rows : list Row) :
    result ProtocolError unit * Z :=
  match rows with
  | [] => (Ok tt, next)
  | row :: rows' =>
      if negb (row_seq row =? next) then
        (Err (choreography [L "row seq "; L (int_to_string (row_seq row));
                            L " out of order (expected "; L (int_to_string next); L ")"]), next)
      else match check_cells columns (row_cells row) with
           | Err e => (Err e, next)
           | Ok _ => check_rows columns (i64_incr next) rows'
           end
  end.

Definition is_start (s : State) : bool := match s with AwaitHeader => true | _ => false end.

(** A check that must pass before the state moves to [s'] and [ev] is yielded. *)
Definition when_ok (c : result ProtocolError unit) (ev : ResponseEvent) (self' self : ResponseReader) :
    result ProtocolError ResponseEvent * ResponseReader :=
  match c with
  | Ok _ => (Ok ev, self')
  | Err e => (Err e, self)
  end.

Definition refuse (m : string) (self : ResponseReader) :
    result ProtocolError ResponseEvent * ResponseReader :=
  (Err (choreography [L m]), self).

Definition accept_frame (obj : EnvelopeObject) (self : ResponseReader) :
    result ProtocolError ResponseEvent * ResponseReader :=
  let at_start := is_start (state self) in
  let check_id := check_id (rr_id self) in
  match obj with
  | OResult h =>
      if negb at_start then refuse "rsntr:Result header out of order" self
      else when_ok (check_id (Some (rh_id h)) "rsntr:Result") (EvHeader h)
             (set_state (Rows (rh_columns h)) self) self
  | ORow rows =>
      match state self with
      | Rows columns =>
          match rows with
          | [] => refuse "empty row batch frame" self
          | _ => match check_rows columns (next_seq self) rows with
                 | (Ok _, n) => (Ok (EvRows rows), set_seq n self)
                 | (Err e, n) => (Err e, set_seq n self)
                 end
          end
      | _ => refuse "rsntr:Row frame before the rsntr:Result header" self
      end
  | OGraph gr =>
      if negb at_start && negb (match state self with Graphs => true | _ => false end) then
        refuse "rsntr:Graph frame out of order" self
      else match check_id (Some (gr_id gr)) "rsntr:Graph" with
           | Err e => (Err e, self)
           | Ok _ =>
               if negb (gr_seq gr =? next_seq self) then
                 (Err (choreography [L "graph seq "; L (int_to_string (gr_seq gr));
                                     L " out of order (expected ";
                                     L (int_to_string (next_seq self)); L ")"]), self)
               else (Ok (EvGraph gr), set_state Graphs (set_seq (i64_incr (next_seq self)) self))
           end
  | OGeneric gnrc =>
      if negb at_start && negb (match state self with Generics => true | _ => false end) then
        refuse "generic passthrough frame out of order" self
      else (Ok (EvGeneric gnrc), set_state Generics self)
  | ODone d =>
      if at_start then refuse "rsntr:Done frame before any response frame" self
      else when_ok (check_id (Some (dn_id d)) "rsntr:Done") (EvDone d) (set_state Finished self) self
  | ODenied d =>
      if negb at_start then refuse "rsntr:Denied frame after the response started" self
      else when_ok (check_id (dd_id d) "rsntr:Denied") (EvDenied d) (set_state Finished self) self
  | OError e =>
      when_ok (check_id (er_id e) "rsntr:Error") (EvError e) (set_state Finished self) self
  | OHelp h =>
      if negb at_start then refuse "rsntr:Help frame after the response started" self
      else when_ok (check_id (hp_id h) "rsntr:Help") (EvHelp (hp_signal h) (hp_topics h))
             (set_state Finished self) self
  | OMedia m =>
      if negb at_start then refuse "rsntr:Media frame after the response started" self
      else when_ok (check_id (Some (md_id m)) "rsntr:Media") (EvMedia m)
             (set_state Finished self) self
  | other =>
      (Err (choreography [L (envelope_class_name other); L " frame is not a response object"]), self)
  end.

Definition try_accept (obj : EnvelopeObject) (self : ResponseReader) :
    result ProtocolError ResponseEvent * ResponseReader :=
  match state self with
  | Failed => refuse "response stream already failed" self
  | Finished =>
      (Err (choreography [L (envelope_class_name obj); L " frame after the response completed"]), self)
  | _ => accept_frame obj self
  end.

Definition accept (obj : EnvelopeObject) (self : ResponseReader) :
    result ProtocolError ResponseEvent * ResponseReader :=
  match try_accept obj self with
  | (Ok ev, self') => (Ok ev, self')
  | (Err e, self') => (Err e, set_state Failed self')
  end.

(** Feeding frames until the first error. *)
Fixpoint accept_all (objs : list EnvelopeObject) (self : ResponseReader) :
    result ProtocolError (list ResponseEvent) * ResponseReader :=
  match objs with
  | [] => (Ok [], self)
  | obj :: objs' =>
      match accept obj self with
      | (Err e, self') => (Err e, self')
      | (Ok ev, self') => let '(r, self'') := accept_all objs' self' in (rmap (cons ev) r, self'')
      end
  end.

(** ** The language of responses *)

Section language.
Context (id : string).

(** The event of a frame. *)
Definition event_of (obj : EnvelopeObject) : option ResponseEvent :=
  match obj with
  | OResult h => Some (EvHeader h)
  | ORow rows => Some (EvRows rows)
  | OGraph g => Some (EvGraph g)
  | OGeneric g => Some (EvGeneric g)
  | ODone d => Some (EvDone d)
  | ODenied d => Some (EvDenied d)
  | OError e => Some (EvError e)
  | OHelp h => Some (EvHelp (hp_signal h) (hp_topics h))
  | OMedia m => Some (EvMedia m)
  | _ => None
  end.

Definition id_ok (o : option string) : Prop := o = None \/ o = Some id.

(** Rows numbered from [n], their cells among the declared columns. *)
Inductive row_run (columns : list string) : Z -> list Row -> Z -> Prop :=
| row_run_nil n : row_run columns n [] n
| row_run_cons n row rows n' :
    row_seq row = n -> Forall (fun '(name, _) => name ∈ columns) (row_cells row) ->
    row_run columns (i64_incr n) rows n' -> row_run columns n (row :: rows) n'.

(** How a started response ends: a trailer, or an error mid-stream. *)
Inductive ending : EnvelopeObject -> Prop :=
| end_done d : dn_id d = id -> ending (ODone d)
| end_error e : id_ok (er_id e) -> ending (OError e).

Inductive rows_body (columns : list string) : Z -> list EnvelopeObject -> Prop :=
| rows_end n obj : ending obj -> rows_body columns n [obj]
| rows_batch n rows n' objs :
    rows <> [] -> row_run columns n rows n' -> rows_body columns n' objs ->
    rows_body columns n (ORow rows :: objs).

Inductive graphs_body : Z -> list EnvelopeObject -> Prop :=
| graphs_end n obj : ending obj -> graphs_body n [obj]
| graphs_next n g objs :
    gr_id g = id -> gr_seq g = n -> graphs_body (i64_incr n) objs ->
    graphs_body n (OGraph g :: objs).

Inductive generics_body : list EnvelopeObject -> Prop :=
| generics_end obj : ending obj -> generics_body [obj]
| generics_next g objs : generics_body objs -> generics_body (OGeneric g :: objs).

(** A complete response to the request [id]. *)
Inductive response : list EnvelopeObject -> Prop :=
| resp_result h objs :
    rh_id h = id -> rows_body (rh_columns h) 0 objs -> response (OResult h :: objs)
| resp_graphs g objs :
    gr_id g = id -> gr_seq g = 0 -> graphs_body 1 objs -> response (OGraph g :: objs)
| resp_generics g objs : generics_body objs -> response (OGeneric g :: objs)
| resp_denied d : id_ok (dd_id d) -> response [ODenied d]
| resp_error e : id_ok (er_id e) -> response [OError e]
| resp_help h : id_ok (hp_id h) -> response [OHelp h]
| resp_media m : md_id m = id -> response [OMedia m].

(** ** Properties *)

Lemma check_id_Ok o class : check_id id o class = Ok tt <-> id_ok o.
Proof.
  unfold check_id, id_ok. destruct o as [i|]; [case_bool_decide|]; naive_solver.
Qed.

Lemma check_id_cases o class :
  (check_id id o class = Ok tt /\ id_ok o) \/ (exists e, check_id id o class = Err e /\ ~ id_ok o).
Proof.
  unfold check_id, id_ok. destruct o as [i|]; [case_bool_decide|]; naive_solver.
Qed.

Lemma check_cells_Ok columns cells :
  check_cells columns cells = Ok tt <-> Forall (fun '(name, _) => name ∈ columns) cells.
Proof.
  induction cells as [|[name v] cells IH]; cbn; [done|].
  assert (Hm : existsb (fun c => bool_decide (c = name)) columns = true <-> name ∈ columns).
  { rewrite existsb_exists. setoid_rewrite bool_decide_eq_true.
    setoid_rewrite <-list_elem_of_In. naive_solver. }
  rewrite Forall_cons. destruct (existsb _ _); cbn; naive_solver.
Qed.

Lemma check_rows_Ok columns n rows n' :
  check_rows columns n rows = (Ok tt, n') <-> row_run columns n rows n'.
Proof.
  split.
  - revert n. induction rows as [|row rows IH]; intros n; cbn [check_rows].
    { intros [= ->]. constructor. }
    destruct (Z.eqb_spec (row_seq row) n); cbn [negb]; [|done].
    destruct (check_cells columns (row_cells row)) as [[]|err] eqn:E; [|done].
    intros Hr%IH. constructor; [done| |done]. by apply check_cells_Ok.
  - induction 1 as [|n row rows n' Hs Hc _ IH]; cbn; [done|].
    rewrite Hs, Z.eqb_refl. cbn. by rewrite (proj2 (check_cells_Ok _ _) Hc).
Qed.

(** What may still arrive in a given state. *)
Definition expects (s : State) (n : Z) (objs : list EnvelopeObject) : Prop :=
  match s with
  | AwaitHeader => n = 0 /\ response objs
  | Rows columns => rows_body columns n objs
  | Graphs => graphs_body n objs
  | Generics => generics_body objs
  | Finished => objs = []
  | Failed => False
  end.

Definition at_state (s : State) (n : Z) : ResponseReader := mkReader id s n.

(** The transition system behind the reader: one rule per admissible frame. *)
Definition started (s : State) : Prop :=
  match s with Rows _ | Graphs | Generics => True | _ => False end.

Inductive step : State -> Z -> EnvelopeObject -> State -> Z -> Prop :=
| step_result n h : rh_id h = id -> step AwaitHeader n (OResult h) (Rows (rh_columns h)) n
| step_rows columns n rows n' :
    rows <> [] -> row_run columns n rows n' ->
    step (Rows columns) n (ORow rows) (Rows columns) n'
| step_graph s n g :
    s = AwaitHeader \/ s = Graphs -> gr_id g = id -> gr_seq g = n ->
    step s n (OGraph g) Graphs (i64_incr n)
| step_generic s n g : s = AwaitHeader \/ s = Generics -> step s n (OGeneric g) Generics n
| step_done s n d : started s -> dn_id d = id -> step s n (ODone d) Finished n
| step_error s n e : s = AwaitHeader \/ started s -> id_ok (er_id e) -> step s n (OError e) Finished n
| step_denied n d : id_ok (dd_id d) -> step AwaitHeader n (ODenied d) Finished n
| step_help n h : id_ok (hp_id h) -> step AwaitHeader n (OHelp h) Finished n
| step_media n m : md_id m = id -> step AwaitHeader n (OMedia m) Finished n.

Lemma id_ok_Some i : id_ok (Some i) <-> i = id.
Proof. unfold id_ok. naive_solver. Qed.

(** Case analysis on every check a frame goes through. *)
Ltac by_checks :=
  repeat match goal with
  | |- context [check_id id ?o ?c] =>
      let H := fresh "Hid" in
      destruct (check_id_cases o c) as [[-> H]|(? & -> & H)]; cbn [when_ok]
  | |- context [(?a =? ?b)%Z] => destruct (Z.eqb_spec a b); cbn [negb]
  | |- context [match ?rows with [] => refuse _ _ | _ => _ end] => destruct rows
  end.

(** The reader takes exactly the steps of the transition system, and yields
    the frame's event. *)
Lemma accept_sound s n obj ev r' :
  accept obj (at_state s n) = (Ok ev, r') ->
  event_of obj = Some ev /\ exists s' n', r' = at_state s' n' /\ step s n obj s' n'.
Proof.
  unfold accept, try_accept, accept_frame. cbn [state rr_id next_seq at_state].
  destruct s; try done; destruct obj; try done; cbn [is_start negb andb]; by_checks; try done.
  all: try (destruct (check_rows _ _ _) as [[[]|err] n'] eqn:Hrows; try done;
            apply check_rows_Ok in Hrows).
  all: intros [= <- <-]; (split; [done|]); eexists _, _; (split; [done|]).
  all: constructor; rewrite ?id_ok_Some in *; cbn; auto.
Qed.

Lemma accept_complete s n obj s' n' :
  step s n obj s' n' ->
  exists ev, event_of obj = Some ev /\ accept obj (at_state s n) = (Ok ev, at_state s' n').
Proof.
  unfold accept, try_accept, accept_frame.
  inversion 1; subst; cbn [state rr_id next_seq at_state]; eexists; (split; [done|]).
  all: try erewrite (proj2 (check_rows_Ok _ _ _ _)) by done.
  all: destruct_or?; subst; try destruct s; try done; cbn [is_start negb andb].
  all: by_checks; try done; by rewrite ?id_ok_Some in *.
Qed.

Lemma step_leaves_start s n obj s' n' : step s n obj s' n' -> s' <> AwaitHeader.
Proof. by destruct 1. Qed.

Lemma ending_step s n obj : started s -> ending obj <-> step s n obj Finished n.
Proof.
  intros Hs. split; [destruct 1; constructor; auto|].
  inversion 1; subst; try done; try (by constructor); naive_solver.
Qed.

Ltac steps_to :=
  eexists _, _; split; [first [eassumption|econstructor; by eauto]|by cbn; eauto].

(** The language is the runs of the transition system that end. *)
Lemma expects_step s n obj objs :
  (s = AwaitHeader -> n = 0) ->
  expects s n (obj :: objs) <-> exists s' n', step s n obj s' n' /\ expects s' n' objs.
Proof.
  intros Hn. split.
  - destruct s; cbn [expects]; try done.
    + intros [-> Hr]. inversion Hr; subst; steps_to.
    + inversion 1 as [? ? He|]; subst; [apply (ending_step (Rows columns) n) in He; [|done]|]; steps_to.
    + inversion 1 as [? ? He|]; subst; [apply (ending_step Graphs n) in He; [|done]|]; steps_to.
    + inversion 1 as [? He|]; subst; [apply (ending_step Generics n) in He; [|done]|]; steps_to.
  - intros (s' & n' & Hs & He).
    destruct s; try (by inversion Hs; destruct_or?).
    + specialize (Hn eq_refl) as ->. cbn. split; [done|].
      inversion Hs; subst; cbn in *; subst; try (by constructor); try done.
    + inversion Hs; subst; cbn in *; subst; try (destruct_or?; done);
        econstructor; by eauto using ending.
    + inversion Hs; subst; cbn in *; subst; try (destruct_or?; done);
        econstructor; by eauto using ending.
    + inversion Hs; subst; cbn in *; subst; try (destruct_or?; done);
        econstructor; by eauto using ending.
Qed.

Lemma accept_all_expects objs : forall s n evs,
  (s = AwaitHeader -> n = 0) ->
  (exists r', accept_all objs (at_state s n) = (Ok evs, r') /\ finish r' = Ok tt) <->
  expects s n objs /\ map event_of objs = map Some evs.
Proof.
  induction objs as [|obj objs IH]; intros s n evs Hn.
  - cbn [accept_all]. split.
    + intros (r' & [= <- <-] & Hf). by destruct s.
    + intros [He Hev]. destruct evs; [|done]. eexists; split; [done|].
      destruct s; cbn in *; try done; [destruct He as [_ He]| | |]; by inversion He.
  - cbn [accept_all map]. rewrite expects_step by done. split.
    + intros (r' & Hr & Hf). destruct (accept obj _) as [[ev|err] r1] eqn:Ea; [|done].
      apply accept_sound in Ea as (Hev & s' & n' & -> & Hs).
      destruct (accept_all objs _) as [[evs'|err] r2] eqn:Eall; [|done].
      injection Hr as <- <-.
      pose proof (step_leaves_start _ _ _ _ _ Hs).
      destruct (proj1 (IH s' n' evs' ltac:(done))) as [He Hevs]; [by eauto|].
      cbn. rewrite Hev, Hevs. by eauto.
    + intros [(s' & n' & Hs & He) Hev].
      pose proof (step_leaves_start _ _ _ _ _ Hs).
      apply accept_complete in Hs as (ev & Hobj & ->).
      destruct evs as [|ev' evs]; [done|]. rewrite Hobj in Hev. injection Hev as <- Hev.
      destruct (proj2 (IH s' n' evs ltac:(done)) (conj He Hev)) as (r' & -> & Hf). by eauto.
Qed.

(** C10. The reader implements the language of responses: the frames it accepts to
    a clean finish are exactly the complete responses to its request, and it
    yields the event of each frame, in order. *)
Theorem reader_refines_language (objs : list EnvelopeObject) (evs : list ResponseEvent) :
  (exists r', accept_all objs (ResponseReader_new id) = (Ok evs, r') /\ finish r' = Ok tt) <->
  response objs /\ map event_of objs = map Some evs.
Proof.
  pose proof (accept_all_expects objs AwaitHeader 0 evs (fun _ => eq_refl)) as Hall.
  cbn [expects] in Hall. unfold ResponseReader_new. fold (at_state AwaitHeader 0). naive_solver.
Qed.

(** ** Termination and poisoning *)

Lemma accept_state s n obj ev r' :
  accept obj (at_state s n) = (Ok ev, r') ->
  is_finished r' = is_terminal ev /\ s <> Finished /\ s <> Failed.
Proof.
  intros (Hev & s' & n' & -> & Hs)%accept_sound.
  destruct Hs; cbn in Hev; simplify_eq/=; (split; [done|]); destruct_or?; subst;
    try done; by destruct s.
Qed.

Lemma accept_all_length objs : forall r evs r',
  accept_all objs r = (Ok evs, r') -> length evs = length objs.
Proof.
  induction objs as [|obj objs IH]; intros r evs r'; cbn [accept_all]; [by intros [= <- <-]|].
  destruct (accept obj r) as [[ev|err] r1]; [|done].
  destruct (accept_all objs r1) as [[evs'|err] r2] eqn:E; [|done]. intros [= <- <-].
  cbn. f_equal. by eapply IH.
Qed.

Lemma accept_all_finished objs evs s n r' :
  accept_all objs (at_state s n) = (Ok evs, r') -> s = Finished -> objs = [].
Proof.
  destruct objs as [|obj objs]; [done|]. cbn [accept_all]. intros Ha ->.
  destruct (accept obj _) as [[ev|err] r1] eqn:E; [|done].
  by apply accept_state in E as (_ & ? & _).
Qed.

(** The event stream ends once: a terminal event is the last one, and the
    reader is finished exactly when it has yielded it. *)
Theorem one_terminal_event objs : forall s n evs r',
  accept_all objs (at_state s n) = (Ok evs, r') ->
  Forall (fun ev => is_terminal ev = false) (removelast evs) /\
  (evs <> [] -> is_finished r' = existsb is_terminal evs).
Proof.
  induction objs as [|obj objs IH]; intros s n evs r'; cbn [accept_all].
  { by intros [= <- <-]. }
  destruct (accept obj _) as [[ev|err] r1] eqn:E; [|done].
  apply accept_state in E as Hst. destruct Hst as (Hterm & _).
  apply accept_sound in E as (_ & s' & n' & -> & Hs).
  destruct (accept_all objs _) as [[evs'|err] r2] eqn:Eall; [|done]. intros [= <- <-].
  destruct (IH _ _ _ _ Eall) as [Hlast Hfin].
  destruct (is_terminal ev) eqn:Et.
  - assert (objs = []) as ->
      by (apply (accept_all_finished _ _ _ _ _ Eall); by destruct s').
    cbn in Eall. injection Eall as <- <-. cbn. rewrite Et. split; [done|]. by intros _.
  - destruct evs' as [|ev' evs']; cbn [removelast existsb orb].
    + split; [done|]. intros _. apply accept_all_length in Eall as Hlen.
      destruct objs; [|done]. cbn in Eall. injection Eall as <-. by rewrite Et, Hterm.
    + split; [by constructor|]. intros _. by rewrite Et, Hfin.
Qed.

(** After the first error the reader is poisoned: every later frame is an
    error, and so is the end of the stream. *)
Theorem reader_poisoned (s : State) (n : Z) (obj obj' : EnvelopeObject) (e : ProtocolError)
    (r r' : ResponseReader) (res : result ProtocolError ResponseEvent) :
  accept obj (at_state s n) = (Err e, r) -> accept obj' r = (res, r') ->
  is_ok res = false /\ state r' = Failed /\ is_ok (finish r') = false.
Proof.
  intros Ha Ha'. assert (Hf : state r = Failed).
  { unfold accept in Ha. destruct (try_accept _ _) as [[|] r1]; by simplify_eq. }
  unfold accept, try_accept in Ha'. rewrite Hf in Ha'. cbn in Ha'. by simplify_eq.
Qed.

(** ** The row numbers *)

Lemma i64_incr_small n : 0 <= n < I64_MAX -> i64_incr n = n + 1.
Proof. intros Hn. unfold i64_incr, I64_MAX in *. rewrite Z.mod_small; lia. Qed.

(** A row at its place: its number and its declared cells. *)
Definition row_at (columns : list string) (n : Z) (row : Row) : Prop :=
  row_seq row = n /\ Forall (fun '(name, _) => name ∈ columns) (row_cells row).

Lemma row_run_at columns n rows n' :
  row_run columns n rows n' -> 0 <= n -> n + zlen rows <= I64_MAX ->
  n' = n + zlen rows /\ forall i row, rows !! i = Some row -> row_at columns (n + Z.of_nat i) row.
Proof.
  unfold zlen.
  induction 1 as [n|n row rows n' Hseq Hcells _ IH]; intros Hn Hmax; cbn [length] in *.
  { split; [lia|]. done. }
  rewrite i64_incr_small in IH by (unfold I64_MAX in *; lia).
  destruct IH as [IH1 IH2]; [lia..|]. split; [lia|].
  intros [|i] row' Hi; cbn in Hi.
  - injection Hi as <-. split; [lia|done].
  - apply IH2 in Hi. replace (n + Z.of_nat (S i)) with (n + 1 + Z.of_nat i) by lia. done.
Qed.

Definition rows_of (obj : EnvelopeObject) : list Row :=
  match obj with ORow rows => rows | _ => [] end.

Lemma rows_body_at columns n objs :
  rows_body columns n objs -> 0 <= n -> n + zlen (concat (map rows_of objs)) <= I64_MAX ->
  forall i row, concat (map rows_of objs) !! i = Some row -> row_at columns (n + Z.of_nat i) row.
Proof.
  unfold zlen.
  induction 1 as [n obj Hend|n rows n' objs _ Hrun _ IH]; intros Hn Hmax i row Hi.
  - by destruct Hend.
  - cbn [map concat rows_of] in *. rewrite length_app in Hmax.
    pose proof (row_run_at _ _ _ _ Hrun Hn) as Hs. unfold zlen in Hs.
    destruct Hs as [-> Hs]; [lia|].
    rewrite lookup_app in Hi. destruct (rows !! i) as [row'|] eqn:E.
    + injection Hi as <-. eauto.
    + apply lookup_ge_None in E. apply IH in Hi; [|lia..].
      replace (n + Z.of_nat i) with (n + Z.of_nat (length rows) + Z.of_nat (i - length rows))
        by lia. done.
Qed.

(** Within the [i64] range, the rows of a tabular response are numbered 0, 1,
    2, ... across all its batches: none is lost, repeated or reordered, and
    each names only columns of the header. *)
Theorem response_rows_numbered (h : ResultHeader) (objs : list EnvelopeObject)
    (evs : list ResponseEvent) (r' : ResponseReader) (i : nat) (row : Row) :
  accept_all (OResult h :: objs) (ResponseReader_new id) = (Ok evs, r') ->
  finish r' = Ok tt ->
  zlen (concat (map rows_of objs)) <= I64_MAX ->
  concat (map rows_of objs) !! i = Some row ->
  row_at (rh_columns h) (Z.of_nat i) row.
Proof.
  intros Ha Hf Hmax Hi.
  destruct (proj1 (accept_all_expects (OResult h :: objs) AwaitHeader 0 evs (fun _ => eq_refl)))
    as [[_ Hr] _]; [by eauto|].
  inversion Hr as [? ? _ Hbody| | | | | |]; subst.
  by apply (rows_body_at _ 0 objs Hbody).
Qed.

End language.

(** ** Witnesses *)

Definition wit_header : ResultHeader := mkResultHeader "01J" ["id"; "name"] [].
Definition wit_row (n : Z) : Row := mkRow n [("name", Text "x")].
Definition wit_frames : list EnvelopeObject :=
  [ORow [wit_row 0; wit_row 1]; ORow [wit_row 2]; ODone (mkDone "01J" (Some 3) None None false)].

Lemma response_rows_numbered_witness :
  row_at (rh_columns wit_header) (Z.of_nat 2) (wit_row 2).
Proof.
  eapply (response_rows_numbered "01J" wit_header wit_frames); [reflexivity..|by vm_compute|done].
Defined.

Lemma one_terminal_event_witness :
  exists evs r', accept_all (OResult wit_header :: wit_frames) (at_state "01J" AwaitHeader 0) = (Ok evs, r') /\ Forall (fun ev => is_terminal ev = false) (removelast evs).
Proof.
  eexists _, _. split; [reflexivity|].
  apply (one_terminal_event "01J" (OResult wit_header :: wit_frames) AwaitHeader 0 _ _ eq_refl).
Defined.

Lemma reader_poisoned_witness :
  exists e r, accept (ORow [wit_row 0]) (at_state "01J" AwaitHeader 0) = (Err e, r) /\ is_ok (finish r) = false.
Proof.
  eexists _, _. split; [reflexivity|].
  apply (reader_poisoned "01J" AwaitHeader 0 (ORow [wit_row 0]) (OResult wit_header) _ _ _ _
           eq_refl eq_refl).
Defined.
