(* ===== verification/Entrainment.v ===== *)
(** * Entrainment: the state machine over one entrainment's frames

    Models [crates/protocol/src/entrainment.rs], and states the language of
    the entrainments it accepts. *)

From S2P Require Import Prelude RustStd Vocab External Value Envelope.

Inductive EntrainmentEvent : Type :=
| Entrained
| EvVibration (v : Vibration)
| Damped
| EvDenied (d : Denied)
| EvError (e : ErrorEnvelope).

Inductive State : Type := AwaitAck | Flowing | Finished | Failed.

Record EntrainmentReader : Type := mkEntrainmentReader {
  nr_id : string;
  nr_point : string;
  state : State;
  next_seq : Z
}.

Definition EntrainmentReader_new (id point : string) : EntrainmentReader :=
  mkEntrainmentReader id point AwaitAck 0.

Definition is_flowing (self : EntrainmentReader) : bool :=
  match state self with Flowing => true | _ => false end.
Definition is_finished (self : EntrainmentReader) : bool :=
  match state self with Finished => true | _ => false end.

Definition set_state (s : State) (self : EntrainmentReader) : EntrainmentReader :=
  mkEntrainmentReader (nr_id self) (nr_point self) s (next_seq self).
Definition set_seq (n : Z) (self : EntrainmentReader) : EntrainmentReader :=
  mkEntrainmentReader (nr_id self) (nr_point self) (state self) n.

Definition check_id (self : EntrainmentReader) (id : option string) (class : string) :
    result ProtocolError unit :=
  match id with
  | None => Ok tt
  | Some id =>
      if bool_decide (id = nr_id self) then Ok tt
      else Err (choreography [L class; L " frame carries request id "; D id; L ", expected ";
                              D (nr_id self)])
  end.

Definition finish (self : EntrainmentReader) : result ProtocolError unit :=
  match state self with
  | Flowing | Finished => Ok tt
  | AwaitAck => Err (choreography [L "entrain stream ended before the acknowledgment (truncated)"])
  | Failed => Err (choreography [L "entrain stream already failed"])
  end.

Definition fail {A} (m : msg) (self : EntrainmentReader) :
    result ProtocolError A * EntrainmentReader := (Err (choreography m), self).

(** Checks the id, then goes on as [k] says. *)
Definition with_id {A} (self : EntrainmentReader) (id : option string) (class : string)
    (k : result ProtocolError A * EntrainmentReader) : result ProtocolError A * EntrainmentReader :=
  match check_id self id class with
  | Err e => (Err e, self)
  | Ok _ => k
  end.

Definition accept_frame (obj : EnvelopeObject) (self : EntrainmentReader) :
    result ProtocolError EntrainmentEvent * EntrainmentReader :=
  let flowing := is_flowing self in
  match obj with
  | ODone d =>
      with_id self (Some (dn_id d)) "rsntr:Done"
        (if flowing then (Ok Damped, set_state Finished self)
         else (Ok Entrained, set_state Flowing self))
  | OVibration v =>
      if negb flowing then
        fail [L "rsntr:Vibration frame before the rsntr:Done acknowledgment"] self
      else
        with_id self (Some (vb_id v)) "rsntr:Vibration"
          (if negb (bool_decide (vb_point v = nr_point self)) then
             fail [L "vibration names point <"; L (vb_point v); L ">, expected <";
                   L (nr_point self); L ">"] self
           else if negb (vb_seq v =? next_seq self) then
             fail [L "vibration seq "; L (int_to_string (vb_seq v)); L " out of order (expected ";
                   L (int_to_string (next_seq self)); L ")"] self
           else (Ok (EvVibration v), set_seq (i64_incr (next_seq self)) self))
  | ODenied d =>
      if flowing then fail [L "rsntr:Denied frame after the acknowledgment"] self
      else with_id self (dd_id d) "rsntr:Denied" (Ok (EvDenied d), set_state Finished self)
  | OError e => with_id self (er_id e) "rsntr:Error" (Ok (EvError e), set_state Finished self)
  | other => fail [L (envelope_class_name other); L " frame is not an entrainment object"] self
  end.

Definition try_accept (obj : EnvelopeObject) (self : EntrainmentReader) :
    result ProtocolError EntrainmentEvent * EntrainmentReader :=
  match state self with
  | Failed => fail [L "entrain stream already failed"] self
  | Finished =>
      fail [L (envelope_class_name obj); L " frame after the entrainment completed"] self
  | AwaitAck | Flowing => accept_frame obj self
  end.

Definition accept (obj : EnvelopeObject) (self : EntrainmentReader) :
    result ProtocolError EntrainmentEvent * EntrainmentReader :=
  match try_accept obj self with
  | (Ok ev, self') => (Ok ev, self')
  | (Err e, self') => (Err e, set_state Failed self')
  end.

(** Feeding frames until the first error. *)
Fixpoint accept_all (objs : list EnvelopeObject) (self : EntrainmentReader) :
    result ProtocolError (list EntrainmentEvent) * EntrainmentReader :=
  match objs with
  | [] => (Ok [], self)
  | obj :: objs' =>
      match accept obj self with
      | (Err e, self') => (Err e, self')
      | (Ok ev, self') => let '(r, self'') := accept_all objs' self' in (rmap (cons ev) r, self'')
      end
  end.

(** ** The language of entrainments *)

Section language.
Context (id point : string).

Definition id_ok (o : option string) : Prop := o = None \/ o = Some id.

(** What flows after the acknowledgment, numbered from [n], and its events: the
    stream may end at any point, or by a damp or an error. *)
Inductive flow : Z -> list EnvelopeObject -> list EntrainmentEvent -> Prop :=
| flow_end n : flow n [] []
| flow_damped n d : dn_id d = id -> flow n [ODone d] [Damped]
| flow_error n e : id_ok (er_id e) -> flow n [OError e] [EvError e]
| flow_vibration n v objs evs :
    vb_id v = id -> vb_point v = point -> vb_seq v = n -> flow (i64_incr n) objs evs ->
    flow n (OVibration v :: objs) (EvVibration v :: evs).

(** A complete entrainment to [point] under the request [id]. *)
Inductive entrainment : list EnvelopeObject -> list EntrainmentEvent -> Prop :=
| ent_ack d objs evs :
    dn_id d = id -> flow 0 objs evs -> entrainment (ODone d :: objs) (Entrained :: evs)
| ent_denied d : id_ok (dd_id d) -> entrainment [ODenied d] [EvDenied d]
| ent_error e : id_ok (er_id e) -> entrainment [OError e] [EvError e].

(** ** Properties *)

Definition at_state (s : State) (n : Z) : EntrainmentReader := mkEntrainmentReader id point s n.

Lemma coupling_check_id_cases s n o class :
  (check_id (at_state s n) o class = Ok tt /\ id_ok o) \/
  (exists e, check_id (at_state s n) o class = Err e /\ ~ id_ok o).
Proof.
  unfold check_id, id_ok. destruct o as [i|]; [case_bool_decide|]; naive_solver.
Qed.

Lemma coupling_id_ok_Some i : id_ok (Some i) <-> i = id.
Proof. unfold id_ok. naive_solver. Qed.

(** What may still arrive in a given state, with the events it yields. *)
Definition expects (s : State) (n : Z) (objs : list EnvelopeObject)
    (evs : list EntrainmentEvent) : Prop :=
  match s with
  | AwaitAck => n = 0 /\ entrainment objs evs
  | Flowing => flow n objs evs
  | Finished => objs = [] /\ evs = []
  | Failed => False
  end.

Ltac by_checks :=
  unfold with_id; cbn [vb_point nr_point next_seq];
  repeat match goal with
  | |- context [check_id (at_state ?s ?n) ?o ?c] =>
      let H := fresh "Hid" in
      destruct (coupling_check_id_cases s n o c) as [[-> H]|(? & -> & H)]
  | |- context [(?a =? ?b)%Z] => destruct (Z.eqb_spec a b); cbn [negb]
  | |- context [bool_decide (?a = ?b)] => destruct (decide (a = b));
      [rewrite (bool_decide_true (a = b)) by done|rewrite (bool_decide_false (a = b)) by done];
      cbn [negb]
  end.

(** One frame: either refused, and then nothing expected begins with it, or
    accepted into the state that expects the rest. *)
Lemma accept_expects s n obj :
  (s = AwaitAck -> n = 0) ->
  match accept obj (at_state s n) with
  | (Ok ev, r') => exists s' n', r' = at_state s' n' /\ s' <> AwaitAck /\
      forall objs evs, expects s n (obj :: objs) evs <->
                       exists evs', evs = ev :: evs' /\ expects s' n' objs evs'
  | (Err _, _) => forall objs evs, ~ expects s n (obj :: objs) evs
  end.
Proof.
  intros Hn. unfold accept, try_accept, accept_frame. cbn [state at_state].
  destruct s; try by (intros ? ? []).
  all: destruct obj; cbn [is_flowing state negb fail at_state];
    try (intros objs evs Hex; cbn in Hex; by (try destruct Hex as [_ Hex]; inversion Hex)).
  all: fold (at_state AwaitAck n); fold (at_state Flowing n); by_checks.
  all: try (intros objs evs Hex; cbn in Hex; try destruct Hex as [_ Hex];
            inversion Hex; subst; rewrite ?coupling_id_ok_Some in *; done).
  all: rewrite ?coupling_id_ok_Some in *; eexists _, _; (split; [reflexivity|]); (split; [done|]).
  all: intros objs evs; cbn [expects next_seq at_state].
  all: split; [intros Hex|intros (evs' & -> & Hex)].
  all: try specialize (Hn eq_refl) as ->.
  all: try match type of Hex with _ /\ _ => destruct Hex as [? Hex] end.
  all: try (inversion Hex; subst; by eauto using flow).
  all: try split; try done; subst; try (constructor; by eauto).
Qed.

Lemma coupling_accept_all_expects objs : forall s n evs,
  (s = AwaitAck -> n = 0) ->
  (exists r', accept_all objs (at_state s n) = (Ok evs, r') /\ finish r' = Ok tt) <->
  expects s n objs evs.
Proof.
  induction objs as [|obj objs IH]; intros s n evs Hn; cbn [accept_all].
  - split.
    + intros (r' & [= <- <-] & Hf). destruct s; try done. constructor.
    + intros He. destruct s; cbn in He; try done.
      * destruct He as [_ He]. inversion He.
      * inversion He; subst. by eexists.
      * destruct He as [_ ->]. by eexists.
  - pose proof (accept_expects s n obj Hn) as Ha.
    destruct (accept obj _) as [[ev|err] r1].
    + destruct Ha as (s' & n' & -> & Hs' & Hex). rewrite Hex. split.
      * intros (r' & Hr & Hf). destruct (accept_all objs _) as [[evs'|err] r2] eqn:Eall; [|done].
        injection Hr as <- <-. exists evs'. split; [done|].
        apply (IH s' n'); [done|by eauto].
      * intros (evs' & -> & Hrest).
        apply (IH s' n') in Hrest as (r' & -> & Hf); [by eauto|done].
    + split; [by intros (? & ? & _)|]. by intros Hex%Ha.
Qed.

(** The reader implements the language of entrainments: it accepts to a clean
    end exactly the frame sequences of an entrainment to its point under its
    request, with exactly their events: the acknowledgment first, vibrations
    of that point only, numbered without a gap, then at most one end. *)
Theorem entrainment_refines_language (objs : list EnvelopeObject) (evs : list EntrainmentEvent) :
  (exists r', accept_all objs (EntrainmentReader_new id point) = (Ok evs, r') /\ finish r' = Ok tt)
  <-> (entrainment objs evs).
Proof.
  pose proof (coupling_accept_all_expects objs AwaitAck 0 evs (fun _ => eq_refl)) as Hall.
  cbn [expects] in Hall. unfold EntrainmentReader_new. fold (at_state AwaitAck 0). naive_solver.
Qed.

(** After the first error every later frame is an error, and so is the end. *)
Theorem entrainment_poisoned (self r r' : EntrainmentReader) (obj obj' : EnvelopeObject)
    (e : ProtocolError) (res : result ProtocolError EntrainmentEvent) :
  accept obj self = (Err e, r) -> accept obj' r = (res, r') ->
  is_ok res = false /\ state r' = Failed /\ is_ok (finish r') = false.
Proof.
  intros Ha Ha'. assert (Hf : state r = Failed).
  { unfold accept in Ha. destruct (try_accept _ _) as [[|] r1]; by simplify_eq. }
  unfold accept, try_accept in Ha'. rewrite Hf in Ha'. cbn in Ha'. by simplify_eq.
Qed.

End language.

Lemma entrainment_poisoned_witness :
  exists e r, accept (OVibration (mkVibration "01J" "urn:p" 0 None []))
                (EntrainmentReader_new "01J" "urn:p") = (Err e, r) /\
              is_ok (finish r) = false.
Proof.
  eexists _, _. split; [reflexivity|].
  apply (entrainment_poisoned (EntrainmentReader_new "01J" "urn:p") _ _
           (OVibration (mkVibration "01J" "urn:p" 0 None []))
           (ODone (mkDone "01J" None None None false)) _ _ eq_refl eq_refl).
Defined.
