(* ===== verification/AuthTypes.v ===== *)
(** * AuthTypes: decisions, footprints, and the node's database

    Models [crates/authenticator/src/types.rs], and the tables the
    authenticator reads and writes through [rusqlite]: each table is absent or
    holds rows, a statement reads or writes the tables atomically, and may
    fail for reasons of its own (disk, lock), which is an input. *)

From S2P Require Import Prelude RustStd Collections.
From Stdlib Require Export Floats.SpecFloat.

(** ** types.rs *)

Inductive ActionKind : Type := Read | Write | OtherKind.

Definition ActionKind_as_str (self : ActionKind) : string :=
  match self with
  | Read => "read"
  | Write => "write"
  | OtherKind => "other"
  end.

Definition default_action (self : ActionKind) : string :=
  match self with
  | Read => "read"
  | Write | OtherKind => "write"
  end.

Record Footprint : Type := mkFootprint {
  kind : ActionKind;
  tables : gmap string (gset string);
  denied : gset string
}.

Definition Footprint_default : Footprint := mkFootprint Read ∅ ∅.

Definition Footprint_is_empty (self : Footprint) : bool := bool_decide (tables self = ∅).
Definition has_denied (self : Footprint) : bool := negb (bool_decide (denied self = ∅)).
Definition deny_construct (construct : string) (self : Footprint) : Footprint :=
  mkFootprint (kind self) (tables self) ({[construct]} ∪ denied self).

Definition from_tables (kind : ActionKind) (items : list (string * list string)) : Footprint :=
  mkFootprint kind (bt_from_iter (map (fun '(t, cols) => (t, list_to_set cols)) items)) ∅.

Inductive Decision : Type :=
| Allow
| AllowNarrowed (rewritten : string)
| Deny (reason : string)
| Escalate.

Definition audit_str (self : Decision) : option string :=
  match self with
  | Allow => Some "allow"
  | AllowNarrowed _ => Some "allow_narrowed"
  | Deny _ => Some "deny"
  | Escalate => None
  end.

#[export] Instance ActionKind_eq_dec : EqDecision ActionKind.
Proof. solve_decision. Defined.
#[export] Instance Footprint_eq_dec : EqDecision Footprint.
Proof. solve_decision. Defined.
#[export] Instance Decision_eq_dec : EqDecision Decision.
Proof. solve_decision. Defined.

(** ** The database *)

(** A column value as [rusqlite]'s [get] sees it: [SOther] is any storage
    class that is neither NULL nor text (SQLite columns are not typed). *)
Inductive Cell : Type :=
| SNull
| SText (s : string)
| SOther.

(** [row.get::<_, String>] and [row.get::<_, Option<String>>]. *)
Definition get_string (c : Cell) : result string string :=
  match c with
  | SText s => Ok s
  | _ => Err "Invalid column type"
  end.

Definition get_opt_string (c : Cell) : result string (option string) :=
  match c with
  | SText s => Ok (Some s)
  | SNull => Ok None
  | SOther => Err "Invalid column type"
  end.

(** Comparison of a column with a text parameter. *)
Definition cell_is (c : Cell) (s : string) : bool :=
  match c with
  | SText t => bool_decide (t = s)
  | _ => false
  end.

(** 64-bit floats: IEEE binary64, as the reference implementation of the
    standard library computes them. *)
Definition f64 : Type := spec_float.
Definition f64_add : f64 -> f64 -> f64 := SFadd 53 1024.
Definition f64_gt (x y : f64) : bool := SFltb y x.

(** SQLite stores a NaN as NULL. *)
Definition store_real (x : f64) : option f64 :=
  match x with
  | S754_nan => None
  | _ => Some x
  end.

Record PolicyRow : Type := mkPolicyRow {
  po_peer : Cell;
  po_table : Cell;
  po_action : Cell;
  po_effect : Cell;
  po_note : Cell
}.

Record DecisionRow : Type := mkDecisionRow {
  dr_decision : Cell;
  dr_reason : Cell;
  dr_decided_by : Cell;
  dr_created_at : Cell;
  dr_expires_at : option f64
}.

Record InboxRow : Type := mkInboxRow {
  in_request_id : string;
  in_peer : string;
  in_sql : string;
  in_params : string;
  in_decision : option string;
  in_decided_by : option string;
  in_received_at : string
}.

Record PeerRow : Type := mkPeerRow {
  pe_added_at : string;
  pe_notes : option string;
  pe_name : Cell;
  pe_relay_url : Cell;
  pe_addrs : Cell;
  pe_last_seen : Cell
}.

Record ScriptRow : Type := mkScriptRow {
  sc_name : Cell;
  sc_body : Cell;
  sc_enabled : Z
}.

(** The tables; [None] is a table that does not exist. [_rsntr] and
    [_decisions] and [_peers] by primary key, the others in row order. *)
Record Db : Type := mkDb {
  db_rsntr : option (gmap string Cell);
  db_policy : option (list PolicyRow);
  db_decisions : option (gmap (string * string) DecisionRow);
  db_inbox : option (list InboxRow);
  db_peers : option (gmap string PeerRow);
  db_scripts : option (list ScriptRow)
}.

Definition set_policy (t : list PolicyRow) (d : Db) : Db :=
  mkDb (db_rsntr d) (Some t) (db_decisions d) (db_inbox d) (db_peers d) (db_scripts d).
Definition set_decisions (t : gmap (string * string) DecisionRow) (d : Db) : Db :=
  mkDb (db_rsntr d) (db_policy d) (Some t) (db_inbox d) (db_peers d) (db_scripts d).
Definition set_inbox (t : list InboxRow) (d : Db) : Db :=
  mkDb (db_rsntr d) (db_policy d) (db_decisions d) (Some t) (db_peers d) (db_scripts d).

(** A peer of whom only the id is known. *)
Definition new_peer (added_at : string) (notes : option string) : PeerRow := mkPeerRow added_at notes SNull SNull SNull SNull.

Definition set_peers (t : gmap string PeerRow) (d : Db) : Db :=
  mkDb (db_rsntr d) (db_policy d) (db_decisions d) (db_inbox d) (Some t) (db_scripts d).
Definition set_scripts (t : list ScriptRow) (d : Db) : Db :=
  mkDb (db_rsntr d) (db_policy d) (db_decisions d) (db_inbox d) (db_peers d) (Some t).

(** The connection: the tables; the outcome of the statements to come ([Some]
    error, or run; past the list they run); the clock ([as_secs] and
    [as_secs_f64] since the epoch) and the ULIDs to be drawn. *)
Record Conn : Type := mkConn {
  db : Db;
  faults : list (option string);
  now_secs : Z;
  now_f64 : f64;
  ulids : list string
}.

Definition with_db (d : Db) (fs : list (option string)) (c : Conn) : Conn :=
  mkConn d fs (now_secs c) (now_f64 c) (ulids c).

(** [Ulid::new().to_string()]. *)
Definition draw_ulid (c : Conn) : string * Conn :=
  (hd EmptyString (ulids c), mkConn (db c) (faults c) (now_secs c) (now_f64 c) (tail (ulids c))).

(** Running one statement. *)
Definition sql {A} (f : Db -> result string (A * Db)) (c : Conn) : result string A * Conn :=
  match faults c with
  | Some e :: fs => (Err e, with_db (db c) fs c)
  | fs => match f (db c) with
          | Ok (a, d) => (Ok a, with_db d (tail fs) c)
          | Err e => (Err e, with_db (db c) (tail fs) c)
          end
  end.

(** A statement that only reads. *)
Definition query {A} (f : Db -> result string A) : Conn -> result string A * Conn :=
  sql (fun d => rmap (fun a => (a, d)) (f d)).

(** A statement that only writes. *)
Definition execute (f : Db -> result string Db) : Conn -> result string unit * Conn :=
  sql (fun d => rmap (fun d' => (tt, d')) (f d)).

(** Code that runs statements: the state is the connection, and an [Err]
    stops. *)
Definition M (E A : Type) : Type := Conn -> result E A * Conn.

Definition ret {E A} (a : A) : M E A := fun c => (Ok a, c).
Definition throw {E A} (e : E) : M E A := fun c => (Err e, c).
Definition mbind {E A B} (f : A -> M E B) (m : M E A) : M E B :=
  fun c => match m c with
           | (Ok a, c') => f a c'
           | (Err e, c') => (Err e, c')
           end.
Definition mmap_err {E F A} (g : E -> F) (m : M E A) : M F A :=
  fun c => match m c with
           | (Ok a, c') => (Ok a, c')
           | (Err e, c') => (Err (g e), c')
           end.

Notation "'let!' x := m 'in' k" := (mbind (fun x => k) m)
  (at level 10, x pattern, m at level 200, k at level 200,
   format "'[v' 'let!'  x  :=  m  'in' '/' k ']'") : rsntr_scope.

(** A table that must exist. *)
Definition need_table {A} (name : string) (t : option A) : result string A :=
  ok_or ("no such table: " +:+ name) t.

(** ** Creating the tables: [CREATE TABLE IF NOT EXISTS] *)

Definition ensure_policy_table : Conn -> result string unit * Conn :=
  execute (fun d => Ok (set_policy (default [] (db_policy d)) d)).
Definition ensure_scripts_table : Conn -> result string unit * Conn :=
  execute (fun d => Ok (set_scripts (default [] (db_scripts d)) d)).
Definition ensure_decisions_table : Conn -> result string unit * Conn :=
  execute (fun d => Ok (set_decisions (default ∅ (db_decisions d)) d)).

Definition ensure_auth_tables : M string unit :=
  let! _ := ensure_policy_table in
  let! _ := ensure_scripts_table in
  ensure_decisions_table.

(** ** Statements that run *)

(** Nothing fails but for reasons the model gives. *)
Definition healthy (c : Conn) : Prop := Forall (fun f => f = None) (faults c).

Lemma sql_healthy {A} (f : Db -> result string (A * Db)) c :
  healthy c ->
  exists fs, Forall (fun f => f = None) fs /\
  sql f c = match f (db c) with
            | Ok (a, d) => (Ok a, with_db d fs c)
            | Err e => (Err e, with_db (db c) fs c)
            end.
Proof.
  unfold healthy, sql. destruct (faults c) as [|[e|] fs]; intros Hc.
  - exists []. by split.
  - by inversion Hc.
  - exists fs. split; [by inversion Hc|done].
Qed.

Lemma query_keeps {A} (f : Db -> result string A) c r c' :
  query f c = (r, c') -> db c' = db c /\ now_f64 c' = now_f64 c /\ now_secs c' = now_secs c /\
  ulids c' = ulids c /\ (healthy c -> healthy c').
Proof.
  unfold query, sql, healthy. destruct (faults c) as [|[e|] fs] eqn:Hf.
  all: try (destruct (f (db c))). all: cbn; intros [= <- <-]; cbn; split_and!; try done.
  all: intros Hh; by inversion Hh.
Qed.

Lemma query_healthy {A} (f : Db -> result string A) c :
  healthy c -> fst (query f c) = f (db c).
Proof.
  intros (fs & _ & Hq)%(sql_healthy (fun d => rmap (fun a => (a, d)) (f d))).
  unfold query. rewrite Hq. by destruct (f (db c)).
Qed.
