(* ===== verification/Chain.v ===== *)
(** * Chain: the decider chain

    Models [crates/authenticator/src/chain.rs]: the registry of tiers, the
    configuration read from [_rsntr] on every request, the authority masks, and
    the loop in which the first answer within its tier's authority wins. The
    JSON readers of the configuration values are [serde_json]'s
    ([ChainJson]). *)

From S2P Require Import Prelude RustStd Collections AuthTypes.

(** The trait [Tier]. A call that panics gives [None]; what its statements
    wrote before stays written. *)
Record Tier : Type := mkTier {
  tier_name : string;
  tier_decide : Conn -> string -> string -> Footprint -> string -> option Decision * Conn
}.

Record TierMask : Type := mkTierMask {
  tm_allow : list string;
  tm_allow_narrowed : list string;
  tm_deny : list string
}.

Definition permits (self : TierMask) (decision : Decision) (action : string) : bool :=
  match decision with
  | Escalate => true
  | _ =>
      let list := match decision with
                  | Allow => tm_allow self
                  | AllowNarrowed _ => tm_allow_narrowed self
                  | _ => tm_deny self
                  end in
      existsb (fun a => bool_decide (a = "*") || bool_decide (a = action)) list
  end.

Record Decided : Type := mkDecided {
  dc_decision : Decision;
  dc_decided_by : string
}.

Definition DEFAULT_DENY_REASON : string := "no decider in the chain allowed the request".

Definition Chain : Type := gmap string Tier.

Definition Chain_new : Chain := ∅.

Definition register (self : Chain) (tier : Tier) : Chain := <[tier_name tier := tier]> self.

(** [serde_json::from_str] at the types of the two settings. *)
Class ChainJson : Type := {
  json_names : string -> result string (list string);
  json_masks : string -> result string (gmap string TierMask)
}.

Section chain.
Context `{!ChainJson}.

Definition read_rsntr_row (key : string) (d : Db) : result string string :=
  let? t := need_table "_rsntr" (db_rsntr d) in
  let? cell := ok_or "Query returned no rows" (t !! key) in
  get_string cell.

(** [.ok()]: any error is an absent setting. *)
Definition read_rsntr (conn : Conn) (key : string) : option string * Conn :=
  match query (read_rsntr_row key) conn with
  | (Ok raw, conn) => (Some raw, conn)
  | (Err _, conn) => (None, conn)
  end.

Definition read_config (conn : Conn) : (list string * gmap string TierMask) * Conn :=
  let '(raw, conn) := read_rsntr conn "auth_chain" in
  match match raw with Some raw => json_names raw | None => Ok [] end with
  | Err _ => (([], ∅), conn)
  | Ok chain =>
      let '(raw, conn) := read_rsntr conn "auth_masks" in
      match match raw with Some raw => json_masks raw | None => Ok ∅ end with
      | Err _ => (([], ∅), conn)
      | Ok masks => ((chain, masks), conn)
      end
  end.

Section request.
Variables (self : Chain) (masks : gmap string TierMask).
Variables (peer action : string) (footprint : Footprint) (statement : string).

(** One turn of the loop: the answer, or nothing when the tier is not
    registered, abstained, panicked or exceeded its authority. *)
Definition ask (name : string) (conn : Conn) : option Decision * Conn :=
  match self !! name with
  | None => (None, conn)
  | Some tier =>
      let '(answer, conn) := tier_decide tier conn peer action footprint statement in
      let decision := default Escalate answer in
      if bool_decide (decision = Escalate) then (None, conn)
      else
        let permitted := match masks !! name with
                         | None => true
                         | Some m => permits m decision action
                         end in
        (if negb permitted then None else Some decision, conn)
  end.

Fixpoint decide_loop (names : list string) (conn : Conn) : Decided * Conn :=
  match names with
  | [] => (mkDecided (Deny DEFAULT_DENY_REASON) "default", conn)
  | name :: names' =>
      match ask name conn with
      | (None, conn) => decide_loop names' conn
      | (Some decision, conn) => (mkDecided decision name, conn)
      end
  end.

(** Every named tier in turn gave no answer. *)
Inductive abstained : list string -> Conn -> Conn -> Prop :=
| abstained_nil c : abstained [] c c
| abstained_cons name names c c1 c2 :
    ask name c = (None, c1) -> abstained names c1 c2 -> abstained (name :: names) c c2.

End request.

Definition decide (self : Chain) (conn : Conn) (peer action : string) (footprint : Footprint)
    (statement : string) : Decided * Conn :=
  let '((chain_names, masks), conn) := read_config conn in
  decide_loop self masks peer action footprint statement chain_names conn.

(** ** Properties *)

Lemma ask_Some self masks peer action fp stm name c d c' :
  ask self masks peer action fp stm name c = (Some d, c') <->
  exists tier, self !! name = Some tier /\ tier_decide tier c peer action fp stm = (Some d, c') /\
    d <> Escalate /\ (forall m, masks !! name = Some m -> permits m d action = true).
Proof.
  unfold ask. destruct (self !! name) as [tier|]; [|by split; [|intros (? & ? & _)]].
  destruct (tier_decide tier c peer action fp stm) as [answer c1] eqn:E.
  assert (Hun : forall t, Some tier = Some t -> tier_decide t c peer action fp stm = (answer, c1))
    by (by intros ? [= <-]).
  destruct answer as [d1|]; cbn.
  2: { split; [done|]. intros (t & Ht & Hd & _). apply Hun in Ht. congruence. }
  case_bool_decide as Hd.
  { split; [done|]. intros (t & Ht & Ht' & ? & _). apply Hun in Ht. congruence. }
  assert (Hm : (match masks !! name with None => true | Some m => permits m d1 action end = true) <->
               forall m, masks !! name = Some m -> permits m d1 action = true).
  { destruct (masks !! name); [|by split]. split; [by intros ? ? [= <-]|by intros Hm; apply Hm]. }
  destruct (match masks !! name with None => true | Some m => permits m d1 action end); cbn; split.
  - intros [= <- <-]. exists tier. split_and!; [done..|]. by apply Hm.
  - intros (t & Ht & Ht' & _). apply Hun in Ht. congruence.
  - done.
  - intros (t & Ht & Ht' & _ & Hp). apply Hun in Ht. assert (d1 = d) as -> by congruence.
    by apply Hm in Hp.
Qed.

Lemma abstained_cons_inv self masks peer action fp stm name names c c2 :
  abstained self masks peer action fp stm (name :: names) c c2 ->
  exists c1, ask self masks peer action fp stm name c = (None, c1) /\
             abstained self masks peer action fp stm names c1 c2.
Proof. inversion 1; eauto. Qed.

Lemma decide_loop_spec self masks peer action fp stm names : forall c r c',
  decide_loop self masks peer action fp stm names c = (r, c') <->
  (exists pre name post d c1, names = pre ++ name :: post /\
     abstained self masks peer action fp stm pre c c1 /\
     ask self masks peer action fp stm name c1 = (Some d, c') /\ r = mkDecided d name) \/
  abstained self masks peer action fp stm names c c' /\
    r = mkDecided (Deny DEFAULT_DENY_REASON) "default".
Proof.
  induction names as [|name names IH]; intros c r c'; cbn [decide_loop].
  { split.
    - intros [= <- <-]. right. split; [constructor|done].
    - intros [(pre & ? & ? & ? & ? & Hn & _)|[Ha ->]]; [by destruct pre|by inversion Ha]. }
  destruct (ask self masks peer action fp stm name c) as [[d|] c1] eqn:E.
  - split.
    + intros [= <- <-]. left. exists [], name, names, d, c. split_and!; [done|constructor|done..].
    + intros [(pre & n & post & d1 & c2 & Hn & Ha & He & ->)|[Ha ->]]; [|by inversion Ha; congruence].
      destruct pre as [|n1 pre]; simplify_eq/=; inversion Ha; subst; congruence.
  - rewrite IH. split; (intros [(pre & n & post & d & c2 & Hn & Ha & He & ->)|[Ha ->]]; [left|right]).
    + exists (name :: pre), n, post, d, c2. subst. split_and!; [done|by econstructor|done..].
    + split; [by econstructor|done].
    + destruct pre as [|n1 pre]; [inversion Ha; simplify_eq/=; congruence|].
      apply abstained_cons_inv in Ha as (c3 & He' & Ha). simplify_eq/=. rewrite E in He'.
      injection He' as <-. by exists pre, n, post, d, c2.
    + apply abstained_cons_inv in Ha as (c3 & He' & Ha). rewrite E in He'. by injection He' as <-.
Qed.

(** C7. The first answer within authority wins: the chain decides [d] for the tier
    [name] exactly when the configuration names it, every tier named before it
    gave no answer, and it answered [d] within its mask; otherwise, and only
    then, it is the default denial. *)
Theorem decide_first (self : Chain) (conn conn' : Conn) (peer action : string) (fp : Footprint)
    (stm : string) (r : Decided) :
  let '((names, masks), c0) := read_config conn in
  decide self conn peer action fp stm = (r, conn') <->
  (exists pre name post d c1 tier, names = pre ++ name :: post /\
     abstained self masks peer action fp stm pre c0 c1 /\
     self !! name = Some tier /\ tier_decide tier c1 peer action fp stm = (Some d, conn') /\
     d <> Escalate /\ (forall m, masks !! name = Some m -> permits m d action = true) /\
     r = mkDecided d name) \/
  abstained self masks peer action fp stm names c0 conn' /\
    r = mkDecided (Deny DEFAULT_DENY_REASON) "default".
Proof.
  unfold decide. destruct (read_config conn) as [[names masks] c0]. rewrite decide_loop_spec.
  apply or_iff_compat_r. setoid_rewrite ask_Some. naive_solver.
Qed.

(** The chain never answers Escalate, so every request gets a final answer
    that the audit ledger can name. *)
Theorem decide_final (self : Chain) (conn : Conn) (peer action : string) (fp : Footprint) (stm : string) :
  let d := dc_decision (fst (decide self conn peer action fp stm)) in
  d <> Escalate /\ is_Some (audit_str d).
Proof.
  destruct (decide self conn peer action fp stm) as [r conn'] eqn:Hd. unfold decide in Hd.
  destruct (read_config conn) as [[names masks] c0]. apply decide_loop_spec in Hd. setoid_rewrite ask_Some in Hd.
  cbn [fst].
  enough (dc_decision r <> Escalate) as Hne by (split; [done|]; by destruct (dc_decision r)).
  naive_solver.
Qed.

Lemma read_rsntr_healthy conn key :
  healthy conn ->
  exists conn', read_rsntr conn key = (match read_rsntr_row key (db conn) with Ok raw => Some raw | Err _ => None end, conn')
    /\ db conn' = db conn /\ healthy conn'.
Proof.
  intros Hc. unfold read_rsntr. pose proof (query_healthy (read_rsntr_row key) conn Hc) as Hq.
  destruct (query (read_rsntr_row key) conn) as [r c] eqn:E. cbn in Hq. subst r.
  apply query_keeps in E as (Hdb & _ & _ & _ & Hh).
  destruct (read_rsntr_row key (db conn)); eexists; (split; [done|]); auto.
Qed.

Lemma read_config_healthy conn :
  healthy conn ->
  exists conn', db conn' = db conn /\ healthy conn' /\
  read_config conn =
    (match match read_rsntr_row "auth_chain" (db conn) with Ok raw => json_names raw | Err _ => Ok [] end,
           match read_rsntr_row "auth_masks" (db conn) with Ok raw => json_masks raw | Err _ => Ok ∅ end with
     | Ok names, Ok masks => (names, masks)
     | _, _ => ([], ∅)
     end, conn').
Proof.
  intros Hc. unfold read_config.
  destruct (read_rsntr_healthy conn "auth_chain" Hc) as (c1 & -> & Hdb1 & Hc1).
  destruct (read_rsntr_healthy c1 "auth_masks" Hc1) as (c2 & Hr2 & Hdb2 & Hc2).
  rewrite Hdb1 in *.
  assert (Hdb : db c2 = db conn) by congruence.
  destruct (read_rsntr_row "auth_chain" (db conn)) as [raw|e]; [destruct (json_names raw) as [names|e]|].
  2: { exists c1. split_and!; [done..|]. by repeat case_match. }
  all: exists c2; (split_and!; [done..|]); rewrite Hr2.
  all: by destruct (read_rsntr_row "auth_masks" (db conn)) as [raw'|]; [destruct (json_masks raw')|].
Qed.

(** C40. With no chain, an unparseable chain or unparseable masks everything is
    denied: no tier runs, the answer is the default denial and nothing is
    written. Masks that are missing or cannot be read as text are taken for no
    masks, and are not among the cases ([unreadable_masks_full_authority]). *)
Theorem decide_fail_closed (self : Chain) (conn : Conn) (peer action : string) (fp : Footprint) (stm : string) :
  healthy conn ->
  (forall raw names, read_rsntr_row "auth_chain" (db conn) = Ok raw -> json_names raw <> Ok names) \/
  (exists raw e, read_rsntr_row "auth_masks" (db conn) = Ok raw /\ json_masks raw = Err e) ->
  fst (decide self conn peer action fp stm) = mkDecided (Deny DEFAULT_DENY_REASON) "default" /\
  db (snd (decide self conn peer action fp stm)) = db conn.
Proof.
  intros Hc Hbad. unfold decide. destruct (read_config_healthy conn Hc) as (c & Hdb & _ & ->).
  destruct Hbad as [Hbad|(raw & e & -> & ->)].
  - destruct (read_rsntr_row "auth_chain" (db conn)) as [raw|]; [destruct (json_names raw) as [names|] eqn:En|].
    { by destruct (Hbad raw names eq_refl). }
    all: by repeat case_match; simplify_eq/=.
  - by repeat case_match; simplify_eq/=.
Qed.

(** Masks that cannot be read as text, unlike masks that cannot be parsed, are
    taken for no masks at all: every tier then has full authority. *)
Theorem unreadable_masks_full_authority (self : Chain) (conn : Conn) (peer action : string)
    (fp : Footprint) (stm : string) (t : gmap string Cell) (raw name : string) (tier : Tier) (d : Decision) :
  healthy conn -> db_rsntr (db conn) = Some t -> t !! "auth_masks" = Some SOther ->
  t !! "auth_chain" = Some (SText raw) -> json_names raw = Ok [name] -> self !! name = Some tier ->
  (forall c, tier_decide tier c peer action fp stm = (Some d, c)) -> d <> Escalate ->
  fst (decide self conn peer action fp stm) = mkDecided d name.
Proof.
  intros Hc Ht Hm Hn Hj Hreg Htier Hd. unfold decide.
  destruct (read_config_healthy conn Hc) as (c & _ & _ & ->). unfold read_rsntr_row. rewrite Ht. cbn.
  rewrite Hn, Hm. cbn. rewrite Hj. cbn. unfold ask. rewrite Hreg, Htier. cbn.
  by rewrite bool_decide_false.
Qed.

End chain.

(** ** Witnesses *)

Definition wit_json : ChainJson := {|
  json_names raw := Ok [raw];
  json_masks raw := Err "expected a map"
|}.

Definition wit_conn (masks : Cell) : Conn :=
  mkConn (mkDb (Some {["auth_chain" := SText "ai"; "auth_masks" := masks]}) None None None None None)
    [] 0 (S754_zero false) [].

Definition wit_tier : Tier := mkTier "ai" (fun c _ _ _ _ => (Some Allow, c)).

Lemma decide_fail_closed_witness :
  let c := wit_conn (SText "[]") in
  healthy c /\ fst (@decide wit_json (register ∅ wit_tier) c "alice" "read" Footprint_default "") =
               mkDecided (Deny DEFAULT_DENY_REASON) "default".
Proof.
  intros c. assert (Hc : healthy c) by constructor. split; [exact Hc|].
  refine (proj1 (@decide_fail_closed wit_json _ c "alice" "read" Footprint_default "" Hc _)).
  right. exists "[]", "expected a map". split; reflexivity.
Defined.

Lemma unreadable_masks_full_authority_witness :
  let c := wit_conn SOther in
  healthy c /\ fst (@decide wit_json (register ∅ wit_tier) c "alice" "write" Footprint_default "") =
               mkDecided Allow "ai".
Proof.
  intros c. assert (Hc : healthy c) by constructor. split; [exact Hc|].
  refine (@unreadable_masks_full_authority wit_json _ c "alice" "write" Footprint_default ""
            _ "ai" "ai" wit_tier Allow Hc eq_refl _ _ _ _ _ _); done.
Defined.
