(* ===== verification/Policy.v ===== *)
(** * Policy: the table of rules

    Models [crates/authenticator/src/policy.rs]: the lookup of the most
    specific rules for one resource, and the tier's decision over the
    resources of a request. *)

From S2P Require Import Prelude RustStd Collections AuthTypes Chain.

Local Open Scope Z_scope.

Inductive Resolved : Type := RAllow | RDeny | RUnmatched.

(** [WHERE action = ?1 AND (peer_or_group = ?2 OR peer_or_group = '*') AND
    (table_name = ?3 OR table_name = '*')]. *)
Definition applicable (peer table action : string) (row : PolicyRow) : bool :=
  cell_is (po_action row) action &&
  (cell_is (po_peer row) peer || cell_is (po_peer row) "*") &&
  (cell_is (po_table row) table || cell_is (po_table row) "*").

Definition rule_of (row : PolicyRow) : result string (string * string * string) :=
  let? p := get_string (po_peer row) in
  let? t := get_string (po_table row) in
  let? effect := get_string (po_effect row) in
  Ok (p, t, effect).

(** [u8::from(p != "*") * 2 + u8::from(t != "*")]. *)
Definition score_of (p t : string) : Z :=
  (if bool_decide (p = "*") then 0 else 1) * 2 + (if bool_decide (t = "*") then 0 else 1).

Definition best_step (best : option (Z * bool)) (rule : string * string * string) : option (Z * bool) :=
  let '(p, t, effect) := rule in
  let score := score_of p t in
  let is_allow := bool_decide (effect = "allow") in
  match best with
  | None => Some (score, is_allow)
  | Some (s, a) =>
      if s <? score then Some (score, is_allow)
      else if score =? s then Some (s, a && is_allow)
      else Some (s, a)
  end.

Definition resolve_rows (peer table action : string) (d : Db) : result string Resolved :=
  let? rows := need_table "_policy" (db_policy d) in
  let? rules := traverse rule_of (base.filter (fun r => applicable peer table action r = true) rows) in
  Ok (match foldl best_step None rules with
      | None => RUnmatched
      | Some (_, true) => RAllow
      | Some (_, false) => RDeny
      end).

Definition resolve (conn : Conn) (peer table action : string) : result string Resolved * Conn :=
  query (resolve_rows peer table action) conn.

(** The loop over the resources, with its [unmatched] flag. *)
Fixpoint resources_loop (peer action : string) (unmatched : bool) (resources : list string)
    (conn : Conn) : Decision * Conn :=
  match resources with
  | [] => ((if unmatched then Escalate else Allow), conn)
  | table :: resources' =>
      match resolve conn peer table action with
      | (Ok RAllow, conn) => resources_loop peer action unmatched resources' conn
      | (Ok RDeny, conn) =>
          (Deny ("policy: " +:+ action +:+ " on " +:+ table +:+ " denied for " +:+ peer), conn)
      | (Ok RUnmatched, conn) => resources_loop peer action true resources' conn
      | (Err _, conn) => (Escalate, conn)
      end
  end.

Definition resources_of (footprint : Footprint) : list string :=
  if Footprint_is_empty footprint then ["*"] else bt_keys (tables footprint).

Definition policy_decide (conn : Conn) (peer action : string) (footprint : Footprint)
    (_statement : string) : Decision * Conn :=
  if has_denied footprint then
    (Deny ("policy: statement uses denied constructs: " +:+ RustStd.join ", " (bs_iter (denied footprint))), conn)
  else resources_loop peer action false (resources_of footprint) conn.

Definition PolicyTier : Tier :=
  mkTier "policy" (fun conn peer action footprint statement =>
    let '(d, conn) := policy_decide conn peer action footprint statement in (Some d, conn)).

(** ** The reference: most specific rules, deny at a tie *)

(** A rule row whose columns are all text. *)
Definition readable (row : PolicyRow) : Prop := exists rule, rule_of row = Ok rule.

Definition row_score (row : PolicyRow) : Z :=
  match rule_of row with Ok (p, t, _) => score_of p t | Err _ => -1 end.
Definition row_allows (row : PolicyRow) : bool := cell_is (po_effect row) "allow".

(** The rules for a resource that no other rule for it outranks. *)
Definition governing (rows : list PolicyRow) (peer table action : string) : list PolicyRow :=
  let apps := base.filter (fun r => applicable peer table action r = true) rows in
  base.filter (fun r => Forall (fun r' => row_score r' <= row_score r) apps) apps.

(** What the governing rules say. *)
Definition verdict (rows : list PolicyRow) (peer table action : string) : Resolved :=
  match governing rows peer table action with
  | [] => RUnmatched
  | rs => if forallb row_allows rs then RAllow else RDeny
  end.

(** ** The fold *)

Definition rule_score (rule : string * string * string) : Z := let '(p, t, _) := rule in score_of p t.
Definition rule_allows (rule : string * string * string) : bool :=
  let '(_, _, effect) := rule in bool_decide (effect = "allow").

Lemma best_step_eq best x :
  best_step best x =
  match best with
  | None => Some (rule_score x, rule_allows x)
  | Some (s, a) => if s <? rule_score x then Some (rule_score x, rule_allows x)
                   else if rule_score x =? s then Some (s, a && rule_allows x) else Some (s, a)
  end.
Proof. by destruct x as [[p t] effect]. Qed.

Lemma best_spec (rules : list (string * string * string)) :
  match foldl best_step None rules with
  | None => rules = []
  | Some (s, a) =>
      (exists x, x ∈ rules /\ rule_score x = s) /\ (forall x, x ∈ rules -> rule_score x <= s) /\
      (a = true <-> forall x, x ∈ rules -> rule_score x = s -> rule_allows x = true)
  end.
Proof.
  induction rules as [|x rules IH] using rev_ind; [done|].
  rewrite foldl_app. cbn [foldl]. rewrite best_step_eq.
  assert (Hlast : forall l, x ∈ l ++ [x]) by set_solver.
  assert (Hinit : forall y, y ∈ rules -> y ∈ rules ++ [x]) by set_solver.
  destruct (foldl best_step None rules) as [[s a]|].
  - destruct IH as ((y & Hy & Hys) & Hmax & Ha).
    destruct (Z.ltb_spec s (rule_score x)); [|destruct (Z.eqb_spec (rule_score x) s)]; (split; [|split]).
    + exists x. auto.
    + intros z [Hz| ->%list_elem_of_singleton]%elem_of_app; [apply Hmax in Hz; lia|lia].
    + split; [|intros Hall; apply Hall; [apply Hlast|done]].
      intros Hx z [Hz| ->%list_elem_of_singleton]%elem_of_app; [apply Hmax in Hz; lia|done].
    + exists y. auto.
    + intros z [Hz| ->%list_elem_of_singleton]%elem_of_app; [by apply Hmax|lia].
    + rewrite andb_true_iff, Ha. split.
      * intros [Hall Hx] z [Hz| ->%list_elem_of_singleton]%elem_of_app; [by apply Hall|done].
      * intros Hall. split; [intros z Hz|]; apply Hall; auto.
    + exists y. auto.
    + intros z [Hz| ->%list_elem_of_singleton]%elem_of_app; [by apply Hmax|lia].
    + rewrite Ha. split.
      * intros Hall z [Hz| ->%list_elem_of_singleton]%elem_of_app; [by apply Hall|lia].
      * intros Hall z Hz. apply Hall. auto.
  - subst. split; [|split].
    + exists x. set_solver.
    + intros z ->%list_elem_of_singleton. lia.
    + split; [by intros ? z ->%list_elem_of_singleton|intros Hall; apply Hall; [apply (Hlast [])|done]].
Qed.

Lemma rule_of_score row rule : rule_of row = Ok rule -> row_score row = rule_score rule.
Proof. unfold row_score. intros ->. by destruct rule as [[p t] e]. Qed.

Lemma rule_of_allows row rule : rule_of row = Ok rule -> row_allows row = rule_allows rule.
Proof.
  unfold rule_of, row_allows, cell_is. intros Hr. inv_ok.
  by destruct (po_effect row); simplify_eq/=.
Qed.

(** The fold computes the reference verdict. *)
Lemma resolve_rows_verdict peer table action d rows :
  db_policy d = Some rows -> Forall readable rows ->
  resolve_rows peer table action d = Ok (verdict rows peer table action).
Proof.
  intros Hd Hrows. unfold resolve_rows, verdict, governing. rewrite Hd. cbn.
  set (apps := base.filter _ rows).
  assert (exists rules, traverse rule_of apps = Ok rules) as [rules Hrules].
  { assert (Forall readable apps) as Hall by (unfold apps; rewrite Forall_forall in *; intros r [_ Hr]%list_elem_of_filter; auto).
    clearbody apps. induction Hall as [|r apps [rule Hr] _ [rules IH]]; [by exists []|].
    exists (rule :: rules). cbn. by rewrite Hr, IH. }
  rewrite Hrules. cbn [rbind]. apply traverse_Ok in Hrules.
  assert (Hto : forall r, r ∈ apps -> exists rule, rule ∈ rules /\ rule_of r = Ok rule).
  { intros r [i Hi]%list_elem_of_lookup. destruct (Forall2_lookup_l _ _ _ _ _ Hrules Hi) as (rule & Hj & ?).
    exists rule. split; [by eapply list_elem_of_lookup_2|done]. }
  assert (Hof : forall rule, rule ∈ rules -> exists r, r ∈ apps /\ rule_of r = Ok rule).
  { intros rule [i Hi]%list_elem_of_lookup. destruct (Forall2_lookup_r _ _ _ _ _ Hrules Hi) as (r & Hj & ?).
    exists r. split; [by eapply list_elem_of_lookup_2|done]. }
  pose proof (best_spec rules) as Hb. destruct (foldl best_step None rules) as [[s a]|].
  2: { subst rules. by apply Forall2_nil_inv_r in Hrules as ->. }
  destruct Hb as ((x & Hx & Hxs) & Hmax & Ha). f_equal.
  set (gov := base.filter _ apps).
  assert (Hgov : forall r, r ∈ gov <-> r ∈ apps /\ row_score r = s).
  { intros r. unfold gov. rewrite list_elem_of_filter, Forall_forall. destruct (Hof x Hx) as (rx & Hrx & Hex).
    split.
    - intros [Hr Hin]. split; [done|]. apply Hr in Hrx. destruct (Hto r Hin) as (rule & Hrule & Her).
      apply rule_of_score in Hex, Her. apply Hmax in Hrule. lia.
    - intros [Hin Hs]. split; [|done]. intros r' (rule & Hrule & Her)%Hto.
      apply rule_of_score in Her. apply Hmax in Hrule. lia. }
  assert (Hall : forallb row_allows gov = a).
  { apply eq_bool_prop_intro. rewrite !Is_true_true, Ha, forallb_forall. setoid_rewrite <-list_elem_of_In. split.
    - intros Hg rule (r & Hr & Her)%Hof Hs. rewrite <-(rule_of_allows r rule Her). apply Hg, Hgov.
      split; [done|]. by rewrite (rule_of_score r rule Her).
    - intros Hg r [(rule & Hrule & Her)%Hto Hs]%Hgov. rewrite (rule_of_allows r rule Her). apply Hg; [done|].
      by rewrite <-(rule_of_score r rule Her). }
  assert (Hne : gov <> []).
  { intros Hnil. destruct (Hof x Hx) as (rx & Hrx & Hex). apply rule_of_score in Hex.
    assert (rx ∈ gov) as Hin by (apply Hgov; split; [done|lia]). rewrite Hnil in Hin. set_solver. }
  destruct gov; [done|]. rewrite <-Hall. reflexivity.
Qed.

(** ** The decision *)

Definition deny_reason (peer action table : string) : string :=
  "policy: " +:+ action +:+ " on " +:+ table +:+ " denied for " +:+ peer.

(** The reference decision over the resources, in order. *)
Fixpoint judge (rows : list PolicyRow) (peer action : string) (resources : list string) : Decision :=
  match resources with
  | [] => Allow
  | table :: resources' =>
      match verdict rows peer table action, judge rows peer action resources' with
      | RDeny, _ => Deny (deny_reason peer action table)
      | _, Deny reason => Deny reason
      | RUnmatched, _ => Escalate
      | RAllow, later => later
      end
  end.

Lemma judge_cases rows peer action resources :
  match judge rows peer action resources with
  | Allow => forall t, t ∈ resources -> verdict rows peer t action = RAllow
  | Deny reason => exists t, t ∈ resources /\ verdict rows peer t action = RDeny /\
                             reason = deny_reason peer action t
  | Escalate => (exists t, t ∈ resources /\ verdict rows peer t action = RUnmatched) /\
                forall t, t ∈ resources -> verdict rows peer t action <> RDeny
  | AllowNarrowed _ => False
  end.
Proof.
  induction resources as [|t resources IH]; cbn; [by intros t ?%elem_of_nil|].
  destruct (verdict rows peer t action) eqn:Ev, (judge rows peer action resources) eqn:Ej; try done.
  all: setoid_rewrite elem_of_cons.
  all: try solve [exists t; auto].
  all: try solve [destruct IH as (t' & ? & ? & ?); exists t'; auto].
  - intros t' [->|?]; auto.
  - destruct IH as [(t' & ? & ?) IH]. split; [exists t'; auto|]. intros t'' [->|?]; [congruence|auto].
  - split; [exists t; auto|]. intros t' [->|Ht]; [congruence|]. apply IH in Ht. congruence.
  - destruct IH as [_ IH]. split; [exists t; auto|]. intros t' [->|?]; [congruence|auto].
Qed.

Lemma resources_loop_judge peer action rows resources : forall unmatched conn,
  healthy conn -> db_policy (db conn) = Some rows -> Forall readable rows ->
  fst (resources_loop peer action unmatched resources conn) =
  match judge rows peer action resources with
  | Allow => if unmatched then Escalate else Allow
  | d => d
  end.
Proof.
  induction resources as [|t resources IH]; intros unmatched conn Hc Hdb Hr; [done|].
  cbn [resources_loop judge]. unfold resolve.
  pose proof (query_healthy (resolve_rows peer t action) conn Hc) as Hq.
  destruct (query (resolve_rows peer t action) conn) as [r c] eqn:E. cbn in Hq. subst r.
  apply query_keeps in E as (Hdb' & _ & _ & _ & Hc').
  rewrite (resolve_rows_verdict _ _ _ _ rows) by done.
  pose proof (judge_cases rows peer action resources) as Hj.
  destruct (verdict rows peer t action); [|done|]; (rewrite IH; [|auto|congruence|done]);
    by destruct (judge rows peer action resources), unmatched.
Qed.

(** C8. The policy tier allows a request exactly when it uses no denied construct
    and, for every resource, the most specific rules exist and all allow; it
    denies when a construct is denied or some resource's most specific rules
    include a denial; it abstains otherwise. *)
Theorem policy_decide_spec (conn : Conn) (rows : list PolicyRow) (peer action stm : string) (fp : Footprint) :
  healthy conn -> db_policy (db conn) = Some rows -> Forall readable rows ->
  let says t := verdict rows peer t action in
  match fst (policy_decide conn peer action fp stm) with
  | Allow => denied fp = ∅ /\ forall t, t ∈ resources_of fp -> says t = RAllow
  | Deny _ => denied fp <> ∅ \/ exists t, t ∈ resources_of fp /\ says t = RDeny
  | Escalate => denied fp = ∅ /\ (exists t, t ∈ resources_of fp /\ says t = RUnmatched) /\
                forall t, t ∈ resources_of fp -> says t <> RDeny
  | AllowNarrowed _ => False
  end.
Proof.
  intros Hc Hdb Hr says. unfold policy_decide, has_denied.
  case_bool_decide as Hd; cbn [negb]; [|by left].
  rewrite (resources_loop_judge _ _ rows) by done.
  pose proof (judge_cases rows peer action (resources_of fp)) as Hj.
  destruct (judge rows peer action (resources_of fp)); try done.
  destruct Hj as (t & Ht & Hv & _). right. by exists t.
Qed.

Lemma governing_perm rows1 rows2 peer table action :
  rows1 ≡ₚ rows2 -> governing rows1 peer table action ≡ₚ governing rows2 peer table action.
Proof.
  intros Hp. unfold governing.
  set (a1 := base.filter _ rows1). set (a2 := base.filter _ rows2).
  assert (Ha : a1 ≡ₚ a2) by (unfold a1, a2; by rewrite Hp).
  transitivity (base.filter (fun r => Forall (fun r' => row_score r' <= row_score r) a1) a2).
  { by rewrite Ha. }
  apply Permutation_refl'. apply list_filter_iff. intros r. by rewrite Ha.
Qed.

Lemma verdict_perm rows1 rows2 peer table action :
  rows1 ≡ₚ rows2 -> verdict rows1 peer table action = verdict rows2 peer table action.
Proof.
  intros Hp. unfold verdict. pose proof (governing_perm _ _ peer table action Hp) as Hg.
  assert (Hall : forall l1 l2 : list PolicyRow, l1 ≡ₚ l2 -> forallb row_allows l1 = forallb row_allows l2).
  { induction 1; cbn; try congruence. by destruct (row_allows x), (row_allows y). }
  apply Hall in Hg as Hb.
  destruct (governing rows1 peer table action), (governing rows2 peer table action); try done.
  - by apply Permutation_nil_cons in Hg.
  - by symmetry in Hg; apply Permutation_nil_cons in Hg.
  - by rewrite Hb.
Qed.

(** The answer depends on the rules, not on their order in the table. *)
Theorem policy_order_independent (c1 c2 : Conn) (rows1 rows2 : list PolicyRow) (peer action stm : string)
    (fp : Footprint) :
  healthy c1 -> healthy c2 -> db_policy (db c1) = Some rows1 -> db_policy (db c2) = Some rows2 ->
  rows1 ≡ₚ rows2 -> Forall readable rows1 ->
  fst (policy_decide c1 peer action fp stm) = fst (policy_decide c2 peer action fp stm).
Proof.
  intros Hc1 Hc2 Hd1 Hd2 Hp Hr. unfold policy_decide. destruct (has_denied fp); [done|].
  assert (Hr2 : Forall readable rows2) by (by rewrite <-Hp).
  rewrite (resources_loop_judge _ _ rows1), (resources_loop_judge _ _ rows2) by done.
  assert (Hj : forall ts, judge rows1 peer action ts = judge rows2 peer action ts).
  { induction ts as [|t ts IH]; cbn; [done|]. by rewrite IH, (verdict_perm rows1 rows2). }
  by rewrite Hj.
Qed.

(** ** Witnesses *)

Definition wit_rule (peer table effect : string) : PolicyRow :=
  mkPolicyRow (SText peer) (SText table) (SText "read") (SText effect) SNull.

Definition wit_rules : list PolicyRow :=
  [wit_rule "*" "*" "allow"; wit_rule "alice" "secrets" "deny"; wit_rule "alice" "*" "allow"].

Definition wit_policy (rows : list PolicyRow) : Conn :=
  mkConn (mkDb None (Some rows) None None None None) [] 0 (S754_zero false) [].

Definition wit_fp : Footprint := from_tables Read [("notes", ["id"]); ("secrets", [])].

Lemma wit_rules_readable : Forall readable wit_rules.
Proof. repeat (apply Forall_cons; split; [eexists; reflexivity|]). apply Forall_nil. exact I. Qed.

Lemma policy_decide_spec_witness :
  healthy (wit_policy wit_rules) /\ Forall readable wit_rules /\
  exists t, t ∈ resources_of wit_fp /\ verdict wit_rules "alice" t "read" = RDeny.
Proof.
  assert (Hc : healthy (wit_policy wit_rules)) by constructor.
  split; [exact Hc|]. split; [exact wit_rules_readable|].
  pose proof (policy_decide_spec (wit_policy wit_rules) wit_rules "alice" "read" "" wit_fp Hc eq_refl
                wit_rules_readable) as Hs.
  destruct (fst (policy_decide (wit_policy wit_rules) "alice" "read" wit_fp "")) eqn:E;
    try (exfalso; revert E; vm_compute; discriminate).
  destruct Hs as [Hs|Hs]; [|exact Hs]. exfalso. apply Hs. reflexivity.
Defined.

Lemma policy_order_independent_witness :
  fst (policy_decide (wit_policy wit_rules) "alice" "read" wit_fp "") =
  fst (policy_decide (wit_policy (rev wit_rules)) "alice" "read" wit_fp "") /\
  fst (policy_decide (wit_policy wit_rules) "alice" "read" wit_fp "") =
  Deny "policy: read on secrets denied for alice".
Proof.
  split; [|vm_compute; reflexivity].
  refine (policy_order_independent (wit_policy wit_rules) (wit_policy (rev wit_rules)) wit_rules (rev wit_rules) _ _ _ _ _ _ eq_refl eq_refl _ wit_rules_readable).
  - constructor.
  - constructor.
  - apply Permutation_rev.
Defined.
