(* ===== verification/Fingerprint.v ===== *)
(** * Fingerprint: the shape of a request

    Models [crates/authenticator/src/fingerprint.rs]: the normalisation of a
    statement and the cache key made of the action, the normalised statement
    and the footprint. SHA-256 is the [sha2] crate's ([Sha256]). *)

From S2P Require Import Prelude RustStd Collections AuthTypes.

Local Open Scope Z_scope.

(** The [sha2] crate. *)
Class Sha256 : Type := { sha256 : string -> list Byte.byte }.

Definition SQ : ascii := "'"%char.

(** [String::push] of a byte read as a char ([bytes[i] as char], Latin-1). *)
Definition push_char (c : ascii) : string :=
  let b := byte_val c in
  if b <? 128 then char_str c
  else String (byte_of (Z.lor 0xC0 (Z.shiftr b 6))) (char_str (byte_of (Z.lor 0x80 (Z.land b 63)))).

(** [char::is_whitespace] below U+0100. *)
Definition char_is_whitespace (c : ascii) : bool :=
  in_range 9 13 c || in_range 32 32 c || in_range 0x85 0x85 c || in_range 0xA0 0xA0 c.

Definition ends_with_char (c : ascii) (s : string) : bool :=
  match str_rev s with
  | String d _ => bool_decide (d = c)
  | "" => false
  end.

Fixpoint skip_while (p : ascii -> bool) (s : string) : string :=
  match s with
  | String c s' => if p c then skip_while p s' else s
  | "" => ""
  end.

(** The rest after a string literal whose opening quote has been read; two
    quotes are an escaped quote. *)
Fixpoint skip_string (s : string) : string :=
  match s with
  | "" => ""
  | String c s' =>
      if bool_decide (c = SQ) then
        match s' with
        | String d s'' => if bool_decide (d = SQ) then skip_string s'' else s'
        | "" => ""
        end
      else skip_string s'
  end.

(** A quoted identifier after its opening quote: what is pushed, and the rest. *)
Fixpoint copy_quoted (quote : ascii) (s : string) : string * string :=
  match s with
  | "" => ("", "")
  | String b s' =>
      if bool_decide (b = quote) then (push_char (to_ascii_lowercase b), s')
      else let '(o, r) := copy_quoted quote s' in (push_char (to_ascii_lowercase b) +:+ o, r)
  end.

Definition is_number_byte (c : ascii) : bool :=
  is_ascii_alphanumeric c || bool_decide (c = "."%char) || bool_decide (c = "_"%char).
Definition is_word_char (c : ascii) : bool := is_ascii_alphanumeric c || bool_decide (c = "_"%char).

(** One turn of the loop: what is pushed to [out], the new [in_word] and the
    bytes left. *)
Definition norm_step (out : string) (in_word : bool) (c : ascii) (s : string) :
    string * bool * string :=
  if bool_decide (c = SQ) then ("?", false, skip_string s)
  else if bool_decide (c = DQ) || bool_decide (c = "`"%char) then
    let '(o, r) := copy_quoted c s in (push_char c +:+ o, true, r)
  else if is_ascii_digit c && negb in_word then ("?", false, skip_while is_number_byte s)
  else if char_is_whitespace c then
    ((if negb (is_empty out) && negb (ends_with_char " " out) then " " else ""), false,
     skip_while char_is_whitespace s)
  else (push_char (to_ascii_lowercase c), is_word_char c, s).

(** The [while] loop; every turn consumes at least one byte, so the length of
    the input is fuel enough. *)
Fixpoint norm_loop (fuel : nat) (out : string) (in_word : bool) (s : string) : string :=
  match fuel, s with
  | S fuel', String c s' =>
      let '(o, w, r) := norm_step out in_word c s' in norm_loop fuel' (out +:+ o) w r
  | _, _ => out
  end.

Definition is_trailer (c : ascii) : bool := bool_decide (c = " "%char) || bool_decide (c = ";"%char).

Definition pop_trailers (out : string) : string := str_rev (skip_while is_trailer (str_rev out)).

Definition normalize_statement (statement : string) : string :=
  pop_trailers (norm_loop (str_len statement) "" false statement).

(** ** The fingerprint *)


Definition NUL : string := char_str (ascii_of_N 0).
Definition SOH : string := char_str (ascii_of_N 1).

Definition col_bytes (col : string) : string := SOH +:+ col.

Definition table_bytes (entry : string * gset string) : string :=
  let '(table, cols) := entry in NUL +:+ table +:+ str_concat (map col_bytes (bs_iter cols)).

(** Everything the hasher is fed. *)
Definition preimage (action statement : string) (footprint : Footprint) : string :=
  action +:+ NUL +:+ normalize_statement statement +:+ NUL +:+
  ActionKind_as_str (kind footprint) +:+
  str_concat (map table_bytes (bt_iter (tables footprint))).

Definition byte_hex (b : Byte.byte) : string := hex2 HEX_LOWER (u8_val b).

Definition statement_fingerprint `{!Sha256} (action statement : string) (footprint : Footprint) :
    string :=
  str_concat (map byte_hex (sha256 (preimage action statement footprint))).

(** The tests of the source. *)
Example normalize_number :
  normalize_statement "SELECT * FROM notes WHERE id = 42;" = "select * from notes where id = ?".
Proof. vm_compute. reflexivity. Qed.
Example normalize_escape :
  normalize_statement ("select  *" +:+ nl +:+ "from NOTES where name = 'Ada''s'") =
  "select * from notes where name = ?".
Proof. vm_compute. reflexivity. Qed.
Example normalize_ident : normalize_statement "SELECT col1 FROM t2" = "select col1 from t2".
Proof. vm_compute. reflexivity. Qed.

(** ** The loop *)


Lemma skip_while_len p s : (str_len (skip_while p s) <= str_len s)%nat.
Proof. induction s as [|c s IH]; [done|]. cbn. case_match; cbn; unfold str_len in *; lia. Qed.

Lemma skip_string_len s : (str_len (skip_string s) <= str_len s)%nat.
Proof.
  enough (forall n s, (str_len s <= n)%nat -> (str_len (skip_string s) <= str_len s)%nat) by eauto.
  clear s. induction n as [|n IH]; intros [|c s] Hs; cbn in *; try lia; [done..|].
  case_bool_decide; [|specialize (IH s); unfold str_len in *; lia].
  destruct s as [|d s]; [cbn; lia|]. case_bool_decide; [|cbn; lia].
  specialize (IH s). cbn in *. unfold str_len in *. lia.
Qed.

Lemma copy_quoted_len q s : (str_len (snd (copy_quoted q s)) <= str_len s)%nat.
Proof.
  induction s as [|b s IH]; [done|]. cbn. case_bool_decide; [cbn; lia|].
  destruct (copy_quoted q s). cbn in *. unfold str_len in *. lia.
Qed.

Lemma norm_step_len out w c s : (str_len (snd (norm_step out w c s)) <= str_len s)%nat.
Proof.
  unfold norm_step. pose proof (copy_quoted_len c s). destruct (copy_quoted c s).
  repeat case_match; cbn in *;
    auto using skip_while_len, skip_string_len.
Qed.

(** The loop run to the end of its input. *)
Definition norm (out : string) (w : bool) (s : string) : string := norm_loop (str_len s) out w s.

Lemma norm_loop_fuel fuel : forall out w s,
  (str_len s <= fuel)%nat -> norm_loop fuel out w s = norm out w s.
Proof.
  unfold norm. induction fuel as [fuel IH] using lt_wf_ind. intros out w [|c s] Hs; [by destruct fuel|].
  destruct fuel as [|fuel]; [cbn in Hs; lia|]. change (str_len (String c s)) with (S (str_len s)) in *.
  cbn [norm_loop]. pose proof (norm_step_len out w c s) as Hr.
  revert Hr. destruct (norm_step out w c s) as [[o w'] r]. cbn [snd]. intros Hr.
  etrans; [apply IH; lia|]. symmetry. apply IH; lia.
Qed.

Lemma norm_cons out w c s :
  norm out w (String c s) =
  let '(o, w', r) := norm_step out w c s in norm (out +:+ o) w' r.
Proof.
  unfold norm at 1. change (str_len (String c s)) with (S (str_len s)). cbn [norm_loop].
  pose proof (norm_step_len out w c s) as Hr.
  revert Hr. destruct (norm_step out w c s) as [[o w'] r]. by apply norm_loop_fuel.
Qed.

(** ** Literals *)

(** A string literal with the given text, its quotes doubled. *)
Definition quote_byte (c : ascii) : string := if bool_decide (c = SQ) then "''" else char_str c.
Definition sql_string (text : string) : string := "'" +:+ str_map quote_byte text +:+ "'".

Inductive literal : string -> Prop :=
| literal_string x : literal (sql_string x)
| literal_number d n : is_ascii_digit d = true -> str_forallb is_number_byte n = true -> literal (String d n).

Definition is_quote (c : ascii) : bool := bool_decide (c = SQ) || bool_decide (c = DQ) || bool_decide (c = "`"%char).

Definition separator (c : ascii) : bool := negb (is_quote c) && negb (is_number_byte c).

(** What may follow a literal for it to end there. *)
Definition ends_literal (post : string) : bool :=
  match post with
  | "" => true
  | String c _ => negb (bool_decide (c = SQ)) && negb (is_number_byte c)
  end.

(** Statement text whose quoted parts are closed and whose last byte is a
    separator: a literal can start after it. *)
Inductive boundary : string -> Prop :=
| boundary_last c : separator c = true -> boundary (String c "")
| boundary_plain c s : is_quote c = false -> boundary s -> boundary (String c s)
| boundary_string x s : boundary s -> starts_with "'" s = false -> boundary (sql_string x +:+ s)
| boundary_ident q x s :
    q = DQ \/ q = "`"%char -> contains_char q x = false -> boundary s ->
    boundary (String q (x +:+ String q s)).

Lemma sql_string_app x s : sql_string x +:+ s = String SQ (str_map quote_byte x +:+ "'" +:+ s).
Proof. unfold sql_string. by rewrite !app_str_assoc, app_str_cons, app_str_nil_l. Qed.

Lemma skip_while_boundary p s :
  (forall c, p c = true -> is_quote c = false) ->
  boundary s -> boundary (skip_while p s) \/ skip_while p s = "".
Proof.
  intros Hp. induction 1 as [c Hc|c s Hq Hs IH|x s Hs IH Hn|q x s Hq Hx Hs IH]; cbn.
  - destruct (p c); [by right|]. left. by constructor.
  - destruct (p c); [done|]. left. by constructor.
  - rewrite sql_string_app. cbn [skip_while].
    destruct (p SQ) eqn:E; [by apply Hp in E|]. left. rewrite <-sql_string_app. by constructor.
  - destruct (p q) eqn:E; [apply Hp in E; by destruct Hq as [->| ->]|]. left. by constructor.
Qed.

Lemma skip_while_app p s rest :
  boundary s -> (skip_while p s = "" -> skip_while p rest = rest) ->
  skip_while p (s +:+ rest) = skip_while p s +:+ rest.
Proof.
  intros _. induction s as [|c s IH]; cbn; [intros Hr; by apply Hr|].
  rewrite app_str_cons. cbn. destruct (p c); [done|]. by rewrite app_str_cons.
Qed.

Lemma skip_number_nonempty s : boundary s -> skip_while is_number_byte s <> "".
Proof.
  induction 1 as [c Hc|c s Hq Hs IH|x s Hs IH Hn|q x s Hq Hx Hs IH]; rewrite ?sql_string_app; cbn; try done.
  - apply andb_prop in Hc as [_ Hc%negb_true_iff]. by rewrite Hc.
  - by destruct (is_number_byte c).
  - by destruct Hq as [->| ->].
Qed.

Lemma starts_quote_app s rest :
  boundary s -> starts_with "'" s = false -> starts_with "'" (s +:+ rest) = false.
Proof.
  destruct s as [|c s]; [intros Hs; by inversion Hs|]. intros _. rewrite app_str_cons.
  unfold starts_with. cbn [RustStd.strip_prefix]. by case_bool_decide.
Qed.

Lemma skip_string_literal x s :
  starts_with "'" s = false -> skip_string (str_map quote_byte x +:+ "'" +:+ s) = s.
Proof.
  intros Hs. induction x as [|c x IH].
  - change (str_map quote_byte "") with "". rewrite app_str_nil_l, app_str_cons, app_str_nil_l. cbn.
    destruct s as [|d s]; [done|]. unfold starts_with in Hs.
    cbn [RustStd.strip_prefix] in Hs. unfold SQ.
    destruct (decide (d = "'"%char)) as [->|Hd]; [by cbn in Hs|by rewrite (bool_decide_false (d = _))].
  - cbn [str_map]. rewrite app_str_assoc. unfold quote_byte at 1. case_bool_decide as Hc.
    + rewrite !app_str_cons, app_str_nil_l. exact IH.
    + unfold char_str. rewrite app_str_cons, app_str_nil_l. cbn. by rewrite bool_decide_false.
Qed.

Lemma copy_quoted_app q x s :
  contains_char q x = false ->
  exists o, forall rest, copy_quoted q (x +:+ String q (s +:+ rest)) = (o, s +:+ rest).
Proof.
  induction x as [|c x IH]; cbn [contains_char].
  - intros _. exists (push_char (to_ascii_lowercase q)). intros rest. rewrite app_str_nil_l. cbn.
    by rewrite bool_decide_true.
  - intros [Hc Hx]%orb_false_iff. destruct (IH Hx) as [o Ho].
    exists (push_char (to_ascii_lowercase c) +:+ o). intros rest. rewrite app_str_cons. cbn.
    apply bool_decide_eq_false in Hc. rewrite bool_decide_false by done. by rewrite Ho.
Qed.

Lemma ws_not_quote c : char_is_whitespace c = true -> is_quote c = false.
Proof. ascii_cases c; by vm_compute. Qed.

Lemma number_not_quote c : is_number_byte c = true -> is_quote c = false.
Proof. ascii_cases c; by vm_compute. Qed.

Lemma digit_number c : is_ascii_digit c = true -> is_number_byte c = true.
Proof. ascii_cases c; by vm_compute. Qed.

Lemma word_number c : is_number_byte c = false -> is_word_char c = false.
Proof. ascii_cases c; by vm_compute. Qed.

(** The head of a literal. *)
Definition starts_literal (rest : string) : bool :=
  match rest with
  | String c _ => bool_decide (c = SQ) || is_ascii_digit c
  | "" => false
  end.

Lemma starts_literal_ws rest :
  starts_literal rest = true -> skip_while char_is_whitespace rest = rest.
Proof.
  destruct rest as [|c rest]; [done|]. cbn.
  assert (bool_decide (c = SQ) || is_ascii_digit c = true -> char_is_whitespace c = false) as Hc
    by (ascii_cases c; by vm_compute).
  by intros ->%Hc.
Qed.

Lemma literal_starts l post : literal l -> starts_literal (l +:+ post) = true.
Proof. intros [x|d n Hd _]; [by rewrite sql_string_app|].
  rewrite app_str_cons. cbn. by rewrite Hd, orb_true_r. Qed.

(** One turn at a plain byte is the same whatever follows the boundary. *)
Lemma norm_step_plain out w c s rest :
  is_quote c = false -> boundary s \/ (s = "" /\ separator c = true) -> starts_literal rest = true ->
  exists o w' r, norm_step out w c (s +:+ rest) = (o, w', r +:+ rest) /\
    norm_step out w c s = (o, w', r) /\ (boundary r \/ (r = "" /\ w' = false)).
Proof.
  intros [[Hq1 Hq2]%orb_false_iff Hq3]%orb_false_iff Hs Hrest. unfold norm_step.
  rewrite Hq1, Hq2, Hq3. cbn [orb].
  destruct (is_ascii_digit c && negb w) eqn:Hd; [|destruct (char_is_whitespace c) eqn:Hw].
  - apply andb_prop in Hd as [Hd _]. destruct Hs as [Hs|[-> [_ Hc]%andb_prop]].
    2: { by rewrite digit_number in Hc. }
    eexists _, _, _. split; [rewrite skip_while_app; [reflexivity|done|]|split; [reflexivity|]].
    { by intros ?%skip_number_nonempty. }
    destruct (skip_while_boundary is_number_byte s number_not_quote Hs) as [?|Hn]; [by left|].
    by apply skip_number_nonempty in Hn.
  - eexists _, _, _. split; [|split; [reflexivity|]].
    + f_equal. destruct Hs as [Hs|[-> _]]; [|by apply starts_literal_ws].
      apply skip_while_app; [done|]. intros _. by apply starts_literal_ws.
    + destruct Hs as [Hs|[-> _]]; [|by right].
      destruct (skip_while_boundary char_is_whitespace s ws_not_quote Hs); [by left|by right].
  - eexists _, _, _. split; [reflexivity|split; [reflexivity|]].
    destruct Hs as [Hs|[-> [_ Hc%negb_true_iff]%andb_prop]]; [by left|]. right.
    split; [done|]. by apply word_number.
Qed.

Lemma norm_boundary n : forall pre out w,
  (str_len pre <= n)%nat -> boundary pre \/ (pre = "" /\ w = false) ->
  exists out', forall rest, starts_literal rest = true ->
    norm out w (pre +:+ rest) = norm out' false rest.
Proof.
  induction n as [|n IH]; intros pre out w Hn Hpre.
  { destruct pre; [|cbn in Hn; lia]. destruct Hpre as [Hb|[_ ->]]; [by inversion Hb|].
    exists out. intros rest _. by rewrite app_str_nil_l. }
  assert (Hplain : forall c s, (str_len s <= n)%nat -> is_quote c = false ->
            boundary s \/ (s = "" /\ separator c = true) ->
            exists out', forall rest, starts_literal rest = true ->
              norm out w (String c s +:+ rest) = norm out' false rest).
  { intros c s Hlen Hq Hs. pose proof (norm_step_len out w c s) as Hl.
    destruct (norm_step_plain out w c s "0" Hq Hs eq_refl) as (o & w' & r & _ & Hstep & Hr).
    rewrite Hstep in Hl. cbn [snd] in Hl.
    destruct (IH r (out +:+ o) w' ltac:(lia) Hr) as [out' Hout].
    exists out'. intros rest Hrest. rewrite app_str_cons, norm_cons.
    destruct (norm_step_plain out w c s rest Hq Hs Hrest) as (o1 & w1 & r1 & -> & Hstep1 & _).
    rewrite Hstep in Hstep1. injection Hstep1 as <- <- <-. by apply Hout. }
  revert Hn. destruct Hpre as [[c Hc|c s Hq Hs|x s Hs Hsq|q x s Hq Hx Hs]|[-> ->]]; intros Hn.
  - apply Hplain; [cbn; lia|by apply andb_prop in Hc as [?%negb_true_iff _]|by right].
  - apply Hplain; [rewrite str_len_cons in Hn; lia|done|by left].
  - rewrite sql_string_app, str_len_cons, !str_len_app in Hn.
    destruct (IH s (out +:+ "?") false ltac:(lia) (or_introl Hs)) as [out' Hout].
    exists out'. intros rest Hrest. rewrite app_str_assoc, sql_string_app, norm_cons.
    unfold norm_step. rewrite bool_decide_true, skip_string_literal by auto using starts_quote_app.
    by apply Hout.
  - rewrite str_len_cons, str_len_app, str_len_cons in Hn.
    destruct (copy_quoted_app q x s Hx) as [o Ho].
    destruct (IH s (out +:+ push_char q +:+ o) true ltac:(lia) (or_introl Hs)) as [out' Hout].
    exists out'. intros rest Hrest. rewrite app_str_cons, app_str_assoc, app_str_cons, norm_cons.
    unfold norm_step. rewrite Ho.
    rewrite bool_decide_false by (by destruct Hq as [->| ->]).
    assert (bool_decide (q = DQ) || bool_decide (q = "`"%char) = true) as -> by (by destruct Hq as [->| ->]).
    by apply Hout.
  - exists out. intros rest _. by rewrite app_str_nil_l.
Qed.

Lemma norm_literal out l post :
  literal l -> ends_literal post = true ->
  norm out false (l +:+ post) = norm (out +:+ "?") false post.
Proof.
  intros [x|d n Hd Hn] Hpost.
  - rewrite sql_string_app, norm_cons. unfold norm_step.
    rewrite bool_decide_true, skip_string_literal; [done| |done].
    destruct post as [|c post]; [done|]. apply andb_prop in Hpost as [Hc%negb_true_iff _].
    apply bool_decide_eq_false in Hc. unfold starts_with. cbn [RustStd.strip_prefix].
    by rewrite bool_decide_false by (by intros <-).
  - rewrite app_str_cons, norm_cons. unfold norm_step. rewrite Hd.
    pose proof (number_not_quote d (digit_number d Hd)) as [[-> ->]%orb_false_iff ->]%orb_false_iff.
    cbn. f_equal. induction n as [|c n IH]; cbn in *.
    + rewrite app_str_nil_l. destruct post as [|c post]; [done|].
      apply andb_prop in Hpost as [_ Hc%negb_true_iff]. cbn. by rewrite Hc.
    + apply andb_prop in Hn as [Hc Hn]. rewrite app_str_cons. cbn. rewrite Hc. auto.
Qed.

Lemma normalize_literal pre l1 l2 post :
  pre = "" \/ boundary pre -> literal l1 -> literal l2 -> ends_literal post = true ->
  normalize_statement (pre +:+ l1 +:+ post) = normalize_statement (pre +:+ l2 +:+ post).
Proof.
  intros Hpre Hl1 Hl2 Hpost. unfold normalize_statement. f_equal.
  fold (norm "" false (pre +:+ l1 +:+ post)) (norm "" false (pre +:+ l2 +:+ post)).
  destruct (norm_boundary (str_len pre) pre "" false) as [out Hout]; [done|by destruct Hpre; auto|].
  by rewrite !Hout, !norm_literal by auto using literal_starts.
Qed.

(** ** The pre-image *)

Definition no_nul (s : string) : bool := negb (contains_char (ascii_of_N 0) s).
Definition no_marks (s : string) : bool := no_nul s && negb (contains_char (ascii_of_N 1) s).

Lemma split_nul s1 s2 r1 r2 :
  no_nul s1 = true -> no_nul s2 = true -> s1 +:+ NUL +:+ r1 = s2 +:+ NUL +:+ r2 -> s1 = s2 /\ r1 = r2.
Proof.
  revert s2. unfold no_nul. induction s1 as [|c s1 IH]; intros [|d s2] H1 H2;
    rewrite ?app_str_cons, ?app_str_nil_l; unfold NUL, char_str; rewrite ?app_str_cons, ?app_str_nil_l.
  - by intros [= ->].
  - intros [= <- _]. done.
  - intros [= -> _]. done.
  - intros [= <- Heq]. cbn in H1, H2. apply negb_true_iff, orb_false_iff in H1 as [_ H1], H2 as [_ H2].
    destruct (IH s2) as [-> ->]; [by apply negb_true_iff|by apply negb_true_iff|exact Heq|done].
Qed.

(** Nothing, or a mark first. *)
Definition marked (r : string) : Prop := r = "" \/ exists r', r = NUL +:+ r' \/ r = SOH +:+ r'.

Lemma split_mark s1 s2 r1 r2 :
  no_marks s1 = true -> no_marks s2 = true -> marked r1 -> marked r2 ->
  s1 +:+ r1 = s2 +:+ r2 -> s1 = s2 /\ r1 = r2.
Proof.
  assert (Hhead : forall c s s' r, no_marks (String c s) = true -> marked r -> r <> String c s').
  { intros c s s' r [Hc Hd]%andb_prop Hr ->. unfold no_nul in Hc. cbn [contains_char] in Hc, Hd.
    apply negb_true_iff, orb_false_iff in Hc as [Hc%bool_decide_eq_false _].
    apply negb_true_iff, orb_false_iff in Hd as [Hd%bool_decide_eq_false _].
    destruct Hr as [Hr|(r' & [Hr|Hr])]; [done|..]; unfold NUL, SOH, char_str in Hr;
      rewrite app_str_cons in Hr; by injection Hr as -> _. }
  revert s2. induction s1 as [|c s1 IH]; intros [|d s2] H1 H2 Hr1 Hr2; rewrite ?app_str_cons, ?app_str_nil_l.
  - done.
  - intros Heq. by destruct (Hhead d s2 _ r1 H2 Hr1 Heq).
  - intros Heq. by destruct (Hhead c s1 _ r2 H1 Hr2 (eq_sym Heq)).
  - intros [= <- Heq]. unfold no_marks, no_nul in *. cbn in H1, H2.
    destruct (IH s2) as [-> ->]; [..|done]; try done; rewrite ?negb_orb in *.
    all: repeat match goal with H : _ && _ = true |- _ => apply andb_prop in H as [? ?] end.
    all: by apply andb_true_intro.
Qed.

(** Nothing, or a table first. *)
Definition nul_marked (r : string) : Prop := r = "" \/ exists r', r = NUL +:+ r'.

Lemma cols_cons c l r :
  str_concat (map col_bytes (c :: l)) +:+ r = SOH +:+ c +:+ str_concat (map col_bytes l) +:+ r.
Proof. cbn. unfold col_bytes at 1. by rewrite !app_str_assoc. Qed.

Lemma marked_cols l r : nul_marked r -> marked (str_concat (map col_bytes l) +:+ r).
Proof.
  intros Hr. destruct l as [|c l]; [|rewrite cols_cons; right; eauto].
  cbn. rewrite app_str_nil_l. destruct Hr as [->|[r' ->]]; [by left|right; eauto].
Qed.

Lemma cols_inj l1 : forall l2 r1 r2,
  forallb no_marks l1 = true -> forallb no_marks l2 = true -> nul_marked r1 -> nul_marked r2 ->
  str_concat (map col_bytes l1) +:+ r1 = str_concat (map col_bytes l2) +:+ r2 -> l1 = l2 /\ r1 = r2.
Proof.
  assert (Hsoh : forall r x, nul_marked r -> r <> SOH +:+ x) by (by intros r x [->|[r' ->]]).
  induction l1 as [|c l1 IH]; intros [|d l2] r1 r2 H1 H2 Hr1 Hr2; rewrite ?cols_cons; cbn [map str_concat foldr];
    rewrite ?app_str_nil_l.
  - done.
  - intros Heq. by apply Hsoh in Heq.
  - intros Heq. symmetry in Heq. by apply Hsoh in Heq.
  - intros Heq%app_str_inj_l.
    cbn in H1, H2. apply andb_prop in H1 as [Hc H1], H2 as [Hd H2].
    apply split_mark in Heq as [-> Heq]; [|done..|by apply marked_cols|by apply marked_cols].
    by apply IH in Heq as [-> ->].
Qed.

Definition entry_plain (entry : string * gset string) : bool :=
  let '(t, cols) := entry in no_marks t && forallb no_marks (bs_iter cols).

Lemma entries_inj l1 : forall l2,
  forallb entry_plain l1 = true -> forallb entry_plain l2 = true ->
  str_concat (map table_bytes l1) = str_concat (map table_bytes l2) -> l1 = l2.
Proof.
  assert (Hm : forall l, nul_marked (str_concat (map table_bytes l))).
  { intros [|[t cols] l]; cbn; [by left|]. right. rewrite !app_str_assoc. eauto. }
  induction l1 as [|[t1 c1] l1 IH]; intros [|[t2 c2] l2] H1 H2; cbn [map str_concat foldr table_bytes].
  - done.
  - unfold NUL, char_str. by rewrite !app_str_assoc, app_str_cons.
  - unfold NUL, char_str. by rewrite !app_str_assoc, app_str_cons.
  - rewrite !app_str_assoc. intros Heq%app_str_inj_l.
    cbn in H1, H2. apply andb_prop in H1 as [[Ht1 Hc1]%andb_prop H1], H2 as [[Ht2 Hc2]%andb_prop H2].
    apply split_mark in Heq as [-> Heq]; [|done..|by apply marked_cols|by apply marked_cols].
    apply cols_inj in Heq as [->%bs_iter_inj Heq]; [|done..]. by rewrite (IH l2).
Qed.

Definition footprint_plain (fp : Footprint) : bool := forallb entry_plain (bt_iter (tables fp)).

(** Normalisation introduces no NUL byte. *)
Definition nonzero (c : ascii) : bool := negb (bool_decide (c = ascii_of_N 0)).

Lemma no_nul_forallb s : no_nul s = str_forallb nonzero s.
Proof.
  unfold no_nul. induction s as [|c s IH]; [done|]. cbn [contains_char str_forallb].
  by rewrite negb_orb, IH.
Qed.

Lemma push_char_nonzero c :
  nonzero c = true -> str_forallb nonzero (push_char c) = true /\
                      str_forallb nonzero (push_char (to_ascii_lowercase c)) = true.
Proof. ascii_cases c; by vm_compute. Qed.

Lemma skip_while_forallb p q s : str_forallb p s = true -> str_forallb p (skip_while q s) = true.
Proof. induction s as [|c s IH]; [done|]. cbn. intros [Hc Hs]%andb_prop. case_match; [auto|]. cbn. by rewrite Hc. Qed.

Lemma skip_string_forallb p s : str_forallb p s = true -> str_forallb p (skip_string s) = true.
Proof.
  enough (forall n s, (str_len s <= n)%nat -> str_forallb p s = true -> str_forallb p (skip_string s) = true)
    by eauto.
  clear s. induction n as [|n IH]; intros [|c s] Hlen; rewrite ?str_len_cons in Hlen; try done; [lia|].
  cbn. intros [Hc Hs]%andb_prop. case_bool_decide; [|apply IH; [lia|done]].
  destruct s as [|d s]; [done|]. rewrite str_len_cons in Hlen. case_bool_decide; [|done].
  cbn in Hs. apply andb_prop in Hs as [_ Hs]. apply IH; [lia|done].
Qed.

Lemma copy_quoted_nonzero q s :
  str_forallb nonzero s = true ->
  str_forallb nonzero (fst (copy_quoted q s)) = true /\ str_forallb nonzero (snd (copy_quoted q s)) = true.
Proof.
  induction s as [|b s IH]; [done|]. cbn. intros [Hb Hs]%andb_prop.
  destruct (push_char_nonzero b Hb) as [_ Hp]. case_bool_decide; [done|].
  destruct (copy_quoted q s). cbn in *. rewrite str_forallb_app. destruct (IH Hs). by rewrite Hp.
Qed.

Lemma norm_step_nonzero out w c s :
  nonzero c = true -> str_forallb nonzero s = true ->
  str_forallb nonzero (fst (fst (norm_step out w c s))) = true /\
  str_forallb nonzero (snd (norm_step out w c s)) = true.
Proof.
  intros Hc Hs. destruct (push_char_nonzero c Hc) as [Hp Hl].
  destruct (copy_quoted_nonzero c s Hs) as [Ho Hr]. unfold norm_step.
  destruct (copy_quoted c s). cbn in Ho, Hr.
  repeat case_match; simplify_eq/=; split; rewrite ?str_forallb_app, ?Hp, ?Ho;
    auto using skip_while_forallb, skip_string_forallb.
Qed.

Lemma norm_nonzero n : forall out w s,
  str_forallb nonzero out = true -> str_forallb nonzero s = true ->
  str_forallb nonzero (norm_loop n out w s) = true.
Proof.
  induction n as [|n IH]; intros out w [|c s] Ho; cbn; [done..|]. intros [Hc Hs]%andb_prop.
  pose proof (norm_step_nonzero out w c s Hc Hs) as Hn.
  destruct (norm_step out w c s) as [[o w'] r]. destruct Hn as [Hn Hr]. cbn in Hn, Hr.
  apply IH; [|done]. by rewrite str_forallb_app, Ho.
Qed.

Lemma normalize_no_nul s : no_nul s = true -> no_nul (normalize_statement s) = true.
Proof.
  rewrite !no_nul_forallb. intros Hs. unfold normalize_statement, pop_trailers.
  rewrite str_forallb_rev. apply skip_while_forallb. rewrite str_forallb_rev. by apply norm_nonzero.
Qed.

Lemma kind_inj k1 k2 : ActionKind_as_str k1 = ActionKind_as_str k2 -> k1 = k2.
Proof. by destruct k1, k2. Qed.

Lemma kind_plain k : no_marks (ActionKind_as_str k) = true.
Proof. by destruct k. Qed.

(** ** Properties *)

(** The value of a literal does not matter: two requests that differ only in
    one string or number literal have the same fingerprint, wherever the
    literal starts and ends between separators. *)
Theorem fingerprint_ignores_literals `{!Sha256} (action pre l1 l2 post : string) (footprint : Footprint) :
  pre = "" \/ boundary pre -> literal l1 -> literal l2 -> ends_literal post = true ->
  statement_fingerprint action (pre +:+ l1 +:+ post) footprint =
  statement_fingerprint action (pre +:+ l2 +:+ post) footprint.
Proof.
  intros Hpre Hl1 Hl2 Hpost. unfold statement_fingerprint, preimage.
  by rewrite (normalize_literal pre l1 l2 post).
Qed.

(** What is hashed determines the action, the normalised statement and the
    whole footprint but its denied constructs: the separators cannot be
    confused with the parts. *)
Theorem preimage_injective (a1 a2 s1 s2 : string) (f1 f2 : Footprint) :
  no_nul a1 = true -> no_nul a2 = true -> no_nul s1 = true -> no_nul s2 = true ->
  footprint_plain f1 = true -> footprint_plain f2 = true ->
  preimage a1 s1 f1 = preimage a2 s2 f2 <->
  a1 = a2 /\ normalize_statement s1 = normalize_statement s2 /\ kind f1 = kind f2 /\ tables f1 = tables f2.
Proof.
  intros Ha1 Ha2 Hs1 Hs2 Hf1 Hf2. split.
  - unfold preimage. intros Heq. apply split_nul in Heq as [-> Heq]; [|done..].
    apply split_nul in Heq as [-> Heq]; [|by apply normalize_no_nul..].
    assert (Hm : forall l, marked (str_concat (map table_bytes l))).
    { intros [|[t cols] l]; cbn; [by left|]. right. rewrite !app_str_assoc. eauto. }
    apply split_mark in Heq as [Hk Heq]; [|apply kind_plain..|apply Hm|apply Hm].
    by apply kind_inj in Hk; apply entries_inj, bt_iter_inj in Heq.
  - intros (-> & Hs & Hk & Ht). unfold preimage. by rewrite Hs, Hk, Ht.
Qed.

(** Comments are not recognised: quotes inside two comments hide the clause
    between them, so a statement with a [WHERE] clause and one without it, on
    the same columns, share a fingerprint. *)
Theorem fingerprint_comment_blind `{!Sha256} (action : string) (footprint : Footprint) :
  statement_fingerprint action ("SELECT id FROM notes --'" +:+ nl +:+ "WHERE id = 7 --'") footprint =
  statement_fingerprint action "SELECT id FROM notes --''" footprint.
Proof. unfold statement_fingerprint, preimage. f_equal. Qed.

(** A stand-in for the hash function. *)
Definition wit_sha : Sha256 := {| sha256 := as_bytes |}.

Lemma fingerprint_ignores_literals_witness :
  let pre := "SELECT body FROM notes WHERE id = " in
  boundary pre /\ literal "42" /\ literal "'it''s'" /\ ends_literal ";" = true /\
  @statement_fingerprint wit_sha "read" (pre +:+ "42" +:+ ";") Footprint_default =
  @statement_fingerprint wit_sha "read" (pre +:+ "'it''s'" +:+ ";") Footprint_default.
Proof.
  intros pre.
  assert (Hpre : boundary pre).
  { do 33 (apply boundary_plain; [reflexivity|]). apply boundary_last. reflexivity. }
  assert (Hn : literal "42") by (apply literal_number; reflexivity).
  assert (Hs : literal "'it''s'") by exact (literal_string "it's").
  split_and!; [exact Hpre|exact Hn|exact Hs|reflexivity|].
  exact (@fingerprint_ignores_literals wit_sha "read" pre _ _ ";" _ (or_intror Hpre) Hn Hs eq_refl).
Defined.

Lemma preimage_injective_witness :
  let f := from_tables Read [("notes", ["id"; "body"])] in
  footprint_plain f = true /\ preimage "read" "SELECT 1" f = preimage "read" "select 2;" f.
Proof.
  intros f. assert (Hf : footprint_plain f = true) by (vm_compute; reflexivity). split; [exact Hf|].
  apply (preimage_injective "read" "read" "SELECT 1" "select 2;" f f); try reflexivity; [exact Hf..|].
  split_and!; vm_compute; reflexivity.
Defined.
