(* ===== verification/CivilDate.v ===== *)
(** * CivilDate: timestamps

    Models [now_rfc3339] and [civil_from_days] of
    [crates/authenticator/src/human.rs]. *)

From S2P Require Import Prelude RustStd.

Local Open Scope Z_scope.

(** [as u32]. *)
Definition as_u32 (z : Z) : Z := z mod 2 ^ 32.

(** Division of an [i64] truncates. *)
Definition civil_from_days (z : Z) : Z * Z * Z :=
  let z := z + 719468 in
  let era := Z.quot (if 0 <=? z then z else z - 146096) 146097 in
  let doe := z - era * 146097 in
  let yoe := Z.quot (doe - Z.quot doe 1460 + Z.quot doe 36524 - Z.quot doe 146096) 365 in
  let y := yoe + era * 400 in
  let doy := doe - (365 * yoe + Z.quot yoe 4 - Z.quot yoe 100) in
  let mp := Z.quot (5 * doy + 2) 153 in
  let d := as_u32 (doy - Z.quot (153 * mp + 2) 5 + 1) in
  let m := as_u32 (if mp <? 10 then mp + 3 else mp - 9) in
  ((if m <=? 2 then y + 1 else y), m, d).

Fixpoint zeros (n : nat) : string :=
  match n with O => "" | S n' => String "0" (zeros n') end.

(** [{z:0w}] for a non-negative [z]. *)
Definition pad (w : nat) (z : Z) : string :=
  let s := int_to_string z in zeros (w - str_len s) +:+ s.

(** [now_rfc3339], [secs] seconds after the epoch. *)
Definition rfc3339 (secs : Z) : string :=
  let days := secs / 86400 in
  let rem := secs mod 86400 in
  let '(y, m, d) := civil_from_days days in
  pad 4 y +:+ "-" +:+ pad 2 m +:+ "-" +:+ pad 2 d +:+ "T" +:+
  pad 2 (rem / 3600) +:+ ":" +:+ pad 2 (rem mod 3600 / 60) +:+ ":" +:+ pad 2 (rem mod 60) +:+ "Z".

Arguments civil_from_days : simpl never.
Arguments rfc3339 : simpl never.

Example rfc3339_2024 : rfc3339 1709251199 = "2024-02-29T23:59:59Z".
Proof. vm_compute. reflexivity. Qed.

(** ** The Gregorian calendar *)

Definition leap (y : Z) : bool := (y mod 4 =? 0) && (negb (y mod 100 =? 0) || (y mod 400 =? 0)).

Definition days_in_month (y m : Z) : Z :=
  if m =? 2 then if leap y then 29 else 28
  else if (m =? 4) || (m =? 6) || (m =? 9) || (m =? 11) then 30 else 31.

Definition next_day (date : Z * Z * Z) : Z * Z * Z :=
  let '(y, m, d) := date in
  if d <? days_in_month y m then (y, m, d + 1)
  else if m <? 12 then (y, m + 1, 1) else (y + 1, 1, 1).

(** The date of day [doe] of the era that starts on 1 March of year 0. *)
Definition era_date (doe : Z) : Z * Z * Z := civil_from_days (doe - 719468).

Definition shift_years (n : Z) (date : Z * Z * Z) : Z * Z * Z :=
  let '(y, m, d) := date in (y + n, m, d).

Lemma civil_split z :
  civil_from_days z = shift_years (400 * ((z + 719468) / 146097)) (era_date ((z + 719468) mod 146097)).
Proof.
  unfold era_date, civil_from_days. set (w := z + 719468).
  replace (w mod 146097 - 719468 + 719468) with (w mod 146097) by lia.
  pose proof (Z.mod_pos_bound w 146097 ltac:(lia)) as Hw.
  assert (Z.quot (if 0 <=? w then w else w - 146096) 146097 = w / 146097) as ->
    by (destruct (Z.leb_spec 0 w); divlia).
  assert (Z.quot (if 0 <=? w mod 146097 then w mod 146097 else w mod 146097 - 146096) 146097 = 0) as ->
    by (destruct (Z.leb_spec 0 (w mod 146097)); [|lia]; rewrite Z.quot_small; lia).
  assert (w - w / 146097 * 146097 = w mod 146097) as -> by divlia.
  assert (w mod 146097 - 0 * 146097 = w mod 146097) as -> by lia.
  cbv zeta. unfold shift_years. case_match; f_equal; f_equal; lia.
Qed.

Lemma next_day_shift k date : next_day (shift_years (400 * k) date) = shift_years (400 * k) (next_day date).
Proof.
  destruct date as [[y m] d]. unfold next_day, shift_years, days_in_month, leap.
  assert (Hmod : forall n j, 400 = n * j -> (y + 400 * k) mod n = y mod n).
  { intros n j ->. replace (y + n * j * k) with (y + (j * k) * n) by ring. apply Z_mod_plus_full. }
  rewrite (Hmod 4 100), (Hmod 100 4), (Hmod 400 1) by reflexivity.
  repeat case_match; f_equal; f_equal; lia.
Qed.

(** *** One era, year by year *)

Fixpoint all_from (n : nat) (z : Z) (p : Z -> bool) : bool :=
  match n with O => true | S n' => p z && all_from n' (z + 1) p end.

Lemma all_from_spec n p : forall z w, all_from n z p = true -> z <= w < z + Z.of_nat n -> p w = true.
Proof.
  induction n as [|n IH]; intros z w; [lia|]. cbn [all_from]. intros [Hz Ha]%andb_prop Hw.
  destruct (decide (w = z)) as [->|]; [done|]. apply (IH (z + 1)); [done|lia].
Qed.

(** The numerator of the year of the era. *)
Definition year_num (doe : Z) : Z := doe - doe / 1460 + doe / 36524 - doe / 146096.

(** The first and the last day of a year (from 1 March) of the era. *)
Definition year_first (y : Z) : Z := 365 * y + y / 4 - y / 100.
Definition year_last (y : Z) : Z := if y =? 399 then 146096 else year_first (y + 1) - 1.

Lemma year_num_step x : 0 <= x -> year_num x <= year_num (x + 1).
Proof. unfold year_num. intros. divlia. Qed.

Lemma year_num_mono x n : 0 <= x -> year_num x <= year_num (x + Z.of_nat n).
Proof.
  intros Hx. induction n as [|n IH]; [by rewrite Z.add_0_r|].
  replace (x + Z.of_nat (S n)) with (x + Z.of_nat n + 1) by lia.
  pose proof (year_num_step (x + Z.of_nat n)). lia.
Qed.

Lemma years_checked :
  all_from 400 0 (fun y =>
    (year_num (year_first y) / 365 =? y) && (year_num (year_last y) / 365 =? y) && (0 <=? year_first y) &&
    (year_last y <=? 146096) && (Bool.eqb (year_last y =? 146096) (y =? 399)) &&
    (year_last y - year_first y =? if leap (y + 1) then 365 else 364) &&
    (year_last y + 1 =? if y =? 399 then 146097 else year_first (y + 1))) = true.
Proof. vm_compute. reflexivity. Qed.

Lemma year_checks y :
  0 <= y < 400 ->
  year_num (year_first y) / 365 = y /\ year_num (year_last y) / 365 = y /\ 0 <= year_first y /\
  year_last y <= 146096 /\ year_last y = year_first y + (if leap (y + 1) then 365 else 364) /\
  (y = 399 /\ year_last y = 146096 \/ y + 1 < 400 /\ year_last y + 1 = year_first (y + 1) /\ year_last y <> 146096).
Proof.
  intros Hy. pose proof (all_from_spec _ _ 0 y years_checked ltac:(lia)) as Hc. cbn beta in Hc.
  repeat match goal with H : _ && _ = true |- _ => apply andb_prop in H as [? ?] end.
  split_and!; try lia.
  destruct (Z.eqb_spec y 399), (Z.eqb_spec (year_last y) 146096); try done; lia.
Qed.

Lemma year_exists (n : nat) : forall doe,
  (n <= 400)%nat -> 0 <= doe < (if (n =? 400)%nat then 146097 else year_first (Z.of_nat n)) ->
  exists y, 0 <= y < Z.of_nat n /\ year_first y <= doe <= year_last y.
Proof.
  induction n as [|n IH]; intros doe Hn Hdoe; [change (0 <= doe < 0) in Hdoe; lia|].
  destruct (decide (doe < year_first (Z.of_nat n))) as [Hlt|Hge].
  { destruct (IH doe) as (y & Hy & Hr); [lia| |exists y; lia].
    destruct (Nat.eqb_spec n 400); lia. }
  exists (Z.of_nat n). split; [lia|]. split; [lia|]. unfold year_last.
  destruct (Nat.eqb_spec (S n) 400) as [E|E], (Z.eqb_spec (Z.of_nat n) 399); try lia.
  replace (Z.of_nat n + 1) with (Z.of_nat (S n)) by lia. lia.
Qed.

(** Month and day of a day of the year that starts on 1 March. *)
Definition month_day (doy : Z) : Z * Z :=
  let mp := Z.quot (5 * doy + 2) 153 in
  (as_u32 (if mp <? 10 then mp + 3 else mp - 9), as_u32 (doy - Z.quot (153 * mp + 2) 5 + 1)).

Definition date_in (y doy : Z) : Z * Z * Z :=
  let '(m, d) := month_day doy in ((if m <=? 2 then y + 1 else y), m, d).

Lemma era_date_in y doe :
  0 <= y < 400 -> year_first y <= doe <= year_last y -> era_date doe = date_in y (doe - year_first y).
Proof.
  intros Hy Hr. pose proof (year_checks y Hy) as (H1 & H2 & H3 & H4 & _).
  assert (Hlo : year_num (year_first y) <= year_num doe).
  { replace doe with (year_first y + Z.of_nat (Z.to_nat (doe - year_first y))) by lia. by apply year_num_mono. }
  assert (Hhi : year_num doe <= year_num (year_last y)).
  { replace (year_last y) with (doe + Z.of_nat (Z.to_nat (year_last y - doe))) by lia. apply year_num_mono. lia. }
  assert (Hyoe : year_num doe / 365 = y).
  { apply (Z.div_le_mono _ _ 365) in Hlo, Hhi; lia. }
  assert (Hnum : 0 <= year_num doe) by (unfold year_num; divlia).
  unfold era_date, civil_from_days. replace (doe - 719468 + 719468) with doe by lia.
  rewrite (proj2 (Z.leb_le 0 doe)) by lia. rewrite (Z.quot_small doe 146097) by lia. cbv zeta.
  replace (doe - 0 * 146097) with doe by lia. rewrite Z.mul_0_l, Z.add_0_r.
  rewrite !(Z.quot_div_nonneg doe) by lia. fold (year_num doe).
  rewrite (Z.quot_div_nonneg (year_num doe)) by lia. rewrite Hyoe.
  rewrite !(Z.quot_div_nonneg y) by lia. unfold date_in, month_day, year_first. reflexivity.
Qed.

(** [next_day] on month and day: whether the year ends, and the next. *)
Definition next_md (lp : bool) (md : Z * Z) : Z * (Z * Z) :=
  let '(m, d) := md in
  if d <? (if m =? 2 then if lp then 29 else 28
           else if (m =? 4) || (m =? 6) || (m =? 9) || (m =? 11) then 30 else 31) then (0, (m, d + 1))
  else if m <? 12 then (0, (m + 1, 1)) else (1, (1, 1)).

Lemma next_day_md y m d :
  next_day (y, m, d) = let '(c, (m', d')) := next_md (leap y) (m, d) in (y + c, m', d').
Proof. unfold next_day, next_md, days_in_month. repeat case_match; simplify_eq; f_equal; f_equal; lia. Qed.

(** Both the day [doy] of a year and the one that follows, for the leap rule
    [lp] of that year's February. *)
Definition step_ok (lp : bool) (doy : Z) : bool :=
  let '(m, d) := month_day doy in
  let '(m', d') := month_day (if doy =? (if lp then 365 else 364) then 0 else doy + 1) in
  let y' := if doy =? (if lp then 365 else 364) then 1 else 0 in
  let '(c, (m1, d1)) := next_md lp (m, d) in
  (m1 =? m') && (d1 =? d') && ((if m <=? 2 then 1 else 0) + c =? y' + (if m' <=? 2 then 1 else 0)) &&
  (Bool.eqb (m =? 2) (337 <=? doy)).

Lemma steps_checked :
  all_from 365 0 (step_ok false) = true /\ all_from 366 0 (step_ok true) = true.
Proof. split; vm_compute; reflexivity. Qed.

Lemma next_md_leap lp1 lp2 m d : (m =? 2) = false -> next_md lp1 (m, d) = next_md lp2 (m, d).
Proof. unfold next_md. by intros ->. Qed.

Lemma next_date_in y doy :
  0 <= doy <= (if leap (y + 1) then 365 else 364) ->
  next_day (date_in y doy) =
  if doy =? (if leap (y + 1) then 365 else 364) then date_in (y + 1) 0 else date_in y (doy + 1).
Proof.
  intros Hdoy. assert (Hs : step_ok (leap (y + 1)) doy = true).
  { destruct steps_checked as [Hf Ht]. destruct (leap (y + 1)).
    - apply (all_from_spec _ _ 0 doy Ht). lia.
    - apply (all_from_spec _ _ 0 doy Hf). lia. }
  transitivity (date_in (if doy =? (if leap (y + 1) then 365 else 364) then y + 1 else y)
                  (if doy =? (if leap (y + 1) then 365 else 364) then 0 else doy + 1));
    [|by destruct (doy =? (if leap (y + 1) then 365 else 364))].
  unfold step_ok in Hs. unfold date_in.
  destruct (month_day doy) as [m d], (month_day (if _ =? _ then _ else _)) as [m' d'].
  assert (Hl : next_md (leap (if m <=? 2 then y + 1 else y)) (m, d) = next_md (leap (y + 1)) (m, d)).
  { destruct (Z.leb_spec m 2); [done|]. apply next_md_leap. lia. }
  rewrite next_day_md, Hl. destruct (next_md (leap (y + 1)) (m, d)) as [c [m1 d1]].
  apply andb_prop in Hs as [[[->%Z.eqb_eq ->%Z.eqb_eq]%andb_prop Hy%Z.eqb_eq]%andb_prop _].
  f_equal. f_equal. destruct (doy =? _), (m <=? 2), (m' <=? 2); lia.
Qed.

Lemma era_next doe :
  0 <= doe < 146097 ->
  next_day (era_date doe) = if doe =? 146096 then shift_years 400 (era_date 0) else era_date (doe + 1).
Proof.
  intros Hdoe. destruct (year_exists 400 doe) as (y & Hy & Hr); [lia|done|].
  change (Z.of_nat 400) with 400 in Hy.
  pose proof (year_checks y Hy) as (_ & _ & H3 & H4 & H5 & H6). rewrite (era_date_in y) by done.
  rewrite next_date_in by lia.
  destruct (Z.eqb_spec (doe - year_first y) (if leap (y + 1) then 365 else 364)) as [E|E].
  - assert (doe = year_last y) as -> by lia.
    destruct H6 as [[-> H6]|(Hy' & H6 & Hne)].
    + by rewrite H6.
    + rewrite (proj2 (Z.eqb_neq _ _) Hne), H6, (era_date_in (y + 1)).
      * by rewrite Z.sub_diag.
      * lia.
      * pose proof (year_checks (y + 1) ltac:(lia)) as (_ & _ & _ & _ & H5' & _).
        destruct (leap (y + 1 + 1)); lia.
  - rewrite (proj2 (Z.eqb_neq _ _)) by lia. rewrite (era_date_in y (doe + 1)) by lia. f_equal. lia.
Qed.

(** The conversion is the Gregorian calendar: day 0 is 1 January 1970, and
    each next day number is the next date, with months of their length and
    leap years by the 4/100/400 rule, for every day before and after. *)
Theorem civil_from_days_calendar (z : Z) :
  civil_from_days 0 = (1970, 1, 1) /\ civil_from_days (z + 1) = next_day (civil_from_days z).
Proof.
  split; [reflexivity|]. rewrite !civil_split, next_day_shift.
  set (w := z + 719468). replace (z + 1 + 719468) with (w + 1) by lia.
  pose proof (Z.mod_pos_bound w 146097 ltac:(lia)) as Hw.
  pose proof (Z.div_mod w 146097 ltac:(lia)) as Hdiv. rewrite era_next by lia.
  destruct (Z.eqb_spec (w mod 146097) 146096) as [He|Hne].
  - rewrite <-(Z.mod_unique_pos (w + 1) 146097 (w / 146097 + 1) 0) by lia.
    rewrite <-(Z.div_unique_pos (w + 1) 146097 (w / 146097 + 1) 0) by lia.
    destruct (era_date 0) as [[y m] d]. unfold shift_years. f_equal. f_equal. lia.
  - rewrite <-(Z.mod_unique_pos (w + 1) 146097 (w / 146097) (w mod 146097 + 1)) by lia.
    by rewrite <-(Z.div_unique_pos (w + 1) 146097 (w / 146097) (w mod 146097 + 1)) by lia.
Qed.
