(* ===== verification/Cache.v ===== *)
(** * Cache: remembered decisions

    Models [crates/authenticator/src/cache.rs]: the [_decisions] table, keyed
    by peer and statement fingerprint, and the tier that answers from it. *)

From S2P Require Import Prelude RustStd Collections AuthTypes Chain Fingerprint CivilDate.

Section cache.
Context `{!Sha256}.

Definition upsert_decision (peer fingerprint : string) (row : DecisionRow) (d : Db) : result string Db :=
  let? t := need_table "_decisions" (db_decisions d) in
  Ok (set_decisions (<[(peer, fingerprint) := row]> t) d).

(** A NaN expiry is stored as NULL. *)
Definition expiry (now : f64) (ttl_secs : option f64) : option f64 :=
  match ttl_secs with
  | Some t => store_real (f64_add now t)
  | None => None
  end.

Definition opt_cell (s : option string) : Cell :=
  match s with Some s => SText s | None => SNull end.

Definition record_decision (conn : Conn) (peer fingerprint decision : string) (reason : option string)
    (decided_by : string) (ttl_secs : option f64) : result string unit * Conn :=
  execute (upsert_decision peer fingerprint
             (mkDecisionRow (SText decision) (opt_cell reason) (SText decided_by)
                (SText (rfc3339 (now_secs conn))) (expiry (now_f64 conn) ttl_secs))) conn.

Definition invalidate_decisions (conn : Conn) : result string unit * Conn :=
  execute (fun d => let? _ := need_table "_decisions" (db_decisions d) in Ok (set_decisions ∅ d)) conn.

(** [expires_at IS NULL OR expires_at > ?3]. *)
Definition live (now : f64) (row : DecisionRow) : bool :=
  match dr_expires_at row with
  | None => true
  | Some e => f64_gt e now
  end.

Definition lookup_decision (peer fp : string) (now : f64) (d : Db) :
    result string (option (string * option string)) :=
  let? t := need_table "_decisions" (db_decisions d) in
  match t !! (peer, fp) with
  | Some row =>
      if live now row then
        let? decision := get_string (dr_decision row) in
        let? reason := get_opt_string (dr_reason row) in
        Ok (Some (decision, reason))
      else Ok None
  | None => Ok None
  end.

Definition cache_decide (conn : Conn) (peer action : string) (footprint : Footprint) (statement : string) :
    Decision * Conn :=
  if has_denied footprint then (Escalate, conn)
  else if bool_decide (action = "knock") then (Escalate, conn)
  else
    let fp := statement_fingerprint action statement footprint in
    match query (lookup_decision peer fp (now_f64 conn)) conn with
    | (Ok (Some (decision, reason)), conn) =>
        ((if bool_decide (decision = "allow") then Allow
          else if bool_decide (decision = "deny") then
            Deny (default "denied by remembered decision" reason)
          else Escalate), conn)
    | (Ok None, conn) => (Escalate, conn)
    | (Err _, conn) => (Escalate, conn)
    end.

Definition CacheTier : Tier :=
  mkTier "cache" (fun conn peer action footprint statement =>
    let '(d, conn) := cache_decide conn peer action footprint statement in (Some d, conn)).

(** ** Properties *)

(** What a recorded answer means to a later request. *)
Definition remembered (decision : string) (reason : option string) : Decision :=
  if bool_decide (decision = "allow") then Allow
  else if bool_decide (decision = "deny") then Deny (default "denied by remembered decision" reason)
  else Escalate.

Lemma cache_decide_hit conn t row peer action fp stm :
  healthy conn -> denied fp = ∅ -> action <> "knock" ->
  db_decisions (db conn) = Some t -> t !! (peer, statement_fingerprint action stm fp) = Some row ->
  forall decision reason, dr_decision row = SText decision -> dr_reason row = opt_cell reason ->
  fst (cache_decide conn peer action fp stm) =
  if live (now_f64 conn) row then remembered decision reason else Escalate.
Proof.
  intros Hc Hd Ha Ht Hrow decision reason Hdec Hreason. unfold cache_decide, has_denied.
  rewrite bool_decide_true, bool_decide_false by done. cbn [negb].
  pose proof (query_healthy (lookup_decision peer (statement_fingerprint action stm fp) (now_f64 conn)) conn Hc) as Hq.
  destruct (query _ conn) as [r c]. cbn in Hq. subst r. unfold lookup_decision. rewrite Ht. cbn.
  rewrite Hrow. destruct (live _ row); [|done]. rewrite Hdec, Hreason. by destruct reason.
Qed.

(** An answer recorded for a peer and a request is the cache's answer to every
    later request of that peer with the same fingerprint, until the expiry and
    not after, and changes no other answer. *)
Theorem remembered_until_expiry (c c' : Conn) (peer peer' decision by_ : string) (reason : option string)
    (ttl : option f64) (now : f64) (action stm action' stm' : string) (fp fp' : Footprint) :
  healthy c -> denied fp' = ∅ -> action' <> "knock" ->
  record_decision c peer (statement_fingerprint action stm fp) decision reason by_ ttl = (Ok tt, c') ->
  let later := mkConn (db c') [] (now_secs c') now (ulids c') in
  let earlier := mkConn (db c) [] (now_secs c) now (ulids c) in
  fst (cache_decide later peer' action' fp' stm') =
  if base.decide (peer' = peer /\ statement_fingerprint action' stm' fp' = statement_fingerprint action stm fp) then
    if match expiry (now_f64 c) ttl with Some e => f64_gt e now | None => true end
    then remembered decision reason else Escalate
  else fst (cache_decide earlier peer' action' fp' stm').
Proof.
  intros Hc Hd Ha Hrec later earlier. unfold record_decision, execute in Hrec.
  destruct (sql_healthy (fun d => rmap (fun d' => (tt, d'))
    (upsert_decision peer (statement_fingerprint action stm fp)
      (mkDecisionRow (SText decision) (opt_cell reason) (SText by_) (SText (rfc3339 (now_secs c)))
         (expiry (now_f64 c) ttl)) d)) c Hc) as (fs & _ & Heq).
  rewrite Heq in Hrec. clear Heq. unfold upsert_decision in Hrec.
  destruct (db_decisions (db c)) as [t|] eqn:Ht; [|done]. cbn in Hrec. injection Hrec as <-.
  case_decide as Hk.
  - destruct Hk as [-> Hk].
    assert (Hlater : healthy later) by constructor.
    by rewrite (cache_decide_hit later _ _ peer action' fp' stm' Hlater Hd Ha eq_refl
               (eq_trans (f_equal (fun k => <[_ := _]> t !! (peer, k)) Hk) (lookup_insert_eq t _ _))
               decision reason eq_refl eq_refl).
  - unfold cache_decide, has_denied. rewrite bool_decide_true, bool_decide_false by done. cbn.
    unfold lookup_decision. cbn. rewrite Ht. cbn.
    rewrite lookup_insert_ne by (intros Heq; injection Heq as Hp Hf; by apply Hk).
    by destruct (t !! _) as [row|]; [destruct (live now row); [destruct (dr_decision row), (dr_reason row)|]|].
Qed.

End cache.

Lemma remembered_until_expiry_witness :
  let c := mkConn (mkDb None None (Some ∅) None None None) [] 0 (S754_zero false) [] in
  let key := @statement_fingerprint wit_sha "read" "SELECT 1" Footprint_default in
  exists c', record_decision c "alice" key "allow" None "human" None = (Ok tt, c') /\
    fst (@cache_decide wit_sha c' "alice" "read" Footprint_default "SELECT 2") = Allow.
Proof.
  intros c key. eexists. split; [reflexivity|].
  assert (Hc : healthy c) by constructor.
  etransitivity; [exact (@remembered_until_expiry wit_sha c _ "alice" "alice" "allow" "human" None None
    (S754_zero false) "read" "SELECT 1" "read" "SELECT 2" Footprint_default Footprint_default Hc eq_refl
    ltac:(discriminate) eq_refl)|].
  vm_compute. reflexivity.
Defined.
