(* ===== verification/Human.v ===== *)
(** * Human: parking a request and answering it

    Models [crates/authenticator/src/human.rs]: the tier that parks a statement
    in [_inbox], and the answer flow that decides it, feeds the decision cache,
    writes policy rules, or admits a peer. JSON is [serde_json]'s and SQLite's
    [json_extract] ([ParkedJson]). *)

From S2P Require Import Prelude RustStd Collections Vocab AuthTypes Chain Fingerprint CivilDate Cache.

Definition PENDING_REASON : string := "pending human decision".

Record ParkedParams : Type := mkParkedParams {
  pk_action : string;
  pk_fingerprint : string;
  pk_footprint : Footprint
}.

(** [serde_json::to_string] and [from_str] at [ParkedParams], and the text (if
    it is one) of [json_extract(params, '$.fingerprint')]. *)
Class ParkedJson : Type := {
  params_to_json : ParkedParams -> result string string;
  params_from_json : string -> result string ParkedParams;
  json_fingerprint : string -> result string (option string)
}.

Class ParkedJsonLaws {J : ParkedJson} : Prop := {
  params_roundtrip p j : params_to_json p = Ok j -> params_from_json j = Ok p;
  params_fingerprint p j : params_to_json p = Ok j -> json_fingerprint j = Ok (Some (pk_fingerprint p))
}.

Section human.
Context `{!Sha256, !ParkedJson}.

(** The lookup of a pending row of the same shape: rows in order, the filter
    before [json_extract], the first match ends the scan. *)
Fixpoint find_pending (peer fp : string) (rows : list InboxRow) : result string bool :=
  match rows with
  | [] => Ok false
  | row :: rows' =>
      if bool_decide (in_peer row = peer) && bool_decide (in_decision row = None) &&
         negb (is_empty (in_sql row)) then
        let? f := json_fingerprint (in_params row) in
        if bool_decide (f = Some fp) then Ok true else find_pending peer fp rows'
      else find_pending peer fp rows'
  end.

Definition insert_inbox (row : InboxRow) (d : Db) : result string Db :=
  let? rows := need_table "_inbox" (db_inbox d) in
  if existsb (fun r => bool_decide (in_request_id r = in_request_id row)) rows then
    Err "UNIQUE constraint failed: _inbox.request_id"
  else Ok (set_inbox (rows ++ [row]) d).

Definition human_decide (conn : Conn) (peer action : string) (footprint : Footprint) (statement : string) :
    Decision * Conn :=
  if is_empty statement || bool_decide (action = "knock") then (Escalate, conn)
  else if has_denied footprint then (Escalate, conn)
  else
    let fp := statement_fingerprint action statement footprint in
    match query (fun d => let? rows := need_table "_inbox" (db_inbox d) in find_pending peer fp rows) conn with
    | (Ok true, conn) => (Deny PENDING_REASON, conn)
    | (Err _, conn) => (Escalate, conn)
    | (Ok false, conn) =>
        match params_to_json (mkParkedParams action fp footprint) with
        | Err _ => (Escalate, conn)
        | Ok params_json =>
            let '(request_id, conn) := draw_ulid conn in
            match execute (insert_inbox (mkInboxRow request_id peer statement params_json None None
                                           (rfc3339 (now_secs conn)))) conn with
            | (Ok _, conn) => (Deny PENDING_REASON, conn)
            | (Err _, conn) => (Escalate, conn)
            end
        end
    end.

Definition HumanTier : Tier :=
  mkTier "human" (fun conn peer action footprint statement =>
    let '(d, conn) := human_decide conn peer action footprint statement in (Some d, conn)).

(** ** Answering *)

Record InboxAnswer : Type := mkInboxAnswer {
  ia_peer : string;
  ia_knock : bool;
  ia_remembered : list string;
  ia_granted : list string
}.

Definition AnswerError : Type := msg.

(** [From<rusqlite::Error>]. *)
Definition sql_error (e : string) : AnswerError := [L e].

Definition inbox_row (request_id : string) (d : Db) : result string (option InboxRow) :=
  let? rows := need_table "_inbox" (db_inbox d) in
  Ok (head (base.filter (fun r => in_request_id r = request_id) rows)).

Definition decide_row (decision : string) (row : InboxRow) : InboxRow :=
  mkInboxRow (in_request_id row) (in_peer row) (in_sql row) (in_params row) (Some decision)
    (Some "human") (in_received_at row).

Definition mark_decided (decision request_id : string) (d : Db) : result string Db :=
  let? rows := need_table "_inbox" (db_inbox d) in
  Ok (set_inbox (map (fun r => if bool_decide (in_request_id r = request_id) then decide_row decision r
                               else r) rows) d).

(** [INSERT OR IGNORE INTO _peers]. *)
Definition admit_peer (peer added_at notes : string) (d : Db) : result string Db :=
  let? t := need_table "_peers" (db_peers d) in
  Ok (match t !! peer with
      | Some _ => d
      | None => set_peers (<[peer := new_peer added_at (Some notes)]> t) d
      end).

Definition text_rule (peer table action effect note : string) : PolicyRow :=
  mkPolicyRow (SText peer) (SText table) (SText action) (SText effect) (SText note).

Definition insert_rule (row : PolicyRow) (d : Db) : result string Db :=
  let? rows := need_table "_policy" (db_policy d) in
  Ok (set_policy (rows ++ [row]) d).

(** [INSERT ... SELECT ... WHERE NOT EXISTS]. *)
Definition grant_rule (peer table action note : string) (d : Db) : result string Db :=
  let? rows := need_table "_policy" (db_policy d) in
  if existsb (fun r => cell_is (po_peer r) peer && cell_is (po_table r) table &&
                       cell_is (po_action r) action && cell_is (po_effect r) "allow") rows then Ok d
  else Ok (set_policy (rows ++ [text_rule peer table action "allow" note]) d).

Fixpoint write_grants (peer request_id : string) (grants : list string) : M AnswerError (list string) :=
  match grants with
  | [] => ret []
  | grant :: grants' =>
      match split_once "=" grant with
      | None => throw [L "grant "; D grant; L ": expected table=action (e.g. 'cameras=mod-install')"]
      | Some (table, action) =>
          let! _ := mmap_err sql_error
                      (execute (grant_rule peer table action ("granted with inbox answer " +:+ request_id))) in
          let! granted := write_grants peer request_id grants' in
          ret (grant :: granted)
      end
  end.

Fixpoint write_remembered (peer action effect request_id : string) (tables : list string) :
    M AnswerError (list string) :=
  match tables with
  | [] => ret []
  | table :: tables' =>
      let! _ := mmap_err sql_error
                  (execute (insert_rule (text_rule peer table action effect
                                           ("remembered from inbox " +:+ request_id)))) in
      let! remembered := write_remembered peer action effect request_id tables' in
      ret (table :: remembered)
  end.

Definition parse_parked (request_id : string) (row : InboxRow) : result AnswerError (option ParkedParams) :=
  if is_empty (in_sql row) then Ok None
  else match params_from_json (in_params row) with
       | Ok p => Ok (Some p)
       | Err e => Err [L "inbox row "; L request_id; L " has unreadable params ("; L e;
                       L "); answer it with plain SQL"]
       end.

(** The part of [answer_inbox] after the row is marked decided. *)
Definition apply_answer (request_id : string) (allow remember : bool) (grants : list string) (peer : string)
    (parked : option ParkedParams) : M AnswerError InboxAnswer :=
  let decision_str := if allow then "allow" else "deny" in
  match parked with
  | None =>
      let! granted :=
        (if allow then
           let! _ := mmap_err sql_error (fun conn =>
             execute (admit_peer peer (rfc3339 (now_secs conn)) ("admitted via inbox " +:+ request_id)) conn) in
           write_grants peer request_id grants
         else ret []) in
      ret (mkInboxAnswer peer true [] granted)
  | Some parked =>
      let! _ := mmap_err sql_error (fun conn =>
        record_decision conn peer (pk_fingerprint parked) decision_str
          (Some ("answered from _inbox " +:+ request_id)) "human" None) in
      let! remembered :=
        (if remember then
           let ts := if Footprint_is_empty (pk_footprint parked) then ["*"]
                     else bt_keys (tables (pk_footprint parked)) in
           write_remembered peer (pk_action parked) decision_str request_id ts
         else ret []) in
      let! granted := (if allow then write_grants peer request_id grants else ret []) in
      ret (mkInboxAnswer peer false remembered granted)
  end.

Definition answer_inbox (request_id : string) (allow remember : bool) (grants : list string) :
    M AnswerError InboxAnswer :=
  let! row := mmap_err sql_error (query (inbox_row request_id)) in
  match row with
  | None => throw [L "no _inbox row with id "; L request_id]
  | Some row =>
      match in_decision row with
      | Some d => throw [L "inbox row "; L request_id; L " is already decided ("; L d; L ")"]
      | None =>
          let! parked := (fun conn => (parse_parked request_id row, conn)) in
          let! _ := mmap_err sql_error
                      (execute (mark_decided (if allow then "allow" else "deny") request_id)) in
          apply_answer request_id allow remember grants (in_peer row) parked
      end
  end.

(** ** Parking *)

Definition pending_key (row : InboxRow) : option (string * string) :=
  if bool_decide (in_decision row = None) && negb (is_empty (in_sql row)) then
    match json_fingerprint (in_params row) with
    | Ok (Some f) => Some (in_peer row, f)
    | _ => None
    end
  else None.

(** The requests that wait for an answer. *)
Definition pending_keys (rows : list InboxRow) : list (string * string) := omap pending_key rows.

Lemma pending_keys_cons row rows :
  pending_keys (row :: rows) = option_list (pending_key row) ++ pending_keys rows.
Proof. unfold pending_keys. cbn. by destruct (pending_key row). Qed.

Lemma pending_keys_app rows1 rows2 :
  pending_keys (rows1 ++ rows2) = pending_keys rows1 ++ pending_keys rows2.
Proof.
  induction rows1 as [|row rows1 IH]; [done|]. cbn [app]. by rewrite !pending_keys_cons, IH, (assoc (++)).
Qed.

Lemma find_pending_spec peer fp rows b :
  find_pending peer fp rows = Ok b -> b = true <-> (peer, fp) ∈ pending_keys rows.
Proof.
  induction rows as [|row rows IH]; cbn [find_pending].
  { intros [= <-]. split; [done|]. by intros ?%elem_of_nil. }
  rewrite pending_keys_cons, elem_of_app. unfold pending_key.
  destruct (bool_decide (in_decision row = None)), (is_empty (in_sql row));
    rewrite ?andb_false_r, ?andb_true_r; cbn [andb negb option_list];
    try (intros Hb; rewrite (IH Hb), elem_of_nil; tauto).
  case_bool_decide as Hp.
  - destruct (json_fingerprint (in_params row)) as [[f|]|e]; cbn; [| |done].
    2: { intros Hb. rewrite (IH Hb), elem_of_nil. tauto. }
    rewrite list_elem_of_singleton. case_bool_decide as Hf.
    + intros [= <-]. split; [|done]. intros _. left. congruence.
    + intros Hb. rewrite (IH Hb). split; [auto|]. intros [Heq|?]; [congruence|done].
  - intros Hb. rewrite (IH Hb). split; [auto|]. intros [Hin|?]; [|done].
    destruct (json_fingerprint (in_params row)) as [[f|]|e]; cbn in Hin.
    + apply list_elem_of_singleton in Hin. congruence.
    + by apply elem_of_nil in Hin.
    + by apply elem_of_nil in Hin.
Qed.

Lemma execute_cases f c r c' :
  execute f c = (r, c') ->
  db c' = db c /\ (exists e, r = Err e) \/ exists d, f (db c) = Ok d /\ db c' = d /\ r = Ok tt.
Proof.
  unfold execute, sql. destruct (faults c) as [|[e|] fs]; destruct (f (db c)) as [d|e'] eqn:E; cbn;
    intros [= <- <-]; eauto 6.
Qed.

Context `{!ParkedJsonLaws}.

(** At most one row waits per peer and request shape, whatever fails, and the
    answer "pending human decision" is given only when the request does wait
    in the inbox; otherwise nothing is parked and the tier abstains. *)
Theorem park_once (c c' : Conn) (d : Decision) (peer action stm : string) (fp : Footprint) (rows : list InboxRow) :
  db_inbox (db c) = Some rows -> NoDup (pending_keys rows) ->
  human_decide c peer action fp stm = (d, c') ->
  exists rows', db_inbox (db c') = Some rows' /\ NoDup (pending_keys rows') /\
    (d = Deny PENDING_REASON /\ (peer, statement_fingerprint action stm fp) ∈ pending_keys rows' \/
     d = Escalate /\ rows' = rows).
Proof.
  intros Hdb Hnd. unfold human_decide.
  destruct (is_empty stm) eqn:Hstm; [intros [= <- <-]; exists rows; auto|].
  destruct (bool_decide (action = "knock")); [intros [= <- <-]; exists rows; auto|]. cbn [orb].
  destruct (has_denied fp); [intros [= <- <-]; exists rows; auto|].
  set (key := statement_fingerprint action stm fp).
  destruct (query _ c) as [[[|]|e] c1] eqn:Hq; pose proof Hq as (Hdb1 & _)%query_keeps.
  all: assert (Hdb1' : db_inbox (db c1) = Some rows) by congruence.
  - intros [= <- <-]. exists rows. split_and!; [done..|]. left. split; [done|].
    unfold query, sql in Hq. rewrite Hdb in Hq. cbn in Hq.
    destruct (faults c) as [|[?|] ?]; destruct (find_pending peer key rows) eqn:Hf; simplify_eq/=.
    all: by apply (find_pending_spec _ _ _ _ Hf).
  - assert (Hnew : (peer, key) ∉ pending_keys rows).
    { unfold query, sql in Hq. rewrite Hdb in Hq. cbn in Hq.
      destruct (faults c) as [|[?|] ?]; destruct (find_pending peer key rows) eqn:Hf; simplify_eq/=.
      all: apply find_pending_spec in Hf; naive_solver. }
    destruct (params_to_json _) as [j|e] eqn:Hj; [|intros [= <- <-]; exists rows; auto].
    cbn. set (row := mkInboxRow _ _ _ _ _ _ _).
    destruct (execute (insert_inbox row) _) as [r c2] eqn:Hx.
    apply execute_cases in Hx as [[Hdb2 [e ->]]|(d' & Hins & Hdb2 & ->)]; cbn in *.
    { intros [= <- <-]. exists rows. split_and!; [congruence|done|auto]. }
    intros [= <- <-]. unfold insert_inbox in Hins. rewrite Hdb1' in Hins. cbn in Hins.
    destruct (existsb _ rows); [done|]. injection Hins as <-. exists (rows ++ [row]).
    rewrite Hdb2. split; [done|].
    assert (Hkey : pending_key row = Some (peer, key)).
    { unfold pending_key. cbn. rewrite Hstm. cbn. by rewrite (params_fingerprint _ _ Hj). }
    rewrite pending_keys_app, pending_keys_cons, Hkey. cbn [option_list app]. split.
    + apply NoDup_app. split_and!; [done| |apply NoDup_singleton].
      intros k Hk ->%list_elem_of_singleton. done.
    + left. split; [done|]. set_solver.
  - intros [= <- <-]. exists rows. auto.
Qed.

(** ** Answering *)

(** After statements that all ran: same clock, still healthy. *)
Definition ran (c : Conn) (d : Db) (c' : Conn) : Prop :=
  db c' = d /\ healthy c' /\ now_f64 c' = now_f64 c /\ now_secs c' = now_secs c.

Lemma ran_refl c : healthy c -> ran c (db c) c.
Proof. by intros. Qed.

Lemma ran_trans c d1 c1 d2 c2 : ran c d1 c1 -> ran c1 d2 c2 -> ran c d2 c2.
Proof. intros (_ & _ & ? & ?) (? & ? & ? & ?). repeat split; congruence. Qed.

Lemma execute_ran f c d :
  healthy c -> f (db c) = Ok d -> exists c', execute f c = (Ok tt, c') /\ ran c d c'.
Proof.
  intros Hc Hf. destruct (sql_healthy (fun d => rmap (fun d' => (tt, d')) (f d)) c Hc) as (fs & Hfs & Hs).
  unfold execute. rewrite Hs, Hf. cbn. by eexists.
Qed.

Lemma write_remembered_ran peer action effect id ts : forall c ps,
  healthy c -> db_policy (db c) = Some ps ->
  exists ps' c', write_remembered peer action effect id ts c = (Ok ts, c') /\
                 ran c (set_policy ps' (db c)) c'.
Proof.
  induction ts as [|t ts IH]; intros c ps Hc Hps; cbn [write_remembered].
  { exists ps, c. split; [done|]. repeat split; [|done]. destruct c as [[] ? ? ? ?]. cbn in *. by rewrite Hps. }
  unfold mbind, mmap_err.
  destruct (execute_ran (insert_rule (text_rule peer t action effect ("remembered from inbox " +:+ id))) c
              (set_policy (ps ++ [text_rule peer t action effect ("remembered from inbox " +:+ id)]) (db c)) Hc)
    as (c1 & -> & Hr1).
  { unfold insert_rule. by rewrite Hps. }
  pose proof Hr1 as (Hdb1 & Hc1 & _).
  assert (Hps1 : exists ps1, db_policy (db c1) = Some ps1) by (rewrite Hdb1; by eexists).
  destruct Hps1 as [ps1 Hps1]. destruct (IH c1 ps1 Hc1 Hps1) as (ps' & c2 & -> & Hr2).
  exists ps', c2. split; [done|]. rewrite Hdb1 in Hr2. by eapply ran_trans.
Qed.

(** What the answer flow leaves for a parked statement, up to policy rules. *)
Lemma apply_answer_ran id allow remember peer p c t ps :
  healthy c -> db_decisions (db c) = Some t -> db_policy (db c) = Some ps ->
  exists a c' ps', apply_answer id allow remember [] peer (Some p) c = (Ok a, c') /\ ia_knock a = false /\
    ran c (set_policy ps' (set_decisions
      (<[(peer, pk_fingerprint p) :=
         mkDecisionRow (SText (if allow then "allow" else "deny")) (SText ("answered from _inbox " +:+ id))
           (SText "human") (SText (rfc3339 (now_secs c))) None]> t) (db c))) c'.
Proof.
  intros Hc Ht Hps. unfold apply_answer, mbind, mmap_err, record_decision.
  match goal with |- context [execute (upsert_decision ?a ?b ?r) c] => set (row := r) end.
  change (mkDecisionRow (SText (if allow then "allow" else "deny")) (SText ("answered from _inbox " +:+ id))
            (SText "human") (SText (rfc3339 (now_secs c))) None) with row.
  destruct (execute_ran (upsert_decision peer (pk_fingerprint p) row) c
              (set_decisions (<[(peer, pk_fingerprint p) := row]> t) (db c)) Hc) as (c1 & -> & Hr1).
  { unfold upsert_decision. by rewrite Ht. }
  pose proof Hr1 as (Hdb1 & Hc1 & _).
  assert (Hps1 : db_policy (db c1) = Some ps) by (by rewrite Hdb1).
  destruct remember.
  - destruct (write_remembered_ran peer (pk_action p) (if allow then "allow" else "deny") id
      (if Footprint_is_empty (pk_footprint p) then ["*"] else bt_keys (tables (pk_footprint p))) c1 ps Hc1 Hps1)
      as (ps' & c2 & -> & Hr2).
    destruct allow; cbn; eexists _, c2, ps'; (split; [done|split; [done|]]);
      rewrite Hdb1 in Hr2; by eapply ran_trans.
  - assert (Hself : set_policy ps (db c1) = db c1) by (destruct c1 as [[] ? ? ? ?]; cbn in *; by rewrite Hps1).
    rewrite <-Hdb1. rewrite <-Hdb1 in Hr1.
    destruct allow; cbn; eexists _, c1, ps; rewrite Hself; by (split; [|split]).
Qed.

Lemma query_ran {A} (f : Db -> result string A) c :
  healthy c -> exists c', query f c = (f (db c), c') /\ ran c (db c) c'.
Proof.
  intros Hc. pose proof (query_healthy f c Hc) as Hq. destruct (query f c) as [r c'] eqn:E. cbn in Hq. subst r.
  exists c'. split; [done|]. apply query_keeps in E as (? & ? & ? & _ & Hh). by repeat split; auto.
Qed.

Lemma answer_inbox_parked id allow remember rows row p t ps c :
  healthy c -> db_inbox (db c) = Some rows -> db_decisions (db c) = Some t -> db_policy (db c) = Some ps ->
  head (base.filter (fun r => in_request_id r = id) rows) = Some row ->
  in_decision row = None -> is_empty (in_sql row) = false -> params_from_json (in_params row) = Ok p ->
  exists a c' t' ps', answer_inbox id allow remember [] c = (Ok a, c') /\ ia_knock a = false /\
    t' = <[(in_peer row, pk_fingerprint p) :=
         mkDecisionRow (SText (if allow then "allow" else "deny")) (SText ("answered from _inbox " +:+ id))
           (SText "human") (SText (rfc3339 (now_secs c))) None]> t /\
    ran c (set_policy ps' (set_decisions t' (set_inbox
      (map (fun r => if bool_decide (in_request_id r = id)
                     then decide_row (if allow then "allow" else "deny") r else r) rows) (db c)))) c'.
Proof.
  intros Hc Hrows Ht Hps Hhead Hdec Hsql Hp. unfold answer_inbox, mbind, mmap_err.
  destruct (query_ran (inbox_row id) c Hc) as (c1 & -> & Hr1). pose proof Hr1 as (Hdb1 & Hc1 & _).
  unfold inbox_row at 1. rewrite Hrows. cbn [need_table ok_or rbind]. rewrite Hhead, Hdec.
  unfold parse_parked. rewrite Hsql, Hp.
  match goal with |- context [execute (mark_decided ?s id) c1] => set (str := s) end.
  destruct (execute_ran (mark_decided str id) c1 (set_inbox
      (map (fun r => if bool_decide (in_request_id r = id) then decide_row str r else r) rows) (db c)) Hc1)
    as (c2 & -> & Hr2).
  { unfold mark_decided. by rewrite Hdb1, Hrows. }
  pose proof Hr2 as (Hdb2 & Hc2 & _).
  destruct (apply_answer_ran id allow remember (in_peer row) p c2 t ps) as (a & c3 & ps' & -> & Hk & Hr3);
    [done|by rewrite Hdb2|by rewrite Hdb2|].
  exists a, c3. rewrite Hdb2 in Hr3. eexists _, ps'. split; [done|split; [done|split; [reflexivity|]]].
  pose proof (ran_trans _ _ _ _ _ Hr1 (ran_trans _ _ _ _ _ Hr2 Hr3)) as Hr.
  destruct Hr1 as (_ & _ & _ & Hs1), Hr2 as (_ & _ & _ & Hs2). by rewrite Hs2, Hs1 in Hr.
Qed.

Lemma find_pending_query c peer key rows :
  healthy c -> db_inbox (db c) = Some rows -> find_pending peer key rows = Ok false ->
  exists c', query (fun d => let? rows := need_table "_inbox" (db_inbox d) in find_pending peer key rows) c =
             (Ok false, c') /\ db c' = db c /\ healthy c' /\ now_secs c' = now_secs c /\ ulids c' = ulids c.
Proof.
  intros Hc Hrows Hf.
  set (f := fun d => let? rows := need_table "_inbox" (db_inbox d) in find_pending peer key rows).
  pose proof (query_healthy f c Hc) as Hq. destruct (query f c) as [r c'] eqn:E. cbn [fst] in Hq.
  assert (Hfc : f (db c) = Ok false) by (unfold f; by rewrite Hrows). rewrite Hq, Hfc in *.
  exists c'. apply query_keeps in E as (? & _ & ? & ? & ?). split_and!; auto.
Qed.

(** Parking a new request, with nothing failing. *)
Lemma human_decide_parks c peer action fp stm rows u us j :
  healthy c -> db_inbox (db c) = Some rows -> ulids c = u :: us ->
  Forall (fun r => in_request_id r <> u) rows ->
  is_empty stm = false -> action <> "knock" -> denied fp = ∅ ->
  find_pending peer (statement_fingerprint action stm fp) rows = Ok false ->
  params_to_json (mkParkedParams action (statement_fingerprint action stm fp) fp) = Ok j ->
  exists c', human_decide c peer action fp stm = (Deny PENDING_REASON, c') /\ healthy c' /\
    db c' = set_inbox (rows ++ [mkInboxRow u peer stm j None None (rfc3339 (now_secs c))]) (db c).
Proof.
  intros Hc Hrows Hu Hfresh Hstm Ha Hd Hf Hj. unfold human_decide, has_denied.
  rewrite Hstm, (bool_decide_false (action = "knock")), bool_decide_true by done. cbn [orb negb].
  destruct (find_pending_query c peer _ rows Hc Hrows Hf) as (c1 & -> & Hdb1 & Hc1 & Hs1 & Hu1).
  rewrite Hj. unfold draw_ulid. rewrite Hu1, Hu. cbn [hd tail].
  set (c2 := mkConn _ _ _ _ _). assert (Hc2 : healthy c2) by done. cbn.
  set (row := mkInboxRow _ _ _ _ _ _ _).
  destruct (execute_ran (insert_inbox row) c2 (set_inbox (rows ++ [row]) (db c1)) Hc2) as (c3 & -> & Hdb3 & Hc3 & _).
  { unfold insert_inbox. cbn. rewrite Hdb1, Hrows. cbn.
    assert (existsb (fun r => bool_decide (in_request_id r = u)) rows = false) as ->; [|done].
    apply not_true_iff_false. rewrite existsb_exists. intros (r & Hr%list_elem_of_In & Heq%bool_decide_eq_true).
    by eapply Forall_forall in Hfresh. }
  exists c3. split; [done|]. split; [done|]. by rewrite Hdb3, Hdb1, <-Hs1.
Qed.

(** C39. Asking once is enough: a request that is parked and then answered is
    answered from the cache the next time, and so is every request of that peer
    with the same fingerprint. *)
Theorem answered_request_hits_cache (c : Conn) (peer action stm : string) (fp : Footprint)
    (rows : list InboxRow) (t : gmap (string * string) DecisionRow) (ps : list PolicyRow)
    (u : string) (us : list string) (j : string) (allow remember : bool) :
  healthy c -> db_inbox (db c) = Some rows -> db_decisions (db c) = Some t -> db_policy (db c) = Some ps ->
  ulids c = u :: us -> Forall (fun r => in_request_id r <> u) rows ->
  is_empty stm = false -> action <> "knock" -> denied fp = ∅ ->
  find_pending peer (statement_fingerprint action stm fp) rows = Ok false ->
  params_to_json (mkParkedParams action (statement_fingerprint action stm fp) fp) = Ok j ->
  exists c1 a c2,
    human_decide c peer action fp stm = (Deny PENDING_REASON, c1) /\
    answer_inbox u allow remember [] c1 = (Ok a, c2) /\ ia_knock a = false /\
    forall stm', statement_fingerprint action stm' fp = statement_fingerprint action stm fp ->
      fst (cache_decide c2 peer action fp stm') =
      if allow then Allow else Deny ("answered from _inbox " +:+ u).
Proof.
  intros Hc Hrows Ht Hps Hu Hfresh Hstm Ha Hd Hf Hj.
  destruct (human_decide_parks c peer action fp stm rows u us j) as (c1 & Hpark & Hc1 & Hdb1); [done..|].
  set (row := mkInboxRow u peer stm j None None (rfc3339 (now_secs c))) in Hdb1.
  destruct (answer_inbox_parked u allow remember (rows ++ [row]) row
      (mkParkedParams action (statement_fingerprint action stm fp) fp) t ps c1)
    as (a & c2 & t' & ps' & Hans & Hk & Ht' & Hdb2 & Hc2 & _); try (by rewrite ?Hdb1); try done.
  { rewrite filter_app, filter_none by done. by rewrite app_nil_l, filter_cons_True. }
  { by apply params_roundtrip. }
  exists c1, a, c2. split_and!; [done..|]. intros stm' Hfp.
  rewrite (cache_decide_hit c2 t' (mkDecisionRow (SText (if allow then "allow" else "deny"))
             (SText ("answered from _inbox " +:+ u)) (SText "human") (SText (rfc3339 (now_secs c1))) None)
             peer action fp stm' Hc2 Hd Ha) with (decision := if allow then "allow" else "deny")
             (reason := Some ("answered from _inbox " +:+ u)); [|by rewrite Hdb2| |done|done].
  - by destruct allow.
  - rewrite Ht', Hfp. apply lookup_insert_eq.
Qed.

(** A refused answer changes nothing: when the row does not exist, is already
    decided, or has parameters that cannot be read, the call fails and the
    database is as before. *)
Theorem answer_rejects_intact (c : Conn) (id : string) (allow remember : bool) (grants : list string) :
  healthy c ->
  match inbox_row id (db c) with
  | Ok (Some row) => in_decision row <> None \/ exists e, parse_parked id row = Err e
  | _ => True
  end ->
  exists e c', answer_inbox id allow remember grants c = (Err e, c') /\ db c' = db c.
Proof.
  intros Hc Hrow. unfold answer_inbox, mbind, mmap_err.
  destruct (query_ran (inbox_row id) c Hc) as (c1 & -> & Hdb1 & _).
  destruct (inbox_row id (db c)) as [[row|]|e]; [|by eexists _, c1..].
  destruct (in_decision row) as [d|]; [by eexists _, c1|]. destruct Hrow as [Hdec|[e He]]; [done|].
  rewrite He. by eexists _, c1.
Qed.

(** A malformed grant is noticed too late: the row is by then marked decided
    and the answer remembered, the call fails, and a second attempt is refused
    because the row is already decided. *)
Theorem bad_grant_half_applied (c : Conn) (id g : string) (rows : list InboxRow) (row : InboxRow)
    (p : ParkedParams) (t : gmap (string * string) DecisionRow) :
  healthy c -> db_inbox (db c) = Some rows -> db_decisions (db c) = Some t ->
  head (base.filter (fun r => in_request_id r = id) rows) = Some row ->
  in_decision row = None -> is_empty (in_sql row) = false -> params_from_json (in_params row) = Ok p ->
  split_once "=" g = None ->
  exists e c', answer_inbox id true false [g] c = (Err e, c') /\
    (exists t' r, db_decisions (db c') = Some t' /\ t' !! (in_peer row, pk_fingerprint p) = Some r /\
                  dr_decision r = SText "allow") /\
    forall allow remember grants,
      fst (answer_inbox id allow remember grants c') =
      Err [L "inbox row "; L id; L " is already decided ("; L "allow"; L ")"].
Proof.
  intros Hc Hrows Ht Hhead Hdec Hsql Hp Hg. unfold answer_inbox at 1, mbind, mmap_err.
  destruct (query_ran (inbox_row id) c Hc) as (c1 & -> & Hdb1 & Hc1 & _).
  unfold inbox_row at 1. rewrite Hrows. cbn [need_table ok_or rbind]. rewrite Hhead, Hdec.
  unfold parse_parked. rewrite Hsql, Hp.
  set (rows' := map (fun r => if bool_decide (in_request_id r = id) then decide_row "allow" r else r) rows).
  destruct (execute_ran (mark_decided "allow" id) c1 (set_inbox rows' (db c)) Hc1) as (c2 & -> & Hdb2 & Hc2 & _).
  { unfold mark_decided. by rewrite Hdb1, Hrows. }
  cbn [apply_answer]. unfold mbind, mmap_err, record_decision.
  match goal with |- context [execute (upsert_decision ?a ?b ?r) c2] => set (row' := r) end.
  destruct (execute_ran (upsert_decision (in_peer row) (pk_fingerprint p) row') c2
     (set_decisions (<[(in_peer row, pk_fingerprint p) := row']> t) (db c2)) Hc2) as (c3 & -> & Hdb3 & Hc3 & _).
  { unfold upsert_decision. by rewrite Hdb2; cbn; rewrite Ht. }
  cbn [write_grants ret]. rewrite Hg. eexists _, c3. split; [done|]. split.
  { eexists _, row'. rewrite Hdb3. cbn. split; [done|]. split; [apply lookup_insert_eq|done]. }
  intros allow remember grants. unfold answer_inbox, mbind, mmap_err.
  destruct (query_ran (inbox_row id) c3 Hc3) as (c4 & -> & _).
  unfold inbox_row. rewrite Hdb3, Hdb2. cbn.
  assert (Hhead' : head (base.filter (fun r => in_request_id r = id) rows') = Some (decide_row "allow" row)).
  { unfold rows'. clear -Hhead. induction rows as [|r rows IH]; [done|]. cbn [map].
    destruct (bool_decide_reflect (in_request_id r = id)) as [Heq|Hne].
    - rewrite filter_cons_True in Hhead by done. rewrite filter_cons_True by done. cbn in *. congruence.
    - rewrite filter_cons_False in Hhead by done. rewrite filter_cons_False by done. auto. }
  by rewrite Hhead'.
Qed.

End human.

(** ** Witnesses *)

Definition wit_reads : Footprint := from_tables Read [("notes", ["id"])].

(** A stand-in for the JSON form of the parameters, for one footprint. *)
Definition wit_parked : ParkedJson := {|
  params_to_json p := if bool_decide (pk_action p = "read" /\ pk_footprint p = wit_reads)
                      then Ok (pk_fingerprint p) else Err "unsupported";
  params_from_json j := Ok (mkParkedParams "read" j wit_reads);
  json_fingerprint j := Ok (Some j)
|}.

Lemma wit_parked_laws : @ParkedJsonLaws wit_parked.
Proof. split; intros [a f g] j; cbn; case_bool_decide as Hp; intros [= <-]; [by destruct Hp as [-> ->]|done]. Qed.

Definition wit_inbox (rows : list InboxRow) : Conn :=
  mkConn (mkDb None (Some []) (Some ∅) (Some rows) None None) [] 1700000000 (S754_zero false) ["u1"; "u2"].

Lemma park_once_witness :
  exists d c', @human_decide wit_sha wit_parked (wit_inbox []) "alice" "read" wit_reads "SELECT id FROM notes" =
               (d, c') /\ d = Deny PENDING_REASON /\ exists rows', db_inbox (db c') = Some rows' /\
               NoDup (@pending_keys wit_parked rows').
Proof.
  eexists _, _. split; [vm_compute; reflexivity|]. split; [reflexivity|].
  destruct (@park_once wit_sha wit_parked wit_parked_laws (wit_inbox []) _ _ "alice" "read"
              "SELECT id FROM notes" wit_reads [] eq_refl (NoDup_nil_2) ltac:(vm_compute; reflexivity))
    as (rows' & Hdb & Hnd & _).
  exists rows'. split; [exact Hdb|exact Hnd].
Defined.

Lemma answered_request_hits_cache_witness :
  exists c1 a c2,
    @human_decide wit_sha wit_parked (wit_inbox []) "alice" "read" wit_reads "SELECT id FROM notes WHERE id = 1" =
      (Deny PENDING_REASON, c1) /\
    @answer_inbox wit_parked "u1" true true [] c1 = (Ok a, c2) /\
    fst (@cache_decide wit_sha c2 "alice" "read" wit_reads "select id from NOTES where id = 'x'") = Allow.
Proof.
  destruct (@answered_request_hits_cache wit_sha wit_parked wit_parked_laws (wit_inbox []) "alice" "read"
              "SELECT id FROM notes WHERE id = 1" wit_reads [] ∅ [] "u1" ["u2"]
              (@statement_fingerprint wit_sha "read" "SELECT id FROM notes WHERE id = 1" wit_reads) true true
              ltac:(constructor) eq_refl eq_refl eq_refl eq_refl ltac:(constructor) eq_refl
              ltac:(discriminate) eq_refl eq_refl ltac:(vm_compute; reflexivity))
    as (c1 & a & c2 & Hpark & Hans & _ & Hhit).
  exists c1, a, c2. split; [exact Hpark|]. split; [exact Hans|]. apply Hhit. vm_compute. reflexivity.
Defined.

Definition wit_row : InboxRow := mkInboxRow "r1" "alice" "SELECT 1" "key" None None "".

Lemma answer_rejects_intact_witness :
  let c := wit_inbox [decide_row "deny" wit_row] in
  exists e c', @answer_inbox wit_parked "r1" true false [] c = (Err e, c') /\ db c' = db c.
Proof.
  intros c. apply (@answer_rejects_intact wit_parked c "r1" true false []); [constructor|].
  left. discriminate.
Defined.

Lemma bad_grant_half_applied_witness :
  exists e c', @answer_inbox wit_parked "r1" true false ["cameras"] (wit_inbox [wit_row]) = (Err e, c') /\
    fst (@answer_inbox wit_parked "r1" true false [] c') =
    Err [L "inbox row "; L "r1"; L " is already decided ("; L "allow"; L ")"].
Proof.
  destruct (@bad_grant_half_applied wit_parked (wit_inbox [wit_row]) "r1" "cameras" [wit_row] wit_row
              (mkParkedParams "read" "key" wit_reads) ∅ ltac:(constructor) eq_refl eq_refl eq_refl eq_refl
              eq_refl eq_refl eq_refl) as (e & c' & Ha & _ & Hagain).
  exists e, c'. split; [exact Ha|apply Hagain].
Defined.
