(* ===== verification/Script.v ===== *)
(** * Script: owner-authored decision scripts

    Models [crates/authenticator/src/script.rs]. Rhai is external ([Rhai]):
    evaluating a script under the budget of operations may panic, fail, or give
    a value, which may be a verdict. *)

From S2P Require Import Prelude RustStd Collections AuthTypes Chain.

Inductive ScriptVerdict : Type :=
| VAllow
| VDeny (reason : string)
| VEscalate.

(** The [rhai] engine with the three verdict functions registered, evaluated in
    a scope of the four constants; [None] is a panic, [Ok None] a value that is
    no verdict. *)
Class Rhai : Type := {
  rhai_eval (max_operations : Z) (peer action statement : string)
    (footprint : gmap string (list string)) (body : string) :
    option (result string (option ScriptVerdict))
}.

Section script.
Context `{!Rhai}.

Record ScriptTier : Type := mkScriptTier { max_operations : Z }.

Definition DEFAULT_MAX_OPERATIONS : Z := 100000.
Definition ScriptTier_default : ScriptTier := mkScriptTier DEFAULT_MAX_OPERATIONS.

Definition footprint_map (footprint : Footprint) : gmap string (list string) :=
  bs_iter <$> tables footprint.

(** [SELECT name, body FROM _scripts WHERE enabled = 1 ORDER BY name], read as
    text. A row that is not text fails the whole query, so reading before
    sorting makes no difference. *)
Definition read_script (row : ScriptRow) : result string (string * string) :=
  let? name := get_string (sc_name row) in
  let? body := get_string (sc_body row) in
  Ok (name, body).

Definition by_name : relation (string * string) := fun a b => String.le (fst a) (fst b).

#[export] Instance by_name_dec a b : base.Decision (by_name a b).
Proof. unfold by_name. apply _. Defined.

Definition enabled_rows (rows : list ScriptRow) : list ScriptRow :=
  base.filter (fun r => sc_enabled r = 1%Z) rows.

Definition enabled_scripts (d : Db) : result string (list (string * string)) :=
  let? rows := need_table "_scripts" (db_scripts d) in
  rmap (merge_sort by_name) (traverse read_script (enabled_rows rows)).

Section request.
Variables (self : ScriptTier) (peer action : string) (footprint : Footprint) (statement : string).

(** The loop over the scripts. *)
Fixpoint scripts_loop (scripts : list (string * string)) : option Decision :=
  match scripts with
  | [] => Some Escalate
  | (name, body) :: scripts' =>
      match rhai_eval (max_operations self) peer action statement (footprint_map footprint) body with
      | None => None
      | Some (Err _) => scripts_loop scripts'
      | Some (Ok (Some VAllow)) => Some Allow
      | Some (Ok (Some (VDeny reason))) => Some (Deny ("script " +:+ name +:+ ": " +:+ reason))
      | Some (Ok (Some VEscalate)) => scripts_loop scripts'
      | Some (Ok None) => scripts_loop scripts'
      end
  end.

Definition script_decide (conn : Conn) : option Decision * Conn :=
  match query enabled_scripts conn with
  | (Err _, conn) => (Some Escalate, conn)
  | (Ok scripts, conn) => (scripts_loop scripts, conn)
  end.

(** What one script contributes: a verdict, a panic ([Some None]), or nothing. *)
Definition speaks (script : string * string) : option (option Decision) :=
  match rhai_eval (max_operations self) peer action statement (footprint_map footprint) (snd script) with
  | None => Some None
  | Some (Ok (Some VAllow)) => Some (Some Allow)
  | Some (Ok (Some (VDeny reason))) => Some (Some (Deny ("script " +:+ fst script +:+ ": " +:+ reason)))
  | _ => None
  end.

Lemma scripts_loop_head scripts :
  scripts_loop scripts = default (Some Escalate) (head (omap speaks scripts)).
Proof.
  induction scripts as [|[name body] scripts IH]; [done|]. cbn. unfold speaks at 1. cbn.
  by destruct (rhai_eval _ _ _ _ _ _) as [[[[]|]|]|].
Qed.

Lemma head_speaks scripts r :
  StronglySorted by_name scripts -> NoDup scripts.*1 ->
  head (omap speaks scripts) = Some r <->
  exists n b, (n, b) ∈ scripts /\ speaks (n, b) = Some r /\
    forall n' b', (n', b') ∈ scripts -> String.le n' n -> n' <> n -> speaks (n', b') = None.
Proof.
  induction 1 as [|[n0 b0] scripts Hs IH Hle]; intros Hnd.
  { cbn. split; [done|]. by intros (? & ? & ?%elem_of_nil & _). }
  cbn in Hnd. apply NoDup_cons in Hnd as [Hn0 Hnd].
  assert (Hlt : forall n b, (n, b) ∈ scripts -> String.le n0 n /\ n <> n0).
  { intros n b Hin. split; [exact (proj1 (Forall_forall _ _) Hle _ Hin)|]. intros ->. apply Hn0.
    apply list_elem_of_fmap. by exists (n0, b). }
  cbn [omap list_omap]. destruct (speaks (n0, b0)) as [r0|] eqn:E0; cbn.
  - split.
    + intros [= <-]. exists n0, b0. split; [by left|]. split; [done|].
      intros n' b' [Heq|Hin]%elem_of_cons Hle' Hne; [by simplify_eq|].
      destruct (Hlt _ _ Hin) as [Hge _]. by destruct Hne; apply (anti_symm String.le).
    + intros (n & b & [Heq|Hin]%elem_of_cons & Hr & Hmin); [by injection Heq as -> ->; congruence|].
      destruct (Hlt _ _ Hin) as [Hge Hne]. rewrite (Hmin n0 b0) in E0; [done|by left|done|done].
  - rewrite IH by done. split; intros (n & b & Hin & Hr & Hmin); exists n, b.
    + split; [by right|]. split; [done|].
      intros n' b' [Heq|Hin']%elem_of_cons Hle' Hne; [by simplify_eq|by eapply Hmin].
    + apply elem_of_cons in Hin as [Heq|Hin]; [by simplify_eq|].
      split; [done|]. split; [done|]. intros n' b' Hin'. apply Hmin. by right.
Qed.

(** The first script, in name order, that gives a verdict decides; failing
    scripts and other values count for nothing, and the order of the rows in
    the table does not matter. *)
Theorem script_first_verdict (conn : Conn) (rows : list ScriptRow) (scripts : list (string * string))
    (r : option Decision) :
  healthy conn -> db_scripts (db conn) = Some rows ->
  traverse read_script (enabled_rows rows) = Ok scripts -> NoDup scripts.*1 ->
  fst (script_decide conn) = r <->
  (exists n b, (n, b) ∈ scripts /\ speaks (n, b) = Some r /\
     forall n' b', (n', b') ∈ scripts -> String.le n' n -> n' <> n -> speaks (n', b') = None) \/
  r = Some Escalate /\ forall n b, (n, b) ∈ scripts -> speaks (n, b) = None.
Proof.
  intros Hc Hrows Hread Hnd. unfold script_decide.
  pose proof (query_healthy enabled_scripts conn Hc) as Hq.
  destruct (query enabled_scripts conn) as [q c]. cbn in Hq. subst q.
  unfold enabled_scripts. rewrite Hrows. cbn. rewrite Hread. cbn. rewrite scripts_loop_head.
  set (sorted := merge_sort by_name scripts).
  assert (Htrans : Transitive by_name) by (intros a b d; unfold by_name; apply (transitivity (R := String.le))).
  assert (Htotal : Total by_name) by (intros a b; unfold by_name; apply (total String.le)).
  assert (Hp : sorted ≡ₚ scripts) by apply merge_sort_Permutation.
  assert (Hs : StronglySorted by_name sorted) by (apply StronglySorted_merge_sort; done).
  assert (Hnd' : NoDup sorted.*1) by (by rewrite Hp).
  setoid_rewrite <-Hp. destruct (head (omap speaks sorted)) as [r0|] eqn:Eh; cbn [default from_option].
  - pose proof (proj1 (head_speaks _ _ Hs Hnd') Eh) as Hr0. split.
    + intros <-. by left.
    + intros [Hr|[_ Hnone]]; [|destruct Hr0 as (n & b & Hin & Hr0 & _); by rewrite Hnone in Hr0].
      apply (head_speaks _ _ Hs Hnd') in Hr. unfold id. congruence.
  - split.
    + intros <-. right. split; [done|]. intros n b Hin. destruct (speaks (n, b)) as [x|] eqn:Ex; [|done].
      assert (x ∈ omap speaks sorted) as Hx by (apply list_elem_of_omap; by exists (n, b)).
      destruct (omap speaks sorted); [by apply elem_of_nil in Hx|done].
    + intros [Hr|[-> _]]; [|done]. apply (head_speaks _ _ Hs Hnd') in Hr. congruence.
Qed.

End request.

Definition ScriptTier_tier (self : ScriptTier) : Tier :=
  mkTier "script" (fun conn peer action footprint statement =>
    script_decide self peer action footprint statement conn).

End script.

(** An engine whose scripts are the words themselves. *)
Definition wit_rhai : Rhai := {|
  rhai_eval _ _ _ _ _ body :=
    if bool_decide (body = "allow()") then Some (Ok (Some VAllow))
    else if bool_decide (body = "deny()") then Some (Ok (Some (VDeny "no")))
    else Some (Err "syntax")
|}.

Definition wit_script (name body : string) : ScriptRow := mkScriptRow (SText name) (SText body) 1.

Lemma script_first_verdict_witness :
  let c := mkConn (mkDb None None None None None
             (Some [wit_script "b" "allow()"; wit_script "a" "deny()"; wit_script "0" "?"]))
             [] 0 (S754_zero false) [] in
  healthy c /\ fst (@script_decide wit_rhai ScriptTier_default "alice" "read" Footprint_default "SELECT 1" c) =
               Some (Deny "script a: no").
Proof.
  intros c. assert (Hc : healthy c) by constructor. split; [exact Hc|].
  apply (@script_first_verdict wit_rhai ScriptTier_default "alice" "read" Footprint_default "SELECT 1" c _
           [("b", "allow()"); ("a", "deny()"); ("0", "?")] _ Hc eq_refl eq_refl).
  { apply (bool_decide_unpack (NoDup ["b"; "a"; "0"])). vm_compute. exact I. }
  left. exists "a", "deny()". split; [right; left|]. split; [reflexivity|].
  intros n' b' Hin Hle Hne. rewrite !elem_of_cons, elem_of_nil in Hin.
  destruct Hin as [Heq|[Heq|[Heq|[]]]]; injection Heq as -> ->; [|by destruct Hne|reflexivity].
  exfalso. revert Hle. vm_compute. exact (fun x => x).
Defined.
