(* ===== verification/Auth.v ===== *)
(** * Auth: the built-in tiers in the chain

    Models [Chain::with_builtin_tiers] and proves what holds of the chain as a
    whole, whatever its configuration. *)

From S2P Require Import Prelude RustStd Collections AuthTypes Chain Policy Fingerprint Cache Human Script.

Section auth.
Context `{!ChainJson, !Sha256, !ParkedJson, !Rhai}.

(** [script] is the crate's feature of that name. *)
Definition with_builtin_tiers (script : bool) : Chain :=
  let chain := register (register Chain_new CacheTier) PolicyTier in
  let chain := if script then register chain (ScriptTier_tier ScriptTier_default) else chain in
  register chain HumanTier.

Lemma builtin_lookup script name tier :
  with_builtin_tiers script !! name = Some tier ->
  tier = CacheTier \/ tier = PolicyTier \/ (name = "script" /\ tier = ScriptTier_tier ScriptTier_default) \/
  tier = HumanTier.
Proof.
  unfold with_builtin_tiers, register, Chain_new. cbn [tier_name HumanTier ScriptTier_tier PolicyTier CacheTier].
  destruct script; intros Hl; repeat (apply lookup_insert_Some in Hl as [[<- <-]|[_ Hl]]; [by auto 6|]);
    by apply lookup_empty_Some in Hl.
Qed.

Lemma builtin_cache script : with_builtin_tiers script !! "cache" = Some CacheTier.
Proof.
  unfold with_builtin_tiers, register. cbv zeta. destruct script;
    repeat (etrans; [apply lookup_insert_ne; done|]); apply lookup_insert_eq.
Qed.

Lemma builtin_human script : with_builtin_tiers script !! "human" = Some HumanTier.
Proof. apply lookup_insert_eq. Qed.

Lemma builtin_names script name tier :
  with_builtin_tiers script !! name = Some tier ->
  name = "cache" \/ name = "policy" \/ name = "script" \/ name = "human".
Proof.
  unfold with_builtin_tiers, register, Chain_new. cbn [tier_name HumanTier ScriptTier_tier PolicyTier CacheTier].
  destruct script; intros Hl; repeat (apply lookup_insert_Some in Hl as [[<- _]|[_ Hl]]; [by auto|]);
    by apply lookup_empty_Some in Hl.
Qed.

(** Where a final decision comes from: a registered tier that is named, in some
    state of the connection, or the default. *)
Lemma decided_source (self : Chain) conn peer action fp stm :
  let '((names, _), _) := read_config conn in
  let r := fst (decide self conn peer action fp stm) in
  (exists name tier c c' d, name ∈ names /\ self !! name = Some tier /\
     tier_decide tier c peer action fp stm = (Some d, c') /\ d <> Escalate /\ r = mkDecided d name) \/
  r = mkDecided (Deny DEFAULT_DENY_REASON) "default".
Proof.
  unfold decide. destruct (read_config conn) as [[names masks] c0].
  destruct (decide_loop self masks peer action fp stm names c0) as [r c'] eqn:E.
  apply decide_loop_spec in E as [(pre & name & post & d & c1 & -> & _ & (tier & ? & ? & ? & _)%ask_Some & ->)|[_ ->]];
    [|by right].
  left. exists name, tier, c1, c', d. split_and!; try done. set_solver.
Qed.

(** A tier's answer to a footprint with denied constructs. *)
Lemma cache_denied c peer action fp stm : has_denied fp = true -> cache_decide c peer action fp stm = (Escalate, c).
Proof. unfold cache_decide. by intros ->. Qed.

Lemma human_denied c peer action fp stm : has_denied fp = true -> human_decide c peer action fp stm = (Escalate, c).
Proof. unfold human_decide. intros ->. by destruct (_ || _). Qed.

(** Statements that use constructs the authorizer refused are never allowed,
    whatever is remembered, ruled or parked, unless the owner's scripts are in
    the configured chain. *)
Theorem denied_constructs_never_allowed (script : bool) (conn : Conn) (peer action : string) (fp : Footprint)
    (stm : string) :
  denied fp <> ∅ -> "script" ∉ fst (fst (read_config conn)) ->
  exists reason, dc_decision (fst (decide (with_builtin_tiers script) conn peer action fp stm)) = Deny reason.
Proof.
  intros Hd Hs. pose proof (decided_source (with_builtin_tiers script) conn peer action fp stm) as Hsrc.
  destruct (read_config conn) as [[names masks] c0]. cbn [fst] in Hs.
  assert (Hhd : has_denied fp = true) by (unfold has_denied; by rewrite bool_decide_false).
  destruct Hsrc as [(name & tier & c & c' & d & Hin & Hl & Ht & Hne & ->)| ->]; [|by eexists].
  apply builtin_lookup in Hl as [-> |[-> |[[-> ->]| ->]]]; cbn in Ht.
  - rewrite cache_denied in Ht by done. by injection Ht as <- _.
  - unfold policy_decide in Ht. rewrite Hhd in Ht. injection Ht as <- _. by eexists.
  - done.
  - rewrite human_denied in Ht by done. by injection Ht as <- _.
Qed.

(** A knock is never answered from memory and never parked as a statement. *)
Theorem knock_not_from_memory (script : bool) (conn : Conn) (peer : string) (fp : Footprint) (stm : string) :
  let by_tier := dc_decided_by (fst (decide (with_builtin_tiers script) conn peer "knock" fp stm)) in
  by_tier = "policy" \/ by_tier = "script" \/ by_tier = "default".
Proof.
  pose proof (decided_source (with_builtin_tiers script) conn peer "knock" fp stm) as Hsrc.
  destruct (read_config conn) as [[names masks] c0].
  destruct Hsrc as [(name & tier & c & c' & d & _ & Hl & Ht & Hne & ->)| ->]; [|by auto]. cbn.
  destruct (base.decide (name = "cache")) as [->|Hc]; [|destruct (base.decide (name = "human")) as [->|Hh]].
  - rewrite builtin_cache in Hl. injection Hl as <-.
    cbn in Ht. unfold cache_decide in Ht. rewrite bool_decide_true in Ht by done.
    destruct (has_denied fp); by injection Ht as <- _.
  - rewrite builtin_human in Hl. injection Hl as <-.
    cbn in Ht. unfold human_decide in Ht. rewrite (bool_decide_true ("knock" = "knock")), orb_true_r in Ht by done.
    by injection Ht as <- _.
  - apply builtin_names in Hl. naive_solver.
Qed.

End auth.

Lemma denied_constructs_never_allowed_witness :
  let fp := deny_construct "attach" (from_tables OtherKind [("notes", [])]) in
  denied fp <> ∅ /\ ("script" ∉ fst (fst (@read_config wit_json (wit_conn (SText "[]"))))) /\
  exists reason, dc_decision (fst (@decide wit_json (@with_builtin_tiers wit_sha wit_parked wit_rhai true)
    (wit_conn (SText "[]")) "alice" "write" fp "ATTACH 'x' AS y")) = Deny reason.
Proof.
  intros fp.
  assert (Hd : denied fp <> ∅) by (apply (bool_decide_unpack (denied fp <> ∅)); vm_compute; exact I).
  assert (Hs : "script" ∉ fst (fst (@read_config wit_json (wit_conn (SText "[]"))))).
  { vm_compute. intros Hin. inversion Hin. }
  split; [exact Hd|]. split; [exact Hs|].
  exact (@denied_constructs_never_allowed wit_json wit_sha wit_parked wit_rhai true _ "alice" "write" fp
           "ATTACH 'x' AS y" Hd Hs).
Defined.
