(* ===== verification/SparqlTerm.v ===== *)
(** * SparqlTerm: stored terms and the query algebra

    Models [crates/sparql/src/term.rs] and [ast.rs]. *)

From S2P Require Import Prelude RustStd.

Local Open Scope Z_scope.

(** ** term.rs *)

Definition XSD : string := "http://www.w3.org/2001/XMLSchema#".
Definition RDF_TYPE : string := "http://www.w3.org/1999/02/22-rdf-syntax-ns#type".
Definition RDF_FIRST : string := "http://www.w3.org/1999/02/22-rdf-syntax-ns#first".
Definition RDF_REST : string := "http://www.w3.org/1999/02/22-rdf-syntax-ns#rest".
Definition RDF_NIL : string := "http://www.w3.org/1999/02/22-rdf-syntax-ns#nil".

Definition K_IRI : Z := 0.
Definition K_BNODE : Z := 1.
Definition K_LIT : Z := 2.

Record Term : Type := mkTerm {
  t_kind : Z;
  t_lex : string;
  t_dtype : string;
  t_lang : string
}.

Definition iri (lex : string) : Term := mkTerm K_IRI lex "" "".
Definition bnode (label : string) : Term := mkTerm K_BNODE label "" "".
Definition lit (lex : string) : Term := mkTerm K_LIT lex "" "".
Definition lit_dt (lex dtype : string) : Term := mkTerm K_LIT lex dtype "".
Definition lit_lang (lex lang : string) : Term := mkTerm K_LIT lex "" lang.

Definition is_iri (self : Term) : bool := t_kind self =? K_IRI.
Definition is_literal (self : Term) : bool := t_kind self =? K_LIT.

Definition numeric_names : list string :=
  ["integer"; "decimal"; "double"; "float"; "long"; "int"; "short"; "byte"; "nonNegativeInteger";
   "positiveInteger"; "negativeInteger"; "nonPositiveInteger"; "unsignedLong"; "unsignedInt";
   "unsignedShort"; "unsignedByte"].

Definition is_numeric_dtype (dtype : string) : bool :=
  match RustStd.strip_prefix XSD dtype with
  | Some name => existsb (fun n => bool_decide (name = n)) numeric_names
  | None => false
  end.

(** ** ast.rs *)

Inductive Slot : Type :=
| Var (v : string)
| Ground (t : Term).

Definition slot_var (self : Slot) : option string :=
  match self with
  | Var v => Some v
  | Ground _ => None
  end.

Record TriplePattern : Type := mkTriplePattern { tp_s : Slot; tp_p : Slot; tp_o : Slot }.

Definition slots (self : TriplePattern) : list Slot := [tp_s self; tp_p self; tp_o self].

Inductive CmpOp : Type := CEq | CNe | CLt | CGt | CLe | CGe.

Definition cmp_sql (self : CmpOp) : string :=
  match self with
  | CEq => "=" | CNe => "<>" | CLt => "<" | CGt => ">" | CLe => "<=" | CGe => ">="
  end.

Inductive Func : Type := FNone | FStr | FLang | FDatatype.

Record Val : Type := mkVal {
  v_func : Func;
  v_var : option string;
  v_term : option Term
}.

Inductive Expr : Type :=
| EOr (a b : Expr)
| EAnd (a b : Expr)
| ENot (a : Expr)
| EBound (v : string)
| ERegex (text pattern : Expr) (flags : option Expr)
| ECmp (op : CmpOp) (a b : Expr)
| EVal (v : Val).

Inductive Group : Type := mkGroup {
  g_triples : list TriplePattern;
  g_filters : list Expr;
  g_optionals : list Group;
  g_unions : list (list Group)
}.

Inductive Form : Type := Select | Construct | Ask.
Inductive Agg : Type := ANone | ACount | ASum | AMin | AMax | AAvg.

Record SelItem : Type := mkSelItem {
  si_agg : Agg;
  si_distinct : bool;
  si_star : bool;
  si_var : option string;
  si_alias : string
}.

Record OrdKey : Type := mkOrdKey { ok_var : string; ok_desc : bool }.

Record Query : Type := mkQuery {
  q_form : Form;
  q_distinct : bool;
  q_star : bool;
  q_sel : list SelItem;
  q_group_by : list string;
  q_template : list TriplePattern;
  q_pattern : Group;
  q_order : list OrdKey;
  q_limit : Z;
  q_offset : Z;
  q_prefixes : list (string * string);
  q_base : option string
}.

Inductive UpdateKind : Type := InsertData | DeleteData | DeleteWhere.

Record Update : Type := mkUpdate {
  u_kind : UpdateKind;
  u_triples : list TriplePattern
}.

Inductive Parsed : Type :=
| PQuery (q : Query)
| PUpdate (u : Update).

#[export] Instance Term_eq_dec : EqDecision Term.
Proof. solve_decision. Defined.
#[export] Instance CmpOp_eq_dec : EqDecision CmpOp.
Proof. solve_decision. Defined.
#[export] Instance Func_eq_dec : EqDecision Func.
Proof. solve_decision. Defined.
#[export] Instance Form_eq_dec : EqDecision Form.
Proof. solve_decision. Defined.
#[export] Instance Agg_eq_dec : EqDecision Agg.
Proof. solve_decision. Defined.
