(* ===== verification/SparqlCompile.v ===== *)
(** * SparqlCompile: a query as one SQL statement

    Models [crates/sparql/src/compile.rs]. The functions that append to a
    [String] return what they append. The resolver of term ids is a function,
    as the store's is ([lookup_term_id] only reads). *)

From S2P Require Import Prelude RustStd SparqlTerm.

Local Open Scope Z_scope.

(** An [Err] of the code, or the [expect] of a ground value panicking. *)
Inductive compile_error : Type :=
| CError (m : string)
| CPanic.

Definition usize_str (n : nat) : string := int_to_string (Z.of_nat n).

(** [enumerate]. *)
Definition enumerate {A} (l : list A) : list (nat * A) := imap pair l.

Definition MAX_FLATS : nat := 128.

(** ** Flattening UNION *)

Record Flat : Type := mkFlat {
  tps : list TriplePattern;
  filts : list Expr;
  opts : list Group
}.

Definition Flat_default : Flat := mkFlat [] [] [].

Definition add_group (g : Group) (self : Flat) : Flat :=
  mkFlat (tps self ++ g_triples g) (filts self ++ g_filters g) (opts self ++ g_optionals g).

Definition too_large : compile_error :=
  CError ("UNION expansion too large (max " +:+ usize_str MAX_FLATS +:+ " branches)").

Section flatten.
Variable flatten : Group -> list Flat -> result compile_error (list Flat).

(** The two loops over the flats so far and the branches of one block. *)
Fixpoint branches_loop (f : Flat) (branches : list Group) (expanded : list Flat) :
    result compile_error (list Flat) :=
  match branches with
  | [] => Ok expanded
  | br :: branches' =>
      let? seeded := flatten br [f] in
      let expanded := expanded ++ seeded in
      if (MAX_FLATS <? length expanded)%nat then Err too_large else branches_loop f branches' expanded
  end.

Fixpoint flats_loop (branches : list Group) (l : list Flat) (expanded : list Flat) :
    result compile_error (list Flat) :=
  match l with
  | [] => Ok expanded
  | f :: l' =>
      let? expanded := branches_loop f branches expanded in
      flats_loop branches l' expanded
  end.

Fixpoint unions_loop (unions : list (list Group)) (l : list Flat) : result compile_error (list Flat) :=
  match unions with
  | [] => Ok l
  | branches :: unions' =>
      let? expanded := flats_loop branches l [] in
      unions_loop unions' expanded
  end.

End flatten.

Fixpoint flatten_group (g : Group) (l : list Flat) : result compile_error (list Flat) :=
  unions_loop flatten_group (g_unions g) (map (add_group g) l).

(** ** Variables *)

Record VInfo : Type := mkVInfo {
  vi_name : string;
  vi_idref : string;
  vi_alias : string;
  vi_optional : bool
}.

Definition VList : Type := list VInfo.

Definition vfind (self : VList) (name : string) : option VInfo :=
  List.find (fun vi => bool_decide (vi_name vi = name)) self.

Definition vadd (self : VList) (name idref : string) (optional : bool) (alias_prefix : string) : VList :=
  self ++ [mkVInfo name idref (alias_prefix +:+ usize_str (length self)) optional].

Definition add_conj (w cond : string) : string := (if is_empty w then "" else w +:+ " AND ") +:+ cond.

(** A variable is noted once, in order of first appearance. *)
Definition push_new (out : list string) (v : string) : list string :=
  if bool_decide (v ∈ out) then out else out ++ [v].

Fixpoint expr_collect_vars (e : Expr) (out : list string) : list string :=
  match e with
  | EOr a b | EAnd a b => expr_collect_vars b (expr_collect_vars a out)
  | ENot a => expr_collect_vars a out
  | EBound v => push_new out v
  | ERegex text pattern flags =>
      let out := expr_collect_vars pattern (expr_collect_vars text out) in
      match flags with Some f => expr_collect_vars f out | None => out end
  | ECmp _ a b => expr_collect_vars b (expr_collect_vars a out)
  | EVal val => match v_var val with Some v => push_new out v | None => out end
  end.

(** ** Values and expressions *)

(** [s.replace('\'', "''")] between quotes. *)
Definition sql_quote_char (c : ascii) : string := if bool_decide (c = "'"%char) then "''" else char_str c.
Definition sql_quote (s : string) : string := "'" +:+ str_map sql_quote_char s +:+ "'".

Definition operand_is_numeric_lit (v : Val) : bool :=
  match v_term v with
  | Some t => (t_kind t =? K_LIT) && is_numeric_dtype (t_dtype t)
  | None => false
  end.

Definition lower_of (lowered : bool) (s : string) : string := if lowered then "lower(" +:+ s +:+ ")" else s.

Definition compile_value (v : Val) (ctx : VList) (numeric lowered : bool) : result compile_error string :=
  match v_var v with
  | Some var =>
      match vfind ctx var with
      | None => Ok "NULL"
      | Some vi =>
          let field := match v_func v with
                       | FLang => "lang"
                       | FDatatype => "dtype"
                       | _ => "lex"
                       end in
          Ok (lower_of lowered
                (if numeric && bool_decide (v_func v = FNone) then
                   "CAST(" +:+ vi_alias vi +:+ ".lex AS REAL)"
                 else vi_alias vi +:+ "." +:+ field))
      end
  | None =>
      match v_term v with
      | None => Err CPanic
      | Some term =>
          if (t_kind term =? K_LIT) && is_numeric_dtype (t_dtype term) && numeric then Ok (t_lex term)
          else Ok (lower_of lowered (sql_quote (t_lex term)))
      end
  end.

Definition as_val (e : Expr) : result compile_error Val :=
  match e with
  | EVal v => Ok v
  | _ => Err (CError "unsupported REGEX operand")
  end.

(** [=] and [<>] between two plain variables compare term ids. *)
Definition compares_ids (op : CmpOp) (av bv : Val) : bool :=
  (bool_decide (op = CEq) || bool_decide (op = CNe)) &&
  match v_var av, v_var bv with Some _, Some _ => true | _, _ => false end &&
  bool_decide (v_func av = FNone) && bool_decide (v_func bv = FNone).

Definition compile_ids (op : CmpOp) (av bv : Val) (ctx : VList) : string :=
  match vfind ctx (default "" (v_var av)), vfind ctx (default "" (v_var bv)) with
  | Some va, Some vb =>
      "(" +:+ vi_alias va +:+ ".id " +:+ cmp_sql op +:+ " " +:+ vi_alias vb +:+ ".id)"
  | _, _ => "0"
  end.

Fixpoint compile_expr (e : Expr) (ctx : VList) : result compile_error string :=
  match e with
  | EOr a b =>
      let? sa := compile_expr a ctx in
      let? sb := compile_expr b ctx in
      Ok ("(" +:+ sa +:+ " OR " +:+ sb +:+ ")")
  | EAnd a b =>
      let? sa := compile_expr a ctx in
      let? sb := compile_expr b ctx in
      Ok ("(" +:+ sa +:+ " AND " +:+ sb +:+ ")")
  | ENot a => let? sa := compile_expr a ctx in Ok ("(NOT " +:+ sa +:+ ")")
  | EBound var =>
      Ok (match vfind ctx var with
          | Some vi => "(" +:+ vi_alias vi +:+ ".id IS NOT NULL)"
          | None => "(0)"
          end)
  | ERegex text pattern flags =>
      let? pv := as_val pattern in
      let? sp := compile_value pv ctx false false in
      let? tv := as_val text in
      let? st := compile_value tv ctx false false in
      let? sf := match flags with
                 | Some f => let? fv := as_val f in compile_value fv ctx false false
                 | None => Ok "''"
                 end in
      Ok ("rdf_regexp(" +:+ sp +:+ "," +:+ st +:+ "," +:+ sf +:+ ")")
  | ECmp op (EVal av) (EVal bv) =>
      let numeric := operand_is_numeric_lit av || operand_is_numeric_lit bv in
      let lowered := bool_decide (v_func av = FLang) || bool_decide (v_func bv = FLang) in
      if compares_ids op av bv then Ok (compile_ids op av bv ctx)
      else
        let? sa := compile_value av ctx numeric lowered in
        let? sb := compile_value bv ctx numeric lowered in
        Ok ("(" +:+ sa +:+ " " +:+ cmp_sql op +:+ " " +:+ sb +:+ ")")
  | ECmp _ _ _ => Err (CError "unsupported comparison operand")
  | EVal v =>
      match v_var v, v_term v with
      | None, Some t =>
          if (t_kind t =? K_LIT) && bool_decide (t_dtype t = XSD +:+ "boolean") then
            Ok (if bool_decide (t_lex t = "true") then "1" else "0")
          else Err (CError "expression form not supported in FILTER")
      | _, _ => Err (CError "expression form not supported in FILTER")
      end
  end.

(** Variables of a flat, triples first, then OPTIONALs. *)
Definition collect_slot (out : list string) (slot : Slot) : list string :=
  match slot_var slot with Some v => push_new out v | None => out end.

Definition collect_triples (out : list string) (l : list TriplePattern) : list string :=
  foldl (fun out tp => foldl collect_slot out (slots tp)) out l.

Definition flat_collect_vars (fl : Flat) (out : list string) : list string :=
  foldl (fun out og => collect_triples out (g_triples og)) (collect_triples out (tps fl)) (opts fl).

(** ** One flat *)

Section compile.
Variable ids : Term -> Z.

(** The variables so far, FROM and WHERE. *)
Record Clauses : Type := mkClauses {
  c_vars : VList;
  c_from : string;
  c_where : string
}.

Definition slot_step (prefix al : string) (st : Clauses) (cs : string * Slot) : Clauses :=
  let '(col, slot) := cs in
  let here := al +:+ "." +:+ col in
  match slot with
  | Var v =>
      match vfind (c_vars st) v with
      | Some vi => mkClauses (c_vars st) (c_from st) (add_conj (c_where st) (here +:+ "=" +:+ vi_idref vi))
      | None => mkClauses (vadd (c_vars st) v here false prefix) (c_from st) (c_where st)
      end
  | Ground t => mkClauses (c_vars st) (c_from st)
                  (add_conj (c_where st) (here +:+ "=" +:+ int_to_string (ids t)))
  end.

(** The [i]-th triple pattern; [name] numbers its table alias. *)
Definition pattern_step (prefix : string) (name : nat -> string) (st : Clauses) (it : nat * TriplePattern) :
    Clauses :=
  let '(i, tp) := it in
  let al := name i in
  let st := mkClauses (c_vars st)
              (c_from st +:+ (if Nat.eqb i 0 then "rdf_triples " +:+ al
                              else " JOIN rdf_triples " +:+ al +:+ " ON 1=1"))
              (add_conj (c_where st) (al +:+ ".g=0")) in
  foldl (slot_step prefix al) st (zip ["s"; "p"; "o"] (slots tp)).

Definition compile_patterns (prefix : string) (name : nat -> string) (l : list TriplePattern) : Clauses :=
  foldl (pattern_step prefix name) (mkClauses [] "" "") (enumerate l).

(** The [for f in filters] loop. *)
Fixpoint compile_filters (filters : list Expr) (ctx : VList) (w : string) : result compile_error string :=
  match filters with
  | [] => Ok w
  | f :: filters' =>
      let? e := compile_expr f ctx in
      compile_filters filters' ctx (add_conj w ("(" +:+ e +:+ ")"))
  end.

Definition filters_vars (filters : list Expr) : list string :=
  foldl (fun out f => expr_collect_vars f out) [] filters.

(** [rdf_terms] joins for the variables of the inner filters. *)
Definition inner_joins (ivars : VList) (used : list string) : string :=
  str_concat (map (fun name =>
    match vfind ivars name with
    | Some iv => " JOIN rdf_terms " +:+ vi_alias iv +:+ " ON " +:+ vi_alias iv +:+ ".id=" +:+ vi_idref iv
    | None => ""
    end) used).

(** Joining to the outer query on shared required variables. *)
Definition join_step (gi : nat) (st : VList * string) (jv : nat * VInfo) : VList * string :=
  let '(vars, oncond) := st in
  let '(j, iv) := jv in
  let c := "opt" +:+ usize_str gi +:+ ".c" +:+ usize_str j in
  match vfind vars (vi_name iv) with
  | Some outer => if vi_optional outer then (vars, oncond)
                  else (vars, add_conj oncond (c +:+ "=" +:+ vi_idref outer))
  | None => (vadd vars (vi_name iv) c true "v", oncond)
  end.

Definition optional_step (gi : nat) (og : Group) (vars : VList) (from : string) :
    result compile_error (VList * string) :=
  match g_triples og with
  | [] => Ok (vars, from)
  | triples =>
      let st := compile_patterns ("f" +:+ usize_str gi +:+ "_")
                  (fun j => "o" +:+ usize_str gi +:+ "_" +:+ usize_str j) triples in
      let ivars := c_vars st in
      let? (ifrom, iwhere) :=
        match g_filters og with
        | [] => Ok (c_from st, c_where st)
        | filters =>
            let? w := compile_filters filters ivars (c_where st) in
            Ok (c_from st +:+ inner_joins ivars (filters_vars filters), w)
        end in
      let isel := RustStd.join ","
                    (map (fun '(j, iv) => vi_idref iv +:+ " AS c" +:+ usize_str j) (enumerate ivars)) in
      let '(vars, oncond) := foldl (join_step gi) (vars, "") (enumerate ivars) in
      Ok (vars, from +:+ " LEFT JOIN (SELECT " +:+ (if is_empty isel then "1" else isel) +:+ " FROM " +:+
                ifrom +:+ (if is_empty iwhere then "" else " WHERE ") +:+ iwhere +:+ ") opt" +:+
                usize_str gi +:+ " ON " +:+ (if is_empty oncond then "1=1" else oncond))
  end.

Fixpoint optionals_loop (l : list (nat * Group)) (vars : VList) (from : string) :
    result compile_error (VList * string) :=
  match l with
  | [] => Ok (vars, from)
  | (gi, og) :: l' =>
      let? (vars, from) := optional_step gi og vars from in
      optionals_loop l' vars from
  end.

Definition var_join (vi : VInfo) : string :=
  (if vi_optional vi then " LEFT JOIN" else " JOIN") +:+ " rdf_terms " +:+ vi_alias vi +:+ " ON " +:+
  vi_alias vi +:+ ".id=" +:+ vi_idref vi.

(** The five columns of a projected variable. *)
Definition proj_item (vars : VList) (ip : nat * string) : string :=
  let '(i, name) := ip in
  let n := usize_str i in
  match vfind vars name with
  | Some vi =>
      let a := vi_alias vi in
      a +:+ ".id AS i" +:+ n +:+ "," +:+ a +:+ ".kind AS k" +:+ n +:+ "," +:+ a +:+ ".lex AS x" +:+ n +:+
      "," +:+ a +:+ ".dtype AS d" +:+ n +:+ "," +:+ a +:+ ".lang AS g" +:+ n
  | None =>
      "NULL AS i" +:+ n +:+ ",NULL AS k" +:+ n +:+ ",NULL AS x" +:+ n +:+ ",NULL AS d" +:+ n +:+
      ",NULL AS g" +:+ n
  end.

Definition compile_flat (fl : Flat) (proj : list string) : result compile_error string :=
  let st := compile_patterns "v" (fun i => "t" +:+ usize_str i) (tps fl) in
  let from := match tps fl with
              | [] => c_from st +:+ "(SELECT 1 AS one) one_"
              | _ => c_from st
              end in
  let? (vars, from) := optionals_loop (enumerate (opts fl)) (c_vars st) from in
  let from := from +:+ str_concat (map var_join vars) in
  let? where_ := compile_filters (filts fl) vars (c_where st) in
  let sel := match proj with
             | [] => "1 AS one_"
             | _ => RustStd.join "," (map (proj_item vars) (enumerate proj))
             end in
  Ok ("SELECT " +:+ sel +:+ " FROM " +:+ from +:+ (if is_empty where_ then "" else " WHERE " +:+ where_)).

End compile.

(** ** The layers of a query *)

Definition ORDER_DTYPES : string :=
  "('" +:+ XSD +:+ "integer','" +:+ XSD +:+ "decimal','" +:+ XSD +:+ "double','" +:+ XSD +:+ "float','" +:+
  XSD +:+ "long','" +:+ XSD +:+ "int')".

Definition order_expr (ord : string) (idx : nat) (desc : bool) : string :=
  let dir := if desc then " DESC" else "" in
  let n := usize_str idx in
  (if is_empty ord then "" else ord +:+ ",") +:+
  "CASE WHEN d" +:+ n +:+ " IN " +:+ ORDER_DTYPES +:+ " THEN CAST(x" +:+ n +:+ " AS REAL) END" +:+ dir +:+
  ",x" +:+ n +:+ dir.

(** [Iterator::position]. *)
Fixpoint position (v : string) (l : list string) : option nat :=
  match l with
  | [] => None
  | x :: l' => if bool_decide (x = v) then Some 0%nat else S <$> position v l'
  end.

(** [unwrap_or(usize::MAX)], printed. *)
Definition position_str (v : option string) (l : list string) : string :=
  match v with
  | Some v => match position v l with Some j => usize_str j | None => int_to_string U64_MAX end
  | None => int_to_string U64_MAX
  end.

Definition is_agg (it : SelItem) : bool := negb (bool_decide (si_agg it = ANone)).

Definition aggmode (q : Query) : bool :=
  negb (bool_decide (q_group_by q = [])) || existsb is_agg (q_sel q).

(** Visible names of an aggregate SELECT: a plain item must be grouped. *)
Fixpoint agg_names (group_by : list string) (sel : list SelItem) : result compile_error (list string) :=
  match sel with
  | [] => Ok []
  | it :: sel' =>
      let var := default "" (si_var it) in
      if bool_decide (si_agg it = ANone) && negb (bool_decide (var ∈ group_by)) then
        Err (CError ("?" +:+ var +:+ " must appear in GROUP BY or inside an aggregate"))
      else rmap (cons (si_alias it)) (agg_names group_by sel')
  end.

Definition visible_names (q : Query) (flats : list Flat) : result compile_error (list string) :=
  match q_form q with
  | Construct =>
      if aggmode q then Err (CError "GROUP BY / aggregates cannot be used with CONSTRUCT")
      else Ok (collect_triples [] (q_template q))
  | Ask => Ok []
  | Select =>
      if aggmode q then
        if q_star q then Err (CError "SELECT * cannot be combined with aggregates or GROUP BY")
        else agg_names (q_group_by q) (q_sel q)
      else if q_star q then
        let all := foldl (fun out f => flat_collect_vars f out) [] flats in
        match foldl push_new [] (base.filter (fun v => starts_with "~bn~" v = false) all) with
        | [] => Err (CError "SELECT * found no variables")
        | vis => Ok vis
        end
      else Ok (map si_alias (q_sel q))
  end.

(** The projection of layer 1. *)
Definition inner_names (q : Query) (vis : list string) : list string :=
  if aggmode q then
    foldl (fun inner it => if is_agg it then
                             match si_var it with Some v => push_new inner v | None => inner end
                           else inner)
      (foldl push_new [] (q_group_by q)) (q_sel q)
  else foldl (fun inner o => push_new inner (ok_var o)) vis (q_order q).

Section query.
Variable ids : Term -> Z.

(** Layer 1: UNION ALL over the flats. *)
Definition compile_sub (flats : list Flat) (inner : list string) : result compile_error string :=
  rmap (RustStd.join " UNION ALL ") (traverse (fun fl => compile_flat ids fl inner) flats).

(** One item of an aggregate SELECT. *)
Definition agg_item (inner : list string) (mit : nat * SelItem) : string :=
  let '(m, it) := mit in
  let m := usize_str m in
  let j := position_str (si_var it) inner in
  let d := if si_distinct it then "DISTINCT " else "" in
  match si_agg it with
  | ANone => "i" +:+ j +:+ " AS i" +:+ m +:+ ",k" +:+ j +:+ " AS k" +:+ m +:+ ",x" +:+ j +:+ " AS x" +:+ m +:+
             ",d" +:+ j +:+ " AS d" +:+ m +:+ ",g" +:+ j +:+ " AS g" +:+ m
  | ACount =>
      let cnt := if si_star it then "COUNT(*)" else "COUNT(" +:+ d +:+ "i" +:+ j +:+ ")" in
      "1 AS i" +:+ m +:+ ",2 AS k" +:+ m +:+ "," +:+ cnt +:+ " AS x" +:+ m +:+ ",'" +:+ XSD +:+
      "integer' AS d" +:+ m +:+ ",'' AS g" +:+ m
  | agg =>
      let f := match agg with ASum => "SUM" | AMin => "MIN" | AMax => "MAX" | _ => "AVG" end in
      let eb := f +:+ "(" +:+ d +:+ "CAST(x" +:+ j +:+ " AS REAL))" in
      "CASE WHEN " +:+ eb +:+ " IS NULL THEN NULL ELSE 1 END AS i" +:+ m +:+ ",2 AS k" +:+ m +:+ "," +:+ eb +:+
      " AS x" +:+ m +:+ ",'" +:+ XSD +:+ "decimal' AS d" +:+ m +:+ ",'' AS g" +:+ m
  end.

(** Layer 2 with aggregates: the core and the pending ORDER BY keys. *)
Definition agg_core (q : Query) (vis inner : list string) (sub : string) : string * string :=
  let items := RustStd.join "," (map (agg_item inner) (enumerate (q_sel q))) in
  let grpby := RustStd.join "," (map (fun g => "i" +:+ position_str (Some g) inner) (q_group_by q)) in
  ("SELECT " +:+ (if q_distinct q then "DISTINCT " else "") +:+ items +:+ " FROM (" +:+ sub +:+ ") sub" +:+
   (match q_group_by q with [] => "" | _ => " GROUP BY " +:+ grpby end),
   foldl (fun ord o => match position (ok_var o) vis with
                       | Some m => order_expr ord m (ok_desc o)
                       | None => ord
                       end) "" (q_order q)).

(** The ORDER BY keys of a plain projection. *)
Fixpoint plain_order (distinct : bool) (vis inner : list string) (order : list OrdKey) (ord : string) :
    result compile_error string :=
  match order with
  | [] => Ok ord
  | o :: order' =>
      match position (ok_var o) inner with
      | None => plain_order distinct vis inner order' ord
      | Some j =>
          if distinct && (length vis <=? j)%nat then
            Err (CError ("ORDER BY variable ?" +:+ ok_var o +:+ " must be projected when DISTINCT is used"))
          else plain_order distinct vis inner order' (order_expr ord j (ok_desc o))
      end
  end.

Definition plain_cols (vis : list string) : string :=
  RustStd.join "," (map (fun i => let n := usize_str i in
    "i" +:+ n +:+ ",k" +:+ n +:+ ",x" +:+ n +:+ ",d" +:+ n +:+ ",g" +:+ n) (seq 0 (length vis))).

Definition plain_core (q : Query) (vis inner : list string) (sub : string) :
    result compile_error (string * string) :=
  let cols := plain_cols vis in
  let? ord := plain_order (q_distinct q) vis inner (q_order q) "" in
  Ok (if q_distinct q then ("SELECT DISTINCT " +:+ cols +:+ " FROM (" +:+ sub +:+ ") sub", ord)
      else if negb (is_empty ord) then
        ("SELECT " +:+ cols +:+ " FROM (" +:+ sub +:+ ") sub ORDER BY " +:+ ord, "")
      else ("SELECT " +:+ cols +:+ " FROM (" +:+ sub +:+ ") sub", ord)).

(** Layer 3. *)
Definition outer_layer (q : Query) (core ord : string) : string :=
  (if is_empty ord then core else "SELECT * FROM (" +:+ core +:+ ") a ORDER BY " +:+ ord) +:+
  (if (0 <=? q_limit q) || (0 <? q_offset q) then
     " LIMIT " +:+ int_to_string (if 0 <=? q_limit q then q_limit q else -1) +:+
     (if 0 <? q_offset q then " OFFSET " +:+ int_to_string (q_offset q) else "")
   else "").

Definition compile_query (q : Query) : result compile_error (string * list string) :=
  let? flats := flatten_group (q_pattern q) [Flat_default] in
  let? vis := visible_names q flats in
  let inner := inner_names q vis in
  let? sub := compile_sub flats inner in
  match q_form q with
  | Ask => Ok ("SELECT 1 FROM (" +:+ sub +:+ ") sub LIMIT 1", vis)
  | _ =>
      let? (core, ord) := (if aggmode q then Ok (agg_core q vis inner sub) else plain_core q vis inner sub) in
      Ok (outer_layer q core ord, vis)
  end.

End query.
