(* ===== verification/SparqlSafe.v ===== *)
(** * SparqlSafe: the strings of a query stay inside SQL literals

    [SparqlCompile] writes the operands of FILTER into the SQL text. This file
    proves that the SQL outside string literals is the same whatever those
    strings are, for every operand but the numerals, which are written
    unquoted. *)

From S2P Require Import Prelude RustStd SparqlTerm SparqlCompile SparqlSpec.

(** ** SQL text outside its string literals

    A quote opens or closes a literal. A doubled quote inside a literal closes
    and reopens it at once, so it contributes nothing to the text outside. *)

Fixpoint scan (inside : bool) (s : string) : bool * string :=
  match s with
  | EmptyString => (inside, "")
  | String c s' =>
      if bool_decide (c = "'"%char) then scan (negb inside) s'
      else let '(q, t) := scan inside s' in (q, if inside then t else String c t)
  end.

Definition outside (sql : string) : string := snd (scan false sql).

(** Every literal is closed. *)
Definition closed (sql : string) : bool := negb (fst (scan false sql)).

(** Closed texts that agree outside their literals. *)
Definition same_shape (a b : string) : Prop :=
  closed a = true /\ scan false a = scan false b /\ is_empty a = is_empty b.

Definition not_quote (c : ascii) : bool := negb (bool_decide (c = "'"%char)).

Lemma scan_app a b : forall q,
  scan q (a +:+ b) = let '(q1, x) := scan q a in let '(q2, y) := scan q1 b in (q2, x +:+ y).
Proof.
  induction a as [|c a IH]; intros q.
  - rewrite app_str_nil_l. cbn. by destruct (scan q b).
  - rewrite app_str_cons. cbn [scan]. case_bool_decide; [apply IH|]. rewrite IH.
    destruct (scan q a) as [q1 x]. destruct (scan q1 b) as [q2 y]. by destruct q; rewrite ?app_str_cons.
Qed.

Lemma closed_scan s : closed s = true -> exists t, scan false s = (false, t).
Proof. unfold closed. destruct (scan false s) as [[] t]; [done|]. by exists t. Qed.

Lemma scan_plain s : str_forallb not_quote s = true -> scan false s = (false, s).
Proof.
  induction s as [|c s IH]; [done|]. cbn. intros [Hc Hs]%andb_prop. unfold not_quote in Hc.
  rewrite bool_decide_eq_false_2 by (by intros ->). by rewrite IH.
Qed.

Lemma plain_closed s : str_forallb not_quote s = true -> closed s = true.
Proof. intros H. unfold closed. by rewrite scan_plain. Qed.

Lemma is_empty_app a b : is_empty (a +:+ b) = is_empty a && is_empty b.
Proof. by destruct a; rewrite ?app_str_nil_l, ?app_str_cons. Qed.

Lemma closed_app a b : closed a = true -> closed b = true -> closed (a +:+ b) = true.
Proof.
  intros [x Ha]%closed_scan [y Hb]%closed_scan. unfold closed. by rewrite scan_app, Ha, Hb.
Qed.

Lemma same_refl s : closed s = true -> same_shape s s.
Proof. done. Qed.

Lemma same_app a a' b b' : same_shape a a' -> same_shape b b' -> same_shape (a +:+ b) (a' +:+ b').
Proof.
  intros (Ha & HA & Ea) (Hb & HB & Eb). split_and!; [by apply closed_app| |by rewrite !is_empty_app, Ea, Eb].
  rewrite !scan_app, <-HA. destruct (closed_scan a Ha) as [x ->]. by rewrite <-HB.
Qed.

#[export] Instance app_same : Proper (same_shape ==> same_shape ==> same_shape) String.append.
Proof. intros a a' Ha b b' Hb. by apply same_app. Qed.

Lemma same_outside a b : same_shape a b -> outside b = outside a /\ closed a = true /\ closed b = true.
Proof. intros (Ha & Hs & _). unfold outside, closed in *. by rewrite <-Hs. Qed.

Lemma same_closed a b : same_shape a b -> closed a = true.
Proof. by intros (? & _). Qed.

Lemma same_empty a b : same_shape a b -> is_empty b = is_empty a.
Proof. by intros (_ & _ & ->). Qed.

Lemma scan_quoted s : scan true (str_map sql_quote_char s +:+ "'") = (false, "").
Proof.
  induction s as [|c s IH]; [done|]. cbn [str_map]. rewrite app_str_assoc. unfold sql_quote_char at 1.
  case_bool_decide as Hc; [by rewrite app_str_cons, app_str_cons|].
  unfold char_str. rewrite app_str_cons, app_str_nil_l. cbn [scan]. by rewrite bool_decide_eq_false_2, IH.
Qed.

Lemma same_sql_quote s s' : same_shape (sql_quote s) (sql_quote s').
Proof.
  unfold sql_quote. rewrite !app_str_cons, !app_str_nil_l.
  split_and!; [unfold closed|..]; cbn; by rewrite ?scan_quoted.
Qed.

Lemma closed_int z : closed (int_to_string z) = true.
Proof.
  apply plain_closed. eapply str_forallb_impl; [|apply int_to_string_bytes].
  intros c. unfold not_quote. case_bool_decide; [subst; by vm_compute|done].
Qed.

Lemma closed_usize n : closed (usize_str n) = true.
Proof. apply closed_int. Qed.

Lemma closed_if (b : bool) x y : closed x = true -> closed y = true -> closed (if b then x else y) = true.
Proof. by destruct b. Qed.

Lemma same_if (b : bool) x y x' y' :
  same_shape x x' -> same_shape y y' -> same_shape (if b then x else y) (if b then x' else y').
Proof. by destruct b. Qed.

(** A datatype between quotes that other pieces bring. *)
Lemma closed_dtype a b r : closed (a +:+ XSD +:+ b) = true -> closed r = true -> closed (a +:+ XSD +:+ b +:+ r) = true.
Proof. intros H Hr. rewrite <-(app_str_assoc XSD b r), <-(app_str_assoc a). by apply closed_app. Qed.

Lemma closed_concat l : Forall (fun s => closed s = true) l -> closed (str_concat l) = true.
Proof. induction 1; [done|]. cbn. by apply closed_app. Qed.

Lemma closed_join sep l :
  closed sep = true -> Forall (fun s => closed s = true) l -> closed (RustStd.join sep l) = true.
Proof.
  intros Hsep. induction 1 as [|s l Hs _ IH]; [done|]. destruct l; [done|].
  cbn [RustStd.join] in *. by repeat apply closed_app.
Qed.

Lemma same_join sep l l' :
  closed sep = true -> Forall2 same_shape l l' -> same_shape (RustStd.join sep l) (RustStd.join sep l').
Proof.
  intros Hsep. induction 1 as [|s s' l l' Hs Hl IH]; [done|]. destruct Hl; [done|].
  cbn [RustStd.join] in *. by repeat apply same_app.
Qed.

Create HintDb sql.
#[export] Hint Resolve same_refl same_app same_sql_quote closed_app closed_dtype closed_int closed_usize closed_if
  same_if : sql.
#[export] Hint Extern 1 (closed _ = true) => reflexivity : sql.

Ltac sql := auto 60 with sql.

(** ** Changing the strings of the filters *)

(** Literals whose text the compiler interprets: numerals and booleans. *)
Definition interpreted (t : Term) : bool :=
  is_literal t && (is_numeric_dtype (t_dtype t) || bool_decide (t_dtype t = XSD +:+ "boolean")).

Section relex.
Variable h : Term -> string.

Definition relex (t : Term) : Term :=
  if interpreted t then t else mkTerm (t_kind t) (h t) (t_dtype t) (t_lang t).

Definition relex_val (v : Val) : Val := mkVal (v_func v) (v_var v) (relex <$> v_term v).

Fixpoint relex_expr (e : Expr) : Expr :=
  match e with
  | EOr a b => EOr (relex_expr a) (relex_expr b)
  | EAnd a b => EAnd (relex_expr a) (relex_expr b)
  | ENot a => ENot (relex_expr a)
  | EBound v => EBound v
  | ERegex text pattern flags =>
      ERegex (relex_expr text) (relex_expr pattern) (match flags with Some f => Some (relex_expr f) | None => None end)
  | ECmp op a b => ECmp op (relex_expr a) (relex_expr b)
  | EVal v => EVal (relex_val v)
  end.

Fixpoint relex_group (g : Group) : Group :=
  match g with
  | mkGroup ts fs os us => mkGroup ts (map relex_expr fs) (map relex_group os) (map (map relex_group) us)
  end.

Definition relex_flat (f : Flat) : Flat :=
  mkFlat (tps f) (map relex_expr (filts f)) (map relex_group (opts f)).

Definition relex_query (q : Query) : Query :=
  mkQuery (q_form q) (q_distinct q) (q_star q) (q_sel q) (q_group_by q) (q_template q)
    (relex_group (q_pattern q)) (q_order q) (q_limit q) (q_offset q) (q_prefixes q) (q_base q).

(** ** Numerals without quotes *)

Definition val_plain (v : Val) : bool :=
  match v_term v with
  | Some t => negb (is_literal t && is_numeric_dtype (t_dtype t)) || str_forallb not_quote (t_lex t)
  | None => true
  end.

Fixpoint expr_plain (e : Expr) : bool :=
  match e with
  | EOr a b | EAnd a b | ECmp _ a b => expr_plain a && expr_plain b
  | ENot a => expr_plain a
  | EBound _ => true
  | ERegex text pattern flags =>
      expr_plain text && expr_plain pattern && match flags with Some f => expr_plain f | None => true end
  | EVal v => val_plain v
  end.

Fixpoint group_plain (g : Group) : bool :=
  match g with
  | mkGroup ts fs os us => forallb expr_plain fs && forallb group_plain os && forallb (forallb group_plain) us
  end.

Definition flat_plain (f : Flat) : bool := forallb expr_plain (filts f) && forallb group_plain (opts f).

(** ** Values and expressions *)

Definition vinfo_closed (vi : VInfo) : Prop := closed (vi_idref vi) = true /\ closed (vi_alias vi) = true.
Definition vars_closed (vars : VList) : Prop := Forall vinfo_closed vars.

Lemma vfind_closed vars v vi : vars_closed vars -> vfind vars v = Some vi -> vinfo_closed vi.
Proof.
  intros Hv Hf. apply List.find_some in Hf as [Hin _]. apply list_elem_of_In in Hin.
  by eapply Forall_forall in Hv.
Qed.

Lemma vadd_closed vars v idref o prefix :
  vars_closed vars -> closed idref = true -> closed prefix = true -> vars_closed (vadd vars v idref o prefix).
Proof.
  intros Hv Hi Hp. unfold vadd, vars_closed. apply Forall_app. split; [done|].
  constructor; [|done]. split; cbn; sql.
Qed.

(** Results that agree on errors and are related when both succeed. *)
Definition res_rel {A B} (R : A -> B -> Prop) (r : result compile_error A) (r' : result compile_error B) : Prop :=
  match r, r' with
  | Ok a, Ok b => R a b
  | Err e, Err e' => e = e'
  | _, _ => False
  end.

Lemma res_bind {A A' B B'} (R : A -> A' -> Prop) (S : B -> B' -> Prop) r r' f f' :
  res_rel R r r' -> (forall a a', R a a' -> res_rel S (f a) (f' a')) -> res_rel S (rbind f r) (rbind f' r').
Proof. destruct r, r'; cbn; naive_solver. Qed.

Lemma relex_kind t : t_kind (relex t) = t_kind t.
Proof. unfold relex. by destruct (interpreted t). Qed.
Lemma relex_dtype t : t_dtype (relex t) = t_dtype t.
Proof. unfold relex. by destruct (interpreted t). Qed.

Lemma relex_numeral v : operand_is_numeric_lit (relex_val v) = operand_is_numeric_lit v.
Proof.
  unfold operand_is_numeric_lit. cbn. destruct (v_term v); cbn; [|done]. by rewrite relex_kind, relex_dtype.
Qed.

Lemma same_value v vars numeric lowered :
  vars_closed vars -> val_plain v = true ->
  res_rel same_shape (compile_value v vars numeric lowered) (compile_value (relex_val v) vars numeric lowered).
Proof.
  intros Hv Hp. unfold compile_value, lower_of. cbn [v_var v_func v_term relex_val].
  destruct (v_var v) as [x|].
  - destruct (vfind vars x) as [vi|] eqn:Hf; cbn [res_rel]; [|sql].
    destruct (vfind_closed _ _ _ Hv Hf). destruct lowered, (_ && _), (v_func v); cbn; sql.
  - unfold val_plain in Hp. destruct (v_term v) as [t|]; cbn [fmap option_fmap option_map]; [|done].
    rewrite relex_kind, relex_dtype.
    destruct ((t_kind t =? K_LIT)%Z && is_numeric_dtype (t_dtype t)) eqn:Hn; cbn [andb].
    + destruct numeric; cbn [res_rel]; [|destruct lowered; sql].
      assert (relex t = t) as ->.
      { unfold relex, interpreted, is_literal. apply andb_prop in Hn as [-> ->]. done. }
      unfold is_literal in Hp. rewrite Hn in Hp. cbn in Hp. apply same_refl, plain_closed, Hp.
    + cbn [res_rel]. destruct lowered; sql.
Qed.

Lemma as_val_relex e :
  as_val (relex_expr e) = rmap relex_val (as_val e).
Proof. by destruct e. Qed.

Lemma as_val_plain e v : as_val e = Ok v -> expr_plain e = true -> val_plain v = true.
Proof. by destruct e; try discriminate; intros [= <-]. Qed.

(** An operand of REGEX. *)
Lemma same_operand_value vars e :
  vars_closed vars -> expr_plain e = true ->
  res_rel same_shape (rbind (fun v => compile_value v vars false false) (as_val e))
    (rbind (fun v => compile_value v vars false false) (as_val (relex_expr e))).
Proof.
  intros Hv Hp. rewrite as_val_relex. destruct (as_val e) as [v|] eqn:He; cbn; [|done].
  apply same_value; eauto using as_val_plain.
Qed.

Lemma rbind_assoc {A B C} (f : A -> result compile_error B) (g : B -> result compile_error C) r :
  rbind g (rbind f r) = rbind (fun a => rbind g (f a)) r.
Proof. by destruct r. Qed.

Lemma same_expr vars e : vars_closed vars -> expr_plain e = true ->
  res_rel same_shape (compile_expr e vars) (compile_expr (relex_expr e) vars).
Proof.
  intros Hv. induction e as [a IHa b IHb|a IHa b IHb|a IHa|v|text _ pattern _ flags|op a _ b _|v];
    cbn [expr_plain relex_expr compile_expr]; intros Hp.
  - apply andb_prop in Hp as [Ha Hb]. eapply res_bind; [by apply IHa|]. intros sa sa' Hsa.
    eapply res_bind; [by apply IHb|]. intros sb sb' Hsb. cbn. sql.
  - apply andb_prop in Hp as [Ha Hb]. eapply res_bind; [by apply IHa|]. intros sa sa' Hsa.
    eapply res_bind; [by apply IHb|]. intros sb sb' Hsb. cbn. sql.
  - eapply res_bind; [by apply IHa|]. intros sa sa' Hsa. cbn. sql.
  - destruct (vfind vars v) as [vi|] eqn:Hf; [|cbn; sql]. destruct (vfind_closed _ _ _ Hv Hf). cbn. sql.
  - apply andb_prop in Hp as [[Ht Hpat]%andb_prop Hf].
    rewrite <-!rbind_assoc. eapply res_bind; [by apply same_operand_value|]. intros sp sp' Hsp.
    rewrite <-!rbind_assoc. eapply res_bind; [by apply same_operand_value|]. intros st st' Hst.
    eapply res_bind with (R := same_shape).
    { destruct flags as [f|]; [by apply same_operand_value|cbn; sql]. }
    intros sf sf' Hsf. cbn. sql.
  - apply andb_prop in Hp as [Ha Hb]. destruct a as [| | | | | |av]; try done. destruct b as [| | | | | |bv]; try done.
    cbn [relex_expr]. rewrite !relex_numeral.
    change (compares_ids op (relex_val av) (relex_val bv)) with (compares_ids op av bv).
    change (compile_ids op (relex_val av) (relex_val bv) vars) with (compile_ids op av bv vars).
    destruct (compares_ids op av bv); [cbn; unfold compile_ids|].
    + destruct (vfind vars (default "" (v_var av))) as [va|] eqn:Hva; [|sql].
      destruct (vfind vars (default "" (v_var bv))) as [vb|] eqn:Hvb; [|sql].
      destruct (vfind_closed _ _ _ Hv Hva), (vfind_closed _ _ _ Hv Hvb). destruct op; cbn; sql.
    + eapply res_bind; [by apply same_value|]. intros sa sa' Hsa.
      eapply res_bind; [by apply same_value|]. intros sb sb' Hsb. destruct op; cbn; sql.
  - cbn. destruct (v_var v); [done|]. destruct (v_term v) as [t|]; cbn; [|done].
    rewrite relex_kind, relex_dtype.
    destruct ((t_kind t =? K_LIT)%Z && bool_decide (t_dtype t = XSD +:+ "boolean")) eqn:Hb; [|done].
    assert (relex t = t) as ->.
    { unfold relex, interpreted, is_literal. apply andb_prop in Hb as [-> ->]. by rewrite orb_true_r. }
    destruct (bool_decide (t_lex t = "true")); cbn; sql.
Qed.

(** ** One flat *)

Lemma same_conj w w' c c' : same_shape w w' -> same_shape c c' -> same_shape (add_conj w c) (add_conj w' c').
Proof. intros Hw Hc. unfold add_conj. rewrite (same_empty _ _ Hw). sql. Qed.

Lemma closed_conj w c : closed w = true -> closed c = true -> closed (add_conj w c) = true.
Proof. intros Hw Hc. unfold add_conj. sql. Qed.

Lemma same_filters vars fs : vars_closed vars -> forallb expr_plain fs = true -> forall w w', same_shape w w' ->
  res_rel same_shape (compile_filters fs vars w) (compile_filters (map relex_expr fs) vars w').
Proof.
  intros Hv. induction fs as [|f fs IH]; [done|]. cbn. intros [Hf Hfs]%andb_prop w w' Hw.
  eapply res_bind; [by apply same_expr|]. intros e e' He. apply IH; [done|].
  apply same_conj; [done|]. repeat apply same_app; sql.
Qed.

Definition clauses_closed (st : Clauses) : Prop :=
  vars_closed (c_vars st) /\ closed (c_from st) = true /\ closed (c_where st) = true.

Variable ids : Term -> Z.

Lemma slot_step_closed prefix al st cs :
  closed prefix = true -> closed al = true -> closed (fst cs) = true -> clauses_closed st ->
  clauses_closed (slot_step ids prefix al st cs).
Proof.
  intros Hp Ha Hc (Hv & Hf & Hw). destruct cs as [col slot]. cbn in Hc. unfold slot_step.
  destruct slot as [v|t].
  - destruct (vfind (c_vars st) v) as [vi|] eqn:Hvi.
    + destruct (vfind_closed _ _ _ Hv Hvi). split_and!; cbn; [done..|]. apply closed_conj; sql.
    + split_and!; cbn; [|done..]. apply vadd_closed; sql.
  - split_and!; cbn; [done..|]. apply closed_conj; sql.
Qed.

Lemma pattern_step_closed prefix name st it :
  closed prefix = true -> (forall i, closed (name i) = true) -> clauses_closed st ->
  clauses_closed (pattern_step ids prefix name st it).
Proof.
  intros Hp Hn (Hv & Hf & Hw). destruct it as [i tp]. unfold pattern_step. cbn [slots zip zip_with foldl].
  repeat apply slot_step_closed; try done. specialize (Hn i).
  split_and!; cbn; [done|destruct (Nat.eqb i 0); sql|apply closed_conj; sql].
Qed.

Lemma compile_patterns_closed prefix name l :
  closed prefix = true -> (forall i, closed (name i) = true) -> clauses_closed (compile_patterns ids prefix name l).
Proof.
  intros Hp Hn. unfold compile_patterns. generalize (enumerate l). intros its.
  assert (H0 : clauses_closed (mkClauses [] "" "")) by (split_and!; [by constructor|done..]). revert H0.
  generalize (mkClauses [] "" ""). induction its as [|it its IH]; intros st Hst; [done|].
  cbn [foldl]. apply IH. by apply pattern_step_closed.
Qed.

Lemma inner_joins_closed vars used : vars_closed vars -> closed (inner_joins vars used) = true.
Proof.
  intros Hv. apply closed_concat, Forall_map, Forall_true. intros name.
  destruct (vfind vars name) as [iv|] eqn:Hf; [|done]. destruct (vfind_closed _ _ _ Hv Hf). sql.
Qed.

Lemma join_step_closed gi st jv :
  vars_closed (fst st) -> closed (snd st) = true -> vinfo_closed (snd jv) ->
  vars_closed (fst (join_step gi st jv)) /\ closed (snd (join_step gi st jv)) = true.
Proof.
  destruct st as [vars on], jv as [j iv]. cbn. intros Hv Ho Hi.
  destruct (vfind vars (vi_name iv)) as [outer|] eqn:Hf.
  - destruct (vfind_closed _ _ _ Hv Hf). destruct (vi_optional outer); cbn; [done|]. split; [done|].
    apply closed_conj; sql.
  - cbn. split; [|done]. apply vadd_closed; sql.
Qed.

Lemma joins_closed gi l : forall st,
  vars_closed (fst st) -> closed (snd st) = true -> Forall (fun jv => vinfo_closed (snd jv)) l ->
  vars_closed (fst (foldl (join_step gi) st l)) /\ closed (snd (foldl (join_step gi) st l)) = true.
Proof.
  induction l as [|jv l IH]; intros st Hv Ho Hl; [done|]. cbn [foldl]. inversion_clear Hl.
  destruct (join_step_closed gi st jv); [done..|]. by apply IH.
Qed.

Lemma enumerate_Forall {A} (P : A -> Prop) l : Forall P l -> Forall (fun p => P (snd p)) (enumerate l).
Proof.
  intros Hl. apply Forall_forall. intros [i x] Hin. apply elem_of_lookup_imap in Hin as (j & y & [= -> ->] & Hy).
  by eapply Forall_lookup_1 in Hl.
Qed.

(** Variables equal and closed, FROM texts of the same shape. *)
Definition same_from (r r' : VList * string) : Prop :=
  fst r' = fst r /\ vars_closed (fst r) /\ same_shape (snd r) (snd r').

Lemma filters_vars_relex fs : filters_vars (map relex_expr fs) = filters_vars fs.
Proof.
  assert (He : forall e out, expr_collect_vars (relex_expr e) out = expr_collect_vars e out).
  { fix IH 1. intros [a b|a b|a|v|t p [f|]|op a b|v] out; cbn; by rewrite ?IH. }
  unfold filters_vars. generalize (@nil string). induction fs as [|f fs IH]; intros out; [done|].
  cbn. by rewrite He, IH.
Qed.

Lemma g_triples_relex g : g_triples (relex_group g) = g_triples g.
Proof. by destruct g. Qed.

Lemma g_filters_relex g : g_filters (relex_group g) = map relex_expr (g_filters g).
Proof. by destruct g. Qed.

Lemma same_optional gi og vars from from' :
  vars_closed vars -> same_shape from from' -> group_plain og = true ->
  res_rel same_from (optional_step ids gi og vars from) (optional_step ids gi (relex_group og) vars from').
Proof.
  intros Hv Hfrom Hp. unfold optional_step. rewrite g_triples_relex, g_filters_relex.
  destruct (g_triples og) as [|tp ts] eqn:Hts; [by cbn|].
  set (st := compile_patterns _ _ _ _).
  destruct (compile_patterns_closed ("f" +:+ usize_str gi +:+ "_")
              (fun j => "o" +:+ usize_str gi +:+ "_" +:+ usize_str j) (tp :: ts)) as (Hiv & Hif & Hiw); [sql..|].
  fold st in Hiv, Hif, Hiw.
  eapply res_bind with (R := fun a b => same_shape (fst a) (fst b) /\ same_shape (snd a) (snd b)).
  - destruct og as [ts' fs os us]. cbn [g_filters map] in *. destruct fs as [|f fs]; [cbn; split; sql|].
    cbn [map group_plain] in *. apply andb_prop in Hp as [[Hp _]%andb_prop _].
    eapply res_bind; [apply (same_filters _ (f :: fs)); sql|]. intros w w' Hw. cbn [res_rel fst snd].
    split; [|done]. change (relex_expr f :: map relex_expr fs) with (map relex_expr (f :: fs)).
    rewrite filters_vars_relex. apply same_refl. apply closed_app; [done|]. by apply inner_joins_closed.
  - intros [ifrom iwhere] [ifrom' iwhere'] [Hf Hw]. cbn [fst snd] in *.
    destruct (joins_closed gi (enumerate (c_vars st)) (vars, "")) as [Hjv Hjo]; [done..| |].
    { by apply enumerate_Forall. }
    destruct (foldl (join_step gi) (vars, "") _) as [vars' oncond]. cbn [fst snd] in *.
    set (isel := RustStd.join _ _).
    assert (Hisel : closed isel = true).
    { apply closed_join; [done|]. apply Forall_map. eapply Forall_impl; [by apply enumerate_Forall|].
      intros [j iv] [? ?]. cbn in *. sql. }
    split; [done|]. split; [done|]. cbn [snd]. rewrite (same_empty _ _ Hw).
    repeat apply same_app; sql.
Qed.

Lemma same_optionals l : forall vars from from',
  vars_closed vars -> same_shape from from' -> forallb (fun it => group_plain (snd it)) l = true ->
  res_rel same_from (optionals_loop ids l vars from)
    (optionals_loop ids (map (fun it => (fst it, relex_group (snd it))) l) vars from').
Proof.
  induction l as [|[gi og] l IH]; intros vars from from' Hv Hf Hp; [done|].
  cbn [forallb] in Hp. apply andb_prop in Hp as [Hg Hl]. cbn [optionals_loop map fst snd].
  eapply res_bind; [by apply same_optional|]. intros [vs f] [vs' f'] (Hvs & Hvc & Hff).
  cbn [fst snd] in *. subst vs'. by apply IH.
Qed.

Lemma enumerate_map {A B} (f : A -> B) l :
  enumerate (map f l) = map (fun it => (fst it, f (snd it))) (enumerate l).
Proof.
  unfold enumerate. change (map f l) with (f <$> l). rewrite imap_fmap.
  change (map ?g (imap pair l)) with (g <$> imap pair l). rewrite fmap_imap. by apply imap_ext.
Qed.

Lemma enumerate_forallb {A} (p : A -> bool) l :
  forallb p l = true -> forallb (fun it => p (snd it)) (enumerate l) = true.
Proof.
  rewrite !List.forallb_forall, <-!List.Forall_forall. apply (enumerate_Forall (fun x => p x = true)).
Qed.

Lemma same_flat fl proj : flat_plain fl = true ->
  res_rel same_shape (compile_flat ids fl proj) (compile_flat ids (relex_flat fl) proj).
Proof.
  intros [Hf Ho]%andb_prop. unfold compile_flat. cbn [tps opts filts relex_flat].
  set (st := compile_patterns _ _ _ _).
  destruct (compile_patterns_closed "v" (fun i => "t" +:+ usize_str i) (tps fl)) as (Hv & Hfr & Hw); [sql..|].
  fold st in Hv, Hfr, Hw.
  set (from := match tps fl with [] => _ | _ => _ end).
  assert (Hfrom : closed from = true) by (unfold from; destruct (tps fl); sql).
  rewrite enumerate_map. eapply res_bind.
  { apply same_optionals; [done|by apply same_refl|by apply enumerate_forallb]. }
  intros [vars f] [vars' f'] (Hvs & Hvc & Hff). cbn [fst snd] in *. subst vars'.
  eapply res_bind; [by apply same_filters; sql|]. intros w w' Hww. cbn [res_rel].
  rewrite (same_empty _ _ Hww).
  assert (Hj : closed (str_concat (map var_join vars)) = true).
  { apply closed_concat, Forall_map. eapply Forall_impl; [exact Hvc|]. intros vi [? ?]. cbn. unfold var_join. sql. }
  assert (Hs : closed (match proj with [] => "1 AS one_"
                       | _ => RustStd.join "," (map (proj_item vars) (enumerate proj)) end) = true).
  { destruct proj as [|p ps]; [done|]. apply closed_join; [done|]. apply Forall_map, Forall_true. intros [i name].
    cbn. destruct (vfind vars name) as [vi|] eqn:Hvf; [|sql]. destruct (vfind_closed _ _ _ Hvc Hvf). sql. }
  repeat apply same_app; sql.
Qed.

(** ** Flattening commutes with the change of strings *)

Definition flats_rel (l l' : list Flat) : Prop := l' = map relex_flat l /\ forallb flat_plain l = true.

Lemma add_group_relex g f : add_group (relex_group g) (relex_flat f) = relex_flat (add_group g f).
Proof. destruct g, f. unfold add_group, relex_flat. cbn. by rewrite !map_app. Qed.

Lemma flats_rel_app l l' r r' : flats_rel l l' -> flats_rel r r' -> flats_rel (l ++ r) (l' ++ r').
Proof. intros [-> Hl] [-> Hr]. split; [by rewrite map_app|]. by rewrite forallb_app, Hl, Hr. Qed.

Lemma flats_rel_length l l' : flats_rel l l' -> length l' = length l.
Proof. intros [-> _]. apply length_map. Qed.

Definition flattens (g : Group) : Prop :=
  group_plain g = true -> forall l l', flats_rel l l' ->
  res_rel flats_rel (flatten_group g l) (flatten_group (relex_group g) l').

Lemma same_branches bs : Forall flattens bs -> forallb group_plain bs = true ->
  forall f acc acc', flat_plain f = true -> flats_rel acc acc' ->
  res_rel flats_rel (branches_loop flatten_group f bs acc)
    (branches_loop flatten_group (relex_flat f) (map relex_group bs) acc').
Proof.
  induction 1 as [|b bs Hb _ IH]; [done|]. cbn [forallb map branches_loop].
  intros [Hpb Hpbs]%andb_prop f acc acc' Hf Hacc.
  eapply res_bind. { apply Hb; [done|]. split; [done|]. cbn. by rewrite Hf. }
  intros s s' Hs. assert (Hss := flats_rel_app _ _ _ _ Hacc Hs). rewrite (flats_rel_length _ _ Hss).
  destruct (_ <? _)%nat; [done|]. by apply IH.
Qed.

Lemma same_flats bs : Forall flattens bs -> forallb group_plain bs = true ->
  forall l acc acc', forallb flat_plain l = true -> flats_rel acc acc' ->
  res_rel flats_rel (flats_loop flatten_group bs l acc)
    (flats_loop flatten_group (map relex_group bs) (map relex_flat l) acc').
Proof.
  intros Hbs Hp. induction l as [|f l IH]; intros acc acc'; [by cbn|]. cbn [forallb flats_loop map].
  intros [Hf Hl]%andb_prop Hacc. eapply res_bind; [by apply same_branches|]. intros; by apply IH.
Qed.

Lemma same_unions us : Forall (Forall flattens) us -> forallb (forallb group_plain) us = true ->
  forall l l', flats_rel l l' ->
  res_rel flats_rel (unions_loop flatten_group us l) (unions_loop flatten_group (map (map relex_group) us) l').
Proof.
  induction 1 as [|bs us Hbs _ IH]; [done|]. cbn [forallb unions_loop map].
  intros [Hb Hus]%andb_prop l l' [-> Hl]. eapply res_bind; [by apply same_flats|]. by apply IH.
Qed.

Lemma flatten_same g : flattens g.
Proof.
  induction g as [ts fs os us Hus] using group_ind'. intros Hp l l' [-> Hl].
  cbn [group_plain] in Hp. apply andb_prop in Hp as [[Hfs Hos]%andb_prop Hpu].
  change (relex_group (mkGroup ts fs os us)) with
    (mkGroup ts (map relex_expr fs) (map relex_group os) (map (map relex_group) us)).
  cbn [flatten_group]. apply same_unions; [done..|]. split.
  - rewrite !map_map. apply map_ext. intros f.
    apply (add_group_relex (mkGroup ts fs os us)).
  - induction l as [|f l IH]; [done|]. cbn in *. apply andb_prop in Hl as [Hf Hl]. rewrite IH by done.
    unfold flat_plain in *. cbn. apply andb_prop in Hf as [Hf1 Hf2]. by rewrite !forallb_app, Hf1, Hf2, Hfs, Hos.
Qed.

(** ** The layers *)

Lemma flat_collect_relex f out : flat_collect_vars (relex_flat f) out = flat_collect_vars f out.
Proof.
  unfold flat_collect_vars. cbn [tps opts relex_flat]. generalize (collect_triples out (tps f)). intros vs.
  revert vs. induction (opts f) as [|g gs IH]; intros vs; [done|]. cbn [map foldl]. by rewrite g_triples_relex, IH.
Qed.

Lemma visible_relex q flats flats' : flats_rel flats flats' ->
  visible_names (relex_query q) flats' = visible_names q flats.
Proof.
  intros [-> _]. unfold visible_names. cbn.
  assert (H : forall out, foldl (fun out f => flat_collect_vars f out) out (map relex_flat flats) =
                          foldl (fun out f => flat_collect_vars f out) out flats).
  { induction flats as [|f flats IH]; intros out; [done|]. cbn [map foldl]. by rewrite flat_collect_relex, IH. }
  by rewrite H.
Qed.

Lemma same_sub flats flats' inner : flats_rel flats flats' ->
  res_rel same_shape (compile_sub ids flats inner) (compile_sub ids flats' inner).
Proof.
  intros [-> Hp]. unfold compile_sub, rmap. eapply res_bind with (R := Forall2 same_shape).
  - induction flats as [|f flats IH]; [by cbn|]. cbn in *. apply andb_prop in Hp as [Hf Hfs].
    eapply res_bind; [by apply same_flat|]. intros s s' Hs. eapply res_bind; [by apply IH|].
    intros l l' Hl. cbn. by constructor.
  - intros l l' Hl. cbn. by apply same_join.
Qed.

Lemma order_expr_closed ord n desc : closed ord = true -> closed (order_expr ord n desc) = true.
Proof. intros. unfold order_expr. destruct desc; sql. Qed.

Lemma position_str_closed v l : closed (position_str v l) = true.
Proof. unfold position_str. destruct v as [v|]; [destruct (position v l)|]; sql. Qed.

#[local] Hint Resolve order_expr_closed position_str_closed : sql.

Lemma agg_item_closed inner it : closed (agg_item inner it) = true.
Proof.
  destruct it as [m it]. unfold agg_item. cbv zeta. destruct (si_agg it), (si_distinct it), (si_star it); sql.
Qed.

(** The core of the query, and a closed list of pending keys. *)
Definition same_core (r r' : string * string) : Prop :=
  same_shape (fst r) (fst r') /\ snd r' = snd r /\ closed (snd r) = true.

Lemma same_agg_core q vis inner sub sub' : same_shape sub sub' ->
  same_core (agg_core q vis inner sub) (agg_core (relex_query q) vis inner sub').
Proof.
  intros Hs. unfold agg_core. split; [|split]; cbn [fst snd q_distinct q_sel q_group_by q_order relex_query]; [|done|].
  - assert (H1 : closed (RustStd.join "," (map (agg_item inner) (enumerate (q_sel q)))) = true).
    { apply closed_join; [done|]. apply Forall_map, Forall_true. intros it. apply agg_item_closed. }
    assert (H2 : closed (match q_group_by q with [] => ""
                  | _ => " GROUP BY " +:+ RustStd.join "," (map (fun g => "i" +:+ position_str (Some g) inner)
                           (q_group_by q)) end) = true).
    { destruct (q_group_by q) as [|g gs]; [done|]. apply closed_app; [done|]. apply closed_join; [done|].
      apply Forall_map, Forall_true. intros x. apply closed_app; sql. }
    repeat apply same_app; sql.
  - assert (H : closed "" = true) by done. revert H. generalize "". induction (q_order q) as [|o os IH]; [done|].
    intros ord Hord. cbn. apply IH. destruct (position (ok_var o) vis); sql.
Qed.

Lemma plain_order_closed d vis inner order : forall ord ord',
  closed ord = true -> plain_order d vis inner order ord = Ok ord' -> closed ord' = true.
Proof.
  induction order as [|o os IH]; cbn; intros ord ord' Hc; [by intros [= <-]|].
  destruct (position (ok_var o) inner); [|by apply IH]. destruct (d && _); [done|]. apply IH. sql.
Qed.

Lemma same_plain_core q vis inner sub sub' : same_shape sub sub' ->
  res_rel same_core (plain_core q vis inner sub) (plain_core (relex_query q) vis inner sub').
Proof.
  intros Hs. unfold plain_core. cbn [q_distinct q_order relex_query].
  destruct (plain_order _ _ _ _ _) as [ord|] eqn:Ho; [|done]. cbn [rbind res_rel].
  assert (Hord := plain_order_closed _ _ _ _ "" _ eq_refl Ho).
  assert (Hc : closed (plain_cols vis) = true).
  { apply closed_join; [done|]. apply Forall_map, Forall_true. intros i. cbn. sql. }
  destruct (q_distinct q); [|destruct (negb (is_empty ord))]; (split; [|split]); cbn [fst snd]; try done;
    repeat apply same_app; sql.
Qed.

Lemma same_outer q core core' ord :
  same_shape core core' -> closed ord = true -> same_shape (outer_layer q core ord) (outer_layer (relex_query q) core' ord).
Proof.
  intros Hc Ho. unfold outer_layer. cbn [q_limit q_offset relex_query].
  apply same_app; [destruct (is_empty ord); [done|repeat apply same_app; sql]|].
  apply same_refl. destruct (_ || _); [|done]. destruct (0 <=? q_limit q)%Z, (0 <? q_offset q)%Z; sql.
Qed.

Definition same_query (r r' : string * list string) : Prop := same_shape (fst r) (fst r') /\ snd r' = snd r.

Lemma compile_same q : group_plain (q_pattern q) = true ->
  res_rel same_query (compile_query ids q) (compile_query ids (relex_query q)).
Proof.
  intros Hp. unfold compile_query. cbn [q_pattern relex_query].
  eapply res_bind; [by apply flatten_same|]. intros flats flats' Hf.
  rewrite (visible_relex _ _ _ Hf). destruct (visible_names q flats) as [vis|]; [|done]. cbn [rbind].
  change (inner_names (relex_query q) vis) with (inner_names q vis).
  eapply res_bind; [by apply same_sub|]. intros sub sub' Hs.
  change (aggmode (relex_query q)) with (aggmode q). cbn [q_form relex_query].
  assert (Hcore : res_rel same_core (if aggmode q then Ok (agg_core q vis (inner_names q vis) sub)
                                    else plain_core q vis (inner_names q vis) sub)
                   (if aggmode q then Ok (agg_core (relex_query q) vis (inner_names q vis) sub')
                    else plain_core (relex_query q) vis (inner_names q vis) sub')).
  { destruct (aggmode q); [by apply same_agg_core|by apply same_plain_core]. }
  destruct (q_form q).
  - eapply res_bind; [exact Hcore|]. intros [c o] [c' o'] (Hc & Ho & Hcl). cbn in *. subst.
    split; [by apply same_outer|done].
  - eapply res_bind; [exact Hcore|]. intros [c o] [c' o'] (Hc & Ho & Hcl). cbn in *. subst.
    split; [by apply same_outer|done].
  - cbn. split; [cbn|done]. repeat apply same_app; sql.
Qed.

End relex.

(** C36. Strings in filters cannot leave their SQL literals: replacing the text of
    every operand that is not a numeral or a boolean, in any way, leaves the
    SQL outside literals, the visible names and the errors as they are, and
    every literal is closed; provided the numerals contain no quote. *)
Theorem strings_stay_quoted (h : Term -> string) (ids : Term -> Z) (q : Query)
  (Hplain : group_plain (q_pattern q) = true) :
  match compile_query ids q, compile_query ids (relex_query h q) with
  | Ok (sql, vis), Ok (sql', vis') =>
      vis' = vis /\ outside sql' = outside sql /\ closed sql = true /\ closed sql' = true
  | Err e, Err e' => e' = e
  | _, _ => False
  end.
Proof.
  assert (H := compile_same h ids q Hplain).
  destruct (compile_query ids q) as [[s v]|], (compile_query ids (relex_query h q)) as [[s' v']|]; cbn in H; try done.
  destruct H as [Hs Hv]. cbn in *. destruct (same_outside _ _ Hs) as (? & ? & ?). done.
Qed.

Definition filter_query (t : Term) : Query :=
  mkQuery Select false true [] [] []
    (mkGroup [mkTriplePattern (Var "s") (Var "p") (Var "o")]
       [ECmp CEq (EVal (mkVal FNone (Some "o") None)) (EVal (mkVal FNone None (Some t)))] [] [])
    [] (-1) 0 [] None.

(** A filter on a string with a quote, against the harmless one. *)
Lemma strings_stay_quoted_witness :
  match compile_query (fun _ => 0%Z) (filter_query (lit "ann")),
        compile_query (fun _ => 0%Z) (relex_query (fun _ => "' OR 1=1 --") (filter_query (lit "ann"))) with
  | Ok (sql, vis), Ok (sql', vis') =>
      vis' = vis /\ outside sql' = outside sql /\ closed sql = true /\ closed sql' = true
  | Err e, Err e' => e' = e
  | _, _ => False
  end.
Proof. apply (strings_stay_quoted (fun _ => "' OR 1=1 --")). reflexivity. Defined.

(** The SQL of [filter_query] before its numeral. *)
Definition filter_prefix : string :=
  "SELECT i0,k0,x0,d0,g0,i1,k1,x1,d1,g1,i2,k2,x2,d2,g2 FROM (SELECT v0.id AS i0,v0.kind AS k0" +:+
  ",v0.lex AS x0,v0.dtype AS d0,v0.lang AS g0,v1.id AS i1,v1.kind AS k1,v1.lex AS x1,v1.dtype" +:+
  " AS d1,v1.lang AS g1,v2.id AS i2,v2.kind AS k2,v2.lex AS x2,v2.dtype AS d2,v2.lang AS g2 F" +:+
  "ROM rdf_triples t0 JOIN rdf_terms v0 ON v0.id=t0.s JOIN rdf_terms v1 ON v1.id=t0.p JOIN rd" +:+
  "f_terms v2 ON v2.id=t0.o WHERE t0.g=0 AND ((CAST(v2.lex AS REAL) = ".


(** A numeral is written as it is: whatever its literal contains becomes SQL
    outside string literals. *)
Theorem numeral_injects (text : string) (Hplain : str_forallb not_quote text = true) :
  exists sql, compile_query (fun _ => 0%Z) (filter_query (lit_dt text (XSD +:+ "integer"))) =
              Ok (sql, ["s"; "p"; "o"]) /\ outside sql = filter_prefix +:+ text +:+ "))) sub".
Proof.
  exists (filter_prefix +:+ (((text +:+ ")") +:+ ")") +:+ ") sub") +:+ ""). split; [vm_compute; reflexivity|].
  unfold outside. rewrite app_str_nil_r, !app_str_assoc, scan_app, (scan_plain filter_prefix) by reflexivity.
  by rewrite scan_app, (scan_plain text Hplain).
Qed.

Lemma numeral_injects_witness :
  exists sql, compile_query (fun _ => 0%Z) (filter_query (lit_dt "1) OR (1=1" (XSD +:+ "integer"))) =
              Ok (sql, ["s"; "p"; "o"]) /\ outside sql = filter_prefix +:+ "1) OR (1=1" +:+ "))) sub".
Proof. apply (numeral_injects "1) OR (1=1"). reflexivity. Defined.
