(* ===== verification/SparqlCursor.v ===== *)
(** * SparqlCursor: the reader under the SPARQL parser

    Models the cursor and the token readers of [crates/sparql/src/parser.rs]:
    [Cur], [resolve_iri], [read_iriref], [read_pname], [read_string],
    [read_number], [parse_term_common]. A cursor is the text and a byte offset;
    slicing off a character boundary panics, as in Rust. *)

From S2P Require Import Prelude RustStd SparqlTerm.



Local Open Scope nat_scope.

(** An error with its message, a panic, or a bounded loop that ran out (which
    never happens, [SparqlParseSafe.parse_total]). *)
Inductive perror : Type :=
| PErr (m : string)
| PPanic
| PFuel.

Definition PResult (T : Type) : Type := result perror T.

(** ** Bytes of a text *)

Definition NUL : ascii := "000"%char.

(** [*s.get(n).unwrap_or(&0)]. *)
Fixpoint byte_at (n : nat) (s : string) {struct s} : ascii :=
  match s, n with
  | "", _ => NUL
  | String c _, O => c
  | String _ s', S n' => byte_at n' s'
  end.

Fixpoint str_drop (n : nat) (s : string) : string :=
  match n, s with
  | O, _ => s
  | S n', String _ s' => str_drop n' s'
  | S _, "" => ""
  end.

Fixpoint str_take (n : nat) (s : string) : string :=
  match n, s with
  | O, _ | _, "" => ""
  | S n', String c s' => String c (str_take n' s')
  end.

(** [str::is_char_boundary]. *)
Definition is_char_boundary (s : string) (i : nat) : bool :=
  (i =? 0) || (i =? str_len s) || ((i <? str_len s) && negb (cont (byte_at i s))).

(** [&s[a..b]]. *)
Definition slice (s : string) (a b : nat) : PResult string :=
  if (a <=? b) && is_char_boundary s a && is_char_boundary s b then Ok (str_take (b - a) (str_drop a s))
  else Err PPanic.

(** ** Cur *)

Record Cur : Type := mkCur { c_text : string; c_pos : nat }.

Definition Cur_new (text : string) : Cur := mkCur text 0.

(** What is left to read. *)
Definition rest (c : Cur) : string := str_drop (c_pos c) (c_text c).
Definition remaining (c : Cur) : nat := str_len (c_text c) - c_pos c.

Fixpoint line_col (s : string) (line col : Z) : Z * Z :=
  match s with
  | "" => (line, col)
  | String b s' => if bool_decide (b = NL) then line_col s' (line + 1)%Z 1 else line_col s' line (col + 1)%Z
  end.

Definition err {T} (c : Cur) (msg : string) : PResult T :=
  let '(line, col) := line_col (str_take (c_pos c) (c_text c)) 1 1 in
  Err (PErr (msg +:+ " (line " +:+ int_to_string line +:+ ", col " +:+ int_to_string col +:+ ")")).

Definition peek_at (c : Cur) (off : nat) : ascii := byte_at (c_pos c + off) (c_text c).
Definition peek (c : Cur) : ascii := byte_at (c_pos c) (c_text c).

Definition advance (n : nat) (c : Cur) : Cur := mkCur (c_text c) (c_pos c + n).
Definition bump (c : Cur) : Cur := advance 1 c.

Definition eof (c : Cur) : bool := str_len (c_text c) <=? c_pos c.

Definition isb (a b : ascii) : bool := bool_decide (a = b).

(** A loop that bumps while the byte under the cursor satisfies [f]. *)
Fixpoint bump_while (f : ascii -> bool) (n : nat) (c : Cur) : Cur :=
  match n with
  | O => c
  | S n' => if negb (eof c) && f (peek c) then bump_while f n' (bump c) else c
  end.

Definition skip_while (f : ascii -> bool) (c : Cur) : Cur := bump_while f (remaining c) c.

Definition is_ws (b : ascii) : bool := isb b " "%char || isb b "009"%char || isb b "013"%char || isb b NL.

Fixpoint skipws_go (n : nat) (c : Cur) : Cur :=
  match n with
  | O => c
  | S n' =>
      if is_ws (peek c) then skipws_go n' (bump c)
      else if isb (peek c) "#"%char then skipws_go n' (skip_while (fun b => negb (isb b NL)) c)
      else c
  end.

Definition skipws (c : Cur) : Cur := skipws_go (remaining c) c.

Definition is_name_byte (b : ascii) : bool := is_ascii_alphanumeric b || isb b "_"%char.

Definition eq_ignore_ascii_case (a b : ascii) : bool :=
  bool_decide (to_ascii_lowercase a = to_ascii_lowercase b).

(** The rest of [s] after the word, compared without case. *)
Fixpoint strip_word (w s : string) : option string :=
  match w, s with
  | "", _ => Some s
  | String a w', String b s' => if eq_ignore_ascii_case b a then strip_word w' s' else None
  | String _ _, "" => None
  end.

(** [kw]: the cursor after the keyword, if it is there. *)
Definition kw (word : string) (c : Cur) : option Cur :=
  match strip_word word (rest c) with
  | None => None
  | Some s => if is_name_byte (byte_at 0 s) then None else Some (advance (str_len word) c)
  end.

Definition take_while (f : ascii -> bool) (c : Cur) : PResult (string * Cur) :=
  let c' := skip_while f c in
  let? s := slice (c_text c) (c_pos c) (c_pos c') in
  Ok (s, c').

(** [if self.c.peek() != b { return self.c.err(msg) } self.c.bump()]. *)
Definition expect (b : ascii) (msg : string) (c : Cur) : PResult Cur :=
  if isb (peek c) b then Ok (bump c) else err c msg.

(** ** resolve_iri *)

(** The loop of [has_scheme], at offset [i]. *)
Fixpoint scheme_loop (i : nat) (s : string) : bool :=
  match s with
  | "" => false
  | String c s' =>
      if isb c ":"%char then 0 <? i
      else if negb (is_ascii_alphanumeric c || isb c "+"%char || isb c "-"%char || isb c "."%char) then false
      else scheme_loop (S i) s'
  end.

Definition has_scheme (s : string) : bool :=
  match s with
  | "" => false
  | String c _ => is_ascii_alphabetic c && scheme_loop 0 s
  end.

(** [str::find] of a pattern. *)
Fixpoint find_str (p s : string) : option nat :=
  if starts_with p s then Some 0
  else match s with
       | "" => None
       | String _ s' => S <$> find_str p s'
       end.

(** [str::rfind] of a character. *)
Fixpoint rfind_char (ch : ascii) (s : string) : option nat :=
  match s with
  | "" => None
  | String c s' =>
      match rfind_char ch s' with
      | Some i => Some (S i)
      | None => if isb c ch then Some 0 else None
      end
  end.

Definition resolve_iri (base : option string) (iri : string) : string :=
  match base with
  | None => iri
  | Some base =>
      if has_scheme iri || is_empty base then iri
      else match RustStd.strip_prefix "//" iri with
      | Some rest =>
          let scheme_end := match find_str ":" base with Some i => i + 1 | None => 0 end in
          str_take scheme_end base +:+ "//" +:+ rest
      | None =>
          if starts_with "/" iri then
            let after_scheme := match find_str "://" base with Some i => i + 3 | None => 0 end in
            let auth_end := match find_str "/" (str_drop after_scheme base) with
                            | Some i => after_scheme + i
                            | None => str_len base
                            end in
            str_take auth_end base +:+ iri
          else if starts_with "#" iri then
            let frag := match find_str "#" base with Some i => i | None => str_len base end in
            str_take frag base +:+ iri
          else match rfind_char "/"%char base with
               | Some i => str_take (S i) base +:+ iri
               | None => iri
               end
      end
  end.

(** ** Characters *)

(** [char::from_u32]. *)
Definition char_from_u32 (v : Z) : option Z :=
  if (((v <? 0xD800) || (0xDFFF <? v)) && (v <=? 0x10FFFF))%Z then Some v else None.

(** [String::push] of a character. *)
Definition encode_utf8 (v : Z) : string :=
  if (v <? 0x80)%Z then byte_str [v]%Z
  else if (v <? 0x800)%Z then byte_str [0xC0 + v / 64; 0x80 + v mod 64]%Z
  else if (v <? 0x10000)%Z then byte_str [0xE0 + v / 4096; 0x80 + v / 64 mod 64; 0x80 + v mod 64]%Z
  else byte_str [0xF0 + v / 262144; 0x80 + v / 4096 mod 64; 0x80 + v / 64 mod 64; 0x80 + v mod 64]%Z.

Definition utf8_len (b : ascii) : nat :=
  let v := byte_val b in
  if (v <? 0x80)%Z then 1
  else if (Z.shiftr v 5 =? 6)%Z then 2
  else if (Z.shiftr v 4 =? 14)%Z then 3
  else if (Z.shiftr v 3 =? 30)%Z then 4
  else 1.

(** The digits of a [\u] escape; [u32] arithmetic wraps. *)
Fixpoint hex_loop (msg : string) (n : nat) (v : Z) (c : Cur) : PResult (Z * Cur) :=
  match n with
  | O => Ok (v, c)
  | S n' =>
      match hex_digit (peek c) with
      | None => err c msg
      | Some d => hex_loop msg n' ((v * 16 + d) mod 2 ^ 32)%Z (bump c)
      end
  end.

(** The escape after its [u] or [U]. *)
Definition read_escape (msg : string) (n : nat) (c : Cur) : PResult (string * Cur) :=
  let? (v, c) := hex_loop msg n 0 c in
  match char_from_u32 v with
  | Some ch => Ok (encode_utf8 ch, c)
  | None => err c msg
  end.

(** One character of the text, as UTF-8 bytes. *)
Definition copy_char (c : Cur) : PResult (string * Cur) :=
  let n := Nat.max 1 (utf8_len (peek c)) in
  let? s := slice (c_text c) (c_pos c) (c_pos c + n) in
  Ok (s, advance n c).

(** ** read_iriref *)

Definition BACKSLASH : ascii := "092"%char.

Fixpoint iriref_loop (n : nat) (c : Cur) (out : string) : PResult (string * Cur) :=
  match n with
  | O => Err PFuel
  | S n' =>
      if eof c then err c "unterminated IRI"
      else
        let b := peek c in
        if isb b ">"%char then Ok (out, bump c)
        else if isb b BACKSLASH then
          let c := bump c in
          if isb (peek c) "u"%char || isb (peek c) "U"%char then
            let k := if isb (peek c) "u"%char then 4 else 8 in
            let? (ch, c) := read_escape "bad \u escape in IRI" k (bump c) in
            iriref_loop n' c (out +:+ ch)
          else err c "bad escape in IRI"
        else
          let? (ch, c) := copy_char c in
          iriref_loop n' c (out +:+ ch)
  end.

Definition read_iriref (c : Cur) : PResult (string * Cur) :=
  let c := bump c in
  iriref_loop (S (remaining c)) c "".

(** ** read_pname *)

Definition pname_byte (b : ascii) : bool :=
  is_ascii_alphanumeric b || isb b "_"%char || isb b "-"%char || isb b "."%char.

Definition local_name_byte (c : Cur) : bool :=
  let b := peek c in
  is_ascii_alphanumeric b || isb b "_"%char || isb b "-"%char || (isb b "."%char && pname_byte (peek_at c 1)).

Fixpoint local_loop (n : nat) (c : Cur) : Cur :=
  match n with
  | O => c
  | S n' => if local_name_byte c then local_loop n' (bump c) else c
  end.

Definition prefixes_t : Type := list (string * string).

Definition read_pname (prefixes : prefixes_t) (c : Cur) : PResult (string * Cur) :=
  let c1 := skip_while pname_byte c in
  let? prefix := slice (c_text c) (c_pos c) (c_pos c1) in
  let? c2 := expect ":"%char "expected ':' in prefixed name" c1 in
  let c3 := local_loop (remaining c2) c2 in
  let? local := slice (c_text c) (c_pos c2) (c_pos c3) in
  match List.find (fun p => bool_decide (fst p = prefix)) prefixes with
  | Some (_, iri) => Ok (iri +:+ local, c3)
  | None => err c3 ("unknown prefix '" +:+ prefix +:+ "'")
  end.

(** ** read_string *)

(** The escapes of one character. *)
Definition simple_escape (e : ascii) : option ascii :=
  if isb e "t"%char then Some "009"%char
  else if isb e "b"%char then Some "008"%char
  else if isb e "n"%char then Some NL
  else if isb e "r"%char then Some "013"%char
  else if isb e "f"%char then Some "012"%char
  else if isb e DQ then Some DQ
  else if isb e "'"%char then Some "'"%char
  else if isb e BACKSLASH then Some BACKSLASH
  else None.

Fixpoint string_loop (quote : ascii) (long : bool) (n : nat) (c : Cur) (out : string) : PResult (string * Cur) :=
  match n with
  | O => Err PFuel
  | S n' =>
      if eof c then err c "unterminated string"
      else
        let b := peek c in
        if isb b quote then
          if long then
            if isb (peek_at c 1) quote && isb (peek_at c 2) quote then Ok (out, bump (bump (bump c)))
            else string_loop quote long n' (bump c) (out +:+ char_str b)
          else Ok (out, bump c)
        else if negb long && (isb b NL || isb b "013"%char) then err c "newline in short string"
        else if isb b BACKSLASH then
          let c := bump c in
          let e := peek c in
          let c := bump c in
          match simple_escape e with
          | Some ch => string_loop quote long n' c (out +:+ char_str ch)
          | None =>
              if isb e "u"%char || isb e "U"%char then
                let? (ch, c) := read_escape "bad \u escape in string" (if isb e "u"%char then 4 else 8) c in
                string_loop quote long n' c (out +:+ ch)
              else err c "unknown string escape"
          end
        else
          let? (ch, c) := copy_char c in
          string_loop quote long n' c (out +:+ ch)
  end.

Definition read_string (c : Cur) : PResult (string * Cur) :=
  let quote := peek c in
  let long := isb (peek_at c 1) quote && isb (peek_at c 2) quote in
  let c := if long then bump (bump (bump c)) else bump c in
  string_loop quote long (S (remaining c)) c "".

(** ** read_number *)

Definition skip_digits (c : Cur) : Cur := skip_while is_ascii_digit c.

Definition read_number (c : Cur) : PResult (Term * Cur) :=
  let c1 := if isb (peek c) "+"%char || isb (peek c) "-"%char then bump c else c in
  let c2 := skip_digits c1 in
  let is_decimal := isb (peek c2) "."%char && is_ascii_digit (peek_at c2 1) in
  let c3 := if is_decimal then skip_digits (bump c2) else c2 in
  let off := if isb (peek_at c3 1) "+"%char || isb (peek_at c3 1) "-"%char then 2 else 1 in
  let is_double := (isb (peek c3) "e"%char || isb (peek c3) "E"%char) && is_ascii_digit (peek_at c3 off) in
  let c4 := if is_double then skip_digits (advance off c3) else c3 in
  let? lex := slice (c_text c) (c_pos c) (c_pos c4) in
  Ok (lit_dt lex (XSD +:+ (if is_double then "double" else if is_decimal then "decimal" else "integer")), c4).

(** ** parse_term_common *)

(** A literal after its string: language tag, datatype or neither. *)
Definition literal_suffix (prefixes : prefixes_t) (base : option string) (lex : string) (c : Cur) :
    PResult (Term * Cur) :=
  if isb (peek c) "@"%char then
    let? (tag, c) := take_while (fun b => is_ascii_alphanumeric b || isb b "-"%char) (bump c) in
    if is_empty tag then err c "empty language tag" else Ok (lit_lang lex tag, c)
  else if isb (peek c) "^"%char && isb (peek_at c 1) "^"%char then
    let c := skipws (bump (bump c)) in
    let? (dt, c) := if isb (peek c) "<"%char
                    then let? (raw, c) := read_iriref c in Ok (resolve_iri base raw, c)
                    else read_pname prefixes c in
    Ok (lit_dt lex dt, c)
  else Ok (lit lex, c).

(** Whether the bytes under the cursor start a number. *)
Definition starts_number (c : Cur) : bool :=
  let b := peek c in
  is_ascii_digit b ||
  ((isb b "+"%char || isb b "-"%char) &&
   (is_ascii_digit (peek_at c 1) || (isb (peek_at c 1) "."%char && is_ascii_digit (peek_at c 2)))) ||
  (isb b "."%char && is_ascii_digit (peek_at c 1)).

Definition boolean_term (lex : string) : Term := lit_dt lex (XSD +:+ "boolean").

Definition parse_term_common (prefixes : prefixes_t) (base : option string) (c : Cur) :
    PResult (option Term * Cur) :=
  let c := skipws c in
  let b := peek c in
  if isb b "<"%char then
    let? (raw, c) := read_iriref c in
    Ok (Some (iri (resolve_iri base raw)), c)
  else if isb b DQ || isb b "'"%char then
    let? (lex, c) := read_string c in
    let? (t, c) := literal_suffix prefixes base lex c in
    Ok (Some t, c)
  else if starts_number c then
    let? (t, c) := read_number c in
    Ok (Some t, c)
  else match kw "true" c with
  | Some c => Ok (Some (boolean_term "true"), c)
  | None =>
  match kw "false" c with
  | Some c => Ok (Some (boolean_term "false"), c)
  | None =>
      if is_ascii_alphabetic b || isb b "_"%char || isb b ":"%char then
        if isb b "_"%char && isb (peek_at c 1) ":"%char then Ok (None, c)
        else
          let? (i, c) := read_pname prefixes c in
          Ok (Some (iri i), c)
      else Ok (None, c)
  end
  end.

(** * The token readers stay on character boundaries

    Every reader of [SparqlCursor] moves forward, to a character boundary of
    the same text, and neither panics nor runs out. *)

Local Open Scope nat_scope.

#[local] Arguments str_len : simpl never.

(** ** Specifications of results and cursors *)

(** Neither a panic nor exhaustion; [Q] of the value on success. *)
Definition spec {A} (r : PResult A) (Q : A -> Prop) : Prop :=
  match r with
  | Ok a => Q a
  | Err (PErr _) => True
  | Err _ => False
  end.

(** What is left is well-formed UTF-8: the cursor is on a boundary. *)
Definition good (c : Cur) : Prop := utf8_valid (rest c) = true /\ c_pos c <= str_len (c_text c).

(** [c'] is at least [k] bytes further on in the same text. *)
Definition moved (k : nat) (c c' : Cur) : Prop :=
  c_text c' = c_text c /\ good c' /\ c_pos c + k <= c_pos c'.

(** A reader: it moves at least [k] bytes. *)
Definition reads {A} (k : nat) (c : Cur) (r : PResult (A * Cur)) : Prop :=
  spec r (fun p => moved k c (snd p)).

Lemma spec_bind {A B} (r : PResult A) (f : A -> PResult B) Q R :
  spec r Q -> (forall a, Q a -> spec (f a) R) -> spec (rbind f r) R.
Proof. destruct r as [a|[]]; cbn; auto. Qed.

Lemma spec_err {A} (c : Cur) msg (Q : A -> Prop) : spec (err c msg) Q.
Proof. unfold err. by destruct (line_col _ _ _). Qed.

Lemma spec_mono {A} (r : PResult A) (Q R : A -> Prop) : spec r Q -> (forall a, Q a -> R a) -> spec r R.
Proof. destruct r as [a|[]]; cbn; auto. Qed.

Lemma moved_refl c : good c -> moved 0 c c.
Proof. intros H. split_and!; [done..|lia]. Qed.

Lemma moved_trans j k c c1 c2 : moved j c c1 -> moved k c1 c2 -> moved (j + k) c c2.
Proof. intros (H1 & _ & H2) (H3 & H4 & H5). split_and!; [congruence|done|lia]. Qed.

Lemma moved_le j k c c' : j <= k -> moved k c c' -> moved j c c'.
Proof. intros Hj (H1 & H2 & H3). split_and!; [done..|lia]. Qed.

Lemma moved_good k c c' : moved k c c' -> good c'.
Proof. by intros (_ & ? & _). Qed.

Lemma moved_remaining k c c' : moved k c c' -> remaining c' + k <= remaining c.
Proof. unfold remaining. intros (Ht & [_ H] & H2). rewrite Ht in *. lia. Qed.

Lemma reads_from {A} j k c c' (r : PResult (A * Cur)) : moved j c c' -> reads k c' r -> reads (j + k) c r.
Proof. intros Hm Hr. eapply spec_mono; [exact Hr|]. intros [a c2]. by apply moved_trans. Qed.

Lemma reads_le {A} j k c (r : PResult (A * Cur)) : j <= k -> reads k c r -> reads j c r.
Proof. intros Hj Hr. eapply spec_mono; [exact Hr|]. intros [a c2]. by apply moved_le. Qed.

Lemma reads_bind {A B} k c (r : PResult (A * Cur)) (f : A * Cur -> PResult B) Q :
  reads k c r -> (forall a c', moved k c c' -> spec (f (a, c')) Q) -> spec (rbind f r) Q.
Proof. intros Hr Hf. eapply spec_bind; [exact Hr|]. intros [a c'] Hm. by apply Hf. Qed.

Lemma reads_via {A} j i k c c' (r : PResult (A * Cur)) :
  moved j c c' -> reads i c' r -> k <= j + i -> reads k c r.
Proof. intros Hm Hr Hk. eapply reads_le; [exact Hk|]. by eapply reads_from. Qed.

(** ** Bytes under the cursor *)

Lemma str_len_drop n s : str_len (str_drop n s) = str_len s - n.
Proof. revert s. induction n as [|n IH]; intros [|c s]; try done. apply IH. Qed.

Lemma str_drop_drop n m s : str_drop n (str_drop m s) = str_drop (m + n) s.
Proof.
  revert s. induction m as [|m IH]; intros s; [done|]. destruct s as [|c s]; [by destruct n|]. apply IH.
Qed.

Lemma byte_at_drop n k s : byte_at (n + k) s = byte_at k (str_drop n s).
Proof. revert s. induction n as [|n IH]; intros s; [done|]. destruct s; [done|]. apply IH. Qed.

Lemma str_take_drop n s : str_take n s +:+ str_drop n s = s.
Proof.
  revert s. induction n as [|n IH]; intros s; [by destruct s|].
  destruct s as [|c s]; [done|]. cbn [str_take str_drop]. by rewrite app_str_cons, IH.
Qed.

Lemma peek_at_rest c k : peek_at c k = byte_at k (rest c).
Proof. apply byte_at_drop. Qed.

Lemma peek_rest c : peek c = byte_at 0 (rest c).
Proof. unfold peek. rewrite <-(Nat.add_0_r (c_pos c)). apply byte_at_drop. Qed.

Lemma rest_advance n c : rest (advance n c) = str_drop n (rest c).
Proof. unfold rest, advance. cbn. by rewrite str_drop_drop. Qed.

Lemma rest_length c : str_len (rest c) = remaining c.
Proof. apply str_len_drop. Qed.

Lemma remaining_bump c b s : rest c = String b s -> remaining c = S (remaining (bump c)).
Proof. intros Hr. rewrite <-!rest_length. unfold bump. by rewrite rest_advance, Hr. Qed.

Lemma eof_rest c : eof c = is_empty (rest c).
Proof.
  unfold eof. assert (H := rest_length c). unfold remaining in H. destruct (rest c) as [|b s]; unfold str_len in *; cbn in *.
  - apply Nat.leb_le. lia.
  - apply Nat.leb_gt. lia.
Qed.

(** ASCII and not the byte [peek] gives at the end. *)
Definition plain_byte (b : ascii) : bool := is_ascii b && negb (isb b NUL).

Lemma isb_true a b : isb a b = true -> a = b.
Proof. apply bool_decide_eq_true_1. Qed.

Lemma utf8_valid_plain b s : is_ascii b = true -> utf8_valid (String b s) = utf8_valid s.
Proof. unfold is_ascii. cbn. by intros ->. Qed.

Lemma moved_bump c : good c -> plain_byte (peek c) = true -> moved 1 c (bump c).
Proof.
  intros [Hu Hp] [Ha Hn]%andb_prop. rewrite peek_rest in *. assert (Hl := rest_length c).
  destruct (rest c) as [|b s] eqn:Hr; [by cbn in Hn|]. cbn in Ha.
  split_and!; [done| |cbn; lia]. split.
  - unfold bump. rewrite rest_advance, Hr. cbn [str_drop]. by rewrite <-(utf8_valid_plain b).
  - unfold remaining, str_len in *. cbn in *. lia.
Qed.

(** Any byte is bumped over without leaving the text, if there is one. *)
Lemma good_boundary c : good c -> is_char_boundary (c_text c) (c_pos c) = true.
Proof.
  intros [Hu Hp]. unfold is_char_boundary. assert (Hl := rest_length c). unfold remaining in Hl.
  change (byte_at (c_pos c) (c_text c)) with (peek c). rewrite peek_rest.
  destruct (rest c) as [|b s]; unfold str_len in *; cbn [String.length] in Hl.
  - assert (c_pos c = String.length (c_text c)) as -> by lia. by rewrite Nat.eqb_refl, orb_true_r.
  - rewrite (proj2 (Nat.ltb_lt _ _)) by lia. cbn [byte_at andb].
    assert (Hc : cont b = false); [|rewrite Hc; by rewrite orb_true_r].
    unfold cont. destruct (in_range 0x80 0xBF b) eqn:Hb; [|done]. apply in_range_spec in Hb. exfalso. revert Hu.
    cbn [utf8_valid]. rewrite (proj2 (Z.ltb_ge _ _)) by lia.
    assert (Hout : forall lo hi, (192 <= lo)%Z -> in_range lo hi b = false).
    { intros lo hi Hlo. destruct (in_range lo hi b) eqn:E; [|done]. apply in_range_spec in E. lia. }
    rewrite !Hout by lia. by destruct s as [|? [|? [|? ?]]].
Qed.

Lemma slice_ok k c c' : good c -> moved k c c' ->
  exists s, slice (c_text c) (c_pos c) (c_pos c') = Ok s /\ str_len s = c_pos c' - c_pos c.
Proof.
  intros Hg (Ht & Hg' & Hp). unfold slice. rewrite (good_boundary c Hg), <-Ht, (good_boundary c' Hg'), Ht.
  rewrite (proj2 (Nat.leb_le _ _)) by lia. cbn [andb]. eexists. split; [done|].
  destruct Hg' as [_ Hl]. rewrite Ht in Hl.
  assert (Hlen : forall n s, n <= str_len s -> str_len (str_take n s) = n).
  { induction n as [|n IH]; intros [|b s]; unfold str_len in *; cbn; try lia. intros H. f_equal. apply IH. lia. }
  apply Hlen. rewrite str_len_drop. lia.
Qed.

Lemma slice_spec {A} k c c' (f : string -> PResult A) Q :
  good c -> moved k c c' -> (forall s, str_len s = c_pos c' - c_pos c -> spec (f s) Q) ->
  spec (rbind f (slice (c_text c) (c_pos c) (c_pos c'))) Q.
Proof. intros Hg Hm Hf. destruct (slice_ok k c c') as (s & -> & Hs); [done..|]. by apply Hf. Qed.

(** ** Blanks, comments and words *)

Lemma bump_while_moved f : (forall b, f b = true -> plain_byte b = true) ->
  forall n c, good c -> moved 0 c (bump_while f n c).
Proof.
  intros Hf. induction n as [|n IH]; intros c Hg; [by apply moved_refl|]. cbn.
  destruct (_ && f (peek c)) eqn:Hc; [|by apply moved_refl]. apply andb_prop in Hc as [_ Hc].
  assert (Hb := moved_bump c Hg (Hf _ Hc)). apply (moved_le 0 (1 + 0)); [lia|].
  eapply moved_trans; [exact Hb|]. apply IH. eauto using moved_good.
Qed.

Lemma skip_while_moved f c :
  (forall b, f b = true -> plain_byte b = true) -> good c -> moved 0 c (skip_while f c).
Proof. intros. by apply bump_while_moved. Qed.

(** [skip_while] on the text left. *)
Fixpoint drop_while (f : ascii -> bool) (s : string) : string :=
  match s with
  | "" => ""
  | String b s' => if f b then drop_while f s' else s
  end.

Lemma rest_bump_while f n : forall c, remaining c <= n -> rest (bump_while f n c) = drop_while f (rest c).
Proof.
  induction n as [|n IH]; intros c Hn; cbn.
  - assert (Hl := rest_length c). destruct (rest c); [done|]. unfold str_len in Hl. cbn [String.length] in Hl. lia.
  - rewrite eof_rest, peek_rest. assert (Hl := rest_length c).
    destruct (rest c) as [|b s] eqn:Hr; cbn; [done|]. destruct (f b); [|done].
    rewrite IH; [|apply le_S_n; by rewrite <-(remaining_bump c b s Hr)]. unfold bump. by rewrite rest_advance, Hr.
Qed.

Definition not_NL (b : ascii) : bool := negb (isb b NL).

Lemma high_not_NL a : (byte_val a <? 0x80)%Z = false -> not_NL a = true.
Proof. intros H. unfold not_NL, isb. case_bool_decide; [subst; by vm_compute in H|done]. Qed.

Lemma in_cont lo hi b : (0x80 <= lo)%Z -> in_range lo hi b = true -> not_NL b = true.
Proof. intros Hlo H%in_range_spec. apply high_not_NL, Z.ltb_ge. lia. Qed.

Lemma cont_line b : cont b = true -> not_NL b = true.
Proof. by apply in_cont. Qed.

(** Case analysis on the next range of leading bytes. *)
Tactic Notation "lead" "as" ident(H) :=
  match goal with |- context [if in_range ?lo ?hi ?a then _ else _] => destruct (in_range lo hi a) eqn:H end.
Ltac lead := let H := fresh in lead as H; clear H.

(** The bytes of a character after the first are skipped with it. *)
Lemma utf8_drop_line n : forall s, str_len s <= n -> utf8_valid s = true -> utf8_valid (drop_while not_NL s) = true.
Proof.
  unfold str_len. induction n as [|n IH]; intros [|a s] Hn; cbn in Hn; try done; [lia|].
  cbn [utf8_valid drop_while]. destruct (byte_val a <? 0x80)%Z eqn:Ha.
  - intros Hs. destruct (not_NL a); [apply IH; [lia|done]|]. cbn. by rewrite Ha.
  - rewrite (high_not_NL a Ha). destruct s as [|b s]; [intros; discriminate|]. cbn in Hn. cbn [drop_while utf8_valid].
    lead; [intros [H1 H2]%andb_prop; rewrite cont_line by done; apply IH; [lia|done]|].
    destruct s as [|d s]; [intros; discriminate|]. cbn in Hn. cbn [drop_while utf8_valid].
    repeat (lead; [intros [[H1 H2]%andb_prop H3]%andb_prop;
      rewrite (cont_line d) by done; assert (not_NL b = true) as -> by (eapply in_cont; [|exact H1]; lia);
      apply IH; [lia|done]|]).
    destruct s as [|e s]; [intros; discriminate|]. cbn in Hn. cbn [drop_while utf8_valid].
    repeat (lead; [intros [[[H1 H2]%andb_prop H3]%andb_prop H4]%andb_prop;
      rewrite (cont_line d), (cont_line e) by done; assert (not_NL b = true) as -> by (eapply in_cont; [|exact H1]; lia);
      apply IH; [lia|done]|]).
    done.
Qed.

Lemma bump_while_pos f n : forall c, c_pos c <= str_len (c_text c) ->
  c_text (bump_while f n c) = c_text c /\ c_pos c <= c_pos (bump_while f n c) <= str_len (c_text c).
Proof.
  induction n as [|n IH]; intros c Hc; [cbn; split; [done|lia]|]. cbn.
  destruct (negb (eof c) && f (peek c)) eqn:E; [|split; [done|lia]]. apply andb_prop in E as [E _].
  apply negb_true_iff in E. unfold eof in E. apply Nat.leb_gt in E.
  destruct (IH (bump c)) as [H1 H2]; [cbn; unfold str_len in *; lia|]. cbn in *. unfold str_len in *. split; [done|lia].
Qed.

Lemma skip_line_moved c : good c -> moved 0 c (skip_while (fun b => negb (isb b NL)) c).
Proof.
  intros [Hu Hp]. destruct (bump_while_pos not_NL (remaining c) c Hp) as [Ht Hl].
  split_and!; [done| |unfold skip_while, not_NL in *; lia]. split.
  - unfold skip_while. rewrite rest_bump_while by done. by eapply utf8_drop_line.
  - unfold skip_while, not_NL in *. rewrite Ht. lia.
Qed.

Lemma isb_plain (a b : ascii) : plain_byte b = true -> isb a b = true -> plain_byte a = true.
Proof. by intros H ->%isb_true. Qed.

Lemma is_ws_plain b : is_ws b = true -> plain_byte b = true.
Proof. unfold is_ws. rewrite !orb_true_iff. intros [[[H|H]|H]|H]; by apply isb_true in H as ->. Qed.

Lemma skipws_go_moved n : forall c, good c -> moved 0 c (skipws_go n c).
Proof.
  induction n as [|n IH]; intros c Hg; [by apply moved_refl|]. cbn. destruct (is_ws (peek c)) eqn:Hw.
  - assert (Hb := moved_bump c Hg (is_ws_plain _ Hw)). apply (moved_le 0 (1 + 0)); [lia|].
    eapply moved_trans; [exact Hb|]. apply IH. eauto using moved_good.
  - destruct (isb _ _); [|by apply moved_refl].
    assert (Hb := skip_line_moved c Hg). apply (moved_trans 0 0 _ _ _ Hb), IH. eauto using moved_good.
Qed.

Lemma skipws_moved c : good c -> moved 0 c (skipws c).
Proof. apply skipws_go_moved. Qed.

Lemma skipws_good c : good c -> good (skipws c).
Proof. intros. eapply moved_good. by apply skipws_moved. Qed.

Definition is_word (w : string) : bool := str_forallb is_ascii_alphabetic w && negb (is_empty w).

Lemma lower_high b : is_ascii b = false -> to_ascii_lowercase b = b.
Proof. by ascii_cases b. Qed.

Lemma lower_ascii a : is_ascii a = true -> is_ascii (to_ascii_lowercase a) = true.
Proof. by ascii_cases a. Qed.

Lemma eq_ic_plain b a : is_ascii_alphabetic a = true -> eq_ignore_ascii_case b a = true -> is_ascii b = true.
Proof.
  unfold eq_ignore_ascii_case. intros Ha H%bool_decide_eq_true_1. destruct (is_ascii b) eqn:Hb; [done|].
  rewrite (lower_high b Hb) in H. rewrite H, lower_ascii in Hb; [done|]. clear -Ha. by ascii_cases a.
Qed.

Lemma strip_word_spec w : forall s s', str_forallb is_ascii_alphabetic w = true -> strip_word w s = Some s' ->
  s' = str_drop (str_len w) s /\ str_len w <= str_len s /\ (utf8_valid s = true -> utf8_valid s' = true).
Proof.
  induction w as [|a w IH]; cbn; intros s s'; [intros _ [= ->]; by split_and!; [|unfold str_len; cbn; lia|]|].
  intros [Ha Hw]%andb_prop. destruct s as [|b s]; [done|]. destruct (eq_ignore_ascii_case b a) eqn:Hb; [|done].
  intros H. destruct (IH s s' Hw H) as (-> & Hl & Hu). split_and!; [done|unfold str_len in *; cbn; lia|].
  rewrite utf8_valid_plain; [done|]. by eapply eq_ic_plain.
Qed.

Lemma kw_moved w c c' : is_word w = true -> good c -> kw w c = Some c' -> moved 1 c c'.
Proof.
  unfold is_word, kw. intros [Hw Hne]%andb_prop [Hu Hp]. destruct (strip_word w (rest c)) as [s|] eqn:Hs; [|done].
  destruct (strip_word_spec _ _ _ Hw Hs) as (-> & Hl & Hv). destruct (is_name_byte _); [done|]. intros [= <-].
  rewrite rest_length in Hl. unfold remaining in Hl.
  split_and!; [done|split; [rewrite rest_advance; auto|cbn; lia]|].
  cbn. destruct w; [done|]. unfold str_len. cbn. lia.
Qed.

(** ** Proof steps

    [mv] closes the goals about how far a cursor moved; [rd] runs one step of a
    reader, using the lemmas of the database [reads]. *)

Create HintDb reads.

Ltac mv :=
  cbn [fst snd] in *; unfold reads in *; cbn [spec fst snd] in *;
  repeat match goal with H : moved _ ?a ?b |- _ =>
    assert (remaining b <= remaining a) by (apply moved_remaining in H; lia);
    pose proof (moved_remaining _ _ _ H); destruct H as (? & ? & ?) end;
  first [assumption | split_and!; [congruence | assumption | lia] | lia | congruence].

Ltac ws c := let H := fresh "Hws" in
  assert (H : moved 0 c (skipws c)) by (apply skipws_moved; mv);
  let c' := fresh "c" in set (c' := skipws c) in *; clearbody c'.

Ltac rd_lets := repeat match goal with |- spec (let '(a, b) := ?p in _) _ => destruct p as [a b] eqn:? end.

Ltac rd :=
  cbv beta iota zeta; unfold reads; rd_lets;
  match goal with
  | |- context [skipws ?c] => ws c
  | |- spec (err _ _) _ => apply spec_err
  | |- spec (Ok _) _ => cbn [spec fst snd]; mv
  | |- spec (rbind _ (rbind _ _)) _ => fail 1
  | |- spec (rbind _ (if ?b then _ else _)) _ => let H := fresh "Hb" in destruct b eqn:H
  | |- spec (rbind _ (Ok _)) _ => cbn [rbind]
  | |- spec (rbind _ (err _ _)) _ => eapply spec_bind; [apply spec_err with (Q := fun _ => False)|done]
  | |- spec (rbind _ _) _ => eapply reads_bind; [solve [eauto with reads] | intros ? ? ?]
  | |- spec (rbind _ _) _ => eapply spec_bind; [solve [eauto with reads] | intros ? ?]
  | |- spec (if ?b then _ else _) _ => let H := fresh "Hb" in destruct b eqn:H
  | |- spec (match kw ?w ?c with _ => _ end) _ =>
      let H := fresh "Hkw" in destruct (kw w c) eqn:H; [apply kw_moved in H; [|reflexivity|mv]|clear H]
  end.

(** The rest of a reader, [j] bytes further on. *)
Ltac go j lem := eapply (reads_via j); [|eapply lem; mv|cbn; lia]; mv.

#[export] Hint Extern 1 (good _) => mv : reads.
#[export] Hint Extern 1 (is_true _) => reflexivity : reads.

Lemma bump_if c b : good c -> isb (peek c) b = true -> plain_byte b = true -> moved 1 c (bump c).
Proof. intros Hg H%isb_true Hb. apply moved_bump; [done|]. by rewrite H. Qed.

Lemma expect_spec b msg c : plain_byte b = true -> good c -> spec (expect b msg c) (moved 1 c).
Proof.
  intros Hb Hg. unfold expect. destruct (isb (peek c) b) eqn:H; [|apply spec_err]. by apply (bump_if c b).
Qed.
#[export] Hint Extern 1 (spec (expect _ _ _) _) => (apply expect_spec; [reflexivity|]) : reads.

Lemma take_while_reads f c :
  (forall b, f b = true -> plain_byte b = true) -> good c -> reads 0 c (take_while f c).
Proof.
  intros Hf Hg. unfold take_while, reads. assert (Hm := skip_while_moved f c Hf Hg).
  eapply slice_spec; [done..|]. intros s _. mv.
Qed.

Lemma is_name_byte_plain b : is_name_byte b = true -> plain_byte b = true.
Proof. by ascii_cases b. Qed.
Lemma pname_byte_plain b : pname_byte b = true -> plain_byte b = true.
Proof. by ascii_cases b. Qed.
Lemma digit_plain b : is_ascii_digit b = true -> plain_byte b = true.
Proof. by ascii_cases b. Qed.
Lemma tag_byte_plain b : is_ascii_alphanumeric b || isb b "-"%char = true -> plain_byte b = true.
Proof. by ascii_cases b. Qed.
Lemma hex_plain b d : hex_digit b = Some d -> plain_byte b = true.
Proof. by ascii_cases b. Qed.

Lemma take_tag_reads c : good c ->
  reads 0 c (take_while (fun b => is_ascii_alphanumeric b || isb b "-"%char) c).
Proof. intros. apply take_while_reads; [apply tag_byte_plain|done]. Qed.

#[export] Hint Resolve take_tag_reads take_while_reads is_name_byte_plain pname_byte_plain digit_plain tag_byte_plain : reads.

Lemma hex_loop_reads msg n : forall v c, good c -> reads 0 c (hex_loop msg n v c).
Proof.
  induction n as [|n IH]; intros v c Hg; [by apply moved_refl|]. cbn.
  destruct (hex_digit (peek c)) as [d|] eqn:Hd; [|apply spec_err].
  assert (Hm := moved_bump c Hg (hex_plain _ _ Hd)). apply (reads_le 0 (1 + 0)); [lia|].
  eapply reads_from; [exact Hm|]. apply IH. mv.
Qed.
#[export] Hint Resolve hex_loop_reads : reads.

Lemma read_escape_reads msg n c : good c -> reads 0 c (read_escape msg n c).
Proof.
  intros Hg. unfold read_escape. rd. cbv beta iota. destruct (char_from_u32 _); rd.
Qed.
#[export] Hint Resolve read_escape_reads : reads.

(** A character is as long as its first byte says. *)
Lemma utf8_len_spec b s : utf8_valid (String b s) = true ->
  utf8_valid (str_drop (Nat.max 1 (utf8_len b)) (String b s)) = true /\
  Nat.max 1 (utf8_len b) <= str_len (String b s).
Proof.
  assert (Hlen : forall lo hi n, (forall x, in_range lo hi x = true -> utf8_len x = n) ->
            in_range lo hi b = true -> utf8_len b = n) by auto.
  cbn [utf8_valid]. unfold str_len. destruct (byte_val b <? 0x80)%Z eqn:Hb.
  { unfold utf8_len. rewrite Hb. cbn. intros; split; [done|lia]. }
  destruct s as [|b1 s]; [intros; discriminate|]. cbn [utf8_valid].
  destruct (in_range 0xC2 0xDF b) eqn:H2.
  { intros [_ Hs]%andb_prop. rewrite (Hlen _ _ 2) with (2 := H2) by (intros x; by ascii_cases x).
    cbn. split; [done|lia]. }
  destruct s as [|b2 s]; [intros; discriminate|]. cbn [utf8_valid].
  repeat (lead as Hl; [intros [_ Hs]%andb_prop; rewrite (Hlen _ _ 3) with (2 := Hl) by (intros x; by ascii_cases x);
    cbn; split; [done|lia]|clear Hl]).
  destruct s as [|b3 s]; [intros; discriminate|]. cbn [utf8_valid].
  repeat (lead as Hl; [intros [_ Hs]%andb_prop; rewrite (Hlen _ _ 4) with (2 := Hl) by (intros x; by ascii_cases x);
    cbn; split; [done|lia]|clear Hl]).
  done.
Qed.

Lemma moved_char c : good c -> eof c = false -> moved 1 c (advance (Nat.max 1 (utf8_len (peek c))) c).
Proof.
  intros [Hu Hp]. rewrite eof_rest, peek_rest. assert (Hl := rest_length c). unfold remaining in Hl.
  destruct (rest c) as [|b s] eqn:Hr; [done|]. intros _. cbn [byte_at].
  destruct (utf8_len_spec b s Hu) as [Hv Hle]. split_and!; [done| |cbn; lia].
  split; [by rewrite rest_advance, Hr|]. unfold str_len, advance in *. cbn [c_pos c_text]. lia.
Qed.

Lemma copy_char_reads c : good c -> eof c = false -> reads 1 c (copy_char c).
Proof.
  intros Hg He. unfold copy_char, reads. assert (Hm := moved_char c Hg He).
  apply (slice_spec 1 c (advance _ c)); [done..|]. intros s _. mv.
Qed.
#[export] Hint Resolve copy_char_reads : reads.

(** ** IRIs, names and strings *)

Lemma iriref_loop_reads n : forall c out, good c -> remaining c < n -> reads 0 c (iriref_loop n c out).
Proof.
  induction n as [|n IH]; intros c out Hg Hn; [lia|]. cbn [iriref_loop]. rd; [rd|]. rd.
  - assert (moved 1 c (bump c)) by (by eapply bump_if). rd.
  - rd.
    + assert (moved 1 c (bump c)) by (by eapply bump_if).
      rd; [|rd]. assert (moved 1 (bump c) (bump (bump c))).
      { apply moved_bump; [mv|]. apply orb_prop in Hb2 as [Hu|Hu]; by apply isb_true in Hu as ->. }
      rd. go 0 IH.
    + rd. go 0 IH.
Qed.

Lemma read_iriref_reads c : good c -> isb (peek c) "<"%char = true -> reads 1 c (read_iriref c).
Proof.
  intros Hg Hb. assert (moved 1 c (bump c)) by (by eapply bump_if). unfold read_iriref.
  go 1 iriref_loop_reads.
Qed.
#[export] Hint Resolve read_iriref_reads : reads.

Lemma local_loop_moved n : forall c, good c -> moved 0 c (local_loop n c).
Proof.
  induction n as [|n IH]; intros c Hg; [by apply moved_refl|]. cbn.
  destruct (local_name_byte c) eqn:Hl; [|by apply moved_refl].
  assert (Hp : plain_byte (peek c) = true).
  { clear -Hl. unfold local_name_byte in Hl. destruct (pname_byte (peek_at c 1)); revert Hl;
      generalize (peek c); intros b; by ascii_cases b. }
  assert (Hb := moved_bump c Hg Hp). apply (moved_le 0 (1 + 0)); [lia|].
  eapply moved_trans; [exact Hb|]. apply IH. mv.
Qed.

Lemma read_pname_reads prefixes c : good c -> reads 1 c (read_pname prefixes c).
Proof.
  intros Hg. unfold read_pname. assert (Hm := skip_while_moved pname_byte c pname_byte_plain Hg).
  unfold reads. eapply slice_spec; [done..|]. intros prefix _. rd.
  assert (Hl := local_loop_moved (remaining a) a ltac:(mv)).
  assert (c_text a = c_text c) as <- by mv.
  eapply slice_spec; [mv|done|]. intros local _. destruct (List.find _ prefixes) as [[]|]; rd.
Qed.
#[export] Hint Resolve read_pname_reads : reads.

Lemma simple_escape_plain e ch : simple_escape e = Some ch -> plain_byte e = true.
Proof. by ascii_cases e. Qed.

Lemma string_loop_reads quote long n : plain_byte quote = true ->
  forall c out, good c -> remaining c < n -> reads 0 c (string_loop quote long n c out).
Proof.
  intros Hq. induction n as [|n IH]; intros c out Hg Hn; [lia|]. cbn [string_loop]. rd; [rd|]. rd.
  - assert (H1 : moved 1 c (bump c)) by (by eapply bump_if). destruct long; [|rd]. rd; [|go 1 IH].
    apply andb_prop in Hb1 as [Hq1 Hq2].
    assert (H2 : moved 1 (bump c) (bump (bump c))).
    { eapply bump_if; [mv| |exact Hq]. unfold peek_at in Hq1. exact Hq1. }
    assert (H3 : moved 1 (bump (bump c)) (bump (bump (bump c)))).
    { eapply bump_if; [mv| |exact Hq]. unfold peek, bump, advance. cbn. by rewrite <-Nat.add_assoc. }
    rd.
  - rd; [rd|]. rd.
    + assert (H1 : moved 1 c (bump c)) by (by eapply bump_if).
      destruct (simple_escape (peek (bump c))) as [ch|] eqn:He.
      * assert (H2 := moved_bump (bump c) ltac:(mv) (simple_escape_plain _ _ He)). go 1 IH.
      * rd; [|rd]. assert (H2 : moved 1 (bump c) (bump (bump c))).
        { apply moved_bump; [mv|]. apply orb_prop in Hb3 as [Hu|Hu]; by apply isb_true in Hu as ->. }
        rd. go 0 IH.
    + rd. go 0 IH.
Qed.

Lemma read_string_reads c : good c -> plain_byte (peek c) = true -> reads 1 c (read_string c).
Proof.
  intros Hg Hq. unfold read_string. assert (H1 := moved_bump c Hg Hq).
  destruct (isb (peek_at c 1) (peek c) && isb (peek_at c 2) (peek c)) eqn:Hlong; [|go 1 string_loop_reads].
  apply andb_prop in Hlong as [Hq1 Hq2].
  assert (H2 : moved 1 (bump c) (bump (bump c))) by (eapply bump_if; [mv|exact Hq1|exact Hq]).
  assert (H3 : moved 1 (bump (bump c)) (bump (bump (bump c)))).
  { eapply bump_if; [mv| |exact Hq]. unfold peek, bump, advance. cbn. rewrite <-Nat.add_assoc. exact Hq2. }
  go 1 string_loop_reads.
Qed.
#[export] Hint Resolve read_string_reads : reads.

(** ** Numbers and terms *)

Lemma skip_digits_moved c : good c -> moved 0 c (skip_digits c).
Proof. intros. apply skip_while_moved; [apply digit_plain|done]. Qed.

Lemma eof_peek c : eof c = true -> peek c = NUL.
Proof. rewrite eof_rest, peek_rest. by destruct (rest c). Qed.

Lemma skip_digits_some c : good c -> is_ascii_digit (peek c) = true -> moved 1 c (skip_digits c).
Proof.
  intros Hg Hd. unfold skip_digits, skip_while.
  destruct (eof c) eqn:He; [by rewrite eof_peek in Hd|]. assert (Hr := eof_rest c). rewrite He in Hr.
  destruct (rest c) as [|b s] eqn:Hc; [done|]. rewrite (remaining_bump c b s Hc). cbn [bump_while].
  rewrite He, Hd. cbn [negb andb]. assert (H1 := moved_bump c Hg (digit_plain _ Hd)).
  eapply (moved_trans 1 0); [exact H1|]. apply bump_while_moved; [apply digit_plain|mv].
Qed.

Lemma skip_digits_none c : is_ascii_digit (peek c) = false -> skip_digits c = c.
Proof.
  intros Hd. unfold skip_digits, skip_while. destruct (remaining c); [done|]. cbn. by rewrite Hd, andb_false_r.
Qed.

Lemma moved_advance2 c : good c -> plain_byte (peek c) = true -> plain_byte (peek_at c 1) = true ->
  moved 2 c (advance 2 c).
Proof.
  intros Hg H0 H1. assert (Hb := moved_bump c Hg H0).
  assert (H2 : moved 1 (bump c) (bump (bump c))) by (apply moved_bump; [mv|exact H1]).
  replace (advance 2 c) with (bump (bump c)); [mv|]. unfold bump, advance. cbn. f_equal. lia.
Qed.

Lemma read_number_reads c : good c -> starts_number c = true -> reads 1 c (read_number c).
Proof.
  intros Hg Hs. unfold read_number. cbv zeta.
  set (sign := isb (peek c) "+"%char || isb (peek c) "-"%char).
  set (c1 := if sign then bump c else c).
  assert (Hc1 : moved 0 c c1 /\ (sign = true -> moved 1 c c1)).
  { unfold c1. destruct sign eqn:Hsign; [|split; [mv|done]].
    assert (moved 1 c (bump c)); [|split; [mv|intros; mv]]. apply moved_bump; [done|].
    apply orb_prop in Hsign as [H|H]; by apply isb_true in H as ->. }
  destruct Hc1 as [H1 H1'].
  set (c2 := skip_digits c1). assert (Hc2 : moved 0 c1 c2) by (apply skip_digits_moved; mv).
  set (dec := isb (peek c2) "."%char && is_ascii_digit (peek_at c2 1)).
  set (c3 := if dec then skip_digits (bump c2) else c2).
  assert (Hc3 : moved 0 c2 c3 /\ (dec = true -> moved 1 c2 c3)).
  { unfold c3. destruct dec eqn:Hdec; [|split; [mv|done]]. apply andb_prop in Hdec as [Hdot _].
    assert (moved 1 c2 (bump c2)) by (by eapply bump_if; [mv|..]).
    assert (moved 0 (bump c2) (skip_digits (bump c2))) by (apply skip_digits_moved; mv). split; [mv|intros; mv]. }
  assert (H3 : moved 1 c c3).
  { destruct Hc3 as [H3 H3']. destruct sign eqn:Hsign; [specialize (H1' eq_refl); mv|].
    unfold starts_number in Hs. fold sign in Hs. rewrite Hsign in Hs. cbn [andb] in Hs. rewrite orb_false_r in Hs.
    apply orb_prop in Hs as [Hd|[Hdot Hd]%andb_prop].
    - assert (moved 1 c1 c2) by (apply skip_digits_some; [mv|exact Hd]). mv.
    - assert (c2 = c) as E.
      { unfold c2. rewrite skip_digits_none; [done|]. unfold c1. by apply isb_true in Hdot as ->. }
      assert (moved 1 c2 c3); [|mv]. apply H3'. unfold dec. by rewrite E, Hdot, Hd. }
  clear Hc3. set (off := if isb (peek_at c3 1) "+"%char || isb (peek_at c3 1) "-"%char then 2 else 1).
  set (dbl := (isb (peek c3) "e"%char || isb (peek c3) "E"%char) && is_ascii_digit (peek_at c3 off)).
  set (c4 := if dbl then skip_digits (advance off c3) else c3).
  assert (H4 : moved 0 c3 c4).
  { unfold c4. destruct dbl eqn:Hdbl; [|mv]. apply andb_prop in Hdbl as [He _].
    assert (Hp : plain_byte (peek c3) = true) by (apply orb_prop in He as [H|H]; by apply isb_true in H as ->).
    assert (Hadv : moved 1 c3 (advance off c3)).
    { unfold off. destruct (isb (peek_at c3 1) "+"%char || _) eqn:Ho; [|apply moved_bump; [mv|done]].
      apply (moved_le 1 2); [lia|]. apply moved_advance2; [mv|done|].
      apply orb_prop in Ho as [H|H]; by apply isb_true in H as ->. }
    assert (moved 0 (advance off c3) (skip_digits (advance off c3))) by (apply skip_digits_moved; mv). mv. }
  clearbody c4. assert (moved 1 c c4) by mv. unfold reads. eapply slice_spec; [done..|]. intros lex _. cbn. done.
Qed.
#[export] Hint Resolve read_number_reads : reads.

Lemma literal_suffix_reads prefixes base lex c : good c -> reads 0 c (literal_suffix prefixes base lex c).
Proof.
  intros Hg. unfold literal_suffix. rd.
  - assert (moved 1 c (bump c)) by (by eapply bump_if). rd. rd; rd.
  - rd; [|rd]. apply andb_prop in Hb0 as [H1 H2].
    assert (moved 1 c (bump c)) by (by eapply bump_if).
    assert (moved 1 (bump c) (bump (bump c))) by (eapply bump_if; [mv|exact H2|done]).
    rd. apply reads_bind with (k := 0) (c := c0); [|intros dt c2 ?; rd]. rd; [rd; rd|].
    apply (reads_le 0 1); [lia|]. apply read_pname_reads. mv.
Qed.
#[export] Hint Resolve literal_suffix_reads : reads.

(** Progress when there is a term. *)
Definition reads_opt {A} (c : Cur) (r : PResult (option A * Cur)) : Prop :=
  spec r (fun p => moved (match fst p with Some _ => 1 | None => 0 end) c (snd p)).

Lemma parse_term_common_reads prefixes base c : good c -> reads_opt c (parse_term_common prefixes base c).
Proof.
  intros Hg. unfold parse_term_common, reads_opt. ws c. rd; [rd; rd|]. rd.
  { assert (plain_byte (peek c0) = true) by (apply orb_prop in Hb0 as [H|H]; by apply isb_true in H as ->).
    rd. rd. rd. }
  rd; [rd; rd|]. rd; [rd|]. rd; [rd|]. rd; [|rd]. rd; [rd|]. rd. rd.
Qed.
