(* ===== verification/SparqlParse.v ===== *)
(** * SparqlParse: the SPARQL parser

    Models [Parser] of [crates/sparql/src/parser.rs], a recursive descent over
    the cursor of [SparqlCursor]. The methods change only the cursor of [self]
    except in [prologue], so the prefixes and the base are parameters of the
    rest. The recursion of the code is on its stack: here a depth bound, which
    the length of the text always meets ([SparqlParseSafe]). *)

From S2P Require Import Prelude RustStd SparqlTerm SparqlCursor.

Local Open Scope nat_scope.

Section parser.
Variable prefixes : prefixes_t.
Variable base : option string.

Definition varname (c : Cur) : PResult (string * Cur) :=
  let? (name, c) := take_while is_name_byte (bump c) in
  if is_empty name then err c "empty variable name" else Ok (name, c).

Definition at_var (c : Cur) : bool := isb (peek c) "?"%char || isb (peek c) "$"%char.

Definition BN : string := "~bn~".

Definition is_path_operator (b : ascii) : bool :=
  isb b "+"%char || isb b "*"%char || isb b "/"%char || isb b "^"%char.

(** The part of [qt] for terms: a subject is no literal, a predicate is an IRI
    with no path operator glued to it. *)
Definition qt_term (n : nat) (c : Cur) : PResult (Slot * Cur) :=
  let? (t, c) := parse_term_common prefixes base c in
  match t with
  | None => err c "expected a term"
  | Some t =>
      if (n =? 0) && is_literal t then err c "literal cannot be a subject"
      else if (n =? 1) && negb (is_iri t) then err c "predicate must be an IRI or variable"
      else if (n =? 1) && is_path_operator (peek c) then
        err c "property paths are not supported in this subset"
      else Ok (Ground t, c)
  end.

(** [pos]: 0 = subject, 1 = predicate, 2 = object. *)
Definition qt (n : nat) (c : Cur) : PResult (Slot * Cur) :=
  let c := skipws c in
  let b := peek c in
  if at_var c then
    let? (v, c) := varname c in Ok (Var v, c)
  else if isb b "_"%char && isb (peek_at c 1) ":"%char then
    let? (label, c) := take_while is_name_byte (bump (bump c)) in
    if is_empty label then err c "empty blank node label" else Ok (Var (BN +:+ label), c)
  else if n =? 1 then
    if isb b "^"%char then err c "property paths are not supported in this subset"
    else match kw "a" c with
         | Some c => Ok (Ground (iri RDF_TYPE), c)
         | None => qt_term n c
         end
  else qt_term n c.

(** ** Triples *)

Fixpoint objects_loop (subj pred : Slot) (n : nat) (l : list TriplePattern) (c : Cur) :
    PResult (list TriplePattern * Cur) :=
  match n with
  | O => Err PFuel
  | S n' =>
      let? (obj, c) := qt 2 c in
      let l := l ++ [mkTriplePattern subj pred obj] in
      let c := skipws c in
      if isb (peek c) ","%char then objects_loop subj pred n' l (bump c) else Ok (l, c)
  end.

Fixpoint semicolons (n : nat) (c : Cur) : Cur :=
  match n with
  | O => c
  | S n' => if isb (peek c) ";"%char then semicolons n' (skipws (bump c)) else c
  end.

Fixpoint predicates_loop (subj : Slot) (n : nat) (l : list TriplePattern) (c : Cur) :
    PResult (list TriplePattern * Cur) :=
  match n with
  | O => Err PFuel
  | S n' =>
      let? (pred, c) := qt 1 c in
      let? (l, c) := objects_loop subj pred (S (remaining c)) l c in
      let c := skipws c in
      if isb (peek c) ";"%char then
        let c := skipws (bump c) in
        let c := semicolons (remaining c) c in
        if isb (peek c) "."%char || isb (peek c) "}"%char || isb (peek c) NUL then Ok (l, c)
        else predicates_loop subj n' l c
      else Ok (l, c)
  end.

Definition triples_block (l : list TriplePattern) (c : Cur) : PResult (list TriplePattern * Cur) :=
  let? (subj, c) := qt 0 c in
  predicates_loop subj (S (remaining c)) l c.

(** ** Filters *)

Definition plain_val (func : Func) (var : option string) (t : option Term) : Expr := EVal (mkVal func var t).

Definition builtin_func (c : Cur) : option (Func * Cur) :=
  match kw "STR" c with
  | Some c => Some (FStr, c)
  | None =>
  match kw "LANG" c with
  | Some c => Some (FLang, c)
  | None =>
  match kw "DATATYPE" c with
  | Some c => Some (FDatatype, c)
  | None => None
  end
  end
  end.

Section expressions.
Variable primary : Cur -> PResult (Expr * Cur).

Definition unary (c : Cur) : PResult (Expr * Cur) :=
  let c := skipws c in
  match builtin_func c with
  | Some (func, c) =>
      let? c := expect "("%char "expected '(' after builtin" (skipws c) in
      let c := skipws c in
      if negb (at_var c) then err c "str/lang/datatype take a variable"
      else
        let? (var, c) := varname c in
        let? c := expect ")"%char "expected ')' after builtin argument" (skipws c) in
        Ok (plain_val func (Some var) None, c)
  | None => primary c
  end.

Definition rel_op (c : Cur) : option (CmpOp * Cur) :=
  let b := peek c in
  let eq1 := isb (peek_at c 1) "="%char in
  if isb b "!"%char && eq1 then Some (CNe, bump (bump c))
  else if isb b "<"%char && eq1 then Some (CLe, bump (bump c))
  else if isb b ">"%char && eq1 then Some (CGe, bump (bump c))
  else if isb b "="%char then Some (CEq, bump c)
  else if isb b "<"%char then Some (CLt, bump c)
  else if isb b ">"%char then Some (CGt, bump c)
  else None.

Definition is_val (e : Expr) : bool := match e with EVal _ => true | _ => false end.

Definition rel (c : Cur) : PResult (Expr * Cur) :=
  let? (a, c) := unary c in
  let c := skipws c in
  match rel_op c with
  | None => Ok (a, c)
  | Some (op, c) =>
      let? (b, c) := unary c in
      if negb (is_val a) || negb (is_val b) then err c "unsupported comparison operand"
      else Ok (ECmp op a b, c)
  end.

(** The loops of [and_expr] and [or_expr]: operands separated by a doubled
    byte, associated to the left. *)
Fixpoint chain_loop (operand : Cur -> PResult (Expr * Cur)) (sep : ascii) (mk : Expr -> Expr -> Expr)
    (n : nat) (a : Expr) (c : Cur) : PResult (Expr * Cur) :=
  match n with
  | O => Err PFuel
  | S n' =>
      let c := skipws c in
      if isb (peek c) sep && isb (peek_at c 1) sep then
        let? (b, c) := operand (bump (bump c)) in
        chain_loop operand sep mk n' (mk a b) c
      else Ok (a, c)
  end.

Definition and_expr (c : Cur) : PResult (Expr * Cur) :=
  let? (a, c) := rel c in
  chain_loop rel "&"%char EAnd (S (remaining c)) a c.

Definition or_expr (c : Cur) : PResult (Expr * Cur) :=
  let? (a, c) := and_expr c in
  chain_loop and_expr "|"%char EOr (S (remaining c)) a c.

(** After [BOUND]. *)
Definition bound_call (c : Cur) : PResult (Expr * Cur) :=
  let? c := expect "("%char "expected '(' after BOUND" (skipws c) in
  let c := skipws c in
  if negb (at_var c) then err c "BOUND takes a variable"
  else
    let? (var, c) := varname c in
    let? c := expect ")"%char "expected ')' after BOUND variable" (skipws c) in
    Ok (EBound var, c).

(** After [REGEX]. *)
Definition regex_call (c : Cur) : PResult (Expr * Cur) :=
  let? c := expect "("%char "expected '(' after REGEX" (skipws c) in
  let? (text, c) := unary c in
  let? c := expect ","%char "REGEX needs a pattern argument" (skipws c) in
  let? (pattern, c) := unary c in
  let c := skipws c in
  let? (flags, c) := if isb (peek c) ","%char
                     then let? (f, c) := unary (bump c) in Ok (Some f, skipws c)
                     else Ok (None, c) in
  let? c := expect ")"%char "expected ')' after REGEX" c in
  Ok (ERegex text pattern flags, c).

(** One level of [primary]. *)
Definition primary_step (c : Cur) : PResult (Expr * Cur) :=
  let c := skipws c in
  let b := peek c in
  if isb b "("%char then
    let? (e, c) := or_expr (bump c) in
    let? c := expect ")"%char "expected ')'" (skipws c) in
    Ok (e, c)
  else if isb b "!"%char && negb (isb (peek_at c 1) "="%char) then
    let? (inner, c) := primary (bump c) in
    Ok (ENot inner, c)
  else if at_var c then
    let? (var, c) := varname c in
    Ok (plain_val FNone (Some var) None, c)
  else match kw "BOUND" c with
  | Some c => bound_call c
  | None =>
  match kw "REGEX" c with
  | Some c => regex_call c
  | None =>
      let? (t, c) := parse_term_common prefixes base c in
      match t with
      | Some t => Ok (plain_val FNone None (Some t), c)
      | None => err c "expected expression"
      end
  end
  end.

End expressions.

Fixpoint primary (n : nat) (c : Cur) : PResult (Expr * Cur) :=
  match n with
  | O => Err PFuel
  | S n' => primary_step (primary n') c
  end.

(** A whole expression. *)
Definition expression (c : Cur) : PResult (Expr * Cur) := or_expr (primary (S (remaining c))) c.

(** ** Groups *)

Definition kw_any (words : list string) (c : Cur) : option Cur :=
  foldr (fun w r => match kw w c with Some c => Some c | None => r end) None words.

Definition unsupported : list string := ["GRAPH"; "MINUS"; "BIND"; "VALUES"; "SERVICE"].

Section groups.
Variable group : Cur -> PResult (Group * Cur).

(** [{ A } UNION { B } UNION ...], the cursor at an opening brace. *)
Fixpoint union_loop (n : nat) (branches : list Group) (c : Cur) : PResult (list Group * Cur) :=
  match n with
  | O => Err PFuel
  | S n' =>
      match kw "SELECT" (skipws (bump c)) with
      | Some c => err c "subqueries are not supported in this subset"
      | None =>
          let? (br, c) := group c in
          let branches := branches ++ [br] in
          let c := skipws c in
          match kw "UNION" c with
          | Some c =>
              let c := skipws c in
              if isb (peek c) "{"%char then union_loop n' branches c
              else err c "expected '{' after UNION"
          | None => Ok (branches, c)
          end
      end
  end.

Fixpoint group_loop (n : nat) (g : Group) (c : Cur) : PResult (Group * Cur) :=
  match n with
  | O => Err PFuel
  | S n' =>
      let c := skipws c in
      if eof c then err c "unterminated group pattern"
      else if isb (peek c) "}"%char then Ok (g, bump c)
      else if isb (peek c) "."%char then group_loop n' g (bump c)
      else match kw "OPTIONAL" c with
      | Some c =>
          let? (ng, c) := group c in
          group_loop n' (mkGroup (g_triples g) (g_filters g) (g_optionals g ++ [ng]) (g_unions g)) c
      | None =>
      match kw "FILTER" c with
      | Some c =>
          let? (e, c) := expression c in
          group_loop n' (mkGroup (g_triples g) (g_filters g ++ [e]) (g_optionals g) (g_unions g)) c
      | None =>
      if isb (peek c) "{"%char then
        let? (branches, c) := union_loop (S (remaining c)) [] c in
        group_loop n' (mkGroup (g_triples g) (g_filters g) (g_optionals g) (g_unions g ++ [branches])) c
      else match kw_any unsupported c with
      | Some c => err c "unsupported SPARQL feature in this subset (GRAPH/MINUS/BIND/VALUES/SERVICE)"
      | None =>
          let? (triples, c) := triples_block (g_triples g) c in
          group_loop n' (mkGroup triples (g_filters g) (g_optionals g) (g_unions g)) c
      end
      end
      end
  end.

End groups.

Definition Group_default : Group := mkGroup [] [] [] [].

Fixpoint group_at (n : nat) (c : Cur) : PResult (Group * Cur) :=
  match n with
  | O => Err PFuel
  | S n' =>
      let? c := expect "{"%char "expected '{'" (skipws c) in
      group_loop (group_at n') (S (remaining c)) Group_default c
  end.

Definition group (c : Cur) : PResult (Group * Cur) := group_at (S (remaining c)) c.

(** ** Solution modifiers *)

(** [digits.parse().unwrap_or(0)]: a number too large for [i64] reads as 0. *)
Definition int (c : Cur) : PResult (Z * Cur) :=
  let? (digits, c) := take_while is_ascii_digit (skipws c) in
  if is_empty digits then err c "expected an integer"
  else Ok (match parse_i64 digits with Ok z => z | Err _ => 0%Z end, c).

Definition agg_name (c : Cur) : option (Agg * Cur) :=
  foldr (fun '(w, a) r => match kw w c with Some c => Some (a, c) | None => r end) None
    [("COUNT", ACount); ("SUM", ASum); ("MIN", AMin); ("MAX", AMax); ("AVG", AAvg)].

(** What an aggregate is over: star, or a variable. *)
Definition agg_arg (agg : Agg) (c : Cur) : PResult ((bool * option string) * Cur) :=
  if isb (peek c) "*"%char then
    if bool_decide (agg = ACount) then Ok ((true, None), bump c) else err c "'*' is only valid in COUNT(*)"
  else if at_var c then
    let? (v, c) := varname c in Ok ((false, Some v), c)
  else err c "expected a variable or '*' inside the aggregate".

(** Cursor at the opening parenthesis. *)
Definition agg_item (c : Cur) : PResult (SelItem * Cur) :=
  let c := skipws (bump c) in
  match agg_name c with
  | None => err c "expected an aggregate (COUNT/SUM/MIN/MAX/AVG) after '('"
  | Some (agg, c) =>
      let? c := expect "("%char "expected '(' after aggregate name" (skipws c) in
      let c := skipws c in
      let '(distinct, c) := match kw "DISTINCT" c with
                            | Some c => (true, skipws c)
                            | None => (false, c)
                            end in
      let? (arg, c) := agg_arg agg c in
      let '(star, var) := arg in
      let? c := expect ")"%char "expected ')'" (skipws c) in
      let c := skipws c in
      match kw "AS" c with
      | None => err c "aggregate needs an alias: (COUNT(?x) AS ?n)"
      | Some c =>
          let c := skipws c in
          if negb (at_var c) then err c "expected ?alias after AS"
          else
            let? (alias, c) := varname c in
            let? c := expect ")"%char "expected ')' to close the aggregate item" (skipws c) in
            Ok (mkSelItem agg distinct star var alias, c)
      end
  end.

Definition with_group_by (q : Query) (l : list string) : Query :=
  mkQuery (q_form q) (q_distinct q) (q_star q) (q_sel q) l (q_template q) (q_pattern q) (q_order q)
    (q_limit q) (q_offset q) (q_prefixes q) (q_base q).
Definition with_order (q : Query) (l : list OrdKey) : Query :=
  mkQuery (q_form q) (q_distinct q) (q_star q) (q_sel q) (q_group_by q) (q_template q) (q_pattern q) l
    (q_limit q) (q_offset q) (q_prefixes q) (q_base q).
Definition with_limit (q : Query) (n : Z) : Query :=
  mkQuery (q_form q) (q_distinct q) (q_star q) (q_sel q) (q_group_by q) (q_template q) (q_pattern q) (q_order q)
    n (q_offset q) (q_prefixes q) (q_base q).
Definition with_offset (q : Query) (n : Z) : Query :=
  mkQuery (q_form q) (q_distinct q) (q_star q) (q_sel q) (q_group_by q) (q_template q) (q_pattern q) (q_order q)
    (q_limit q) n (q_prefixes q) (q_base q).

Fixpoint group_by_loop (n : nat) (l : list string) (c : Cur) : PResult (list string * Cur) :=
  match n with
  | O => Err PFuel
  | S n' =>
      let c := skipws c in
      if negb (at_var c) then Ok (l, c)
      else let? (v, c) := varname c in group_by_loop n' (l ++ [v]) c
  end.

(** [ASC(?v)] and [DESC(?v)] after their keyword. *)
Definition order_key (c : Cur) : PResult (string * Cur) :=
  let? c := expect "("%char "expected '(' after ASC/DESC" (skipws c) in
  let c := skipws c in
  if negb (at_var c) then err c "expected variable in ORDER BY"
  else
    let? (v, c) := varname c in
    let? c := expect ")"%char "expected ')'" (skipws c) in
    Ok (v, c).

Fixpoint order_by_loop (n : nat) (l : list OrdKey) (c : Cur) : PResult (list OrdKey * Cur) :=
  match n with
  | O => Err PFuel
  | S n' =>
      let c := skipws c in
      match kw "ASC" c with
      | Some c => let? (v, c) := order_key c in order_by_loop n' (l ++ [mkOrdKey v false]) c
      | None =>
      match kw "DESC" c with
      | Some c => let? (v, c) := order_key c in order_by_loop n' (l ++ [mkOrdKey v true]) c
      | None =>
          if at_var c then let? (v, c) := varname c in order_by_loop n' (l ++ [mkOrdKey v false]) c
          else Ok (l, c)
      end
      end
  end.

(** [BY] after [GROUP] or [ORDER]. *)
Definition expect_by (msg : string) (c : Cur) : PResult Cur :=
  let c := skipws c in
  match kw "BY" c with Some c => Ok c | None => err c msg end.

Fixpoint modifiers (n : nat) (q : Query) (c : Cur) : PResult (Query * Cur) :=
  match n with
  | O => Err PFuel
  | S n' =>
      let c := skipws c in
      match kw "GROUP" c with
      | Some c =>
          let? c := expect_by "expected BY after GROUP" c in
          let? (l, c) := group_by_loop (S (remaining c)) (q_group_by q) c in
          if bool_decide (l = []) then err c "GROUP BY needs at least one variable"
          else modifiers n' (with_group_by q l) c
      | None =>
      match kw "HAVING" c with
      | Some c =>
          err c "HAVING is not supported yet (filter in a wrapping SQL query over sparql() instead)"
      | None =>
      match kw "ORDER" c with
      | Some c =>
          let? c := expect_by "expected BY after ORDER" c in
          let? (l, c) := order_by_loop (S (remaining c)) (q_order q) c in
          match l with
          | [] => err c "ORDER BY needs at least one variable"
          | _ => modifiers n' (with_order q l) c
          end
      | None =>
      match kw "LIMIT" c with
      | Some c => let? (z, c) := int c in modifiers n' (with_limit q z) c
      | None =>
      match kw "OFFSET" c with
      | Some c => let? (z, c) := int c in modifiers n' (with_offset q z) c
      | None => Ok (q, c)
      end
      end
      end
      end
      end
  end.

(** ** Data *)

Fixpoint data_loop (n : nat) (l : list TriplePattern) (c : Cur) : PResult (list TriplePattern * Cur) :=
  match n with
  | O => Err PFuel
  | S n' =>
      let c := skipws c in
      if eof c then err c "unterminated data block"
      else if isb (peek c) "}"%char then Ok (l, bump c)
      else if isb (peek c) "."%char then data_loop n' l (bump c)
      else match kw "GRAPH" c with
           | Some c => err c "GRAPH is not supported in this subset"
           | None => let? (l, c) := triples_block l c in data_loop n' l c
           end
  end.

Definition data_block (c : Cur) : PResult (list TriplePattern * Cur) :=
  let? c := expect "{"%char "expected '{'" (skipws c) in
  data_loop (S (remaining c)) [] c.

Fixpoint template_loop (n : nat) (l : list TriplePattern) (c : Cur) : PResult (list TriplePattern * Cur) :=
  match n with
  | O => Err PFuel
  | S n' =>
      let c := skipws c in
      if isb (peek c) "}"%char then Ok (l, bump c)
      else if isb (peek c) "."%char then template_loop n' l (bump c)
      else if eof c then err c "unterminated CONSTRUCT template"
      else let? (l, c) := triples_block l c in template_loop n' l c
  end.

(** ** Forms *)

Definition query_of (form : Form) (distinct star : bool) (sel : list SelItem) (template : list TriplePattern)
    (pattern : Group) : Query :=
  mkQuery form distinct star sel [] template pattern [] (-1) 0 [] None.

Definition with_scope (q : Query) : Query :=
  mkQuery (q_form q) (q_distinct q) (q_star q) (q_sel q) (q_group_by q) (q_template q) (q_pattern q) (q_order q)
    (q_limit q) (q_offset q) prefixes base.

(** An optional [WHERE], then the pattern. *)
Definition where_group (c : Cur) : PResult (Group * Cur) :=
  let c := skipws c in
  group (match kw "WHERE" c with Some c => c | None => c end).

Fixpoint select_loop (n : nat) (sel : list SelItem) (c : Cur) : PResult (list SelItem * Cur) :=
  match n with
  | O => Err PFuel
  | S n' =>
      let c := skipws c in
      if at_var c then
        let? (v, c) := varname c in
        select_loop n' (sel ++ [mkSelItem ANone false false (Some v) v]) c
      else if isb (peek c) "("%char then
        let? (it, c) := agg_item c in
        select_loop n' (sel ++ [it]) c
      else Ok (sel, c)
  end.

Definition select_query (c : Cur) : PResult (Query * Cur) :=
  let c := skipws c in
  let '(distinct, c) := match kw_any ["DISTINCT"; "REDUCED"] c with
                        | Some c => (true, c)
                        | None => (false, c)
                        end in
  let c := skipws c in
  let? (items, c) :=
    if isb (peek c) "*"%char then Ok ((true, []), bump c)
    else
      let? (sel, c) := select_loop (S (remaining c)) [] c in
      match sel with
      | [] => err c "SELECT needs '*' or at least one variable/aggregate"
      | _ => Ok ((false, sel), c)
      end in
  let '(star, sel) := items in
  let? (g, c) := where_group c in
  Ok (query_of Select distinct star sel [] g, c).

Definition construct_query (c : Cur) : PResult (Query * Cur) :=
  let? c := expect "{"%char "expected '{' after CONSTRUCT" (skipws c) in
  let? (template, c) := template_loop (S (remaining c)) [] c in
  let? (g, c) := where_group c in
  Ok (query_of Construct false false [] template g, c).

Definition ask_query (c : Cur) : PResult (Query * Cur) :=
  let? (g, c) := where_group c in
  Ok (query_of Ask false false [] [] g, c).

(** The rest of the text must be blank. *)
Definition finish {A} (a : A) (c : Cur) : PResult A :=
  let c := skipws c in
  if eof c then Ok a else err c "unexpected trailing content".

Definition has_var (named : bool) (tp : TriplePattern) : bool :=
  existsb (fun s => match slot_var s with
                    | Some v => negb (named && starts_with BN v)
                    | None => false
                    end) (slots tp).

Definition insert_data (c : Cur) : PResult Parsed :=
  let c := skipws c in
  match kw "DATA" c with
  | None => err c "only INSERT DATA is supported in this subset"
  | Some c =>
      let? (triples, c) := data_block c in
      if existsb (has_var true) triples then err c "variables are not allowed in INSERT DATA"
      else finish (PUpdate (mkUpdate InsertData triples)) c
  end.

Definition delete_update (c : Cur) : PResult Parsed :=
  let c := skipws c in
  match kw "DATA" c with
  | Some c =>
      let? (triples, c) := data_block c in
      if existsb (has_var false) triples then
        err c "variables and blank nodes are not allowed in DELETE DATA"
      else finish (PUpdate (mkUpdate DeleteData triples)) c
  | None =>
  match kw "WHERE" c with
  | Some c =>
      let? (g, c) := group c in
      match g with
      | mkGroup triples [] [] [] => finish (PUpdate (mkUpdate DeleteWhere triples)) c
      | _ => err c "DELETE WHERE supports basic graph patterns only"
      end
  | None => err c "only DELETE DATA and DELETE WHERE are supported in this subset"
  end
  end.

(** The modifiers and the end of a query. *)
Definition finish_query (r : PResult (Query * Cur)) : PResult Parsed :=
  let? (q, c) := r in
  let? (q, c) := modifiers (S (remaining c)) q c in
  finish (PQuery (with_scope q)) c.

Definition parse_form (c : Cur) : PResult Parsed :=
  match kw "SELECT" c with
  | Some c => finish_query (select_query c)
  | None =>
  match kw "CONSTRUCT" c with
  | Some c => finish_query (construct_query c)
  | None =>
  match kw "ASK" c with
  | Some c => finish_query (ask_query c)
  | None =>
  match kw "INSERT" c with
  | Some c => insert_data c
  | None =>
  match kw "DELETE" c with
  | Some c => delete_update c
  | None =>
  match kw "DESCRIBE" c with
  | Some c => err c "DESCRIBE is not supported in this subset (use CONSTRUCT)"
  | None => err c "expected SELECT or CONSTRUCT"
  end
  end
  end
  end
  end
  end.

End parser.

(** ** Prologue *)

Record Scope : Type := mkScope { sc_prefixes : prefixes_t; sc_base : option string }.

Definition add_prefix (name iri : string) (sc : Scope) : Scope :=
  mkScope (base.filter (fun p => fst p <> name) (sc_prefixes sc) ++ [(name, resolve_iri (sc_base sc) iri)])
    (sc_base sc).

Fixpoint prologue (n : nat) (sc : Scope) (c : Cur) : PResult (Scope * Cur) :=
  match n with
  | O => Err PFuel
  | S n' =>
      let c := skipws c in
      match kw "PREFIX" c with
      | Some c =>
          let? (name, c) := take_while pname_byte (skipws c) in
          let? c := expect ":"%char "expected ':' in PREFIX" c in
          let c := skipws c in
          if negb (isb (peek c) "<"%char) then err c "expected IRI in PREFIX"
          else
            let? (iri, c) := read_iriref c in
            prologue n' (add_prefix name iri sc) c
      | None =>
      match kw "BASE" c with
      | Some c =>
          let c := skipws c in
          if negb (isb (peek c) "<"%char) then err c "expected IRI in BASE"
          else
            let? (iri, c) := read_iriref c in
            prologue n' (mkScope (sc_prefixes sc) (Some (resolve_iri (sc_base sc) iri))) c
      | None => Ok (sc, c)
      end
      end
  end.

Definition parse (text : string) : PResult Parsed :=
  let c := Cur_new text in
  let? (sc, c) := prologue (S (remaining c)) (mkScope [] None) c in
  parse_form (sc_prefixes sc) (sc_base sc) (skipws c).
