(* ===== verification/SparqlParseSafe.v ===== *)
(** * SparqlParseSafe: the parser always answers

    On well-formed UTF-8, [SparqlParse.parse] neither panics nor exhausts the
    bounds of the model: it gives a query, an update or an error message. The
    bytes ahead that open a group or an expression bound its recursion. *)

From S2P Require Import Prelude RustStd SparqlTerm SparqlCursor SparqlParse.

Local Open Scope nat_scope.

#[local] Arguments str_len : simpl never.

Lemma opt_bind {A B} c (r : PResult (option A * Cur)) (f : option A * Cur -> PResult B) Q :
  reads_opt c r -> (forall t c', moved 1 c c' -> spec (f (Some t, c')) Q) ->
  (forall c', moved 0 c c' -> spec (f (None, c')) Q) -> spec (rbind f r) Q.
Proof.
  intros Hr H1 H0. eapply spec_bind; [exact Hr|]. intros [[t|] c'] Hm; cbn in Hm; auto.
Qed.

(** [rd] with the optional terms, and the guards that look at a variable. *)
Ltac rp :=
  first
    [ rd
    | cbv beta iota zeta; eapply opt_bind; [solve [eauto with reads] | intros ? ? ? | intros ? ?] ].

#[export] Hint Resolve parse_term_common_reads : reads.

(** ** What can still open a level of recursion *)

(** How many bytes of [s] satisfy [f]. *)
Fixpoint count_bytes (f : ascii -> bool) (s : string) : nat :=
  match s with
  | "" => 0
  | String b s' => (if f b then 1 else 0) + count_bytes f s'
  end.

(** How many of them are ahead of the cursor. *)
Definition ahead (f : ascii -> bool) (c : Cur) : nat := count_bytes f (rest c).

(** [group] calls itself behind an opening brace; [primary] behind an opening
    parenthesis or a negation. *)
Definition opens_group (b : ascii) : bool := isb b "{"%char.
Definition opens_expr (b : ascii) : bool := isb b "("%char || isb b "!"%char.

Lemma count_bytes_drop f k : forall s, count_bytes f (str_drop k s) <= count_bytes f s.
Proof. induction k as [|k IH]; intros [|b s]; cbn; try lia. specialize (IH s). lia. Qed.

Lemma ahead_moved f k c c' : moved k c c' -> ahead f c' <= ahead f c.
Proof.
  intros (Ht & _ & Hk). unfold ahead, rest. rewrite Ht.
  replace (c_pos c') with (c_pos c + (c_pos c' - c_pos c)) by lia. rewrite <-str_drop_drop. apply count_bytes_drop.
Qed.

Lemma ahead_remaining f c : ahead f c <= remaining c.
Proof.
  rewrite <-rest_length. unfold ahead, str_len. induction (rest c) as [|b s IH]; cbn; [lia|]. destruct (f b); lia.
Qed.

(** Passing such a byte leaves one less ahead. *)
Lemma ahead_bump f c c' b m : isb (peek c') b = true -> f b = true -> plain_byte b = true ->
  moved 0 c c' -> ahead f c <= m -> ahead f (bump c') < m.
Proof.
  intros Hb%isb_true Hf Hn Hm%(ahead_moved f) Hc. rewrite peek_rest in Hb. unfold ahead, bump in *.
  rewrite rest_advance. destruct (rest c') as [|a s]; cbn in Hb; [by subst b|]. subst a. cbn in *. rewrite Hf in Hm. lia.
Qed.

Lemma expect_opens f b msg c m : plain_byte b = true -> f b = true -> good c -> ahead f c <= m ->
  spec (expect b msg c) (fun c' => moved 1 c c' /\ ahead f c' < m).
Proof.
  intros Hb Hf Hg Hm. unfold expect. destruct (isb (peek c) b) eqn:H; [|apply spec_err]. split.
  - by apply (bump_if c b).
  - by apply (ahead_bump f c c b); [..|apply moved_refl|].
Qed.

(** [mv], for what is ahead too. *)
Ltac ah :=
  match goal with
  | H : ahead ?f ?c0 < ?m |- ahead ?f ?c < ?m =>
      apply (Nat.le_lt_trans _ (ahead f c0)); [apply (ahead_moved f 0); mv|exact H]
  end.
Ltac sd := first [ah|mv].
Ltac gd j lem := eapply (reads_via j); [|eapply lem; sd|cbn; lia]; mv.

Lemma at_var_plain c : at_var c = true -> plain_byte (peek c) = true.
Proof. unfold at_var. intros [H|H]%orb_prop; by apply isb_true in H as ->. Qed.

Lemma varname_reads c : good c -> at_var c = true -> reads 1 c (varname c).
Proof.
  intros Hg Hv. unfold varname. assert (moved 1 c (bump c)) by (apply moved_bump; auto using at_var_plain).
  rp. rp; rp.
Qed.
#[export] Hint Resolve varname_reads : reads.

Section parser.
Variable prefixes : prefixes_t.
Variable base : option string.

Lemma qt_term_reads n c : good c -> reads 1 c (qt_term prefixes base n c).
Proof. intros Hg. unfold qt_term. rp; [|rp]. rp; [rp|]. rp; [rp|]. rp; rp. Qed.
#[local] Hint Resolve qt_term_reads : reads.

Lemma qt_reads n c : good c -> reads 1 c (qt prefixes base n c).
Proof.
  intros Hg. unfold qt. ws c. rp; [rp; rp|]. rp.
  - apply andb_prop in Hb0 as [H1 H2].
    assert (moved 1 c0 (bump c0)) by (by eapply bump_if; [mv|..]).
    assert (moved 1 (bump c0) (bump (bump c0))) by (eapply bump_if; [mv|exact H2|done]).
    rp. rp; rp.
  - rp; [rp; [rp|]; rp; [rp|]|]; go 0 qt_term_reads.
Qed.
#[local] Hint Resolve qt_reads : reads.

Lemma objects_loop_reads s p n : forall l c, good c -> remaining c < n ->
  reads 1 c (objects_loop prefixes base s p n l c).
Proof.
  induction n as [|n IH]; intros l c Hg Hn; [lia|]. cbn [objects_loop]. rp. rp. rp; [|rp].
  assert (moved 1 c0 (bump c0)) by (by eapply bump_if; [mv|..]). go 1 IH.
Qed.
#[local] Hint Extern 1 (_ < _) => sd : reads.
#[local] Hint Resolve objects_loop_reads : reads.

Lemma semicolons_moved n : forall c, good c -> moved 0 c (semicolons n c).
Proof.
  induction n as [|n IH]; intros c Hg; [by apply moved_refl|]. cbn.
  destruct (isb (peek c) ";"%char) eqn:Hb; [|by apply moved_refl].
  assert (moved 1 c (bump c)) by (by eapply bump_if). ws (bump c).
  assert (moved 0 c0 (semicolons n c0)) by (apply IH; mv). mv.
Qed.

Lemma predicates_loop_reads s n : forall l c, good c -> remaining c < n ->
  reads 1 c (predicates_loop prefixes base s n l c).
Proof.
  induction n as [|n IH]; intros l c Hg Hn; [lia|]. cbn [predicates_loop]. rp. rp. rp. rp; [|rp].
  assert (moved 1 c0 (bump c0)) by (by eapply bump_if; [mv|..]). ws (bump c0).
  assert (moved 0 c1 (semicolons (remaining c1) c1)) by (apply semicolons_moved; mv).
  rp; [rp|]. go 1 IH.
Qed.
#[local] Hint Resolve predicates_loop_reads : reads.

Lemma triples_block_reads l c : good c -> reads 1 c (triples_block prefixes base l c).
Proof. intros Hg. unfold triples_block. rp. go 1 predicates_loop_reads. Qed.
#[local] Hint Resolve triples_block_reads : reads.

(** ** Expressions *)

Lemma builtin_func_moved c f c' : good c -> builtin_func c = Some (f, c') -> moved 1 c c'.
Proof.
  intros Hg. unfold builtin_func.
  destruct (kw "STR" c) eqn:H1; [intros [= <- <-]; by eapply kw_moved in H1|].
  destruct (kw "LANG" c) eqn:H2; [intros [= <- <-]; by eapply kw_moved in H2|].
  destruct (kw "DATATYPE" c) eqn:H3; [intros [= <- <-]; by eapply kw_moved in H3|done].
Qed.

Lemma rel_op_moved c op c' : good c -> rel_op c = Some (op, c') -> moved 1 c c'.
Proof.
  intros Hg. unfold rel_op.
  assert (H1 : forall b, isb (peek c) b = true -> plain_byte b = true -> moved 1 c (bump c))
    by (intros; by eapply bump_if).
  assert (H2 : forall b, isb (peek c) b = true -> plain_byte b = true -> isb (peek_at c 1) "="%char = true ->
                moved 1 c (bump (bump c))).
  { intros b Hb Hp He. specialize (H1 b Hb Hp).
    assert (moved 1 (bump c) (bump (bump c))) by (eapply bump_if; [mv|exact He|done]). mv. }
  destruct (isb (peek c) "!"%char && _) eqn:E1; [apply andb_prop in E1 as [? ?]; intros [= <- <-]; eauto|].
  destruct (isb (peek c) "<"%char && _) eqn:E2; [apply andb_prop in E2 as [? ?]; intros [= <- <-]; eauto|].
  destruct (isb (peek c) ">"%char && _) eqn:E3; [apply andb_prop in E3 as [? ?]; intros [= <- <-]; eauto|].
  destruct (isb (peek c) "="%char) eqn:E4; [intros [= <- <-]; eauto|].
  destruct (isb (peek c) "<"%char) eqn:E5; [intros [= <- <-]; eauto|].
  destruct (isb (peek c) ">"%char) eqn:E6; [intros [= <- <-]; eauto|done].
Qed.

Lemma not_at_var c : negb (at_var c) = false -> at_var c = true.
Proof. apply negb_false_iff. Qed.
#[local] Hint Resolve not_at_var : reads.

Section expressions.
Variables (m : nat) (primary : Cur -> PResult (Expr * Cur)).
Hypothesis primary_reads : forall c, good c -> ahead opens_expr c < m -> reads 1 c (primary c).

Lemma unary_reads c : good c -> ahead opens_expr c < m -> reads 1 c (unary primary c).
Proof.
  intros Hg Hm. unfold unary. ws c. destruct (builtin_func c0) as [[f c1]|] eqn:Hf; [|gd 0 primary_reads].
  apply builtin_func_moved in Hf; [|mv]. rp. rp. rp. rp; [rp|]. rp. rp. rp. rp.
Qed.
#[local] Hint Resolve unary_reads : reads.

Lemma rel_reads c : good c -> ahead opens_expr c < m -> reads 1 c (rel primary c).
Proof.
  intros Hg Hm. unfold rel. rp. rp. destruct (rel_op c0) as [[op c1]|] eqn:Ho; [|rp].
  apply rel_op_moved in Ho; [|mv]. rp. rp; rp.
Qed.
#[local] Hint Resolve rel_reads : reads.

Lemma chain_loop_reads operand sep mk n : plain_byte sep = true ->
  (forall c, good c -> ahead opens_expr c < m -> reads 1 c (operand c)) ->
  forall a c, good c -> ahead opens_expr c < m -> remaining c < n -> reads 0 c (chain_loop operand sep mk n a c).
Proof.
  intros Hsep Hop. induction n as [|n IH]; intros a c Hg Hm Hn; [lia|]. cbn [chain_loop]. rp. rp; [|rp].
  apply andb_prop in Hb as [H1 H2]. assert (moved 1 c0 (bump c0)) by (eapply bump_if; [mv|exact H1|done]).
  assert (moved 1 (bump c0) (bump (bump c0))) by (eapply bump_if; [mv|exact H2|done]).
  eapply reads_bind; [apply Hop; sd|]. intros b c1 Hc1. gd 1 IH.
Qed.

Lemma and_expr_reads c : good c -> ahead opens_expr c < m -> reads 1 c (and_expr primary c).
Proof.
  intros Hg Hm. unfold and_expr. rp.
  eapply (reads_via 1 0); [exact H|apply chain_loop_reads; [done|apply rel_reads|sd..]|done].
Qed.
#[local] Hint Resolve and_expr_reads : reads.

Lemma or_expr_reads c : good c -> ahead opens_expr c < m -> reads 1 c (or_expr primary c).
Proof.
  intros Hg Hm. unfold or_expr. rp.
  eapply (reads_via 1 0); [exact H|apply chain_loop_reads; [done|apply and_expr_reads|sd..]|done].
Qed.
#[local] Hint Resolve or_expr_reads : reads.

Lemma bound_call_reads c : good c -> reads 1 c (bound_call c).
Proof. intros Hg. unfold bound_call. rp. rp. rp. rp; [rp|]. rp. rp. rp. rp. Qed.

Lemma regex_call_reads c : good c -> ahead opens_expr c <= m -> reads 1 c (regex_call primary c).
Proof.
  intros Hg Hm. unfold regex_call. ws c.
  assert (ahead opens_expr c0 <= ahead opens_expr c) by (apply (ahead_moved _ 0); mv).
  eapply spec_bind; [apply (expect_opens opens_expr _ _ _ m); [done..|mv|lia]|]. intros c1 [Hc1 Hm1].
  rp. rp. rp. rp. rp.
  apply reads_bind with (k := 0) (c := c3).
  - rp; [|rp]. assert (moved 1 c3 (bump c3)) by (by eapply bump_if; [mv|..]). rp. rp. rp.
  - intros flags c4 ?. rp. rp.
Qed.

(** One level, with one more opening ahead. *)
Lemma primary_step_reads c : good c -> ahead opens_expr c <= m -> reads 1 c (primary_step prefixes base primary c).
Proof.
  intros Hg Hm. unfold primary_step. ws c. rp.
  { assert (moved 1 c0 (bump c0)) by (by eapply bump_if; [mv|..]).
    assert (ahead opens_expr (bump c0) < m) by (by eapply ahead_bump). rp. rp. rp. rp. }
  rp.
  { apply andb_prop in Hb0 as [H1 _].
    assert (moved 1 c0 (bump c0)) by (by eapply bump_if; [mv|..]).
    assert (ahead opens_expr (bump c0) < m) by (by eapply ahead_bump). rp. rp. }
  rp; [rp; rp|]. rp; [gd 1 bound_call_reads|]. rp; [|rp; rp].
  match goal with |- spec (regex_call _ ?c1) _ =>
    assert (ahead opens_expr c1 <= ahead opens_expr c) by (apply (ahead_moved _ 0); mv) end.
  gd 1 regex_call_reads.
Qed.

End expressions.

Lemma primary_reads n : forall c, good c -> ahead opens_expr c < n -> reads 1 c (primary prefixes base n c).
Proof.
  induction n as [|n IH]; intros c Hg Hn; [lia|]. cbn [primary].
  apply (primary_step_reads n); [exact IH|done|lia].
Qed.

Lemma expression_reads c : good c -> reads 1 c (expression prefixes base c).
Proof.
  intros Hg. unfold expression. assert (H := ahead_remaining opens_expr c).
  apply (or_expr_reads (S (remaining c))); [apply primary_reads|done|lia].
Qed.
#[local] Hint Resolve expression_reads : reads.

(** ** Groups *)

Lemma kw_any_moved ws c c' : forallb is_word ws = true -> good c -> kw_any ws c = Some c' -> moved 1 c c'.
Proof.
  intros Hw Hg. unfold kw_any. induction ws as [|w ws IH]; [done|]. cbn in *. apply andb_prop in Hw as [Hw Hws].
  destruct (kw w c) eqn:Hk; [intros [= <-]; by eapply kw_moved in Hk|]. by apply IH.
Qed.

Section groups.
Variables (m : nat) (grp : Cur -> PResult (Group * Cur)).
Hypothesis grp_reads : forall c, good c -> ahead opens_group c < m -> reads 1 c (grp c).
#[local] Hint Resolve grp_reads : reads.

Lemma union_loop_reads n : forall bs c, good c -> ahead opens_group c < m -> remaining c < n ->
  isb (peek c) "{"%char = true -> reads 1 c (union_loop grp n bs c).
Proof.
  induction n as [|n IH]; intros bs c Hg Hm Hn Hb; [lia|]. cbn [union_loop].
  assert (moved 1 c (bump c)) by (by eapply bump_if). ws (bump c). rp; [rp|]. rp. rp. rp; [|rp]. rp. rp; [|rp].
  gd 1 IH.
Qed.
#[local] Hint Resolve union_loop_reads : reads.

Lemma group_loop_reads n : forall g c, good c -> ahead opens_group c < m -> remaining c < n ->
  reads 0 c (group_loop prefixes base grp n g c).
Proof.
  induction n as [|n IH]; intros g c Hg Hm Hn; [lia|]. cbn [group_loop]. rp. rp; [rp|].
  rp; [assert (moved 1 c0 (bump c0)) by (by eapply bump_if; [mv|..]); rp|].
  rp; [assert (moved 1 c0 (bump c0)) by (by eapply bump_if; [mv|..]); gd 1 IH|].
  rp; [rp; gd 1 IH|]. rp; [rp; gd 1 IH|]. rp; [rp; gd 1 IH|].
  destruct (kw_any unsupported c0) as [c1|] eqn:Hk; [rp|]. rp. gd 1 IH.
Qed.

End groups.

Lemma group_at_reads n : forall c, good c -> ahead opens_group c < n -> reads 1 c (group_at prefixes base n c).
Proof.
  induction n as [|n IH]; intros c Hg Hn; [lia|]. cbn [group_at]. ws c.
  assert (ahead opens_group c0 <= ahead opens_group c) by (apply (ahead_moved _ 0); mv).
  eapply spec_bind; [apply (expect_opens opens_group _ _ _ n); [done..|mv|lia]|]. intros c1 [Hc1 Hn1].
  eapply (reads_via 1 0); [|apply (group_loop_reads n); [exact IH|sd..]|done]. mv.
Qed.

Lemma group_reads c : good c -> reads 1 c (group prefixes base c).
Proof. intros Hg. assert (H := ahead_remaining opens_group c). apply group_at_reads; [done|lia]. Qed.
#[local] Hint Resolve group_reads : reads.

(** ** Modifiers *)

Lemma int_reads c : good c -> reads 0 c (int c).
Proof. intros Hg. unfold int. rp. rp. rp; rp. Qed.
#[local] Hint Resolve int_reads : reads.

Lemma agg_name_moved c a c' : good c -> agg_name c = Some (a, c') -> moved 1 c c'.
Proof.
  intros Hg. unfold agg_name. cbn [foldr].
  repeat match goal with |- context [kw ?w ?c] => let H := fresh in destruct (kw w c) eqn:H;
    [intros [= <- <-]; by eapply kw_moved in H|clear H] end. done.
Qed.

Lemma agg_arg_reads a c : good c -> reads 1 c (agg_arg a c).
Proof.
  intros Hg. unfold agg_arg. rp; [rp; [|rp]|rp; [rp; rp|rp]].
  assert (moved 1 c (bump c)) by (by eapply bump_if). rp.
Qed.
#[local] Hint Resolve agg_arg_reads : reads.

Lemma bump_reads c b : good c -> isb (peek c) b = true -> plain_byte b = true -> moved 1 c (bump c).
Proof. apply bump_if. Qed.

Lemma agg_item_reads c : good c -> isb (peek c) "("%char = true -> reads 1 c (agg_item c).
Proof.
  intros Hg Hb. unfold agg_item. assert (moved 1 c (bump c)) by (by eapply bump_if). ws (bump c).
  destruct (agg_name c0) as [[a c1]|] eqn:Ha; [|rp]. apply agg_name_moved in Ha; [|mv].
  rp. rp. rp.
  assert (Hd : exists d c5, match kw "DISTINCT" c3 with Some c => (true, skipws c) | None => (false, c3) end = (d, c5)
                            /\ moved 0 c3 c5).
  { destruct (kw "DISTINCT" c3) eqn:Hk; [|eexists _, _; split; [done|mv]].
    apply kw_moved in Hk; [|reflexivity|mv]. eexists _, _. split; [done|].
    assert (moved 0 c4 (skipws c4)) by (apply skipws_moved; mv). mv. }
  destruct Hd as (d & c5 & -> & Hc5). rp. destruct a1 as [star var]. rp. rp. rp. rp; [|rp]. rp. rp; [rp|].
  rp. rp. rp. rp.
Qed.
#[local] Hint Resolve agg_item_reads : reads.

Lemma group_by_loop_reads n : forall l c, good c -> remaining c < n -> reads 0 c (group_by_loop n l c).
Proof.
  induction n as [|n IH]; intros l c Hg Hn; [lia|]. cbn [group_by_loop]. rp. rp; [rp|]. rp. go 1 IH.
Qed.
#[local] Hint Resolve group_by_loop_reads : reads.

Lemma order_key_reads c : good c -> reads 1 c (order_key c).
Proof. intros Hg. unfold order_key. rp. rp. rp. rp; [rp|]. rp. rp. rp. rp. Qed.
#[local] Hint Resolve order_key_reads : reads.

Lemma order_by_loop_reads n : forall l c, good c -> remaining c < n -> reads 0 c (order_by_loop n l c).
Proof.
  induction n as [|n IH]; intros l c Hg Hn; [lia|]. cbn [order_by_loop]. rp.
  rp; [rp; go 1 IH|]. rp; [rp; go 1 IH|]. rp; [rp; go 1 IH|rp].
Qed.
#[local] Hint Resolve order_by_loop_reads : reads.

Lemma expect_by_spec msg c : good c -> spec (expect_by msg c) (moved 1 c).
Proof. intros Hg. unfold expect_by. ws c. rp; [cbn [spec]; mv|rp]. Qed.
#[local] Hint Resolve expect_by_spec : reads.

Lemma modifiers_reads n : forall q c, good c -> remaining c < n -> reads 0 c (modifiers n q c).
Proof.
  induction n as [|n IH]; intros q c Hg Hn; [lia|]. cbn [modifiers]. rp.
  rp; [rp; rp; rp; [rp|go 1 IH]|]. rp; [rp|].
  rp; [rp; rp; match goal with |- spec (match ?l with _ => _ end) _ => destruct l end; [rp|go 1 IH]|].
  rp; [rp; go 1 IH|]. rp; [rp; go 1 IH|]. rp.
Qed.
#[local] Hint Resolve modifiers_reads : reads.

(** ** Data and forms *)

Lemma data_loop_reads n : forall l c, good c -> remaining c < n -> reads 0 c (data_loop prefixes base n l c).
Proof.
  induction n as [|n IH]; intros l c Hg Hn; [lia|]. cbn [data_loop]. rp. rp; [rp|].
  rp; [assert (moved 1 c0 (bump c0)) by (by eapply bump_if; [mv|..]); rp|].
  rp; [assert (moved 1 c0 (bump c0)) by (by eapply bump_if; [mv|..]); go 1 IH|].
  rp; [rp|]. eapply reads_bind; [apply triples_block_reads; mv|]. intros l' c1 Hc1. go 1 IH.
Qed.

Lemma data_block_reads c : good c -> reads 0 c (data_block prefixes base c).
Proof. intros Hg. unfold data_block. rp. rp. go 1 data_loop_reads. Qed.
#[local] Hint Resolve data_block_reads : reads.

Lemma template_loop_reads n : forall l c, good c -> remaining c < n -> reads 0 c (template_loop prefixes base n l c).
Proof.
  induction n as [|n IH]; intros l c Hg Hn; [lia|]. cbn [template_loop]. rp.
  rp; [assert (moved 1 c0 (bump c0)) by (by eapply bump_if; [mv|..]); rp|].
  rp; [assert (moved 1 c0 (bump c0)) by (by eapply bump_if; [mv|..]); go 1 IH|].
  rp; [rp|]. eapply reads_bind; [apply triples_block_reads; mv|]. intros l' c1 Hc1. go 1 IH.
Qed.
#[local] Hint Resolve template_loop_reads : reads.

Lemma where_group_reads c : good c -> reads 0 c (where_group prefixes base c).
Proof.
  intros Hg. unfold where_group. ws c. destruct (kw "WHERE" c0) as [c1|] eqn:Hk; [|go 0 group_reads].
  apply kw_moved in Hk; [|reflexivity|mv]. go 1 group_reads.
Qed.
#[local] Hint Resolve where_group_reads : reads.

Lemma select_loop_reads n : forall l c, good c -> remaining c < n -> reads 0 c (select_loop n l c).
Proof.
  induction n as [|n IH]; intros l c Hg Hn; [lia|]. cbn [select_loop]. rp.
  rp; [rp; go 1 IH|]. rp; [rp; go 1 IH|rp].
Qed.
#[local] Hint Resolve select_loop_reads : reads.

Lemma select_query_reads c : good c -> reads 0 c (select_query prefixes base c).
Proof.
  intros Hg. unfold select_query. ws c.
  assert (Hd : exists d c1, match kw_any ["DISTINCT"; "REDUCED"] c0 with Some c => (true, c) | None => (false, c0) end
                            = (d, c1) /\ moved 0 c0 c1).
  { destruct (kw_any _ c0) as [c1|] eqn:Hk; [|eexists _, _; split; [done|mv]].
    apply kw_any_moved in Hk; [|reflexivity|mv]. eexists _, _. split; [done|mv]. }
  destruct Hd as (d & c1 & -> & Hc1). cbv beta iota zeta. ws c1.
  apply reads_bind with (k := 0) (c := c2).
  - rp; [assert (moved 1 c2 (bump c2)) by (by eapply bump_if; [mv|..]); rp|].
    rp. match goal with |- spec (match ?l with _ => _ end) _ => destruct l end; rp.
  - intros [star sel] c3 Hc3. rp. rp.
Qed.

Lemma construct_query_reads c : good c -> reads 0 c (construct_query prefixes base c).
Proof. intros Hg. unfold construct_query. rp. rp. rp. rp. rp. Qed.

Lemma ask_query_reads c : good c -> reads 0 c (ask_query prefixes base c).
Proof. intros Hg. unfold ask_query. rp. rp. Qed.

(** An answer: a value or an error message. *)
Definition answers {A} (r : PResult A) : Prop := spec r (fun _ => True).

Lemma finish_answers {A} (a : A) c : good c -> answers (finish a c).
Proof. intros Hg. unfold finish, answers. ws c. rp; [done|apply spec_err]. Qed.

Lemma finish_query_answers c r : reads 0 c r -> answers (finish_query prefixes base r).
Proof.
  intros Hr. unfold finish_query, answers. eapply reads_bind; [exact Hr|]. intros q c1 Hc1. cbv beta iota.
  eapply reads_bind; [apply modifiers_reads; mv|]. intros q' c2 Hc2. apply finish_answers. mv.
Qed.

Lemma insert_data_answers c : good c -> answers (insert_data prefixes base c).
Proof.
  intros Hg. unfold insert_data, answers. ws c. rp; [|apply spec_err].
  eapply reads_bind; [apply data_block_reads; mv|]. intros l c2 Hc2. rp; [apply spec_err|].
  apply finish_answers. mv.
Qed.

Lemma delete_update_answers c : good c -> answers (delete_update prefixes base c).
Proof.
  intros Hg. unfold delete_update, answers. ws c. rp.
  - eapply reads_bind; [apply data_block_reads; mv|]. intros l c2 Hc2. rp; [apply spec_err|].
    apply finish_answers. mv.
  - rp; [|apply spec_err]. eapply reads_bind; [apply group_reads; mv|].
    intros [ts [|f fs] [|o os] [|u us]] c2 Hc2; try apply spec_err. apply finish_answers. mv.
Qed.

Lemma parse_form_answers c : good c -> answers (parse_form prefixes base c).
Proof.
  intros Hg. unfold parse_form, answers.
  rp; [eapply finish_query_answers, select_query_reads; mv|].
  rp; [eapply finish_query_answers, construct_query_reads; mv|].
  rp; [eapply finish_query_answers, ask_query_reads; mv|].
  rp; [apply insert_data_answers; mv|]. rp; [apply delete_update_answers; mv|]. rp; apply spec_err.
Qed.

End parser.

Lemma prologue_reads n : forall sc c, good c -> remaining c < n -> reads 0 c (prologue n sc c).
Proof.
  induction n as [|n IH]; intros sc c Hg Hn; [lia|]. cbn [prologue]. rp. rp.
  - rp. rp. rp. rp. rp; [rp|]. apply negb_false_iff in Hb. rp. go 1 IH.
  - rp; [|rp]. rp. rp; [rp|]. apply negb_false_iff in Hb. rp. go 1 IH.
Qed.

Lemma answers_cases {A} (r : PResult A) : answers r -> (exists a, r = Ok a) \/ (exists m, r = Err (PErr m)).
Proof. destruct r as [a|[m| |]]; [by left; exists a|by right; exists m|done..]. Qed.

Lemma reads_answers {A} k c (r : PResult (A * Cur)) :
  reads k c r -> (exists a, r = Ok a) \/ (exists m, r = Err (PErr m)).
Proof. intros Hr. eapply answers_cases, spec_mono; [exact Hr|done]. Qed.

Lemma parse_answers (text : string) (Hutf8 : utf8_valid text = true) :
  (exists p, parse text = Ok p) \/ (exists m, parse text = Err (PErr m)).
Proof.
  apply answers_cases. unfold parse, answers. assert (Hg : good (Cur_new text)) by (split; [done|cbn; lia]).
  eapply reads_bind; [apply prologue_reads; [exact Hg|lia]|]. intros sc c Hc. cbv beta iota. ws c.
  apply parse_form_answers. mv.
Qed.

(** The depth is really needed: on nested braces [group] goes as deep as there
    are braces. [parser.rs] sets no limit to it, so a text that is long enough
    exhausts the machine's stack, which is not modelled. *)
Fixpoint braces (k : nat) : string :=
  match k with O => "" | S k' => String "{"%char (braces k') end.

Section nested.
Variables (k p : nat).
Hypothesis Hp : p <= k.
#[local] Abbreviation c := (mkCur (braces k) p).

Lemma braces_drop : str_drop p (braces k) = braces (k - p).
Proof. revert k Hp. induction p as [|q IH]; intros [|j] H; try done. apply IH. lia. Qed.

Lemma braces_length : str_len (braces k) = k.
Proof. clear Hp. unfold str_len. induction k; cbn; congruence. Qed.

Lemma braces_peek : peek c = if p <? k then "{"%char else NUL.
Proof.
  rewrite peek_rest. unfold rest. cbn [c_pos c_text]. rewrite braces_drop. destruct (Nat.ltb_spec p k).
  - destruct (k - p) eqn:?; [lia|reflexivity].
  - by replace (k - p) with 0 by lia.
Qed.

Lemma braces_skipws : skipws c = c.
Proof. unfold skipws. destruct (remaining c); [done|]. cbn [skipws_go]. rewrite braces_peek. by destruct (p <? k). Qed.

Lemma braces_kw w : is_word w = true -> kw w c = None.
Proof.
  unfold kw, rest. cbn. rewrite braces_drop. destruct w as [|a w]; [done|]. intros [[Ha _]%andb_prop _]%andb_prop.
  destruct (k - p); [done|]. cbn. destruct (eq_ignore_ascii_case "{" a) eqn:He; [|done].
  by destruct a as [[] [] [] [] [] [] [] []].
Qed.

End nested.

Lemma nested_braces_recurse prefixes base k n : forall p, p + n < k ->
  group_at prefixes base n (mkCur (braces k) p) = Err PFuel.
Proof.
  induction n as [|n IH]; intros p Hp; [done|]. cbn [group_at]. unfold expect.
  rewrite braces_skipws, braces_peek by lia. rewrite (proj2 (Nat.ltb_lt p k)) by lia. change (isb "{" "{") with true. cbn [rbind].
  change (bump (mkCur (braces k) p)) with (mkCur (braces k) (p + 1)). cbn [group_loop].
  rewrite braces_skipws, braces_peek by lia. unfold eof. cbn [c_text c_pos]. rewrite braces_length.
  rewrite (proj2 (Nat.ltb_lt (p + 1) k)) by lia. rewrite (proj2 (Nat.leb_gt k (p + 1))) by lia. cbn.
  rewrite !braces_kw by (done || lia). cbn [union_loop].
  change (bump (mkCur (braces k) (p + 1))) with (mkCur (braces k) (p + 1 + 1)).
  rewrite braces_skipws, braces_kw by (done || lia). by rewrite IH by lia.
Qed.

(** C34. On well-formed UTF-8 the parser neither panics nor runs on: it gives a
    query or an update, or an error message. Its recursion is no deeper than the
    text nests: a group pattern with fewer than [n] opening braces ahead is read
    with room for [n] calls of [group], an expression with fewer than [n] opening
    parentheses and negations ahead with room for [n] calls of [primary]. The
    machine's stack is not modelled, and the parser sets no limit of its own to
    that depth ([nested_braces_recurse]). *)
Theorem parse_total (text : string) (Hutf8 : utf8_valid text = true) :
  ((exists p, parse text = Ok p) \/ (exists m, parse text = Err (PErr m))) /\
  forall prefixes base c n, c_text c = text -> good c ->
    (ahead opens_group c < n ->
       (exists g, group_at prefixes base n c = Ok g) \/ (exists m, group_at prefixes base n c = Err (PErr m))) /\
    (ahead opens_expr c < n ->
       (exists e, primary prefixes base n c = Ok e) \/ (exists m, primary prefixes base n c = Err (PErr m))).
Proof.
  split; [by apply parse_answers|]. intros prefixes base c n _ Hg. split; intros Hn.
  - by apply (reads_answers 1 c), group_at_reads.
  - by apply (reads_answers 1 c), primary_reads.
Qed.

(** Two levels of groups are enough for a query with two braces open. *)
Lemma parse_total_witness :
  let text := "ASK { OPTIONAL { ?s <urn:p> ?o } }" in
  ((exists p, parse text = Ok p) \/ (exists m, parse text = Err (PErr m))) /\
  ((exists g, group_at [] None 3 (mkCur text 4) = Ok g) \/
   (exists m, group_at [] None 3 (mkCur text 4) = Err (PErr m))).
Proof.
  intros text. destruct (parse_total text) as [H1 H2]; [reflexivity|]. split; [exact H1|].
  destruct (H2 [] None (mkCur text 4) 3) as [Hg _]; [reflexivity|split; [reflexivity|vm_compute; lia]|].
  apply Hg. vm_compute. lia.
Defined.
