(* ===== verification/SparqlSerialize.v ===== *)
(** * SparqlSerialize: results and graphs as text

    Models [crates/sparql/src/serialize.rs]. Strings are UTF-8 bytes, and every
    character the escapes single out is ASCII. The functions that append to a
    [String] return what they append. *)

From S2P Require Import Prelude RustStd SparqlTerm.
From stdpp Require Import sorting.

Local Open Scope Z_scope.

(** ** JSON *)

Definition json_escape_char (c : ascii) : string :=
  if bool_decide (c = DQ) then String "\" dq
  else if bool_decide (c = "\"%char) then "\\"
  else if bool_decide (c = NL) then "\n"
  else if bool_decide (c = "013"%char) then "\r"
  else if bool_decide (c = "009"%char) then "\t"
  else if byte_val c <? 0x20 then "\u00" +:+ hex2 HEX_LOWER (byte_val c)
  else char_str c.

Definition json_escape (s : string) : string := str_map json_escape_char s.

Definition json_string (s : string) : string := dq +:+ json_escape s +:+ dq.

Definition json_type (kind : Z) : string :=
  if kind =? K_IRI then "uri" else if kind =? K_BNODE then "bnode" else "literal".

Definition json_term (t : Term) : string :=
  jq "{'type':'" +:+ json_type (t_kind t) +:+ jq "','value':'" +:+ json_escape (t_lex t) +:+ dq +:+
  (if is_literal t && negb (is_empty (t_lang t)) then jq ",'xml:lang':'" +:+ json_escape (t_lang t) +:+ dq
   else if is_literal t && negb (is_empty (t_dtype t)) then jq ",'datatype':'" +:+ json_escape (t_dtype t) +:+ dq
   else "") +:+ "}".

(** The cells of a row, each under its variable; [None] when the row is longer
    than the variables, where [vars[i]] panics. *)
Fixpoint row_items (item : string -> Term -> string) (vars : list string) (row : list (option Term)) :
    option (list string) :=
  match row, vars with
  | [], _ => Some []
  | None :: row', _ => row_items item (tail vars) row'
  | Some t :: row', v :: vars' => cons (item v t) <$> row_items item vars' row'
  | Some _ :: _, [] => None
  end.

Definition json_object (items : list string) : string := "{" +:+ RustStd.join "," items +:+ "}".

Definition select_results_json (vars : list string) (rows : list (list (option Term))) : option string :=
  bindings ← mapM (fun row => json_object <$> row_items (fun v t => json_string v +:+ ":" +:+ json_term t) vars row)
               rows;
  Some (jq "{'head':{'vars':[" +:+ RustStd.join "," (map json_string vars) +:+ jq "]},'results':{'bindings':[" +:+
        RustStd.join "," bindings +:+ "]}}").

Definition ask_json (result : bool) : string :=
  jq "{'head':{},'boolean':" +:+ (if result then "true" else "false") +:+ "}".

Definition binding_object (vars : list string) (row : list (option Term)) : option string :=
  json_object <$> row_items (fun v t => json_string v +:+ ":" +:+ json_string (t_lex t)) vars row.

(** ** Turtle terms *)

Definition ends_with_char (c : ascii) (s : string) : bool :=
  match str_rev s with String b _ => bool_decide (b = c) | "" => false end.

Definition local_byte (c : ascii) : bool :=
  is_ascii_alphanumeric c || bool_decide (c = "_"%char) || bool_decide (c = "-"%char) || bool_decide (c = "."%char).

Definition local_ok_for_prefix (rest : string) : bool :=
  if starts_with "." rest || ends_with_char "."%char rest then false else str_forallb local_byte rest.

Definition prefix_list : Type := list (string * string).

(** The longest usable prefix so far: its name, its length and the local name. *)
Definition best_prefix (iri : string) (best : option (string * nat * string)) (p : string * string) :
    option (string * nat * string) :=
  let '(name, piri) := p in
  let len := match best with Some (_, l, _) => l | None => O end in
  match RustStd.strip_prefix piri iri with
  | Some rest => if (len <? str_len piri)%nat && local_ok_for_prefix rest then Some (name, str_len piri, rest) else best
  | None => best
  end.

Definition turtle_write_iri (iri : string) (prefixes : prefix_list) : string :=
  match foldl (best_prefix iri) None prefixes with
  | Some (name, _, rest) => name +:+ ":" +:+ rest
  | None => "<" +:+ iri +:+ ">"
  end.

Definition quoted_char (c : ascii) : string :=
  if bool_decide (c = "\"%char) then "\\"
  else if bool_decide (c = DQ) then String "\" dq
  else if bool_decide (c = NL) then "\n"
  else if bool_decide (c = "013"%char) then "\r"
  else if bool_decide (c = "009"%char) then "\t"
  else char_str c.

Definition write_quoted_literal (lex : string) : string := dq +:+ str_map quoted_char lex +:+ dq.

(** [strip_prefix(['+', '-']).unwrap_or(s)]. *)
Definition unsigned (s : string) : string :=
  match s with
  | String c s' => if bool_decide (c = "+"%char) || bool_decide (c = "-"%char) then s' else s
  | "" => s
  end.

Definition lex_is_integer (s : string) : bool :=
  let d := unsigned s in negb (is_empty d) && str_forallb is_ascii_digit d.

Definition lex_is_decimal (s : string) : bool :=
  match split_once "."%char (unsigned s) with
  | None => false
  | Some (int, frac) => negb (is_empty frac) && str_forallb is_ascii_digit int && str_forallb is_ascii_digit frac
  end.

(** Literals that are written without quotes. *)
Definition bare_literal (t : Term) : bool :=
  is_empty (t_lang t) &&
  ((bool_decide (t_dtype t = XSD +:+ "integer") && lex_is_integer (t_lex t)) ||
   (bool_decide (t_dtype t = XSD +:+ "decimal") && lex_is_decimal (t_lex t)) ||
   (bool_decide (t_dtype t = XSD +:+ "boolean") &&
    (bool_decide (t_lex t = "true") || bool_decide (t_lex t = "false")))).

Definition turtle_write_term (t : Term) (prefixes : prefix_list) : string :=
  if t_kind t =? K_IRI then turtle_write_iri (t_lex t) prefixes
  else if t_kind t =? K_BNODE then "_:" +:+ t_lex t
  else if bare_literal t then t_lex t
  else write_quoted_literal (t_lex t) +:+
       (if negb (is_empty (t_lang t)) then "@" +:+ t_lang t
        else if negb (is_empty (t_dtype t)) then "^^" +:+ turtle_write_iri (t_dtype t) prefixes
        else "").

(** ** Triples in order *)

Definition Triple : Type := Term * Term * Term.

(** The derived [Ord]: kind, text, datatype, language; subjects first. *)
Definition lexico (a b : comparison) : comparison := match a with Eq => b | _ => a end.

Definition term_cmp (a b : Term) : comparison :=
  lexico (t_kind a ?= t_kind b)
    (lexico (String.compare (t_lex a) (t_lex b))
       (lexico (String.compare (t_dtype a) (t_dtype b)) (String.compare (t_lang a) (t_lang b)))).

Definition triple_cmp (a b : Triple) : comparison :=
  let '(s, p, o) := a in
  let '(s', p', o') := b in
  lexico (term_cmp s s') (lexico (term_cmp p p') (term_cmp o o')).

Definition triple_le (a b : Triple) : Prop := triple_cmp a b <> Gt.

#[export] Instance triple_le_dec a b : base.Decision (triple_le a b).
Proof. unfold triple_le. apply _. Defined.

(** [triples.sort()]. *)
Definition sort_triples (l : list Triple) : list Triple := merge_sort triple_le l.

(** One triple of the Turtle body after [prev]. *)
Definition turtle_step (prefixes : prefix_list) (prev : option Triple) (cur : Triple) : string :=
  let '(s, p, o) := cur in
  let w t := turtle_write_term t prefixes in
  let full := w s +:+ " " +:+ w p +:+ " " +:+ w o in
  match prev with
  | None => full
  | Some (s', p', _) =>
      if negb (bool_decide (s = s')) then " ." +:+ nl +:+ full
      else if negb (bool_decide (p = p')) then " ;" +:+ nl +:+ "    " +:+ w p +:+ " " +:+ w o
      else ", " +:+ w o
  end.

Fixpoint turtle_body (prefixes : prefix_list) (prev : option Triple) (l : list Triple) : string :=
  match l with
  | [] => match prev with Some _ => " ." +:+ nl | None => "" end
  | t :: l' => turtle_step prefixes prev t +:+ turtle_body prefixes (Some t) l'
  end.

Definition prefix_line (p : string * string) : string := "@prefix " +:+ fst p +:+ ": <" +:+ snd p +:+ "> ." +:+ nl.

Definition serialize_turtle (triples : list Triple) (prefixes : prefix_list) : string :=
  str_concat (map prefix_line prefixes) +:+ (match prefixes with [] => "" | _ => nl end) +:+
  turtle_body prefixes None (sort_triples triples).

(** ** N-Triples *)

Definition nt_write_term (t : Term) : string :=
  if t_kind t =? K_IRI then "<" +:+ t_lex t +:+ ">"
  else if t_kind t =? K_BNODE then "_:" +:+ t_lex t
  else write_quoted_literal (t_lex t) +:+
       (if negb (is_empty (t_lang t)) then "@" +:+ t_lang t
        else if negb (is_empty (t_dtype t)) then "^^<" +:+ t_dtype t +:+ ">"
        else "").

Definition nt_line (t : Triple) : string :=
  let '(s, p, o) := t in
  nt_write_term s +:+ " " +:+ nt_write_term p +:+ " " +:+ nt_write_term o +:+ " ." +:+ nl.

Definition serialize_ntriples (triples : list Triple) : string := str_concat (map nt_line (sort_triples triples)).
