(* ===== verification/SparqlRoundTrip.v ===== *)
(** * SparqlRoundTrip: a dump reads back

    The Turtle that [SparqlSerialize.serialize_turtle] writes without prefixes,
    inside [INSERT DATA], is parsed by [SparqlParse] back to the same triples,
    blank nodes by their labels; and JSON strings read back as themselves. *)

From S2P Require Import Prelude RustStd SparqlTerm SparqlCursor SparqlParse SparqlSerialize.
From stdpp Require Import sorting.

Local Open Scope nat_scope.

#[local] Arguments str_len : simpl never.

(** ** Characters of UTF-8 text *)

Definition high (b : ascii) : bool := negb (is_ascii b).

Inductive is_char : string -> Prop :=
| ascii_char b : is_ascii b = true -> is_char (char_str b)
| high_char b t : str_forallb high (String b t) = true -> utf8_len b = str_len (String b t) ->
    utf8_valid (String b t) = true -> is_char (String b t).

Lemma is_char_valid ch : is_char ch -> utf8_valid ch = true.
Proof. destruct 1 as [b Hb|]; [|done]. by apply utf8_valid_ascii; cbn; rewrite Hb. Qed.

Lemma in_high lo hi b : (0x80 <= lo)%Z -> in_range lo hi b = true -> high b = true.
Proof. intros Hlo H%in_range_spec. unfold high, is_ascii. apply negb_true_iff, Z.ltb_ge. lia. Qed.

(** A character of [k] bytes with first byte [b]. *)
Ltac multibyte k Hb Hch t s :=
    first [apply (Hch t s) | fail 1 "shape"];
    [ cbn [str_forallb]; repeat match goal with H : in_range _ _ ?x = true |- context [high ?x] =>
        rewrite (in_high _ _ x) with (2 := H) by done end; done
    | match goal with H : in_range ?lo ?hi ?x = true |- utf8_len ?x = _ =>
        change (utf8_len x = k); clear -H; revert H; by ascii_cases x end
    | cbn [utf8_valid]; unfold cont; rewrite Hb; repeat match goal with H : in_range _ _ _ = _ |- _ => rewrite H; clear H end; done
    | done | lia ].

Lemma utf8_ind (P : string -> Prop) :
  P "" -> (forall ch s, is_char ch -> utf8_valid s = true -> P s -> P (ch +:+ s)) ->
  forall s, utf8_valid s = true -> P s.
Proof.
  intros H0 Hc s. remember (str_len s) as n eqn:Hn. assert (Hle : str_len s <= n) by lia. clear Hn.
  revert s Hle. unfold str_len. induction n as [|n IH]; intros [|b s] Hle Hs; cbn in Hle; try done; [lia|].
  destruct (is_ascii b) eqn:Hb.
  { apply (Hc (char_str b) s); [by constructor| |apply IH; [lia|]]; by rewrite <-(utf8_valid_plain b). }
  assert (Hhb : high b = true) by (unfold high; by rewrite Hb).
  assert (Hch : forall t s', str_forallb high t = true -> utf8_len b = str_len (String b t) ->
            utf8_valid (String b t) = true -> utf8_valid s' = true -> String.length s' <= n -> P (String b t +:+ s')).
  { intros t s' Ht Hl Hv Hs' Hn. apply Hc; [constructor; [by cbn; rewrite Hhb|done..]|done|by apply IH]. }
  revert Hs. cbn [utf8_valid]. unfold is_ascii in Hb. rewrite Hb.
  destruct s as [|b1 s]; [intros; discriminate|]. cbn in Hle. cbn [utf8_valid].
  destruct (in_range 0xC2 0xDF b) eqn:H2.
  { intros [H1 Hs]%andb_prop. unfold cont in H1. multibyte 2 Hb Hch (String b1 "") s. }
  destruct s as [|b2 s]; [intros; discriminate|]. cbn in Hle. cbn [utf8_valid].
  destruct (in_range 0xE0 0xE0 b) eqn:HA.
  { intros [[H1 H1']%andb_prop Hs]%andb_prop. unfold cont in *. multibyte 3 Hb Hch (String b1 (String b2 "")) s. }
  destruct (in_range 0xE1 0xEC b) eqn:HB.
  { intros [[H1 H1']%andb_prop Hs]%andb_prop. unfold cont in *. multibyte 3 Hb Hch (String b1 (String b2 "")) s. }
  destruct (in_range 0xED 0xED b) eqn:HC.
  { intros [[H1 H1']%andb_prop Hs]%andb_prop. unfold cont in *. multibyte 3 Hb Hch (String b1 (String b2 "")) s. }
  destruct (in_range 0xEE 0xEF b) eqn:HD.
  { intros [[H1 H1']%andb_prop Hs]%andb_prop. unfold cont in *. multibyte 3 Hb Hch (String b1 (String b2 "")) s. }
  destruct s as [|b3 s]; [intros; discriminate|]. cbn in Hle. cbn [utf8_valid].
  destruct (in_range 0xF0 0xF0 b) eqn:HE.
  { intros [[[H1 H1']%andb_prop H3]%andb_prop Hs]%andb_prop. unfold cont in *.
    multibyte 4 Hb Hch (String b1 (String b2 (String b3 ""))) s. }
  destruct (in_range 0xF1 0xF3 b) eqn:HF.
  { intros [[[H1 H1']%andb_prop H3]%andb_prop Hs]%andb_prop. unfold cont in *.
    multibyte 4 Hb Hch (String b1 (String b2 (String b3 ""))) s. }
  destruct (in_range 0xF4 0xF4 b) eqn:HG; [|done].
  intros [[[H1 H1']%andb_prop H3]%andb_prop Hs]%andb_prop. unfold cont in *.
  multibyte 4 Hb Hch (String b1 (String b2 (String b3 ""))) s.
Qed.

(** ** Cursors by what is left *)

(** [r] succeeds with [a], leaving [s]. *)
Definition yields {A} (r : PResult (A * Cur)) (a : A) (s : string) : Prop :=
  exists c, r = Ok (a, c) /\ good c /\ rest c = s.

Lemma yields_bind {A B} (r : PResult (A * Cur)) (f : A * Cur -> PResult (B * Cur)) a s b s' :
  yields r a s -> (forall c, good c -> rest c = s -> yields (f (a, c)) b s') -> yields (rbind f r) b s'.
Proof. intros (c & -> & Hg & Hr) Hf. cbn. auto. Qed.

Lemma yields_Ok {A} (a : A) c s : good c -> rest c = s -> yields (Ok (a, c)) a s.
Proof. intros; by exists c. Qed.

Lemma str_drop_app k s : str_drop (str_len k) (k +:+ s) = s.
Proof. unfold str_len. induction k as [|b k IH]; [done|]. rewrite app_str_cons. exact IH. Qed.

Lemma str_take_app k s : str_take (str_len k) (k +:+ s) = k.
Proof.
  unfold str_len. induction k as [|b k IH]; [by destruct s|]. rewrite app_str_cons. cbn. by rewrite IH.
Qed.


Lemma good_app c k s : good c -> rest c = k +:+ s -> utf8_valid k = true ->
  good (advance (str_len k) c) /\ rest (advance (str_len k) c) = s.
Proof.
  intros [Hu Hp] Hr Hk. assert (Hs : rest (advance (str_len k) c) = s) by (by rewrite rest_advance, Hr, str_drop_app).
  split; [|done]. split.
  - by rewrite Hs, <-(utf8_valid_app k), <-Hr.
  - assert (Hl := rest_length c). rewrite Hr, str_len_app in Hl. unfold remaining in Hl. cbn. lia.
Qed.

Lemma good_cons c b s : good c -> rest c = String b s -> is_ascii b = true -> good (bump c) /\ rest (bump c) = s.
Proof. intros Hg Hr Hb. apply (good_app c (char_str b) s Hg Hr). cbn. unfold is_ascii in Hb. by rewrite Hb. Qed.

Lemma peek_cons c b s : rest c = String b s -> peek c = b.
Proof. intros Hr. by rewrite peek_rest, Hr. Qed.

Lemma peek_at_cons c k b s : rest c = String b s -> peek_at c (S k) = byte_at k s.
Proof. intros Hr. by rewrite peek_at_rest, Hr. Qed.

Lemma eof_cons c b s : rest c = String b s -> eof c = false.
Proof. intros Hr. by rewrite eof_rest, Hr. Qed.

Lemma remaining_rest c s : rest c = s -> remaining c = str_len s.
Proof. intros <-. by rewrite rest_length. Qed.

(** The first byte of [s], the [NUL] of [peek] at the end. *)
Definition head_byte (s : string) : ascii := byte_at 0 s.

(** ** Blanks *)

Definition visible (s : string) : bool := negb (is_ws (head_byte s)) && negb (isb (head_byte s) "#"%char).

Lemma skipws_yields w : forall c s, str_forallb is_ws w = true -> visible s = true ->
  good c -> rest c = w +:+ s -> good (skipws c) /\ rest (skipws c) = s.
Proof.
  intros c s Hw [Hv1 Hv2]%andb_prop. unfold skipws. apply negb_true_iff in Hv1, Hv2.
  assert (H : forall n w c, str_len w <= n -> str_forallb is_ws w = true -> good c -> rest c = w +:+ s ->
            good (skipws_go n c) /\ rest (skipws_go n c) = s).
  { clear -Hv1 Hv2. induction n as [|n IH]; intros [|b w] c Hn Hw Hg Hr; cbn [skipws_go].
    - by rewrite app_str_nil_l in Hr.
    - rewrite str_len_cons in Hn. lia.
    - rewrite app_str_nil_l in Hr. rewrite peek_rest, Hr. fold (head_byte s). by rewrite Hv1, Hv2.
    - rewrite app_str_cons in Hr. rewrite (peek_cons c b _ Hr). cbn in Hw. apply andb_prop in Hw as [Hb Hw].
      rewrite Hb. destruct (good_cons c b _ Hg Hr) as [Hg' Hr'].
      { by apply is_ws_plain, andb_prop in Hb as [? _]. }
      apply (IH w); [rewrite str_len_cons in Hn; lia|done..]. }
  intros Hg Hr. apply (H _ w); [|done..]. rewrite (remaining_rest c _ Hr), str_len_app. lia.
Qed.

Lemma skipws_none c s : visible s = true -> good c -> rest c = s -> good (skipws c) /\ rest (skipws c) = s.
Proof. intros. by apply (skipws_yields ""). Qed.

Lemma skipws_at c b s : good c -> rest c = String b s -> negb (is_ws b) && negb (isb b "#"%char) = true ->
  good (skipws c) /\ rest (skipws c) = String b s.
Proof. intros. by apply (skipws_yields ""). Qed.

Lemma skipws_space c b s : good c -> rest c = String " " (String b s) ->
  negb (is_ws b) && negb (isb b "#"%char) = true -> good (skipws c) /\ rest (skipws c) = String b s.
Proof. intros. by apply (skipws_yields " "). Qed.

(** ** Characters, IRIs and strings *)

Lemma slice_app c k s : good c -> rest c = k +:+ s -> utf8_valid k = true ->
  slice (c_text c) (c_pos c) (c_pos c + str_len k) = Ok k.
Proof.
  intros Hg Hr Hk. destruct (good_app c k s Hg Hr Hk) as [Hg' _].
  assert (H1 := good_boundary c Hg). assert (H2 := good_boundary _ Hg'). cbn in H2.
  unfold slice. rewrite H1, H2, (proj2 (Nat.leb_le _ _)) by lia. cbn [andb].
  replace (c_pos c + str_len k - c_pos c) with (str_len k) by lia. fold (rest c). by rewrite Hr, str_take_app.
Qed.

Lemma char_length ch s : is_char ch -> Nat.max 1 (utf8_len (head_byte (ch +:+ s))) = str_len ch.
Proof.
  destruct 1 as [b Hb|b t _ Hl _]; unfold char_str; rewrite ?app_str_cons; cbn [head_byte byte_at].
  - unfold utf8_len. unfold is_ascii in Hb. by rewrite Hb.
  - unfold head_byte. cbn. rewrite Hl, str_len_cons. lia.
Qed.

Lemma copy_char_yields c ch s : is_char ch -> good c -> rest c = ch +:+ s -> yields (copy_char c) ch s.
Proof.
  intros Hch Hg Hr. unfold copy_char. rewrite peek_rest, Hr. fold (head_byte (ch +:+ s)).
  rewrite char_length by done. assert (Hv := is_char_valid ch Hch). rewrite (slice_app c ch s) by done. cbn.
  destruct (good_app c ch s) as [? ?]; [done..|]. by apply yields_Ok.
Qed.

(** The first byte of a character, and its class. *)
Lemma char_head ch s : is_char ch -> exists b t, ch +:+ s = String b (t +:+ s) /\ ch = String b t /\
  (is_ascii b = true -> t = "") .
Proof.
  destruct 1 as [b Hb|b t Ht Hl Hv].
  - by exists b, "".
  - exists b, t. split; [done|]. split; [done|]. intros Hb. exfalso. cbn in Ht. unfold high in Ht. by rewrite Hb in Ht.
Qed.

(** Bytes of an IRI that [read_iriref] copies. *)
Definition iri_byte (b : ascii) : bool := negb (isb b ">"%char) && negb (isb b BACKSLASH).
Definition iri_ok (s : string) : bool := utf8_valid s && str_forallb iri_byte s.

Lemma iriref_loop_yields iri : utf8_valid iri = true -> str_forallb iri_byte iri = true ->
  forall n c out s, good c -> rest c = iri +:+ String ">" s -> remaining c < n ->
  yields (iriref_loop n c out) (out +:+ iri) s.
Proof.
  intros Hu. pattern iri. revert iri Hu. apply utf8_ind.
  - intros _ n c out s Hg Hr Hn. destruct n as [|n]; [lia|]. rewrite app_str_nil_l in Hr. cbn [iriref_loop].
    rewrite (eof_cons _ _ _ Hr), (peek_cons _ _ _ Hr). cbn. rewrite app_str_nil_r.
    destruct (good_cons c _ _ Hg Hr) as [? ?]; [done|]. by apply yields_Ok.
  - intros ch iri Hch Hu IH Hb n c out s Hg Hr Hn. destruct n as [|n]; [lia|].
    rewrite str_forallb_app in Hb. apply andb_prop in Hb as [Hbc Hbi]. rewrite app_str_assoc in Hr.
    destruct (char_head ch (iri +:+ String ">" s) Hch) as (b & t & Hbt & -> & _).
    assert (Hr' := Hr). rewrite Hbt in Hr'. cbn [iriref_loop]. rewrite (eof_cons _ _ _ Hr'), (peek_cons _ _ _ Hr').
    cbn in Hbc. apply andb_prop in Hbc as [[H1%negb_true_iff H2%negb_true_iff]%andb_prop _]. rewrite H1, H2.
    eapply yields_bind; [by apply copy_char_yields|]. intros c' Hg' Hr''. rewrite <-(app_str_assoc out).
    apply IH; [done..|]. rewrite (remaining_rest _ _ Hr''). rewrite (remaining_rest _ _ Hr) in Hn.
    rewrite str_len_app, str_len_cons in Hn. lia.
Qed.

Lemma read_iriref_yields iri c s : iri_ok iri = true -> good c -> rest c = "<" +:+ iri +:+ ">" +:+ s ->
  yields (read_iriref c) iri s.
Proof.
  intros [Hu Hb]%andb_prop Hg Hr. destruct (good_cons c _ _ Hg Hr) as [Hg' Hr']; [done|]. unfold read_iriref.
  apply (iriref_loop_yields iri Hu Hb _ _ "" s); [done..|lia].
Qed.

Lemma quoted_high t : str_forallb high t = true -> str_map quoted_char t = t.
Proof.
  induction t as [|b t IH]; [done|]. cbn. intros [Hb Ht]%andb_prop. rewrite IH by done.
  assert (quoted_char b = char_str b) as ->; [|done]. clear -Hb. by ascii_cases b.
Qed.

(** One escaped or plain ASCII byte of a literal. *)
Lemma quoted_step b n c out s : is_ascii b = true -> good c -> rest c = quoted_char b +:+ s ->
  exists c', good c' /\ rest c' = s /\
    string_loop DQ false (S n) c out = string_loop DQ false n c' (out +:+ char_str b).
Proof.
  intros Hb Hg Hr.
  assert (Hcase : (quoted_char b = char_str b /\ isb b DQ = false /\ isb b NL = false /\ isb b "013"%char = false /\
             isb b BACKSLASH = false) \/
            (exists e, quoted_char b = String BACKSLASH (char_str e) /\ simple_escape e = Some b /\ is_ascii e = true)).
  { clear -Hb. revert Hb. ascii_cases b; try done; intros _;
      first [by left | right; eexists; split; [reflexivity|by split]]. }
  destruct Hcase as [(Hq & H1 & H2 & H3 & H4)|(e & Hq & He & Hea)]; rewrite Hq in Hr; cbn [string_loop].
  - unfold char_str in Hr. rewrite app_str_cons, app_str_nil_l in Hr.
    rewrite (eof_cons _ _ _ Hr), (peek_cons _ _ _ Hr), H1, H2, H3, H4. cbn [negb andb orb].
    destruct (copy_char_yields c (char_str b) s) as (c' & -> & Hg' & Hr'); [by constructor|done..|].
    by exists c'.
  - unfold char_str in Hr. rewrite !app_str_cons, app_str_nil_l in Hr.
    rewrite (eof_cons _ _ _ Hr), (peek_cons _ _ _ Hr).
    change (isb BACKSLASH DQ) with false. change (isb BACKSLASH NL) with false.
    change (isb BACKSLASH "013"%char) with false. change (isb BACKSLASH BACKSLASH) with true.
    destruct (good_cons c _ _ Hg Hr) as [Hg1 Hr1]; [done|]. destruct (good_cons _ _ _ Hg1 Hr1) as [Hg2 Hr2]; [done|].
    cbv beta iota zeta. cbn [negb andb orb]. rewrite (peek_cons _ _ _ Hr1), He. by eexists.
Qed.

Lemma string_loop_yields lex : utf8_valid lex = true ->
  forall n c out s, good c -> rest c = str_map quoted_char lex +:+ String DQ s -> remaining c < n ->
  yields (string_loop DQ false n c out) (out +:+ lex) s.
Proof.
  intros Hu0. pattern lex. revert lex Hu0. apply utf8_ind.
  - intros n c out s Hg Hr Hn. destruct n as [|n]; [lia|]. cbn [str_map] in Hr. rewrite app_str_nil_l in Hr.
    cbn [string_loop]. rewrite (eof_cons _ _ _ Hr), (peek_cons _ _ _ Hr), app_str_nil_r.
    destruct (good_cons c _ _ Hg Hr) as [? ?]; [done|]. by apply yields_Ok.
  - intros ch lex Hch Hu IH n c out s Hg Hr Hn. destruct n as [|n]; [lia|].
    rewrite str_map_app, app_str_assoc in Hr.
    assert (Hfuel : forall c', rest c' = str_map quoted_char lex +:+ String DQ s -> remaining c' < n).
    { intros c' Hr'. rewrite (remaining_rest _ _ Hr'). rewrite (remaining_rest _ _ Hr), str_len_app in Hn.
      enough (0 < str_len (str_map quoted_char ch)) by lia. clear -Hch.
      destruct (char_head ch "" Hch) as (b & t & _ & -> & _). cbn [str_map]. rewrite str_len_app.
      assert (H : 0 < str_len (quoted_char b)) by (apply Nat.ltb_lt; by ascii_cases b). lia. }
    destruct Hch as [b Hb|b t Ht Hl Hv].
    + cbn [str_map char_str] in Hr. rewrite app_str_nil_r in Hr.
      destruct (quoted_step b n c out _ Hb Hg Hr) as (c' & Hg' & Hr' & ->).
      rewrite <-(app_str_assoc out). apply IH; auto.
    + rewrite quoted_high in Hr by done. assert (Hch : is_char (String b t)) by (by constructor).
      assert (Hr0 := Hr). rewrite app_str_cons in Hr0. cbn [string_loop].
      rewrite (eof_cons _ _ _ Hr0), (peek_cons _ _ _ Hr0).
      assert (Hhb : high b = true) by (cbn in Ht; by apply andb_prop in Ht as [? _]).
      assert (isb b DQ = false /\ isb b NL = false /\ isb b "013"%char = false /\ isb b BACKSLASH = false)
        as (-> & -> & -> & ->) by (clear -Hhb; by ascii_cases b).
      cbn [negb andb orb]. eapply yields_bind; [by apply copy_char_yields|]. intros c' Hg' Hr'.
      rewrite <-(app_str_assoc out). apply IH; auto.
Qed.

Lemma read_string_yields lex c s : utf8_valid lex = true -> head_byte s <> DQ -> good c ->
  rest c = write_quoted_literal lex +:+ s -> yields (read_string c) lex s.
Proof.
  intros Hu Hs Hg Hr. unfold write_quoted_literal, dq in Hr. rewrite app_str_cons, app_str_nil_l, app_str_cons in Hr.
  rewrite app_str_assoc, app_str_cons, app_str_nil_l in Hr.
  destruct (good_cons c _ _ Hg Hr) as [Hg' Hr']; [done|]. unfold read_string.
  rewrite (peek_cons _ _ _ Hr), (peek_at_cons _ 0 _ _ Hr), (peek_at_cons _ 1 _ _ Hr).
  assert (isb (byte_at 0 (str_map quoted_char lex +:+ String DQ s)) DQ &&
          isb (byte_at 1 (str_map quoted_char lex +:+ String DQ s)) DQ = false) as ->.
  { destruct lex as [|b lex].
    - cbn [str_map]. rewrite app_str_nil_l. cbn [byte_at]. unfold head_byte in Hs. unfold isb.
      rewrite (bool_decide_eq_false_2 (byte_at 0 s = DQ)) by done. apply andb_false_r.
    - cbn [str_map]. rewrite !app_str_assoc.
      assert (H : isb (byte_at 0 (quoted_char b +:+ str_map quoted_char lex +:+ String DQ s)) DQ = false)
        by (clear; by ascii_cases b).
      by rewrite H. }
  apply (string_loop_yields lex Hu _ _ "" s); [done..|lia].
Qed.

(** ** Numerals *)

Lemma pos_of_rest c k s c' : moved 0 c c' -> good c -> rest c = k +:+ s -> rest c' = s ->
  c_pos c' = c_pos c + str_len k.
Proof.
  intros (Ht & [_ Hp'] & _) [_ Hp] Hr Hr'. assert (H := rest_length c). assert (H' := rest_length c').
  rewrite Hr, str_len_app in H. rewrite Hr' in H'. unfold remaining in *. rewrite Ht in *. lia.
Qed.

Lemma slice_between c k s c' : moved 0 c c' -> good c -> rest c = k +:+ s -> rest c' = s -> utf8_valid k = true ->
  slice (c_text c) (c_pos c) (c_pos c') = Ok k.
Proof. intros Hm Hg Hr Hr' Hk. rewrite (pos_of_rest c k s c') by done. by apply (slice_app c k s). Qed.

Lemma drop_while_app f k s : str_forallb f k = true -> f (head_byte s) = false -> drop_while f (k +:+ s) = s.
Proof.
  intros Hk Hs. induction k as [|b k IH].
  - rewrite app_str_nil_l. destruct s as [|b s]; [done|]. cbn in *. by rewrite Hs.
  - rewrite app_str_cons. cbn in *. apply andb_prop in Hk as [-> Hk]. auto.
Qed.

Lemma skip_while_yields f c k s : (forall b, f b = true -> plain_byte b = true) -> str_forallb f k = true ->
  f (head_byte s) = false -> good c -> rest c = k +:+ s ->
  moved 0 c (skip_while f c) /\ rest (skip_while f c) = s.
Proof.
  intros Hf Hk Hs Hg Hr. split; [by apply skip_while_moved|]. unfold skip_while.
  rewrite rest_bump_while by done. rewrite Hr. by apply drop_while_app.
Qed.

Lemma take_while_yields f c k s : (forall b, f b = true -> plain_byte b = true) -> str_forallb f k = true ->
  f (head_byte s) = false -> good c -> rest c = k +:+ s -> yields (take_while f c) k s.
Proof.
  intros Hf Hk Hs Hg Hr. destruct (skip_while_yields f c k s) as [Hm Hr']; [done..|]. unfold take_while.
  assert (Hv : utf8_valid k = true).
  { apply utf8_valid_ascii. eapply str_forallb_impl; [|exact Hk]. intros b Hb%Hf.
    by apply andb_prop in Hb as [? _]. }
  rewrite (slice_between c k s) by done.
  apply yields_Ok; [by eapply moved_good|done].
Qed.

(** What follows a term: a blank or a comma. *)
Definition delimited (s : string) : Prop := head_byte s = " "%char \/ head_byte s = ","%char.

Definition is_sign (b : ascii) : bool := isb b "+"%char || isb b "-"%char.

(** A sign or nothing. *)
Definition sign_text (sg : string) : Prop := sg = "" \/ sg = "+" \/ sg = "-".

Lemma unsigned_split lex : exists sg, sign_text sg /\ lex = sg +:+ unsigned lex.
Proof.
  destruct lex as [|b lex]; [exists ""; by split; [left|]|]. cbn.
  destruct (bool_decide (b = "+"%char)) eqn:H1; [apply bool_decide_eq_true_1 in H1 as ->; exists "+"|].
  { by split; [right; left|]. }
  destruct (bool_decide (b = "-"%char)) eqn:H2; [apply bool_decide_eq_true_1 in H2 as ->; exists "-"|].
  { by split; [right; right|]. }
  exists "". split; [by left|done].
Qed.

Lemma digit_not_sign b : is_ascii_digit b = true -> isb b "+"%char || isb b "-"%char = false.
Proof. by ascii_cases b. Qed.

(** After the sign: [c1] of [read_number]. *)
Lemma sign_yields c sg s : sign_text sg -> isb (head_byte s) "+"%char || isb (head_byte s) "-"%char = false ->
  good c -> rest c = sg +:+ s ->
  let c1 := if isb (peek c) "+"%char || isb (peek c) "-"%char then bump c else c in moved 0 c c1 /\ rest c1 = s.
Proof.
  intros [->|[->| ->]] Hs Hg Hr; cbv zeta.
  - rewrite app_str_nil_l in Hr. rewrite peek_rest, Hr. fold (head_byte s). rewrite Hs. split; [by apply moved_refl|done].
  - rewrite app_str_cons, app_str_nil_l in Hr. rewrite (peek_cons _ _ _ Hr). destruct (good_cons _ _ _ Hg Hr); [done|].
    split; [|done]. apply (moved_le 0 1), moved_bump; [lia|done|]. by rewrite (peek_cons _ _ _ Hr).
  - rewrite app_str_cons, app_str_nil_l in Hr. rewrite (peek_cons _ _ _ Hr). destruct (good_cons _ _ _ Hg Hr); [done|].
    split; [|done]. apply (moved_le 0 1), moved_bump; [lia|done|]. by rewrite (peek_cons _ _ _ Hr).
Qed.

Lemma head_digits d s : negb (is_empty d) = true -> str_forallb is_ascii_digit d = true ->
  is_ascii_digit (head_byte (d +:+ s)) = true.
Proof. destruct d as [|b d]; [done|]. rewrite app_str_cons. cbn. by intros _ [? _]%andb_prop. Qed.

Lemma delimited_byte s f : delimited s -> f " "%char = false -> f ","%char = false -> f (head_byte s) = false.
Proof. by intros [-> | ->]. Qed.

Lemma sign_valid sg : sign_text sg -> utf8_valid sg = true.
Proof. by intros [->|[->| ->]]. Qed.

Lemma digits_valid d : str_forallb is_ascii_digit d = true -> utf8_valid d = true.
Proof.
  intros Hd. apply utf8_valid_ascii. eapply str_forallb_impl; [|exact Hd]. intros b Hb%digit_plain.
  by apply andb_prop in Hb as [? _].
Qed.

Lemma no_exponent s : delimited s -> isb (head_byte s) "e"%char || isb (head_byte s) "E"%char = false.
Proof. intros H. by apply (delimited_byte s (fun b => isb b "e"%char || isb b "E"%char)). Qed.

Lemma read_integer_yields c lex s : lex_is_integer lex = true -> delimited s -> good c -> rest c = lex +:+ s ->
  yields (read_number c) (lit_dt lex (XSD +:+ "integer")) s.
Proof.
  intros [Hne Hd]%andb_prop Hs Hg Hr. destruct (unsigned_split lex) as (sg & Hsg & Hlex).
  set (d := unsigned lex) in *. assert (Hr0 : rest c = sg +:+ d +:+ s) by (by rewrite Hr, Hlex, app_str_assoc).
  destruct (sign_yields c sg (d +:+ s)) as [Hm1 Hr1]; [done|by apply digit_not_sign, head_digits|done..|].
  unfold read_number. cbv zeta. set (c1 := if _ : bool then bump c else c) in *.
  destruct (skip_while_yields is_ascii_digit c1 d s) as [Hm2 Hr2];
    [apply digit_plain|done|by apply (delimited_byte s)|by eapply moved_good|done|].
  fold (skip_digits c1) in *. set (c2 := skip_digits c1) in *.
  rewrite (peek_rest c2), Hr2. fold (head_byte s).
  rewrite (delimited_byte s (fun b => isb b "."%char)) by done. cbn [andb].
  rewrite (peek_rest c2), Hr2. fold (head_byte s). rewrite no_exponent by done. cbn [andb].
  rewrite (slice_between c lex s); [|exact (moved_trans 0 0 _ _ _ Hm1 Hm2)|done..|].
  - apply yields_Ok; [by eapply moved_good|done].
  - rewrite Hlex. rewrite utf8_valid_app by (by apply sign_valid). by apply digits_valid.
Qed.

Lemma split_once_app b s l r : split_once b s = Some (l, r) -> s = l +:+ String b r.
Proof.
  revert l r. induction s as [|a s IH]; intros l r; [done|]. cbn. case_bool_decide as Hb.
  - intros [= <- <-]. by subst.
  - destruct (split_once b s) as [[l' r']|] eqn:He; [|done]. intros [= <- <-]. by rewrite app_str_cons, <-(IH l').
Qed.

Lemma read_decimal_yields c lex s : lex_is_decimal lex = true -> delimited s -> good c -> rest c = lex +:+ s ->
  yields (read_number c) (lit_dt lex (XSD +:+ "decimal")) s.
Proof.
  unfold lex_is_decimal. intros Hdec Hs Hg Hr. destruct (unsigned_split lex) as (sg & Hsg & Hlex).
  destruct (split_once "."%char (unsigned lex)) as [[d f]|] eqn:Hsp; [|done]. apply split_once_app in Hsp.
  apply andb_prop in Hdec as [[Hne Hd]%andb_prop Hf]. rewrite Hsp in Hlex.
  assert (Hr0 : rest c = sg +:+ d +:+ String "." (f +:+ s)) by (by rewrite Hr, Hlex, !app_str_assoc, app_str_cons).
  destruct (sign_yields c sg (d +:+ String "." (f +:+ s))) as [Hm1 Hr1]; [done| |done..|].
  { destruct d as [|b d]; [done|]. rewrite app_str_cons. cbn in Hd. apply andb_prop in Hd as [Hb _].
    by apply digit_not_sign. }
  unfold read_number. cbv zeta. set (c1 := if _ : bool then bump c else c) in *.
  destruct (skip_while_yields is_ascii_digit c1 d (String "." (f +:+ s))) as [Hm2 Hr2];
    [apply digit_plain|done|done|by eapply moved_good|done|].
  fold (skip_digits c1) in *. set (c2 := skip_digits c1) in *.
  rewrite (peek_cons c2 _ _ Hr2), (peek_at_cons c2 0 _ _ Hr2). fold (head_byte (f +:+ s)). rewrite head_digits by done.
  change (isb "."%char "."%char) with true. cbn [andb].
  assert (Hg2 : good c2) by (by eapply moved_good).
  destruct (good_cons c2 _ _ Hg2 Hr2) as [Hgb Hrb]; [done|].
  assert (Hm3 : moved 0 c2 (bump c2)).
  { apply (moved_le 0 1), moved_bump; [lia|done|]. by rewrite (peek_cons _ _ _ Hr2). }
  destruct (skip_while_yields is_ascii_digit (bump c2) f s) as [Hm4 Hr4];
    [apply digit_plain|done|by apply (delimited_byte s)|done..|].
  fold (skip_digits (bump c2)) in *. set (c3 := skip_digits (bump c2)) in *.
  rewrite (peek_rest c3), Hr4. fold (head_byte s). rewrite no_exponent by done. cbn [andb].
  rewrite (slice_between c lex s);
    [|exact (moved_trans 0 0 _ _ _ (moved_trans 0 0 _ _ _ Hm1 Hm2) (moved_trans 0 0 _ _ _ Hm3 Hm4))|done..|].
  - apply yields_Ok; [by eapply moved_good|done].
  - rewrite Hlex, utf8_valid_app, utf8_valid_app by first [by apply sign_valid | by apply digits_valid].
    cbn. by apply digits_valid.
Qed.

(** ** Terms *)

(** The terms a dump can hold: IRIs without [>] and backslash (the bytes that
    would end or escape them), labels and language tags of name bytes. *)
Definition term_ok (t : Term) : bool :=
  if (t_kind t =? K_IRI)%Z then iri_ok (t_lex t) && is_empty (t_dtype t) && is_empty (t_lang t)
  else if (t_kind t =? K_BNODE)%Z then
    negb (is_empty (t_lex t)) && str_forallb is_name_byte (t_lex t) && is_empty (t_dtype t) && is_empty (t_lang t)
  else (t_kind t =? K_LIT)%Z && utf8_valid (t_lex t) &&
       (if is_empty (t_lang t) then iri_ok (t_dtype t)
        else is_empty (t_dtype t) && str_forallb (fun b => is_ascii_alphanumeric b || isb b "-"%char) (t_lang t)).

Definition write (t : Term) : string := turtle_write_term t [].

(** A pattern slot: a blank node is a variable named after its label. *)
Definition slot_of (t : Term) : Slot := if (t_kind t =? K_BNODE)%Z then Var (BN +:+ t_lex t) else Ground t.

Lemma is_empty_nil s : is_empty s = true -> s = "".
Proof. by destruct s. Qed.

Lemma write_iri s : turtle_write_iri s [] = "<" +:+ s +:+ ">".
Proof. done. Qed.

Definition number_start (s : string) : bool :=
  let b := byte_at 0 s in
  is_ascii_digit b ||
  ((isb b "+"%char || isb b "-"%char) &&
   (is_ascii_digit (byte_at 1 s) || (isb (byte_at 1 s) "."%char && is_ascii_digit (byte_at 2 s)))) ||
  (isb b "."%char && is_ascii_digit (byte_at 1 s)).

Lemma starts_number_rest c : starts_number c = number_start (rest c).
Proof. unfold starts_number. by rewrite !peek_at_rest, peek_rest. Qed.

Lemma number_start_app sg t : sign_text sg ->
  is_ascii_digit (byte_at 0 t) || (isb (byte_at 0 t) "."%char && is_ascii_digit (byte_at 1 t)) = true ->
  number_start (sg +:+ t) = true.
Proof.
  unfold number_start. intros [->|[->| ->]] H; rewrite ?app_str_nil_l, ?app_str_cons, ?app_str_nil_l; cbn.
  - apply orb_prop in H as [-> | ->]; by rewrite ?orb_true_r.
  - by rewrite H.
  - by rewrite H.
Qed.

Lemma integer_start lex s : lex_is_integer lex = true -> number_start (lex +:+ s) = true.
Proof.
  intros [Hne Hd]%andb_prop. destruct (unsigned_split lex) as (sg & Hsg & ->). rewrite app_str_assoc.
  apply number_start_app; [done|]. assert (H := head_digits _ s Hne Hd). unfold head_byte in H. by rewrite H.
Qed.

Lemma decimal_start lex s : lex_is_decimal lex = true -> number_start (lex +:+ s) = true.
Proof.
  unfold lex_is_decimal. destruct (split_once "."%char (unsigned lex)) as [[d f]|] eqn:Hsp; [|done].
  apply split_once_app in Hsp. intros [[Hne Hd]%andb_prop Hf]%andb_prop.
  destruct (unsigned_split lex) as (sg & Hsg & Hlex). rewrite Hlex, Hsp, !app_str_assoc, app_str_cons.
  apply number_start_app; [done|]. destruct d as [|b d].
  - rewrite app_str_nil_l. cbn. exact (head_digits f s Hne Hf).
  - rewrite app_str_cons. cbn in *. by apply andb_prop in Hd as [-> _].
Qed.

Lemma number_start_plain s : number_start s = true ->
  isb (byte_at 0 s) "<"%char = false /\ isb (byte_at 0 s) DQ || isb (byte_at 0 s) "'"%char = false /\ visible s = true.
Proof.
  unfold number_start, visible, head_byte. generalize (byte_at 0 s). intros b.
  generalize (is_ascii_digit (byte_at 1 s)) (isb (byte_at 1 s) "."%char) (is_ascii_digit (byte_at 2 s)).
  clear. intros x y z. ascii_cases b; try by (intros; split_and!). all: cbn; by rewrite ?andb_false_r.
Qed.

Lemma quoted_head lex s : exists r, write_quoted_literal lex +:+ s = String DQ r.
Proof. eexists. unfold write_quoted_literal, dq. rewrite app_str_cons, app_str_nil_l, app_str_cons. done. Qed.

Lemma strip_word_app w s : strip_word w (w +:+ s) = Some s.
Proof.
  induction w as [|a w IH]; [done|]. rewrite app_str_cons. cbn. unfold eq_ignore_ascii_case.
  by rewrite bool_decide_eq_true_2.
Qed.

Lemma kw_app w c s : rest c = w +:+ s -> is_name_byte (head_byte s) = false -> kw w c = Some (advance (str_len w) c).
Proof. intros Hr Hs. unfold kw. rewrite Hr, strip_word_app. unfold head_byte in Hs. by rewrite Hs. Qed.

Lemma kw_none w c s : rest c = s ->
  match w with String a _ => negb (eq_ignore_ascii_case (head_byte s) a) | "" => false end = true -> kw w c = None.
Proof.
  intros Hr Hw. unfold kw. rewrite Hr. destruct w as [|a w]; [done|]. destruct s as [|b s]; [done|]. cbn in *.
  by apply negb_true_iff in Hw as ->.
Qed.

(** A literal's text and what parses it back. *)
Lemma bare_yields base t c s : bare_literal t = true -> t_kind t = K_LIT -> delimited s -> good c ->
  rest c = t_lex t +:+ s -> yields (parse_term_common [] base c) (Some t) s.
Proof.
  destruct t as [k lex dt lang]. cbn [t_kind t_lex]. unfold bare_literal. cbn [t_lex t_dtype t_lang].
  intros [Hl%is_empty_nil Hb]%andb_prop -> Hs Hg Hr. subst lang.
  assert (Hnum : forall name, (lex_is_integer lex = true /\ name = "integer") \/ (lex_is_decimal lex = true /\ name = "decimal") ->
            yields (parse_term_common [] base c) (Some (mkTerm K_LIT lex (XSD +:+ name) "")) s).
  { intros name H.
    assert (Hst : number_start (lex +:+ s) = true)
      by (destruct H as [[H _]|[H _]]; [by apply integer_start|by apply decimal_start]).
    destruct (number_start_plain _ Hst) as (H1 & H2 & H3).
    destruct (skipws_none c _ H3 Hg Hr) as [Hg' Hr']. unfold parse_term_common. cbv zeta.
    rewrite (peek_rest (skipws c)), Hr', H1, H2, starts_number_rest, Hr', Hst.
    destruct H as [[H ->]|[H ->]].
    - eapply yields_bind; [by apply read_integer_yields|]. intros. by apply yields_Ok.
    - eapply yields_bind; [by apply read_decimal_yields|]. intros. by apply yields_Ok. }
  apply orb_prop in Hb as [[[->%bool_decide_eq_true_1 H]%andb_prop|[->%bool_decide_eq_true_1 H]%andb_prop]%orb_prop
    |[->%bool_decide_eq_true_1 H]%andb_prop]; [apply Hnum; auto..|].
  assert (Hbool : forall w, (w = "true" \/ w = "false") -> lex = w ->
            yields (parse_term_common [] base c) (Some (boolean_term w)) s).
  { intros w Hw ->. assert (Hv : visible (w +:+ s) = true) by by destruct Hw as [-> | ->].
    destruct (skipws_none c _ Hv Hg Hr) as [Hg' Hr']. unfold parse_term_common. cbv zeta.
    rewrite (peek_rest (skipws c)), starts_number_rest, Hr'.
    assert (Hn : is_name_byte (head_byte s) = false) by by apply (delimited_byte s is_name_byte).
    destruct (good_app (skipws c) w s Hg' Hr') as [Hga Hra]; [by destruct Hw as [-> | ->]|].
    destruct Hw as [-> | ->].
    - change (byte_at 0 ("true" +:+ s)) with "t"%char. change (number_start ("true" +:+ s)) with false.
      rewrite (kw_app "true" _ s) by done. by apply yields_Ok.
    - change (byte_at 0 ("false" +:+ s)) with "f"%char. change (number_start ("false" +:+ s)) with false.
      rewrite (kw_none "true" _ _ Hr'), (kw_app "false" _ s) by done. by apply yields_Ok. }
  apply orb_prop in H as [->%bool_decide_eq_true_1| ->%bool_decide_eq_true_1]; [apply (Hbool "true")|apply (Hbool "false")]; auto.
Qed.

Lemma suffix_yields t c s : t_kind t = K_LIT -> term_ok t = true -> delimited s -> good c ->
  rest c = (if negb (is_empty (t_lang t)) then "@" +:+ t_lang t
            else if negb (is_empty (t_dtype t)) then "^^" +:+ turtle_write_iri (t_dtype t) [] else "") +:+ s ->
  yields (literal_suffix [] None (t_lex t) c) t s.
Proof.
  destruct t as [k lex dt lang]. cbn [t_kind t_lex t_dtype t_lang]. intros -> Hok Hs Hg Hr.
  unfold term_ok in Hok. cbn [t_kind t_lex t_dtype t_lang] in Hok. change (K_LIT =? K_IRI)%Z with false in Hok.
  change (K_LIT =? K_BNODE)%Z with false in Hok. change (K_LIT =? K_LIT)%Z with true in Hok. cbn [andb] in Hok.
  apply andb_prop in Hok as [Hu Hok]. unfold literal_suffix.
  destruct (is_empty lang) eqn:Hl; cbn [negb] in Hr.
  - apply is_empty_nil in Hl as ->. destruct (is_empty dt) eqn:Hd; cbn [negb] in Hr.
    + apply is_empty_nil in Hd as ->. rewrite app_str_nil_l in Hr. rewrite (peek_rest c), Hr. fold (head_byte s).
      rewrite (delimited_byte s (fun b => isb b "@"%char)), (delimited_byte s (fun b => isb b "^"%char)) by done.
      by apply yields_Ok.
    + rewrite write_iri, !app_str_assoc in Hr. assert (Hr0 := Hr). rewrite !app_str_cons, app_str_nil_l in Hr0.
      rewrite (peek_cons _ _ _ Hr0), (peek_at_cons _ 0 _ _ Hr0).
      destruct (good_cons _ _ _ Hg Hr0) as [Hg1 Hr1]; [done|]. destruct (good_cons _ _ _ Hg1 Hr1) as [Hg2 Hr2]; [done|].
      change (isb "^"%char "@"%char) with false. change (isb "^"%char "^"%char && isb (byte_at 0 _) "^"%char) with true.
      cbv iota zeta. edestruct skipws_none as [Hg3 Hr3]; [|exact Hg2|exact Hr2|]; [done|]. rewrite (peek_cons _ _ _ Hr3).
      change (isb "<"%char "<"%char) with true. cbv iota.
      eapply yields_bind.
      { eapply yields_bind; [apply (read_iriref_yields dt _ s Hok Hg3)|].
        - rewrite Hr3, !app_str_cons, app_str_nil_l. done.
        - intros c' Hg' Hr'. by apply yields_Ok. }
      intros c' Hg' Hr'. by apply yields_Ok.
  - apply andb_prop in Hok as [Hd%is_empty_nil Hb]. subst dt. rewrite app_str_assoc in Hr. assert (Hr0 := Hr).
    rewrite app_str_cons, app_str_nil_l in Hr0. rewrite (peek_cons _ _ _ Hr0). change (isb "@"%char "@"%char) with true.
    destruct (good_cons _ _ _ Hg Hr0) as [Hg1 Hr1]; [done|]. cbv iota.
    eapply yields_bind.
    { apply (take_while_yields _ _ lang s); [apply tag_byte_plain|done| |done..].
      by apply (delimited_byte s (fun b => is_ascii_alphanumeric b || isb b "-"%char)). }
    intros c' Hg' Hr'. rewrite Hl. by apply yields_Ok.
Qed.

(** A term that is no blank node, with nothing before it. *)
Lemma term_yields t c s : term_ok t = true -> (t_kind t =? K_BNODE)%Z = false -> delimited s -> good c ->
  rest c = write t +:+ s -> yields (parse_term_common [] None c) (Some t) s.
Proof.
  intros Hok Hb Hs Hg Hr. unfold write, turtle_write_term in Hr. rewrite Hb in Hr.
  destruct (t_kind t =? K_IRI)%Z eqn:Hk.
  - unfold term_ok in Hok. rewrite Hk in Hok. apply andb_prop in Hok as [[Hi Hd%is_empty_nil]%andb_prop Hl%is_empty_nil].
    rewrite write_iri in Hr. destruct t as [k lex dt lang]. cbn [t_kind t_lex t_dtype t_lang] in *. subst dt lang.
    apply Z.eqb_eq in Hk. subst k.
    assert (Hv : visible (("<" +:+ lex +:+ ">") +:+ s) = true) by done.
    destruct (skipws_none c _ Hv Hg Hr) as [Hg' Hr']. unfold parse_term_common. cbv zeta.
    rewrite (peek_rest (skipws c)), Hr'. change (isb (byte_at 0 _) "<"%char) with true. cbv iota.
    rewrite !app_str_assoc in Hr'. eapply yields_bind; [by apply (read_iriref_yields lex _ s)|].
    intros c' Hg2 Hr2. by apply yields_Ok.
  - assert (Hlit : t_kind t = K_LIT).
    { unfold term_ok in Hok. rewrite Hk, Hb in Hok. by apply andb_prop in Hok as [[H%Z.eqb_eq _]%andb_prop _]. }
    destruct (bare_literal t) eqn:Hbare; [by apply bare_yields|].
    rewrite app_str_assoc in Hr. set (suf := if negb (is_empty (t_lang t)) then _ else _) in Hr.
    destruct (quoted_head (t_lex t) (suf +:+ s)) as [r Hq].
    assert (Hv : visible (write_quoted_literal (t_lex t) +:+ suf +:+ s) = true) by by rewrite Hq.
    destruct (skipws_none c _ Hv Hg Hr) as [Hg' Hr']. unfold parse_term_common. cbv zeta.
    rewrite (peek_rest (skipws c)), Hr', Hq. change (isb (byte_at 0 (String DQ r)) "<"%char) with false.
    change (isb (byte_at 0 (String DQ r)) DQ || isb (byte_at 0 (String DQ r)) "'"%char) with true. cbv iota.
    eapply yields_bind.
    { apply (read_string_yields (t_lex t) _ (suf +:+ s)); [|clear Hq Hv Hr Hr'|done..].
      - unfold term_ok in Hok. rewrite Hk, Hb in Hok. by apply andb_prop in Hok as [[_ ?]%andb_prop _].
      - unfold suf. destruct (negb _); [done|]. destruct (negb _); [done|]. rewrite app_str_nil_l.
        destruct Hs as [-> | ->]; done. }
    intros c' Hg2 Hr2. eapply yields_bind; [by apply suffix_yields|]. intros. by apply yields_Ok.
Qed.

Lemma write_visible t s : term_ok t = true -> visible (write t +:+ s) = true.
Proof.
  intros Hok. unfold write, turtle_write_term. destruct (t_kind t =? K_IRI)%Z; [by rewrite write_iri|].
  destruct (t_kind t =? K_BNODE)%Z; [done|]. destruct (bare_literal t) eqn:Hb.
  - unfold bare_literal in Hb. apply andb_prop in Hb as [_ Hb].
    apply orb_prop in Hb as [[[_ H]%andb_prop|[_ H]%andb_prop]%orb_prop|[_ H]%andb_prop].
    + by apply (integer_start _ s), number_start_plain in H as (_ & _ & H).
    + by apply (decimal_start _ s), number_start_plain in H as (_ & _ & H).
    + by apply orb_prop in H as [->%bool_decide_eq_true_1| ->%bool_decide_eq_true_1].
  - rewrite app_str_assoc. destruct (quoted_head (t_lex t)
      ((if negb (is_empty (t_lang t)) then "@" +:+ t_lang t
        else if negb (is_empty (t_dtype t)) then "^^" +:+ turtle_write_iri (t_dtype t) [] else "") +:+ s)) as [r ->].
    done.
Qed.

(** Positions: a subject is no literal, a predicate is an IRI. *)
Definition position_ok (n : nat) (t : Term) : bool :=
  if n =? 0 then negb (is_literal t) else if n =? 1 then is_iri t else true.

Lemma write_not_var t s : term_ok t = true -> (t_kind t =? K_BNODE)%Z = false ->
  isb (head_byte (write t +:+ s)) "?"%char || isb (head_byte (write t +:+ s)) "$"%char = false /\
  isb (head_byte (write t +:+ s)) "_"%char = false.
Proof.
  intros Hok Hk. unfold write, turtle_write_term. rewrite Hk. destruct (t_kind t =? K_IRI)%Z; [by rewrite write_iri|].
  destruct (bare_literal t) eqn:Hb.
  - assert (Hn : forall x, number_start x = true ->
              isb (head_byte x) "?"%char || isb (head_byte x) "$"%char = false /\ isb (head_byte x) "_"%char = false).
    { clear. intros x. unfold number_start, head_byte. generalize (byte_at 0 x). intros b.
      generalize (is_ascii_digit (byte_at 1 x)) (isb (byte_at 1 x) "."%char) (is_ascii_digit (byte_at 2 x)).
      intros u v w. ascii_cases b; try by (intros; split). all: cbn; by rewrite ?andb_false_r. }
    unfold bare_literal in Hb. apply andb_prop in Hb as [_ Hb].
    apply orb_prop in Hb as [[[_ H]%andb_prop|[_ H]%andb_prop]%orb_prop|[_ H]%andb_prop].
    + by apply Hn, integer_start.
    + by apply Hn, decimal_start.
    + by apply orb_prop in H as [->%bool_decide_eq_true_1| ->%bool_decide_eq_true_1].
  - rewrite app_str_assoc. destruct (quoted_head (t_lex t)
      ((if negb (is_empty (t_lang t)) then "@" +:+ t_lang t
        else if negb (is_empty (t_dtype t)) then "^^" +:+ turtle_write_iri (t_dtype t) [] else "") +:+ s)) as [r ->].
    done.
Qed.

Lemma bnode_not_iri t : (t_kind t =? K_BNODE)%Z = true -> (t_kind t =? K_IRI)%Z = false.
Proof. by intros ->%Z.eqb_eq. Qed.

Lemma qt_yields n w t c s : term_ok t = true -> position_ok n t = true -> str_forallb is_ws w = true ->
  delimited s -> good c -> rest c = w +:+ write t +:+ s -> yields (qt [] None n c) (slot_of t) s.
Proof.
  intros Hok Hpos Hw Hs Hg Hr. destruct (skipws_yields w c _ Hw (write_visible t s Hok) Hg Hr) as [Hg' Hr'].
  unfold qt, slot_of, at_var. cbv zeta. set (c1 := skipws c) in *. rewrite (peek_rest c1), Hr'.
  fold (head_byte (write t +:+ s)). destruct (t_kind t =? K_BNODE)%Z eqn:Hk.
  - assert (Hwt : write t = "_:" +:+ t_lex t).
    { unfold write, turtle_write_term. by rewrite Hk, bnode_not_iri. }
    unfold term_ok in Hok. rewrite Hk, bnode_not_iri in Hok by done.
    apply andb_prop in Hok as [[[Hne Hnb]%andb_prop _]%andb_prop _].
    rewrite Hwt, app_str_assoc, !app_str_cons, app_str_nil_l in *. cbn [head_byte byte_at].
    rewrite (peek_at_cons _ 0 _ _ Hr'). unfold head_byte. cbn [byte_at].
    change (isb "_"%char "?"%char || isb "_"%char "$"%char) with false.
    change (isb "_"%char "_"%char && isb ":"%char ":"%char) with true. cbv iota.
    destruct (good_cons _ _ _ Hg' Hr') as [Hg1 Hr1]; [done|]. destruct (good_cons _ _ _ Hg1 Hr1) as [Hg2 Hr2]; [done|].
    eapply yields_bind.
    { apply (take_while_yields _ _ (t_lex t) s); [apply is_name_byte_plain|done|by apply (delimited_byte s is_name_byte)|done..]. }
    intros c' Hg3 Hr3. cbv beta iota. apply negb_true_iff in Hne as ->. by apply yields_Ok.
  - destruct (write_not_var t s Hok Hk) as [H1 H2]. rewrite H1, H2. cbn [andb].
    assert (Hq : yields (qt_term [] None n c1) (Ground t) s).
    { unfold qt_term. eapply yields_bind; [by apply term_yields|]. intros c2 Hg2 Hr2. unfold position_ok in Hpos.
      destruct (n =? 0) eqn:H0.
      - apply negb_true_iff in Hpos. rewrite Hpos. destruct (n =? 1) eqn:Hn1; [apply Nat.eqb_eq in H0, Hn1; lia|].
        by apply yields_Ok.
      - cbn [andb]. destruct (n =? 1); [|by apply yields_Ok]. rewrite Hpos. cbn [andb negb].
        rewrite (peek_rest c2), Hr2. fold (head_byte s). rewrite (delimited_byte s is_path_operator) by done.
        by apply yields_Ok. }
    destruct (n =? 1) eqn:Hn; [|exact Hq]. unfold position_ok in Hpos. rewrite Hn in Hpos.
    destruct (n =? 0) eqn:H0; [apply Nat.eqb_eq in H0, Hn; lia|].
    assert (Hwt : write t = "<" +:+ t_lex t +:+ ">").
    { unfold write, turtle_write_term. unfold is_iri in Hpos. by rewrite Hpos, write_iri. }
    rewrite Hwt in *. change (isb (head_byte _) "^"%char) with false. cbv iota.
    rewrite (kw_none "a" _ _ Hr') by done. exact Hq.
Qed.

(** ** The body of a dump *)

(** The first byte of a subject. *)
Lemma write_first t s : term_ok t = true -> position_ok 0 t = true ->
  exists b r, write t +:+ s = String b r /\ (b = "<"%char \/ b = "_"%char).
Proof.
  unfold term_ok, position_ok, is_literal, write, turtle_write_term. intros Hok Hpos.
  destruct (t_kind t =? K_IRI)%Z.
  - rewrite write_iri, !app_str_cons. eexists _, _. by split; [|left].
  - destruct (t_kind t =? K_BNODE)%Z.
    + rewrite !app_str_cons. eexists _, _. by split; [|right].
    + apply andb_prop in Hok as [[H _]%andb_prop _]. by rewrite H in Hpos.
Qed.

Definition pattern_of (t : Triple) : TriplePattern :=
  let '(s, p, o) := t in mkTriplePattern (slot_of s) (slot_of p) (slot_of o).

Definition triple_ok (t : Triple) : bool :=
  let '(s, p, o) := t in term_ok s && term_ok p && term_ok o && position_ok 0 s && position_ok 1 p.

(** After an object, after the objects of a predicate, and both inside a data
    block. *)
Definition objects_tail (s p : Slot) (n : nat) (l : list TriplePattern) (c : Cur) : PResult (list TriplePattern * Cur) :=
  let c := skipws c in
  if isb (peek c) ","%char then objects_loop [] None s p n l (bump c) else Ok (l, c).

Definition predicates_tail (s : Slot) (n : nat) (l : list TriplePattern) (c : Cur) :
    PResult (list TriplePattern * Cur) :=
  let c := skipws c in
  if isb (peek c) ";"%char then
    let c := skipws (bump c) in
    let c := semicolons (remaining c) c in
    if isb (peek c) "."%char || isb (peek c) "}"%char || isb (peek c) NUL then Ok (l, c)
    else predicates_loop [] None s n l c
  else Ok (l, c).

Definition chain (s p : Slot) (n1 n2 n3 : nat) (l : list TriplePattern) (c : Cur) :
    PResult (list TriplePattern * Cur) :=
  let? (l, c) := objects_tail s p n1 l c in
  let? (l, c) := predicates_tail s n2 l c in
  data_loop [] None n3 l c.

Lemma rbind_assoc' {A B C} (f : A -> PResult B) (g : B -> PResult C) r :
  rbind g (rbind f r) = rbind (fun a => rbind g (f a)) r.
Proof. by destruct r. Qed.

Lemma rbind_pair {A B C} (f g : A * B -> PResult C) (r : PResult (A * B)) :
  (forall a b, f (a, b) = g (a, b)) -> rbind f r = rbind g r.
Proof. intros H. destruct r as [[a b]|]; cbn; auto. Qed.

(** An object, then what follows it. *)
Lemma object_chain s p o n1 n2 n3 w acc c z x :
  term_ok o = true -> str_forallb is_ws w = true -> delimited x -> good c -> rest c = w +:+ write o +:+ x ->
  (forall c', good c' -> rest c' = x -> yields (chain s p n1 n2 n3 (acc ++ [mkTriplePattern s p (slot_of o)]) c') z "") ->
  yields (rbind (fun '(l, c) => let? (l, c) := predicates_tail s n2 l c in data_loop [] None n3 l c)
            (objects_loop [] None s p (S n1) acc c)) z "".
Proof.
  intros Ho Hw Hx Hg Hr Hk. cbn [objects_loop]. rewrite rbind_assoc'.
  eapply yields_bind; [by apply (qt_yields 2 w)|]. intros c' Hg' Hr'. exact (Hk c' Hg' Hr').
Qed.

(** A predicate and its first object. *)
Lemma predicate_chain s p o n2 n3 w acc c z x :
  term_ok p = true -> position_ok 1 p = true -> term_ok o = true -> str_forallb is_ws w = true -> delimited x ->
  good c -> rest c = w +:+ write p +:+ " " +:+ write o +:+ x ->
  (forall c' n1, good c' -> rest c' = x -> remaining c' < n1 ->
    yields (chain s (slot_of p) n1 n2 n3 (acc ++ [mkTriplePattern s (slot_of p) (slot_of o)]) c') z "") ->
  yields (rbind (fun '(l, c) => data_loop [] None n3 l c) (predicates_loop [] None s (S n2) acc c)) z "".
Proof.
  intros Hp Hpp Ho Hw Hx Hg Hr Hk. cbn [predicates_loop]. rewrite rbind_assoc'.
  eapply yields_bind.
  { apply (qt_yields 1 w p c (" " +:+ write o +:+ x)); [done..|by left|done|done]. }
  intros c1 Hg1 Hr1. cbv beta iota. rewrite rbind_assoc'. erewrite rbind_pair.
  { apply (object_chain s (slot_of p) o (remaining c1) n2 n3 " " acc c1 z x); [done..|].
  intros c' Hg' Hr'. apply Hk; [done..|]. rewrite (remaining_rest _ _ Hr'), (remaining_rest _ _ Hr1).
  rewrite !str_len_app. change (str_len " ") with 1. lia. }
  intros l c'. reflexivity.
Qed.

(** A whole triple at the start of a subject. *)
Lemma subject_chain s p o n3 w acc c z x :
  triple_ok (s, p, o) = true -> str_forallb is_ws w = true -> delimited x -> good c ->
  rest c = w +:+ write s +:+ " " +:+ write p +:+ " " +:+ write o +:+ x ->
  (forall c' n1 n2, good c' -> rest c' = x -> remaining c' < n1 -> remaining c' < n2 ->
    yields (chain (slot_of s) (slot_of p) n1 n2 n3 (acc ++ [pattern_of (s, p, o)]) c') z "") ->
  yields (data_loop [] None (S n3) acc c) z "".
Proof.
  intros Hok Hw Hx Hg Hr Hk. unfold triple_ok in Hok.
  apply andb_prop in Hok as [[[[Hs Hp]%andb_prop Ho]%andb_prop Hs0]%andb_prop Hp1].
  assert (Hv := write_visible s (" " +:+ write p +:+ " " +:+ write o +:+ x) Hs).
  destruct (skipws_yields w c _ Hw Hv Hg Hr) as [Hg' Hr']. cbn [data_loop]. cbv zeta. set (c1 := skipws c) in *.
  destruct (write_first s (" " +:+ write p +:+ " " +:+ write o +:+ x) Hs Hs0) as (b & t & Hbt & Hb).
  assert (Hr0 := Hr'). rewrite Hbt in Hr0. rewrite (eof_cons _ _ _ Hr0), (peek_cons _ _ _ Hr0).
  rewrite (kw_none "GRAPH" _ _ Hr0) by (destruct Hb as [-> | ->]; done).
  assert (isb b "}"%char = false /\ isb b "."%char = false) as [-> ->] by (destruct Hb as [-> | ->]; done).
  unfold triples_block. rewrite rbind_assoc'.
  eapply yields_bind; [apply (qt_yields 0 "" s c1 (" " +:+ write p +:+ " " +:+ write o +:+ x)); [done..|by left|done|done]|].
  intros c2 Hg2 Hr2. cbv beta iota. erewrite rbind_pair.
  { apply (predicate_chain (slot_of s) p o (remaining c2) n3 " " acc c2 z x); [done..|].
    intros c' n1 Hgc Hrc Hn1. apply Hk; [done..|].
    rewrite (remaining_rest _ _ Hrc), (remaining_rest _ _ Hr2), !str_len_app. change (str_len " ") with 1. lia. }
  intros l c'. reflexivity.
Qed.

(** Every continuation of the body starts with a blank or a comma. *)
Lemma body_delimited prev l x : delimited (turtle_body [] (Some prev) l +:+ x).
Proof.
  destruct prev as [[s' p'] o'], l as [|[[s p] o] l]; [by left|]. cbn [turtle_body turtle_step].
  destruct (negb (bool_decide (s = s'))); [by left|]. destruct (negb (bool_decide (p = p'))); [by left|by right].
Qed.

Lemma data_end n acc c w : str_forallb is_ws w = true -> good c -> rest c = w +:+ "}" ->
  yields (data_loop [] None (S n) acc c) acc "".
Proof.
  intros Hw Hg Hr. cbn [data_loop]. destruct (skipws_yields w c "}" Hw) as [Hg' Hr']; [done..|]. cbv zeta.
  rewrite (eof_cons _ _ _ Hr'), (peek_cons _ _ _ Hr'). destruct (good_cons _ _ _ Hg' Hr') as [? ?]; [done|].
  by apply yields_Ok.
Qed.

(** The objects and predicates end at a dot, which the data block skips. *)
Lemma chain_dot s p n1 n2 n3 acc c x z :
  good c -> rest c = " ." +:+ x ->
  (forall c', good c' -> rest c' = x -> yields (data_loop [] None n3 acc c') z "") ->
  yields (chain s p n1 n2 (S n3) acc c) z "".
Proof.
  intros Hg Hr Hk. rewrite app_str_cons, app_str_cons, app_str_nil_l in Hr.
  destruct (skipws_space c _ _ Hg Hr eq_refl) as [Hg1 Hr1]. unfold chain, objects_tail. cbv zeta.
  rewrite (peek_cons _ _ _ Hr1). change (isb "."%char ","%char) with false. cbn [rbind]. unfold predicates_tail. cbv zeta.
  destruct (skipws_at _ _ _ Hg1 Hr1 eq_refl) as [Hg2 Hr2]. rewrite (peek_cons _ _ _ Hr2).
  change (isb "."%char ";"%char) with false. cbn [rbind data_loop].
  destruct (skipws_at _ _ _ Hg2 Hr2 eq_refl) as [Hg3 Hr3]. cbv zeta.
  rewrite (eof_cons _ _ _ Hr3), (peek_cons _ _ _ Hr3). change (isb "."%char "}"%char) with false.
  change (isb "."%char "."%char) with true. cbv iota.
  destruct (good_cons _ _ _ Hg3 Hr3) as [Hg4 Hr4]; [done|]. by apply Hk.
Qed.

Lemma semicolons_none n c b s : rest c = String b s -> isb b ";"%char = false -> semicolons n c = c.
Proof. intros Hr Hb. destruct n; [done|]. cbn. by rewrite (peek_cons _ _ _ Hr), Hb. Qed.

Lemma body_chain l : forall prev acc c n1 n2 n3,
  forallb triple_ok l = true -> triple_ok prev = true -> good c ->
  rest c = turtle_body [] (Some prev) l +:+ "}" ->
  remaining c < n1 -> remaining c < n2 -> remaining c < n3 ->
  let '(s, p, _) := prev in
  yields (chain (slot_of s) (slot_of p) n1 n2 n3 acc c) (acc ++ map pattern_of l) "".
Proof.
  induction l as [|[[s p] o] l IH]; intros [[s' p'] o'] acc c n1 n2 n3 Hl Hprev Hg Hr Hn1 Hn2 Hn3.
  { rewrite app_nil_r. cbn [turtle_body] in Hr. rewrite app_str_assoc in Hr.
    rewrite (remaining_rest _ _ Hr) in Hn3. change (str_len (" ." +:+ nl +:+ "}")) with 4 in Hn3.
    destruct n3 as [|[|n3]]; [lia|lia|].
    apply (chain_dot _ _ _ _ _ _ c (nl +:+ "}")); [done..|]. intros c' Hg' Hr'. by apply (data_end _ _ _ nl). }
  cbn [forallb map] in *. apply andb_prop in Hl as [Hok Hl]. assert (Hok' := Hok). unfold triple_ok in Hok'.
  apply andb_prop in Hok' as [[[[Hs Hp]%andb_prop Ho]%andb_prop Hs0]%andb_prop Hp1].
  set (x := turtle_body [] (Some (s, p, o)) l +:+ "}").
  assert (Hx : delimited x) by apply body_delimited.
  assert (Hacc : acc ++ pattern_of (s, p, o) :: map pattern_of l = (acc ++ [pattern_of (s, p, o)]) ++ map pattern_of l)
    by by rewrite <-(assoc (++)).
  rewrite Hacc. clear Hacc. cbn [turtle_body turtle_step] in Hr. rewrite app_str_assoc in Hr.
  fold (write s) (write p) (write o) in Hr.
  match type of Hr with _ = ?a +:+ _ => change (rest c = a +:+ x) in Hr end.
  assert (Ex : x = turtle_body [] (Some (s, p, o)) l +:+ "}") by done. clearbody x.
  case_bool_decide as Hss; cbn [negb] in Hr; [|]; [case_bool_decide as Hpp; cbn [negb] in Hr|].
  - subst s' p'. rewrite app_str_assoc in Hr. unfold chain, objects_tail. cbv zeta.
    assert (Hr0 := Hr). rewrite app_str_cons, app_str_cons, app_str_nil_l in Hr0.
    destruct (skipws_at _ _ _ Hg Hr0 eq_refl) as [Hg1 Hr1].
    rewrite (peek_cons _ _ _ Hr1). change (isb ","%char ","%char) with true. cbv iota.
    destruct (good_cons _ _ _ Hg1 Hr1) as [Hg2 Hr2]; [done|]. destruct n1 as [|n1]; [lia|].
    apply (object_chain (slot_of s) (slot_of p) o n1 n2 n3 " " acc (bump (skipws c)) _ x); [done..|].
    intros c' Hg' Hr'. assert (Hlt : remaining c' + 1 < remaining c).
    { rewrite (remaining_rest _ _ Hr'), (remaining_rest _ _ Hr). rewrite !str_len_app. change (str_len ", ") with 2. lia. }
    apply (IH (s, p, o)); [done..|by rewrite Hr'|lia|lia|lia].
  - subst s'. rewrite !app_str_assoc in Hr. unfold chain, objects_tail. cbv zeta. assert (Hr0 := Hr).
    rewrite app_str_cons, app_str_cons, app_str_nil_l in Hr0.
    destruct (skipws_space c _ _ Hg Hr0 eq_refl) as [Hg1 Hr1]. rewrite (peek_cons _ _ _ Hr1).
    change (isb ";"%char ","%char) with false. cbn [rbind]. unfold predicates_tail. cbv zeta.
    destruct (skipws_at _ _ _ Hg1 Hr1 eq_refl) as [Hg2 Hr2]. rewrite (peek_cons _ _ _ Hr2).
    change (isb ";"%char ";"%char) with true. cbv iota.
    destruct (good_cons _ _ _ Hg2 Hr2) as [Hg3 Hr3]; [done|].
    destruct (skipws_yields (nl +:+ "    ") _ (write p +:+ " " +:+ write o +:+ x) eq_refl
               (write_visible p _ Hp) Hg3) as [Hg4 Hr4]; [by rewrite Hr3, !app_str_assoc|].
    assert (Hwp : write p +:+ " " +:+ write o +:+ x = String "<" ((t_lex p +:+ ">") +:+ " " +:+ write o +:+ x)).
    { unfold write at 1, turtle_write_term. unfold position_ok in Hp1. cbn in Hp1. unfold is_iri in Hp1.
      rewrite Hp1, write_iri. by rewrite app_str_cons, app_str_nil_l. }
    assert (Hr5 := Hr4). rewrite Hwp in Hr5. rewrite (semicolons_none _ _ _ _ Hr5) by done.
    rewrite (peek_cons _ _ _ Hr5). change (isb "<"%char "."%char || isb "<"%char "}"%char || isb "<"%char NUL) with false.
    cbv iota. destruct n2 as [|n2]; [lia|].
    apply (predicate_chain (slot_of s) p o n2 n3 "" acc _ _ x); [done..|].
    intros c' m Hg' Hr' Hm. assert (Hlt : remaining c' + 1 < remaining c).
    { rewrite (remaining_rest _ _ Hr'), (remaining_rest _ _ Hr). rewrite !str_len_app. change (str_len " ;") with 2.
      change (str_len "    ") with 4. lia. }
    apply (IH (s, p, o)); [done..|by rewrite Hr'|lia|lia|lia].
  - rewrite !app_str_assoc in Hr. assert (Hrem := remaining_rest _ _ Hr). rewrite !str_len_app in Hrem.
    change (str_len " .") with 2 in Hrem. change (str_len " ") with 1 in Hrem.
    destruct n3 as [|[|n3]]; [lia|lia|].
    apply (chain_dot _ _ _ _ _ _ c (nl +:+ write s +:+ " " +:+ write p +:+ " " +:+ write o +:+ x)); [done..|].
    intros c1 Hg1 Hr1. apply (subject_chain s p o n3 nl acc c1 _ x); [done..|].
    intros c' m1 m2 Hg' Hr' Hm1 Hm2. assert (Hlt := remaining_rest _ _ Hr').
    apply (IH (s, p, o)); [done..|by rewrite Hr'|lia|lia|lia].
Qed.

Lemma data_block_yields l c : forallb triple_ok l = true -> good c ->
  rest c = " {" +:+ turtle_body [] None l +:+ "}" -> yields (data_block [] None c) (map pattern_of l) "".
Proof.
  intros Hl Hg Hr. rewrite !app_str_cons, app_str_nil_l in Hr. unfold data_block.
  destruct (skipws_space c _ _ Hg Hr eq_refl) as [Hg1 Hr1]. unfold expect. rewrite (peek_cons _ _ _ Hr1).
  change (isb "{"%char "{"%char) with true. cbn [rbind].
  destruct (good_cons _ _ _ Hg1 Hr1) as [Hg2 Hr2]; [done|]. set (c2 := bump (skipws c)) in *. clearbody c2.
  destruct l as [|[[s p] o] l].
  { by apply (data_end _ _ _ ""). }
  cbn [forallb] in Hl. apply andb_prop in Hl as [Hok Hl]. cbn [turtle_body turtle_step] in Hr2.
  rewrite !app_str_assoc in Hr2. fold (write s) (write p) (write o) in Hr2.
  set (x := turtle_body [] (Some (s, p, o)) l +:+ "}").
  change (rest c2 = write s +:+ " " +:+ write p +:+ " " +:+ write o +:+ x) in Hr2.
  assert (Hx : delimited x) by apply body_delimited.
  apply (subject_chain s p o _ "" [] c2 _ x); [done..|]. intros c' n1 n2 Hg' Hr' Hn1 Hn2.
  apply (body_chain l (s, p, o) [pattern_of (s, p, o)]); [done..|].
  rewrite (remaining_rest _ _ Hr'), (remaining_rest _ _ Hr2), !str_len_app. change (str_len " ") with 1. lia.
Qed.

Lemma no_named_vars l : existsb (has_var true) (map pattern_of l) = false.
Proof.
  induction l as [|[[s p] o] l IH]; [done|]. cbn [map existsb]. rewrite IH, orb_false_r.
  assert (H : forall t, match slot_var (slot_of t) with Some v => negb (true && starts_with BN v) | None => false end = false).
  { intros t. unfold slot_of. destruct (_ =? _)%Z; [|done]. cbn [slot_var]. unfold starts_with.
    by rewrite strip_prefix_app. }
  unfold has_var. cbn [slots pattern_of tp_s tp_p tp_o existsb]. by rewrite !H.
Qed.

Lemma sort_triples_perm l : sort_triples l ≡ₚ l.
Proof. apply merge_sort_Permutation. Qed.

Lemma sort_triples_ok l : forallb triple_ok l = true -> forallb triple_ok (sort_triples l) = true.
Proof.
  rewrite !List.forallb_forall. intros H t Ht. apply H. apply list_elem_of_In. rewrite <-sort_triples_perm.
  by apply list_elem_of_In.
Qed.

(** *** The dump is well-formed UTF-8 *)

Lemma valid_app a b : utf8_valid a = true -> utf8_valid b = true -> utf8_valid (a +:+ b) = true.
Proof. intros Ha Hb. by rewrite utf8_valid_app. Qed.

Lemma bytes_valid f k : (forall b, f b = true -> plain_byte b = true) -> str_forallb f k = true -> utf8_valid k = true.
Proof.
  intros Hf Hk. apply utf8_valid_ascii. eapply str_forallb_impl; [|exact Hk]. intros b Hb%Hf.
  by apply andb_prop in Hb as [? _].
Qed.

Lemma quoted_valid lex : utf8_valid lex = true -> utf8_valid (write_quoted_literal lex) = true.
Proof.
  intros Hu. unfold write_quoted_literal. apply valid_app; [done|]. apply valid_app; [|done].
  pattern lex. revert lex Hu. apply utf8_ind; [done|]. intros ch lex Hch _ IH. rewrite str_map_app.
  apply valid_app; [|done]. destruct Hch as [b Hb|b t Ht _ Hv]; [|by rewrite quoted_high].
  cbn. rewrite app_str_nil_r. revert Hb. by ascii_cases b.
Qed.

Lemma write_valid t : term_ok t = true -> utf8_valid (write t) = true.
Proof.
  unfold term_ok, write, turtle_write_term. destruct (t_kind t =? K_IRI)%Z.
  { intros [[[Hu _]%andb_prop _]%andb_prop _]%andb_prop. rewrite write_iri. by repeat apply valid_app. }
  destruct (t_kind t =? K_BNODE)%Z.
  { intros [[[_ Hb]%andb_prop _]%andb_prop _]%andb_prop. apply valid_app; [done|].
    by apply (bytes_valid is_name_byte); [apply is_name_byte_plain|]. }
  intros [[_ Hu]%andb_prop H]%andb_prop. destruct (bare_literal t); [done|].
  apply valid_app; [by apply quoted_valid|]. destruct (is_empty (t_lang t)); cbn [negb].
  - apply andb_prop in H as [Hd _]. destruct (negb _); [|done]. rewrite write_iri. by repeat apply valid_app.
  - apply andb_prop in H as [_ Hb]. apply valid_app; [done|]. eapply bytes_valid; [apply tag_byte_plain|done].
Qed.

Lemma body_valid l : forall prev, forallb triple_ok l = true -> utf8_valid (turtle_body [] prev l) = true.
Proof.
  induction l as [|[[s p] o] l IH]; intros prev; [by destruct prev|]. cbn [forallb turtle_body].
  intros [Hok Hl]%andb_prop. unfold triple_ok in Hok. apply andb_prop in Hok as [[[[Hs Hp]%andb_prop Ho]%andb_prop _]%andb_prop _].
  apply valid_app; [|by apply IH]. unfold turtle_step. fold (write s) (write p) (write o).
  assert (H1 := write_valid s Hs). assert (H2 := write_valid p Hp). assert (H3 := write_valid o Ho).
  destruct prev as [[[s' p'] o']|]; [destruct (negb _); [|destruct (negb _)]|]; by repeat apply valid_app.
Qed.

(** The update around a block [x] that parses to [l]. *)
Lemma insert_answer l x c : existsb (has_var true) l = false -> good c -> rest c = " DATA" +:+ x ->
  head_byte x = " "%char -> (forall c, good c -> rest c = x -> yields (data_block [] None c) l "") ->
  insert_data [] None c = Ok (PUpdate (mkUpdate InsertData l)).
Proof.
  intros Hl Hg Hr Hx Hdata. assert (Hr0 := Hr). rewrite !app_str_cons, app_str_nil_l in Hr0.
  destruct (skipws_space _ _ _ Hg Hr0 eq_refl) as [Hg1 Hr1].
  assert (Hr2 : rest (skipws c) = "DATA" +:+ x) by (by rewrite Hr1, !app_str_cons, app_str_nil_l).
  unfold insert_data. cbv zeta. rewrite (kw_app "DATA" _ x) by (done || by rewrite Hx).
  destruct (good_app _ "DATA" x Hg1 Hr2) as [Hg3 Hr3]; [done|].
  destruct (Hdata _ Hg3 Hr3) as (c' & -> & Hg' & Hr'). cbn [rbind]. rewrite Hl. unfold finish. cbv zeta.
  destruct (skipws_none c' "" eq_refl Hg' Hr') as [_ Hr6]. by rewrite eof_rest, Hr6.
Qed.

Lemma insert_parses l x c n : existsb (has_var true) l = false -> good c -> rest c = "INSERT DATA" +:+ x ->
  head_byte x = " "%char -> (forall c, good c -> rest c = x -> yields (data_block [] None c) l "") ->
  (let? (sc, c) := prologue (S n) (mkScope [] None) c in parse_form (sc_prefixes sc) (sc_base sc) (skipws c)) =
  Ok (PUpdate (mkUpdate InsertData l)).
Proof.
  intros Hl Hg Hr Hx Hdata. assert (Hr0 := Hr). rewrite app_str_cons in Hr0.
  destruct (skipws_at _ _ _ Hg Hr0 eq_refl) as [Hg1 Hr1]. cbn [prologue]. cbv zeta.
  rewrite !(kw_none _ _ _ Hr1) by done. cbn [rbind sc_prefixes sc_base].
  destruct (skipws_at _ _ _ Hg1 Hr1 eq_refl) as [Hg2 Hr2]. unfold parse_form. rewrite !(kw_none _ _ _ Hr2) by done.
  assert (Hr3 : rest (skipws (skipws c)) = "INSERT" +:+ (" DATA" +:+ x))
    by (by rewrite Hr2, !app_str_cons, app_str_nil_l).
  rewrite (kw_app "INSERT" _ _ Hr3) by done.
  destruct (good_app _ "INSERT" _ Hg2 Hr3) as [Hg4 Hr4]; [done|]. by apply (insert_answer l x).
Qed.

Lemma parse_dump l : forallb triple_ok l = true ->
  parse ("INSERT DATA {" +:+ serialize_turtle l [] +:+ "}") =
  Ok (PUpdate (mkUpdate InsertData (map pattern_of (sort_triples l)))) /\ sort_triples l ≡ₚ l.
Proof.
  intros Hok. split; [|apply sort_triples_perm]. assert (Hok' := sort_triples_ok l Hok).
  assert (Hs : serialize_turtle l [] = turtle_body [] None (sort_triples l)).
  { unfold serialize_turtle. cbn [map str_concat foldr]. by rewrite !app_str_nil_l. }
  rewrite Hs. clear Hs Hok. revert Hok'. generalize (sort_triples l). clear l. intros l Hl.
  apply (insert_parses _ (" {" +:+ turtle_body [] None l +:+ "}")); [apply no_named_vars| |done|done|].
  - split; [|cbn; lia]. cbn [rest Cur_new c_pos c_text str_drop].
    repeat apply valid_app; [done|by apply body_valid|done].
  - intros. by apply data_block_yields.
Qed.

(** A dump is an update: the Turtle of any triples, inside [INSERT DATA], is
    parsed back to the same triples, sorted, each blank node as the variable of
    its label. The IRIs may not contain [>] or a backslash, which are written
    unescaped. *)
Theorem dump_reads_back (l : list Triple) (Hok : forallb triple_ok l = true) :
  parse ("INSERT DATA {" +:+ serialize_turtle l [] +:+ "}") =
  Ok (PUpdate (mkUpdate InsertData (map pattern_of (sort_triples l)))) /\ sort_triples l ≡ₚ l.
Proof. by apply parse_dump. Qed.

Definition dump_example : list Triple :=
  [(iri "http://b", iri "p", lit (jq "a'\b")); (iri "http://a", iri "p", lit_dt "5" (XSD +:+ "integer"));
   (iri "http://a", iri "p", lit_lang "hej" "sv"); (bnode "g0n1", iri "q", lit_dt ".5" (XSD +:+ "decimal"))].

Lemma dump_reads_back_witness :
  parse ("INSERT DATA {" +:+ serialize_turtle dump_example [] +:+ "}") =
  Ok (PUpdate (mkUpdate InsertData (map pattern_of (sort_triples dump_example)))) /\
  sort_triples dump_example ≡ₚ dump_example.
Proof. apply (dump_reads_back dump_example). reflexivity. Defined.

(** ** JSON strings *)

(** Reads the text of a JSON string after its opening quote (RFC 8259, section
    7), up to and including the closing quote: the contents and what follows. *)
Fixpoint json_read (s : string) : option (string * string) :=
  match s with
  | "" => None
  | String b s' =>
      if isb b DQ then Some ("", s')
      else if isb b BACKSLASH then
        match s' with
        | String "u" (String h1 (String h2 (String h3 (String h4 s'')))) =>
            match hex_digit h1, hex_digit h2, hex_digit h3, hex_digit h4 with
            | Some a, Some b, Some c, Some d =>
                '(r, z) ← json_read s'';
                ch ← char_from_u32 (a * 4096 + b * 256 + c * 16 + d);
                Some (encode_utf8 ch +:+ r, z)
            | _, _, _, _ => None
            end
        | String e s'' =>
            '(r, z) ← json_read s'';
            if isb e "/"%char then Some (String "/" r, z)
            else if isb e "'"%char then None
            else ch ← simple_escape e; Some (String ch r, z)
        | "" => None
        end
      else if (byte_val b <? 0x20)%Z then None
      else '(r, z) ← json_read s'; Some (String b r, z)
  end.

Lemma json_read_char c s r z : json_read s = Some (r, z) -> json_read (json_escape_char c +:+ s) = Some (String c r, z).
Proof.
  intros H. assert (Hp : forall x, (forall b, json_read (x b) = match json_read b with
      Some (r, z) => Some (String c r, z) | None => None end) -> json_read (x s) = Some (String c r, z))
    by (intros x Hx; by rewrite Hx, H).
  ascii_cases c; apply (Hp (fun b => json_escape_char _ +:+ b)); intros b; reflexivity.
Qed.

(** Every string reads back from its JSON text, whatever its bytes; so no
    value, variable name or IRI can end the string it is printed in. *)
Theorem json_string_reads_back (s rest : string) :
  exists body, json_string s +:+ rest = String DQ body /\ json_read body = Some (s, rest).
Proof.
  exists (json_escape s +:+ String DQ rest). split.
  - unfold json_string, dq. by rewrite app_str_cons, app_str_nil_l, app_str_cons, app_str_assoc, app_str_cons, app_str_nil_l.
  - unfold json_escape. induction s as [|c s IH]; [by rewrite app_str_nil_l|].
    cbn [str_map]. rewrite app_str_assoc. by apply json_read_char.
Qed.
