(* ===== verification/SparqlTyping.v ===== *)
(** * SparqlTyping: what the parser lets through

    Every pattern of a parsed query or update is well typed: no literal
    subject, predicates that are IRIs, literals with a datatype or a language
    but not both; the bounds of LIMIT and OFFSET, and which variables the data
    of an update may hold. *)

From S2P Require Import Prelude RustStd SparqlTerm SparqlCursor SparqlParse.

Local Open Scope nat_scope.

(** ** The types *)

(** A term the parser makes: an IRI, or a literal with at most one of datatype
    and language. Blank nodes are variables. *)
Definition parsed_term (t : Term) : bool :=
  (is_iri t && is_empty (t_dtype t) && is_empty (t_lang t)) ||
  (is_literal t && (is_empty (t_dtype t) || is_empty (t_lang t))).

(** A slot at a position: 0 = subject, 1 = predicate, 2 = object. *)
Definition typed_slot (pos : nat) (s : Slot) : bool :=
  match s with
  | Var _ => true
  | Ground t => parsed_term t && (negb (pos =? 0)%nat || negb (is_literal t)) && (negb (pos =? 1)%nat || is_iri t)
  end.

Definition typed_pattern (tp : TriplePattern) : bool :=
  typed_slot 0 (tp_s tp) && typed_slot 1 (tp_p tp) && typed_slot 2 (tp_o tp).

(** A value of a filter is a variable, or a term with no function applied. *)
Definition typed_val (v : Val) : bool :=
  match v_var v, v_term v with
  | Some _, None => true
  | None, Some t => parsed_term t && bool_decide (v_func v = FNone)
  | _, _ => false
  end.

Fixpoint typed_expr (e : Expr) : bool :=
  match e with
  | EOr a b | EAnd a b | ECmp _ a b => typed_expr a && typed_expr b
  | ENot a => typed_expr a
  | EBound _ => true
  | ERegex text pattern flags =>
      typed_expr text && typed_expr pattern && match flags with Some f => typed_expr f | None => true end
  | EVal v => typed_val v
  end.

Fixpoint typed_group (g : Group) : bool :=
  forallb typed_pattern (g_triples g) && forallb typed_expr (g_filters g) &&
  forallb typed_group (g_optionals g) && forallb (forallb typed_group) (g_unions g).

Definition is_nil {A} (l : list A) : bool := match l with [] => true | _ => false end.

Definition count_ok (lo z : Z) : bool := (lo <=? z)%Z && (z <=? I64_MAX)%Z.

Definition typed_query (q : Query) : bool :=
  forallb typed_pattern (q_template q) && typed_group (q_pattern q) &&
  count_ok (-1) (q_limit q) && count_ok 0 (q_offset q) &&
  match q_form q with
  | Select => if q_star q then is_nil (q_sel q) else negb (is_nil (q_sel q))
  | Construct | Ask => negb (q_star q) && is_nil (q_sel q)
  end.

(** A blank node of the data is a variable of its own name space. *)
Definition ground_pattern (blanks : bool) (tp : TriplePattern) : bool :=
  forallb (fun s => match slot_var s with
                    | Some v => blanks && starts_with BN v
                    | None => true
                    end) (slots tp).

Definition typed_update (u : Update) : bool :=
  forallb typed_pattern (u_triples u) &&
  match u_kind u with
  | InsertData => forallb (ground_pattern true) (u_triples u)
  | DeleteData => forallb (ground_pattern false) (u_triples u)
  | DeleteWhere => true
  end.

Definition typed_parsed (p : Parsed) : bool :=
  match p with
  | PQuery q => typed_query q
  | PUpdate u => typed_update u
  end.

(** ** What a reader gives *)

Definition gives {A} (P : A -> Prop) (r : PResult A) : Prop := forall a, r = Ok a -> P a.

Notation "'gives1' P r" := (gives (fun p => P (fst p)) r) (at level 10, P at level 9, r at level 9) : rsntr_scope.

Lemma gives_bind {A B} (Q : A -> Prop) (P : B -> Prop) (r : PResult A) (f : A -> PResult B) :
  gives Q r -> (forall a, Q a -> gives P (f a)) -> gives P (rbind f r).
Proof. intros Hr Hf b. destruct r as [a|e]; cbn; [|done]. by apply Hf, Hr. Qed.

Lemma gives_any {A} (r : PResult A) : gives (fun _ => True) r.
Proof. done. Qed.

Lemma gives_err {A} (P : A -> Prop) c msg : gives P (err c msg).
Proof. intros a H. unfold err in H. by destruct (line_col _ _ _). Qed.

Lemma gives_fail {A} (P : A -> Prop) e : gives P (Err e).
Proof. done. Qed.

Lemma gives_ok {A} (P : A -> Prop) (a : A) : P a -> gives P (Ok a).
Proof. by intros H a' [= <-]. Qed.

Create HintDb gives.
#[export] Hint Resolve gives_err gives_fail : gives.

Ltac gv :=
  repeat (cbv beta zeta;
    match goal with
    | |- gives _ (rbind _ _) => eapply gives_bind; [first [solve [eauto with gives] | apply gives_any] | intros ? ?]
    | |- gives _ (err _ _) => apply gives_err
    | |- gives _ (Err _) => apply gives_fail
    | |- gives _ (Ok _) => apply gives_ok; cbn [fst snd]
    | |- gives _ (let '(_, _) := ?p in _) => destruct p; cbn [fst snd] in *
    | |- gives _ (if ?b then _ else _) => destruct b eqn:?
    | |- gives _ (match ?x with _ => _ end) => destruct x eqn:?; cbn [fst snd] in *
    end).

Lemma forallb_app_1 {A} (f : A -> bool) l x : forallb f l = true -> f x = true -> forallb f (l ++ [x]) = true.
Proof. intros Hl Hx. by rewrite forallb_app, Hl; cbn; rewrite Hx. Qed.
#[export] Hint Resolve forallb_app_1 : gives.

Section typing.
Variable prefixes : prefixes_t.
Variable base : option string.

(** ** Terms and triples *)

Lemma literal_suffix_typed lex c : gives1 (fun t => parsed_term t = true) (literal_suffix prefixes base lex c).
Proof.
  unfold literal_suffix. gv. all: try done.
  all: unfold parsed_term; cbn; by rewrite ?orb_true_r.
Qed.
#[local] Hint Resolve literal_suffix_typed : gives.

Lemma read_number_typed c : gives1 (fun t => parsed_term t = true) (read_number c).
Proof. unfold read_number. gv. unfold parsed_term. cbn. by rewrite orb_true_r. Qed.
#[local] Hint Resolve read_number_typed : gives.

Definition opt_parsed (o : option Term) : Prop := forall t, o = Some t -> parsed_term t = true.

Lemma parse_term_common_typed c : gives1 opt_parsed (parse_term_common prefixes base c).
Proof.
  unfold parse_term_common. gv. all: intros t' [= <-]; done.
Qed.
#[local] Hint Resolve parse_term_common_typed : gives.

Lemma qt_term_typed n c : gives1 (fun s => typed_slot n s = true) (qt_term prefixes base n c).
Proof.
  unfold qt_term. gv. cbn [typed_slot].
  match goal with H : opt_parsed (Some ?t) |- _ => assert (parsed_term t = true) as -> by by apply H end.
  destruct (n =? 0)%nat, (n =? 1)%nat; destruct (is_literal t), (is_iri t); cbn in *; done.
Qed.
#[local] Hint Resolve qt_term_typed : gives.

Lemma qt_typed n c : gives1 (fun s => typed_slot n s = true) (qt prefixes base n c).
Proof.
  unfold qt. gv; [done..| |by apply qt_term_typed|by apply qt_term_typed].
  match goal with H : (n =? 1)%nat = true |- _ => apply Nat.eqb_eq in H as -> end. done.
Qed.
#[local] Hint Resolve qt_typed : gives.

Definition typed_patterns (l : list TriplePattern) : Prop := forallb typed_pattern l = true.

Lemma objects_loop_typed s p n : typed_slot 0 s = true -> typed_slot 1 p = true ->
  forall l c, typed_patterns l -> gives1 typed_patterns (objects_loop prefixes base s p n l c).
Proof.
  intros Hs Hp. induction n as [|n IH]; intros l c Hl; cbn [objects_loop]; gv.
  - apply IH. apply forallb_app_1; [done|]. unfold typed_pattern. cbn. rewrite Hs, Hp. done.
  - apply forallb_app_1; [done|]. unfold typed_pattern. cbn. rewrite Hs, Hp. done.
Qed.
#[local] Hint Resolve objects_loop_typed : gives.

Lemma predicates_loop_typed s n : typed_slot 0 s = true ->
  forall l c, typed_patterns l -> gives1 typed_patterns (predicates_loop prefixes base s n l c).
Proof. intros Hs. induction n as [|n IH]; intros l c Hl; cbn [predicates_loop]; gv; auto. Qed.
#[local] Hint Resolve predicates_loop_typed : gives.

Lemma triples_block_typed l c : typed_patterns l -> gives1 typed_patterns (triples_block prefixes base l c).
Proof. intros Hl. unfold triples_block. gv. by apply predicates_loop_typed. Qed.
#[local] Hint Resolve triples_block_typed : gives.

(** ** Filters *)

Section expressions.
Variable primary : Cur -> PResult (Expr * Cur).
Hypothesis primary_typed : forall c, gives1 (fun e => typed_expr e = true) (primary c).
#[local] Hint Resolve primary_typed : gives.

Lemma unary_typed c : gives1 (fun e => typed_expr e = true) (unary primary c).
Proof. unfold unary. by gv. Qed.
#[local] Hint Resolve unary_typed : gives.

Lemma rel_typed c : gives1 (fun e => typed_expr e = true) (rel primary c).
Proof. unfold rel. gv; cbn; by rewrite ?andb_true_iff. Qed.
#[local] Hint Resolve rel_typed : gives.

Lemma chain_loop_typed operand sep mk n :
  (forall c, gives1 (fun e => typed_expr e = true) (operand c)) ->
  (forall a b, typed_expr a = true -> typed_expr b = true -> typed_expr (mk a b) = true) ->
  forall a c, typed_expr a = true -> gives1 (fun e => typed_expr e = true) (chain_loop operand sep mk n a c).
Proof. intros Ho Hm. induction n as [|n IH]; intros a c Ha; cbn [chain_loop]; gv; auto. Qed.

Lemma and_expr_typed c : gives1 (fun e => typed_expr e = true) (and_expr primary c).
Proof.
  unfold and_expr. gv. apply chain_loop_typed; [apply rel_typed| |done]. intros a b Ha Hb. cbn. by rewrite Ha.
Qed.
#[local] Hint Resolve and_expr_typed : gives.

Lemma or_expr_typed c : gives1 (fun e => typed_expr e = true) (or_expr primary c).
Proof.
  unfold or_expr. gv. apply chain_loop_typed; [apply and_expr_typed| |done]. intros a b Ha Hb. cbn. by rewrite Ha.
Qed.
#[local] Hint Resolve or_expr_typed : gives.

Lemma bound_call_typed c : gives1 (fun e => typed_expr e = true) (bound_call c).
Proof. unfold bound_call. by gv. Qed.
#[local] Hint Resolve bound_call_typed : gives.

Lemma regex_call_typed c : gives1 (fun e => typed_expr e = true) (regex_call primary c).
Proof.
  unfold regex_call. eapply gives_bind; [apply gives_any|]. intros c1 _. eapply gives_bind; [apply unary_typed|].
  intros [text c2] Ht. eapply gives_bind; [apply gives_any|]. intros c3 _. eapply gives_bind; [apply unary_typed|].
  intros [pattern c4] Hp. eapply (gives_bind (fun p : option Expr * Cur =>
    match fst p with Some f => typed_expr f = true | None => True end)); [by gv|].
  intros [flags c5] Hf. gv. cbn [fst typed_expr] in *. rewrite Ht, Hp. by destruct flags.
Qed.
#[local] Hint Resolve regex_call_typed : gives.

Lemma primary_step_typed c : gives1 (fun e => typed_expr e = true) (primary_step prefixes base primary c).
Proof.
  unfold primary_step. gv; [done..|apply bound_call_typed|apply regex_call_typed|].
  match goal with H : opt_parsed (Some ?t) |- _ => cbn; unfold typed_val; cbn; rewrite (H t eq_refl) end. done.
Qed.
End expressions.

Lemma primary_typed n : forall c, gives1 (fun e => typed_expr e = true) (primary prefixes base n c).
Proof. induction n as [|n IH]; intros c; cbn [primary]; [apply gives_fail|]. by apply primary_step_typed. Qed.

Lemma expression_typed c : gives1 (fun e => typed_expr e = true) (expression prefixes base c).
Proof. unfold expression. apply or_expr_typed. intros c'. apply primary_typed. Qed.
#[local] Hint Resolve expression_typed : gives.

(** ** Groups *)

Section groups.
Variable group : Cur -> PResult (Group * Cur).
Hypothesis group_typed : forall c, gives1 (fun g => typed_group g = true) (group c).
#[local] Hint Resolve group_typed : gives.

Lemma union_loop_typed n : forall bs c, forallb typed_group bs = true ->
  gives1 (fun bs => forallb typed_group bs = true) (union_loop group n bs c).
Proof. induction n as [|n IH]; intros bs c Hbs; cbn [union_loop]; gv; auto using forallb_app_1. Qed.
#[local] Hint Resolve union_loop_typed : gives.

Lemma typed_group_parts ts fs os us :
  typed_group (mkGroup ts fs os us) = true <->
  forallb typed_pattern ts = true /\ forallb typed_expr fs = true /\ forallb typed_group os = true /\
  forallb (forallb typed_group) us = true.
Proof. cbn [typed_group g_triples g_filters g_optionals g_unions]. rewrite !andb_true_iff. tauto. Qed.

Lemma group_loop_typed n : forall g c, typed_group g = true ->
  gives1 (fun g => typed_group g = true) (group_loop prefixes base group n g c).
Proof.
  induction n as [|n IH]; intros [ts fs os us] c Hg; cbn [group_loop g_triples g_filters g_optionals g_unions];
    [by apply gives_fail|].
  assert (Hg' := Hg). apply typed_group_parts in Hg' as (Ht & Hf & Ho & Hu).
  assert (Hts : typed_patterns ts) by done.
  assert (Hnil : forallb typed_group [] = true) by done.
  gv; auto; apply IH, typed_group_parts; split_and!; auto using forallb_app_1.
Qed.
End groups.

Lemma group_at_typed n : forall c, gives1 (fun g => typed_group g = true) (group_at prefixes base n c).
Proof. induction n as [|n IH]; intros c; cbn [group_at]; gv. by apply group_loop_typed. Qed.

Lemma group_typed c : gives1 (fun g => typed_group g = true) (group prefixes base c).
Proof. apply group_at_typed. Qed.
#[local] Hint Resolve group_typed : gives.

Lemma where_group_typed c : gives1 (fun g => typed_group g = true) (where_group prefixes base c).
Proof. apply group_typed. Qed.
#[local] Hint Resolve where_group_typed : gives.

(** ** Modifiers *)

Lemma bump_while_take f n : forall c, n <= remaining c ->
  exists j, bump_while f n c = advance j c /\ str_forallb f (str_take j (rest c)) = true.
Proof.
  induction n as [|n IH]; intros c Hn; cbn [bump_while].
  { exists 0. split; [|by destruct (rest c)]. unfold advance. rewrite Nat.add_0_r. by destruct c. }
  destruct (negb (eof c) && f (peek c)) eqn:Hf; [apply andb_prop in Hf as [_ Hf]|exists 0; split; [unfold advance; rewrite Nat.add_0_r; by destruct c|by destruct (rest c)]].
  destruct (IH (bump c)) as (j & -> & Hj); [unfold remaining, bump, advance in *; cbn [c_pos c_text] in *; lia|].
  exists (S j). split; [unfold bump, advance; cbn; f_equal; lia|].
  assert (Hr : rest c = String (peek c) (rest (bump c))).
  { rewrite peek_rest, (rest_advance 1). pose proof (rest_length c) as Hl. destruct (rest c) as [|b s]; [cbn in Hl; lia|].
    by destruct s. }
  rewrite Hr. cbn. by rewrite Hf.
Qed.

Lemma take_while_forall f c : gives1 (fun s => str_forallb f s = true) (take_while f c).
Proof.
  unfold take_while, skip_while. destruct (bump_while_take f (remaining c) c (le_n _)) as (j & Hc & Hj).
  cbv zeta. rewrite Hc. intros [s c'] H. apply rbind_Ok in H as (s' & Hs & [= <- <-]). cbn [fst].
  unfold slice, advance, rest in *. cbn [c_pos c_text] in Hs. destruct (_ && _); [|done].
  injection Hs as <-. by replace (c_pos c + j - c_pos c) with j by lia.
Qed.

Lemma digits_go_nonneg lo hi s : forall acc z, (0 <= acc)%Z -> digits_go false lo hi acc s = Ok z -> (0 <= z)%Z.
Proof.
  induction s as [|b s IH]; intros acc z Hacc; cbn; [by intros [= <-]|].
  unfold dec_digit. destruct (is_ascii_digit b) eqn:Hd; [|done]. case_match; [|done]. apply IH.
  unfold is_ascii_digit in Hd. apply in_range_spec in Hd. lia.
Qed.

Lemma parse_digits_range s z : str_forallb is_ascii_digit s = true -> parse_i64 s = Ok z -> count_ok 0 z = true.
Proof.
  intros Hs Hz. assert (Hr := parse_i64_range _ _ Hz). unfold is_i64 in Hr. unfold count_ok.
  enough (0 <= z)%Z by lia. revert Hz. unfold parse_i64, parse_int.
  destruct s as [|b s]; [done|]. cbn in Hs. apply andb_prop in Hs as [Hb _].
  rewrite !bool_decide_false by (by intros ->). cbn [orb andb]. by apply digits_go_nonneg.
Qed.

Lemma int_range c : gives1 (fun z => count_ok 0 z = true) (int c).
Proof.
  unfold int. eapply gives_bind; [apply take_while_forall|]. intros [s c'] Hs. cbn in Hs.
  destruct (is_empty s); [apply gives_err|]. apply gives_ok. cbn.
  destruct (parse_i64 s) as [z|e] eqn:Hz; [by eapply parse_digits_range|done].
Qed.
#[local] Hint Resolve int_range : gives.

(** The clauses of [typed_query], apart from those the modifiers change. *)
Lemma modifiers_typed n : forall q c, typed_query q = true -> gives1 (fun q => typed_query q = true) (modifiers n q c).
Proof.
  induction n as [|n IH]; intros q c Hq; cbn [modifiers]; gv; auto; apply IH.
  all: revert Hq; unfold typed_query; cbn [q_form q_star q_sel q_template q_pattern q_limit q_offset with_group_by with_order with_limit with_offset].
  all: rewrite ?andb_true_iff; intros Hq; destruct_and?; split_and?; try done.
  all: unfold count_ok in *; lia.
Qed.
#[local] Hint Resolve modifiers_typed : gives.

(** ** Data and forms *)

Lemma data_loop_typed n : forall l c, typed_patterns l -> gives1 typed_patterns (data_loop prefixes base n l c).
Proof. induction n as [|n IH]; intros l c Hl; cbn [data_loop]; gv; auto. Qed.
#[local] Hint Resolve data_loop_typed : gives.

Lemma data_block_typed c : gives1 typed_patterns (data_block prefixes base c).
Proof. unfold data_block. gv. by apply data_loop_typed. Qed.
#[local] Hint Resolve data_block_typed : gives.

Lemma template_loop_typed n : forall l c, typed_patterns l -> gives1 typed_patterns (template_loop prefixes base n l c).
Proof. induction n as [|n IH]; intros l c Hl; cbn [template_loop]; gv; auto. Qed.
#[local] Hint Resolve template_loop_typed : gives.

Lemma query_of_typed form distinct (star : bool) sel template g :
  typed_patterns template -> typed_group g = true ->
  match form with
  | Select => if star then is_nil sel else negb (is_nil sel)
  | Construct | Ask => negb star && is_nil sel
  end = true -> typed_query (query_of form distinct star sel template g) = true.
Proof. unfold typed_query, typed_patterns. cbn. by intros -> -> ->. Qed.

Lemma select_query_typed c : gives1 (fun q => typed_query q = true) (select_query prefixes base c).
Proof.
  unfold select_query. cbv zeta.
  destruct (match kw_any ["DISTINCT"; "REDUCED"] (skipws c) with Some c => (true, c) | None => (false, skipws c) end)
    as [distinct c1].
  cbv beta iota. eapply (gives_bind (fun p : (bool * list SelItem) * Cur => let '(star, sel) := fst p in (if star then is_nil sel else negb (is_nil sel)) = true)).
  { gv; try done. }
  intros [[star sel] c2] Hs. cbn in Hs. gv. by apply query_of_typed.
Qed.
#[local] Hint Resolve select_query_typed : gives.

Lemma construct_query_typed c : gives1 (fun q => typed_query q = true) (construct_query prefixes base c).
Proof.
  unfold construct_query. assert (Hnil : typed_patterns []) by done. gv. by apply query_of_typed.
Qed.

Lemma ask_query_typed c : gives1 (fun q => typed_query q = true) (ask_query prefixes base c).
Proof. unfold ask_query. gv. by apply query_of_typed. Qed.
#[local] Hint Resolve construct_query_typed ask_query_typed : gives.

Lemma finish_typed p c : typed_parsed p = true -> gives (fun p => typed_parsed p = true) (finish p c).
Proof. intros Hp. unfold finish. by gv. Qed.

Lemma ground_has_var b tp : has_var b tp = false -> ground_pattern b tp = true.
Proof.
  unfold has_var, ground_pattern. induction (slots tp) as [|s l IH]; cbn; [done|].
  intros [Hs Hl]%orb_false_elim. rewrite (IH Hl), andb_true_r. destruct (slot_var s) as [v|]; [|done].
  by apply negb_false_iff in Hs.
Qed.

Lemma ground_data b l : existsb (has_var b) l = false -> forallb (ground_pattern b) l = true.
Proof.
  induction l as [|tp l IH]; cbn [existsb forallb]; [done|]. intros [Htp Hl]%orb_false_elim. by rewrite ground_has_var, IH.
Qed.

Lemma insert_data_typed c : gives (fun p => typed_parsed p = true) (insert_data prefixes base c).
Proof.
  unfold insert_data. gv. apply finish_typed. unfold typed_parsed, typed_update. cbn [u_kind u_triples].
  match goal with H : existsb (has_var ?b) ?l = false |- _ => apply ground_data in H end.
    unfold typed_patterns in *. by apply andb_true_iff.
Qed.

Lemma delete_update_typed c : gives (fun p => typed_parsed p = true) (delete_update prefixes base c).
Proof.
  unfold delete_update. gv; apply finish_typed; unfold typed_parsed, typed_update; cbn [u_kind u_triples].
  - match goal with H : existsb (has_var ?b) ?l = false |- _ => apply ground_data in H end.
    unfold typed_patterns in *. by apply andb_true_iff.
  - rewrite andb_true_r. match goal with H : typed_group _ = true |- _ => by apply typed_group_parts in H as [] end.
Qed.

Lemma finish_query_typed r : gives1 (fun q => typed_query q = true) r ->
  gives (fun p => typed_parsed p = true) (finish_query prefixes base r).
Proof. intros Hr. unfold finish_query. gv. apply finish_typed. done. Qed.

Lemma parse_form_typed c : gives (fun p => typed_parsed p = true) (parse_form prefixes base c).
Proof.
  unfold parse_form. gv; auto using finish_query_typed, insert_data_typed, delete_update_typed,
    select_query_typed, construct_query_typed, ask_query_typed.
Qed.
End typing.

Lemma parse_typed text : gives (fun p => typed_parsed p = true) (parse text).
Proof. unfold parse. gv. apply parse_form_typed. Qed.

(** C35. What is parsed is well typed: in every pattern (of the WHERE groups, of
    OPTIONAL and UNION branches inside them, of a template, of the data) the
    subject is no literal, the predicate is an IRI or a variable, and a literal
    has no datatype beside a language; a value in a filter is a variable or a
    term, and only variables have functions applied; SELECT has either a star or a non-empty
    list of items, and the other forms neither; LIMIT and OFFSET are
    non-negative 64-bit integers or absent; INSERT DATA holds no variable but
    blank nodes, DELETE DATA none. *)
Theorem parse_well_typed (text : string) :
  match parse text with
  | Ok p => typed_parsed p = true
  | Err _ => True
  end.
Proof.
  destruct (parse text) as [p|e] eqn:Hp; [by apply (parse_typed text)|done].
Qed.
