(* ===== verification/SparqlStore.v ===== *)
(** * SparqlStore: the dictionary, the triples, and what runs over them

    Models [crates/sparql/src/store.rs]: the two tables, interning and blank
    node freshening, loading Turtle, SPARQL Update, and the query forms. The
    engine that runs the compiled SQL, the Turtle parser and the choice of a
    row id when the ids are used up belong to SQLite and [oxttl]. *)

From S2P Require Import Prelude RustStd External Effect SparqlTerm SparqlCompile SparqlCursor SparqlParse SparqlSerialize.
From Stdlib Require Import Floats.SpecFloat.

Local Open Scope Z_scope.

(** ** Values of SQLite ([ValueRef]) *)

(** Text and blobs are byte strings. *)
Inductive SqlValue : Type :=
| VNull
| VInteger (i : Z)
| VReal (r : spec_float)
| VText (s : string)
| VBlob (s : string).

Definition is_null (v : SqlValue) : bool := match v with VNull => true | _ => false end.

(** [r.fract() == 0.0] and [r.abs() < 1e15] of a float [m * 2 ^ e]. *)
Definition fract_zero (r : spec_float) : bool :=
  match r with
  | S754_zero _ => true
  | S754_finite _ m e => (0 <=? e) || (Z.pos m mod 2 ^ (- e) =? 0)
  | _ => false
  end.

Definition float_trunc (m : positive) (e : Z) : Z := if 0 <=? e then Z.pos m * 2 ^ e else Z.pos m / 2 ^ (- e).

Definition abs_below (bound : Z) (r : spec_float) : bool :=
  match r with
  | S754_zero _ => true
  | S754_finite _ m e => if 0 <=? e then Z.pos m * 2 ^ e <? bound else Z.pos m <? bound * 2 ^ (- e)
  | _ => false
  end.

(** [format!({r:.1})] of an integral float. *)
Definition fixed1 (r : spec_float) : string :=
  match r with
  | S754_zero s => (if s then "-0" else "0") +:+ ".0"
  | S754_finite s m e => (if s then "-" else "") +:+ int_to_string (float_trunc m e) +:+ ".0"
  | S754_infinity s => if s then "-inf" else "inf"
  | S754_nan => "NaN"
  end.

(** ** What the store calls *)

Definition SqlRow : Type := list SqlValue.

(** The two tables. A row of [rdf_terms] is an id and a term; [UNIQUE(kind,
    lex, dtype, lang)] is kept by [INSERT OR IGNORE], below. A row of
    [rdf_triples] is its primary key, (g, s, p, o). *)
Definition Quad : Type := Z * Z * Z * Z.

Record RdfDb : Type := mkRdfDb {
  rdf_terms : option (gmap Z Term);
  rdf_triples : option (gset Quad)
}.

(** [sql_query] prepares and steps a SELECT: an error, or the rows as far as
    they are produced. [random_rowid] is the id SQLite picks among free ones
    when the greatest is used up. [f64_display] is [Display] of a float. *)
Class SqlEngine : Type := {
  sql_query : string -> RdfDb -> result string (list (result string SqlRow));
  random_rowid : gset Z -> option Z;
  f64_display : spec_float -> string
}.

(** [oxttl]'s parser over a slice: the base IRI is checked first; the items
    are triples, or an error with its message, line and column. *)
Class OxTurtle : Type := {
  ox_invalid_base : string -> option string;
  ox_items : option string -> string -> list (result (string * Z * Z) External.Triple);
  ox_literal_destruct : Literal -> string * option string * option string
}.

(** The regular expressions of the [regex] crate (the compilation error, or
    whether the text matches), the files, and the text of [rusqlite]'s error for
    a value of another type. *)
Class StoreHost : Type := {
  regex_is_match : string -> string -> result string bool;
  read_to_string : string -> option string;
  rusqlite_invalid_type : string
}.

(** ** Errors and the connection *)

Inductive serror : Type :=
| SMsg (m : string)
| SPanic.

(** The tables, and the outcome of the statements to come: [Some] error, or
    run; past the list they run. *)
Record SConn : Type := mkSConn { s_db : RdfDb; s_faults : list (option string) }.

Definition SM (A : Type) : Type := Eff SConn serror A.

Definition stmt {A} (f : RdfDb -> result string (A * RdfDb)) : SM A :=
  fun c => match s_faults c with
           | Some e :: fs => (Err (SMsg e), mkSConn (s_db c) fs)
           | fs => match f (s_db c) with
                   | Ok (a, d) => (Ok a, mkSConn d (tail fs))
                   | Err e => (Err (SMsg e), mkSConn (s_db c) (tail fs))
                   end
           end.

Definition select {A} (f : RdfDb -> result string A) : SM A :=
  stmt (fun d => rmap (fun a => (a, d)) (f d)).

(** [?] on an error of [rusqlite]'s. *)
Definition of_result {A} (r : result string A) : SM A :=
  elift (match r with Ok a => Ok a | Err e => Err (SMsg e) end).

Definition the_terms (d : RdfDb) : result string (gmap Z Term) := ok_or "no such table: rdf_terms" (rdf_terms d).
Definition the_triples (d : RdfDb) : result string (gset Quad) := ok_or "no such table: rdf_triples" (rdf_triples d).

Definition set_terms (m : gmap Z Term) (d : RdfDb) : RdfDb := mkRdfDb (Some m) (rdf_triples d).
Definition set_triples (t : gset Quad) (d : RdfDb) : RdfDb := mkRdfDb (rdf_terms d) (Some t).

(** ** Schema, dictionary, triples *)

Section store.
Context `{!SqlEngine}.

Definition create_terms : SM unit := stmt (fun d => Ok (tt, set_terms (default ∅ (rdf_terms d)) d)).
Definition create_triples : SM unit := stmt (fun d => Ok (tt, set_triples (default ∅ (rdf_triples d)) d)).

(** [CREATE INDEX IF NOT EXISTS] changes no row. *)
Definition create_index : SM unit := select (fun d => let? _ := the_triples d in Ok tt).

(** The four statements of [SCHEMA_SQL]. *)
Definition ensure_schema : SM unit :=
  let* _ := create_terms in
  let* _ := create_triples in
  let* _ := create_index in
  create_index.

(** The row of a term, by the unique index. *)
Definition find_term (t : Term) (m : gmap Z Term) : option Z :=
  match list_find (fun p => snd p = t) (map_to_list m) with
  | Some (_, (id, _)) => Some id
  | None => None
  end.

Definition term_id (d : RdfDb) (t : Term) : Z :=
  match rdf_terms d with
  | Some m => default 0 (find_term t m)
  | None => 0
  end.

(** A lookup that fails, for whatever reason, is 0. *)
Definition lookup_term_id (t : Term) : SM Z :=
  etotal (fun c => match select (fun d => let? m := the_terms d in ok_or "no rows" (find_term t m)) c with
                   | (Ok id, c') => (id, c')
                   | (Err _, c') => (0, c')
                   end).

(** [MAX(id)], and the row id of a new row. *)
Definition ids_of (m : gmap Z Term) : list Z := map fst (map_to_list m).
Definition max_id (m : gmap Z Term) : option Z :=
  foldr (fun i acc => Some (match acc with Some a => Z.max i a | None => i end)) None (ids_of m).

Definition next_rowid (m : gmap Z Term) : option Z :=
  match max_id m with
  | None => Some 1
  | Some i => if i <? I64_MAX then Some (i + 1) else random_rowid (dom m)
  end.

(** [INSERT OR IGNORE INTO rdf_terms]. *)
Definition insert_term (t : Term) : SM unit :=
  stmt (fun d =>
    let? m := the_terms d in
    match find_term t m with
    | Some _ => Ok (tt, d)
    | None => let? id := ok_or "database or disk is full" (next_rowid m) in Ok (tt, set_terms (<[id := t]> m) d)
    end).

Definition intern_term (t : Term) : SM Z :=
  let* _ := insert_term t in
  let* id := lookup_term_id t in
  if id =? 0 then ethrow (SMsg "term lookup failed after insert") else eret id.

(** [INSERT OR IGNORE INTO rdf_triples]: the number of rows inserted. *)
Definition insert_triple (s p o : Z) : SM Z :=
  stmt (fun d =>
    let? t := the_triples d in
    if bool_decide ((0, s, p, o) ∈ t) then Ok (0, d) else Ok (1, set_triples ({[(0, s, p, o)]} ∪ t) d)).

(** [DELETE FROM rdf_triples WHERE g=0 AND s=?1 AND p=?2 AND o=?3]. *)
Definition delete_triple (s p o : Z) : SM Z :=
  stmt (fun d =>
    let? t := the_triples d in
    if bool_decide ((0, s, p, o) ∈ t) then Ok (1, set_triples (t ∖ {[(0, s, p, o)]}) d) else Ok (0, d)).

(** ** Blank nodes *)

(** The serial stays far below its 64 bits: every draw stores a label. *)
Record Freshener : Type := mkFreshener { stamp : Z; serial : Z; labels : gmap string string }.

Definition Freshener_new : SM Freshener :=
  let* m := select the_terms in
  eret (mkFreshener (default 0 (max_id m)) 0 ∅).

Definition fresh_label (stamp serial : Z) : string :=
  "g" +:+ int_to_string stamp +:+ "n" +:+ int_to_string serial.

Definition fresh (f : Freshener) : string * Freshener :=
  (fresh_label (stamp f) (serial f), mkFreshener (stamp f) (serial f + 1) (labels f)).

Definition label (source : string) (f : Freshener) : string * Freshener :=
  match labels f !! source with
  | Some l => (l, f)
  | None => let '(l, f) := fresh f in (l, mkFreshener (stamp f) (serial f) (<[source := l]> (labels f)))
  end.

(** Interning the three terms of a triple and storing it. *)
Definition add_triple (t : Triple) : SM Z :=
  let '(s, p, o) := t in
  let* si := intern_term s in
  let* pi := intern_term p in
  let* oi := intern_term o in
  insert_triple si pi oi.

(** ** Loading Turtle *)

Section load.
Context `{!OxTurtle, !StoreHost}.

Definition conv_literal (l : Literal) : Term :=
  let '(lex, dtype, lang) := ox_literal_destruct l in
  match lang, dtype with
  | Some lang, _ => lit_lang lex lang
  | None, Some dt => lit_dt lex dt
  | None, None => lit lex
  end.

(** One triple of the document, its blank nodes relabelled, subject first. *)
Definition conv_triple (t : External.Triple) (f : Freshener) : Triple * Freshener :=
  let '(s, f) := match subject t with
                 | NNode n => (iri n, f)
                 | BNode b => let '(l, f) := label b f in (bnode l, f)
                 end in
  let p := iri (predicate t) in
  let '(o, f) := match object t with
                 | TNamed n => (iri n, f)
                 | TBlank b => let '(l, f) := label b f in (bnode l, f)
                 | TLit l => (conv_literal l, f)
                 end in
  ((s, p, o), f).

Definition syntax_error (e : string * Z * Z) : serror :=
  let '(msg, line, col) := e in
  SMsg (msg +:+ " (line " +:+ int_to_string (line + 1) +:+ ", col " +:+ int_to_string (col + 1) +:+ ")").

Definition load_item (st : Freshener * Z) (item : result (string * Z * Z) External.Triple) : SM (Freshener * Z) :=
  let '(f, inserted) := st in
  match item with
  | Err e => ethrow (syntax_error e)
  | Ok t =>
      let '(tr, f) := conv_triple t f in
      let* n := add_triple tr in
      eret (f, inserted + n)
  end.

Definition load_turtle (text : string) (base : option string) : SM Z :=
  let* _ := ensure_schema in
  match base ≫= ox_invalid_base with
  | Some e => ethrow (SMsg ("invalid base IRI: " +:+ e))
  | None =>
      let* f := Freshener_new in
      let* (_, inserted) := efold load_item (f, 0) (ox_items base text) in
      eret inserted
  end.

Definition load_turtle_file (path : string) (base : option string) : SM Z :=
  match read_to_string path with
  | None => ethrow (SMsg ("rdf_load_turtle_file: cannot open '" +:+ path +:+ "'"))
  | Some text => load_turtle text base
  end.
End load.

(** ** Running a SELECT *)

Definition value_to_text (v : SqlValue) : string :=
  match v with
  | VNull => ""
  | VInteger i => int_to_string i
  | VReal r => if fract_zero r && abs_below (10 ^ 15) r then fixed1 r else f64_display r
  | VText t => from_utf8_lossy t
  | VBlob b => from_utf8_lossy b
  end.

Definition SolutionRow : Type := list (option Term).

(** [row.get_ref(i)?] and [row.get::<_, i64>(i)?]. *)
Definition get_ref (row : SqlRow) (i : nat) : result string SqlValue :=
  ok_or ("Invalid column index: " +:+ usize_str i) (row !! i).

Definition get_i64 (row : SqlRow) (i : nat) : result string Z :=
  let? v := get_ref row i in
  match v with
  | VInteger z => Ok z
  | _ => Err ("Invalid column type at index: " +:+ usize_str i)
  end.

(** The columns of variable [j]: id, kind, text, datatype, language. *)
Definition read_cell (row : SqlRow) (j : nat) : result string (option Term) :=
  let base := (j * 5)%nat in
  let? id := get_ref row base in
  if is_null id then Ok None
  else
    let? kind := get_i64 row (base + 1) in
    let? lex := get_ref row (base + 2) in
    let? dtype := get_ref row (base + 3) in
    let? lang := get_ref row (base + 4) in
    Ok (Some (mkTerm kind (value_to_text lex) (value_to_text dtype) (value_to_text lang))).

Definition read_row (ncols : nat) (row : SqlRow) : result string SolutionRow := traverse (read_cell row) (seq 0 ncols).

(** The ground terms of the query are looked up while it is compiled. *)
Definition compile_on (q : Query) : SM (string * list string) :=
  fun c => match compile_query (term_id (s_db c)) q with
           | Ok r => (Ok r, c)
           | Err (CError m) => (Err (SMsg m), c)
           | Err CPanic => (Err SPanic, c)
           end.

Definition exec_select (q : Query) : SM (list string * list SolutionRow) :=
  let* (sql, vars) := compile_on q in
  let* items := select (sql_query sql) in
  let* rows := of_result (traverse (fun item => let? row := item in read_row (length vars) row) items) in
  eret (vars, rows).

Definition exec_ask (q : Query) : SM bool :=
  let* (sql, _) := compile_on q in
  let* items := select (sql_query sql) in
  match items with
  | [] => eret false
  | item :: _ => let* _ := of_result item in eret true
  end.

(** ** CONSTRUCT *)

(** The value of a slot under a solution. A row has a cell for every variable,
    so the indexing of the code does not panic. *)
Definition slot_value (vars : list string) (row : SolutionRow) (s : Slot) : option Term :=
  match s with
  | Var v => '(i, _) ← list_find (fun x => x = v) vars; mjoin (row !! i)
  | Ground t => Some t
  end.

Definition instantiate (vars : list string) (row : SolutionRow) (tp : TriplePattern) : option Triple :=
  s ← slot_value vars row (tp_s tp);
  p ← slot_value vars row (tp_p tp);
  o ← slot_value vars row (tp_o tp);
  Some (s, p, o).

Definition invalid_triple (t : Triple) : bool :=
  let '(s, p, _) := t in (t_kind s =? K_LIT) || negb (t_kind p =? K_IRI).

(** One template triple under one solution; [out] holds each triple once, so
    the hash set [seen] is its elements. *)
Definition construct_step (vars : list string) (row : SolutionRow) (out : list Triple) (tp : TriplePattern) : list Triple :=
  match instantiate vars row tp with
  | None => out
  | Some t => if invalid_triple t then out else if bool_decide (t ∈ out) then out else out ++ [t]
  end.

Definition construct_rows (vars : list string) (template : list TriplePattern) (rows : list SolutionRow) : list Triple :=
  foldl (fun out row => foldl (construct_step vars row) out template) [] rows.

Definition exec_construct (q : Query) : SM (list Triple) :=
  let* (vars, rows) := exec_select q in
  eret (construct_rows vars (q_template q) rows).

(** ** [rdf_query] *)

Definition parse_stmt (sparql : string) : SM Parsed :=
  elift (match parse sparql with
         | Ok p => Ok p
         | Err (PErr m) => Err (SMsg m)
         | Err _ => Err SPanic
         end).

(** Whether N-Triples are asked for. *)
Definition graph_format (format : option string) : option bool :=
  match format with
  | None => Some false
  | Some f => if eq_nocase f "turtle" || eq_nocase f "ttl" then Some false
              else if eq_nocase f "ntriples" || eq_nocase f "nt" then Some true
              else None
  end.

Definition not_json (format : option string) : bool :=
  match format with Some f => negb (eq_nocase f "json") | None => false end.

(** A text of the serialisers, which index the variables of a row. *)
Definition expect_text (o : option string) : SM string := elift (ok_or SPanic o).

Definition run_query (sparql : string) (format : option string) : SM string :=
  let* _ := ensure_schema in
  let* parsed := parse_stmt sparql in
  match parsed with
  | PUpdate _ => ethrow (SMsg "rdf_query runs queries only; use rdf_update() for SPARQL Update")
  | PQuery q =>
      match q_form q with
      | Select =>
          if not_json format then
            ethrow (SMsg "rdf_query: SELECT results are variable bindings, not a graph; only 'json' output is available (use CONSTRUCT for Turtle)")
          else
            let* (vars, rows) := exec_select q in
            expect_text (select_results_json vars rows)
      | Ask =>
          if not_json format then
            ethrow (SMsg "rdf_query: ASK results are boolean; only 'json' output is available")
          else
            let* b := exec_ask q in
            eret (ask_json b)
      | Construct =>
          match graph_format format with
          | None => ethrow (SMsg "rdf_query: CONSTRUCT formats are 'turtle' (default) or 'ntriples'")
          | Some ntriples =>
              let* triples := exec_construct q in
              eret (if ntriples then serialize_ntriples triples else serialize_turtle triples (q_prefixes q))
          end
      end
  end.

(** ** Dump *)

(** The join of the triples of every graph with the dictionary. The rows come
    in an order of SQLite's; the serialiser sorts them. *)
Definition quad_terms (m : gmap Z Term) (q : Quad) : option Triple :=
  let '(_, s, p, o) := q in
  st ← m !! s; pt ← m !! p; ot ← m !! o; Some (st, pt, ot).

(** A stored term, read back through its text columns. *)
Definition read_term (t : Term) : Term :=
  mkTerm (t_kind t) (value_to_text (VText (t_lex t))) (value_to_text (VText (t_dtype t)))
    (value_to_text (VText (t_lang t))).

Definition read_triple (t : Triple) : Triple :=
  let '(s, p, o) := t in (read_term s, read_term p, read_term o).

Definition dump_rows (d : RdfDb) : result string (list Triple) :=
  let? m := the_terms d in
  let? t := the_triples d in
  Ok (omap (quad_terms m) (elements t)).

Definition dump_turtle : SM string :=
  let* _ := ensure_schema in
  let* rows := select dump_rows in
  eret (serialize_turtle (map read_triple rows) []).

(** ** SPARQL Update *)

Definition ground_slot (s : Slot) (f : Freshener) : option Term * Freshener :=
  match s with
  | Var v => match RustStd.strip_prefix BN v with
             | Some l => let '(l, f) := label l f in (Some (bnode l), f)
             | None => (None, f)
             end
  | Ground t => (Some t, f)
  end.

Definition ground (tp : TriplePattern) (f : Freshener) : result serror (Triple * Freshener) :=
  let no_vars := SMsg "variables are not allowed in ground data" in
  let '(s, f) := ground_slot (tp_s tp) f in
  let? s := ok_or no_vars s in
  let '(p, f) := ground_slot (tp_p tp) f in
  let? p := ok_or no_vars p in
  let '(o, f) := ground_slot (tp_o tp) f in
  let? o := ok_or no_vars o in
  Ok ((s, p, o), f).

Definition insert_step (st : Freshener * Z) (tp : TriplePattern) : SM (Freshener * Z) :=
  let '(f, affected) := st in
  let* (t, f) := elift (ground tp f) in
  let* n := add_triple t in
  eret (f, affected + n).

(** Deleting the triple of three ids, unless one is missing. *)
Definition delete_ids (s p o : Z) (affected : Z) : SM Z :=
  if (s =? 0) || (p =? 0) || (o =? 0) then eret affected
  else let* n := delete_triple s p o in eret (affected + n).

Definition delete_step (st : Freshener * Z) (tp : TriplePattern) : SM (Freshener * Z) :=
  let '(f, affected) := st in
  let* ((s, p, o), f) := elift (ground tp f) in
  let* si := lookup_term_id s in
  let* pi := lookup_term_id p in
  let* oi := lookup_term_id o in
  let* affected := delete_ids si pi oi affected in
  eret (f, affected).

(** The variables of the patterns, each once, in order. *)
Definition pattern_vars (tps : list TriplePattern) : list string :=
  foldl (fun vars s => match slot_var s with
                       | Some v => if bool_decide (v ∈ vars) then vars else vars ++ [v]
                       | None => vars
                       end) [] (concat (map slots tps)).

Definition var_item (v : string) : SelItem := mkSelItem ANone false false (Some v) v.

Definition where_query (tps : list TriplePattern) : Query :=
  mkQuery Select false false (map var_item (pattern_vars tps)) [] [] (mkGroup tps [] [] []) [] (-1) 0 [] None.

(** The id of a slot under a solution; 0 when it has none. *)
Definition slot_id (vars : list string) (row : SolutionRow) (s : Slot) : SM Z :=
  match slot_value vars row s with
  | Some t => lookup_term_id t
  | None => eret 0
  end.

(** The slots in order; the first without an id ends the triple. *)
Definition delete_match (vars : list string) (row : SolutionRow) (affected : Z) (tp : TriplePattern) : SM Z :=
  let* s := slot_id vars row (tp_s tp) in
  if s =? 0 then eret affected else
  let* p := slot_id vars row (tp_p tp) in
  if p =? 0 then eret affected else
  let* o := slot_id vars row (tp_o tp) in
  delete_ids s p o affected.

Definition delete_row (vars : list string) (tps : list TriplePattern) (affected : Z) (row : SolutionRow) : SM Z :=
  efold (delete_match vars row) affected tps.

Definition run_update (u : Update) : SM Z :=
  let* _ := ensure_schema in
  match u_kind u with
  | InsertData =>
      let* f := Freshener_new in
      let* (_, affected) := efold insert_step (f, 0) (u_triples u) in
      eret affected
  | DeleteData =>
      let* f := Freshener_new in
      let* (_, affected) := efold delete_step (f, 0) (u_triples u) in
      eret affected
  | DeleteWhere =>
      let* (vars, rows) := exec_select (where_query (u_triples u)) in
      efold (delete_row vars (u_triples u)) 0 rows
  end.

Definition update (sparql : string) : SM Z :=
  let* parsed := parse_stmt sparql in
  match parsed with
  | PUpdate u => run_update u
  | PQuery _ => ethrow (SMsg "rdf_update runs INSERT DATA / DELETE DATA / DELETE WHERE; use rdf_query() for queries")
  end.

(** ** Typed results: [Store::query] *)

Inductive QueryResults : Type :=
| Solutions (vars : list string) (rows : list SolutionRow)
| Boolean (b : bool)
| Graph (triples : list Triple).

Definition Store_query (sparql : string) : SM QueryResults :=
  let* _ := ensure_schema in
  let* parsed := parse_stmt sparql in
  match parsed with
  | PUpdate _ => ethrow (SMsg "use Store::update for SPARQL Update")
  | PQuery q =>
      match q_form q with
      | Select => let* (vars, rows) := exec_select q in eret (Solutions vars rows)
      | Ask => let* b := exec_ask q in eret (Boolean b)
      | Construct => let* l := exec_construct q in eret (Graph l)
      end
  end.
End store.
