(* ===== verification/SparqlSurface.v ===== *)
(** * SparqlSurface: the SQL functions and the table-valued function

    Models [crates/sparql/src/functions.rs] and [vtab.rs]: the arguments of the
    functions, the table of registered functions with their flags, and the
    cursor of [sparql()]. *)

From S2P Require Import Prelude RustStd External Effect SparqlTerm SparqlParse SparqlSerialize SparqlStore.

Local Open Scope Z_scope.

Section surface.
Context `{!SqlEngine, !OxTurtle, !StoreHost}.

(** ** Arguments *)

(** [as_bytes_or_null()?.unwrap_or(&[])]. *)
Definition bytes_of_value (v : SqlValue) : result serror string :=
  match v with
  | VText s | VBlob s => Ok s
  | VNull => Ok ""
  | VInteger _ | VReal _ => Err (SMsg rusqlite_invalid_type)
  end.

(** [ctx.get_raw(idx)], which panics past the arguments. *)
Definition get_raw (args : list SqlValue) (idx : nat) : result serror SqlValue := ok_or SPanic (args !! idx).

Definition text_arg (args : list SqlValue) (idx : nat) (what : string) : result serror string :=
  let? v := get_raw args idx in
  match v with
  | VNull => Err (SMsg what)
  | v => let? b := bytes_of_value v in Ok (from_utf8_lossy b)
  end.

Definition opt_text_arg (args : list SqlValue) (idx : nat) : result serror (option string) :=
  if (length args <=? idx)%nat then Ok None
  else
    let? v := get_raw args idx in
    match v with
    | VNull => Ok None
    | VText t => Ok (Some (from_utf8_lossy t))
    | v => let? b := bytes_of_value v in Ok (Some (from_utf8_lossy b))
    end.

(** [ctx.get::<String>(idx)]. *)
Definition get_text (args : list SqlValue) (idx : nat) : result serror string :=
  let? v := get_raw args idx in
  match v with
  | VText t => if utf8_valid t then Ok t else Err (SMsg rusqlite_invalid_type)
  | _ => Err (SMsg rusqlite_invalid_type)
  end.

Definition regexp_match (pattern text flags : string) : result serror bool :=
  let pat := if contains_char "i"%char flags then "(?i)" +:+ pattern else pattern in
  match regex_is_match pat text with
  | Ok b => Ok b
  | Err e => Err (SMsg ("rdf_regexp: bad pattern: " +:+ e))
  end.

Definition bool_int (b : bool) : Z := if b then 1 else 0.

(** ** The functions *)

Definition fn_regexp (args : list SqlValue) : SM SqlValue :=
  elift (
    let? a := get_raw args 0 in
    let? b := get_raw args 1 in
    if is_null a || is_null b then Ok VNull
    else
      let? pattern := get_text args 0 in
      let? text := get_text args 1 in
      let? flags := opt_text_arg args 2 in
      let? m := regexp_match pattern text (default "" flags) in
      Ok (VInteger (bool_int m))).

Definition fn_load_turtle (args : list SqlValue) : SM SqlValue :=
  let* text := elift (text_arg args 0 "rdf_load_turtle: text is NULL") in
  let* base := elift (opt_text_arg args 1) in
  let* n := load_turtle text base in
  eret (VInteger n).

Definition fn_load_turtle_file (args : list SqlValue) : SM SqlValue :=
  let* path := elift (text_arg args 0 "rdf_load_turtle_file: path is NULL") in
  let* base := elift (opt_text_arg args 1) in
  let* n := load_turtle_file path base in
  eret (VInteger n).

Definition fn_query (args : list SqlValue) : SM SqlValue :=
  let* sparql := elift (text_arg args 0 "rdf_query: query is NULL") in
  let* format := elift (opt_text_arg args 1) in
  let* s := run_query sparql format in
  eret (VText s).

Definition fn_update (args : list SqlValue) : SM SqlValue :=
  let* sparql := elift (text_arg args 0 "rdf_update: update is NULL") in
  let* n := update sparql in
  eret (VInteger n).

Definition fn_dump_turtle (args : list SqlValue) : SM SqlValue :=
  let* s := dump_turtle in
  eret (VText s).

Definition fn_init (args : list SqlValue) : SM SqlValue :=
  let* _ := ensure_schema in
  eret (VText "ok").

(** ** Registration *)

(** [SQLITE_DIRECTONLY]: not callable from triggers, views or other schema
    code. *)
Record SqlFunction : Type := mkSqlFunction {
  sf_name : string;
  sf_arity : nat;
  sf_direct_only : bool;
  sf_call : list SqlValue -> SM SqlValue
}.

Definition register : list SqlFunction :=
  [mkSqlFunction "rdf_init" 0 false fn_init;
   mkSqlFunction "rdf_load_turtle" 1 true fn_load_turtle;
   mkSqlFunction "rdf_load_turtle" 2 true fn_load_turtle;
   mkSqlFunction "rdf_load_turtle_file" 1 true fn_load_turtle_file;
   mkSqlFunction "rdf_load_turtle_file" 2 true fn_load_turtle_file;
   mkSqlFunction "rdf_query" 1 false fn_query;
   mkSqlFunction "rdf_query" 2 false fn_query;
   mkSqlFunction "rdf_update" 1 true fn_update;
   mkSqlFunction "rdf_dump_turtle" 0 false fn_dump_turtle;
   mkSqlFunction "rdf_regexp" 2 false fn_regexp;
   mkSqlFunction "rdf_regexp" 3 false fn_regexp].

(** [Store::from_connection]: the schema, then the functions. *)
Definition from_connection : SM (list SqlFunction) :=
  let* _ := ensure_schema in
  eret register.

(** ** The [sparql()] table *)

(** A constraint of the query planner: its column, whether it is an equality,
    whether it can be used. *)
Record Constraint : Type := mkConstraint { ct_column : Z; ct_eq : bool; ct_usable : bool }.

(** The index number, and the constraint passed as the argument of [filter]. *)
Fixpoint best_index_from (i : nat) (l : list Constraint) : Z * option nat :=
  match l with
  | [] => (0, None)
  | c :: l' => if (ct_column c =? 1) && ct_eq c && ct_usable c then (1, Some i) else best_index_from (S i) l'
  end.

Definition best_index (l : list Constraint) : Z * option nat := best_index_from 0 l.

Record SparqlCursor : Type := mkSparqlCursor { qtext : string; cur_rows : list string; cur_row : nat }.

Definition open : SparqlCursor := mkSparqlCursor "" [] 0.

Definition vt_usage : string := "sparql: usage SELECT binding FROM sparql('SELECT ...')".
Definition vt_select_only : string := "sparql: only SELECT here; use rdf_query() for CONSTRUCT".

(** The rows of a query text. *)
Definition vt_rows (sparql : string) : SM (list string) :=
  let* _ := ensure_schema in
  let* parsed := parse_stmt sparql in
  match parsed with
  | PQuery q =>
      if bool_decide (q_form q = Select) then
        let* (vars, rows) := exec_select q in
        elift (ok_or SPanic (mapM (binding_object vars) rows))
      else ethrow (SMsg vt_select_only)
  | PUpdate _ => ethrow (SMsg vt_select_only)
  end.

(** The cursor is cleared first, and keeps the text when the query fails. *)
Definition vt_filter (idx_num : Z) (args : list SqlValue) (cur : SparqlCursor) (c : SConn) :
    (result serror unit * SparqlCursor) * SConn :=
  let cleared := mkSparqlCursor (qtext cur) [] 0 in
  if negb (idx_num =? 1) || bool_decide (args = []) then ((Err (SMsg vt_usage), cleared), c)
  else
    match get_text args 0 with
    | Err e => ((Err e, cleared), c)
    | Ok text =>
        match vt_rows text c with
        | (Ok rows, c) => ((Ok tt, mkSparqlCursor text rows 0), c)
        | (Err e, c) => ((Err e, mkSparqlCursor text [] 0), c)
        end
    end.

Definition vt_next (cur : SparqlCursor) : SparqlCursor := mkSparqlCursor (qtext cur) (cur_rows cur) (S (cur_row cur)).
Definition vt_eof (cur : SparqlCursor) : bool := (length (cur_rows cur) <=? cur_row cur)%nat.

(** Column 1 is the query; the other the row, whose indexing panics at the
    end. *)
Definition vt_column (i : Z) (cur : SparqlCursor) : option string :=
  if i =? 1 then Some (qtext cur) else cur_rows cur !! cur_row cur.

Definition vt_rowid (cur : SparqlCursor) : Z := Z.of_nat (cur_row cur) + 1.

(** SQLite's scan of a cursor: until the end, the binding and the row id. *)
Fixpoint vt_scan (n : nat) (cur : SparqlCursor) : list (option string * Z) :=
  match n with
  | O => []
  | S n => if vt_eof cur then [] else (vt_column 0 cur, vt_rowid cur) :: vt_scan n (vt_next cur)
  end.

(** A scan gives every row once, in order, numbered from one, and ends. *)
Lemma vt_scan_from text rows : forall k n, (length rows - k < n)%nat ->
  vt_scan n (mkSparqlCursor text rows k) = imap (fun i s => (Some s, Z.of_nat (i + k) + 1)) (drop k rows).
Proof.
  intros k n. revert k. induction n as [|n IH]; intros k Hn; [lia|]. cbn [vt_scan]. unfold vt_eof. cbn [cur_rows cur_row].
  destruct (length rows <=? k)%nat eqn:E.
  - apply Nat.leb_le in E. by rewrite drop_ge.
  - apply Nat.leb_gt in E. destruct (lookup_lt_is_Some_2 rows k E) as [s Hs].
    rewrite (drop_S _ _ _ Hs). cbn [imap]. unfold vt_column at 1, vt_rowid, vt_next. cbn [cur_rows cur_row qtext].
    rewrite Hs, IH by lia. f_equal. apply imap_ext. intros i x _. cbn [compose]. by replace (i + S k)%nat with (S i + k)%nat by lia.
Qed.

Lemma vt_filter_scan args cur c text c' :
  vt_filter 1 args cur c = ((Ok tt, text), c') ->
  vt_scan (S (length (cur_rows text))) text = imap (fun i s => (Some s, Z.of_nat i + 1)) (cur_rows text).
Proof.
  unfold vt_filter. destruct (_ || _); [done|]. destruct (get_text args 0) as [q|]; [|done].
  destruct (vt_rows q c) as [[rows|] c1]; [|done]. intros [= <- <-]. cbn [cur_rows].
  rewrite vt_scan_from by lia. apply imap_ext. intros i x _. by rewrite Nat.add_0_r.
Qed.
End surface.
