(* ===== verification/SparqlStoreInv.v ===== *)
(** * SparqlStoreInv: what the tables always satisfy

    The dictionary maps positive ids to distinct terms, every triple refers to
    it, subjects are not literals and predicates are IRIs, and blank nodes bear
    labels that a later load cannot draw again. Every operation keeps this,
    also when one of its statements fails. *)

From S2P Require Import Prelude RustStd Effect External SparqlTerm SparqlCompile SparqlSpec SparqlCursor SparqlParse SparqlSerialize.
From S2P Require Import SparqlTyping SparqlStore.



Local Open Scope Z_scope.

(** ** Labels *)

Lemma int_to_string_inj a b : int_to_string a = int_to_string b -> a = b.
Proof.
  intros H. set (lo := Z.min 0 (Z.min a b)). set (hi := Z.max 0 (Z.max a b)).
  assert (Ha : parse_int true lo hi (int_to_string a) = Ok a).
  { rewrite parse_int_print by (lia || by left). by rewrite !(proj2 (Z.leb_le _ _)) by lia. }
  assert (Hb : parse_int true lo hi (int_to_string b) = Ok b).
  { rewrite parse_int_print by (lia || by left). by rewrite !(proj2 (Z.leb_le _ _)) by lia. }
  rewrite H, Hb in Ha. by injection Ha.
Qed.

Lemma split_at (c : ascii) s1 s2 t1 t2 :
  contains_char c s1 = false -> contains_char c s2 = false ->
  s1 +:+ String c t1 = s2 +:+ String c t2 -> s1 = s2 /\ t1 = t2.
Proof.
  revert s2. induction s1 as [|b s1 IH]; intros [|b2 s2]; cbn [contains_char];
    rewrite ?app_str_nil_l, ?app_str_cons.
  - by intros _ _ [= ->].
  - intros _ H2 [= <- _]. by rewrite bool_decide_true in H2.
  - intros H1 _ [= -> _]. by rewrite bool_decide_true in H1.
  - intros [_ H1]%orb_false_elim [_ H2]%orb_false_elim [= -> H]. by destruct (IH s2 H1 H2 H) as [-> ->].
Qed.

Lemma int_no_n z : contains_char "n"%char (int_to_string z) = false.
Proof.
  pose proof (int_to_string_bytes z) as H. induction (int_to_string z) as [|b s IH]; [done|].
  cbn in *. apply andb_prop in H as [Hb Hs]. rewrite IH by done. rewrite orb_false_r.
  by case_bool_decide; [subst|].
Qed.

Lemma fresh_label_inj n k n' k' : fresh_label n k = fresh_label n' k' -> n = n' /\ k = k'.
Proof.
  unfold fresh_label. intros H%app_str_inj_l. rewrite !(app_str_cons "n"), !app_str_nil_l in H.
  apply split_at in H as [H1 H2]; [|apply int_no_n..]. split; by apply int_to_string_inj.
Qed.

(** ** Reading text back *)

Lemma lossy_valid n s : (str_len s <= n)%nat -> utf8_valid s = true -> from_utf8_lossy s = s.
Proof.
  revert s. induction n as [|n IH]; intros [|a s] Hn; try done; [cbn in Hn; lia|].
  cbn [str_len String.length] in Hn. cbn [utf8_valid from_utf8_lossy].
  destruct (byte_val a <? 0x80); [intros Hv; by rewrite IH by (done || unfold str_len; lia)|].
  destruct s as [|b s]; [done|].
  destruct (in_range 0xC2 0xDF a) eqn:Ha.
  { intros [Hb Hv]%andb_prop. rewrite Hb, IH by (done || cbn in *; unfold str_len; lia). done. }
  destruct s as [|c s]; [done|].
  assert (H3 : in_range 0xE0 0xEF a = in_range 0xE0 0xE0 a || in_range 0xE1 0xEC a || in_range 0xED 0xED a || in_range 0xEE 0xEF a).
  { apply Bool.eq_iff_eq_true. rewrite !orb_true_iff, !in_range_spec. lia. }
  assert (H4 : in_range 0xF0 0xF4 a = in_range 0xF0 0xF0 a || in_range 0xF1 0xF3 a || in_range 0xF4 0xF4 a).
  { apply Bool.eq_iff_eq_true. rewrite !orb_true_iff, !in_range_spec. lia. }
  rewrite H3. unfold second_ok.
  assert (Hlt : (str_len s <= n)%nat) by (cbn in *; unfold str_len; lia).
  destruct (in_range 0xE0 0xE0 a) eqn:E1.
  { intros [[-> ->]%andb_prop Hv]%andb_prop. cbn. by rewrite IH. }
  destruct (in_range 0xE1 0xEC a) eqn:E2.
  { intros [[-> ->]%andb_prop Hv]%andb_prop. cbn. by rewrite IH. }
  destruct (in_range 0xED 0xED a) eqn:E3.
  { intros [[-> ->]%andb_prop Hv]%andb_prop. cbn. by rewrite IH. }
  destruct (in_range 0xEE 0xEF a) eqn:E4.
  { intros [[-> ->]%andb_prop Hv]%andb_prop. cbn. by rewrite IH. }
  destruct s as [|d s]; [done|]. rewrite H4.
  assert (Hlt' : (str_len s <= n)%nat) by (cbn in *; unfold str_len; lia).
  destruct (in_range 0xF0 0xF0 a) eqn:E5.
  { intros [[[-> ->]%andb_prop ->]%andb_prop Hv]%andb_prop. cbn. by rewrite IH. }
  destruct (in_range 0xF1 0xF3 a) eqn:E6.
  { intros [[[-> ->]%andb_prop ->]%andb_prop Hv]%andb_prop. cbn. by rewrite IH. }
  destruct (in_range 0xF4 0xF4 a) eqn:E7; [|done].
  intros [[[-> ->]%andb_prop ->]%andb_prop Hv]%andb_prop. cbn. by rewrite IH.
Qed.

Lemma from_utf8_lossy_valid s : utf8_valid s = true -> from_utf8_lossy s = s.
Proof. by apply (lossy_valid (str_len s)). Qed.

(** ** The dictionary *)

Lemma find_term_Some t m id : find_term t m = Some id -> m !! id = Some t.
Proof.
  unfold find_term. destruct (list_find _ _) as [[i [id' t']]|] eqn:Hf; [|done].
  intros [= <-]. apply list_find_Some in Hf as (Hl & Ht & _). cbn in Ht. subst t'.
  apply elem_of_map_to_list. by eapply list_elem_of_lookup_2.
Qed.

Lemma find_term_None t m id : find_term t m = None -> m !! id <> Some t.
Proof.
  unfold find_term. destruct (list_find _ _) as [[i [id' t']]|] eqn:Hf; [done|].
  intros _ Hid. apply list_find_None in Hf. rewrite Forall_forall in Hf.
  apply (Hf (id, t)); [by apply elem_of_map_to_list|done].
Qed.

(** Distinct rows hold distinct terms. *)
Definition unique (m : gmap Z Term) : Prop := forall i j t, m !! i = Some t -> m !! j = Some t -> i = j.

Lemma find_term_unique t m id : unique m -> m !! id = Some t -> find_term t m = Some id.
Proof.
  intros Hu Hid. destruct (find_term t m) as [j|] eqn:Hf.
  - f_equal. apply (Hu _ _ t); [by apply find_term_Some|done].
  - by eapply find_term_None in Hf.
Qed.

Lemma elem_of_ids_of m i : i ∈ ids_of m <-> is_Some (m !! i).
Proof.
  unfold ids_of. rewrite list_elem_of_fmap. split.
  - intros ([j t] & -> & H). apply elem_of_map_to_list in H. by exists t.
  - intros [t H]. exists (i, t). by rewrite elem_of_map_to_list.
Qed.

Lemma fold_max_spec l :
  match foldr (fun i acc => Some (match acc with Some a => Z.max i a | None => i end)) None l with
  | None => l = []
  | Some b => b ∈ l /\ (forall i, i ∈ l -> i <= b)
  end.
Proof.
  induction l as [|i l IH]; cbn [foldr]; [done|].
  destruct (foldr _ None l) as [b|]; [destruct IH as [Hb Hmax]|subst l].
  - split; [|intros j [-> |Hj]%elem_of_cons; [lia|specialize (Hmax j Hj); lia]].
    destruct (Z.max_spec i b) as [[_ ->]|[_ ->]]; [by right|by left].
  - split; [by left|]. intros j [-> |Hj]%elem_of_cons; [lia|by apply not_elem_of_nil in Hj].
Qed.

Lemma max_id_Some m b : max_id m = Some b -> is_Some (m !! b) /\ forall i t, m !! i = Some t -> i <= b.
Proof.
  unfold max_id. intros H. assert (Hs := fold_max_spec (ids_of m)). rewrite H in Hs. destruct Hs as [Hb Hmax].
  split; [by apply elem_of_ids_of|]. intros i t Hi. apply Hmax, elem_of_ids_of. by exists t.
Qed.

Lemma max_id_None m : max_id m = None -> m = ∅.
Proof.
  unfold max_id. intros H. assert (Hs := fold_max_spec (ids_of m)). rewrite H in Hs.
  apply map_empty. intros i. destruct (m !! i) eqn:Hi; [|done].
  assert (Hin : i ∈ ids_of m) by (apply elem_of_ids_of; by eexists). rewrite Hs in Hin. by apply not_elem_of_nil in Hin.
Qed.

(** [COALESCE(MAX(id), 0)]. *)
Definition bound (m : gmap Z Term) : Z := default 0 (max_id m).

Definition ids_ok (m : gmap Z Term) : Prop := forall i t, m !! i = Some t -> 0 < i <= I64_MAX.

Lemma bound_le m i t : m !! i = Some t -> i <= bound m.
Proof.
  intros Hi. unfold bound. destruct (max_id m) as [b|] eqn:Hb.
  - by apply max_id_Some in Hb as [_ Hmax]; eapply Hmax.
  - apply max_id_None in Hb. by rewrite Hb in Hi.
Qed.

Lemma bound_range m : ids_ok m -> 0 <= bound m <= I64_MAX.
Proof.
  intros Hok. unfold bound. destruct (max_id m) as [b|] eqn:Hb; cbn; [|unfold I64_MAX; lia].
  apply max_id_Some in Hb as [[t Ht] _]. apply Hok in Ht. lia.
Qed.

Lemma bound_in m : 0 < bound m -> is_Some (m !! bound m).
Proof.
  unfold bound. destruct (max_id m) as [b|] eqn:Hb; cbn; [|lia]. by apply max_id_Some in Hb as [].
Qed.

Lemma bound_mono m m' : ids_ok m' -> m ⊆ m' -> bound m <= bound m'.
Proof.
  intros Hok Hsub. destruct (Z.le_gt_cases (bound m) 0) as [Hle|Hgt]; [pose proof (bound_range m' Hok); lia|].
  destruct (bound_in m Hgt) as [t Ht]. eapply bound_le, lookup_weaken; eauto.
Qed.

Lemma bound_insert m id t : ids_ok m -> 0 < id -> bound (<[id := t]> m) = Z.max id (bound m).
Proof.
  intros Hok Hid. set (m' := <[id := t]> m).
  assert (H1 : id <= bound m') by (apply (bound_le _ _ t), lookup_insert_eq).
  assert (H2 : bound m <= bound m').
  { destruct (Z.le_gt_cases (bound m) 0) as [Hle|Hgt]; [lia|]. destruct (bound_in m Hgt) as [t' Ht].
    destruct (decide (id = bound m)) as [<- |Hne]; [done|].
    apply (bound_le _ _ t'). unfold m'. by rewrite lookup_insert_ne. }
  destruct (bound_in m') as [t' Ht]; [lia|]. destruct (decide (id = bound m')) as [E|Hne]; [lia|].
  change (<[id := t]> m !! bound m' = Some t') in Ht. rewrite lookup_insert_ne in Ht by done. apply bound_le in Ht. lia.
Qed.

(** ** The invariant *)

Definition terms_of (d : RdfDb) : gmap Z Term := default ∅ (rdf_terms d).
Definition quads_of (d : RdfDb) : gset Quad := default ∅ (rdf_triples d).

(** Not all ids are used up. *)
Definition room (m : gmap Z Term) : Prop := bound m < I64_MAX.

(** A blank node's label was drawn with a stamp of at most [b]. *)
Definition admissible (b : Z) (t : Term) : Prop :=
  t_kind t = K_BNODE -> exists n k, t_lex t = fresh_label n k /\ 0 <= n <= b /\ 0 <= k.

Record dict_ok (m : gmap Z Term) : Prop := mkDictOk {
  dict_ids : ids_ok m;
  dict_unique : unique m;
  dict_blanks : room m -> forall id t, m !! id = Some t -> admissible (id - 1) t
}.

(** A blank node as predicate is let through. *)
Definition storable (t : Triple) : bool :=
  let '(s, p, _) := t in negb (is_literal s) && negb (is_literal p).

Definition valid_quad (m : gmap Z Term) (q : Quad) : Prop :=
  let '(g, _, _, _) := q in
  g = 0 /\ exists t, quad_terms m q = Some t /\ storable t = true.

Record store_ok (d : RdfDb) : Prop := mkStoreOk {
  store_dict : dict_ok (terms_of d);
  store_quads : forall q, q ∈ quads_of d -> valid_quad (terms_of d) q
}.

(** More terms, the same triples. *)
Definition extends (d d' : RdfDb) : Prop := terms_of d ⊆ terms_of d' /\ quads_of d' = quads_of d.

#[export] Instance extends_preorder : PreOrder extends.
Proof.
  split; [by intros d|]. intros d1 d2 d3 [H1 H2] [H3 H4]. split; [by transitivity (terms_of d2)|by rewrite H4].
Qed.

Lemma quad_terms_Some m g s p o st pt ot :
  quad_terms m (g, s, p, o) = Some (st, pt, ot) <-> m !! s = Some st /\ m !! p = Some pt /\ m !! o = Some ot.
Proof.
  unfold quad_terms. destruct (m !! s), (m !! p), (m !! o); cbn; split; try naive_solver.
Qed.

Lemma valid_quad_mono m m' q : m ⊆ m' -> valid_quad m q -> valid_quad m' q.
Proof.
  destruct q as [[[g s] p] o]. intros Hsub [-> ([[st pt] ot] & Hq & Hv)]. split; [done|].
  exists (st, pt, ot). split; [|done]. apply quad_terms_Some in Hq as (H1 & H2 & H3).
  apply quad_terms_Some. split_and!; by eapply lookup_weaken.
Qed.

Lemma admissible_le b b' t : b <= b' -> admissible b t -> admissible b' t.
Proof. intros Hb Ht Hk. destruct (Ht Hk) as (n & k & ? & ? & ?). exists n, k. split_and!; [done|lia..]. Qed.

Lemma admissible_plain b t : t_kind t <> K_BNODE -> admissible b t.
Proof. by intros H Hk. Qed.

Lemma store_ok_terms d m : store_ok d -> terms_of d ⊆ m -> dict_ok m -> store_ok (set_terms m d).
Proof.
  intros [_ Hq] Hsub Hm. split; [done|]. intros q Hin. eapply valid_quad_mono; [exact Hsub|]. by apply Hq.
Qed.

Lemma store_ok_quads d t : store_ok d -> (forall q, q ∈ t -> valid_quad (terms_of d) q) -> store_ok (set_triples t d).
Proof. intros [Hd _] Ht. by split. Qed.

Lemma empty_store_ok : store_ok (mkRdfDb None None).
Proof.
  split; [split|]; cbn.
  - intros i t Hi. by rewrite lookup_empty in Hi.
  - intros i j t Hi. by rewrite lookup_empty in Hi.
  - intros _ i t Hi. by rewrite lookup_empty in Hi.
  - intros q Hq. set_solver.
Qed.

(** Adding a term under a new id. *)
Lemma dict_ok_insert m id t :
  dict_ok m -> (forall i, m !! i <> Some t) -> 0 < id <= I64_MAX -> m !! id = None ->
  (room m -> bound m < id /\ admissible (bound m) t) -> dict_ok (<[id := t]> m).
Proof.
  intros [Hids Huniq Hbl] Hnew Hid Hfree Ht. split.
  - intros i t' [[<- <-]|[_ Hi]]%lookup_insert_Some; [done|by eapply Hids].
  - intros i j t' [[<- <-]|[Hni Hi]]%lookup_insert_Some [[<- E]|[Hnj Hj]]%lookup_insert_Some; subst; try done.
    + by apply Hnew in Hj.
    + by apply Hnew in Hi.
    + by eapply Huniq.
  - unfold room. rewrite bound_insert by (done || lia). intros Hr i t' [[<- <-]|[Hne Hi]]%lookup_insert_Some.
    + destruct Ht as [Hlt Hadm]; [unfold room; lia|]. eapply admissible_le; [|exact Hadm]. lia.
    + by apply Hbl; [unfold room; lia|].
Qed.

(** ** Statements *)

(** SQLite picks a positive id that is not in use. *)
Class SqlEngineLaws `{!SqlEngine} : Prop := {
  random_rowid_free s i : random_rowid s = Some i -> 0 < i <= I64_MAX /\ i ∉ s
}.

Section ops.
Context `{HE : !SqlEngine, HL : !SqlEngineLaws}.

Lemma next_rowid_Some m id : ids_ok m -> next_rowid m = Some id ->
  0 < id <= I64_MAX /\ m !! id = None /\ (room m -> id = bound m + 1).
Proof.
  intros Hok. unfold next_rowid, room, bound. destruct (max_id m) as [b|] eqn:Hb; cbn.
  - apply max_id_Some in Hb as [[t Ht] Hmax]. apply Hok in Ht as Hrange.
    destruct (b <? I64_MAX) eqn:E; [intros [= <-]|intros [Hid Hfree]%random_rowid_free].
    + split_and!; [unfold I64_MAX in *; lia..| |done]. destruct (m !! (b + 1)) eqn:Hn; [|done].
      apply Hmax in Hn. lia.
    + split_and!; [lia..|by apply not_elem_of_dom|lia].
  - intros [= <-]. apply max_id_None in Hb as ->. by rewrite lookup_empty.
Qed.

(** A statement runs, or leaves the tables alone. *)
Lemma stmt_cases {A} (f : RdfDb -> result string (A * RdfDb)) c r c' :
  stmt f c = (r, c') ->
  (exists a, r = Ok a /\ f (s_db c) = Ok (a, s_db c')) \/ (exists e, r = Err e /\ s_db c' = s_db c).
Proof.
  unfold stmt. destruct (s_faults c) as [|[e|] fs]; [|intros [= <- <-]; eauto|].
  all: destruct (f (s_db c)) as [[a d]|e]; intros [= <- <-]; eauto.
Qed.

Lemma hoare_stmt {A} (f : RdfDb -> result string (A * RdfDb)) (P : RdfDb -> Prop) (Q : A -> RdfDb -> Prop) (R : RdfDb -> Prop) :
  (forall d a d', P d -> f d = Ok (a, d') -> Q a d') -> (forall d, P d -> R d) ->
  hoare (fun c => P (s_db c)) (stmt f) (fun a c => Q a (s_db c)) (fun c => R (s_db c)).
Proof.
  intros Hf HR c Hc. destruct (stmt f c) as [r c'] eqn:E.
  destruct (stmt_cases _ _ _ _ E) as [(a & -> & Hfa)|(e & -> & ->)]; [by eapply Hf|by apply HR].
Qed.

Lemma hoare_select {A} (f : RdfDb -> result string A) (P : RdfDb -> Prop) :
  hoare (fun c => P (s_db c)) (select f) (fun a c => P (s_db c) /\ f (s_db c) = Ok a) (fun c => P (s_db c)).
Proof.
  apply (hoare_stmt _ P (fun a d => P d /\ f d = Ok a) P); [|done].
  intros d a d' HP. destruct (f d) eqn:Hf; cbn; [|done]. by intros [= <- <-].
Qed.

(** [m] keeps [P], whatever happens. *)
Definition keeps {A} (P : RdfDb -> Prop) (m : SM A) : Prop :=
  hoare (fun c => P (s_db c)) m (fun _ c => P (s_db c)) (fun c => P (s_db c)).

Lemma keeps_bind {A B} (P : RdfDb -> Prop) (m : SM A) (f : A -> SM B) :
  keeps P m -> (forall a, keeps P (f a)) -> keeps P (ebind f m).
Proof. intros Hm Hf. by eapply hoare_bind. Qed.

Lemma keeps_select {A} (P : RdfDb -> Prop) (f : RdfDb -> result string A) : keeps P (select f).
Proof. eapply hoare_conseq; [apply (hoare_select f P)|..]; naive_solver. Qed.

Lemma keeps_ret {A} (P : RdfDb -> Prop) (a : A) : keeps P (eret a).
Proof. by intros c Hc. Qed.

Lemma keeps_throw {A} (P : RdfDb -> Prop) e : keeps P (ethrow e : SM A).
Proof. by intros c Hc. Qed.

Lemma keeps_lift {A} (P : RdfDb -> Prop) (r : result serror A) : keeps P (elift r).
Proof. intros c Hc. cbn. by destruct r. Qed.

Lemma keeps_fold {A B} (P : RdfDb -> Prop) (f : B -> A -> SM B) l :
  (forall b a, keeps P (f b a)) -> forall b, keeps P (efold f b l).
Proof. intros Hf b. apply (hoare_fold f (fun _ _ c => P (s_db c)) (fun c => P (s_db c))). intros b' a _. apply Hf. Qed.

Lemma keeps_stmt {A} (P : RdfDb -> Prop) (f : RdfDb -> result string (A * RdfDb)) :
  (forall d a d', P d -> f d = Ok (a, d') -> P d') -> keeps P (stmt f).
Proof. intros Hf. by apply (hoare_stmt f P (fun _ => P) P). Qed.
End ops.

Create HintDb keeps.
#[export] Hint Resolve keeps_select keeps_ret keeps_throw keeps_lift : keeps.

(** Sequences whose steps keep the invariant. *)
Ltac keeps :=
  repeat first
    [ solve [eauto with keeps]
    | eapply keeps_bind; [|intros ?]
    | match goal with
      | |- keeps _ (let '(_, _) := ?p in _) => destruct p
      | |- keeps _ (if ?b then _ else _) => destruct b
      | |- keeps _ (match ?x with _ => _ end) => destruct x
      end ].

(** ** Operations *)

Section invariant.
Context `{HE : !SqlEngine, HL : !SqlEngineLaws}.

Lemma set_terms_id d : rdf_terms d = Some (terms_of d) -> set_terms (terms_of d) d = d.
Proof. destruct d as [m t]. unfold terms_of, set_terms. cbn. by intros ->. Qed.

(** A change of representation only. *)
Definition same_tables (d d' : RdfDb) : Prop := terms_of d' = terms_of d /\ quads_of d' = quads_of d.

Lemma store_ok_same d d' : same_tables d d' -> store_ok d -> store_ok d'.
Proof. intros [H1 H2] [Hd Hq]. split; [by rewrite H1|]. intros q. rewrite H1, H2. apply Hq. Qed.

Lemma ensure_schema_same d0 : keeps (same_tables d0) ensure_schema.
Proof.
  unfold ensure_schema, create_terms, create_triples, create_index.
  apply keeps_bind; [apply keeps_stmt|intros _; apply keeps_bind; [apply keeps_stmt|intros _; keeps]].
  all: intros d a d' Hd [= <- <-]; exact Hd.
Qed.

Lemma ensure_schema_keeps : keeps store_ok ensure_schema.
Proof.
  intros c Hc. assert (Hs := ensure_schema_same (s_db c) c (conj eq_refl eq_refl)).
  destruct (ensure_schema c) as [[a|e] c']; by eapply store_ok_same.
Qed.

(** The dictionary grows by at most the term. *)
Definition grown (d0 : RdfDb) (c : SConn) : Prop := store_ok (s_db c) /\ extends d0 (s_db c).

Lemma insert_term_grown d0 t :
  (room (terms_of d0) -> admissible (bound (terms_of d0)) t) ->
  hoare (grown d0) (insert_term t) (fun _ c => grown d0 c) (grown d0).
Proof.
  intros Hadm. unfold insert_term, grown. set (P := fun d => store_ok d /\ extends d0 d).
  apply (hoare_stmt _ P (fun _ => P) P); [|done].
  intros d a d' [Hok Hext]. unfold the_terms. destruct (rdf_terms d) as [m|] eqn:Hm; cbn; [|done].
  assert (Hd : terms_of d = m) by (unfold terms_of; by rewrite Hm).
  destruct (find_term t m) eqn:Hf; [by intros [= <- <-]|].
  destruct (next_rowid m) as [id|] eqn:Hn; cbn; [|done]. intros [= <- <-].
  pose proof (store_dict _ Hok) as Hdict. rewrite Hd in Hdict.
  destruct (next_rowid_Some m id (dict_ids _ Hdict) Hn) as (Hid & Hfree & Hroom).
  assert (Hsub : m ⊆ <[id := t]> m) by by apply insert_subseteq.
  split.
  - apply store_ok_terms; [done|by rewrite Hd|]. apply dict_ok_insert; [done| |done..|].
    { intros i. by apply find_term_None. }
    intros Hr. rewrite (Hroom Hr). split; [lia|].
    destruct Hext as [Hsub0 _]. rewrite Hd in Hsub0. pose proof (bound_mono _ _ (dict_ids _ Hdict) Hsub0).
    eapply admissible_le; [|apply Hadm]; unfold room in *; lia.
  - transitivity d; [done|]. split; [|done]. by rewrite Hd.
Qed.

Lemma lookup_term_id_spec (P : RdfDb -> Prop) t :
  hoare (fun c => P (s_db c)) (lookup_term_id t)
    (fun id c => P (s_db c) /\ (id <> 0 -> terms_of (s_db c) !! id = Some t)) (fun c => P (s_db c)).
Proof.
  intros c Hc. unfold lookup_term_id, etotal. set (f := fun d : RdfDb => _).
  pose proof (hoare_select f P c Hc) as Hs. destruct (select f c) as [[id|e] c']; [|by split].
  destruct Hs as [HP Hf]. split; [done|]. intros _. unfold f, the_terms in Hf.
  unfold terms_of. destruct (rdf_terms (s_db c')) as [m|]; [|done]. cbn in Hf.
  destruct (find_term t m) eqn:Ht; cbn in Hf; [|done]. simplify_eq. by apply find_term_Some.
Qed.

Lemma intern_term_grown d0 t :
  (room (terms_of d0) -> admissible (bound (terms_of d0)) t) ->
  hoare (grown d0) (intern_term t) (fun id c => grown d0 c /\ terms_of (s_db c) !! id = Some t) (grown d0).
Proof.
  intros Hadm. unfold intern_term. apply (hoare_bind _ _ _ (fun _ => grown d0)); [by apply insert_term_grown|]. intros _.
  eapply hoare_bind; [apply (lookup_term_id_spec (fun d => store_ok d /\ extends d0 d) t)|].
  intros id c' [Hg Hid]. destruct (id =? 0) eqn:E; cbn; [done|].
  split; [done|]. apply Hid. lia.
Qed.

(** A label of an admissible term stays admissible as the dictionary grows. *)
Lemma admissible_extends d d' t :
  ids_ok (terms_of d') -> extends d d' ->
  (room (terms_of d) -> admissible (bound (terms_of d)) t) ->
  room (terms_of d') -> admissible (bound (terms_of d')) t.
Proof.
  intros Hok [Hsub _] Ht Hr. pose proof (bound_mono _ _ Hok Hsub).
  eapply admissible_le; [|apply Ht]; unfold room in *; lia.
Qed.

Lemma intern_frame (F : gmap Z Term -> Prop) d0 t :
  (forall m m', m ⊆ m' -> F m -> F m') ->
  (room (terms_of d0) -> admissible (bound (terms_of d0)) t) ->
  hoare (fun c => grown d0 c /\ F (terms_of (s_db c))) (intern_term t)
    (fun id c => (grown d0 c /\ F (terms_of (s_db c))) /\ terms_of (s_db c) !! id = Some t) (fun c => store_ok (s_db c)).
Proof.
  intros HF Hadm c [[Hok Hext] Hc].
  pose proof (intern_term_grown (s_db c) t
                (admissible_extends _ _ _ (dict_ids _ (store_dict _ Hok)) Hext Hadm) c (conj Hok (reflexivity _))) as Hi.
  destruct (intern_term t c) as [[id|e] c']; [|by destruct Hi].
  destruct Hi as [[Hok' Hext'] Hid]. split_and!; [|by eapply HF; [apply Hext'|]|done].
  split; [done|by transitivity (s_db c)].
Qed.

Lemma insert_triple_ok s p o (t : Triple) :
  storable t = true ->
  hoare (fun c => store_ok (s_db c) /\ quad_terms (terms_of (s_db c)) (0, s, p, o) = Some t) (insert_triple s p o)
    (fun _ c => store_ok (s_db c)) (fun c => store_ok (s_db c)).
Proof.
  intros Hv. unfold insert_triple. set (P := fun d => store_ok d /\ quad_terms (terms_of d) (0, s, p, o) = Some t).
  apply (hoare_stmt _ P (fun _ => store_ok) store_ok); [|by intros d []].
  intros d a d' [Hok Hq]. unfold the_triples. destruct (rdf_triples d) as [q|] eqn:Hd; cbn; [|done].
  case_bool_decide as Hin; intros [= <- <-]; [done|].
  apply store_ok_quads; [done|]. intros q' [->%elem_of_singleton|Hq']%elem_of_union.
  - split; [done|]. by exists t.
  - apply (store_quads _ Hok). unfold quads_of. by rewrite Hd.
Qed.

(** The terms of a triple may be interned. *)
Definition admissible_triple (b : Z) (t : Triple) : Prop :=
  let '(s, p, o) := t in admissible b s /\ admissible b p /\ admissible b o.

Lemma add_triple_ok d0 t :
  storable t = true -> (room (terms_of d0) -> admissible_triple (bound (terms_of d0)) t) ->
  hoare (fun c => grown d0 c) (add_triple t)
    (fun _ c => store_ok (s_db c) /\ terms_of d0 ⊆ terms_of (s_db c)) (fun c => store_ok (s_db c)).
Proof.
  destruct t as [[s p] o]. intros Hv Hadm. unfold add_triple.
  apply (hoare_pre _ (fun c => grown d0 c /\ True)); [|done].
  eapply hoare_bind; [apply (intern_frame (fun _ => True)); [done|by intros Hr; apply Hadm]|]. intros si.
  apply (hoare_pre _ (fun c => grown d0 c /\ terms_of (s_db c) !! si = Some s)); [|by intros c [[? _] ?]].
  eapply hoare_bind; [apply (intern_frame (fun m => m !! si = Some s)); [by intros; eapply lookup_weaken|by intros Hr; apply Hadm]|].
  intros pi.
  apply (hoare_pre _ (fun c => grown d0 c /\ (terms_of (s_db c) !! si = Some s /\ terms_of (s_db c) !! pi = Some p)));
    [|by intros c [[? ?] ?]].
  eapply hoare_bind.
  { apply (intern_frame (fun m => m !! si = Some s /\ m !! pi = Some p)); [|by intros Hr; apply Hadm].
    intros m m' Hsub []. split; by eapply lookup_weaken. }
  intros oi c [[[Hok Hext] [Hs Hp]] Ho].
  assert (Hq : quad_terms (terms_of (s_db c)) (0, si, pi, oi) = Some (s, p, o)) by by apply quad_terms_Some.
  pose proof (insert_triple_ok si pi oi (s, p, o) Hv c (conj Hok Hq)) as Hi.
  unfold insert_triple in *. destruct (stmt _ c) as [[n|e] c'] eqn:E; [|done]. split; [done|].
  apply stmt_cases in E as [(a & _ & Hf)|(e & [=] & _)]. destruct Hext as [Hsub _].
  unfold the_triples in Hf. destruct (rdf_triples (s_db c)) as [q|]; cbn in Hf; [|done].
  by case_bool_decide; injection Hf as _ <-.
Qed.

(** ** Fresheners *)

(** The labels drawn so far: distinct, of this stamp, of serials below the next. *)
Record fresh_ok (f : Freshener) (b : Z) : Prop := mkFreshOk {
  fresh_stamp : 0 <= stamp f <= b;
  fresh_serial : 0 <= serial f;
  fresh_labels a l : labels f !! a = Some l -> exists k, l = fresh_label (stamp f) k /\ 0 <= k < serial f;
  fresh_distinct a a' l : labels f !! a = Some l -> labels f !! a' = Some l -> a = a'
}.

Lemma fresh_ok_le f b b' : b <= b' -> fresh_ok f b -> fresh_ok f b'.
Proof. intros Hb [H1 H2 H3 H4]. split; [lia|done..]. Qed.

Lemma fresh_ok_new b : 0 <= b -> fresh_ok (mkFreshener b 0 ∅) b.
Proof. intros Hb. split; cbn; [lia..| |]; intros *; by rewrite lookup_empty. Qed.

(** [f'] is [f] after drawing labels. *)
Definition drawn (f f' : Freshener) : Prop := stamp f' = stamp f /\ labels f ⊆ labels f'.

Lemma label_spec a f b l f' :
  label a f = (l, f') -> fresh_ok f b -> fresh_ok f' b /\ drawn f f' /\ labels f' !! a = Some l.
Proof.
  unfold label. destruct (labels f !! a) as [l0|] eqn:Ha; cbn; intros [= <- <-] Hf; [split_and!; [done|by split|done]|].
  destruct Hf as [Hs Hk Hl Hd].
  assert (Hfree : labels f !! a = None) by done. unfold drawn. split_and!; cbn; [|done|by apply insert_subseteq|by rewrite lookup_insert_eq].
  assert (Hnew : forall x, labels f !! x <> Some (fresh_label (stamp f) (serial f))).
  { intros x (k & [_ Hx]%fresh_label_inj & Hlt)%Hl. lia. }
  split; cbn; [lia..| |].
  - intros x l [[<- <-]|[_ Hx]]%lookup_insert_Some; [by exists (serial f); split; [|lia]|].
    destruct (Hl _ _ Hx) as (k & -> & ?). exists k. split; [done|lia].
  - intros x x' l [[<- <-]|[Hx Hlx]]%lookup_insert_Some [[<- E]|[Hx' Hlx']]%lookup_insert_Some; try done.
    + by apply Hnew in Hlx'.
    + subst l. by apply Hnew in Hlx.
    + by eapply Hd.
Qed.

Lemma label_admissible a f b l f' : label a f = (l, f') -> fresh_ok f b -> admissible b (bnode l).
Proof.
  intros Hl Hf _. destruct (label_spec _ _ _ _ _ Hl Hf) as (Hf' & [Hs _] & Hin).
  destruct (fresh_labels _ _ Hf' _ _ Hin) as (k & -> & Hk). exists (stamp f'), k.
  pose proof (fresh_stamp _ _ Hf'). split_and!; [done|lia..].
Qed.

(** ** Loading and updating *)

(** The freshener of a running load fits the dictionary it draws for. *)
Definition loading (f : Freshener) (c : SConn) : Prop :=
  store_ok (s_db c) /\ fresh_ok f (bound (terms_of (s_db c))).

Lemma Freshener_new_loading :
  hoare (fun c => store_ok (s_db c)) Freshener_new loading (fun c => store_ok (s_db c)).
Proof.
  unfold Freshener_new. eapply hoare_bind; [apply (hoare_select the_terms store_ok)|].
  intros m c [Hok Hm]. split; [done|]. unfold the_terms in Hm. cbn.
  assert (terms_of (s_db c) = m) as <- by (unfold terms_of; by destruct (rdf_terms (s_db c)); cbn in Hm; simplify_eq).
  apply fresh_ok_new. pose proof (bound_range _ (dict_ids _ (store_dict _ Hok))). unfold bound in *. lia.
Qed.

Lemma Freshener_new_keeps : keeps store_ok Freshener_new.
Proof. eapply hoare_conseq; [apply Freshener_new_loading|done|by intros f c []|done]. Qed.

(** Storing a triple whose blank nodes were drawn from the freshener. *)
Definition loading_with (f : Freshener) (t : Triple) (c : SConn) : Prop :=
  loading f c /\ admissible_triple (bound (terms_of (s_db c))) t.

Lemma add_triple_loading f t : storable t = true ->
  hoare (loading_with f t) (add_triple t) (fun _ => loading f) (fun c => store_ok (s_db c)).
Proof.
  intros Hv c [[Hok Hf] Hadm].
  pose proof (add_triple_ok (s_db c) t Hv (fun _ => Hadm) c (conj Hok (reflexivity _))) as Ha.
  destruct (add_triple t c) as [[n|e] c']; [|done]. destruct Ha as [Hok' Hsub]. split; [done|].
  eapply fresh_ok_le; [|exact Hf]. apply bound_mono; [apply Hok'|done].
Qed.

(** Drawing the labels of a triple: the freshener still fits, and the triple
    may be stored. *)
Definition draws (f f' : Freshener) (t : Triple) : Prop :=
  storable t = true /\ forall b, fresh_ok f b -> fresh_ok f' b /\ admissible_triple b t.

Lemma draws_loading f f' t c : draws f f' t -> loading f c -> loading_with f' t c.
Proof. intros [_ Hd] [Hok Hf]. apply Hd in Hf as [Hf Ht]. split; [by split|done]. Qed.

(** Drawing, storing and counting: the body of both loops. *)
Lemma store_drawn f f' t (n : Z) : draws f f' t ->
  hoare (loading f) (let* k := add_triple t in eret (f', n + k)) (fun st : Freshener * Z => loading (fst st))
    (fun c => store_ok (s_db c)).
Proof.
  intros Hd. apply (hoare_pre _ (loading_with f' t)); [|intros c; by apply draws_loading].
  eapply hoare_bind; [apply add_triple_loading, Hd|]. by intros k c Hc.
Qed.

Section load.
Context `{HO : !OxTurtle, HS : !StoreHost}.

Lemma conv_triple_draws t f tr f' : conv_triple t f = (tr, f') -> draws f f' tr.
Proof.
  unfold conv_triple, conv_literal.
  assert (Hplain : forall b t, t_kind t <> K_BNODE -> admissible b t) by apply admissible_plain.
  destruct (subject t) as [n|a]; [|destruct (label a f) as [l1 f1] eqn:Hl1].
  all: destruct (object t) as [n2|a2|lit2];
    [|destruct (label a2 _) as [l2 f2] eqn:Hl2
     |destruct (ox_literal_destruct lit2) as [[lex [dt|]] [lang|]]].
  all: intros [= <- <-]; split; [done|intros b Hf].
  all: try (pose proof (label_admissible _ _ _ _ _ Hl1 Hf); apply (label_spec _ _ _ _ _ Hl1) in Hf as (Hf & _ & _)).
  all: try (pose proof (label_admissible _ _ _ _ _ Hl2 Hf); apply (label_spec _ _ _ _ _ Hl2) in Hf as (Hf & _ & _)).
  all: split; [done|]; cbn; split_and!; try done; by apply Hplain.
Qed.

Lemma load_item_loading f n item :
  hoare (loading f) (load_item (f, n) item) (fun st => loading (fst st)) (fun c => store_ok (s_db c)).
Proof.
  unfold load_item. destruct item as [t|e]; [|by intros c []].
  destruct (conv_triple t f) as [tr f'] eqn:Ht. apply conv_triple_draws in Ht. by apply store_drawn.
Qed.

Lemma load_turtle_keeps text base : keeps store_ok (load_turtle text base).
Proof.
  unfold load_turtle. apply keeps_bind; [apply ensure_schema_keeps|intros _].
  destruct (base ≫= _); [apply keeps_throw|].
  eapply hoare_bind; [apply Freshener_new_loading|]. intros f.
  apply (hoare_bind _ _ _ (fun st c => loading (fst st) c)).
  { apply (hoare_fold load_item (fun st _ c => loading (fst st) c) (fun c => store_ok (s_db c))) with (b := (f, 0)).
    intros [f' n] item _. apply load_item_loading. }
  by intros [f' n] c [Hc _].
Qed.

Lemma load_turtle_file_keeps path base : keeps store_ok (load_turtle_file path base).
Proof. unfold load_turtle_file. destruct (read_to_string path); [apply load_turtle_keeps|apply keeps_throw]. Qed.
End load.

(** ** Updates *)

Lemma typed_slot_subject s t : typed_slot 0 s = true -> s = Ground t -> parsed_term t = true /\ is_literal t = false.
Proof. intros Hs ->. cbn in Hs. apply andb_prop in Hs as [[H1 H2]%andb_prop _]. by apply negb_true_iff in H2. Qed.

Lemma parsed_term_plain t : parsed_term t = true -> t_kind t <> K_BNODE.
Proof.
  unfold parsed_term, is_iri, is_literal. intros Ht Hk. rewrite Hk in Ht. done.
Qed.

(** A slot of the data, relabelled. *)
Lemma ground_slot_admissible pos s f o f' b :
  typed_slot pos s = true -> ground_slot s f = (o, f') -> fresh_ok f b ->
  fresh_ok f' b /\ forall t, o = Some t -> admissible b t.
Proof.
  intros Hs. destruct s as [v|t]; cbn [ground_slot].
  - destruct (RustStd.strip_prefix BN v) as [a|]; [destruct (label a f) as [l f1] eqn:Hl|].
    + intros [= <- <-] Hf. split; [by apply (label_spec _ _ _ _ _ Hl) in Hf as (Hf & _ & _)|].
      intros t [= <-]. by eapply label_admissible.
    + by intros [= <- <-] Hf.
  - intros [= <- <-] Hf. split; [done|]. intros t' [= <-]. cbn in Hs.
    apply andb_prop in Hs as [[Hp _]%andb_prop _]. by apply admissible_plain, parsed_term_plain.
Qed.

Lemma ground_slot_literal pos s f t f' :
  (pos <= 1)%nat -> typed_slot pos s = true -> ground_slot s f = (Some t, f') -> is_literal t = false.
Proof.
  intros Hpos Hs. destruct s as [v|t']; cbn [ground_slot].
  - destruct (RustStd.strip_prefix BN v) as [a|]; [destruct (label a f)|done]. by intros [= <- _].
  - intros [= <- _]. cbn in Hs. apply andb_prop in Hs as [[Hp H0]%andb_prop H1].
    destruct pos as [|[|pos]]; cbn in *; [by apply negb_true_iff in H0| |lia].
    unfold is_iri, is_literal in *. apply Z.eqb_eq in H1. by rewrite H1.
Qed.

Lemma ground_draws tp f t f' : typed_pattern tp = true -> ground tp f = Ok (t, f') -> draws f f' t.
Proof.
  unfold typed_pattern, ground. intros [[Hs Hp]%andb_prop Ho]%andb_prop.
  destruct (ground_slot (tp_s tp) f) as [[s|] f1] eqn:E1; cbn [ok_or rbind]; [|done].
  destruct (ground_slot (tp_p tp) f1) as [[p|] f2] eqn:E2; cbn [ok_or rbind]; [|done].
  destruct (ground_slot (tp_o tp) f2) as [[o|] f3] eqn:E3; cbn [ok_or rbind]; [|done].
  intros [= <- <-]. split.
  - cbn. by rewrite (ground_slot_literal 0 _ _ _ _ ltac:(lia) Hs E1), (ground_slot_literal 1 _ _ _ _ ltac:(lia) Hp E2).
  - intros b Hf. destruct (ground_slot_admissible _ _ _ _ _ _ Hs E1 Hf) as [Hf1 H1].
    destruct (ground_slot_admissible _ _ _ _ _ _ Hp E2 Hf1) as [Hf2 H2].
    destruct (ground_slot_admissible _ _ _ _ _ _ Ho E3 Hf2) as [Hf3 H3]. split; [done|]. split_and!; auto.
Qed.

Lemma insert_step_loading f n tp : typed_pattern tp = true ->
  hoare (loading f) (insert_step (f, n) tp) (fun st => loading (fst st)) (fun c => store_ok (s_db c)).
Proof.
  intros Htp c Hc. unfold insert_step, ebind, elift.
  destruct (ground tp f) as [[t f']|e] eqn:Hg; [|by destruct Hc].
  by apply (store_drawn f f' t n (ground_draws _ _ _ _ Htp Hg)).
Qed.

(** Deletions only shrink the triples. *)
Lemma delete_triple_keeps s p o : keeps store_ok (delete_triple s p o).
Proof.
  apply keeps_stmt. intros d n d' Hok. unfold the_triples. destruct (rdf_triples d) as [t|] eqn:Hd; cbn; [|done].
  case_bool_decide; intros [= <- <-]; [|done]. apply store_ok_quads; [done|].
  intros q Hq. apply (store_quads _ Hok). unfold quads_of. rewrite Hd. set_solver.
Qed.

Lemma lookup_term_id_keeps (P : RdfDb -> Prop) t : keeps P (lookup_term_id t).
Proof. eapply hoare_conseq; [apply (lookup_term_id_spec P t)|..]; naive_solver. Qed.

Lemma delete_ids_keeps s p o n : keeps store_ok (delete_ids s p o n).
Proof. unfold delete_ids. keeps. apply delete_triple_keeps. Qed.

Lemma delete_step_keeps st tp : keeps store_ok (delete_step st tp).
Proof.
  destruct st as [f n]. unfold delete_step. apply keeps_bind; [apply keeps_lift|]. intros [[[s p] o] f'].
  repeat (apply keeps_bind; [apply lookup_term_id_keeps || apply delete_ids_keeps|intros ?]). apply keeps_ret.
Qed.

Lemma slot_id_keeps vars row s : keeps store_ok (slot_id vars row s).
Proof. unfold slot_id. destruct (slot_value _ _ _); [apply lookup_term_id_keeps|apply keeps_ret]. Qed.

Lemma delete_match_keeps vars row n tp : keeps store_ok (delete_match vars row n tp).
Proof.
  unfold delete_match. apply keeps_bind; [apply slot_id_keeps|intros s; destruct (s =? 0); [apply keeps_ret|]].
  apply keeps_bind; [apply slot_id_keeps|intros p; destruct (p =? 0); [apply keeps_ret|]].
  apply keeps_bind; [apply slot_id_keeps|intros ?; apply delete_ids_keeps].
Qed.

Lemma compile_on_keeps (P : RdfDb -> Prop) q : keeps P (compile_on q).
Proof. intros c Hc. unfold compile_on. by destruct (compile_query _ q) as [r|[]]. Qed.

Lemma exec_select_keeps (P : RdfDb -> Prop) q : keeps P (exec_select q).
Proof.
  unfold exec_select, of_result. apply keeps_bind; [apply compile_on_keeps|]. intros [sql vars]. keeps.
Qed.

Lemma run_update_keeps u : typed_update u = true -> keeps store_ok (run_update u).
Proof.
  unfold typed_update. intros [Hts _]%andb_prop. unfold run_update.
  apply keeps_bind; [apply ensure_schema_keeps|intros _]. destruct (u_kind u).
  - eapply hoare_bind; [apply Freshener_new_loading|]. intros f.
    apply (hoare_bind _ _ _ (fun st c => loading (fst st) c /\ forallb typed_pattern [] = true)).
    { apply (hoare_pre _ (fun c => loading (fst (f, 0)) c /\ forallb typed_pattern (u_triples u) = true)); [|done].
      apply (hoare_fold insert_step (fun st l c => loading (fst st) c /\ forallb typed_pattern l = true)
               (fun c => store_ok (s_db c))) with (b := (f, 0)).
      intros [f' n] tp l. intros c [Hc [Htp Hl]%andb_prop]. pose proof (insert_step_loading f' n tp Htp c Hc) as Hi.
      by destruct (insert_step (f', n) tp c) as [[[f2 n2]|e] c']. }
    by intros [f' n] c [[Hc _] _].
  - apply keeps_bind; [apply Freshener_new_keeps|intros f].
    apply keeps_bind; [apply keeps_fold; intros; apply delete_step_keeps|]. intros [f' n]. apply keeps_ret.
  - apply keeps_bind; [apply exec_select_keeps|]. intros [vars rows].
    apply keeps_fold. intros n row. apply keeps_fold. intros n' tp. apply delete_match_keeps.
Qed.

Lemma parse_stmt_spec (P : RdfDb -> Prop) text :
  hoare (fun c => P (s_db c)) (parse_stmt text) (fun p c => P (s_db c) /\ typed_parsed p = true) (fun c => P (s_db c)).
Proof.
  intros c Hc. unfold parse_stmt, elift. pose proof (parse_typed text) as Ht.
  destruct (parse text) as [p|[]]; by auto.
Qed.

Lemma update_keeps text : keeps store_ok (update text).
Proof.
  unfold update. eapply hoare_bind; [apply (parse_stmt_spec store_ok)|]. intros p. destruct p as [q|u].
  - by intros c [Hc _].
  - intros c [Hc Ht]. by apply run_update_keeps.
Qed.
End invariant.

(** ** Queries and updates that were parsed never panic

    The compiler panics on a filter value that is neither a variable nor a
    term; the parser makes none, and nothing else in the store panics. *)

Local Open Scope Z_scope.

(** ** The compiler *)

Abbreviation no_panic r := (r <> Err CPanic) (only parsing).

Lemma no_panic_bind {A B} (r : result compile_error A) (f : A -> result compile_error B) :
  no_panic r -> (forall a, r = Ok a -> no_panic (f a)) -> no_panic (rbind f r).
Proof. intros Hr Hf. destruct r as [a|e]; cbn; [by apply Hf|]. intros [= ->]. by apply Hr. Qed.

Lemma no_panic_value v ctx numeric lowered : typed_val v = true -> no_panic (compile_value v ctx numeric lowered).
Proof.
  unfold typed_val, compile_value. destruct (v_var v) as [var|]; [by destruct (vfind ctx var)|].
  destruct (v_term v); [intros _; by case_match|done].
Qed.

Lemma no_panic_operand e ctx : typed_expr e = true ->
  no_panic (rbind (fun v => compile_value v ctx false false) (as_val e)).
Proof. destruct e; try done. cbn. apply no_panic_value. Qed.

Lemma rbind_calm {A B C} (f : A -> result compile_error B) (g : B -> result compile_error C) r :
  no_panic (rbind g (rbind f r)) -> no_panic (rbind (fun a => rbind g (f a)) r).
Proof. by destruct r. Qed.

Lemma no_panic_expr e ctx : typed_expr e = true -> no_panic (compile_expr e ctx).
Proof.
  induction e as [a IHa b IHb|a IHa b IHb|a IHa|v|text IHt pattern IHp flags|op a IHa b IHb|v];
    cbn [typed_expr compile_expr]; rewrite ?andb_true_iff.
  - intros [Ha Hb]. apply no_panic_bind; [auto|]. intros sa _. apply no_panic_bind; [auto|]. done.
  - intros [Ha Hb]. apply no_panic_bind; [auto|]. intros sa _. apply no_panic_bind; [auto|]. done.
  - intros Ha. apply no_panic_bind; [auto|]. done.
  - done.
  - intros [[Ht Hp] Hf]. apply rbind_calm, no_panic_bind; [by apply no_panic_operand|]. intros sp _.
    apply rbind_calm, no_panic_bind; [by apply no_panic_operand|]. intros st _. apply no_panic_bind; [|done].
    destruct flags as [f|]; [|done]. by apply no_panic_operand.
  - destruct a; try done. destruct b; try done. cbn [typed_expr]. intros [Ha Hb]. case_match; [done|].
    apply no_panic_bind; [by apply no_panic_value|]. intros sa _. apply no_panic_bind; [by apply no_panic_value|]. done.
  - intros _. destruct (v_var v), (v_term v); try done. case_match; done.
Qed.

Lemma no_panic_filters fs ctx : forall w, forallb typed_expr fs = true -> no_panic (compile_filters fs ctx w).
Proof.
  induction fs as [|f fs IH]; intros w; cbn; [done|]. rewrite andb_true_iff. intros [Hf Hfs].
  apply no_panic_bind; [by apply no_panic_expr|]. intros e _. by apply IH.
Qed.

(** The filters of a flat, and of its optionals. *)
Definition typed_flat (f : Flat) : bool :=
  forallb typed_expr (filts f) && forallb (fun og => forallb typed_expr (g_filters og)) (opts f).

Lemma typed_group_filters og : typed_group og = true -> forallb typed_expr (g_filters og) = true.
Proof. destruct og as [ts fs os us]. by intros (_ & ? & _)%typed_group_parts. Qed.

Lemma typed_add_group g f : typed_group g = true -> typed_flat f = true -> typed_flat (add_group g f) = true.
Proof.
  destruct g as [ts fs os us]. intros (_ & Hf & Ho & _)%typed_group_parts. unfold typed_flat. cbn.
  rewrite !forallb_app, !andb_true_iff. intros [H1 H2]. split_and!; try done.
  revert Ho. rewrite !forallb_forall. intros Ho og Hog. by apply typed_group_filters, Ho.
Qed.

Definition typed_flats (r : result compile_error (list Flat)) : Prop :=
  no_panic r /\ forall l, r = Ok l -> forallb typed_flat l = true.

Lemma flatten_typed g : typed_group g = true -> forall l, forallb typed_flat l = true -> typed_flats (flatten_group g l).
Proof.
  induction g as [ts fs os us IH] using group_ind'. intros Hg l Hl. cbn [flatten_group g_unions].
  assert (Hus : forallb (forallb typed_group) us = true) by (by apply typed_group_parts in Hg as (_ & _ & _ & ?)).
  assert (Hl' : forallb typed_flat (map (add_group (mkGroup ts fs os us)) l) = true).
  { rewrite forallb_forall in Hl |- *. intros f (f0 & <- & Hin)%in_map_iff. apply typed_add_group; auto. }
  clear Hl Hg. revert Hl'. generalize (map (add_group (mkGroup ts fs os us)) l). clear ts fs os l.
  induction us as [|bs us IHus]; intros l Hl; cbn [unions_loop]; [split; [done|by intros ? [= <-]]|].
  apply Forall_cons in IH as [Hb IH]. cbn in Hus. apply andb_true_iff in Hus as [Hbs Hus].
  assert (Hbranches : forall f acc, typed_flat f = true -> forallb typed_flat acc = true ->
            typed_flats (branches_loop flatten_group f bs acc)).
  { clear IH IHus Hus Hl. intros f acc Hf. revert acc. induction bs as [|b bs IHb]; intros acc Hacc; cbn; [split; [done|by intros ? [= <-]]|].
    apply Forall_cons in Hb as [Hb1 Hb]. cbn in Hbs. apply andb_true_iff in Hbs as [Hb2 Hbs].
    destruct (Hb1 Hb2 [f]) as [Hn Ht]; [by cbn; rewrite Hf|]. destruct (flatten_group b [f]) as [seeded|e]; cbn; [|done].
    case_match; [by split|]. apply IHb; [done..|]. by rewrite forallb_app, Hacc, Ht. }
  assert (Hflats : forall l acc, forallb typed_flat l = true -> forallb typed_flat acc = true ->
            typed_flats (flats_loop flatten_group bs l acc)).
  { clear IH IHus Hus Hl. intros l0. induction l0 as [|f l0 IHl]; intros acc Hl0 Hacc; cbn; [split; [done|by intros ? [= <-]]|].
    cbn in Hl0. apply andb_true_iff in Hl0 as [Hf Hl0]. destruct (Hbranches f acc Hf Hacc) as [Hn Ht].
    destruct (branches_loop _ f bs acc) as [acc'|e]; cbn; [auto|done]. }
  destruct (Hflats l [] Hl eq_refl) as [Hn Ht]. destruct (flats_loop _ bs l []) as [l'|e]; cbn; [auto|done].
Qed.

Lemma no_panic_optionals ids l : forall vars from, forallb (fun og => forallb typed_expr (g_filters og)) (map snd l) = true ->
  no_panic (optionals_loop ids l vars from).
Proof.
  induction l as [|[gi og] l IH]; intros vars from; cbn [optionals_loop map forallb snd]; [done|]. rewrite andb_true_iff.
  intros [Hog Hl]. apply no_panic_bind; [|intros [vars' from'] _; by apply IH].
  unfold optional_step. destruct (g_triples og); [done|]. apply no_panic_bind; [|intros [ifrom iwhere] _; by case_match].
  destruct (g_filters og) as [|f fs]; [done|]. apply no_panic_bind; [by apply no_panic_filters|done].
Qed.

Lemma map_snd_enumerate {A} (l : list A) : map snd (enumerate l) = l.
Proof.
  apply list_eq. intros i. change (map snd) with (fmap (M:=list) (@snd nat A)). unfold enumerate.
  rewrite list_lookup_fmap, list_lookup_imap. by destruct (l !! i).
Qed.

Lemma no_panic_flat ids fl proj : typed_flat fl = true -> no_panic (compile_flat ids fl proj).
Proof.
  unfold typed_flat. rewrite andb_true_iff. intros [Hf Ho]. unfold compile_flat. apply no_panic_bind.
  { apply no_panic_optionals. by rewrite map_snd_enumerate. }
  intros [vars from] _. apply no_panic_bind; [by apply no_panic_filters|done].
Qed.

Lemma no_panic_traverse {A B} (f : A -> result compile_error B) l :
  (forall a, In a l -> no_panic (f a)) -> no_panic (traverse f l).
Proof.
  induction l as [|a l IH]; intros Hf; cbn; [done|]. apply no_panic_bind; [by apply Hf; left|]. intros b _.
  apply no_panic_bind; [apply IH; intros a' Ha; by apply Hf; right|done].
Qed.

Lemma no_panic_query ids q : typed_group (q_pattern q) = true -> no_panic (compile_query ids q).
Proof.
  intros Hg. destruct (flatten_typed _ Hg [Flat_default] eq_refl) as [Hn Ht]. unfold compile_query.
  apply no_panic_bind; [done|]. intros flats Hflats. specialize (Ht _ Hflats). apply no_panic_bind.
  { unfold visible_names. assert (forall gb sel, no_panic (agg_names gb sel)) as Hagg.
    { intros gb sel. induction sel as [|it sel IH]; cbn; [done|]. case_match; [done|]. unfold rmap in *. by destruct (agg_names gb sel). }
    destruct (q_form q); repeat case_match; done || apply Hagg. }
  intros vis _. apply no_panic_bind.
  { unfold compile_sub, rmap. apply no_panic_bind; [|done]. apply no_panic_traverse. intros fl Hfl. apply no_panic_flat.
    rewrite forallb_forall in Ht. by apply Ht. }
  intros sub _. assert (forall d v i o s, no_panic (plain_order d v i o s)) as Hord.
  { intros d v i o. induction o as [|k o IH]; intros s; cbn; [done|]. destruct (position _ i); [|done]. by case_match. }
  assert (no_panic (if aggmode q then Ok (agg_core q vis (inner_names q vis) sub) else plain_core q vis (inner_names q vis) sub)).
  { case_match; [done|]. unfold plain_core. by apply no_panic_bind. }
  destruct (q_form q); [| |done]; (apply no_panic_bind; [done|]; by intros [core ord] _).
Qed.

(** ** The store *)

Section store.
Context `{!SqlEngine}.

(** Whatever statements fail, the run does not panic. *)
Definition calm {A} (m : SM A) : Prop := forall c, fst (m c) <> Err SPanic.

Lemma calm_bind {A B} (m : SM A) (f : A -> SM B) : calm m -> (forall a, calm (f a)) -> calm (ebind f m).
Proof.
  intros Hm Hf c. unfold ebind. specialize (Hm c). destruct (m c) as [[a|e] c']; [apply Hf|]. cbn in *. intros [= ->]. by apply Hm.
Qed.

Lemma calm_ret {A} (a : A) : calm (eret a).
Proof. done. Qed.

Lemma calm_stmt {A} (f : RdfDb -> result string (A * RdfDb)) : calm (stmt f).
Proof. intros c. unfold stmt. destruct (s_faults c) as [|[e|] fs]; [|done|]; by destruct (f (s_db c)) as [[]|]. Qed.

Lemma calm_select {A} (f : RdfDb -> result string A) : calm (select f).
Proof. apply calm_stmt. Qed.

Lemma calm_of_result {A} (r : result string A) : calm (of_result r).
Proof. intros c. by destruct r. Qed.

Lemma calm_total {A} (f : SConn -> A * SConn) : calm (etotal f).
Proof. intros c. unfold etotal. by destruct (f c). Qed.

Lemma calm_throw {A} m : calm (ethrow (SMsg m) : SM A).
Proof. done. Qed.

Lemma calm_fold {A B} (f : B -> A -> SM B) l : (forall b a, calm (f b a)) -> forall b, calm (efold f b l).
Proof. intros Hf. induction l as [|a l IH]; intros b; cbn [efold]; [apply calm_ret|]. by apply calm_bind. Qed.

Create HintDb calm.
#[local] Hint Resolve calm_ret calm_stmt calm_select calm_of_result calm_total calm_throw : calm.

Ltac calm :=
  repeat (cbv beta zeta;
    match goal with
    | |- calm (ebind _ _) => apply calm_bind; [|intros ?]
    | |- calm (efold _ _ _) => apply calm_fold; intros ? ?
    | |- calm (let '(_, _) := ?p in _) => destruct p
    | |- calm (if ?b then _ else _) => destruct b
    | |- calm (match ?x with _ => _ end) => destruct x
    | _ => solve [auto with calm]
    end).

Lemma calm_ensure_schema : calm ensure_schema.
Proof. unfold ensure_schema, create_terms, create_triples, create_index. calm. Qed.
#[local] Hint Resolve calm_ensure_schema : calm.

Lemma calm_freshener : calm Freshener_new.
Proof. unfold Freshener_new. calm. Qed.
#[local] Hint Resolve calm_freshener : calm.

Lemma calm_lookup t : calm (lookup_term_id t).
Proof. apply calm_total. Qed.
#[local] Hint Resolve calm_lookup : calm.

Lemma calm_intern t : calm (intern_term t).
Proof. unfold intern_term, insert_term. calm. Qed.
#[local] Hint Resolve calm_intern : calm.

Lemma calm_ground tp f : calm (elift (ground tp f)).
Proof.
  intros c. unfold elift. cbn [fst]. unfold ground.
  destruct (ground_slot (tp_s tp) f) as [[s|] f1]; [cbn [ok_or rbind]|done].
  destruct (ground_slot (tp_p tp) f1) as [[p|] f2]; [cbn [ok_or rbind]|done].
  by destruct (ground_slot (tp_o tp) f2) as [[o|] f3].
Qed.
#[local] Hint Resolve calm_ground : calm.

Lemma calm_add_triple t : calm (add_triple t).
Proof. unfold add_triple, insert_triple. calm. Qed.
#[local] Hint Resolve calm_add_triple : calm.

Lemma calm_delete_ids s p o n : calm (delete_ids s p o n).
Proof. unfold delete_ids, delete_triple. calm. Qed.
#[local] Hint Resolve calm_delete_ids : calm.

Lemma calm_exec_select q : typed_group (q_pattern q) = true -> calm (exec_select q).
Proof.
  intros Hq. unfold exec_select. apply calm_bind.
  - intros c. unfold compile_on. pose proof (no_panic_query (term_id (s_db c)) q Hq) as Hn.
    by destruct (compile_query _ q) as [|[]].
  - intros [sql vars]. calm.
Qed.
#[local] Hint Resolve calm_exec_select : calm.

Lemma calm_exec_ask q : typed_group (q_pattern q) = true -> calm (exec_ask q).
Proof.
  intros Hq. unfold exec_ask. apply calm_bind.
  - intros c. unfold compile_on. pose proof (no_panic_query (term_id (s_db c)) q Hq) as Hn.
    by destruct (compile_query _ q) as [|[]].
  - intros [sql vars]. calm.
Qed.

Lemma calm_exec_construct q : typed_group (q_pattern q) = true -> calm (exec_construct q).
Proof. intros Hq. unfold exec_construct. apply calm_bind; [by apply calm_exec_select|]. intros [vars rows]. calm. Qed.

Lemma typed_where_query tps : forallb typed_pattern tps = true -> typed_group (q_pattern (where_query tps)) = true.
Proof. intros Ht. cbn. by rewrite Ht. Qed.

Lemma calm_run_update u : typed_update u = true -> calm (run_update u).
Proof.
  unfold typed_update. rewrite andb_true_iff. intros [Ht _]. unfold run_update.
  apply calm_bind; [auto with calm|]. intros _. destruct (u_kind u).
  - calm. unfold insert_step. calm.
  - calm. unfold delete_step. calm.
  - apply calm_bind; [by apply calm_exec_select, typed_where_query|]. intros [vars rows].
    apply calm_fold. intros n row. unfold delete_row. apply calm_fold. intros n' tp. unfold delete_match, slot_id. calm.
Qed.
End store.
