(* ===== verification/SparqlStoreSpec.v ===== *)
(** * SparqlStoreSpec: the store is a set of triples

    Every sequence of operations keeps the invariant of [SparqlStoreInv]; and
    when no statement fails on its own, updates are unions and differences of
    the set of triples that the tables stand for, with the right count. *)

From S2P Require Import Prelude RustStd External Effect SparqlTerm SparqlCompile SparqlCursor SparqlParse SparqlTyping SparqlSerialize SparqlStore SparqlStoreInv.

Local Open Scope Z_scope.

#[export] Instance Term_countable : Countable Term.
Proof.
  refine (inj_countable' (fun t => (t_kind t, t_lex t, t_dtype t, t_lang t))
            (fun '(k, l, d, g) => mkTerm k l d g) _). by intros [].
Defined.

(** ** The set of triples *)

Definition graph (m : gmap Z Term) (q : gset Quad) : gset Triple := list_to_set (omap (quad_terms m) (elements q)).

Definition graph_of (d : RdfDb) : gset Triple := graph (terms_of d) (quads_of d).

Lemma elem_of_graph m q t : t ∈ graph m q <-> exists x, x ∈ q /\ quad_terms m x = Some t.
Proof. unfold graph. rewrite elem_of_list_to_set, list_elem_of_omap. by setoid_rewrite elem_of_elements. Qed.

(** Every quad resolves, in the default graph. *)
Definition resolved (m : gmap Z Term) (q : gset Quad) : Prop := forall x, x ∈ q -> valid_quad m x.

Lemma graph_mono m m' q : m ⊆ m' -> resolved m q -> graph m' q = graph m q.
Proof.
  intros Hsub Hq. apply set_eq. intros t. rewrite !elem_of_graph.
  split; intros ([[[g s] p] o] & Hx & Ht); exists (g, s, p, o); (split; [done|]).
  - destruct (Hq _ Hx) as (_ & [[s1 p1] o1] & H1 & _). assert (H1' := H1).
    destruct t as [[st pt] ot]. apply quad_terms_Some in H1 as (E1 & E2 & E3). apply quad_terms_Some in Ht as (F1 & F2 & F3).
    eapply lookup_weaken in E1, E2, E3; [|done..]. rewrite H1'. congruence.
  - destruct t as [[st pt] ot]. apply quad_terms_Some in Ht as (F1 & F2 & F3).
    apply quad_terms_Some. split_and!; by eapply lookup_weaken.
Qed.

(** The quad of three terms under a dictionary without duplicates. *)
Lemma quad_terms_inj m x x' t : unique m -> quad_terms m x = Some t -> quad_terms m x' = Some t ->
  fst (fst (fst x)) = fst (fst (fst x')) -> x = x'.
Proof.
  intros Hu. destruct x as [[[g s] p] o], x' as [[[g' s'] p'] o'], t as [[st pt] ot]. cbn [fst].
  intros (E1 & E2 & E3)%quad_terms_Some (F1 & F2 & F3)%quad_terms_Some ->.
  by rewrite (Hu s s' st), (Hu p p' pt), (Hu o o' ot).
Qed.

Lemma valid_quad_default m x : valid_quad m x -> fst (fst (fst x)) = 0.
Proof. destruct x as [[[g s] p] o]. by intros [-> _]. Qed.

Lemma elem_of_graph_quad m q x t : unique m -> resolved m q -> fst (fst (fst x)) = 0 -> quad_terms m x = Some t ->
  t ∈ graph m q <-> x ∈ q.
Proof.
  intros Hu Hq Hg Hx. rewrite elem_of_graph. split; [|intros; by exists x].
  intros (y & Hy & Ht). rewrite (quad_terms_inj m x y t); try done.
  rewrite Hg. symmetry. by eapply valid_quad_default, Hq.
Qed.

(** ** Runs without failures *)

Definition healthy (c : SConn) : Prop := Forall (fun f => f = None) (s_faults c).

(** Healthy, with both tables, standing for [G], with [k] free ids. *)
Record ready (k : Z) (G : gset Triple) (c : SConn) : Prop := mkReady {
  ready_healthy : healthy c;
  ready_terms : rdf_terms (s_db c) = Some (terms_of (s_db c));
  ready_triples : rdf_triples (s_db c) = Some (quads_of (s_db c));
  ready_ids : ids_ok (terms_of (s_db c));
  ready_unique : unique (terms_of (s_db c));
  ready_resolved : resolved (terms_of (s_db c)) (quads_of (s_db c));
  ready_room : bound (terms_of (s_db c)) + k <= I64_MAX;
  ready_graph : graph_of (s_db c) = G
}.

Section runs.
Context `{HE : !SqlEngine}.

Lemma stmt_runs {A} (f : RdfDb -> result string (A * RdfDb)) c a d :
  healthy c -> f (s_db c) = Ok (a, d) -> exists fs, stmt f c = (Ok a, mkSConn d fs) /\ healthy (mkSConn d fs).
Proof.
  unfold healthy, stmt. intros Hc Hf. destruct (s_faults c) as [|[e|] fs]; [|by inversion Hc|].
  all: rewrite Hf; eexists; split; [done|]; cbn; solve [by constructor|by inversion Hc].
Qed.

Lemma select_runs {A} (f : RdfDb -> result string A) c :
  healthy c -> exists fs, select f c = (match f (s_db c) with Ok a => Ok a | Err e => Err (SMsg e) end, mkSConn (s_db c) fs) /\
    healthy (mkSConn (s_db c) fs).
Proof.
  unfold healthy, select, stmt. intros Hc. destruct (s_faults c) as [|[e|] fs]; [|by inversion Hc|].
  all: destruct (f (s_db c)) as [a|e']; cbn; eexists; (split; [done|]); cbn; solve [by constructor|by inversion Hc].
Qed.

Lemma ready_same k G c fs : ready k G c -> healthy (mkSConn (s_db c) fs) -> ready k G (mkSConn (s_db c) fs).
Proof. by intros [] ?. Qed.

Lemma ready_le k k' G c : k' <= k -> ready k G c -> ready k' G c.
Proof. intros Hk []. split; try done. lia. Qed.

(** *** Terms *)

Lemma lookup_runs c t : healthy c ->
  exists fs, lookup_term_id t c = (Ok (term_id (s_db c) t), mkSConn (s_db c) fs) /\ healthy (mkSConn (s_db c) fs).
Proof.
  intros Hc. unfold lookup_term_id, etotal.
  destruct (select_runs (fun d => let? m := the_terms d in ok_or "no rows" (find_term t m)) c Hc) as (fs & -> & Hfs).
  exists fs. split; [|done]. unfold the_terms, term_id. destruct (rdf_terms (s_db c)) as [m|]; cbn; [|done].
  by destruct (find_term t m).
Qed.

Lemma term_id_known k G c t : ready k G c ->
  let id := term_id (s_db c) t in
  (id = 0 /\ forall i, terms_of (s_db c) !! i <> Some t) \/ (id <> 0 /\ terms_of (s_db c) !! id = Some t).
Proof.
  intros Hr. unfold term_id. rewrite (ready_terms _ _ _ Hr).
  destruct (find_term t _) as [id|] eqn:Hf; cbn; [right|left; split; [done|]; intros i; by apply find_term_None].
  apply find_term_Some in Hf. split; [|done]. apply (ready_ids _ _ _ Hr) in Hf. lia.
Qed.

Lemma next_rowid_room m : ids_ok m -> bound m < I64_MAX -> next_rowid m = Some (bound m + 1) /\ m !! (bound m + 1) = None.
Proof.
  intros Hids Hroom. split.
  - unfold next_rowid, bound in *. destruct (max_id m) as [b|]; [|done]. cbn in *.
    by rewrite (proj2 (Z.ltb_lt b I64_MAX)) by lia.
  - destruct (m !! (bound m + 1)) eqn:Hn; [|done]. apply bound_le in Hn. lia.
Qed.

(** A new row for a term that has none. *)
Lemma ready_new_term k G c t fs : 0 <= k -> ready (1 + k) G c -> find_term t (terms_of (s_db c)) = None ->
  let d := set_terms (<[bound (terms_of (s_db c)) + 1 := t]> (terms_of (s_db c))) (s_db c) in
  healthy (mkSConn d fs) -> ready k G (mkSConn d fs).
Proof.
  intros Hk Hr Hf d Hfs. set (m := terms_of (s_db c)) in *.
  pose proof (ready_room _ _ _ Hr) as Hroom. pose proof (ready_ids _ _ _ Hr) as Hids. fold m in Hroom, Hids.
  pose proof (bound_range m Hids) as Hb. destruct (next_rowid_room m Hids) as [_ Hfree]; [lia|].
  assert (Hsub : m ⊆ <[bound m + 1 := t]> m) by by apply insert_subseteq.
  split; cbn; try done.
  - by apply (ready_triples _ _ _ Hr).
  - intros i t' [[<- <-]|[_ Hi]]%lookup_insert_Some; [lia|by eapply Hids].
  - intros i j t' [[<- <-]|[Hni Hi]]%lookup_insert_Some [[<- E]|[Hnj Hj]]%lookup_insert_Some; subst; try done.
    + by eapply find_term_None in Hj.
    + by eapply find_term_None in Hi.
    + by eapply (ready_unique _ _ _ Hr).
  - intros x Hx. eapply valid_quad_mono; [exact Hsub|]. by apply (ready_resolved _ _ _ Hr).
  - change (bound (<[bound m + 1 := t]> m) + k <= I64_MAX). rewrite bound_insert by (done || lia). lia.
  - change (graph (<[bound m + 1 := t]> m) (quads_of (s_db c)) = G).
    rewrite (graph_mono m) by (done || apply Hr). apply Hr.
Qed.

Lemma insert_term_runs k G c t : 0 <= k -> ready (1 + k) G c ->
  exists c', insert_term t c = (Ok tt, c') /\ ready k G c' /\ terms_of (s_db c) ⊆ terms_of (s_db c') /\
    exists id, terms_of (s_db c') !! id = Some t.
Proof.
  intros Hk Hr. set (m := terms_of (s_db c)). pose proof (ready_room _ _ _ Hr) as Hroom. fold m in Hroom.
  destruct (next_rowid_room m (ready_ids _ _ _ Hr)) as [Hnext Hfree]; [lia|].
  set (d := match find_term t m with Some _ => s_db c | None => set_terms (<[bound m + 1 := t]> m) (s_db c) end).
  destruct (stmt_runs (fun d =>
    let? m := the_terms d in
    match find_term t m with
    | Some _ => Ok (tt, d)
    | None => let? id := ok_or "database or disk is full" (next_rowid m) in Ok (tt, set_terms (<[id := t]> m) d)
    end) c tt d (ready_healthy _ _ _ Hr)) as (fs & Hs & Hfs).
  { unfold the_terms, d. rewrite (ready_terms _ _ _ Hr). fold m. cbn [ok_or rbind].
    destruct (find_term t m); [done|]. by rewrite Hnext. }
  exists (mkSConn d fs). split; [exact Hs|]. unfold d in *. destruct (find_term t m) as [id|] eqn:Hf.
  - split_and!; [|done|exists id; by apply find_term_Some].
    eapply ready_le; [|by apply (ready_same (1 + k) G c fs)]. lia.
  - split_and!; [by apply ready_new_term|by apply insert_subseteq|exists (bound m + 1); by apply lookup_insert_eq].
Qed.

Lemma intern_runs k G c t : 0 <= k -> ready (1 + k) G c ->
  exists id c', intern_term t c = (Ok id, c') /\ ready k G c' /\ terms_of (s_db c) ⊆ terms_of (s_db c') /\
    terms_of (s_db c') !! id = Some t.
Proof.
  intros Hk Hr. destruct (insert_term_runs k G c t Hk Hr) as (c1 & Hins & Hr1 & Hsub & [id Hid]).
  unfold intern_term, ebind. rewrite Hins.
  destruct (lookup_runs c1 t (ready_healthy _ _ _ Hr1)) as (fs' & -> & Hfs').
  destruct (term_id_known _ _ _ t Hr1) as [[H0 Hno]|[Hne Hyes]]; [by apply Hno in Hid|].
  rewrite (proj2 (Z.eqb_neq _ _) Hne). exists (term_id (s_db c1) t), (mkSConn (s_db c1) fs').
  split_and!; [done|by apply ready_same|done..].
Qed.

(** *** Triples *)

Lemma graph_insert m q x t : quad_terms m x = Some t -> graph m ({[x]} ∪ q) = {[t]} ∪ graph m q.
Proof. intros Hx. apply set_eq. intros t'. rewrite elem_of_union, elem_of_singleton, !elem_of_graph. set_solver. Qed.

Lemma graph_delete m q x t : unique m -> resolved m q -> fst (fst (fst x)) = 0 -> quad_terms m x = Some t ->
  graph m (q ∖ {[x]}) = graph m q ∖ {[t]}.
Proof.
  intros Hu Hq Hg Hx. apply set_eq. intros t'. rewrite elem_of_difference, elem_of_singleton, !elem_of_graph. split.
  - intros (y & [Hy Hne]%elem_of_difference & Ht). split; [by exists y|]. intros ->.
    apply Hne, elem_of_singleton. apply (quad_terms_inj m _ _ t); try done.
    rewrite Hg. by eapply valid_quad_default, Hq.
  - intros [(y & Hy & Ht) Hne]. exists y. split; [|done]. apply elem_of_difference. split; [done|].
    intros ->%elem_of_singleton. congruence.
Qed.

(** How much the set grows or shrinks is counted. *)
Definition count (G : gset Triple) : Z := Z.of_nat (size G).

Lemma count_insert (G : gset Triple) t : count ({[t]} ∪ G) = count G + (if bool_decide (t ∈ G) then 0 else 1).
Proof.
  unfold count. case_bool_decide as Ht.
  - replace ({[t]} ∪ G) with G by set_solver. lia.
  - rewrite size_union by set_solver. rewrite size_singleton. lia.
Qed.

Lemma count_delete (G : gset Triple) t : count (G ∖ {[t]}) = count G - (if bool_decide (t ∈ G) then 1 else 0).
Proof.
  unfold count. case_bool_decide as Ht.
  - assert (Hs : size G = size ({[t]} ∪ G ∖ {[t]})) by (f_equal; by apply union_difference_singleton_L).
    rewrite size_union in Hs by set_solver. rewrite size_singleton in Hs. lia.
  - replace (G ∖ {[t]}) with G by set_solver. lia.
Qed.

Lemma insert_triple_runs k G c s p o t :
  ready k G c -> quad_terms (terms_of (s_db c)) (0, s, p, o) = Some t -> storable t = true ->
  exists c', insert_triple s p o c = (Ok (count ({[t]} ∪ G) - count G), c') /\ ready k ({[t]} ∪ G) c'.
Proof.
  intros Hr Hq Hst. set (m := terms_of (s_db c)) in *. set (q := quads_of (s_db c)).
  assert (Hin : t ∈ G <-> (0, s, p, o) ∈ q).
  { rewrite <-(ready_graph _ _ _ Hr). by apply elem_of_graph_quad; [apply Hr..|done|]. }
  set (d := if bool_decide ((0, s, p, o) ∈ q) then s_db c else set_triples ({[(0, s, p, o)]} ∪ q) (s_db c)).
  destruct (stmt_runs (fun d =>
    let? t := the_triples d in
    if bool_decide ((0, s, p, o) ∈ t) then Ok (0, d) else Ok (1, set_triples ({[(0, s, p, o)]} ∪ t) d))
    c (if bool_decide ((0, s, p, o) ∈ q) then 0 else 1) d (ready_healthy _ _ _ Hr)) as (fs & Hs & Hfs).
  { unfold the_triples, d. rewrite (ready_triples _ _ _ Hr). fold q. cbn [ok_or rbind]. by case_bool_decide. }
  exists (mkSConn d fs). split.
  { rewrite count_insert. unfold insert_triple. rewrite Hs. do 2 f_equal. rewrite (bool_decide_ext _ _ Hin). lia. }
  unfold d in *. case_bool_decide as Hx.
  - replace ({[t]} ∪ G) with G by set_solver. by apply ready_same.
  - split; cbn; try done; [apply Hr..| |apply Hr|].
    + intros x [->%elem_of_singleton|Hx']%elem_of_union; [|by apply (ready_resolved _ _ _ Hr)].
      split; [done|by exists t].
    + change (graph m ({[(0, s, p, o)]} ∪ q) = {[t]} ∪ G). rewrite (graph_insert _ _ _ t) by done.
      f_equal. apply Hr.
Qed.

Lemma delete_triple_runs k G c s p o t :
  ready k G c -> quad_terms (terms_of (s_db c)) (0, s, p, o) = Some t ->
  exists c', delete_triple s p o c = (Ok (count G - count (G ∖ {[t]})), c') /\ ready k (G ∖ {[t]}) c'.
Proof.
  intros Hr Hq. set (m := terms_of (s_db c)) in *. set (q := quads_of (s_db c)).
  assert (Hin : t ∈ G <-> (0, s, p, o) ∈ q).
  { rewrite <-(ready_graph _ _ _ Hr). by apply elem_of_graph_quad; [apply Hr..|done|]. }
  set (d := if bool_decide ((0, s, p, o) ∈ q) then set_triples (q ∖ {[(0, s, p, o)]}) (s_db c) else s_db c).
  destruct (stmt_runs (fun d =>
    let? t := the_triples d in
    if bool_decide ((0, s, p, o) ∈ t) then Ok (1, set_triples (t ∖ {[(0, s, p, o)]}) d) else Ok (0, d))
    c (if bool_decide ((0, s, p, o) ∈ q) then 1 else 0) d (ready_healthy _ _ _ Hr)) as (fs & Hs & Hfs).
  { unfold the_triples, d. rewrite (ready_triples _ _ _ Hr). fold q. cbn [ok_or rbind]. by case_bool_decide. }
  exists (mkSConn d fs). split.
  { rewrite count_delete. unfold delete_triple. rewrite Hs. do 2 f_equal. rewrite (bool_decide_ext _ _ Hin). lia. }
  unfold d in *. case_bool_decide as Hx.
  - split; cbn; try done; [apply Hr..| |apply Hr|].
    + intros x [Hx' _]%elem_of_difference. by apply (ready_resolved _ _ _ Hr).
    + change (graph m (q ∖ {[(0, s, p, o)]}) = G ∖ {[t]}).
      rewrite (graph_delete _ _ _ t) by (done || apply Hr). f_equal. apply Hr.
  - replace (G ∖ {[t]}) with G by set_solver. by apply ready_same.
Qed.

Lemma add_triple_runs k G c t : 0 <= k -> ready (3 + k) G c -> storable t = true ->
  exists c', add_triple t c = (Ok (count ({[t]} ∪ G) - count G), c') /\ ready k ({[t]} ∪ G) c'.
Proof.
  intros Hk Hr Hst. destruct t as [[s p] o]. unfold add_triple, ebind.
  destruct (intern_runs (2 + k) G c s) as (si & c1 & -> & Hr1 & _ & Hs); [lia|by replace (1 + (2 + k)) with (3 + k) by lia|].
  destruct (intern_runs (1 + k) G c1 p) as (pi & c2 & -> & Hr2 & Hsub2 & Hp); [lia|by replace (1 + (1 + k)) with (2 + k) by lia|].
  destruct (intern_runs k G c2 o) as (oi & c3 & -> & Hr3 & Hsub3 & Ho); [lia|done|].
  apply insert_triple_runs; [done| |done]. apply quad_terms_Some.
  split_and!; [|by eapply lookup_weaken|done]. eapply lookup_weaken; [|exact Hsub3]. by eapply lookup_weaken.
Qed.

(** Deleting a triple by its terms, which may be unknown. *)
Lemma delete_term_ids_runs k G c s p o n : ready k G c ->
  exists c', delete_ids (term_id (s_db c) s) (term_id (s_db c) p) (term_id (s_db c) o) n c =
    (Ok (n + (count G - count (G ∖ {[(s, p, o)]}))), c') /\ ready k (G ∖ {[(s, p, o)]}) c'.
Proof.
  intros Hr. unfold delete_ids.
  destruct ((term_id (s_db c) s =? 0) || (term_id (s_db c) p =? 0) || (term_id (s_db c) o =? 0)) eqn:E.
  - assert (Hno : (s, p, o) ∉ G).
    { rewrite <-(ready_graph _ _ _ Hr). intros ([[[g a] b] d] & _ & (H1 & H2 & H3)%quad_terms_Some)%elem_of_graph.
      destruct (term_id_known _ _ _ s Hr) as [[_ F1]|[F1 _]]; [by apply F1 in H1|].
      destruct (term_id_known _ _ _ p Hr) as [[_ F2]|[F2 _]]; [by apply F2 in H2|].
      destruct (term_id_known _ _ _ o Hr) as [[_ F3]|[F3 _]]; [by apply F3 in H3|].
      apply Z.eqb_neq in F1, F2, F3. by rewrite F1, F2, F3 in E. }
    exists c. replace (G ∖ {[(s, p, o)]}) with G by set_solver. split; [|done]. unfold eret. do 2 f_equal. lia.
  - apply orb_false_elim in E as [[E1 E2]%orb_false_elim E3].
    destruct (term_id_known _ _ _ s Hr) as [[F1 _]|[_ F1]]; [lia|].
    destruct (term_id_known _ _ _ p Hr) as [[F2 _]|[_ F2]]; [lia|].
    destruct (term_id_known _ _ _ o Hr) as [[F3 _]|[_ F3]]; [lia|].
    destruct (delete_triple_runs k G c (term_id (s_db c) s) (term_id (s_db c) p) (term_id (s_db c) o) (s, p, o) Hr)
      as (c' & Hd & Hr'); [by apply quad_terms_Some|].
    exists c'. unfold ebind. by rewrite Hd.
Qed.

(** *** Loops *)

(** The triples of the data, relabelled in order. *)
Fixpoint ground_all (f : Freshener) (tps : list TriplePattern) : result serror (list Triple * Freshener) :=
  match tps with
  | [] => Ok ([], f)
  | tp :: tps' =>
      let? (t, f) := ground tp f in
      let? (ts, f) := ground_all f tps' in
      Ok (t :: ts, f)
  end.

Definition triples_set (ts : list Triple) : gset Triple := list_to_set ts.

Lemma insert_step_runs k G c f n tp t f' : 0 <= k -> ready (3 + k) G c -> ground tp f = Ok (t, f') -> storable t = true ->
  exists c', insert_step (f, n) tp c = (Ok (f', n + (count ({[t]} ∪ G) - count G)), c') /\ ready k ({[t]} ∪ G) c'.
Proof.
  intros Hk Hr Hg Hst. destruct (add_triple_runs k G c t Hk Hr Hst) as (c' & Ha & Hr'). exists c'.
  unfold insert_step, ebind, elift. by rewrite Hg, Ha.
Qed.

Lemma insert_steps_run tps : forall f n k G c ts f',
  ground_all f tps = Ok (ts, f') -> forallb storable ts = true -> 0 <= k -> ready (3 * zlen tps + k) G c ->
  exists c', efold insert_step (f, n) tps c = (Ok (f', n + (count (triples_set ts ∪ G) - count G)), c') /\
    ready k (triples_set ts ∪ G) c'.
Proof.
  unfold zlen. induction tps as [|tp tps IH]; intros f n k G c ts f' Hg Hst Hk Hr; cbn [ground_all] in Hg.
  - injection Hg as <- <-. exists c. change (triples_set []) with (∅ : gset Triple). rewrite union_empty_l_L.
    split; [|done]. cbn. unfold eret. do 3 f_equal. lia.
  - apply rbind_Ok in Hg as ([t f1] & Hg & Hg'). apply rbind_Ok in Hg' as ([ts' f2] & Hg' & [= <- <-]).
    cbn [forallb] in Hst. apply andb_prop in Hst as [Ht Hts]. cbn [length] in Hr.
    destruct (insert_step_runs (3 * Z.of_nat (length tps) + k) G c f n tp t f1) as (c1 & Ha & Hr1); [lia| |done..|].
    { eapply ready_le; [|exact Hr]. lia. }
    destruct (IH f1 (n + (count ({[t]} ∪ G) - count G)) k ({[t]} ∪ G) c1 ts' f2 Hg' Hts Hk Hr1) as (c2 & Hf & Hr2).
    exists c2. assert (Hset : triples_set (t :: ts') ∪ G = triples_set ts' ∪ ({[t]} ∪ G)) by (unfold triples_set; set_solver).
    rewrite Hset. split; [|done]. cbn [efold]. unfold ebind at 1. rewrite Ha, Hf. do 3 f_equal. lia.
Qed.

Lemma delete_step_runs k G c f n tp t f' : ready k G c -> ground tp f = Ok (t, f') ->
  exists c', delete_step (f, n) tp c = (Ok (f', n + (count G - count (G ∖ {[t]}))), c') /\ ready k (G ∖ {[t]}) c'.
Proof.
  intros Hr Hg. destruct t as [[s p] o]. unfold delete_step, ebind at 1, elift. rewrite Hg. cbn [fst snd].
  destruct (lookup_runs c s (ready_healthy _ _ _ Hr)) as (fs1 & H1 & Hf1). unfold ebind at 1. rewrite H1.
  destruct (lookup_runs _ p Hf1) as (fs2 & H2 & Hf2). unfold ebind at 1. rewrite H2.
  destruct (lookup_runs _ o Hf2) as (fs3 & H3 & Hf3). unfold ebind at 1. rewrite H3.
  destruct (delete_term_ids_runs k G (mkSConn (s_db c) fs3) s p o n) as (c' & Hd & Hr'); [by apply ready_same|].
  exists c'. cbn [s_db] in *. unfold ebind. by rewrite Hd.
Qed.

Lemma delete_steps_run tps : forall f n k G c ts f',
  ground_all f tps = Ok (ts, f') -> ready k G c ->
  exists c', efold delete_step (f, n) tps c = (Ok (f', n + (count G - count (G ∖ triples_set ts))), c') /\
    ready k (G ∖ triples_set ts) c'.
Proof.
  induction tps as [|tp tps IH]; intros f n k G c ts f' Hg Hr; cbn [ground_all] in Hg.
  - injection Hg as <- <-. exists c. change (triples_set []) with (∅ : gset Triple). rewrite difference_empty_L.
    split; [|done]. cbn. unfold eret. do 3 f_equal. lia.
  - apply rbind_Ok in Hg as ([t f1] & Hg & Hg'). apply rbind_Ok in Hg' as ([ts' f2] & Hg' & [= <- <-]).
    destruct (delete_step_runs k G c f n tp t f1 Hr Hg) as (c1 & Ha & Hr1).
    destruct (IH f1 (n + (count G - count (G ∖ {[t]}))) k (G ∖ {[t]}) c1 ts' f2 Hg' Hr1) as (c2 & Hf & Hr2).
    exists c2. assert (Hset : G ∖ triples_set (t :: ts') = G ∖ {[t]} ∖ triples_set ts') by (unfold triples_set; set_solver).
    rewrite Hset. split; [|done]. cbn [efold]. unfold ebind at 1. rewrite Ha, Hf. do 3 f_equal. lia.
Qed.
End runs.

(** ** Whole operations *)

Section operations.
Context `{HE : !SqlEngine}.

Lemma stmt_total (f : RdfDb -> RdfDb) c : healthy c ->
  exists fs, stmt (fun d => Ok (tt, f d)) c = (Ok tt, mkSConn (f (s_db c)) fs) /\ healthy (mkSConn (f (s_db c)) fs).
Proof. intros Hc. by apply stmt_runs. Qed.

Lemma create_index_runs c : healthy c -> is_Some (rdf_triples (s_db c)) ->
  exists fs, create_index c = (Ok tt, mkSConn (s_db c) fs) /\ healthy (mkSConn (s_db c) fs).
Proof.
  intros Hc [t Ht]. destruct (select_runs (fun d => let? _ := the_triples d in Ok tt) c Hc) as (fs & Hs & Hfs).
  exists fs. split; [|done]. unfold create_index. rewrite Hs. unfold the_triples. by rewrite Ht.
Qed.

(** The tables once [ensure_schema] has run. *)
Definition schema_db (d : RdfDb) : RdfDb := mkRdfDb (Some (terms_of d)) (Some (quads_of d)).

Lemma ensure_schema_runs k c : healthy c -> store_ok (s_db c) -> bound (terms_of (s_db c)) + k <= I64_MAX ->
  exists fs, ensure_schema c = (Ok tt, mkSConn (schema_db (s_db c)) fs) /\
    ready k (graph_of (s_db c)) (mkSConn (schema_db (s_db c)) fs).
Proof.
  intros Hc Hok Hk. unfold ensure_schema, create_terms, create_triples.
  destruct (stmt_total (fun d => set_terms (default ∅ (rdf_terms d)) d) c Hc) as (fs1 & H1 & Hf1).
  destruct (stmt_total (fun d => set_triples (default ∅ (rdf_triples d)) d) _ Hf1) as (fs2 & H2 & Hf2).
  destruct (create_index_runs _ Hf2) as (fs3 & H3 & Hf3); [by eexists|].
  destruct (create_index_runs _ Hf3) as (fs4 & H4 & Hf4); [by eexists|].
  exists fs4. split; [|destruct Hok as [[Hids Huniq _] Hq];
    split; [exact Hf4|done|done|exact Hids|exact Huniq|exact Hq|exact Hk|done]].
  unfold ebind. rewrite H1. cbv beta iota. rewrite H2. cbv beta iota. rewrite H3. exact H4.
Qed.

Lemma Freshener_new_runs k G c : ready k G c ->
  exists fs, Freshener_new c = (Ok (mkFreshener (bound (terms_of (s_db c))) 0 ∅), mkSConn (s_db c) fs) /\
    ready k G (mkSConn (s_db c) fs).
Proof.
  intros Hr. unfold Freshener_new. destruct (select_runs the_terms c (ready_healthy _ _ _ Hr)) as (fs & Hs & Hfs).
  exists fs. unfold ebind. rewrite Hs. unfold the_terms at 1. rewrite (ready_terms _ _ _ Hr). cbn [ok_or].
  split; [done|by apply ready_same].
Qed.

(** *** Data *)

Lemma ground_slot_total b s f : match slot_var s with Some v => b && starts_with BN v | None => true end = true ->
  exists t f', ground_slot s f = (Some t, f').
Proof.
  destruct s as [v|t]; cbn [slot_var ground_slot]; [|by eexists _, _]. intros [_ Hv]%andb_prop. unfold starts_with in Hv.
  destruct (RustStd.strip_prefix BN v) as [l|]; [|done]. destruct (label l f) as [l' f']. by eexists _, _.
Qed.

Lemma ground_total b tp f : ground_pattern b tp = true -> exists t f', ground tp f = Ok (t, f').
Proof.
  unfold ground_pattern, ground. cbn [slots forallb]. rewrite !andb_true_iff. intros (H1 & H2 & H3 & _).
  destruct (ground_slot_total _ _ f H1) as (s & f1 & ->). cbn [ok_or rbind].
  destruct (ground_slot_total _ _ f1 H2) as (p & f2 & ->). cbn [ok_or rbind].
  destruct (ground_slot_total _ _ f2 H3) as (o & f3 & ->). cbn [ok_or rbind]. by eexists _, _.
Qed.

Lemma ground_all_total b tps : forall f, forallb (ground_pattern b) tps = true -> exists ts f', ground_all f tps = Ok (ts, f').
Proof.
  induction tps as [|tp tps IH]; intros f; cbn [forallb ground_all]; [by eexists _, _|].
  intros [Htp Htps]%andb_prop. destruct (ground_total b tp f Htp) as (t & f1 & ->).
  destruct (IH f1 Htps) as (ts & f2 & E). cbn [rbind]. rewrite E. by eexists _, _.
Qed.

Lemma ground_all_storable tps : forall f ts f', forallb typed_pattern tps = true -> ground_all f tps = Ok (ts, f') ->
  forallb storable ts = true.
Proof.
  induction tps as [|tp tps IH]; intros f ts f'; cbn [forallb ground_all]; [by intros _ [= <- _]|].
  intros [Htp Htps]%andb_prop Hg. apply rbind_Ok in Hg as ([t f1] & Hg & Hg').
  apply rbind_Ok in Hg' as ([ts' f2] & Hg' & [= <- <-]). cbn [forallb].
  by rewrite (IH _ _ _ Htps Hg'), (proj1 (ground_draws _ _ _ _ Htp Hg)).
Qed.

(** What an update leaves, given the triples of its data. *)
Definition updated (kind : UpdateKind) (ts : list Triple) (G : gset Triple) : gset Triple :=
  match kind with
  | InsertData => triples_set ts ∪ G
  | DeleteData | DeleteWhere => G ∖ triples_set ts
  end.

Definition first_freshener (d : RdfDb) : Freshener := mkFreshener (bound (terms_of d)) 0 ∅.

Lemma run_data_update u c : healthy c -> store_ok (s_db c) -> typed_update u = true -> u_kind u <> DeleteWhere ->
  bound (terms_of (s_db c)) + 3 * zlen (u_triples u) <= I64_MAX ->
  exists ts f' c', ground_all (first_freshener (s_db c)) (u_triples u) = Ok (ts, f') /\
    run_update u c = (Ok (Z.abs (count (updated (u_kind u) ts (graph_of (s_db c))) - count (graph_of (s_db c)))), c') /\
    ready 0 (updated (u_kind u) ts (graph_of (s_db c))) c'.
Proof.
  intros Hc Hok Ht Hkind Hroom. unfold typed_update in Ht. apply andb_prop in Ht as [Htp Hg].
  destruct (ensure_schema_runs _ c Hc Hok Hroom) as (fs1 & H1 & Hr1).
  destruct (Freshener_new_runs _ _ _ Hr1) as (fs2 & H2 & Hr2). cbn [s_db] in *.
  set (G := graph_of (s_db c)) in *. set (f := first_freshener (s_db c)) in *.
  change (mkFreshener (bound (terms_of (schema_db (s_db c)))) 0 ∅) with f in H2.
  assert (Hall : exists ts f', ground_all f (u_triples u) = Ok (ts, f')).
  { destruct (u_kind u); [by apply (ground_all_total true)|by apply (ground_all_total false)|done]. }
  destruct Hall as (ts & f' & Hall). exists ts, f'. unfold run_update, ebind at 1. rewrite H1.
  destruct (u_kind u); [| |done].
  - destruct (insert_steps_run (u_triples u) f 0 0 G (mkSConn (schema_db (s_db c)) fs2) ts f' Hall) as (c' & Hi & Hr');
      [by eapply ground_all_storable|done|rewrite Z.add_0_r; exact Hr2|].
    exists c'. split_and!; [done| |exact Hr']. unfold ebind at 1. rewrite H2. unfold ebind. rewrite Hi.
    cbn [updated]. unfold eret. do 2 f_equal. unfold count. rewrite Z.abs_eq; [lia|].
    assert (size G <= size (triples_set ts ∪ G))%nat by (apply subseteq_size; set_solver). lia.
  - destruct (delete_steps_run (u_triples u) f 0 0 G (mkSConn (schema_db (s_db c)) fs2) ts f' Hall) as (c' & Hi & Hr');
      [eapply ready_le; [|exact Hr2]; unfold zlen; lia|].
    exists c'. split_and!; [done| |exact Hr']. unfold ebind at 1. rewrite H2. unfold ebind. rewrite Hi.
    cbn [updated]. unfold eret. do 2 f_equal. unfold count. rewrite Z.abs_neq; [lia|].
    assert (size (G ∖ triples_set ts) <= size G)%nat by (apply subseteq_size; set_solver). lia.
Qed.

(** *** DELETE WHERE *)

Definition instances (vars : list string) (tps : list TriplePattern) (rows : list SolutionRow) : list Triple :=
  concat (map (fun row => omap (instantiate vars row) tps) rows).

(** The id of a slot, 0 when it has no value or none known. *)
Definition value_id (d : RdfDb) (vars : list string) (row : SolutionRow) (s : Slot) : Z :=
  match slot_value vars row s with Some t => term_id d t | None => 0 end.

Lemma slot_id_runs vars row s c : healthy c ->
  exists fs, slot_id vars row s c = (Ok (value_id (s_db c) vars row s), mkSConn (s_db c) fs) /\ healthy (mkSConn (s_db c) fs).
Proof.
  intros Hc. unfold slot_id, value_id. destruct (slot_value vars row s) as [t|]; [by apply lookup_runs|].
  exists (s_faults c). by destruct c.
Qed.

Lemma delete_ids_zero s p o n c : s = 0 \/ p = 0 \/ o = 0 -> delete_ids s p o n c = (Ok n, c).
Proof.
  intros H. unfold delete_ids. replace ((s =? 0) || (p =? 0) || (o =? 0)) with true by lia. done.
Qed.

Lemma delete_match_ids vars row n tp c : healthy c ->
  let id := value_id (s_db c) vars row in
  exists fs, delete_match vars row n tp c = delete_ids (id (tp_s tp)) (id (tp_p tp)) (id (tp_o tp)) n (mkSConn (s_db c) fs) /\
    healthy (mkSConn (s_db c) fs).
Proof.
  intros Hc id. unfold delete_match, ebind at 1.
  destruct (slot_id_runs vars row (tp_s tp) c Hc) as (fs1 & -> & Hf1). fold id.
  destruct (id (tp_s tp) =? 0) eqn:E1; [exists fs1; rewrite delete_ids_zero by lia; done|].
  unfold ebind at 1. destruct (slot_id_runs vars row (tp_p tp) _ Hf1) as (fs2 & -> & Hf2). cbn [s_db] in *. fold id.
  destruct (id (tp_p tp) =? 0) eqn:E2; [exists fs2; rewrite delete_ids_zero by lia; done|].
  unfold ebind at 1. destruct (slot_id_runs vars row (tp_o tp) _ Hf2) as (fs3 & -> & Hf3). cbn [s_db] in *. by exists fs3.
Qed.

Lemma delete_match_runs k G c vars row n tp : ready k G c ->
  let G' := match instantiate vars row tp with Some t => G ∖ {[t]} | None => G end in
  exists c', delete_match vars row n tp c = (Ok (n + (count G - count G')), c') /\ ready k G' c'.
Proof.
  intros Hr G'. destruct (delete_match_ids vars row n tp c (ready_healthy _ _ _ Hr)) as (fs & Hd & Hfs).
  assert (Hr' := ready_same _ _ _ _ Hr Hfs). rewrite Hd. clear Hd. unfold G', instantiate, value_id.
  assert (Hnone : exists c', (Ok n, mkSConn (s_db c) fs) = (Ok (n + (count G - count G)) : result serror Z, c') /\ ready k G c').
  { exists (mkSConn (s_db c) fs). split; [|done]. do 2 f_equal. lia. }
  destruct (slot_value vars row (tp_s tp)) as [s|]; cbn [mbind option_bind]; [|by rewrite delete_ids_zero by lia].
  destruct (slot_value vars row (tp_p tp)) as [p|]; cbn [mbind option_bind]; [|by rewrite delete_ids_zero by lia].
  destruct (slot_value vars row (tp_o tp)) as [o|]; cbn [mbind option_bind]; [|by rewrite delete_ids_zero by lia].
  apply (delete_term_ids_runs k G (mkSConn (s_db c) fs) s p o n Hr').
Qed.

Lemma delete_row_runs vars row tps : forall k G c n, ready k G c ->
  let G' := G ∖ triples_set (omap (instantiate vars row) tps) in
  exists c', delete_row vars tps n row c = (Ok (n + (count G - count G')), c') /\ ready k G' c'.
Proof.
  induction tps as [|tp tps IH]; intros k G c n Hr G'; unfold delete_row in *.
  - exists c. unfold G'. cbn [omap list_omap]. change (triples_set []) with (∅ : gset Triple). rewrite difference_empty_L.
    split; [|done]. cbn. unfold eret. do 2 f_equal. lia.
  - destruct (delete_match_runs k G c vars row n tp Hr) as (c1 & H1 & Hr1). set (G1 := match _ with Some _ => _ | None => _ end) in *.
    destruct (IH k G1 c1 (n + (count G - count G1)) Hr1) as (c2 & H2 & Hr2).
    assert (HG : G' = G1 ∖ triples_set (omap (instantiate vars row) tps)).
    { unfold G', G1, triples_set. cbn [omap list_omap]. destruct (instantiate vars row tp); set_solver. }
    exists c2. rewrite HG. split; [|done]. cbn [efold]. unfold ebind. rewrite H1, H2. do 2 f_equal. lia.
Qed.

Lemma delete_rows_run vars tps rows : forall k G c n, ready k G c ->
  let G' := G ∖ triples_set (instances vars tps rows) in
  exists c', efold (delete_row vars tps) n rows c = (Ok (n + (count G - count G')), c') /\ ready k G' c'.
Proof.
  induction rows as [|row rows IH]; intros k G c n Hr G'.
  - exists c. unfold G'. change (triples_set (instances vars tps [])) with (∅ : gset Triple). rewrite difference_empty_L.
    split; [|done]. cbn. unfold eret. do 2 f_equal. lia.
  - destruct (delete_row_runs vars row tps k G c n Hr) as (c1 & H1 & Hr1).
    edestruct IH as (c2 & H2 & Hr2); [exact Hr1|]. exists c2. unfold G' in *.
    assert (HG : G ∖ triples_set (instances vars tps (row :: rows)) =
                 G ∖ triples_set (omap (instantiate vars row) tps) ∖ triples_set (instances vars tps rows)).
    { unfold triples_set, instances. cbn [map concat]. rewrite list_to_set_app_L. set_solver. }
    rewrite HG. split; [|done]. cbn [efold]. unfold ebind. rewrite H1, H2. do 2 f_equal. lia.
Qed.

(** What the SELECT of a pattern gives, as a function of the tables. *)
Definition select_rows (d : RdfDb) (q : Query) : result serror (list string * list SolutionRow) :=
  match compile_query (term_id d) q with
  | Err (CError m) => Err (SMsg m)
  | Err CPanic => Err SPanic
  | Ok (sql, vars) =>
      match (let? items := sql_query sql d in
             traverse (fun item => let? row := item in read_row (length vars) row) items) with
      | Ok rows => Ok (vars, rows)
      | Err e => Err (SMsg e)
      end
  end.

Lemma exec_select_runs q c : healthy c ->
  exists fs, exec_select q c = (select_rows (s_db c) q, mkSConn (s_db c) fs) /\ healthy (mkSConn (s_db c) fs).
Proof.
  intros Hc. unfold exec_select, ebind at 1, compile_on, select_rows.
  destruct (compile_query (term_id (s_db c)) q) as [[sql vars]|[m|]]; [|exists (s_faults c); by destruct c..].
  destruct (select_runs (sql_query sql) c Hc) as (fs & Hs & Hfs). exists fs. split; [|done].
  unfold ebind at 1. rewrite Hs. destruct (sql_query sql (s_db c)) as [items|e]; cbn [rbind]; [|done].
  unfold ebind, of_result, elift. by destruct (traverse _ items).
Qed.

Lemma run_delete_where tps c : healthy c -> store_ok (s_db c) ->
  match select_rows (schema_db (s_db c)) (where_query tps) with
  | Ok (vars, rows) =>
      let G' := updated DeleteWhere (instances vars tps rows) (graph_of (s_db c)) in
      exists c', run_update (mkUpdate DeleteWhere tps) c = (Ok (count (graph_of (s_db c)) - count G'), c') /\
        ready 0 G' c'
  | Err e => exists c', run_update (mkUpdate DeleteWhere tps) c = (Err e, c') /\ ready 0 (graph_of (s_db c)) c'
  end.
Proof.
  intros Hc Hok. pose proof (bound_range _ (dict_ids _ (store_dict _ Hok))).
  destruct (ensure_schema_runs 0 c Hc Hok) as (fs1 & H1 & Hr1); [lia|].
  destruct (exec_select_runs (where_query tps) _ (ready_healthy _ _ _ Hr1)) as (fs2 & H2 & Hf2).
  assert (Hr2 := ready_same _ _ _ _ Hr1 Hf2). cbn [s_db] in *.
  assert (Hrun : run_update (mkUpdate DeleteWhere tps) c =
                 match select_rows (schema_db (s_db c)) (where_query tps) with
                 | Ok (vars, rows) => efold (delete_row vars tps) 0 rows (mkSConn (schema_db (s_db c)) fs2)
                 | Err e => (Err e, mkSConn (schema_db (s_db c)) fs2)
                 end).
  { unfold run_update, ebind. rewrite H1. cbn [u_kind u_triples]. rewrite H2. by destruct (select_rows _ _) as [[]|]. }
  rewrite Hrun. destruct (select_rows _ _) as [[vars rows]|e]; [|eexists; by split].
  destruct (delete_rows_run vars tps rows 0 _ _ 0 Hr2) as (c' & Hd & Hr'). exists c'. cbn [updated]. by rewrite Hd.
Qed.
End operations.
