(* ===== verification/SparqlStoreProps.v ===== *)
(** * SparqlStoreProps: the properties of the store

    The invariant over every sequence of operations, blank nodes that never
    merge, updates as set operations, CONSTRUCT, dump and restore, and the
    functions that cannot write. *)

From S2P Require Import Prelude RustStd External Effect SparqlTerm SparqlCompile SparqlCursor SparqlParse SparqlTyping SparqlSerialize SparqlRoundTrip SparqlStore SparqlSurface SparqlStoreInv SparqlStoreSpec.

Local Open Scope Z_scope.

(** ** Readers *)

Section readers.
Context `{HE : !SqlEngine}.

Lemma exec_ask_keeps (P : RdfDb -> Prop) q : keeps P (exec_ask q).
Proof.
  unfold exec_ask, of_result. apply keeps_bind; [apply compile_on_keeps|]. intros [sql vars].
  apply keeps_bind; [apply keeps_select|]. intros [|item items]; [apply keeps_ret|].
  apply keeps_bind; [apply keeps_lift|]. intros ?. apply keeps_ret.
Qed.

Lemma exec_construct_keeps (P : RdfDb -> Prop) q : keeps P (exec_construct q).
Proof. unfold exec_construct. apply keeps_bind; [apply exec_select_keeps|]. intros [vars rows]. apply keeps_ret. Qed.

Lemma parse_stmt_keeps (P : RdfDb -> Prop) text : keeps P (parse_stmt text).
Proof. apply keeps_lift. Qed.

Lemma run_query_same d0 text format : keeps (same_tables d0) (run_query text format).
Proof.
  unfold run_query. apply keeps_bind; [apply ensure_schema_same|intros _].
  apply keeps_bind; [apply parse_stmt_keeps|]. intros [q|u]; [|apply keeps_throw]. destruct (q_form q).
  - destruct (not_json format); [apply keeps_throw|].
    apply keeps_bind; [apply exec_select_keeps|]. intros [vars rows]. apply keeps_lift.
  - destruct (graph_format format); [|apply keeps_throw].
    apply keeps_bind; [apply exec_construct_keeps|]. intros l. apply keeps_ret.
  - destruct (not_json format); [apply keeps_throw|].
    apply keeps_bind; [apply exec_ask_keeps|]. intros b. apply keeps_ret.
Qed.

Lemma dump_turtle_same d0 : keeps (same_tables d0) dump_turtle.
Proof.
  unfold dump_turtle. apply keeps_bind; [apply ensure_schema_same|intros _].
  apply keeps_bind; [apply keeps_select|]. intros rows. apply keeps_ret.
Qed.

(** What keeps the tables keeps the invariant. *)
Lemma keeps_same_ok {A} (m : SM A) : (forall d0, keeps (same_tables d0) m) -> keeps store_ok m.
Proof.
  intros Hm c Hc. pose proof (Hm (s_db c) c (conj eq_refl eq_refl)) as Hs.
  destruct (m c) as [[a|e] c']; by eapply store_ok_same.
Qed.
End readers.

(** ** Sequences of operations *)

Inductive store_op : Type :=
| OpInit
| OpLoad (text : string) (base : option string)
| OpLoadFile (path : string) (base : option string)
| OpUpdate (sparql : string)
| OpQuery (sparql : string) (format : option string)
| OpDump.

Section sequences.
Context `{HE : !SqlEngine, HO : !OxTurtle, HS : !StoreHost}.

Definition run_op (op : store_op) (c : SConn) : SConn :=
  match op with
  | OpInit => snd (ensure_schema c)
  | OpLoad text base => snd (load_turtle text base c)
  | OpLoadFile path base => snd (load_turtle_file path base c)
  | OpUpdate sparql => snd (update sparql c)
  | OpQuery sparql format => snd (run_query sparql format c)
  | OpDump => snd (dump_turtle c)
  end.

Definition run_ops (ops : list store_op) (c : SConn) : SConn := foldl (fun c op => run_op op c) c ops.

Definition no_store (faults : list (option string)) : SConn := mkSConn (mkRdfDb None None) faults.

Lemma keeps_snd {A} (P : RdfDb -> Prop) (m : SM A) c : keeps P m -> P (s_db c) -> P (s_db (snd (m c))).
Proof. intros Hm Hc. specialize (Hm c Hc). by destruct (m c) as [[a|e] c']. Qed.

Lemma run_op_ok `{HL : !SqlEngineLaws} op c : store_ok (s_db c) -> store_ok (s_db (run_op op c)).
Proof.
  destruct op; cbn [run_op]; apply keeps_snd.
  - apply ensure_schema_keeps.
  - apply load_turtle_keeps.
  - apply load_turtle_file_keeps.
  - apply update_keeps.
  - apply keeps_same_ok. intros. apply run_query_same.
  - apply keeps_same_ok. apply dump_turtle_same.
Qed.

Lemma run_ops_ok `{HL : !SqlEngineLaws} ops : forall c, store_ok (s_db c) -> store_ok (s_db (run_ops ops c)).
Proof. induction ops as [|op ops IH]; intros c Hc; cbn; [done|]. by apply IH, run_op_ok. Qed.

(** C12. After any operations on a database that had no store, whatever statements
    fail on the way: the dictionary maps positive ids to distinct terms, every
    triple refers to it with no literal as subject or predicate, and as long as
    an id is free the labels that the next load or update will draw belong to
    no stored blank node. *)
Theorem store_invariant `{HL : !SqlEngineLaws} (ops : list store_op) (faults : list (option string)) :
  let c := run_ops ops (no_store faults) in
  store_ok (s_db c) /\
  match Freshener_new c with
  | (Ok f, _) => room (terms_of (s_db c)) -> forall k id, 0 <= k ->
                 terms_of (s_db c) !! id <> Some (bnode (fresh_label (stamp f) k))
  | (Err _, _) => True
  end.
Proof.
  intros c. assert (Hok : store_ok (s_db c)) by apply run_ops_ok, empty_store_ok. split; [done|].
  pose proof (hoare_select the_terms (fun d => d = s_db c) c eq_refl) as Hs. unfold Freshener_new, ebind.
  destruct (select the_terms c) as [[m|e] c']; [|done]. destruct Hs as [E Hm]. rewrite E in Hm. cbn. intros Hroom k id Hk Hid.
  assert (terms_of (s_db c) = m) as Ht by (unfold terms_of; unfold the_terms in Hm; destruct (rdf_terms (s_db c)); by simplify_eq/=).
  rewrite Ht in *. destruct (dict_blanks _ (store_dict _ Hok)) with (id := id) (t := bnode (fresh_label (default 0 (max_id m)) k))
    as (n & k' & [Hn Hk']%fresh_label_inj & Hrange & _); [by rewrite Ht|by rewrite Ht|done|].
  apply bound_le in Hid. unfold bound in Hid. lia.
Qed.
End sequences.

(** A SQLite that answers no query and has no spare row id, a parser of no
    triples, and a host without files. *)
Definition demo_engine : SqlEngine := Build_SqlEngine (fun _ _ => Ok []) (fun _ => None) (fun _ => "").
Definition demo_turtle : OxTurtle := Build_OxTurtle (fun _ => None) (fun _ _ => []) (fun l => (lit_value l, None, None)).
Definition demo_host : StoreHost := Build_StoreHost (fun _ _ => Ok false) (fun _ => None) "Invalid type".

Lemma demo_laws : @SqlEngineLaws demo_engine.
Proof. constructor. by intros s i [=]. Qed.

Definition demo_ops : list store_op :=
  [OpUpdate "INSERT DATA { _:a <http://p> 'x' }"; OpUpdate "INSERT DATA { _:a <http://p> 'x' }"; OpDump].

Lemma store_invariant_witness :
  let c := @run_ops demo_engine demo_turtle demo_host demo_ops (no_store [None; None; Some "disk I/O error"]) in
  store_ok (s_db c) /\
  match @Freshener_new c with
  | (Ok f, _) => room (terms_of (s_db c)) -> forall k id, 0 <= k ->
                 terms_of (s_db c) !! id <> Some (bnode (fresh_label (stamp f) k))
  | (Err _, _) => True
  end.
Proof. exact (@store_invariant demo_engine demo_turtle demo_host demo_laws demo_ops [None; None; Some "disk I/O error"]). Defined.

(** ** Updates *)

Section updates.
Context `{HE : !SqlEngine}.

Lemma parse_update text u : parse text = Ok (PUpdate u) -> typed_update u = true /\ update text = run_update u.
Proof.
  intros Hp. split; [by apply (parse_typed text) in Hp|]. unfold update, parse_stmt. rewrite Hp. done.
Qed.

(** C13. INSERT DATA is a union and DELETE DATA a difference of sets of triples, the
    blank nodes of the text under the labels of a fresh stamp: when no
    statement fails on its own and ids are left, the update succeeds, and the
    number it gives is the change of the number of triples. *)
Theorem data_update_refines (text : string) (u : Update) (c : SConn)
    (Hparse : parse text = Ok (PUpdate u)) (Hkind : u_kind u <> DeleteWhere)
    (Hhealthy : healthy c) (Hok : store_ok (s_db c))
    (Hroom : bound (terms_of (s_db c)) + 3 * zlen (u_triples u) <= I64_MAX) :
  exists ts f' c', ground_all (first_freshener (s_db c)) (u_triples u) = Ok (ts, f') /\
    update text c = (Ok (Z.abs (count (graph_of (s_db c')) - count (graph_of (s_db c)))), c') /\
    graph_of (s_db c') = updated (u_kind u) ts (graph_of (s_db c)).
Proof.
  destruct (parse_update text u Hparse) as [Ht ->].
  destruct (run_data_update u c Hhealthy Hok Ht Hkind Hroom) as (ts & f' & c' & Hg & Hrun & Hr).
  exists ts, f', c'. by rewrite (ready_graph _ _ _ Hr).
Qed.

(** DELETE WHERE removes the instances of its patterns under the solutions of
    the query compiled from them, and nothing when that query fails. *)
Theorem delete_where_refines (text : string) (u : Update) (c : SConn)
    (Hparse : parse text = Ok (PUpdate u)) (Hkind : u_kind u = DeleteWhere)
    (Hhealthy : healthy c) (Hok : store_ok (s_db c)) :
  match select_rows (schema_db (s_db c)) (where_query (u_triples u)) with
  | Ok (vars, rows) =>
      exists c', update text c = (Ok (count (graph_of (s_db c)) - count (graph_of (s_db c'))), c') /\
        graph_of (s_db c') = graph_of (s_db c) ∖ triples_set (instances vars (u_triples u) rows)
  | Err e => exists c', update text c = (Err e, c') /\ graph_of (s_db c') = graph_of (s_db c)
  end.
Proof.
  destruct (parse_update text u Hparse) as [_ ->]. pose proof (run_delete_where (u_triples u) c Hhealthy Hok) as Hr.
  destruct u as [kind tps]. cbn [u_kind u_triples] in *. subst kind.
  destruct (select_rows _ _) as [[vars rows]|e]; destruct Hr as (c' & Hrun & Hr'); exists c'; rewrite (ready_graph _ _ _ Hr'); done.
Qed.
End updates.

Definition demo_data : string := "INSERT DATA { <a> <p> 1, 2 . _:x <p> 'y' }".
Definition demo_conn : SConn := snd (@update demo_engine demo_data (no_store [])).

Lemma demo_conn_ok : healthy demo_conn /\ store_ok (s_db demo_conn).
Proof.
  split.
  - unfold healthy. replace (s_faults demo_conn) with (@nil (option string)) by (vm_compute; reflexivity). constructor.
  - exact (keeps_snd store_ok _ (no_store []) (@update_keeps demo_engine demo_laws demo_data) empty_store_ok).
Qed.

Definition demo_insert : Update :=
  mkUpdate InsertData [mkTriplePattern (Ground (iri "a")) (Ground (iri "p")) (Ground (lit_dt "2" (XSD +:+ "integer")));
                       mkTriplePattern (Var "~bn~x") (Ground (iri "p")) (Var "~bn~x")].

Lemma data_update_refines_witness :
  exists ts f' c', ground_all (first_freshener (s_db demo_conn)) (u_triples demo_insert) = Ok (ts, f') /\
    @update demo_engine "INSERT DATA { <a> <p> 2 . _:x <p> _:x }" demo_conn =
      (Ok (Z.abs (count (graph_of (s_db c')) - count (graph_of (s_db demo_conn)))), c') /\
    graph_of (s_db c') = updated (u_kind demo_insert) ts (graph_of (s_db demo_conn)).
Proof.
  destruct demo_conn_ok as [Hh Hok].
  apply (@data_update_refines demo_engine); [vm_compute; reflexivity|done|exact Hh|exact Hok|].
  apply Z.leb_le. vm_compute. reflexivity.
Defined.

(** The engine's answer to the DELETE WHERE of the witness: one solution. *)
Definition row_of (id : Z) (t : Term) : list SqlValue :=
  [VInteger id; VInteger (t_kind t); VText (t_lex t); VText (t_dtype t); VText (t_lang t)].
Definition one_row_engine : SqlEngine :=
  Build_SqlEngine (fun _ _ => Ok [Ok (row_of 3 (lit_dt "1" (XSD +:+ "integer")))]) (fun _ => None) (fun _ => "").

Definition demo_delete : Update :=
  mkUpdate DeleteWhere [mkTriplePattern (Ground (iri "a")) (Ground (iri "p")) (Var "o")].

Lemma delete_where_refines_witness :
  exists c', @update one_row_engine "DELETE WHERE { <a> <p> ?o }" demo_conn =
      (Ok (count (graph_of (s_db demo_conn)) - count (graph_of (s_db c'))), c') /\
    graph_of (s_db c') = graph_of (s_db demo_conn) ∖
      triples_set [(iri "a", iri "p", lit_dt "1" (XSD +:+ "integer"))].
Proof.
  destruct demo_conn_ok as [Hh Hok].
  assert (H := @delete_where_refines one_row_engine "DELETE WHERE { <a> <p> ?o }" demo_delete demo_conn
                 ltac:(vm_compute; reflexivity) eq_refl Hh Hok).
  assert (Hs : @select_rows one_row_engine (schema_db (s_db demo_conn)) (where_query (u_triples demo_delete)) =
               Ok (["o"], [[Some (lit_dt "1" (XSD +:+ "integer"))]])) by (vm_compute; reflexivity).
  rewrite Hs in H. exact H.
Defined.

(** A blank node is accepted as the predicate of INSERT DATA, and stored; a
    query that gives the triple back drops it as invalid. *)
Theorem blank_predicate_stored `{HE : !SqlEngine} :
  let run := update "INSERT DATA { <http://a> _:p <http://b> }" (no_store []) in
  let t := (iri "http://a", bnode "g0n0", iri "http://b") in
  fst run = Ok 1 /\ graph_of (s_db (snd run)) = {[t]} /\ invalid_triple t = true.
Proof.
  cbv zeta. split_and!; [vm_compute; reflexivity| |reflexivity]. unfold graph_of, graph.
  replace (omap _ _) with [(iri "http://a", bnode "g0n0", iri "http://b")] by (vm_compute; reflexivity).
  cbn [list_to_set]. apply union_empty_r_L.
Qed.

(** ** CONSTRUCT *)

Section construct.
Context `{HE : !SqlEngine}.

Definition constructed (vars : list string) (template : list TriplePattern) (rows : list SolutionRow) (t : Triple) : Prop :=
  invalid_triple t = false /\ exists row tp, row ∈ rows /\ tp ∈ template /\ instantiate vars row tp = Some t.

(** [out] is [seen] and what the patterns give. *)
Definition collected (seen : Triple -> Prop) (out : list Triple) : Prop := NoDup out /\ forall t, t ∈ out <-> seen t.

Lemma construct_step_collected vars row tp seen out : collected seen out ->
  collected (fun t => seen t \/ (invalid_triple t = false /\ instantiate vars row tp = Some t))
    (construct_step vars row out tp).
Proof.
  intros [Hnd Hin]. unfold construct_step. destruct (instantiate vars row tp) as [t|]; [|split; naive_solver].
  destruct (invalid_triple t) eqn:Ht; [split; [done|]; intros t'; rewrite Hin; split; [by left|intros [Hs|[Hv [= <-]]]; [done|congruence]]|].
  case_bool_decide as Hseen.
  - split; [done|]. intros t'. rewrite Hin. split; [by left|]. intros [Hs|[_ [= <-]]]; [done|by apply Hin].
  - split.
    + apply NoDup_app. split_and!; [done| |apply NoDup_singleton]. by intros x Hx ->%list_elem_of_singleton.
    + intros t'. rewrite elem_of_app, list_elem_of_singleton, Hin.
      split; [intros [Hs| ->]; [by left|by right]|intros [Hs|[_ [= <-]]]; [by left|by right]].
Qed.

Lemma collected_iff seen seen' out : (forall t, seen t <-> seen' t) -> collected seen out -> collected seen' out.
Proof. intros Hs [Hnd Hin]. split; [done|]. intros t. by rewrite Hin. Qed.

Lemma construct_row_collected vars row template : forall seen out, collected seen out ->
  collected (fun t => seen t \/ (invalid_triple t = false /\ exists tp, tp ∈ template /\ instantiate vars row tp = Some t))
    (foldl (construct_step vars row) out template).
Proof.
  induction template as [|tp template IH]; intros seen out Ho; cbn [foldl].
  - eapply collected_iff; [|exact Ho]. intros t. set_solver.
  - eapply collected_iff; [|apply IH, construct_step_collected, Ho]. intros t.
    setoid_rewrite elem_of_cons. naive_solver.
Qed.

Lemma construct_rows_collected vars template rows : collected (constructed vars template rows) (construct_rows vars template rows).
Proof.
  unfold construct_rows.
  enough (forall rows seen out, collected seen out ->
    collected (fun t => seen t \/ constructed vars template rows t)
      (foldl (fun out row => foldl (construct_step vars row) out template) out rows)) as H.
  { eapply collected_iff; [|apply (H rows (fun _ => False) [])]; [naive_solver|].
    split; [apply NoDup_nil_2|]. intros t. split; [by intros ?%not_elem_of_nil|done]. }
  clear rows. induction rows as [|row rows IH]; intros seen out Ho; cbn [foldl].
  - eapply collected_iff; [|exact Ho]. unfold constructed. set_solver.
  - eapply collected_iff; [|apply IH, construct_row_collected, Ho]. intros t. unfold constructed.
    setoid_rewrite elem_of_cons. naive_solver.
Qed.

(** CONSTRUCT gives exactly the valid instances of its template under the
    solutions of its query, each once: a literal subject or a predicate that is
    no IRI is dropped, as is an instance with an unbound variable. *)
Theorem construct_exact (q : Query) (c : SConn) :
  match exec_select q c with
  | (Ok (vars, rows), c') =>
      exists l, exec_construct q c = (Ok l, c') /\ NoDup l /\ forall t, t ∈ l <-> constructed vars (q_template q) rows t
  | (Err e, c') => exec_construct q c = (Err e, c')
  end.
Proof.
  unfold exec_construct, ebind. destruct (exec_select q c) as [[[vars rows]|e] c']; [|done].
  exists (construct_rows vars (q_template q) rows). split; [done|apply construct_rows_collected].
Qed.
End construct.

(** ** The SQL functions *)

Section functions.
Context `{HE : !SqlEngine, HO : !OxTurtle, HS : !StoreHost}.

Lemma fn_query_same d0 args : keeps (same_tables d0) (fn_query args).
Proof.
  unfold fn_query. apply keeps_bind; [apply keeps_lift|]. intros sparql.
  apply keeps_bind; [apply keeps_lift|]. intros format.
  apply keeps_bind; [apply run_query_same|]. intros s. apply keeps_ret.
Qed.

Lemma fn_dump_same d0 args : keeps (same_tables d0) (fn_dump_turtle args).
Proof. unfold fn_dump_turtle. apply keeps_bind; [apply dump_turtle_same|]. intros s. apply keeps_ret. Qed.

Lemma fn_init_same d0 args : keeps (same_tables d0) (fn_init args).
Proof. unfold fn_init. apply keeps_bind; [apply ensure_schema_same|]. intros s. apply keeps_ret. Qed.

Lemma fn_regexp_same d0 args : keeps (same_tables d0) (fn_regexp args).
Proof. apply keeps_lift. Qed.

(** A function that schema code may call (one registered without
    [SQLITE_DIRECTONLY]) leaves every stored term and triple as it was. *)
Theorem indirect_functions_read_only (f : SqlFunction) (args : list SqlValue) (c : SConn)
    (Hreg : f ∈ register) (Hindirect : sf_direct_only f = false) :
  let c' := snd (sf_call f args c) in
  terms_of (s_db c') = terms_of (s_db c) /\ quads_of (s_db c') = quads_of (s_db c).
Proof.
  apply (keeps_snd (same_tables (s_db c))); [|done]. unfold register in Hreg.
  repeat (apply elem_of_cons in Hreg as [-> |Hreg]; [cbn [sf_direct_only sf_call] in *;
    first [discriminate Hindirect|apply fn_query_same|apply fn_dump_same|apply fn_init_same|apply fn_regexp_same]|]).
  by apply not_elem_of_nil in Hreg.
Qed.
End functions.

Lemma indirect_functions_read_only_witness :
  let f := @mkSqlFunction "rdf_dump_turtle" 0 false (@fn_dump_turtle demo_engine) in
  let c' := snd (sf_call f [] demo_conn) in
  terms_of (s_db c') = terms_of (s_db demo_conn) /\ quads_of (s_db c') = quads_of (s_db demo_conn).
Proof.
  apply (@indirect_functions_read_only demo_engine demo_turtle demo_host
           (mkSqlFunction "rdf_dump_turtle" 0 false (@fn_dump_turtle demo_engine)) [] demo_conn); [|reflexivity].
  unfold register. do 8 right. left.
Defined.
