(* ===== verification/SparqlDump.v ===== *)
(** * SparqlDump: a dump restores the store

    The Turtle of [dump_turtle], run as INSERT DATA on an empty database, gives
    the same set of triples up to the labels of blank nodes. *)

From S2P Require Import Prelude RustStd Effect SparqlTerm SparqlCursor SparqlParse SparqlTyping SparqlSerialize SparqlRoundTrip SparqlStore SparqlStoreInv SparqlStoreSpec SparqlStoreProps.

Local Open Scope Z_scope.

(** ** Relabelling *)

Definition relabel (rho : string -> string) (t : Term) : Term :=
  if t_kind t =? K_BNODE then bnode (rho (t_lex t)) else t.

Definition relabel_triple (rho : string -> string) (t : Triple) : Triple :=
  let '(s, p, o) := t in (relabel rho s, relabel rho p, relabel rho o).

(** The labels of a set of triples. *)
Definition has_label (G : gset Triple) (a : string) : Prop :=
  exists s p o t, (s, p, o) ∈ G /\ (t = s \/ t = p \/ t = o) /\ t_kind t = K_BNODE /\ t_lex t = a.

(** The labels given out so far, as a renaming. *)
Definition renaming (f : Freshener) (a : string) : string := default a (labels f !! a).

Definition covers (f : Freshener) (t : Term) : Prop := t_kind t = K_BNODE -> is_Some (labels f !! t_lex t).

Definition covers_triple (f : Freshener) (t : Triple) : Prop :=
  let '(s, p, o) := t in covers f s /\ covers f p /\ covers f o.

Lemma covers_drawn f f' t : drawn f f' -> covers f t -> covers f' t.
Proof. intros [_ Hsub] Hc Hk. destruct (Hc Hk) as [l Hl]. exists l. by eapply lookup_weaken. Qed.

Lemma relabel_drawn f f' t : drawn f f' -> covers f t -> relabel (renaming f') t = relabel (renaming f) t.
Proof.
  intros [_ Hsub] Hc. unfold relabel. destruct (t_kind t =? K_BNODE) eqn:Hk; [|done].
  destruct Hc as [l Hl]; [lia|]. unfold renaming. by rewrite Hl, (lookup_weaken _ _ _ _ Hl Hsub).
Qed.

#[export] Instance drawn_preorder : PreOrder drawn.
Proof.
  split; [by intros f|]. intros f1 f2 f3 [H1 H2] [H3 H4]. split; [congruence|by transitivity (labels f2)].
Qed.

Lemma covers_triple_drawn f f' t : drawn f f' -> covers_triple f t -> covers_triple f' t.
Proof. destruct t as [[s p] o]. intros Hd (? & ? & ?). split_and!; by eapply covers_drawn. Qed.

Lemma relabel_triple_drawn f f' t : drawn f f' -> covers_triple f t ->
  relabel_triple (renaming f') t = relabel_triple (renaming f) t.
Proof. destruct t as [[s p] o]. intros Hd (? & ? & ?). cbn. by rewrite !(relabel_drawn f f'). Qed.

(** ** Grounding the patterns of a dump *)

Lemma term_ok_blank t : term_ok t = true -> t_kind t = K_BNODE -> t = bnode (t_lex t).
Proof.
  unfold term_ok. intros Ht Hk. rewrite Hk in Ht. cbn in Ht.
  apply andb_prop in Ht as [[_ Hd%is_empty_nil]%andb_prop Hl%is_empty_nil].
  destruct t as [k l d g]. cbn in *. by subst.
Qed.

Lemma ground_slot_relabel t f b : fresh_ok f b -> term_ok t = true ->
  exists f', ground_slot (slot_of t) f = (Some (relabel (renaming f') t), f') /\ fresh_ok f' b /\ drawn f f' /\ covers f' t.
Proof.
  intros Hf Ht. unfold slot_of, relabel, covers. destruct (t_kind t =? K_BNODE) eqn:Hk.
  - cbn [ground_slot]. rewrite strip_prefix_app. destruct (label (t_lex t) f) as [l f'] eqn:Hl.
    destruct (label_spec _ _ _ _ _ Hl Hf) as (Hf' & Hd & Hin). exists f'. unfold renaming. rewrite Hin. split_and!; by eauto.
  - exists f. cbn [ground_slot]. split_and!; [done..|]. intros Hk'. lia.
Qed.

Lemma ground_relabel t f b : fresh_ok f b -> triple_ok t = true ->
  exists f', ground (pattern_of t) f = Ok (relabel_triple (renaming f') t, f') /\ fresh_ok f' b /\ drawn f f' /\ covers_triple f' t.
Proof.
  destruct t as [[s p] o]. intros Hf Hok. unfold triple_ok in Hok.
  apply andb_prop in Hok as [[[[Hs Hp]%andb_prop Ho]%andb_prop _]%andb_prop _].
  destruct (ground_slot_relabel s f b Hf Hs) as (f1 & E1 & Hf1 & Hd1 & Hc1).
  destruct (ground_slot_relabel p f1 b Hf1 Hp) as (f2 & E2 & Hf2 & Hd2 & Hc2).
  destruct (ground_slot_relabel o f2 b Hf2 Ho) as (f3 & E3 & Hf3 & Hd3 & Hc3).
  exists f3. unfold ground. cbn [pattern_of tp_s tp_p tp_o]. rewrite E1. cbn [ok_or rbind]. rewrite E2. cbn [ok_or rbind].
  rewrite E3. cbn [ok_or rbind relabel_triple].
  assert (Hd13 : drawn f1 f3) by (by transitivity f2).
  split_and!; [|done|by transitivity f1|split_and!; [by apply (covers_drawn f1)|by apply (covers_drawn f2)|done]].
  by rewrite (relabel_drawn f1 f3 s), (relabel_drawn f2 f3 p).
Qed.

Lemma ground_all_relabel l : forall f b, fresh_ok f b -> forallb triple_ok l = true ->
  exists f', ground_all f (map pattern_of l) = Ok (map (relabel_triple (renaming f')) l, f') /\ fresh_ok f' b /\ drawn f f' /\
    forall t, t ∈ l -> covers_triple f' t.
Proof.
  induction l as [|t l IH]; intros f b Hf; cbn [forallb map ground_all].
  - intros _. exists f. split_and!; [done..|]. by intros t ?%not_elem_of_nil.
  - intros [Ht Hl]%andb_prop. destruct (ground_relabel t f b Hf Ht) as (f1 & E1 & Hf1 & Hd1 & Hc1).
    destruct (IH f1 b Hf1 Hl) as (f2 & E2 & Hf2 & Hd2 & Hc2). exists f2. rewrite E1. cbn [rbind]. rewrite E2. cbn [rbind].
    split_and!; [|done|by transitivity f1|].
    + by rewrite (relabel_triple_drawn f1 f2).
    + intros t' [-> |Ht']%elem_of_cons; [by eapply covers_triple_drawn|by apply Hc2].
Qed.

Lemma renaming_inj f b a a' : fresh_ok f b -> is_Some (labels f !! a) -> is_Some (labels f !! a') ->
  renaming f a = renaming f a' -> a = a'.
Proof.
  intros Hf [l Hl] [l' Hl']. unfold renaming. rewrite Hl, Hl'. cbn. intros ->. by eapply (fresh_distinct f b).
Qed.

(** ** Dump and restore *)

Lemma term_ok_valid t : term_ok t = true ->
  utf8_valid (t_lex t) = true /\ utf8_valid (t_dtype t) = true /\ utf8_valid (t_lang t) = true.
Proof.
  unfold term_ok, iri_ok. destruct (t_kind t =? K_IRI); [|destruct (t_kind t =? K_BNODE)].
  - intros [[[Hu _]%andb_prop ->%is_empty_nil]%andb_prop ->%is_empty_nil]%andb_prop. done.
  - intros [[[_ Hb]%andb_prop ->%is_empty_nil]%andb_prop ->%is_empty_nil]%andb_prop.
    split_and!; [by eapply bytes_valid; [apply is_name_byte_plain|]|done..].
  - intros [[_ Hu]%andb_prop H]%andb_prop. split; [done|]. destruct (is_empty (t_lang t)) eqn:Hl.
    + apply is_empty_nil in Hl as ->. by apply andb_prop in H as [Hd _].
    + apply andb_prop in H as [->%is_empty_nil Hg]. split; [done|]. by eapply bytes_valid; [apply tag_byte_plain|].
Qed.

Section dump.
Context `{HE : !SqlEngine}.

Lemma term_ok_read t : term_ok t = true -> read_term t = t.
Proof.
  intros Ht. unfold read_term, value_to_text. destruct (term_ok_valid t Ht) as (H1 & H2 & H3).
  rewrite !from_utf8_lossy_valid by done. by destruct t.
Qed.

Lemma triples_ok_read l : forallb triple_ok l = true -> map read_triple l = l.
Proof.
  induction l as [|[[s p] o] l IH]; cbn [forallb map]; [done|]. intros [Ht Hl]%andb_prop. rewrite IH by done.
  unfold triple_ok in Ht. apply andb_prop in Ht as [[[[Hs Hp]%andb_prop Ho]%andb_prop _]%andb_prop _].
  cbn. by rewrite !term_ok_read.
Qed.

(** The rows of the dump, as a set. *)
Definition dump_list (d : RdfDb) : list Triple := omap (quad_terms (terms_of d)) (elements (quads_of d)).

Lemma dump_turtle_runs c : healthy c -> store_ok (s_db c) ->
  exists c', dump_turtle c = (Ok (serialize_turtle (map read_triple (dump_list (s_db c))) []), c').
Proof.
  intros Hc Hok. pose proof (bound_range _ (dict_ids _ (store_dict _ Hok))) as Hb.
  destruct (ensure_schema_runs 0 c Hc Hok) as (fs & Hs & Hr); [lia|].
  destruct (select_runs dump_rows _ (ready_healthy _ _ _ Hr)) as (fs' & Hd & _).
  exists (mkSConn (schema_db (s_db c)) fs'). unfold dump_turtle, ebind. by rewrite Hs, Hd.
Qed.

Lemma restore_runs (l : list Triple) c : forallb triple_ok l = true -> healthy c -> s_db c = mkRdfDb None None ->
  3 * zlen l <= I64_MAX ->
  exists f c', update ("INSERT DATA {" +:+ serialize_turtle l [] +:+ "}") c =
    (Ok (count (triples_set (map (relabel_triple (renaming f)) l))), c') /\
    graph_of (s_db c') = triples_set (map (relabel_triple (renaming f)) l) /\
    fresh_ok f 0 /\ forall t, t ∈ l -> covers_triple f t.
Proof.
  intros Hl Hc Hdb Hroom. destruct (parse_dump l Hl) as [Hp Hperm].
  set (u := mkUpdate InsertData (map pattern_of (sort_triples l))) in *.
  assert (Hlen : length (sort_triples l) = length l) by by rewrite Hperm.
  destruct (parse_update _ u Hp) as [Ht ->].
  destruct (run_data_update u c Hc) as (ts & f' & c' & Hg & Hrun & Hr);
    [rewrite Hdb; apply empty_store_ok|exact Ht|done| |].
  { rewrite Hdb. unfold zlen in *. cbn [u_triples u]. rewrite length_map, Hlen.
    change (bound (terms_of (mkRdfDb None None))) with 0. lia. }
  rewrite Hdb in *. change (graph_of (mkRdfDb None None)) with (∅ : gset Triple) in *.
  destruct (ground_all_relabel (sort_triples l) (first_freshener (mkRdfDb None None)) 0) as (f & Hg' & Hf & _ & Hcov).
  { by apply fresh_ok_new. }
  { by apply sort_triples_ok. }
  cbn [u_triples u] in Hg. rewrite Hg' in Hg. injection Hg as <- <-. exists f, c'.
  assert (Hset : updated InsertData (map (relabel_triple (renaming f)) (sort_triples l)) ∅ =
                 triples_set (map (relabel_triple (renaming f)) l)).
  { cbn [updated]. rewrite union_empty_r_L. unfold triples_set. by rewrite Hperm. }
  cbn [u_kind u] in *. rewrite Hset in *. rewrite Hrun. split_and!.
  - do 2 f_equal. change (count ∅) with 0. unfold count. lia.
  - apply Hr.
  - done.
  - intros t Ht'. apply Hcov. by rewrite Hperm.
Qed.

(** C11. Dump and restore: when the terms of the store can be written (no [>] or
    backslash in an IRI, IRIs as predicates, valid UTF-8), its Turtle dump, run
    as an INSERT DATA on a database without a store, succeeds and yields the
    same set of triples, but for a renaming of the blank nodes that keeps
    different ones different. *)
Theorem dump_restores (c c2 : SConn)
    (Hhealthy : healthy c) (Hok : store_ok (s_db c)) (Hwritable : forallb triple_ok (dump_list (s_db c)) = true)
    (Hhealthy2 : healthy c2) (Hempty : s_db c2 = mkRdfDb None None)
    (Hroom : 3 * Z.of_nat (size (quads_of (s_db c))) <= I64_MAX) :
  exists text c', dump_turtle c = (Ok text, c') /\
  exists rho c2', update ("INSERT DATA {" +:+ text +:+ "}") c2 = (Ok (count (graph_of (s_db c2'))), c2') /\
    graph_of (s_db c2') = set_map (relabel_triple rho) (graph_of (s_db c)) /\
    forall a b, has_label (graph_of (s_db c)) a -> has_label (graph_of (s_db c)) b -> rho a = rho b -> a = b.
Proof.
  destruct (dump_turtle_runs c Hhealthy Hok) as [c' Hd]. eexists _, c'. split; [exact Hd|].
  rewrite triples_ok_read by done. set (l := dump_list (s_db c)) in *.
  destruct (restore_runs l c2 Hwritable Hhealthy2 Hempty) as (f & c2' & Hu & Hgraph & Hf & Hcov).
  { pose proof (omap_length (quad_terms (terms_of (s_db c))) (elements (quads_of (s_db c)))) as Hlen.
    unfold zlen, l, dump_list. change (size (quads_of (s_db c))) with (length (elements (quads_of (s_db c)))) in Hroom. lia. }
  exists (renaming f), c2'. rewrite Hgraph. split_and!; [exact Hu| |].
  - unfold graph_of, graph, triples_set. fold l. apply set_eq. intros t.
    rewrite elem_of_list_to_set, list_elem_of_fmap, elem_of_map. setoid_rewrite elem_of_list_to_set. done.
  - assert (Hlab : forall a, has_label (graph_of (s_db c)) a -> is_Some (labels f !! a)).
    { intros a (s & p & o & t & Hin & Ht & Hk & <-). apply elem_of_list_to_set in Hin.
      destruct (Hcov _ Hin) as (H1 & H2 & H3). by destruct Ht as [-> |[-> | ->]]; [apply H1|apply H2|apply H3]. }
    intros a b Ha Hb. apply (renaming_inj f 0); auto.
Qed.
End dump.

Lemma dump_restores_witness :
  exists text c', @dump_turtle demo_engine demo_conn = (Ok text, c') /\
  exists rho c2', @update demo_engine ("INSERT DATA {" +:+ text +:+ "}") (no_store []) = (Ok (count (graph_of (s_db c2'))), c2') /\
    graph_of (s_db c2') = set_map (relabel_triple rho) (graph_of (s_db demo_conn)) /\
    forall a b, has_label (graph_of (s_db demo_conn)) a -> has_label (graph_of (s_db demo_conn)) b -> rho a = rho b -> a = b.
Proof.
  destruct demo_conn_ok as [Hh Hok].
  apply (@dump_restores demo_engine demo_conn (no_store []) Hh Hok); [vm_compute; reflexivity|constructor|reflexivity|].
  apply Z.leb_le. vm_compute. reflexivity.
Defined.
