(* ===== verification/Authorizer.v ===== *)
(** * Authorizer: footprints collected and enforced while SQLite prepares

    Models [crates/node/src/footprint.rs]. Preparing a statement is a dialogue:
    SQLite asks the installed callback about one action after another, and
    what it asks next may depend on the answers. *)

From S2P Require Import Prelude RustStd Collections AuthTypes.



(** ** What SQLite asks *)

(** [rusqlite::hooks::AuthAction]; the arguments the code does not read are
    left out. *)
Inductive AuthAction : Type :=
| AUnknown (code : Z)
| ACreateIndex | ACreateTable | ACreateTempIndex | ACreateTempTable | ACreateTempTrigger | ACreateTempView
| ACreateTrigger | ACreateView
| ADelete (table_name : string)
| ADropIndex | ADropTable | ADropTempIndex | ADropTempTable | ADropTempTrigger | ADropTempView
| ADropTrigger | ADropView
| AInsert (table_name : string)
| APragma (pragma_name : string)
| ARead (table_name column_name : string)
| ASelect
| ATransaction
| AUpdate (table_name column_name : string)
| AAttach | ADetach
| AAlterTable | AReindex | AAnalyze | ACreateVtable | ADropVtable
| AFunction (function_name : string)
| ASavepoint
| ARecursive.

(** [rusqlite::Error], as far as the code looks into it. *)
Inductive SqlErrorCode : Type := OperationInterrupted | DatabaseBusy | DatabaseLocked | OtherError.

Record SqlError : Type := mkSqlError {
  se_code : SqlErrorCode;
  se_text : string
}.

(** A prepare: done, or a question and how it goes on after the answer. *)
Inductive Prep (A : Type) : Type :=
| Prepared (r : result SqlError A)
| Authorize (a : AuthAction) (k : bool -> Prep A).
Arguments Prepared {A} r.
Arguments Authorize {A} a k.

(** With a callback that keeps a state [S]; [true] is [Authorization::Allow]. *)
Fixpoint prepare_with {A S} (cb : AuthAction -> S -> bool * S) (p : Prep A) (s : S) : result SqlError A * S :=
  match p with
  | Prepared r => (r, s)
  | Authorize a k => let '(answer, s) := cb a s in prepare_with cb (k answer) s
  end.

(** Without one, everything is allowed. *)
Fixpoint prepare_free {A} (p : Prep A) : result SqlError A :=
  match p with
  | Prepared r => r
  | Authorize _ k => prepare_free (k true)
  end.

(** ** footprint.rs *)

Inductive Lane : Type := Remote | Owner.

#[export] Instance Lane_eq_dec : EqDecision Lane.
Proof. solve_decision. Defined.

Definition LOAD_EXTENSION : string := "load_extension".

Record CollectState : Type := mkCollectState {
  cs_footprint : Footprint;
  cs_wrote : bool;
  cs_pragma : bool;
  cs_denied : option string
}.

Definition CollectState_default : CollectState := mkCollectState Footprint_default false false None.

Definition CollectState_kind (self : CollectState) : ActionKind :=
  if cs_wrote self then Write else if cs_pragma self then OtherKind else Read.

Definition CollectState_finish (self : CollectState) : Footprint :=
  mkFootprint (CollectState_kind self) (tables (cs_footprint self)) (denied (cs_footprint self)).

Definition is_ddl (a : AuthAction) : bool :=
  match a with
  | ACreateIndex | ACreateTable | ACreateTempIndex | ACreateTempTable | ACreateTempTrigger | ACreateTempView
  | ACreateTrigger | ACreateView | ADropIndex | ADropTable | ADropTempIndex | ADropTempTable | ADropTempTrigger
  | ADropTempView | ADropTrigger | ADropView | AAlterTable | AReindex | AAnalyze | ACreateVtable | ADropVtable => true
  | _ => false
  end.

(** The construct and the reason of a categorically banned action. *)
Definition banned (action : AuthAction) (pragma_allowlist : list string) (lane : Lane) : option (string * string) :=
  match action with
  | AAttach | ADetach => Some ("attach", "ATTACH/DETACH is not allowed")
  | APragma pragma_name =>
      if bool_decide (lane = Owner) || existsb (fun p => eq_nocase p pragma_name) pragma_allowlist then None
      else Some ("pragma", "PRAGMA " +:+ pragma_name +:+ " is not allowlisted")
  | AFunction function_name =>
      if eq_nocase function_name LOAD_EXTENSION then Some ("load_extension", "load_extension is not allowed")
      else None
  | ATransaction | ASavepoint =>
      if bool_decide (lane = Owner) then None
      else Some ("transaction", "client-issued transaction control is not allowed")
  | AUnknown code => Some ("unknown", "unknown sqlite action code " +:+ int_to_string code +:+ " denied")
  | _ => if is_ddl action then
           if bool_decide (lane = Owner) then None else Some ("ddl", "DDL is not allowed")
         else None
  end.

(** [tables.entry(table).or_default()], and the insertion of columns there. *)
Definition touch (table : string) (cols : gset string) (fp : Footprint) : Footprint :=
  mkFootprint (kind fp) (<[table := cols ∪ default ∅ (tables fp !! table)]> (tables fp)) (denied fp).

Definition set_footprint (fp : Footprint) (st : CollectState) : CollectState :=
  mkCollectState fp (cs_wrote st) (cs_pragma st) (cs_denied st).
Definition set_wrote (st : CollectState) : CollectState :=
  mkCollectState (cs_footprint st) true (cs_pragma st) (cs_denied st).

(** [get_or_insert]. *)
Definition first_reason (old : option string) (reason : string) : option string :=
  match old with Some r => Some r | None => Some reason end.

(** The closure of [collect_authorizer]. *)
Definition collect_authorizer (pragma_allowlist : list string) (lane : Lane) (action : AuthAction)
    (st : CollectState) : bool * CollectState :=
  match banned action pragma_allowlist lane with
  | Some (construct, reason) =>
      (false, mkCollectState (deny_construct construct (cs_footprint st)) (cs_wrote st) (cs_pragma st)
                (first_reason (cs_denied st) reason))
  | None =>
      (true, match action with
             | ARead t col => set_footprint (touch t {[col]} (cs_footprint st)) st
             | AInsert t | ADelete t => set_wrote (set_footprint (touch t ∅ (cs_footprint st)) st)
             | AUpdate t col => set_wrote (set_footprint (touch t {[col]} (cs_footprint st)) st)
             | APragma _ => mkCollectState (cs_footprint st) (cs_wrote st) true (cs_denied st)
             | _ => st
             end)
  end.

Record Approved : Type := mkApproved {
  ap_footprint : Footprint;
  ap_lane : Lane
}.

Definition read_ok (self : Approved) (table column : string) : bool :=
  match tables (ap_footprint self) !! table with
  | Some cols => bool_decide (column ∈ cols)
  | None => false
  end.

Definition write_ok (self : Approved) (table : string) : bool :=
  bool_decide (kind (ap_footprint self) = Write) && bool_decide (is_Some (tables (ap_footprint self) !! table)).

(** [Debug] of an action. *)
Class AuthDebug : Type := { action_debug : AuthAction -> string }.

Section enforce.
Context `{HD : !AuthDebug}.

(** The answer, and the reason recorded with a denial. *)
Definition enforce_answer (approved : Approved) (pragma_allowlist : list string) (action : AuthAction) :
    option string :=
  let lane := ap_lane approved in
  let allow_if (b : bool) (reason : string) := if b then None else Some reason in
  match banned action pragma_allowlist lane with
  | Some (_, msg) => Some msg
  | None =>
      match action with
      | ARead t col =>
          allow_if (read_ok approved t col) ("read of " +:+ t +:+ "." +:+ col +:+ " exceeds the approved footprint")
      | AInsert t | ADelete t =>
          allow_if (write_ok approved t) ("write to " +:+ t +:+ " exceeds the approved footprint")
      | AUpdate t col =>
          allow_if (write_ok approved t && read_ok approved t col)
            ("update of " +:+ t +:+ "." +:+ col +:+ " exceeds the approved footprint")
      | APragma pragma_name =>
          allow_if (bool_decide (lane = Owner) || bool_decide (kind (ap_footprint approved) = OtherKind))
            ("PRAGMA " +:+ pragma_name +:+ " was not part of the approved statement")
      | ASelect | AFunction _ | ARecursive => None
      | other =>
          allow_if (bool_decide (lane = Owner))
            ("action " +:+ action_debug other +:+ " denied by the enforce authorizer")
      end
  end.

(** The closure of [enforce_authorizer]; the state is the recorded reason. *)
Definition enforce_authorizer (approved : Approved) (pragma_allowlist : list string) (action : AuthAction)
    (reason : option string) : bool * option string :=
  match enforce_answer approved pragma_allowlist action with
  | None => (true, reason)
  | Some msg => (false, first_reason reason msg)
  end.

End enforce.

(** * What was collected is what may run

    The collected footprint covers every action of the prepare; a statement
    that was collected passes its own enforcement; and whatever the schema
    has become, nothing outside the approved footprint is prepared. *)

Section props.
Context `{HD : !AuthDebug}.

(** ** Specification *)

(** The questions asked, in order. *)
Fixpoint questions {A S} (cb : AuthAction -> S -> bool * S) (p : Prep A) (s : S) : list AuthAction :=
  match p with
  | Prepared _ => []
  | Authorize a k => let '(answer, s) := cb a s in a :: questions cb (k answer) s
  end.

(** SQLite fails a prepare in which an action was denied. *)
Fixpoint fails {A} (p : Prep A) : Prop :=
  match p with
  | Prepared r => exists e, r = Err e
  | Authorize _ k => forall b, fails (k b)
  end.

Fixpoint obeys {A} (p : Prep A) : Prop :=
  match p with
  | Prepared _ => True
  | Authorize _ k => obeys (k true) /\ fails (k false)
  end.

(** A footprint covers reading a column, and writing a table. *)
Definition covers_read (fp : Footprint) (table column : string) : Prop :=
  exists cols, tables fp !! table = Some cols /\ column ∈ cols.
Definition covers_write (fp : Footprint) (table : string) : Prop :=
  kind fp = Write /\ is_Some (tables fp !! table).

(** What an approval permits: reads and writes within its footprint, a pragma
    when the statement is one, and on the remote lane no definition of schema
    and no transaction control; attaching a database or loading an extension
    never. *)
Definition permitted (ap : Approved) (a : AuthAction) : Prop :=
  match a with
  | ARead t col => covers_read (ap_footprint ap) t col
  | AInsert t | ADelete t => covers_write (ap_footprint ap) t
  | AUpdate t col => covers_write (ap_footprint ap) t /\ covers_read (ap_footprint ap) t col
  | APragma _ => ap_lane ap = Owner \/ kind (ap_footprint ap) = OtherKind
  | ASelect | ARecursive => True
  | AFunction f => eq_nocase f LOAD_EXTENSION = false
  | AAttach | ADetach | AUnknown _ => False
  | _ => ap_lane ap = Owner
  end.

(** ** Enforcement *)

Lemma read_ok_spec ap t col : read_ok ap t col = true <-> covers_read (ap_footprint ap) t col.
Proof.
  unfold read_ok, covers_read. destruct (tables (ap_footprint ap) !! t) as [cols|]; [|naive_solver].
  rewrite bool_decide_eq_true. naive_solver.
Qed.

Lemma write_ok_spec ap t : write_ok ap t = true <-> covers_write (ap_footprint ap) t.
Proof. unfold write_ok, covers_write. by rewrite andb_true_iff, !bool_decide_eq_true. Qed.

Lemma allow_if_None (b : bool) (m : string) : (if b then None else Some m) = None <-> b = true.
Proof. by destruct b. Qed.

Lemma enforce_permitted ap al a : enforce_answer ap al a = None -> permitted ap a.
Proof.
  unfold enforce_answer. destruct (banned a al (ap_lane ap)) as [[c r]|] eqn:Hb; [done|].
  destruct a; cbn [permitted is_ddl banned] in *; rewrite ?allow_if_None, ?bool_decide_eq_true, ?andb_true_iff, ?orb_true_iff,
    ?read_ok_spec, ?write_ok_spec, ?bool_decide_eq_true; try done.
  by destruct (eq_nocase _ _).
Qed.

Lemma fails_prepare {A S} (cb : AuthAction -> S -> bool * S) (p : Prep A) : forall s a s',
  fails p -> prepare_with cb p s <> (Ok a, s').
Proof.
  induction p as [r|act k IH]; intros s a s'; cbn.
  - intros [e ->]. done.
  - intros Hf. destruct (cb act s) as [b s1]. by apply IH.
Qed.

Lemma enforced_permitted {A} ap al (p : Prep A) r a r' :
  obeys p -> prepare_with (enforce_authorizer ap al) p r = (Ok a, r') ->
  Forall (permitted ap) (questions (enforce_authorizer ap al) p r) /\ r' = r /\ prepare_free p = Ok a.
Proof.
  induction p as [res|act k IH]; cbn.
  - intros _ [= -> ->]. done.
  - intros [Ht Hf]. unfold enforce_authorizer at 1 3. destruct (enforce_answer ap al act) as [m|] eqn:Ha.
    + intros Hp. by apply fails_prepare in Hp.
    + intros Hp. destruct (IH _ Ht Hp) as (? & -> & ?). split_and!; [|done..].
      constructor; [by eapply enforce_permitted|done].
Qed.

(** ** Collection *)

(** The state after covers what the state before did, and this action. *)
Definition grows (st st' : CollectState) : Prop :=
  (forall t col, covers_read (cs_footprint st) t col -> covers_read (cs_footprint st') t col) /\
  (forall t, is_Some (tables (cs_footprint st) !! t) -> is_Some (tables (cs_footprint st') !! t)) /\
  (cs_wrote st = true -> cs_wrote st' = true) /\ (cs_pragma st = true -> cs_pragma st' = true) /\
  (cs_denied st <> None -> cs_denied st' <> None).

#[local] Instance grows_preorder : PreOrder grows.
Proof. split; unfold grows, Reflexive, Transitive; naive_solver. Qed.

Definition recorded (st : CollectState) (a : AuthAction) : Prop :=
  match a with
  | ARead t col => covers_read (cs_footprint st) t col
  | AInsert t | ADelete t => cs_wrote st = true /\ is_Some (tables (cs_footprint st) !! t)
  | AUpdate t col =>
      cs_wrote st = true /\ is_Some (tables (cs_footprint st) !! t) /\ covers_read (cs_footprint st) t col
  | APragma _ => cs_pragma st = true
  | _ => True
  end.

Lemma recorded_grows st st' a : grows st st' -> recorded st a -> recorded st' a.
Proof. intros (H1 & H2 & H3 & H4 & H5). destruct a; cbn; naive_solver. Qed.

Lemma touch_reads t cols fp t' col :
  covers_read (touch t cols fp) t' col <-> covers_read fp t' col \/ (t = t' /\ col ∈ cols).
Proof.
  unfold covers_read, touch. cbn. destruct (decide (t = t')) as [->|Hn].
  - rewrite lookup_insert_eq. split.
    + intros (c & [= <-] & [Hc|Hc]%elem_of_union); [by right|left].
      destruct (tables fp !! t') as [c|]; [by exists c|by apply not_elem_of_empty in Hc].
    + intros [(c & -> & Hc)|[_ Hc]]; eexists; (split; [done|]); cbn; set_solver.
  - rewrite lookup_insert_ne by done. naive_solver.
Qed.

Lemma touch_tables t cols fp t' :
  is_Some (tables (touch t cols fp) !! t') <-> is_Some (tables fp !! t') \/ t = t'.
Proof.
  unfold touch. cbn. destruct (decide (t = t')) as [->|Hn].
  - rewrite lookup_insert_eq. naive_solver.
  - rewrite lookup_insert_ne by done. naive_solver.
Qed.

Lemma collect_step al lane a st answer st' :
  collect_authorizer al lane a st = (answer, st') ->
  grows st st' /\ (answer = false -> cs_denied st' <> None) /\
  (answer = true -> banned a al lane = None /\ recorded st' a /\ cs_denied st' = cs_denied st).
Proof.
  unfold collect_authorizer. destruct (banned a al lane) as [[c r]|] eqn:Hb.
  - intros [= <- <-]. split_and!; [|intros _; cbn; by destruct (cs_denied st)|done].
    unfold grows, covers_read. cbn. split_and!; try done. by destruct (cs_denied st).
  - intros [= <- <-]. split_and!; [|done|intros _; split; [done|]].
    + destruct a; try reflexivity; unfold grows; cbn [cs_footprint set_wrote set_footprint cs_wrote cs_pragma cs_denied];
        (split_and!; try done; intros; rewrite ?touch_reads, ?touch_tables; by left).
    + destruct a; cbn [recorded cs_footprint set_wrote set_footprint cs_wrote cs_pragma cs_denied];
        rewrite ?touch_reads, ?touch_tables; set_solver.
Qed.

Lemma collect_grows {A} al lane (p : Prep A) : forall st r st',
  prepare_with (collect_authorizer al lane) p st = (r, st') -> grows st st'.
Proof.
  induction p as [res|a k IH]; intros st r st'; cbn; [by intros [= _ <-]|].
  destruct (collect_authorizer al lane a st) as [answer s1] eqn:E. intros Hp.
  etrans; [apply (collect_step _ _ _ _ _ _ E)|by eapply IH].
Qed.

(** The collected actions, under the kind that was concluded, are permitted. *)
Lemma recorded_enforced al lane st a :
  banned a al lane = None -> recorded st a ->
  (lane = Owner \/ cs_pragma st && cs_wrote st = false) ->
  enforce_answer (mkApproved (CollectState_finish st) lane) al a = None.
Proof.
  intros Hb Hr Hmix. unfold enforce_answer. cbn [ap_lane]. rewrite Hb.
  assert (Hw : forall t, cs_wrote st = true -> is_Some (tables (cs_footprint st) !! t) ->
            write_ok (mkApproved (CollectState_finish st) lane) t = true).
  { intros t Hwr Ht. apply write_ok_spec. split; [|done]. cbn. unfold CollectState_kind. by rewrite Hwr. }
  assert (Hrd : forall t col, covers_read (cs_footprint st) t col ->
            read_ok (mkApproved (CollectState_finish st) lane) t col = true).
  { intros t col Ht. by apply read_ok_spec. }
  destruct a; cbn [recorded is_ddl banned] in *; rewrite ?allow_if_None; try done;
    try (by destruct (bool_decide (lane = Owner))); try (by destruct Hr; auto); auto.
  - apply orb_true_iff. rewrite !bool_decide_eq_true. destruct Hmix as [->|Hmix]; [by left|right].
    unfold ap_footprint, CollectState_finish, kind, CollectState_kind. rewrite Hr in *. by destruct (cs_wrote st).
  - destruct Hr as (? & ? & ?). by rewrite Hw, Hrd.
Qed.

Lemma collected_passes {A} al lane (p : Prep A) fin : forall st a,
  prepare_with (collect_authorizer al lane) p st = (Ok a, fin) -> cs_denied fin = None ->
  (lane = Owner \/ cs_pragma fin && cs_wrote fin = false) ->
  forall r, prepare_with (enforce_authorizer (mkApproved (CollectState_finish fin) lane) al) p r = (Ok a, r).
Proof.
  induction p as [res|act k IH]; intros st a; cbn; [by intros [= -> ->]|].
  destruct (collect_authorizer al lane act st) as [answer s1] eqn:E. intros Hp Hden Hmix r.
  pose proof (collect_grows _ _ _ _ _ _ Hp) as Hg. destruct (collect_step _ _ _ _ _ _ E) as (_ & Hf & Ht).
  destruct answer; [|by destruct Hg as (_ & _ & _ & _ & Hd); destruct (Hd (Hf eq_refl))].
  destruct (Ht eq_refl) as (Hb & Hrec & _). unfold enforce_authorizer at 1.
  rewrite recorded_enforced; [|done|by eapply recorded_grows|done]. by eapply IH.
Qed.

(** A statement that writes and also reads an allowlisted pragma is collected as
    a write, and refused when it is prepared for execution. *)
Lemma mixed_pragma_refused al fp name :
  kind fp = Write -> enforce_answer (mkApproved fp Remote) al (APragma name) <> None.
Proof.
  intros Hk. unfold enforce_answer. cbn [ap_lane ap_footprint]. destruct (banned _ _ _) as [[c m]|]; [done|].
  by rewrite Hk.
Qed.

(** So a statement that was collected with both is denied again. *)
Lemma denied_stays {A} ap al (p : Prep A) : forall m, snd (prepare_with (enforce_authorizer ap al) p (Some m)) <> None.
Proof.
  induction p as [res|act k IH]; intros m; cbn; [done|].
  unfold enforce_authorizer at 1. destruct (enforce_answer ap al act); apply IH.
Qed.

Lemma mixed_denied {A} al (p : Prep A) fin : forall st a,
  prepare_with (collect_authorizer al Remote) p st = (Ok a, fin) -> cs_denied fin = None ->
  cs_pragma st = false -> cs_pragma fin = true -> cs_wrote fin = true ->
  snd (prepare_with (enforce_authorizer (mkApproved (CollectState_finish fin) Remote) al) p None) <> None.
Proof.
  induction p as [res|act k IH]; intros st a; cbn; [by intros [= _ ->] _ ->|].
  destruct (collect_authorizer al Remote act st) as [answer s1] eqn:E. intros Hp Hden Hst Hpr Hw.
  pose proof (collect_grows _ _ _ _ _ _ Hp) as (_ & _ & _ & _ & Hd). destruct (collect_step _ _ _ _ _ _ E) as (_ & Hf & _).
  destruct answer; [|by destruct (Hd (Hf eq_refl))].
  unfold enforce_authorizer at 1. destruct (enforce_answer _ al act) as [m|] eqn:Ha; [apply denied_stays|].
  eapply IH; [exact Hp|done| |done..].
  unfold collect_authorizer in E. destruct (banned act al Remote) as [[]|]; [done|]. injection E as <-.
  destruct act; try exact Hst. exfalso. eapply mixed_pragma_refused; [|exact Ha].
  cbn. unfold CollectState_kind. by rewrite Hw.
Qed.

(** ** Properties *)

(** C14. The decision binds the execution: whatever the schema has become since, a
    statement prepared under enforcement reads and writes only what was
    approved, and runs no pragma, schema change or transaction control outside
    its lane; this from SQLite failing a prepare that was denied anything. *)
Theorem enforcement_sound {A} (ap : Approved) (al : list string) (p : Prep A) (a : A) (r : option string)
  (Hobeys : obeys p) (Hok : prepare_with (enforce_authorizer ap al) p None = (Ok a, r)) :
  Forall (permitted ap) (questions (enforce_authorizer ap al) p None) /\ r = None /\ prepare_free p = Ok a.
Proof. by apply enforced_permitted. Qed.

(** C15. Enforcement refuses what the decision saw in one case only: when
    nothing has changed, a statement that was collected without a denial is
    prepared again under its own footprint, to the same result and with no
    denial recorded, exactly when it is the owner's or does not both write and
    read a pragma. *)
Theorem collected_is_enforceable {A} (al : list string) (lane : Lane) (p : Prep A) (a : A) (st : CollectState)
  (Hcollect : prepare_with (collect_authorizer al lane) p CollectState_default = (Ok a, st))
  (Hdenied : cs_denied st = None) :
  prepare_with (enforce_authorizer (mkApproved (CollectState_finish st) lane) al) p None = (Ok a, None) <->
  lane = Owner \/ cs_pragma st && cs_wrote st = false.
Proof.
  split; [|intros Hmix; by eapply collected_passes]. intros Hp. destruct lane; [right|by left].
  destruct (cs_pragma st && cs_wrote st) eqn:Hmix; [|done]. apply andb_true_iff in Hmix as [Hpr Hw].
  destruct (mixed_denied al p st CollectState_default a Hcollect Hdenied eq_refl Hpr Hw).
  by rewrite Hp.
Qed.

End props.

(** ** Witnesses *)

#[local] Instance plain_debug : AuthDebug := { action_debug := fun _ => "Action" }.

(** [INSERT INTO notes SELECT body FROM notes], in a view of it that fails
    when denied. *)
Definition demo_prep : Prep nat :=
  let denied := Prepared (Err (mkSqlError OtherError "not authorized")) in
  let ask a p := Authorize a (fun b : bool => if b then p else denied) in
  ask (AInsert "notes") (ask ASelect (ask (ARead "notes" "body") (Prepared (Ok 7%nat)))).

Definition demo_state : CollectState :=
  snd (prepare_with (collect_authorizer [] Remote) demo_prep CollectState_default).

Lemma enforcement_sound_witness :
  let ap := mkApproved (CollectState_finish demo_state) Remote in
  Forall (permitted ap) (questions (enforce_authorizer ap []) demo_prep None) /\
  None = @None string /\ prepare_free demo_prep = Ok 7%nat.
Proof.
  apply enforcement_sound; [|vm_compute; reflexivity].
  cbn. split_and!; try done; by eexists.
Defined.

Lemma collected_is_enforceable_witness :
  prepare_with (enforce_authorizer (mkApproved (CollectState_finish demo_state) Remote) []) demo_prep None =
  (Ok 7%nat, None).
Proof. apply (collected_is_enforceable [] Remote demo_prep 7%nat demo_state); [vm_compute; reflexivity|reflexivity|right; reflexivity]. Defined.
