(* ===== verification/NodeDb.v ===== *)
(** * NodeDb: the node's connection, its tables and its ledger

    Models [crates/node/src/audit.rs], [get_rsntr] of [ddl.rs] and the tables
    the node reads and writes by name. The tables of the authenticator are a
    part of the database ([nd_auth]); what the served application keeps is a
    type of its own ([nd_user]). A connection may have a transaction open, and
    then holds the database as it was when it began. Each statement may fail
    for reasons of its own, which are inputs; so are the clocks. *)

From S2P Require Import Prelude RustStd Collections CivilDate AuthTypes Authorizer.

Open Scope Z_scope.

(** ** Tables *)

Record AuditRow : Type := mkAuditRow {
  au_id : Z;
  au_at : string;
  au_direction : string;
  au_peer : string;
  au_request_id : string;
  au_signal : string;
  au_footprint : string;
  au_decision : string;
  au_decided_by : string;
  au_reason : option string;
  au_rows_out : option Z;
  au_bytes_out : option Z;
  au_duration_ms : Z
}.

(** The key is [request_id]. *)
Record AppliedRow : Type := mkAppliedRow {
  al_at : string;
  al_outcome : Cell
}.

(** The key is [bucket]; [None] is a value that does not read as a float. *)
Record KnockRow : Type := mkKnockRow {
  kb_tokens : option f64;
  kb_updated_at : option f64
}.

(** The key is [name]. *)
Record MediaRow : Type := mkMediaRow {
  me_command : Cell;
  me_content_type : Cell;
  me_accepts : Cell
}.

(** The key is [point_iri]. [ord] holds an integer, which is what its affinity
    makes of a number. *)
Record PointRow : Type := mkPointRow {
  pr_kind : Cell;
  pr_label : Cell;
  pr_icon : Cell;
  pr_role : Cell;
  pr_path : Cell;
  pr_ord : Z;
  pr_projects_path : Cell;
  pr_modulation : Cell;
  pr_signal : Cell;
  pr_params_order : Cell;
  pr_fields : Cell;
  pr_signal_template : Cell;
  pr_fires : Cell;
  pr_resource : Cell;
  pr_note : Cell
}.

(** The key is [name]. [mo_enabled] is whether [enabled = 1]. *)
Record ModRow : Type := mkModRow {
  mo_wasm : option (list Byte.byte);
  mo_sha256 : Cell;
  mo_enabled : bool;
  mo_caps : Cell;
  mo_config : Cell;
  mo_limits : Cell;
  mo_note : Cell
}.

(** The key is [name]. *)
Record PageRow : Type := mkPageRow {
  pg_html : Cell;
  pg_content_type : Cell;
  pg_updated_at : Cell
}.

(** The key is [name]. *)
Record CommentRow : Type := mkCommentRow {
  cm_comment : Cell;
  cm_updated_at : Cell
}.

(** The key is [app_id]. *)
Record AppTableRow : Type := mkAppTableRow {
  ap_name : Cell;
  ap_version : Cell;
  ap_lib_version : Cell;
  ap_platform : Cell;
  ap_tables : Cell;
  ap_first_seen : Cell;
  ap_last_seen : Cell;
  ap_note : Cell
}.

(** [_outbox]: the rows in the order of their rowids. *)
Record OutboxRow : Type := mkOutboxRow {
  ob_request_id : Cell;
  ob_peer : Cell;
  ob_mod : Cell;
  ob_signal : Cell;
  ob_params : Cell;
  ob_status : Cell;
  ob_error : Cell;
  ob_created_at : Cell;
  ob_completed_at : Cell
}.

(** The key is [id]. *)
Record MessageRow : Type := mkMessageRow {
  ms_scope : string;
  ms_sender : string;
  ms_at : string;
  ms_received_at : string;
  ms_body : string;
  ms_blob_hash : option string;
  ms_blob_bytes : option Z;
  ms_blob_name : option string;
  ms_blob_type : option string;
  ms_outgoing : Z;
  ms_re_id : option string;
  ms_tags : option string
}.

(** The key is [room_id]. *)
Record RoomRow : Type := mkRoomRow {
  ro_name : Cell;
  ro_host : Cell;
  ro_created_at : Cell
}.

(** The tables of the chat, and whether [chat_messages] has the columns added
    later. [chat_members] has its primary key (room_id, member). *)
Record ChatTables : Type := mkChatTables {
  ct_messages : option (gmap string MessageRow);
  ct_has_re : bool;
  ct_has_tags : bool;
  ct_rooms : option (gmap string RoomRow);
  ct_members : option (gset (string * string));
  ct_log_view : bool
}.

(** What is kept for the surfaces; [sv_media_accepts] is whether [_media] has
    the column [accepts]. *)
Record Surface : Type := mkSurface {
  sv_projection : option (gmap string PointRow);
  sv_modulations : option (gmap string ModRow);
  sv_pages : option (gmap string PageRow);
  sv_comments : option (gmap string CommentRow);
  sv_apps : option (gmap string AppTableRow);
  sv_media_accepts : bool;
  sv_chat : ChatTables;
  sv_outbox : option (list OutboxRow);
  sv_results : option (gmap (string * Z) string)
}.

Definition no_chat : ChatTables := mkChatTables None false false None None false.
Definition no_surface : Surface := mkSurface None None None None None false no_chat None None.

Definition set_projection (t : gmap string PointRow) (s : Surface) : Surface :=
  mkSurface (Some t) (sv_modulations s) (sv_pages s) (sv_comments s) (sv_apps s) (sv_media_accepts s) (sv_chat s) (sv_outbox s) (sv_results s).
Definition set_modulations (t : gmap string ModRow) (s : Surface) : Surface :=
  mkSurface (sv_projection s) (Some t) (sv_pages s) (sv_comments s) (sv_apps s) (sv_media_accepts s) (sv_chat s) (sv_outbox s) (sv_results s).
Definition set_pages (t : gmap string PageRow) (s : Surface) : Surface :=
  mkSurface (sv_projection s) (sv_modulations s) (Some t) (sv_comments s) (sv_apps s) (sv_media_accepts s) (sv_chat s) (sv_outbox s) (sv_results s).
Definition set_comments (t : gmap string CommentRow) (s : Surface) : Surface :=
  mkSurface (sv_projection s) (sv_modulations s) (sv_pages s) (Some t) (sv_apps s) (sv_media_accepts s) (sv_chat s) (sv_outbox s) (sv_results s).
Definition set_apps (t : gmap string AppTableRow) (s : Surface) : Surface :=
  mkSurface (sv_projection s) (sv_modulations s) (sv_pages s) (sv_comments s) (Some t) (sv_media_accepts s) (sv_chat s) (sv_outbox s) (sv_results s).
Definition set_media_accepts (b : bool) (s : Surface) : Surface :=
  mkSurface (sv_projection s) (sv_modulations s) (sv_pages s) (sv_comments s) (sv_apps s) b (sv_chat s) (sv_outbox s) (sv_results s).
Definition set_chat (t : ChatTables) (s : Surface) : Surface :=
  mkSurface (sv_projection s) (sv_modulations s) (sv_pages s) (sv_comments s) (sv_apps s) (sv_media_accepts s) t (sv_outbox s) (sv_results s).
Definition set_outbox (t : list OutboxRow) (s : Surface) : Surface :=
  mkSurface (sv_projection s) (sv_modulations s) (sv_pages s) (sv_comments s) (sv_apps s) (sv_media_accepts s) (sv_chat s) (Some t) (sv_results s).
Definition set_results (t : gmap (string * Z) string) (s : Surface) : Surface :=
  mkSurface (sv_projection s) (sv_modulations s) (sv_pages s) (sv_comments s) (sv_apps s) (sv_media_accepts s) (sv_chat s) (sv_outbox s) (Some t).

Record NodeDb (D : Type) : Type := mkNodeDb {
  nd_auth : Db;
  nd_audit : option (list AuditRow);
  nd_applied : option (gmap string AppliedRow);
  nd_knock : option (gmap string KnockRow);
  nd_media : option (gmap string MediaRow);
  nd_surface : Surface;
  nd_user : D
}.
Arguments mkNodeDb {D}.
Arguments nd_auth {D}.
Arguments nd_audit {D}.
Arguments nd_applied {D}.
Arguments nd_knock {D}.
Arguments nd_media {D}.
Arguments nd_surface {D}.
Arguments nd_user {D}.

(** ** The connection *)

(** [n_saved] is the database before the open transaction, if one is open;
    [n_instant] are the readings of the monotonic clock, in nanoseconds, and
    [n_reads] how many were taken; [n_counts] is what [changes] and
    [last_insert_rowid] give. *)
Record NConn (D : Type) : Type := mkNConn {
  n_db : NodeDb D;
  n_saved : option (NodeDb D);
  n_faults : list (option SqlError);
  n_secs : Z;
  n_f64 : f64;
  n_ulids : list string;
  n_instant : nat -> Z;
  n_reads : nat;
  n_counts : Z * Z
}.
Arguments mkNConn {D}.
Arguments n_db {D}.
Arguments n_saved {D}.
Arguments n_faults {D}.
Arguments n_secs {D}.
Arguments n_f64 {D}.
Arguments n_ulids {D}.
Arguments n_instant {D}.
Arguments n_reads {D}.
Arguments n_counts {D}.

Section conn.
Context {D : Type}.
Implicit Types (d : NodeDb D) (c : NConn D).

Definition set_auth (t : Db) d : NodeDb D :=
  mkNodeDb t (nd_audit d) (nd_applied d) (nd_knock d) (nd_media d) (nd_surface d) (nd_user d).
Definition set_audit (t : list AuditRow) d : NodeDb D :=
  mkNodeDb (nd_auth d) (Some t) (nd_applied d) (nd_knock d) (nd_media d) (nd_surface d) (nd_user d).
Definition set_applied (t : gmap string AppliedRow) d : NodeDb D :=
  mkNodeDb (nd_auth d) (nd_audit d) (Some t) (nd_knock d) (nd_media d) (nd_surface d) (nd_user d).
Definition set_media (t : gmap string MediaRow) d : NodeDb D :=
  mkNodeDb (nd_auth d) (nd_audit d) (nd_applied d) (nd_knock d) (Some t) (nd_surface d) (nd_user d).
Definition set_knock (t : gmap string KnockRow) d : NodeDb D :=
  mkNodeDb (nd_auth d) (nd_audit d) (nd_applied d) (Some t) (nd_media d) (nd_surface d) (nd_user d).
Definition set_surface (t : Surface) d : NodeDb D :=
  mkNodeDb (nd_auth d) (nd_audit d) (nd_applied d) (nd_knock d) (nd_media d) t (nd_user d).

Definition set_db (d : NodeDb D) c : NConn D :=
  mkNConn d (n_saved c) (n_faults c) (n_secs c) (n_f64 c) (n_ulids c) (n_instant c) (n_reads c) (n_counts c).
Definition set_saved (s : option (NodeDb D)) c : NConn D :=
  mkNConn (n_db c) s (n_faults c) (n_secs c) (n_f64 c) (n_ulids c) (n_instant c) (n_reads c) (n_counts c).
Definition set_faults (fs : list (option SqlError)) c : NConn D :=
  mkNConn (n_db c) (n_saved c) fs (n_secs c) (n_f64 c) (n_ulids c) (n_instant c) (n_reads c) (n_counts c).
Definition set_counts (k : Z * Z) c : NConn D :=
  mkNConn (n_db c) (n_saved c) (n_faults c) (n_secs c) (n_f64 c) (n_ulids c) (n_instant c) (n_reads c) k.

(** Code over the connection that may stop with an error of SQLite. *)
Definition NM (E A : Type) : Type := NConn D -> result E A * NConn D.

(** A statement, or a call into SQLite. *)
Definition nsql {A} (f : NodeDb D -> result SqlError (A * NodeDb D)) : NM SqlError A := fun c =>
  match n_faults c with
  | Some e :: fs => (Err e, set_faults fs c)
  | fs => match f (n_db c) with
          | Ok (a, d) => (Ok a, set_db d (set_faults (tail fs) c))
          | Err e => (Err e, set_faults (tail fs) c)
          end
  end.

Definition nquery {A} (f : NodeDb D -> result SqlError A) : NM SqlError A :=
  nsql (fun d => rmap (fun a => (a, d)) (f d)).

(** A call that does not look at the database. *)
Definition ncall : NM SqlError unit := nquery (fun _ => Ok tt).

Definition sql_failure (text : string) : SqlError := mkSqlError OtherError text.

(** A table of the node that must exist. *)
Definition nneed {A} (name : string) (t : option A) : result SqlError A :=
  ok_or (sql_failure ("no such table: " +:+ name)) t.

(** [Instant::now()]. *)
Definition instant_now c : Z * NConn D :=
  (n_instant c (n_reads c),
   mkNConn (n_db c) (n_saved c) (n_faults c) (n_secs c) (n_f64 c) (n_ulids c) (n_instant c) (S (n_reads c)) (n_counts c)).

(** [Instant::elapsed().as_millis()], which is never negative. *)
Definition elapsed_ms (start : Z) c : Z * NConn D :=
  let '(now, c) := instant_now c in (Z.max 0 (now - start) / 1000000, c).

(** [datetime('now')]. *)
Definition sql_now c : string :=
  let t := rfc3339 (n_secs c) in String.substring 0 10 t +:+ " " +:+ String.substring 11 8 t.

Definition draw_node_ulid c : string * NConn D :=
  (hd EmptyString (n_ulids c),
   mkNConn (n_db c) (n_saved c) (n_faults c) (n_secs c) (n_f64 c) (tail (n_ulids c)) (n_instant c) (n_reads c) (n_counts c)).

(** Code of the authenticator runs over the same connection: it sees its
    tables, and the statements it runs take their outcomes from the same
    list. *)
Definition auth_conn c : Conn :=
  mkConn (nd_auth (n_db c)) (map (fmap se_text) (n_faults c)) (n_secs c) (n_f64 c) (n_ulids c).

Definition on_auth {A} (f : Conn -> A * Conn) c : A * NConn D :=
  let '(a, c1) := f (auth_conn c) in
  (a, mkNConn (set_auth (db c1) (n_db c)) (n_saved c)
        (drop (length (n_faults c) - length (faults c1)) (n_faults c))
        (now_secs c1) (now_f64 c1) (ulids c1) (n_instant c) (n_reads c) (n_counts c)).

(** ** Transactions *)

Definition begin_transaction : NM SqlError unit := fun c =>
  match n_saved c with
  | Some _ => (Err (sql_failure "cannot start a transaction within a transaction"), c)
  | None => match ncall c with
            | (Ok _, c) => (Ok tt, set_saved (Some (n_db c)) c)
            | (Err e, c) => (Err e, c)
            end
  end.

Definition commit : NM SqlError unit := fun c =>
  match n_saved c with
  | None => (Err (sql_failure "cannot commit - no transaction is active"), c)
  | Some _ => match ncall c with
              | (Ok _, c) => (Ok tt, set_saved None c)
              | (Err e, c) => (Err e, c)
              end
  end.

(** Dropping a transaction that was not committed rolls it back. *)
Definition drop_transaction c : NConn D :=
  match n_saved c with
  | Some d => set_saved None (set_db d c)
  | None => c
  end.

(** ** [ddl.rs] *)

Definition get_rsntr_row (key : string) d : result SqlError string :=
  let? t := nneed "_rsntr" (db_rsntr (nd_auth d)) in
  let? cell := ok_or (sql_failure "Query returned no rows") (t !! key) in
  map_err sql_failure (get_string cell).

Definition get_rsntr (key : string) c : option string * NConn D :=
  match nquery (get_rsntr_row key) c with
  | (Ok v, c) => (Some v, c)
  | (Err _, c) => (None, c)
  end.

(** ** [audit.rs] *)

(** SQLite's choice of a row id when the greatest one is taken. *)
Class RowIds : Type := { random_id : gset Z -> option Z }.
Context `{HR : !RowIds}.

Definition next_id (ids : list Z) : option Z :=
  match ids with
  | [] => Some 1
  | id :: ids' => let top := foldr Z.max id ids' in
                  if top <? I64_MAX then Some (top + 1) else random_id (list_to_set ids)
  end.

Record AuditEntry : Type := mkAuditEntry {
  ae_direction : string;
  ae_peer : string;
  ae_id : string;
  ae_signal : string;
  ae_footprint : string;
  ae_decision : string;
  ae_decided_by : string;
  ae_reason : option string;
  ae_duration : Z
}.

Definition audit_row (id : Z) (at_ : string) (e : AuditEntry) : AuditRow :=
  mkAuditRow id at_ (ae_direction e) (ae_peer e) (ae_id e) (ae_signal e) (ae_footprint e) (ae_decision e)
    (ae_decided_by e) (ae_reason e) None None (as_i64 (ae_duration e)).

Definition insert_audit (at_ : string) (e : AuditEntry) d : result SqlError (Z * NodeDb D) :=
  let? rows := nneed "_audit" (nd_audit d) in
  let? id := ok_or (sql_failure "database or disk is full") (next_id (map au_id rows)) in
  Ok (id, set_audit (rows ++ [audit_row id at_ e]) d).

(** The row id, or 0 when the row could not be appended. *)
Definition audit_full_dir (e : AuditEntry) c : Z * NConn D :=
  match nsql (insert_audit (rfc3339 (n_secs c)) e) c with
  | (Ok id, c) => (id, set_counts (1, id) c)
  | (Err _, c) => (0, c)
  end.

Definition audit_full (peer id signal footprint_json decision decided_by : string) (reason : option string)
    (duration_ms : Z) : NConn D -> Z * NConn D :=
  audit_full_dir (mkAuditEntry "in" peer id signal footprint_json decision decided_by reason duration_ms).

Definition audit_direct_dir (direction peer id signal decision decided_by reason : string) c : NConn D :=
  snd (audit_full_dir (mkAuditEntry direction peer id signal "{}" decision decided_by (Some reason) 0) c).

Definition audit_direct (peer id signal decision decided_by reason : string) : NConn D -> NConn D :=
  audit_direct_dir "in" peer id signal decision decided_by reason.

Definition set_outcome (audit_id rows_out bytes_out : Z) (r : AuditRow) : AuditRow :=
  if au_id r =? audit_id then
    mkAuditRow (au_id r) (au_at r) (au_direction r) (au_peer r) (au_request_id r) (au_signal r) (au_footprint r)
      (au_decision r) (au_decided_by r) (au_reason r) (Some rows_out) (Some bytes_out) (au_duration_ms r)
  else r.

Definition audit_outcome (audit_id rows_out bytes_out : Z) c : NConn D :=
  if audit_id =? 0 then c
  else snd (nsql (fun d => let? rows := nneed "_audit" (nd_audit d) in
                           Ok (tt, set_audit (map (set_outcome audit_id rows_out bytes_out) rows) d)) c).

(** ** [peer_known] of [pipeline.rs] *)

Definition peer_row (peer : string) d : result SqlError bool :=
  let? t := nneed "_peers" (db_peers (nd_auth d)) in
  Ok (bool_decide (is_Some (t !! peer))).

Definition peer_known (peer : string) c : bool * NConn D :=
  match get_rsntr "endpoint_id" c with
  | (own, c) =>
      if bool_decide (own = Some peer) then (true, c)
      else match nquery (peer_row peer) c with
           | (Ok b, c) => (b, c)
           | (Err _, c) => (false, c)
           end
  end.

End conn.
Arguments RowIds : clear implicits.
