(* ===== verification/NodeSql.v ===== *)
(** * NodeSql: what the node asks of SQLite

    The interface to the engine: preparing a statement, its columns, binding
    and stepping it. What a statement does to the database is the engine's;
    what the node does around it (transactions, the authorizer, the progress
    handler that stops a statement) is in the files that follow. *)

From S2P Require Import Prelude RustStd Value Authorizer NodeDb.

Open Scope Z_scope.

(** A column of a row ([ValueRef]); text is any byte string, a float its 64
    bits. *)
Inductive CellRef : Type :=
| RNull
| RInteger (i : Z)
| RReal (bits : Z)
| RText (t : string)
| RBlob (b : list Byte.byte).

(** A statement of the owner may end the transaction it runs in. *)
Inductive TxEffect : Type := TxKept | TxCommitted | TxRolledBack.

(** One step: its answer (a row, or that there are no more), the statement
    after it, the database and the transaction. *)
Record Step (D S : Type) : Type := mkStep {
  sp_answer : result SqlError (option (list CellRef));
  sp_stmt : S;
  sp_db : NodeDb D;
  sp_tx : TxEffect
}.
Arguments mkStep {D S}.
Arguments sp_answer {D S}.
Arguments sp_stmt {D S}.
Arguments sp_db {D S}.
Arguments sp_tx {D S}.

(** [sq_step] also gives how often the progress handler is called before the
    answer; [None] is a step that does not end by itself. [sq_finish] is what
    [changes] and [last_insert_rowid] give once the statement is reset, from
    what they gave before. *)
Class Sqlite (D : Type) : Type := {
  Stmt : Type;
  sq_prepare : NodeDb D -> string -> Prep Stmt;
  sq_columns : Stmt -> list (string * option string);
  sq_bind : list Value -> Stmt -> result SqlError Stmt;
  sq_step : NodeDb D -> Stmt -> option nat * Step D Stmt;
  sq_finish : Stmt -> Z * Z -> Z * Z
}.

Section sql.
Context {D : Type} `{HQ : !Sqlite D}.

Definition interrupted : SqlError := mkSqlError OperationInterrupted "interrupted".

(** What a step leaves on the connection. *)
Definition apply_step (s : Step D Stmt) (c : NConn D) : NConn D :=
  match sp_tx s with
  | TxKept => set_db (sp_db s) c
  | TxCommitted => set_saved None (set_db (sp_db s) c)
  | TxRolledBack => drop_transaction c
  end.

(** [tx.prepare] under an authorizer. *)
Definition prepare_under {S} (cb : AuthAction -> S -> bool * S) (sql : string) (s : S) (c : NConn D) :
    result SqlError Stmt * S :=
  prepare_with cb (sq_prepare (n_db c) sql) s.

End sql.
