(* ===== verification/NodeGate.v ===== *)
(** * NodeGate: which requests are cleared to run

    Models the first job of [crates/node/src/pipeline.rs]: the peer gate, the
    collect-mode prepare, the reserved table, the chain, and the ledger row
    each outcome leaves; for statements of peers, of the owner and of mods,
    for media sources and for mod invocations. *)

From S2P Require Import Prelude RustStd External Instances Value Envelope Request AuthTypes Chain.
From S2P Require Import Authorizer NodeDb NodeSql.

Open Scope Z_scope.

(** [Footprint::to_json] ([serde_json]) and [Debug] of a string. *)
Class NodeText : Type := {
  footprint_to_json : Footprint -> string;
  debug_str : string -> string
}.

Inductive Verdict : Type :=
| UnknownPeer
| Banned (reason : string)
| PrepareFailed (message : string)
| VDenied (reason : string)
| Cleared (approved : Approved) (exec_sql : string) (audit_id : Z).

Section gate.
Context {D : Type} `{HQ : !Sqlite D} `{HR : !RowIds} `{HT : !NodeText} `{HJ : !ChainJson} `{HU : !UlidLib}.

(** [(banned_reason, footprint_json, message)]. *)
Definition ScreenErr : Type := option string * string * string.

Definition collect_footprint (sql : string) (allowlist : list string) (lane : Lane) : NM (D:=D) ScreenErr Footprint :=
  fun conn =>
    match ncall conn with
    | (Err e, conn) => (Err (None, "{}", "installing authorizer failed: " +:+ se_text e), conn)
    | (Ok _, conn) =>
        let '(prep, st) := prepare_under (collect_authorizer allowlist lane) sql CollectState_default conn in
        let footprint := CollectState_finish st in
        (match prep, cs_denied st with
         | Ok _, None => Ok footprint
         | _, Some reason => Err (Some reason, footprint_to_json footprint, reason)
         | Err e, None => Err (None, footprint_to_json footprint, "prepare failed: " +:+ se_text e)
         end, conn)
    end.

Definition not_decided : string := "authenticator chain did not decide".

(** The audited form of a decision. *)
Definition decision_str (d : Decision) : string * option string :=
  match d with
  | Allow => ("allow", None)
  | AllowNarrowed _ => ("allow_narrowed", None)
  | Deny reason => ("deny", Some reason)
  | Escalate => ("deny", Some not_decided)
  end.

(** [chain.decide], timed. *)
Definition timed_decide (chain : Chain) (peer action : string) (footprint : Footprint) (statement : string)
    (conn : NConn D) : Decided * Z * NConn D :=
  let '(start, conn) := instant_now conn in
  let '(decided, conn) := on_auth (fun conn => decide chain conn peer action footprint statement) conn in
  let '(duration, conn) := elapsed_ms start conn in
  (decided, duration, conn).

(** The chain's decision on a statement, and its row in the ledger. *)
Definition decide_audited (chain : Chain) (peer id sql : string) (footprint : Footprint) (conn : NConn D) :
    Decision * Z * NConn D :=
  let action := default_action (kind footprint) in
  let '(decided, duration, conn) := timed_decide chain peer action footprint sql conn in
  let '(decision, reason) := decision_str (dc_decision decided) in
  let '(audit_id, conn) := audit_full peer id sql (footprint_to_json footprint) decision (dc_decided_by decided)
                             reason duration conn in
  (dc_decision decided, audit_id, conn).

(** What follows the decision: the footprint to run under, or a refusal. *)
Definition cleared_or (decision : Decision) (sql : string) (footprint : Footprint) (allowlist : list string)
    (audit_id : Z) (conn : NConn D) : Verdict * NConn D :=
  match decision with
  | Allow => (Cleared (mkApproved footprint Remote) sql audit_id, conn)
  | AllowNarrowed rewrite =>
      match collect_footprint rewrite allowlist Remote conn with
      | (Ok new_fp, conn) => (Cleared (mkApproved new_fp Remote) rewrite audit_id, conn)
      | (Err (_, _, message), conn) => (PrepareFailed ("narrowed rewrite failed to prepare: " +:+ message), conn)
      end
  | Deny reason => (VDenied reason, conn)
  | Escalate => (VDenied not_decided, conn)
  end.

Definition reserved_reason : string :=
  "direct writes to _modulations are not allowed;              install mods via the mod-install modulation".

Definition reserved_write (footprint : Footprint) : bool :=
  negb (bool_decide (kind footprint = Read)) && bool_decide (is_Some (tables footprint !! "_modulations")).

Definition screen_request (peer : string) (req : Request) (chain : Chain) (allowlist : list string)
    (conn : NConn D) : Verdict * NConn D :=
  let id := id_string req in
  let signal := rq_signal req in
  let '(known, conn) := peer_known peer conn in
  if negb known then (UnknownPeer, audit_direct peer id signal "deny" "peer-gate" "unknown peer" conn)
  else match collect_footprint signal allowlist Remote conn with
  | (Err (Some reason, fp_json, _), conn) =>
      (Banned reason, snd (audit_full peer id signal fp_json "deny" "node" (Some reason) 0 conn))
  | (Err (None, fp_json, message), conn) =>
      (PrepareFailed message, snd (audit_full peer id signal fp_json "deny" "node" (Some message) 0 conn))
  | (Ok footprint, conn) =>
      if reserved_write footprint then
        (Banned reserved_reason, snd (audit_full peer id signal "{}" "deny" "node" (Some reserved_reason) 0 conn))
      else
        let '(decision, audit_id, conn) := decide_audited chain peer id signal footprint conn in
        cleared_or decision signal footprint allowlist audit_id conn
  end.

Definition screen_owner_request (peer : string) (req : Request) (allowlist : list string) (conn : NConn D) :
    Verdict * NConn D :=
  let id := id_string req in
  let signal := rq_signal req in
  let '(start, conn) := instant_now conn in
  match collect_footprint signal allowlist Owner conn with
  | (Err (banned, fp_json, message), conn) =>
      let '(duration, conn) := elapsed_ms start conn in
      let conn := snd (audit_full_dir (mkAuditEntry "local" peer id signal fp_json "deny" "owner" (Some message)
                                         duration) conn) in
      (match banned with Some reason => Banned reason | None => PrepareFailed message end, conn)
  | (Ok footprint, conn) =>
      let '(duration, conn) := elapsed_ms start conn in
      let '(audit_id, conn) := audit_full_dir (mkAuditEntry "local" peer id signal (footprint_to_json footprint)
                                                 "allow" "owner" None duration) conn in
      (Cleared (mkApproved footprint Owner) signal audit_id, conn)
  end.

(** ** Statements of mods *)

Definition read_only_reason : string := "db_query is read-only; use db_execute (cap db_write) for writes".

(** [run_mod_statement] up to the execution: what the statement may run as,
    or why it may not ([true]: the chain or a ban refused; [false]: an engine
    error). *)
Definition gate_mod_statement (peer request_id : string) (chain : Chain) (allowlist : list string) (sql : string)
    (write_allowed : bool) (conn : NConn D) : Verdict * NConn D :=
  match collect_footprint sql allowlist Remote conn with
  | (Err (banned, fp_json, message), conn) =>
      (match banned with Some reason => Banned reason | None => PrepareFailed message end,
       snd (audit_full peer request_id sql fp_json "deny" "node" (Some message) 0 conn))
  | (Ok footprint, conn) =>
      if negb (bool_decide (kind footprint = Read)) && negb write_allowed then
        (Banned read_only_reason,
         snd (audit_full peer request_id sql (footprint_to_json footprint) "deny" "node" (Some read_only_reason) 0 conn))
      else
        let '(decision, audit_id, conn) := decide_audited chain peer request_id sql footprint conn in
        cleared_or decision sql footprint allowlist audit_id conn
  end.

(** ** Media sources *)

Inductive MediaVerdict : Type :=
| MediaUnknownPeer
| MediaDenied (reason : string)
| UnknownSource
| MediaAllowed (command content_type : string) (accepts : option string).

Definition policy_row_matches (peer name action effect : string) (r : PolicyRow) : bool :=
  cell_is (po_action r) action && cell_is (po_effect r) effect &&
  (cell_is (po_peer r) peer || cell_is (po_peer r) "*") && (cell_is (po_table r) name || cell_is (po_table r) "*").

Definition source_policy_match (peer name action effect : string) (conn : NConn D) : bool * NConn D :=
  match nquery (fun d => let? rows := nneed "_policy" (db_policy (nd_auth d)) in
                         Ok (existsb (policy_row_matches peer name action effect) rows)) conn with
  | (Ok b, conn) => (b, conn)
  | (Err _, conn) => (false, conn)
  end.

(** [Ok None]: no such source; [Err]: a column that does not read. *)
Definition media_source (name : string) (d : NodeDb D) : result SqlError (option (string * string * option string)) :=
  let? t := nneed "_media" (nd_media d) in
  let? _ := (if sv_media_accepts (nd_surface d) then Ok tt else Err (sql_failure "no such column: accepts")) in
  match t !! name with
  | None => Ok None
  | Some r =>
      map_err sql_failure
        (let? command := get_string (me_command r) in
         let? content_type := get_string (me_content_type r) in
         let? accepts := get_opt_string (me_accepts r) in
         Ok (Some (command, content_type, accepts)))
  end.

Definition screen_source (peer id name action : string) (conn : NConn D) : MediaVerdict * NConn D :=
  let signal := action +:+ " " +:+ name in
  let '(known, conn) := peer_known peer conn in
  if negb known then (MediaUnknownPeer, audit_direct peer id signal "deny" "peer-gate" "unknown peer" conn)
  else
    let '(denied, conn) := source_policy_match peer name action "deny" conn in
    if denied then
      let reason := action +:+ " source " +:+ debug_str name +:+ " is denied by policy" in
      (MediaDenied reason, audit_direct peer id signal "deny" "policy" reason conn)
    else
      let '(allowed, conn) := source_policy_match peer name action "allow" conn in
      if negb allowed then
        let reason := "no policy allows you the " +:+ action +:+ " source " +:+ debug_str name in
        (MediaDenied reason, audit_direct peer id signal "deny" "policy" reason conn)
      else
        let '(row, conn) := nquery (media_source name) conn in
        match row with
        | Ok (Some (command, content_type, accepts)) =>
            (MediaAllowed command content_type accepts,
             audit_direct peer id signal "allow" "policy" "feed opened" conn)
        | _ => (UnknownSource, audit_direct peer id signal "deny" "node" "unknown media source" conn)
        end.

(** ** Mod invocations *)

Inductive ModVerdict : Type :=
| ModUnknownPeer
| ModDenied (reason : string)
| ModAllowed.

Definition gate_mod_request (peer id mod_name : string) (chain : Chain) (signal : string) (conn : NConn D) :
    ModVerdict * NConn D :=
  let '(known, conn) := peer_known peer conn in
  if negb known then (ModUnknownPeer, audit_direct peer id signal "deny" "peer-gate" "unknown peer" conn)
  else
    let '(decided, duration, conn) := timed_decide chain peer ("mod:" +:+ mod_name) Footprint_default signal conn in
    let audit decision by_ reason conn := snd (audit_full peer id signal "{}" decision by_ (Some reason) duration conn) in
    match dc_decision decided with
    | Allow | AllowNarrowed _ =>
        (ModAllowed, audit "allow" (dc_decided_by decided) ("mod " +:+ mod_name +:+ " invoked") conn)
    | Deny reason => (ModDenied reason, audit "deny" (dc_decided_by decided) reason conn)
    | Escalate => (ModDenied not_decided, audit "deny" "node" not_decided conn)
    end.

End gate.
