(* ===== verification/NodeDemo.v ===== *)
(** * NodeDemo: a small engine to try the node on

    One table, [notes], with a text column, and four statements; enough to
    evaluate the node's definitions on concrete requests. *)

From S2P Require Import Prelude RustStd External Instances Value Envelope Request AuthTypes Chain.
From S2P Require Import Authorizer NodeDb NodeSql NodeGate.

Open Scope Z_scope.

Inductive NoteStmt : Type :=
| NSelect (at_row : nat)
| NInsert (body : option string) (done : option Z)
| NEnable
| NLoop.

Definition select_notes : string := "SELECT body FROM notes".
Definition insert_note : string := "INSERT INTO notes VALUES (?1)".
Definition enable_mod : string := "UPDATE _modulations SET enabled = 1".
Definition loop_forever : string := "SELECT count(*) FROM forever".

Definition note_ask (a : AuthAction) (p : Prep NoteStmt) : Prep NoteStmt :=
  Authorize a (fun b : bool => if b then p else Prepared (Err (mkSqlError OtherError "not authorized"))).

Definition note_prepare (sql : string) : Prep NoteStmt :=
  if bool_decide (sql = select_notes) then note_ask ASelect (note_ask (ARead "notes" "body") (Prepared (Ok (NSelect 0))))
  else if bool_decide (sql = insert_note) then note_ask (AInsert "notes") (Prepared (Ok (NInsert None None)))
  else if bool_decide (sql = enable_mod) then note_ask (AUpdate "_modulations" "enabled") (Prepared (Ok NEnable))
  else if bool_decide (sql = loop_forever) then note_ask ASelect (Prepared (Ok NLoop))
  else Prepared (Err (mkSqlError OtherError "syntax error")).

Definition set_user (notes : list string) (d : NodeDb (list string)) : NodeDb (list string) :=
  mkNodeDb (nd_auth d) (nd_audit d) (nd_applied d) (nd_knock d) (nd_media d) (nd_surface d) notes.

Definition note_step (d : NodeDb (list string)) (s : NoteStmt) : option nat * Step (list string) NoteStmt :=
  let ends s d := (Some 1%nat, mkStep (Ok None) s d TxKept) in
  match s with
  | NSelect n => match nd_user d !! n with
                 | Some body => (Some 1%nat, mkStep (Ok (Some [RText body])) (NSelect (S n)) d TxKept)
                 | None => ends s d
                 end
  | NInsert (Some body) None =>
      let notes := nd_user d ++ [body] in ends (NInsert (Some body) (Some (Z.of_nat (length notes)))) (set_user notes d)
  | NLoop => (None, mkStep (Ok None) NLoop d TxKept)
  | _ => ends s d
  end.

Definition note_sqlite : Sqlite (list string) := {|
  Stmt := NoteStmt;
  sq_prepare := fun _ => note_prepare;
  sq_columns := fun s => match s with
                         | NSelect _ => [("body", Some "TEXT")]
                         | NLoop => [("count(*)", None)]
                         | _ => []
                         end;
  sq_bind := fun params s => match s, params with
                             | NInsert None None, [Text body] => Ok (NInsert (Some body) None)
                             | NInsert _ _, _ => Err (mkSqlError OtherError "wrong number of parameters")
                             | _, _ => Ok s
                             end;
  sq_step := note_step;
  sq_finish := fun s counts => match s with NInsert _ (Some id) => (1, id) | _ => counts end
|}.

Definition low_ids : RowIds := {| random_id := fun _ => None |}.

Definition plain_text : NodeText := {|
  footprint_to_json := fun _ => "{}";
  debug_str := fun s => dq +:+ s +:+ dq
|}.

(** A chain of one tier that allows everything. *)
Definition open_json : ChainJson := {|
  json_names := fun _ => Ok ["open"];
  json_masks := fun _ => Ok ∅
|}.
Definition open_chain : Chain := register ∅ (mkTier "open" (fun c _ _ _ _ => (Some Allow, c))).

Definition demo_auth : Db := mkDb (Some {["auth_chain" := SText "[open]"]}) (Some []) None (Some []) (Some {["alice" := new_peer "2026-01-01" None]}) None.

Definition demo_db (notes : list string) : NodeDb (list string) :=
  mkNodeDb demo_auth (Some []) (Some ∅) (Some ∅) (Some ∅) (set_media_accepts true (set_projection ∅ no_surface)) notes.

(** The clock advances one millisecond with each reading. *)
Definition demo_conn (notes : list string) : NConn (list string) :=
  mkNConn (demo_db notes) None [] 0 (S754_zero false) [] (fun n => 1000000 * Z.of_nat n) 0 (0, 0).

Definition demo_request (kind : RequestKind) (signal : string) (params : list Value) : Request :=
  mkRequest (repeat Byte.x00 16) kind "sql-sqlite" signal params None RequestOptions_default.
