(* ===== verification/NodeGateProps.v ===== *)
(** * NodeGateProps: what clears a request, and what the ledger says of it *)

From S2P Require Import Prelude RustStd External Instances Value Envelope Request AuthTypes Chain CivilDate Authorizer NodeDb NodeSql.
From S2P Require Import NodeGate NodeDemo.

Open Scope Z_scope.

(** ** Statements on the connection *)

Section conn.
Context {D : Type}.
Implicit Types (c : NConn D) (d : NodeDb D).

(** No statement fails for reasons of its own. *)
Definition n_healthy c : Prop := Forall (fun f => f = None) (n_faults c).

(** Nothing happened but the passing of time and of statements. *)
Definition quiet c c' : Prop :=
  n_db c' = n_db c /\ n_saved c' = n_saved c /\ (n_healthy c -> n_healthy c').

#[export] Instance quiet_preorder : PreOrder quiet.
Proof. split; unfold quiet, Reflexive, Transitive; naive_solver congruence. Qed.

Lemma nsql_cases {A} (f : NodeDb D -> result SqlError (A * NodeDb D)) c r c' :
  nsql f c = (r, c') ->
  (exists e, r = Err e /\ quiet c c' /\ (n_healthy c -> f (n_db c) = Err e)) \/
  (exists a d, r = Ok a /\ f (n_db c) = Ok (a, d) /\ n_db c' = d /\ n_saved c' = n_saved c /\
               (n_healthy c -> n_healthy c')).
Proof.
  unfold nsql, quiet, n_healthy. destruct c as [d s fs ? ? ? ? ? ?]; cbn. destruct fs as [|[e|] fs]; cbn.
  - destruct (f d) as [[a d']|e]; intros [= <- <-]; cbn; [right; eauto 10|left; eauto 10].
  - intros [= <- <-]. left. exists e. cbn. split_and!; try done; intros H; by inversion H.
  - destruct (f d) as [[a d']|e]; intros [= <- <-]; cbn; [right; exists a, d'|left; exists e];
      split_and!; try done; intros H; by inversion H.
Qed.

Lemma nquery_cases {A} (f : NodeDb D -> result SqlError A) c r c' :
  nquery f c = (r, c') -> quiet c c' /\ (n_healthy c -> r = f (n_db c)) /\ (forall a, r = Ok a -> f (n_db c) = Ok a).
Proof.
  intros H. apply nsql_cases in H as [(e & -> & Hq & Hf)|(a & d & -> & Hf & Hd & Hs & Hh)].
  - split_and!; [done| |done]. intros Hc. specialize (Hf Hc). by destruct (f (n_db c)); simplify_eq/=.
  - destruct (f (n_db c)) eqn:E; simplify_eq/=. split_and!; [by split_and!|done|naive_solver].
Qed.

Lemma instant_quiet c t c' : instant_now c = (t, c') -> quiet c c'.
Proof. by intros [= <- <-]. Qed.

Lemma elapsed_quiet start c t c' : elapsed_ms start c = (t, c') -> quiet c c'.
Proof. unfold elapsed_ms. destruct (instant_now c) as [now c1] eqn:E. intros [= <- <-]. by eapply instant_quiet. Qed.

Lemma on_auth_cases {A} (f : Conn -> A * Conn) c a c' :
  on_auth f c = (a, c') ->
  a = fst (f (auth_conn c)) /\ n_db c' = set_auth (db (snd (f (auth_conn c)))) (n_db c) /\
  n_saved c' = n_saved c /\ (n_healthy c -> n_healthy c').
Proof.
  unfold on_auth. destruct (f (auth_conn c)) as [x c1]. intros [= <- <-]. cbn. split_and!; try done.
  unfold n_healthy. cbn. apply Forall_drop.
Qed.

Lemma healthy_auth c : n_healthy c -> healthy (auth_conn c).
Proof. unfold n_healthy, healthy. cbn. rewrite Forall_map. intros H. by eapply Forall_impl; [exact H|]; cbn; intros ? ->. Qed.

(** ** Reads and the ledger *)

(** The peers the node serves: its own endpoint, and those in [_peers]. *)
Definition known_peer d (peer : string) : bool :=
  match get_rsntr_row "endpoint_id" d with Ok own => bool_decide (own = peer) | Err _ => false end ||
  match peer_row peer d with Ok b => b | Err _ => false end.

Lemma peer_known_cases peer c b c' :
  peer_known peer c = (b, c') ->
  quiet c c' /\ (b = true -> known_peer (n_db c) peer = true) /\ (n_healthy c -> b = known_peer (n_db c) peer).
Proof.
  unfold peer_known, get_rsntr, known_peer.
  destruct (nquery (get_rsntr_row "endpoint_id") c) as [r c1] eqn:E1.
  apply nquery_cases in E1 as (Hq1 & Hh1 & Hok1).
  assert (Hown : match r with Ok v => Some v | Err _ => None end = Some peer ->
    match get_rsntr_row "endpoint_id" (n_db c) with Ok own => bool_decide (own = peer) | Err _ => false end = true).
  { destruct r as [v|]; [|done]. intros [= ->]. rewrite (Hok1 _ eq_refl). by apply bool_decide_eq_true. }
  replace (let '(v, c) := match r with Ok v => (Some v, c1) | Err _ => (None, c1) end in _)
    with (let own := match r with Ok v => Some v | Err _ => None end in
          if bool_decide (own = Some peer) then (true, c1)
          else match nquery (peer_row peer) c1 with (Ok b, c) => (b, c) | (Err _, c) => (false, c) end)
    by (by destruct r).
  cbv zeta. case_bool_decide as Hb.
  - intros [= <- <-]. split_and!; [done|intros _|intros _; symmetry]; by rewrite Hown.
  - destruct (nquery (peer_row peer) c1) as [r2 c2] eqn:E2. apply nquery_cases in E2 as (Hq2 & Hh2 & Hok2).
    destruct Hq1 as (Hd & Hs & Hh). rewrite Hd in *. intros Hr.
    assert (c2 = c') as -> by (by destruct r2; simplify_eq). split_and!.
    + by etrans; [|exact Hq2].
    + intros ->. destruct r2 as [x|]; simplify_eq/=. rewrite (Hok2 _ eq_refl). apply orb_true_r.
    + intros Hc. rewrite <-(Hh2 (Hh Hc)), <-(Hh1 Hc). destruct r2 as [x|], r as [v|]; simplify_eq/=; try done;
        rewrite bool_decide_false by congruence; done.
Qed.

Section ledger.
Context `{HR : !RowIds}.

(** The ledger has room for another row. *)
Definition can_audit d : Prop :=
  match nd_audit d with Some rows => is_Some (next_id (map au_id rows)) | None => False end.

(** One row was appended to the ledger, with this entry, and nothing else
    changed but what the tiers of the chain keep. *)
Definition audited (d d' : NodeDb D) (id : Z) (e : AuditEntry) : Prop :=
  exists rows at_ t, nd_audit d = Some rows /\
    d' = set_auth t (set_audit (rows ++ [audit_row id at_ e]) d).

Lemma audit_cases e c id c' :
  audit_full_dir e c = (id, c') ->
  n_saved c' = n_saved c /\ (n_healthy c -> n_healthy c') /\ nd_auth (n_db c') = nd_auth (n_db c) /\
  (n_healthy c -> can_audit (n_db c) -> audited (n_db c) (n_db c') id e).
Proof.
  unfold audit_full_dir. destruct (nsql (insert_audit (rfc3339 (n_secs c)) e) c) as [r c1] eqn:E.
  apply nsql_cases in E as [(er & -> & (Hd & Hs & Hh) & Hf)|(a & d & -> & Hf & Hd & Hs & Hh)].
  - intros [= <- <-]. split_and!; try done; [by rewrite Hd|]. intros Hc Hroom. specialize (Hf Hc).
    unfold insert_audit, can_audit in *. destruct (nd_audit (n_db c)) as [rows|]; [|done].
    destruct Hroom as [i Hi]. cbn in Hf. rewrite Hi in Hf. done.
  - intros [= <- <-]. cbn. unfold insert_audit in Hf. destruct (nd_audit (n_db c)) as [rows|] eqn:Er; [|done].
    cbn in Hf. destruct (next_id (map au_id rows)) as [i|]; [|done]. cbn in Hf. injection Hf as <- <-. split_and!; try done.
    + by rewrite Hd.
    + intros _ _. exists rows, (rfc3339 (n_secs c)), (nd_auth (n_db c)). split; [done|]. by rewrite Hd.
Qed.
End ledger.
End conn.

(** ** Screening *)

Section gate.
Context {D : Type} `{HQ : !Sqlite D} `{HR : !RowIds} `{HT : !NodeText} `{HJ : !ChainJson} `{HU : !UlidLib}.
Implicit Types (c : NConn D) (d : NodeDb D).

(** Preparing [sql] asks for nothing banned, and touches [fp]. *)
Definition collected d (sql : string) (al : list string) (lane : Lane) (fp : Footprint) : Prop :=
  exists stmt st, prepare_with (collect_authorizer al lane) (sq_prepare d sql) CollectState_default = (Ok stmt, st) /\
    cs_denied st = None /\ fp = CollectState_finish st.

Lemma collect_cases sql al lane c r c' :
  collect_footprint sql al lane c = (r, c') ->
  quiet c c' /\ (forall fp, r = Ok fp -> collected (n_db c) sql al lane fp) /\
  (n_healthy c -> forall fp, collected (n_db c) sql al lane fp -> r = Ok fp).
Proof.
  unfold collect_footprint. destruct (ncall c) as [r1 c1] eqn:E. apply nquery_cases in E as (Hq & Hh & _).
  destruct r1 as [[]|e].
  - unfold prepare_under. replace (n_db c1) with (n_db c) by (symmetry; apply Hq). unfold collected.
    destruct (prepare_with (collect_authorizer al lane) (sq_prepare (n_db c) sql) CollectState_default) as [prep st] eqn:Ep.
    intros [= <- <-]. split_and!; [done| |].
    + intros fp. destruct prep as [s|e], (cs_denied st) eqn:Hd; intros H; simplify_eq. by exists s, st.
    + intros _ fp (s & st' & [= -> ->] & Hd & ->). by rewrite Hd.
  - intros [= <- <-]. split_and!; [done..|]. intros Hc. by specialize (Hh Hc).
Qed.

(** The chain, asked about this statement over these tables, answers so. *)
Definition chain_says (chain : Chain) (peer : string) d (fp : Footprint) (sql : string) (decision : Decision) : Prop :=
  exists ac, db ac = nd_auth d /\
    dc_decision (fst (decide chain ac peer (default_action (kind fp)) fp sql)) = decision.

(** So on this connection, without a failure as long as no statement fails. *)
Definition chain_answers (chain : Chain) (peer : string) c (fp : Footprint) (sql : string) (decision : Decision) : Prop :=
  exists ac, db ac = nd_auth (n_db c) /\ (n_healthy c -> healthy ac) /\
    dc_decision (fst (decide chain ac peer (default_action (kind fp)) fp sql)) = decision.

Lemma answers_says chain peer c fp sql decision :
  chain_answers chain peer c fp sql decision -> chain_says chain peer (n_db c) fp sql decision.
Proof. intros (ac & Hd & _ & Hs). by exists ac. Qed.

Definition signed (e : AuditEntry) (peer id sql : string) (decision : string) (reason : option string) : Prop :=
  ae_direction e = "in" /\ ae_peer e = peer /\ ae_id e = id /\ ae_signal e = sql /\
  ae_decision e = decision /\ ae_reason e = reason.

Lemma decide_cases chain peer id sql fp c decision aid c' :
  decide_audited chain peer id sql fp c = (decision, aid, c') ->
  (exists ac, db ac = nd_auth (n_db c) /\ (n_healthy c -> healthy ac) /\
     dc_decision (fst (decide chain ac peer (default_action (kind fp)) fp sql)) = decision) /\
  (n_healthy c -> n_healthy c') /\
  (n_healthy c -> can_audit (n_db c) -> exists e, audited (n_db c) (n_db c') aid e /\
     signed e peer id sql (fst (decision_str decision)) (snd (decision_str decision))).
Proof.
  unfold decide_audited, timed_decide. destruct (instant_now c) as [start c0] eqn:E0.
  apply instant_quiet in E0 as (Hd0 & Hs0 & Hh0).
  destruct (on_auth _ c0) as [dc c1] eqn:E. apply on_auth_cases in E as (Hdc & Hd & Hs & Hh).
  destruct (elapsed_ms start c1) as [dur c2] eqn:E1. apply elapsed_quiet in E1 as (Hd1 & Hs1 & Hh1).
  destruct (decision_str (dc_decision dc)) as [ds rs] eqn:Eds.
  destruct (audit_full _ _ _ _ _ _ _ _ c2) as [a c3] eqn:E2. intros [= <- <- <-].
  apply audit_cases in E2 as (_ & Hh2 & _ & Hau). rewrite Hd1, Hd, Hd0 in Hau. split_and!.
  - exists (auth_conn c0). split; [cbn; by rewrite Hd0|]. split; [|by rewrite Hdc].
    intros Hc. apply healthy_auth. auto.
  - auto.
  - intros Hc Hroom. exists (mkAuditEntry "in" peer id sql (footprint_to_json fp) ds (dc_decided_by dc) rs dur).
    rewrite Eds. split; [|by unfold signed; split_and!].
    destruct (Hau ltac:(auto) Hroom) as (rows & at_ & t & Hr & Heq). exists rows, at_, t. by rewrite Heq.
Qed.

Lemma cleared_cases decision sql fp al aid c v c' :
  cleared_or decision sql fp al aid c = (v, c') ->
  quiet c c' /\
  match v with
  | Cleared ap sql' id => id = aid /\ ap_lane ap = Remote /\
      ((decision = Allow /\ sql' = sql /\ ap_footprint ap = fp) \/
       (decision = AllowNarrowed sql' /\ collected (n_db c) sql' al Remote (ap_footprint ap)))
  | VDenied reason => decision_str decision = ("deny", Some reason)
  | PrepareFailed _ => exists rewrite, decision = AllowNarrowed rewrite
  | _ => False
  end.
Proof.
  unfold cleared_or. destruct decision as [|rw|reason|].
  - intros [= <- <-]. split; [reflexivity|]. split_and!; try done. by left.
  - destruct (collect_footprint rw al Remote c) as [r c1] eqn:E. apply collect_cases in E as (Hq & Hok & _).
    destruct r as [fp'|[[b j] m]]; intros [= <- <-]; (split; [exact Hq|]); [|by eexists].
    split_and!; try done. right. split; [done|]. by apply Hok.
  - by intros [= <- <-].
  - by intros [= <- <-].
Qed.

(** What the first job of a request of a peer gives: when it clears a statement,
    the peer is known, and the chain was asked about exactly what preparing the
    request's statement touched. It allowed that, and the request's statement
    is to run with that footprint approved; or it gave a statement to run
    instead, which was collected in turn, and that one is to run with its own
    footprint approved. *)
Definition screened (peer : string) (req : Request) (chain : Chain) (al : list string) c (d' : NodeDb D) (v : Verdict) : Prop :=
  match v with
  | Cleared ap sql _ =>
      known_peer (n_db c) peer = true /\ ap_lane ap = Remote /\
      exists fp, collected (n_db c) (rq_signal req) al Remote fp /\ reserved_write fp = false /\
        ((chain_answers chain peer c fp (rq_signal req) Allow /\ sql = rq_signal req /\ ap_footprint ap = fp) \/
         (chain_answers chain peer c fp (rq_signal req) (AllowNarrowed sql) /\ collected d' sql al Remote (ap_footprint ap)))
  | _ => True
  end.

(** The ledger row of a verdict. *)
Definition ledgered (peer : string) (req : Request) (v : Verdict) (id : Z) (e : AuditEntry) : Prop :=
  let row := signed e peer (id_string req) (rq_signal req) in
  match v with
  | Cleared _ _ aid => aid = id /\ (row "allow" None \/ row "allow_narrowed" None)
  | UnknownPeer => row "deny" (Some "unknown peer")
  | Banned reason | VDenied reason => row "deny" (Some reason)
  | PrepareFailed message => row "deny" (Some message) \/ row "allow_narrowed" None
  end.

(** A verdict with its row, wherever the request was turned away or decided. *)
Definition gate_post (peer : string) (req : Request) (chain : Chain) (al : list string) c v c' : Prop :=
  screened peer req chain al c (n_db c') v /\
  (n_healthy c -> can_audit (n_db c) ->
   exists id e, audited (n_db c) (n_db c') id e /\ ledgered peer req v id e).

Lemma gate_refused peer req chain al v fp by_ reason c c1 c' :
  quiet c c1 ->
  c' = snd (audit_full peer (id_string req) (rq_signal req) fp "deny" by_ (Some reason) 0 c1) ->
  (forall id e, signed e peer (id_string req) (rq_signal req) "deny" (Some reason) -> ledgered peer req v id e) ->
  screened peer req chain al c (n_db c') v -> gate_post peer req chain al c v c'.
Proof.
  intros (Hd & _ & Hh) -> Hv Hs. split; [done|]. intros Hc Hroom.
  destruct (audit_full _ _ _ _ _ _ _ _ c1) as [id c2] eqn:E. apply audit_cases in E as (_ & _ & _ & Hau).
  rewrite Hd in Hau. eexists _, _. split; [by apply Hau; [apply Hh|]|]. by apply Hv.
Qed.

Lemma screen_request_post peer req chain al c v c' :
  screen_request peer req chain al c = (v, c') -> gate_post peer req chain al c v c'.
Proof.
  unfold screen_request. destruct (peer_known peer c) as [known c1] eqn:E1.
  apply peer_known_cases in E1 as (Hq1 & Hk & _). destruct known; cbn [negb].
  2: { intros [= <- <-]. by eapply gate_refused. }
  destruct (collect_footprint (rq_signal req) al Remote c1) as [r c2] eqn:E2.
  apply collect_cases in E2 as (Hq2 & Hok & _). assert (quiet c c2) as Hq by (by etrans).
  destruct r as [fp|[[[reason|] j] m]].
  2, 3: intros [= <- <-]; eapply gate_refused; [done..|by intros; cbn; auto|done].
  specialize (Hok _ eq_refl). replace (n_db c1) with (n_db c) in Hok by (symmetry; apply Hq1).
  destruct (reserved_write fp) eqn:Hres; [intros [= <- <-]; by eapply gate_refused|].
  destruct (decide_audited chain peer (id_string req) (rq_signal req) fp c2) as [[decision aid] c3] eqn:E3.
  apply decide_cases in E3 as ((ac & Hac & Hhac & Hdec) & Hh3 & Hau). destruct Hq as (Hd & _ & Hh). rewrite Hd in Hac, Hau.
  assert (chain_answers chain peer c fp (rq_signal req) decision) as Hsays by (exists ac; by auto). clear ac Hac Hhac Hdec.
  intros Hcl. apply cleared_cases in Hcl as ((Hd4 & _ & Hh4) & Hv). split.
  - destruct v as [| | | |ap sql id]; try done. destruct Hv as (_ & Hl & Hv). cbn. split_and!; [by apply Hk|done|].
    exists fp. split_and!; [done..|]. rewrite Hd4. destruct Hv as [(-> & -> & ?)|(-> & ?)]; [by left|by right].
  - intros Hc Hroom. destruct (Hau (Hh Hc) Hroom) as (e & Ha & He). exists aid, e. rewrite Hd4. split; [done|].
    destruct v as [| |m|reason|ap sql id]; try done; cbn.
    + destruct Hv as [rw ->]. by right.
    + by rewrite Hv in He.
    + destruct Hv as (-> & _ & [(-> & _)|(-> & _)]); (split; [done|]); [by left|by right].
Qed.

(** ** Statements of mods *)

Lemma gate_mod_allowed peer id chain al sql c fp :
  n_healthy c -> collected (n_db c) sql al Remote fp ->
  (forall ac, db ac = nd_auth (n_db c) -> healthy ac ->
     dc_decision (fst (decide chain ac peer (default_action (kind fp)) fp sql)) = Allow) ->
  exists aid, fst (gate_mod_statement peer id chain al sql true c) = Cleared (mkApproved fp Remote) sql aid.
Proof.
  intros Hc Hcol Hallow. unfold gate_mod_statement.
  destruct (collect_footprint sql al Remote c) as [r c1] eqn:E. apply collect_cases in E as ((Hd & _ & Hh) & _ & Hok).
  rewrite (Hok Hc _ Hcol), andb_false_r.
  destruct (decide_audited chain peer id sql fp c1) as [[decision aid] c2] eqn:E2.
  apply decide_cases in E2 as ((ac & Hac & Hhac & <-) & _). rewrite Hd in Hac.
  rewrite Hallow by auto. by exists aid.
Qed.

Lemma screen_reserved peer req chain al c fp :
  n_healthy c -> known_peer (n_db c) peer = true -> collected (n_db c) (rq_signal req) al Remote fp ->
  reserved_write fp = true -> fst (screen_request peer req chain al c) = Banned reserved_reason.
Proof.
  intros Hc Hk Hcol Hres. unfold screen_request. destruct (peer_known peer c) as [known c1] eqn:E1.
  apply peer_known_cases in E1 as ((Hd & _ & Hh) & _ & Hkn). rewrite (Hkn Hc), Hk. cbn [negb].
  destruct (collect_footprint (rq_signal req) al Remote c1) as [r c2] eqn:E2.
  apply collect_cases in E2 as (_ & _ & Hok). rewrite Hd in Hok. by rewrite (Hok (Hh Hc) _ Hcol), Hres.
Qed.

(** ** Media sources *)

Definition policy_says d (peer name action effect : string) : bool :=
  match db_policy (nd_auth d) with
  | Some rows => existsb (policy_row_matches peer name action effect) rows
  | None => false
  end.

Lemma policy_match_cases peer name action effect c b c' :
  source_policy_match peer name action effect c = (b, c') ->
  quiet c c' /\ (n_healthy c -> b = policy_says (n_db c) peer name action effect).
Proof.
  unfold source_policy_match, policy_says. destruct (nquery _ c) as [r c1] eqn:E.
  apply nquery_cases in E as (Hq & Hr & _). intros Hb. assert (c1 = c') as -> by (by destruct r; simplify_eq).
  split; [done|]. intros Hc. specialize (Hr Hc). unfold nneed in Hr.
  destruct (db_policy (nd_auth (n_db c))); cbn in Hr; subst r; by simplify_eq.
Qed.

(** ** Properties *)

(** A statement of a peer runs only when all of this holds: the peer is the
    node itself or in [_peers]; preparing the statement asked for nothing
    banned; it does not write [_modulations]; and the chain, asked over the
    tables as they were about exactly what the prepare touched, allowed it, or
    gave a statement to run instead, which was collected in turn. Nothing
    beyond that footprint is approved, and never the owner's lane. *)
Theorem cleared_requests_were_allowed (peer : string) (req : Request) (chain : Chain) (al : list string) (c : NConn D) :
  match screen_request peer req chain al c with
  | (Cleared ap sql _, c') =>
      known_peer (n_db c) peer = true /\ ap_lane ap = Remote /\
      exists fp, collected (n_db c) (rq_signal req) al Remote fp /\ reserved_write fp = false /\
        ((chain_answers chain peer c fp (rq_signal req) Allow /\ sql = rq_signal req /\ ap_footprint ap = fp) \/
         (chain_answers chain peer c fp (rq_signal req) (AllowNarrowed sql) /\
          collected (n_db c') sql al Remote (ap_footprint ap)))
  | _ => True
  end.
Proof.
  destruct (screen_request peer req chain al c) as [v c'] eqn:E. apply screen_request_post in E as [Hs _].
  by destruct v.
Qed.

(** C33. Every request leaves exactly one row in the ledger, which says what became
    of it and why, and changes no other table but what the tiers of the chain
    keep: as long as no statement fails on its own and the ledger has a free
    row id. *)
Theorem requests_are_ledgered (peer : string) (req : Request) (chain : Chain) (al : list string) (c : NConn D)
  (Hhealthy : n_healthy c) (Hroom : can_audit (n_db c)) :
  let '(v, c') := screen_request peer req chain al c in
  exists id e, audited (n_db c) (n_db c') id e /\ ledgered peer req v id e.
Proof.
  destruct (screen_request peer req chain al c) as [v c'] eqn:E. apply screen_request_post in E as [_ Ha]. auto.
Qed.

(** Writing [_modulations] is refused to a peer whatever the chain says, but
    the same statement, run for that peer by a mod that may write, is cleared
    when the chain allows it: the bridge has no such guard. *)
Theorem mods_bypass_reserved_guard (peer : string) (req : Request) (chain : Chain) (al : list string) (c : NConn D)
  (fp : Footprint) (Hhealthy : n_healthy c) (Hknown : known_peer (n_db c) peer = true)
  (Hcollected : collected (n_db c) (rq_signal req) al Remote fp) (Hreserved : reserved_write fp = true)
  (Hallow : forall ac, db ac = nd_auth (n_db c) -> healthy ac ->
    dc_decision (fst (decide chain ac peer (default_action (kind fp)) fp (rq_signal req))) = Allow) :
  fst (screen_request peer req chain al c) = Banned reserved_reason /\
  exists aid, fst (gate_mod_statement peer (id_string req) chain al (rq_signal req) true c) =
              Cleared (mkApproved fp Remote) (rq_signal req) aid.
Proof. split; [by eapply screen_reserved|by apply gate_mod_allowed]. Qed.

(** A media source is opened for a known peer exactly when no policy row
    denies it, one allows it, and the source can be read: a denial wins over
    any allowance. *)
Theorem source_gate (peer id name action : string) (c : NConn D) (Hhealthy : n_healthy c) :
  fst (screen_source peer id name action c) =
  (if negb (known_peer (n_db c) peer) then MediaUnknownPeer
   else if policy_says (n_db c) peer name action "deny" then
     MediaDenied (action +:+ " source " +:+ debug_str name +:+ " is denied by policy")
   else if negb (policy_says (n_db c) peer name action "allow") then
     MediaDenied ("no policy allows you the " +:+ action +:+ " source " +:+ debug_str name)
   else match media_source name (n_db c) with
        | Ok (Some (command, content_type, accepts)) => MediaAllowed command content_type accepts
        | _ => UnknownSource
        end).
Proof.
  unfold screen_source. destruct (peer_known peer c) as [known c1] eqn:E1.
  apply peer_known_cases in E1 as ((Hd1 & _ & Hh1) & _ & Hk). rewrite (Hk Hhealthy).
  destruct (known_peer (n_db c) peer); [cbn [negb]|done].
  destruct (source_policy_match peer name action "deny" c1) as [dn c2] eqn:E2.
  apply policy_match_cases in E2 as ((Hd2 & _ & Hh2) & Hdn). rewrite (Hdn (Hh1 Hhealthy)), Hd1.
  destruct (policy_says (n_db c) peer name action "deny"); [done|].
  destruct (source_policy_match peer name action "allow" c2) as [aw c3] eqn:E3.
  apply policy_match_cases in E3 as ((Hd3 & _ & Hh3) & Haw). rewrite (Haw (Hh2 (Hh1 Hhealthy))), Hd2, Hd1.
  destruct (policy_says (n_db c) peer name action "allow"); [cbn [negb]|done].
  destruct (nquery (media_source name) c3) as [row c4] eqn:E4. apply nquery_cases in E4 as (_ & Hr & _).
  rewrite (Hr (Hh3 (Hh2 (Hh1 Hhealthy)))), Hd3, Hd2, Hd1.
  by destruct (media_source name (n_db c)) as [[[[? ?] ?]|]|].
Qed.
End gate.

(** ** Witnesses *)

#[local] Existing Instance note_sqlite.
#[local] Existing Instance low_ids.
#[local] Existing Instance plain_text.
#[local] Existing Instance open_json.

Lemma requests_are_ledgered_witness :
  let c := demo_conn ["hello"] in
  let '(v, c') := screen_request "alice" (demo_request Query select_notes []) open_chain [] c in
  exists id e, audited (n_db c) (n_db c') id e /\
    ledgered "alice" (demo_request Query select_notes []) v id e.
Proof.
  apply (requests_are_ledgered "alice" (demo_request Query select_notes []) open_chain [] (demo_conn ["hello"])).
  - constructor.
  - exists 1. reflexivity.
Defined.

Lemma open_chain_allows ac peer action fp sql :
  db ac = demo_auth -> healthy ac -> dc_decision (fst (decide open_chain ac peer action fp sql)) = Allow.
Proof.
  intros Hdb Hh. unfold decide, read_config.
  destruct (read_rsntr_healthy ac "auth_chain" Hh) as (c1 & -> & Hdb1 & Hh1). rewrite Hdb.
  change (read_rsntr_row "auth_chain" demo_auth) with (@Ok string string "[open]"). cbn -[read_rsntr].
  destruct (read_rsntr_healthy c1 "auth_masks" Hh1) as (c2 & -> & _). rewrite Hdb1, Hdb. reflexivity.
Qed.

Lemma mods_bypass_reserved_guard_witness :
  let req := demo_request Execute enable_mod [] in
  let c := demo_conn [] in
  fst (screen_request "alice" req open_chain [] c) = Banned reserved_reason /\
  exists aid, fst (gate_mod_statement "alice" (id_string req) open_chain [] (rq_signal req) true c) =
              Cleared (mkApproved (mkFootprint Write {["_modulations" := {["enabled"]}]} ∅) Remote) (rq_signal req) aid.
Proof.
  cbv zeta. apply (mods_bypass_reserved_guard "alice" (demo_request Execute enable_mod []) open_chain [] (demo_conn [])).
  - constructor.
  - vm_compute; reflexivity.
  - eexists _, _. split; [reflexivity|]. split; reflexivity.
  - vm_compute; reflexivity.
  - intros ac. apply open_chain_allows.
Defined.

Lemma source_gate_witness :
  let c := demo_conn [] in
  fst (screen_source "alice" "id" "cam" "media" c) =
  MediaDenied ("no policy allows you the " +:+ "media" +:+ " source " +:+ debug_str "cam").
Proof. apply (source_gate "alice" "id" "cam" "media" (demo_conn [])). constructor. Defined.

(** * what asking and recording leaves alone

    The gates look at the tables, ask the chain and append to the ledger; the
    data served is not touched. *)

(** ** Data and ledger *)

Section data.
Context {D : Type}.
Implicit Types (d : NodeDb D) (c : NConn D).

(** The data served, the record of applied writes, the budgets and the media
    sources are as they were. *)
Definition same_data d d' : Prop :=
  nd_user d' = nd_user d /\ nd_applied d' = nd_applied d /\ nd_knock d' = nd_knock d /\ nd_media d' = nd_media d /\
  nd_surface d' = nd_surface d.

#[export] Instance same_data_preorder : PreOrder same_data.
Proof. split; unfold same_data, Reflexive, Transitive; naive_solver congruence. Qed.

Lemma same_data_quiet c c' : quiet c c' -> same_data (n_db c) (n_db c').
Proof. intros (-> & _). reflexivity. Qed.

Context `{HR : !RowIds}.

Lemma audit_data e c id c' : audit_full_dir e c = (id, c') -> same_data (n_db c) (n_db c').
Proof.
  unfold audit_full_dir. destruct (nsql _ c) as [r c1] eqn:E.
  apply nsql_cases in E as [(er & -> & Hq & _)|(a & d & -> & Hf & Hd & _)]; intros [= <- <-]; [by apply same_data_quiet|].
  cbn. rewrite Hd. unfold insert_audit in Hf. destruct (nneed _ _) as [rows|]; [|done]. cbn in Hf.
  destruct (next_id _); [|done]. injection Hf as _ <-. done.
Qed.
End data.

Section gate.
Context {D : Type} `{HQ : !Sqlite D} `{HR : !RowIds} `{HT : !NodeText} `{HJ : !ChainJson} `{HU : !UlidLib}.

(** The chain is asked over the tables, and changes those of its tiers. *)
Lemma timed_cases chain peer action fp sql (conn : NConn D) dc dur conn' :
  timed_decide chain peer action fp sql conn = (dc, dur, conn') ->
  (exists ac, db ac = nd_auth (n_db conn) /\ (n_healthy conn -> healthy ac) /\ dc = fst (decide chain ac peer action fp sql)) /\
  (exists t, n_db conn' = set_auth t (n_db conn)) /\ n_saved conn' = n_saved conn /\ (n_healthy conn -> n_healthy conn').
Proof.
  unfold timed_decide. destruct (instant_now conn) as [start c0] eqn:E0. apply instant_quiet in E0 as (Hd0 & Hs0 & Hh0).
  destruct (on_auth _ c0) as [dc' c1] eqn:E1. apply on_auth_cases in E1 as (Hdc & Hd1 & Hs1 & Hh1).
  destruct (elapsed_ms start c1) as [dur' c2] eqn:E2. apply elapsed_quiet in E2 as (Hd2 & Hs2 & Hh2).
  intros [= <- _ <-]. split_and!.
  - exists (auth_conn c0). split; [cbn; by rewrite Hd0|]. split; [|done]. intros Hc. apply healthy_auth. auto.
  - eexists. by rewrite Hd2, Hd1, Hd0.
  - by rewrite Hs2, Hs1, Hs0.
  - auto.
Qed.

Lemma timed_data chain peer action fp sql (conn : NConn D) dc dur conn' :
  timed_decide chain peer action fp sql conn = (dc, dur, conn') -> same_data (n_db conn) (n_db conn').
Proof. by intros (_ & (t & ->) & _)%timed_cases. Qed.

Lemma decide_data chain peer id sql fp (conn : NConn D) decision aid conn' :
  decide_audited chain peer id sql fp conn = (decision, aid, conn') -> same_data (n_db conn) (n_db conn').
Proof.
  unfold decide_audited. destruct (timed_decide _ _ _ _ _ conn) as [[dc dur] c1] eqn:E. apply timed_data in E.
  destruct (decision_str (dc_decision dc)) as [ds rs]. destruct (audit_full _ _ _ _ _ _ _ _ c1) as [a c2] eqn:E2.
  intros [= _ _ <-]. apply audit_data in E2. by etrans.
Qed.

Lemma screen_data peer req chain al (conn : NConn D) v conn' :
  screen_request peer req chain al conn = (v, conn') -> same_data (n_db conn) (n_db conn').
Proof.
  unfold screen_request, audit_direct, audit_direct_dir. destruct (peer_known peer conn) as [known c1] eqn:E1.
  apply peer_known_cases in E1 as (Hq1 & _). apply same_data_quiet in Hq1.
  assert (Haudit : forall c e, same_data (n_db conn) (n_db c) -> same_data (n_db conn) (n_db (snd (audit_full_dir e c)))).
  { intros c e Hc. destruct (audit_full_dir e c) as [i c'] eqn:E. etrans; [exact Hc|by eapply audit_data]. }
  destruct known; cbn [negb]; [|intros [= _ <-]; by apply Haudit].
  destruct (collect_footprint _ al Remote c1) as [r c2] eqn:E2. apply collect_cases in E2 as (Hq2 & _).
  apply same_data_quiet in Hq2. assert (same_data (n_db conn) (n_db c2)) as Hq by (by etrans).
  destruct r as [fp|[[[reason|] j] m]]; [|intros [= _ <-]; by apply Haudit..].
  destruct (reserved_write fp); [intros [= _ <-]; by apply Haudit|].
  destruct (decide_audited _ _ _ _ _ c2) as [[decision aid] c3] eqn:E3. apply decide_data in E3.
  intros Hcl. apply cleared_cases in Hcl as (Hq4 & _). apply same_data_quiet in Hq4. etrans; [exact Hq|]. by etrans.
Qed.
End gate.
