(* ===== verification/NodeKnock.v ===== *)
(** * NodeKnock: strangers at the door

    Models the knock admission of [crates/node/src/pipeline.rs]: the token
    buckets, the chain's decision on a knock, and what follows it: admission,
    refusal, or a row in [_inbox] for the owner. *)

From S2P Require Import Prelude RustStd External Instances Value Envelope Request AuthTypes Chain CivilDate Human Authorizer NodeDb NodeSql.
From S2P Require Import NodeGate NodeDemo NodeGateProps.

Open Scope Z_scope.

(** ** Floats *)

Definition f64_sub : f64 -> f64 -> f64 := SFsub 53 1024.
Definition f64_mul : f64 -> f64 -> f64 := SFmul 53 1024.
Definition f64_div : f64 -> f64 -> f64 := SFdiv 53 1024.
Definition f64_ge (x y : f64) : bool := SFleb y x.
Definition is_nan (x : f64) : bool := match x with S754_nan => true | _ => false end.

(** [f64::max] and [f64::min]: the other operand of a NaN. *)
Definition f64_max (x y : f64) : f64 := if is_nan x then y else if is_nan y then x else if SFltb x y then y else x.
Definition f64_min (x y : f64) : f64 := if is_nan x then y else if is_nan y then x else if SFltb y x then y else x.

Definition f64_int (p : positive) : f64 := binary_normalize 53 1024 (Z.pos p) 0 false.
Definition f64_zero : f64 := S754_zero false.
Definition f64_one : f64 := f64_int 1.

(** ** Settings *)

Record KnockLimits : Type := mkKnockLimits {
  per_key_burst : f64;
  per_key_refill_per_sec : f64;
  global_burst : f64;
  global_refill_per_sec : f64
}.

Definition KnockLimits_default : KnockLimits :=
  mkKnockLimits f64_one (f64_div f64_one (f64_int 60)) (f64_int 20) (f64_div (f64_int 10) (f64_int 60)).

(** ** The buckets *)

Section buckets.
Context {D : Type}.
Implicit Types (conn : NConn D).

Definition bucket_row (bucket : string) (d : NodeDb D) : result SqlError (option (f64 * f64)) :=
  let? t := nneed "_knock_budget" (nd_knock d) in
  match t !! bucket with
  | None => Ok None
  | Some r => match kb_tokens r, kb_updated_at r with
              | Some tokens, Some last => Ok (Some (tokens, last))
              | _, _ => Err (sql_failure "Invalid column type")
              end
  end.

Definition refilled (existing : option (f64 * f64)) (burst refill_per_sec now : f64) : f64 :=
  match existing with
  | Some (tokens, last) =>
      let elapsed := f64_max (f64_sub now last) f64_zero in
      f64_min (f64_add tokens (f64_mul elapsed refill_per_sec)) burst
  | None => burst
  end.

Definition bucket_level (bucket : string) (burst refill_per_sec now : f64) conn : f64 * NConn D :=
  let '(existing, conn) := nquery (bucket_row bucket) conn in
  (refilled (match existing with Ok o => o | Err _ => None end) burst refill_per_sec now, conn).

(** The upsert; the columns are NOT NULL, and a NaN is NULL. *)
Definition upsert_bucket (bucket : string) (tokens now : f64) (d : NodeDb D) : result SqlError (unit * NodeDb D) :=
  let? t := nneed "_knock_budget" (nd_knock d) in
  match store_real tokens, store_real now with
  | Some tokens, Some now => Ok (tt, set_knock (<[bucket := mkKnockRow (Some tokens) (Some now)]> t) d)
  | _, _ => Err (sql_failure "NOT NULL constraint failed: _knock_budget")
  end.

Definition store_bucket (bucket : string) (tokens now : f64) conn : NConn D :=
  snd (nsql (upsert_bucket bucket tokens now) conn).

Definition spend_knock_token (peer : string) (limits : KnockLimits) conn : bool * NConn D :=
  let now := n_f64 conn in
  let '(per_key, conn) := bucket_level peer (per_key_burst limits) (per_key_refill_per_sec limits) now conn in
  let '(global, conn) := bucket_level "*" (global_burst limits) (global_refill_per_sec limits) now conn in
  let grant := f64_ge per_key f64_one && f64_ge global f64_one in
  let conn := store_bucket peer (if grant then f64_sub per_key f64_one else per_key) now conn in
  let conn := store_bucket "*" (if grant then f64_sub global f64_one else global) now conn in
  (grant, conn).

(** ** Admission and parking *)

(** [INSERT OR IGNORE INTO _peers]; a failure is logged. *)
Definition admit_peer (peer id : string) conn : NConn D :=
  snd (nsql (fun d => map_err sql_failure
                        (let? t := Human.admit_peer peer (rfc3339 (n_secs conn)) ("admitted via knock " +:+ id) (nd_auth d) in
                         Ok (tt, set_auth t d))) conn).

Definition pending_knock (peer : string) (r : InboxRow) : bool :=
  bool_decide (in_peer r = peer) && bool_decide (in_decision r = None) && bool_decide (in_sql r = "").

(** [ORDER BY received_at, request_id]. *)
Definition inbox_before (r1 r2 : InboxRow) : bool :=
  match String.compare (in_received_at r1) (in_received_at r2) with
  | Lt => true
  | Gt => false
  | Eq => String.leb (in_request_id r1) (in_request_id r2)
  end.

Fixpoint first_row (rows : list InboxRow) : option InboxRow :=
  match rows with
  | [] => None
  | r :: rows' => match first_row rows' with
                  | Some r' => Some (if inbox_before r r' then r else r')
                  | None => Some r
                  end
  end.

Definition find_knock (peer : string) (d : NodeDb D) : result SqlError (option string) :=
  let? rows := nneed "_inbox" (db_inbox (nd_auth d)) in
  Ok (in_request_id <$> first_row (base.filter (fun r => pending_knock peer r = true) rows)).

Definition park_knock (peer id message : string) conn : string * NConn D :=
  let '(pending, conn) := nquery (find_knock peer) conn in
  match pending with
  | Ok (Some existing) => (existing, conn)
  | _ =>
      let row := mkInboxRow id peer "" ("knock: " +:+ message) None None (rfc3339 (n_secs conn)) in
      (id, snd (nsql (fun d => map_err sql_failure
                                 (let? t := insert_inbox row (nd_auth d) in Ok (tt, set_auth t d))) conn))
  end.

End buckets.

(** ** The knock *)

Inductive KnockReply : Type :=
| Dropped
| KnockDecision (id decision decided_by : string) (reason : option string).

Section knock.
Context {D : Type} `{HR : !RowIds} `{HT : !NodeText} `{HJ : !ChainJson} `{HU : !UlidLib}.
Implicit Types (conn : NConn D).

(** The client's id in canonical form, or a fresh one. *)
Definition knock_id (client_request_id : option string) conn : string * NConn D :=
  match client_request_id with
  | Some s => match ulid_from_string s with
              | Ok u => (ulid_to_string u, conn)
              | Err _ => draw_node_ulid conn
              end
  | None => draw_node_ulid conn
  end.

Definition parked_reply (id : string) : KnockReply :=
  KnockDecision id "pending" "node"
    (Some ("your knock is parked for the owner's decision (pending id " +:+ id +:+ ")")).

Definition weigh_knock (peer : string) (client_request_id : option string) (message : string) (chain : Chain)
    (limits : KnockLimits) conn : KnockReply * NConn D :=
  let '(id, conn) := knock_id client_request_id conn in
  let '(known, conn) := peer_known peer conn in
  if known then
    (KnockDecision id "allow" "node" (Some "you are already admitted"),
     audit_direct peer id "" "allow" "node" "knock from an already admitted peer" conn)
  else
    let '(granted, conn) := spend_knock_token peer limits conn in
    if negb granted then (Dropped, conn)
    else
      let '(decided, duration, conn) := timed_decide chain peer "knock" Footprint_default message conn in
      let audit decision by_ reason conn :=
        snd (audit_full peer id "" "{}" decision by_ (Some reason) duration conn) in
      let park by_ reason conn :=
        let '(id, conn) := park_knock peer id message (audit "deny" by_ reason conn) in (parked_reply id, conn) in
      match dc_decision decided with
      | Allow | AllowNarrowed _ =>
          (KnockDecision id "allow" (dc_decided_by decided) (Some "admitted"),
           admit_peer peer id (audit "allow" (dc_decided_by decided) "knock admitted" conn))
      | Deny reason =>
          if bool_decide (dc_decided_by decided = "default") then park "default" "knock parked for the owner" conn
          else (KnockDecision id "deny" (dc_decided_by decided) (Some reason),
                audit "deny" (dc_decided_by decided) reason conn)
      | Escalate => park "node" "knock parked (chain escalated)" conn
      end.

End knock.

(** * Who is let in, who waits, who is not heard *)

(** ** Comparing floats *)

Lemma SFcompare_swap x y : SFcompare y x = CompOpp <$> SFcompare x y.
Proof.
  destruct x as [sx|sx| |sx mx ex], y as [sy|sy| |sy my ey]; try destruct sx; try destruct sy; try reflexivity; cbn;
    rewrite (Z.compare_antisym ex ey); destruct (ex ?= ey); try reflexivity; cbn;
    change (Pos.compare_cont Eq) with Pos.compare; rewrite (Pos.compare_antisym mx my); by destruct (mx ?= my)%positive.
Qed.

Lemma SFcompare_refl x : is_nan x = false -> SFcompare x x = Some Eq.
Proof.
  destruct x as [s|s| |s m e]; try destruct s; try done; intros _; cbn; rewrite Z.compare_refl;
    change (Pos.compare_cont Eq) with Pos.compare; by rewrite Pos.compare_refl.
Qed.

Lemma f64_min_le x y : is_nan y = false -> f64_ge y (f64_min x y) = true.
Proof.
  intros Hy. unfold f64_ge, f64_min, SFleb. destruct (is_nan x) eqn:Hx; [by rewrite SFcompare_refl|].
  rewrite Hy. unfold SFltb. destruct (SFcompare y x) as [[]|] eqn:E; [|by rewrite SFcompare_refl| |];
    rewrite SFcompare_swap, E; try done.
  by destruct x as [[]|[]| |[]], y as [[]|[]| |[]].
Qed.

(** Neither subtraction nor the cap makes a number of a NaN. *)
Lemma shr_1_pos mrs : 0 <= shr_m mrs -> 0 <= shr_m (shr_1 mrs).
Proof. destruct mrs as [[|[p|p|]|p] r s]; cbn; lia. Qed.

Lemma iter_pos_inv {A} (P : A -> Prop) (f : A -> A) n : (forall a, P a -> P (f a)) -> forall a, P a -> P (SpecFloat.iter_pos f n a).
Proof. intros Hf. induction n as [n IH|n IH|]; intros a Ha; cbn; auto. Qed.

Lemma shr_fexp_pos prec emax m e l : 0 <= m -> 0 <= shr_m (fst (shr_fexp prec emax m e l)).
Proof.
  intros Hm. unfold shr_fexp, shr. assert (0 <= shr_m (shr_record_of_loc m l)) as H0 by (by destruct l as [|[]]).
  destruct (fexp _ _ _ - e); cbn [fst]; [done| |done]. by apply (iter_pos_inv (fun mrs => 0 <= shr_m mrs)); [apply shr_1_pos|].
Qed.

Lemma round_aux_nan prec emax sx mx ex lx : 0 <= mx -> is_nan (binary_round_aux prec emax sx mx ex lx) = false.
Proof.
  intros Hm. unfold binary_round_aux. pose proof (shr_fexp_pos prec emax mx ex lx Hm) as H1.
  destruct (shr_fexp prec emax mx ex lx) as [mrs' e']; cbn [fst] in H1.
  assert (0 <= round_nearest_even (shr_m mrs') (loc_of_shr_record mrs')) as H2.
  { unfold round_nearest_even. destruct (loc_of_shr_record mrs') as [|[]]; cbn; try lia. destruct (Z.even _); lia. }
  pose proof (shr_fexp_pos prec emax _ e' loc_Exact H2) as H3. destruct (shr_fexp prec emax _ e' loc_Exact) as [mrs2 e2].
  cbn [fst] in H3. destruct (shr_m mrs2); [done|by destruct (_ <=? _)|lia].
Qed.

Lemma f64_sub_nan x y : is_nan x = false -> match y with S754_finite _ _ _ => True | _ => False end -> is_nan (f64_sub x y) = false.
Proof.
  destruct x as [sx|sx| |sx mx ex], y as [sy|sy| |sy my ey]; try done; intros _ _; unfold f64_sub; cbn; try (by destruct sx; destruct sy).
  destruct (_ - _) as [|p|p]; cbn; [done| |]; unfold binary_normalize, binary_round;
    (destruct (shl_align _ _ _); apply round_aux_nan; lia).
Qed.

Lemma f64_min_nan x y : is_nan y = false -> is_nan (f64_min x y) = false.
Proof. intros Hy. unfold f64_min. destruct (is_nan x) eqn:Hx; [done|]. rewrite Hy. by destruct (SFltb y x). Qed.

Lemma refilled_nan existing burst rate now : is_nan burst = false -> is_nan (refilled existing burst rate now) = false.
Proof. intros Hb. destruct existing as [[tokens last]|]; [by apply f64_min_nan|done]. Qed.

Lemma refilled_le existing burst rate now : is_nan burst = false -> f64_ge burst (refilled existing burst rate now) = true.
Proof.
  intros Hb. destruct existing as [[tokens last]|]; [by apply f64_min_le|].
  unfold refilled, f64_ge, SFleb. by rewrite SFcompare_refl.
Qed.

(** ** The buckets *)

Section buckets.
Context {D : Type}.
Implicit Types (c : NConn D) (d : NodeDb D).

(** Only the budgets changed. *)
Definition budget_only d d' : Prop := d' = d \/ exists t, d' = set_knock t d.

#[export] Instance budget_only_preorder : PreOrder budget_only.
Proof.
  split; [by left|]. intros d1 d2 d3 [->|[t ->]] [->|[t' ->]]; [by left|by right; exists t'|by right; exists t|].
  right. by exists t'.
Qed.

Lemma store_bucket_budget bucket tokens now c : budget_only (n_db c) (n_db (store_bucket bucket tokens now c)).
Proof.
  unfold store_bucket. destruct (nsql _ c) as [r c'] eqn:E. cbn [snd]. apply nsql_cases in E as [(e & _ & (-> & _) & _)|(a & d & _ & Hf & <- & _)];
    [by left|]. unfold upsert_bucket in Hf. destruct (nneed _ _); [|done]. cbn in Hf.
  destruct (store_real tokens), (store_real now); try done. injection Hf as _ <-. right. by eexists.
Qed.

Lemma bucket_level_cases bucket burst rate now c l c' :
  bucket_level bucket burst rate now c = (l, c') ->
  quiet c c' /\ (n_healthy c -> l = refilled (match bucket_row bucket (n_db c) with Ok o => o | Err _ => None end) burst rate now).
Proof.
  unfold bucket_level. destruct (nquery _ c) as [r c1] eqn:E. apply nquery_cases in E as (Hq & Hr & _).
  intros [= <- <-]. split; [done|]. intros Hc. by rewrite (Hr Hc).
Qed.

Lemma spend_budget peer limits c g c' :
  spend_knock_token peer limits c = (g, c') -> budget_only (n_db c) (n_db c').
Proof.
  unfold spend_knock_token. destruct (bucket_level peer _ _ _ c) as [l1 c1] eqn:E1.
  apply bucket_level_cases in E1 as ((Hd1 & _ & _) & _).
  destruct (bucket_level "*" _ _ _ c1) as [l2 c2] eqn:E2. apply bucket_level_cases in E2 as ((Hd2 & _ & _) & _).
  intros [= _ <-]. rewrite <-Hd1, <-Hd2. etrans; [apply store_bucket_budget|apply store_bucket_budget].
Qed.

(** What a bucket holds [now]: full when nothing was stored; else what was stored
    and what the time since has added at [rate], none of it when the clock has
    gone back, and no more than [burst]. *)
Definition stored (t : gmap string KnockRow) (bucket : string) : option (f64 * f64) :=
  match t !! bucket with
  | Some r => match kb_tokens r, kb_updated_at r with Some tokens, Some last => Some (tokens, last) | _, _ => None end
  | None => None
  end.

Definition holds (was : option (f64 * f64)) (burst rate now : f64) : f64 :=
  match was with
  | None => burst
  | Some (tokens, last) =>
      let passed := f64_sub now last in
      let gained := f64_mul (if SFleb f64_zero passed then passed else f64_zero) rate in
      let total := f64_add tokens gained in
      if SFleb total burst then total else burst
  end.

(** The level of a bucket now, as the code computes it. *)
Definition level d (bucket : string) (burst rate now : f64) : f64 :=
  refilled (match bucket_row bucket d with Ok o => o | Err _ => None end) burst rate now.

Lemma f64_max_zero x : f64_max x f64_zero = if SFleb f64_zero x then x else f64_zero.
Proof. by destruct x as [[]|[]| |[] m e]. Qed.

Lemma f64_min_burst x y : is_nan y = false -> f64_min x y = if SFleb x y then x else y.
Proof.
  intros Hy. unfold f64_min, SFleb, SFltb. destruct (is_nan x) eqn:Hx; [by destruct x|]. rewrite Hy, SFcompare_swap.
  destruct (SFcompare x y) as [[]|] eqn:E; try done. by destruct x as [[]|[]| |[]], y as [[]|[]| |[]].
Qed.

Lemma refilled_holds was burst rate now : is_nan burst = false -> refilled was burst rate now = holds was burst rate now.
Proof. intros Hb. destruct was as [[tokens last]|]; [|done]. cbn [refilled holds]. by rewrite f64_max_zero, f64_min_burst. Qed.

Lemma level_holds d t bucket burst rate now : nd_knock d = Some t -> is_nan burst = false ->
  level d bucket burst rate now = holds (stored t bucket) burst rate now.
Proof.
  intros Ht Hb. unfold level, bucket_row, nneed, stored. rewrite Ht. cbn. rewrite refilled_holds by done.
  destruct (t !! bucket) as [r|]; [|done]. by destruct (kb_tokens r), (kb_updated_at r).
Qed.

(** What is left of a level. *)
Definition spent (granted : bool) (l : f64) : f64 := if granted then f64_sub l f64_one else l.

Lemma spent_nan g l : is_nan l = false -> is_nan (spent g l) = false.
Proof. intros Hl. destruct g; [by apply f64_sub_nan|done]. Qed.

Lemma store_bucket_stores bucket tokens now c t :
  n_healthy c -> nd_knock (n_db c) = Some t -> is_nan tokens = false -> is_nan now = false ->
  n_healthy (store_bucket bucket tokens now c) /\
  nd_knock (n_db (store_bucket bucket tokens now c)) = Some (<[bucket := mkKnockRow (Some tokens) (Some now)]> t).
Proof.
  intros Hc Ht H1 H2. assert (Hr : forall x : f64, is_nan x = false -> store_real x = Some x) by (by intros []).
  unfold store_bucket. destruct (nsql _ c) as [r c'] eqn:E. cbn [snd].
  apply nsql_cases in E as [(e & _ & _ & Hf)|(a & d & _ & Hf & <- & _ & Hh)].
  - specialize (Hf Hc). unfold upsert_bucket in Hf. rewrite Ht in Hf. cbn in Hf. by rewrite !Hr in Hf.
  - split; [auto|]. unfold upsert_bucket in Hf. rewrite Ht in Hf. cbn in Hf. rewrite !Hr in Hf by done. by injection Hf as _ <-.
Qed.

Lemma spend_spends peer limits c t :
  n_healthy c -> nd_knock (n_db c) = Some t -> is_nan (n_f64 c) = false ->
  is_nan (per_key_burst limits) = false -> is_nan (global_burst limits) = false ->
  let mine := level (n_db c) peer (per_key_burst limits) (per_key_refill_per_sec limits) (n_f64 c) in
  let all := level (n_db c) "*" (global_burst limits) (global_refill_per_sec limits) (n_f64 c) in
  let granted := f64_ge mine f64_one && f64_ge all f64_one in
  fst (spend_knock_token peer limits c) = granted /\
  nd_knock (n_db (snd (spend_knock_token peer limits c))) =
    Some (<["*" := mkKnockRow (Some (spent granted all)) (Some (n_f64 c))]>
           (<[peer := mkKnockRow (Some (spent granted mine)) (Some (n_f64 c))]> t)).
Proof.
  intros Hc Ht Hnow Hk Hg. cbv zeta. unfold spend_knock_token. destruct (bucket_level peer _ _ _ c) as [l1 c1] eqn:E1.
  apply bucket_level_cases in E1 as ((Hd1 & _ & Hh1) & Hl1).
  destruct (bucket_level "*" _ _ _ c1) as [l2 c2] eqn:E2. apply bucket_level_cases in E2 as ((Hd2 & _ & Hh2) & Hl2).
  specialize (Hl1 Hc). specialize (Hl2 (Hh1 Hc)). rewrite Hd1 in Hl2. cbn [fst snd].
  fold (level (n_db c) peer (per_key_burst limits) (per_key_refill_per_sec limits) (n_f64 c)) in Hl1.
  fold (level (n_db c) "*" (global_burst limits) (global_refill_per_sec limits) (n_f64 c)) in Hl2.
  assert (is_nan l1 = false) as Hn1 by (rewrite Hl1; by apply refilled_nan).
  assert (is_nan l2 = false) as Hn2 by (rewrite Hl2; by apply refilled_nan).
  rewrite <-Hl1, <-Hl2. set (g := f64_ge l1 f64_one && f64_ge l2 f64_one). split; [done|].
  destruct (store_bucket_stores peer (spent g l1) (n_f64 c) c2 t) as [Hh3 Ht3]; [auto|by rewrite Hd2, Hd1|by apply spent_nan|done|].
  exact (proj2 (store_bucket_stores "*" (spent g l2) (n_f64 c) _ _ Hh3 Ht3 (spent_nan g l2 Hn2) Hnow)).
Qed.

(** ** What keeps the clock, and the budgets *)

Lemma nquery_f64 {A} (f : NodeDb D -> result SqlError A) c : n_f64 (snd (nquery f c)) = n_f64 c.
Proof. unfold nquery, nsql. destruct (n_faults c) as [|[e|] fs]; [|done|]; by destruct (f (n_db c)). Qed.

Lemma peer_known_f64 peer c : n_f64 (snd (peer_known peer c)) = n_f64 c.
Proof.
  unfold peer_known, get_rsntr. pose proof (nquery_f64 (get_rsntr_row "endpoint_id") c) as H.
  destruct (nquery _ c) as [[v|e] c1]; cbn [snd] in H; (case_bool_decide; [done|]);
    pose proof (nquery_f64 (peer_row peer) c1) as H2; destruct (nquery _ c1) as [[b|e2] c2]; cbn in *; congruence.
Qed.

Lemma admit_peer_knock peer id c : nd_knock (n_db (admit_peer peer id c)) = nd_knock (n_db c).
Proof.
  unfold admit_peer. destruct (nsql _ c) as [r c'] eqn:E. cbn [snd]. apply nsql_cases in E as [(e & _ & (-> & _) & _)|(a & d & _ & Hf & <- & _)]; [done|].
  destruct (Human.admit_peer _ _ _ _); [|done]. cbn in Hf. by injection Hf as _ <-.
Qed.

Lemma park_knock_knock peer id message c : nd_knock (n_db (snd (park_knock peer id message c))) = nd_knock (n_db c).
Proof.
  unfold park_knock. destruct (nquery (find_knock peer) c) as [r c1] eqn:E1. apply nquery_cases in E1 as ((Hd & _) & _).
  assert (Hins : forall row, nd_knock (n_db (snd (nsql (fun d => map_err sql_failure (let? t := insert_inbox row (nd_auth d) in Ok (tt, set_auth t d))) c1))) = nd_knock (n_db c)).
  { intros row. destruct (nsql _ c1) as [r2 c2] eqn:E. cbn [snd]. apply nsql_cases in E as [(e & _ & (-> & _) & _)|(a & d & _ & Hf & <- & _)]; [by rewrite Hd|].
    destruct (insert_inbox row _); [|done]. cbn in Hf. injection Hf as _ <-. cbn. by rewrite Hd. }
  destruct r as [[existing|]|e]; cbn [snd]; [by rewrite Hd|apply Hins..].
Qed.

(** ** Parking *)

Definition pending (peer : string) (rows : list InboxRow) : list InboxRow :=
  base.filter (fun r => pending_knock peer r = true) rows.

#[local] Arguments pending : simpl never.

Definition inbox d : list InboxRow := match db_inbox (nd_auth d) with Some rows => rows | None => [] end.

Lemma first_row_elem rows r : first_row rows = Some r -> r ∈ rows.
Proof.
  revert r. induction rows as [|r0 rows IH]; intros r; cbn; [done|]. destruct (first_row rows) as [r'|].
  - intros [= <-]. specialize (IH r' eq_refl). destruct (inbox_before r0 r'); apply elem_of_cons; auto.
  - intros [= ->]. apply elem_of_cons. by left.
Qed.

Lemma first_row_none rows : first_row rows = None -> rows = [].
Proof. destruct rows as [|r rows]; [done|]. cbn. by destruct (first_row rows). Qed.

Lemma park_knock_parks peer id message c id' c' :
  n_healthy c -> is_Some (db_inbox (nd_auth (n_db c))) ->
  (forall p, (length (pending p (inbox (n_db c))) <= 1)%nat) -> id ∉ map in_request_id (inbox (n_db c)) ->
  park_knock peer id message c = (id', c') ->
  (forall p, (length (pending p (inbox (n_db c'))) <= 1)%nat) /\
  exists row, pending peer (inbox (n_db c')) = [row] /\ in_request_id row = id'.
Proof.
  intros Hc [rows Hrows] Hone Hid. unfold inbox in *. rewrite Hrows in *. 
  unfold park_knock. destruct (nquery (find_knock peer) c) as [r c1] eqn:E1.
  apply nquery_cases in E1 as ((Hd1 & _ & Hh1) & Hr & _). specialize (Hr Hc). unfold find_knock, nneed in Hr.
  rewrite Hrows in Hr. cbn in Hr. fold (pending peer rows) in Hr. subst r.
  destruct (first_row (pending peer rows)) as [row|] eqn:Ef; cbn.
  - intros [= <- <-]. rewrite Hd1, Hrows. split; [done|]. exists row. split; [|done].
    apply first_row_elem in Ef. specialize (Hone peer). destruct (pending peer rows) as [|r1 [|]]; cbn in Hone; try lia;
      [by apply not_elem_of_nil in Ef|apply list_elem_of_singleton in Ef; by subst].
  - apply first_row_none in Ef. set (row := mkInboxRow id peer "" _ None None _).
    destruct (nsql _ c1) as [r c2] eqn:E2. intros [= <- <-]. apply nsql_cases in E2 as [(e & _ & _ & Hf)|(a & d & _ & Hf & Hd & _)].
    + specialize (Hf (Hh1 Hc)). rewrite Hd1 in Hf. unfold insert_inbox, need_table in Hf. rewrite Hrows in Hf. cbn in Hf.
      destruct (existsb _ rows) eqn:Ee; [|done]. exfalso. apply Hid. apply existsb_exists in Ee as (x & Hx & Heq).
      apply bool_decide_eq_true in Heq. cbn in Heq. rewrite <-Heq. apply list_elem_of_fmap. exists x. split; [done|]. by apply list_elem_of_In.
    + rewrite Hd1 in Hf. unfold insert_inbox, need_table in Hf. rewrite Hrows in Hf. cbn in Hf.
      destruct (existsb _ rows) eqn:Ee; [done|]. cbn in Hf. injection Hf as _ <-. cbn [snd]. rewrite Hd. cbn.
      assert (Hp : forall p, pending p (rows ++ [row]) = pending p rows ++ (if bool_decide (p = peer) then [row] else [])).
      { intros p. unfold pending. rewrite filter_app. f_equal. unfold base.filter. cbn.
        unfold pending_knock. cbn. rewrite !andb_true_r. destruct (base.decide (p = peer)) as [->|Hn].
        - by rewrite !bool_decide_true.
        - by rewrite !bool_decide_false by congruence. }
      split.
      * intros p. rewrite Hp, length_app. case_bool_decide as Hpp; cbn; [|specialize (Hone p); lia].
        subst p. rewrite Ef. cbn. lia.
      * exists row. rewrite Hp, Ef, bool_decide_true by done. done.
Qed.
End buckets.

(** ** Properties *)

Section knock.
Context {D : Type} `{HR : !RowIds} `{HT : !NodeText} `{HJ : !ChainJson} `{HU : !UlidLib}.
Implicit Types (c : NConn D) (d : NodeDb D).

Lemma knock_id_quiet s c id c' : knock_id s c = (id, c') -> quiet c c'.
Proof. destruct s as [s|]; cbn; [destruct (ulid_from_string s)|]; by intros [= <- <-]. Qed.

(** The chain, asked over these tables whether to let this stranger in, says
    so. *)
Definition knock_says (chain : Chain) (peer message : string) d (P : Decided -> Prop) : Prop :=
  exists ac, db ac = nd_auth d /\ P (fst (decide chain ac peer "knock" Footprint_default message)).

Definition admits (dc : Decided) : Prop := dc_decision dc = Allow \/ exists r, dc_decision dc = AllowNarrowed r.
Definition refuses (dc : Decided) : Prop := exists r, dc_decision dc = Deny r /\ dc_decided_by dc <> "default".

(** What each answer to a knock means: a knock within the limits is answered by
    the chain, whose refusals are passed on, and a stranger is told "allow"
    only when the chain admits it; a knock over the limits is not answered,
    and changes nothing but the budgets: no row in the ledger, nothing asked
    of the chain. *)
Theorem knock_answers (peer : string) (rid : option string) (message : string) (chain : Chain) (limits : KnockLimits)
    (c : NConn D) :
  match weigh_knock peer rid message chain limits c with
  | (Dropped, c') => budget_only (n_db c) (n_db c')
  | (KnockDecision _ decision by_ _, _) =>
      (decision = "allow" /\ by_ = "node" /\ known_peer (n_db c) peer = true) \/
      (decision = "allow" /\ knock_says chain peer message (n_db c) (fun dc => admits dc /\ by_ = dc_decided_by dc)) \/
      (decision = "deny" /\ knock_says chain peer message (n_db c) (fun dc => refuses dc /\ by_ = dc_decided_by dc)) \/
      (decision = "pending" /\ by_ = "node" /\ knock_says chain peer message (n_db c) (fun dc => ~ admits dc))
  end.
Proof.
  unfold weigh_knock. destruct (knock_id rid c) as [id c0] eqn:E0. apply knock_id_quiet in E0 as (Hd0 & _).
  destruct (peer_known peer c0) as [known c1] eqn:E1. apply peer_known_cases in E1 as ((Hd1 & _) & Hk & _).
  rewrite Hd0 in *. destruct known; [left; by auto|].
  destruct (spend_knock_token peer limits c1) as [g c2] eqn:E2. apply spend_budget in E2. rewrite Hd1 in E2.
  destruct g; cbn [negb]; [|done].
  unfold timed_decide. destruct (instant_now c2) as [start c3] eqn:E3. apply instant_quiet in E3 as (Hd3 & _).
  destruct (on_auth _ c3) as [dc c4] eqn:E4. apply on_auth_cases in E4 as (Hdc & _).
  destruct (elapsed_ms start c4) as [dur c5].
  assert (Hsays : forall P : Decided -> Prop, P dc -> knock_says chain peer message (n_db c) P).
  { intros P HP. exists (auth_conn c3). split; [|by rewrite <-Hdc]. cbn. rewrite Hd3. by destruct E2 as [->|[t ->]]. }
  assert (Hpark : ~ admits dc -> forall cc : NConn D, let '(id', _) := park_knock peer id message cc in
    match parked_reply id' with KnockDecision _ decision by_ _ => decision = "pending" /\ by_ = "node" /\
      knock_says chain peer message (n_db c) (fun dc => ~ admits dc) | Dropped => False end).
  { intros Hn cc. destruct (park_knock peer id message cc) as [id' c6]. cbn. split_and!; [done..|by apply Hsays]. }
  destruct (dc_decision dc) as [|rw|reason|] eqn:Edc.
  - right; left. split; [done|]. apply Hsays. split; [by left|done].
  - right; left. split; [done|]. apply Hsays. split; [right; by exists rw|done].
  - case_bool_decide as Hby.
    + match goal with |- context [park_knock peer id message ?cc] => specialize (Hpark ltac:(unfold admits; rewrite Edc; naive_solver) cc);
        destruct (park_knock peer id message cc) end. right; right; right. exact Hpark.
    + right; right; left. split; [done|]. apply Hsays. split; [by exists reason|done].
  - match goal with |- context [park_knock peer id message ?cc] => specialize (Hpark ltac:(unfold admits; rewrite Edc; naive_solver) cc);
      destruct (park_knock peer id message cc) end. right; right; right. exact Hpark.
Qed.

Lemma weigh_stranger peer rid message chain limits c t :
  n_healthy c -> nd_knock (n_db c) = Some t -> known_peer (n_db c) peer = false -> is_nan (n_f64 c) = false ->
  is_nan (per_key_burst limits) = false -> is_nan (global_burst limits) = false ->
  let mine := holds (stored t peer) (per_key_burst limits) (per_key_refill_per_sec limits) (n_f64 c) in
  let all := holds (stored t "*") (global_burst limits) (global_refill_per_sec limits) (n_f64 c) in
  let heard := f64_ge mine f64_one && f64_ge all f64_one in
  let '(reply, c') := weigh_knock peer rid message chain limits c in
  (reply = Dropped <-> heard = false) /\
  nd_knock (n_db c') = Some (<["*" := mkKnockRow (Some (spent heard all)) (Some (n_f64 c))]>
                              (<[peer := mkKnockRow (Some (spent heard mine)) (Some (n_f64 c))]> t)) /\
  (heard = false -> budget_only (n_db c) (n_db c')).
Proof.
  intros Hc Ht Hpeer Hnow Hk Hg. cbv zeta. unfold weigh_knock.
  destruct (knock_id rid c) as [id c0] eqn:E0. assert (n_f64 c0 = n_f64 c) as Hf0 by (destruct rid as [s|]; cbn in E0; [destruct (ulid_from_string s)|]; by injection E0 as _ <-).
  apply knock_id_quiet in E0 as (Hd0 & _ & Hh0).
  pose proof (peer_known_f64 peer c0) as Hf1. destruct (peer_known peer c0) as [known c1] eqn:E1. cbn [snd] in Hf1.
  apply peer_known_cases in E1 as ((Hd1 & _ & Hh1) & _ & Hkn). rewrite (Hkn (Hh0 Hc)), Hd0, Hpeer. rewrite Hd0 in Hd1. rewrite Hf0 in Hf1.
  destruct (spend_spends peer limits c1 t) as [Hgr Hrows]; [auto|by rewrite Hd1|by rewrite Hf1|done|done|].
  rewrite Hd1, Hf1 in Hgr, Hrows. rewrite !(level_holds _ t) in Hgr, Hrows by done.
  set (heard := f64_ge (holds (stored t peer) _ _ _) f64_one && f64_ge (holds (stored t "*") _ _ _) f64_one) in *.
  destruct (spend_knock_token peer limits c1) as [g c2] eqn:E2. cbn [fst snd] in Hgr, Hrows. subst g.
  apply spend_budget in E2. rewrite Hd1 in E2. destruct heard eqn:Eh; cbn [negb]; [|by split_and!].
  rewrite <-Hrows. destruct (timed_decide _ _ _ _ _ c2) as [[dc dur] c3] eqn:E3. apply timed_cases in E3 as (_ & (ta & Hd3) & _).
  assert (Haudit : forall i s decision by_ reason, nd_knock (n_db (snd (audit_full peer i s "{}" decision by_ reason dur c3))) = nd_knock (n_db c2)).
  { intros i s decision by_ reason. destruct (audit_full _ _ _ _ _ _ _ _ c3) as [aid c4] eqn:E4. apply audit_data in E4 as (_ & _ & Hk4 & _). cbn [snd].
    by rewrite Hk4, Hd3. }
  assert (Hpark : forall cc, nd_knock (n_db cc) = nd_knock (n_db c2) ->
    let '(reply, c') := (let '(i, conn) := park_knock peer id message cc in (parked_reply i, conn)) in
    (reply = Dropped <-> true = false) /\ nd_knock (n_db c') = nd_knock (n_db c2) /\ (true = false -> budget_only (n_db c) (n_db c'))).
  { intros cc Hcc. pose proof (park_knock_knock peer id message cc) as Hp. destruct (park_knock peer id message cc) as [i c5]. cbn in *.
    split_and!; [done|congruence|done]. }
  destruct (dc_decision dc) as [|rw|reason|]; [| |case_bool_decide|]; try (by apply Hpark, Haudit);
    (split_and!; [done| |done]); rewrite ?admit_peer_knock; apply Haudit.
Qed.

(** C38. The buckets decide who is heard: when no statement fails, the knock of a
    stranger goes unanswered exactly when its own bucket or the one of all does
    not hold a whole token, and then changes nothing but the budgets. A bucket
    holds what was stored and what the time since has added at its rate, never
    more than its burst, and nothing for a clock that went back; one token
    leaves each bucket when the knock is heard, and none otherwise. *)
Theorem knock_budget (peer : string) (rid : option string) (message : string) (chain : Chain) (limits : KnockLimits)
    (c : NConn D) (t : gmap string KnockRow)
    (Hhealthy : n_healthy c) (Htable : nd_knock (n_db c) = Some t) (Hstranger : known_peer (n_db c) peer = false)
    (Hnow : is_nan (n_f64 c) = false)
    (Hkey : is_nan (per_key_burst limits) = false) (Hglobal : is_nan (global_burst limits) = false) :
  let mine := holds (stored t peer) (per_key_burst limits) (per_key_refill_per_sec limits) (n_f64 c) in
  let all := holds (stored t "*") (global_burst limits) (global_refill_per_sec limits) (n_f64 c) in
  let heard := f64_ge mine f64_one && f64_ge all f64_one in
  let '(reply, c') := weigh_knock peer rid message chain limits c in
  (reply = Dropped <-> heard = false) /\
  nd_knock (n_db c') = Some (<["*" := mkKnockRow (Some (spent heard all)) (Some (n_f64 c))]>
                              (<[peer := mkKnockRow (Some (spent heard mine)) (Some (n_f64 c))]> t)) /\
  (heard = false -> budget_only (n_db c) (n_db c')) /\
  f64_ge (per_key_burst limits) mine = true /\ f64_ge (global_burst limits) all = true.
Proof.
  pose proof (weigh_stranger peer rid message chain limits c t Hhealthy Htable Hstranger Hnow Hkey Hglobal) as H. cbv zeta in *.
  destruct (weigh_knock _ _ _ _ _ _) as [reply c']. destruct H as (H1 & H2 & H3).
  split_and!; [exact H1|exact H2|exact H3|rewrite <-refilled_holds by done; by apply refilled_le..].
Qed.

(** Knocking again does not stack up: parking keeps at most one pending knock
    per peer, and the answer names the one that waits; when no statement fails
    and the id is not taken. *)
Theorem knock_parked_once (peer id message : string) (c : NConn D) (Hhealthy : n_healthy c)
    (Htable : is_Some (db_inbox (nd_auth (n_db c))))
    (Hone : forall p, (length (pending p (inbox (n_db c))) <= 1)%nat)
    (Hfresh : id ∉ map in_request_id (inbox (n_db c))) :
  let '(id', c') := park_knock peer id message c in
  (forall p, (length (pending p (inbox (n_db c'))) <= 1)%nat) /\
  exists row, pending peer (inbox (n_db c')) = [row] /\ in_request_id row = id'.
Proof. destruct (park_knock peer id message c) as [id' c'] eqn:E. by eapply park_knock_parks in E. Qed.
End knock.

(** ** Witnesses *)

#[local] Existing Instances low_ids plain_text open_json.

(** A stranger who knocks again half a minute later, with half a token back. *)
Definition bob_knocked : NConn (list string) :=
  let d := demo_db [] in
  mkNConn (set_knock {["bob" := mkKnockRow (Some f64_zero) (Some f64_zero)]} d) None [] 0 (f64_int 30) [] (fun n => 1000000 * Z.of_nat n) 0 (0, 0).

Example knock_too_soon : fst (weigh_knock "bob" None "let me in" open_chain KnockLimits_default bob_knocked) = Dropped.
Proof. vm_compute. reflexivity. Qed.

Lemma knock_budget_witness :
  let t := {["bob" := mkKnockRow (Some f64_zero) (Some f64_zero)]} in
  let mine := holds (stored t "bob") f64_one (per_key_refill_per_sec KnockLimits_default) (f64_int 30) in
  let all := holds (stored t "*") (f64_int 20) (global_refill_per_sec KnockLimits_default) (f64_int 30) in
  let heard := f64_ge mine f64_one && f64_ge all f64_one in
  let '(reply, c') := weigh_knock "bob" None "let me in" open_chain KnockLimits_default bob_knocked in
  (reply = Dropped <-> heard = false) /\
  nd_knock (n_db c') = Some (<["*" := mkKnockRow (Some (spent heard all)) (Some (f64_int 30))]>
                              (<["bob" := mkKnockRow (Some (spent heard mine)) (Some (f64_int 30))]> t)) /\
  (heard = false -> budget_only (n_db bob_knocked) (n_db c')) /\
  f64_ge f64_one mine = true /\ f64_ge (f64_int 20) all = true.
Proof.
  apply (knock_budget "bob" None "let me in" open_chain KnockLimits_default bob_knocked {["bob" := mkKnockRow (Some f64_zero) (Some f64_zero)]});
    [constructor|reflexivity..].
Defined.

Lemma knock_parked_once_witness :
  let '(id', c') := park_knock "bob" "01J" "let me in" (demo_conn []) in
  (forall p, (length (pending p (inbox (n_db c'))) <= 1)%nat) /\
  exists row, pending "bob" (inbox (n_db c')) = [row] /\ in_request_id row = id'.
Proof.
  apply (knock_parked_once "bob" "01J" "let me in" (demo_conn [])).
  - constructor.
  - by eexists.
  - intros p. vm_compute. lia.
  - apply not_elem_of_nil.
Defined.
