(* ===== verification/NodeExecute.v ===== *)
(** * NodeExecute: running a cleared statement

    Models the second job of [crates/node/src/pipeline.rs]: the limits, the
    request's transaction, the enforce-mode prepare, the rows streamed out in
    batches under the row and byte caps, the [_applied] record that makes a
    retransmitted write harmless, and the frames that end a response. Also the
    execution of the statements of mods.

    The progress handler is called by the engine while it steps; the timer that
    interrupts a statement from outside is one of the ways a step can fail. *)

From S2P Require Import Prelude RustStd Effect Vocab External Instances Value Envelope Request AuthTypes Chain CivilDate Authorizer NodeDb.
From S2P Require Import NodeSql NodeGate NodeKnock.

Open Scope Z_scope.

(** ** Configuration and limits *)

Definition PROGRESS_GRANULARITY : Z := 500.

(** The hook between the two jobs is a seam for tests and is left out. *)
Record NodeConfig : Type := mkNodeConfig {
  max_rows : Z;
  max_response_bytes : Z;
  max_duration_ms : Z;
  vdbe_step_budget : Z;
  rows_per_frame : Z;
  frame_byte_budget : Z;
  pragma_allowlist : list string;
  knock_limits : KnockLimits;
  vibration_send_timeout_ms : Z;
  max_mod_memory_mb : Z;
  change_watch_interval_ms : Z
}.

Definition NodeConfig_default : NodeConfig :=
  mkNodeConfig 100000 (8 * 1024 * 1024) 30000 50000000 128 (96 * 1024) [] KnockLimits_default 10000 256 250.

Record Limits : Type := mkLimits {
  row_cap : Z;
  byte_cap : Z;
  lm_timeout_ms : Z;
  step_budget : Z
}.

(** An option that passes its test, clamped by the ceiling; else the ceiling. *)
Definition clamped (v : option Z) (ok : Z -> bool) (ceiling : Z) : Z :=
  match v with
  | Some v => if ok v then Z.min v ceiling else ceiling
  | None => ceiling
  end.

Definition Limits_effective (opts : RequestOptions) (cfg : NodeConfig) : Limits :=
  mkLimits (clamped (row_limit opts) (fun v => 0 <=? v) (max_rows cfg))
           (clamped (byte_limit opts) (fun v => 0 <? v) (max_response_bytes cfg))
           (clamped (timeout_ms opts) (fun v => 0 <? v) (max_duration_ms cfg))
           (vdbe_step_budget cfg).

Record ExecJob : Type := mkExecJob {
  jb_id : string;
  jb_sql : string;
  jb_params : list Value;
  jb_approved : Approved;
  jb_limits : Limits;
  jb_rows_per_frame : Z;
  jb_frame_byte_budget : Z;
  jb_pragma_allowlist : list string;
  jb_audit_id : Z
}.

Inductive Halt : Type :=
| ClientGone
| HDenied (reason : string)
| BadParam (m : string)
| HSqlite (e : SqlError).

Record Emitted : Type := mkEmitted {
  rows_out : Z;
  bytes_out : Z
}.

(** ** The response channel *)

(** What was sent, and how many more frames will be taken before a send fails
    ([None]: none does). A send fails when the client has hung up, and when the
    frame is too large for the stream ([stream_room] in NodeServe): either way
    nothing is taken after it. *)
Record Chan : Type := mkChan {
  ch_sent : list EnvelopeObject;
  ch_room : option nat
}.

Definition send (obj : EnvelopeObject) (ch : Chan) : bool * Chan :=
  match ch_room ch with
  | Some O => (false, ch)
  | Some (S n) => (true, mkChan (ch_sent ch ++ [obj]) (Some n))
  | None => (true, mkChan (ch_sent ch ++ [obj]) None)
  end.

(** ** Sizes and rows *)

(** [columns.iter().map(f).sum()]. *)
Definition zsum (l : list Z) : Z := foldr Z.add 0 l.
Definition str_size (s : string) : Z := Z.of_nat (str_len s).

Definition header_estimate (columns : list string) : Z := 64 + zsum (map (fun c => str_size c + 8) columns).

(** One cell and its share of the estimate; NULL is left out. *)
Definition cell_value (v : CellRef) : option (Z * Value) :=
  match v with
  | RNull => None
  | RInteger i => Some (20, Integer i)
  | RReal r => Some (26, Real r)
  | RText t => Some (str_size t + 16, Text (from_utf8_lossy t))
  | RBlob b => Some (Z.of_nat (length b) * 4 / 3 + 32, Blob b)
  end.

Fixpoint row_cells_from (columns : list string) (row : list CellRef) : result SqlError (list (string * Value) * Z) :=
  match columns, row with
  | [], _ => Ok ([], 0)
  | _ :: _, [] => Err (sql_failure "Invalid column index")
  | name :: columns', v :: row' =>
      let? (cells, est) := row_cells_from columns' row' in
      Ok (match cell_value v with
          | None => (cells, est)
          | Some (e, value) => ((name, value) :: cells, e + str_size name + 12 + est)
          end)
  end.

Definition row_from_sql (row : list CellRef) (columns : list string) (seq : Z) : result SqlError (Row * Z) :=
  let? (cells, est) := row_cells_from columns row in
  Ok (mkRow seq cells, 32 + est).

Definition is_blob_ref (v : Value) : bool := match v with BlobRef _ _ => true | _ => false end.

Definition error_frame (id : string) (code : ErrorCode) (reason : string) : EnvelopeObject :=
  OError (mkErrorEnvelope (Some id) (ErrorCode_as_str code) (Some reason)).

(** ** The progress handler *)

Record Progress : Type := mkProgress {
  pg_units : Z;
  pg_steps_exceeded : bool;
  pg_timed_out : bool
}.

(** The outcome of a write as JSON ([serde_json]): affected rows and last row
    id; reading it back gives what is there. *)
Class AppliedJson : Type := {
  outcome_json : Z -> Z -> string;
  parse_outcome : string -> option Z * option Z
}.

Section execute.
Context {D : Type} `{HQ : !Sqlite D} `{HR : !RowIds} `{HD : !AuthDebug} `{HO : !AppliedJson}.
Implicit Types (conn : NConn D) (ch : Chan).

(** One call of the handler: stop, or go on. *)
Definition progress_call (budget_units deadline : Z) (p : Progress) conn : bool * Progress * NConn D :=
  let units := pg_units p + 1 in
  if budget_units <? units then (true, mkProgress units true (pg_timed_out p), conn)
  else
    let '(now, conn) := instant_now conn in
    if deadline <=? now then (true, mkProgress units (pg_steps_exceeded p) true, conn)
    else (false, mkProgress units (pg_steps_exceeded p) (pg_timed_out p), conn).

Fixpoint progress_calls (n : nat) (budget_units deadline : Z) (p : Progress) conn : bool * Progress * NConn D :=
  match n with
  | O => (false, p, conn)
  | S n' => match progress_call budget_units deadline p conn with
            | (true, p, conn) => (true, p, conn)
            | (false, p, conn) => progress_calls n' budget_units deadline p conn
            end
  end.

(** [rows.next()] with the handler armed. A step that would not end goes on
    calling the handler; after the budget's units it is stopped. *)
Definition next_row (budget_units deadline : Z) (s : Stmt) (p : Progress) conn :
    result SqlError (option (list CellRef) * Stmt) * Progress * NConn D :=
  let '(calls, st) := sq_step (n_db conn) s in
  let n := match calls with Some n => n | None => Z.to_nat (budget_units - pg_units p + 1) end in
  let '(stopped, p, conn) := progress_calls n budget_units deadline p conn in
  if stopped then (Err interrupted, p, conn)
  else (rmap (fun row => (row, sp_stmt st)) (sp_answer st), p, apply_step st conn).

(** ** The frames *)

(** The state is the connection, the channel and what the progress handler
    keeps, which outlives an error. *)
Definition Exec (A : Type) : Type := Eff (NConn D * Chan * Progress) Halt A.

Definition on_conn {A} (m : NM (D:=D) SqlError A) : Exec A := fun '(conn, ch, p) =>
  let '(r, conn) := m conn in (map_err HSqlite r, (conn, ch, p)).

Definition push_frame (obj : EnvelopeObject) : Exec unit := fun '(conn, ch, p) =>
  let '(sent, ch) := send obj ch in
  (if sent then Ok tt else Err ClientGone, (conn, ch, p)).

Definition push_frame_lossy (obj : EnvelopeObject) ch : Chan := snd (send obj ch).

Definition answer_from_applied (id outcome : string) : Exec Emitted :=
  let '(affected, last_rowid) := parse_outcome outcome in
  let* _ := push_frame (OResult (mkResultHeader id [] [])) in
  let* _ := push_frame (ODone (mkDone id (Some 0) affected last_rowid false)) in
  eret (mkEmitted 0 0).

(** ** The rows *)

(** The locals of the streaming loop. *)
Record Stream : Type := mkStream {
  sm_stmt : Stmt;
  sm_seq : Z;
  sm_truncated : bool;
  sm_batch : list Row;
  sm_batch_bytes : Z;
  sm_bytes_out : Z
}.

Definition with_stmt (s : Stmt) (sm : Stream) : Stream :=
  mkStream s (sm_seq sm) (sm_truncated sm) (sm_batch sm) (sm_batch_bytes sm) (sm_bytes_out sm).
Definition truncate (sm : Stream) : Stream :=
  mkStream (sm_stmt sm) (sm_seq sm) true (sm_batch sm) (sm_batch_bytes sm) (sm_bytes_out sm).
Definition add_row (row : Row) (est : Z) (sm : Stream) : Stream :=
  mkStream (sm_stmt sm) (sm_seq sm + 1) (sm_truncated sm) (sm_batch sm ++ [row])
    (sm_batch_bytes sm + est) (sm_bytes_out sm).

(** The batch is counted and sent. *)
Definition flush (sm : Stream) : Exec Stream :=
  let* _ := push_frame (ORow (sm_batch sm)) in
  eret (mkStream (sm_stmt sm) (sm_seq sm) (sm_truncated sm) [] 0
          (sm_bytes_out sm + sm_batch_bytes sm)).

Section rows.
Variables (job : ExecJob) (columns : list string) (budget_units deadline : Z).

Definition step_rows (sm : Stream) : Exec (option (list CellRef) * Stream) := fun '(conn, ch, p) =>
  let '(r, p, conn) := next_row budget_units deadline (sm_stmt sm) p conn in
  (map_err HSqlite (rmap (fun '(row, s) => (row, with_stmt s sm)) r), (conn, ch, p)).

(** A row that fits is taken; [None] when the byte cap is reached. *)
Definition take_row (row : list CellRef) (sm : Stream) : Exec (option Stream) :=
  let* (proto_row, est) := elift (map_err HSqlite (row_from_sql row columns (sm_seq sm))) in
  if byte_cap (jb_limits job) <? sm_bytes_out sm + (sm_batch_bytes sm + est) then eret None
  else
    let sm := add_row proto_row est sm in
    if (jb_rows_per_frame job <=? Z.of_nat (length (sm_batch sm))) || (jb_frame_byte_budget job <=? sm_batch_bytes sm)
    then let* sm := flush sm in eret (Some sm)
    else eret (Some sm).

(** [n] is how many rows the row cap leaves, so that the test fails before it
    is used up. *)
Fixpoint rows_loop (n : nat) (sm : Stream) : Exec Stream :=
  let* (row, sm) := step_rows sm in
  match row with
  | None => eret sm
  | Some row =>
      if row_cap (jb_limits job) <=? sm_seq sm then eret (truncate sm)
      else match n with
           | O => eret (truncate sm)
           | S n' => let* taken := take_row row sm in
                     match taken with
                     | None => eret (truncate sm)
                     | Some sm => rows_loop n' sm
                     end
           end
  end.

Definition last_batch (sm : Stream) : Exec Stream :=
  match sm_batch sm with [] => eret sm | _ => flush sm end.

Definition stream_rows (s : Stmt) : Exec Stream :=
  let* sm := rows_loop (Z.to_nat (row_cap (jb_limits job)))
               (mkStream s 0 false [] 0 (header_estimate columns)) in
  last_batch sm.

End rows.

(** ** The transaction *)

Definition applied_row (id : string) (d : NodeDb D) : result SqlError (option string) :=
  let? t := nneed "_applied" (nd_applied d) in
  match t !! id with
  | None => Ok None
  | Some row => rmap Some (map_err sql_failure (get_string (al_outcome row)))
  end.

Definition insert_applied (id at_ outcome : string) (d : NodeDb D) : result SqlError (unit * NodeDb D) :=
  let? t := nneed "_applied" (nd_applied d) in
  match t !! id with
  | Some _ => Err (sql_failure "UNIQUE constraint failed: _applied.request_id")
  | None => Ok (tt, set_applied (<[id := mkAppliedRow at_ (SText outcome)]> t) d)
  end.

(** [tx.prepare] under enforcement: the recorded reason, or the error. *)
Definition enforced_prepare (approved : Approved) (allowlist : list string) (sql : string) : Exec Stmt :=
  let* _ := on_conn ncall in
  fun '(conn, ch, p) =>
    let '(prep, reason) := prepare_under (enforce_authorizer approved allowlist) sql None conn in
    (map_err (fun e => match reason with Some r => HDenied r | None => HSqlite e end) prep, (conn, ch, p)).

Definition read_instant : Exec Z := etotal (fun '(conn, ch, p) => let '(t, conn) := instant_now conn in (t, (conn, ch, p))).

(** Dropping the rows and the statement: what it counted is known. *)
Definition finish_stmt (s : Stmt) : Exec (Z * Z) := fun '(conn, ch, p) =>
  let counts := sq_finish s (n_counts conn) in (Ok counts, (set_counts counts conn, ch, p)).

Definition record_applied (id : string) (affected last_rowid : Z) : Exec unit := fun '(conn, ch, p) =>
  on_conn (nsql (insert_applied id (rfc3339 (n_secs conn)) (outcome_json affected last_rowid))) (conn, ch, p).

(** What follows the look into [_applied], up to the commit and the trailer. *)
Definition execute_fresh (job : ExecJob) (is_write : bool) : Exec Emitted :=
  let* stmt := enforced_prepare (jb_approved job) (jb_pragma_allowlist job) (jb_sql job) in
  let* start := read_instant in
  let deadline := start + lm_timeout_ms (jb_limits job) * 1000000 in
  let budget_units := step_budget (jb_limits job) / PROGRESS_GRANULARITY in
  let* _ := on_conn ncall in
  let columns := map fst (sq_columns stmt) in
  let decl_types := map (fun c => default "" (snd c)) (sq_columns stmt) in
  let* _ := push_frame (OResult (mkResultHeader (jb_id job) columns decl_types)) in
  let* _ := (if existsb is_blob_ref (jb_params job)
             then ethrow (BadParam "rsntr:BlobRef parameters are not supported yet") else eret tt) in
  let* stmt := elift (map_err HSqlite (sq_bind (jb_params job) stmt)) in
  let* sm := stream_rows job columns budget_units deadline stmt in
  let* (affected, last_rowid) := finish_stmt (sm_stmt sm) in
  let* _ := (if is_write then record_applied (jb_id job) affected last_rowid else eret tt) in
  let* _ := on_conn commit in
  let when_write (z : Z) := if is_write then Some z else None in
  let* _ := push_frame (ODone (mkDone (jb_id job) (Some (sm_seq sm)) (when_write affected) (when_write last_rowid)
                                 (sm_truncated sm))) in
  eret (mkEmitted (sm_seq sm) (sm_bytes_out sm)).

(** The transaction is dropped at the end of the block, whatever ended it. *)
Definition in_tx {A} (body : Exec A) : Exec A :=
  let* _ := on_conn begin_transaction in
  fun s => let '(r, (conn, ch, p)) := body s in (r, (drop_transaction conn, ch, p)).

Definition execute_in_tx (job : ExecJob) : Exec Emitted :=
  let is_write := bool_decide (kind (ap_footprint (jb_approved job)) = Write) in
  in_tx
    (let* recorded := (if is_write then on_conn (nquery (applied_row (jb_id job))) else eret None) in
     match recorded with
     | Some json => answer_from_applied (jb_id job) json
     | None => execute_fresh job is_write
     end).

Definition is_busy (e : SqlError) : bool :=
  match se_code e with DatabaseBusy | DatabaseLocked => true | _ => false end.

Definition is_interrupted (e : SqlError) : bool :=
  match se_code e with OperationInterrupted => true | _ => false end.

Definition busy_reason : string := "database busy: another process held the write lock longer than 5s; retry".

(** The error frame of a halt. *)
Definition halt_frame (id : string) (steps_exceeded : bool) (h : Halt) : option EnvelopeObject :=
  match h with
  | ClientGone => None
  | HDenied reason => Some (error_frame id AuthDenied reason)
  | BadParam msg => Some (error_frame id EngineError msg)
  | HSqlite e =>
      Some (if is_interrupted e && steps_exceeded then error_frame id LimitExceeded "VDBE step budget exhausted"
            else if is_interrupted e then
              error_frame id Timeout "wall-clock deadline elapsed; statement interrupted and rolled back"
            else if is_busy e then error_frame id EngineError busy_reason
            else error_frame id EngineError (se_text e))
  end.

Definition run_execute (job : ExecJob) (conn : NConn D) (ch : Chan) : NConn D * Chan :=
  match execute_in_tx job (conn, ch, mkProgress 0 false false) with
  | (Ok emitted, (conn, ch, _)) =>
      (audit_outcome (jb_audit_id job) (rows_out emitted) (bytes_out emitted) conn, ch)
  | (Err h, (conn, ch, p)) =>
      (conn, match halt_frame (jb_id job) (pg_steps_exceeded p) h with
             | Some frame => push_frame_lossy frame ch
             | None => ch
             end)
  end.

End execute.

(** * statements run by mods

    Models [run_mod_statement], [execute_mod_statement] and
    [execute_mod_inner] of [crates/node/src/pipeline.rs]. No progress handler
    is installed here: a step that does not end by itself does not end, which
    is [None]. *)

Inductive ModDbOutcome : Type :=
| MDenied (reason : string)
| MError (message : string)
| MRows (columns : list string) (rows : list (list CellRef))
| MExecuted (rows_affected : Z).

Definition engine_err (e : SqlError) : ModDbOutcome := MError (se_text e).

(** [row.get::<_, Value>(i)] for each column: text must be UTF-8. *)
Fixpoint owned_cells (columns : list string) (row : list CellRef) : result SqlError (list CellRef) :=
  match columns, row with
  | [], _ => Ok []
  | _ :: _, [] => Err (sql_failure "Invalid column index")
  | _ :: columns', v :: row' =>
      let? v := match v with
                | RText t => if utf8_valid t then Ok v else Err (sql_failure "invalid utf-8 sequence")
                | _ => Ok v
                end in
      let? row' := owned_cells columns' row' in Ok (v :: row')
  end.

Section mods.
Context {D : Type} `{HQ : !Sqlite D} `{HR : !RowIds} `{HD : !AuthDebug} `{HT : !NodeText} `{HJ : !ChainJson}.
Implicit Types (conn : NConn D).

(** [n] is how many rows the node's cap leaves. *)
Fixpoint mod_rows (n : nat) (max_rows : Z) (columns : list string) (s : Stmt) (rows_out : list (list CellRef)) conn :
    option (result SqlError (list (list CellRef) * Stmt) * NConn D) :=
  let '(calls, st) := sq_step (n_db conn) s in
  match calls with
  | None => None
  | Some _ =>
      let conn := apply_step st conn in
      match sp_answer st with
      | Err e => Some (Err e, conn)
      | Ok None => Some (Ok (rows_out, sp_stmt st), conn)
      | Ok (Some row) =>
          if max_rows <=? Z.of_nat (length rows_out) then Some (Ok (rows_out, sp_stmt st), conn)
          else match n with
               | O => Some (Ok (rows_out, sp_stmt st), conn)
               | S n' => match owned_cells columns row with
                         | Err e => Some (Err e, conn)
                         | Ok cells => mod_rows n' max_rows columns (sp_stmt st) (rows_out ++ [cells]) conn
                         end
               end
      end
  end.

(** Between the begin and the end of the transaction. *)
Definition execute_mod_body (approved : Approved) (sql : string) (params : list Value) (config : NodeConfig) conn :
    option (ModDbOutcome * NConn D) :=
  match ncall conn with
  | (Err e, conn) => Some (engine_err e, conn)
  | (Ok _, conn) =>
      let '(prep, reason) := prepare_under (enforce_authorizer approved (pragma_allowlist config)) sql None conn in
      match prep with
      | Err e => Some (match reason with Some r => MDenied r | None => engine_err e end, conn)
      | Ok stmt =>
          let columns := map fst (sq_columns stmt) in
          match sq_bind params stmt with
          | Err e => Some (engine_err e, conn)
          | Ok stmt =>
              match mod_rows (Z.to_nat (max_rows config)) (max_rows config) columns stmt [] conn with
              | None => None
              | Some (Err e, conn) => Some (engine_err e, conn)
              | Some (Ok (rows, stmt), conn) =>
                  let counts := sq_finish stmt (n_counts conn) in
                  match commit (set_counts counts conn) with
                  | (Err e, conn) => Some (engine_err e, conn)
                  | (Ok _, conn) =>
                      Some (if bool_decide (kind (ap_footprint approved) = Write) then MExecuted (fst counts)
                            else MRows columns rows, conn)
                  end
              end
          end
      end
  end.

Definition execute_mod_statement (approved : Approved) (sql : string) (params : list Value) (config : NodeConfig) conn :
    option (ModDbOutcome * NConn D) :=
  if existsb is_blob_ref params then Some (MError "rsntr:BlobRef parameters are not supported yet", conn)
  else match begin_transaction conn with
       | (Err e, conn) => Some (engine_err e, conn)
       | (Ok _, conn) =>
           match execute_mod_body approved sql params config conn with
           | None => None
           | Some (outcome, conn) => Some (outcome, drop_transaction conn)
           end
       end.

Definition run_mod_statement (peer request_id : string) (chain : Chain) (config : NodeConfig) (sql : string)
    (params : list Value) (write_allowed : bool) conn : option (ModDbOutcome * NConn D) :=
  let '(verdict, conn) := gate_mod_statement peer request_id chain (pragma_allowlist config) sql write_allowed conn in
  match verdict with
  | UnknownPeer => Some (MDenied "unknown peer", conn)
  | Banned reason | VDenied reason => Some (MDenied reason, conn)
  | PrepareFailed message => Some (MError message, conn)
  | Cleared approved exec_sql audit_id =>
      match execute_mod_statement approved exec_sql params config conn with
      | Some (MRows columns rows, conn) =>
          Some (MRows columns rows, audit_outcome audit_id (Z.of_nat (length rows)) 0 conn)
      | r => r
      end
  end.

End mods.
