(* ===== verification/NodeExecuteProps.v ===== *)
(** * NodeExecuteProps: the frames of an executed statement

    What the streaming loop sends is the statement's answer, numbered, batched
    and within the caps; with a header before and a trailer or an error after
    it is a response in the sense of the protocol. What is committed is the
    statement run to its end or to a cap, with its record, or nothing. *)

From S2P Require Import Prelude RustStd Effect Vocab External Instances Value Envelope Request Response AuthTypes Chain CivilDate.
From S2P Require Import Authorizer NodeDb NodeSql NodeGate NodeDemo NodeGateProps NodeKnock NodeExecute.

Open Scope Z_scope.

(** ** Numbered rows *)

Lemma row_run_app columns rows1 : forall n rows2 n2,
  row_run columns n (rows1 ++ rows2) n2 <-> exists n1, row_run columns n rows1 n1 /\ row_run columns n1 rows2 n2.
Proof.
  induction rows1 as [|row rows1 IH]; intros n rows2 n2; cbn.
  - split; [intros H; exists n; split; [constructor|done]|intros (n1 & H1 & H2); by inversion H1; subst].
  - split.
    + intros H. inversion H as [|? ? ? ? Hs Hc Hr]; subst. apply IH in Hr as (n1 & H1 & H2).
      exists n1. split; [by constructor|done].
    + intros (n1 & H1 & H2). inversion H1 as [|? ? ? ? Hs Hc Hr]; subst. constructor; [done..|]. apply IH. by exists n1.
Qed.

Lemma rows_body_batches id columns end_ batches : forall n n',
  Forall (fun b => b <> []) batches -> row_run columns n (concat batches) n' -> rows_body id columns n' [end_] ->
  rows_body id columns n (map ORow batches ++ [end_]).
Proof.
  induction batches as [|b batches IH]; intros n n' Hne Hrun Hend; cbn in *.
  - by inversion Hrun; subst.
  - inversion Hne as [|? ? Hb Hbs]; subst. apply row_run_app in Hrun as (n1 & H1 & H2).
    econstructor; [done|exact H1|]. by eapply IH.
Qed.

(** ** Rows of the protocol *)

Section converted.
Variable columns : list string.

(** The rows as the protocol has them, numbered from 0, and their estimate. *)
Inductive converted : list (list CellRef) -> list Row -> Z -> Prop :=
| conv_nil : converted [] [] 0
| conv_snoc taken protos est row proto e :
    converted taken protos est -> row_from_sql row columns (Z.of_nat (length taken)) = Ok (proto, e) ->
    converted (taken ++ [row]) (protos ++ [proto]) (est + e).

Lemma row_cells_names cols : forall row cells est,
  row_cells_from cols row = Ok (cells, est) -> Forall (fun '(name, _) => name ∈ cols) cells.
Proof.
  induction cols as [|name cols IH]; intros row cells est; cbn; [by intros [= <- _]|].
  destruct row as [|v row]; [done|]. destruct (row_cells_from cols row) as [[cells' est']|] eqn:E; [|done]. cbn.
  assert (Forall (fun '(n, _) => n ∈ name :: cols) cells') as H.
  { eapply Forall_impl; [by eapply IH|]. intros [n w] ?. by apply elem_of_cons; right. }
  destruct (cell_value v) as [[e w]|]; intros [= <- _]; [|done]. constructor; [|done]. apply elem_of_cons. by left.
Qed.

Lemma converted_length taken protos est : converted taken protos est -> length protos = length taken.
Proof. induction 1 as [|taken protos est row proto e _ IH _]; [done|]. by rewrite !length_app, IH. Qed.

Lemma converted_run taken protos est :
  converted taken protos est -> Z.of_nat (length taken) <= I64_MAX ->
  row_run columns 0 protos (Z.of_nat (length taken)).
Proof.
  induction 1 as [|taken protos est row proto e _ IH Hrow]; intros Hlen; [constructor|].
  rewrite length_app in *. cbn [length] in *. apply row_run_app. exists (Z.of_nat (length taken)). split; [apply IH; lia|].
  unfold row_from_sql in Hrow. destruct (row_cells_from columns row) as [[cells e']|] eqn:E; [|done]. injection Hrow as <- _.
  constructor; [done|by eapply row_cells_names|]. rewrite i64_incr_small by lia.
  replace (Z.of_nat (length taken + 1)) with (Z.of_nat (length taken) + 1) by lia. constructor.
Qed.
End converted.

(** The statement is over after these rows: SQLite has no more, or the next one
    that it gives would go beyond the row cap or the byte cap. An error is no
    end. *)
Definition over (job : ExecJob) (columns : list string) (rows : list (list CellRef))
    (answer : result SqlError (option (list CellRef))) : Prop :=
  match answer with
  | Ok None => True
  | Ok (Some row) =>
      row_cap (jb_limits job) <= Z.of_nat (length rows) \/
      exists protos est proto e, converted columns rows protos est /\
        row_from_sql row columns (Z.of_nat (length rows)) = Ok (proto, e) /\
        byte_cap (jb_limits job) < header_estimate columns + est + e
  | Err _ => False
  end.

Section stream.
Context {D : Type} `{HQ : !Sqlite D}.
Implicit Types (conn : NConn D) (ch : Chan).

(** ** The answer of a statement *)

(** From database [d], stepping [s] gives these rows. *)
Inductive ran (d : NodeDb D) (s : Stmt) : list (list CellRef) -> NodeDb D -> Stmt -> Prop :=
| ran_nil : ran d s [] d s
| ran_row rows d' s' calls st row :
    ran d s rows d' s' -> sq_step d' s' = (calls, st) -> sp_answer st = Ok (Some row) ->
    ran d s (rows ++ [row]) (sp_db st) (sp_stmt st).

(** After these rows the next step gives [row]. *)
Definition gives (d : NodeDb D) (s : Stmt) (rows : list (list CellRef)) (row : list CellRef) : Prop :=
  exists d' s', ran d s rows d' s' /\ sp_answer (snd (sq_step d' s')) = Ok (Some row).

(** The rows are all of the answer, or what comes before a row that would go
    beyond a cap. *)
Definition answers_with (job : ExecJob) (columns : list string) (d : NodeDb D) (s : Stmt)
    (rows : list (list CellRef)) (all : bool) : Prop :=
  exists d' s', ran d s rows d' s' /\
    let answer := sp_answer (snd (sq_step d' s')) in over job columns rows answer /\ (all = true <-> answer = Ok None).

Lemma cut_short job columns d s rows row :
  gives d s rows row -> over job columns rows (Ok (Some row)) -> answers_with job columns d s rows false.
Proof. intros (d' & s' & Hr & Ha) Ho. exists d', s'. cbv zeta. rewrite Ha. by split_and!. Qed.

(** Statements that do not control transactions. *)
Definition keeps_tx : Prop := forall d s, sp_tx (snd (sq_step d s)) = TxKept.

Lemma progress_calls_quiet n budget deadline : forall p conn b p' conn',
  progress_calls n budget deadline p conn = (b, p', conn') -> quiet conn conn'.
Proof.
  induction n as [|n IH]; intros p conn b p' conn'; cbn; [by intros [= _ _ <-]|].
  unfold progress_call. destruct (budget <? pg_units p + 1); [by intros [= _ _ <-]|].
  destruct (instant_now conn) as [now conn1] eqn:E. apply instant_quiet in E.
  destruct (deadline <=? now); [by intros [= _ _ <-]|]. intros H%IH. by etrans.
Qed.

Section loop.
Variables (job : ExecJob) (columns : list string) (budget deadline : Z).
Variables (d0 : NodeDb D) (s0 : Stmt) (objs0 : list EnvelopeObject).

Definition per_frame : Z := Z.max 1 (jb_rows_per_frame job).
Definition good_batch (b : list Row) : Prop := b <> [] /\ Z.of_nat (length b) <= per_frame.

(** What was sent so far: batches of numbered rows. *)
Definition sent_rows ch (batches : list (list Row)) : Prop :=
  ch_room ch = None /\ ch_sent ch = objs0 ++ map ORow batches /\ Forall good_batch batches.

Definition within_caps (taken : list (list CellRef)) (est : Z) : Prop :=
  (taken = [] \/ header_estimate columns + est <= byte_cap (jb_limits job)) /\
  Z.of_nat (length taken) <= Z.max 0 (row_cap (jb_limits job)).

Definition counted (sm : Stream) (taken : list (list CellRef)) (est : Z) : Prop :=
  sm_seq sm = Z.of_nat (length taken) /\ sm_bytes_out sm + sm_batch_bytes sm = header_estimate columns + est /\
  (sm_batch sm = [] -> sm_batch_bytes sm = 0).

Definition streaming (sm : Stream) (Ran : list (list CellRef) -> NConn D -> Prop) : NConn D * Chan * Progress -> Prop :=
  fun '(conn, ch, _) => exists taken protos est batches,
    sent_rows ch batches /\ concat batches ++ sm_batch sm = protos /\ converted columns taken protos est /\
    counted sm taken est /\ within_caps taken est /\ Z.of_nat (length (sm_batch sm)) < per_frame /\ Ran taken conn.

(** The loop goes on from here. *)
Definition going (sm : Stream) : list (list CellRef) -> NConn D -> Prop :=
  fun taken conn => keeps_tx -> ran d0 s0 taken (n_db conn) (sm_stmt sm).

(** The loop has ended. *)
Definition ended (sm : Stream) : list (list CellRef) -> NConn D -> Prop :=
  fun taken _ => keeps_tx -> answers_with job columns d0 s0 taken (negb (sm_truncated sm)).

(** An error in between: whole batches were sent. *)
Definition broken (h : Halt) : NConn D * Chan * Progress -> Prop :=
  fun '(conn, ch, _) => h <> ClientGone /\ exists batches n,
    sent_rows ch batches /\ row_run columns 0 (concat batches) n.

Hypothesis Hcap : row_cap (jb_limits job) <= I64_MAX.

Lemma streaming_broken sm R h s : h <> ClientGone -> streaming sm R s -> broken h s.
Proof.
  destruct s as [[conn ch] p]. intros Hh (taken & protos & est & batches & Hs & Hp & Hc & _ & [_ Hcaps] & _).
  split; [done|]. apply converted_run in Hc; [|unfold I64_MAX in *; lia]. rewrite <-Hp in Hc.
  apply row_run_app in Hc as (n & Hr & _). by exists batches, n.
Qed.

(** A step of the statement. *)
Lemma step_rows_spec sm : sm_truncated sm = false ->
  triple (streaming sm (going sm)) (step_rows budget deadline sm)
    (fun '(row, sm') s => sm' = with_stmt (sm_stmt sm') sm /\
       match row with
       | None => streaming sm' (ended sm') s
       | Some row => streaming sm' (fun taken conn => keeps_tx ->
                       ran d0 s0 (taken ++ [row]) (n_db conn) (sm_stmt sm') /\ gives d0 s0 taken row) s
       end) broken.
Proof.
  intros Htr [[conn ch] p] Hs. unfold step_rows, next_row.
  destruct (sq_step (n_db conn) (sm_stmt sm)) as [calls st] eqn:Est.
  destruct (progress_calls _ budget deadline p conn) as [[stopped p'] conn'] eqn:Epg.
  apply progress_calls_quiet in Epg as (Hd & _).
  assert (Hb : forall h cc pp, h <> ClientGone -> broken h (cc, ch, pp)).
  { intros h cc pp Hh. apply (streaming_broken sm (going sm) h (conn, ch, p) Hh) in Hs. exact Hs. }
  destruct stopped; [cbn; by apply Hb|].
  destruct (sp_answer st) as [row|e] eqn:Ea; cbn; [|by apply Hb].
  assert (Hkept : keeps_tx -> n_db (apply_step st conn') = sp_db st).
  { intros Hk. unfold apply_step. specialize (Hk (n_db conn) (sm_stmt sm)). rewrite Est in Hk. cbn in Hk. by rewrite Hk. }
  split; [done|].
  destruct Hs as (taken & protos & est & batches & H1 & H2 & H3 & H4 & H5 & H6 & H7).
  destruct row as [row|]; exists taken, protos, est, batches; split_and!; try done.
  - intros Hk. specialize (H7 Hk). split; [|exists (n_db conn), (sm_stmt sm); by rewrite Est].
    rewrite (Hkept Hk). by eapply ran_row.
  - intros Hk. specialize (H7 Hk). cbn. exists (n_db conn), (sm_stmt sm). cbv zeta. rewrite Est. cbn [snd]. rewrite Ea, Htr. by split_and!.
Qed.

(** Sending the batch. *)
Lemma flush_spec sm Ran :
  sm_batch sm <> [] -> Z.of_nat (length (sm_batch sm)) <= per_frame ->
  triple (fun '(conn, ch, _) => exists taken protos est batches,
            sent_rows ch batches /\ concat batches ++ sm_batch sm = protos /\ converted columns taken protos est /\
            counted sm taken est /\ within_caps taken est /\ Ran taken conn)
    (flush (D:=D) sm)
    (fun sm' s => sm' = mkStream (sm_stmt sm) (sm_seq sm) (sm_truncated sm) [] 0 (sm_bytes_out sm + sm_batch_bytes sm) /\
                  streaming sm' Ran s) broken.
Proof.
  intros Hne Hlen [[conn ch] p] (taken & protos & est & batches & (Hr & Hsent & Hb) & H2 & H3 & (Hc1 & Hc2 & Hc3) & H5 & H7).
  unfold flush, ebind, push_frame, send. rewrite Hr. cbn. split; [done|].
  exists taken, protos, est, (batches ++ [sm_batch sm]). split_and!; try done.
  - unfold sent_rows. cbn. split_and!; [done|by rewrite Hsent, map_app, <-app_assoc|].
    apply Forall_app. split; [done|]. by repeat constructor.
  - by rewrite concat_app, <-H2; cbn; rewrite !app_nil_r.
  - unfold counted. cbn. split_and!; [done|lia|done].
  - cbn. unfold per_frame. lia.
Qed.

Lemma take_row_spec row sm : sm_seq sm < row_cap (jb_limits job) ->
  triple (streaming sm (fun taken conn => keeps_tx ->
            ran d0 s0 (taken ++ [row]) (n_db conn) (sm_stmt sm) /\ gives d0 s0 taken row))
    (take_row job columns row sm)
    (fun o s => match o with
       | Some sm' => sm_truncated sm' = sm_truncated sm /\ sm_seq sm' = sm_seq sm + 1 /\ streaming sm' (going sm') s
       | None => streaming sm (fun taken _ => keeps_tx -> answers_with job columns d0 s0 taken false) s
       end) broken.
Proof.
  intros Hseq. unfold take_row. eapply triple_bind.
  { apply triple_lift. intros h s Hs Hr. destruct (row_from_sql _ _ _); [done|]. injection Hr as <-. by eapply streaming_broken. }
  intros [proto e]. apply triple_pure. intros Hrow.
  destruct (row_from_sql row columns (sm_seq sm)) as [[proto' e']|] eqn:Er; [|done]. injection Hrow as -> ->.
  destruct (Z.ltb_spec (byte_cap (jb_limits job)) (sm_bytes_out sm + (sm_batch_bytes sm + e))) as [Hbig|Hfit].
  { eapply triple_pre; [apply triple_ret|]. intros [[conn ch] p] (taken & protos & est & batches & H1 & H2 & H3 & H4 & H5 & H6 & H7).
    destruct H4 as (Hc1 & Hc2 & Hc3). exists taken, protos, est, batches. split_and!; try done.
    intros Hk. eapply cut_short; [by apply H7|]. right. exists protos, est, proto, e. rewrite <-Hc1. split_and!; [done..|lia]. }
  assert (Hadd : forall conn ch p, streaming sm (fun taken conn => keeps_tx ->
      ran d0 s0 (taken ++ [row]) (n_db conn) (sm_stmt sm) /\ gives d0 s0 taken row) (conn, ch, p) ->
    exists taken protos est batches, sent_rows ch batches /\ concat batches ++ sm_batch (add_row proto e sm) = protos /\
      converted columns taken protos est /\ counted (add_row proto e sm) taken est /\ within_caps taken est /\
      going sm taken conn).
  { intros conn ch p (taken & protos & est & batches & H1 & H2 & H3 & (Hc1 & Hc2 & Hc3) & (Hb & Hl) & H6 & H7).
    exists (taken ++ [row]), (protos ++ [proto]), (est + e), batches. split_and!.
    - done.
    - cbn. by rewrite app_assoc, H2.
    - constructor; [done|]. by rewrite <-Hc1.
    - unfold counted. cbn. rewrite length_app. cbn. split_and!; [lia|lia|]. by destruct (sm_batch sm).
    - split; [right; lia|]. rewrite length_app. cbn. lia.
    - intros Hk. by apply H7. }
  assert (Hlen : forall s, streaming sm (fun taken conn => keeps_tx ->
      ran d0 s0 (taken ++ [row]) (n_db conn) (sm_stmt sm) /\ gives d0 s0 taken row) s ->
    Z.of_nat (length (sm_batch sm)) < per_frame).
  { intros [[conn ch] p] (taken & protos & est & batches & _ & _ & _ & _ & _ & H6 & _). done. }
  destruct ((jb_rows_per_frame job <=? Z.of_nat (length (sm_batch (add_row proto e sm)))) ||
            (jb_frame_byte_budget job <=? sm_batch_bytes (add_row proto e sm))) eqn:Efull.
  - eapply triple_pre; [|intros s Hs; exact (conj (Hlen s Hs) Hs)]. apply triple_pure. intros Hl.
    eapply triple_bind.
    { eapply triple_pre; [apply (flush_spec (add_row proto e sm) (going sm)); cbn; rewrite ?length_app; cbn; [by destruct (sm_batch sm)|lia]|].
      intros [[conn ch] p] Hs. by apply (Hadd conn ch p). }
    intros sm'. eapply triple_pre; [apply triple_ret|]. cbv beta. intros s [-> Hs]. split_and!; [done..|exact Hs].
  - eapply triple_pre; [apply triple_ret|]. cbv beta. intros [[conn ch] p] Hs. split_and!; [done..|].
    specialize (Hlen _ Hs). destruct (Hadd _ _ _ Hs) as (taken & protos & est & batches & H1 & H2 & H3 & H4 & H5 & H7).
    exists taken, protos, est, batches. split_and!; try done. apply orb_false_iff in Efull as [Hfull _].
    apply Z.leb_gt in Hfull. unfold per_frame. lia.
Qed.

Lemma rows_loop_spec n : forall sm, sm_truncated sm = false -> n = Z.to_nat (row_cap (jb_limits job) - sm_seq sm) ->
  triple (streaming sm (going sm)) (rows_loop job columns budget deadline n sm) (fun sm' s => streaming sm' (ended sm') s) broken.
Proof.
  assert (Htrunc : forall sm s, streaming sm (fun taken _ => keeps_tx -> answers_with job columns d0 s0 taken false) s ->
            streaming (truncate sm) (ended (truncate sm)) s).
  { intros sm [[conn ch] p] (taken & protos & est & batches & H). by exists taken, protos, est, batches. }
  induction n as [|n IH]; intros sm Htr Hn; cbn [rows_loop];
    (eapply triple_bind; [by apply step_rows_spec|]); intros [[row|] sm']; apply triple_pure; intros ->;
    try (eapply triple_pre; [apply triple_ret|done]); cbn [sm_seq with_stmt];
    (destruct (Z.leb_spec (row_cap (jb_limits job)) (sm_seq sm)) as [Hle|Hlt]; [|try lia]).
  - eapply triple_pre; [apply triple_ret|]. cbv beta. intros s Hs. apply Htrunc.
    destruct s as [[conn ch] p], Hs as (taken & protos & est & batches & H1 & H2 & H3 & H4 & H5 & H6 & H7).
    exists taken, protos, est, batches. split_and!; try done. intros Hk. eapply cut_short; [by apply H7|].
    left. destruct H4 as (Hc1 & _). cbn in Hc1. lia.
  - eapply triple_pre; [apply triple_ret|]. cbv beta. intros s Hs. apply Htrunc.
    destruct s as [[conn ch] p], Hs as (taken & protos & est & batches & H1 & H2 & H3 & H4 & H5 & H6 & H7).
    exists taken, protos, est, batches. split_and!; try done. intros Hk. eapply cut_short; [by apply H7|].
    left. destruct H4 as (Hc1 & _). cbn in Hc1. lia.
  - eapply triple_bind; [by apply take_row_spec|]. intros [sm2|].
    + apply triple_pure. intros Ht2. apply triple_pure. intros Hs2. apply IH; [by rewrite Ht2|]. rewrite Hs2. cbn. lia.
    + eapply triple_pre; [apply triple_ret|]. cbv beta. intros s Hs. by apply Htrunc.
Qed.

Lemma last_batch_spec sm :
  triple (streaming sm (ended sm)) (last_batch sm)
    (fun sm' s => sm_batch sm' = [] /\ streaming sm' (ended sm') s) broken.
Proof.
  unfold last_batch. destruct (sm_batch sm) as [|row batch] eqn:Eb.
  - eapply triple_pre; [apply triple_ret|]. by intros s Hs.
  - eapply triple_pre with (P' := fun s => Z.of_nat (length (sm_batch sm)) < per_frame /\ streaming sm (ended sm) s).
    + apply triple_pure. intros Hl. eapply triple_conseq; [apply (flush_spec sm (ended sm)); [by rewrite Eb|lia]|..].
      * intros [[conn ch] p] (taken & protos & est & batches & H1 & H2 & H3 & H4 & H5 & _ & H7).
        by exists taken, protos, est, batches.
      * intros sm' s [-> Hs]. by split.
      * done.
    + intros [[conn ch] p] Hs. split; [|done]. by destruct Hs as (taken & protos & est & batches & _ & _ & _ & _ & _ & H6 & _).
Qed.

Lemma stream_rows_spec :
  triple (fun '(conn, ch, _) => n_db conn = d0 /\ ch = mkChan objs0 None) (stream_rows job columns budget deadline s0)
    (fun sm' s => sm_batch sm' = [] /\ streaming sm' (ended sm') s) broken.
Proof.
  unfold stream_rows. eapply triple_bind; [|intros sm; apply last_batch_spec].
  eapply triple_pre; [apply rows_loop_spec; [done|cbn; by rewrite Z.sub_0_r]|].
  intros [[conn ch] p] [Hd ->]. exists [], [], 0, []. split_and!; try done.
  - unfold sent_rows. cbn. by rewrite app_nil_r.
  - constructor.
  - unfold within_caps. cbn. split; [by left|lia].
  - cbn. unfold per_frame. lia.
  - intros _. cbn. rewrite Hd. constructor.
Qed.

End loop.
End stream.

(** * What a cleared statement does, and what is sent of it *)

Section execute.
Context {D : Type} `{HQ : !Sqlite D} `{HR : !RowIds} `{HD : !AuthDebug} `{HO : !AppliedJson}.
Implicit Types (conn : NConn D) (ch : Chan).

Definition is_write (job : ExecJob) : bool := bool_decide (kind (ap_footprint (jb_approved job)) = Write).

(** The statement is prepared under enforcement, *)
Definition prepared (job : ExecJob) (d : NodeDb D) (stmt0 : Stmt) : Prop :=
  exists r, prepare_with (enforce_authorizer (jb_approved job) (jb_pragma_allowlist job)) (sq_prepare d (jb_sql job)) None
            = (Ok stmt0, r).

(** and starts once it is bound. *)
Definition started (job : ExecJob) (d : NodeDb D) (stmt0 stmt : Stmt) : Prop :=
  prepared job d stmt0 /\
  existsb is_blob_ref (jb_params job) = false /\ sq_bind (jb_params job) stmt0 = Ok stmt.

Definition header (job : ExecJob) (stmt0 : Stmt) : EnvelopeObject :=
  OResult (mkResultHeader (jb_id job) (map fst (sq_columns stmt0)) (map (fun c => default "" (snd c)) (sq_columns stmt0))).

Definition own_error (job : ExecJob) (e : ErrorEnvelope) : Prop := er_id e = Some (jb_id job).

(** What is sent for a job whose client stays, run on database [d]: an error;
    the recorded outcome of a write that was applied before; some of the rows
    and an error; or the answer of the statement, to its end or to a cap, and
    the trailer that counts it. *)
Inductive executed (job : ExecJob) (d : NodeDb D) : list EnvelopeObject -> Prop :=
| ex_refused e : own_error job e -> executed job d [OError e]
| ex_recorded json :
    is_write job = true -> applied_row (jb_id job) d = Ok (Some json) ->
    executed job d [OResult (mkResultHeader (jb_id job) [] []);
                    ODone (mkDone (jb_id job) (Some 0) (fst (parse_outcome json)) (snd (parse_outcome json)) false)]
| ex_broken stmt0 batches n e :
    prepared job d stmt0 ->
    Forall (good_batch job) batches -> row_run (map fst (sq_columns stmt0)) 0 (concat batches) n -> own_error job e ->
    executed job d (header job stmt0 :: map ORow batches ++ [OError e])
| ex_answered stmt0 stmt taken batches est truncated affected last_rowid :
    started job d stmt0 stmt ->
    converted (map fst (sq_columns stmt0)) taken (concat batches) est -> Forall (good_batch job) batches ->
    within_caps job (map fst (sq_columns stmt0)) taken est ->
    (keeps_tx -> answers_with job (map fst (sq_columns stmt0)) d stmt taken (negb truncated)) ->
    executed job d (header job stmt0 :: map ORow batches ++
      [ODone (mkDone (jb_id job) (Some (Z.of_nat (length taken))) affected last_rowid truncated)]).

(** These frames are a response to the request, as its reader takes it. *)
Lemma executed_response job d objs :
  row_cap (jb_limits job) <= I64_MAX -> executed job d objs -> response (jb_id job) objs.
Proof.
  intros Hcap [e He|json _ _|stmt0 batches n e _ Hb Hr He|stmt0 stmt taken batches est tr a l Hs Hc Hb [_ Hw] _].
  - apply resp_error. by right.
  - apply resp_result; [done|]. apply rows_end. by apply end_done.
  - apply resp_result; [done|]. eapply rows_body_batches; [|exact Hr|apply rows_end, end_error; by right].
    eapply Forall_impl; [exact Hb|]. by intros b [].
  - apply resp_result; [done|]. eapply rows_body_batches; [|eapply converted_run; [exact Hc|]|apply rows_end; by apply end_done].
    + eapply Forall_impl; [exact Hb|]. by intros b [].
    + unfold I64_MAX in *. lia.
Qed.

(** Conditions that do not look at the open transaction. *)
Lemma dropped_triple {A} P (body : Exec (D:=D) A) Q R :
  (forall a conn ch p, Q a (conn, ch, p) -> Q a (drop_transaction conn, ch, p)) ->
  (forall h conn ch p, R h (conn, ch, p) -> R h (drop_transaction conn, ch, p)) ->
  triple P body Q R ->
  triple P (fun s => let '(r, (conn, ch, p)) := body s in (r, (drop_transaction conn, ch, p))) Q R.
Proof.
  intros HQd HRd Hb s Hs. specialize (Hb s Hs). destruct (body s) as [[a|h] [[conn ch] p]]; [by apply HQd|by apply HRd].
Qed.

(** ** The transaction body *)

Section body.
Variables (job : ExecJob) (d0 : NodeDb D).
Hypothesis Hcap : row_cap (jb_limits job) <= I64_MAX.

(** Nothing was sent and nothing was done yet. *)
Definition fresh_state : NConn D * Chan * Progress -> Prop := fun '(conn, ch, _) => n_db conn = d0 /\ ch = mkChan [] None.

(** The trailer was sent. *)
Definition finished : NConn D * Chan * Progress -> Prop :=
  fun '(_, ch, _) => ch_room ch = None /\ executed job d0 (ch_sent ch).

(** An error frame is what is missing. *)
Definition halted (h : Halt) : NConn D * Chan * Progress -> Prop :=
  fun '(_, ch, _) => h <> ClientGone /\ ch_room ch = None /\
    forall e, own_error job e -> executed job d0 (ch_sent ch ++ [OError e]).

Lemma halted_fresh h s : h <> ClientGone -> fresh_state s -> halted h s.
Proof. destruct s as [[conn ch] p]. intros Hh [_ ->]. split_and!; [done..|]. intros e He. by apply ex_refused. Qed.

Lemma on_conn_reads {A} (m : NM (D:=D) SqlError A) :
  (forall conn, n_db (snd (m conn)) = n_db conn) ->
  triple fresh_state (on_conn m) (fun _ => fresh_state) halted.
Proof.
  intros Hq [[conn ch] p] [Hf ->]. unfold on_conn. specialize (Hq conn). destruct (m conn) as [[a|e] conn']; cbn in Hq |- *.
  - by rewrite Hq.
  - apply (halted_fresh (HSqlite e) (conn', mkChan [] None, p)); [done|]. split; [by rewrite Hq|done].
Qed.

Lemma nquery_reads {A} (f : NodeDb D -> result SqlError A) conn : n_db (snd (nquery f conn)) = n_db conn.
Proof. destruct (nquery f conn) as [r c'] eqn:E. by apply nquery_cases in E as ((Hq & _) & _). Qed.

Lemma begin_reads conn : n_db (snd (begin_transaction conn)) = n_db conn.
Proof.
  unfold begin_transaction. destruct (n_saved conn); [done|]. pose proof (nquery_reads (fun _ => Ok tt) conn) as H.
  unfold ncall. by destruct (nquery _ conn) as [[[]|e] c'].
Qed.

Lemma enforced_prepare_spec :
  triple fresh_state (enforced_prepare (jb_approved job) (jb_pragma_allowlist job) (jb_sql job))
    (fun stmt0 s => prepared job d0 stmt0 /\ fresh_state s) halted.
Proof.
  unfold enforced_prepare. eapply triple_bind; [apply on_conn_reads, nquery_reads|].
  intros [] [[conn ch] p] Hf. unfold prepare_under. destruct Hf as [Hd ->]. rewrite Hd.
  destruct (prepare_with _ _ None) as [[stmt|e] r] eqn:E; cbn.
  - split; [by exists r|done].
  - apply (halted_fresh _ (conn, mkChan [] None, p)); [by destruct r|done].
Qed.

Section prepared.
Variable stmt0 : Stmt.
Hypothesis Hprep : prepared job d0 stmt0.

(** From the header on, the frames start with it. *)
Definition headed : NConn D * Chan * Progress -> Prop :=
  fun '(conn, ch, _) => n_db conn = d0 /\ ch = mkChan [header job stmt0] None.

Lemma halted_headed h s : h <> ClientGone -> headed s -> halted h s.
Proof.
  destruct s as [[conn ch] p]. intros Hh [_ ->]. split_and!; [done..|]. intros e He.
  apply (ex_broken job d0 stmt0 [] 0 e); [done|constructor|constructor|done].
Qed.

Lemma halted_broken h s :
  broken job (map fst (sq_columns stmt0)) [header job stmt0] h s -> halted h s.
Proof.
  destruct s as [[conn ch] p]. intros (Hh & batches & n & (Hr & Hs & Hb) & Hrun). split_and!; [done..|].
  intros e He. rewrite Hs. by eapply ex_broken.
Qed.

(** The rows are out, the last batch too. *)
Definition streamed (stmt : Stmt) (sm : Stream) (s : NConn D * Chan * Progress) : Prop :=
  sm_batch sm = [] /\
  streaming job (map fst (sq_columns stmt0)) [header job stmt0] sm (ended job (map fst (sq_columns stmt0)) d0 stmt sm) s.

Lemma halted_streamed stmt sm h s : h <> ClientGone -> streamed stmt sm s -> halted h s.
Proof. intros Hh [_ Hs]. by eapply halted_broken, streaming_broken. Qed.

Lemma streamed_keeps stmt sm conn conn' ch p p' :
  streamed stmt sm (conn, ch, p) -> streamed stmt sm (conn', ch, p').
Proof. done. Qed.

Lemma on_conn_streamed {A} (m : NM (D:=D) SqlError A) stmt sm :
  triple (streamed stmt sm) (on_conn m) (fun _ => streamed stmt sm) halted.
Proof.
  intros [[conn ch] p] Hs. unfold on_conn. destruct (m conn) as [[a|e] conn']; [exact Hs|].
  by apply (halted_streamed stmt sm (HSqlite e) (conn', ch, p)).
Qed.

Lemma done_spec stmt sm affected last_rowid :
  started job d0 stmt0 stmt ->
  triple (streamed stmt sm)
    (push_frame (D:=D) (ODone (mkDone (jb_id job) (Some (sm_seq sm)) affected last_rowid (sm_truncated sm))))
    (fun _ => finished) halted.
Proof.
  intros Hst [[conn ch] p] [Hb (taken & protos & est & batches & (Hr & Hs & Hg) & Hp & Hc & (Hc1 & _) & Hw & _ & He)].
  unfold push_frame, send. rewrite Hr. cbn. split; [done|]. rewrite Hs, Hc1.
  rewrite Hb, app_nil_r in Hp. subst protos. by eapply ex_answered.
Qed.
End prepared.

Lemma execute_fresh_spec : triple fresh_state (execute_fresh job (is_write job)) (fun _ => finished) halted.
Proof.
  unfold execute_fresh. eapply triple_bind; [apply enforced_prepare_spec|]. intros stmt0. apply triple_pure. intros Hprep.
  eapply triple_bind with (Q := fun _ => fresh_state).
  { intros [[conn ch] p] Hf. done. }
  intros start. eapply triple_bind; [apply on_conn_reads, nquery_reads|]. intros [].
  eapply triple_bind with (Q := fun _ => headed stmt0).
  { intros [[conn ch] p] [Hd ->]. done. }
  intros []. destruct (existsb is_blob_ref (jb_params job)) eqn:Eb.
  { eapply triple_bind with (Q := fun _ _ => False); [|by intros ? s []].
    intros s Hs. by eapply halted_headed. }
  eapply triple_bind with (Q := fun _ => headed stmt0); [by intros s Hs|]. intros [].
  eapply triple_bind with (Q := fun stmt s => sq_bind (jb_params job) stmt0 = Ok stmt /\ headed stmt0 s).
  { intros s Hs. cbn. destruct (sq_bind (jb_params job) stmt0); [done|]. by eapply halted_headed. }
  intros stmt. apply triple_pure. intros Hbind. assert (Hst : started job d0 stmt0 stmt) by done.
  eapply triple_bind with (Q := streamed stmt0 stmt).
  { eapply triple_conseq; [apply (stream_rows_spec job (map fst (sq_columns stmt0)) _ _ d0 stmt [header job stmt0] Hcap)|..].
    - by intros [[conn ch] p].
    - done.
    - intros h s. by apply halted_broken. }
  intros sm. eapply triple_bind with (Q := fun _ => streamed stmt0 stmt sm).
  { intros [[conn ch] p] Hs. by eapply streamed_keeps. }
  intros [affected last_rowid]. eapply triple_bind with (Q := fun _ => streamed stmt0 stmt sm).
  { destruct (is_write job); [|by intros s Hs]. intros [[conn ch] p] Hs. by apply on_conn_streamed. }
  intros []. eapply triple_bind; [by apply on_conn_streamed|]. intros [].
  eapply triple_bind; [by apply done_spec|]. intros []. by intros s Hs.
Qed.

Lemma execute_in_tx_spec : triple fresh_state (execute_in_tx job) (fun _ => finished) halted.
Proof.
  unfold execute_in_tx, in_tx. fold (is_write job). eapply triple_bind; [apply on_conn_reads, begin_reads|]. intros [].
  apply dropped_triple; [done|done|].
  eapply triple_bind with (Q := fun recorded s => (forall json, recorded = Some json ->
      is_write job = true /\ applied_row (jb_id job) d0 = Ok (Some json)) /\ fresh_state s).
  - destruct (is_write job).
    + intros [[conn ch] p] [Hd ->]. unfold on_conn. destruct (nquery _ conn) as [r c'] eqn:E.
      apply nquery_cases in E as ((Hd' & _) & _ & Hok). rewrite Hd in *. destruct r as [o|e]; cbn.
      * split; [|done]. intros json ->. split; [done|]. by apply Hok.
      * by apply (halted_fresh _ (c', mkChan [] None, p)).
    + by intros s Hs.
  - intros [json|]; apply triple_pure; intros Hj; [|apply execute_fresh_spec].
    destruct (Hj json eq_refl) as [Hw Ha]. intros [[conn ch] p] [_ ->].
    unfold answer_from_applied. destruct (parse_outcome json) as [af lr] eqn:Ej. cbn. split; [done|].
    pose proof (ex_recorded job d0 json Hw Ha) as Hx. by rewrite Ej in Hx.
Qed.
End body.
Lemma run_execute_frames job conn :
  row_cap (jb_limits job) <= I64_MAX ->
  executed job (n_db conn) (ch_sent (snd (run_execute job conn (mkChan [] None)))).
Proof.
  intros Hcap. unfold run_execute.
  pose proof (execute_in_tx_spec job (n_db conn) Hcap (conn, mkChan [] None, mkProgress 0 false false) (conj eq_refl eq_refl)) as H.
  destruct (execute_in_tx job _) as [[em|h] [[conn' ch] p]]; [by destruct H|]. destruct H as (Hh & Hr & He). cbn [snd].
  destruct h as [|reason|msg|e]; [done|..]; cbn [halt_frame]; unfold push_frame_lossy, send; rewrite Hr; cbn [snd ch_sent];
    try (by apply He). destruct (is_interrupted e && _); [by apply He|]. destruct (is_interrupted e); [by apply He|].
  destruct (is_busy e); by apply He.
Qed.

(** ** A stream that fails *)

(** With room for [n] frames the code does what it does with room for all, up
    to the send that fails: then it is at its end, as [ClientGone], and what
    was sent are the first [n] frames. *)
Definition cuts {A} (m : Exec (D:=D) A) : Prop := forall conn sent n p,
  let '(r, (c, ch, q)) := m (conn, mkChan sent None, p) in
  let '(r', (c', ch', q')) := m (conn, mkChan sent (Some n), p) in
  exists ext, ch = mkChan (sent ++ ext) None /\
    if (length ext <=? n)%nat then r' = r /\ c' = c /\ q' = q /\ ch' = mkChan (sent ++ ext) (Some (n - length ext)%nat)
    else r' = Err ClientGone /\ ch' = mkChan (sent ++ take n ext) (Some 0%nat).

(** Code that does not send. *)
Definition silent {A} (m : Exec (D:=D) A) : Prop := forall conn ch p, exists r c q,
  forall ch', m (conn, ch', p) = (r, (c, ch', q)).

Lemma cuts_silent {A} (m : Exec (D:=D) A) : silent m -> cuts m.
Proof.
  intros Hm conn sent n p. destruct (Hm conn (mkChan sent None) p) as (r & c & q & H). rewrite !H.
  exists []. rewrite app_nil_r, Nat.sub_0_r. by split_and!.
Qed.

Lemma cuts_bind {A B} (m : Exec (D:=D) A) (f : A -> Exec (D:=D) B) : cuts m -> (forall a, cuts (f a)) -> cuts (ebind f m).
Proof.
  intros Hm Hf conn sent n p. specialize (Hm conn sent n p). unfold ebind.
  destruct (m (conn, mkChan sent None, p)) as [r [[c ch] q]]. destruct (m (conn, mkChan sent (Some n), p)) as [r' [[c' ch'] q']].
  destruct Hm as (ext & -> & Hm). destruct (Nat.leb_spec (length ext) n) as [Hle|Hgt].
  - destruct Hm as (-> & -> & -> & ->). destruct r as [a|h].
    + specialize (Hf a c (sent ++ ext) (n - length ext)%nat q).
      destruct (f a (c, mkChan (sent ++ ext) None, q)) as [r2 [[c2 ch2] q2]].
      destruct (f a (c, mkChan (sent ++ ext) (Some _), q)) as [r2' [[c2' ch2'] q2']].
      destruct Hf as (ext2 & -> & Hf). exists (ext ++ ext2). rewrite <-app_assoc. split; [done|]. rewrite length_app.
      destruct (Nat.leb_spec (length ext2) (n - length ext)) as [H2|H2].
      * rewrite (proj2 (Nat.leb_le _ _)) by lia. destruct Hf as (-> & -> & -> & ->). rewrite <-app_assoc. split_and!; [done..|].
        do 2 f_equal. lia.
      * rewrite (proj2 (Nat.leb_gt _ _)) by lia. destruct Hf as (-> & ->). split; [done|].
        rewrite take_app_ge, <-app_assoc by lia. done.
    + exists ext. rewrite (proj2 (Nat.leb_le _ _)) by lia. by split_and!.
  - destruct Hm as [-> ->]. destruct r as [a|h].
    + specialize (Hf a c (sent ++ ext) 0%nat q). destruct (f a (c, mkChan (sent ++ ext) None, q)) as [r2 [[c2 ch2] q2]].
      destruct (f a (c, mkChan (sent ++ ext) (Some _), q)) as [r2' [[c2' ch2'] q2']].
      destruct Hf as (ext2 & -> & _). exists (ext ++ ext2). rewrite <-app_assoc, length_app. split; [done|].
      rewrite (proj2 (Nat.leb_gt _ _)), take_app_le by lia. by split.
    + exists ext. rewrite (proj2 (Nat.leb_gt _ _)) by lia. by split_and!.
Qed.

Lemma cuts_push obj : cuts (push_frame (D:=D) obj).
Proof.
  intros conn sent [|n] p; unfold push_frame, send; cbn; exists [obj]; (split; [done|]); cbn; [by rewrite app_nil_r|].
  by rewrite Nat.sub_0_r.
Qed.

Lemma silent_on_conn {A} (m : NM (D:=D) SqlError A) : silent (on_conn m).
Proof. intros conn ch p. unfold on_conn. destruct (m conn) as [r c]. by eexists _, _, _. Qed.
Lemma silent_lift {A} (r : result Halt A) : silent (elift r).
Proof. intros conn ch p. by eexists _, _, _. Qed.
Lemma cuts_ret {A} (a : A) : cuts (eret a).
Proof. apply cuts_silent. intros conn ch p. by eexists _, _, _. Qed.
Lemma cuts_if {A} (b : bool) (m m' : Exec (D:=D) A) : cuts m -> cuts m' -> cuts (if b then m else m').
Proof. by destruct b. Qed.

Lemma cuts_flush sm : cuts (flush (D:=D) sm).
Proof. apply cuts_bind; [apply cuts_push|intros _; apply cuts_ret]. Qed.

Lemma cuts_take job columns row sm : cuts (take_row (D:=D) job columns row sm).
Proof.
  apply cuts_bind; [apply cuts_silent, silent_lift|]. intros [proto e]. apply cuts_if; [apply cuts_ret|].
  apply cuts_if; [|apply cuts_ret]. apply cuts_bind; [apply cuts_flush|intros sm'; apply cuts_ret].
Qed.

Lemma cuts_loop job columns budget deadline n : forall sm, cuts (rows_loop job columns budget deadline n sm).
Proof.
  assert (Hstep : forall sm, cuts (step_rows budget deadline sm)).
  { intros sm. apply cuts_silent. intros conn ch p. unfold step_rows. destruct (next_row _ _ _ _ _) as [[r q] c]. by eexists _, _, _. }
  induction n as [|n IH]; intros sm; cbn [rows_loop]; (apply cuts_bind; [apply Hstep|]);
    intros [[row|] sm']; try apply cuts_ret; (apply cuts_if; [apply cuts_ret|]); [apply cuts_ret|].
  apply cuts_bind; [apply cuts_take|]. intros [sm2|]; [apply IH|apply cuts_ret].
Qed.

Lemma cuts_fresh job w : cuts (execute_fresh job w).
Proof.
  unfold execute_fresh. apply cuts_bind.
  { apply cuts_bind; [apply cuts_silent, silent_on_conn|]. intros []. apply cuts_silent. intros conn ch p.
    destruct (prepare_under _ _ _ conn) as [prep reason]. by eexists _, _, _. }
  intros stmt0. apply cuts_bind; [apply cuts_silent; intros conn ch p; by eexists _, _, _|]. intros start.
  apply cuts_bind; [apply cuts_silent, silent_on_conn|]. intros []. apply cuts_bind; [apply cuts_push|]. intros [].
  apply cuts_bind; [apply cuts_if; apply cuts_silent, silent_lift|]. intros [].
  apply cuts_bind; [apply cuts_silent, silent_lift|]. intros stmt. apply cuts_bind.
  { apply cuts_bind; [apply cuts_loop|]. intros sm. unfold last_batch. destruct (sm_batch sm); [apply cuts_ret|apply cuts_flush]. }
  intros sm. apply cuts_bind; [apply cuts_silent; intros conn ch p; by eexists _, _, _|]. intros [affected last_rowid].
  apply cuts_bind; [apply cuts_if; [|apply cuts_ret]|].
  { apply cuts_silent. intros conn ch p. unfold record_applied, on_conn. destruct (nsql _ conn) as [r c]. by eexists _, _, _. }
  intros []. apply cuts_bind; [apply cuts_silent, silent_on_conn|]. intros []. apply cuts_bind; [apply cuts_push|]. intros []. apply cuts_ret.
Qed.

Lemma cuts_dropped {A} (body : Exec (D:=D) A) : cuts body ->
  cuts (fun s => let '(r, (conn, ch, p)) := body s in (r, (drop_transaction conn, ch, p))).
Proof.
  intros Hb conn sent n p. specialize (Hb conn sent n p).
  destruct (body (conn, mkChan sent None, p)) as [r [[c ch] q]]. destruct (body (conn, mkChan sent (Some n), p)) as [r' [[c' ch'] q']].
  destruct Hb as (ext & -> & Hb). exists ext. split; [done|]. destruct (_ <=? _)%nat; [|done]. destruct Hb as (-> & -> & -> & ->). done.
Qed.

Lemma cuts_tx job : cuts (execute_in_tx job).
Proof.
  unfold execute_in_tx, in_tx. apply cuts_bind; [apply cuts_silent, silent_on_conn|]. intros []. apply cuts_dropped.
  apply cuts_bind; [apply cuts_if; [apply cuts_silent, silent_on_conn|apply cuts_ret]|]. intros [json|]; [|apply cuts_fresh].
  unfold answer_from_applied. destruct (parse_outcome json). apply cuts_bind; [apply cuts_push|]. intros [].
  apply cuts_bind; [apply cuts_push|]. intros []. apply cuts_ret.
Qed.

(** What the client gets of a job when the stream takes [n] frames. *)
Lemma run_execute_cut job conn n :
  ch_sent (snd (run_execute job conn (mkChan [] (Some n)))) = take n (ch_sent (snd (run_execute job conn (mkChan [] None)))).
Proof.
  unfold run_execute. pose proof (cuts_tx job conn [] n (mkProgress 0 false false)) as H.
  destruct (execute_in_tx job (conn, mkChan [] None, _)) as [r [[c ch] q]].
  destruct (execute_in_tx job (conn, mkChan [] (Some n), _)) as [r' [[c' ch'] q']].
  destruct H as (ext & -> & H). cbn [app] in *. destruct (Nat.leb_spec (length ext) n) as [Hle|Hgt].
  - destruct H as (-> & -> & -> & ->). destruct r as [em|h]; cbn [snd]; [by rewrite take_ge|].
    destruct (halt_frame _ _ h) as [frame|]; cbn [ch_sent]; [|by rewrite take_ge].
    unfold push_frame_lossy, send. cbn. destruct (n - length ext)%nat as [|k] eqn:Ek; cbn.
    + by rewrite take_app_length' by lia.
    + by rewrite take_ge by (rewrite length_app; cbn; lia).
  - destruct H as [-> ->]. cbn [halt_frame snd ch_sent]. destruct r as [em|h]; cbn [snd ch_sent]; [done|].
    destruct (halt_frame _ _ h) as [frame|]; cbn; [|done]. by rewrite take_app_le by lia.
Qed.

(** ** The database *)

(** From [d0], the statement of the job gives [rows], and the step [last] ends
    it. *)
Definition ran_out (job : ExecJob) (d0 : NodeDb D) (stmt0 stmt : Stmt) (last : Step D Stmt) : Prop :=
  exists rows d1 s1, ran d0 stmt rows d1 s1 /\ last = snd (sq_step d1 s1) /\
    over job (map fst (sq_columns stmt0)) rows (sp_answer last).

(** The effects of the job's own statement, prepared under enforcement, bound
    and run until it is over; with a write, and its counts recorded as applied
    under the id of the job. *)
Definition committed (job : ExecJob) (d0 d : NodeDb D) : Prop :=
  exists stmt0 stmt last, started job d0 stmt0 stmt /\ ran_out job d0 stmt0 stmt last /\
    if is_write job then
      exists t at_ before, nd_applied (sp_db last) = Some t /\ t !! jb_id job = None /\
        let '(affected, last_rowid) := sq_finish (sp_stmt last) before in
        d = set_applied (<[jb_id job := mkAppliedRow at_ (SText (outcome_json affected last_rowid))]> t) (sp_db last)
    else d = sp_db last.

(** The write was recorded before. *)
Definition was_applied (job : ExecJob) (d : NodeDb D) : Prop :=
  is_write job = true /\ exists json, applied_row (jb_id job) d = Ok (Some json).

(** The same but for the ledger. *)
Definition but_ledger (d d' : NodeDb D) : Prop := d' = d \/ exists rows, d' = set_audit rows d.

Section effects.
Variables (job : ExecJob) (d0 : NodeDb D).
Hypothesis Hkeeps : keeps_tx (D:=D).

(** Nothing was done in the transaction. *)
Definition untouched : NConn D * Chan * Progress -> Prop :=
  fun '(conn, _, _) => n_saved conn = Some d0 /\ n_db conn = d0.

Definition completed : NConn D * Chan * Progress -> Prop :=
  fun '(conn, _, _) => n_saved conn = None /\ committed job d0 (n_db conn).

(** The transaction is open over the database it began with, or committed. *)
Definition stopped (h : Halt) : NConn D * Chan * Progress -> Prop :=
  fun '(conn, ch, p) => n_saved conn = Some d0 \/ completed (conn, ch, p).

(** What depends on the connection alone, within the transaction. *)
Definition within (P : NodeDb D -> Prop) : NConn D * Chan * Progress -> Prop :=
  fun '(conn, _, _) => n_saved conn = Some d0 /\ P (n_db conn).

Lemma stopped_within P h s : within P s -> stopped h s.
Proof. destruct s as [[conn ch] p]. intros [Hs _]. by left. Qed.

Lemma push_within P obj : triple (within P) (push_frame (D:=D) obj) (fun _ => within P) stopped.
Proof.
  intros [[conn ch] p] Hs. unfold push_frame. destruct (send obj ch) as [[|] ch']; cbn; [exact Hs|].
  by apply (stopped_within P ClientGone (conn, ch', p)).
Qed.

(** A call that keeps the database keeps all of it. *)
Lemma on_conn_within {A} P (m : NM (D:=D) SqlError A) :
  (forall conn, n_db (snd (m conn)) = n_db conn /\ n_saved (snd (m conn)) = n_saved conn) ->
  triple (within P) (on_conn m) (fun _ => within P) stopped.
Proof.
  intros Hq [[conn ch] p] [H1 H2]. unfold on_conn. destruct (Hq conn) as [Hd Hs].
  destruct (m conn) as [[a|e] conn']; cbn in *; [by rewrite Hd, Hs|]. left. by rewrite Hs.
Qed.

Lemma nquery_keeps {A} (f : NodeDb D -> result SqlError A) conn :
  n_db (snd (nquery f conn)) = n_db conn /\ n_saved (snd (nquery f conn)) = n_saved conn.
Proof. destruct (nquery f conn) as [r c'] eqn:E. by apply nquery_cases in E as ((? & ? & _) & _). Qed.

Lemma lift_within {A} P (r : result Halt A) : triple (within P) (elift r) (fun a s => r = Ok a /\ within P s) stopped.
Proof. intros s Hs. cbn. destruct r; [by split|]. by eapply stopped_within. Qed.

Section run.
Variables (stmt0 stmt : Stmt).
Hypothesis Hstarted : started job d0 stmt0 stmt.
Let columns : list string := map fst (sq_columns stmt0).

(** The locals of the loop count these rows. *)
Definition accounts (sm : Stream) (rows : list (list CellRef)) : Prop :=
  exists protos est, converted columns rows protos est /\ sm_seq sm = Z.of_nat (length rows) /\
    sm_bytes_out sm + sm_batch_bytes sm = header_estimate columns + est.

(** These rows were taken; or a step was made beyond them, with this answer; or
    the statement is over. *)
Definition running (sm : Stream) (d : NodeDb D) : Prop :=
  exists rows, ran d0 stmt rows d (sm_stmt sm) /\ accounts sm rows.
Definition stepped_to (answer : option (list CellRef)) (sm : Stream) (d : NodeDb D) : Prop :=
  exists rows d1 s1 calls st, ran d0 stmt rows d1 s1 /\ accounts sm rows /\ sq_step d1 s1 = (calls, st) /\
    sp_answer st = Ok answer /\ d = sp_db st /\ sm_stmt sm = sp_stmt st.
Definition at_end (sm : Stream) (d : NodeDb D) : Prop :=
  exists last, ran_out job d0 stmt0 stmt last /\ d = sp_db last /\ sm_stmt sm = sp_stmt last.

Lemma over_at_end answer sm d :
  stepped_to answer sm d ->
  (forall rows, accounts sm rows -> over job columns rows (Ok answer)) -> at_end sm d.
Proof.
  intros (rows & d1 & s1 & calls & st & Hr & Ha & Est & Ea & -> & Hst) Hover. exists st. split_and!; [|done..].
  exists rows, d1, s1. rewrite Est, Ea. split_and!; [done..|]. by apply Hover.
Qed.

Lemma step_within budget deadline sm :
  triple (within (running sm)) (step_rows budget deadline sm)
    (fun '(row, sm') s => sm_seq sm' = sm_seq sm /\ within (stepped_to row sm') s) stopped.
Proof.
  intros [[conn ch] p] [H1 (rows & H2 & H3)]. unfold step_rows, next_row.
  destruct (sq_step (n_db conn) (sm_stmt sm)) as [calls st] eqn:Est.
  destruct (progress_calls _ budget deadline p conn) as [[stop p'] conn'] eqn:Epg.
  apply progress_calls_quiet in Epg as (Hd & Hs & _). destruct stop; [left; by rewrite Hs|].
  assert (n_saved (apply_step st conn') = Some d0 /\ n_db (apply_step st conn') = sp_db st) as [Hsv Hdb].
  { pose proof (Hkeeps (n_db conn) (sm_stmt sm)) as Hk. rewrite Est in Hk. cbn in Hk. unfold apply_step. rewrite Hk. cbn. by rewrite Hs. }
  destruct (sp_answer st) as [row|e] eqn:Ea; cbn; [|by left]. split_and!; [done..|].
  exists rows, (n_db conn), (sm_stmt sm), calls, st. by rewrite Hdb.
Qed.

Lemma flush_within (P : Stmt -> list (list CellRef) -> NodeDb D -> Prop) sm :
  triple (within (fun d => exists rows, accounts sm rows /\ P (sm_stmt sm) rows d)) (flush (D:=D) sm)
    (fun sm' s => sm_seq sm' = sm_seq sm /\ within (fun d => exists rows, accounts sm' rows /\ P (sm_stmt sm') rows d) s) stopped.
Proof.
  unfold flush. eapply triple_bind; [apply push_within|]. intros [] [[conn ch] p] [Hs (rows & (protos & est & Hc & Hn & Hb) & HP)].
  split; [done|]. split; [done|]. exists rows. split; [|done]. exists protos, est. cbn. split_and!; [done..|lia].
Qed.

Lemma take_within row sm :
  triple (within (stepped_to (Some row) sm)) (take_row job columns row sm)
    (fun o s => match o with Some sm' => sm_seq sm' = sm_seq sm + 1 /\ within (running sm') s | None => within (at_end sm) s end) stopped.
Proof.
  unfold take_row. eapply triple_bind; [apply lift_within|]. intros [proto e]. apply triple_pure. intros Hrow.
  destruct (row_from_sql row columns (sm_seq sm)) as [[proto' e']|] eqn:Er; [|done]. injection Hrow as -> ->.
  destruct (Z.ltb_spec (byte_cap (jb_limits job)) (sm_bytes_out sm + (sm_batch_bytes sm + e))) as [Hbig|_].
  { intros [[conn ch] p] [Hs Hst]. split; [done|]. eapply over_at_end; [exact Hst|]. intros rows (protos & est & Hc & Hn & Hb).
    right. exists protos, est, proto, e. rewrite <-Hn. split_and!; [done..|lia]. }
  eapply triple_pre with (P' := within (fun d => exists rows, accounts (add_row proto e sm) rows /\
    ran d0 stmt rows d (sm_stmt (add_row proto e sm)))).
  2: { intros [[conn ch] p] [Hs (rows & d1 & s1 & calls & st & Hr & (protos & est & Hc & Hn & Hb) & Est & Ea & Hd & Hst)].
       split; [done|]. exists (rows ++ [row]). split.
       - exists (protos ++ [proto]), (est + e). cbn. split_and!; [constructor; [done|by rewrite <-Hn]|rewrite length_app; cbn; lia|lia].
       - cbn. rewrite Hd, Hst. by eapply ran_row. }
  destruct (_ || _).
  - eapply triple_bind; [apply (flush_within (fun s rows d => ran d0 stmt rows d s))|].
    intros sm' [[conn ch] p] (Hq & Hs & rows & Ha & Hr). split; [by rewrite Hq|]. split; [done|]. by exists rows.
  - intros [[conn ch] p] [Hs (rows & Ha & Hr)]. split; [done|]. split; [done|]. by exists rows.
Qed.

Lemma loop_within budget deadline n : forall sm, n = Z.to_nat (row_cap (jb_limits job) - sm_seq sm) ->
  triple (within (running sm)) (rows_loop job columns budget deadline n sm) (fun sm' => within (at_end sm')) stopped.
Proof.
  assert (Hrows : forall row sm s, within (stepped_to (Some row) sm) s -> row_cap (jb_limits job) <= sm_seq sm -> within (at_end (truncate sm)) s).
  { intros row sm [[conn ch] p] [Hs Hst] Hcap. split; [done|]. apply (over_at_end _ sm) in Hst; [done|]. intros rows (_ & _ & _ & Hn & _).
    left. by rewrite <-Hn. }
  induction n as [|n IH]; intros sm Hn; cbn [rows_loop];
    (eapply triple_bind; [apply step_within|]); intros [[row|] sm']; apply triple_pure; intros Hseq.
  2, 4: intros [[conn ch] p] [Hs Hst]; split; [done|]; by eapply over_at_end.
  all: destruct (Z.leb_spec (row_cap (jb_limits job)) (sm_seq sm')) as [Hle|Hlt]; [intros s Hs; by eapply Hrows|].
  { lia. }
  eapply triple_bind; [apply take_within|]. intros [sm2|].
  - apply triple_pure. intros H2. apply IH. lia.
  - intros [[conn ch] p] [Hs He]. by split.
Qed.

Lemma rows_within budget deadline :
  triple untouched (stream_rows job columns budget deadline stmt) (fun sm => within (at_end sm)) stopped.
Proof.
  unfold stream_rows. eapply triple_bind.
  - eapply triple_pre; [apply loop_within; cbn; by rewrite Z.sub_0_r|]. intros [[conn ch] p] [Hs Hd]. split; [done|].
    exists []. rewrite Hd. split; [constructor|]. exists [], 0. cbn. split_and!; [constructor|done|lia].
  - intros sm. unfold last_batch. destruct (sm_batch sm); [by intros s Hs|].
    unfold flush. eapply triple_bind; [apply push_within|]. by intros [] s Hs.
Qed.

(** Counted, with a write recorded, and committed. *)
Lemma record_within sm affected last_rowid : is_write job = true ->
  triple (fun s => within (at_end sm) s /\ exists before, sq_finish (sm_stmt sm) before = (affected, last_rowid))
    (record_applied (jb_id job) affected last_rowid) (fun _ => within (committed job d0)) stopped.
Proof.
  intros Hw [[conn ch] p] [[H1 (st & Hout & Hd & Hst)] [before Hf]]. unfold record_applied, on_conn.
  destruct (nsql _ conn) as [r conn'] eqn:E. apply nsql_cases in E as [(e & -> & (Hd' & Hs & _) & _)|(a & d & -> & Hi & Hd' & Hs & _)]; cbn.
  - left. by rewrite Hs.
  - rewrite Hs. split; [done|]. unfold insert_applied in Hi. destruct (nd_applied (n_db conn)) as [t|] eqn:Et; [|done]. cbn in Hi.
    destruct (t !! jb_id job) eqn:El; [done|]. injection Hi as _ Hi. rewrite Hd in Hi, Et. exists stmt0, stmt, st. split_and!; [done..|].
    rewrite Hw. exists t, (rfc3339 (n_secs conn)), before. split_and!; [done..|]. rewrite <-Hst, Hf. by rewrite Hd', <-Hi.
Qed.

Lemma finish_within sm : triple (within (at_end sm)) (finish_stmt (sm_stmt sm))
  (fun '(affected, last_rowid) s => within (at_end sm) s /\ exists before, sq_finish (sm_stmt sm) before = (affected, last_rowid)) stopped.
Proof.
  intros [[conn ch] p] Hs. unfold finish_stmt. cbn. destruct (sq_finish (sm_stmt sm) (n_counts conn)) as [a l] eqn:Ef.
  split; [exact Hs|]. by exists (n_counts conn).
Qed.

Lemma outcome_within sm affected last_rowid :
  triple (fun s => within (at_end sm) s /\ exists before, sq_finish (sm_stmt sm) before = (affected, last_rowid))
    (if is_write job then record_applied (jb_id job) affected last_rowid else eret tt) (fun _ => within (committed job d0)) stopped.
Proof.
  destruct (is_write job) eqn:Hw; [by apply record_within|]. intros [[conn ch] p] [[H1 (st & Hout & Hd & Hst)] _]. split; [done|].
  exists stmt0, stmt, st. rewrite Hw. by split_and!.
Qed.
End run.

Lemma commit_completes : triple (within (committed job d0)) (on_conn commit) (fun _ => completed) stopped.
Proof.
  intros [[conn ch] p] [H1 H2]. unfold on_conn, commit. rewrite H1. pose proof (nquery_keeps (fun _ => Ok tt) conn) as [Hd Hs].
  unfold ncall. destruct (nquery _ conn) as [[[]|e] conn']; cbn in *; [|left; by rewrite Hs]. split; [done|by rewrite Hd].
Qed.

Lemma prepare_within : triple untouched (enforced_prepare (jb_approved job) (jb_pragma_allowlist job) (jb_sql job))
  (fun stmt0 s => prepared job d0 stmt0 /\ untouched s) stopped.
Proof.
  unfold enforced_prepare. eapply triple_bind; [apply (on_conn_within (fun d => d = d0)), nquery_keeps|].
  intros [] [[conn ch] p] [Hs Hd]. unfold prepare_under. rewrite Hd.
  destruct (prepare_with _ _ None) as [[stmt|e] r] eqn:E; [|by left]. split; [by exists r|done].
Qed.

Lemma fresh_effects : triple untouched (execute_fresh job (is_write job)) (fun _ => completed) stopped.
Proof.
  unfold execute_fresh. eapply triple_bind; [apply prepare_within|]. intros stmt0. apply triple_pure. intros Hprep.
  eapply triple_bind with (Q := fun _ => untouched); [by intros [[conn ch] p] Hs|]. intros start.
  eapply triple_bind; [apply (on_conn_within (fun d => d = d0)), nquery_keeps|]. intros [].
  eapply triple_bind; [apply (push_within (fun d => d = d0))|]. intros [].
  destruct (existsb is_blob_ref (jb_params job)) eqn:Eb.
  { eapply triple_bind with (Q := fun _ _ => False); [|by intros ? s []]. intros s Hs. by apply (stopped_within (fun d => d = d0)). }
  eapply triple_bind with (Q := fun _ => untouched); [by intros s Hs|]. intros [].
  eapply triple_bind; [apply (lift_within (fun d => d = d0))|]. intros stmt. apply triple_pure. intros Hbind.
  assert (Hst : started job d0 stmt0 stmt) by (split_and!; [done..|]; by destruct (sq_bind _ stmt0); simplify_eq/=).
  eapply triple_bind; [by apply rows_within|]. intros sm.
  eapply triple_bind; [apply finish_within|]. intros [affected last_rowid].
  eapply triple_bind; [by apply outcome_within|]. intros [].
  eapply triple_bind; [apply commit_completes|]. intros [].
  eapply triple_bind with (Q := fun _ => completed); [|by intros [] s Hs].
  intros [[conn ch] p] Hs. unfold push_frame. destruct (send _ ch) as [[|] ch']; cbn; [exact Hs|by right].
Qed.

Lemma answer_untouched json : triple untouched (answer_from_applied (D:=D) (jb_id job) json) (fun _ => untouched) stopped.
Proof.
  unfold answer_from_applied. destruct (parse_outcome json).
  eapply triple_bind; [apply (push_within (fun d => d = d0))|]. intros [].
  eapply triple_bind; [apply (push_within (fun d => d = d0))|]. intros []. by intros s Hs.
Qed.

Lemma tx_effects conn ch p r conn' ch' p' :
  n_db conn = d0 -> n_saved conn = None -> execute_in_tx job (conn, ch, p) = (r, (conn', ch', p')) ->
  n_saved conn' = None /\
  (n_db conn' = d0 /\ (forall em, r = Ok em -> was_applied job d0) \/ committed job d0 (n_db conn')).
Proof.
  intros Hd0 Hs. unfold execute_in_tx, in_tx. fold (is_write job). unfold ebind at 1. unfold on_conn at 1, begin_transaction.
  rewrite Hs. pose proof (nquery_keeps (fun _ => Ok tt) conn) as [Hd1 Hs1]. unfold ncall.
  destruct (nquery _ conn) as [[[]|e] conn1]; cbn in Hd1, Hs1 |- *.
  2: { intros [= <- <- _ _]. rewrite Hs1, Hd1. split; [done|]. by left. }
  match goal with |- (let '(r, s) := ?body ?s1 in _) = _ -> _ =>
    assert (triple untouched body (fun _ s => completed s \/ (untouched s /\ was_applied job d0)) stopped) as Hbody;
    [|assert (Hx : untouched s1) by (by split; cbn; rewrite Hd1, ?Hd0); specialize (Hbody _ Hx); destruct (body s1) as [r1 [[c2 ch2] p2]]] end.
  { eapply triple_bind with (Q := fun recorded s => (forall json, recorded = Some json -> was_applied job d0) /\ untouched s).
    - destruct (is_write job) eqn:Hw; [|by intros s Hx]. intros [[c ch1] p1] [H1 H2]. unfold on_conn.
      destruct (nquery (applied_row (jb_id job)) c) as [o c'] eqn:E. apply nquery_cases in E as ((Hd' & Hs' & _) & _ & Hok).
      destruct o as [o|e]; cbn; [|left; by rewrite Hs']. rewrite Hs', Hd'. split; [|done].
      intros json ->. split; [done|]. exists json. rewrite <-H2. by apply Hok.
    - intros [json|]; apply triple_pure; intros Hj.
      + eapply triple_conseq; [apply answer_untouched|done| |done]. intros em s Hx. right. split; [done|]. by eapply Hj.
      + eapply triple_conseq; [apply fresh_effects|done| |done]. intros em s Hx. by left. }
  intros [= <- <- _ _]. destruct r1 as [em|h].
  - destruct Hbody as [[Hn Hc]|[[Hn Hc] Hw]]; unfold drop_transaction; rewrite Hn; (split; [done|]); [by right|by left].
  - destruct Hbody as [Hn|[Hn Hc]]; unfold drop_transaction; rewrite Hn; (split; [done|]); [by left|by right].
Qed.

End effects.

Lemma audit_outcome_ledger aid ro bo conn :
  but_ledger (n_db conn) (n_db (audit_outcome aid ro bo conn)) /\
  n_saved (audit_outcome aid ro bo conn) = n_saved conn.
Proof.
  unfold audit_outcome. destruct (aid =? 0); [by split; [left|]|].
  destruct (nsql _ conn) as [r c'] eqn:E. cbn [snd]. apply nsql_cases in E as [(e & _ & (Hd & Hs & _) & _)|(a & d & _ & Hf & Hd & Hs & _)].
  - split; [by left|done].
  - split; [|done]. destruct (nneed _ _) as [rows|]; [|done]. cbn in Hf. injection Hf as _ <-. right. by eexists.
Qed.

Lemma run_execute_effects job conn ch :
  keeps_tx (D:=D) -> n_saved conn = None ->
  n_saved (fst (run_execute job conn ch)) = None /\
  (n_db (fst (run_execute job conn ch)) = n_db conn \/
   (was_applied job (n_db conn) /\ but_ledger (n_db conn) (n_db (fst (run_execute job conn ch)))) \/
   exists d, committed job (n_db conn) d /\ but_ledger d (n_db (fst (run_execute job conn ch)))).
Proof.
  intros Hk Hs. unfold run_execute.
  destruct (execute_in_tx job _) as [r [[conn' ch'] p']] eqn:E.
  destruct (tx_effects job (n_db conn) Hk _ _ _ _ _ _ _ eq_refl Hs E) as [Hs' Hd].
  destruct r as [em|h]; cbn [fst].
  - destruct (audit_outcome_ledger (jb_audit_id job) (rows_out em) (bytes_out em) conn') as [Hl ->]. split; [done|].
    destruct Hd as [[Hd Hw]|Hc]; [right; left|right; right; by exists (n_db conn')].
    split; [by eapply Hw|by rewrite <-Hd].
  - split; [done|]. destruct Hd as [[Hd _]|Hc]; [by left|right; right]. exists (n_db conn'). split; [done|by left].
Qed.

(** ** Retransmission *)

Lemma ncall_healthy conn : n_healthy conn -> exists conn', ncall conn = (Ok tt, conn') /\ quiet conn conn'.
Proof.
  intros Hc. unfold ncall. destruct (nquery _ conn) as [r c'] eqn:E. apply nquery_cases in E as (Hq & Hr & _).
  exists c'. by rewrite (Hr Hc).
Qed.

Lemma nquery_healthy {A} (f : NodeDb D -> result SqlError A) conn :
  n_healthy conn -> exists conn', nquery f conn = (f (n_db conn), conn') /\ quiet conn conn'.
Proof.
  intros Hc. destruct (nquery f conn) as [r c'] eqn:E. apply nquery_cases in E as (Hq & Hr & _).
  exists c'. by rewrite (Hr Hc).
Qed.

(** The transaction is open, over the same database. *)
Lemma begin_healthy conn : n_healthy conn -> n_saved conn = None ->
  exists conn', begin_transaction conn = (Ok tt, conn') /\ n_db conn' = n_db conn /\
    n_saved conn' = Some (n_db conn) /\ n_healthy conn'.
Proof.
  intros Hc Hs. unfold begin_transaction. rewrite Hs. destruct (ncall_healthy conn Hc) as (c1 & -> & Hd & _ & Hh).
  exists (set_saved (Some (n_db c1)) c1). cbn. rewrite Hd. split_and!; try done. by apply Hh.
Qed.

Lemma retransmission_tx job json conn p :
  n_healthy conn -> n_saved conn = None -> is_write job = true ->
  applied_row (jb_id job) (n_db conn) = Ok (Some json) ->
  exists conn', execute_in_tx job (conn, mkChan [] None, p) =
    (Ok (mkEmitted 0 0),
     (conn', mkChan [OResult (mkResultHeader (jb_id job) [] []);
                     ODone (mkDone (jb_id job) (Some 0) (fst (parse_outcome json)) (snd (parse_outcome json)) false)] None, p)) /\
    n_db conn' = n_db conn.
Proof.
  intros Hc Hs Hw Ha. unfold execute_in_tx, in_tx. fold (is_write job). rewrite Hw.
  unfold ebind at 1, on_conn at 1. destruct (begin_healthy conn Hc Hs) as (c1 & -> & Hd1 & Hs1 & Hh1). cbn [map_err].
  unfold ebind at 1, on_conn at 1. destruct (nquery_healthy (applied_row (jb_id job)) c1 Hh1) as (c2 & -> & Hd2 & Hs2 & _).
  rewrite Hd1, Ha. cbn [map_err]. unfold answer_from_applied. destruct (parse_outcome json) as [a l]. cbn.
  eexists. split; [done|]. unfold drop_transaction. by rewrite Hs2, Hs1.
Qed.

Lemma retransmission_answers job json conn :
  n_healthy conn -> n_saved conn = None -> is_write job = true ->
  applied_row (jb_id job) (n_db conn) = Ok (Some json) ->
  but_ledger (n_db conn) (n_db (fst (run_execute job conn (mkChan [] None)))) /\
  ch_sent (snd (run_execute job conn (mkChan [] None))) =
    [OResult (mkResultHeader (jb_id job) [] []);
     ODone (mkDone (jb_id job) (Some 0) (fst (parse_outcome json)) (snd (parse_outcome json)) false)].
Proof.
  intros Hc Hs Hw Ha. unfold run_execute.
  destruct (retransmission_tx job json conn (mkProgress 0 false false) Hc Hs Hw Ha) as (c' & -> & Hd).
  split; [|done]. cbn [fst]. rewrite <-Hd. apply audit_outcome_ledger.
Qed.

Lemma applied_row_ledger id d d' : but_ledger d d' -> applied_row id d' = applied_row id d.
Proof. by intros [->|[rows ->]]. Qed.

Lemma committed_applied job d0 d : is_write job = true -> committed job d0 d ->
  exists json, applied_row (jb_id job) d = Ok (Some json).
Proof.
  intros Hw (stmt0 & stmt & last & _ & _ & H). rewrite Hw in H. destruct H as (t & at_ & before & _ & _ & H).
  destruct (sq_finish _ before) as [a l]. subst d. exists (outcome_json a l). unfold applied_row. cbn. by rewrite lookup_insert_eq.
Qed.

(** ** Endless statements *)

Lemma progress_calls_stop n budget deadline : forall p conn,
  n = Z.to_nat (budget - pg_units p + 1) -> pg_units p <= budget ->
  exists p' conn', progress_calls n budget deadline p conn = (true, p', conn') /\ quiet conn conn'.
Proof.
  induction n as [|n IH]; intros p conn Hn Hu; [lia|]. cbn [progress_calls]. unfold progress_call.
  destruct (Z.ltb_spec budget (pg_units p + 1)) as [Hb|Hb]; [by eexists _, _|].
  destruct (instant_now conn) as [now conn1] eqn:E. apply instant_quiet in E.
  destruct (deadline <=? now); [by eexists _, _|].
  match goal with |- context [progress_calls n budget deadline ?p1 conn1] => destruct (IH p1 conn1) as (p' & c' & -> & Hq) end;
    [cbn; lia..|]. exists p', c'. split; [done|]. by etrans.
Qed.

Lemma endless_tx job conn stmt0 stmt st :
  n_healthy conn -> n_saved conn = None -> 0 <= step_budget (jb_limits job) ->
  (is_write job = true -> applied_row (jb_id job) (n_db conn) = Ok None) ->
  started job (n_db conn) stmt0 stmt -> sq_step (n_db conn) stmt = (None, st) ->
  exists conn' p', execute_in_tx job (conn, mkChan [] None, mkProgress 0 false false) =
    (Err (HSqlite interrupted), (conn', mkChan [header job stmt0] None, p')) /\ n_db conn' = n_db conn.
Proof.
  intros Hc Hs Hbud Hno ((r0 & Hprep) & Hblob & Hbind) Hstep.
  unfold execute_in_tx, in_tx. fold (is_write job).
  unfold ebind at 1, on_conn at 1. destruct (begin_healthy conn Hc Hs) as (c1 & -> & Hd1 & Hs1 & Hh1). cbn [map_err].
  match goal with |- context [ebind _ ?m (c1, ?ch, ?p)] =>
    assert (exists c2, m (c1, ch, p) = (Ok None, (c2, ch, p)) /\ quiet c1 c2) as (c2 & Hm & Hd2 & Hs2 & Hh2) end.
  { destruct (is_write job) eqn:Hw; [|by exists c1]. unfold on_conn.
    destruct (nquery_healthy (applied_row (jb_id job)) c1 Hh1) as (c2 & -> & Hq). exists c2. by rewrite Hd1, Hno. }
  unfold ebind at 1. rewrite Hm. clear Hm. unfold execute_fresh, enforced_prepare.
  unfold ebind at 1. unfold ebind at 1, on_conn at 1.
  destruct (ncall_healthy c2 (Hh2 Hh1)) as (c3 & -> & Hd3 & Hs3 & Hh3). cbn [map_err].
  unfold prepare_under. rewrite Hd3, Hd2, Hd1, Hprep. cbn [map_err].
  unfold ebind at 1, read_instant, etotal. destruct (instant_now c3) as [start c4] eqn:E4.
  apply instant_quiet in E4 as (Hd4 & Hs4 & Hh4). unfold ebind at 1, on_conn at 1.
  destruct (ncall_healthy c4 (Hh4 (Hh3 (Hh2 Hh1)))) as (c5 & -> & Hd5 & Hs5 & Hh5). cbn [map_err].
  unfold ebind at 1, push_frame at 1. cbn [send ch_room ch_sent app]. unfold ebind at 1. rewrite Hblob. cbn [eret].
  unfold ebind at 1. rewrite Hbind. cbn [elift map_err]. unfold ebind at 1, stream_rows. unfold ebind at 1.
  unfold rows_loop at 1. destruct (Z.to_nat (row_cap (jb_limits job))) as [|n];
    unfold ebind at 1, step_rows at 1, next_row; cbn [sm_stmt];
    rewrite Hd5, Hd4, Hd3, Hd2, Hd1, Hstep;
    (edestruct (progress_calls_stop _ (step_budget (jb_limits job) / PROGRESS_GRANULARITY)
        (start + lm_timeout_ms (jb_limits job) * 1000000) (mkProgress 0 false false) c5 eq_refl) as (p' & c6 & -> & Hd6 & Hs6 & _);
      [cbn; by apply Z.div_pos|]); cbn [rmap rbind map_err];
    (eexists _, p'; split; [reflexivity|]); unfold drop_transaction; by rewrite Hs6, Hs5, Hs4, Hs3, Hs2, Hs1.
Qed.

Lemma endless_stops job conn stmt0 stmt st :
  n_healthy conn -> n_saved conn = None -> 0 <= step_budget (jb_limits job) ->
  (is_write job = true -> applied_row (jb_id job) (n_db conn) = Ok None) ->
  started job (n_db conn) stmt0 stmt -> sq_step (n_db conn) stmt = (None, st) ->
  n_db (fst (run_execute job conn (mkChan [] None))) = n_db conn /\
  exists code reason, (code = LimitExceeded \/ code = Timeout) /\
    ch_sent (snd (run_execute job conn (mkChan [] None))) = [header job stmt0; error_frame (jb_id job) code reason].
Proof.
  intros Hc Hs Hb Hno Hst Hstep. unfold run_execute.
  destruct (endless_tx job conn stmt0 stmt st Hc Hs Hb Hno Hst Hstep) as (c' & p' & -> & Hd).
  split; [done|]. cbn [halt_frame is_interrupted interrupted se_code andb snd].
  destruct (pg_steps_exceeded p'); [exists LimitExceeded|exists Timeout]; eexists; (split; [by auto|reflexivity]).
Qed.
End execute.

(** ** Properties *)

Section properties.
Context {D : Type} `{HQ : !Sqlite D} `{HR : !RowIds} `{HD : !AuthDebug} `{HO : !AppliedJson}.

(** What the executor sends is a response in the sense of the protocol: to a
    client that stays, the frames of a cleared statement are an error, the
    recorded outcome of an earlier write, or the rows of the statement under
    its approved footprint, numbered from 0 in batches of bounded size, within
    the row and the byte cap, all of them unless the trailer says truncated;
    and the reader of the protocol accepts them to the end. *)
Theorem execution_is_a_response (job : ExecJob) (conn : NConn D) (Hcap : row_cap (jb_limits job) <= I64_MAX) :
  let frames := ch_sent (snd (run_execute job conn (mkChan [] None))) in
  executed job (n_db conn) frames /\ response (jb_id job) frames.
Proof.
  split; [by apply run_execute_frames|]. by eapply executed_response, run_execute_frames.
Qed.

(** C9. A statement happens entirely or not at all, wherever the client hangs up,
    a limit is hit or SQLite fails: but for the ledger, the database is as it
    was, or what was committed are the effects of the job's own statement,
    prepared under enforcement, bound, and run until SQLite has no more rows or
    the answer reaches a cap, a write together with its record under the
    request's id. An error, a timeout or an interrupt on the way commits
    nothing; and no transaction stays open. (A write that is cut at a cap is
    whole in the database: SQLite makes its changes before it returns rows.) *)
Theorem execution_is_atomic (job : ExecJob) (conn : NConn D) (ch : Chan)
    (Hkeeps : keeps_tx (D:=D)) (Hclosed : n_saved conn = None) :
  let conn' := fst (run_execute job conn ch) in
  n_saved conn' = None /\
  (n_db conn' = n_db conn \/
   (was_applied job (n_db conn) /\ but_ledger (n_db conn) (n_db conn')) \/
   exists d, committed job (n_db conn) d /\ but_ledger d (n_db conn')).
Proof. by apply run_execute_effects. Qed.

(** C16. A write is applied once: when a run changed anything, whether or not its
    client heard of it, another write with that request id changes nothing but
    the ledger, whatever its statement is, and is answered with the recorded
    outcome. *)
Theorem applied_once (job job' : ExecJob) (conn conn2 : NConn D) (ch : Chan)
    (Hkeeps : keeps_tx (D:=D)) (Hclosed : n_saved conn = None)
    (Hwrite : is_write job = true) (Hwrite' : is_write job' = true) (Hid : jb_id job' = jb_id job)
    (Hchanged : n_db (fst (run_execute job conn ch)) <> n_db conn)
    (Hnext : n_db conn2 = n_db (fst (run_execute job conn ch)))
    (Hclosed2 : n_saved conn2 = None) (Hhealthy2 : n_healthy conn2) :
  but_ledger (n_db conn2) (n_db (fst (run_execute job' conn2 (mkChan [] None)))) /\
  exists json, applied_row (jb_id job) (n_db conn2) = Ok (Some json) /\
    ch_sent (snd (run_execute job' conn2 (mkChan [] None))) =
      [OResult (mkResultHeader (jb_id job) [] []);
       ODone (mkDone (jb_id job) (Some 0) (fst (parse_outcome json)) (snd (parse_outcome json)) false)].
Proof.
  destruct (run_execute_effects job conn ch Hkeeps Hclosed) as [_ Heff]. rewrite <-Hnext in *.
  assert (exists json, applied_row (jb_id job) (n_db conn2) = Ok (Some json)) as [json Hj].
  { destruct Heff as [?|[[[_ [json Hj]] Hl]|(d & Hc & Hl)]]; [done| |].
    - exists json. by rewrite (applied_row_ledger _ _ _ Hl).
    - rewrite (applied_row_ledger _ _ _ Hl). by eapply committed_applied. }
  destruct (retransmission_answers job' json conn2 Hhealthy2 Hclosed2 Hwrite') as [Hl Hs]; [by rewrite Hid|].
  split; [done|]. exists json. split; [done|]. by rewrite Hs, Hid.
Qed.

(** A statement that would run forever is stopped: the budget of the progress
    handler interrupts it, the client is told which limit was hit, and nothing
    has changed. *)
Theorem endless_statement_stopped (job : ExecJob) (conn : NConn D) (stmt0 stmt : Stmt) (st : Step D Stmt)
    (Hhealthy : n_healthy conn) (Hclosed : n_saved conn = None) (Hbudget : 0 <= step_budget (jb_limits job))
    (Hfresh : is_write job = true -> applied_row (jb_id job) (n_db conn) = Ok None)
    (Hstarted : started job (n_db conn) stmt0 stmt) (Hendless : sq_step (n_db conn) stmt = (None, st)) :
  n_db (fst (run_execute job conn (mkChan [] None))) = n_db conn /\
  exists code reason, (code = LimitExceeded \/ code = Timeout) /\
    ch_sent (snd (run_execute job conn (mkChan [] None))) = [header job stmt0; error_frame (jb_id job) code reason].
Proof. by eapply endless_stops. Qed.

(** The options of a request only lower the ceilings of the node: each limit is
    the smaller of the two, a negative row limit, or a byte or time limit that
    is not positive, counting as none. *)
Theorem limits_are_clamped (opts : RequestOptions) (cfg : NodeConfig) :
  let l := Limits_effective opts cfg in
  row_cap l <= max_rows cfg /\ byte_cap l <= max_response_bytes cfg /\ lm_timeout_ms l <= max_duration_ms cfg /\
  (forall v, row_limit opts = Some v -> 0 <= v -> row_cap l <= v) /\
  (forall v, byte_limit opts = Some v -> 0 < v -> byte_cap l <= v) /\
  (forall v, timeout_ms opts = Some v -> 0 < v -> lm_timeout_ms l <= v).
Proof.
  unfold Limits_effective. cbn [row_cap byte_cap lm_timeout_ms].
  assert (forall v ok c, clamped v ok c <= c) as H1 by (intros [v|] ok c; cbn; [destruct (ok v)|]; lia).
  assert (forall v o ok c, o = Some v -> ok v = true -> clamped o ok c <= v) as H2 by (intros v o ok c -> Hv; cbn; rewrite Hv; lia).
  split_and!; try apply H1; intros v Hv Hp; apply H2; try done; by apply Z.leb_le || by apply Z.ltb_lt.
Qed.
End properties.

(** ** Witnesses *)

#[local] Existing Instance note_sqlite.
#[local] Existing Instance low_ids.
#[local] Instance plain_action : AuthDebug := { action_debug := fun _ => "Action" }.
#[local] Instance plain_outcome : AppliedJson := {
  outcome_json := fun a l => int_to_string a;
  parse_outcome := fun s => (match parse_i64 s with Ok a => Some a | Err _ => None end, None)
}.

Definition demo_job (kind : ActionKind) (sql : string) (params : list Value) : ExecJob :=
  mkExecJob "01J" sql params (mkApproved (mkFootprint kind {["notes" := {["body"]}]} ∅) Remote)
    (mkLimits 1 1000 1000 5000) 10 10000 [] 0.

Lemma note_keeps_tx : keeps_tx (D:=list string).
Proof. intros d s. destruct s as [n|[b|] [i|]| |]; cbn; try reflexivity. by destruct (nd_user d !! n). Qed.

Lemma execution_is_a_response_witness :
  let frames := ch_sent (snd (run_execute (demo_job Read select_notes []) (demo_conn ["hello"; "world"]) (mkChan [] None))) in
  executed (demo_job Read select_notes []) (n_db (demo_conn ["hello"; "world"])) frames /\ response "01J" frames.
Proof.
  apply (execution_is_a_response (demo_job Read select_notes []) (demo_conn ["hello"; "world"])). by vm_compute.
Defined.

Example answered : ch_sent (snd (run_execute (demo_job Read select_notes []) (demo_conn ["hello"; "world"]) (mkChan [] None))) =
  [OResult (mkResultHeader "01J" ["body"] ["TEXT"]); ORow [mkRow 0 [("body", Text "hello")]];
   ODone (mkDone "01J" (Some 1) None None true)].
Proof. vm_compute. reflexivity. Qed.

Lemma execution_is_atomic_witness :
  let c := demo_conn [] in
  let conn' := fst (run_execute (demo_job Write insert_note [Text "hi"]) c (mkChan [] (Some 0%nat))) in
  n_saved conn' = None /\
  (n_db conn' = n_db c \/
   (was_applied (demo_job Write insert_note [Text "hi"]) (n_db c) /\ but_ledger (n_db c) (n_db conn')) \/
   exists d, committed (demo_job Write insert_note [Text "hi"]) (n_db c) d /\ but_ledger d (n_db conn')).
Proof. apply (execution_is_atomic (demo_job Write insert_note [Text "hi"])); [apply note_keeps_tx|reflexivity]. Defined.

Lemma applied_once_witness :
  let job := demo_job Write insert_note [Text "hi"] in
  let other := demo_job Write insert_note [Text "from another"] in
  let c1 := fst (run_execute job (demo_conn []) (mkChan [] (Some 1%nat))) in
  but_ledger (n_db c1) (n_db (fst (run_execute other c1 (mkChan [] None)))) /\
  exists json, applied_row "01J" (n_db c1) = Ok (Some json) /\
    ch_sent (snd (run_execute other c1 (mkChan [] None))) =
      [OResult (mkResultHeader "01J" [] []);
       ODone (mkDone "01J" (Some 0) (fst (parse_outcome json)) (snd (parse_outcome json)) false)].
Proof.
  apply (applied_once (demo_job Write insert_note [Text "hi"]) (demo_job Write insert_note [Text "from another"])
           (demo_conn []) _ (mkChan [] (Some 1%nat))); try reflexivity.
  - apply note_keeps_tx.
  - intros H. assert (nd_user (n_db (fst (run_execute (demo_job Write insert_note [Text "hi"]) (demo_conn []) (mkChan [] (Some 1%nat))))) = [])
      as Hu by (by rewrite H). vm_compute in Hu. discriminate Hu.
  - vm_compute. constructor.
Defined.

Lemma endless_statement_stopped_witness :
  let job := demo_job Read loop_forever [] in
  n_db (fst (run_execute job (demo_conn []) (mkChan [] None))) = demo_db [] /\
  exists code reason, (code = LimitExceeded \/ code = Timeout) /\
    ch_sent (snd (run_execute job (demo_conn []) (mkChan [] None))) = [@header _ note_sqlite job NLoop; error_frame "01J" code reason].
Proof.
  apply (endless_statement_stopped (demo_job Read loop_forever []) (demo_conn []) (NLoop : @Stmt _ note_sqlite) (NLoop : @Stmt _ note_sqlite) (mkStep (Ok None) NLoop (demo_db []) TxKept));
    try reflexivity.
  - constructor.
  - by vm_compute.
  - split; [by eexists|done].
Defined.
