(* ===== verification/NodeFrames.v ===== *)
(** * NodeFrames: the node, and the frames it sends

    Models the [Node] of [crates/node/src/pipeline.rs] as its handlers use it,
    and how they send: one frame, several until the stream fails, refusals. *)

From S2P Require Import Prelude RustStd Vocab External Instances Value Envelope Request AuthTypes Chain.
From S2P Require Import Authorizer NodeDb NodeExecute.

Open Scope Z_scope.

(** [Debug] of a frame and of a string, [Display] of a protocol error. *)
Class FrameText : Type := {
  frame_debug : EnvelopeObject -> string;
  tag_debug : string -> string;
  protocol_error_text : ProtocolError -> string
}.

Section frames.
Context {D : Type}.

(** A handler reads and writes the database and sends on the stream. *)
Definition Serve : Type := NConn D * Chan -> NConn D * Chan.

Definition tell (obj : EnvelopeObject) : Serve := fun '(conn, ch) => (conn, snd (send obj ch)).

(** [stream.send(..).await?] for each in turn. *)
Fixpoint send_all (objs : list EnvelopeObject) (ch : Chan) : Chan :=
  match objs with
  | [] => ch
  | obj :: objs' => match send obj ch with
                    | (true, ch) => send_all objs' ch
                    | (false, ch) => ch
                    end
  end.

Definition tell_all (objs : list EnvelopeObject) : Serve := fun '(conn, ch) => (conn, send_all objs ch).

Definition send_denied (id : option string) (reason : string) : Serve := tell (ODenied (mkDenied id (Some reason))).

Definition send_error (id : option string) (code : ErrorCode) (reason : string) : Serve :=
  tell (OError (mkErrorEnvelope id (ErrorCode_as_str code) (Some reason))).

Definition unknown_peer_reason : string := "unknown peer: only rsntr:Knock is accepted".

(** A mod handler: its modulations, whether it writes its own ledger row, and
    what it does with a request. *)
Record Handler : Type := mkHandler {
  hd_mods : list string;
  hd_self_gated : bool;
  hd_handle : string -> Request -> Serve
}.

(** The node: its chain and settings, its mod handler, what other jobs do to
    the database between the two jobs of a request, and its importer of
    attachments. *)
Record Node : Type := mkNode {
  nn_chain : Chain;
  nn_config : NodeConfig;
  nn_handler : option Handler;
  nn_meanwhile : NConn D -> NConn D;
  nn_importer : option (string -> result string unit)
}.
End frames.
