(* ===== verification/NodeProjection.v ===== *)
(** * NodeProjection: what the node offers a caller

    Models [crates/node/src/projection.rs]: the points of a path, those the
    caller may invoke, and their fields read from JSON; and
    [serve_projection_lane] of [pipeline.rs]. *)

From S2P Require Import Prelude RustStd Collections Effect Vocab External Instances Value Envelope Request AuthTypes Chain Policy.
From S2P Require Import Authorizer NodeDb NodeGate NodeDemo NodeGateProps NodeExecute NodeFrames.

Open Scope Z_scope.
Set Warnings "-register-all".

(** ** JSON *)

(** [serde_json::Value]. A number has what [as_i64] gives and the bits of what
    [as_f64] gives; the keys of an object are distinct. *)
Inductive Json : Type :=
| JNull
| JBool (b : bool)
| JNumber (as_i64 : option Z) (as_f64 : option Z)
| JString (s : string)
| JArray (items : list Json)
| JObject (members : list (string * Json)).

(** [serde_json::from_str], at [Value] and at [Vec<String>]. *)
Class JsonText : Type := {
  json_value : string -> option Json;
  json_strings : string -> option (list string)
}.

Definition as_str (j : Json) : option string := match j with JString s => Some s | _ => None end.
Definition as_bool (j : Json) : option bool := match j with JBool b => Some b | _ => None end.
Definition as_array (j : Json) : option (list Json) := match j with JArray items => Some items | _ => None end.
Definition as_object (j : Json) : option (list (string * Json)) := match j with JObject ms => Some ms | _ => None end.

Definition json_get (key : string) (members : list (string * Json)) : option Json :=
  snd <$> List.find (fun m => bool_decide (fst m = key)) members.

Definition json_to_value (v : Json) : option Value :=
  match v with
  | JString s => Some (Text s)
  | JNumber (Some i) _ => Some (Integer i)
  | JNumber None f => Real <$> f
  | JBool b => Some (Integer (Z.b2z b))
  | _ => None
  end.

Section projection.
Context {D : Type} `{HR : !RowIds} `{HF : !FrameText} `{HW : !JsonText}.
Implicit Types (d : NodeDb D) (conn : NConn D).
Abbreviation Serve := (@Serve D).

(** ** Points *)

Record PointCols : Type := mkPointCols {
  pc_point_iri : string;
  pc_kind : string;
  pc_label : option string;
  pc_icon : option string;
  pc_role : option string;
  pc_projects_path : option string;
  pc_modulation : option string;
  pc_signal : option string;
  pc_params_order : option string;
  pc_fields : option string;
  pc_signal_template : option string;
  pc_fires : option string;
  pc_resource : option string
}.

(** The well-known point of every root projection. *)
Definition projection_changed_point : Point :=
  mkPoint PROJECTION_CHANGED Sympathetic (Some "projection changed") None None None None [] None None [] None None.

Definition parse_kind (kind : string) : PointKind :=
  if bool_decide (kind = "excitable") then Excitable
  else if bool_decide (kind = "radiant") then Radiant
  else if bool_decide (kind = "sympathetic") then Sympathetic
  else if bool_decide (kind = "bare") then Bare
  else if contains_char ":"%char kind then Other kind
  else Bare.

Definition parse_string_array (raw : option string) : list string :=
  match raw with
  | Some raw => default [] (json_strings raw)
  | None => []
  end.

Definition expand_datatype (s : string) : string :=
  match RustStd.strip_prefix "xsd:" s with
  | Some local => XSD_NS +:+ local
  | None => if contains_char ":"%char s then s else XSD_NS +:+ s
  end.

Definition parse_field (item : Json) : option PointField :=
  match as_object item with
  | None => None
  | Some obj =>
      match json_get "name" obj with
      | Some name =>
          match as_str name with
          | Some name =>
              Some (mkPointField name
                      (expand_datatype <$> (match json_get "datatype" obj with Some v => as_str v | None => None end))
                      (default false (match json_get "required" obj with Some v => as_bool v | None => None end))
                      (match json_get "default" obj with Some v => json_to_value v | None => None end)
                      (match json_get "one_of" obj with
                       | Some v => match as_array v with Some a => omap json_to_value a | None => [] end
                       | None => []
                       end)
                      (match json_get "hint" obj with Some v => as_str v | None => None end))
          | None => None
          end
      | None => None
      end
  end.

Definition parse_fields (raw : option string) : list PointField :=
  match raw with
  | None => []
  | Some raw => match json_value raw with
                | Some (JArray items) => omap parse_field items
                | _ => []
                end
  end.

Definition row_to_point (row : PointCols) : Point :=
  mkPoint (pc_point_iri row) (parse_kind (pc_kind row)) (pc_label row) None (pc_icon row) (pc_role row)
    (pc_projects_path row) (parse_fields (pc_fields row)) (pc_modulation row) (pc_signal row)
    (parse_string_array (pc_params_order row)) (pc_signal_template row) (pc_fires row).

(** ** Who may see a point *)

Definition actions_for_kind (kind : string) : list string :=
  if bool_decide (kind = "excitable") then ["write"]
  else if bool_decide (kind = "sympathetic") then ["entrain"; "read"]
  else ["read"].

(** The action of a modulation that goes with its own gate. *)
Definition gated_action (name : string) (modulation : option string) : list string :=
  match modulation with
  | Some m => if mod_matches name m then [name] else []
  | None => []
  end.

Definition visible_actions (kind : string) (modulation : option string) : list string :=
  actions_for_kind kind ++ gated_action "chat" modulation ++ gated_action "media" modulation
    ++ gated_action "audio-duplex" modulation.

Definition allow_row (peer action resource : string) (row : PolicyRow) : bool :=
  cell_is (po_effect row) "allow" && cell_is (po_action row) action &&
  (cell_is (po_table row) resource || cell_is (po_table row) "*") &&
  (cell_is (po_peer row) peer || cell_is (po_peer row) "*").

Definition count_allows (peer action resource : string) d : result SqlError Z :=
  let? rows := nneed "_policy" (db_policy (nd_auth d)) in
  Ok (zlen (base.filter (fun r => allow_row peer action resource r = true) rows)).

Fixpoint any_allowed (peer resource : string) (actions : list string) : Eff (NConn D) SqlError bool :=
  match actions with
  | [] => eret false
  | action :: actions' =>
      let* n := nquery (count_allows peer action resource) in
      if 0 <? n then eret true else any_allowed peer resource actions'
  end.

Definition visible (peer kind : string) (modulation resource : option string) : Eff (NConn D) SqlError bool :=
  match resource with
  | None => eret true
  | Some resource => any_allowed peer resource (visible_actions kind modulation)
  end.

(** ** The projection *)

Inductive ProjectionOutcome : Type := UnknownPath | Built (p : Projection).

Definition read_point (entry : string * PointRow) : result SqlError PointCols :=
  let '(iri, r) := entry in
  map_err sql_failure
    (let? kind := get_string (pr_kind r) in
     let? label := get_opt_string (pr_label r) in
     let? icon := get_opt_string (pr_icon r) in
     let? role := get_opt_string (pr_role r) in
     let? projects_path := get_opt_string (pr_projects_path r) in
     let? modulation := get_opt_string (pr_modulation r) in
     let? signal := get_opt_string (pr_signal r) in
     let? params_order := get_opt_string (pr_params_order r) in
     let? fields := get_opt_string (pr_fields r) in
     let? signal_template := get_opt_string (pr_signal_template r) in
     let? fires := get_opt_string (pr_fires r) in
     let? resource := get_opt_string (pr_resource r) in
     Ok (mkPointCols iri kind label icon role projects_path modulation signal params_order fields signal_template fires resource)).

(** [ORDER BY ord, point_iri]. *)
Definition point_le (e1 e2 : string * PointRow) : Prop :=
  pr_ord (snd e1) < pr_ord (snd e2) \/ (pr_ord (snd e1) = pr_ord (snd e2) /\ String.le (fst e1) (fst e2)).
#[export] Instance point_le_dec (e1 e2 : string * PointRow) : base.Decision (point_le e1 e2).
Proof. unfold point_le. apply _. Defined.

Definition on_path (path : string) (entry : string * PointRow) : Prop := cell_is (pr_path (snd entry)) path = true.
#[export] Instance on_path_dec (path : string) (entry : string * PointRow) : base.Decision (on_path path entry).
Proof. unfold on_path. apply _. Defined.

Definition points_at (path : string) d : result SqlError (list PointCols) :=
  let? t := nneed "_projection" (sv_projection (nd_surface d)) in
  traverse read_point (merge_sort point_le (base.filter (on_path path) (map_to_list t))).

(** One row of the loop over the points. *)
Definition offer (peer : string) (unfiltered : bool) (offers : list Point) (row : PointCols) : Eff (NConn D) SqlError (list Point) :=
  let* shown := (if unfiltered then eret true else visible peer (pc_kind row) (pc_modulation row) (pc_resource row)) in
  eret (if (shown : bool) then offers ++ [row_to_point row] else offers).

Definition build_projection (peer id path : string) (unfiltered : bool) : Eff (NConn D) SqlError ProjectionOutcome :=
  let path := trim path in
  let* rows := nquery (points_at path) in
  if bool_decide (rows = []) && negb (bool_decide (path = "")) then eret UnknownPath
  else
    let* offers := efold (offer peer unfiltered) [] rows in
    let offers := if bool_decide (path = "") then offers ++ [projection_changed_point] else offers in
    eret (Built (mkProjection (if bool_decide (id = "") then None else Some id) offers)).

(** ** The lane *)

(** Direction and decider of a ledger row written by a lane itself. *)
Definition lane_audit (lane : Lane) : string * string :=
  match lane with Owner => ("local", "owner") | Remote => ("in", "node") end.

Definition serve_projection_lane (peer id path : string) (lane : Lane) : Serve := fun '(conn, ch) =>
  let '(outcome, conn) := build_projection peer id path (bool_decide (lane = Owner)) conn in
  let '(decision, reason) := match outcome with
                             | Ok (Built _) => ("allow", "projection at path " +:+ tag_debug path)
                             | Ok UnknownPath => ("deny", "unknown projection path " +:+ tag_debug path)
                             | Err e => ("deny", "projection build failed: " +:+ se_text e)
                             end in
  let '(direction, decided_by) := lane_audit lane in
  let conn := audit_direct_dir direction peer id "projection" decision decided_by reason conn in
  match outcome with
  | Ok (Built p) => tell (OProjection p) (conn, ch)
  | Ok UnknownPath => send_error (Some id) PointUnknown ("no projection at path " +:+ tag_debug path) (conn, ch)
  | Err e => send_error (Some id) EngineError (se_text e) (conn, ch)
  end.

End projection.

(** * Who sees which point

    The projection built for a caller is the list of the points of the path,
    in their order, without those the rules say nothing for. *)

(** ** The rules *)

#[export] Instance Resolved_eq_dec : EqDecision Resolved.
Proof. solve_decision. Defined.

Section rules.
Implicit Types (rows : list PolicyRow).

(** Some rule allows one of the actions that go with the point. *)
Definition sees rows (peer : string) (pt : PointCols) : bool :=
  match pc_resource pt with
  | None => true
  | Some resource =>
      existsb (fun action => existsb (allow_row peer action resource) rows)
        (visible_actions (pc_kind pt) (pc_modulation pt))
  end.

Lemma allow_row_applicable peer action resource row :
  allow_row peer action resource row = true <-> applicable peer resource action row = true /\ row_allows row = true.
Proof.
  unfold allow_row, applicable, row_allows. rewrite !andb_true_iff. tauto.
Qed.

Lemma governing_incl rows peer resource action row :
  row ∈ governing rows peer resource action -> row ∈ rows /\ applicable peer resource action row = true.
Proof. unfold governing. rewrite !list_elem_of_filter. tauto. Qed.

(** Where a rule allows, the rules say something. *)
Lemma row_has_verdict rows peer resource action :
  existsb (allow_row peer action resource) rows = true -> verdict rows peer resource action <> RUnmatched.
Proof.
  intros (row & Hin & Happ)%existsb_exists. apply allow_row_applicable in Happ as [Happ _]. apply list_elem_of_In in Hin.
  unfold verdict. assert (governing rows peer resource action <> []) as Hne; [|destruct (governing _ _ _ _); [done|by case_match]].
  unfold governing. set (apps := base.filter (fun r => applicable peer resource action r = true) rows).
  assert (row ∈ apps) as Hrow by (apply list_elem_of_filter; done). clearbody apps. clear Hin Happ.
  assert (exists top, top ∈ apps /\ Forall (fun r => row_score r <= row_score top) apps) as (top & Htop & Hall).
  { clear -Hrow. revert row Hrow. induction apps as [|r apps IH]; intros row Hrow; [by apply elem_of_nil in Hrow|].
    destruct apps as [|r' apps]; [exists r; split; [by constructor|by repeat constructor]|].
    destruct (IH r' ltac:(by constructor)) as (top & Htop & Hall). destruct (Z.leb_spec (row_score r) (row_score top)).
    - exists top. split; [by right|]. by constructor.
    - exists r. split; [by constructor|]. constructor; [done|]. eapply Forall_impl; [exact Hall|]. cbn. lia. }
  intros Hnil. assert (top ∈ []) as []%elem_of_nil. rewrite <-Hnil. by apply list_elem_of_filter.
Qed.

(** What the caller can invoke: public points, and those where the rules, as the
    policy tier reads them, allow one of the actions that go with the point. *)
Definition invocable rows (peer : string) (pt : PointCols) : bool :=
  match pc_resource pt with
  | None => true
  | Some resource =>
      existsb (fun action => bool_decide (verdict rows peer resource action = RAllow))
        (visible_actions (pc_kind pt) (pc_modulation pt))
  end.

(** No two rules that apply to the caller and an action of the point disagree. *)
Definition undisputed rows (peer : string) (pt : PointCols) : Prop :=
  forall resource action allow deny, pc_resource pt = Some resource ->
    action ∈ visible_actions (pc_kind pt) (pc_modulation pt) ->
    allow ∈ rows -> applicable peer resource action allow = true -> row_allows allow = true ->
    deny ∈ rows -> applicable peer resource action deny = true -> row_allows deny = true.

(** Then a rule that allows is what the rules say. *)
Lemma allowed_verdict rows peer resource action :
  (forall allow deny, allow ∈ rows -> applicable peer resource action allow = true -> row_allows allow = true ->
     deny ∈ rows -> applicable peer resource action deny = true -> row_allows deny = true) ->
  existsb (allow_row peer action resource) rows = bool_decide (verdict rows peer resource action = RAllow).
Proof.
  intros Hagree. destruct (existsb _ rows) eqn:Ex; symmetry.
  - apply bool_decide_eq_true. assert (Hv := row_has_verdict _ _ _ _ Ex).
    apply existsb_exists in Ex as (allow & Hin & [Happ Hallow]%allow_row_applicable). apply list_elem_of_In in Hin.
    unfold verdict in *. destruct (governing rows peer resource action) as [|row rs] eqn:Eg; [done|].
    replace (forallb row_allows (row :: rs)) with true; [done|]. symmetry. apply forallb_forall. intros r Hr. apply list_elem_of_In in Hr.
    rewrite <-Eg in Hr. apply governing_incl in Hr as [Hr Ha]. by eapply (Hagree allow r).
  - apply bool_decide_eq_false. unfold verdict. destruct (governing rows peer resource action) as [|row rs] eqn:Eg; [done|].
    destruct (forallb row_allows _) eqn:Ea; [|done]. intros _. cbn in Ea. apply andb_true_iff in Ea as [Ha _].
    assert (row ∈ governing rows peer resource action) as [Hin Happ]%governing_incl by (rewrite Eg; by constructor).
    assert (existsb (allow_row peer action resource) rows = true); [|congruence].
    apply existsb_exists. exists row. split; [by apply list_elem_of_In|]. by apply allow_row_applicable.
Qed.

Lemma undisputed_sees rows peer pt : undisputed rows peer pt -> sees rows peer pt = invocable rows peer pt.
Proof.
  intros Hu. unfold sees, invocable. unfold undisputed in Hu. destruct (pc_resource pt) as [resource|]; [|done].
  assert (Hall : forall action, action ∈ visible_actions (pc_kind pt) (pc_modulation pt) ->
    existsb (allow_row peer action resource) rows = bool_decide (verdict rows peer resource action = RAllow)).
  { intros action Ha. apply allowed_verdict. intros allow deny. by apply Hu. }
  clear Hu. induction (visible_actions _ _) as [|action actions IH]; [done|]. cbn [existsb]. rewrite Hall by by left.
  f_equal. apply IH. intros a Ha. apply Hall. by right.
Qed.

Lemma undisputed_filter rows peer pts : Forall (undisputed rows peer) pts ->
  base.filter (fun pt => sees rows peer pt = true) pts = base.filter (fun pt => invocable rows peer pt = true) pts.
Proof.
  induction 1 as [|pt pts Hu _ IH]; [done|]. rewrite !filter_cons, IH. apply undisputed_sees in Hu. rewrite Hu.
  by destruct (invocable rows peer pt).
Qed.

(** The rule for the peer outranks the one for everybody. *)
Lemma special_denial (peer resource : string) : peer <> "*" ->
  verdict [mkPolicyRow (SText "*") (SText resource) (SText "read") (SText "allow") SNull;
           mkPolicyRow (SText peer) (SText resource) (SText "read") (SText "deny") SNull] peer resource "read" = RDeny.
Proof.
  intros Hpeer. set (g := mkPolicyRow (SText "*") _ _ _ _). set (s := mkPolicyRow (SText peer) _ _ _ _).
  unfold verdict, governing.
  assert (base.filter (fun r => applicable peer resource "read" r = true) [g; s] = [g; s]) as ->.
  { rewrite !filter_cons, filter_nil. unfold applicable, g, s. cbn.
    by rewrite (bool_decide_true (resource = resource)), (bool_decide_true (peer = peer)), !orb_true_r by done. }
  assert (row_score g < row_score s) as Hlt.
  { unfold row_score, rule_of, g, s. cbn. unfold score_of. rewrite (bool_decide_true ("*" = "*")), (bool_decide_false (peer = "*")) by done.
    lia. }
  rewrite filter_cons_False, filter_cons_True, filter_nil; [done| |].
  - repeat constructor; lia.
  - rewrite !Forall_cons. lia.
Qed.
End rules.

(** ** Building *)

Section build.
Context {D : Type} `{HR : !RowIds} `{HF : !FrameText} `{HW : !JsonText}.
Implicit Types (d : NodeDb D) (conn : NConn D).

(** Code that only asks: with no statement failing on its own it gives [a]. *)
Definition asks {A} (m : Eff (NConn D) SqlError A) (d : NodeDb D) (a : A) : Prop :=
  forall conn, n_db conn = d -> n_healthy conn -> exists conn', m conn = (Ok a, conn') /\ quiet conn conn'.

Lemma asks_ret {A} (a : A) d : asks (eret a) d a.
Proof. intros conn _ _. by exists conn. Qed.

Lemma asks_query {A} (f : NodeDb D -> result SqlError A) d a : f d = Ok a -> asks (nquery f) d a.
Proof.
  intros Hf conn Hd Hc. destruct (nquery f conn) as [r conn'] eqn:E. apply nquery_cases in E as (Hq & Hr & _).
  exists conn'. by rewrite (Hr Hc), Hd, Hf.
Qed.

Lemma asks_bind {A B} (m : Eff (NConn D) SqlError A) (f : A -> Eff (NConn D) SqlError B) d a b :
  asks m d a -> asks (f a) d b -> asks (ebind f m) d b.
Proof.
  intros Hm Hf conn Hd Hc. destruct (Hm conn Hd Hc) as (c1 & E1 & Hq1). unfold ebind. rewrite E1.
  destruct Hq1 as (Hd1 & Hs1 & Hh1). destruct (Hf c1) as (c2 & E2 & Hq2); [by rewrite Hd1|by apply Hh1|].
  exists c2. split; [done|]. etrans; [|exact Hq2]. by split_and!.
Qed.

Lemma count_pos rows peer action resource :
  (0 <? zlen (base.filter (fun r => allow_row peer action resource r = true) rows)) = existsb (allow_row peer action resource) rows.
Proof.
  unfold zlen. induction rows as [|row rows IH]; [done|]. rewrite filter_cons. cbn [existsb]. rewrite <-IH.
  case_decide as Ha.
  - rewrite Ha. cbn. by apply Z.ltb_lt.
  - apply not_true_is_false in Ha. by rewrite Ha.
Qed.

Lemma visible_asks peer kind modulation resource rows d : db_policy (nd_auth d) = Some rows ->
  asks (visible peer kind modulation resource) d
    (match resource with
     | None => true
     | Some resource => existsb (fun action => existsb (allow_row peer action resource) rows) (visible_actions kind modulation)
     end).
Proof.
  intros Hd. unfold visible. destruct resource as [resource|]; [|apply asks_ret].
  induction (visible_actions kind modulation) as [|action actions IH]; cbn [any_allowed existsb]; [apply asks_ret|].
  eapply asks_bind; [apply asks_query; unfold count_allows, nneed; rewrite Hd; cbn; reflexivity|]. cbv beta.
  rewrite count_pos. destruct (existsb _ rows); [apply asks_ret|exact IH].
Qed.

Lemma offers_ask peer unfiltered rows d pts : db_policy (nd_auth d) = Some rows -> forall acc,
  asks (efold (offer peer unfiltered) acc pts) d
    (acc ++ map row_to_point (base.filter (fun pt => unfiltered || sees rows peer pt = true) pts)).
Proof.
  intros Hd. induction pts as [|pt pts IH]; intros acc; cbn [efold]; [rewrite app_nil_r; apply asks_ret|].
  assert (asks (offer peer unfiltered acc pt) d (if unfiltered || sees rows peer pt then acc ++ [row_to_point pt] else acc)) as Ho.
  { unfold offer. eapply asks_bind; [|apply asks_ret]. destruct unfiltered; [apply asks_ret|]. by apply visible_asks. }
  eapply asks_bind; [exact Ho|]. rewrite filter_cons. destruct (unfiltered || sees rows peer pt).
  - rewrite decide_True by done. specialize (IH (acc ++ [row_to_point pt])). rewrite <-app_assoc in IH. exact IH.
  - rewrite decide_False by done. apply IH.
Qed.

(** What is offered of these points. *)
Definition offered rows (peer id path : string) (unfiltered : bool) (pts : list PointCols) : ProjectionOutcome :=
  if bool_decide (pts = []) && negb (bool_decide (path = "")) then UnknownPath
  else Built (mkProjection (if bool_decide (id = "") then None else Some id)
                (map row_to_point (base.filter (fun pt => unfiltered || sees rows peer pt = true) pts)
                   ++ if bool_decide (path = "") then [projection_changed_point] else [])).

Lemma build_asks peer id path unfiltered rows d pts :
  db_policy (nd_auth d) = Some rows -> points_at (trim path) d = Ok pts ->
  asks (build_projection peer id path unfiltered) d (offered rows peer id (trim path) unfiltered pts).
Proof.
  intros Hd Hp. unfold build_projection, offered. eapply asks_bind; [by apply asks_query|]. cbv beta.
  destruct (bool_decide (pts = []) && _); [apply asks_ret|].
  eapply asks_bind; [by apply offers_ask|]. cbv beta zeta. cbn [app].
  destruct (bool_decide (trim path = "")); [|rewrite app_nil_r]; apply asks_ret.
Qed.
End build.

(** ** Properties *)

Section properties.
Context {D : Type} `{HR : !RowIds} `{HF : !FrameText} `{HW : !JsonText}.
Implicit Types (d : NodeDb D) (conn : NConn D).

(** C25. A projection holds exactly the points of its path that the caller can
    invoke, in their order, and on the root the projection-changed point: public
    points, and those on a resource where the policy tier allows one of the
    actions that go with the point. This as long as no two rules disagree about
    the caller and such an action: where a rule denies what another allows, the
    filter shows the point whichever of them governs ([projection_offers_denied]).
    The owner gets every point. A path without points is unknown, unless it is
    the root. Nothing is written. *)
Theorem projection_is_filtered (peer id path : string) (unfiltered : bool) (conn : NConn D)
    (rows : list PolicyRow) (pts : list PointCols)
    (Hhealthy : n_healthy conn) (Hrows : db_policy (nd_auth (n_db conn)) = Some rows)
    (Hpts : points_at (trim path) (n_db conn) = Ok pts) (Hclear : unfiltered = true \/ Forall (undisputed rows peer) pts) :
  exists conn', n_db conn' = n_db conn /\
    build_projection peer id path unfiltered conn =
      (Ok (if bool_decide (pts = []) && negb (bool_decide (trim path = "")) then UnknownPath
           else Built (mkProjection (if bool_decide (id = "") then None else Some id)
                         (map row_to_point (base.filter (fun pt => unfiltered || invocable rows peer pt = true) pts)
                            ++ if bool_decide (trim path = "") then [projection_changed_point] else []))), conn').
Proof.
  destruct (build_asks peer id path unfiltered rows (n_db conn) pts Hrows Hpts conn) as (conn' & Hb & Hq & _); [done..|].
  exists conn'. split; [done|]. rewrite Hb. unfold offered. destruct unfiltered; [done|].
  destruct Hclear as [?|Hclear]; [done|]. cbn [orb]. by rewrite undisputed_filter.
Qed.

(** The filter looks for a rule that allows, not at what the rules decide: a
    point on a resource is visible to a peer whom the policy tier denies
    reading it, when a more general rule allows that. *)
Theorem projection_offers_denied (peer resource stm : string) (fp : Footprint) (conn : NConn D) (ac : Conn)
    (Hpeer : peer <> "*") (Hfp : denied fp = ∅) (Hresource : resource ∈ resources_of fp)
    (Hhealthy : n_healthy conn) (Hac : healthy ac) (Hdb : db ac = nd_auth (n_db conn)) :
  let general := mkPolicyRow (SText "*") (SText resource) (SText "read") (SText "allow") SNull in
  let special := mkPolicyRow (SText peer) (SText resource) (SText "read") (SText "deny") SNull in
  db_policy (nd_auth (n_db conn)) = Some [general; special] ->
  fst (visible peer "radiant" None (Some resource) conn) = Ok true /\
  exists reason, fst (policy_decide ac peer "read" fp stm) = Deny reason.
Proof.
  cbv zeta. set (g := mkPolicyRow (SText "*") _ _ _ _). set (s := mkPolicyRow (SText peer) _ _ _ _). intros Hrows. split.
  - destruct (visible_asks peer "radiant" None (Some resource) _ _ Hrows conn eq_refl Hhealthy) as (c' & -> & _). cbn.
    f_equal. apply existsb_exists. exists "read". split; [by left|]. cbn [existsb]. unfold allow_row, g. cbn.
    by rewrite (bool_decide_true (resource = resource)), orb_true_r by done.
  - assert (verdict [g; s] peer resource "read" = RDeny) as Hv by (by apply special_denial).
    unfold policy_decide, has_denied. rewrite Hfp, bool_decide_true by done. cbn [negb].
    rewrite (resources_loop_judge _ _ [g; s]); [|done|by rewrite Hdb|unfold g, s; repeat (constructor; [by eexists|]); constructor].
    pose proof (judge_cases [g; s] peer "read" (resources_of fp)) as Hj.
    destruct (judge [g; s] peer "read" (resources_of fp)) eqn:Ej; try done; try by eexists.
    + by rewrite (Hj resource Hresource) in Hv.
    + by destruct Hj as [_ Hj]; apply Hj in Hresource.
Qed.
End properties.

(** ** Witnesses *)

(** JSON that is never read. *)
#[local] Instance no_json : JsonText := { json_value := fun _ => None; json_strings := fun _ => None }.

Definition demo_rule (peer effect : string) : PolicyRow := mkPolicyRow (SText peer) (SText "notes") (SText "read") (SText effect) SNull.

Definition demo_point (label resource : Cell) : PointRow :=
  mkPointRow (SText "radiant") label SNull SNull (SText "") 0 SNull SNull SNull SNull SNull SNull SNull resource SNull.

(** A public point, one on the notes and one on a table without rules. *)
Definition demo_points : gmap string PointRow :=
  {["urn:a" := demo_point (SText "about") SNull; "urn:n" := demo_point (SText "notes") (SText "notes");
    "urn:s" := demo_point (SText "secrets") (SText "secrets")]}.

Definition demo_policy : list PolicyRow := [demo_rule "*" "allow"; demo_rule "mallory" "deny"].

Definition points_conn : NConn (list string) :=
  let d := demo_db [] in
  set_db (set_surface (set_projection demo_points no_surface) (set_auth (set_policy demo_policy (nd_auth d)) d)) (demo_conn []).

Definition demo_cols : list PointCols := match points_at "" (n_db points_conn) with Ok pts => pts | Err _ => [] end.

(** Only alice has rules for the notes. *)
Definition alice_policy : list PolicyRow := [demo_rule "alice" "allow"; demo_rule "mallory" "deny"].
Definition alice_conn : NConn (list string) :=
  set_db (set_auth (set_policy alice_policy (nd_auth (n_db points_conn))) (n_db points_conn)) points_conn.

Lemma projection_is_filtered_witness :
  exists conn', n_db conn' = n_db alice_conn /\
    build_projection "alice" "" "" false alice_conn =
      (Ok (if bool_decide (demo_cols = []) && negb (bool_decide (trim "" = "")) then UnknownPath
           else Built (mkProjection (if bool_decide ("" = "") then None else Some "")
                         (map row_to_point (base.filter (fun pt => false || invocable alice_policy "alice" pt = true) demo_cols)
                            ++ if bool_decide (trim "" = "") then [projection_changed_point] else []))), conn').
Proof.
  apply (projection_is_filtered "alice" "" "" false alice_conn alice_policy demo_cols); [by constructor|done|by vm_compute|].
  right. apply Forall_forall. intros pt _ resource action allow deny _ _ _ _ _ Hd Happ.
  apply elem_of_cons in Hd as [->|Hd]; [done|]. apply list_elem_of_singleton in Hd as ->.
  unfold applicable in Happ. by rewrite !andb_false_r in Happ.
Defined.

Example offered_to_alice_and_mallory :
  (map pc_point_iri (base.filter (fun pt => invocable alice_policy "alice" pt = true) demo_cols),
   map pc_point_iri (base.filter (fun pt => invocable alice_policy "mallory" pt = true) demo_cols)) = (["urn:a"; "urn:n"], ["urn:a"]).
Proof. vm_compute. reflexivity. Qed.

Lemma projection_offers_denied_witness :
  fst (visible "mallory" "radiant" None (Some "notes") points_conn) = Ok true /\
  exists reason, fst (policy_decide (auth_conn points_conn) "mallory" "read" (from_tables Read [("notes", [])]) "") = Deny reason.
Proof.
  apply (projection_offers_denied "mallory" "notes" "" (from_tables Read [("notes", [])]) points_conn (auth_conn points_conn));
    [done|done|vm_compute; set_solver|by constructor|by constructor|done|done].
Defined.

Example shown_to_mallory :
  map pc_point_iri (base.filter (fun pt => sees demo_policy "mallory" pt = true) demo_cols) = ["urn:a"; "urn:n"].
Proof. vm_compute. reflexivity. Qed.
