(* ===== verification/NodeEntrain.v ===== *)
(** * NodeEntrain: signals from changes of tables to entrained peers

    Models [crates/node/src/entrain.rs] (the registry and the gates), and of
    [pipeline.rs] the hooks that collect changed tables, [fanout], the scan for
    foreign changes, and [serve_entrain_lane]. A signal is a flag: the channel
    of an entrainment has room for one. The handler waits for whichever comes
    first, a signal or a frame; the order is an input. *)

From S2P Require Import Prelude RustStd Collections Effect Vocab External Instances Value Envelope Request AuthTypes Chain CivilDate.
From S2P Require Import Authorizer NodeDb NodeDemo NodeGateProps NodeExecute NodeFrames NodeProjection.
From S2P Require Entrainment.

Open Scope Z_scope.

(** ** The registry *)

Record Sub : Type := mkSub {
  sb_point : string;
  sb_table : option string
}.

(** [rg_signals] are the receivers that are alive, and whether a signal waits
    in them. A sender lives as long as its entry in [rg_subs]. *)
Record Entrainments : Type := mkEntrainments {
  rg_subs : gmap Z Sub;
  rg_next_id : Z;
  rg_signals : gmap Z bool
}.

Definition Entrainments_new : Entrainments := mkEntrainments ∅ 0 ∅.

(** [next_id] is a [u64]. *)
Definition subscribe (point : string) (table : option string) (self : Entrainments) : Z * Entrainments :=
  let id := rg_next_id self in
  (id, mkEntrainments (<[id := mkSub point table]> (rg_subs self)) ((id + 1) mod 2 ^ 64) (<[id := false]> (rg_signals self))).

Definition unsubscribe (id : Z) (self : Entrainments) : Entrainments :=
  mkEntrainments (delete id (rg_subs self)) (rg_next_id self) (rg_signals self).

(** The handler returns, and drops its receiver. *)
Definition drop_receiver (id : Z) (self : Entrainments) : Entrainments :=
  mkEntrainments (rg_subs self) (rg_next_id self) (delete id (rg_signals self)).

(** [try_send] to every subscriber that [hears]. *)
Definition signal_where (hears : Sub -> bool) (self : Entrainments) : Entrainments :=
  mkEntrainments (rg_subs self) (rg_next_id self)
    (map_imap (fun id waiting => Some match rg_subs self !! id with
                                      | Some sub => hears sub || waiting
                                      | None => waiting
                                      end) (rg_signals self)).

Definition signal_table (table : string) : Entrainments -> Entrainments :=
  signal_where (fun sub => bool_decide (sb_table sub = Some table)).

Definition signal_point (point : string) : Entrainments -> Entrainments :=
  signal_where (fun sub => bool_decide (sb_point sub = point)).

Definition active (self : Entrainments) : nat := size (rg_subs self).

(** Sorted, without duplicates. *)
Definition subscribed_tables (self : Entrainments) : list string :=
  bs_iter (list_to_set (omap (fun e => sb_table (snd e)) (map_to_list (rg_subs self)))).

Definition close_all (self : Entrainments) : Entrainments := mkEntrainments ∅ (rg_next_id self) (rg_signals self).

(** [signals.recv()]: a signal that waits, the end when the sender is gone, or
    nothing yet. *)
Inductive Received : Type := NoSignal | Signal | Closed.

Definition recv_signal (id : Z) (self : Entrainments) : Received * Entrainments :=
  match rg_signals self !! id with
  | Some true => (Signal, mkEntrainments (rg_subs self) (rg_next_id self) (<[id := false]> (rg_signals self)))
  | _ => (if bool_decide (is_Some (rg_subs self !! id)) then NoSignal else Closed, self)
  end.

(** ** Changes *)

(** The table observer, and the tables it was called with. *)
Abbreviation Observer := (option (list string)).

Definition notify (table : string) (observer : Observer) : Observer := (fun calls => calls ++ [table]) <$> observer.

Definition fanout (table : string) (s : Entrainments * Observer) : Entrainments * Observer :=
  let '(ent, observer) := s in
  let ent := if bool_decide (table = "_projection") || bool_decide (table = "_policy") then signal_point PROJECTION_CHANGED ent
             else ent in
  (signal_table table ent, notify table observer).

(** The three hooks over the tables pending. *)
Definition on_update (table : string) (pending : list string) : list string :=
  if existsb (fun t => bool_decide (t = table)) pending then pending else pending ++ [table].
Definition on_commit (pending : list string) (s : Entrainments * Observer) : list string * (Entrainments * Observer) :=
  ([], foldl (fun s table => fanout table s) s pending).
Definition on_rollback (pending : list string) : list string := [].

Definition OBSERVED_TABLES : list string := ["_outbox"; "chat_messages"; "_inbox"; "_hooks"].

Record ChangeState : Type := mkChangeState {
  data_version : option Z;
  projection_fp : Z * Z;
  policy_fp : Z * Z
}.
Definition ChangeState_default : ChangeState := mkChangeState None (0, 0) (0, 0).

(** [unwrap_or((0, 0))]. *)
Definition table_fingerprint (answer : result SqlError (Z * Z)) : Z * Z := match answer with Ok fp => fp | Err _ => (0, 0) end.

(** One tick, given what the database answers: its data version, and row count
    and greatest row id of the two tables. *)
Definition foreign_change_scan (version : result SqlError Z) (projection policy : result SqlError (Z * Z)) (state : ChangeState) :
    ChangeState * bool * bool :=
  let dv := match version with Ok v => v | Err _ => 0 end in
  let projection := table_fingerprint projection in
  let policy := table_fingerprint policy in
  match data_version state with
  | None => (mkChangeState (Some dv) projection policy, false, false)
  | Some prev =>
      if prev =? dv then (state, false, false)
      else (mkChangeState (Some dv) projection policy, true,
            negb (bool_decide (projection = projection_fp state)) || negb (bool_decide (policy = policy_fp state)))
  end.

Definition on_foreign_change (projection_changed : bool) (s : Entrainments * Observer) : Entrainments * Observer :=
  let tables := foldl (fun tables t => if existsb (fun x => bool_decide (x = t)) tables then tables else tables ++ [t])
                  (subscribed_tables (fst s)) OBSERVED_TABLES in
  let '(ent, observer) := foldl (fun s t => (signal_table t (fst s), notify t (snd s))) s tables in
  (if projection_changed then signal_point PROJECTION_CHANGED ent else ent, observer).

Section entrain.
Context {D : Type} `{HR : !RowIds} `{HF : !FrameText}.
Implicit Types (d : NodeDb D) (conn : NConn D).

(** ** The gates *)

Inductive EntrainGate : Type :=
| GUnknownPeer
| GUnknownPoint (reason : string)
| GDenied (reason : string)
| GAllowed (table : option string).

Definition point_row (point : string) d : result SqlError PointRow :=
  let? t := nneed "_projection" (sv_projection (nd_surface d)) in
  ok_or (sql_failure "Query returned no rows") (t !! point).

(** [SELECT kind, resource]. *)
Definition owner_point (point : string) d : result SqlError (string * option string) :=
  let? r := point_row point d in
  map_err sql_failure (let? kind := get_string (pr_kind r) in let? resource := get_opt_string (pr_resource r) in Ok (kind, resource)).

(** [SELECT kind, modulation, resource]. *)
Definition peer_point (point : string) d : result SqlError (string * option string * option string) :=
  let? r := point_row point d in
  map_err sql_failure
    (let? kind := get_string (pr_kind r) in
     let? modulation := get_opt_string (pr_modulation r) in
     let? resource := get_opt_string (pr_resource r) in
     Ok (kind, modulation, resource)).

Definition no_point (point : string) : EntrainGate := GUnknownPoint ("no point <" +:+ point +:+ "> in this projection").
Definition not_sympathetic (point : string) : EntrainGate := GUnknownPoint ("<" +:+ point +:+ "> is not a Sympathetic point").

Definition gate_entrain_owner (point : string) conn : EntrainGate * NConn D :=
  if bool_decide (point = PROJECTION_CHANGED) then (GAllowed None, conn)
  else match nquery (owner_point point) conn with
       | (Err _, conn) => (no_point point, conn)
       | (Ok (kind, resource), conn) =>
           (if bool_decide (kind = "sympathetic") then GAllowed resource else not_sympathetic point, conn)
       end.

Definition gate_entrain (peer point : string) conn : EntrainGate * NConn D :=
  let '(known, conn) := peer_known peer conn in
  if negb known then (GUnknownPeer, conn)
  else if bool_decide (point = PROJECTION_CHANGED) then (GAllowed None, conn)
  else match nquery (peer_point point) conn with
       | (Err _, conn) => (no_point point, conn)
       | (Ok (kind, modulation, resource), conn) =>
           if negb (bool_decide (kind = "sympathetic")) then (not_sympathetic point, conn)
           else match visible peer kind modulation resource conn with
                | (Ok true, conn) => (GAllowed resource, conn)
                | (Ok false, conn) => (GDenied ("no entrain policy for <" +:+ point +:+ ">"), conn)
                | (Err e, conn) => (GDenied ("policy check failed: " +:+ se_text e), conn)
                end
       end.

(** The gate and its ledger row. *)
Definition gate_audited (peer : string) (e : Entrain) (lane : Lane) conn : EntrainGate * NConn D :=
  let '(gate, conn) := match lane with
                       | Owner => gate_entrain_owner (en_point e) conn
                       | Remote => gate_entrain peer (en_point e) conn
                       end in
  let '(decision, reason) := match gate with
                             | GUnknownPeer => ("deny", unknown_peer_reason)
                             | GUnknownPoint reason | GDenied reason => ("deny", reason)
                             | GAllowed _ => ("allow", "entrained <" +:+ en_point e +:+ ">")
                             end in
  let '(direction, decided_by) := lane_audit lane in
  (gate, audit_direct_dir direction peer (en_id e) "entrain" decision decided_by reason conn).

(** ** The handler *)

(** A Done frame with the correlation id alone. *)
Definition bare_done (id : string) : EnvelopeObject := ODone (mkDone id None None None false).

(** What the handlers share, and what one has sent. *)
Record World : Type := mkWorld {
  w_conn : NConn D;
  w_reg : Entrainments;
  w_ch : Chan
}.

(** Up to the acknowledgment: the subscription, if there is one to serve. *)
Definition entrain_open (peer : string) (e : Entrain) (lane : Lane) (w : World) : option Z * World :=
  let id := en_id e in
  let '(gate, conn) := gate_audited peer e lane (w_conn w) in
  let refuse obj := (None, mkWorld conn (w_reg w) (snd (send obj (w_ch w)))) in
  match gate with
  | GUnknownPeer => refuse (ODenied (mkDenied (Some id) (Some unknown_peer_reason)))
  | GUnknownPoint reason => refuse (OError (mkErrorEnvelope (Some id) (ErrorCode_as_str PointUnknown) (Some reason)))
  | GDenied reason => refuse (ODenied (mkDenied (Some id) (Some reason)))
  | GAllowed table =>
      let '(sub_id, reg) := subscribe (en_point e) table (w_reg w) in
      match send (bare_done id) (w_ch w) with
      | (true, ch) => (Some sub_id, mkWorld conn reg ch)
      | (false, ch) => (None, mkWorld conn (drop_receiver sub_id (unsubscribe sub_id reg)) ch)
      end
  end.

(** What the wait gives: a signal, and whether the vibration (and, past that,
    the notice) takes too long to send; or a frame, the end or a failure of
    the stream. A vibration that takes too long counts as not sent at all: the
    bytes of it that the stream had taken before are not modelled. *)
Inductive Wake : Type :=
| WSignal (stalled notice_stalled : bool)
| WFrame (frame : option EnvelopeObject).

Definition vibration (e : Entrain) (seq : Z) conn : EnvelopeObject :=
  OVibration (mkVibration (en_id e) (en_point e) seq (Some (rfc3339 (n_secs conn))) []).

Definition damp_reason : string := "vibration consumer too slow; entrainment damped".
Definition stray_reason (other : EnvelopeObject) : string :=
  "only rsntr:Damp for the entrained point may ride an entrain stream, got " +:+ frame_debug other.

(** A row for an entrainment that ends. *)
Definition audit_entrain_end (peer id reason : string) : NConn D -> NConn D :=
  audit_direct peer id "entrain" "allow" "node" reason.

(** One turn of the loop: the next number, or [None] when it breaks. Nothing
    when the wait cannot give this. *)
Definition entrain_turn (peer : string) (e : Entrain) (sub_id seq : Z) (wake : Wake) (w : World) :
    option (option Z * World) :=
  let id := en_id e in
  let conn := w_conn w in
  match wake with
  | WSignal stalled notice_stalled =>
      match recv_signal sub_id (w_reg w) with
      | (NoSignal, _) => None
      | (Closed, reg) => Some (None, mkWorld conn reg (w_ch w))
      | (Signal, reg) =>
          let seq' := i64_incr seq in
          if stalled then
            let ch := if notice_stalled then w_ch w else snd (send (error_frame id LimitExceeded damp_reason) (w_ch w)) in
            Some (None, mkWorld (audit_entrain_end peer id "limit-exceeded damp" conn) reg ch)
          else match send (vibration e seq conn) (w_ch w) with
               | (true, ch) => Some (Some seq', mkWorld conn reg ch)
               | (false, ch) => Some (None, mkWorld conn reg ch)
               end
      end
  | WFrame (Some (ODamp d)) =>
      if bool_decide (dm_point d = en_point e) then
        Some (None, mkWorld (audit_entrain_end peer id "damped by peer" conn) (w_reg w) (snd (send (bare_done id) (w_ch w))))
      else Some (None, mkWorld conn (w_reg w)
                   (snd (send (OError (mkErrorEnvelope (Some id) (ErrorCode_as_str ProtocolErrorCode) (Some (stray_reason (ODamp d))))) (w_ch w))))
  | WFrame (Some other) =>
      Some (None, mkWorld conn (w_reg w)
              (snd (send (OError (mkErrorEnvelope (Some id) (ErrorCode_as_str ProtocolErrorCode) (Some (stray_reason other)))) (w_ch w))))
  | WFrame None => Some (None, w)
  end.

(** After the loop. *)
Definition entrain_close (sub_id : Z) (reg : Entrainments) : Entrainments := drop_receiver sub_id (unsubscribe sub_id reg).

End entrain.

(** ** The node *)

Section system.
Context {D : Type} `{HR : !RowIds} `{HF : !FrameText}.

(** A handler in its loop, and what it sent when it ended. *)
Record Running : Type := mkRunning {
  hn_peer : string;
  hn_entrain : Entrain;
  hn_seq : Z;
  hn_ch : Chan
}.

(** The handlers in their loops by subscription; the frames of those that
    ended with their requests; and the tables pending in the hooks. *)
Record System : Type := mkSystem {
  sy_conn : NConn D;
  sy_reg : Entrainments;
  sy_observer : Observer;
  sy_pending : list string;
  sy_running : gmap Z Running;
  sy_ended : list (Entrain * list EnvelopeObject)
}.

(** What may happen: a request to entrain on a fresh stream; a turn of a
    handler; the hooks; a foreign change; the end of everything; and the rest
    of the node changing the database. *)
Inductive Event : Type :=
| EOpen (peer : string) (e : Entrain) (lane : Lane) (room : option nat)
| ETurn (id : Z) (wake : Wake)
| EUpdate (table : string)
| ECommit
| ERollback
| EForeign (projection_changed : bool)
| ECloseAll
| EDatabase (conn : NConn D).

Definition with_reg (reg : Entrainments) (s : System) : System :=
  mkSystem (sy_conn s) reg (sy_observer s) (sy_pending s) (sy_running s) (sy_ended s).

(** The system after an event; nothing when it cannot happen. *)
Definition system_step (ev : Event) (s : System) : option System :=
  match ev with
  | EOpen peer e lane room =>
      let '(sub, w) := entrain_open peer e lane (mkWorld (sy_conn s) (sy_reg s) (mkChan [] room)) in
      Some match sub with
           | Some id => mkSystem (w_conn w) (w_reg w) (sy_observer s) (sy_pending s)
                          (<[id := mkRunning peer e 0 (w_ch w)]> (sy_running s)) (sy_ended s)
           | None => mkSystem (w_conn w) (w_reg w) (sy_observer s) (sy_pending s) (sy_running s)
                       ((e, ch_sent (w_ch w)) :: sy_ended s)
           end
  | ETurn id wake =>
      match sy_running s !! id with
      | None => None
      | Some h =>
          match entrain_turn (hn_peer h) (hn_entrain h) id (hn_seq h) wake (mkWorld (sy_conn s) (sy_reg s) (hn_ch h)) with
          | None => None
          | Some (Some seq, w) =>
              Some (mkSystem (w_conn w) (w_reg w) (sy_observer s) (sy_pending s)
                      (<[id := mkRunning (hn_peer h) (hn_entrain h) seq (w_ch w)]> (sy_running s)) (sy_ended s))
          | Some (None, w) =>
              Some (mkSystem (w_conn w) (entrain_close id (w_reg w)) (sy_observer s) (sy_pending s)
                      (delete id (sy_running s)) ((hn_entrain h, ch_sent (w_ch w)) :: sy_ended s))
          end
      end
  | EUpdate table => Some (mkSystem (sy_conn s) (sy_reg s) (sy_observer s) (on_update table (sy_pending s)) (sy_running s) (sy_ended s))
  | ECommit =>
      let '(pending, (reg, observer)) := on_commit (sy_pending s) (sy_reg s, sy_observer s) in
      Some (mkSystem (sy_conn s) reg observer pending (sy_running s) (sy_ended s))
  | ERollback => Some (mkSystem (sy_conn s) (sy_reg s) (sy_observer s) (on_rollback (sy_pending s)) (sy_running s) (sy_ended s))
  | EForeign changed =>
      let '(reg, observer) := on_foreign_change changed (sy_reg s, sy_observer s) in
      Some (mkSystem (sy_conn s) reg observer (sy_pending s) (sy_running s) (sy_ended s))
  | ECloseAll => Some (with_reg (close_all (sy_reg s)) s)
  | EDatabase conn => Some (mkSystem conn (sy_reg s) (sy_observer s) (sy_pending s) (sy_running s) (sy_ended s))
  end.

Fixpoint system_run (evs : list Event) (s : System) : option System :=
  match evs with
  | [] => Some s
  | ev :: evs' => match system_step ev s with
                  | Some s' => system_run evs' s'
                  | None => None
                  end
  end.

Definition system_new (conn : NConn D) (observer : Observer) : System := mkSystem conn Entrainments_new observer [] ∅ [].

End system.

(** * Signals reach the entrained, and end with them

    What the handlers send is the protocol of an entrainment; a change of a
    table reaches every handler on it, once; a handler and its entry in the
    registry come and go together. *)

(** ** Signals *)

(** The same entries and receivers; signals that wait go on waiting. *)
Definition woken (r r' : Entrainments) : Prop :=
  rg_subs r' = rg_subs r /\ rg_next_id r' = rg_next_id r /\ dom (rg_signals r') = dom (rg_signals r) /\
  forall id, rg_signals r !! id = Some true -> rg_signals r' !! id = Some true.

#[export] Instance woken_preorder : PreOrder woken.
Proof. split; unfold woken, Reflexive, Transitive; [done|]. intros x y z (? & ? & ? & ?) (? & ? & ? & ?). split_and!; try congruence. auto. Qed.

Lemma signal_where_lookup hears r id : rg_signals (signal_where hears r) !! id =
  (fun waiting => match rg_subs r !! id with Some sub => hears sub || waiting | None => waiting end) <$> rg_signals r !! id.
Proof. cbn. rewrite map_lookup_imap. by destruct (rg_signals r !! id). Qed.

Lemma signal_where_woken hears r : woken r (signal_where hears r).
Proof.
  split_and!; [done..| |].
  - apply set_eq. intros id. rewrite !elem_of_dom, signal_where_lookup, fmap_is_Some. done.
  - intros id Hid. rewrite signal_where_lookup, Hid. cbn. destruct (rg_subs r !! id); [by rewrite orb_true_r|done].
Qed.

Lemma signal_where_heard hears r id sub : rg_subs r !! id = Some sub -> hears sub = true -> id ∈ dom (rg_signals r) ->
  rg_signals (signal_where hears r) !! id = Some true.
Proof. intros Hs Hh [b Hb]%elem_of_dom. rewrite signal_where_lookup, Hb, Hs. cbn. by rewrite Hh. Qed.

Lemma fanout_woken table s : woken (fst s) (fst (fanout table s)).
Proof.
  destruct s as [r o]. cbn. etrans; [|apply signal_where_woken]. case_match; [apply signal_where_woken|done].
Qed.

Lemma fanouts_woken tables s : woken (fst s) (fst (foldl (fun s table => fanout table s) s tables)).
Proof. revert s. induction tables as [|t ts IH]; intros s; cbn; [done|]. etrans; [apply fanout_woken|apply IH]. Qed.

Lemma notices_woken tables s : woken (fst s) (fst (foldl (fun s t => (signal_table t (fst s), notify t (snd s))) s tables)).
Proof. revert s. induction tables as [|t ts IH]; intros s; cbn; [done|]. etrans; [|apply IH]. apply signal_where_woken. Qed.

Lemma foreign_woken changed s : woken (fst s) (fst (on_foreign_change changed s)).
Proof.
  unfold on_foreign_change. set (tables := foldl _ _ OBSERVED_TABLES). pose proof (notices_woken tables s) as Hw.
  destruct (foldl _ s tables) as [r o]. cbn in *. etrans; [exact Hw|]. destruct changed; [apply signal_where_woken|done].
Qed.

(** What a commit does to a signal, and to the observer. *)
Definition concerns (tables : list string) (sub : Sub) : bool :=
  existsb (fun t => bool_decide (sb_table sub = Some t) ||
                    (bool_decide (sb_point sub = PROJECTION_CHANGED) && (bool_decide (t = "_projection") || bool_decide (t = "_policy")))) tables.

Lemma fanout_lookup table s id :
  rg_signals (fst (fanout table s)) !! id =
  (fun waiting => match rg_subs (fst s) !! id with Some sub => concerns [table] sub || waiting | None => waiting end) <$> rg_signals (fst s) !! id.
Proof.
  destruct s as [r o]. cbn [fanout fst]. unfold signal_table. rewrite signal_where_lookup. unfold concerns. cbn [existsb].
  destruct (bool_decide (table = "_projection") || bool_decide (table = "_policy")).
  - unfold signal_point. rewrite signal_where_lookup. destruct (rg_signals r !! id) as [w|]; [|done]. cbn.
    destruct (rg_subs r !! id) as [sub|]; [|done]. cbn. by rewrite orb_false_r, andb_true_r, orb_assoc.
  - destruct (rg_signals r !! id) as [w|]; [|done]. cbn. destruct (rg_subs r !! id) as [sub|]; [|done].
    by rewrite andb_false_r, !orb_false_r.
Qed.

Lemma fanouts_lookup tables id : forall s,
  rg_signals (fst (foldl (fun s table => fanout table s) s tables)) !! id =
  (fun waiting => match rg_subs (fst s) !! id with Some sub => concerns tables sub || waiting | None => waiting end) <$> rg_signals (fst s) !! id.
Proof.
  induction tables as [|t ts IH]; intros s; cbn [foldl].
  - destruct (rg_signals (fst s) !! id); [|done]. cbn. by destruct (rg_subs (fst s) !! id).
  - rewrite IH, fanout_lookup. destruct (fanout_woken t s) as (-> & _). destruct (rg_signals (fst s) !! id) as [w|]; [|done]. cbn.
    destruct (rg_subs (fst s) !! id) as [sub|]; [|done]. f_equal. rewrite orb_false_r, orb_assoc. f_equal. apply orb_comm.
Qed.

Lemma fanouts_observed tables : forall s, snd (foldl (fun s table => fanout table s) s tables) = (fun calls => calls ++ tables) <$> snd s.
Proof.
  induction tables as [|t ts IH]; intros s; cbn [foldl].
  - destruct (snd s); cbn; [by rewrite app_nil_r|done].
  - rewrite IH. destruct s as [r [calls|]]; cbn; [by rewrite <-app_assoc|done].
Qed.

(** ** What the handlers send *)

(** Vibrations of [e], numbered from [n] up to [m]. *)
Inductive vibrations (e : Entrain) : Z -> list EnvelopeObject -> Z -> Prop :=
| vib_nil n : vibrations e n [] n
| vib_cons n at_ objs m : vibrations e (i64_incr n) objs m ->
    vibrations e n (OVibration (mkVibration (en_id e) (en_point e) n at_ []) :: objs) m.

Lemma vibrations_snoc e n objs m at_ : vibrations e n objs m ->
  vibrations e n (objs ++ [OVibration (mkVibration (en_id e) (en_point e) m at_ [])]) (i64_incr m).
Proof. induction 1; cbn; [repeat constructor|]. by constructor. Qed.

Lemma vibrations_flow e n objs m tail : vibrations e n objs m ->
  (exists evs, Entrainment.flow (en_id e) (en_point e) m tail evs) ->
  exists evs, Entrainment.flow (en_id e) (en_point e) n (objs ++ tail) evs.
Proof.
  induction 1 as [|n at_ objs m _ IH]; [done|]. intros [evs He]%IH. eexists. cbn. by apply Entrainment.flow_vibration.
Qed.

(** A handler in its loop has acknowledged and vibrated. *)
Definition sent_so_far (e : Entrain) (seq : Z) (objs : list EnvelopeObject) : Prop :=
  exists vibs, objs = bare_done (en_id e) :: vibs /\ vibrations e 0 vibs seq.

(** What a client may read to a clean end; nothing, if it did not listen. *)
Definition client_reads (e : Entrain) (objs : list EnvelopeObject) : Prop :=
  objs = [] \/ exists evs, Entrainment.entrainment (en_id e) (en_point e) objs evs.

Lemma sent_reads e seq objs tail : sent_so_far e seq objs ->
  (exists evs, Entrainment.flow (en_id e) (en_point e) seq tail evs) -> client_reads e (objs ++ tail).
Proof.
  intros (vibs & -> & Hv) Ht. right. destruct (vibrations_flow _ _ _ _ _ Hv Ht) as [evs He].
  eexists. cbn. by apply Entrainment.ent_ack.
Qed.

Lemma sent_reads_now e seq objs : sent_so_far e seq objs -> client_reads e objs.
Proof. intros H. rewrite <-(app_nil_r objs). eapply sent_reads; [done|]. eexists. constructor. Qed.

Lemma send_cases obj ch : (exists room, send obj ch = (true, mkChan (ch_sent ch ++ [obj]) room)) \/ send obj ch = (false, ch).
Proof. unfold send. destruct ch as [l [[|n]|]]; cbn; eauto. Qed.

(** A last frame, if it goes out. *)
Lemma sent_last e seq ch obj : sent_so_far e seq (ch_sent ch) ->
  (exists evs, Entrainment.flow (en_id e) (en_point e) seq [obj] evs) -> client_reads e (ch_sent (snd (send obj ch))).
Proof.
  intros Hs Hf. destruct (send_cases obj ch) as [[room ->]| ->]; cbn; [by eapply sent_reads|by eapply sent_reads_now].
Qed.

Section system.
Context {D : Type} `{HR : !RowIds} `{HF : !FrameText}.
Implicit Types (w : World (D:=D)) (s : System (D:=D)) (conn : NConn D).

Lemma flow_done e seq : exists evs, Entrainment.flow (en_id e) (en_point e) seq [bare_done (en_id e)] evs.
Proof. eexists. by apply Entrainment.flow_damped. Qed.

Lemma flow_error e seq code reason :
  exists evs, Entrainment.flow (en_id e) (en_point e) seq [OError (mkErrorEnvelope (Some (en_id e)) code reason)] evs.
Proof. eexists. apply Entrainment.flow_error. by right. Qed.

Lemma open_cases peer e lane conn reg room sub w :
  entrain_open peer e lane (mkWorld conn reg (mkChan [] room)) = (sub, w) ->
  match sub with
  | Some id => exists table, gate_audited peer e lane conn = (GAllowed table, w_conn w) /\
      (id, w_reg w) = subscribe (en_point e) table reg /\ sent_so_far e 0 (ch_sent (w_ch w))
  | None => client_reads e (ch_sent (w_ch w)) /\ (w_reg w = reg \/
              exists table, w_reg w = entrain_close (rg_next_id reg) (snd (subscribe (en_point e) table reg)))
  end.
Proof.
  unfold entrain_open. cbn [w_conn w_reg w_ch]. destruct (gate_audited peer e lane conn) as [gate conn'].
  assert (Hrefuse : forall obj, (exists evs, Entrainment.entrainment (en_id e) (en_point e) [obj] evs) ->
            client_reads e (ch_sent (snd (send obj (mkChan [] room))))).
  { intros obj Hobj. destruct (send_cases obj (mkChan [] room)) as [[r ->]| ->]; cbn; [by right|by left]. }
  destruct gate as [|reason|reason|table]; [| | |cbn [subscribe]; destruct (send_cases (bare_done (en_id e)) (mkChan [] room)) as [[r ->]| ->]];
    intros [= <- <-]; cbn [w_conn w_reg w_ch ch_sent app].
  - split; [|by left]. apply Hrefuse. eexists. apply Entrainment.ent_denied. by right.
  - split; [|by left]. apply Hrefuse. eexists. apply Entrainment.ent_error. by right.
  - split; [|by left]. apply Hrefuse. eexists. apply Entrainment.ent_denied. by right.
  - exists table. split_and!; [done..|]. exists []. split; [done|constructor].
  - split; [by left|]. right. by exists table.
Qed.

Lemma turn_cases peer e id seq wake w next w' :
  entrain_turn peer e id seq wake w = Some (next, w') -> sent_so_far e seq (ch_sent (w_ch w)) ->
  rg_subs (w_reg w') = rg_subs (w_reg w) /\ rg_next_id (w_reg w') = rg_next_id (w_reg w) /\
  (forall id', id' <> id -> rg_signals (w_reg w') !! id' = rg_signals (w_reg w) !! id') /\
  (id ∈ dom (rg_signals (w_reg w)) -> id ∈ dom (rg_signals (w_reg w'))) /\
  match next with
  | Some seq' => sent_so_far e seq' (ch_sent (w_ch w'))
  | None => client_reads e (ch_sent (w_ch w'))
  end.
Proof.
  intros Ht Hs. unfold entrain_turn in Ht. destruct wake as [stalled notice|frame].
  - destruct (recv_signal id (w_reg w)) as [got reg] eqn:Er.
    assert (Hreg : rg_subs reg = rg_subs (w_reg w) /\ rg_next_id reg = rg_next_id (w_reg w) /\
              (forall id', id' <> id -> rg_signals reg !! id' = rg_signals (w_reg w) !! id') /\
              (id ∈ dom (rg_signals (w_reg w)) -> id ∈ dom (rg_signals reg))).
    { unfold recv_signal in Er. destruct (rg_signals (w_reg w) !! id) as [[]|]; injection Er as _ <-; try done. cbn.
      split_and!; [done..| |]; [by intros id' Hne; rewrite lookup_insert_ne|set_solver]. }
    destruct Hreg as (H1 & H2 & H3 & H4).
    destruct got; [done| |injection Ht as <- <-; cbn; split_and!; [done..|by eapply sent_reads_now]].
    destruct stalled; [injection Ht as <- <-; cbn; split_and!; [done..|]|].
    + destruct notice; [by eapply sent_reads_now|]. eapply sent_last; [done|]. apply flow_error.
    + destruct (send_cases (vibration e seq (w_conn w)) (w_ch w)) as [[room Hsend]|Hsend]; rewrite Hsend in Ht; injection Ht as <- <-; cbn;
        (split_and!; [done..|]); [|by eapply sent_reads_now].
      destruct Hs as (vibs & -> & Hv). eexists. split; [reflexivity|]. by apply vibrations_snoc.
  - destruct frame as [frame|]; [|injection Ht as <- <-; split_and!; [done..|by eapply sent_reads_now]].
    assert (Hstray : forall f, client_reads e (ch_sent (snd (send (OError (mkErrorEnvelope (Some (en_id e)) (ErrorCode_as_str ProtocolErrorCode)
                        (Some (stray_reason f)))) (w_ch w))))) by (intros f; eapply sent_last; [done|apply flow_error]).
    destruct frame; try (injection Ht as <- <-; cbn; split_and!; [done..|by apply Hstray]).
    case_bool_decide; injection Ht as <- <-; cbn; (split_and!; [done..|]); [|by apply Hstray].
    eapply sent_last; [done|apply flow_done].
Qed.

(** ** The registry and the handlers *)

(** The receivers are those of the handlers in their loops, whose ids were
    drawn; an entry is its handler's. *)
Definition consistent s : Prop :=
  (forall e objs, (e, objs) ∈ sy_ended s -> client_reads e objs) /\
  (forall id h, sy_running s !! id = Some h -> 0 <= id < rg_next_id (sy_reg s) /\
     sent_so_far (hn_entrain h) (hn_seq h) (ch_sent (hn_ch h))) /\
  dom (rg_signals (sy_reg s)) = dom (sy_running s) /\
  (forall id sub, rg_subs (sy_reg s) !! id = Some sub ->
     exists h, sy_running s !! id = Some h /\ sb_point sub = en_point (hn_entrain h)) /\
  0 <= rg_next_id (sy_reg s).

Lemma consistent_new conn observer : consistent (system_new conn observer).
Proof. split_and!; cbn; [by intros e objs ?%elem_of_nil|done|set_solver|done|done]. Qed.

(** Events that only wake. *)
Lemma consistent_woken s s' : consistent s -> sy_ended s' = sy_ended s -> sy_running s' = sy_running s ->
  woken (sy_reg s) (sy_reg s') -> consistent s'.
Proof.
  intros (He & Hr & Hd & Hs & Hn) Ee Er (Ws & Wn & Wd & _). unfold consistent. rewrite Ee, Er, Ws, Wn, Wd. by split_and!.
Qed.

(** An id that was not drawn is nobody's. *)
Lemma consistent_fresh s : consistent s ->
  sy_running s !! rg_next_id (sy_reg s) = None /\ rg_subs (sy_reg s) !! rg_next_id (sy_reg s) = None /\
  rg_next_id (sy_reg s) ∉ dom (rg_signals (sy_reg s)).
Proof.
  intros (_ & Hr & Hd & Hs & _). assert (sy_running s !! rg_next_id (sy_reg s) = None) as Hnone.
  { destruct (sy_running s !! rg_next_id (sy_reg s)) as [h|] eqn:E; [|done]. apply Hr in E. lia. }
  split_and!; [done| |by rewrite Hd, not_elem_of_dom].
  destruct (rg_subs (sy_reg s) !! rg_next_id (sy_reg s)) as [sub|] eqn:E; [|done]. apply Hs in E as (h & Hh & _). congruence.
Qed.

Lemma consistent_open s peer e lane room s' : consistent s -> rg_next_id (sy_reg s) + 1 < 2 ^ 64 ->
  system_step (EOpen peer e lane room) s = Some s' -> consistent s'.
Proof.
  intros Hc Hbound. destruct (consistent_fresh s Hc) as (Hf1 & Hf2 & Hf3). destruct Hc as (He & Hr & Hd & Hs & Hn).
  cbn [system_step]. destruct (entrain_open _ _ _ _) as [sub w] eqn:E.
  apply open_cases in E. destruct sub as [id|]; intros [= <-]; unfold consistent; cbn.
  - destruct E as (table & _ & Hsub & Hsent). injection Hsub as Hid Hw. rewrite Hw, Hid. cbn.
    rewrite Z.mod_small by lia. split_and!; [done| | | |lia].
    + intros id' h [[<- <-]|[_ Hh]]%lookup_insert_Some; [split; [lia|done]|]. destruct (Hr _ _ Hh). split; [lia|done].
    + by rewrite !dom_insert_L, Hd.
    + intros id' sub [[<- <-]|[Hne Hh]]%lookup_insert_Some.
      * eexists. by rewrite lookup_insert_eq.
      * rewrite lookup_insert_ne by done. by apply Hs.
  - destruct E as (Hreads & Hreg). assert (He' : forall e' objs, (e', objs) ∈ (e, ch_sent (w_ch w)) :: sy_ended s -> client_reads e' objs).
    { intros e' objs [[= -> ->]|Hin]%elem_of_cons; [done|by apply He]. }
    destruct Hreg as [->|(table & ->)]; cbn; [by split_and!|]. rewrite Z.mod_small by lia. split_and!; [done| | | |lia].
    + intros id h Hh. destruct (Hr _ _ Hh). split; [lia|done].
    + rewrite dom_delete_L, dom_insert_L, <-Hd. set_solver.
    + intros id sub [Hne Hsub]%lookup_delete_Some. rewrite lookup_insert_ne in Hsub by done. by apply Hs.
Qed.

Lemma consistent_turn s id wake s' : consistent s -> system_step (ETurn id wake) s = Some s' -> consistent s'.
Proof.
  intros (He & Hr & Hd & Hs & Hn). cbn [system_step]. destruct (sy_running s !! id) as [h|] eqn:Eh; [|done].
  destruct (Hr _ _ Eh) as [Hid Hsent]. assert (id ∈ dom (rg_signals (sy_reg s))) as Hin by (rewrite Hd; apply elem_of_dom; by eexists).
  destruct (entrain_turn _ _ _ _ _ _) as [[next w]|] eqn:Et; [|done]. apply turn_cases in Et as (T1 & T2 & T3 & T4 & T5); [|done].
  cbn in T1, T2, T3, T4. destruct next as [seq|]; intros [= <-]; unfold consistent; cbn; rewrite ?T1, ?T2; (split_and!; [..|done]).
  - done.
  - intros id' h' [[<- <-]|[_ Hh]]%lookup_insert_Some; [done|]. by apply Hr.
  - rewrite dom_insert_L, <-Hd. apply set_eq. intros id'. destruct (base.decide (id' = id)) as [->|Hne]; [set_solver|].
    rewrite elem_of_union, elem_of_singleton, !elem_of_dom, T3 by done. naive_solver.
  - intros id' sub Hsub. apply Hs in Hsub as (h' & Hh' & Hp). destruct (base.decide (id' = id)) as [->|Hne].
    + rewrite Eh in Hh'. injection Hh' as <-. eexists. by rewrite lookup_insert_eq.
    + exists h'. by rewrite lookup_insert_ne.
  - intros e objs [[= -> ->]|Hino]%elem_of_cons; [done|by apply He].
  - intros id' h' [_ Hh]%lookup_delete_Some. by apply Hr.
  - rewrite !dom_delete_L, <-Hd. apply set_eq. intros id'. destruct (base.decide (id' = id)) as [->|Hne]; [set_solver|].
    rewrite !elem_of_difference, !elem_of_dom, T3 by done. done.
  - intros id' sub [Hne Hsub]%lookup_delete_Some. apply Hs in Hsub as (h' & Hh' & Hp). exists h'. by rewrite lookup_delete_ne.
Qed.

Lemma step_next ev s s' : consistent s -> rg_next_id (sy_reg s) + 1 < 2 ^ 64 -> system_step ev s = Some s' ->
  rg_next_id (sy_reg s) <= rg_next_id (sy_reg s') <= rg_next_id (sy_reg s) + 1.
Proof.
  intros Hc Hb. pose proof (proj2 (proj2 (proj2 (proj2 Hc)))) as Hn. destruct ev as [peer e lane room|id wake|table| | |changed| |conn]; cbn [system_step].
  - destruct (entrain_open _ _ _ _) as [sub w] eqn:E. apply open_cases in E. destruct sub as [id|]; intros [= <-]; cbn.
    + destruct E as (table & _ & Hsub & _). injection Hsub as _ ->. cbn. rewrite Z.mod_small; lia.
    + destruct E as (_ & [->|(table & ->)]); cbn; rewrite ?Z.mod_small; lia.
  - destruct (sy_running s !! id) as [h|] eqn:Eh; [|done]. destruct Hc as (_ & Hr & _). destruct (Hr _ _ Eh) as [_ Hsent].
    destruct (entrain_turn _ _ _ _ _ _) as [[next w]|] eqn:Et; [|done]. apply turn_cases in Et as (_ & T2 & _); [|done]. cbn in T2.
    destruct next; intros [= <-]; cbn; lia.
  - intros [= <-]. cbn. lia.
  - destruct (on_commit _ _) as [pending [reg observer]] eqn:E. intros [= <-]. cbn.
    pose proof (fanouts_woken (sy_pending s) (sy_reg s, sy_observer s)) as (_ & Hw & _). injection E as _ Hf. rewrite Hf in Hw. cbn in Hw. lia.
  - intros [= <-]. cbn. lia.
  - pose proof (foreign_woken changed (sy_reg s, sy_observer s)) as (_ & Hw & _). destruct (on_foreign_change _ _) as [reg observer]. intros [= <-]. cbn in *. lia.
  - intros [= <-]. cbn. lia.
  - intros [= <-]. cbn. lia.
Qed.

Lemma step_consistent ev s s' : consistent s -> rg_next_id (sy_reg s) + 1 < 2 ^ 64 -> system_step ev s = Some s' -> consistent s'.
Proof.
  intros Hc Hb. destruct ev as [peer e lane room|id wake|table| | |changed| |conn].
  - by apply consistent_open.
  - by apply consistent_turn.
  - intros [= <-]. by eapply consistent_woken.
  - cbn [system_step]. pose proof (fanouts_woken (sy_pending s) (sy_reg s, sy_observer s)) as Hw. unfold on_commit.
    destruct (foldl _ _ _) as [reg observer]. intros [= <-]. by eapply consistent_woken.
  - intros [= <-]. by eapply consistent_woken.
  - cbn [system_step]. pose proof (foreign_woken changed (sy_reg s, sy_observer s)) as Hw. destruct (on_foreign_change _ _) as [reg observer].
    intros [= <-]. by eapply consistent_woken.
  - intros [= <-]. destruct Hc as (He & Hr & Hd & _ & Hn). split_and!; cbn; try done. 
  - intros [= <-]. by eapply consistent_woken.
Qed.

Lemma run_consistent evs : forall s s', consistent s -> rg_next_id (sy_reg s) + zlen evs < 2 ^ 64 -> system_run evs s = Some s' ->
  consistent s' /\ rg_next_id (sy_reg s') <= rg_next_id (sy_reg s) + zlen evs.
Proof.
  unfold zlen. induction evs as [|ev evs IH]; intros s s' Hc Hb; cbn [system_run length] in *.
  - intros [= <-]. split; [done|]. lia.
  - destruct (system_step ev s) as [s1|] eqn:E; [|done]. intros Hrun.
    assert (Hb1 : rg_next_id (sy_reg s) + 1 < 2 ^ 64) by lia. pose proof (step_next _ _ _ Hc Hb1 E).
    destruct (IH s1 s') as [Hc' Hn']; [by eapply step_consistent|lia|done|]. split; [done|lia].
Qed.

(** ** A handler that does not turn *)

Definition leaves (id : Z) (ev : Event (D:=D)) : Prop := match ev with ETurn id' _ => id' <> id | _ => True end.

Definition waits s (id : Z) : Prop := rg_signals (sy_reg s) !! id = Some true.

Lemma step_leaves ev s s' id h : consistent s -> rg_next_id (sy_reg s) + 1 < 2 ^ 64 -> leaves id ev ->
  system_step ev s = Some s' -> sy_running s !! id = Some h -> sy_running s' !! id = Some h /\ (waits s id -> waits s' id).
Proof.
  intros Hc Hb Hl Hstep Hh. unfold waits. destruct ev as [peer e lane room|id' wake|table| | |changed| |conn]; cbn [system_step] in Hstep.
  - assert (id <> rg_next_id (sy_reg s)) as Hne by (destruct Hc as (_ & Hr & _); destruct (Hr _ _ Hh); lia).
    destruct (entrain_open _ _ _ _) as [sub w] eqn:E. apply open_cases in E. destruct sub as [id'|]; injection Hstep as <-; cbn.
    + destruct E as (table & _ & Hsub & _). injection Hsub as Hid ->. cbn. rewrite Hid, !lookup_insert_ne by done. done.
    + destruct E as (_ & [->|(table & ->)]); cbn; [done|]. by rewrite lookup_delete_ne, lookup_insert_ne by done.
  - cbn in Hl. destruct (sy_running s !! id') as [h'|] eqn:Eh; [|done]. destruct Hc as (_ & Hr & _). destruct (Hr _ _ Eh) as [_ Hsent].
    destruct (entrain_turn _ _ _ _ _ _) as [[next w]|] eqn:Et; [|done]. apply turn_cases in Et as (_ & _ & T3 & _); [|done].
    cbn in T3. destruct next; injection Hstep as <-; cbn; rewrite ?lookup_insert_ne, ?lookup_delete_ne, T3 by done; done.
  - by injection Hstep as <-.
  - pose proof (fanouts_woken (sy_pending s) (sy_reg s, sy_observer s)) as (_ & _ & _ & Hw). unfold on_commit in Hstep.
    destruct (foldl _ _ _) as [reg observer]. injection Hstep as <-. split; [done|]. apply Hw.
  - by injection Hstep as <-.
  - pose proof (foreign_woken changed (sy_reg s, sy_observer s)) as (_ & _ & _ & Hw). destruct (on_foreign_change _ _) as [reg observer].
    injection Hstep as <-. split; [done|]. apply Hw.
  - by injection Hstep as <-.
  - by injection Hstep as <-.
Qed.

Lemma run_leaves evs id h : forall s s', consistent s -> rg_next_id (sy_reg s) + zlen evs < 2 ^ 64 -> Forall (leaves id) evs ->
  system_run evs s = Some s' -> sy_running s !! id = Some h -> sy_running s' !! id = Some h /\ (waits s id -> waits s' id).
Proof.
  unfold zlen. induction evs as [|ev evs IH]; intros s s' Hc Hb Hl; cbn [system_run length] in *; [by intros [= <-]|].
  inversion Hl as [|? ? Hl1 Hl2]; subst. destruct (system_step ev s) as [s1|] eqn:E; [|done]. intros Hrun Hh.
  assert (Hb1 : rg_next_id (sy_reg s) + 1 < 2 ^ 64) by lia. pose proof (step_next _ _ _ Hc Hb1 E).
  destruct (step_leaves ev s s1 id h) as [Hh1 Hw1]; [done..|].
  destruct (IH s1 s') as [Hh' Hw']; [by eapply step_consistent|lia|done..|]. auto.
Qed.

(** A signal that waits makes a vibration, and is gone. *)
Lemma turn_vibrates s id h : sy_running s !! id = Some h -> waits s id ->
  exists s', system_step (ETurn id (WSignal false false)) s = Some s' /\
    (ch_room (hn_ch h) <> Some O ->
       (exists h', sy_running s' !! id = Some h' /\
          ch_sent (hn_ch h') = ch_sent (hn_ch h) ++ [vibration (hn_entrain h) (hn_seq h) (sy_conn s)]) /\
       (is_Some (rg_subs (sy_reg s) !! id) -> forall stalled notice, system_step (ETurn id (WSignal stalled notice)) s' = None)).
Proof.
  unfold waits. intros Hh Hw. cbn [system_step]. rewrite Hh. unfold entrain_turn at 1. cbn [w_conn w_reg w_ch].
  unfold recv_signal. rewrite Hw. unfold send. destruct (ch_room (hn_ch h)) as [[|n]|]; (eexists; split; [reflexivity|]); [done| |];
    intros _; (split; [eexists; cbn; by rewrite lookup_insert_eq|]);
    intros Hsub stalled notice; cbn; rewrite lookup_insert_eq; cbn; unfold recv_signal; cbn; rewrite lookup_insert_eq;
    by rewrite bool_decide_true by done.
Qed.

(** ** Transactions *)

Lemma updates_pending tables : forall s,
  exists pending, system_run (map EUpdate tables) s =
      Some (mkSystem (sy_conn s) (sy_reg s) (sy_observer s) pending (sy_running s) (sy_ended s)) /\
    (NoDup (sy_pending s) -> NoDup pending) /\ forall t, t ∈ pending <-> t ∈ sy_pending s \/ t ∈ tables.
Proof.
  induction tables as [|t ts IH]; intros s; cbn [map system_run].
  - exists (sy_pending s). destruct s. split_and!; [done..|]. set_solver.
  - cbn [system_step]. destruct (IH (mkSystem (sy_conn s) (sy_reg s) (sy_observer s) (on_update t (sy_pending s)) (sy_running s) (sy_ended s)))
      as (pending & Hrun & Hnd & Hin). exists pending. cbn in *. split_and!; [done| |].
    + intros Hs. apply Hnd. unfold on_update. destruct (existsb _ _) eqn:E; [done|]. apply NoDup_app. split_and!; [done| |apply NoDup_singleton].
      intros x Hx ->%list_elem_of_singleton. apply not_true_iff_false in E. apply E, existsb_exists. exists t.
      split; [by apply list_elem_of_In|by apply bool_decide_eq_true].
    + intros x. rewrite Hin. unfold on_update. destruct (existsb _ _) eqn:E; [|set_solver]. apply existsb_exists in E as (y & Hy & ->%bool_decide_eq_true).
      apply list_elem_of_In in Hy. set_solver.
Qed.
End system.

(** ** The gate *)

Section gate.
Context {D : Type} `{HR : !RowIds} `{HF : !FrameText}.
Implicit Types (conn : NConn D) (d : NodeDb D).

(** Some rule in the table allows the peer one of these actions. *)
Definition some_allow d (peer resource : string) (actions : list string) : Prop :=
  exists rows, db_policy (nd_auth d) = Some rows /\
    exists action row, action ∈ actions /\ row ∈ rows /\ allow_row peer action resource row = true.

Lemma any_allowed_true peer resource actions : forall conn conn',
  any_allowed peer resource actions conn = (Ok true, conn') -> some_allow (n_db conn) peer resource actions.
Proof.
  induction actions as [|action actions IH]; intros conn conn'; cbn [any_allowed]; [done|].
  unfold ebind. destruct (nquery (count_allows peer action resource) conn) as [[n|e] c1] eqn:E; [|done].
  apply nquery_cases in E as ((Hd & _) & _ & Hok). specialize (Hok n eq_refl). unfold count_allows, nneed in Hok.
  destruct (db_policy (nd_auth (n_db conn))) as [rows|] eqn:Er; [|done]. cbn in Hok. injection Hok as <-. rewrite count_pos.
  destruct (existsb _ rows) eqn:Ex.
  - intros _. apply existsb_exists in Ex as (row & Hin & Hrow). exists rows. split; [done|]. exists action, row.
    split_and!; [by constructor|by apply list_elem_of_In|done].
  - intros (rows' & Hr' & a & row & Ha & Hrest)%IH. rewrite Hd in Hr'. exists rows'. split; [done|]. exists a, row. split; [by right|done].
Qed.

(** What the gate lets through. *)
Definition entrainable d (peer point : string) (table : option string) : Prop :=
  known_peer d peer = true /\
  (point = PROJECTION_CHANGED /\ table = None \/
   exists r modulation, point_row point d = Ok r /\ pr_kind r = SText "sympathetic" /\
     get_opt_string (pr_modulation r) = Ok modulation /\ get_opt_string (pr_resource r) = Ok table /\
     match table with
     | None => True
     | Some resource => some_allow d peer resource (visible_actions "sympathetic" modulation)
     end).

Lemma gate_entrain_sound peer point conn table conn' :
  gate_entrain peer point conn = (GAllowed table, conn') -> entrainable (n_db conn) peer point table.
Proof.
  unfold gate_entrain, entrainable. destruct (peer_known peer conn) as [known c1] eqn:E1. apply peer_known_cases in E1 as ((Hd1 & _) & Hk & _).
  destruct known; cbn [negb]; [|done]. specialize (Hk eq_refl). case_bool_decide as Hp; [intros [= <- <-]; auto|].
  destruct (nquery (peer_point point) c1) as [[[[kind modulation] resource]|e] c2] eqn:E2; [|done].
  apply nquery_cases in E2 as ((Hd2 & _) & _ & Hok). specialize (Hok _ eq_refl). rewrite Hd1 in Hok.
  case_bool_decide as Hkind; cbn [negb]; [|done]. subst kind.
  destruct (visible peer "sympathetic" modulation resource c2) as [[[]|e] c3] eqn:E3; [|done..]. intros [= <- <-]. split; [done|]. right.
  unfold peer_point in Hok. destruct (point_row point (n_db conn)) as [r|]; [|done]. cbn [rbind] in Hok. exists r, modulation.
  destruct (pr_kind r) as [|k|] eqn:Ek; [done| |done]. cbn in Hok.
  destruct (get_opt_string (pr_modulation r)); [|done]. cbn in Hok.
  destruct (get_opt_string (pr_resource r)); [|done]. cbn in Hok. injection Hok as -> -> ->. split_and!; try done.
  destruct resource as [resource|]; [|done]. unfold visible in E3. apply any_allowed_true in E3. by rewrite Hd2, Hd1 in E3.
Qed.
End gate.

(** ** Properties *)

Section properties.
Context {D : Type} `{HR : !RowIds} `{HF : !FrameText}.
Implicit Types (s : System (D:=D)) (conn : NConn D).

(** C22. However requests, signals, commits, damps and failures interleave: what a
    handler has sent, in its loop or when it ended, is nothing (its client did
    not listen) or an entrainment that the client's reader accepts to a clean
    end; and the registry holds receivers for exactly the handlers in their
    loops, each entry with its handler's point. *)
Theorem entrainments_speak_protocol (conn : NConn D) (observer : Observer) (evs : list Event) (s : System)
    (Hrun : system_run evs (system_new conn observer) = Some s) (Hbound : zlen evs < 2 ^ 64) :
  (forall e objs,
     ((e, objs) ∈ sy_ended s \/ exists id h, sy_running s !! id = Some h /\ hn_entrain h = e /\ ch_sent (hn_ch h) = objs) ->
     objs = [] \/
     exists events r, Entrainment.accept_all objs (Entrainment.EntrainmentReader_new (en_id e) (en_point e)) = (Ok events, r) /\
       Entrainment.finish r = Ok tt) /\
  dom (rg_signals (sy_reg s)) = dom (sy_running s) /\
  (forall id sub, rg_subs (sy_reg s) !! id = Some sub ->
     exists h, sy_running s !! id = Some h /\ sb_point sub = en_point (hn_entrain h)).
Proof.
  destruct (run_consistent _ _ _ (consistent_new conn observer) Hbound Hrun) as [(He & Hr & Hd & Hs & _) _].
  split_and!; [|done|done]. intros e objs Hobjs. assert (client_reads e objs) as [->|[events Hev]]; [|by left|].
  - destruct Hobjs as [Hin|(id & h & Hh & <- & <-)]; [by apply He|]. destruct (Hr _ _ Hh). by eapply sent_reads_now.
  - right. exists events. apply (Entrainment.coupling_accept_all_expects _ _ objs Entrainment.AwaitAck 0); [done|]. by split.
Qed.

(** C23. A commit reaches every handler entrained on a table it changed (or on the
    projection, when the projection or the rules changed): whatever happens
    next but the handler's own turn, the signal waits for it; the turn then
    sends one vibration, with the next number, and only one however many
    commits there were. *)
Theorem commits_reach_the_entrained (conn : NConn D) (observer : Observer) (before after : list Event) (s s' : System)
    (id : Z) (h : Running) (sub : Sub)
    (Hrun : system_run before (system_new conn observer) = Some s) (Hh : sy_running s !! id = Some h)
    (Hsub : rg_subs (sy_reg s) !! id = Some sub) (Hchanged : concerns (sy_pending s) sub = true)
    (Hafter : Forall (leaves id) after) (Hrun' : system_run (ECommit :: after) s = Some s')
    (Hbound : zlen before + zlen after + 1 < 2 ^ 64) :
  sy_running s' !! id = Some h /\
  exists s'', system_step (ETurn id (WSignal false false)) s' = Some s'' /\
    (ch_room (hn_ch h) <> Some O ->
       (exists h', sy_running s'' !! id = Some h' /\
          ch_sent (hn_ch h') = ch_sent (hn_ch h) ++ [vibration (hn_entrain h) (hn_seq h) (sy_conn s')]) /\
       (is_Some (rg_subs (sy_reg s') !! id) -> forall stalled notice, system_step (ETurn id (WSignal stalled notice)) s'' = None)).
Proof.
  assert (Hlen : 0 <= zlen after) by (unfold zlen; lia).
  destruct (run_consistent before _ s (consistent_new conn observer)) as [Hc Hn]; [cbn [system_new sy_reg rg_next_id Entrainments_new]; lia|done|].
  cbn [system_new sy_reg rg_next_id Entrainments_new] in Hn.
  cbn [system_run] in Hrun'. destruct (system_step ECommit s) as [s1|] eqn:E; [|done].
  assert (Hb1 : rg_next_id (sy_reg s) + 1 < 2 ^ 64) by lia. pose proof (step_next _ _ _ Hc Hb1 E) as Hn1.
  assert (Hc1 : consistent s1) by (by eapply step_consistent).
  assert (sy_running s1 !! id = Some h /\ waits s1 id) as [Hh1 Hw1].
  { cbn [system_step] in E. unfold on_commit in E. pose proof (fanouts_lookup (sy_pending s) id (sy_reg s, sy_observer s)) as Hf.
    destruct (foldl _ _ _) as [reg obs]. injection E as <-. split; [done|]. unfold waits. cbn in *. rewrite Hf, Hsub, Hchanged.
    destruct Hc as (_ & _ & Hd & _). assert (id ∈ dom (rg_signals (sy_reg s))) as [w ->]%elem_of_dom; [|done].
    rewrite Hd. apply elem_of_dom. by eexists. }
  destruct (run_leaves after id h s1 s') as [Hh' Hw']; [done|lia|done..|]. split; [done|]. apply turn_vibrates; auto.
Qed.

(** A transaction that changes [tables] signals, when it commits, exactly the
    handlers on them, and calls the observer once for each; when it is rolled
    back it is as if it had not been. *)
Theorem transactions_signal_their_tables (s : System) (tables : list string) (Hidle : sy_pending s = []) :
  system_run (map EUpdate tables ++ [ERollback]) s = Some s /\
  exists s', system_run (map EUpdate tables ++ [ECommit]) s = Some s' /\ sy_pending s' = [] /\
    (exists called, sy_observer s' = (fun calls => calls ++ called) <$> sy_observer s /\ NoDup called /\
       forall t, t ∈ called <-> t ∈ tables) /\
    rg_subs (sy_reg s') = rg_subs (sy_reg s) /\
    forall id sub, rg_subs (sy_reg s) !! id = Some sub -> id ∈ dom (rg_signals (sy_reg s)) ->
      (waits s' id <-> waits s id \/ exists t, t ∈ tables /\
         (sb_table sub = Some t \/ sb_point sub = PROJECTION_CHANGED /\ (t = "_projection" \/ t = "_policy"))).
Proof.
  destruct (updates_pending tables s) as (pending & Hrun & Hnd & Hin). rewrite Hidle in Hnd, Hin.
  assert (Hin' : forall t, t ∈ pending <-> t ∈ tables) by (intros t; rewrite Hin; set_solver). clear Hin.
  assert (Happ : forall ev, system_run (map EUpdate tables ++ [ev]) s =
            system_step ev (mkSystem (sy_conn s) (sy_reg s) (sy_observer s) pending (sy_running s) (sy_ended s))).
  { intros ev. clear -Hrun. revert s Hrun. induction tables as [|t ts IH]; intros s; cbn.
    - intros Hs. injection Hs as Hs. rewrite <-Hs. by destruct (system_step ev s).
    - intros Hrun. by rewrite (IH _ Hrun). }
  rewrite !Happ. split; [cbn; unfold on_rollback; rewrite <-Hidle; by destruct s|]. cbn [system_step]. unfold on_commit. cbn [sy_pending sy_reg sy_observer].
  pose proof (fanouts_observed pending (sy_reg s, sy_observer s)) as Ho. pose proof (fanouts_woken pending (sy_reg s, sy_observer s)) as (Hw & _).
  pose proof (fun id => fanouts_lookup pending id (sy_reg s, sy_observer s)) as Hl.
  destruct (foldl _ _ _) as [reg obs]. cbn in Ho, Hw, Hl. eexists. split; [reflexivity|]. cbn. split_and!; [done| |done|].
  - exists pending. split_and!; [done|apply Hnd; constructor|]. exact Hin'.
  - intros id sub Hsub [w Hid]%elem_of_dom. unfold waits. cbn. rewrite Hl, Hid, Hsub. cbn. unfold concerns.
    split.
    + intros [= Hb]. destruct w; [by left|]. rewrite orb_false_r in Hb. right. apply existsb_exists in Hb as (t & Ht & Hb).
      apply list_elem_of_In in Ht. exists t. split; [by apply Hin'|]. rewrite orb_true_iff, andb_true_iff, orb_true_iff, !bool_decide_eq_true in Hb. done.
    + intros [[= ->]|(t & Ht & Hb)]; [by rewrite orb_true_r|]. f_equal. apply orb_true_iff. left. apply existsb_exists. exists t.
      split; [by apply list_elem_of_In, Hin'|]. rewrite orb_true_iff, andb_true_iff, orb_true_iff, !bool_decide_eq_true. done.
Qed.

(** A peer is entrained only when it is known, and the point is the
    projection's own or a sympathetic point of the projection which is public
    or on a resource some rule lets it entrain or read. The entry listens to
    that resource. *)
Theorem entraining_needs_a_rule (peer : string) (e : Entrain) (room : option nat) (s s' : System (D:=D)) (id : Z)
    (Hstep : system_step (EOpen peer e Remote room) s = Some s') (Hfresh : sy_running s !! id = None)
    (Hrunning : is_Some (sy_running s' !! id)) :
  exists table, entrainable (n_db (sy_conn s)) peer (en_point e) table /\
    rg_subs (sy_reg s') !! id = Some (mkSub (en_point e) table).
Proof.
  cbn [system_step] in Hstep. destruct (entrain_open _ _ _ _) as [sub w] eqn:E. apply open_cases in E.
  destruct sub as [id'|]; injection Hstep as <-; cbn in *.
  - destruct (base.decide (id = id')) as [->|Hne]; [|rewrite lookup_insert_ne, Hfresh in Hrunning by done; by destruct Hrunning].
    destruct E as (table & Hg & Hsub & _). exists table. injection Hsub as -> ->. cbn. rewrite lookup_insert_eq. split; [|done].
    unfold gate_audited in Hg. destruct (gate_entrain _ _ _) as [gate c1] eqn:Eg. destruct (match gate with GUnknownPeer => _ | _ => _ end).
    cbn in Hg. injection Hg as -> _. by eapply gate_entrain_sound.
  - rewrite Hfresh in Hrunning. by destruct Hrunning.
Qed.
End properties.

(** ** Witnesses *)

#[local] Existing Instance low_ids.
#[local] Instance brief_text : FrameText := {
  frame_debug := fun _ => "frame";
  tag_debug := fun s => s;
  protocol_error_text := fun _ => "error"
}.

Definition watch_point : PointRow :=
  mkPointRow (SText "sympathetic") SNull SNull SNull (SText "") 0 SNull SNull SNull SNull SNull SNull SNull (SText "notes") SNull.
Definition watch_conn : NConn (list string) :=
  set_db (set_surface (set_projection {["urn:w" := watch_point]} no_surface) (n_db points_conn)) points_conn.
Definition watch : Entrain := mkEntrain "01J" "urn:w".

(** Alice watches the notes, they change, she is told and damps. *)
Definition watch_opened : list (Event (D:=list string)) := [EOpen "alice" watch Remote None; EUpdate "notes"].
Definition watch_told : list (Event (D:=list string)) :=
  watch_opened ++ [ECommit; ETurn 0 (WSignal false false); ETurn 0 (WFrame (Some (ODamp (mkDamp None "urn:w"))))].

Definition after_run (evs : list (Event (D:=list string))) : System :=
  default (system_new watch_conn None) (system_run evs (system_new watch_conn None)).

Example watch_frames : map snd (sy_ended (after_run watch_told)) =
  [[bare_done "01J"; vibration watch 0 watch_conn; bare_done "01J"]].
Proof. vm_compute. reflexivity. Qed.

Lemma entrainments_speak_protocol_witness :
  let s := after_run watch_told in
  (forall e objs,
     ((e, objs) ∈ sy_ended s \/ exists id h, sy_running s !! id = Some h /\ hn_entrain h = e /\ ch_sent (hn_ch h) = objs) ->
     objs = [] \/
     exists events r, Entrainment.accept_all objs (Entrainment.EntrainmentReader_new (en_id e) (en_point e)) = (Ok events, r) /\
       Entrainment.finish r = Ok tt) /\
  dom (rg_signals (sy_reg s)) = dom (sy_running s) /\
  (forall id sub, rg_subs (sy_reg s) !! id = Some sub ->
     exists h, sy_running s !! id = Some h /\ sb_point sub = en_point (hn_entrain h)).
Proof.
  apply (entrainments_speak_protocol watch_conn None watch_told (after_run watch_told)); vm_compute; reflexivity.
Defined.

Definition watch_handler : Running := mkRunning "alice" watch 0 (mkChan [bare_done "01J"] None).

Lemma commits_reach_the_entrained_witness :
  let s' := after_run (watch_opened ++ [ECommit; EUpdate "notes"; ECommit]) in
  sy_running s' !! 0 = Some watch_handler /\
  exists s'', system_step (ETurn 0 (WSignal false false)) s' = Some s'' /\
    (ch_room (hn_ch watch_handler) <> Some O ->
       (exists h', sy_running s'' !! 0 = Some h' /\
          ch_sent (hn_ch h') = ch_sent (hn_ch watch_handler) ++
            [vibration (hn_entrain watch_handler) (hn_seq watch_handler) (sy_conn s')]) /\
       (is_Some (rg_subs (sy_reg s') !! 0) -> forall stalled notice, system_step (ETurn 0 (WSignal stalled notice)) s'' = None)).
Proof.
  apply (commits_reach_the_entrained watch_conn None watch_opened [EUpdate "notes"; ECommit] (after_run watch_opened) _
           0 watch_handler (mkSub "urn:w" (Some "notes"))).
  1-4, 6-7: vm_compute; reflexivity.
  repeat constructor.
Defined.

Lemma transactions_signal_their_tables_witness :
  let s := after_run [EOpen "alice" watch Remote None] in
  system_run (map EUpdate ["notes"; "_policy"; "notes"] ++ [ERollback]) s = Some s /\
  exists s', system_run (map EUpdate ["notes"; "_policy"; "notes"] ++ [ECommit]) s = Some s' /\ sy_pending s' = [] /\
    (exists called, sy_observer s' = (fun calls => calls ++ called) <$> sy_observer s /\ NoDup called /\
       forall t, t ∈ called <-> t ∈ ["notes"; "_policy"; "notes"]) /\
    rg_subs (sy_reg s') = rg_subs (sy_reg s) /\
    forall id sub, rg_subs (sy_reg s) !! id = Some sub -> id ∈ dom (rg_signals (sy_reg s)) ->
      (waits s' id <-> waits s id \/ exists t, t ∈ ["notes"; "_policy"; "notes"] /\
         (sb_table sub = Some t \/ sb_point sub = PROJECTION_CHANGED /\ (t = "_projection" \/ t = "_policy"))).
Proof.
  apply (transactions_signal_their_tables (after_run [EOpen "alice" watch Remote None]) ["notes"; "_policy"; "notes"]).
  vm_compute. reflexivity.
Defined.

Lemma entraining_needs_a_rule_witness :
  exists table, entrainable (n_db (sy_conn (system_new watch_conn None))) "alice" (en_point watch) table /\
    rg_subs (sy_reg (after_run [EOpen "alice" watch Remote None])) !! 0 = Some (mkSub (en_point watch) table).
Proof.
  apply (entraining_needs_a_rule "alice" watch None (system_new watch_conn None) (after_run [EOpen "alice" watch Remote None]) 0);
    [vm_compute; reflexivity|reflexivity|vm_compute; by eexists].
Defined.
