(* ===== verification/NodeSparql.v ===== *)
(** * NodeSparql: the SPARQL lane

    Models [crates/node/src/sparql_mod.rs] and the handlers for it in
    [crates/node/src/pipeline.rs]: parsing, the decision over the tables of the
    triple store, execution under a row cap, updates that are applied once, and
    the frames of each outcome. *)

From S2P Require Import Prelude RustStd Vocab External Instances Value Envelope Request CivilDate AuthTypes Chain Effect.
From S2P Require Import Authorizer NodeDb NodeSql NodeGate NodeExecute NodeFrames.
From S2P Require SparqlTerm SparqlCursor SparqlParse SparqlStore.

Open Scope Z_scope.

(** The tables of the triple store are tables of the served database. *)
Class RdfTables (D : Type) : Type := {
  get_rdf : D -> SparqlStore.RdfDb;
  put_rdf : SparqlStore.RdfDb -> D -> D
}.

(** [oxrdf]: the IRIs and the blank node labels it takes, and the language tag
    it makes of a text. *)
Class OxRdf : Type := {
  ox_iri_ok : string -> bool;
  ox_label_ok : string -> bool;
  ox_language : string -> option string
}.

(** The JSON recorded for an update. *)
Class AffectedJson : Type := { affected_json : Z -> string }.

(** ** Terms in frames *)

Definition nt_char (c : ascii) : string :=
  if bool_decide (c = "\"%char) then "\\"
  else if bool_decide (c = DQ) then String "\" dq
  else if bool_decide (c = NL) then "\n"
  else if bool_decide (c = "013"%char) then "\r"
  else if bool_decide (c = "009"%char) then "\t"
  else char_str c.

Definition nt_term (t : SparqlTerm.Term) : string :=
  if SparqlTerm.t_kind t =? SparqlTerm.K_IRI then "<" +:+ SparqlTerm.t_lex t +:+ ">"
  else if SparqlTerm.t_kind t =? SparqlTerm.K_BNODE then "_:" +:+ SparqlTerm.t_lex t
  else dq +:+ str_map nt_char (SparqlTerm.t_lex t) +:+ dq +:+
       (if negb (is_empty (SparqlTerm.t_lang t)) then "@" +:+ SparqlTerm.t_lang t
        else if negb (is_empty (SparqlTerm.t_dtype t)) then "^^<" +:+ SparqlTerm.t_dtype t +:+ ">"
        else "").

Definition term_value (t : SparqlTerm.Term) : Value := Text (nt_term t).

Section ox.
Context `{HX : !OxRdf} `{HS : !OxDisplay}.

Definition named_node (iri : string) : option string := if ox_iri_ok iri then Some iri else None.
Definition blank_node (label : string) : option string := if ox_label_ok label then Some label else None.

Definition ox_subject (t : SparqlTerm.Term) : option NamedOrBlankNode :=
  if SparqlTerm.t_kind t =? SparqlTerm.K_IRI then NNode <$> named_node (SparqlTerm.t_lex t)
  else if SparqlTerm.t_kind t =? SparqlTerm.K_BNODE then BNode <$> blank_node (SparqlTerm.t_lex t)
  else None.

(** The datatype of a literal with a language. *)
Definition RDF_LANG_STRING : string := "http://www.w3.org/1999/02/22-rdf-syntax-ns#langString".

Definition ox_object (t : SparqlTerm.Term) : option Term :=
  if SparqlTerm.t_kind t =? SparqlTerm.K_IRI then TNamed <$> named_node (SparqlTerm.t_lex t)
  else if SparqlTerm.t_kind t =? SparqlTerm.K_BNODE then TBlank <$> blank_node (SparqlTerm.t_lex t)
  else if negb (is_empty (SparqlTerm.t_lang t)) then
    (fun lang => TLit (mkLiteral (SparqlTerm.t_lex t) RDF_LANG_STRING (Some lang))) <$> ox_language (SparqlTerm.t_lang t)
  else if negb (is_empty (SparqlTerm.t_dtype t)) then
    (fun dt => TLit (mkLiteral (SparqlTerm.t_lex t) dt None)) <$> named_node (SparqlTerm.t_dtype t)
  else Some (TLit (mkLiteral (SparqlTerm.t_lex t) XSD_STRING None)).

(** A triple [oxrdf] does not take is dropped. *)
Definition ox_triple (t : SparqlSerialize.Triple) : option Triple :=
  let '(s, p, o) := t in
  s ← ox_subject s; p ← named_node (SparqlTerm.t_lex p); o ← ox_object o; Some (mkTriple s p o).

Definition triple_estimate (t : Triple) : Z :=
  str_size (show_node (subject t)) + str_size (show_named (predicate t)) + str_size (show_term (object t)) + 16.
End ox.

(** ** The job on the database *)

Definition sparql_footprint (kind : ActionKind) : Footprint := from_tables kind [("rdf_triples", []); ("rdf_terms", [])].

Inductive SparqlOutcome : Type :=
| SDenied (reason : string)
| SBadRequest (message : string)
| SEngineError (message : string)
| SSelect (vars : list string) (rows : list (list (option SparqlTerm.Term))) (truncated : bool)
| SAsk (b : bool)
| SConstruct (triples : list Triple)
| SUpdated (affected : Z).

Section run.
Context {D : Type} `{HR : !RowIds} `{HO : !AppliedJson} `{HT : !NodeText} `{HJ : !ChainJson} `{HU : !UlidLib}.
Context `{HP : !RdfTables D} `{HE : !SparqlStore.SqlEngine} `{HX : !OxRdf} `{HA : !AffectedJson}.
Implicit Types (conn : NConn D).

(** Code of the store runs over the same connection. *)
Definition rdf_conn conn : SparqlStore.SConn :=
  SparqlStore.mkSConn (get_rdf (nd_user (n_db conn))) (map (fmap se_text) (n_faults conn)).

Definition set_rdf (r : SparqlStore.RdfDb) (d : NodeDb D) : NodeDb D :=
  mkNodeDb (nd_auth d) (nd_audit d) (nd_applied d) (nd_knock d) (nd_media d) (nd_surface d) (put_rdf r (nd_user d)).

Definition on_rdf {A} (m : SparqlStore.SM A) conn : result SparqlStore.serror A * NConn D :=
  let '(r, c) := m (rdf_conn conn) in
  (r, set_faults (drop (length (n_faults conn) - length (SparqlStore.s_faults c)) (n_faults conn))
        (set_db (set_rdf (SparqlStore.s_db c) (n_db conn)) conn)).

(** [None]: the job panicked. *)
Definition engine_outcome {A} (ok : A -> SparqlOutcome) (r : result SparqlStore.serror A) : option SparqlOutcome :=
  match r with
  | Ok a => Some (ok a)
  | Err (SparqlStore.SMsg m) => Some (SEngineError m)
  | Err SparqlStore.SPanic => None
  end.

(** [rows.truncate(row_cap.max(0))] when there are more. *)
Definition capped_select (row_cap : Z) (answer : list string * list (list (option SparqlTerm.Term))) : SparqlOutcome :=
  let '(vars, rows) := answer in
  let truncated := row_cap <? Z.of_nat (length rows) in
  SSelect vars (if truncated then firstn (Z.to_nat (Z.max row_cap 0)) rows else rows) truncated.

(** The update, in a transaction, under the record of applied writes. A failed
    look into the record counts as no record. *)
Definition run_update_idempotent (id : string) (u : SparqlTerm.Update) conn : option SparqlOutcome * NConn D :=
  let '(recorded, conn) := nquery (applied_row id) conn in
  match recorded with
  | Ok (Some json) => (Some (SUpdated (default 0 (fst (parse_outcome json)))), conn)
  | _ =>
      match begin_transaction conn with
      | (Err e, conn) => (Some (SEngineError (se_text e)), conn)
      | (Ok _, conn) =>
          match on_rdf (SparqlStore.run_update u) conn with
          | (Ok affected, conn) =>
              match nsql (insert_applied id (rfc3339 (n_secs conn)) (affected_json affected)) conn with
              | (Err e, conn) => (Some (SEngineError (se_text e)), drop_transaction conn)
              | (Ok _, conn) => match commit conn with
                                | (Ok _, conn) => (Some (SUpdated affected), drop_transaction conn)
                                | (Err e, conn) => (Some (SEngineError (se_text e)), drop_transaction conn)
                                end
              end
          | (Err e, conn) => (engine_outcome SUpdated (Err e), drop_transaction conn)
          end
      end
  end.

Definition execute_parsed (id : string) (parsed : SparqlTerm.Parsed) (row_cap : Z) conn :
    option SparqlOutcome * NConn D :=
  match parsed with
  | SparqlTerm.PQuery q =>
      match SparqlTerm.q_form q with
      | SparqlTerm.Select =>
          let '(r, conn) := on_rdf (SparqlStore.exec_select q) conn in (engine_outcome (capped_select row_cap) r, conn)
      | SparqlTerm.Ask => let '(r, conn) := on_rdf (SparqlStore.exec_ask q) conn in (engine_outcome SAsk r, conn)
      | SparqlTerm.Construct =>
          let '(r, conn) := on_rdf (SparqlStore.exec_construct q) conn in
          (engine_outcome (fun triples => SConstruct (omap ox_triple triples)) r, conn)
      end
  | SparqlTerm.PUpdate u => run_update_idempotent id u conn
  end.

(** The text parsed, and carried in the class for it; or what is answered. *)
Definition classified (req : Request) : result (option SparqlOutcome) (ActionKind * SparqlTerm.Parsed) :=
  match SparqlParse.parse (rq_signal req) with
  | Err (SparqlCursor.PErr m) => Err (Some (SBadRequest ("sparql parse error: " +:+ m)))
  | Err _ => Err None
  | Ok parsed =>
      match parsed, rq_kind req with
      | SparqlTerm.PQuery _, Query => Ok (Read, parsed)
      | SparqlTerm.PUpdate _, Execute => Ok (Write, parsed)
      | SparqlTerm.PQuery _, Execute => Err (Some (SBadRequest "a SPARQL query rides a rsntr:Query, not rsntr:Execute"))
      | SparqlTerm.PUpdate _, Query => Err (Some (SBadRequest "a SPARQL update rides a rsntr:Execute, not rsntr:Query"))
      end
  end.

(** A narrowed statement is allowed for the ledger, and refused. *)
Definition sparql_decision_str (d : Decision) : string * option string :=
  match d with
  | Allow | AllowNarrowed _ => ("allow", None)
  | Deny reason => ("deny", Some reason)
  | Escalate => ("deny", Some not_decided)
  end.

Definition gate_and_run_sparql (peer : string) (req : Request) (chain : Chain) (row_cap : Z) conn :
    option SparqlOutcome * NConn D :=
  let id := id_string req in
  match classified req with
  | Err answer => (answer, conn)
  | Ok (kind, parsed) =>
      let footprint := sparql_footprint kind in
      let '(decided, duration, conn) := timed_decide chain peer (ActionKind_as_str kind) footprint (rq_signal req) conn in
      let '(decision_str, reason) := sparql_decision_str (dc_decision decided) in
      let '(_, conn) := audit_full peer id (rq_signal req) (footprint_to_json footprint) decision_str
                          (dc_decided_by decided) reason duration conn in
      match dc_decision decided with
      | Allow => execute_parsed id parsed row_cap conn
      | AllowNarrowed _ => (Some (SDenied "allow-narrowed is not supported for the sparql modulation"), conn)
      | Deny reason => (Some (SDenied reason), conn)
      | Escalate => (Some (SDenied not_decided), conn)
      end
  end.

Definition run_sparql_owner (peer : string) (req : Request) (row_cap : Z) conn : option SparqlOutcome * NConn D :=
  let id := id_string req in
  match classified req with
  | Err answer => (answer, conn)
  | Ok (kind, parsed) =>
      let footprint := sparql_footprint kind in
      let '(_, conn) := audit_full_dir (mkAuditEntry "local" peer id (rq_signal req) (footprint_to_json footprint)
                                          "allow" "owner" None 0) conn in
      execute_parsed id parsed row_cap conn
  end.
End run.

(** ** The frames *)

Section frames.
Context `{HS : !OxDisplay}.
Variables (rows_per_frame frame_byte_budget : Z).

Definition row_cells (vars : list string) (row : list (option SparqlTerm.Term)) : list (string * Value) :=
  omap (fun '(var, term) => (fun t => (var, term_value t)) <$> term) (zip vars row).

Definition row_estimate (cells : list (string * Value)) : Z :=
  32 + zsum (map (fun '(var, v) => match v with Text s => str_size s + str_size var + 16 | _ => 0 end) cells).

(** The batches of the rows, numbered from [seq]; a batch goes out when it is
    full. *)
Fixpoint select_batches (vars : list string) (rows : list (list (option SparqlTerm.Term))) (seq : Z)
    (batch : list Row) (batch_bytes : Z) : list EnvelopeObject :=
  match rows with
  | [] => match batch with [] => [] | _ => [ORow batch] end
  | row :: rows' =>
      let cells := row_cells vars row in
      let batch := batch ++ [mkRow seq cells] in
      let batch_bytes := batch_bytes + row_estimate cells in
      if (rows_per_frame <=? Z.of_nat (length batch)) || (frame_byte_budget <=? batch_bytes)
      then ORow batch :: select_batches vars rows' (seq + 1) [] 0
      else select_batches vars rows' (seq + 1) batch batch_bytes
  end.

Definition GRAPH_CHUNK : Z := 512.

(** The chunks of the triples; at least one goes out. *)
Fixpoint graph_chunks (id : string) (triples : list Triple) (seq : Z) (chunk : list Triple) (chunk_bytes : Z) :
    list EnvelopeObject :=
  match triples with
  | [] => match chunk with
          | [] => if seq =? 0 then [OGraph (mkGraph id seq [])] else []
          | _ => [OGraph (mkGraph id seq chunk)]
          end
  | t :: triples' =>
      let chunk := chunk ++ [t] in
      let chunk_bytes := chunk_bytes + triple_estimate t in
      if (GRAPH_CHUNK <=? Z.of_nat (length chunk)) || (frame_byte_budget <=? chunk_bytes)
      then OGraph (mkGraph id seq chunk) :: graph_chunks id triples' (seq + 1) [] 0
      else graph_chunks id triples' seq chunk chunk_bytes
  end.

Definition sparql_frames (id : string) (outcome : SparqlOutcome) : list EnvelopeObject :=
  match outcome with
  | SDenied reason => [ODenied (mkDenied (Some id) (Some reason))]
  | SBadRequest message =>
      [OError (mkErrorEnvelope (Some id) (ErrorCode_as_str ProtocolErrorCode) (Some message))]
  | SEngineError message =>
      [OError (mkErrorEnvelope (Some id) (ErrorCode_as_str EngineError) (Some message))]
  | SSelect vars rows truncated =>
      OResult (mkResultHeader id vars []) :: select_batches vars rows 0 [] 0 ++
      [ODone (mkDone id (Some (Z.of_nat (length rows))) None None truncated)]
  | SAsk b =>
      [OResult (mkResultHeader id ["ask"] []); ORow [mkRow 0 [("ask", Integer (if b then 1 else 0))]];
       ODone (mkDone id (Some 1) None None false)]
  | SConstruct triples =>
      graph_chunks id triples 0 [] 0 ++ [ODone (mkDone id (Some (Z.of_nat (length triples))) None None false)]
  | SUpdated affected =>
      [OResult (mkResultHeader id [] []); ODone (mkDone id (Some 0) (Some affected) None false)]
  end.
End frames.

(** ** The handlers *)

Section serve.
Context {D : Type} `{HR : !RowIds} `{HO : !AppliedJson} `{HT : !NodeText} `{HJ : !ChainJson} `{HU : !UlidLib}.
Context `{HP : !RdfTables D} `{HE : !SparqlStore.SqlEngine} `{HX : !OxRdf} `{HS : !OxDisplay} `{HA : !AffectedJson}.
Variable self : Node (D:=D).

(** A job that panicked takes the connection with it: nothing is sent. *)
Definition stream_sparql_outcome (id : string) (outcome : option SparqlOutcome) : Serve (D:=D) := fun io =>
  match outcome with
  | Some outcome =>
      tell_all (sparql_frames (rows_per_frame (nn_config self)) (frame_byte_budget (nn_config self)) id outcome) io
  | None => io
  end.

Definition serve_sparql (peer : string) (request : Request) : Serve (D:=D) := fun '(conn, ch) =>
  let id := id_string request in
  let '(known, conn) := peer_known peer conn in
  if negb known then
    send_denied (Some id) unknown_peer_reason
      (audit_direct peer id (rq_signal request) "deny" "peer-gate" "unknown peer" conn, ch)
  else
    let limits := Limits_effective (rq_options request) (nn_config self) in
    let '(outcome, conn) := gate_and_run_sparql peer request (nn_chain self) (row_cap limits) (nn_meanwhile self conn) in
    stream_sparql_outcome id outcome (conn, ch).

Definition serve_sparql_owner (peer : string) (request : Request) : Serve (D:=D) := fun '(conn, ch) =>
  let limits := Limits_effective (rq_options request) (nn_config self) in
  let '(outcome, conn) := run_sparql_owner peer request (row_cap limits) conn in
  stream_sparql_outcome (id_string request) outcome (conn, ch).
End serve.
