(* ===== verification/NodeSparqlProps.v ===== *)
(** * NodeSparqlProps: SPARQL requests through the node *)

From S2P Require Import Prelude RustStd Vocab External Instances Value Envelope Request Response CivilDate AuthTypes Chain Effect.
From S2P Require Import Authorizer NodeDb NodeSql NodeGate NodeDemo NodeGateProps NodeExecute NodeExecuteProps NodeFrames NodeSparql.
From S2P Require SparqlTerm SparqlCursor SparqlParse SparqlParseSafe SparqlTyping SparqlSerialize SparqlStore SparqlStoreInv.
From S2P Require SparqlStoreInv SparqlStoreSpec SparqlStoreProps.

Open Scope Z_scope.

(** The cells are in N-Triples form, as the serialiser of the store writes it. *)
Lemma nt_term_serialized t : nt_term t = SparqlSerialize.nt_write_term t.
Proof.
  unfold nt_term, SparqlSerialize.nt_write_term, SparqlSerialize.write_quoted_literal.
  replace (str_map SparqlSerialize.quoted_char (SparqlTerm.t_lex t)) with (str_map nt_char (SparqlTerm.t_lex t)) by done.
  by rewrite !app_str_assoc.
Qed.

(** ** The frames are a response *)

Section frames.
Context `{HS : !OxDisplay}.
Variables (rpf fbb : Z) (id : string).

Lemma row_cells_columns vars row : Forall (fun '(name, _) => name ∈ vars) (row_cells vars row).
Proof.
  apply Forall_forall. intros [name v] Hin. unfold row_cells in Hin. apply list_elem_of_omap in Hin as ([var t] & Hz & Ht).
  destruct t as [t|]; [|done]. injection Ht as -> _. apply list_elem_of_In in Hz. apply list_elem_of_In. by eapply in_combine_l.
Qed.

(** The rows of an answer, numbered from [seq]. *)
Fixpoint numbered (vars : list string) (seq : Z) (rows : list (list (option SparqlTerm.Term))) : list Row :=
  match rows with
  | [] => []
  | row :: rows' => mkRow seq (row_cells vars row) :: numbered vars (seq + 1) rows'
  end.

Lemma numbered_run vars rows : forall seq, 0 <= seq -> seq + Z.of_nat (length rows) <= I64_MAX ->
  row_run vars seq (numbered vars seq rows) (seq + Z.of_nat (length rows)).
Proof.
  induction rows as [|row rows IH]; intros seq H0 Hmax; cbn [numbered length] in *; [rewrite Z.add_0_r; constructor|].
  constructor; [done|apply row_cells_columns|]. rewrite i64_incr_small by lia.
  replace (seq + Z.of_nat (S (length rows))) with (seq + 1 + Z.of_nat (length rows)) by lia. apply IH; lia.
Qed.

Lemma select_batches_rows vars rows : forall seq batch bytes,
  exists batches, select_batches rpf fbb vars rows seq batch bytes = map ORow batches /\
    Forall (fun b => b <> []) batches /\ concat batches = batch ++ numbered vars seq rows.
Proof.
  induction rows as [|row rows IH]; intros seq batch bytes; cbn [select_batches numbered].
  - rewrite app_nil_r. destruct batch as [|r batch]; [by exists []|]. exists [r :: batch]. cbn. rewrite app_nil_r.
    split_and!; [done|by constructor|done].
  - cbv zeta. destruct (_ || _).
    + destruct (IH (seq + 1) [] 0) as (batches & -> & Hne & Hc). exists ((batch ++ [mkRow seq (row_cells vars row)]) :: batches).
      split_and!; [done|constructor; [by destruct batch|done]|]. cbn [concat]. rewrite Hc, <-app_assoc. done.
    + destruct (IH (seq + 1) (batch ++ [mkRow seq (row_cells vars row)]) (bytes + row_estimate (row_cells vars row)))
        as (batches & -> & Hne & Hc). exists batches. split_and!; [done..|]. by rewrite Hc, <-app_assoc.
Qed.

Lemma graph_chunks_body triples trailer : ending id trailer -> forall seq (chunk : list Triple) bytes,
  0 < seq -> seq + Z.of_nat (length triples) + (match chunk with [] => 0 | _ => 1 end) <= I64_MAX ->
  graphs_body id seq (graph_chunks fbb id triples seq chunk bytes ++ [trailer]).
Proof.
  intros Hend. induction triples as [|t triples IH]; intros seq chunk bytes Hseq Hmax; cbn [graph_chunks length] in *.
  - destruct chunk as [|t chunk]; cbn in *; [destruct (Z.eqb_spec seq 0); [lia|by constructor]|].
    constructor; [done..|]. rewrite i64_incr_small by lia. by constructor.
  - cbv zeta. destruct (_ || _).
    + cbn [app]. constructor; [done..|]. rewrite i64_incr_small by (destruct chunk; lia). apply IH; destruct chunk; lia.
    + apply IH; [done|]. destruct (chunk ++ [t]) eqn:E; [by destruct chunk|destruct chunk; lia].
Qed.

Lemma graph_chunks_response triples trailer : ending id trailer -> forall (chunk : list Triple) bytes,
  Z.of_nat (length triples) + (match chunk with [] => 0 | _ => 1 end) < I64_MAX ->
  response id (graph_chunks fbb id triples 0 chunk bytes ++ [trailer]).
Proof.
  intros Hend. induction triples as [|t triples IH]; intros chunk bytes Hmax; cbn [graph_chunks length] in *.
  - destruct chunk as [|t chunk]; cbn; (apply resp_graphs; [done..|]; by constructor).
  - cbv zeta. destruct (_ || _).
    + cbn [app]. apply resp_graphs; [done..|]. apply graph_chunks_body; [done|lia|destruct chunk; lia].
    + apply IH. destruct (chunk ++ [t]) eqn:E; [by destruct chunk|destruct chunk; lia].
Qed.

(** As many rows as 64 bits can number, and fewer triples. *)
Definition fits (outcome : SparqlOutcome) : Prop :=
  match outcome with
  | SSelect _ rows _ => Z.of_nat (length rows) <= I64_MAX
  | SConstruct triples => Z.of_nat (length triples) < I64_MAX
  | _ => True
  end.

Lemma sparql_frames_response outcome : fits outcome -> response id (sparql_frames rpf fbb id outcome).
Proof.
  destruct outcome as [reason|message|message|vars rows truncated|b|triples|affected]; cbn [fits sparql_frames]; intros Hf.
  - apply resp_denied. by right.
  - apply resp_error. by right.
  - apply resp_error. by right.
  - apply resp_result; [done|]. destruct (select_batches_rows vars rows 0 [] 0) as (batches & -> & Hne & Hc).
    eapply rows_body_batches; [done| |by apply rows_end, end_done]. rewrite Hc. by apply (numbered_run vars rows 0).
  - apply resp_result; [done|]. eapply rows_batch; [done| |by apply rows_end, end_done].
    constructor; [done|repeat constructor|constructor].
  - apply graph_chunks_response; [by apply end_done|lia].
  - apply resp_result; [done|]. by apply rows_end, end_done.
Qed.
End frames.

(** ** The job *)

(** The tables of the store are read back as written, and apart from the
    others. *)
Class RdfTablesLaws (D : Type) `{!RdfTables D} : Prop := {
  rdf_get_put r (d : D) : get_rdf (put_rdf r d) = r;
  rdf_put_get (d : D) : put_rdf (get_rdf d) d = d;
  rdf_put_put r1 r2 (d : D) : put_rdf r2 (put_rdf r1 d) = put_rdf r2 d
}.

Class AffectedJsonLaws `{!AppliedJson, !AffectedJson} : Prop := {
  affected_roundtrip n : is_i64 n = true -> parse_outcome (affected_json n) = (Some n, None)
}.

Section run.
Context {D : Type} `{HR : !RowIds} `{HO : !AppliedJson} `{HT : !NodeText} `{HJ : !ChainJson} `{HU : !UlidLib}.
Context `{HP : !RdfTables D} `{HE : !SparqlStore.SqlEngine} `{HX : !OxRdf} `{HA : !AffectedJson}.
Implicit Types (conn : NConn D) (d : NodeDb D).

Definition rdf_of d : SparqlStore.RdfDb := get_rdf (nd_user d).

(** What the code of the store gives and leaves. *)
Lemma on_rdf_cases {A} (m : SparqlStore.SM A) conn r conn' :
  on_rdf m conn = (r, conn') ->
  exists c', m (rdf_conn conn) = (r, c') /\ n_db conn' = set_rdf (SparqlStore.s_db c') (n_db conn) /\
    n_saved conn' = n_saved conn /\ (n_healthy conn -> n_healthy conn').
Proof.
  unfold on_rdf. destruct (m (rdf_conn conn)) as [r' c']. intros [= <- <-]. exists c'. split_and!; try done.
  unfold n_healthy. cbn. apply Forall_drop.
Qed.

Lemma set_rdf_same `{HL : !RdfTablesLaws D} d : set_rdf (rdf_of d) d = d.
Proof. unfold set_rdf, rdf_of. rewrite rdf_put_get. by destruct d. Qed.

(** Reading leaves everything as it was. *)
Lemma on_rdf_reads `{HL : !RdfTablesLaws D} {A} (m : SparqlStore.SM A) conn r conn' :
  (forall P, SparqlStoreInv.keeps P m) -> on_rdf m conn = (r, conn') -> n_db conn' = n_db conn.
Proof.
  intros Hk (c' & Hm & -> & _)%on_rdf_cases. specialize (Hk (fun x => x = rdf_of (n_db conn)) (rdf_conn conn) eq_refl).
  rewrite Hm in Hk. replace (SparqlStore.s_db c') with (rdf_of (n_db conn)) by (by destruct r). apply set_rdf_same.
Qed.

Lemma on_rdf_calm {A} (m : SparqlStore.SM A) conn : SparqlStoreInv.calm m -> fst (on_rdf m conn) <> Err SparqlStore.SPanic.
Proof. intros Hm. unfold on_rdf. specialize (Hm (rdf_conn conn)). by destruct (m (rdf_conn conn)). Qed.

Lemma engine_outcome_calm {A} (ok : A -> SparqlOutcome) r :
  r <> Err SparqlStore.SPanic -> (forall a, r = Ok a -> fits (ok a)) -> exists out, engine_outcome ok r = Some out /\ fits out.
Proof. destruct r as [a|[m|]]; intros Hr Hf; [|by eexists|done]. eexists. split; [done|by apply Hf]. Qed.

(** CONSTRUCT gives fewer triples than 64 bits can number. *)
Definition construct_fits : Prop := forall q c triples,
  fst (SparqlStore.exec_construct q c) = Ok triples -> Z.of_nat (length triples) < I64_MAX.

Lemma capped_fits cap answer : cap <= I64_MAX -> fits (capped_select cap answer).
Proof.
  intros Hcap. destruct answer as [vars rows]. cbn [capped_select fits].
  destruct (cap <? _) eqn:E; [rewrite length_firstn; unfold I64_MAX in *; lia|lia].
Qed.

Lemma update_fits id u conn : SparqlTyping.typed_update u = true ->
  exists out, fst (run_update_idempotent id u conn) = Some out /\ fits out.
Proof.
  intros Ht. unfold run_update_idempotent. destruct (nquery _ conn) as [recorded c1].
  destruct recorded as [[json|]|e]; [by eexists| |]; (destruct (begin_transaction c1) as [[[]|e1] c2]; [|by eexists]);
    (pose proof (on_rdf_calm (SparqlStore.run_update u) c2 (SparqlStoreInv.calm_run_update u Ht)) as Hc;
     destruct (on_rdf _ c2) as [[n|[m|]] c3]; [|by eexists|done]);
    (destruct (nsql _ c3) as [[[]|e2] c4]; [|by eexists]); by destruct (commit c4) as [[[]|e3] c5]; eexists.
Qed.

Lemma execute_fits id parsed cap conn : SparqlTyping.typed_parsed parsed = true -> cap <= I64_MAX -> construct_fits ->
  exists out, fst (execute_parsed id parsed cap conn) = Some out /\ fits out.
Proof.
  intros Ht Hcap Hfits. destruct parsed as [q|u]; [|by apply update_fits]. cbn in Ht.
  assert (Hg : SparqlTyping.typed_group (SparqlTerm.q_pattern q) = true) by (unfold SparqlTyping.typed_query in Ht; rewrite !andb_true_iff in Ht; tauto).
  cbn [execute_parsed]. destruct (SparqlTerm.q_form q).
  - pose proof (on_rdf_calm _ conn (SparqlStoreInv.calm_exec_select q Hg)) as Hc.
    destruct (on_rdf _ conn) as [r c']. apply engine_outcome_calm; [done|]. intros a _. by apply capped_fits.
  - pose proof (on_rdf_calm _ conn (SparqlStoreInv.calm_exec_construct q Hg)) as Hc.
    destruct (on_rdf _ conn) as [r c'] eqn:E. apply engine_outcome_calm; [done|]. intros triples ->. cbn [fits].
    apply on_rdf_cases in E as (c2 & Hm & _). specialize (Hfits q (rdf_conn conn) triples ltac:(by rewrite Hm)).
    pose proof (omap_length ox_triple triples). lia.
  - pose proof (on_rdf_calm _ conn (SparqlStoreInv.calm_exec_ask q Hg)) as Hc.
    destruct (on_rdf _ conn) as [r c']. by apply engine_outcome_calm.
Qed.

Lemma classified_answers req : utf8_valid (rq_signal req) = true ->
  (exists kind parsed, classified req = Ok (kind, parsed) /\ SparqlTyping.typed_parsed parsed = true) \/
  (exists m, classified req = Err (Some (SBadRequest m))).
Proof.
  intros Hu. unfold classified. destruct (SparqlParseSafe.parse_answers _ Hu) as [[p Hp]|[m Hp]]; rewrite Hp; [|right; by eexists].
  pose proof (SparqlTyping.parse_typed (rq_signal req) p Hp) as Ht. destruct p, (rq_kind req); eauto 6.
Qed.

Lemma gate_fits peer req chain cap conn : utf8_valid (rq_signal req) = true -> cap <= I64_MAX -> construct_fits ->
  exists out, fst (gate_and_run_sparql peer req chain cap conn) = Some out /\ fits out.
Proof.
  intros Hu Hcap Hfits. unfold gate_and_run_sparql.
  destruct (classified_answers req Hu) as [(kind & parsed & -> & Ht)|(m & ->)]; [|by eexists].
  destruct (timed_decide _ _ _ _ _ conn) as [[dc dur] c1]. destruct (sparql_decision_str _) as [ds rs].
  destruct (audit_full _ _ _ _ _ _ _ _ c1) as [aid c2]. destruct (dc_decision dc); [|by eexists..].
  by apply execute_fits.
Qed.

Lemma owner_fits peer req cap conn : utf8_valid (rq_signal req) = true -> cap <= I64_MAX -> construct_fits ->
  exists out, fst (run_sparql_owner peer req cap conn) = Some out /\ fits out.
Proof.
  intros Hu Hcap Hfits. unfold run_sparql_owner.
  destruct (classified_answers req Hu) as [(kind & parsed & -> & Ht)|(m & ->)]; [|by eexists].
  destruct (audit_full_dir _ conn) as [aid c1]. by apply execute_fits.
Qed.
End run.

(** ** What an update does *)

Section update.
Context {D : Type} `{HR : !RowIds} `{HO : !AppliedJson} `{HT : !NodeText} `{HJ : !ChainJson} `{HU : !UlidLib}.
Context `{HP : !RdfTables D} `{HE : !SparqlStore.SqlEngine} `{HX : !OxRdf} `{HA : !AffectedJson}.
Implicit Types (conn : NConn D) (d : NodeDb D).

Lemma begin_cases conn r conn' : begin_transaction conn = (r, conn') -> n_saved conn = None ->
  n_db conn' = n_db conn /\ (n_healthy conn -> n_healthy conn' /\ r = Ok tt) /\
  n_saved conn' = match r with Ok _ => Some (n_db conn) | Err _ => None end.
Proof.
  unfold begin_transaction. intros Hb Hs. rewrite Hs in Hb. unfold ncall in Hb.
  destruct (nquery _ conn) as [[[]|e] c1] eqn:E; apply nquery_cases in E as ((Hd & Hs1 & Hh) & Hr & _); injection Hb as <- <-; cbn.
  - rewrite Hd. split_and!; [done|intros Hc; split; [by apply Hh|done]|done].
  - rewrite Hd, Hs1, Hs. split_and!; [done|intros Hc; specialize (Hr Hc); done|done].
Qed.

Lemma commit_cases conn r conn' d0 : commit conn = (r, conn') -> n_saved conn = Some d0 ->
  n_db conn' = n_db conn /\ (n_healthy conn -> n_healthy conn' /\ r = Ok tt) /\
  n_saved conn' = match r with Ok _ => None | Err _ => Some d0 end.
Proof.
  unfold commit. intros Hb Hs. rewrite Hs in Hb. unfold ncall in Hb.
  destruct (nquery _ conn) as [[[]|e] c1] eqn:E; apply nquery_cases in E as ((Hd & Hs1 & Hh) & Hr & _); injection Hb as <- <-; cbn.
  - rewrite Hd. split_and!; [done|intros Hc; split; [by apply Hh|done]|done].
  - rewrite Hd, Hs1, Hs. split_and!; [done|intros Hc; specialize (Hr Hc); done|done].
Qed.

Lemma drop_cases conn : n_saved (drop_transaction conn) = None /\
  n_db (drop_transaction conn) = match n_saved conn with Some d0 => d0 | None => n_db conn end /\
  (n_healthy conn -> n_healthy (drop_transaction conn)).
Proof. unfold drop_transaction. destruct (n_saved conn) eqn:E; by rewrite ?E. Qed.

(** The update was run, and recorded with what it affected. *)
Definition update_done (id : string) (u : SparqlTerm.Update) (affected : Z) d d' : Prop :=
  exists c c' t at_, SparqlStore.run_update u c = (Ok affected, c') /\ SparqlStore.s_db c = rdf_of d /\
    nd_applied d = Some t /\ t !! id = None /\
    d' = set_applied (<[id := mkAppliedRow at_ (SText (affected_json affected))]> t) (set_rdf (SparqlStore.s_db c') d).

(** All of it and its record, or nothing. *)
Lemma update_idempotent_cases id u conn out conn' :
  run_update_idempotent id u conn = (out, conn') -> n_saved conn = None ->
  n_saved conn' = None /\
  (n_db conn' = n_db conn \/ exists affected, out = Some (SUpdated affected) /\ update_done id u affected (n_db conn) (n_db conn')).
Proof.
  unfold run_update_idempotent. intros Hrun Hs. destruct (nquery _ conn) as [recorded c1] eqn:E1.
  apply nquery_cases in E1 as ((Hd1 & Hs1 & _) & _ & _). rewrite Hs in Hs1.
  assert (Hfresh : match begin_transaction c1 with
      | (Err e, conn) => (Some (SEngineError (se_text e)), conn)
      | (Ok _, conn) =>
          match on_rdf (SparqlStore.run_update u) conn with
          | (Ok affected, conn) =>
              match nsql (insert_applied id (rfc3339 (n_secs conn)) (affected_json affected)) conn with
              | (Err e, conn) => (Some (SEngineError (se_text e)), drop_transaction conn)
              | (Ok _, conn) => match commit conn with
                                | (Ok _, conn) => (Some (SUpdated affected), drop_transaction conn)
                                | (Err e, conn) => (Some (SEngineError (se_text e)), drop_transaction conn)
                                end
              end
          | (Err e, conn) => (engine_outcome SUpdated (Err e), drop_transaction conn)
          end
      end = (out, conn') ->
    n_saved conn' = None /\ (n_db conn' = n_db conn \/
      exists affected, out = Some (SUpdated affected) /\ update_done id u affected (n_db conn) (n_db conn'))).
  { destruct (begin_transaction c1) as [[[]|e] c2] eqn:E2; apply begin_cases in E2 as (Hd2 & _ & Hs2); [|done| |done].
    2: { intros [= <- <-]. split; [done|]. left. by rewrite Hd2, Hd1. }
    destruct (on_rdf _ c2) as [r c3] eqn:E3. apply on_rdf_cases in E3 as (cs & Hm & Hd3 & Hs3 & _). rewrite Hs2, Hd1 in Hs3.
    destruct r as [affected|e].
    2: { intros [= <- <-]. destruct (drop_cases c3) as (-> & -> & _). rewrite Hs3. split; [done|by left]. }
    destruct (nsql _ c3) as [r4 c4] eqn:E4. apply nsql_cases in E4 as [(e & -> & (_ & Hs4 & _) & _)|(a & d & -> & Hf & Hd4 & Hs4 & _)].
    { intros [= <- <-]. destruct (drop_cases c4) as (-> & -> & _). rewrite Hs4, Hs3. split; [done|by left]. }
    rewrite Hs3 in Hs4. destruct (commit c4) as [[[]|e] c5] eqn:E5; eapply commit_cases in E5 as (Hd5 & _ & Hs5); [|done| |done];
      intros [= <- <-]; destruct (drop_cases c5) as (-> & -> & _); rewrite Hs5; (split; [done|]); [|by left].
    right. exists affected. split; [done|]. rewrite Hd5, Hd4. unfold insert_applied, nneed in Hf.
    rewrite Hd3 in Hf. cbn in Hf. rewrite Hd2, Hd1 in Hf. destruct (nd_applied (n_db conn)) as [t|] eqn:Et; [|done]. cbn in Hf.
    destruct (t !! id) eqn:Eid; [done|]. injection Hf as _ <-. exists (rdf_conn c2), cs, t, (rfc3339 (n_secs c3)).
    split_and!; [done| |done|done|by rewrite ?Hd2, ?Hd1]. cbn. unfold rdf_of. by rewrite Hd2, Hd1. }
  destruct recorded as [[json|]|e]; [|by apply Hfresh|by apply Hfresh].
  injection Hrun as _ <-. split; [by rewrite Hs1|]. left. exact Hd1.
Qed.

(** When nothing fails on its own the update is done. *)
Lemma update_idempotent_runs `{HL : !RdfTablesLaws D} (Post : Z -> SparqlStore.RdfDb -> Prop) id u conn t :
  n_healthy conn -> n_saved conn = None -> nd_applied (n_db conn) = Some t -> t !! id = None ->
  (forall c, SparqlStoreSpec.healthy c -> SparqlStore.s_db c = rdf_of (n_db conn) ->
     exists n c', SparqlStore.run_update u c = (Ok n, c') /\ Post n (SparqlStore.s_db c')) ->
  exists affected conn', run_update_idempotent id u conn = (Some (SUpdated affected), conn') /\
    Post affected (rdf_of (n_db conn')) /\ update_done id u affected (n_db conn) (n_db conn').
Proof.
  intros Hc Hs Ht Hid Hruns. unfold run_update_idempotent. destruct (nquery _ conn) as [recorded c1] eqn:E1.
  apply nquery_cases in E1 as ((Hd1 & Hs1 & Hh1) & Hr1 & _). specialize (Hr1 Hc). specialize (Hh1 Hc). rewrite Hs in Hs1.
  assert (recorded = Ok None) as ->.
  { rewrite Hr1. unfold applied_row, nneed. rewrite Ht. cbn. by rewrite Hid. }
  destruct (begin_transaction c1) as [r2 c2] eqn:E2. apply begin_cases in E2 as (Hd2 & Hh2 & Hs2); [|done].
  destruct (Hh2 Hh1) as [Hh2' ->]. destruct (on_rdf _ c2) as [r c3] eqn:E3.
  apply on_rdf_cases in E3 as (cs & Hm & Hd3 & Hs3 & Hh3). specialize (Hh3 Hh2'). rewrite Hs2, Hd1 in Hs3.
  destruct (Hruns (rdf_conn c2)) as (n & cs' & Hn & HPost).
  { unfold SparqlStoreSpec.healthy, rdf_conn. cbn. rewrite Forall_map. eapply Forall_impl; [exact Hh2'|]. by intros ? ->. }
  { cbn. unfold rdf_of. by rewrite Hd2, Hd1. }
  rewrite Hn in Hm. injection Hm as <- <-.
  assert (Hins : forall at_, insert_applied id at_ (affected_json n) (n_db c3) =
            Ok (tt, set_applied (<[id := mkAppliedRow at_ (SText (affected_json n))]> t) (n_db c3))).
  { intros at_. unfold insert_applied, nneed. rewrite Hd3. cbn. rewrite Hd2, Hd1, Ht. cbn. by rewrite Hid. }
  destruct (nsql _ c3) as [r4 c4] eqn:E4. apply nsql_cases in E4 as [(e & -> & _ & Hf)|(a & d & -> & Hf & Hd4 & Hs4 & Hh4)].
  { specialize (Hf Hh3). by rewrite Hins in Hf. }
  rewrite Hins in Hf. injection Hf as _ <-. specialize (Hh4 Hh3). rewrite Hs3 in Hs4.
  destruct (commit c4) as [r5 c5] eqn:E5. eapply commit_cases in E5 as (Hd5 & Hh5 & Hs5); [|done]. destruct (Hh5 Hh4) as [Hh5' ->].
  exists n, (drop_transaction c5). destruct (drop_cases c5) as (_ & Hdd & _). rewrite Hdd, Hs5, Hd5, Hd4, Hd3.
  split_and!; [done|unfold rdf_of; cbn; by rewrite rdf_get_put|]. exists (rdf_conn c2), cs', t, (rfc3339 (n_secs c3)). split_and!; [done| |done|done|by rewrite Hd2, Hd1].
  cbn. unfold rdf_of. by rewrite Hd2, Hd1.
Qed.

(** A record answers for its id. *)
Lemma update_recorded `{HAL : !AffectedJsonLaws} id u u' affected d conn :
  update_done id u affected d (n_db conn) -> is_i64 affected = true -> n_healthy conn ->
  exists conn', run_update_idempotent id u' conn = (Some (SUpdated affected), conn') /\ n_db conn' = n_db conn.
Proof.
  intros (c & c' & t & at_ & _ & _ & _ & _ & Hd) Hn Hc. unfold run_update_idempotent.
  destruct (nquery _ conn) as [recorded c1] eqn:E1. apply nquery_cases in E1 as ((Hd1 & _ & _) & Hr1 & _).
  assert (applied_row id (n_db conn) = Ok (Some (affected_json affected))) as Hrow.
  { unfold applied_row, nneed. rewrite Hd. cbn. by rewrite lookup_insert_eq. }
  rewrite (Hr1 Hc), Hrow, affected_roundtrip by done. by exists c1.
Qed.

(** ** The gate *)

Lemma execute_parsed_reads `{HL : !RdfTablesLaws D} id q cap conn :
  n_db (snd (execute_parsed id (SparqlTerm.PQuery q) cap conn)) = n_db conn.
Proof.
  cbn [execute_parsed]. destruct (SparqlTerm.q_form q); (destruct (on_rdf _ conn) as [r c'] eqn:E); cbn; eapply on_rdf_reads;
    [|exact E| |exact E| |exact E]; intros P; [apply SparqlStoreInv.exec_select_keeps|apply SparqlStoreProps.exec_construct_keeps|
      apply SparqlStoreProps.exec_ask_keeps].
Qed.

(** The chain lets this peer run SPARQL of this kind. *)
Definition sparql_clearance (peer : string) (req : Request) (chain : Chain) (kind : ActionKind) (parsed : SparqlTerm.Parsed) d : Prop :=
  classified req = Ok (kind, parsed) /\ chain_says chain peer d (sparql_footprint kind) (rq_signal req) Allow.

Lemma classified_kind req kind parsed : classified req = Ok (kind, parsed) ->
  ActionKind_as_str kind = default_action kind /\ (kind = Read -> exists q, parsed = SparqlTerm.PQuery q).
Proof.
  unfold classified. destruct (SparqlParse.parse _) as [[q|u]|[]]; try done; destruct (rq_kind req); try done;
    intros [= <- <-]; (split; [done|]); [by eexists|done].
Qed.

Lemma gate_cases `{HL : !RdfTablesLaws D} peer req chain cap conn out conn' :
  gate_and_run_sparql peer req chain cap conn = (out, conn') ->
  (nd_user (n_db conn') = nd_user (n_db conn) /\
   match out with Some (SDenied _) | Some (SBadRequest _) => True | None => classified req = Err None | _ => False end) \/
  exists kind parsed, sparql_clearance peer req chain kind parsed (n_db conn) /\
    (kind = Read -> nd_user (n_db conn') = nd_user (n_db conn)).
Proof.
  unfold gate_and_run_sparql. destruct (classified req) as [[kind parsed]|answer] eqn:Ec.
  2: { intros [= <- <-]. left. split; [done|]. revert Ec. unfold classified. destruct (SparqlParse.parse _) as [[q|u]|[]];
         try destruct (rq_kind req); by intros [= <-]. }
  destruct (timed_decide _ _ _ _ _ conn) as [[dc dur] c1] eqn:E1. assert (E1' := E1). apply timed_data in E1' as (Hu1 & _).
  apply timed_cases in E1 as ((ac & Hac & _ & Hdc) & _).
  destruct (sparql_decision_str _) as [ds rs]. destruct (audit_full _ _ _ _ _ _ _ _ c1) as [aid c2] eqn:E2.
  apply audit_data in E2 as (Hu2 & _). destruct (classified_kind _ _ _ Ec) as [Hk Hq].
  destruct (dc_decision dc) eqn:Ed; [|intros [= <- <-]; left; split; [by rewrite Hu2|done]..].
  intros Hrun. right. exists kind, parsed. split.
  - split; [done|]. exists ac. split; [done|]. cbn [sparql_footprint from_tables AuthTypes.kind]. rewrite <-Hk, <-Hdc. exact Ed.
  - intros ->. destruct (Hq eq_refl) as [q ->]. pose proof (execute_parsed_reads (id_string req) q cap c2) as Hr.
    rewrite Hrun in Hr. cbn in Hr. by rewrite Hr, Hu2.
Qed.
End update.

(** ** The handler *)

Section serve.
Context {D : Type} `{HR : !RowIds} `{HO : !AppliedJson} `{HT : !NodeText} `{HJ : !ChainJson} `{HU : !UlidLib}.
Context `{HP : !RdfTables D} `{HE : !SparqlStore.SqlEngine} `{HX : !OxRdf} `{HS : !OxDisplay} `{HA : !AffectedJson}.
Implicit Types (conn : NConn D) (d : NodeDb D).
Variable self : Node (D:=D).

Lemma send_all_open objs : forall sent, ch_sent (send_all objs (mkChan sent None)) = sent ++ objs.
Proof.
  induction objs as [|obj objs IH]; intros sent; cbn; [by rewrite app_nil_r|]. rewrite IH. by rewrite <-app_assoc.
Qed.

Lemma stream_outcome_response id out conn : fits out ->
  response id (ch_sent (snd (stream_sparql_outcome self id (Some out) (conn, mkChan [] None)))).
Proof. intros Hf. cbn. rewrite send_all_open. by apply sparql_frames_response. Qed.

Lemma serve_sparql_response peer req conn :
  utf8_valid (rq_signal req) = true -> row_cap (Limits_effective (rq_options req) (nn_config self)) <= I64_MAX -> construct_fits ->
  response (id_string req) (ch_sent (snd (serve_sparql self peer req (conn, mkChan [] None)))).
Proof.
  intros Hu Hcap Hfits. unfold serve_sparql. destruct (peer_known peer conn) as [known c1]. destruct known; cbn [negb].
  - destruct (gate_fits peer req (nn_chain self) _ (nn_meanwhile self c1) Hu Hcap Hfits) as (out & Ho & Hf).
    destruct (gate_and_run_sparql _ _ _ _ _) as [out' c2]. cbn [fst] in Ho. subst out'. by apply stream_outcome_response.
  - cbn. apply resp_denied. by right.
Qed.
End serve.

(** ** Properties *)

Section properties.
Context {D : Type} `{HR : !RowIds} `{HO : !AppliedJson} `{HT : !NodeText} `{HJ : !ChainJson} `{HU : !UlidLib}.
Context `{HP : !RdfTables D} `{HE : !SparqlStore.SqlEngine} `{HX : !OxRdf} `{HS : !OxDisplay} `{HA : !AffectedJson}.
Implicit Types (conn : NConn D) (d : NodeDb D).

(** A SPARQL request of a peer is turned away with one frame, and the data
    served is as it was; or the peer is known and the chain, asked whether it
    may read or write the tables of the triple store, said so; and what was
    asked as a query changed nothing. *)
Theorem sparql_needs_clearance (self : Node (D:=D)) (peer : string) (req : Request) (conn : NConn D)
    (Hlaws : RdfTablesLaws D) (Htext : utf8_valid (rq_signal req) = true)
    (Halone : forall c : NConn D, nn_meanwhile self c = c) :
  let '(conn', ch') := serve_sparql self peer req (conn, mkChan [] None) in
  (nd_user (n_db conn') = nd_user (n_db conn) /\
   exists obj, ch_sent ch' = [obj] /\ match obj with ODenied _ | OError _ => True | _ => False end) \/
  (known_peer (n_db conn) peer = true /\
   exists kind parsed, sparql_clearance peer req (nn_chain self) kind parsed (n_db conn) /\
     (kind = Read -> nd_user (n_db conn') = nd_user (n_db conn))).
Proof.
  unfold serve_sparql. destruct (peer_known peer conn) as [known c1] eqn:E1. apply peer_known_cases in E1 as ((Hd1 & _) & Hk & _).
  destruct known; cbn [negb].
  2: { left. cbn. split; [|by eexists]. unfold audit_direct, audit_direct_dir. destruct (audit_full_dir _ c1) as [i c2] eqn:E.
       apply audit_data in E as (Hu & _). cbn. by rewrite Hu, Hd1. }
  rewrite Halone. destruct (gate_and_run_sparql _ _ _ _ c1) as [out c2] eqn:E2.
  destruct (gate_cases _ _ _ _ _ _ _ E2) as [[Hu Hout]|(kind & parsed & Hcl & Hread)].
  - destruct out as [out|].
    + left. cbn [stream_sparql_outcome tell_all]. split; [by rewrite Hu, Hd1|]. rewrite send_all_open. destruct out; try done; by eexists.
    + by destruct (classified_answers req Htext) as [(kind & parsed & Hc & _)|[m Hc]]; rewrite Hc in Hout.
  - rewrite Hd1 in *. destruct out as [out|]; cbn [stream_sparql_outcome tell_all]; right; (split; [by apply Hk|]);
      by exists kind, parsed.
Qed.

(** C5. An INSERT DATA or DELETE DATA sent by a known peer that the chain lets write
    is done exactly once: the set of triples becomes its union with, or
    difference from, the data sent, blank nodes under fresh labels; the answer
    counts the change; and another update under the same request id changes
    nothing and is answered with the same count, a 64-bit integer. No statement
    fails on its own, and ids are left. *)
Theorem sparql_update_served (self : Node (D:=D)) (peer : string) (req : Request) (u : SparqlTerm.Update)
    (conn : NConn D) (t : gmap string AppliedRow) (Hlaws : RdfTablesLaws D) (Hjson : AffectedJsonLaws)
    (Halone : forall c : NConn D, nn_meanwhile self c = c)
    (Hparse : SparqlParse.parse (rq_signal req) = Ok (SparqlTerm.PUpdate u)) (Hexec : rq_kind req = Execute)
    (Hkind : SparqlTerm.u_kind u <> SparqlTerm.DeleteWhere)
    (Hhealthy : n_healthy conn) (Hclosed : n_saved conn = None) (Hknown : known_peer (n_db conn) peer = true)
    (Hallow : forall ac, db ac = nd_auth (n_db conn) -> healthy ac ->
       dc_decision (fst (decide (nn_chain self) ac peer "write" (sparql_footprint Write) (rq_signal req))) = Allow)
    (Htable : nd_applied (n_db conn) = Some t) (Hfresh : t !! id_string req = None)
    (Hok : SparqlStoreInv.store_ok (rdf_of (n_db conn)))
    (Hroom : SparqlStoreInv.bound (SparqlStoreInv.terms_of (rdf_of (n_db conn))) +
               3 * zlen (SparqlTerm.u_triples u) <= I64_MAX) :
  let G := SparqlStoreSpec.graph_of (rdf_of (n_db conn)) in
  exists ts f' conn' n,
    SparqlStoreSpec.ground_all (SparqlStoreSpec.first_freshener (rdf_of (n_db conn))) (SparqlTerm.u_triples u) = Ok (ts, f') /\
    let G' := SparqlStoreSpec.updated (SparqlTerm.u_kind u) ts G in
    n = Z.abs (SparqlStoreSpec.count G' - SparqlStoreSpec.count G) /\
    serve_sparql self peer req (conn, mkChan [] None) =
      (conn', mkChan [OResult (mkResultHeader (id_string req) [] []);
                      ODone (mkDone (id_string req) (Some 0) (Some n) None false)] None) /\
    SparqlStoreSpec.graph_of (rdf_of (n_db conn')) = G' /\
    forall u2 conn2, is_i64 n = true -> n_healthy conn2 -> n_db conn2 = n_db conn' ->
      exists conn3, run_update_idempotent (id_string req) u2 conn2 = (Some (SUpdated n), conn3) /\ n_db conn3 = n_db conn2.
Proof.
  cbv zeta. unfold serve_sparql. destruct (peer_known peer conn) as [known c1] eqn:E1.
  apply peer_known_cases in E1 as ((Hd1 & Hs1 & Hh1) & _ & Hk). rewrite (Hk Hhealthy), Hknown. cbn [negb]. rewrite Halone.
  unfold gate_and_run_sparql, classified. rewrite Hparse, Hexec.
  destruct (timed_decide _ _ _ _ _ c1) as [[dc dur] c2] eqn:E2. assert (E2' := E2). apply timed_data in E2' as (Hu2 & Ha2 & _).
  apply timed_cases in E2 as ((ac & Hac & Hh & Hdc) & _ & Hs2 & Hh2). rewrite Hd1 in *.
  assert (dc_decision dc = Allow) as Hdec by (rewrite Hdc; apply Hallow; [done|]; auto). rewrite Hdec. cbn [sparql_decision_str].
  destruct (audit_full _ _ _ _ _ _ _ _ c2) as [aid c3] eqn:E3. assert (E3' := E3). apply audit_data in E3' as (Hu3 & Ha3 & _).
  apply audit_cases in E3 as (Hs3 & Hh3 & _). cbn [execute_parsed].
  assert (Hrdf : rdf_of (n_db c3) = rdf_of (n_db conn)) by (unfold rdf_of; by rewrite Hu3, Hu2).
  destruct (update_idempotent_runs (fun n r => exists ts f',
      SparqlStoreSpec.ground_all (SparqlStoreSpec.first_freshener (rdf_of (n_db conn))) (SparqlTerm.u_triples u) = Ok (ts, f') /\
      n = Z.abs (SparqlStoreSpec.count (SparqlStoreSpec.updated (SparqlTerm.u_kind u) ts (SparqlStoreSpec.graph_of (rdf_of (n_db conn)))) -
                 SparqlStoreSpec.count (SparqlStoreSpec.graph_of (rdf_of (n_db conn)))) /\
      SparqlStoreSpec.graph_of r = SparqlStoreSpec.updated (SparqlTerm.u_kind u) ts (SparqlStoreSpec.graph_of (rdf_of (n_db conn))))
      (id_string req) u c3 t) as (n & c4 & Hrun & (ts & f' & Hg & Hn & HG) & Hdone); [by auto|by rewrite Hs3, Hs2, Hs1|by rewrite Ha3, Ha2|done| |].
  { intros c Hc Hdb. rewrite Hrdf in Hdb. rewrite <-Hdb in *.
    destruct (SparqlStoreSpec.run_data_update u c Hc Hok) as (ts & f' & c' & Hg & Hrun & Hr);
      [by apply (SparqlTyping.parse_typed (rq_signal req)) in Hparse|done|done|].
    eexists _, c'. split; [exact Hrun|]. exists ts, f'. split_and!; [done..|]. apply Hr. }
  rewrite Hrun. exists ts, f', c4, n. cbn [stream_sparql_outcome sparql_frames tell_all send_all]. split_and!; [done..|].
  intros u2 conn2 Hi Hc2 Hd2. rewrite <-Hd2 in Hdone. by eapply update_recorded.
Qed.
End properties.

(** ** Witnesses *)

#[local] Existing Instance low_ids.
#[local] Existing Instance plain_text.
#[local] Existing Instance open_json.
#[local] Instance only_rdf : RdfTables SparqlStore.RdfDb := { get_rdf := fun d => d; put_rdf := fun r _ => r }.
#[local] Instance only_rdf_laws : RdfTablesLaws SparqlStore.RdfDb.
Proof. by constructor. Qed.
#[local] Instance no_answers : SparqlStore.SqlEngine := {
  SparqlStore.sql_query := fun _ _ => Ok [];
  SparqlStore.random_rowid := fun _ => None;
  SparqlStore.f64_display := fun _ => ""
}.
#[local] Instance any_rdf : OxRdf := { ox_iri_ok := fun _ => true; ox_label_ok := fun _ => true; ox_language := Some }.
#[local] Instance plain_display : OxDisplay := {
  show_named := fun s => s;
  show_node := fun _ => "node";
  show_term := fun _ => "term"
}.
#[local] Instance numbers : AppliedJson := {
  outcome_json := fun a l => int_to_string a;
  parse_outcome := fun s => (match parse_i64 s with Ok a => Some a | Err _ => None end, None)
}.
#[local] Instance plain_affected : AffectedJson := { affected_json := int_to_string }.
#[local] Instance plain_affected_laws : AffectedJsonLaws.
Proof. constructor. intros n Hn. cbn. by rewrite parse_i64_to_string. Qed.

Definition rdf_demo_db : NodeDb SparqlStore.RdfDb :=
  mkNodeDb demo_auth (Some []) (Some ∅) (Some ∅) (Some ∅) (set_projection ∅ no_surface) (SparqlStore.mkRdfDb None None).
Definition rdf_demo_conn : NConn SparqlStore.RdfDb :=
  mkNConn rdf_demo_db None [] 0 (S754_zero false) [] (fun n => 1000000 * Z.of_nat n) 0 (0, 0).
Definition rdf_demo_node : Node (D:=SparqlStore.RdfDb) := mkNode open_chain NodeConfig_default None (fun c => c) None.
Definition insert_text : string := "INSERT DATA { <a> <p> 1, 2 }".
Definition rdf_request : Request :=
  mkRequest (repeat Byte.x00 16) Execute "sparql" insert_text [] None RequestOptions_default.

Lemma sparql_needs_clearance_witness :
  let '(conn', ch') := serve_sparql rdf_demo_node "mallory" rdf_request (rdf_demo_conn, mkChan [] None) in
  (nd_user (n_db conn') = nd_user (n_db rdf_demo_conn) /\
   exists obj, ch_sent ch' = [obj] /\ match obj with ODenied _ | OError _ => True | _ => False end) \/
  (known_peer (n_db rdf_demo_conn) "mallory" = true /\
   exists kind parsed, sparql_clearance "mallory" rdf_request (nn_chain rdf_demo_node) kind parsed (n_db rdf_demo_conn) /\
     (kind = Read -> nd_user (n_db conn') = nd_user (n_db rdf_demo_conn))).
Proof. by apply (sparql_needs_clearance rdf_demo_node "mallory" rdf_request rdf_demo_conn only_rdf_laws). Defined.

Definition insert_update : SparqlTerm.Update :=
  match SparqlParse.parse insert_text with Ok (SparqlTerm.PUpdate u) => u | _ => SparqlTerm.mkUpdate SparqlTerm.DeleteWhere [] end.

Lemma sparql_update_served_witness :
  let G := SparqlStoreSpec.graph_of (rdf_of (n_db rdf_demo_conn)) in
  exists ts f' conn' n,
    SparqlStoreSpec.ground_all (SparqlStoreSpec.first_freshener (rdf_of (n_db rdf_demo_conn))) (SparqlTerm.u_triples insert_update) = Ok (ts, f') /\
    let G' := SparqlStoreSpec.updated (SparqlTerm.u_kind insert_update) ts G in
    n = Z.abs (SparqlStoreSpec.count G' - SparqlStoreSpec.count G) /\
    serve_sparql rdf_demo_node "alice" rdf_request (rdf_demo_conn, mkChan [] None) =
      (conn', mkChan [OResult (mkResultHeader (id_string rdf_request) [] []);
                      ODone (mkDone (id_string rdf_request) (Some 0) (Some n) None false)] None) /\
    SparqlStoreSpec.graph_of (rdf_of (n_db conn')) = G' /\
    forall u2 conn2, is_i64 n = true -> n_healthy conn2 -> n_db conn2 = n_db conn' ->
      exists conn3, run_update_idempotent (id_string rdf_request) u2 conn2 = (Some (SUpdated n), conn3) /\ n_db conn3 = n_db conn2.
Proof.
  apply (sparql_update_served rdf_demo_node "alice" rdf_request insert_update rdf_demo_conn ∅ only_rdf_laws plain_affected_laws).
  - done.
  - vm_compute. reflexivity.
  - done.
  - vm_compute. discriminate.
  - by constructor.
  - done.
  - vm_compute. reflexivity.
  - intros ac. apply open_chain_allows.
  - done.
  - done.
  - apply SparqlStoreInv.empty_store_ok.
  - vm_compute. discriminate.
Defined.
