(* ===== verification/NodeDdl.v ===== *)
(** * NodeDdl: the reserved tables, their migration, and the hello

    Models [crates/node/src/ddl.rs], [migrate] of [db.rs] and
    [ensure_chat_columns] of [chat.rs]: the schema versions, the statements
    that create and seed the tables, the migration in one transaction, and what
    the node says of itself. Between the checks of [migrate] another process
    may have migrated: what it did is an argument. *)

From S2P Require Import Prelude RustStd Collections Effect Vocab External Instances Value Envelope Request CivilDate AuthTypes Chain.
From S2P Require Import Authorizer NodeDb NodeGate NodeExecute NodeFrames NodeProjection NodeSparql.
From S2P Require SparqlStore.

Open Scope Z_scope.

(** [error.rs], without what the wire and the channels add. *)
Inductive NodeError : Type :=
| NDb (e : SqlError)
| NSparql (message : string)
| NSchemaTooNew (required supported : Z)
| NBusy (secs : Z).

(** [serde_json::to_string] of a list of strings. *)
Class JsonPrint : Type := { json_of_strings : list string -> string }.

Section ddl.
Context {D : Type} `{HW : !JsonText} `{HJ : !JsonPrint} `{HP : !RdfTables D}.
Implicit Types (d : NodeDb D) (conn : NConn D).
Abbreviation DM := (Eff (NConn D) NodeError).

(** A statement; [?] turns its error into a [NodeError]. *)
Definition run_sql {A} (f : NodeDb D -> result SqlError (A * NodeDb D)) : DM A := emap_err NDb (nsql f).
Definition ask_sql {A} (f : NodeDb D -> result SqlError A) : DM A := emap_err NDb (nquery f).
Definition create (f : NodeDb D -> NodeDb D) : DM unit := run_sql (fun d => Ok (tt, f d)).
Definition on_surface (f : Surface -> Surface) (d : NodeDb D) : NodeDb D := set_surface (f (nd_surface d)) d.

(** ** The key-value table *)

Definition set_rsntr_table (t : gmap string Cell) d : NodeDb D :=
  let a := nd_auth d in set_auth (mkDb (Some t) (db_policy a) (db_decisions a) (db_inbox a) (db_peers a) (db_scripts a)) d.

Definition upsert_rsntr (key value : string) d : result SqlError (unit * NodeDb D) :=
  let? t := nneed "_rsntr" (db_rsntr (nd_auth d)) in
  Ok (tt, set_rsntr_table (<[key := SText value]> t) d).

Definition set_rsntr (key value : string) : DM unit := run_sql (upsert_rsntr key value).

(** [INSERT OR IGNORE INTO _rsntr]. *)
Definition default_rsntr (key value : string) : DM unit :=
  run_sql (fun d => let? t := nneed "_rsntr" (db_rsntr (nd_auth d)) in
                    Ok (tt, match t !! key with Some _ => d | None => set_rsntr_table (<[key := SText value]> t) d end)).

Definition ask_rsntr (key : string) : DM (option string) := etotal (get_rsntr key).

(** ** Schema versions *)

Definition SCHEMA_VERSION : Z := 3.
Definition MIN_READER_VERSION : Z := 1.
Definition SCHEMA_VERSION_KEY : string := "schema_version".
Definition MIN_READER_VERSION_KEY : string := "min_reader_version".

Definition rsntr_table_exists : DM bool := fun conn =>
  match nquery (fun d => Ok (bool_decide (is_Some (db_rsntr (nd_auth d))))) conn with
  | (Ok b, conn) => (Ok b, conn)
  | (Err _, conn) => (Ok false, conn)
  end.

(** [v.trim().parse().ok()]. *)
Definition rsntr_number (v : option string) : option Z :=
  match v with
  | Some s => match parse_i64 (trim s) with Ok n => Some n | Err _ => None end
  | None => None
  end.

Definition rsntr_i64 (key : string) : DM (option Z) :=
  let* v := ask_rsntr key in eret (rsntr_number v).

Definition check_schema_compat : DM unit :=
  let* exists_ := rsntr_table_exists in
  if negb exists_ then eret tt
  else
    let* required := rsntr_i64 MIN_READER_VERSION_KEY in
    match required with
    | Some required => if SCHEMA_VERSION <? required then ethrow (NSchemaTooNew required SCHEMA_VERSION) else eret tt
    | None => eret tt
    end.

Definition schema_is_current : DM bool :=
  let* exists_ := rsntr_table_exists in
  if negb exists_ then eret false
  else let* v := rsntr_i64 SCHEMA_VERSION_KEY in eret (bool_decide (v = Some SCHEMA_VERSION)).

Definition stamp_one (_ : unit) (entry : string * Z) : DM unit :=
  let '(key, mine) := entry in
  let* stored := rsntr_i64 key in
  if match stored with None => true | Some stored => stored <? mine end then set_rsntr key (int_to_string mine) else eret tt.

Definition stamp_schema_version : DM unit :=
  efold stamp_one tt [(SCHEMA_VERSION_KEY, SCHEMA_VERSION); (MIN_READER_VERSION_KEY, MIN_READER_VERSION)].

(** ** The tables *)

Definition create_peers d : NodeDb D :=
  let a := nd_auth d in
  set_auth (mkDb (db_rsntr a) (db_policy a) (db_decisions a) (db_inbox a) (Some (default ∅ (db_peers a))) (db_scripts a)) d.
Definition create_rsntr d : NodeDb D := set_rsntr_table (default ∅ (db_rsntr (nd_auth d))) d.
Definition create_audit d : NodeDb D := set_audit (default [] (nd_audit d)) d.
Definition create_applied d : NodeDb D := set_applied (default ∅ (nd_applied d)) d.
Definition create_inbox d : NodeDb D :=
  let a := nd_auth d in
  set_auth (mkDb (db_rsntr a) (db_policy a) (db_decisions a) (Some (default [] (db_inbox a))) (db_peers a) (db_scripts a)) d.
Definition create_knock_budget d : NodeDb D := set_knock (default ∅ (nd_knock d)) d.
(** A new [_media] has the column [accepts]. *)
Definition create_media d : NodeDb D :=
  match nd_media d with Some _ => d | None => on_surface (set_media_accepts true) (set_media ∅ d) end.
Definition create_projection : NodeDb D -> NodeDb D := on_surface (fun s => set_projection (default ∅ (sv_projection s)) s).
Definition create_modulations : NodeDb D -> NodeDb D := on_surface (fun s => set_modulations (default ∅ (sv_modulations s)) s).
Definition create_pages : NodeDb D -> NodeDb D := on_surface (fun s => set_pages (default ∅ (sv_pages s)) s).
Definition create_comments : NodeDb D -> NodeDb D := on_surface (fun s => set_comments (default ∅ (sv_comments s)) s).
Definition create_apps : NodeDb D -> NodeDb D := on_surface (fun s => set_apps (default ∅ (sv_apps s)) s).

Definition DDL : list (NodeDb D -> NodeDb D) :=
  [create_peers; create_rsntr; create_audit; create_applied; create_inbox; create_knock_budget; create_media;
   create_projection; create_modulations; create_pages; create_comments; create_apps].

Definition ensure_media_accepts_column : DM unit :=
  let* has := ask_sql (fun d => Ok (match nd_media d with Some _ => sv_media_accepts (nd_surface d) | None => false end)) in
  if (has : bool) then eret tt
  else run_sql (fun d => let? t := nneed "_media" (nd_media d) in
                         Ok (tt, on_surface (set_media_accepts true)
                                   (set_media ((fun r => mkMediaRow (me_command r) (me_content_type r) SNull) <$> t) d))).

(** ** [ensure_chat_columns] *)

Definition on_chat (f : ChatTables -> ChatTables) : NodeDb D -> NodeDb D := on_surface (fun s => set_chat (f (sv_chat s)) s).

Definition no_re (r : MessageRow) : MessageRow :=
  mkMessageRow (ms_scope r) (ms_sender r) (ms_at r) (ms_received_at r) (ms_body r) (ms_blob_hash r) (ms_blob_bytes r)
    (ms_blob_name r) (ms_blob_type r) (ms_outgoing r) None (ms_tags r).
Definition no_tags (r : MessageRow) : MessageRow :=
  mkMessageRow (ms_scope r) (ms_sender r) (ms_at r) (ms_received_at r) (ms_body r) (ms_blob_hash r) (ms_blob_bytes r)
    (ms_blob_name r) (ms_blob_type r) (ms_outgoing r) (ms_re_id r) None.

(** [ALTER TABLE chat_messages ADD COLUMN]. *)
Definition add_re (t : ChatTables) : ChatTables :=
  mkChatTables ((fun m : gmap string MessageRow => no_re <$> m) <$> ct_messages t) true (ct_has_tags t) (ct_rooms t) (ct_members t) (ct_log_view t).
Definition add_tags (t : ChatTables) : ChatTables :=
  mkChatTables ((fun m : gmap string MessageRow => no_tags <$> m) <$> ct_messages t) (ct_has_re t) true (ct_rooms t) (ct_members t) (ct_log_view t).
Definition create_log_view (t : ChatTables) : ChatTables :=
  mkChatTables (ct_messages t) (ct_has_re t) (ct_has_tags t) (ct_rooms t) (ct_members t) true.

Definition ensure_chat_columns : Eff (NConn D) SqlError unit :=
  let chat d := sv_chat (nd_surface d) in
  let* exists_ := nquery (fun d => Ok (bool_decide (is_Some (ct_messages (chat d))))) in
  if negb exists_ then eret tt
  else
    let* has := nquery (fun d => Ok (ct_has_re (chat d))) in
    let* _ := (if (has : bool) then eret tt else nsql (fun d => Ok (tt, on_chat add_re d))) in
    let* has := nquery (fun d => Ok (ct_has_tags (chat d))) in
    let* _ := (if (has : bool) then eret tt else nsql (fun d => Ok (tt, on_chat add_tags d))) in
    let* _ := nquery (fun d => if ct_has_re (chat d) then Ok tt else Err (sql_failure "no such column: re_id")) in
    nsql (fun d => Ok (tt, on_chat create_log_view d)).

(** ** Seeds *)

Definition migrate_modulation (name : string) : DM unit :=
  let marker := "migrated_mod_" +:+ name in
  let* done := ask_rsntr marker in
  match done with
  | Some _ => eret tt
  | None =>
      let* raw := ask_rsntr "modulations" in
      match raw ≫= json_strings with
      | None => eret tt
      | Some mods =>
          let* _ := (if existsb (fun m => bool_decide (m = name)) mods then eret tt
                     else set_rsntr "modulations" (json_of_strings (mods ++ [name]))) in
          set_rsntr marker "1"
      end
  end.

Definition OLD_AUTH_CHAIN : string := jq "['cache','policy']".
Definition AUTH_CHAIN : string := jq "['cache','policy','human']".

Definition migrate_auth_chain_human : DM unit :=
  let marker := "migrated_auth_chain_human" in
  let* done := ask_rsntr marker in
  match done with
  | Some _ => eret tt
  | None =>
      let* old := ask_rsntr "auth_chain" in
      let* _ := (if bool_decide (old = Some OLD_AUTH_CHAIN) then set_rsntr "auth_chain" AUTH_CHAIN else eret tt) in
      set_rsntr marker "1"
  end.

Definition INBOX_POINT : string := "urn:rsntr:inbox".
Definition inbox_point : PointRow :=
  mkPointRow (SText "sympathetic") (SText "a request is waiting") SNull SNull (SText "") 90 SNull SNull SNull SNull SNull SNull SNull
    (SText "_inbox") (SText "core inbox point").

(** [INSERT OR IGNORE INTO _projection]. *)
Definition seed_inbox_point : DM unit :=
  run_sql (fun d => let? t := nneed "_projection" (sv_projection (nd_surface d)) in
                    Ok (tt, match t !! INBOX_POINT with
                            | Some _ => d
                            | None => on_surface (set_projection (<[INBOX_POINT := inbox_point]> t)) d
                            end)).

Definition SEED : list (string * string) := [
  ("pages", "published HTML pages served as holograms by the `pages` modulation (docs/hologram-protocol.md)");
  ("_rsntr", "node key/value config: endpoint id, advertised modulations, hello hint, help text");
  ("_apps", "apps sharing this node: id, name, version, platform, the tables each one declares, first/last seen");
  ("_peers", "admitted peers: endpoint id, petname, dial address hints");
  ("_policy", "authenticator rules: who may do what on which table (allow/deny)");
  ("_audit", "the ledger: every decision on every request, who asked and what was decided");
  ("_applied", "idempotency ledger: request ids already executed, so resends never double-apply");
  ("_inbox", "requests parked for the owner: knocks and human-tier escalations");
  ("_knock_budget", "knock rate limiting: per-key and global token buckets");
  ("_media", "media sources: name to command mapping for the media modulation");
  ("_projection", "resonance points: the capability menu this node projects to observers");
  ("_modulations", "registered wasm mods: blob, hash, capabilities, config, budgets");
  ("_comments", "these table descriptions: what each table is for, shown in the console");
  ("_outbox", "durable calls to peers: retried with backoff until answered or expired");
  ("_results", "answers to _outbox calls, keyed by request id");
  ("_scripts", "script-tier deciders for the authenticator chain");
  ("_decisions", "cached authenticator decisions by request shape");
  ("rdf_terms", "RDF store dictionary: every term (IRI, literal, blank) by id");
  ("rdf_triples", "RDF store triples: subject/predicate/object/graph over rdf_terms ids")
].

(** [INSERT OR IGNORE INTO _comments]. *)
Definition seed_comment (_ : unit) (entry : string * string) : DM unit := fun conn =>
  run_sql (fun d => let? t := nneed "_comments" (sv_comments (nd_surface d)) in
                    Ok (tt, match t !! fst entry with
                            | Some _ => d
                            | None => on_surface (set_comments (<[fst entry := mkCommentRow (SText (snd entry)) (SText (sql_now conn))]> t)) d
                            end)) conn.

(** The statement is prepared once. *)
Definition seed_table_comments : DM unit :=
  let* _ := ask_sql (fun d => let? _ := nneed "_comments" (sv_comments (nd_surface d)) in Ok tt) in
  efold seed_comment tt SEED.

(** [From<rusqlite::Error>] for the authenticator's, whose errors keep their
    text alone; [NodeError::Sparql] for the store's. *)
Definition ensure_auth_tables : DM unit := emap_err (fun text => NDb (sql_failure text)) (on_auth AuthTypes.ensure_auth_tables).
Definition ensure_schema : DM unit :=
  emap_err (fun e => NSparql (match e with SparqlStore.SMsg m => m | SparqlStore.SPanic => "" end)) (on_rdf SparqlStore.ensure_schema).

Definition ensure_node_tables : DM unit :=
  let* _ := efold (fun (_ : unit) f => create f) tt DDL in
  let* _ := ensure_media_accepts_column in
  let* _ := emap_err NDb ensure_chat_columns in
  let* _ := migrate_modulation "audio-duplex" in
  let* _ := migrate_modulation "mod-install" in
  let* _ := migrate_modulation "pages" in
  let* _ := migrate_modulation "system" in
  let* _ := migrate_auth_chain_human in
  let* _ := seed_inbox_point in
  let* _ := ensure_auth_tables in
  let* _ := ensure_schema in
  seed_table_comments.

Definition DEFAULT_MODS : list string :=
  ["help"; "sql-sqlite"; "sparql"; "projection"; "media"; "audio-duplex"; "chat"; "mod-install"; "pages"; "system"].
Definition ENVELOPE_VERSION : string := "0.1".

Definition seed_rsntr_defaults : DM unit :=
  efold (fun (_ : unit) '(key, value) => default_rsntr key value) tt
    [("envelope_version", ENVELOPE_VERSION); ("modulations", json_of_strings DEFAULT_MODS);
     ("encodings", jq "['turtle']"); ("auth_chain", AUTH_CHAIN)].

(** ** The migration *)

Definition BUSY_TIMEOUT : Z := 5.

(** The transaction is dropped when it was not committed. *)
Definition in_transaction {E A} (body : Eff (NConn D) E A) : Eff (NConn D) E A := fun conn =>
  let '(r, conn) := body conn in (r, drop_transaction conn).

(** Under the lock. *)
Definition migrate_locked : DM unit :=
  let* _ := check_schema_compat in
  let* current := schema_is_current in
  let* _ := (if (current : bool) then eret tt
             else let* _ := ensure_node_tables in stamp_schema_version) in
  emap_err NDb commit.

Definition migrate (others : NConn D -> NConn D) : DM unit :=
  let* _ := check_schema_compat in
  let* current := schema_is_current in
  if (current : bool) then eret tt
  else
    let* _ := etotal (fun conn => (tt, others conn)) in
    let* _ := emap_err (fun e => if is_busy e then NBusy BUSY_TIMEOUT else NDb e) begin_transaction in
    in_transaction migrate_locked.

(** ** The hello *)

Definition served_modulations conn : list string * NConn D :=
  let '(raw, conn) := get_rsntr "modulations" conn in
  let mods := match raw with
              | Some s => match json_strings s with
                          | Some mods => mods
                          | None => if bool_decide (trim s = "") then [] else [s]
                          end
              | None => []
              end in
  (if existsb (fun m => bool_decide (m = "help")) mods then mods else mods ++ ["help"], conn).

(** [SELECT name FROM _modulations WHERE enabled = 1 ORDER BY name]. *)
Definition enabled_mod_names conn : list string * NConn D :=
  match nquery (fun d => let? t := nneed "_modulations" (sv_modulations (nd_surface d)) in
                         Ok (bs_iter (list_to_set (map fst (base.filter (fun e => mo_enabled (snd e) = true) (map_to_list t)))))) conn with
  | (Ok names, conn) => (names, conn)
  | (Err _, conn) => ([], conn)
  end.

(** [push] unless it is there. *)
Definition push_new (mods : list string) (name : string) : list string :=
  if existsb (fun m => bool_decide (m = name)) mods then mods else mods ++ [name].

Definition node_hello conn : Hello * NConn D :=
  let '(version, conn) := get_rsntr "envelope_version" conn in
  let '(encodings, conn) := get_rsntr "encodings" conn in
  let encodings := default [] (encodings ≫= json_strings) in
  let encodings := if existsb (fun e => bool_decide (e = "turtle")) encodings then encodings else "turtle" :: encodings in
  let '(mods, conn) := served_modulations conn in
  let '(names, conn) := enabled_mod_names conn in
  let '(hint, conn) := get_rsntr "hint" conn in
  (mkHello (default ENVELOPE_VERSION version) encodings (foldl push_new mods names) hint, conn).

End ddl.
