(* ===== verification/NodeSpec.v ===== *)
(** * NodeSpec: what code over the connection does

    Specifications of code that runs statements: what a value that comes back
    says of the database before and after, what an error leaves behind, and
    when there is no error as long as the statements themselves do not fail;
    with rules for sequencing, loops and transactions. *)

From S2P Require Import Prelude RustStd Effect Authorizer NodeDb NodeGateProps NodeDdl.

Open Scope Z_scope.

Section does.
Context {D : Type}.
Implicit Types (d : NodeDb D) (conn : NConn D).

(** From any database [d]: a value [a] and a database in [R d a], or an error
    and a database in [Q d], which only happens when a statement fails or [d]
    is not in [Pre]. Transactions are neither opened nor closed. *)
Definition does {E A} (Pre : NodeDb D -> Prop) (m : Eff (NConn D) E A) (R : NodeDb D -> A -> NodeDb D -> Prop)
    (Q : NodeDb D -> NodeDb D -> Prop) : Prop :=
  forall c r c', m c = (r, c') ->
    n_saved c' = n_saved c /\ (n_healthy c -> n_healthy c') /\
    match r with
    | Ok a => R (n_db c) a (n_db c')
    | Err _ => Q (n_db c) (n_db c') /\ (n_healthy c -> ~ Pre (n_db c))
    end.

Definition whatever d d' : Prop := True.
Definition unchanged d d' : Prop := d' = d.

Lemma does_conseq {E A} (m : Eff (NConn D) E A) (Pre Pre' : NodeDb D -> Prop) (R R' : NodeDb D -> A -> NodeDb D -> Prop) (Q Q' : NodeDb D -> NodeDb D -> Prop) :
  does Pre m R Q -> (forall d, Pre' d -> Pre d) -> (forall d a d', R d a d' -> R' d a d') -> (forall d d', Q d d' -> Q' d d') ->
  does Pre' m R' Q'.
Proof.
  intros Hm Hpre Hr Hq c r c' Hc. destruct (Hm c r c' Hc) as (Hs & Hh & Hres). split_and!; [done..|].
  destruct r as [a|e]; [by apply Hr|]. destruct Hres as [? Hn]. split; [by apply Hq|]. intros ? ?%Hpre. by apply Hn.
Qed.

Lemma does_ret {E A} (a : A) Q : does (fun _ => True) (eret (E:=E) a) (fun d x d' => x = a /\ d' = d) Q.
Proof. by intros c r c' [= <- <-]. Qed.

Lemma does_nsql {A} (f : NodeDb D -> result SqlError (A * NodeDb D)) :
  does (fun d => is_ok (f d) = true) (nsql f) (fun d a d' => f d = Ok (a, d')) unchanged.
Proof.
  intros c r c' [(e & -> & (Hd & Hs & Hh) & He)|(a & d & -> & Hf & Hd & Hs & Hh)]%nsql_cases; split_and!; try done.
  - intros Hc. by rewrite (He Hc).
  - by subst d.
Qed.

(** The statement may depend on the clock. *)
Lemma does_at {A} (f : NConn D -> NodeDb D -> result SqlError (A * NodeDb D)) :
  does (fun d => forall c, is_ok (f c d) = true) (fun c => nsql (f c) c) (fun d a d' => exists c, f c d = Ok (a, d')) unchanged.
Proof.
  intros c r c' (Hs & Hh & Hr)%does_nsql. split_and!; [done..|]. destruct r as [a|e]; [by exists c|].
  destruct Hr as [? Hn]. split; [done|]. intros Hc Hp. by apply (Hn Hc).
Qed.

Lemma does_nquery {A} (f : NodeDb D -> result SqlError A) :
  does (fun d => is_ok (f d) = true) (nquery f) (fun d a d' => f d = Ok a /\ d' = d) unchanged.
Proof.
  intros c r c' ((Hd & Hs & Hh) & Hr & Hok)%nquery_cases. split_and!; [done..|].
  destruct r as [a|e]; [by rewrite (Hok a)|]. split; [done|]. intros Hc. by rewrite <-(Hr Hc).
Qed.

Lemma does_ncall : does (fun _ => True) (ncall (D:=D)) (fun d _ d' => d' = d) unchanged.
Proof. eapply does_conseq; [apply does_nquery|done| |done]. by intros d [] d' [_ ?]. Qed.

Lemma does_read {E A} (f : NConn D -> A) Q : does (fun _ => True) (etotal (E:=E) (fun c => (f c, c))) (fun d _ d' => d' = d) Q.
Proof. by intros c r c' [= <- <-]. Qed.

Lemma does_bind {E A B} (m : Eff (NConn D) E A) (f : A -> Eff (NConn D) E B) (Pre1 : NodeDb D -> Prop) (Pre2 : A -> NodeDb D -> Prop) R1 R2 Q1 Q2 Pre (Q : NodeDb D -> NodeDb D -> Prop) :
  does Pre1 m R1 Q1 -> (forall a, does (Pre2 a) (f a) (R2 a) Q2) ->
  (forall d, Pre d -> Pre1 d /\ forall a d1, R1 d a d1 -> Pre2 a d1) ->
  (forall d d', Q1 d d' -> Q d d') -> (forall d a d1 d', R1 d a d1 -> Q2 d1 d' -> Q d d') ->
  does Pre (ebind f m) (fun d b d' => exists a d1, R1 d a d1 /\ R2 a d1 b d') Q.
Proof.
  intros Hm Hf Hpre Hq1 Hq2 c r c'. unfold ebind. destruct (m c) as [[a|e] c1] eqn:Em; apply Hm in Em as (Hs & Hh & Hr).
  - intros (Hs' & Hh' & Hr')%Hf. split_and!; [congruence|auto|]. destruct r as [b|e]; [eauto|].
    destruct Hr' as [Hq Hn]. split; [by eapply Hq2|]. intros Hc Hp. apply (Hn (Hh Hc)). by apply (proj2 (Hpre _ Hp)).
  - intros [= <- <-]. do 2 (split; [done|]). destruct Hr as [? Hn]. split; [by apply Hq1|]. intros Hc [Hp _]%Hpre. by apply (Hn Hc).
Qed.

(** With an error that may leave anything behind. *)
Lemma does_then {E A B} (m : Eff (NConn D) E A) (f : A -> Eff (NConn D) E B) (Pre1 : NodeDb D -> Prop) (Pre2 : A -> NodeDb D -> Prop) R1 R2 Pre Q1 Q2 :
  does Pre1 m R1 Q1 -> (forall a, does (Pre2 a) (f a) (R2 a) Q2) ->
  (forall d, Pre d -> Pre1 d /\ forall a d1, R1 d a d1 -> Pre2 a d1) ->
  does Pre (ebind f m) (fun d b d' => exists a d1, R1 d a d1 /\ R2 a d1 b d') whatever.
Proof. intros Hm Hf Hpre. by eapply does_bind. Qed.

(** ** Transactions *)

(** The same, for code that closes the open transaction when it succeeds. *)
Definition commits {E A} (Pre : NodeDb D -> Prop) (m : Eff (NConn D) E A) (R : NodeDb D -> A -> NodeDb D -> Prop) : Prop :=
  forall c r c' d0, n_saved c = Some d0 -> m c = (r, c') ->
    (n_healthy c -> n_healthy c') /\
    match r with
    | Ok a => n_saved c' = None /\ R (n_db c) a (n_db c')
    | Err _ => n_saved c' = Some d0 /\ (n_healthy c -> ~ Pre (n_db c))
    end.

Lemma commits_conseq {E A} (m : Eff (NConn D) E A) (Pre Pre' : NodeDb D -> Prop) (R R' : NodeDb D -> A -> NodeDb D -> Prop) :
  commits Pre m R -> (forall d, Pre' d -> Pre d) -> (forall d a d', R d a d' -> R' d a d') -> commits Pre' m R'.
Proof.
  intros Hm Hpre Hr c r c' d0 Hs Hc. destruct (Hm c r c' d0 Hs Hc) as (Hh & Hres). split; [done|].
  destruct r as [a|e]; [by destruct Hres as [? ?%Hr]|]. destruct Hres as [? Hn]. split; [done|]. intros ? ?%Hpre. by apply Hn.
Qed.

Lemma commits_ret {A} (a : A) :
  commits (fun _ => True) (let* _ := commit in eret a) (fun d x d' => x = a /\ d' = d).
Proof.
  intros c r c' d0 Hs. unfold ebind, commit. rewrite Hs. unfold ncall. destruct (nquery _ c) as [[[]|e] c1] eqn:E;
    apply nquery_cases in E as ((Hd & Hs1 & Hh) & Hr & _); intros [= <- <-]; cbn.
  - by rewrite Hd.
  - rewrite Hs1. split_and!; [done..|]. intros Hc. by specialize (Hr Hc).
Qed.

Lemma commits_commit : commits (fun _ => True) commit (fun d _ d' => d' = d).
Proof.
  intros c r c' d0 Hs Hc. destruct (commits_ret tt c r c' d0 Hs) as [Hh Hr].
  - unfold ebind. rewrite Hc. by destruct r as [[]|].
  - split; [done|]. destruct r; [by destruct Hr as (? & _ & ?)|done].
Qed.

Lemma commits_then {E A B} (m : Eff (NConn D) E A) (f : A -> Eff (NConn D) E B) (Pre1 : NodeDb D -> Prop) (Pre2 : A -> NodeDb D -> Prop) R1 R2 Pre Q :
  does Pre1 m R1 Q -> (forall a, commits (Pre2 a) (f a) (R2 a)) ->
  (forall d, Pre d -> Pre1 d /\ forall a d1, R1 d a d1 -> Pre2 a d1) ->
  commits Pre (ebind f m) (fun d b d' => exists a d1, R1 d a d1 /\ R2 a d1 b d').
Proof.
  intros Hm Hf Hpre c r c' d0 Hs. unfold ebind. destruct (m c) as [[a|e] c1] eqn:Em; apply Hm in Em as (Hs1 & Hh & Hr).
  - intros Hc. eapply Hf in Hc as (Hh' & Hr'); [|by rewrite Hs1]. split; [auto|]. destruct r as [b|e].
    + destruct Hr' as [? ?]. eauto 6.
    + destruct Hr' as [? Hn]. split; [done|]. intros Hc Hp. apply (Hn (Hh Hc)). by apply (proj2 (Hpre _ Hp)).
  - intros [= <- <-]. split; [done|]. rewrite Hs1. split; [done|]. intros Hc [Hp _]%Hpre. by apply Hr.
Qed.

(** A transaction is all or nothing. *)
Lemma transaction_does {A} (Pre : NodeDb D -> Prop) (body : Eff (NConn D) SqlError A) R c r c' :
  commits Pre body R -> n_saved c = None -> (let* _ := begin_transaction in in_transaction body) c = (r, c') ->
  n_saved c' = None /\ (n_healthy c -> n_healthy c') /\
  match r with
  | Ok a => R (n_db c) a (n_db c')
  | Err _ => n_db c' = n_db c /\ (n_healthy c -> ~ Pre (n_db c))
  end.
Proof.
  intros Hb Hs. unfold ebind, begin_transaction. rewrite Hs. unfold ncall. destruct (nquery _ c) as [[[]|e] c1] eqn:E;
    apply nquery_cases in E as ((Hd & Hs1 & Hh) & Hr & _).
  - unfold in_transaction. destruct (body _) as [r1 c2] eqn:E2. eapply Hb in E2 as (Hh2 & Hr2); [|done]. cbn in *. rewrite Hd in *.
    intros [= -> <-]. unfold drop_transaction. destruct r as [a|e]; destruct Hr2 as [Hs2 Hr2]; rewrite Hs2; cbn.
    + split_and!; [done|auto|done].
    + split_and!; [done|auto|done|auto].
  - intros [= <- <-]. rewrite Hs1. split_and!; [done..|]. intros Hc. by specialize (Hr Hc).
Qed.
End does.
