(* ===== verification/NodeDdlProps.v ===== *)
(** * NodeDdlProps: the migration adds and keeps *)

From S2P Require Import Prelude RustStd Collections Effect Vocab External Instances Value Envelope Request CivilDate AuthTypes Chain.
From S2P Require Import Authorizer NodeDb NodeGate NodeDemo NodeGateProps NodeExecute NodeFrames NodeProjection NodeSparql NodeSparqlProps NodeDdl.
From S2P Require SparqlStore SparqlStoreInv Transport.
From stdpp Require Import relations.

Open Scope Z_scope.

(** ** What a migration may do to the tables *)

(** A table that was there is as it was; one that was there has at least its
    rows. *)
Definition kept {A} (t t' : option A) : Prop := forall a, t = Some a -> t' = Some a.
Definition extended {A} (t t' : option (gmap string A)) : Prop := forall a, t = Some a -> exists a', t' = Some a' /\ a ⊆ a'.

#[export] Instance kept_preorder {A} : PreOrder (@kept A).
Proof. split; [by intros x a|]. intros x y z Hxy Hyz a Ha. auto. Qed.
#[export] Instance extended_preorder {A} : PreOrder (@extended A).
Proof.
  split; [intros x a Ha; by exists a|]. intros x y z Hxy Hyz a Ha. destruct (Hxy a Ha) as (b & Hb & Hab).
  destruct (Hyz b Hb) as (c & Hc & Hbc). exists c. split; [done|]. by etrans.
Qed.

Lemma kept_default {A} (t : option A) a : kept t (Some (default a t)).
Proof. by intros x ->. Qed.

(** The keys of [_rsntr] that a migration stamps, and what with. *)
Definition STAMPS : list (string * string) :=
  [(SCHEMA_VERSION_KEY, int_to_string SCHEMA_VERSION); (MIN_READER_VERSION_KEY, int_to_string MIN_READER_VERSION);
   ("migrated_auth_chain_human", "1"); ("migrated_mod_audio-duplex", "1"); ("migrated_mod_mod-install", "1");
   ("migrated_mod_pages", "1"); ("migrated_mod_system", "1")].
Definition stamp_of (key : string) : option string := snd <$> List.find (fun e => bool_decide (fst e = key)) STAMPS.

(** The modulations that came after the first version. *)
Definition LATER_MODS : list string := ["audio-duplex"; "mod-install"; "pages"; "system"].

Section settings.
Context `{HW : !JsonText} `{HJ : !JsonPrint}.

(** A list of modulations, and the list with one that it lacked appended. *)
Definition mod_added (c c' : option Cell) : Prop :=
  exists raw mods name, c = Some (SText raw) /\ json_strings raw = Some mods /\ name ∈ LATER_MODS /\ (name ∉ mods) /\
    c' = Some (SText (json_of_strings (mods ++ [name]))).

(** What may become of a setting: later modulations are added to the list, the
    old default chain becomes the new one, versions and markers are stamped;
    every other setting stays. *)
Definition setting_kept (key : string) (c c' : option Cell) : Prop :=
  if bool_decide (key = "modulations") then rtc mod_added c c'
  else if bool_decide (key = "auth_chain") then c' = c \/ c = Some (SText OLD_AUTH_CHAIN) /\ c' = Some (SText AUTH_CHAIN)
  else match stamp_of key with Some v => c' = c \/ c' = Some (SText v) | None => c' = c end.

#[export] Instance setting_preorder key : PreOrder (setting_kept key).
Proof.
  unfold setting_kept. repeat case_bool_decide.
  - split; [by intros c|]. intros x y z ? ?. by etrans.
  - split; [by left|]. intros x y z [->|[-> ->]] [->|[Hy ->]]; [by left|by right|by right|by right].
  - destruct (stamp_of key) as [v|]; (split; [by intros c; auto|]).
    + intros x y z [->| ->] [->| ->]; auto.
    + by intros x y z -> ->.
Qed.

Definition settings_kept (t t' : option (gmap string Cell)) : Prop :=
  forall a, t = Some a -> exists a', t' = Some a' /\ (forall key, setting_kept key (a !! key) (a' !! key)).

#[export] Instance settings_preorder : PreOrder settings_kept.
Proof.
  split; [intros x a Ha; exists a; split; [done|intros key; reflexivity]|]. intros x y z Hxy Hyz a Ha. destruct (Hxy a Ha) as (b & Hb & Hab).
  destruct (Hyz b Hb) as (c & Hc & Hbc). exists c. split; [done|]. intros key. etrans; [apply Hab|apply Hbc].
Qed.
End settings.

(** The messages as a query sees them: a column that the table lacks reads as
    NULL once it is added. They are kept with all their columns; no column goes. *)
Definition message_seen (t : ChatTables) (r : MessageRow) : MessageRow :=
  let r := if ct_has_re t then r else no_re r in if ct_has_tags t then r else no_tags r.
Definition messages_seen (t : ChatTables) : option (gmap string MessageRow) :=
  fmap (M:=gmap string) (message_seen t) <$> ct_messages t.
Definition messages_kept (t t' : ChatTables) : Prop :=
  kept (messages_seen t) (messages_seen t') /\ (ct_has_re t = true -> ct_has_re t' = true) /\
  (ct_has_tags t = true -> ct_has_tags t' = true) /\ ct_rooms t' = ct_rooms t /\ ct_members t' = ct_members t.

#[export] Instance messages_preorder : PreOrder messages_kept.
Proof.
  split; [intros x; by split_and!|]. intros x y z (H1 & H2 & H3 & H4 & H5) (H6 & H7 & H8 & H9 & H10).
  split_and!; [by etrans|auto|auto|congruence..].
Qed.

(** The sources likewise, with whether they accept a stream. *)
Definition source_seen (accepts : bool) (r : MediaRow) : MediaRow :=
  if accepts then r else mkMediaRow (me_command r) (me_content_type r) SNull.
Definition sources_seen {D} (d : NodeDb D) : option (gmap string MediaRow) :=
  fmap (M:=gmap string) (source_seen (sv_media_accepts (nd_surface d))) <$> nd_media d.
Definition sources_kept {D} (d d' : NodeDb D) : Prop := kept (sources_seen d) (sources_seen d').

#[export] Instance sources_preorder {D} : PreOrder (@sources_kept D).
Proof. split; [by intros x a|]. intros x y z Hxy Hyz a Ha. auto. Qed.

Lemma sources_same {D} (d d' : NodeDb D) :
  nd_media d' = nd_media d -> sv_media_accepts (nd_surface d') = sv_media_accepts (nd_surface d) -> sources_kept d d'.
Proof. intros Hm Ha. unfold sources_kept, sources_seen. by rewrite Hm, Ha. Qed.

Section props.
Context {D : Type} `{HW : !JsonText} `{HJ : !JsonPrint} `{HP : !RdfTables D}.
Implicit Types (d : NodeDb D) (conn : NConn D).
Abbreviation DM := (Eff (NConn D) NodeError).

Definition grown_auth (a a' : Db) : Prop :=
  settings_kept (db_rsntr a) (db_rsntr a') /\ kept (db_policy a) (db_policy a') /\ kept (db_decisions a) (db_decisions a') /\
  kept (db_inbox a) (db_inbox a') /\ kept (db_peers a) (db_peers a') /\ kept (db_scripts a) (db_scripts a').

Definition grown_surface (s s' : Surface) : Prop :=
  extended (sv_projection s) (sv_projection s') /\ kept (sv_modulations s) (sv_modulations s') /\ kept (sv_pages s) (sv_pages s') /\
  extended (sv_comments s) (sv_comments s') /\ kept (sv_apps s) (sv_apps s') /\ messages_kept (sv_chat s) (sv_chat s') /\
  sv_outbox s' = sv_outbox s /\ sv_results s' = sv_results s.

Definition grown d d' : Prop :=
  grown_auth (nd_auth d) (nd_auth d') /\ kept (nd_audit d) (nd_audit d') /\ kept (nd_applied d) (nd_applied d') /\
  kept (nd_knock d) (nd_knock d') /\ sources_kept d d' /\ grown_surface (nd_surface d) (nd_surface d') /\
  SparqlStoreInv.same_tables (rdf_of d) (rdf_of d').

#[export] Instance grown_auth_preorder : PreOrder grown_auth.
Proof. split; [intros x; unfold grown_auth; split_and!; reflexivity|]. intros x y z (? & ? & ? & ? & ? & ?) (? & ? & ? & ? & ? & ?). unfold grown_auth. split_and!; by etrans. Qed.
#[export] Instance grown_surface_preorder : PreOrder grown_surface.
Proof.
  split; [intros x; unfold grown_surface; split_and!; reflexivity|]. intros x y z (? & ? & ? & ? & ? & ? & ? & ?) (? & ? & ? & ? & ? & ? & ? & ?).
  unfold grown_surface. split_and!; solve [by etrans|congruence].
Qed.
#[export] Instance grown_preorder : PreOrder grown.
Proof.
  split; [intros x; unfold grown; split_and!; try reflexivity; by split|]. intros x y z (? & ? & ? & ? & ? & ? & R1 & R2) (? & ? & ? & ? & ? & ? & R3 & R4).
  unfold grown. split_and!; try (by etrans). split; congruence.
Qed.

Lemma grown_by_auth a d : grown_auth (nd_auth d) a -> grown d (set_auth a d).
Proof. intros Ha. unfold grown. cbn. split_and!; try reflexivity; try done; first [by apply sources_same|by split]. Qed.
Lemma grown_by_surface f d : sv_media_accepts (f (nd_surface d)) = sv_media_accepts (nd_surface d) ->
  grown_surface (nd_surface d) (f (nd_surface d)) -> grown d (on_surface f d).
Proof.
  intros Ha Hs. unfold grown. cbn. split_and!; try reflexivity; try done; first [by apply sources_same|by split].
Qed.

(** Code that only adds, and neither opens nor closes a transaction. *)
Definition grows_at {E A} (c : NConn D) (m : Eff (NConn D) E A) : Prop :=
  forall r c', m c = (r, c') ->
    grown (n_db c) (n_db c') /\ n_saved c' = n_saved c /\ (n_healthy c -> n_healthy c').
Definition grows {E A} (m : Eff (NConn D) E A) : Prop := forall c, grows_at c m.

Lemma grows_ret {E A} (a : A) : grows (eret (E:=E) a).
Proof. by intros c r c' [= <- <-]. Qed.
Lemma grows_throw {E A} (e : E) : grows (ethrow (A:=A) e).
Proof. by intros c r c' [= <- <-]. Qed.

Lemma grows_bind_at {E A B} c (m : Eff (NConn D) E A) (f : A -> Eff (NConn D) E B) :
  grows_at c m -> (forall a, grows (f a)) -> grows_at c (ebind f m).
Proof.
  intros Hm Hf r c'. unfold ebind. destruct (m c) as [[a|e] c1] eqn:Em; apply Hm in Em as (Hg & Hs & Hh).
  - intros (Hg' & Hs' & Hh')%Hf. split_and!; [by etrans|congruence|auto].
  - by intros [= <- <-].
Qed.

Lemma grows_bind {E A B} (m : Eff (NConn D) E A) (f : A -> Eff (NConn D) E B) : grows m -> (forall a, grows (f a)) -> grows (ebind f m).
Proof. intros Hm Hf c. by apply grows_bind_at. Qed.

Lemma grows_fold {E A B} (f : B -> A -> Eff (NConn D) E B) l : (forall b a, grows (f b a)) -> forall b, grows (efold f b l).
Proof. intros Hf. induction l as [|a l IH]; intros b; cbn [efold]; [apply grows_ret|]. by apply grows_bind. Qed.

Lemma grows_map_err_at {E F A} c (g : E -> F) (m : Eff (NConn D) E A) : grows_at c m -> grows_at c (emap_err g m).
Proof. intros Hm r c'. unfold emap_err. destruct (m c) as [[a|e] c1] eqn:E1; apply Hm in E1; by intros [= <- <-]. Qed.
Lemma grows_map_err {E F A} (g : E -> F) (m : Eff (NConn D) E A) : grows m -> grows (emap_err g m).
Proof. intros Hm c. by apply grows_map_err_at. Qed.

(** A statement that adds to the database it finds. *)
Lemma grows_nsql_at {A} c (f : NodeDb D -> result SqlError (A * NodeDb D)) :
  (forall a d', f (n_db c) = Ok (a, d') -> grown (n_db c) d') -> grows_at c (nsql f).
Proof.
  intros Hf r c' E. apply nsql_cases in E as [(e & -> & (Hd & Hs & Hh) & _)|(a & d & -> & Hd & <- & Hs & Hh)].
  - by rewrite Hd.
  - apply Hf in Hd. done.
Qed.
Lemma grows_nsql {A} (f : NodeDb D -> result SqlError (A * NodeDb D)) :
  (forall d a d', f d = Ok (a, d') -> grown d d') -> grows (nsql f).
Proof. intros Hf c. apply grows_nsql_at. intros a d'. apply Hf. Qed.

Lemma grows_nquery {A} (f : NodeDb D -> result SqlError A) : grows (nquery f).
Proof. apply grows_nsql. intros d a d'. unfold rmap. destruct (f d); [|done]. by intros [= _ <-]. Qed.

Lemma grows_run {A} (f : NodeDb D -> result SqlError (A * NodeDb D)) :
  (forall d a d', f d = Ok (a, d') -> grown d d') -> grows (run_sql f).
Proof. intros Hf. by apply grows_map_err, grows_nsql. Qed.

Lemma grows_ask {A} (f : NodeDb D -> result SqlError A) : grows (ask_sql f).
Proof. apply grows_map_err, grows_nquery. Qed.

(** After a query, the rest may rely on what it read. *)
Lemma grows_queried {A B} (f : NodeDb D -> result SqlError A) (k : A -> Eff (NConn D) SqlError B) :
  (forall c a, f (n_db c) = Ok a -> grows_at c (k a)) -> grows (ebind k (nquery f)).
Proof.
  intros Hk c r c'. unfold ebind. destruct (nquery f c) as [[a|e] c1] eqn:E; apply nquery_cases in E as ((Hd & Hs & Hh) & _ & Hf).
  - intros Hr. apply Hk in Hr as (Hg & Hs' & Hh'); [|rewrite Hd; by apply Hf]. rewrite Hd, Hs in *. auto.
  - intros [= <- <-]. by rewrite Hd.
Qed.

Lemma grows_asked_sql {A B} (f : NodeDb D -> result SqlError A) (k : A -> DM B) :
  (forall c a, f (n_db c) = Ok a -> grows_at c (k a)) -> grows (ebind k (ask_sql f)).
Proof.
  intros Hk c r c'. unfold ebind, ask_sql, emap_err. destruct (nquery f c) as [[a|e] c1] eqn:E; apply nquery_cases in E as ((Hd & Hs & Hh) & _ & Hf).
  - intros Hr. apply Hk in Hr as (Hg & Hs' & Hh'); [|rewrite Hd; by apply Hf]. rewrite Hd, Hs in *. auto.
  - intros [= <- <-]. by rewrite Hd.
Qed.

Lemma get_rsntr_cases key conn v conn' : get_rsntr key conn = (v, conn') ->
  quiet conn conn' /\ forall s, v = Some s -> get_rsntr_row key (n_db conn) = Ok s.
Proof.
  unfold get_rsntr. destruct (nquery _ conn) as [[x|e] c1] eqn:E; apply nquery_cases in E as (Hq & _ & Hok); intros [= <- <-]; (split; [done|]).
  - intros s [= <-]. by apply Hok.
  - done.
Qed.
Lemma get_rsntr_quiet key conn v conn' : get_rsntr key conn = (v, conn') -> quiet conn conn'.
Proof. by intros [H _]%get_rsntr_cases. Qed.

Lemma grows_ask_rsntr key : grows (ask_rsntr key).
Proof. intros c r c'. unfold ask_rsntr, etotal. destruct (get_rsntr key c) as [v c1] eqn:E. intros [= <- <-]. apply get_rsntr_quiet in E as (-> & -> & Hh). done. Qed.

Lemma rsntr_row_text key d s : get_rsntr_row key d = Ok s -> exists t, db_rsntr (nd_auth d) = Some t /\ t !! key = Some (SText s).
Proof.
  unfold get_rsntr_row, nneed. destruct (db_rsntr (nd_auth d)) as [t|]; [|done]. cbn.
  destruct (t !! key) as [[| |]|] eqn:Ek; cbn; try done. intros [= ->]. by exists t.
Qed.

Lemma grows_asked {A} key (k : option string -> DM A) :
  (forall c v, (forall s, v = Some s -> get_rsntr_row key (n_db c) = Ok s) -> grows_at c (k v)) -> grows (ebind k (ask_rsntr key)).
Proof.
  intros Hk c r c'. unfold ebind, ask_rsntr, etotal. destruct (get_rsntr key c) as [v c1] eqn:E.
  apply get_rsntr_cases in E as ((Hd & Hs & Hh) & Hv). intros Hr. rewrite <-Hd in Hv. apply (Hk c1 v Hv) in Hr as (Hg & Hs' & Hh').
  rewrite Hd, Hs in *. auto.
Qed.

(** Code that only reads. *)
Definition reads {E A} (m : Eff (NConn D) E A) : Prop := forall c r c', m c = (r, c') -> quiet c c'.

Lemma grows_reads {E A} (m : Eff (NConn D) E A) : reads m -> grows m.
Proof. intros Hm c r c' (Hd & Hs & Hh)%Hm. by rewrite Hd. Qed.

Lemma reads_ret {E A} (a : A) : reads (eret (E:=E) a).
Proof. by intros c r c' [= <- <-]. Qed.
Lemma reads_throw {E A} (e : E) : reads (ethrow (A:=A) e).
Proof. by intros c r c' [= <- <-]. Qed.
Lemma reads_then {E A B} (m : Eff (NConn D) E A) (f : A -> Eff (NConn D) E B) : reads m -> (forall a, reads (f a)) -> reads (ebind f m).
Proof.
  intros Hm Hf c r c'. unfold ebind. destruct (m c) as [[a|e] c1] eqn:Em; apply Hm in Em; [intros Hr%Hf; by etrans|by intros [= <- <-]].
Qed.

Lemma reads_exists : reads rsntr_table_exists.
Proof. intros c r c'. unfold rsntr_table_exists. destruct (nquery _ c) as [[x|e] c1] eqn:E; intros [= <- <-]; by apply nquery_cases in E as (Hq & _). Qed.
Lemma reads_number key : reads (rsntr_i64 key).
Proof.
  apply reads_then; [|intros v; apply reads_ret]. intros c r c'. unfold ask_rsntr, etotal. destruct (get_rsntr key c) as [v c1] eqn:E.
  intros [= <- <-]. by apply get_rsntr_quiet in E.
Qed.
Lemma grows_number key : grows (rsntr_i64 key).
Proof. apply grows_reads, reads_number. Qed.

Lemma reads_compat : reads check_schema_compat.
Proof.
  apply reads_then; [apply reads_exists|intros b]. destruct (negb b); [apply reads_ret|].
  apply reads_then; [apply reads_number|intros [required|]]; [|apply reads_ret]. destruct (_ <? _); [apply reads_throw|apply reads_ret].
Qed.

Lemma reads_current : reads schema_is_current.
Proof.
  apply reads_then; [apply reads_exists|intros b]. destruct (negb b); [apply reads_ret|].
  apply reads_then; [apply reads_number|intros v; apply reads_ret].
Qed.

Lemma grows_set_at c key value :
  (forall t, db_rsntr (nd_auth (n_db c)) = Some t -> setting_kept key (t !! key) (Some (SText value))) -> grows_at c (set_rsntr key value).
Proof.
  intros Hk. apply grows_map_err_at, grows_nsql_at. intros [] d'. unfold upsert_rsntr.
  destruct (db_rsntr (nd_auth (n_db c))) as [t|] eqn:Et; [|done]. intros [= <-].
  apply grown_by_auth. unfold grown_auth. cbn. split_and!; try reflexivity. rewrite Et. intros t0 [= <-]. eexists. split; [done|].
  intros key'. destruct (base.decide (key' = key)) as [->|Hne]; [rewrite lookup_insert_eq; auto|by rewrite lookup_insert_ne].
Qed.

Lemma grows_stamped key value : stamp_of key = Some value -> bool_decide (key = "modulations") || bool_decide (key = "auth_chain") = false ->
  grows (set_rsntr key value).
Proof.
  intros Hv Hk c. apply grows_set_at. intros t _. unfold setting_kept. apply orb_false_iff in Hk as [-> ->]. rewrite Hv. by right.
Qed.

Lemma grows_create f : (forall d, grown d (f d)) -> grows (create f).
Proof. intros Hf. apply grows_run. intros d a d' [= _ <-]. apply Hf. Qed.

Lemma DDL_grows : Forall (fun f => forall d, grown d (f d)) DDL.
Proof.
  assert (Hmedia : forall d, grown d (create_media d)).
  { intros d. unfold create_media. destruct (nd_media d) as [t|] eqn:Et; [done|]. unfold grown. cbn.
    split_and!; try reflexivity; try (by split). unfold sources_kept, sources_seen. by rewrite Et. }
  unfold DDL. repeat (apply Forall_cons; split); [..|by apply Forall_nil]; intros d.
  all: first [apply Hmedia|apply grown_by_auth; unfold grown_auth; cbn; split_and!; try reflexivity; apply kept_default
             |apply grown_by_auth; unfold grown_auth; cbn; split_and!; try reflexivity; intros t ->; by exists t
             |apply grown_by_surface; [done|]; unfold grown_surface; cbn; split_and!; try reflexivity; apply kept_default
             |apply grown_by_surface; [done|]; unfold grown_surface; cbn; split_and!; try reflexivity; intros t ->; by exists t
             |unfold grown; cbn; split_and!; try reflexivity; first [apply kept_default|by apply sources_same|by split]].
Qed.

(** ** Every step adds *)

Lemma grows_when {E} (b : bool) (m m' : Eff (NConn D) E unit) : grows m -> grows m' -> grows (if b then m else m').
Proof. by destruct b. Qed.

Lemma grows_media_column : grows ensure_media_accepts_column.
Proof.
  apply grows_asked_sql. intros c has [= Hhas]. destruct has; [apply grows_ret|].
  apply grows_map_err_at, grows_nsql_at. intros a d'. destruct (nd_media (n_db c)) as [t|] eqn:Et; [|done]. intros [= _ <-]. unfold grown. cbn.
  split_and!; try reflexivity; try (by split). unfold sources_kept, sources_seen. cbn. rewrite Et, Hhas. intros t0 [= <-]. cbn. f_equal.
  apply map_eq. intros i. rewrite !lookup_fmap. by destruct (t !! i).
Qed.

Lemma grown_chat f d : messages_kept (sv_chat (nd_surface d)) (f (sv_chat (nd_surface d))) -> grown d (on_chat f d).
Proof. intros Hm. apply grown_by_surface; [done|]. unfold grown_surface. cbn. by split_and!. Qed.

(** Columns are added to a table that lacks them. *)
Lemma seen_again (t : option (gmap string MessageRow)) (f g h : MessageRow -> MessageRow) : (forall r, g (f r) = h r) ->
  kept (fmap (M:=gmap string) h <$> t) (fmap (M:=gmap string) g <$> ((fun m : gmap string MessageRow => f <$> m) <$> t)).
Proof.
  intros Hf. destruct t as [t|]; [|done]. intros t0 [= <-]. cbn. f_equal. apply map_eq. intros i. rewrite !lookup_fmap.
  destruct (t !! i); [|done]. cbn. by rewrite Hf.
Qed.
Lemma add_re_kept t : ct_has_re t = false -> messages_kept t (add_re t).
Proof.
  intros Hre. split_and!; try done. apply seen_again. intros r. unfold message_seen. rewrite Hre. cbn. by destruct (ct_has_tags t).
Qed.
Lemma add_tags_kept t : ct_has_tags t = false -> messages_kept t (add_tags t).
Proof.
  intros Ht. split_and!; try done. apply seen_again. intros r. unfold message_seen. rewrite Ht. cbn. by destruct (ct_has_re t).
Qed.

Lemma grows_chat_columns : grows ensure_chat_columns.
Proof.
  assert (Halter : forall f c, messages_kept (sv_chat (nd_surface (n_db c))) (f (sv_chat (nd_surface (n_db c)))) ->
            grows_at c (nsql (fun d => Ok (tt, on_chat f d)))).
  { intros f c Hf. apply grows_nsql_at. intros a d' [= _ <-]. by apply grown_chat. }
  unfold ensure_chat_columns. apply grows_bind; [apply grows_nquery|intros b]. apply grows_when; [apply grows_ret|].
  apply grows_queried. intros c has [= Hhas]. apply grows_bind_at; [destruct has; [apply grows_ret|by apply Halter, add_re_kept]|intros _].
  apply grows_queried. intros c1 has' [= Hhas']. apply grows_bind_at; [destruct has'; [apply grows_ret|by apply Halter, add_tags_kept]|intros _].
  apply grows_bind; [apply grows_nquery|intros _]. intros c2. apply Halter. by split_and!.
Qed.

Lemma grows_modulation name : name ∈ LATER_MODS -> grows (migrate_modulation name).
Proof.
  intros Hn. assert (Hk : stamp_of ("migrated_mod_" +:+ name) = Some "1" /\
    bool_decide ("migrated_mod_" +:+ name = "modulations") || bool_decide ("migrated_mod_" +:+ name = "auth_chain") = false).
  { repeat (apply elem_of_cons in Hn as [->|Hn]; [by vm_compute|]). by apply elem_of_nil in Hn. }
  destruct Hk as [Hk Hne]. apply grows_bind; [apply grows_ask_rsntr|intros done_]. destruct done_; [apply grows_ret|].
  apply grows_asked. intros c raw Hraw. destruct raw as [raw|]; [|apply grows_ret]. cbn. destruct (json_strings raw) as [mods|] eqn:Ej; [|apply grows_ret].
  apply grows_bind_at; [|intros _; by apply grows_stamped]. destruct (existsb _ mods) eqn:Ex; [apply grows_ret|]. apply grows_set_at.
  intros t Ht. destruct (rsntr_row_text _ _ _ (Hraw raw eq_refl)) as (t' & Ht' & Hm). rewrite Ht in Ht'. injection Ht' as <-.
  rewrite Hm. unfold setting_kept. rewrite bool_decide_true by done. apply rtc_once. exists raw, mods, name. split_and!; try done.
  intros Hin. assert (existsb (fun m => bool_decide (m = name)) mods = true); [|congruence]. apply existsb_exists. exists name.
  split; [by apply list_elem_of_In|by apply bool_decide_eq_true].
Qed.

Lemma grows_auth_chain : grows migrate_auth_chain_human.
Proof.
  apply grows_bind; [apply grows_ask_rsntr|intros done_]. destruct done_; [apply grows_ret|].
  apply grows_asked. intros c old Hold. apply grows_bind_at; [|intros _; by apply grows_stamped]. case_bool_decide as Ho; [|apply grows_ret].
  apply grows_set_at. intros t Ht. destruct (rsntr_row_text _ _ _ (Hold _ Ho)) as (t' & Ht' & Hm). rewrite Ht in Ht'. injection Ht' as <-.
  rewrite Hm. by right.
Qed.

Lemma extended_insert {A} (t : gmap string A) key a : t !! key = None -> extended (Some t) (Some (<[key := a]> t)).
Proof. intros Hk t0 [= <-]. eexists. split; [done|]. by apply insert_subseteq. Qed.

Lemma grows_inbox_point : grows seed_inbox_point.
Proof.
  apply grows_run. intros d a d'. destruct (sv_projection (nd_surface d)) as [t|] eqn:Et; [|done]. cbn.
  destruct (t !! INBOX_POINT) eqn:Ep; intros [= _ <-]; [done|]. apply grown_by_surface; [done|]. unfold grown_surface. cbn. rewrite Et.
  split_and!; try reflexivity. by apply extended_insert.
Qed.

Lemma grows_comments : grows seed_table_comments.
Proof.
  apply grows_bind; [apply grows_ask|intros _]. apply grows_fold. intros [] entry c r c'. revert c r c'.
  assert (forall now, grows (run_sql (fun d => let? t := nneed "_comments" (sv_comments (nd_surface d)) in
            Ok (tt, match t !! fst entry with
                    | Some _ => d
                    | None => on_surface (set_comments (<[fst entry := mkCommentRow (SText (snd entry)) (SText now)]> t)) d
                    end)))) as Hone.
  { intros now. apply grows_run. intros d a d'. destruct (sv_comments (nd_surface d)) as [t|] eqn:Et; [|done]. cbn.
    destruct (t !! fst entry) eqn:Ep; intros [= _ <-]; [done|]. apply grown_by_surface; [done|]. unfold grown_surface. cbn. rewrite Et.
    split_and!; try reflexivity. by apply extended_insert. }
  intros c r c' E. by apply (Hone (sql_now c) c r c').
Qed.

(** The tables of the authenticator. *)
Lemma auth_tables_grow c r c' : AuthTypes.ensure_auth_tables c = (r, c') -> grown_auth (db c) (db c').
Proof.
  assert (Hexec : forall f : Db -> result string Db, (forall a a', f a = Ok a' -> grown_auth a a') ->
            forall c r c', execute f c = (r, c') -> grown_auth (db c) (db c')).
  { clear. intros f Hf c r c'. unfold execute, sql, rmap. destruct (faults c) as [|[e|] fs]; cbn.
    - destruct (f (db c)) as [d|] eqn:E; intros [= <- <-]; cbn; [by apply Hf|done].
    - by intros [= <- <-].
    - destruct (f (db c)) as [d|] eqn:E; intros [= <- <-]; cbn; [by apply Hf|done]. }
  assert (Hone : forall step, step ∈ [ensure_policy_table; ensure_scripts_table; ensure_decisions_table] ->
            forall c r c', step c = (r, c') -> grown_auth (db c) (db c')).
  { intros step Hin. repeat (apply elem_of_cons in Hin as [->|Hin]); [..|by apply elem_of_nil in Hin];
      apply Hexec; intros a a' [= <-]; unfold grown_auth; cbn; split_and!; try reflexivity; apply kept_default. }
  unfold AuthTypes.ensure_auth_tables, AuthTypes.mbind.
  destruct (ensure_policy_table c) as [[a|e] c1] eqn:E1; (apply Hone in E1; [|set_solver]); [|by intros [= <- <-]].
  destruct (ensure_scripts_table c1) as [[a2|e] c2] eqn:E2; (apply Hone in E2; [|set_solver]); [|intros [= <- <-]; by etrans].
  intros E3. apply Hone in E3; [|set_solver]. etrans; [exact E1|]. by etrans.
Qed.

Lemma grows_auth_tables : grows ensure_auth_tables.
Proof.
  apply grows_map_err. intros c r c' E. apply on_auth_cases in E as (_ & Hd & Hs & Hh). rewrite Hd. split; [|done].
  apply grown_by_auth. destruct (AuthTypes.ensure_auth_tables (auth_conn c)) as [x c1] eqn:E1. by apply auth_tables_grow in E1.
Qed.

Context `{HL : !RdfTablesLaws D}.

Lemma grows_schema : grows ensure_schema.
Proof.
  apply grows_map_err. intros c r c' (c1 & Hm & Hd & Hs & Hh)%on_rdf_cases. split; [|done]. rewrite Hd.
  pose proof (SparqlStoreInv.ensure_schema_same (rdf_of (n_db c)) (rdf_conn c)) as Hk. rewrite Hm in Hk.
  unfold grown. cbn. split_and!; try reflexivity; [by apply sources_same|]. unfold rdf_of. cbn. rewrite rdf_get_put.
  destruct r; apply Hk; by split.
Qed.

Lemma grows_node_tables : grows ensure_node_tables.
Proof.
  unfold ensure_node_tables. apply grows_bind; [|intros _; apply grows_bind; [apply grows_media_column|intros _]].
  - assert (forall l, Forall (fun f => forall d, grown d (f d)) l -> grows (efold (fun (_ : unit) f => create f) tt l)) as Hl; [|apply Hl, DDL_grows].
    induction 1 as [|f l Hf _ IH]; cbn [efold]; [apply grows_ret|]. apply grows_bind; [by apply grows_create|by intros []].
  - apply grows_bind; [apply grows_map_err, grows_chat_columns|intros _].
    do 4 (apply grows_bind; [apply grows_modulation; set_solver|intros _]).
    apply grows_bind; [apply grows_auth_chain|intros _]. apply grows_bind; [apply grows_inbox_point|intros _].
    apply grows_bind; [apply grows_auth_tables|intros _]. apply grows_bind; [apply grows_schema|intros _]. apply grows_comments.
Qed.

Lemma grows_stamp : grows stamp_schema_version.
Proof.
  assert (Hone : forall key mine, stamp_of key = Some (int_to_string mine) ->
            bool_decide (key = "modulations") || bool_decide (key = "auth_chain") = false -> grows (stamp_one tt (key, mine))).
  { intros key mine Hk Hne. apply grows_bind; [apply grows_number|intros stored]. apply grows_when; [by apply grows_stamped|apply grows_ret]. }
  unfold stamp_schema_version. cbn [efold]. apply grows_bind; [by apply Hone|intros []]. apply grows_bind; [by apply Hone|intros []].
  apply grows_ret.
Qed.

(** ** What is there afterwards *)

(** A step that succeeds leaves a database in [P]. *)
Definition leaves_ {E A} (m : Eff (NConn D) E A) (P : NodeDb D -> Prop) : Prop := forall c a c', m c = (Ok a, c') -> P (n_db c').

(** What more tables do not undo. *)
Definition lasting (P : NodeDb D -> Prop) : Prop := forall d d', P d -> grown d d' -> P d'.

Lemma leaves_bind {E A B} (m : Eff (NConn D) E A) (f : A -> Eff (NConn D) E B) P :
  (forall a, leaves_ (f a) P) -> leaves_ (ebind f m) P.
Proof. intros Hf c b c'. unfold ebind. destruct (m c) as [[a|e] c1]; [|done]. apply Hf. Qed.

Lemma leaves_then {E A B} (m : Eff (NConn D) E A) (f : A -> Eff (NConn D) E B) P :
  leaves_ m P -> lasting P -> (forall a, grows (f a)) -> leaves_ (ebind f m) P.
Proof.
  intros Hm Hlast Hf c b c'. unfold ebind. destruct (m c) as [[a|e] c1] eqn:Em; [|done]. intros Hr. apply Hf in Hr as [Hg _].
  eapply Hlast; [by eapply Hm|done].
Qed.

Lemma leaves_map_err {E F A} (g : E -> F) (m : Eff (NConn D) E A) P : leaves_ m P -> leaves_ (emap_err g m) P.
Proof. intros Hm c a c'. unfold emap_err. destruct (m c) as [[b|e] c1] eqn:Em; [|done]. intros [= <- <-]. by eapply Hm. Qed.

(** The tables of [DDL]. *)
Definition has_tables d : Prop :=
  is_Some (db_peers (nd_auth d)) /\ is_Some (db_rsntr (nd_auth d)) /\ is_Some (nd_audit d) /\ is_Some (nd_applied d) /\
  is_Some (db_inbox (nd_auth d)) /\ is_Some (nd_knock d) /\ is_Some (nd_media d) /\ is_Some (sv_projection (nd_surface d)) /\
  is_Some (sv_modulations (nd_surface d)) /\ is_Some (sv_pages (nd_surface d)) /\ is_Some (sv_comments (nd_surface d)) /\
  is_Some (sv_apps (nd_surface d)).

Definition has_auth_tables d : Prop :=
  is_Some (db_policy (nd_auth d)) /\ is_Some (db_scripts (nd_auth d)) /\ is_Some (db_decisions (nd_auth d)).

Lemma kept_some {A} (t t' : option A) : kept t t' -> is_Some t -> is_Some t'.
Proof. intros Hk [a Ha]. exists a. auto. Qed.
Lemma extended_some {A} (t t' : option (gmap string A)) : extended t t' -> is_Some t -> is_Some t'.
Proof. intros Hk [a Ha]. destruct (Hk a Ha) as (a' & -> & _). done. Qed.

Lemma has_tables_lasting : lasting has_tables.
Proof.
  intros d d' (H1 & H2 & H3 & H4 & H5 & H6 & H7 & H8 & H9 & H10 & H11 & H12)
    ((Gr & _ & _ & Gi & Gp & _) & Ga & Gl & Gk & Gm & (Sp & Smo & Spa & Sc & Sa & _) & _). unfold has_tables.
  split_and!; try (by eapply kept_some); try (by eapply extended_some).
  - destruct H2 as [t Ht]. destruct (Gr t Ht) as (t' & -> & _). done.
  - destruct H7 as [t Ht]. unfold sources_kept, sources_seen in Gm. rewrite Ht in Gm. specialize (Gm _ eq_refl). by destruct (nd_media d').
Qed.

Lemma has_auth_lasting : lasting has_auth_tables.
Proof. intros d d' (H1 & H2 & H3) ((_ & Gp & Gd & _ & _ & Gs) & _). split_and!; by eapply kept_some. Qed.

Lemma DDL_leaves : leaves_ (efold (fun (_ : unit) f => create f) tt DDL) has_tables.
Proof.
  assert (Hrun : forall l c a c', efold (fun (_ : unit) f => create f) tt l c = (Ok a, c') -> n_db c' = foldl (fun d f => f d) (n_db c) l).
  { induction l as [|f l IH]; intros c a c'; cbn [efold foldl]; [by intros [= _ <-]|].
    unfold ebind, create at 1, run_sql, emap_err. destruct (nsql _ c) as [[[]|e] c1] eqn:E; [|done].
    apply nsql_cases in E as [(e & ? & _)|(a1 & d & _ & [= _ Hd] & Hd1 & _)]; [done|]. intros Hr. apply IH in Hr. by rewrite Hr, Hd1, Hd. }
  intros c a c' ->%Hrun. unfold DDL. cbn [foldl]. set (d := create_knock_budget _).
  assert (is_Some (nd_media (create_media d)) /\ nd_auth (create_media d) = nd_auth d /\ nd_audit (create_media d) = nd_audit d /\
          nd_applied (create_media d) = nd_applied d /\ nd_knock (create_media d) = nd_knock d) as (Hm & Ha & Hau & Hap & Hk).
  { unfold create_media. destruct (nd_media d) eqn:E; cbn; rewrite ?E; split_and!; done. }
  unfold has_tables. cbn. rewrite Ha, Hau, Hap, Hk. unfold d. cbn. by split_and!.
Qed.

Lemma auth_tables_leave : leaves_ ensure_auth_tables has_auth_tables.
Proof.
  apply leaves_map_err. intros c a c' (Ha & Hd & _)%on_auth_cases. unfold has_auth_tables. rewrite Hd. cbn.
  destruct (AuthTypes.ensure_auth_tables (auth_conn c)) as [r c1] eqn:E. cbn in *. subst r. revert E.
  unfold AuthTypes.ensure_auth_tables, AuthTypes.mbind.
  assert (Hexec : forall (f : Db -> Db) c r c', execute (fun a => Ok (f a)) c = (Ok r, c') -> db c' = f (db c)).
  { clear. intros f c r c'. unfold execute, sql. destruct (faults c) as [|[e|] fs]; cbn; intros [= <- <-]; done. }
  destruct (ensure_policy_table (auth_conn c)) as [[a1|e] c2] eqn:E1; [|done]. apply Hexec in E1.
  destruct (ensure_scripts_table c2) as [[a2|e] c3] eqn:E2; [|done]. apply Hexec in E2.
  intros E3. apply Hexec in E3. rewrite E3, E2, E1. cbn. by split_and!.
Qed.

(** The version stored, as the migration reads it. *)
Definition stored_number (key : string) d : option Z :=
  rsntr_number (match get_rsntr_row key d with Ok v => Some v | Err _ => None end).

Lemma node_tables_leave : leaves_ ensure_node_tables (fun d => has_tables d /\ has_auth_tables d).
Proof.
  assert (leaves_ ensure_node_tables has_tables) as Ht.
  { unfold ensure_node_tables. apply leaves_then; [apply DDL_leaves|apply has_tables_lasting|intros _].
    apply grows_bind; [apply grows_media_column|intros _]. apply grows_bind; [apply grows_map_err, grows_chat_columns|intros _].
    do 4 (apply grows_bind; [apply grows_modulation; set_solver|intros _]).
    apply grows_bind; [apply grows_auth_chain|intros _]. apply grows_bind; [apply grows_inbox_point|intros _].
    apply grows_bind; [apply grows_auth_tables|intros _]. apply grows_bind; [apply grows_schema|intros _]. apply grows_comments. }
  assert (leaves_ ensure_node_tables has_auth_tables) as Ha.
  { unfold ensure_node_tables. do 9 (apply leaves_bind; intros _).
    apply leaves_then; [apply auth_tables_leave|apply has_auth_lasting|intros _].
    apply grows_bind; [apply grows_schema|intros _]. apply grows_comments. }
  intros c a c' Hr. split; [by eapply Ht|by eapply Ha].
Qed.

(** ** The versions *)

Implicit Types (c : NConn D).

Lemma exists_healthy c : n_healthy c -> exists c', quiet c c' /\
  rsntr_table_exists c = (Ok (bool_decide (is_Some (db_rsntr (nd_auth (n_db c))))), c').
Proof.
  intros Hc. unfold rsntr_table_exists. destruct (nquery _ c) as [r c1] eqn:E. apply nquery_cases in E as (Hq & Hr & _).
  rewrite (Hr Hc). by exists c1.
Qed.

Lemma number_healthy key c : n_healthy c -> exists c', quiet c c' /\ rsntr_i64 key c = (Ok (stored_number key (n_db c)), c').
Proof.
  intros Hc. unfold rsntr_i64, ask_rsntr, ebind, etotal, get_rsntr, stored_number.
  destruct (nquery _ c) as [r c1] eqn:E. apply nquery_cases in E as (Hq & Hr & _). rewrite (Hr Hc). exists c1. split; [done|].
  by destruct (get_rsntr_row key (n_db c)).
Qed.

(** What the first check says. *)
Definition too_new d : option Z :=
  match stored_number MIN_READER_VERSION_KEY d with
  | Some required => if bool_decide (is_Some (db_rsntr (nd_auth d))) && (SCHEMA_VERSION <? required) then Some required else None
  | None => None
  end.

Lemma compat_healthy c : n_healthy c -> exists c', quiet c c' /\ check_schema_compat c =
  (match too_new (n_db c) with Some required => Err (NSchemaTooNew required SCHEMA_VERSION) | None => Ok tt end, c').
Proof.
  intros Hc. unfold check_schema_compat, too_new, ebind. destruct (exists_healthy c Hc) as (c1 & Hq1 & ->).
  destruct (bool_decide _); cbn [negb andb]; [|exists c1; split; [done|by destruct (stored_number _ _)]].
  destruct Hq1 as (Hd1 & Hs1 & Hh1). destruct (number_healthy MIN_READER_VERSION_KEY c1 (Hh1 Hc)) as (c2 & Hq2 & ->).
  rewrite Hd1 in *. exists c2. split; [etrans; [|exact Hq2]; by split_and!|].
  destruct (stored_number _ _); [|done]. by destruct (SCHEMA_VERSION <? _).
Qed.

Definition is_current d : bool :=
  bool_decide (is_Some (db_rsntr (nd_auth d))) && bool_decide (stored_number SCHEMA_VERSION_KEY d = Some SCHEMA_VERSION).

Lemma current_healthy c : n_healthy c -> exists c', quiet c c' /\ schema_is_current c = (Ok (is_current (n_db c)), c').
Proof.
  intros Hc. unfold schema_is_current, is_current, ebind. destruct (exists_healthy c Hc) as (c1 & Hq1 & ->).
  destruct (bool_decide _); cbn [negb andb]; [|by exists c1].
  destruct Hq1 as (Hd1 & Hs1 & Hh1). destruct (number_healthy SCHEMA_VERSION_KEY c1 (Hh1 Hc)) as (c2 & Hq2 & ->).
  rewrite Hd1 in *. exists c2. split; [etrans; [|exact Hq2]; by split_and!|done].
Qed.

Lemma stored_set key n d t : db_rsntr (nd_auth d) = Some t -> is_i64 n = true ->
  (forall key', stored_number key' (set_rsntr_table (<[key := SText (int_to_string n)]> t) d) =
     if bool_decide (key' = key) then Some n else stored_number key' d).
Proof.
  intros Ht Hn key'. unfold stored_number, get_rsntr_row. cbn. rewrite Ht. cbn. case_bool_decide as Hk.
  - subst key'. rewrite lookup_insert_eq. cbn. rewrite trim_graphic by apply int_to_string_graphic. by rewrite parse_i64_to_string.
  - by rewrite lookup_insert_ne.
Qed.

Lemma stamp_one_healthy key mine c t : n_healthy c -> db_rsntr (nd_auth (n_db c)) = Some t -> is_i64 mine = true ->
  exists c', stamp_one tt (key, mine) c = (Ok tt, c') /\ n_healthy c' /\ is_Some (db_rsntr (nd_auth (n_db c'))) /\
    forall key', stored_number key' (n_db c') =
      if bool_decide (key' = key) then Some (match stored_number key (n_db c) with Some n => Z.max n mine | None => mine end)
      else stored_number key' (n_db c).
Proof.
  intros Hc Ht Hm. unfold stamp_one, ebind. destruct (number_healthy key c Hc) as (c1 & (Hd1 & _ & Hh1) & ->).
  set (write := match stored_number key (n_db c) with Some n => n <? mine | None => true end).
  assert (match stored_number key (n_db c) with Some n => Z.max n mine | None => mine end =
          if write then mine else default mine (stored_number key (n_db c))) as ->.
  { unfold write. destruct (stored_number _ _) as [n|]; [|done]. cbn. destruct (Z.ltb_spec n mine); lia. }
  destruct write eqn:Ew; unfold write in Ew; rewrite ?Ew.
  - unfold set_rsntr, run_sql, emap_err. destruct (nsql _ c1) as [r c2] eqn:E.
    apply nsql_cases in E as [(e & -> & _ & Hf)|(a & d & -> & Hf & Hd2 & _ & Hh2)].
    { specialize (Hf (Hh1 Hc)). unfold upsert_rsntr in Hf. by rewrite Hd1, Ht in Hf. }
    unfold upsert_rsntr in Hf. rewrite Hd1, Ht in Hf. injection Hf as <- <-. exists c2. rewrite Hd2. split_and!; [done|auto|done|].
    intros key'. by rewrite (stored_set key mine (n_db c) t Ht Hm key').
  - exists c1. rewrite Hd1, Ht. split_and!; [done|auto|done|]. intros key'. case_bool_decide; [|done]. subst.
    by destruct (stored_number key (n_db c)).
Qed.

Lemma stamp_healthy c : n_healthy c -> is_Some (db_rsntr (nd_auth (n_db c))) ->
  exists c', stamp_schema_version c = (Ok tt, c') /\ n_healthy c' /\ is_Some (db_rsntr (nd_auth (n_db c'))) /\
    stored_number SCHEMA_VERSION_KEY (n_db c') =
      Some (match stored_number SCHEMA_VERSION_KEY (n_db c) with Some n => Z.max n SCHEMA_VERSION | None => SCHEMA_VERSION end).
Proof.
  intros Hc [t Ht]. unfold stamp_schema_version. cbn [efold]. unfold ebind.
  destruct (stamp_one_healthy SCHEMA_VERSION_KEY SCHEMA_VERSION c t Hc Ht eq_refl) as (c1 & -> & Hc1 & [t1 Ht1] & Hn1).
  destruct (stamp_one_healthy MIN_READER_VERSION_KEY MIN_READER_VERSION c1 t1 Hc1 Ht1 eq_refl) as (c2 & -> & Hc2 & Hs2 & Hn2).
  exists c2. split_and!; [done..|]. rewrite Hn2, bool_decide_false by done. by rewrite Hn1, bool_decide_true by done.
Qed.

(** ** The migration *)

(** What a migration that succeeds leaves behind. *)
Definition migrated d d' : Prop :=
  (d' = d /\ is_current d = true) \/
  (has_tables d' /\ has_auth_tables d' /\ exists v, stored_number SCHEMA_VERSION_KEY d' = Some v /\ SCHEMA_VERSION <= v).

Lemma migrate_locked_cases d0 c r c' : n_saved c = Some d0 -> n_db c = d0 -> migrate_locked c = (r, c') ->
  match r with
  | Ok _ => n_saved c' = None /\ grown d0 (n_db c') /\ (n_healthy c -> migrated d0 (n_db c'))
  | Err _ => n_saved c' = Some d0
  end.
Proof.
  assert (Hstep : forall b : bool, grows (if b then eret tt else let* _ := ensure_node_tables in stamp_schema_version)).
  { intros b. apply grows_when; [apply grows_ret|]. apply grows_bind; [apply grows_node_tables|intros _; apply grows_stamp]. }
  intros Hs Hd. unfold migrate_locked, ebind at 1. destruct (check_schema_compat c) as [[[]|e] c1] eqn:E1;
    (assert (Q1 := E1); apply reads_compat in Q1 as (D1 & S1 & H1)); [|intros [= <- <-]; by rewrite S1].
  unfold ebind at 1. destruct (schema_is_current c1) as [[current|e] c2] eqn:E2;
    (assert (Q2 := E2); apply reads_current in Q2 as (D2 & S2 & H2)); [|intros [= <- <-]; by rewrite S2, S1].
  unfold ebind at 1. specialize (Hstep current).
  set (step := if current then eret tt else let* _ := ensure_node_tables in stamp_schema_version) in *.
  destruct (step c2) as [[u|e] c3] eqn:E3;
    (assert (Q3 := E3); apply Hstep in Q3 as (G3 & S3 & H3)); [|intros [= <- <-]; by rewrite S3, S2, S1].
  unfold emap_err. destruct (commit c3) as [[x|e] c4] eqn:E4; (eapply commit_cases in E4 as (Hd4 & Hh4 & Hs4); [|by rewrite S3, S2, S1]);
    intros [= <- <-]; [|done]. rewrite D2, D1, Hd in G3. split_and!; [done|by rewrite Hd4|].
  intros Hc. rewrite Hd4. unfold step in E3. clear step Hstep. destruct (current_healthy c1 (H1 Hc)) as (c2' & _ & E2'). rewrite E2 in E2'. injection E2' as -> <-. rewrite D1, Hd in *.
  unfold migrated. destruct (is_current d0) eqn:Ec; [left; change ((Ok tt, c2) = (Ok u, c3) :> result NodeError unit * NConn D) in E3; injection E3 as _ <-; by rewrite D2|]. right.
  unfold ebind in E3. destruct (ensure_node_tables c2) as [[u1|e] c5] eqn:E5; [|done].
  assert (Q5 := E5). apply grows_node_tables in Q5 as (_ & _ & H5). apply node_tables_leave in E5 as [Ht Ha].
  destruct (stamp_healthy c5 (H5 (H2 (H1 Hc)))) as (c6 & E6 & _ & _ & Hn); [apply Ht|]. rewrite E3 in E6. injection E6 as _ <-.
  apply grows_stamp in E3 as (G6 & _). split_and!; [by eapply has_tables_lasting|by eapply has_auth_lasting|].
  eexists. split; [exact Hn|]. destruct (stored_number SCHEMA_VERSION_KEY (n_db c5)); lia.
Qed.

(** C24. A migration is all or nothing: when it fails the database is as the lock
    found it. When it succeeds, every row of the reserved tables, every message
    and every media source is there with all its columns (one that its table
    lacked reads as NULL), and so are the rooms and the triples. Settings stay,
    but for these: a later modulation may be appended to the list of
    modulations, the old default chain becomes the new one, and the versions
    and the markers of what was migrated are stamped. No transaction is open
    and, unless statements fail, the reserved tables exist and the schema
    version is this build's or newer. A database that needs a newer reader is
    refused untouched, unless statements fail. *)
Theorem migration_adds_and_keeps (others : NConn D -> NConn D) (conn : NConn D) (Hclosed : n_saved conn = None)
    (Hothers : forall c, n_saved (others c) = n_saved c /\ (n_healthy c -> n_healthy (others c))) :
  let '(r, conn') := migrate others conn in
  n_saved conn' = None /\
  (exists d0, (d0 = n_db conn \/ exists c, n_db c = n_db conn /\ d0 = n_db (others c)) /\
     match r with
     | Ok _ => grown d0 (n_db conn') /\ (n_healthy conn -> migrated d0 (n_db conn'))
     | Err _ => n_db conn' = d0
     end) /\
  (n_healthy conn -> forall required, too_new (n_db conn) = Some required ->
     r = Err (NSchemaTooNew required SCHEMA_VERSION) /\ n_db conn' = n_db conn).
Proof.
  unfold migrate, ebind at 1. destruct (check_schema_compat conn) as [[[]|e] c1] eqn:E1.
  all: assert (Q1 := E1); apply reads_compat in Q1 as (D1 & S1 & H1).
  2: { split_and!; [by rewrite S1|exists (n_db conn); split; [by left|done]|].
       intros Hc required Hr. destruct (compat_healthy conn Hc) as (c1' & _ & E1'). rewrite E1, Hr in E1'. by injection E1' as -> _. }
  assert (Hnew : n_healthy conn -> too_new (n_db conn) = None).
  { intros Hc. destruct (compat_healthy conn Hc) as (c1' & _ & E1'). rewrite E1 in E1'. by destruct (too_new (n_db conn)). }
  unfold ebind at 1. destruct (schema_is_current c1) as [[current|e] c2] eqn:E2; (assert (Q2 := E2); apply reads_current in Q2 as (D2 & S2 & H2)).
  2: { split_and!; [by rewrite S2, S1|exists (n_db conn); split; [by left|by rewrite D2, D1]|intros Hc required Hr; by rewrite (Hnew Hc) in Hr]. }
  destruct current.
  { cbn. rewrite S2, S1, D2, D1. split_and!; [done| |intros Hc required Hr; by rewrite (Hnew Hc) in Hr].
    exists (n_db conn). split; [by left|]. split; [done|]. intros Hc. left. split; [done|].
    destruct (current_healthy c1 (H1 Hc)) as (c2' & _ & E2'). rewrite E2, D1 in E2'. by injection E2' as <- _. }
  unfold ebind, etotal, emap_err. destruct (Hothers c2) as [So Ho].
  destruct (begin_transaction (others c2)) as [[[]|e] c3] eqn:E3; (apply begin_cases in E3 as (D3 & H3 & S3); [|by rewrite So, S2, S1]).
  2: { split_and!; [done| |intros Hc required Hr; by rewrite (Hnew Hc) in Hr]. exists (n_db (others c2)). split; [|done]. right.
       exists c2. by rewrite D2, D1. }
  destruct (in_transaction migrate_locked c3) as [r c'] eqn:E4.
  assert (Hfound : exists c, n_db c = n_db conn /\ n_db (others c2) = n_db (others c)) by (exists c2; by rewrite D2, D1).
  unfold in_transaction in E4. destruct (migrate_locked c3) as [r4 c4] eqn:E5. injection E4 as <- <-.
  apply (migrate_locked_cases (n_db (others c2))) in E5; [|done..]. destruct (drop_cases c4) as (-> & Hd & _). rewrite Hd.
  split_and!; [done| |intros Hc required Hr; by rewrite (Hnew Hc) in Hr]. exists (n_db (others c2)). split; [by right|].
  destruct r4; [|by rewrite E5]. destruct E5 as (-> & Hg & Hm). split; [done|]. intros Hc. apply Hm. apply H3. auto.
Qed.

(** ** The hello *)

Lemma served_has_help c mods c' : served_modulations c = (mods, c') -> "help" ∈ mods /\ quiet c c'.
Proof.
  unfold served_modulations. destruct (get_rsntr "modulations" c) as [raw c1] eqn:E. apply get_rsntr_quiet in E.
  set (stored := match raw with Some s => _ | None => [] end). destruct (existsb _ stored) eqn:Ex; intros [= <- <-]; (split; [|done]).
  - apply existsb_exists in Ex as (m & Hm & ->%bool_decide_eq_true). by apply list_elem_of_In.
  - apply elem_of_app. right. by constructor.
Qed.

Lemma push_new_incl mods names m : m ∈ foldl push_new mods names <-> m ∈ mods \/ m ∈ names.
Proof.
  revert mods. induction names as [|n names IH]; intros mods; cbn [foldl]; [set_solver|]. rewrite IH. unfold push_new.
  destruct (existsb _ mods) eqn:Ex; [|set_solver]. apply existsb_exists in Ex as (x & Hx & ->%bool_decide_eq_true).
  apply list_elem_of_In in Hx. set_solver.
Qed.

(** The hello a node makes from its tables is one that its peers accept, unless
    the owner stored a version of another major; it offers help, and the
    enabled mods. Making it writes nothing. *)
Theorem hello_is_accepted (conn conn' : NConn D) (h : Hello) (Hh : node_hello conn = (h, conn'))
    (Hversion : forall v, get_rsntr_row "envelope_version" (n_db conn) = Ok v -> v = "0" \/ starts_with "0." v = true) :
  Transport.hello_incompatibility h = None /\ "help" ∈ hl_mods h /\ n_db conn' = n_db conn /\
  (n_healthy conn -> forall t name m, sv_modulations (nd_surface (n_db conn)) = Some t -> t !! name = Some m -> mo_enabled m = true ->
     name ∈ hl_mods h).
Proof.
  revert Hh. unfold node_hello. destruct (get_rsntr "envelope_version" conn) as [version c1] eqn:E1.
  assert (Hv : forall v, version = Some v -> v = "0" \/ starts_with "0." v = true).
  { intros v ->. apply Hversion. unfold get_rsntr in E1. destruct (nquery _ conn) as [[x|e] c] eqn:E; [|done]. injection E1 as -> _.
    apply nquery_cases in E as (_ & _ & Hok). by apply Hok. }
  apply get_rsntr_quiet in E1. destruct (get_rsntr "encodings" c1) as [encodings c2] eqn:E2. apply get_rsntr_quiet in E2.
  destruct (served_modulations c2) as [mods c3] eqn:E3. apply served_has_help in E3 as [Hhelp E3].
  destruct (enabled_mod_names c3) as [names c4] eqn:E4. destruct (get_rsntr "hint" c4) as [hint c5] eqn:E5. apply get_rsntr_quiet in E5.
  assert (Q3 : quiet conn c3) by (etrans; [exact E1|]; by etrans).
  unfold enabled_mod_names in E4. destruct (nquery _ c3) as [r c] eqn:En. apply nquery_cases in En as (Qn & Hr & _).
  assert (c = c4) as -> by (by destruct r; injection E4 as _ <-). intros [= <- <-]. cbn [hl_mods]. split_and!.
  - apply Transport.hello_incompatibility_None. cbn. split.
    + destruct version as [v|]; [by apply Hv|by right].
    + set (stored := default [] _). destruct (existsb _ stored) eqn:Ex; [|by constructor].
      apply existsb_exists in Ex as (x & Hx & ->%bool_decide_eq_true). by apply list_elem_of_In.
  - apply push_new_incl. by left.
  - destruct Q3 as (H3 & _), Qn as (H4 & _), E5 as (H5 & _). congruence.
  - intros Hc t name m Ht Hm He. apply push_new_incl. right. destruct Q3 as (D3 & _ & Hh3). rewrite (Hr (Hh3 Hc)), D3 in E4.
    unfold nneed in E4. rewrite Ht in E4. cbn in E4. injection E4 as <-. apply elem_of_bs_iter, elem_of_list_to_set, list_elem_of_fmap.
    exists (name, m). split; [done|]. apply list_elem_of_filter. split; [done|]. by apply elem_of_map_to_list.
Qed.
End props.

(** ** Witnesses *)

#[local] Instance plain_rdf : RdfTables SparqlStore.RdfDb := { get_rdf := fun d => d; put_rdf := fun r _ => r }.
#[local] Instance plain_rdf_laws : RdfTablesLaws SparqlStore.RdfDb.
Proof. by constructor. Qed.
#[local] Instance list_json : JsonText := { json_value := fun _ => None; json_strings := fun s => if bool_decide (s = "[]") then Some [] else None }.
#[local] Instance print_json : JsonPrint := { json_of_strings := fun l => if bool_decide (l = []) then "[]" else "[..]" }.

(** An empty file, and one whose owner keeps a petname and a reworded comment. *)
Definition empty_db : NodeDb SparqlStore.RdfDb :=
  mkNodeDb (mkDb None None None None None None) None None None None no_surface (SparqlStore.mkRdfDb None None).
Definition conn_over (d : NodeDb SparqlStore.RdfDb) : NConn SparqlStore.RdfDb :=
  mkNConn d None [] 0 (S754_zero false) [] (fun n => 1000000 * Z.of_nat n) 0 (0, 0).
Definition used_db : NodeDb SparqlStore.RdfDb :=
  mkNodeDb (mkDb (Some {["hint" := SText "hello"; "auth_chain" := SText OLD_AUTH_CHAIN]}) None None None None None) None None None None
    (set_comments {["_peers" := mkCommentRow (SText "my friends") SNull]} no_surface) (SparqlStore.mkRdfDb None None).

Example fresh_migration : fst (migrate id (conn_over empty_db)) = Ok tt.
Proof. vm_compute. reflexivity. Qed.

Example owner_kept :
  let d := n_db (snd (migrate id (conn_over used_db))) in
  (get_rsntr_row "hint" d, get_rsntr_row "auth_chain" d, cm_comment <$> (sv_comments (nd_surface d) ≫= lookup "_peers")) =
  (Ok "hello", Ok AUTH_CHAIN, Some (SText "my friends")).
Proof. vm_compute. reflexivity. Qed.

Lemma migration_adds_and_keeps_witness :
  let '(r, conn') := migrate id (conn_over used_db) in
  n_saved conn' = None /\
  (exists d0, (d0 = n_db (conn_over used_db) \/ exists c, n_db c = n_db (conn_over used_db) /\ d0 = n_db (id c)) /\
     match r with
     | Ok _ => grown d0 (n_db conn') /\ (n_healthy (conn_over used_db) -> migrated d0 (n_db conn'))
     | Err _ => n_db conn' = d0
     end) /\
  (n_healthy (conn_over used_db) -> forall required, too_new (n_db (conn_over used_db)) = Some required ->
     r = Err (NSchemaTooNew required SCHEMA_VERSION) /\ n_db conn' = n_db (conn_over used_db)).
Proof. apply (migration_adds_and_keeps id (conn_over used_db)); [reflexivity|]. by split. Defined.

Definition migrated_conn : NConn SparqlStore.RdfDb := snd (migrate id (conn_over used_db)).

Lemma hello_is_accepted_witness :
  let h := fst (node_hello migrated_conn) in
  Transport.hello_incompatibility h = None /\ "help" ∈ hl_mods h /\ n_db (snd (node_hello migrated_conn)) = n_db migrated_conn /\
  (n_healthy migrated_conn -> forall t name m, sv_modulations (nd_surface (n_db migrated_conn)) = Some t -> t !! name = Some m ->
     mo_enabled m = true -> name ∈ hl_mods h).
Proof.
  apply (hello_is_accepted migrated_conn (snd (node_hello migrated_conn)) (fst (node_hello migrated_conn)));
    [by destruct (node_hello migrated_conn)|].
  intros v Hv. vm_compute in Hv. done.
Defined.
