(* ===== verification/NodeHelp.v ===== *)
(** * NodeHelp: what the node tells anybody

    Models [crates/node/src/help.rs] and [serve_help] of [pipeline.rs]: the texts
    by topic, and the tables a peer may read according to the rules. *)

From S2P Require Import Prelude RustStd Collections Effect Vocab External Instances Value Envelope Request AuthTypes Chain.
From S2P Require Import Authorizer NodeDb NodeExecute NodeFrames NodeProjection NodeSparql NodeDdl.

Open Scope Z_scope.

Definition HELP_TOPICS : list string := ["modulations"; "tables"; "knock"; "projection"; "examples"].

Section help.
Context {D : Type} `{HR : !RowIds} `{HF : !FrameText} `{HW : !JsonText}.
Implicit Types (d : NodeDb D) (conn : NConn D).
Abbreviation Serve := (@Serve D).

Definition owner_help_text conn : string * NConn D :=
  let '(v, conn) := get_rsntr "help_text" conn in (default "" v, conn).

(** [WHERE action = 'read' AND effect = 'allow' AND (peer_or_group = ?1 OR
    peer_or_group = '*')]. *)
Definition reads_row (peer : string) (row : PolicyRow) : bool :=
  cell_is (po_action row) "read" && cell_is (po_effect row) "allow" && (cell_is (po_peer row) peer || cell_is (po_peer row) "*").

(** [SELECT DISTINCT table_name]; a row whose name is not a text is left out. *)
Definition readable_rows (peer : string) d : result SqlError (list string) :=
  let? rows := nneed "_policy" (db_policy (nd_auth d)) in
  Ok (foldl push_new [] (omap (fun r => match po_table r with SText t => Some t | _ => None end)
                           (base.filter (fun r => reads_row peer r = true) rows))).

Definition readable_tables (peer : string) conn : list string * NConn D :=
  match nquery (readable_rows peer) conn with
  | (Ok tables, conn) => (tables, conn)
  | (Err _, conn) => ([], conn)
  end.

Definition readable_tables_line (tables : list string) : string :=
  if existsb (fun t => bool_decide (t = "*")) tables then "Readable now: all tables."
  else if bool_decide (tables = []) then "Readable now: nothing yet; you are not admitted to read any table."
  else "Readable now: " +:+ RustStd.join ", " tables +:+ ".".

(** What an unadmitted caller may send. *)
Definition knock_line : string := jq "[] a rsntr:Knock ; rsntr:message 'who you are and what you want' .".

Definition help_overview (peer : string) conn : string * NConn D :=
  let '(modulations, conn) := served_modulations conn in
  let '(tables, conn) := readable_tables peer conn in
  let '(owner, conn) := owner_help_text conn in
  ((if bool_decide (trim owner = "") then "" else trim_end owner +:+ nl +:+ nl)
   +:+ "This is a resonator node (rsntr, envelope 0.1)." +:+ nl
   +:+ "I serve the modulations: " +:+ RustStd.join ", " modulations +:+ "." +:+ nl
   +:+ readable_tables_line tables +:+ nl
   +:+ "Not admitted yet? Introduce yourself and I may let you in:" +:+ nl
   +:+ "  " +:+ knock_line +:+ nl
   +:+ "Ask for more: send a help query with text one of: modulations, tables, knock, projection, examples.", conn).

Definition help_modulations conn : string * NConn D :=
  let '(modulations, conn) := served_modulations conn in
  ("I serve these modulations: " +:+ RustStd.join ", " modulations +:+ "." +:+ nl
   +:+ "Send a rsntr:Query with rsntr:mod set to one of them. "
   +:+ "The 'help' modulation returns this guidance; 'sql-sqlite' runs SQL; "
   +:+ "'sparql' runs SPARQL over my RDF store.", conn).

Definition help_tables (peer : string) conn : string * NConn D :=
  let '(tables, conn) := readable_tables peer conn in
  (readable_tables_line tables +:+ nl +:+ "To run a read:" +:+ nl
   +:+ "  " +:+ jq "[] a rsntr:Query ; rsntr:mod 'sql-sqlite' ; rsntr:signal 'SELECT ...' .", conn).

Definition help_knock : string :=
  "Not admitted? Introduce yourself with a knock:" +:+ nl
  +:+ "  " +:+ knock_line +:+ nl
  +:+ "The owner reviews knocks and may add you as a peer. Until then you may only ask for help and knock.".

Definition help_projection : string :=
  "The projection is my capability surface as data: what you can read "
  +:+ "(Radiant), do (Excitable), and watch (Sympathetic), with the input "
  +:+ "each needs. You render it however you like." +:+ nl
  +:+ jq "Fetch it:   [] a rsntr:Query ; rsntr:mod 'projection' ; rsntr:signal '' ." +:+ nl
  +:+ "Drill in:   rsntr:signal is the path a point's rsntr:projects handed you." +:+ nl
  +:+ jq "Watch one:  [] a rsntr:Entrain ; rsntr:id '<ULID>' ; rsntr:point <iri> ." +:+ nl
  +:+ "Stop:       [] a rsntr:Damp ; rsntr:point <iri> .  (or just close the stream)".

Definition help_examples : string :=
  "Examples:" +:+ nl
  +:+ jq "Overview:  [] a rsntr:Query ; rsntr:mod 'help' ; rsntr:signal '' ." +:+ nl
  +:+ jq "A read:    [] a rsntr:Query ; rsntr:mod 'sql-sqlite' ; rsntr:signal 'SELECT 1' ." +:+ nl
  +:+ jq "SPARQL:    [] a rsntr:Query ; rsntr:mod 'sparql' ; rsntr:signal 'SELECT * WHERE { ?s ?p ?o }' ." +:+ nl
  +:+ "A knock:   " +:+ knock_line.

(** The text of a topic: an unknown one is answered with the overview. *)
Definition help_text (peer topic : string) conn : string * NConn D :=
  if bool_decide (topic = "modulations") then help_modulations conn
  else if bool_decide (topic = "tables") then help_tables peer conn
  else if bool_decide (topic = "knock") then (help_knock, conn)
  else if bool_decide (topic = "projection") then (help_projection, conn)
  else if bool_decide (topic = "examples") then (help_examples, conn)
  else help_overview peer conn.

Definition build_help (peer id topic : string) conn : (string * list string) * NConn D :=
  let topic := trim topic in
  let '(text, conn) := help_text peer topic conn in
  let reason := if bool_decide (topic = "") then "help overview" else "help topic " +:+ topic in
  ((text, HELP_TOPICS), audit_direct peer id "help" "allow" "help" reason conn).

Definition serve_help (peer id topic : string) : Serve := fun '(conn, ch) =>
  let '((text, topics), conn) := build_help peer id topic conn in
  tell (OHelp (mkHelp (if bool_decide (id = "") then None else Some id) text topics)) (conn, ch).

End help.
