(* ===== verification/NodeChatMsg.v ===== *)
(** * NodeChatMsg: a chat message and its Turtle document

    Models the data of [crates/node/src/chat.rs]: [ChatMessage],
    [validate_thread_fields], the JSON of the tags, [parse_message] and
    [message_to_turtle]. The Turtle parser and the display of terms are
    external. *)

From S2P Require Import Prelude RustStd Collections Vocab External NodeExecute NodeProjection NodeSparql NodeDdl.

Open Scope Z_scope.

Definition BODY_MAX_BYTES : Z := 65536.
Definition RE_MAX_CHARS : Z := 256.
Definition TAGS_MAX : Z := 16.
Definition TAG_MAX_BYTES : Z := 128.

(** [oxttl]'s parser over a slice, with these prefixes: a triple or an error
    at a time. *)
Class OxTtl : Type := { ttl_items : list (string * string) -> string -> list (result string Triple) }.

Record BlobAttachment : Type := mkBlob {
  bl_hash : string;
  bl_bytes : option Z;
  bl_name : option string;
  bl_content_type : option string
}.

Record ChatMessage : Type := mkChatMessage {
  mg_id : option string;
  mg_from : option string;
  mg_room : option string;
  mg_at : option string;
  mg_body : string;
  mg_attachment : option BlobAttachment;
  mg_room_name : option string;
  mg_re : option string;
  mg_tags : list string
}.

Inductive ChatParseError : Type :=
| CProtocol (message : string)
| CLimit (message : string).

(** ** Thread fields *)

(** [str::chars().count()] of a valid text: the bytes that do not continue a
    character. *)
Fixpoint chars_count (s : string) : Z :=
  match s with
  | EmptyString => 0
  | String c s' => (if in_range 0x80 0xBF c then 0 else 1) + chars_count s'
  end.

Definition re_ok (re : string) : bool := negb (is_empty re) && (chars_count re <=? RE_MAX_CHARS).
Definition tag_ok (tag : string) : bool := negb (is_empty tag) && (str_size tag <=? TAG_MAX_BYTES).

(** [sort] and [dedup]. *)
Definition sorted_tags (tags : list string) : list string := bs_iter (list_to_set tags).

Definition validate_thread_fields (re : option string) (tags : list string) : result ChatParseError (list string) :=
  if match re with Some re => negb (re_ok re) | None => false end then
    Err (CProtocol ("rsntr:re must be 1..=" +:+ int_to_string RE_MAX_CHARS +:+ " characters"))
  else if negb (forallb tag_ok tags) then
    Err (CProtocol ("rsntr:tag must be 1..=" +:+ int_to_string TAG_MAX_BYTES +:+ " bytes"))
  else
    let tags := sorted_tags tags in
    if TAGS_MAX <? Z.of_nat (length tags) then
      Err (CLimit (int_to_string (Z.of_nat (length tags)) +:+ " tags; the ceiling is " +:+ int_to_string TAGS_MAX))
    else Ok tags.

Section json.
Context `{HW : !JsonText} `{HJ : !JsonPrint}.

Definition tags_to_json (tags : list string) : option string :=
  match tags with
  | [] => None
  | _ => Some (json_of_strings tags)
  end.

Definition tags_from_json (raw : option string) : list string := default [] (raw ≫= json_strings).
End json.

(** ** Parsing *)

Definition term_text (t : Term) : option string :=
  match t with TLit lit => Some (lit_value lit) | _ => None end.

(** The pairs of a node, in document order. *)
Definition pairs (triples : list Triple) (at_ : NamedOrBlankNode) : list (string * Term) :=
  map (fun t => (predicate t, object t)) (base.filter (fun t => subject t = at_) triples).

Definition is_message (t : Triple) : Prop := predicate t = RDF_TYPE /\ object t = TNamed cls_MESSAGE.

Definition message_subject (triples : list Triple) : result ChatParseError NamedOrBlankNode :=
  match map subject (base.filter is_message triples) with
  | [one] => Ok one
  | [] => Err (CProtocol "chat signal carries no rsntr:Message node")
  | _ => Err (CProtocol "chat signal carries more than one rsntr:Message node")
  end.

(** What the loop over the pairs of the message has set. *)
Record Reading : Type := mkReading {
  rd_id : option string;
  rd_from : option string;
  rd_at : option string;
  rd_body : option string;
  rd_re : option string;
  rd_tags : list string;
  rd_room : option string;
  rd_node : option NamedOrBlankNode
}.

Definition no_reading : Reading := mkReading None None None None None [] None None.

Section parse.
Context `{HS : !OxDisplay} `{HX : !OxRdf} `{HT : !OxTtl}.

Definition read_pair (r : Reading) (kv : string * Term) : result ChatParseError Reading :=
  let '(pred, obj) := kv in
  let '(mkReading id from at_ body re tags room node) := r in
  let text := term_text obj in
  if bool_decide (pred = prop_ID) then Ok (mkReading text from at_ body re tags room node)
  else if bool_decide (pred = prop_FROM) then Ok (mkReading id text at_ body re tags room node)
  else if bool_decide (pred = prop_AT) then Ok (mkReading id from text body re tags room node)
  else if bool_decide (pred = prop_BODY) then Ok (mkReading id from at_ text re tags room node)
  else if bool_decide (pred = prop_RE) then Ok (mkReading id from at_ body text tags room node)
  else if bool_decide (pred = prop_TAG) then
    Ok (match text with Some tag => mkReading id from at_ body re (tags ++ [tag]) room node | None => r end)
  else if bool_decide (pred = prop_ROOM) then
    match obj with
    | TNamed n => Ok (mkReading id from at_ body re tags (Some n) node)
    | other => Err (CProtocol ("rsntr:room must be an IRI, got " +:+ show_term other))
    end
  else if bool_decide (pred = prop_ATTACHMENT) then
    match obj with
    | TNamed n => Ok (mkReading id from at_ body re tags room (Some (NNode n)))
    | TBlank b => Ok (mkReading id from at_ body re tags room (Some (BNode b)))
    | other => Err (CProtocol ("rsntr:attachment must be a node, got " +:+ show_term other))
    end
  else Ok r.

Fixpoint read_pairs (r : Reading) (l : list (string * Term)) : result ChatParseError Reading :=
  match l with
  | [] => Ok r
  | kv :: l' => let? r := read_pair r kv in read_pairs r l'
  end.

Definition read_blob_pair (blob : BlobAttachment) (kv : string * Term) : BlobAttachment :=
  let '(pred, obj) := kv in
  let '(mkBlob hash bytes name content_type) := blob in
  let text := term_text obj in
  if bool_decide (pred = prop_HASH) then mkBlob (default "" text) bytes name content_type
  else if bool_decide (pred = prop_BYTES) then
    mkBlob hash (text ≫= fun s => match parse_i64 s with Ok n => Some n | Err _ => None end) name content_type
  else if bool_decide (pred = prop_NAME) then mkBlob hash bytes text content_type
  else if bool_decide (pred = prop_CONTENT_TYPE) then mkBlob hash bytes name text
  else blob.

Definition read_blob (triples : list Triple) (node : NamedOrBlankNode) : result ChatParseError BlobAttachment :=
  let blob := foldl read_blob_pair (mkBlob "" None None None) (pairs triples node) in
  if is_empty (bl_hash blob) then Err (CProtocol "rsntr:attachment BlobRef is missing its rsntr:hash") else Ok blob.

Definition read_attachment (triples : list Triple) (node : option NamedOrBlankNode) :
    result ChatParseError (option BlobAttachment) :=
  match node with
  | None => Ok None
  | Some node => rmap Some (read_blob triples node)
  end.

(** The label of the room, when the document carries one. *)
Definition read_room_name (triples : list Triple) (room : option string) : option string :=
  room ← room; n ← named_node room;
  kv ← List.find (fun kv => bool_decide (fst kv = prop_NAME)) (pairs triples (NNode n));
  term_text (snd kv).

Definition checked_body (body : option string) : result ChatParseError string :=
  match body with
  | None => Err (CProtocol "rsntr:Message is missing its rsntr:body")
  | Some body =>
      if BODY_MAX_BYTES <? str_size body then
        Err (CLimit ("rsntr:body is " +:+ int_to_string (str_size body) +:+ " bytes; the ceiling is "
                     +:+ int_to_string BODY_MAX_BYTES +:+ "; anything bigger belongs in an attachment"))
      else Ok body
  end.

Definition id_ok (id : string) : bool := negb (is_empty id) && (str_size id <=? 256).

Definition checked_id (id : option string) : result ChatParseError (option string) :=
  match id with
  | Some id => if id_ok id then Ok (Some id) else Err (CProtocol "rsntr:id must be 1..=256 characters")
  | None => Ok None
  end.

Definition message_of (triples : list Triple) : result ChatParseError ChatMessage :=
  let? subject := message_subject triples in
  let? r := read_pairs no_reading (pairs triples subject) in
  let? body := checked_body (rd_body r) in
  let? id := checked_id (rd_id r) in
  let? tags := validate_thread_fields (rd_re r) (rd_tags r) in
  let? attachment := read_attachment triples (rd_node r) in
  Ok (mkChatMessage id (rd_from r) (rd_room r) (rd_at r) body attachment (read_room_name triples (rd_room r)) (rd_re r) tags).

Definition parse_message (signal : string) : result ChatParseError ChatMessage :=
  let? triples := map_err (fun e => CProtocol ("chat signal is not valid Turtle: " +:+ e))
                    (traverse (fun item => item) (ttl_items IMPLIED_PREFIXES signal)) in
  message_of triples.

(** ** Printing *)

Definition XSD_DATE_TIME : string := XSD_NS +:+ "dateTime".

(** [Literal]'s [Display]. *)
Definition lit (s : string) : string := show_term (TLit (mkLiteral s XSD_STRING None)).
Definition typed (s dt : string) : string := show_term (TLit (mkLiteral s dt None)).

Definition line (s p o : string) : string := s +:+ " " +:+ show_named p +:+ " " +:+ o +:+ " ." +:+ nl.

Definition opt_line (s p : string) (show : string -> string) (o : option string) : string :=
  match o with
  | Some v => line s p (show v)
  | None => ""
  end.

Definition blob_to_turtle (blob : BlobAttachment) : string :=
  line "_:m" prop_ATTACHMENT "_:b" +:+
  line "_:b" RDF_TYPE (show_named cls_BLOB_REF) +:+
  line "_:b" prop_HASH (lit (bl_hash blob)) +:+
  match bl_bytes blob with Some n => line "_:b" prop_BYTES (typed (int_to_string n) XSD_INTEGER) | None => "" end +:+
  opt_line "_:b" prop_NAME lit (bl_name blob) +:+
  opt_line "_:b" prop_CONTENT_TYPE lit (bl_content_type blob).

Definition message_to_turtle (msg : ChatMessage) : string :=
  line "_:m" RDF_TYPE (show_named cls_MESSAGE) +:+
  opt_line "_:m" prop_ID lit (mg_id msg) +:+
  opt_line "_:m" prop_FROM lit (mg_from msg) +:+
  opt_line "_:m" prop_ROOM (fun room => "<" +:+ room +:+ ">") (mg_room msg) +:+
  opt_line "_:m" prop_AT (fun at_ => typed at_ XSD_DATE_TIME) (mg_at msg) +:+
  line "_:m" prop_BODY (lit (mg_body msg)) +:+
  opt_line "_:m" prop_RE lit (mg_re msg) +:+
  str_concat (map (fun tag => line "_:m" prop_TAG (lit tag)) (mg_tags msg)) +:+
  match mg_attachment msg with Some blob => blob_to_turtle blob | None => "" end +:+
  match mg_room msg, mg_room_name msg with
  | Some room, Some name => line ("<" +:+ room +:+ ">") prop_NAME (lit name)
  | _, _ => ""
  end.
End parse.

(** * A message survives its document *)

(** The N-Triples forms of [oxrdf]'s [Display]. *)
Class OxDisplayLaws `{HS : !OxDisplay} : Prop := {
  show_named_iri i : show_named i = "<" +:+ i +:+ ">";
  show_node_iri i : show_node (NNode i) = show_named i;
  show_node_blank b : show_node (BNode b) = "_:" +:+ b;
  show_term_iri i : show_term (TNamed i) = show_named i;
  show_term_blank b : show_term (TBlank b) = "_:" +:+ b
}.

Section props.
Context `{HS : !OxDisplay} `{HX : !OxRdf} `{HT : !OxTtl}.

(** N-Triples: a line for each triple. *)
Definition ntriples (ts : list Triple) : string :=
  str_concat (map (fun t => line (show_node (subject t)) (predicate t) (show_term (object t))) ts).

Definition text_triple (s : NamedOrBlankNode) (p v : string) : Triple := mkTriple s p (TLit (mkLiteral v XSD_STRING None)).
Definition typed_triple (s : NamedOrBlankNode) (p dt v : string) : Triple := mkTriple s p (TLit (mkLiteral v dt None)).

Definition blob_triples (blob : BlobAttachment) : list Triple :=
  let b := BNode "b" in
  [mkTriple (BNode "m") prop_ATTACHMENT (TBlank "b"); mkTriple b RDF_TYPE (TNamed cls_BLOB_REF);
   text_triple b prop_HASH (bl_hash blob)] ++
  map (fun n => typed_triple b prop_BYTES XSD_INTEGER (int_to_string n)) (option_list (bl_bytes blob)) ++
  map (text_triple b prop_NAME) (option_list (bl_name blob)) ++
  map (text_triple b prop_CONTENT_TYPE) (option_list (bl_content_type blob)).

(** The statements of a message. *)
Definition message_triples (msg : ChatMessage) : list Triple :=
  let m := BNode "m" in
  [mkTriple m RDF_TYPE (TNamed cls_MESSAGE)] ++
  map (text_triple m prop_ID) (option_list (mg_id msg)) ++
  map (text_triple m prop_FROM) (option_list (mg_from msg)) ++
  map (fun room => mkTriple m prop_ROOM (TNamed room)) (option_list (mg_room msg)) ++
  map (typed_triple m prop_AT XSD_DATE_TIME) (option_list (mg_at msg)) ++
  [text_triple m prop_BODY (mg_body msg)] ++
  map (text_triple m prop_RE) (option_list (mg_re msg)) ++
  map (text_triple m prop_TAG) (mg_tags msg) ++
  concat (map blob_triples (option_list (mg_attachment msg))) ++
  match mg_room msg, mg_room_name msg with
  | Some room, Some name => [text_triple (NNode room) prop_NAME name]
  | _, _ => []
  end.

Lemma str_concat_app l1 l2 : str_concat (l1 ++ l2) = str_concat l1 +:+ str_concat l2.
Proof. unfold str_concat. induction l1 as [|s l1 IH]; [done|]. cbn. by rewrite IH, app_str_assoc. Qed.

Lemma ntriples_app ts1 ts2 : ntriples (ts1 ++ ts2) = ntriples ts1 +:+ ntriples ts2.
Proof. unfold ntriples. by rewrite map_app, str_concat_app. Qed.

Lemma ntriples_one t : ntriples [t] = line (show_node (subject t)) (predicate t) (show_term (object t)).
Proof. unfold ntriples, str_concat. cbn. apply app_str_nil_r. Qed.

Lemma opt_line_triples s p (show : string -> string) (obj : string -> Term) o :
  (forall v, show v = show_term (obj v)) ->
  opt_line (show_node s) p show o = ntriples (map (fun v => mkTriple s p (obj v)) (option_list o)).
Proof. intros Hshow. destruct o as [v|]; [|done]. cbn [option_list map opt_line option_rect]. by rewrite ntriples_one, Hshow. Qed.

Lemma show_m `{!OxDisplayLaws} : show_node (BNode "m") = "_:m".
Proof. by rewrite show_node_blank. Qed.
Lemma show_b `{!OxDisplayLaws} : show_node (BNode "b") = "_:b".
Proof. by rewrite show_node_blank. Qed.

Lemma blob_document `{!OxDisplayLaws} blob : blob_to_turtle blob = ntriples (blob_triples blob).
Proof.
  unfold blob_triples, blob_to_turtle. rewrite <-show_m, <-show_b, !ntriples_app.
  rewrite (cons_app (mkTriple (BNode "m") _ _)), (cons_app (mkTriple (BNode "b") _ _)), !ntriples_app, !ntriples_one.
  cbn [subject predicate object text_triple]. rewrite show_term_blank, show_term_iri, <-show_node_blank, !app_str_assoc.
  do 3 f_equal. f_equal; [by destruct (bl_bytes blob); [symmetry; apply ntriples_one|]|].
  f_equal; by apply opt_line_triples.
Qed.

(** The document is the N-Triples of the statements. *)
Lemma message_document `{!OxDisplayLaws} msg : message_to_turtle msg = ntriples (message_triples msg).
Proof.
  unfold message_triples, message_to_turtle. cbv zeta. rewrite <-show_m, !ntriples_app, !ntriples_one.
  cbn [subject predicate object text_triple]. rewrite show_term_iri.
  f_equal. f_equal; [by apply opt_line_triples|]. f_equal; [by apply opt_line_triples|].
  f_equal; [apply opt_line_triples; intros v; by rewrite show_term_iri, show_named_iri|].
  f_equal; [by apply opt_line_triples|]. f_equal. f_equal; [by apply opt_line_triples|].
  f_equal; [unfold ntriples; by rewrite map_map|]. f_equal.
  - destruct (mg_attachment msg); [|done]. cbn [option_list option_rect map concat]. by rewrite app_nil_r, <-blob_document.
  - destruct (mg_room msg) as [room|]; [|done]. destruct (mg_room_name msg) as [name|]; [|done].
    by rewrite ntriples_one, <-show_named_iri, <-show_node_iri.
Qed.

(** ** Reading the statements back *)

Lemma pairs_app ts1 ts2 s : pairs (ts1 ++ ts2) s = pairs ts1 s ++ pairs ts2 s.
Proof. unfold pairs. by rewrite filter_app, map_app. Qed.

Lemma pairs_own {A} s p (obj : A -> Term) vs :
  pairs (map (fun v => mkTriple s p (obj v)) vs) s = map (fun v => (p, obj v)) vs.
Proof. unfold pairs. rewrite filter_all; [by rewrite map_map|]. by apply Forall_fmap, Forall_true. Qed.

Lemma pairs_other {A} s s' p (obj : A -> Term) vs : s <> s' -> pairs (map (fun v => mkTriple s p (obj v)) vs) s' = [].
Proof.
  intros Hne. unfold pairs. rewrite filter_none; [done|]. by apply Forall_fmap, Forall_true.
Qed.

Lemma pairs_blob_m blob : pairs (blob_triples blob) (BNode "m") = [(prop_ATTACHMENT, TBlank "b")].
Proof. unfold blob_triples, text_triple, typed_triple. by rewrite !pairs_app, !pairs_other by done. Qed.

Lemma pairs_blob_b blob : pairs (blob_triples blob) (BNode "b") =
  [(RDF_TYPE, TNamed cls_BLOB_REF); (prop_HASH, TLit (mkLiteral (bl_hash blob) XSD_STRING None))] ++
  map (fun n => (prop_BYTES, TLit (mkLiteral (int_to_string n) XSD_INTEGER None))) (option_list (bl_bytes blob)) ++
  map (fun v => (prop_NAME, TLit (mkLiteral v XSD_STRING None))) (option_list (bl_name blob)) ++
  map (fun v => (prop_CONTENT_TYPE, TLit (mkLiteral v XSD_STRING None))) (option_list (bl_content_type blob)).
Proof. unfold blob_triples, text_triple, typed_triple. by rewrite !pairs_app, !pairs_own. Qed.

(** ** The message *)

(** A message within the limits. *)
Definition message_ok (msg : ChatMessage) : bool :=
  (str_size (mg_body msg) <=? BODY_MAX_BYTES) && from_option id_ok true (mg_id msg) && from_option re_ok true (mg_re msg) &&
  forallb tag_ok (mg_tags msg) && (Z.of_nat (length (sorted_tags (mg_tags msg))) <=? TAGS_MAX) &&
  from_option (fun b => negb (is_empty (bl_hash b)) && from_option is_i64 true (bl_bytes b))
    true (mg_attachment msg) &&
  from_option ox_iri_ok true (mg_room msg).

(** What comes back: the tags sorted, the label of the room only with a room. *)
Definition normal_message (msg : ChatMessage) : ChatMessage :=
  mkChatMessage (mg_id msg) (mg_from msg) (mg_room msg) (mg_at msg) (mg_body msg) (mg_attachment msg)
    (match mg_room msg with Some _ => mg_room_name msg | None => None end) (mg_re msg) (sorted_tags (mg_tags msg)).

Lemma read_then r r' r'' l1 l2 : read_pairs r l1 = Ok r' -> read_pairs r' l2 = Ok r'' -> read_pairs r (l1 ++ l2) = Ok r''.
Proof.
  revert r. induction l1 as [|kv l1 IH]; intros r; [by intros [= ->]|]. cbn. destruct (read_pair r kv); cbn; [apply IH|done].
Qed.

Lemma read_tags r tags :
  read_pairs r (map (fun tag => (prop_TAG, TLit (mkLiteral tag XSD_STRING None))) tags) =
  Ok (mkReading (rd_id r) (rd_from r) (rd_at r) (rd_body r) (rd_re r) (rd_tags r ++ tags) (rd_room r) (rd_node r)).
Proof.
  revert r. induction tags as [|tag tags IH]; intros [id from at_ body re ts room node]; [by rewrite app_nil_r|].
  cbn [map read_pairs]. transitivity (read_pairs (mkReading id from at_ body re (ts ++ [tag]) room node)
                                        (map (fun tag => (prop_TAG, TLit (mkLiteral tag XSD_STRING None))) tags)); [done|].
  rewrite IH. cbn. by rewrite <-app_assoc.
Qed.

Lemma pairs_attachment blob s :
  pairs (concat (map blob_triples (option_list blob))) s = concat (map (fun b => pairs (blob_triples b) s) (option_list blob)).
Proof. destruct blob as [b|]; [|done]. cbn [option_list option_rect map concat]. by rewrite !app_nil_r. Qed.

Lemma read_message msg :
  read_pairs no_reading (pairs (message_triples msg) (BNode "m")) =
  Ok (mkReading (mg_id msg) (mg_from msg) (mg_at msg) (Some (mg_body msg)) (mg_re msg) (mg_tags msg) (mg_room msg)
        ((fun _ => BNode "b") <$> mg_attachment msg)).
Proof.
  assert (pairs (message_triples msg) (BNode "m") =
    [(RDF_TYPE, TNamed cls_MESSAGE)] ++ map (fun v => (prop_ID, TLit (mkLiteral v XSD_STRING None))) (option_list (mg_id msg)) ++
    map (fun v => (prop_FROM, TLit (mkLiteral v XSD_STRING None))) (option_list (mg_from msg)) ++
    map (fun v => (prop_ROOM, TNamed v)) (option_list (mg_room msg)) ++
    map (fun v => (prop_AT, TLit (mkLiteral v XSD_DATE_TIME None))) (option_list (mg_at msg)) ++
    [(prop_BODY, TLit (mkLiteral (mg_body msg) XSD_STRING None))] ++
    map (fun v => (prop_RE, TLit (mkLiteral v XSD_STRING None))) (option_list (mg_re msg)) ++
    map (fun v => (prop_TAG, TLit (mkLiteral v XSD_STRING None))) (mg_tags msg) ++
    map (fun _ => (prop_ATTACHMENT, TBlank "b")) (option_list (mg_attachment msg))) as ->.
  { unfold message_triples. cbv zeta. rewrite !pairs_app, pairs_attachment. unfold text_triple, typed_triple. rewrite !pairs_own.
    f_equal. do 7 f_equal. transitivity (map (fun _ : BlobAttachment => (prop_ATTACHMENT, TBlank "b")) (option_list (mg_attachment msg)) ++ []);
      [|apply app_nil_r]. f_equal.
    - destruct (mg_attachment msg); [|done]. cbn [option_list option_rect map concat]. by rewrite pairs_blob_m.
    - by destruct (mg_room msg), (mg_room_name msg). }
  apply read_then with (r' := no_reading); [done|].
  apply read_then with (r' := mkReading (mg_id msg) None None None None [] None None); [by destruct (mg_id msg)|].
  apply read_then with (r' := mkReading (mg_id msg) (mg_from msg) None None None [] None None); [by destruct (mg_from msg)|].
  apply read_then with (r' := mkReading (mg_id msg) (mg_from msg) None None None [] (mg_room msg) None); [by destruct (mg_room msg)|].
  apply read_then with (r' := mkReading (mg_id msg) (mg_from msg) (mg_at msg) None None [] (mg_room msg) None);
    [by destruct (mg_at msg)|].
  apply read_then with (r' := mkReading (mg_id msg) (mg_from msg) (mg_at msg) (Some (mg_body msg)) None [] (mg_room msg) None); [done|].
  apply read_then with (r' := mkReading (mg_id msg) (mg_from msg) (mg_at msg) (Some (mg_body msg)) (mg_re msg) [] (mg_room msg) None);
    [by destruct (mg_re msg)|].
  eapply read_then; [apply read_tags|]. by destruct (mg_attachment msg).
Qed.

Lemma read_message_blob msg b : mg_attachment msg = Some b ->
  pairs (message_triples msg) (BNode "b") = pairs (blob_triples b) (BNode "b").
Proof.
  intros Hb. unfold message_triples, text_triple, typed_triple. cbv zeta. rewrite !pairs_app, pairs_attachment, Hb.
  rewrite !pairs_other by done. cbn [option_list option_rect map concat].
  assert (forall t, subject t <> BNode "b" -> pairs [t] (BNode "b") = []) as Hone.
  { intros t Ht. unfold pairs. by rewrite filter_cons_False. }
  rewrite !Hone by done. rewrite !app_nil_r, !app_nil_l.
  destruct (mg_room msg), (mg_room_name msg); [rewrite Hone by done|..]; apply app_nil_r.
Qed.

Lemma read_blob_back msg b :
  mg_attachment msg = Some b -> is_empty (bl_hash b) = false ->
  from_option is_i64 true (bl_bytes b) = true ->
  read_blob (message_triples msg) (BNode "b") = Ok b.
Proof.
  intros Hb Hh Hn. unfold read_blob. rewrite (read_message_blob msg b Hb), pairs_blob_b, !foldl_app.
  destruct b as [hash bytes name ct]. cbn [bl_hash bl_bytes bl_name bl_content_type] in *.
  assert (foldl read_blob_pair (mkBlob hash None None None)
            (map (fun n => (prop_BYTES, TLit (mkLiteral (int_to_string n) XSD_INTEGER None))) (option_list bytes)) =
          mkBlob hash bytes None None) as Hbytes.
  { destruct bytes as [n|]; [|done]. cbn [option_list option_rect map foldl]. unfold read_blob_pair. cbn in Hn.
    rewrite bool_decide_false, bool_decide_true by done. cbn. rewrite parse_i64_to_string by auto. done. }
  set (hd := [_; _]). transitivity (let blob := mkBlob hash bytes name ct in
    if is_empty (bl_hash blob) then Err (CProtocol "rsntr:attachment BlobRef is missing its rsntr:hash") else Ok blob); [|by cbn; rewrite Hh].
  assert (foldl read_blob_pair (mkBlob "" None None None) hd = mkBlob hash None None None) as -> by done.
  rewrite Hbytes. by destruct name, ct.
Qed.

Lemma read_room_back msg : from_option ox_iri_ok true (mg_room msg) = true ->
  read_room_name (message_triples msg) (mg_room msg) = match mg_room msg with Some _ => mg_room_name msg | None => None end.
Proof.
  intros Hok. unfold read_room_name. destruct (mg_room msg) as [room|] eqn:Hr; [|done]. cbn in Hok. unfold named_node.
  cbn [mbind option_bind]. rewrite Hok. cbn [mbind option_bind]. unfold message_triples, text_triple, typed_triple, blob_triples. cbv zeta.
  rewrite !pairs_app, !pairs_other, pairs_attachment by done.
  assert (forall t, subject t <> NNode room -> pairs [t] (NNode room) = []) as Hone.
  { intros t Ht. unfold pairs. by rewrite filter_cons_False. }
  rewrite !Hone by done.
  assert (concat (map (fun b => pairs (blob_triples b) (NNode room)) (option_list (mg_attachment msg))) = []) as ->.
  { destruct (mg_attachment msg); [|done]. cbn [option_list option_rect map concat].
    unfold blob_triples, text_triple, typed_triple. rewrite !pairs_app, !pairs_other by done. done. }
  rewrite Hr. destruct (mg_room_name msg) as [name|]; [|done]. unfold pairs. cbn [filter]. by rewrite filter_cons_True.
Qed.

Lemma other_predicate {A} s p (obj : A -> Term) vs : p <> RDF_TYPE ->
  Forall (fun t => ~ is_message t) (map (fun v => mkTriple s p (obj v)) vs).
Proof. intros Hp. apply Forall_fmap, Forall_true. by intros v [? _]. Qed.

Lemma blob_not_message blob : Forall (fun t => ~ is_message t) (blob_triples blob).
Proof.
  unfold blob_triples, text_triple, typed_triple. rewrite !Forall_app. split_and!; try by apply other_predicate.
  constructor; [by intros [? _]|]. constructor; [by intros [_ ?]|]. by repeat constructor; intros [? _].
Qed.

Lemma message_subject_back msg : message_subject (message_triples msg) = Ok (BNode "m").
Proof.
  unfold message_subject. unfold message_triples. cbv zeta. rewrite filter_app.
  rewrite (filter_none _ (_ ++ _)); [done|]. unfold text_triple, typed_triple.
  rewrite !Forall_app. split_and!; try by apply other_predicate.
  - by repeat constructor; intros [? _].
  - destruct (mg_attachment msg); [|done]. cbn [option_list option_rect map concat]. rewrite app_nil_r. apply blob_not_message.
  - destruct (mg_room msg), (mg_room_name msg); try done. by repeat constructor; intros [? _].
Qed.

Lemma chat_message_back `{!OxDisplayLaws} (msg : ChatMessage) : message_ok msg = true ->
  ttl_items IMPLIED_PREFIXES (ntriples (message_triples msg)) = map Ok (message_triples msg) ->
  parse_message (message_to_turtle msg) = Ok (normal_message msg).
Proof.
  intros Hok Hread.   unfold message_ok in Hok. rewrite !andb_true_iff in Hok. destruct Hok as ((((((Hbody & Hid) & Hre) & Htags) & Hmany) & Hblob) & Hroom).
  apply Z.leb_le in Hbody, Hmany.
  unfold parse_message. rewrite message_document, Hread. rewrite (traverse_map_Ok _ _ (fun t => t)), map_id by done. cbn [map_err rbind].
  unfold message_of. rewrite message_subject_back. cbn [rbind]. rewrite read_message.
  cbn [rbind rd_id rd_from rd_at rd_body rd_re rd_tags rd_room rd_node]. unfold checked_body.
  replace (BODY_MAX_BYTES <? _) with false by lia. cbn [rbind].
  assert (checked_id (mg_id msg) = Ok (mg_id msg)) as ->.
  { destruct (mg_id msg) as [i|]; [|done]. cbn in Hid |- *. by rewrite Hid. }
  cbn [rbind]. unfold validate_thread_fields. rewrite Htags.
  replace (match mg_re msg with Some re => _ | None => _ end) with false.
  2: { destruct (mg_re msg) as [re|]; [|done]. cbn in Hre. by rewrite Hre. }
  cbn [negb]. replace (TAGS_MAX <? _) with false by lia. cbn [rbind]. rewrite read_room_back by done.
  assert (read_attachment (message_triples msg) ((fun _ => BNode "b") <$> mg_attachment msg) = Ok (mg_attachment msg)) as ->; [|done].
  destruct (mg_attachment msg) as [b|] eqn:Hb; [|done]. cbn in Hblob. cbn [read_attachment fmap option_fmap option_map]. apply andb_true_iff in Hblob as [Hh Hn].
  apply negb_true_iff in Hh. by rewrite (read_blob_back msg b).
Qed.

(** A message that keeps the limits, written as a document, is read back by the
    receiver as it was, with its tags sorted: nothing in a body, a tag or a
    name can add to the message or change another field. *)
Theorem chat_message_roundtrip `{!OxDisplayLaws} (msg : ChatMessage) (Hok : message_ok msg = true)
    (Hread : ttl_items IMPLIED_PREFIXES (ntriples (message_triples msg)) = map Ok (message_triples msg)) :
  parse_message (message_to_turtle msg) = Ok (normal_message msg).
Proof. by apply chat_message_back. Qed.
End props.

(** ** Witness: N-Triples as [oxrdf] prints it, read by the parser of the
    SPARQL store *)

Module ChatWitness.

#[export] Instance nt_display : OxDisplay := {
  show_named i := "<" +:+ i +:+ ">";
  show_node n := match n with NNode i => "<" +:+ i +:+ ">" | BNode b => "_:" +:+ b end;
  show_term t := match t with
                 | TNamed i => "<" +:+ i +:+ ">"
                 | TBlank b => "_:" +:+ b
                 | TLit l => dq +:+ str_map nt_char (lit_value l) +:+ dq +:+
                             (if bool_decide (lit_datatype l = XSD_STRING) then "" else "^^<" +:+ lit_datatype l +:+ ">")
                 end
}.

#[export] Instance nt_display_laws : OxDisplayLaws.
Proof. by split. Qed.

#[export] Instance any_rdf : OxRdf := { ox_iri_ok := fun _ => true; ox_label_ok := fun _ => true; ox_language := Some }.

Definition as_term (s : SparqlTerm.Slot) : option Term :=
  match s with
  | SparqlTerm.Var v => TBlank <$> RustStd.strip_prefix "~bn~" v
  | SparqlTerm.Ground t =>
      Some (if SparqlTerm.t_kind t =? SparqlTerm.K_IRI then TNamed (SparqlTerm.t_lex t)
            else if SparqlTerm.t_kind t =? SparqlTerm.K_BNODE then TBlank (SparqlTerm.t_lex t)
            else TLit (mkLiteral (SparqlTerm.t_lex t)
                         (if is_empty (SparqlTerm.t_dtype t) then XSD_STRING else SparqlTerm.t_dtype t) None))
  end.

Definition as_triple (tp : SparqlTerm.TriplePattern) : result string Triple :=
  match as_term (SparqlTerm.tp_s tp), as_term (SparqlTerm.tp_p tp), as_term (SparqlTerm.tp_o tp) with
  | Some (TNamed s), Some (TNamed p), Some o => Ok (mkTriple (NNode s) p o)
  | Some (TBlank s), Some (TNamed p), Some o => Ok (mkTriple (BNode s) p o)
  | _, _, _ => Err "not a triple"
  end.

#[export] Instance store_reader : OxTtl := {
  ttl_items _ s := match SparqlParse.parse ("INSERT DATA {" +:+ s +:+ "}") with
                   | Ok (SparqlTerm.PUpdate u) => map as_triple (SparqlTerm.u_triples u)
                   | _ => [Err "not a document"]
                   end
}.

Definition photo : ChatMessage :=
  mkChatMessage (Some "01ARZ3NDEKTSV4RRFFQ69G5FAV") (Some "alice") (Some "urn:room:1") (Some "2024-05-01T12:00:00Z")
    (jq "he said 'hi' . _:m <urn:x> <urn:y> .") (Some (mkBlob "blake3:00" (Some 42) (Some "a.png") (Some "image/png")))
    (Some "Lounge") (Some "earlier") ["sunny"; "fun"; "sunny"].

End ChatWitness.
#[local] Existing Instances ChatWitness.nt_display ChatWitness.any_rdf ChatWitness.store_reader.

Lemma chat_message_roundtrip_witness :
  let msg := ChatWitness.photo in
  parse_message (message_to_turtle msg) = Ok (normal_message msg) /\ mg_tags (normal_message msg) = ["fun"; "sunny"].
Proof.
  split; [|by vm_compute].
  apply (@chat_message_roundtrip ChatWitness.nt_display ChatWitness.any_rdf ChatWitness.store_reader ChatWitness.nt_display_laws);
    vm_compute; reflexivity.
Defined.
