(* ===== verification/NodeChat.v ===== *)
(** * NodeChat: sending a message through a node

    Models [handle_chat] and [apply_message] of [crates/node/src/chat.rs], and
    the chat lanes of [pipeline.rs]: who may write into which conversation, a
    message stored once, the fan-out of a room to its members, and the
    answers. *)

From S2P Require Import Prelude RustStd Collections Effect Vocab External Instances Value Envelope Request CivilDate AuthTypes Chain.
From S2P Require Import Authorizer NodeDb NodeGate NodeExecute NodeFrames NodeProjection NodeSparql NodeDdl NodeChatMsg.

Open Scope Z_scope.

Definition DIRECT_RESOURCE : string := "chat:direct".

(** Who is the author, where the message is filed, which room is bound to the
    sender, and to which room's members it goes on. *)
Record Plan : Type := mkPlan {
  pl_resource : string;
  pl_sender : string;
  pl_scope : string;
  pl_bind_room : option (string * string * string);
  pl_fan_out_room : option string
}.

Inductive ChatOutcome : Type :=
| ChUnknownPeer
| ChModUnsupported
| ChDenied (reason : string)
| ChBadRequest (message : string)
| ChLimitExceeded (message : string)
| ChEngineError (message : string)
| ChApplied (affected : Z).

Section chat.
Context {D : Type} `{HR : !RowIds} `{HO : !AppliedJson} `{HA : !AffectedJson} `{HW : !JsonText} `{HJ : !JsonPrint}.
Context `{HC : !ChainJson} `{HN : !NodeText} `{HU : !UlidLib} `{HS : !OxDisplay} `{HX : !OxRdf} `{HT : !OxTtl}.
Implicit Types (d : NodeDb D) (conn : NConn D).
Abbreviation CM := (Eff (NConn D) SqlError).

Definition chat_of d : ChatTables := sv_chat (nd_surface d).

(** ** The tables *)

Definition create_messages (t : ChatTables) : ChatTables :=
  match ct_messages t with
  | Some _ => t
  | None => mkChatTables (Some ∅) true true (ct_rooms t) (ct_members t) (ct_log_view t)
  end.
Definition create_rooms (t : ChatTables) : ChatTables :=
  mkChatTables (ct_messages t) (ct_has_re t) (ct_has_tags t) (Some (default ∅ (ct_rooms t))) (ct_members t) (ct_log_view t).
Definition create_members (t : ChatTables) : ChatTables :=
  mkChatTables (ct_messages t) (ct_has_re t) (ct_has_tags t) (ct_rooms t) (Some (default ∅ (ct_members t))) (ct_log_view t).

Definition change_chat (f : ChatTables -> ChatTables) : CM unit := nsql (fun d => Ok (tt, on_chat f d)).

(** [CHAT_TABLES_DDL], and the columns added later. *)
Definition ensure_chat_tables : CM unit :=
  let* _ := change_chat create_messages in
  let* _ := ncall in
  let* _ := change_chat create_rooms in
  let* _ := change_chat create_members in
  ensure_chat_columns.

(** ** Roles *)

Definition room_host (room : string) d : result SqlError (option string) :=
  let? t := nneed "chat_rooms" (ct_rooms (chat_of d)) in
  match t !! room with
  | None => Ok None
  | Some row => rmap Some (map_err sql_failure (get_string (ro_host row)))
  end.

(** [.unwrap_or(None)]: a failed read is taken for an unknown room. *)
Definition hosted (room : string) conn : option string * NConn D :=
  match nquery (room_host room) conn with
  | (Ok host, conn) => (host, conn)
  | (Err _, conn) => (None, conn)
  end.

Definition bound_reason (room host peer : string) : string :=
  "room <" +:+ room +:+ "> is bound to host " +:+ host +:+ "; fan-out from " +:+ peer +:+ " refused".

(** Given the recorded host of the room. *)
Definition plan_for (peer self_id : string) (msg : ChatMessage) (host : option string) : result string Plan :=
  match mg_room msg with
  | None => Ok (mkPlan DIRECT_RESOURCE peer peer None None)
  | Some room =>
      match host with
      | Some host =>
          if bool_decide (host = self_id) then Ok (mkPlan room peer room None (Some room))
          else if negb (bool_decide (host = peer)) then Err (bound_reason room host peer)
          else Ok (mkPlan DIRECT_RESOURCE (default peer (mg_from msg)) room None None)
      | None =>
          Ok (mkPlan DIRECT_RESOURCE (default peer (mg_from msg)) room
                (Some (room, default room (mg_room_name msg), peer)) None)
      end
  end.

(** ** The message stored *)

Definition insert_room (now room name host : string) d : result SqlError (unit * NodeDb D) :=
  let? t := nneed "chat_rooms" (ct_rooms (chat_of d)) in
  Ok (tt, match t !! room with
          | Some _ => d
          | None => on_chat (fun c => mkChatTables (ct_messages c) (ct_has_re c) (ct_has_tags c)
                                        (Some (<[room := mkRoomRow (SText name) (SText host) (SText now)]> t))
                                        (ct_members c) (ct_log_view c)) d
          end).

Definition message_row (now scope sender at_ : string) (msg : ChatMessage) : MessageRow :=
  let blob := mg_attachment msg in
  mkMessageRow scope sender at_ now (mg_body msg) (bl_hash <$> blob) (blob ≫= bl_bytes) (blob ≫= bl_name)
    (blob ≫= bl_content_type) 0 (mg_re msg) (tags_to_json (mg_tags msg)).

(** [INSERT OR IGNORE]: how many rows. *)
Definition insert_message (id : string) (row : MessageRow) d : result SqlError (Z * NodeDb D) :=
  let? t := nneed "chat_messages" (ct_messages (chat_of d)) in
  if negb (ct_has_re (chat_of d)) then Err (sql_failure "table chat_messages has no column named re_id")
  else if negb (ct_has_tags (chat_of d)) then Err (sql_failure "table chat_messages has no column named tags")
  else match t !! id with
       | Some _ => Ok (0, d)
       | None => Ok (1, on_chat (fun c => mkChatTables (Some (<[id := row]> t)) (ct_has_re c) (ct_has_tags c) (ct_rooms c)
                                            (ct_members c) (ct_log_view c)) d)
       end.

Definition room_name_row (room : string) d : result SqlError (option string) :=
  let? t := nneed "chat_rooms" (ct_rooms (chat_of d)) in
  match t !! room with
  | None => Ok None
  | Some row => rmap Some (map_err sql_failure (get_string (ro_name row)))
  end.

(** The members but the author and the host, in the order of the primary
    key. *)
Definition recipients (room sender self_id : string) d : result SqlError (list string) :=
  let? t := nneed "chat_members" (ct_members (chat_of d)) in
  Ok (bs_iter (list_to_set (map snd (base.filter (fun m => fst m = room /\ snd m <> sender /\ snd m <> self_id) (elements t))))).

Definition insert_request (now request_id peer mod_ signal params : string) d : result SqlError (unit * NodeDb D) :=
  let? t := nneed "_outbox" (sv_outbox (nd_surface d)) in
  if existsb (fun r => cell_is (ob_request_id r) request_id) t then
    Err (sql_failure "UNIQUE constraint failed: _outbox.request_id")
  else Ok (tt, on_surface (set_outbox (t ++ [mkOutboxRow (SText request_id) (SText peer) (SText mod_) (SText signal)
                                               (SText params) (SText "queued") SNull (SText now) SNull])) d).

(** The column [params] has the default. *)
Definition insert_outbox (now request_id peer mod_ signal : string) : NodeDb D -> result SqlError (unit * NodeDb D) :=
  insert_request now request_id peer mod_ signal "[]".

(** A row that cannot be queued is only logged. *)
Definition enqueue_member (signal : string) (_ : unit) (member : string) : CM unit := fun conn =>
  let '(request_id, conn) := draw_node_ulid conn in
  (Ok tt, snd (nsql (insert_outbox (sql_now conn) request_id member "chat" signal) conn)).

Definition fan_out_message (message_id sender room at_ : string) (room_name : option string) (msg : ChatMessage) : ChatMessage :=
  mkChatMessage (Some message_id) (Some sender) (Some room) (Some at_) (mg_body msg) (mg_attachment msg) room_name
    (mg_re msg) (mg_tags msg).

Definition fan_out (message_id sender room at_ self_id : string) (msg : ChatMessage) : CM unit :=
  let* room_name := nquery (room_name_row room) in
  let signal := message_to_turtle (fan_out_message message_id sender room at_ room_name msg) in
  let* members := nquery (recipients room sender self_id) in
  efold (enqueue_member signal) tt members.

Definition bind_room (b : option (string * string * string)) : CM unit :=
  match b with
  | None => eret tt
  | Some (room, name, host) => fun conn => nsql (insert_room (sql_now conn) room name host) conn
  end.

(** What follows the look into [_applied], up to the commit. *)
Definition apply_fresh (request_id : string) (msg : ChatMessage) (plan : Plan) (self_id : string) : CM Z :=
  let message_id := default request_id (mg_id msg) in
  let* at_ := etotal (fun conn => (default (rfc3339 (n_secs conn)) (mg_at msg), conn)) in
  let* _ := bind_room (pl_bind_room plan) in
  let* affected := (fun conn => nsql (insert_message message_id (message_row (sql_now conn) (pl_scope plan) (pl_sender plan) at_ msg)) conn) in
  let* _ := (match pl_fan_out_room plan with
             | Some room => if affected =? 1 then fan_out message_id (pl_sender plan) room at_ self_id msg else eret tt
             | None => eret tt
             end) in
  let* _ := (fun conn => nsql (insert_applied request_id (rfc3339 (n_secs conn)) (affected_json affected)) conn) in
  let* _ := commit in
  eret affected.

Definition apply_message (request_id : string) (msg : ChatMessage) (plan : Plan) (self_id : string) : CM Z :=
  let* _ := begin_transaction in
  in_transaction
    (let* recorded := nquery (applied_row request_id) in
     match recorded with
     | Some json => let* _ := commit in eret (default 0 (fst (parse_outcome json)))
     | None => apply_fresh request_id msg plan self_id
     end).

(** ** The handler *)

Definition chat_served conn : bool * NConn D :=
  let '(served, conn) := served_modulations conn in (existsb (fun m => mod_matches "chat" m) served, conn).

Definition chat_direction (lane : Lane) : string := match lane with Owner => "local" | Remote => "in" end.

(** The decision with its ledger row: the reason of a denial. *)
Definition decide_chat (peer id : string) (req : Request) (chain : Chain) (lane : Lane) (plan : Plan) conn :
    option string * NConn D :=
  let footprint := from_tables Write [(pl_resource plan, [])] in
  match lane with
  | Owner => (None, snd (audit_full_dir (mkAuditEntry "local" peer id (rq_signal req) (footprint_to_json footprint)
                                           "allow" "owner" None 0) conn))
  | Remote =>
      let '(decided, conn) := on_auth (fun a : Conn => decide chain a peer "chat" footprint (rq_signal req)) conn in
      let '(decision, reason) := sparql_decision_str (dc_decision decided) in
      (reason, snd (audit_full peer id (rq_signal req) (footprint_to_json footprint) decision (dc_decided_by decided) reason 0 conn))
  end.

Definition refused (peer : string) (req : Request) (lane : Lane) (reason : string) : NConn D -> NConn D :=
  audit_direct_dir (chat_direction lane) peer (id_string req) (rq_signal req) "deny" "node" reason.

(** The host of the message's room. *)
Definition message_host (msg : ChatMessage) conn : option string * NConn D :=
  match mg_room msg with
  | None => (None, conn)
  | Some room => hosted room conn
  end.

(** A message that was parsed. *)
Definition deliver (peer : string) (req : Request) (chain : Chain) (lane : Lane) (msg : ChatMessage) conn :
    ChatOutcome * NConn D :=
  let '(self_id, conn) := get_rsntr "endpoint_id" conn in
  let self_id := default "" self_id in
  let '(host, conn) := message_host msg conn in
  match plan_for peer self_id msg host with
  | Err reason => (ChDenied reason, refused peer req lane reason conn)
  | Ok plan =>
      match decide_chat peer (id_string req) req chain lane plan conn with
      | (Some reason, conn) => (ChDenied reason, conn)
      | (None, conn) =>
          match apply_message (id_string req) msg plan self_id conn with
          | (Ok affected, conn) => (ChApplied affected, conn)
          | (Err e, conn) => (ChEngineError (se_text e), conn)
          end
      end
  end.

Definition handle_served (peer : string) (req : Request) (chain : Chain) (lane : Lane) conn : ChatOutcome * NConn D :=
  match ensure_chat_tables conn with
  | (Err e, conn) => (ChEngineError ("chat tables unavailable: " +:+ se_text e), conn)
  | (Ok _, conn) =>
      match parse_message (rq_signal req) with
      | Err (CProtocol message) => (ChBadRequest message, refused peer req lane message conn)
      | Err (CLimit message) => (ChLimitExceeded message, refused peer req lane message conn)
      | Ok msg => deliver peer req chain lane msg conn
      end
  end.

Definition handle_chat (peer : string) (req : Request) (chain : Chain) (lane : Lane) conn : ChatOutcome * NConn D :=
  let '(known, conn) := match lane with Owner => (true, conn) | Remote => peer_known peer conn end in
  if negb known then
    (ChUnknownPeer, audit_direct peer (id_string req) (rq_signal req) "deny" "peer-gate" "unknown peer" conn)
  else
    let '(served, conn) := chat_served conn in
    if negb served then (ChModUnsupported, conn) else handle_served peer req chain lane conn.

(** ** The lanes *)

Abbreviation Serve := (@Serve D).

Definition chat_frames (id : string) (outcome : ChatOutcome) : list EnvelopeObject :=
  let error code reason := [OError (mkErrorEnvelope (Some id) (ErrorCode_as_str code) (Some reason))] in
  match outcome with
  | ChUnknownPeer => [ODenied (mkDenied (Some id) (Some unknown_peer_reason))]
  | ChModUnsupported => error ModUnsupported (jq "modulation 'chat' is not served by this node")
  | ChDenied reason => [ODenied (mkDenied (Some id) (Some reason))]
  | ChBadRequest message => error ProtocolErrorCode message
  | ChLimitExceeded message => error LimitExceeded message
  | ChEngineError message => error EngineError message
  | ChApplied affected =>
      [OResult (mkResultHeader id [] []); ODone (mkDone id (Some 0) (Some affected) None false)]
  end.

Definition answer_chat_outcome (id : string) (outcome : ChatOutcome) : Serve := tell_all (chat_frames id outcome).

Variable self : Node (D:=D).

Definition handle_and_answer (peer : string) (request : Request) (lane : Lane) : Serve := fun '(conn, ch) =>
  let '(outcome, conn) := handle_chat peer request (nn_chain self) lane conn in
  answer_chat_outcome (id_string request) outcome (conn, ch).

Definition serve_chat (peer : string) (request : Request) : Serve :=
  match rq_params request with
  | [] => handle_and_answer peer request Remote
  | _ => send_error (Some (id_string request)) ProtocolErrorCode "a chat Execute carries no parameters on this surface"
  end.

(** The attachment of the owner's message is imported from its path first. *)
Definition serve_chat_owner (peer : string) (request : Request) : Serve :=
  let id := Some (id_string request) in
  match rq_params request with
  | [] => handle_and_answer peer request Owner
  | [Text path] =>
      match nn_importer self with
      | None => send_error id EngineError "no blob store is wired on this node; import the attachment in-process instead"
      | Some importer =>
          match importer path with
          | Err e => send_error id EngineError ("attachment import failed: " +:+ e)
          | Ok _ => handle_and_answer peer request Owner
          end
      end
  | _ => send_error id ProtocolErrorCode
           "a chat Execute on the owner channel carries at most one parameter: the attachment source path as a text literal"
  end.

End chat.
