(* ===== verification/NodeChatProps.v ===== *)
(** * NodeChatProps: messages are stored once, by those who may *)

From S2P Require Import Prelude RustStd Collections Effect Vocab External Instances Value Envelope Request Response AuthTypes Chain.
From S2P Require Import CivilDate Authorizer NodeDb NodeGate NodeDemo NodeGateProps NodeExecute NodeExecuteProps.
From S2P Require Import NodeFrames NodeProjection NodeSparql NodeSparqlProps NodeDdl NodeSpec NodeDdlProps NodeChatMsg.
From S2P Require Import NodeChat.

Open Scope Z_scope.

(** ** The tables of the chat *)

Section tables.
Context {D : Type}.
Implicit Types (d : NodeDb D) (conn : NConn D) (t : ChatTables).

(** A table that is missing holds nothing. *)
Definition messages d : gmap string MessageRow := default ∅ (ct_messages (chat_of d)).
Definition rooms d : gmap string RoomRow := default ∅ (ct_rooms (chat_of d)).
Definition members d : gset (string * string) := default ∅ (ct_members (chat_of d)).
Definition queue d : list OutboxRow := default [] (sv_outbox (nd_surface d)).

(** The columns added later are there. *)
Definition columns t : Prop := ct_messages t = None \/ (ct_has_re t = true /\ ct_has_tags t = true).
Definition complete t : Prop :=
  is_Some (ct_messages t) /\ ct_has_re t = true /\ ct_has_tags t = true /\ is_Some (ct_rooms t) /\ is_Some (ct_members t).

Definition same_chat d d' : Prop :=
  messages d' = messages d /\ rooms d' = rooms d /\ members d' = members d /\ queue d' = queue d /\ nd_applied d' = nd_applied d /\
  (columns (chat_of d) -> columns (chat_of d')).

#[export] Instance same_chat_preorder : PreOrder same_chat.
Proof. split; unfold same_chat, Reflexive, Transitive; naive_solver congruence. Qed.

(** What making the tables may do. *)
Definition prepared t t' : Prop :=
  (columns t -> columns t') /\ default ∅ (ct_messages t') = default ∅ (ct_messages t) /\
  default ∅ (ct_rooms t') = default ∅ (ct_rooms t) /\ default ∅ (ct_members t') = default ∅ (ct_members t).

Definition readied d d' : Prop :=
  prepared (chat_of d) (chat_of d') /\ nd_auth d' = nd_auth d /\ nd_applied d' = nd_applied d /\
  sv_outbox (nd_surface d') = sv_outbox (nd_surface d).

#[export] Instance readied_preorder : PreOrder readied.
Proof.
  split; [by intros d; unfold readied, prepared; split_and!|].
  intros d1 d2 d3 ((Hc & ? & ? & ?) & ? & ? & ?) ((Hc' & ? & ? & ?) & ? & ? & ?). unfold readied, prepared.
  split_and!; [auto|congruence..].
Qed.

Lemma readied_same d d' : readied d d' -> columns (chat_of d) -> same_chat d d' /\ columns (chat_of d').
Proof.
  intros ((Hp & Hm & Hr & Hmb) & Ha & Hap & Ho) Hc. split; [|auto]. unfold same_chat, messages, rooms, members, queue. by rewrite Ho.
Qed.

(** Code that readies the tables: from [Pre] to [Post]. *)
Definition readies {A} (Pre : NodeDb D -> Prop) (m : Eff (NConn D) SqlError A) (Post : A -> NodeDb D -> Prop) : Prop :=
  does Pre m (fun d a d' => Pre d -> readied d d' /\ Post a d') (fun d d' => Pre d -> readied d d').

Lemma readies_bind {A B} Pre (m : Eff (NConn D) SqlError A) Mid (f : A -> Eff (NConn D) SqlError B) Post :
  readies Pre m Mid -> (forall a, readies (Mid a) (f a) Post) -> readies Pre (ebind f m) Post.
Proof.
  intros Hm Hf c r c'. unfold ebind. destruct (m c) as [[a|e] c1] eqn:Em; apply Hm in Em as (Hs & Hh & Hr).
  - intros (Hs' & Hh' & Hr')%Hf. split_and!; [congruence|auto|]. destruct r as [b|e].
    + intros Hp. destruct (Hr Hp) as [Hr1 Hmid]. destruct (Hr' Hmid). split; [by etrans|done].
    + destruct Hr' as [Hq Hn]. split; [|intros Hc Hp; apply (Hn (Hh Hc)); by apply Hr].
      intros Hp. destruct (Hr Hp) as [Hr1 Hmid]. by etrans; [|apply Hq].
  - by intros [= <- <-].
Qed.

Lemma readies_ret {A} Pre (a : A) (Post : A -> NodeDb D -> Prop) : (forall d, Pre d -> Post a d) -> readies Pre (eret a) Post.
Proof. intros Hp c r c' [= <- <-]. do 2 (split; [done|]). intros Hc. split; [done|by apply Hp]. Qed.

Lemma readies_query {A} Pre (f : NodeDb D -> result SqlError A) (Post : A -> NodeDb D -> Prop) :
  (forall d, Pre d -> exists a, f d = Ok a /\ Post a d) -> readies Pre (nquery f) Post.
Proof.
  intros Hp. eapply does_conseq; [apply does_nquery| | |].
  - intros d Hd. destruct (Hp d Hd) as (a & -> & _). done.
  - intros d a d' [Hf ->] Hd. split; [reflexivity|]. destruct (Hp d Hd) as (a' & Hf' & ?). rewrite Hf in Hf'. by injection Hf' as <-.
  - intros d d' -> _. reflexivity.
Qed.

Lemma readies_change Pre (f : ChatTables -> ChatTables) (Post : unit -> NodeDb D -> Prop) :
  (forall d, Pre d -> prepared (chat_of d) (f (chat_of d)) /\ Post tt (on_chat f d)) -> readies Pre (change_chat f) Post.
Proof.
  intros Hp. eapply does_conseq; [apply does_nsql|done| |].
  - intros d [] d' [= <-] Hd. destruct (Hp d Hd) as [Hf Hpost]. by split.
  - intros d d' -> _. reflexivity.
Qed.

Definition columned d : Prop := is_Some (ct_messages (chat_of d)) /\ ct_has_re (chat_of d) = true /\ ct_has_tags (chat_of d) = true.

Lemma ready_messages : readies (fun d => columns (chat_of d)) (change_chat create_messages) (fun _ => columned).
Proof.
  apply readies_change. intros d Hc. unfold columned, prepared. change (chat_of (on_chat create_messages d)) with (create_messages (chat_of d)).
  unfold create_messages. destruct (ct_messages (chat_of d)) as [t|] eqn:E; cbn.
  - rewrite E. destruct Hc as [?|[Hr Ht]]; [congruence|]. split; [done|]. split_and!; done.
  - rewrite ?E. split_and!; try done. intros _. by right.
Qed.

Lemma ready_columns : readies (fun d => complete (chat_of d)) ensure_chat_columns (fun _ d => complete (chat_of d)).
Proof.
  unfold ensure_chat_columns. apply readies_bind with (Mid := fun _ d => complete (chat_of d)); [apply readies_query; by eexists|].
  intros b. destruct (negb b); [by apply readies_ret|].
  apply readies_bind with (Mid := fun (has : bool) d => has = true /\ complete (chat_of d)).
  { apply readies_query. intros d Hd. eexists. split; [done|]. split; [apply Hd|done]. }
  intros has. apply readies_bind with (Mid := fun _ d => complete (chat_of d)).
  { destruct has; [by apply readies_ret; intros d [_ ?]|]. apply (readies_change _ add_re). by intros d [? _]. }
  intros []. apply readies_bind with (Mid := fun (has : bool) d => has = true /\ complete (chat_of d)).
  { apply readies_query. intros d Hd. eexists. split; [done|]. split; [apply Hd|done]. }
  intros has'. apply readies_bind with (Mid := fun _ d => complete (chat_of d)).
  { destruct has'; [by apply readies_ret; intros d [_ ?]|]. apply (readies_change _ add_tags). by intros d [? _]. }
  intros []. apply readies_bind with (Mid := fun _ d => complete (chat_of d)).
  { apply readies_query. intros d Hd. exists tt. destruct Hd as (? & Hre & Hd). unfold chat_of in *. rewrite Hre. done. }
  intros []. apply (readies_change _ create_log_view). intros d Hd. split; [|exact Hd]. by destruct Hd as (? & ? & ?).
Qed.

Lemma ready_tables : readies (fun d => columns (chat_of d)) ensure_chat_tables (fun _ d => complete (chat_of d)).
Proof.
  unfold ensure_chat_tables. eapply readies_bind; [apply ready_messages|]. intros [].
  apply readies_bind with (Mid := fun _ => columned); [by apply readies_query; eexists|].
  intros []. apply readies_bind with (Mid := fun _ d => columned d /\ is_Some (ct_rooms (chat_of d))).
  { apply readies_change. intros d Hd. split; [done|]. split; [exact Hd|by eexists]. }
  intros []. apply readies_bind with (Mid := fun _ d => complete (chat_of d)).
  { apply readies_change. intros d [(? & ? & ?) ?]. split; [done|]. unfold complete. by split_and!. }
  intros []. apply ready_columns.
Qed.
End tables.

(** ** A message stored *)

Section apply.
Context {D : Type} `{HO : !AppliedJson} `{HA : !AffectedJson} `{HW : !JsonText} `{HJ : !JsonPrint}.
Context `{HS : !OxDisplay}.
Implicit Types (d : NodeDb D) (conn : NConn D).

(** The rooms with a new one, unless it is there. *)
Definition bound (plan : Plan) (now : string) (t : gmap string RoomRow) : gmap string RoomRow :=
  match pl_bind_room plan with
  | None => t
  | Some (room, name, host) =>
      match t !! room with Some _ => t | None => <[room := mkRoomRow (SText name) (SText host) (SText now)]> t end
  end.

(** A queued row for one of these members. *)
Definition queued_for (signal : string) (recipients : list string) (r : OutboxRow) : Prop :=
  (exists member, member ∈ recipients /\ ob_peer r = SText member) /\
  ob_mod r = SText "chat" /\ ob_signal r = SText signal /\ ob_status r = SText "queued" /\ exists id, ob_request_id r = SText id.

Definition room_label d (room : string) : option string :=
  match rooms d !! room with Some row => match ro_name row with SText n => Some n | _ => None end | None => None end.

Definition addressees d (room sender self_id : string) : list string :=
  bs_iter (list_to_set (map snd (base.filter (fun m => fst m = room /\ snd m <> sender /\ snd m <> self_id) (elements (members d))))).

(** The message is filed, if its id is new, and goes on to the members; and
    the request is recorded with the count. *)
Definition sent (rid : string) (msg : ChatMessage) (plan : Plan) (self_id : string) d (n : Z) d' : Prop :=
  let id := default rid (mg_id msg) in
  exists now filed_at at_ recorded_at t, default at_ (mg_at msg) = at_ /\
    nd_applied d = Some t /\ t !! rid = None /\
    nd_applied d' = Some (<[rid := mkAppliedRow recorded_at (SText (affected_json n))]> t) /\
    nd_auth d' = nd_auth d /\ members d' = members d /\ rooms d' = bound plan now (rooms d) /\ (columns (chat_of d) -> columns (chat_of d')) /\
    match messages d !! id with
    | Some _ => n = 0 /\ messages d' = messages d /\ queue d' = queue d
    | None =>
        n = 1 /\ messages d' = <[id := message_row filed_at (pl_scope plan) (pl_sender plan) at_ msg]> (messages d) /\
        exists rows, queue d' = queue d ++ rows /\
          match pl_fan_out_room plan with
          | None => rows = []
          | Some room =>
              Forall (queued_for (message_to_turtle (fan_out_message id (pl_sender plan) room at_
                                                       (room_label d room) msg))
                        (addressees d room (pl_sender plan) self_id)) rows
          end
    end.

(** What storing needs, when no statement fails. *)
Definition storable (rid : string) d : Prop :=
  complete (chat_of d) /\ (exists t, nd_applied d = Some t /\ t !! rid = None) /\
  forall room row, rooms d !! room = Some row -> exists n, ro_name row = SText n.

(** Only the queue changes. *)
Definition enqueued (signal : string) (recipients : list string) d d' : Prop :=
  exists rows, queue d' = queue d ++ rows /\ Forall (queued_for signal recipients) rows /\
    chat_of d' = chat_of d /\ nd_applied d' = nd_applied d /\ nd_auth d' = nd_auth d.

Lemma does_enqueue signal recipients u member : member ∈ recipients ->
  does (fun _ => True) (enqueue_member (D:=D) signal u member) (fun d _ d' => enqueued signal recipients d d') whatever.
Proof.
  intros Hin c r c'. unfold enqueue_member, draw_node_ulid. cbv zeta beta iota.
  set (c1 := mkNConn _ _ _ _ _ _ _ _ _). destruct (nsql _ c1) as [r1 c2] eqn:E. intros [= <- <-]. cbn [snd].
  assert (n_db c1 = n_db c /\ n_saved c1 = n_saved c /\ n_faults c1 = n_faults c) as (Hd1 & Hs1 & Hf1) by done.
  apply nsql_cases in E as [(e & _ & (Hd & Hs & Hh) & _)|([] & d & _ & Hf & Hd & Hs & Hh)].
  - split_and!; [congruence|intros Hc; apply Hh; unfold n_healthy in *; by rewrite Hf1|].
    exists []. rewrite Hd, Hd1, app_nil_r. by split_and!.
  - split_and!; [congruence|intros Hc; apply Hh; unfold n_healthy in *; by rewrite Hf1|].
    rewrite Hd, <-Hd1. unfold insert_outbox, insert_request in Hf. destruct (sv_outbox (nd_surface (n_db c1))) as [t|] eqn:Et; [|done]. cbn in Hf.
    destruct (existsb _ t); [done|]. injection Hf as <-. eexists. split_and!; try reflexivity.
    + unfold queue. rewrite Et. cbn. reflexivity.
    + apply Forall_singleton. split_and!; try done; [by exists member|by eexists].
Qed.

Lemma does_enqueue_all signal recipients l : l ⊆ recipients -> forall u,
  does (fun _ => True) (efold (enqueue_member (D:=D) signal) u l) (fun d _ d' => enqueued signal recipients d d') whatever.
Proof.
  induction l as [|m l IH]; intros Hl u; cbn [efold].
  - eapply does_conseq; [apply (does_ret u whatever)|done| |done]. intros d x d' [_ ->]. exists []. by rewrite app_nil_r.
  - eapply does_conseq; [eapply (does_then _ _ (fun _ => True) (fun _ _ => True) _ _ (fun _ => True));
      [apply (does_enqueue signal recipients); set_solver|intros a; apply IH; set_solver|done]|done| |done].
    intros d b d' (a & d1 & (rows1 & Hq1 & Hf1 & Hc1 & Ha1 & Hn1) & (rows2 & Hq2 & Hf2 & Hc2 & Ha2 & Hn2)).
    exists (rows1 ++ rows2). split_and!; try congruence; [by rewrite Hq2, Hq1, app_assoc|by apply Forall_app].
Qed.

Lemma does_fan_out id sender room at_ self_id msg :
  does (fun d => complete (chat_of d) /\ forall row, rooms d !! room = Some row -> exists n, ro_name row = SText n)
    (fan_out (D:=D) id sender room at_ self_id msg)
    (fun d _ d' => enqueued (message_to_turtle (fan_out_message id sender room at_ (room_label d room) msg))
                     (addressees d room sender self_id) d d') whatever.
Proof.
  unfold fan_out.
  eapply does_conseq with (Pre := fun d => complete (chat_of d) /\ forall row, rooms d !! room = Some row -> exists n, ro_name row = SText n);
    [eapply (does_then _ _ _ (fun _ d => complete (chat_of d)))|done| |done].
  - apply does_nquery.
  - intros room_name. eapply (does_then _ _ _ (fun _ _ => True)); [apply does_nquery| |].
    + intros l. apply (does_enqueue_all _ l l). done.
    + cbv beta. intros d (_ & _ & _ & _ & [mb Hmb]). split; [|done]. unfold recipients. rewrite Hmb. done.
  - cbv beta. intros d [Hc Hrow]. split; [|by intros n d1 [_ ->]]. destruct Hc as (_ & _ & _ & [t Ht] & Hm).
    unfold room_name_row. rewrite Ht. cbn. unfold rooms in Hrow. rewrite Ht in Hrow. cbn in Hrow.
    destruct (t !! room) as [row|]; [|done]. by destruct (Hrow row eq_refl) as [n ->].
  - intros d [] d' (name & d1 & [Hname ->] & l & d2 & [Hl ->] & Hq).
    assert (room_label d room = name) as ->.
    { unfold room_name_row in Hname. unfold room_label, rooms. destruct (ct_rooms (chat_of d)) as [t|]; [|done]. cbn in *.
      destruct (t !! room) as [row|]; [|by simplify_eq]. destruct (ro_name row); cbn in Hname; by simplify_eq. }
    assert (addressees d room sender self_id = l) as ->; [|exact Hq].
    unfold recipients in Hl. unfold addressees, members. destruct (ct_members (chat_of d)); [|done]. cbn in Hl. by simplify_eq.
Qed.

(** What the rest of the database is, but for the named parts. *)
Definition aside d d' : Prop :=
  members d' = members d /\ nd_applied d' = nd_applied d /\ nd_auth d' = nd_auth d /\ (complete (chat_of d) -> complete (chat_of d')) /\
  (columns (chat_of d) -> columns (chat_of d')).

Lemma does_bind_room plan :
  does (fun d => complete (chat_of d)) (bind_room (D:=D) (pl_bind_room plan))
    (fun d _ d' => aside d d' /\ messages d' = messages d /\ queue d' = queue d /\ exists now, rooms d' = bound plan now (rooms d)) whatever.
Proof.
  unfold bind_room, bound. destruct (pl_bind_room plan) as [[[room name] host]|].
  - eapply does_conseq; [apply (does_at (fun c => insert_room (sql_now c) room name host))| | |done].
    + intros d (_ & _ & _ & [t Ht] & _) c. unfold insert_room. by rewrite Ht.
    + intros d [] d' [c Hc]. unfold insert_room in Hc. unfold rooms. destruct (ct_rooms (chat_of d)) as [t|] eqn:Et; [|done].
      cbn in Hc. injection Hc as <-. destruct (t !! room) eqn:Er.
      * split; [by split_and!|]. split_and!; try done. exists "". rewrite Et. cbn. by rewrite Er.
      * split; [split_and!; try done; intros (? & ? & ? & ? & ?); by split_and!|].
        split_and!; try done. exists (sql_now c). cbn. by rewrite Er.
  - eapply does_conseq; [apply (does_ret tt whatever)|done| |done]. intros d x d' [_ ->]. split; [by split_and!|]. split_and!; try done.
    by exists "".
Qed.

Lemma does_insert_message id scope sender at_ msg :
  does (fun d => complete (chat_of d)) (fun c => nsql (insert_message id (message_row (sql_now (D:=D) c) scope sender at_ msg)) c)
    (fun d n d' => aside d d' /\ rooms d' = rooms d /\ queue d' = queue d /\ exists now,
       match messages d !! id with
       | Some _ => n = 0 /\ messages d' = messages d
       | None => n = 1 /\ messages d' = <[id := message_row now scope sender at_ msg]> (messages d)
       end) unchanged.
Proof.
  eapply does_conseq; [apply (does_at (fun c => insert_message id (message_row (sql_now c) scope sender at_ msg)))| | |done].
  - intros d ([t Ht] & Hre & Htags & _) c. unfold insert_message. rewrite Ht, Hre, Htags. cbn. by destruct (t !! id).
  - intros d n d' [c Hc]. unfold insert_message in Hc. unfold messages. destruct (ct_messages (chat_of d)) as [t|] eqn:Et; [|done].
    cbn in Hc. destruct (ct_has_re (chat_of d)) eqn:Hre; [|done]. destruct (ct_has_tags (chat_of d)) eqn:Htags; [|done]. cbn in Hc |- *.
    destruct (t !! id) eqn:Em; injection Hc as <- <-.
    + split; [by split_and!|]. split_and!; try done. exists "". by rewrite Et.
    + split; [split_and!; try done; [intros (? & ? & ? & ? & ?); by split_and!|intros _; by right]|]. split_and!; try done. by exists (sql_now c).
Qed.

Lemma does_record rid n :
  does (fun d => exists t, nd_applied d = Some t /\ t !! rid = None)
    (fun c => nsql (insert_applied (D:=D) rid (rfc3339 (n_secs c)) (affected_json n)) c)
    (fun d _ d' => nd_auth d' = nd_auth d /\ nd_surface d' = nd_surface d /\ exists t recorded_at, nd_applied d = Some t /\ t !! rid = None /\
       nd_applied d' = Some (<[rid := mkAppliedRow recorded_at (SText (affected_json n))]> t)) unchanged.
Proof.
  eapply does_conseq; [apply (does_at (fun c => insert_applied rid (rfc3339 (n_secs c)) (affected_json n)))| | |done].
  - intros d (t & Ht & Hr) c. unfold insert_applied. by rewrite Ht; cbn; rewrite Hr.
  - intros d [] d' [c Hc]. unfold insert_applied in Hc. destruct (nd_applied d) as [t|] eqn:Et; [|done]. cbn in Hc.
    destruct (t !! rid) eqn:Er; [done|]. injection Hc as <-. split_and!; try done. by exists t, (rfc3339 (n_secs c)).
Qed.

(** The fan-out, when there is one to do. *)
Definition forward (id sender at_ self_id : string) (msg : ChatMessage) (room : option string) (n : Z) : Eff (NConn D) SqlError unit :=
  match room with
  | Some room => if n =? 1 then fan_out id sender room at_ self_id msg else eret tt
  | None => eret tt
  end.

Lemma enqueued_none signal l d : enqueued signal l d d.
Proof. exists []. by rewrite app_nil_r. Qed.

Lemma does_forward rid id sender at_ self_id msg room n :
  does (storable rid) (forward id sender at_ self_id msg room n)
    (fun d _ d' => match room with
                   | Some room => enqueued (message_to_turtle (fan_out_message id sender room at_ (room_label d room) msg))
                                    (addressees d room sender self_id) d d' /\ (n <> 1 -> d' = d)
                   | None => d' = d
                   end) whatever.
Proof.
  unfold forward. destruct room as [room|]; [destruct (n =? 1) eqn:En|].
  - eapply does_conseq; [apply does_fan_out| | |done].
    + intros d (Hc & _ & Hr). split; [done|]. intros row. apply Hr.
    + intros d [] d' Hq. split; [done|]. lia.
  - eapply does_conseq; [apply (does_ret tt whatever)|done| |done]. intros d x d' [_ ->]. split; [apply enqueued_none|done].
  - eapply does_conseq; [apply (does_ret tt whatever)|done| |done]. by intros d x d' [_ ->].
Qed.

Lemma storable_aside rid d d' : aside d d' -> rooms d' = rooms d -> storable rid d -> storable rid d'.
Proof. intros (_ & Ha & _ & Hc & _) Hr (Hc0 & Ht & Hn). unfold storable. rewrite Ha, Hr. split_and!; auto. Qed.

Lemma storable_bound rid plan now d d' : aside d d' -> rooms d' = bound plan now (rooms d) -> storable rid d -> storable rid d'.
Proof.
  intros (_ & Ha & _ & Hc & _) Hr (Hc0 & Ht & Hn). unfold storable. rewrite Ha, Hr. split_and!; [auto..|].
  intros room row. unfold bound. destruct (pl_bind_room plan) as [[[rm name] host]|]; [|apply Hn].
  destruct (rooms d !! rm); [apply Hn|]. destruct (base.decide (rm = room)) as [->|Hne]; [|rewrite lookup_insert_ne by done; apply Hn].
  rewrite lookup_insert_eq. intros [= <-]. by eexists.
Qed.

Lemma commits_send rid msg plan self_id at_ :
  pl_fan_out_room plan = None \/ pl_bind_room plan = None -> default at_ (mg_at msg) = at_ ->
  commits (storable rid)
    (let* _ := bind_room (pl_bind_room plan) in
     let* affected := (fun c => nsql (insert_message (default rid (mg_id msg)) (message_row (sql_now (D:=D) c) (pl_scope plan) (pl_sender plan) at_ msg)) c) in
     let* _ := forward (default rid (mg_id msg)) (pl_sender plan) at_ self_id msg (pl_fan_out_room plan) affected in
     let* _ := (fun c => nsql (insert_applied rid (rfc3339 (n_secs c)) (affected_json affected)) c) in
     let* _ := commit in eret affected) (sent rid msg plan self_id).
Proof.
  intros Hplan Hat. eapply commits_conseq with (Pre := storable rid).
  - eapply (commits_then _ _ _ (fun _ => storable rid)); [apply does_bind_room| |].
    2: { intros d Hd. split; [apply Hd|]. intros [] d1 (Ha & _ & _ & now & Hr). by eapply storable_bound. }
    intros u. eapply (commits_then _ _ _ (fun _ => storable rid)); [apply does_insert_message| |].
    2: { intros d Hd. split; [apply Hd|]. intros n d1 (Ha & Hr & _). by eapply storable_aside. }
    intros n. eapply (commits_then _ _ _ (fun _ d => exists t, nd_applied d = Some t /\ t !! rid = None)); [apply (does_forward rid)| |].
    2: { intros d Hd. split; [exact Hd|]. intros [] d1 Hf. destruct Hd as (_ & Ht & _).
         destruct (pl_fan_out_room plan); [|by subst d1]. destruct Hf as [(rows & _ & _ & _ & -> & _) _]. exact Ht. }
    intros u2. eapply (commits_then _ _ _ (fun _ _ => True)); [apply does_record|intros u3; apply commits_ret|by intros d Hd].
  - done.
  - cbv beta. intros d n d' ([] & d1 & (Ha1 & Hm1 & Hq1 & now & Hr1) & n1 & d2 & (Ha2 & Hr2 & Hq2 & now2 & Hm2) & [] & d3 & Hf & [] & d4 & (Hau & Hsu & t & rec & Ht & Hrid & Hap) & -> & ->).
    destruct Ha1 as (Hmb1 & Hap1 & Hau1 & _ & Hcl1), Ha2 as (Hmb2 & Hap2 & Hau2 & _ & Hcl2).
    assert (Hfan : match pl_fan_out_room plan with
                   | Some room => enqueued (message_to_turtle (fan_out_message (default rid (mg_id msg)) (pl_sender plan) room at_ (room_label d room) msg))
                                    (addressees d room (pl_sender plan) self_id) d2 d3 /\ (n1 <> 1 -> d3 = d2)
                   | None => d3 = d2
                   end).
    { destruct (pl_fan_out_room plan) as [room|]; [|done]. destruct Hplan as [?|Hb]; [done|].
      assert (rooms d2 = rooms d) as Hrooms by (rewrite Hr2, Hr1; unfold bound; by rewrite Hb).
      unfold room_label, addressees in *. by rewrite Hrooms, Hmb2, Hmb1 in Hf. }
    assert (messages d3 = messages d2 /\ rooms d3 = rooms d2 /\ members d3 = members d2 /\ nd_applied d3 = nd_applied d2 /\ nd_auth d3 = nd_auth d2 /\ chat_of d3 = chat_of d2) as (Hm3 & Hr3 & Hmb3 & Hap3 & Hau3 & Hch3).
    { destruct (pl_fan_out_room plan); [|by subst d3]. destruct Hfan as [(rows & _ & _ & Hc & -> & ->) _].
      unfold messages, rooms, members. by rewrite Hc. }
    assert (messages d4 = messages d3 /\ rooms d4 = rooms d3 /\ members d4 = members d3 /\ queue d4 = queue d3) as (Hm4 & Hr4 & Hmb4 & Hq4).
    { unfold messages, rooms, members, queue, chat_of. by rewrite Hsu. }
    exists now, now2, at_, rec, t. split_and!; try congruence.
    1: { unfold chat_of in *. rewrite Hsu, Hch3. auto. }
    rewrite Hm1 in Hm2. destruct (messages d !! _) eqn:Em; destruct Hm2 as [-> Hm2].
    + split_and!; [done|congruence|]. assert (d3 = d2) as ->; [|congruence]. destruct (pl_fan_out_room plan); [by apply Hfan|done].
    + split_and!; [done|congruence|]. destruct (pl_fan_out_room plan) as [room|].
      * destruct Hfan as [(rows & Hq & Hall & _) _]. exists rows. split; [congruence|exact Hall].
      * exists []. rewrite app_nil_r. split; [congruence|done].
Qed.

Lemma commits_apply_fresh rid msg plan self_id : pl_fan_out_room plan = None \/ pl_bind_room plan = None ->
  commits (storable rid) (apply_fresh (D:=D) rid msg plan self_id) (sent rid msg plan self_id).
Proof.
  intros Hplan c r c' d0 Hs. unfold apply_fresh, ebind at 1, etotal. set (at_ := default _ (mg_at msg)).
  apply (commits_send rid msg plan self_id at_ Hplan); [|done]. unfold at_. by destruct (mg_at msg).
Qed.

(** A request that is recorded is answered from its record; another is sent. *)
Definition answered (rid : string) (msg : ChatMessage) (plan : Plan) (self_id : string) d (n : Z) d' : Prop :=
  (exists json, applied_row rid d = Ok (Some json) /\ n = default 0 (fst (parse_outcome json)) /\ d' = d) \/
  (applied_row rid d = Ok None /\ sent rid msg plan self_id d n d').

(** An error changes nothing. *)
Lemma apply_cases rid msg plan self_id c r c' : pl_fan_out_room plan = None \/ pl_bind_room plan = None -> n_saved c = None ->
  apply_message rid msg plan self_id c = (r, c') ->
  n_saved c' = None /\ (n_healthy c -> n_healthy c') /\
  match r with
  | Ok n => answered rid msg plan self_id (n_db c) n (n_db c')
  | Err _ => n_db c' = n_db c /\ (n_healthy c -> ~ storable rid (n_db c))
  end.
Proof.
  intros Hplan Hs Hrun. eapply (transaction_does (storable rid) _ (answered rid msg plan self_id)) in Hrun; [exact Hrun| |done].
  eapply commits_conseq with (Pre := storable rid).
  - apply (commits_then _ _ (fun d => is_ok (applied_row rid d) = true) (fun recorded d => recorded = None /\ storable rid d)
             (fun d recorded d' => applied_row rid d = Ok recorded /\ d' = d)
             (fun recorded d n d' => match recorded with
                                     | Some json => n = default 0 (fst (parse_outcome json)) /\ d' = d
                                     | None => sent rid msg plan self_id d n d'
                                     end) _ unchanged); [apply does_nquery| |].
    + intros [json|].
      * eapply commits_conseq; [apply commits_ret|done|done].
      * eapply commits_conseq; [by apply commits_apply_fresh|by intros d []|done].
    + intros d Hd. assert (applied_row rid d = Ok None) as Hrow.
      { destruct Hd as (_ & (t & Ht & Hr) & _). unfold applied_row. rewrite Ht. cbn. by rewrite Hr. }
      rewrite Hrow. split; [done|]. by intros recorded d1 [[= <-] ->].
  - done.
  - cbv beta. intros d n d' (recorded & d1 & [Hr ->] & Hres). destruct recorded as [json|]; [left|right; by split].
    destruct Hres as [-> ->]. by exists json.
Qed.
End apply.

(** ** The handler *)

Section handler.
Context {D : Type} `{HR : !RowIds} `{HO : !AppliedJson} `{HA : !AffectedJson} `{HW : !JsonText} `{HJ : !JsonPrint}.
Context `{HC : !ChainJson} `{HN : !NodeText} `{HU : !UlidLib} `{HS : !OxDisplay} `{HX : !OxRdf} `{HT : !OxTtl}.
Implicit Types (d : NodeDb D) (conn : NConn D).

(** The chain, over the tables as they are, lets [peer] chat on [resource]. *)
Definition may_chat (chain : Chain) (peer resource signal : string) d (faultless : Prop) : Prop :=
  exists ac, db ac = nd_auth d /\ (faultless -> healthy ac) /\
    fst (sparql_decision_str (dc_decision (fst (decide chain ac peer "chat" (from_tables Write [(resource, [])]) signal)))) = "allow".

Definition own_id d : string := match get_rsntr_row "endpoint_id" d with Ok id => id | Err _ => "" end.

Definition recorded_host d (msg : ChatMessage) : option string :=
  match mg_room msg with
  | None => None
  | Some room => match room_host room d with Ok h => h | Err _ => None end
  end.

Lemma same_data_chat d d' : same_data d d' -> same_chat d d'.
Proof. intros (_ & Hap & _ & _ & Hs). unfold same_chat, messages, rooms, members, queue, chat_of. by rewrite Hs, Hap. Qed.

Lemma served_quiet conn l conn' : served_modulations conn = (l, conn') -> quiet conn conn'.
Proof. unfold served_modulations. destruct (get_rsntr _ conn) as [raw c1] eqn:E. intros [= _ <-]. by eapply get_rsntr_quiet. Qed.

Lemma chat_served_quiet conn b conn' : chat_served conn = (b, conn') -> quiet conn conn'.
Proof. unfold chat_served. destruct (served_modulations conn) as [l c1] eqn:E. intros [= _ <-]. by eapply served_quiet. Qed.

Lemma get_rsntr_own conn v conn' : get_rsntr "endpoint_id" conn = (v, conn') ->
  quiet conn conn' /\ (n_healthy conn -> default "" v = own_id (n_db conn)).
Proof.
  unfold get_rsntr, own_id. destruct (nquery _ conn) as [r c1] eqn:E. apply nquery_cases in E as (Hq & Hr & _).
  intros Hv. assert (c1 = conn' /\ v = match r with Ok x => Some x | Err _ => None end) as [-> ->] by (destruct r; by simplify_eq).
  split; [done|]. intros Hc. rewrite <-(Hr Hc). by destruct r.
Qed.

Lemma message_host_quiet msg conn h conn' : message_host msg conn = (h, conn') ->
  quiet conn conn' /\ (n_healthy conn -> h = recorded_host (n_db conn) msg).
Proof.
  unfold message_host, recorded_host, hosted. destruct (mg_room msg) as [room|]; [|by intros [= <- <-]].
  destruct (nquery _ conn) as [r c1] eqn:E. apply nquery_cases in E as (Hq & Hr & _).
  intros Hh. assert (c1 = conn' /\ h = match r with Ok x => x | Err _ => None end) as [-> ->] by (destruct r; by simplify_eq).
  split; [done|]. intros Hc. by rewrite <-(Hr Hc).
Qed.

Lemma audit_calm e conn : same_data (n_db conn) (n_db (snd (audit_full_dir e conn))) /\
  n_saved (snd (audit_full_dir e conn)) = n_saved conn /\ (n_healthy conn -> n_healthy (snd (audit_full_dir e conn))).
Proof.
  destruct (audit_full_dir e conn) as [i c'] eqn:E. pose proof (audit_data _ _ _ _ E). by apply audit_cases in E as (? & ? & _).
Qed.

Lemma decide_chat_cases peer id req chain lane plan conn reason conn' :
  decide_chat peer id req chain lane plan conn = (reason, conn') ->
  same_data (n_db conn) (n_db conn') /\ n_saved conn' = n_saved conn /\ (n_healthy conn -> n_healthy conn') /\
  (lane = Remote -> reason = None -> may_chat chain peer (pl_resource plan) (rq_signal req) (n_db conn) (n_healthy conn)) /\
  (n_healthy conn -> lane = Remote ->
     (forall ac, db ac = nd_auth (n_db conn) -> healthy ac ->
        dc_decision (fst (decide chain ac peer "chat" (from_tables Write [(pl_resource plan, [])]) (rq_signal req))) = Allow) -> reason = None).
Proof.
  unfold decide_chat. destruct lane.
  - destruct (on_auth _ conn) as [dc c1] eqn:E1. apply on_auth_cases in E1 as (-> & Hd1 & Hs1 & Hh1).
    destruct (sparql_decision_str _) as [ds rs] eqn:Eds. intros [= <- <-].
    match goal with |- context [audit_full ?a ?b ?c0 ?f ?e ?g ?h ?i c1] => pose proof (audit_calm (mkAuditEntry "in" a b c0 f e g h i) c1) as (Hd & Hs & Hh) end.
    assert (same_data (n_db conn) (n_db c1)) as Hd0 by (rewrite Hd1; done).
    split_and!; [by etrans|by rewrite <-Hs1|by auto| |].
    + intros _ ->. exists (auth_conn conn). split_and!; [done|apply healthy_auth|]. cbn in Eds |- *. unfold sparql_decision_str in *.
      destruct (dc_decision _); by simplify_eq.
    + intros Hc _ Hallow. specialize (Hallow (auth_conn conn) eq_refl (healthy_auth _ Hc)). cbn in Hallow, Eds. rewrite Hallow in Eds.
      by simplify_eq/=.
  - intros [= <- <-]. 
    match goal with |- context [audit_full_dir ?e conn] => pose proof (audit_calm e conn) as (Hd & Hs & Hh) end. by split_and!.
Qed.

Lemma plan_for_one peer self_id msg host plan : plan_for peer self_id msg host = Ok plan ->
  pl_fan_out_room plan = None \/ pl_bind_room plan = None.
Proof.
  unfold plan_for. destruct (mg_room msg); [|by intros [= <-]; left]. destruct host as [h|]; [|by intros [= <-]; left].
  case_bool_decide; [by intros [= <-]; right|]. destruct (negb _); [done|]. by intros [= <-]; left.
Qed.

(** What a call leaves behind, and what it answers. *)
Definition handled (peer : string) (req : Request) (chain : Chain) (lane : Lane) (faultless : Prop) d (out : ChatOutcome) d' : Prop :=
  match out with
  | ChApplied n =>
      exists msg plan self_id host d1, parse_message (rq_signal req) = Ok msg /\ plan_for peer self_id msg host = Ok plan /\
        (faultless -> self_id = own_id d /\ host = recorded_host d1 msg) /\
        (lane = Remote -> known_peer d peer = true /\ may_chat chain peer (pl_resource plan) (rq_signal req) d faultless) /\
        same_chat d d1 /\ answered (id_string req) msg plan self_id d1 n d'
  | _ => same_chat d d'
  end.

(** A call on what a call with the same tables, but for those readied, left. *)
Lemma handled_from peer req chain lane (P Q : Prop) d1 d2 out d' :
  same_chat d1 d2 -> nd_auth d2 = nd_auth d1 -> (P -> Q) -> (lane = Remote -> known_peer d2 peer = true) ->
  (lane = Remote -> known_peer d1 peer = true) ->
  handled peer req chain lane Q d2 out d' -> handled peer req chain lane P d1 out d'.
Proof.
  intros Hsame Hauth HPQ Hk2 Hk1. destruct out; cbn [handled]; try by (intros Hr; etrans).
  intros (msg & plan & self_id & host & d3 & Hp & Hplan & Hids & Hmay & Hs & Ha). exists msg, plan, self_id, host, d3. split_and!; try done.
  - intros HP. destruct (Hids (HPQ HP)) as [-> ->]. unfold own_id, get_rsntr_row. by rewrite Hauth.
  - intros Hl. split; [by apply Hk1|]. destruct (Hmay Hl) as (_ & ac & Hac & Hh & Hd). exists ac. split_and!; [congruence|auto|done].
  - by etrans.
Qed.

Lemma deliver_cases peer req chain lane msg conn out conn' :
  parse_message (rq_signal req) = Ok msg -> deliver peer req chain lane msg conn = (out, conn') -> n_saved conn = None ->
  (lane = Remote -> known_peer (n_db conn) peer = true) ->
  n_saved conn' = None /\ (n_healthy conn -> n_healthy conn') /\ handled peer req chain lane (n_healthy conn) (n_db conn) out (n_db conn').
Proof.
  intros Ep Hrun Hs3 Hknown. unfold deliver, refused, audit_direct_dir in Hrun.
  destruct (get_rsntr "endpoint_id" conn) as [own c4] eqn:E4. apply get_rsntr_own in E4 as ((Hd4 & Hs4 & Hh4) & Hown).
  destruct (message_host msg c4) as [host c5] eqn:E5. apply message_host_quiet in E5 as ((Hd5 & Hs5 & Hh5) & Hhost).
  destruct (plan_for peer (default "" own) msg host) as [plan|reason] eqn:Eplan.
  2: { injection Hrun as <- <-. match goal with |- context [audit_full_dir ?e c5] => pose proof (audit_calm e c5) as (Hd & Hsv & Hh) end.
       split_and!; [congruence|by auto 10|]. cbn [handled]. rewrite Hd5, Hd4 in Hd. by apply same_data_chat. }
  destruct (decide_chat _ _ _ _ _ _ c5) as [reason c6] eqn:E6. apply decide_chat_cases in E6 as (Hd6 & Hs6 & Hh6 & Hallow & _).
  rewrite Hd5, Hd4 in Hd6, Hallow.
  destruct reason as [reason|].
  { injection Hrun as <- <-. split_and!; [congruence|by auto 10|]. cbn [handled]. by apply same_data_chat. }
  destruct (apply_message _ _ _ _ c6) as [[n|e] c7] eqn:E7; eapply apply_cases in E7 as (Hs7 & Hh7 & Hr7);
    try (by eapply plan_for_one); try congruence; injection Hrun as <- <-; (split_and!; [done|by auto 10|]); cbn [handled].
  2: { destruct Hr7 as [-> _]. by apply same_data_chat. }
  exists msg, plan, (default "" own), host, (n_db c6). split_and!; try done; [|intros Hl; split; [by apply Hknown|]|by apply same_data_chat].
  - intros Hc. split; [by apply Hown|]. rewrite Hhost by auto. rewrite Hd4. unfold recorded_host, room_host, chat_of.
    destruct Hd6 as (_ & _ & _ & _ & Hsurf). by rewrite Hsurf.
  - destruct (Hallow Hl eq_refl) as (ac & Hac & Hh & Hdec). exists ac. by split_and!; auto.
Qed.

Lemma handle_cases peer req chain lane conn out conn' :
  handle_chat peer req chain lane conn = (out, conn') -> n_saved conn = None -> columns (chat_of (n_db conn)) ->
  n_saved conn' = None /\ (n_healthy conn -> n_healthy conn') /\ handled peer req chain lane (n_healthy conn) (n_db conn) out (n_db conn').
Proof.
  intros Hrun Hs Hcols. unfold handle_chat, audit_direct, audit_direct_dir in Hrun.
  destruct (match lane with Owner => (true, conn) | Remote => peer_known peer conn end) as [known c1] eqn:E1.
  assert (quiet conn c1 /\ (lane = Remote -> known = true -> known_peer (n_db conn) peer = true)) as [(Hd1 & Hs1 & Hh1) Hknown].
  { destruct lane; [|by injection E1 as <- <-]. apply peer_known_cases in E1 as (? & ? & _). split; [done|]. by intros _. }
  destruct known; cbn [negb] in Hrun.
  2: { injection Hrun as <- <-. match goal with |- context [audit_full_dir ?e c1] => pose proof (audit_calm e c1) as (Hd & Hsv & Hh) end.
       split_and!; [congruence|by auto|]. rewrite Hd1 in Hd. by apply same_data_chat. }
  destruct (chat_served c1) as [served c2] eqn:E2. apply chat_served_quiet in E2 as (Hd2 & Hs2 & Hh2). rewrite Hd1 in Hd2.
  destruct served; cbn [negb] in Hrun.
  2: { injection Hrun as <- <-. split_and!; [congruence|by auto|]. cbn [handled]. by rewrite Hd2. }
  unfold handle_served in Hrun. destruct (ensure_chat_tables c2) as [r c3] eqn:E3.
  apply ready_tables in E3 as (Hs3 & Hh3 & Hr3). rewrite Hd2 in Hr3. unfold refused, audit_direct_dir in Hrun.
  assert (match r with Ok _ => readied (n_db conn) (n_db c3) | Err _ => readied (n_db conn) (n_db c3) end) as Hready.
  { destruct r; [by apply Hr3|by apply (proj1 Hr3)]. }
  assert (readied (n_db conn) (n_db c3)) as (Hprep & Hauth & Hrest) by (by destruct r). clear Hready.
  assert (same_chat (n_db conn) (n_db c3)) as Hsame by (by apply readied_same). clear Hr3.
  destruct r as [u|e]; [|injection Hrun as <- <-; split_and!; [congruence|auto|exact Hsame]].
  assert (Hrefuse : forall e, n_saved (snd (audit_full_dir e c3)) = None /\ (n_healthy conn -> n_healthy (snd (audit_full_dir e c3))) /\
                      same_chat (n_db conn) (n_db (snd (audit_full_dir e c3)))).
  { intros e. destruct (audit_calm e c3) as (Hd & Hsv & Hh). split_and!; [congruence|auto|]. etrans; [exact Hsame|by apply same_data_chat]. }
  destruct (parse_message (rq_signal req)) as [msg|[m|m]] eqn:Ep; [|injection Hrun as <- <-; apply Hrefuse..].
  assert (Hknown3 : lane = Remote -> known_peer (n_db c3) peer = true).
  { intros Hl. unfold known_peer, get_rsntr_row, peer_row. rewrite Hauth. by apply Hknown. }
  destruct (deliver_cases _ _ _ _ _ _ _ _ Ep Hrun) as (Hs' & Hh' & Hres); [congruence|done|]. split_and!; [done|auto|].
  eapply handled_from; [exact Hsame|done|..|exact Hres]; auto.
Qed.
End handler.

(** ** Properties *)

Section properties.
Context {D : Type} `{HR : !RowIds} `{HO : !AppliedJson} `{HA : !AffectedJson} `{HW : !JsonText} `{HJ : !JsonPrint}.
Context `{HC : !ChainJson} `{HN : !NodeText} `{HU : !UlidLib} `{HS : !OxDisplay} `{HX : !OxRdf} `{HT : !OxTtl}.
Implicit Types (d : NodeDb D) (conn : NConn D).

(** Nothing is taken back or changed: messages, rooms and their hosts, records
    of requests, the queue. *)
Definition chat_grown d d' : Prop :=
  messages d ⊆ messages d' /\ rooms d ⊆ rooms d' /\ members d' = members d /\ queue d `prefix_of` queue d' /\
  default ∅ (nd_applied d) ⊆ default ∅ (nd_applied d').

#[export] Instance chat_grown_preorder : PreOrder chat_grown.
Proof.
  split; [by intros d; unfold chat_grown; split_and!|].
  intros d1 d2 d3 (? & ? & ? & ? & ?) (? & ? & ? & ? & ?). unfold chat_grown. split_and!; [by etrans..|congruence|by etrans|by etrans].
Qed.

Lemma same_chat_grown d d' : same_chat d d' -> chat_grown d d'.
Proof. intros (Hm & Hr & Hmb & Hq & Ha & _). unfold chat_grown. by rewrite Hm, Hr, Hmb, Hq, Ha. Qed.

Lemma bound_grows plan now (t : gmap string RoomRow) : t ⊆ bound plan now t.
Proof.
  unfold bound. destruct (pl_bind_room plan) as [[[room name] host]|]; [|done]. destruct (t !! room) eqn:E; [done|]. by apply insert_subseteq.
Qed.

Lemma answered_grows rid msg plan self_id d n d' : answered rid msg plan self_id d n d' -> chat_grown d d'.
Proof.
  intros [(json & _ & _ & ->)|(_ & now & filed & at_ & rec & t & _ & Ht & Hrid & Ha & _ & Hmb & Hr & _ & Hm)]; [done|].
  unfold chat_grown. rewrite Ha, Ht, Hr, Hmb. cbn [default]. destruct (messages d !! _) eqn:Em.
  - destruct Hm as (_ & -> & ->). split_and!; try done; [apply bound_grows|by apply insert_subseteq].
  - destruct Hm as (_ & -> & rows & -> & _). split_and!; [by apply insert_subseteq|apply bound_grows|done|by eexists|by apply insert_subseteq].
Qed.

Lemma handled_grows peer req chain lane faultless d out d' : handled peer req chain lane faultless d out d' -> chat_grown d d'.
Proof.
  destruct out; cbn [handled]; try apply same_chat_grown.
  intros (msg & plan & self_id & host & d1 & _ & _ & _ & _ & Hs & Ha). etrans; [by apply same_chat_grown|by eapply answered_grows].
Qed.

(** The id a message is stored under. *)
Definition message_id (req : Request) : option string :=
  match parse_message (rq_signal req) with Ok msg => Some (default (id_string req) (mg_id msg)) | Err _ => None end.

Lemma answered_stored rid msg plan self_id d n d' : answered rid msg plan self_id d n d' ->
  (forall json, applied_row rid d <> Ok (Some json)) -> is_Some (messages d' !! default rid (mg_id msg)).
Proof.
  intros [(json & Hr & _)|(_ & now & filed & at_ & rec & t & _ & _ & _ & _ & _ & _ & _ & _ & Hm)] Hnew; [by destruct (Hnew json)|].
  destruct (messages d !! _) eqn:Em; [|destruct Hm as (_ & -> & _); rewrite lookup_insert_eq; by eexists].
  destruct Hm as (_ & -> & _). by rewrite Em.
Qed.

Lemma answered_again rid msg plan self_id d n d' : answered rid msg plan self_id d n d' ->
  is_Some (messages d !! default rid (mg_id msg)) -> messages d' = messages d /\ queue d' = queue d.
Proof.
  intros [(json & _ & _ & ->)|(_ & now & filed & at_ & rec & t & _ & _ & _ & _ & _ & _ & _ & _ & Hm)] [row Hrow]; [done|].
  rewrite Hrow in Hm. by destruct Hm as (_ & ? & ?).
Qed.

Record Call : Type := mkCall { cl_peer : string; cl_req : Request; cl_chain : Chain; cl_lane : Lane }.

Definition call (k : Call) conn : ChatOutcome * NConn D := handle_chat (cl_peer k) (cl_req k) (cl_chain k) (cl_lane k) conn.

Definition calls (ks : list Call) conn : NConn D := foldl (fun conn k => snd (call k conn)) conn ks.

(** No transaction is open, and the columns added later are there. *)
Definition chat_ready conn : Prop := n_saved conn = None /\ columns (chat_of (n_db conn)).

Lemma answered_columns rid msg plan self_id d n d' : answered rid msg plan self_id d n d' -> columns (chat_of d) -> columns (chat_of d').
Proof. intros [(json & _ & _ & ->)|(_ & now & filed & at_ & rec & t & _ & _ & _ & _ & _ & _ & _ & Hc & _)]; auto. Qed.

Lemma handled_columns peer req chain lane faultless d out d' :
  handled peer req chain lane faultless d out d' -> columns (chat_of d) -> columns (chat_of d').
Proof.
  destruct out; cbn [handled]; try by intros (_ & _ & _ & _ & _ & ?).
  intros (msg & plan & self_id & host & d1 & _ & _ & _ & _ & (_ & _ & _ & _ & _ & Hs) & Ha) Hc. eapply answered_columns; [exact Ha|auto].
Qed.

Lemma call_cases k conn out conn' : call k conn = (out, conn') -> chat_ready conn ->
  chat_ready conn' /\ handled (cl_peer k) (cl_req k) (cl_chain k) (cl_lane k) (n_healthy conn) (n_db conn) out (n_db conn').
Proof.
  intros Hk [Hs Hc]. apply handle_cases in Hk as (Hs' & _ & Hh); [|done..]. split; [|done]. split; [done|]. by eapply handled_columns.
Qed.

Lemma calls_grow ks : forall conn, chat_ready conn -> chat_ready (calls ks conn) /\ chat_grown (n_db conn) (n_db (calls ks conn)).
Proof.
  induction ks as [|k ks IH]; intros conn Hr; [done|]. cbn [calls foldl]. destruct (call k conn) as [out conn1] eqn:E.
  apply call_cases in E as [Hr1 Hg%handled_grows]; [|done]. destruct (IH conn1 Hr1) as [Hr2 Hg2]. split; [exact Hr2|by etrans].
Qed.

Lemma handled_stored req peer chain lane faultless d n d' mid :
  handled peer req chain lane faultless d (ChApplied n) d' -> message_id req = Some mid ->
  (forall json, applied_row (id_string req) d <> Ok (Some json)) -> is_Some (messages d' !! mid).
Proof.
  intros (msg & plan & self_id & host & d1 & Hp & _ & _ & _ & (_ & _ & _ & _ & Hap & _) & Ha) Hid Hnew.
  unfold message_id in Hid. rewrite Hp in Hid. injection Hid as <-. eapply answered_stored; [exact Ha|].
  unfold applied_row in *. by rewrite Hap.
Qed.

Lemma handled_again req peer chain lane faultless d out d' mid :
  handled peer req chain lane faultless d out d' -> message_id req = Some mid -> is_Some (messages d !! mid) ->
  messages d' = messages d /\ queue d' = queue d.
Proof.
  destruct out as [| | | | | |n]; cbn [handled]; try by intros (-> & _ & _ & -> & _).
  intros (msg & plan & self_id & host & d1 & Hp & _ & _ & _ & (Hm & _ & _ & Hq & _ & _) & Ha) Hid Hold.
  unfold message_id in Hid. rewrite Hp in Hid. injection Hid as <-. rewrite <-Hm, <-Hq. eapply answered_again; [exact Ha|]. by rewrite Hm.
Qed.

(** Whoever sends a message with an id first, however many calls follow,
    by whoever: another send of a message with that id (a retransmission, a
    second path, another request) stores nothing and queues nothing, and what
    was stored stays as it is. A request that fails leaves the chat as it
    was. *)
Theorem chat_stored_once (k1 k2 : Call) (between : list Call) (conn conn1 conn3 : NConn D) (n : Z) (out : ChatOutcome) (mid : string)
    (Hready : chat_ready conn) (Hfirst : call k1 conn = (ChApplied n, conn1))
    (Hnew : forall json, applied_row (id_string (cl_req k1)) (n_db conn) <> Ok (Some json))
    (Hagain : call k2 (calls between conn1) = (out, conn3))
    (Hid1 : message_id (cl_req k1) = Some mid) (Hid2 : message_id (cl_req k2) = Some mid) :
  let conn2 := calls between conn1 in
  messages (n_db conn3) = messages (n_db conn2) /\ queue (n_db conn3) = queue (n_db conn2) /\
  exists row, messages (n_db conn1) !! mid = Some row /\ messages (n_db conn3) !! mid = Some row /\
    chat_grown (n_db conn) (n_db conn3).
Proof.
  cbv zeta. apply call_cases in Hfirst as [Hr1 H1]; [|done]. destruct (calls_grow between conn1 Hr1) as [Hr2 Hg2].
  apply call_cases in Hagain as [_ H3]; [|done].
  destruct (handled_stored _ _ _ _ _ _ _ _ _ H1 Hid1 Hnew) as [row Hrow].
  assert (messages (n_db (calls between conn1)) !! mid = Some row) as Hrow2 by (eapply lookup_weaken; [exact Hrow|apply Hg2]).
  destruct (handled_again _ _ _ _ _ _ _ _ _ H3 Hid2) as [Hm Hq]; [by eexists|]. split_and!; [done..|].
  exists row. split_and!; [done|by rewrite Hm|]. etrans; [by eapply handled_grows|]. etrans; [exact Hg2|by eapply handled_grows].
Qed.

(** ** Who writes where *)

Definition hosts_readable d : Prop := forall room row, rooms d !! room = Some row -> exists h, ro_host row = SText h.

(** The host a room is bound to. *)
Definition host_of d (room : string) : option string :=
  match rooms d !! room with
  | Some row => match ro_host row with SText h => Some h | _ => None end
  | None => None
  end.

Lemma recorded_host_of d d1 msg room : same_chat d d1 -> hosts_readable d -> mg_room msg = Some room -> recorded_host d1 msg = host_of d room.
Proof.
  intros (_ & Hr & _) Hh Hroom. unfold recorded_host, host_of. rewrite Hroom, <-Hr. unfold hosts_readable in Hh. rewrite <-Hr in Hh.
  unfold room_host, rooms in *. destruct (ct_rooms (chat_of d1)) as [t|]; [|done]. cbn in *.
  destruct (t !! room) as [row|] eqn:E; [|done]. by destruct (Hh room row E) as [h ->].
Qed.

(** A message of [peer] filed in a room, or with the peer itself. *)
Definition rightful (peer : string) (msg : ChatMessage) (resource : string) (row : MessageRow) d d' : Prop :=
  match mg_room msg with
  | None => resource = DIRECT_RESOURCE /\ ms_sender row = peer /\ ms_scope row = peer
  | Some room =>
      ms_scope row = room /\
      ((host_of d room = Some (own_id d) /\ resource = room /\ ms_sender row = peer) \/
       (host_of d' room = Some peer /\ resource = DIRECT_RESOURCE /\ ms_sender row = default peer (mg_from msg)))
  end.

Lemma sent_hosts peer self_id host rid msg plan d n d' :
  plan_for peer self_id msg host = Ok plan -> sent rid msg plan self_id d n d' ->
  forall room, rooms d !! room = None -> is_Some (rooms d' !! room) -> host_of d' room = Some peer.
Proof.
  intros Hplan (now & filed & at_ & rec & t & _ & _ & _ & _ & _ & _ & Hr & _) room Hnone. unfold host_of. rewrite Hr. unfold bound.
  unfold plan_for in Hplan. destruct (mg_room msg) as [rm|]; [|by injection Hplan as <-; cbn; rewrite Hnone; intros []].
  destruct host as [h|].
  - assert (pl_bind_room plan = None) as ->; [|by rewrite Hnone; intros []].
    revert Hplan. case_bool_decide; [by intros [= <-]|]. destruct (negb _); [done|]. by intros [= <-].
  - injection Hplan as <-. cbn. destruct (rooms d !! rm) as [row|] eqn:E; [by rewrite Hnone; intros []|].
    destruct (base.decide (rm = room)) as [->|Hne]; [by rewrite lookup_insert_eq|]. rewrite lookup_insert_ne by done. rewrite Hnone. by intros [].
Qed.

Lemma sent_rightful peer host rid msg plan d0 d n d' mid row :
  plan_for peer (own_id d0) msg host = Ok plan -> (forall room, mg_room msg = Some room -> host = host_of d0 room) ->
  rooms d = rooms d0 -> hosts_readable d0 ->
  sent rid msg plan (own_id d0) d n d' -> messages d !! mid = None -> messages d' !! mid = Some row ->
  mid = default rid (mg_id msg) /\ ms_body row = mg_body msg /\ rightful peer msg (pl_resource plan) row d0 d'.
Proof.
  intros Hplan Hhost Hrooms Hread Hsent Hnone Hsome. assert (Hsent2 := Hsent).
  destruct Hsent as (now & filed & at_ & rec & t & _ & _ & _ & _ & _ & _ & Hr & _ & Hm).
  destruct (messages d !! default rid (mg_id msg)) eqn:Em.
  { destruct Hm as (_ & Hm & _). rewrite Hm in Hsome. congruence. }
  destruct Hm as (_ & Hm & _). rewrite Hm in Hsome.
  destruct (base.decide (default rid (mg_id msg) = mid)) as [<-|Hne]; [|rewrite lookup_insert_ne in Hsome by done; congruence].
  rewrite lookup_insert_eq in Hsome. injection Hsome as <-. split_and!; [done..|]. unfold rightful.
  assert (Hp := Hplan). unfold plan_for in Hplan. destruct (mg_room msg) as [room|]; [|by injection Hplan as <-].
  specialize (Hhost room eq_refl). subst host. destruct (host_of d0 room) as [h|] eqn:Eh.
  - revert Hplan. case_bool_decide as Hown; [intros [= <-]; subst h; split; [done|]; by left|].
    case_bool_decide as Hpeer; [|done]. intros [= <-]. split; [done|]. right. split_and!; try done. unfold host_of in *. rewrite Hr, Hrooms.
    cbn. by rewrite Eh, Hpeer.
  - injection Hplan as <-. split; [done|]. right. split_and!; try done.
    assert (rooms d !! room = None) as Hnr.
    { rewrite Hrooms. unfold host_of in Eh. destruct (rooms d0 !! room) as [rw|] eqn:E; [|done]. by destruct (Hread _ _ E) as [x Hx]; rewrite Hx in Eh. }
    eapply sent_hosts; [exact Hp|exact Hsent2|exact Hnr|]. rewrite Hr. unfold bound. cbn. rewrite Hnr, lookup_insert_eq. by eexists.
Qed.

(** C19. A message is stored under its sender's name: a peer's own messages under
    the peer's id, wherever this node decides (direct messages, and the rooms
    it hosts); in another node's room only what the host recorded for it
    forwards, with the author it names. A room's host is recorded once, the
    first to deliver into it, and never changes. The chain allowed the peer
    to write there. *)
Theorem chat_authors (peer : string) (req : Request) (chain : Chain) (conn conn' : NConn D) (out : ChatOutcome)
    (Hready : chat_ready conn) (Hhealthy : n_healthy conn) (Hhosts : hosts_readable (n_db conn))
    (Hrun : handle_chat peer req chain Remote conn = (out, conn')) :
  (forall room h, host_of (n_db conn) room = Some h -> host_of (n_db conn') room = Some h) /\
  (forall room, rooms (n_db conn) !! room = None -> is_Some (rooms (n_db conn') !! room) -> host_of (n_db conn') room = Some peer) /\
  (forall mid row, messages (n_db conn) !! mid = None -> messages (n_db conn') !! mid = Some row ->
     known_peer (n_db conn) peer = true /\
     exists msg resource, parse_message (rq_signal req) = Ok msg /\ mid = default (id_string req) (mg_id msg) /\
       ms_body row = mg_body msg /\ may_chat chain peer resource (rq_signal req) (n_db conn) True /\
       rightful peer msg resource row (n_db conn) (n_db conn')).
Proof.
  destruct Hready as [Hs Hc]. apply handle_cases in Hrun as (_ & _ & Hh); [|done..]. split_and!.
  - intros room h. apply handled_grows in Hh as (_ & Hr & _). unfold host_of. destruct (rooms (n_db conn) !! room) as [row|] eqn:E; [|done].
    by rewrite (lookup_weaken _ _ _ _ E Hr).
  - intros room Hnone [row Hrow]. destruct out as [| | | | | |n]; cbn [handled] in Hh; try by (destruct Hh as (_ & Hr & _); congruence).
    destruct Hh as (msg & plan & self_id & host & d1 & _ & Hplan & _ & _ & (_ & Hr & _) & [(json & _ & _ & Hd)|[_ Hsent]]); [congruence|].
    eapply sent_hosts; [exact Hplan|exact Hsent|by rewrite Hr|by eexists].
  - intros mid row Hnone Hsome. destruct out as [| | | | | |n]; cbn [handled] in Hh; try by (destruct Hh as (Hm & _); congruence).
    destruct Hh as (msg & plan & self_id & host & d1 & Hp & Hplan & Hids & Hmay & Hsame & Hans).
    destruct (Hids Hhealthy) as [-> ->]. destruct (Hmay eq_refl) as (Hk & ac & Hac & Hhc & Hdec). split; [done|].
    destruct Hans as [(json & _ & _ & Hd)|[_ Hsent]]; [destruct Hsame as (Hm & _); congruence|].
    destruct (sent_rightful peer _ (id_string req) _ _ (n_db conn) d1 n (n_db conn') mid row Hplan) as (Hmid & Hbody & Hright); try done.
    + intros room Hroom. by apply recorded_host_of.
    + apply Hsame.
    + destruct Hsame as (Hm & _). by rewrite Hm.
    + exists msg, (pl_resource plan). split_and!; try done. exists ac. by split_and!; auto.
Qed.
End properties.

(** ** Witnesses *)

Module Club.

#[export] Existing Instances low_ids plain_text open_json.
#[export] Existing Instances ChatWitness.nt_display ChatWitness.nt_display_laws ChatWitness.any_rdf ChatWitness.store_reader.
#[export] Instance chat_json : JsonText := { json_value := fun _ => None; json_strings := fun _ => Some ["chat"] }.
#[export] Instance chat_print : JsonPrint := { json_of_strings := RustStd.join "," }.
#[export] Instance count_json : AffectedJson := { affected_json := int_to_string }.
#[export] Instance count_outcome : AppliedJson := {
  outcome_json := fun a _ => int_to_string a;
  parse_outcome := fun s => (match parse_i64 s with Ok a => Some a | Err _ => None end, None)
}.

Definition node_auth (own peer : string) : Db :=
  mkDb (Some {["auth_chain" := SText "[open]"; "endpoint_id" := SText own; "modulations" := SText "[chat]"]})
    (Some []) None (Some []) (Some {[peer := new_peer "2026-01-01" None]}) None.

Definition node_conn (own peer : string) (chat : ChatTables) : NConn unit :=
  mkNConn (mkNodeDb (node_auth own peer) (Some []) (Some ∅) (Some ∅) (Some ∅) (set_outbox [] (set_chat chat no_surface)) tt)
    None [] 0 (S754_zero false) ["00000000000000000000000001"] (fun n => 1000000 * Z.of_nat n) 0 (0, 0).

Definition lounge : string := "urn:room:1".

Definition host : NConn unit :=
  node_conn "host" "alice"
    (mkChatTables (Some ∅) true true (Some {[lounge := mkRoomRow (SText "Lounge") (SText "host") (SText "")]})
       (Some {[(lounge, "alice"); (lounge, "bob"); (lounge, "host")]}) false).

Definition bob : NConn unit := node_conn "bob" "host" no_chat.

Definition chat_request (first : Byte.byte) (signal : string) : Request :=
  mkRequest (first :: repeat Byte.x00 15) Execute "chat" signal [] None RequestOptions_default.

Definition photo_request : Request := chat_request Byte.x01 (message_to_turtle ChatWitness.photo).

Definition ran : ChatOutcome * NConn unit := Eval vm_compute in handle_chat "alice" photo_request open_chain Remote host.
Definition at_host : NConn unit := snd ran.

Lemma open_allows own peer ac p action fp sql :
  db ac = node_auth own peer -> healthy ac -> dc_decision (fst (decide open_chain ac p action fp sql)) = Allow.
Proof.
  intros Hdb Hh. unfold decide, read_config.
  destruct (read_rsntr_healthy ac "auth_chain" Hh) as (c1 & -> & Hdb1 & Hh1). rewrite Hdb.
  change (read_rsntr_row "auth_chain" (node_auth own peer)) with (@Ok string string "[open]"). cbn -[read_rsntr].
  destruct (read_rsntr_healthy c1 "auth_masks" Hh1) as (c2 & -> & _). rewrite Hdb1, Hdb. reflexivity.
Qed.

Lemma host_ready : chat_ready host.
Proof. split; [done|]. by right. Qed.

Lemma host_hosts : hosts_readable (n_db host).
Proof. intros room row Hrow. unfold host, node_conn, rooms in Hrow. cbn in Hrow. apply lookup_singleton_Some in Hrow as [_ <-]. by eexists. Qed.

Lemma photo_parsed : parse_message (rq_signal photo_request) = Ok (normal_message ChatWitness.photo).
Proof. vm_compute. reflexivity. Qed.

Lemma host_runs : handle_chat "alice" photo_request open_chain Remote host = (ChApplied 1, at_host).
Proof. vm_compute. reflexivity. Qed.
End Club.

Import Club.

(** Alice's photo, and the same once more in another request. *)
Lemma chat_stored_once_witness :
  let k1 := mkCall "alice" photo_request open_chain Remote in
  let k2 := mkCall "alice" (chat_request Byte.x07 (rq_signal photo_request)) open_chain Remote in
  let conn3 := snd (call k2 at_host) in
  messages (n_db conn3) = messages (n_db at_host) /\ queue (n_db conn3) = queue (n_db at_host) /\
  exists row, messages (n_db at_host) !! "01ARZ3NDEKTSV4RRFFQ69G5FAV" = Some row /\
    messages (n_db conn3) !! "01ARZ3NDEKTSV4RRFFQ69G5FAV" = Some row /\ chat_grown (n_db host) (n_db conn3).
Proof.
  intros k1 k2 conn3.
  apply (chat_stored_once k1 k2 [] host at_host conn3 1 (fst (call k2 at_host)) "01ARZ3NDEKTSV4RRFFQ69G5FAV" host_ready host_runs).
  - intros json. vm_compute. discriminate.
  - apply surjective_pairing.
  - vm_compute. reflexivity.
  - vm_compute. reflexivity.
Defined.

Lemma chat_authors_witness :
  exists msg resource row, parse_message (rq_signal photo_request) = Ok msg /\
    messages (n_db at_host) !! "01ARZ3NDEKTSV4RRFFQ69G5FAV" = Some row /\ ms_body row = mg_body msg /\
    may_chat open_chain "alice" resource (rq_signal photo_request) (n_db host) True /\
    rightful "alice" msg resource row (n_db host) (n_db at_host).
Proof.
  destruct (chat_authors "alice" photo_request open_chain host at_host (ChApplied 1) host_ready ltac:(constructor) host_hosts host_runs)
    as (_ & _ & Hmsg).
  destruct (Hmsg "01ARZ3NDEKTSV4RRFFQ69G5FAV" (default (message_row "" "" "" "" ChatWitness.photo)
     (messages (n_db at_host) !! "01ARZ3NDEKTSV4RRFFQ69G5FAV"))) as (_ & msg & resource & Hp & _ & Hb & Hmay & Hright).
  - vm_compute. reflexivity.
  - vm_compute. reflexivity.
  - exists msg, resource. eexists. split_and!; [exact Hp| |exact Hb|exact Hmay|exact Hright]. vm_compute. reflexivity.
Defined.

(** ** A read that fails *)

(** A room of Carol's, and a peer who is not Carol. *)
Definition carols : NConn unit :=
  node_conn "dave" "alice"
    (mkChatTables (Some ∅) true true (Some {[lounge := mkRoomRow (SText "Lounge") (SText "carol") (SText "")]}) (Some ∅) false).

Definition with_faults (fs : list (option SqlError)) (c : NConn unit) : NConn unit :=
  mkNConn (n_db c) (n_saved c) fs (n_secs c) (n_f64 c) (n_ulids c) (n_instant c) (n_reads c) (n_counts c).

Definition forged : Request :=
  chat_request Byte.x03 (message_to_turtle (mkChatMessage (Some "m1") (Some "carol") (Some lounge) (Some "2024-05-01T12:00:00Z")
                                              "it was me" None None None [])).

(** Turned away; but when the one read of the room's host fails, the room
    counts as unknown, and the message is stored with the author it claims. *)
Lemma unread_host_lets_anyone_in :
  fst (handle_chat "alice" forged open_chain Remote carols) = ChDenied (bound_reason lounge "carol" "alice") /\
  let '(out, c) := handle_chat "alice" forged open_chain Remote
                     (with_faults (repeat None 13 ++ [Some (sql_failure "disk I/O error")]) carols) in
  out = ChApplied 1 /\ ms_sender <$> messages (n_db c) !! "m1" = Some "carol".
Proof. split; [vm_compute; reflexivity|]. vm_compute. done. Qed.

(** * A message from its author through the host to a member *)

Section rooms.
Context {D : Type} `{HR : !RowIds} `{HO : !AppliedJson} `{HA : !AffectedJson} `{HW : !JsonText} `{HJ : !JsonPrint}.
Context `{HC : !ChainJson} `{HN : !NodeText} `{HU : !UlidLib} `{HS : !OxDisplay} `{HX : !OxRdf} `{HT : !OxTtl}.
Implicit Types (d : NodeDb D) (conn : NConn D).

(** ** A parsed message can be forwarded *)

Lemma sorted_tags_idem tags : sorted_tags (sorted_tags tags) = sorted_tags tags.
Proof. unfold sorted_tags. f_equal. apply set_eq. intros x. by rewrite !elem_of_list_to_set, elem_of_bs_iter, elem_of_list_to_set. Qed.

Lemma valid_tags re tags tags' : validate_thread_fields re tags = Ok tags' ->
  from_option re_ok true re = true /\ forallb tag_ok tags' = true /\ Z.of_nat (length (sorted_tags tags')) <= TAGS_MAX /\
  sorted_tags tags' = tags'.
Proof.
  unfold validate_thread_fields. destruct (match re with Some re => negb (re_ok re) | None => false end) eqn:Ere; [done|].
  destruct (forallb tag_ok tags) eqn:Et; [|done]. cbn [negb]. destruct (TAGS_MAX <? _) eqn:En; [done|]. intros [= <-].
  rewrite sorted_tags_idem. split_and!; [| |lia|done].
  - destruct re as [re|]; [|done]. cbn. by apply negb_false_iff in Ere.
  - apply forallb_forall. intros x Hx. apply list_elem_of_In in Hx. unfold sorted_tags in Hx.
    rewrite elem_of_bs_iter, elem_of_list_to_set in Hx. rewrite forallb_forall in Et. apply Et. by apply list_elem_of_In.
Qed.

Lemma read_blob_ok l : forall b, from_option is_i64 true (bl_bytes b) = true -> from_option is_i64 true (bl_bytes (foldl read_blob_pair b l)) = true.
Proof.
  induction l as [|[p o] l IH]; intros b Hb; [done|]. cbn [foldl]. apply IH. destruct b as [h n nm ct]. unfold read_blob_pair. cbn in Hb.
  repeat case_bool_decide; try done. cbn. destruct (term_text o) as [s|]; [|done]. cbn. destruct (parse_i64 s) eqn:E; [|done]. cbn.
  by apply parse_i64_range in E.
Qed.

(** What a signal that parses keeps to. *)
Lemma parsed_ok signal msg : parse_message signal = Ok msg ->
  str_size (mg_body msg) <= BODY_MAX_BYTES /\ from_option re_ok true (mg_re msg) = true /\ forallb tag_ok (mg_tags msg) = true /\
  Z.of_nat (length (sorted_tags (mg_tags msg))) <= TAGS_MAX /\ sorted_tags (mg_tags msg) = mg_tags msg /\
  from_option (fun b => negb (is_empty (bl_hash b)) && from_option is_i64 true (bl_bytes b)) true (mg_attachment msg) = true /\
  from_option id_ok true (mg_id msg) = true.
Proof.
  unfold parse_message. destruct (traverse _ _) as [triples|]; [|done]. cbn [map_err rbind]. unfold message_of.
  destruct (message_subject triples) as [s|]; [|done]. cbn [rbind]. destruct (read_pairs _ _) as [r|]; [|done]. cbn [rbind].
  destruct (checked_body (rd_body r)) as [body|] eqn:Eb; [|done]. cbn [rbind].
  destruct (checked_id (rd_id r)) as [id|] eqn:Ei; [|done]. cbn [rbind].
  destruct (validate_thread_fields (rd_re r) (rd_tags r)) as [tags|] eqn:Et; [|done]. cbn [rbind].
  destruct (read_attachment triples (rd_node r)) as [att|] eqn:Ea; [|done]. cbn [rbind]. intros [= <-]. cbn.
  apply valid_tags in Et as (Hre & Htags & Hn & Hsort). split_and!; try done.
  - unfold checked_body in Eb. destruct (rd_body r) as [b|]; [|done]. destruct (BODY_MAX_BYTES <? _) eqn:E; [done|]. injection Eb as <-. lia.
  - unfold read_attachment in Ea. destruct (rd_node r) as [node|]; [|by injection Ea as <-]. unfold read_blob in Ea.
    destruct (is_empty _) eqn:Eh; [done|]. injection Ea as <-. cbn. rewrite Eh. cbn. by apply read_blob_ok.
  - unfold checked_id in Ei. destruct (rd_id r) as [i|]; [|by injection Ei as <-]. destruct (id_ok i) eqn:E; [|done]. injection Ei as <-. exact E.
Qed.

Lemma fan_out_ok signal msg mid sender room at_ label : parse_message signal = Ok msg -> id_ok mid = true -> ox_iri_ok room = true ->
  message_ok (fan_out_message mid sender room at_ label msg) = true.
Proof.
  intros (Hb & Hre & Ht & Hn & _ & Ha & _)%parsed_ok Hid Hroom. unfold message_ok, fan_out_message. cbn.
  rewrite Hid, Hre, Ht, Ha, Hroom. replace (str_size _ <=? _) with true by lia. by replace (Z.of_nat _ <=? _) with true by lia.
Qed.

(** ** At the host *)

(** The rows a call put in the queue are for members of a room of this node,
    and carry the message that was stored. *)
Lemma host_queues peer req chain lane conn out conn' rows r :
  chat_ready conn -> n_healthy conn -> hosts_readable (n_db conn) -> handle_chat peer req chain lane conn = (out, conn') ->
  queue (n_db conn') = queue (n_db conn) ++ rows -> r ∈ rows ->
  exists msg room filed_at at_ member, parse_message (rq_signal req) = Ok msg /\ mg_room msg = Some room /\
    host_of (n_db conn) room = Some (own_id (n_db conn)) /\
    member ∈ addressees (n_db conn) room peer (own_id (n_db conn)) /\ ob_peer r = SText member /\
    messages (n_db conn') !! default (id_string req) (mg_id msg) = Some (message_row filed_at room peer at_ msg) /\
    ob_signal r = SText (message_to_turtle (fan_out_message (default (id_string req) (mg_id msg)) peer room at_
                                              (room_label (n_db conn) room) msg)).
Proof.
  intros [Hs Hc] Hh Hhosts Hrun Hq Hin. apply handle_cases in Hrun as (_ & _ & Hres); [|done..].
  assert (Hgrew : queue (n_db conn') <> queue (n_db conn)).
  { rewrite Hq. intros Heq. rewrite <-(app_nil_r (queue (n_db conn))) in Heq at 2. apply app_inv_head in Heq as ->. by apply elem_of_nil in Hin. }
  destruct out as [| | | | | |n]; cbn [handled] in Hres; try by (destruct Hres as (_ & _ & _ & Hqq & _)).
  destruct Hres as (msg & plan & self_id & host & d1 & Hp & Hplan & Hids & _ & Hsame & Hans). destruct (Hids Hh) as [-> ->].
  assert (Hsame' := Hsame). destruct Hsame' as (_ & Hr1 & Hmb1 & Hq1 & _).
  destruct Hans as [(json & _ & _ & Hd)|[_ Hsent]]; [rewrite Hd in Hgrew; congruence|].
  destruct Hsent as (now & filed & at_ & rec & t & _ & _ & _ & _ & _ & _ & _ & _ & Hm).
  destruct (messages d1 !! _); [destruct Hm as (_ & _ & ?); congruence|]. destruct Hm as (_ & Hm & rows' & Hq' & Hrows).
  rewrite Hq, Hq1 in Hq'. apply app_inv_head in Hq' as <-.
  unfold plan_for in Hplan. destruct (mg_room msg) as [room|] eqn:Eroom.
  2: { injection Hplan as <-. cbn in Hrows. subst rows. by apply elem_of_nil in Hin. }
  rewrite (recorded_host_of _ _ _ room Hsame Hhosts Eroom) in Hplan. destruct (host_of (n_db conn) room) as [h|] eqn:Eh.
  2: { injection Hplan as <-. cbn in Hrows. subst rows. by apply elem_of_nil in Hin. }
  revert Hplan. case_bool_decide as Hown.
  2: { case_bool_decide; [|done]. cbn. intros [= <-]. cbn in Hrows. subst rows. by apply elem_of_nil in Hin. }
  intros [= <-]. subst h. cbn in Hrows, Hm. rewrite Forall_forall in Hrows. destruct (Hrows r Hin) as ((member & Hmem & Hpeer) & _ & Hsig & _ & _).
  exists msg, room, filed, at_, member. unfold addressees, room_label in *. rewrite Hmb1 in Hmem. rewrite Hr1 in Hsig. split_and!; try done.
  rewrite Hm. apply lookup_insert_eq.
Qed.

(** ** At the member *)

(** Nothing stands in the way of a message of [peer] in a direct conversation
    or in a room that [peer] hosts, and its id and that of the request are new. *)
Record receptive (peer : string) (req : Request) (chain : Chain) (mid room : string) conn : Prop := mkReceptive {
  rc_ready : chat_ready conn;
  rc_healthy : n_healthy conn;
  rc_known : known_peer (n_db conn) peer = true;
  rc_serves : forall c, n_healthy c -> n_db c = n_db conn -> fst (chat_served c) = true;
  rc_hosts : hosts_readable (n_db conn);
  rc_host : host_of (n_db conn) room = None \/ host_of (n_db conn) room = Some peer;
  rc_other : own_id (n_db conn) <> peer;
  rc_names : forall rm row, rooms (n_db conn) !! rm = Some row -> exists n, ro_name row = SText n;
  rc_applied : exists t, nd_applied (n_db conn) = Some t /\ t !! id_string req = None;
  rc_new : messages (n_db conn) !! mid = None;
  rc_allowed : forall ac, db ac = nd_auth (n_db conn) -> healthy ac ->
    dc_decision (fst (decide chain ac peer "chat" (from_tables Write [(DIRECT_RESOURCE, [])]) (rq_signal req))) = Allow
}.

Lemma served_ready peer req chain conn mid room : receptive peer req chain mid room conn ->
  exists c3, handle_chat peer req chain Remote conn =
    match parse_message (rq_signal req) with
    | Err (CProtocol message) => (ChBadRequest message, refused peer req Remote message c3)
    | Err (CLimit message) => (ChLimitExceeded message, refused peer req Remote message c3)
    | Ok msg => deliver peer req chain Remote msg c3
    end /\ n_saved c3 = None /\ n_healthy c3 /\ readied (n_db conn) (n_db c3) /\ complete (chat_of (n_db c3)).
Proof.
  intros H. destruct (rc_ready _ _ _ _ _ _ H) as [Hs Hc]. unfold handle_chat.
  destruct (peer_known peer conn) as [known c1] eqn:E1. apply peer_known_cases in E1 as ((Hd1 & Hs1 & Hh1) & _ & Hk).
  rewrite (Hk (rc_healthy _ _ _ _ _ _ H)), (rc_known _ _ _ _ _ _ H). cbn [negb].
  pose proof (rc_serves _ _ _ _ _ _ H c1 (Hh1 (rc_healthy _ _ _ _ _ _ H)) Hd1) as Hserved.
  destruct (chat_served c1) as [served c2] eqn:E2. apply chat_served_quiet in E2 as (Hd2 & Hs2 & Hh2). cbn in Hserved. subst served.
  cbn [negb]. unfold handle_served. destruct (ensure_chat_tables c2) as [r c3] eqn:E3. apply ready_tables in E3 as (Hs3 & Hh3 & Hr3).
  rewrite Hd2, Hd1 in Hr3. pose proof (Hh2 (Hh1 (rc_healthy _ _ _ _ _ _ H))) as Hc2.
  destruct r as [u|e]; [|by destruct Hr3 as [_ []]]. destruct (Hr3 Hc) as [Hready Hcomplete]. exists c3.
  split_and!; [done|congruence|auto|done|done].
Qed.

(** A host's message is stored. *)
Lemma member_stores peer req chain conn mid room msg :
  receptive peer req chain mid room conn -> parse_message (rq_signal req) = Ok msg -> mg_room msg = Some room -> mg_id msg = Some mid ->
  exists conn' filed at_, handle_chat peer req chain Remote conn = (ChApplied 1, conn') /\ default at_ (mg_at msg) = at_ /\
    messages (n_db conn') !! mid = Some (message_row filed room (default peer (mg_from msg)) at_ msg).
Proof.
  intros H Hp Hroom Hid. destruct (served_ready _ _ _ _ _ _ H) as (c3 & -> & Hs3 & Hh3 & Hready & Hcomplete). rewrite Hp.
  assert (Hsame : same_chat (n_db conn) (n_db c3)) by (apply readied_same; [done|apply H]).
  unfold deliver. destruct (get_rsntr "endpoint_id" c3) as [own c4] eqn:E4. apply get_rsntr_own in E4 as ((Hd4 & Hs4 & Hh4) & Hown).
  destruct (message_host msg c4) as [host c5] eqn:E5. apply message_host_quiet in E5 as ((Hd5 & Hs5 & Hh5) & Hhost).
  assert (default "" own = own_id (n_db conn)) as ->.
  { rewrite (Hown Hh3). unfold own_id, get_rsntr_row. destruct Hready as (_ & Ha & _). by rewrite Ha. }
  assert (host = host_of (n_db conn) room) as ->.
  { rewrite (Hhost (Hh4 Hh3)), Hd4. apply recorded_host_of; [done|apply H|done]. }
  assert (exists b, plan_for peer (own_id (n_db conn)) msg (host_of (n_db conn) room) =
            Ok (mkPlan DIRECT_RESOURCE (default peer (mg_from msg)) room b None)) as [b ->].
  { unfold plan_for. rewrite Hroom. destruct (rc_host _ _ _ _ _ _ H) as [-> | ->]; [by eexists|].
    rewrite bool_decide_false by (intros ->; by apply H). rewrite bool_decide_true by done. by eexists. }
  destruct (decide_chat _ _ _ _ _ _ c5) as [reason c6] eqn:E6. apply decide_chat_cases in E6 as (Hd6 & Hs6 & Hh6 & _ & Hallow).
  pose proof (Hh5 (Hh4 Hh3)) as Hc5. rewrite (Hallow Hc5 eq_refl).
  2: { intros ac Hac. apply H. destruct Hready as (_ & Ha & _). by rewrite Hac, Hd5, Hd4, Ha. }
  assert (same_chat (n_db conn) (n_db c6)) as Hsame6.
  { etrans; [exact Hsame|]. rewrite <-Hd4, <-Hd5. by apply same_data_chat. }
  set (plan := mkPlan _ _ _ _ _). destruct (apply_message _ msg plan _ c6) as [r c7] eqn:E7.
  eapply apply_cases in E7 as (_ & _ & Hres); [|by left|congruence].
  assert (Hchat6 : chat_of (n_db c6) = chat_of (n_db c3)).
  { destruct Hd6 as (_ & _ & _ & _ & Hsf). unfold chat_of. by rewrite Hsf, Hd5, Hd4. }
  assert (exists t, nd_applied (n_db c6) = Some t /\ t !! id_string req = None) as Hap.
  { destruct Hd6 as (_ & Hap & _). rewrite Hap, Hd5, Hd4. destruct Hready as (_ & _ & -> & _). apply H. }
  destruct r as [n|e].
  2: { destruct Hres as [_ Hn]. exfalso. apply (Hn (Hh6 Hc5)). unfold storable. rewrite Hchat6. split_and!; [done|done|].
       destruct Hsame6 as (_ & Hr & _). rewrite Hr. apply H. }
  destruct Hres as [(json & Hrow & _)|[_ Hsent]].
  { destruct Hap as (t & Ht & Hrid). unfold applied_row in Hrow. rewrite Ht in Hrow. cbn in Hrow. by rewrite Hrid in Hrow. }
  destruct Hsent as (now & filed & at_ & rec & t & Hat & _ & _ & _ & _ & _ & _ & _ & Hm). rewrite Hid in Hm. cbn [from_option id] in Hm.
  destruct Hsame6 as (Hm6 & _). rewrite Hm6 in Hm. destruct H as [_ _ _ _ _ _ _ _ _ Hnew _]. rewrite Hnew in Hm. destruct Hm as (-> & Hm & _).
  exists c7, filed, at_. split_and!; [done|done|]. rewrite Hm. apply lookup_insert_eq.
Qed.

(** The library reads back the triples of a message. *)
Definition turtle_read (msg : ChatMessage) : Prop :=
  ttl_items IMPLIED_PREFIXES (ntriples (message_triples msg)) = map Ok (message_triples msg).

(** The same message, received at another time. *)
Definition forwarded (r r' : MessageRow) : Prop :=
  exists received_at, r' = mkMessageRow (ms_scope r) (ms_sender r) (ms_at r) received_at (ms_body r) (ms_blob_hash r) (ms_blob_bytes r)
                             (ms_blob_name r) (ms_blob_type r) (ms_outgoing r) (ms_re_id r) (ms_tags r).

(** C18. A message sent into a room reaches its members: what the host queues for a
    member goes to somebody in the room other than the author, and when the
    member's node takes the request, it stores the message the host stored:
    the same id, room, author, time, text, attachment, thread and tags. *)
Theorem room_message_reaches_members `{!OxDisplayLaws} (peer : string) (req req' : Request) (chain chain' : Chain) (lane : Lane)
    (host host' member : NConn D) (out : ChatOutcome) (rows : list OutboxRow) (r : OutboxRow) (room : string)
    (Hready : chat_ready host) (Hhealthy : n_healthy host) (Hhosts : hosts_readable (n_db host))
    (Hrun : handle_chat peer req chain lane host = (out, host'))
    (Hqueue : queue (n_db host') = queue (n_db host) ++ rows) (Hrow : r ∈ rows)
    (Hsignal : ob_signal r = SText (rq_signal req'))
    (Hid : id_ok (id_string req) = true) (Hiri : ox_iri_ok room = true)
    (Hturtle : forall msg stored, parse_message (rq_signal req) = Ok msg ->
       messages (n_db host') !! default (id_string req) (mg_id msg) = Some stored ->
       turtle_read (fan_out_message (default (id_string req) (mg_id msg)) peer room (ms_at stored) (room_label (n_db host) room) msg))
    (Hroom : forall msg, parse_message (rq_signal req) = Ok msg -> mg_room msg = Some room)
    (Hmember : forall mid, message_id req = Some mid -> receptive (own_id (n_db host)) req' chain' mid room member) :
  exists mid name stored, message_id req = Some mid /\ messages (n_db host') !! mid = Some stored /\ ms_scope stored = room /\
    ms_sender stored = peer /\ ob_peer r = SText name /\ (room, name) ∈ members (n_db host) /\ name <> peer /\
    exists member' received, handle_chat (own_id (n_db host)) req' chain' Remote member = (ChApplied 1, member') /\
      messages (n_db member') !! mid = Some received /\ forwarded stored received.
Proof.
  destruct (host_queues _ _ _ _ _ _ _ _ _ Hready Hhealthy Hhosts Hrun Hqueue Hrow)
    as (msg & rm & filed & at_ & name & Hp & Hrm & Hhost & Hname & Hpeer & Hstored & Hsig).
  assert (rm = room) as -> by (specialize (Hroom msg Hp); congruence).
  rewrite Hsignal in Hsig. injection Hsig as Hsig. set (mid := default (id_string req) (mg_id msg)) in *.
  set (fm := fan_out_message _ _ _ _ _ msg) in Hsig.
  assert (Hmid : message_id req = Some mid) by (unfold message_id; by rewrite Hp).
  assert (Hparse : parse_message (rq_signal req') = Ok (normal_message fm)).
  { rewrite Hsig. apply chat_message_back; [|by apply (Hturtle msg _ Hp Hstored)].
    eapply fan_out_ok; [exact Hp| |exact Hiri]. unfold mid. apply parsed_ok in Hp as (_ & _ & _ & _ & _ & _ & Hi). by destruct (mg_id msg). }
  destruct (member_stores _ _ _ _ _ _ _ (Hmember mid Hmid) Hparse eq_refl eq_refl) as (mc & received & at' & Hrun' & Hat & Hrec).
  exists mid, name, (message_row filed room peer at_ msg). unfold addressees in Hname.
  rewrite elem_of_bs_iter, elem_of_list_to_set, list_elem_of_fmap in Hname. destruct Hname as ([rm' nm] & -> & Hin).
  apply list_elem_of_filter in Hin as [(Hrm' & Hnp & Hno) Hin]. cbn in Hrm', Hnp. subst rm'. apply elem_of_elements in Hin.
  split_and!; try done. exists mc, (message_row received room peer at_ msg). split_and!; [done| |by exists received].
  rewrite Hrec. cbn in Hat |- *. subst at'. unfold message_row. cbn. apply parsed_ok in Hp as (_ & _ & _ & _ & -> & _). done.
Qed.
End rooms.

(** ** Witness *)

Module Lounge.

Import Club.

Definition forwarded_request : Request :=
  chat_request Byte.x02 (match queue (n_db at_host) with r :: _ => match ob_signal r with SText s => s | _ => "" end | [] => "" end).

Lemma bob_receptive : receptive "host" forwarded_request open_chain "01ARZ3NDEKTSV4RRFFQ69G5FAV" lounge bob.
Proof.
  split.
  - split; [done|]. by left.
  - constructor.
  - vm_compute. reflexivity.
  - intros c Hc Hd. unfold chat_served, served_modulations, get_rsntr. destruct (nquery _ c) as [r c1] eqn:E.
    apply nquery_cases in E as (_ & Hr & _). rewrite Hd in Hr. specialize (Hr Hc). subst r. vm_compute. reflexivity.
  - intros room row Hrow. unfold bob, node_conn, rooms in Hrow. cbn in Hrow. by rewrite lookup_empty in Hrow.
  - left. reflexivity.
  - done.
  - intros rm row Hrow. unfold bob, node_conn, rooms in Hrow. cbn in Hrow. by rewrite lookup_empty in Hrow.
  - exists ∅. split; [done|]. apply lookup_empty.
  - reflexivity.
  - intros ac Hac Hh. by eapply (open_allows "bob" "host").
Qed.

End Lounge.

Import Club Lounge.

Lemma room_message_reaches_members_witness :
  exists mid name stored, message_id photo_request = Some mid /\ messages (n_db at_host) !! mid = Some stored /\
    ms_scope stored = lounge /\ ms_sender stored = "alice" /\
    ob_peer (hd (mkOutboxRow SNull SNull SNull SNull SNull SNull SNull SNull SNull) (queue (n_db at_host))) = SText name /\
    (lounge, name) ∈ members (n_db host) /\ name <> "alice" /\
    exists member' received, handle_chat (own_id (n_db host)) forwarded_request open_chain Remote bob = (ChApplied 1, member') /\
      messages (n_db member') !! mid = Some received /\ forwarded stored received.
Proof.
  assert (Hq : exists r, queue (n_db at_host) = [r]) by (eexists; vm_compute; reflexivity). destruct Hq as [r Hq].
  eapply (room_message_reaches_members "alice" photo_request forwarded_request open_chain open_chain Remote host at_host bob
            (ChApplied 1) (queue (n_db at_host)) _ lounge host_ready ltac:(constructor) host_hosts host_runs).
  - reflexivity.
  - rewrite Hq. by left.
  - apply (inj Some). rewrite Hq. transitivity (ob_signal <$> hd_error (queue (n_db at_host))); [by rewrite Hq|]. vm_compute. reflexivity.
  - vm_compute. reflexivity.
  - vm_compute. reflexivity.
  - intros msg stored Hp Hst. assert (Hp' := photo_parsed). rewrite Hp in Hp'. injection Hp' as ->.
    vm_compute in Hst. injection Hst as <-. vm_compute. reflexivity.
  - intros msg Hp. assert (Hp' := photo_parsed). rewrite Hp in Hp'. injection Hp' as ->. reflexivity.
  - intros mid Hmid. vm_compute in Hmid. injection Hmid as <-. apply bob_receptive.
Defined.
