(* ===== verification/Outbox.v ===== *)
(** * Outbox: the queue of requests, and the worker that ships them

    Models [crates/surfaces/src/outbox.rs]: the tables, wire ids, the mapping of
    values and rows to JSON, and the worker: a scan, one attempt per row with its
    answer recorded, expiry and backoff. The network is a class: while the worker
    waits for it, other jobs may run on the database. *)

From S2P Require Import Prelude RustStd Collections Effect Vocab External Instances Value Envelope Request Response AuthTypes Chain CivilDate.
From S2P Require Import Authorizer NodeDb NodeKnock NodeExecute NodeFrames NodeProjection NodeSparql NodeDdl NodeChatMsg NodeChat.

Open Scope Z_scope.

Definition OUTBOX_SCHEMA_VERSION : Z := 1.

(** ** Wire ids *)

Definition FNV_PRIME : Z := 0x100000001b3.
Definition u64 (z : Z) : Z := z mod 2 ^ 64.
Definition rotate_left (k z : Z) : Z := Z.lor (u64 (Z.shiftl z k)) (Z.shiftr z (64 - k)).

Definition fold_byte (h : Z * Z) (b : Byte.byte) : Z * Z :=
  let '(h1, h2) := h in
  (u64 (Z.lxor h1 (u8_val b) * FNV_PRIME), u64 (rotate_left 7 (u64 (h2 + u8_val b)) * FNV_PRIME)).

(** [u64::to_be_bytes]. *)
Definition be_bytes (z : Z) : list Byte.byte := map (fun k => u8 (Z.shiftr z (8 * k))) [7; 6; 5; 4; 3; 2; 1; 0].

Definition fold_id (stored : string) : list Byte.byte :=
  let '(h1, h2) := foldl fold_byte (0xcbf29ce484222325, 0x84222325cbf29ce4) (as_bytes stored) in
  be_bytes h1 ++ be_bytes h2.

Definition wire_request_id `{!UlidLib} (stored : string) : list Byte.byte :=
  match ulid_from_string stored with Ok bytes => bytes | Err _ => fold_id stored end.

(** ** The kind of a request *)

Definition is_separator (s : string) : bool := bool_decide (is_Some (strip_any ws_encodings s)).
Definition is_break (s : string) : bool :=
  is_separator s || match s with String c _ => bool_decide (c = "("%char \/ c = ";"%char) | EmptyString => false end.

(** The text before the first place where [stop] holds, and the text from it. *)
Fixpoint cut (stop : string -> bool) (s : string) : string * string :=
  match s with
  | EmptyString => (EmptyString, EmptyString)
  | String c s' => if stop s then (EmptyString, s) else let '(w, rest) := cut stop s' in (String c w, rest)
  end.

Definition to_ascii_uppercase (c : ascii) : ascii := if is_ascii_lower c then byte_of (byte_val c - 32) else c.
Definition str_upper (s : string) : string := str_map (fun c => char_str (to_ascii_uppercase c)) s.

(** [split_whitespace], with the length of the text as fuel. *)
Fixpoint words_fuel (fuel : nat) (s : string) : list string :=
  match fuel with
  | O => []
  | S fuel => let '(w, rest) := cut is_separator (trim_start s) in
              if is_empty w then [] else w :: words_fuel fuel rest
  end.
Definition split_whitespace (s : string) : list string := words_fuel (str_len s) s.

Definition is_prologue (w : string) : bool :=
  starts_with "PREFIX" w || starts_with "BASE" w || contains_char ":"%char w || starts_with "<" w.

(** The query form, past the prologue. *)
Fixpoint sparql_kind (words : list string) : RequestKind :=
  match words with
  | [] => Execute
  | word :: words =>
      let w := str_upper word in
      if existsb (fun k => bool_decide (w = k)) ["SELECT"; "ASK"; "CONSTRUCT"; "DESCRIBE"] then Query
      else if is_prologue w then sparql_kind words
      else Execute
  end.

Definition before_slash (modulation : string) : string :=
  match split_once "/"%char modulation with Some (name, _) => name | None => modulation end.

Definition infer_kind (modulation signal : string) : RequestKind :=
  let name := before_slash modulation in
  if bool_decide (name = "sql-sqlite") then
    let first := str_upper (fst (cut is_break (trim_start signal))) in
    if existsb (fun k => bool_decide (first = k)) ["SELECT"; "WITH"; "PRAGMA"; "EXPLAIN"; "VALUES"] then Query else Execute
  else if bool_decide (name = "sparql") then sparql_kind (split_whitespace signal)
  else if bool_decide (name = "chat") then Execute
  else Query.

(** ** JSON *)

(** [serde_json]: a document that is an array, or the text of the error; and
    the text of a value. *)
Class JsonRows : Type := {
  json_array : string -> result string (list Json);
  json_show : Json -> string;
  f64_of_i64 : Z -> Z
}.

Section json.
Context `{HJ : !JsonRows}.

Definition json_to_value (j : Json) : result string Value :=
  match j with
  | JNull => Ok Null
  | JBool b => Ok (Integer (if b then 1 else 0))
  | JNumber (Some i) _ => Ok (Integer i)
  | JNumber None (Some f) => Ok (Real f)
  | JNumber None None => Err ("parameter number " +:+ json_show j +:+ " is out of range")
  | JString s => Ok (Text s)
  | JArray _ | JObject _ => Err "array/object parameters are not supported"
  end.

Definition parse_params (raw : string) : result string (list Value) :=
  let? items := map_err (fun e => "params is not a JSON array: " +:+ e) (json_array raw) in
  traverse json_to_value items.

Definition hex (bytes : list Byte.byte) : string := str_concat (map (fun b => hex2 HEX_LOWER (u8_val b)) bytes).

(** The bits of a number that is neither infinite nor NaN. *)
Definition is_finite (bits : Z) : bool := negb (Z.land (Z.shiftr bits 52) 0x7ff =? 0x7ff).

Definition value_to_json (v : Value) : Json :=
  match v with
  | Null => JNull
  | Integer i => JNumber (Some i) (Some (f64_of_i64 i))
  | Real f => if is_finite f then JNumber None (Some f) else JNull
  | Text s => JString s
  | Blob b => JString (hex b)
  | BlobRef hash _ => JString hash
  end.

(** Of a name that occurs twice, the last cell counts. *)
Definition cell_of (row : Row) (column : string) : option Value :=
  snd <$> List.find (fun cell => bool_decide (fst cell = column)) (rev (Envelope.row_cells row)).

Definition row_to_json (columns : list string) (row : Row) : string :=
  json_show (JArray (map (fun c => match cell_of row c with Some v => value_to_json v | None => JNull end) columns)).
End json.

(** ** Peers *)

(** [u8::from_str_radix(pair, 16)], which takes a leading plus. *)
Definition radix_pair (a b : ascii) : option Z :=
  if bool_decide (a = "+"%char) then hex_digit b
  else match hex_digit a, hex_digit b with Some x, Some y => Some (16 * x + y) | _, _ => None end.

Fixpoint hex_pairs (s : string) : option (list Byte.byte) :=
  match s with
  | String a (String b s') => match radix_pair a b, hex_pairs s' with
                              | Some z, Some bytes => Some (u8 z :: bytes)
                              | _, _ => None
                              end
  | _ => Some []
  end.

Definition PeerId_from_str (s : string) : option (list Byte.byte) :=
  if negb (str_len s =? 64)%nat || negb (str_forallb is_ascii s) then None else hex_pairs s.

Definition PeerId_to_string : list Byte.byte -> string := hex.

(** ** The worker *)

(** Durations are in nanoseconds. *)
Definition NANOS : Z := 1000000000.
Definition DURATION_MAX : Z := U64_MAX * NANOS + (NANOS - 1).
Definition U32_MAX : Z := 2 ^ 32 - 1.

Record OutboxConfig : Type := mkOutboxConfig {
  poll_interval : Z;
  base_backoff : Z;
  max_backoff : Z;
  expiry : Z;
  open_timeout : Z;
  install_update_hook : bool
}.

Definition OutboxConfig_default : OutboxConfig :=
  mkOutboxConfig (2 * NANOS) (500 * 1000000) (60 * NANOS) (30 * 24 * 3600 * NANOS) (10 * NANOS) true.

Record PendingRow : Type := mkPendingRow {
  pn_id : string;
  pn_peer : string;
  pn_modulation : string;
  pn_signal : string;
  pn_params : string;
  pn_age_secs : Z
}.

Record Backoff : Type := mkBackoff { bf_attempts : Z; bf_next_attempt : Z }.

Inductive Step : Type := Settled | Again.

Inductive Outcome : Type :=
| OutDone
| OutDenied (reason : string)
| OutError (message : string).

(** [base.checked_mul(1u32 << shift).unwrap_or(max).min(max)]. *)
Definition backoff_delay (attempts base max : Z) : Z :=
  let shift := Z.min (Z.max 0 (attempts - 1)) 20 in
  let delay := base * 2 ^ shift in
  Z.min (if delay <=? DURATION_MAX then delay else max) max.

(** What [recv] gives: a frame, or an error; after the last, a clean end. *)
Definition Incoming : Type := result unit EnvelopeObject.

(** The network. [tr_open] is [open] under its timeout, whether there is a
    stream; [tr_exchange] is [send], which may fail, and then what [recv] gives.
    Meanwhile other jobs may run on the database. *)
Class Transport (D N : Type) : Type := {
  tr_open : list Byte.byte -> NConn D * N -> bool * (NConn D * N);
  tr_exchange : list Byte.byte -> EnvelopeObject -> NConn D * N -> option (list Incoming) * (NConn D * N)
}.

(** SQLite: the seconds from [created_at] until now, and which of several rows
    comes first without an order. *)
Class OutboxSql : Type := {
  row_age : Z -> Cell -> option Z;
  any_row : list string -> option string
}.

Section worker.
Context {D N : Type} `{HU : !UlidLib} `{HS : !OxDisplay} `{HJ : !JsonRows}.
Context `{HT : !Transport D N} `{HQ : !OutboxSql} `{HF : !FrameText}.
Implicit Types (d : NodeDb D) (conn : NConn D).
Abbreviation World := (NConn D * N)%type.
Abbreviation WM := (Eff (NConn D) SqlError).

(** ** The tables *)

Definition create_outbox (s : Surface) : Surface := set_outbox (default [] (sv_outbox s)) s.
Definition create_results (s : Surface) : Surface := set_results (default ∅ (sv_results s)) s.
Definition create_surface (f : Surface -> Surface) : WM unit := nsql (fun d => Ok (tt, on_surface f d)).

Definition table_exists (t : NodeDb D -> bool) : WM bool := nquery (fun d => Ok (t d)).

Definition ensure_outbox_tables : WM unit :=
  let* _ := create_surface create_outbox in
  let* _ := create_surface create_results in
  let* _ := ncall in
  let* has := table_exists (fun d => bool_decide (is_Some (db_rsntr (nd_auth d)))) in
  if (has : bool) then nsql (upsert_rsntr "outbox_schema_version" (int_to_string OUTBOX_SCHEMA_VERSION)) else eret tt.

(** The id of the new request. *)
Definition enqueue (peer modulation signal params : string) : WM string := fun conn =>
  let '(id, conn) := draw_node_ulid conn in
  match nsql (insert_request (sql_now conn) id peer modulation signal params) conn with
  | (Ok _, conn) => (Ok id, conn)
  | (Err e, conn) => (Err e, conn)
  end.

(** ** Statements of the worker *)

(** [status IN ('queued', 'sent') AND request_id IS NOT NULL]. *)
Definition actionable (r : OutboxRow) : Prop :=
  cell_is (ob_status r) "queued" || cell_is (ob_status r) "sent" = true /\ ob_request_id r <> SNull.
#[export] Instance Cell_eq_dec : EqDecision Cell.
Proof. solve_decision. Defined.
#[export] Instance actionable_dec r : base.Decision (actionable r).
Proof. unfold actionable. apply _. Defined.

(** The order of SQLite: NULL, then texts, then blobs. *)
Definition cell_le (a b : Cell) : Prop :=
  match a, b with
  | SNull, _ | _, SOther => True
  | SText s, SText t => String.le s t
  | _, _ => False
  end.
#[export] Instance cell_le_dec a b : base.Decision (cell_le a b).
Proof. unfold cell_le. destruct a, b; apply _. Defined.

Definition by_creation (a b : OutboxRow) : Prop := cell_le (ob_created_at a) (ob_created_at b).
#[export] Instance by_creation_dec a b : base.Decision (by_creation a b).
Proof. unfold by_creation. apply _. Defined.

Definition read_pending (now : Z) (r : OutboxRow) : result string PendingRow :=
  let? id := get_string (ob_request_id r) in
  let? peer := get_string (ob_peer r) in
  let? modulation := get_string (ob_mod r) in
  let? signal := get_string (ob_signal r) in
  let? params := get_string (ob_params r) in
  Ok (mkPendingRow id peer modulation signal params (default 0 (row_age now (ob_created_at r)))).

(** A row that does not read is left out. *)
Definition oks {A} (l : list (result string A)) : list A := omap (fun r => match r with Ok a => Some a | Err _ => None end) l.

Definition pending_rows (now : Z) d : result SqlError (list PendingRow) :=
  let? t := nneed "_outbox" (sv_outbox (nd_surface d)) in
  Ok (oks (map (read_pending now) (merge_sort by_creation (base.filter actionable t)))).

Definition scan conn : list PendingRow * NConn D :=
  match nquery (pending_rows (n_secs conn)) conn with
  | (Ok rows, conn) => (rows, conn)
  | (Err _, conn) => ([], conn)
  end.

(** [UPDATE _outbox SET .. WHERE request_id = ?1]. *)
Definition update_request (id : string) (f : OutboxRow -> OutboxRow) d : result SqlError (unit * NodeDb D) :=
  let? t := nneed "_outbox" (sv_outbox (nd_surface d)) in
  Ok (tt, on_surface (set_outbox (map (fun r => if cell_is (ob_request_id r) id then f r else r) t)) d).

Definition with_status (status : string) (error completed_at : Cell) (r : OutboxRow) : OutboxRow :=
  mkOutboxRow (ob_request_id r) (ob_peer r) (ob_mod r) (ob_signal r) (ob_params r) (SText status) error (ob_created_at r) completed_at.

Definition sent_row (r : OutboxRow) : OutboxRow :=
  if cell_is (ob_status r) "queued" then with_status "sent" (ob_error r) (ob_completed_at r) r else r.

Definition mark_sent (id : string) conn : NConn D := snd (nsql (update_request id sent_row) conn).

Definition opt_cell (o : option string) : Cell := match o with Some s => SText s | None => SNull end.

Definition mark_terminal (id status : string) (error : option string) conn : NConn D :=
  snd (nsql (update_request id (with_status status (opt_cell error) (SText (sql_now conn)))) conn).

Definition clear_results (id : string) d : result SqlError (unit * NodeDb D) :=
  let? t := nneed "_results" (sv_results (nd_surface d)) in
  Ok (tt, on_surface (set_results (base.filter (fun e => fst (fst e) <> id) t)) d).

Definition insert_result (id : string) (row_no : Z) (row : string) d : result SqlError (unit * NodeDb D) :=
  let? t := nneed "_results" (sv_results (nd_surface d)) in
  match t !! (id, row_no) with
  | Some _ => Err (sql_failure "UNIQUE constraint failed: _results.request_id, _results.row_no")
  | None => Ok (tt, on_surface (set_results (<[(id, row_no) := row]> t)) d)
  end.

(** [iter().enumerate()]. *)
Fixpoint enumerate (i : Z) (rows : list string) : list (Z * string) :=
  match rows with [] => [] | row :: rows => (i, row) :: enumerate (i + 1) rows end.

Definition insert_numbered (id : string) (_ : unit) (entry : Z * string) : WM unit :=
  nsql (insert_result id (as_i64 (fst entry)) (snd entry)).

Definition persist_rows (id : string) (rows : list string) : WM unit :=
  let* _ := nsql (clear_results id) in
  let* _ := efold (insert_numbered id) tt (enumerate 0 rows) in
  let* _ := (fun conn => nsql (update_request id (with_status "done" SNull (SText (sql_now conn)))) conn) in
  commit.

Definition persist_done (id : string) (rows : list string) conn : NConn D :=
  snd ((let* _ := begin_transaction in in_transaction (persist_rows id rows)) conn).

(** [endpoint_id = ?1 OR name = ?1]. *)
Definition names_peer (peer : string) (e : string * PeerRow) : Prop := fst e = peer \/ cell_is (pe_name (snd e)) peer = true.
#[export] Instance names_peer_dec peer e : base.Decision (names_peer peer e).
Proof. unfold names_peer. apply _. Defined.

Definition find_peer (peer : string) d : result SqlError (option string) :=
  let? t := nneed "_peers" (db_peers (nd_auth d)) in
  Ok (any_row (map fst (base.filter (names_peer peer) (map_to_list t)))).

Definition resolve_peer (peer : string) conn : option (list Byte.byte) * NConn D :=
  let '(r, conn) := nquery (find_peer peer) conn in
  let found := match r with Ok o => o | Err _ => None end in
  (PeerId_from_str (default peer found), conn).

(** ** An attempt *)

Definition request_of (row : PendingRow) (params : list Value) : Request :=
  mkRequest (wire_request_id (pn_id row)) (infer_kind (pn_modulation row) (pn_signal row)) (pn_modulation row) (pn_signal row)
    params None RequestOptions_default.

Definition graph_json (g : Graph) : string :=
  json_show (JArray (map (fun t => JString (show_node (subject t) +:+ " " +:+ show_named (predicate t) +:+ " " +:+
                                              show_term (object t) +:+ " .")) (gr_payload g))).

(** The response so far: the columns and the rows. *)
Definition Drained : Type := (list string * list string)%type.

(** An event that does not end the response, or how it ended. *)
Definition take_event (ev : ResponseEvent) (acc : Drained) : Drained + Outcome :=
  let '(columns, rows) := acc in
  match ev with
  | EvHeader h => inl (rh_columns h, rows)
  | EvRows rs => inl (columns, rows ++ map (row_to_json columns) rs)
  | EvGraph g => inl (columns, rows ++ [graph_json g])
  | EvGeneric g => inl (columns, rows ++ [json_show (JObject [("generic", JString (gn_class g))])])
  | EvDone _ => inr OutDone
  | EvDenied r => inr (OutDenied (default "request denied" (dd_reason r)))
  | EvError e => inr (OutError (er_code e +:+ ": " +:+ default "" (er_reason e)))
  | EvHelp _ _ => inr (OutError "unexpected help response to an outbox request")
  | EvMedia _ => inr (OutError "unexpected media response to an outbox request")
  end.

(** The rows and how the response ended; nothing if it did not. *)
Fixpoint drain (reader : ResponseReader) (acc : Drained) (incoming : list Incoming) : option (list string * Outcome) :=
  match incoming with
  | [] => None
  | Err _ :: _ => None
  | Ok frame :: incoming' =>
      match accept frame reader with
      | (Ok ev, reader) => match take_event ev acc with
                           | inl acc => drain reader acc incoming'
                           | inr out => Some (snd acc, out)
                           end
      | (Err _, _) => None
      end
  end.

Definition read_response (row : PendingRow) (req : Request) (incoming : list Incoming) conn : Step * NConn D :=
  match drain (ResponseReader_new (id_string req)) ([], []) incoming with
  | Some (rows, OutDone) => (Settled, persist_done (pn_id row) rows conn)
  | Some (_, OutDenied reason) => (Settled, mark_terminal (pn_id row) "denied" (Some reason) conn)
  | Some (_, OutError msg) => (Settled, mark_terminal (pn_id row) "error" (Some msg) conn)
  | None => (Again, conn)
  end.

Definition unknown_peer_text (peer : string) : string :=
  "unknown peer " +:+ tag_debug peer +:+ ": not in _peers and not a 64-hex endpoint id".

Definition process_row (row : PendingRow) : World -> Step * World := fun '(conn, net) =>
  match parse_params (pn_params row) with
  | Err e => (Settled, (mark_terminal (pn_id row) "error" (Some e) conn, net))
  | Ok params =>
      let '(peer, conn) := resolve_peer (pn_peer row) conn in
      match peer with
      | None => (Settled, (mark_terminal (pn_id row) "error" (Some (unknown_peer_text (pn_peer row))) conn, net))
      | Some peer =>
          let '(opened, (conn, net)) := tr_open peer (conn, net) in
          if negb opened then (Again, (conn, net))
          else
            let conn := mark_sent (pn_id row) conn in
            let req := request_of row params in
            let '(incoming, (conn, net)) := tr_exchange peer (to_envelope req) (conn, net) in
            match incoming with
            | None => (Again, (conn, net))
            | Some incoming => let '(step, conn) := read_response row req incoming conn in (step, (conn, net))
            end
      end
  end.

(** ** A pass over the rows *)

Variable config : OutboxConfig.

Abbreviation Backoffs := (gmap string Backoff).

(** [u32] and [Instant] arithmetic of a retry. *)
Definition retried (backoff : Backoffs) (id : string) conn : Z * Backoffs * NConn D :=
  let '(fresh, conn) := instant_now conn in
  let entry := default (mkBackoff 0 fresh) (backoff !! id) in
  let attempts := (bf_attempts entry + 1) mod 2 ^ 32 in
  let '(now, conn) := instant_now conn in
  let when := now + backoff_delay attempts (base_backoff config) (max_backoff config) in
  (when, <[id := mkBackoff attempts when]> backoff, conn).

Definition propose (candidate : Z) (earliest : option Z) : option Z :=
  Some (match earliest with Some e => Z.min e candidate | None => candidate end).

(** [Duration::as_secs() as i64]. *)
Definition expiry_secs : Z := as_i64 (expiry config / NANOS).

(** How long the row still waits, if it does. *)
Definition waits (backoff : Backoffs) (id : string) (now : Z) : option Z :=
  match backoff !! id with
  | Some st => if now <? bf_next_attempt st then Some (bf_next_attempt st) else None
  | None => None
  end.

Definition tick_row (acc : option Z * Backoffs * World) (row : PendingRow) : option Z * Backoffs * World :=
  let '(earliest, backoff, (conn, net)) := acc in
  let '(now, conn) := instant_now conn in
  match waits backoff (pn_id row) now with
  | Some t => (propose t earliest, backoff, (conn, net))
  | None =>
      if expiry_secs <=? pn_age_secs row then
        (earliest, delete (pn_id row) backoff,
         (mark_terminal (pn_id row) "expired" (Some "request expired before completion") conn, net))
      else
        let '(step, (conn, net)) := process_row row (conn, net) in
        match step with
        | Settled => (earliest, delete (pn_id row) backoff, (conn, net))
        | Again => let '(when, backoff, conn) := retried backoff (pn_id row) conn in
                   (propose when earliest, backoff, (conn, net))
        end
  end.

(** The shortest wait of a row, in nanoseconds. *)
Definition tick (backoff : Backoffs) : World -> option Z * Backoffs * World := fun '(conn, net) =>
  let '(rows, conn) := scan conn in
  let '(earliest, backoff, (conn, net)) := foldl tick_row (None, backoff, (conn, net)) rows in
  match earliest with
  | None => (None, backoff, (conn, net))
  | Some t => let '(now, conn) := instant_now conn in (Some (Z.max 0 (t - now)), backoff, (conn, net))
  end.

(** How long the worker sleeps when nothing wakes it. *)
Definition wait_of (next_due : option Z) : Z :=
  match next_due with Some d => Z.min d (poll_interval config) | None => poll_interval config end.

(** What ends a wait: a wake of the worker, or the time; then the version of
    the data is asked for. In between, others use the database. *)
Inductive Wait : Type := Woken | Elapsed.

Definition data_version conn : NConn D := snd (ncall conn).

Fixpoint run (rounds : list (Wait * (World -> World))) (backoff : Backoffs) (w : World) : Backoffs * World :=
  match rounds with
  | [] => (backoff, w)
  | (wait, others) :: rounds =>
      let '(_, backoff, w) := tick backoff w in
      let '(conn, net) := others w in
      run rounds backoff (match wait with Woken => conn | Elapsed => data_version conn end, net)
  end.
End worker.
