(* ===== verification/OutboxProps.v ===== *)
(** * OutboxProps: requests leave the queue once, with their answers *)

From S2P Require Import Prelude RustStd Collections Effect Vocab External Instances Value Envelope Request Response AuthTypes Chain CivilDate.
From S2P Require Import Authorizer NodeDb NodeDemo NodeGateProps NodeKnock NodeExecute NodeFrames NodeProjection NodeSparql NodeDdl NodeSpec.
From S2P Require Import NodeChatMsg NodeChat NodeChatProps Outbox.

Open Scope Z_scope.

(** ** Peer ids *)

Lemma hex_pairs_byte b s : hex_pairs (hex2 HEX_LOWER (u8_val b) +:+ s) = cons b <$> hex_pairs s.
Proof.
  assert (radix_pair (nibble HEX_LOWER (u8_val b / 16)) (nibble HEX_LOWER (u8_val b mod 16)) = Some (u8_val b)) as Hp by (by destruct b).
  assert (u8 (u8_val b) = b) as Hb by (by destruct b).
  change (hex2 HEX_LOWER (u8_val b) +:+ s)
    with (String (nibble HEX_LOWER (u8_val b / 16)) (String (nibble HEX_LOWER (u8_val b mod 16)) s)).
  cbn [hex_pairs]. rewrite Hp, Hb. by destruct (hex_pairs s).
Qed.

Lemma hex_pairs_hex bytes : hex_pairs (hex bytes) = Some bytes.
Proof.
  induction bytes as [|b bytes IH]; [done|].
  change (hex (b :: bytes)) with (hex2 HEX_LOWER (u8_val b) +:+ hex bytes). by rewrite hex_pairs_byte, IH.
Qed.

(** A peer id reads back from its text. *)
Lemma peer_id_reads_back bytes : length bytes = 32%nat -> PeerId_from_str (PeerId_to_string bytes) = Some bytes.
Proof.
  intros Hlen. unfold PeerId_from_str, PeerId_to_string.
  assert (forall l, str_len (hex l) = (2 * length l)%nat /\ str_forallb is_ascii (hex l) = true) as Hhex.
  { induction l as [|b l [IHn IHa]]; [done|].
    assert (is_ascii (nibble HEX_LOWER (u8_val b / 16)) = true /\ is_ascii (nibble HEX_LOWER (u8_val b mod 16)) = true) as [H1 H2] by (by destruct b).
    change (hex (b :: l)) with (String (nibble HEX_LOWER (u8_val b / 16)) (String (nibble HEX_LOWER (u8_val b mod 16)) (hex l))).
    unfold str_len in *. cbn [String.length length str_forallb]. rewrite IHn, H1, H2. split; [lia|done]. }
  destruct (Hhex bytes) as [-> ->]. rewrite Hlen. cbn. apply hex_pairs_hex.
Qed.

(** A text that is not hexadecimal is also taken for one. *)
Lemma peer_id_with_pluses : PeerId_from_str (str_concat (repeat "+0" 32)) = Some (repeat Byte.x00 32).
Proof. reflexivity. Qed.

(** ** The life of a row *)

Definition is_open (r : OutboxRow) : bool := cell_is (ob_status r) "queued" || cell_is (ob_status r) "sent".

Inductive row_step : OutboxRow -> OutboxRow -> Prop :=
| rs_sent r : cell_is (ob_status r) "queued" = true -> row_step r (with_status "sent" (ob_error r) (ob_completed_at r) r)
| rs_settled r status error at_ :
    is_open r = true -> status ∈ ["done"; "denied"; "error"; "expired"] -> row_step r (with_status status error (SText at_) r).

Definition text_id (r : OutboxRow) : option string := match ob_request_id r with SText id => Some id | _ => None end.

(** The primary key. *)
Definition unique (t : list OutboxRow) : Prop := NoDup (omap text_id t).

(** Rows go on their way, and others are appended. *)
Definition walks (t t' : list OutboxRow) : Prop :=
  (exists t1 new, t' = t1 ++ new /\ Forall2 (rtc row_step) t t1) /\ (unique t -> unique t').

Lemma row_step_id r r' : row_step r r' -> ob_request_id r' = ob_request_id r.
Proof. by intros []. Qed.

Lemma walk_id r r' : rtc row_step r r' -> ob_request_id r' = ob_request_id r.
Proof. induction 1 as [|? ? ? ?%row_step_id ? IH]; congruence. Qed.

Lemma settled_stays r r' : is_open r = false -> rtc row_step r r' -> r' = r.
Proof.
  intros Ho [->|(r1 & Hs & _)]%rtc_inv; [done|]. unfold is_open in Ho.
  destruct Hs as [r Hq|r ? ? ? Hq]; [by rewrite Hq in Ho|unfold is_open in Hq; congruence].
Qed.

Lemma rows_stay t : Forall2 (rtc row_step) t t.
Proof. by apply Forall_Forall2_diag, Forall_forall. Qed.

#[export] Instance walks_preorder : PreOrder walks.
Proof.
  split.
  - intros t. split; [|done]. exists t, []. rewrite app_nil_r. split; [done|]. apply rows_stay.
  - intros t1 t2 t3 [(u1 & n1 & -> & H1) Hu1] [(u2 & n2 & -> & H2) Hu2]. split; [|auto].
    apply Forall2_app_inv_l in H2 as (v1 & v2 & Hv1 & Hv2 & ->). exists v1, (v2 ++ n2). rewrite app_assoc. split; [done|].
    clear -H1 Hv1. revert v1 Hv1. induction H1; intros v1 Hv; inversion Hv; subst; constructor; [by etrans|auto].
Qed.

Lemma text_ids_cons r t :
  omap text_id (r :: t) = match text_id r with Some id => id :: omap text_id t | None => omap text_id t end.
Proof. done. Qed.

Lemma same_ids t t1 : Forall2 (rtc row_step) t t1 -> omap text_id t1 = omap text_id t.
Proof. induction 1 as [|r r' t t1 Hr%walk_id _ IH]; [done|]. rewrite !text_ids_cons, IH. unfold text_id at 1 3. by rewrite Hr. Qed.

Lemma walks_rows t t1 : Forall2 (rtc row_step) t t1 -> walks t t1.
Proof. intros H. split; [exists t1, []; by rewrite app_nil_r|]. unfold unique. by rewrite (same_ids _ _ H). Qed.

(** Rows of these ids are still open; the ids differ. *)
Definition still_open (t : list OutboxRow) (ids : list string) : Prop :=
  unique t /\ NoDup ids /\ forall id, id ∈ ids -> exists r, r ∈ t /\ ob_request_id r = SText id /\ is_open r = true.

Lemma unique_row t r r' id : unique t -> r ∈ t -> r' ∈ t -> ob_request_id r = SText id -> cell_is (ob_request_id r') id = true -> r' = r.
Proof.
  unfold unique. induction t as [|x t IH]; [by intros _ ?%elem_of_nil|]. intros Hn Hr Hr' Hid Hid'.
  assert (ob_request_id r' = SText id) as Hid2.
  { unfold cell_is in Hid'. destruct (ob_request_id r'); try done. apply bool_decide_eq_true in Hid'. by subst. }
  assert (Hin : forall z, z ∈ t -> ob_request_id z = SText id -> id ∈ omap text_id t).
  { intros z Hz Hidz. apply list_elem_of_omap. exists z. split; [done|]. unfold text_id. by rewrite Hidz. }
  rewrite elem_of_cons in Hr, Hr'. rewrite text_ids_cons in Hn. destruct Hr as [->|Hr], Hr' as [->|Hr']; [done|..].
  - replace (text_id x) with (Some id) in Hn by (unfold text_id; by rewrite Hid). apply NoDup_cons in Hn as [Hn _]. exfalso. apply Hn. by eapply Hin.
  - replace (text_id x) with (Some id) in Hn by (unfold text_id; by rewrite Hid2). apply NoDup_cons in Hn as [Hn _]. exfalso. apply Hn. by eapply Hin.
  - apply IH; try done. destruct (text_id x); [by apply NoDup_cons in Hn as [_ ?]|done].
Qed.

(** An update of the rows with this id. *)
Definition updated (id : string) (f : OutboxRow -> OutboxRow) (t : list OutboxRow) : list OutboxRow :=
  map (fun r => if cell_is (ob_request_id r) id then f r else r) t.

Lemma updated_walks id ids f t :
  still_open t (id :: ids) -> (forall r, ob_request_id r = SText id -> is_open r = true -> rtc row_step r (f r)) -> walks t (updated id f t).
Proof.
  intros (Hu & _ & Ho) Hf. apply walks_rows. apply Forall2_fmap_r, Forall_Forall2_diag, Forall_forall. intros r Hr. unfold compose.
  destruct (cell_is (ob_request_id r) id) eqn:E; [|reflexivity]. destruct (Ho id) as (r0 & Hr0 & Hid & Hop); [by left|].
  assert (r = r0) as -> by (by eapply unique_row). auto.
Qed.

Lemma updated_open id ids f t :
  still_open t (id :: ids) -> (forall r, ob_request_id (f r) = ob_request_id r) -> still_open (updated id f t) ids.
Proof.
  intros (Hu & Hn & Ho) Hf. apply NoDup_cons in Hn as [Hni Hn]. split_and!; [|done|].
  - unfold unique. replace (omap text_id (updated id f t)) with (omap text_id t); [done|]. clear -Hf.
    unfold updated. induction t as [|r t IH]; [done|]. cbn [map]. rewrite !text_ids_cons, IH.
    replace (text_id (if cell_is (ob_request_id r) id then f r else r)) with (text_id r); [done|].
    destruct (cell_is (ob_request_id r) id); [|done]. unfold text_id. by rewrite Hf.
  - intros id' Hin. destruct (Ho id') as (r & Hr & Hid & Hop); [by right|]. exists r. split_and!; try done.
    apply list_elem_of_fmap. exists r. split; [|done]. rewrite Hid. cbn. rewrite bool_decide_false; [done|]. by intros ->.
Qed.

(** What others do: they add rows. *)
Definition appends (t t' : list OutboxRow) : Prop := (exists new, t' = t ++ new) /\ (unique t -> unique t').

Lemma appends_refl t : appends t t.
Proof. split; [|done]. exists []. by rewrite app_nil_r. Qed.

Lemma appends_walks t t' : appends t t' -> walks t t'.
Proof. intros [(new & ->) Hu]. split; [|done]. exists t, new. split; [done|]. apply rows_stay. Qed.

Lemma appends_open t t' ids : appends t t' -> still_open t ids -> still_open t' ids.
Proof.
  intros [(new & ->) Hu] (Hun & Hn & Ho). split_and!; [auto|done|]. intros id (r & Hr & ? & ?)%Ho. exists r. split_and!; try done.
  apply elem_of_app. by left.
Qed.

(** ** The statements *)

Section worker.
Context {D N : Type} `{HU : !UlidLib} `{HS : !OxDisplay} `{HJ : !JsonRows}.
Context `{HT : !Transport D N} `{HQ : !OutboxSql} `{HF : !FrameText}.
Implicit Types (d : NodeDb D) (conn : NConn D).

Definition results d : gmap (string * Z) string := default ∅ (sv_results (nd_surface d)).

(** Everything but the queue and the results. *)
Definition beside d d' : Prop :=
  nd_auth d' = nd_auth d /\ nd_applied d' = nd_applied d /\ chat_of d' = chat_of d /\ nd_user d' = nd_user d /\
  (is_Some (sv_results (nd_surface d)) <-> is_Some (sv_results (nd_surface d'))) /\
  (is_Some (sv_outbox (nd_surface d)) <-> is_Some (sv_outbox (nd_surface d'))).

#[export] Instance beside_preorder : PreOrder beside.
Proof. split; unfold beside, Reflexive, Transitive; [naive_solver|]. intros x y z (?&?&?&?&Hr1&Ho1) (?&?&?&?&Hr2&Ho2). split_and!; [congruence..|by rewrite Hr1|by rewrite Ho1]. Qed.

Lemma does_update id f :
  does (fun d => is_Some (sv_outbox (nd_surface d))) (nsql (update_request (D:=D) id f))
    (fun d _ d' => queue d' = updated id f (queue d) /\ results d' = results d /\ beside d d') unchanged.
Proof.
  eapply does_conseq; [apply does_nsql| | |done].
  - intros d [t Ht]. unfold update_request. by rewrite Ht.
  - intros d [] d'. unfold update_request, nneed, queue, results. destruct (sv_outbox (nd_surface d)) as [t|] eqn:E; [|done]. cbn.
    intros [= <-]. unfold beside. cbn. rewrite E. by split_and!.
Qed.

(** An update that fails changes nothing. *)
Lemma update_cases (id : string) (f : OutboxRow -> OutboxRow) conn :
  let conn' := snd (nsql (update_request id f) conn) in
  n_saved conn' = n_saved conn /\ (n_healthy conn -> n_healthy conn') /\ beside (n_db conn) (n_db conn') /\ results (n_db conn') = results (n_db conn) /\
  (queue (n_db conn') = updated id f (queue (n_db conn)) \/
   (queue (n_db conn') = queue (n_db conn) /\ (n_healthy conn -> sv_outbox (nd_surface (n_db conn)) = None))).
Proof.
  cbv zeta. destruct (nsql _ conn) as [r c'] eqn:E. apply does_update in E as (Hs & Hh & Hr). cbn [snd].
  destruct r as [u|e].
  - destruct Hr as (? & ? & ?). split_and!; try done. by left.
  - destruct Hr as [Hd Hn]. unfold unchanged in Hd. rewrite Hd. split; [done|]. split; [done|]. split; [reflexivity|]. split; [done|]. right.
    split; [done|]. intros Hc. destruct (sv_outbox _) eqn:Eo; [|done]. by destruct (Hn Hc); eexists.
Qed.

(** The rows recorded under an id. *)
Definition recorded (id : string) (rows : list string) (t : gmap (string * Z) string) : Prop :=
  forall j row, t !! (id, j) = Some row <-> 0 <= j /\ rows !! Z.to_nat j = Some row.

Lemma as_i64_id z : 0 <= z < 2 ^ 63 -> as_i64 z = z.
Proof. intros Hz. unfold as_i64. rewrite Z.mod_small; lia. Qed.

(** The other ids' rows, and the tables. *)
Definition others_kept (id : string) d d' : Prop :=
  queue d' = queue d /\ beside d d' /\ forall key, fst key <> id -> results d' !! key = results d !! key.

Lemma does_insert_row id i row :
  does (fun d => is_Some (sv_results (nd_surface d)) /\ results d !! (id, as_i64 i) = None) (insert_numbered (D:=D) id tt (i, row))
    (fun d _ d' => others_kept id d d' /\ results d !! (id, as_i64 i) = None /\ results d' = <[(id, as_i64 i) := row]> (results d)) whatever.
Proof.
  unfold insert_numbered. cbn [fst snd]. eapply does_conseq; [apply does_nsql| | |done].
  - intros d [[t Ht] Hnone]. unfold insert_result, results in *. rewrite Ht in *. cbn in *. by rewrite Hnone.
  - intros d [] d'. unfold insert_result, others_kept, results, queue, beside. destruct (sv_results (nd_surface d)) as [t|] eqn:E; [|done]. cbn.
    destruct (t !! (id, as_i64 i)) eqn:El; [done|]. intros [= <-]. cbn. rewrite ?E. cbn. split_and!; try done.
    intros key Hk. by rewrite lookup_insert_ne by (intros <-; done).
Qed.

(** From the number [i], the rows have numbers of their own. *)
Definition numbered (i : Z) (rows : list string) : Prop := 0 <= i /\ i + zlen rows <= 2 ^ 63.

Lemma numbered_cons i row rows : numbered i (row :: rows) -> as_i64 i = i /\ numbered (i + 1) rows.
Proof. unfold numbered, zlen. cbn [length]. intros ?. split; [apply as_i64_id|]; lia. Qed.

Definition room_for id i rows d : Prop :=
  is_Some (sv_results (nd_surface d)) /\ numbered i rows /\ forall j, i <= j -> results d !! (id, j) = None.

Lemma does_insert_rows id rows : forall i u,
  does (room_for id i rows) (efold (insert_numbered (D:=D) id) u (enumerate i rows))
    (fun d _ d' => others_kept id d d' /\ (numbered i rows -> forall j row, results d' !! (id, j) = Some row <->
         results d !! (id, j) = Some row \/ (i <= j /\ rows !! Z.to_nat (j - i) = Some row))) whatever.
Proof.
  induction rows as [|row rows IH]; intros i []; cbn [efold enumerate].
  { eapply does_conseq; [apply (does_ret tt whatever)|done| |done]. intros d b d' [_ ->]. split; [done|].
    intros _ j row. rewrite lookup_nil. naive_solver. }
  eapply does_conseq with (Pre := room_for id i (row :: rows));
    [eapply (does_then _ _ _ (fun _ => room_for id (i + 1) rows)); [apply does_insert_row|intros u; apply IH|]|done| |done].
  - cbv beta. intros d (Ht & [Hi Hn]%numbered_cons & Hnone). rewrite Hi. split; [split; [done|apply Hnone; lia]|].
    intros u d1 ((_ & Hb & _) & _ & Hr). split; [by apply Hb|]. split; [done|].
    intros j Hj. rewrite Hr, lookup_insert_ne by (intros [= ->]; lia). apply Hnone. lia.
  - cbv beta. intros d u d' (v & d1 & ((Hq1 & Hb1 & Ho1) & Hn & Hr1) & (Hq2 & Hb2 & Ho2) & Hr2). split.
    { split; [congruence|]. split; [by etrans|]. intros key Hk. by rewrite Ho2, Ho1. }
    intros [Hi Hnum]%numbered_cons j row'. rewrite Hr2 by done. rewrite Hi in Hr1, Hn. rewrite Hr1.
    destruct (base.decide (j = i)) as [->|Hne].
    + rewrite lookup_insert_eq, Hn, Z.sub_diag. cbn. split; [intros [?|[? _]]; [by right|lia]|]. intros [?|[_ ?]]; [done|by left].
    + rewrite lookup_insert_ne by congruence. destruct (Z.lt_ge_cases i j).
      * replace (Z.to_nat (j - i)) with (S (Z.to_nat (j - (i + 1)))) by lia. cbn. split; (intros [?|[? ?]]; [by left|right; split; [lia|done]]).
      * split; (intros [?|[? ?]]; [by left|lia]).
Qed.

Lemma does_clear id :
  does (fun d => is_Some (sv_results (nd_surface d))) (nsql (clear_results (D:=D) id))
    (fun d _ d' => others_kept id d d' /\ is_Some (sv_results (nd_surface d')) /\ forall j, results d' !! (id, j) = None) whatever.
Proof.
  eapply does_conseq; [apply does_nsql| | |done].
  - intros d [t Ht]. unfold clear_results. by rewrite Ht.
  - intros d [] d'. unfold clear_results, others_kept, results, queue, beside. destruct (sv_results (nd_surface d)) as [t|] eqn:E; [|done]. cbn.
    intros [= <-]. cbn. rewrite ?E. cbn. split_and!; try done.
    + intros key Hk. destruct (t !! key) eqn:El; [apply map_lookup_filter_Some; by split|apply map_lookup_filter_None; by left].
    + intros j. apply map_lookup_filter_None. right. intros x _ Hx. by apply Hx.
Qed.

(** The answer is recorded, and the row done. *)
Definition done_with (id : string) (rows : list string) d d' : Prop :=
  (exists at_, queue d' = updated id (with_status "done" SNull (SText at_)) (queue d)) /\
  (zlen rows <= 2 ^ 63 -> recorded id rows (results d')) /\
  (forall key, fst key <> id -> results d' !! key = results d !! key) /\ beside d d'.

(** The tables are there, and the rows can be numbered. *)
Definition stores (rows : list string) d : Prop :=
  is_Some (sv_outbox (nd_surface d)) /\ is_Some (sv_results (nd_surface d)) /\ zlen rows <= 2 ^ 63.

Lemma persists id rows :
  commits (stores rows) (persist_rows (D:=D) id rows)
    (fun d _ d' => done_with id rows d d').
Proof.
  unfold persist_rows. eapply commits_conseq.
  - eapply (commits_then _ _ _ (fun _ d => is_Some (sv_outbox (nd_surface d)) /\ room_for id 0 rows d) _ _ (stores rows)).
    + apply does_clear.
    + intros u. eapply (commits_then _ _ _ (fun _ d => is_Some (sv_outbox (nd_surface d)))).
      * apply (does_insert_rows id rows 0 tt).
      * intros u'. eapply (commits_then _ _ _ (fun _ _ => True)).
        -- apply (does_at (fun c => update_request id (with_status "done" SNull (SText (sql_now c))))).
        -- intros u2. apply commits_commit.
        -- intros d [t Ht]. split; [|done]. intros c. unfold update_request. by rewrite Ht.
      * cbv beta. intros d [Ho Hr]. split; [done|]. intros u' d1 [(_ & Hb & _) _]. by apply Hb.
    + cbv beta. intros d (Ho & Hr & Hn). split; [done|]. intros u d1 ((_ & Hb & _) & Hr1 & Hnone). split; [by apply Hb|]. split_and!; [done| |done].
      unfold numbered. lia.
  - done.
  - cbv beta. intros d u d' (u1 & d1 & ((Hq1 & Hb1 & Ho1) & _ & Hn1) & u2 & d2 & ((Hq2 & Hb2 & Ho2) & Hr2) & u3 & d3 & (c & Hup) & ->).
    unfold update_request, nneed in Hup. destruct (sv_outbox (nd_surface d2)) as [t|] eqn:Et; [|done]. cbn in Hup. injection Hup as _ <-.
    assert (queue d2 = t) as Hq by (unfold queue; by rewrite Et). split_and!.
    + exists (sql_now c). rewrite <-Hq1, <-Hq2, Hq. done.
    + intros Hlen j row. change (results d2 !! (id, j) = Some row <-> 0 <= j /\ rows !! Z.to_nat j = Some row).
      rewrite Hr2 by (unfold numbered; lia). rewrite Hn1, Z.sub_0_r. naive_solver.
    + intros key Hk. change (results d2 !! key = results d !! key). by rewrite Ho2, Ho1.
    + etrans; [exact Hb1|]. etrans; [exact Hb2|]. unfold beside. cbn. rewrite Et. by split_and!.
Qed.

Lemma persist_cases id rows conn :
  let conn' := persist_done id rows conn in
  n_saved conn' = n_saved conn /\ (n_healthy conn -> n_healthy conn') /\
  ((n_db conn' = n_db conn /\ (n_healthy conn -> n_saved conn = None -> ~ stores rows (n_db conn))) \/
   done_with id rows (n_db conn) (n_db conn')).
Proof.
  unfold persist_done. destruct (n_saved conn) eqn:Es.
  { unfold ebind, begin_transaction. rewrite Es. cbn. split_and!; [done..|]. left. split; [done|]. intros _ ?. done. }
  destruct (ebind _ _ conn) as [r c'] eqn:E. eapply transaction_does in E as (Hs & Hh & Hr); [|apply persists|done]. cbv zeta. cbn [snd].
  split_and!; [done..|]. destruct r as [u|e]; [by right|]. left. destruct Hr as [? Hn]. split; [done|]. intros Hc _. by apply Hn.
Qed.
(** ** An attempt *)

Abbreviation World := (NConn D * N)%type.
Definition outbox_of (w : World) : list OutboxRow := queue (n_db (fst w)).

(** Whatever else runs while the worker waits for the network adds rows, and
    leaves those that are there alone. *)
Record polite : Prop := mkPolite {
  po_open : forall peer w b w', tr_open peer w = (b, w') -> appends (outbox_of w) (outbox_of w');
  po_exchange : forall peer obj w r w', tr_exchange peer obj w = (r, w') -> appends (outbox_of w) (outbox_of w')
}.

(** The queue goes on, and the rows after this one are still open. *)
Definition goes_on (ids : list string) (t t' : list OutboxRow) : Prop := walks t t' /\ still_open t' ids.

Lemma opened_less id ids t : still_open t (id :: ids) -> still_open t ids.
Proof. intros (Hu & Hn & Ho). split_and!; [done|by apply NoDup_cons in Hn as [_ ?]|]. intros i Hi. apply Ho. by right. Qed.

Lemma settles id ids status error at_ t :
  still_open t (id :: ids) -> status ∈ ["done"; "denied"; "error"; "expired"] -> goes_on ids t (updated id (with_status status error (SText at_)) t).
Proof.
  intros Ho Hin. split; [|by eapply updated_open]. eapply updated_walks; [exact Ho|]. intros r _ Hr. apply rtc_once. by constructor.
Qed.

Lemma terminal_goes_on id ids status error conn : still_open (queue (n_db conn)) (id :: ids) -> status ∈ ["done"; "denied"; "error"; "expired"] ->
  goes_on ids (queue (n_db conn)) (queue (n_db (mark_terminal id status error conn))).
Proof.
  intros Ho Hin. unfold mark_terminal. destruct (update_cases id (with_status status (opt_cell error) (SText (sql_now conn))) conn) as (_ & _ & _ & _ & [->|[-> _]]).
  - by apply settles.
  - split; [done|by eapply opened_less].
Qed.

Lemma persist_goes_on id ids rows conn : still_open (queue (n_db conn)) (id :: ids) ->
  goes_on ids (queue (n_db conn)) (queue (n_db (persist_done id rows conn))).
Proof.
  intros Ho. destruct (persist_cases id rows conn) as (_ & _ & [[-> _]|[[at_ ->] _]]).
  - split; [done|by eapply opened_less].
  - apply settles; [done|by left].
Qed.

Lemma sent_goes_on id ids conn : still_open (queue (n_db conn)) (id :: ids) ->
  goes_on (id :: ids) (queue (n_db conn)) (queue (n_db (mark_sent id conn))).
Proof.
  intros Ho. unfold mark_sent. destruct (update_cases id sent_row conn) as (_ & _ & _ & _ & [->|[-> _]]); [|by split].
  assert (Hsent : forall r, is_open r = true -> is_open (sent_row r) = true).
  { intros r Hr. unfold sent_row. destruct (cell_is (ob_status r) "queued"); [done|done]. }
  split.
  - eapply updated_walks; [exact Ho|]. intros r _ Hr. unfold sent_row. destruct (cell_is (ob_status r) "queued") eqn:E; [|reflexivity].
    apply rtc_once. by constructor.
  - assert (Hids : forall r, ob_request_id (sent_row r) = ob_request_id r) by (intros r; unfold sent_row; by destruct (cell_is _ _)).
    destruct (updated_open _ _ sent_row _ Ho Hids) as (Hu & _ & _). destruct Ho as (_ & Hn & Ho). split_and!; [done|done|].
    intros i (r & Hr & Hid & Hop)%Ho. exists (if cell_is (ob_request_id r) id then sent_row r else r). split_and!.
    + apply list_elem_of_fmap. by exists r.
    + destruct (cell_is _ _); [by rewrite Hids|done].
    + destruct (cell_is _ _); auto.
Qed.

Lemma goes_on_trans ids ids' t1 t2 t3 : goes_on ids t1 t2 -> goes_on ids' t2 t3 -> goes_on ids' t1 t3.
Proof. intros [H1 _] [H2 ?]. split; [by etrans|done]. Qed.

Lemma goes_on_less id ids t t' : goes_on (id :: ids) t t' -> goes_on ids t t'.
Proof. intros [? ?]. split; [done|by eapply opened_less]. Qed.

Lemma appended_goes_on ids t t' : appends t t' -> still_open t ids -> goes_on ids t t'.
Proof. intros Ha Ho. split; [by apply appends_walks|by eapply appends_open]. Qed.

Lemma resolve_quiet peer conn r conn' : resolve_peer peer conn = (r, conn') -> quiet conn conn'.
Proof. unfold resolve_peer. destruct (nquery _ conn) as [o c] eqn:E. apply nquery_cases in E as (Hq & _). by intros [= _ <-]. Qed.

Lemma read_goes_on row ids req incoming conn step conn' : still_open (queue (n_db conn)) (pn_id row :: ids) ->
  read_response row req incoming conn = (step, conn') -> goes_on ids (queue (n_db conn)) (queue (n_db conn')).
Proof.
  intros Ho. unfold read_response. destruct (drain _ _ _) as [[rows []]|]; intros [= _ <-].
  - by apply persist_goes_on.
  - apply terminal_goes_on; [done|set_solver].
  - apply terminal_goes_on; [done|set_solver].
  - split; [done|by eapply opened_less].
Qed.

Lemma process_goes_on row ids w step w' : polite -> still_open (outbox_of w) (pn_id row :: ids) -> process_row row w = (step, w') ->
  goes_on ids (outbox_of w) (outbox_of w').
Proof.
  intros Hp Ho. destruct w as [c n]. unfold process_row. destruct (parse_params _) as [params|e].
  2: { intros [= _ <-]. apply terminal_goes_on; [done|set_solver]. }
  destruct (resolve_peer _ c) as [peer c1] eqn:E1. apply resolve_quiet in E1 as (Hd1 & _).
  unfold outbox_of in *. cbn [fst] in *. rewrite <-Hd1 in Ho |- *. destruct peer as [peer|].
  2: { intros [= _ <-]. apply terminal_goes_on; [done|set_solver]. }
  destruct (tr_open peer (c1, n)) as [opened [c2 n2]] eqn:E2. apply (po_open Hp) in E2. unfold outbox_of in E2. cbn [fst] in E2.
  eapply appended_goes_on in E2; [|exact Ho]. destruct opened; cbn [negb]; [|intros [= _ <-]; by eapply goes_on_less].
  assert (H3 := sent_goes_on _ _ _ (proj2 E2)). intros Hrun. eapply goes_on_trans; [exact E2|]. eapply goes_on_trans; [exact H3|]. revert Hrun.
  destruct (tr_exchange peer _ _) as [incoming [c4 n4]] eqn:E4. apply (po_exchange Hp) in E4. unfold outbox_of in E4. cbn [fst] in E4.
  eapply appended_goes_on in E4; [|exact (proj2 H3)]. intros Hrun. eapply goes_on_trans; [exact E4|]. revert Hrun.
  destruct incoming as [incoming|]; [|intros [= _ <-]; split; [done|eapply opened_less, E4]].
  destruct (read_response _ _ _ c4) as [st c5] eqn:E5. intros [= _ <-]. eapply read_goes_on; [apply E4|exact E5].
Qed.

(** ** A pass *)

Variable config : OutboxConfig.

Lemma tick_row_goes_on row ids acc : polite -> still_open (outbox_of (snd acc)) (pn_id row :: ids) ->
  goes_on ids (outbox_of (snd acc)) (outbox_of (snd (tick_row config acc row))).
Proof.
  intros Hp. destruct acc as [[earliest backoff] [c n]]. cbn [snd]. intros Ho. unfold tick_row.
  destruct (instant_now c) as [now c1] eqn:E1. apply instant_quiet in E1 as (Hd1 & _).
  unfold outbox_of in *. cbn [fst] in *. rewrite <-Hd1 in Ho |- *.
  destruct (waits _ _ _) as [t|]; [split; [done|by eapply opened_less]|].
  destruct (_ <=? _); [apply terminal_goes_on; [done|set_solver]|].
  destruct (process_row row (c1, n)) as [step [c2 n2]] eqn:E2. eapply process_goes_on in E2; [|done|exact Ho].
  destruct step; [exact E2|]. exact E2.
Qed.

Lemma tick_rows_goes_on rows : forall acc, polite -> still_open (outbox_of (snd acc)) (map pn_id rows) ->
  goes_on [] (outbox_of (snd acc)) (outbox_of (snd (foldl (tick_row config) acc rows))).
Proof.
  induction rows as [|row rows IH]; intros acc Hp Ho; [by split|]. cbn [foldl]. cbn [map] in Ho.
  assert (H1 := tick_row_goes_on row (map pn_id rows) acc Hp Ho). eapply goes_on_trans; [exact H1|]. apply IH; [done|apply H1].
Qed.

Lemma oks_cons {A} (x : result string A) l : oks (x :: l) = match x with Ok a => a :: oks l | Err _ => oks l end.
Proof. by destruct x. Qed.

Lemma read_pending_id now r p : read_pending now r = Ok p -> ob_request_id r = SText (pn_id p).
Proof.
  unfold read_pending. destruct (ob_request_id r); cbn; try done. repeat (destruct (get_string _); cbn; try done). by intros [= <-].
Qed.

Lemma pending_in now l p : p ∈ oks (map (read_pending now) l) -> exists r, r ∈ l /\ ob_request_id r = SText (pn_id p).
Proof.
  intros (x & (r & -> & Hr)%list_elem_of_fmap & Hx)%list_elem_of_omap. exists r. split; [done|].
  destruct (read_pending now r) as [p'|] eqn:E; [|done]. apply read_pending_id in E. by injection Hx as ->.
Qed.

Lemma pending_distinct now l : unique l -> NoDup (map pn_id (oks (map (read_pending now) l))).
Proof.
  unfold unique. induction l as [|r l IH]; [constructor|]. rewrite text_ids_cons. cbn [map]. rewrite oks_cons. intros Hn.
  assert (NoDup (omap text_id l)) as Hl by (destruct (text_id r); [by apply NoDup_cons in Hn as [_ ?]|done]).
  destruct (read_pending now r) as [p|] eqn:E; [|auto]. cbn [map]. apply NoDup_cons. split; [|auto].
  apply read_pending_id in E. unfold text_id in Hn at 1. rewrite E in Hn. apply NoDup_cons in Hn as [Hn _].
  intros (p' & Hp & (r' & Hr & Hid)%pending_in)%list_elem_of_fmap. apply Hn, list_elem_of_omap. exists r'. split; [done|].
  unfold text_id. by rewrite Hid, <-Hp.
Qed.

Lemma unique_filter t : unique t -> unique (base.filter actionable t).
Proof.
  unfold unique. induction t as [|r t IH]; [done|]. rewrite text_ids_cons. intros Hn.
  assert (NoDup (omap text_id t)) as Hl by (destruct (text_id r); [by apply NoDup_cons in Hn as [_ ?]|done]).
  rewrite filter_cons. destruct (base.decide (actionable r)); [|auto]. rewrite text_ids_cons. destruct (text_id r) as [id|]; [|auto].
  apply NoDup_cons in Hn as [Hn _]. apply NoDup_cons. split; [|auto]. intros (r' & [_ Hr]%list_elem_of_filter & Hid)%list_elem_of_omap.
  apply Hn, list_elem_of_omap. by exists r'.
Qed.

Lemma scan_open conn rows conn' : scan conn = (rows, conn') -> unique (queue (n_db conn)) ->
  quiet conn conn' /\ still_open (queue (n_db conn')) (map pn_id rows).
Proof.
  unfold scan. destruct (nquery _ conn) as [r c] eqn:E. apply nquery_cases in E as (Hq & _ & Hok). intros Hr Hu.
  assert (c = conn') as -> by (by destruct r; injection Hr). split; [done|]. destruct Hq as (Hd & _). rewrite Hd.
  destruct r as [l|e]; injection Hr as <-.
  2: { split_and!; [done|constructor|]. intros ? ?%elem_of_nil. done. }
  specialize (Hok l eq_refl). unfold pending_rows, nneed in Hok. unfold queue in *.
  destruct (sv_outbox (nd_surface (n_db conn))) as [t|]; [|done]. cbn in Hok, Hu |- *. injection Hok as <-.
  assert (Hs : merge_sort by_creation (base.filter actionable t) ≡ₚ base.filter actionable t) by apply merge_sort_Permutation.
  split_and!; [done| |].
  - apply pending_distinct. unfold unique. rewrite Hs. by apply unique_filter.
  - intros id (p & -> & (r & Hr & Hid)%pending_in)%list_elem_of_fmap. exists r. rewrite Hs in Hr. apply list_elem_of_filter in Hr as [[Ha _] Hr].
    by split_and!.
Qed.

Lemma tick_walks backoff w : polite -> unique (outbox_of w) -> walks (outbox_of w) (outbox_of (snd (tick config backoff w))).
Proof.
  intros Hp Hu. destruct w as [c n]. unfold tick. destruct (scan c) as [rows c1] eqn:E1. apply scan_open in E1 as [(Hd & _) Ho]; [|done].
  unfold outbox_of in *. cbn [fst] in *. rewrite <-Hd. pose proof (tick_rows_goes_on rows (None, backoff, (c1, n)) Hp Ho) as [Hw _].
  destruct (foldl _ _ rows) as [[[t|] b] [c2 n2]]; exact Hw.
Qed.

(** ** The answer *)

(** The rows of a whole response and how it ends, without the reader. *)
Fixpoint conclude (acc : Drained) (objs : list EnvelopeObject) : option (list string * Outcome) :=
  match objs with
  | [] => None
  | obj :: objs =>
      match event_of obj with
      | None => None
      | Some ev => match take_event ev acc with
                   | inl acc => conclude acc objs
                   | inr out => Some (snd acc, out)
                   end
      end
  end.

Lemma take_terminal ev acc : (exists out, take_event ev acc = inr out) <-> is_terminal ev = true.
Proof. destruct acc as [columns rows]. destruct ev; cbn; naive_solver. Qed.

Lemma drain_sound id incoming : forall s n acc res, (s = AwaitHeader -> n = 0) ->
  drain (at_state id s n) acc incoming = Some res ->
  exists taken rest, incoming = map Ok taken ++ rest /\ expects id s n taken /\ conclude acc taken = Some res.
Proof.
  induction incoming as [|[frame|e] incoming IH]; intros s n acc res Hn; [done| |done]. cbn [drain].
  destruct (accept frame (at_state id s n)) as [[ev|e] r] eqn:Ea; [|done].
  destruct (accept_state _ _ _ _ _ _ Ea) as [Hfin _]. apply accept_sound in Ea as (Hev & s' & n' & -> & Hs).
  destruct (take_event ev acc) as [acc'|out] eqn:Et.
  - pose proof (step_leaves_start _ _ _ _ _ _ Hs). intros (taken & rest & -> & He & Hc)%IH; [|done].
    exists (frame :: taken), rest. split_and!; [done|apply expects_step; [done|by eauto]|]. cbn. by rewrite Hev, Et.
  - intros [= <-]. exists [frame], incoming. split_and!; [done| |cbn; by rewrite Hev, Et].
    apply expects_step; [done|]. exists s', n'. split; [done|].
    assert (is_terminal ev = true) as Hterm by (apply (take_terminal ev acc); by exists out). rewrite Hterm in Hfin. by destruct s'.
Qed.

Lemma drain_complete id objs rest : forall s n acc, (s = AwaitHeader -> n = 0) -> expects id s n objs -> s <> Finished ->
  drain (at_state id s n) acc (map Ok objs ++ rest) = conclude acc objs /\ is_Some (conclude acc objs).
Proof.
  induction objs as [|obj objs IH]; intros s n acc Hn He Hs.
  { destruct s; cbn in He; try done; [destruct He as [_ He]| | |]; by inversion He. }
  apply expects_step in He as (s' & n' & Hstep & He); [|done]. pose proof (step_leaves_start _ _ _ _ _ _ Hstep).
  destruct (accept_complete _ _ _ _ _ _ Hstep) as (ev & Hev & Ha). destruct (accept_state _ _ _ _ _ _ Ha) as [Hfin _].
  cbn [map app drain conclude]. rewrite Ha, Hev. destruct (take_event ev acc) as [acc'|out] eqn:Et; [|done].
  apply IH; [done..|]. intros ->. cbn in Hfin. symmetry in Hfin. apply (take_terminal ev acc) in Hfin as [out Ho]. congruence.
Qed.

(** The row at a place of the queue has this id, and a property. *)
Definition row_at (i : nat) (id : string) (P : OutboxRow -> Prop) (t : list OutboxRow) : Prop :=
  exists r, t !! i = Some r /\ ob_request_id r = SText id /\ P r.

Lemma row_at_appends i id P t t' : appends t t' -> row_at i id P t -> row_at i id P t'.
Proof. intros [(new & ->) _] (r & Hr & ? & ?). exists r. split_and!; [by apply lookup_app_l_Some|done|done]. Qed.

Lemma row_at_updated i id (P Q : OutboxRow -> Prop) f t : row_at i id P t ->
  (forall r, ob_request_id (f r) = ob_request_id r) -> (forall r, P r -> Q (f r)) -> row_at i id Q (updated id f t).
Proof.
  intros (r & Hr & Hid & HP) Hf HQ'. exists (f r). unfold updated. rewrite list_lookup_fmap, Hr. cbn. rewrite Hid. cbn.
  rewrite bool_decide_true by done. split_and!; [done|by rewrite Hf|auto].
Qed.

Lemma row_at_one i id P t r : row_at i id P t -> t !! i = Some r -> P r.
Proof. intros (r' & Hr' & _ & HP) Hr. by simplify_eq. Qed.

Definition has_status (s : string) (r : OutboxRow) : Prop := ob_status r = SText s.
Definition opened (r : OutboxRow) : Prop := is_open r = true.

Lemma row_at_terminal i id status error conn : row_at i id opened (queue (n_db conn)) ->
  row_at i id (fun r => opened r \/ has_status status r) (queue (n_db (mark_terminal id status error conn))).
Proof.
  intros Hr. unfold mark_terminal. destruct (update_cases id (with_status status (opt_cell error) (SText (sql_now conn))) conn) as (_ & _ & _ & _ & [->|[-> _]]).
  - eapply row_at_updated; [exact Hr|done|]. intros r _. by right.
  - destruct Hr as (r & ? & ? & ?). exists r. split_and!; try done. by left.
Qed.

Lemma row_at_sent i id conn : row_at i id opened (queue (n_db conn)) -> row_at i id opened (queue (n_db (mark_sent id conn))).
Proof.
  intros Hr. unfold mark_sent. destruct (update_cases id sent_row conn) as (_ & _ & _ & _ & [->|[-> _]]); [|done].
  eapply row_at_updated; [exact Hr|..]; intros r; unfold sent_row; by destruct (cell_is (ob_status r) "queued").
Qed.

Lemma opened_undone r : opened r -> ob_status r <> SText "done".
Proof. unfold opened, is_open. intros H Hs. by rewrite Hs in H. Qed.

Lemma not_done i id status t r : row_at i id (fun r => opened r \/ has_status status r) t -> status <> "done" -> t !! i = Some r -> ob_status r <> SText "done".
Proof. intros H Hs Hr. destruct (row_at_one _ _ _ _ _ H Hr) as [Ho|Hst]; [by apply opened_undone|unfold has_status in Hst; congruence]. Qed.

(** ** Properties *)

(** C20. Whatever the network does and whatever statement fails, over any number of
    passes: a request stays in the queue with its id, peer, modulation, signal
    and parameters; its status only goes from queued to sent and from either to
    done, denied, error or expired; what is settled never changes; and others may
    only have been added. *)
Theorem queue_walks (rounds : list (Wait * (World -> World))) (backoff : gmap string Backoff) (w : World)
    (Hpolite : polite) (Hunique : unique (outbox_of w))
    (Hothers : Forall (fun round => forall w, appends (outbox_of w) (outbox_of (snd round w))) rounds) :
  let t := outbox_of w in
  let t' := outbox_of (snd (run config rounds backoff w)) in
  (length t <= length t')%nat /\ unique t' /\
  forall i r, t !! i = Some r -> exists r', t' !! i = Some r' /\ rtc row_step r r' /\ (is_open r = false -> r' = r).
Proof.
  cbv zeta. assert (walks (outbox_of w) (outbox_of (snd (run config rounds backoff w)))) as [(t1 & new & -> & Ht) Hu].
  { revert backoff w Hunique. induction Hothers as [|[wait others] rounds Hothers' _ IH]; intros backoff w Hu; [done|]. cbn [run].
    pose proof (tick_walks backoff w Hpolite Hu) as Hw. destruct (tick config backoff w) as [[next b] w1]. cbn [snd] in Hw, Hothers'.
    specialize (Hothers' w1). destruct (others w1) as [c n].
    assert (Hsame : outbox_of (match wait with Woken => c | Elapsed => data_version c end, n) = outbox_of (c, n)).
    { destruct wait; [done|]. unfold data_version, ncall, outbox_of. destruct (nquery _ c) as [r c'] eqn:E.
      apply nquery_cases in E as ((Hd & _) & _). cbn. by rewrite Hd. }
    etrans; [exact Hw|]. etrans; [by apply appends_walks|]. rewrite <-Hsame. apply IH. rewrite Hsame. apply Hothers', Hw, Hu. }
  apply Forall2_length in Ht as Hlen. rewrite length_app. split_and!; [lia|auto|]. intros i r Hr.
  destruct (Forall2_lookup_l _ _ _ _ _ Ht Hr) as (r' & Hr' & Hs). exists r'. split_and!; [by apply lookup_app_l_Some|done|].
  intros Ho. by apply settled_stays.
Qed.

(** C21. A request is done only when it was answered: a complete response to it came
    back, ending well, and the results hold the rows of this response, in order,
    and no others. *)
Theorem done_is_answered (row : PendingRow) (w w' : World) (step : Step) (i : nat) (r' : OutboxRow)
    (Hpolite : polite) (Hrow : row_at i (pn_id row) opened (outbox_of w))
    (Hrun : process_row row w = (step, w')) (Hafter : outbox_of w' !! i = Some r') (Hdone : ob_status r' = SText "done") :
  step = Settled /\ ob_error r' = SNull /\
  exists params peer w1 w2 taken rest rows,
    parse_params (pn_params row) = Ok params /\
    tr_exchange peer (to_envelope (request_of row params)) w1 = (Some (map Ok taken ++ rest), w2) /\
    response (id_string (request_of row params)) taken /\ conclude ([], []) taken = Some (rows, OutDone) /\
    (zlen rows <= 2 ^ 63 -> recorded (pn_id row) rows (results (n_db (fst w')))).
Proof.
  destruct w as [c n]. unfold process_row, outbox_of in *. cbn [fst] in *. destruct (parse_params _) as [params|e].
  2: { injection Hrun as _ <-. exfalso. eapply (not_done i _ "error"); [by apply row_at_terminal| |exact Hafter|done]. done. }
  destruct (resolve_peer _ c) as [peer c1] eqn:E1. apply resolve_quiet in E1 as (Hd1 & _). rewrite <-Hd1 in Hrow. destruct peer as [peer|].
  2: { injection Hrun as _ <-. exfalso. eapply (not_done i _ "error"); [by apply row_at_terminal| |exact Hafter|done]. done. }
  destruct (tr_open peer (c1, n)) as [opened_ [c2 n2]] eqn:E2. apply (po_open Hpolite) in E2. unfold outbox_of in E2. cbn [fst] in E2.
  eapply row_at_appends in Hrow; [|exact E2]. destruct opened_; cbn [negb] in Hrun.
  2: { injection Hrun as _ <-. exfalso. eapply opened_undone; [eapply row_at_one; [exact Hrow|exact Hafter]|done]. }
  apply row_at_sent in Hrow. destruct (tr_exchange peer _ _) as [incoming [c4 n4]] eqn:E4. pose proof (po_exchange Hpolite _ _ _ _ _ E4) as Ha.
  unfold outbox_of in Ha. cbn [fst] in Ha. eapply row_at_appends in Hrow; [|exact Ha].
  destruct incoming as [incoming|].
  2: { injection Hrun as _ <-. exfalso. eapply opened_undone; [eapply row_at_one; [exact Hrow|exact Hafter]|done]. }
  destruct (read_response _ _ _ c4) as [st c5] eqn:E5. injection Hrun as <- <-. unfold read_response in E5.
  destruct (drain _ _ incoming) as [[rows out]|] eqn:Ed.
  2: { injection E5 as _ <-. exfalso. eapply opened_undone; [eapply row_at_one; [exact Hrow|exact Hafter]|done]. }
  destruct out; injection E5 as <- <-.
  2, 3: exfalso; eapply not_done; [by apply row_at_terminal| |exact Hafter|done]; done.
  apply drain_sound in Ed as (taken & rest & -> & He & Hc); [|done]. destruct He as [_ He]. cbn [fst] in Hafter.
  destruct (persist_cases (pn_id row) rows c4) as (_ & _ & [[Hd _]|[[at_ Hq] [Hrec _]]]).
  { exfalso. rewrite Hd in Hafter. eapply opened_undone; [eapply row_at_one; [exact Hrow|exact Hafter]|done]. }
  split; [done|]. split.
  { rewrite Hq in Hafter. assert (row_at i (pn_id row) (fun r => ob_error r = SNull) (updated (pn_id row) (with_status "done" SNull (SText at_)) (queue (n_db c4)))) as Hnull.
    { eapply row_at_updated; [exact Hrow|done|done]. }
    exact (row_at_one _ _ _ _ _ Hnull Hafter). }
  exists params, peer. do 2 eexists. exists taken, rest, rows. split_and!; [done|exact E4|done..].
Qed.

(** The delay before a retry never falls and never passes its ceiling; up to the
    21st attempt it doubles each time. *)
Theorem backoff_bounded (attempts base max : Z)
    (Hattempts : 1 <= attempts < U32_MAX) (Hbase : 0 <= base <= DURATION_MAX) (Hmax : 0 <= max <= DURATION_MAX) :
  0 <= backoff_delay attempts base max <= max /\
  backoff_delay attempts base max <= backoff_delay (attempts + 1) base max /\
  (attempts <= 21 -> backoff_delay attempts base max = Z.min (base * 2 ^ (attempts - 1)) max).
Proof.
  unfold backoff_delay. set (k := Z.min (Z.max 0 (attempts - 1)) 20). set (k' := Z.min (Z.max 0 (attempts + 1 - 1)) 20).
  assert (0 <= k <= k') as Hk by (unfold k, k'; lia).
  assert (base * 2 ^ k <= base * 2 ^ k') as Hle by (apply Z.mul_le_mono_nonneg_l; [lia|apply Z.pow_le_mono_r; lia]).
  assert (0 <= base * 2 ^ k) by (apply Z.mul_nonneg_nonneg; [lia|apply Z.pow_nonneg; lia]).
  cbv zeta. split_and!.
  - destruct (Z.leb_spec (base * 2 ^ k) DURATION_MAX); lia.
  - destruct (Z.leb_spec (base * 2 ^ k) DURATION_MAX); lia.
  - destruct (Z.leb_spec (base * 2 ^ k) DURATION_MAX), (Z.leb_spec (base * 2 ^ k') DURATION_MAX); lia.
  - intros H21. assert (k = attempts - 1) as -> by (unfold k; lia). destruct (Z.leb_spec (base * 2 ^ (attempts - 1)) DURATION_MAX); lia.
Qed.
End worker.

(** ** Witnesses *)

Module Answering.

#[export] Instance plain_rows : JsonRows := {
  json_array := fun s => if bool_decide (s = "[]") then Ok [] else Err "not an array";
  json_show := fun _ => "json";
  f64_of_i64 := fun _ => 0
}.
#[export] Instance young : OutboxSql := { row_age := fun _ _ => Some 0; any_row := head }.
#[export] Instance bare_display : OxDisplay := { show_named := id; show_node := fun _ => "node"; show_term := fun _ => "term" }.
#[export] Instance bare_frames : FrameText := {
  frame_debug := fun _ => "Frame";
  tag_debug := id;
  protocol_error_text := fun _ => "protocol error"
}.

(** A peer that answers every request with one row. *)
Definition one_row (id : string) : list Incoming :=
  [Ok (OResult (mkResultHeader id ["a"] [])); Ok (ORow [mkRow 0 [("a", Integer 7)]]); Ok (ODone (mkDone id (Some 1) None None false))].

#[export] Instance answering : Transport unit unit := {
  tr_open := fun _ w => (true, w);
  tr_exchange := fun _ obj w =>
    (match obj with OQuery st | OExecute st => Some (one_row (st_id st)) | _ => None end, w)
}.

Definition key : string := str_concat (repeat "a1" 32).

Definition asked : OutboxRow :=
  mkOutboxRow (SText "r1") (SText key) (SText "sql-sqlite") (SText "SELECT a FROM t") (SText "[]") (SText "queued") SNull (SText "2026-01-01 00:00:00") SNull.

Definition asker : NConn unit :=
  mkNConn (mkNodeDb (mkDb (Some ∅) (Some []) None (Some []) (Some {[key := new_peer "2026-01-01" None]}) None)
             (Some []) (Some ∅) (Some ∅) (Some ∅) (set_results ∅ (set_outbox [asked] no_surface)) tt)
    None [] 0 (S754_zero false) [] (fun n => 1000000 * Z.of_nat n) 0 (0, 0).

Lemma answering_polite : polite (D:=unit) (N:=unit).
Proof. split; [intros peer w b w' [= _ <-]|intros peer obj w r w' [= _ <-]]; apply appends_refl. Qed.

Lemma asked_unique : unique (outbox_of (asker, tt)).
Proof. apply NoDup_singleton. Qed.
End Answering.

Import Answering.

Lemma queue_walks_witness :
  let rounds := [(Elapsed, id); (Woken, id)] : list (Wait * (NConn unit * unit -> NConn unit * unit)) in
  let t' := outbox_of (snd (run OutboxConfig_default rounds ∅ (asker, tt))) in
  exists r', t' !! 0%nat = Some r' /\ rtc row_step asked r' /\ ob_status r' = SText "done".
Proof.
  intros rounds t'.
  destruct (queue_walks OutboxConfig_default rounds ∅ (asker, tt) answering_polite asked_unique) as (_ & _ & Hrows).
  { apply Forall_forall. intros round Hin w. apply list_elem_of_In in Hin as [<-|[<-|[]]]; apply appends_refl. }
  destruct (Hrows 0%nat asked eq_refl) as (r' & Hr & Hs & _). exists r'. split_and!; [exact Hr|exact Hs|].
  assert (ob_status <$> t' !! 0%nat = Some (SText "done")) as Hst by (vm_compute; reflexivity).
  unfold t' in Hst. rewrite Hr in Hst. by injection Hst.
Defined.

Lemma done_is_answered_witness :
  let row := mkPendingRow "r1" key "sql-sqlite" "SELECT a FROM t" "[]" 0 in
  let w' := snd (process_row row (asker, tt)) in
  exists taken rows, response (id_string (request_of row [])) taken /\ conclude ([], []) taken = Some (rows, OutDone) /\
    (zlen rows <= 2 ^ 63 -> recorded "r1" rows (results (n_db (fst w')))).
Proof.
  intros row w'.
  destruct (done_is_answered row (asker, tt) w' Settled 0 (default asked (outbox_of w' !! 0%nat)) answering_polite)
    as (_ & _ & params & peer & w1 & w2 & taken & rest & rows & Hp & _ & Hr & Hc & Hrec).
  - exists asked. split_and!; reflexivity.
  - vm_compute. reflexivity.
  - vm_compute. reflexivity.
  - vm_compute. reflexivity.
  - exists taken, rows. cbn in Hp. injection Hp as <-. split_and!; done.
Defined.

Lemma backoff_bounded_witness :
  0 <= backoff_delay 7 (500 * 1000000) (60 * NANOS) <= 60 * NANOS /\
  backoff_delay 7 (500 * 1000000) (60 * NANOS) <= backoff_delay 8 (500 * 1000000) (60 * NANOS) /\
  (7 <= 21 -> backoff_delay 7 (500 * 1000000) (60 * NANOS) = Z.min (500 * 1000000 * 2 ^ (7 - 1)) (60 * NANOS)).
Proof. apply (backoff_bounded 7 (500 * 1000000) (60 * NANOS)); by vm_compute. Defined.
