(* ===== verification/NodeServe.v ===== *)
(** * NodeServe: from a request frame to its response

    Models the dispatch of [crates/node/src/pipeline.rs], for peers and for the
    owner, and the lanes for SQL, knocks and mods: which job runs on the
    database, and what is sent. SPARQL is served by NodeSparql, help by NodeHelp,
    the projection by NodeProjection and chat by NodeChat; the other lanes are
    arguments. A lane runs over a channel that takes every frame; [over_stream]
    is the same over the stream of a client that stays, which refuses a frame
    that is too large to encode. *)

From S2P Require Import Prelude RustStd Vocab External Instances Value Envelope Frame Encode Wire Request Response AuthTypes Chain CivilDate Authorizer.
From S2P Require Import NodeDb NodeSql NodeGate NodeDemo NodeGateProps NodeKnock NodeExecute NodeExecuteProps.
From S2P Require Import NodeFrames NodeProjection NodeSparql NodeSparqlProps NodeDdl NodeHelp NodeChatMsg NodeChat.
From S2P Require SparqlStore.

Open Scope Z_scope.

Section serve.
Context {D : Type} `{HQ : !Sqlite D} `{HR : !RowIds} `{HD : !AuthDebug} `{HO : !AppliedJson} `{HT : !NodeText}.
Context `{HJ : !ChainJson} `{HU : !UlidLib} `{HF : !FrameText} `{HP : !RdfTables D} `{HE : !SparqlStore.SqlEngine}.
Context `{HX : !OxRdf} `{HS : !OxDisplay} `{HA : !AffectedJson} `{HW : !JsonText}.
Context `{HJP : !JsonPrint} `{HTT : !OxTtl}.
Abbreviation Serve := (@Serve D).

(** The lanes that are not modelled here. *)
Record Lanes : Type := mkLanes {
  ln_system : string -> string -> string -> Lane -> Serve;
  ln_entrain : string -> Entrain -> Lane -> Serve;
  ln_media : string -> Statement -> Serve;
  ln_audio_duplex : string -> Statement -> Serve;
  ln_mod_install : string -> Request -> Lane -> Serve;
  ln_pages : string -> Request -> Serve
}.

Section node.
Variables (self : Node (D:=D)) (lanes : Lanes).

(** ** SQL *)

Definition sql_job (request : Request) (approved : Approved) (exec_sql : string) (audit_id : Z) : ExecJob :=
  let config := nn_config self in
  mkExecJob (id_string request) exec_sql (rq_params request) approved (Limits_effective (rq_options request) config)
    (rows_per_frame config) (frame_byte_budget config) (pragma_allowlist config) audit_id.

Definition execute_and_stream (request : Request) (approved : Approved) (exec_sql : string) (audit_id : Z) : Serve :=
  fun '(conn, ch) => run_execute (sql_job request approved exec_sql audit_id) (nn_meanwhile self conn) ch.

(** What is answered to a verdict. *)
Definition answer_verdict (request : Request) (verdict : Verdict) : Serve :=
  let id := Some (id_string request) in
  match verdict with
  | UnknownPeer => send_denied id unknown_peer_reason
  | Banned reason | VDenied reason => send_denied id reason
  | PrepareFailed message => send_error id EngineError message
  | Cleared approved exec_sql audit_id => execute_and_stream request approved exec_sql audit_id
  end.

Definition serve_sql (peer : string) (request : Request) : Serve := fun '(conn, ch) =>
  let '(verdict, conn) := screen_request peer request (nn_chain self) (pragma_allowlist (nn_config self)) conn in
  answer_verdict request verdict (conn, ch).

Definition serve_sql_owner (peer : string) (request : Request) : Serve := fun '(conn, ch) =>
  let '(verdict, conn) := screen_owner_request peer request (pragma_allowlist (nn_config self)) conn in
  answer_verdict request verdict (conn, ch).

(** ** Knocks *)

Definition serve_knock (peer : string) (id : option string) (message : string) : Serve := fun '(conn, ch) =>
  let '(outcome, conn) := weigh_knock peer id message (nn_chain self) (knock_limits (nn_config self)) conn in
  match outcome with
  | Dropped => (conn, ch)
  | KnockDecision id decision decided_by reason =>
      tell (ODecision (Envelope.mkDecision (Some id) decision decided_by reason (Some (rfc3339 (n_secs conn))))) (conn, ch)
  end.

(** ** Mods *)

Definition matching_mod_handler (requested : string) : option (Handler (D:=D)) :=
  match nn_handler self with
  | Some handler => if existsb (fun m => mod_matches requested m) (hd_mods handler) then Some handler else None
  | None => None
  end.

(** The name the mod is gated on is the handler's own. *)
Definition gated_name (requested : string) (handler : Handler (D:=D)) : string :=
  default requested (List.find (fun advertised => mod_matches requested advertised) (hd_mods handler)).

Definition serve_mod (peer : string) (request : Request) (handler : Handler (D:=D)) : Serve := fun '(conn, ch) =>
  let id := id_string request in
  if hd_self_gated handler then hd_handle handler peer request (conn, ch)
  else
    let '(gate, conn) := gate_mod_request peer id (gated_name (rq_modulation request) handler) (nn_chain self)
                           (rq_signal request) conn in
    match gate with
    | ModUnknownPeer => send_denied (Some id) unknown_peer_reason (conn, ch)
    | ModDenied reason => send_denied (Some id) reason (conn, ch)
    | ModAllowed => hd_handle handler peer request (conn, ch)
    end.

(** ** Dispatch *)

(** A Query or Execute for none of the modulations that go before. *)
Definition dispatch_request (lane : Lane) (peer : string) (first : EnvelopeObject) : Serve :=
  match from_envelope first with
  | Err e => send_error None ProtocolErrorCode (protocol_error_text e)
  | Ok request =>
      let modulation := rq_modulation request in
      if mod_matches "mod-install" modulation then ln_mod_install lanes peer request lane
      else if mod_matches "pages" modulation then ln_pages lanes peer request
      else if mod_matches "chat" modulation then
        match lane with
        | Remote => serve_chat self peer request
        | Owner => serve_chat_owner self peer request
        end
      else if mod_matches "sparql" modulation then
        match lane with
        | Remote => serve_sparql self peer request
        | Owner => serve_sparql_owner self peer request
        end
      else if mod_matches "sql-sqlite" modulation then
        match lane with
        | Remote => serve_sql peer request
        | Owner => serve_sql_owner peer request
        end
      else match matching_mod_handler modulation with
           | Some handler => serve_mod peer request handler
           | None => send_error (Some (id_string request)) ModUnsupported
                       ("modulation " +:+ tag_debug modulation +:+ " is not served by this node")
           end
  end.

Definition dispatch (peer : string) (first : EnvelopeObject) : Serve :=
  match first with
  | OQuery st =>
      if mod_matches "help" (st_modulation st) then serve_help peer (st_id st) (st_signal st)
      else if mod_matches "projection" (st_modulation st) then serve_projection_lane peer (st_id st) (st_signal st) Remote
      else if mod_matches "system" (st_modulation st) then ln_system lanes peer (st_id st) (st_signal st) Remote
      else if mod_matches "media" (st_modulation st) then ln_media lanes peer st
      else if mod_matches "audio-duplex" (st_modulation st) then ln_audio_duplex lanes peer st
      else dispatch_request Remote peer first
  | OExecute _ => dispatch_request Remote peer first
  | OEntrain e => ln_entrain lanes peer e Remote
  | OKnock k => serve_knock peer (kn_id k) (kn_message k)
  | other => send_error None ProtocolErrorCode ("frame is not a request: " +:+ frame_debug other)
  end.

Definition dispatch_owner (peer : string) (first : EnvelopeObject) : Serve :=
  match first with
  | OQuery st =>
      if mod_matches "help" (st_modulation st) then serve_help peer (st_id st) (st_signal st)
      else if mod_matches "projection" (st_modulation st) then serve_projection_lane peer (st_id st) (st_signal st) Owner
      else if mod_matches "system" (st_modulation st) then ln_system lanes peer (st_id st) (st_signal st) Owner
      else if mod_matches "media" (st_modulation st) then
        send_error (Some (st_id st)) ModUnsupported "the media raw feed is not served on the owner channel in v1"
      else if mod_matches "audio-duplex" (st_modulation st) then
        send_error (Some (st_id st)) ModUnsupported
          "audio-duplex is not served on the owner channel; use the web surface"
      else dispatch_request Owner peer first
  | OExecute _ => dispatch_request Owner peer first
  | OEntrain e => ln_entrain lanes peer e Owner
  | other =>
      send_error None ProtocolErrorCode
        ("the owner channel accepts rsntr:Query, rsntr:Execute, or rsntr:Entrain; got " +:+ frame_debug other)
  end.

(** The owner is the node's own endpoint. *)
Definition handle_owner (first : EnvelopeObject) : Serve := fun '(conn, ch) =>
  let '(own, conn) := get_rsntr "endpoint_id" conn in
  dispatch_owner (default "" own) first (conn, ch).

(** ** The stream of a peer *)

Context `{HN : !F64Text} `{HB : !Base64}.

(** [send] of the stream encodes the frame first: one beyond [MAX_FRAME_LEN]
    fails, and nothing of it is written. *)
Definition frame_fits (obj : EnvelopeObject) : bool :=
  match encode_envelope obj [] with (Ok _, _) => true | (Err _, _) => false end.

(** How many frames the stream takes of these. *)
Definition stream_room (objs : list EnvelopeObject) : option nat :=
  fst <$> list_find (fun obj => frame_fits obj = false) objs.

(** A lane over the stream of a client that stays. The error of the send that
    fails ends the lane ([?]), and in [execute_and_stream] it drops the receiver,
    so that the next push of the job fails: to the lane it is a channel that
    takes the frames before the one that does not fit. *)
Definition over_stream (serve : Serve) : NConn D -> NConn D * Chan := fun conn =>
  let objs := ch_sent (snd (serve (conn, mkChan [] None))) in
  serve (conn, mkChan [] (stream_room objs)).

End node.
End serve.

(** * A request through the node *)

Section serve.
Context {D : Type} `{HQ : !Sqlite D} `{HR : !RowIds} `{HD : !AuthDebug} `{HO : !AppliedJson} `{HT : !NodeText}.
Context `{HJ : !ChainJson} `{HU : !UlidLib} `{HF : !FrameText} `{HP : !RdfTables D} `{HE : !SparqlStore.SqlEngine}.
Context `{HX : !OxRdf} `{HS : !OxDisplay} `{HA : !AffectedJson} `{HW : !JsonText}.
Context `{HJP : !JsonPrint} `{HTT : !OxTtl}.
Context `{HN : !F64Text} `{HB : !Base64}.
Implicit Types (conn : NConn D) (ch : Chan).

(** ** The frames of a request *)

Definition ok_config (self : Node (D:=D)) : Prop := max_rows (nn_config self) <= I64_MAX.

Lemma clamped_le v ok c : clamped v ok c <= c.
Proof. destruct v as [v|]; cbn; [destruct (ok v)|]; lia. Qed.

Lemma serve_sql_response self peer req conn :
  ok_config self -> response (id_string req) (ch_sent (snd (serve_sql self peer req (conn, mkChan [] None)))).
Proof.
  intros Hcfg. unfold serve_sql. destruct (screen_request peer req _ _ conn) as [v conn'].
  destruct v as [|reason|message|reason|ap sql aid]; cbn.
  1, 2, 4: apply resp_denied; by right.
  - apply resp_error. by right.
  - assert (row_cap (jb_limits (sql_job self req ap sql aid)) <= I64_MAX) as Hcap by (cbn; etrans; [apply clamped_le|exact Hcfg]).
    apply (executed_response (sql_job self req ap sql aid) (n_db (nn_meanwhile self conn')) _ Hcap).
    by apply run_execute_frames.
Qed.

(** Every frame of a response is an event for its reader. *)
Lemma response_events id objs : response id objs -> exists evs, map event_of objs = map Some evs.
Proof.
  assert (Hend : forall obj, ending id obj -> exists ev, event_of obj = Some ev) by (intros obj []; by eexists).
  assert (Hcons : forall obj ev objs, event_of obj = Some ev -> (exists evs, map event_of objs = map Some evs) ->
            exists evs, map event_of (obj :: objs) = map Some evs).
  { intros obj ev l Ho [evs Hl]. exists (ev :: evs). cbn. by rewrite Ho, Hl. }
  assert (Hone : forall obj ev, event_of obj = Some ev -> exists evs, map event_of [obj] = map Some evs).
  { intros obj ev Ho. by apply (Hcons obj ev []); [|exists []]. }
  assert (Hrows : forall columns n l, rows_body id columns n l -> exists evs, map event_of l = map Some evs).
  { induction 1 as [n obj He|n rows n' l _ _ _ IH]; [destruct (Hend obj He); by eapply Hone|by eapply Hcons]. }
  assert (Hgraphs : forall n l, graphs_body id n l -> exists evs, map event_of l = map Some evs).
  { induction 1 as [n obj He|n g l _ _ _ IH]; [destruct (Hend obj He); by eapply Hone|by eapply Hcons]. }
  assert (Hgenerics : forall l, generics_body id l -> exists evs, map event_of l = map Some evs).
  { induction 1 as [obj He|g l _ IH]; [destruct (Hend obj He); by eapply Hone|by eapply Hcons]. }
  intros []; first [by eapply Hone|eapply Hcons; [done|]; eauto].
Qed.

Lemma accepted id objs : response id objs ->
  exists evs r, accept_all objs (ResponseReader_new id) = (Ok evs, r) /\ finish r = Ok tt.
Proof.
  intros Hr. destruct (response_events id objs Hr) as [evs Hevs].
  destruct (proj2 (accept_all_expects id objs AwaitHeader 0 evs (fun _ => eq_refl))) as (r & Ha & Hf).
  - by split.
  - by exists evs, r.
Qed.

(** The single frame of a request that was turned away. *)
Inductive turned_away (id : string) : EnvelopeObject -> Prop :=
| ta_denied reason : turned_away id (ODenied (mkDenied (Some id) (Some reason)))
| ta_error message : turned_away id (OError (mkErrorEnvelope (Some id) (ErrorCode_as_str EngineError) (Some message))).

Lemma dispatch_sql self lanes peer req io :
  length (rq_id req) = 16%nat -> rq_modulation req = "sql-sqlite" -> UlidLaws ->
  dispatch self lanes peer (to_envelope req) io = serve_sql self peer req io.
Proof.
  intros Hid Hmod Hlaws.
  assert (Hr : dispatch_request self lanes Remote peer (to_envelope req) io = serve_sql self peer req io).
  { unfold dispatch_request. by rewrite from_to_envelope, Hmod. }
  rewrite <-Hr. unfold to_envelope. destruct (rq_kind req); cbn -[dispatch_request]; [|done]. by rewrite Hmod.
Qed.

Lemma dispatch_sparql self lanes peer req io :
  length (rq_id req) = 16%nat -> rq_modulation req = "sparql" -> UlidLaws ->
  dispatch self lanes peer (to_envelope req) io = serve_sparql self peer req io.
Proof.
  intros Hid Hmod Hlaws.
  assert (Hr : dispatch_request self lanes Remote peer (to_envelope req) io = serve_sparql self peer req io).
  { unfold dispatch_request. by rewrite from_to_envelope, Hmod. }
  rewrite <-Hr. unfold to_envelope. destruct (rq_kind req); cbn -[dispatch_request]; [|done]. by rewrite Hmod.
Qed.

Lemma dispatch_chat self lanes peer req io :
  length (rq_id req) = 16%nat -> rq_modulation req = "chat" -> UlidLaws ->
  dispatch self lanes peer (to_envelope req) io = serve_chat self peer req io.
Proof.
  intros Hid Hmod Hlaws.
  assert (Hr : dispatch_request self lanes Remote peer (to_envelope req) io = serve_chat self peer req io).
  { unfold dispatch_request. by rewrite from_to_envelope, Hmod. }
  rewrite <-Hr. unfold to_envelope. destruct (rq_kind req); cbn -[dispatch_request]; [|done]. by rewrite Hmod.
Qed.

Lemma dispatch_help self lanes peer req io : rq_kind req = Query -> rq_modulation req = "help" ->
  dispatch self lanes peer (to_envelope req) io = serve_help peer (id_string req) (rq_signal req) io.
Proof. intros Hkind Hmod. unfold to_envelope. rewrite Hkind. cbn -[serve_help]. by rewrite Hmod. Qed.

Lemma chat_frames_response id outcome : response id (chat_frames id outcome).
Proof.
  destruct outcome; cbn; try (apply resp_denied; by right); try (apply resp_error; by right). apply resp_result; [done|]. apply rows_end. by apply end_done.
Qed.

Lemma serve_chat_response self peer req conn : response (id_string req) (ch_sent (snd (serve_chat self peer req (conn, mkChan [] None)))).
Proof.
  unfold serve_chat. destruct (rq_params req); [|apply resp_error; by right].
  unfold handle_and_answer, answer_chat_outcome. destruct (handle_chat _ _ _ _ _) as [outcome conn'].
  cbn [tell_all snd]. rewrite send_all_open. apply chat_frames_response.
Qed.

Lemma serve_help_response peer id topic conn : response id (ch_sent (snd (serve_help peer id topic (conn, mkChan [] None)))).
Proof.
  unfold serve_help. destruct (build_help _ _ _ _) as [[text topics] conn']. apply resp_help. cbn. case_bool_decide; [by left|by right].
Qed.

(** ** A frame that does not fit *)

(** What a lane sends over a stream that takes [n] frames are the first [n]. *)
Definition cut_lane (serve : Serve (D:=D)) : Prop := forall conn n,
  ch_sent (snd (serve (conn, mkChan [] (Some n)))) = take n (ch_sent (snd (serve (conn, mkChan [] None)))).

Lemma send_all_cut objs : forall sent n, ch_sent (send_all objs (mkChan sent (Some n))) = sent ++ take n objs.
Proof.
  induction objs as [|obj objs IH]; intros sent [|n]; cbn; rewrite ?app_nil_r; try done.
  change (ch_sent (send_all objs (mkChan (sent ++ [obj]) (Some n))) = sent ++ obj :: take n objs). by rewrite IH, <-app_assoc.
Qed.

Lemma cut_tell_all objs : cut_lane (tell_all objs).
Proof. intros conn n. cbn. by rewrite send_all_cut, send_all_open. Qed.
Lemma cut_tell obj : cut_lane (tell obj).
Proof. intros conn [|[|n]]; done. Qed.

(** A lane that works on the database first, and then sends. *)
Lemma cut_after {A} (m : NConn D -> A * NConn D) (serve : A -> Serve (D:=D)) : (forall a, cut_lane (serve a)) ->
  cut_lane (fun '(conn, ch) => let '(a, conn) := m conn in serve a (conn, ch)).
Proof. intros Hs conn n. destruct (m conn) as [a c]. apply Hs. Qed.

Lemma cut_serve_sql self peer req : cut_lane (serve_sql self peer req).
Proof.
  apply (cut_after (screen_request peer req (nn_chain self) (pragma_allowlist (nn_config self))) (answer_verdict self req)).
  intros [|reason|message|reason|ap sql aid]; try apply cut_tell. intros conn n. apply run_execute_cut.
Qed.

Lemma cut_serve_sparql self peer req : cut_lane (serve_sparql self peer req).
Proof.
  intros conn n. unfold serve_sparql. destruct (peer_known peer conn) as [[|] c1]; cbn [negb]; [|apply cut_tell].
  destruct (gate_and_run_sparql _ _ _ _ _) as [[out|] c2]; [apply cut_tell_all|by destruct n].
Qed.

Lemma cut_serve_chat self peer req : cut_lane (serve_chat self peer req).
Proof.
  unfold serve_chat. destruct (rq_params req); [|apply cut_tell].
  apply (cut_after (handle_chat peer req (nn_chain self) Remote) (answer_chat_outcome (id_string req))). intros out. apply cut_tell_all.
Qed.

Lemma cut_serve_help peer id topic : cut_lane (serve_help peer id topic).
Proof. intros conn n. unfold serve_help. destruct (build_help _ _ _ _) as [[text topics] c]. apply cut_tell. Qed.

(** So over the stream of a peer the frames before the first that does not fit
    arrive, and the others do not. *)
Lemma over_stream_sent (serve : Serve (D:=D)) conn : cut_lane serve ->
  let objs := ch_sent (snd (serve (conn, mkChan [] None))) in
  let sent := ch_sent (snd (over_stream serve conn)) in
  (sent = objs /\ Forall (fun obj => frame_fits obj = true) objs) \/
  exists big rest, objs = sent ++ big :: rest /\ frame_fits big = false /\ Forall (fun obj => frame_fits obj = true) sent.
Proof.
  intros Hcut. cbv zeta. unfold over_stream, stream_room. set (objs := ch_sent (snd (serve (conn, mkChan [] None)))).
  destruct (list_find _ objs) as [[n big]|] eqn:E; cbn [fmap option_fmap option_map fst].
  - apply list_find_Some in E as (Hn & Hbig & Hbefore). right. rewrite Hcut. fold objs. exists big, (drop (S n) objs).
    split_and!; [by rewrite take_drop_middle|done|]. apply Forall_lookup. intros i obj Hi. apply lookup_take_Some in Hi as [Hi Hlt].
    specialize (Hbefore i obj Hi Hlt). by destruct (frame_fits obj).
  - apply list_find_None in E. left. split; [done|]. eapply Forall_impl; [exact E|]. intros obj H. cbn in H. by destruct (frame_fits obj).
Qed.

(** The reader takes the beginning of a response, and knows at the end of the
    stream that it is not all. *)
Lemma beginning_reported objs sent big rest (rd0 : ResponseReader) evs rd :
  accept_all objs rd0 = (Ok evs, rd) -> objs = sent ++ big :: rest ->
  exists evs' rd', accept_all sent rd0 = (Ok evs', rd') /\ exists e, finish rd' = Err e.
Proof.
  intros Ha ->. revert rd0 evs Ha. induction sent as [|obj sent IH]; intros rd0 evs Ha; cbn in Ha |- *.
  - exists [], rd0. split; [done|]. unfold finish. destruct (state rd0) eqn:Es; try (by eexists).
    unfold accept, try_accept in Ha. by rewrite Es in Ha.
  - destruct (accept obj rd0) as [[ev|e] rd1]; [|done]. destruct (accept_all (sent ++ big :: rest) rd1) as [[l|e] rd2] eqn:E; [|done].
    injection Ha as _ <-. destruct (IH rd1 l E) as (evs' & rd' & -> & He). by exists (ev :: evs'), rd'.
Qed.

Lemma prepared_permitted job d stmt0 :
  obeys (sq_prepare d (jb_sql job)) -> prepared job d stmt0 ->
  Forall (permitted (jb_approved job))
    (questions (enforce_authorizer (jb_approved job) (jb_pragma_allowlist job)) (sq_prepare d (jb_sql job)) None).
Proof. intros Ho [r Hp]. by apply enforced_permitted in Hp as (? & _ & _). Qed.

(** ** Properties *)

(** C3. Every request of a peer for SQL, SPARQL, chat or help, sent as a frame, is
    answered, whatever its text is, whatever the chain says and whatever SQLite
    does: the frames that the node sends are a whole response, which the reader
    of the client takes to a clean end under the id of the request. Over the
    stream of a client that stays, all of them arrive when each can be encoded,
    within the 256 KiB that a frame may have. When one cannot, a single row
    beyond that for one, the frames before it arrive and nothing else does,
    neither a trailer nor an error; the reader takes them, and reports that the
    response is not complete. *)
Theorem requests_are_answered (self : Node) (lanes : Lanes) (peer : string) (req : Request) (conn : NConn D)
    (Hlaws : UlidLaws) (Hid : length (rq_id req) = 16%nat)
    (Hmod : rq_modulation req = "sql-sqlite" \/ rq_modulation req = "sparql" \/ rq_modulation req = "chat" \/
            (rq_modulation req = "help" /\ rq_kind req = Query))
    (Htext : utf8_valid (rq_signal req) = true) (Hcfg : ok_config self) (Hfits : construct_fits) :
  let serve := dispatch self lanes peer (to_envelope req) in
  let reader := ResponseReader_new (id_string req) in
  let objs := ch_sent (snd (serve (conn, mkChan [] None))) in
  let sent := ch_sent (snd (over_stream serve conn)) in
  (exists evs r, accept_all objs reader = (Ok evs, r) /\ finish r = Ok tt) /\
  ((sent = objs /\ Forall (fun obj => frame_fits obj = true) objs) \/
   exists big rest, objs = sent ++ big :: rest /\ frame_fits big = false /\ Forall (fun obj => frame_fits obj = true) sent /\
     exists evs r, accept_all sent reader = (Ok evs, r) /\ exists e, finish r = Err e).
Proof.
  cbv zeta.
  assert (Hserve : response (id_string req) (ch_sent (snd (dispatch self lanes peer (to_envelope req) (conn, mkChan [] None)))) /\
                   cut_lane (dispatch self lanes peer (to_envelope req))).
  { destruct Hmod as [Hmod|[Hmod|[Hmod|[Hmod Hkind]]]].
    - split; [rewrite dispatch_sql by done; by apply serve_sql_response|]. intros c n. rewrite !dispatch_sql by done. apply cut_serve_sql.
    - split; [rewrite dispatch_sparql by done; apply serve_sparql_response; [done| |done]; etrans; [apply clamped_le|exact Hcfg]|].
      intros c n. rewrite !dispatch_sparql by done. apply cut_serve_sparql.
    - split; [rewrite dispatch_chat by done; apply serve_chat_response|]. intros c n. rewrite !dispatch_chat by done. apply cut_serve_chat.
    - split; [rewrite dispatch_help by done; apply serve_help_response|]. intros c n. rewrite !dispatch_help by done. apply cut_serve_help. }
  destruct Hserve as [Hresp Hcut]. apply accepted in Hresp. split; [exact Hresp|]. destruct Hresp as (evs & r & Ha & _).
  destruct (over_stream_sent _ conn Hcut) as [H|(big & rest & Ho & Hbig & Hsent)]; [by left|right]. exists big, rest. split_and!; [done..|].
  by eapply beginning_reported.
Qed.

(** C4. A peer's SQL request either is turned away with one frame, and only the
    ledger and what the tiers keep can have changed. Or it was cleared: the peer
    is known, the collected footprint of the request's own statement writes no
    reserved table, and the chain, asked about that footprint, allowed it, so
    that the approval is that footprint and the statement that runs is the
    request's; or it gave another statement, so that this one runs, and the
    approval is the footprint collected from it. Unless statements fail the
    ledger then has the row of this decision, whose id the job carries. What
    follows is the job of that statement under that approval, and nothing else:
    its frames are the answer, and preparing it asked SQLite for nothing that
    the approval does not permit. *)
Theorem data_needs_clearance (self : Node) (peer : string) (req : Request) (conn : NConn D)
    (Hobeys : forall d sql, obeys (sq_prepare d sql)) (Hcfg : ok_config self) :
  let al := pragma_allowlist (nn_config self) in
  let '(conn', ch') := serve_sql self peer req (conn, mkChan [] None) in
  (same_data (n_db conn) (n_db conn') /\ exists obj, ch_sent ch' = [obj] /\ turned_away (id_string req) obj) \/
  exists ap sql aid conn1, same_data (n_db conn) (n_db conn1) /\
    screened peer req (nn_chain self) al conn (n_db conn1) (Cleared ap sql aid) /\
    (n_healthy conn -> can_audit (n_db conn) -> exists e, audited (n_db conn) (n_db conn1) aid e /\
       ledgered peer req (Cleared ap sql aid) aid e) /\
    let job := sql_job self req ap sql aid in
    let start := nn_meanwhile self conn1 in
    (conn', ch') = run_execute job start (mkChan [] None) /\ executed job (n_db start) (ch_sent ch') /\
    forall stmt0, prepared job (n_db start) stmt0 ->
      Forall (permitted ap) (questions (enforce_authorizer ap al) (sq_prepare (n_db start) sql) None).
Proof.
  cbv zeta. unfold serve_sql. destruct (screen_request peer req _ _ conn) as [v conn1] eqn:E.
  destruct v as [|reason|message|reason|ap sql aid]; cbn [answer_verdict].
  1, 2, 3, 4: left; split; [by eapply screen_data|eexists; split; [reflexivity|constructor]].
  unfold execute_and_stream. destruct (run_execute (sql_job self req ap sql aid) _ (mkChan [] None)) as [c2 ch2] eqn:E2. right.
  exists ap, sql, aid, conn1. pose proof (screen_data _ _ _ _ _ _ _ E) as Hdata. apply screen_request_post in E as [Hs Hl].
  split_and!; [done..| |done| |intros stmt0; by apply (prepared_permitted (sql_job self req ap sql aid))].
  - intros Hc Hroom. destruct (Hl Hc Hroom) as (id & e & Ha & Hle). assert (aid = id) as -> by apply Hle. by exists e.
  - replace ch2 with (snd (run_execute (sql_job self req ap sql aid) (nn_meanwhile self conn1) (mkChan [] None))) by (by rewrite E2).
    apply run_execute_frames. cbn. etrans; [apply clamped_le|exact Hcfg].
Qed.
End serve.

(** ** Witnesses *)

#[local] Existing Instance note_sqlite.
#[local] Existing Instance low_ids.
#[local] Existing Instance plain_text.
#[local] Existing Instance open_json.
#[local] Instance plain_action : AuthDebug := { action_debug := fun _ => "Action" }.
#[local] Instance plain_outcome : AppliedJson := {
  outcome_json := fun a l => int_to_string a;
  parse_outcome := fun s => (match parse_i64 s with Ok a => Some a | Err _ => None end, None)
}.
#[local] Instance plain_frames : FrameText := {
  frame_debug := fun _ => "Frame";
  tag_debug := fun s => s;
  protocol_error_text := fun _ => "protocol error"
}.

#[local] Instance no_rdf : RdfTables (list string) := {
  get_rdf := fun _ => SparqlStore.mkRdfDb None None;
  put_rdf := fun _ d => d
}.
#[local] Instance no_answers : SparqlStore.SqlEngine := {
  SparqlStore.sql_query := fun _ _ => Ok [];
  SparqlStore.random_rowid := fun _ => None;
  SparqlStore.f64_display := fun _ => ""
}.
#[local] Instance any_rdf : OxRdf := {
  ox_iri_ok := fun _ => true;
  ox_label_ok := fun _ => true;
  ox_language := Some
}.
#[local] Instance plain_display : OxDisplay := {
  show_named := fun s => s;
  show_node := fun _ => "node";
  show_term := fun _ => "term"
}.
#[local] Instance plain_affected : AffectedJson := { affected_json := int_to_string }.
#[local] Instance plain_json : JsonText := { json_value := fun _ => None; json_strings := fun _ => None }.
#[local] Instance plain_print : JsonPrint := { json_of_strings := fun _ => "[]" }.
#[local] Instance no_turtle : OxTtl := { ttl_items := fun _ _ => [Err "no Turtle"] }.

Definition silent : Serve (D:=list string) := fun io => io.
Definition demo_node : Node (D:=list string) := mkNode open_chain NodeConfig_default None id None.
Definition demo_lanes : Lanes (D:=list string) :=
  mkLanes (fun _ _ _ _ => silent) (fun _ _ _ => silent)
    (fun _ _ => silent) (fun _ _ => silent) (fun _ _ _ => silent) (fun _ _ => silent).

Lemma demo_construct_fits : construct_fits.
Proof.
  intros q c triples. unfold SparqlStore.exec_construct, SparqlStore.exec_select, Effect.ebind.
  destruct (SparqlStore.compile_on q c) as [[[sql vars]|e] c1]; [|done].
  unfold SparqlStore.select, SparqlStore.stmt. cbn. destruct (SparqlStore.s_faults c1) as [|[e|] fs]; cbn; [|done|];
    by intros [= <-].
Qed.


Lemma requests_are_answered_witness :
  let serve := dispatch demo_node demo_lanes "alice" (to_envelope (demo_request Query select_notes [])) in
  let reader := ResponseReader_new (id_string (demo_request Query select_notes [])) in
  let objs := ch_sent (snd (serve (demo_conn ["hello"; "world"], mkChan [] None))) in
  let sent := ch_sent (snd (over_stream serve (demo_conn ["hello"; "world"]))) in
  (exists evs r, accept_all objs reader = (Ok evs, r) /\ finish r = Ok tt) /\
  ((sent = objs /\ Forall (fun obj => frame_fits obj = true) objs) \/
   exists big rest, objs = sent ++ big :: rest /\ frame_fits big = false /\ Forall (fun obj => frame_fits obj = true) sent /\
     exists evs r, accept_all sent reader = (Ok evs, r) /\ exists e, finish r = Err e).
Proof.
  apply (requests_are_answered demo_node demo_lanes "alice" (demo_request Query select_notes []) (demo_conn ["hello"; "world"]));
    [exact hex_ulid_laws|reflexivity|left; reflexivity|reflexivity|by vm_compute|exact demo_construct_fits].
Defined.

(** A row beyond the budget of a frame: the client gets the header and nothing
    after it, not even the row before, which waited in the same batch. *)
Fixpoint letters (n : nat) : string := match n with O => "" | S n => String "x" (letters n) end.

Example large_row_cuts_the_response :
  let serve := dispatch demo_node demo_lanes "alice" (to_envelope (demo_request Query select_notes [])) in
  ch_sent (snd (over_stream serve (demo_conn ["hello"; letters (Z.to_nat (256 * 1024))]))) =
  [OResult (mkResultHeader (id_string (demo_request Query select_notes [])) ["body"] ["TEXT"])].
Proof. vm_compute. reflexivity. Qed.

Lemma note_obeys d sql : obeys (@sq_prepare _ note_sqlite d sql).
Proof.
  cbn. unfold note_prepare, note_ask. repeat case_bool_decide; cbn; split_and?; intros; try done; eauto.
Qed.

Lemma data_needs_clearance_witness :
  let req := demo_request Query select_notes [] in
  let al := pragma_allowlist (nn_config demo_node) in
  let '(conn', ch') := serve_sql demo_node "alice" req (demo_conn ["hello"], mkChan [] None) in
  (same_data (n_db (demo_conn ["hello"])) (n_db conn') /\
   exists obj, ch_sent ch' = [obj] /\ turned_away (id_string req) obj) \/
  exists ap sql aid conn1, same_data (n_db (demo_conn ["hello"])) (n_db conn1) /\
    screened "alice" req (nn_chain demo_node) al (demo_conn ["hello"]) (n_db conn1) (Cleared ap sql aid) /\
    (n_healthy (demo_conn ["hello"]) -> can_audit (n_db (demo_conn ["hello"])) ->
       exists e, audited (n_db (demo_conn ["hello"])) (n_db conn1) aid e /\ ledgered "alice" req (Cleared ap sql aid) aid e) /\
    let job := sql_job demo_node req ap sql aid in
    let start := nn_meanwhile demo_node conn1 in
    (conn', ch') = run_execute job start (mkChan [] None) /\ executed job (n_db start) (ch_sent ch') /\
    forall stmt0, prepared job (n_db start) stmt0 ->
      Forall (permitted ap) (questions (enforce_authorizer ap al) (sq_prepare (n_db start) sql) None).
Proof.
  apply (data_needs_clearance demo_node "alice" (demo_request Query select_notes []) (demo_conn ["hello"]) note_obeys).
  by vm_compute.
Defined.
