(* ===== verification/OutboxDelivery.v ===== *)
(** * OutboxDelivery: a queued message reaches the other node

    The worker of Outbox over a network that loses connections, requests and
    responses, to a node that serves as NodeServe does. *)

From S2P Require Import Prelude RustStd Collections Effect Vocab External Instances Value Envelope Request Response AuthTypes Chain CivilDate.
From S2P Require Import Authorizer NodeDb NodeSql NodeGate NodeDemo NodeGateProps NodeKnock NodeExecute NodeFrames NodeProjection NodeSparql NodeDdl NodeSpec.
From S2P Require Import NodeHelp NodeChatMsg NodeChat NodeChatProps Outbox OutboxProps NodeServe.
From S2P Require SparqlStore.

Open Scope Z_scope.

(** ** A network that loses *)

(** No connection; the request does not go out; the response breaks after so
    many frames; all goes through. *)
Inductive Fate : Type := Unreachable | NotSent | Broken (frames : nat) | Through.

Section delivery.
Context {D E : Type} `{HQ : !Sqlite E} `{HR : !RowIds} `{HD : !AuthDebug} `{HO : !AppliedJson} `{HT : !NodeText}.
Context `{HC : !ChainJson} `{HU : !UlidLib} `{HF : !FrameText} `{HP : !RdfTables E} `{HE : !SparqlStore.SqlEngine}.
Context `{HX : !OxRdf} `{HS : !OxDisplay} `{HA : !AffectedJson} `{HW : !JsonText}.
Context `{HJP : !JsonPrint} `{HTT : !OxTtl} `{HJ : !JsonRows} `{HB : !OutboxSql}.
Variables (far : Node (D:=E)) (lanes : Lanes (D:=E)) (me : string).

(** What becomes of the attempts to come, and the other node. *)
Record Link : Type := mkLink { lk_fates : list Fate; lk_node : NConn E }.

(** The other node serves the request, and sends on a stream that stays open. *)
Definition serve_at (obj : EnvelopeObject) (node : NConn E) : list EnvelopeObject * NConn E :=
  let '(node, ch) := dispatch far lanes me obj (node, mkChan [] None) in (ch_sent ch, node).

Definition lossy_open (peer : list Byte.byte) (w : NConn D * Link) : bool * (NConn D * Link) :=
  let '(conn, mkLink fates node) := w in
  match fates with
  | [] => (false, w)
  | Unreachable :: fates => (false, (conn, mkLink fates node))
  | _ => (true, w)
  end.

Definition lossy_exchange (peer : list Byte.byte) (obj : EnvelopeObject) (w : NConn D * Link) : option (list Incoming) * (NConn D * Link) :=
  let '(conn, mkLink fates node) := w in
  match fates with
  | Broken k :: fates => let '(frames, node) := serve_at obj node in
                         (Some (map Ok (take k frames) ++ [Err tt]), (conn, mkLink fates node))
  | Through :: fates => let '(frames, node) := serve_at obj node in (Some (map Ok frames ++ []), (conn, mkLink fates node))
  | NotSent :: fates => (None, (conn, mkLink fates node))
  | _ => (None, w)
  end.

#[local] Instance lossy : Transport D Link := { tr_open := lossy_open; tr_exchange := lossy_exchange }.

Lemma lossy_polite : polite (D:=D) (N:=Link).
Proof.
  split.
  - intros peer [c [[|[] fs] m]] b w'; cbn; intros [= _ <-]; by apply appends_refl.
  - intros peer obj [c [[|[] fs] m]] r w'; cbn; try destruct (serve_at obj m); intros [= _ <-]; by apply appends_refl.
Qed.

(** Attempts at one row, until it is settled. *)
Fixpoint attempts (n : nat) (row : PendingRow) (w : NConn D * Link) : Step * (NConn D * Link) :=
  match n with
  | O => (Again, w)
  | S n => match process_row row w with
           | (Settled, w) => (Settled, w)
           | (Again, w) => attempts n row w
           end
  end.

(** ** One attempt *)

Variables (row : PendingRow) (place : nat) (pid : list Byte.byte).

Definition chat_request_of : Request := request_of row [].

(** The other node takes the message. *)
Definition takes (node : NConn E) : Prop := exists n node', handle_chat me chat_request_of (nn_chain far) Remote node = (ChApplied n, node').

Definition taken (node : NConn E) : NConn E := snd (handle_chat me chat_request_of (nn_chain far) Remote node).

Lemma takes_outcome n node : fst (handle_chat me chat_request_of (nn_chain far) Remote node) = ChApplied n -> takes node.
Proof. intros Hf. exists n. destruct (handle_chat _ _ _ _ node) as [out node']. exists node'. cbn in Hf. by subst. Qed.

(** The row is still to be sent, and nothing keeps the worker from it. *)
Record sendable (conn : NConn D) : Prop := mkSendable {
  sd_healthy : n_healthy conn;
  sd_idle : n_saved conn = None;
  sd_tables : is_Some (sv_outbox (nd_surface (n_db conn))) /\ is_Some (sv_results (nd_surface (n_db conn)));
  sd_row : row_at place (pn_id row) opened (queue (n_db conn));
  sd_peer : exists found, find_peer (pn_peer row) (n_db conn) = Ok found /\ PeerId_from_str (default (pn_peer row) found) = Some pid
}.

Definition finished (conn : NConn D) : Prop := row_at place (pn_id row) (has_status "done") (queue (n_db conn)).

Lemma wire_id_length stored : UlidLaws -> length (wire_request_id stored) = 16%nat.
Proof.
  intros Hlaws. unfold wire_request_id. destruct (ulid_from_string stored) as [bytes|e] eqn:Eu; [by eapply ulid_length|].
  unfold fold_id. destruct (foldl _ _ _) as [h1 h2]. done.
Qed.

Lemma find_peer_auth peer (d d' : NodeDb D) : nd_auth d' = nd_auth d -> find_peer peer d' = find_peer peer d.
Proof. unfold find_peer. by intros ->. Qed.

Lemma sendable_quiet conn conn' : quiet conn conn' -> sendable conn -> sendable conn'.
Proof. intros (Hd & Hs & Hh) []. split; rewrite ?Hd; [auto|congruence|done..]. Qed.

Lemma sendable_resolves conn : sendable conn -> exists conn', resolve_peer (pn_peer row) conn = (Some pid, conn') /\ sendable conn'.
Proof.
  intros H. unfold resolve_peer. destruct (nquery _ conn) as [r c] eqn:Eq. apply nquery_cases in Eq as (Hq & Hr & _).
  specialize (Hr (sd_healthy _ H)). destruct (sd_peer _ H) as (found & Hf & Hid). rewrite Hf in Hr. subst r. exists c. rewrite Hid.
  split; [done|by eapply sendable_quiet].
Qed.

Lemma sendable_sent conn : sendable conn -> sendable (mark_sent (pn_id row) conn).
Proof.
  intros H. destruct (update_cases (pn_id row) sent_row conn) as (Hs & Hh & Hb & _ & _). fold (mark_sent (pn_id row) conn) in Hs, Hh, Hb.
  pose proof (row_at_sent _ _ _ (sd_row _ H)) as Hrow. destruct H as [? ? [? ?] ? (found & ? & ?)]. destruct Hb as (Ha & _ & _ & _ & Hr & Ho).
  split; [auto|congruence|split; [by apply Ho|by apply Hr]|done|]. exists found. split; [|done]. by rewrite (find_peer_auth _ _ _ Ha).
Qed.

Lemma sendable_finishes conn : sendable conn -> finished (persist_done (pn_id row) [] conn).
Proof.
  intros H. destruct (persist_cases (pn_id row) [] conn) as (_ & _ & [[_ Hn]|[[at_ Hq] _]]).
  - exfalso. apply (Hn (sd_healthy _ H) (sd_idle _ H)). destruct (sd_tables _ H). by split.
  - unfold finished. rewrite Hq. eapply row_at_updated; [apply (sd_row _ H)|done|done].
Qed.

(** ** What comes back *)

Context (Hlaws : UlidLaws) (Hmod : pn_modulation row = "chat") (Hparams : parse_params (pn_params row) = Ok []).

Definition good_frames : list EnvelopeObject :=
  let id := id_string chat_request_of in
  [OResult (mkResultHeader id [] []); ODone (mkDone id (Some 0) (Some 0) None false)].

Lemma serve_takes node : takes node -> exists n,
  serve_at (to_envelope chat_request_of) node = (chat_frames (id_string chat_request_of) (ChApplied n), taken node).
Proof.
  intros (n & node' & Hh). exists n. unfold serve_at, taken. rewrite dispatch_chat by (try done; by apply wire_id_length).
  unfold serve_chat. cbn [rq_params chat_request_of request_of]. unfold handle_and_answer. rewrite Hh. done.
Qed.

Lemma drain_cut n k : (k < 2)%nat ->
  let id := id_string chat_request_of in
  drain (ResponseReader_new id) ([], []) (map Ok (take k (chat_frames id (ChApplied n))) ++ [Err tt]) = None.
Proof.
  intros Hk. cbv zeta. set (id := id_string _). destruct (drain _ _ _) as [res|] eqn:Ed; [|done]. exfalso.
  unfold ResponseReader_new in Ed. fold (at_state id AwaitHeader 0) in Ed. apply drain_sound in Ed as (objs & rest & Hl & [_ He] & _); [|done].
  destruct k as [|[|k]]; [| |lia]; destruct objs as [|o [|o' objs]]; cbn in Hl; simplify_eq; inversion He; subst.
  all: match goal with H : rows_body _ _ _ [] |- _ => by inversion H end.
Qed.

Lemma drain_whole n rest :
  let id := id_string chat_request_of in
  drain (ResponseReader_new id) ([], []) (map Ok (chat_frames id (ChApplied n)) ++ rest) = Some ([], OutDone).
Proof.
  cbv zeta. set (id := id_string _). destruct (drain_complete id (chat_frames id (ChApplied n)) rest AwaitHeader 0 ([], [])) as [Hd _]; [done| |done|].
  - split; [done|]. apply chat_frames_response.
  - exact Hd.
Qed.

(** An attempt either leaves the row to be sent again, or settles it, done. *)
Definition attempted (node : NConn E) (fates : list Fate) (step : Step) (conn' : NConn D) (link : Link) : Prop :=
  lk_fates link = fates /\
  match step with
  | Again => sendable conn' /\ (lk_node link = node \/ lk_node link = taken node)
  | Settled => finished conn' /\ lk_node link = taken node
  end.

Lemma read_whole n conn conn' step rest :
  sendable conn -> read_response row chat_request_of (map Ok (chat_frames (id_string chat_request_of) (ChApplied n)) ++ rest) conn = (step, conn') ->
  step = Settled /\ finished conn'.
Proof. intros Hs. unfold read_response. rewrite drain_whole. intros [= <- <-]. split; [done|by apply sendable_finishes]. Qed.

Lemma attempt_cases conn fate fates node step conn' link :
  sendable conn -> takes node -> process_row row (conn, mkLink (fate :: fates) node) = (step, (conn', link)) ->
  attempted node fates step conn' link /\ (fate = Through -> step = Settled).
Proof.
  intros Hsend Htakes. unfold process_row. rewrite Hparams. destruct (sendable_resolves conn Hsend) as (c1 & -> & Hs1).
  fold chat_request_of. unfold tr_open, tr_exchange, lossy. destruct (serve_takes node Htakes) as [n Hserve].
  destruct fate; cbn [lossy_open lossy_exchange negb].
  - intros [= <- <- <-]. by split; [split; [done|split; [done|by left]]|].
  - intros [= <- <- <-]. split; [|done]. split; [done|]. split; [by apply sendable_sent|by left].
  - rewrite Hserve. destruct (read_response _ _ _ _) as [st c4] eqn:Er. intros [= <- <- <-]. split; [|done]. split; [done|]. cbn [lk_node].
    destruct (Nat.lt_ge_cases frames 2).
    + unfold read_response in Er. rewrite drain_cut in Er by done. injection Er as <- <-. split; [by apply sendable_sent|by right].
    + rewrite take_ge in Er by done. by apply read_whole in Er as [-> ?]; [|apply sendable_sent].
  - rewrite Hserve. destruct (read_response _ _ _ _) as [st c4] eqn:Er. intros [= <- <- <-].
    apply read_whole in Er as [-> ?]; [|by apply sendable_sent]. by split.
Qed.

(** ** Deliveries *)

(** The request, delivered so many times. *)
Definition deliver : Call := mkCall me chat_request_of (nn_chain far) Remote.
Definition delivered (m : nat) (node : NConn E) : NConn E := calls (repeat deliver m) node.

Lemma delivered_S m node : delivered (S m) node = delivered m (taken node).
Proof. done. Qed.

Lemma delivered_snoc m node : taken (delivered m node) = delivered (S m) node.
Proof. revert node. induction m as [|m IH]; intros node; [done|]. rewrite delivered_S, IH. done. Qed.

Lemma attempts_deliver lost conn node : forall m,
  sendable conn -> (forall m', (m' <= m + length lost)%nat -> takes (delivered m' node)) ->
  exists conn' link k, attempts (S (length lost)) row (conn, mkLink (lost ++ [Through]) (delivered m node)) = (Settled, (conn', link)) /\
    finished conn' /\ lk_node link = delivered (S k) node.
Proof.
  revert conn. induction lost as [|fate lost IH]; intros conn m Hs Ht; cbn [length app attempts].
  - destruct (process_row row _) as [step [conn' link]] eqn:Ep.
    apply attempt_cases in Ep as [[_ Ha] Hsettled]; [|done|apply Ht; lia]. rewrite (Hsettled eq_refl) in *. destruct Ha as [Hf Hl].
    exists conn', link, m. rewrite Hl, delivered_snoc. by split_and!.
  - destruct (process_row row _) as [step [conn' [fs link]]] eqn:Ep.
    apply attempt_cases in Ep as [[Hfs Ha] _]; [|done|apply Ht; cbn; lia]. cbn in Hfs. subst fs.
    destruct step; cbn [lk_node] in Ha; destruct Ha as [Hf Hl].
    + eexists conn', _, m. cbn [lk_node]. rewrite Hl, delivered_snoc. by split_and!.
    + cbn [length] in Ht. destruct Hl as [-> | ->].
      * apply (IH conn' m); [done|]. intros m' Hm. apply Ht. lia.
      * rewrite delivered_snoc. apply (IH conn' (S m)); [done|]. intros m' Hm. apply Ht. lia.
Qed.

Lemma delivered_ready node : chat_ready node -> forall m, chat_ready (delivered m node).
Proof. intros H m. unfold delivered. by apply calls_grow. Qed.

(** However often the request is delivered, the second time and on nothing is
    stored and nothing sent on. *)
Lemma delivered_once node mid m :
  chat_ready node -> takes node -> message_id chat_request_of = Some mid ->
  (forall json, applied_row (id_string chat_request_of) (n_db node) <> Ok (Some json)) ->
  is_Some (messages (n_db (delivered (S m) node)) !! mid) /\
  messages (n_db (delivered (S m) node)) = messages (n_db (taken node)) /\ queue (n_db (delivered (S m) node)) = queue (n_db (taken node)).
Proof.
  intros Hr (n & node' & Hh) Hid Hnew. assert (Hfirst : is_Some (messages (n_db (taken node)) !! mid)).
  { unfold taken. rewrite Hh. cbn [snd]. change (handle_chat _ _ _ _ node) with (call deliver node) in Hh.
    apply call_cases in Hh as [_ Hh]; [|done]. by eapply handled_stored. }
  induction m as [|m (Hsome & Hm & Hq)]; [done|]. rewrite <-delivered_snoc. unfold taken at 1 2 4.
  destruct (handle_chat _ _ _ _ (delivered (S m) node)) as [out c] eqn:Eh. cbn [snd].
  change (handle_chat _ _ _ _ ?x) with (call deliver x) in Eh. apply call_cases in Eh as [_ Eh]; [|by apply delivered_ready].
  eapply handled_again in Eh as [Hm' Hq']; [|exact Hid|done]. rewrite Hm', Hq', Hm. by split_and!.
Qed.

(** C17. A queued message arrives, once: after any number of attempts of which the
    connection, the request or any part of the response was lost, the first that
    goes through settles the row as done; and the other node has stored and
    forwarded what a single delivery makes it store and forward. *)
Theorem queued_message_arrives (lost : list Fate) (conn : NConn D) (node : NConn E) (mid : string)
    (Hsend : sendable conn) (Hready : chat_ready node) (Hmid : message_id chat_request_of = Some mid)
    (Htakes : forall m, (m <= length lost)%nat -> takes (delivered m node))
    (Hfresh : forall json, applied_row (id_string chat_request_of) (n_db node) <> Ok (Some json)) :
  exists conn' link, attempts (S (length lost)) row (conn, mkLink (lost ++ [Through]) node) = (Settled, (conn', link)) /\
    finished conn' /\ is_Some (messages (n_db (lk_node link)) !! mid) /\
    messages (n_db (lk_node link)) = messages (n_db (taken node)) /\ queue (n_db (lk_node link)) = queue (n_db (taken node)).
Proof.
  destruct (attempts_deliver lost conn node 0 Hsend Htakes) as (conn' & link & k & Ha & Hf & Hl). exists conn', link. rewrite Hl.
  split; [exact Ha|]. split; [done|]. apply delivered_once; [done|apply (Htakes 0%nat); lia|done|done].
Qed.
End delivery.

(** ** Witness *)

Module Loss.

Import Club.
#[export] Existing Instances note_sqlite plain_action plain_frames no_rdf no_answers.
#[export] Existing Instances Answering.plain_rows Answering.young.

Definition bob_key : string := str_concat (repeat "b0" 32).
Definition bob_pid : list Byte.byte := default [] (PeerId_from_str bob_key).

(** The row that the host of the room queued for bob. *)
Definition queued : OutboxRow := default (mkOutboxRow SNull SNull SNull SNull SNull SNull SNull SNull SNull) (head (queue (n_db at_host))).

Definition sender : NConn unit :=
  mkNConn (mkNodeDb (mkDb (Some ∅) (Some []) None (Some []) (Some {[bob_key := mkPeerRow "2026-01-01" None (SText "bob") SNull SNull SNull]}) None)
             (Some []) (Some ∅) (Some ∅) (Some ∅) (set_results ∅ (set_outbox [queued] no_surface)) tt)
    None [] 0 (S754_zero false) [] (fun n => 1000000 * Z.of_nat n) 0 (0, 0).

Definition bob_node : NConn (list string) :=
  mkNConn (mkNodeDb (node_auth "bob" "host") (Some []) (Some ∅) (Some ∅) (Some ∅) (set_outbox [] (set_chat no_chat no_surface)) [])
    None [] 0 (S754_zero false) ["00000000000000000000000001"] (fun n => 1000000 * Z.of_nat n) 0 (0, 0).

Definition to_bob : PendingRow := match scan sender with (r :: _, _) => r | _ => mkPendingRow "" "" "" "" "" 0 end.

Lemma sender_ready : sendable to_bob 0 bob_pid sender.
Proof.
  split.
  - constructor.
  - done.
  - split; by eexists.
  - exists queued. split_and!; vm_compute; reflexivity.
  - exists (Some bob_key). split; vm_compute; reflexivity.
Qed.
End Loss.

Import Club Loss.

(** The connection is refused, then the response is lost, then its second
    frame; the fourth attempt is answered. *)
Lemma queued_message_arrives_witness :
  let lost := [Unreachable; Broken 0; Broken 1] in
  exists conn' link, attempts demo_node demo_lanes "host" 4 to_bob (sender, mkLink (lost ++ [Through]) bob_node) = (Settled, (conn', link)) /\
    finished to_bob 0 conn' /\ is_Some (messages (n_db (lk_node link)) !! "01ARZ3NDEKTSV4RRFFQ69G5FAV") /\
    messages (n_db (lk_node link)) = messages (n_db (taken demo_node "host" to_bob bob_node)) /\
    queue (n_db (lk_node link)) = queue (n_db (taken demo_node "host" to_bob bob_node)).
Proof.
  intros lost.
  assert (Hmod : pn_modulation to_bob = "chat") by (vm_compute; reflexivity).
  assert (Hparams : parse_params (pn_params to_bob) = Ok []) by (vm_compute; reflexivity).
  assert (Hready : chat_ready bob_node) by (split; [done|by left]).
  refine (queued_message_arrives demo_node demo_lanes "host" to_bob 0 bob_pid hex_ulid_laws Hmod Hparams lost sender bob_node
            "01ARZ3NDEKTSV4RRFFQ69G5FAV" sender_ready Hready _ _ _).
  - vm_compute. reflexivity.
  - intros m Hm. assert (m = 0 \/ m = 1 \/ m = 2 \/ m = 3)%nat as [-> | [-> | [-> | ->]]] by (cbn in Hm; lia);
      apply (takes_outcome demo_node "host" to_bob 1); vm_cast_no_check (eq_refl (ChApplied 1)).
  - intros json. vm_compute. discriminate.
Defined.
