(* ===== verification/Web.v ===== *)
(** * Web: what the HTTP handlers share

    Models the failures and their status codes ([web/src/error.rs]), the
    collection of a local exchange ([web/src/local.rs]) and the introspection of
    tables ([web/src/lib.rs]). The serving pipeline is an interface here: what it
    sends to one exchange, in order. *)

From S2P Require Import Prelude RustStd Effect Vocab External Instances Value Envelope Frame Encode Decode Wire Request AuthTypes NodeDb NodeFrames Outbox.

Open Scope Z_scope.

(** ** [error.rs] *)

Inductive ApiFailure : Type :=
| ApiDenied (reason : option string)
| ApiError (code reason : string).

Definition internal (reason : string) : ApiFailure := ApiError "engine-error" reason.
Definition not_found (reason : string) : ApiFailure := ApiError "not-found" reason.
Definition bad_request (reason : string) : ApiFailure := ApiError "bad-request" reason.

(** HTTP status codes, by number. *)
Definition error_statuses : list (string * Z) :=
  [("auth-denied", 403); ("timeout", 504); ("limit-exceeded", 422); ("mod-unsupported", 501);
   ("engine-error", 400); ("protocol-error", 400); ("point-unknown", 404); ("unauthorized", 401);
   ("not-found", 404); ("conflict", 409); ("bad-request", 400)].

Definition error_status (code : string) : Z :=
  match List.find (fun row => bool_decide (fst row = code)) error_statuses with
  | Some (_, status) => status
  | None => 400
  end.

Definition status (f : ApiFailure) : Z :=
  match f with
  | ApiDenied _ => 403
  | ApiError code _ => error_status code
  end.

(** ** [local.rs] *)

Inductive Piece : Type :=
| PFrame (obj : EnvelopeObject)
| PRaw (bytes : list Byte.byte).

Inductive Collected : Type :=
| CRows (columns : list string) (rows : list Row) (done : Done)
| CGraph (triples : list Triple) (done : Done).

Section collect.
Context `{HF : !FrameText}.

Record Gathered : Type := mkGathered {
  g_columns : list string;
  g_rows : list Row;
  g_triples : list Triple;
  g_graphs_seen : bool
}.

(** The loop of [run_collect] over the pieces still to come. *)
Fixpoint collect_from (g : Gathered) (pieces : list Piece) : result ApiFailure Collected :=
  match pieces with
  | [] => Err (internal "response ended without a terminal frame")
  | PRaw _ :: _ => Err (ApiError "protocol-error" "raw media bytes on a collected response")
  | PFrame frame :: rest =>
      match frame with
      | OResult h => collect_from (mkGathered (rh_columns h) (g_rows g) (g_triples g) (g_graphs_seen g)) rest
      | ORow batch => collect_from (mkGathered (g_columns g) (g_rows g ++ batch) (g_triples g) (g_graphs_seen g)) rest
      | OGraph gr =>
          collect_from (mkGathered (g_columns g) (g_rows g) (g_triples g ++ gr_payload gr) true) rest
      | ODone d => Ok (if g_graphs_seen g then CGraph (g_triples g) d else CRows (g_columns g) (g_rows g) d)
      | ODenied d => Err (ApiDenied (dd_reason d))
      | OError e => Err (ApiError (er_code e) (default "" (er_reason e)))
      | OGeneric _ => collect_from g rest
      | other => Err (ApiError "protocol-error" ("unexpected response frame: " +:+ frame_debug other))
      end
  end.

Definition collect (pieces : list Piece) : result ApiFailure Collected := collect_from (mkGathered [] [] [] false) pieces.
End collect.

(** ** The node behind the handlers

    The serving pipeline as one exchange sees it, and the statements the
    handlers run on the database themselves; each may fail with its text. *)
Class LocalNode (D : Type) : Type := {
  spawn_local : list Byte.byte -> EnvelopeObject -> NConn D -> list Piece * NConn D;
  db_call : NConn D -> result string unit;
  master_sql : string -> NConn D -> result string (option (option string));
  table_info : string -> NConn D -> result string (list (string * string * Z * Z));
  execute : string -> NConn D -> result string Z * NConn D;
  new_ulid : NConn D -> list Byte.byte * NConn D
}.

Section local.
Context {D : Type} `{HF : !FrameText} `{HL : !LocalNode D}.

Definition Web (A : Type) : Type := Eff (NConn D) ApiFailure A.

Definition run_collect (peer : list Byte.byte) (envelope : EnvelopeObject) : Web Collected := fun conn =>
  let '(pieces, conn) := spawn_local peer envelope conn in (collect pieces, conn).

(** ** [lib.rs]: tables *)

Record ColumnMeta : Type := mkColumnMeta {
  cm_name : string;
  cm_decltype : option string;
  cm_pk : bool;
  cm_notnull : bool
}.

Record TableMeta : Type := mkTableMeta {
  tm_columns : list ColumnMeta;
  tm_without_rowid : bool
}.

(** [str::contains]. *)
Fixpoint str_contains (p s : string) : bool :=
  starts_with p s || match s with String _ s' => str_contains p s' | EmptyString => false end.

Definition column_meta (row : string * string * Z * Z) : ColumnMeta :=
  let '(name, decltype, notnull, pk) := row in
  mkColumnMeta name (if is_empty decltype then None else Some decltype) (negb (pk =? 0)) (negb (notnull =? 0)).

Definition read_table_meta (table : string) : Web (option TableMeta) := fun conn =>
  (map_err internal
     (let? _ := db_call conn in
      let? sql := master_sql table conn in
      match sql with
      | None => Ok None
      | Some create_sql =>
          let without_rowid := match create_sql with
                               | Some s => str_contains "WITHOUT ROWID" (str_upper s)
                               | None => false
                               end in
          let? info := table_info table conn in
          Ok (Some (mkTableMeta (map column_meta info) without_rowid))
      end), conn).

Definition quote_ident (name : string) : string :=
  dq +:+ str_map (fun c => if bool_decide (c = DQ) then dq +:+ dq else char_str c) name +:+ dq.

Definition owner_peer_id (owner : string) : result ApiFailure (list Byte.byte) :=
  ok_or (internal ("bad owner id " +:+ tag_debug owner)) (PeerId_from_str owner).
End local.
