(* ===== verification/Csv.v ===== *)
(** * Csv: tables as CSV documents

    Models [crates/web/src/csv.rs]: the cell encoding, the RFC 4180 reader, and
    export and import over the serving pipeline; and proves that what is exported
    reads back, and that an import binds every row once. *)

From S2P Require Import Prelude RustStd Effect Vocab External Instances Value Envelope Wire Request AuthTypes NodeDb NodeFrames Outbox.
From S2P Require Import OutboxProps Web.

Open Scope Z_scope.

(** [Display] of [f64], and [str::to_lowercase], which agrees with the ASCII one
    on ASCII. A float prints with digits, a sign and a point, or as [inf],
    [-inf] or [NaN]. *)
Class CsvText : Type := {
  f64_display : Z -> string;
  to_lowercase : string -> string
}.

Definition is_float_byte (c : ascii) : bool :=
  is_int_byte c || bool_decide (c ∈ ["."; "i"; "n"; "f"; "N"; "a"]%char).

Class CsvTextLaws {T : CsvText} : Prop := {
  f64_display_bytes b : str_forallb is_float_byte (f64_display b) = true;
  f64_display_nonempty b : f64_display b <> ""
}.

(** ** Characters

    [str::chars]: an ASCII byte is a character, another lead byte takes the
    continuation bytes that follow. A [char] is its UTF-8 encoding. *)
Definition head_cont (s : string) : bool := match s with String d _ => cont d | EmptyString => false end.

Fixpoint chars (s : string) : list string :=
  match s with
  | EmptyString => []
  | String c s' =>
      if negb (is_ascii c) && head_cont s' then
        match chars s' with
        | g :: gs => String c g :: gs
        | [] => [char_str c]
        end
      else char_str c :: chars s'
  end.

Definition is_whitespace (c : string) : bool := bool_decide (c ∈ ws_encodings).
Definition CR : ascii := "013"%char.
Definition COMMA : string := ",".
Definition CRLF : string := String CR nl.

(** ** The cell codec *)

Definition str_even (s : string) : bool := Nat.even (str_len s).
Definition is_ascii_hexdigit (c : ascii) : bool := bool_decide (is_Some (hex_digit c)).

Definition strip_suffix (p s : string) : option string := str_rev <$> strip_prefix (str_rev p) (str_rev s).

Definition is_blob_lexical (field : string) : bool :=
  match (match strip_prefix "x'" field with
         | Some rest => Some rest
         | None => strip_prefix "X'" field
         end) ≫= strip_suffix "'" with
  | None => false
  | Some hex => str_even hex && str_forallb is_ascii_hexdigit hex
  end.

Definition quote (t : string) : string :=
  dq +:+ str_map (fun c => if bool_decide (c = DQ) then dq +:+ char_str c else char_str c) t +:+ dq.

Definition needs_quotes (t : string) : bool :=
  contains_char ","%char t || contains_char DQ t || contains_char NL t || contains_char CR t || is_blob_lexical t.

Definition encode_text (t : string) : string :=
  if is_empty t then dq +:+ dq else if needs_quotes t then quote t else t.

Section codec.
Context `{HT : !CsvText}.

Definition encode_field (v : Value) : string :=
  match v with
  | Null => ""
  | Integer i => int_to_string i
  | Real f => f64_display f
  | Blob b => "x'" +:+ hex b +:+ "'"
  | BlobRef hash bytes => quote ("blobref(" +:+ hash +:+ ", " +:+ int_to_string bytes +:+ " bytes)")
  | Text t => encode_text t
  end.

(** [u8::from_str_radix] never fails on the digits that were checked. *)
Definition field_value (field : string) (quoted : bool) : Value :=
  if negb quoted && is_empty field then Null
  else if negb quoted && is_blob_lexical field then
    Blob (default [] (hex_pairs (String.substring 2 (str_len field - 3) field)))
  else Text field.
End codec.

(** ** The reader *)

Definition CsvRow : Type := list (string * bool).

(** The locals of [parse_csv]. *)
Record Reader : Type := mkReader {
  rd_rows : list CsvRow;
  rd_row : CsvRow;
  rd_field : string;
  rd_quoted : bool
}.

Definition push (c : string) (r : Reader) : Reader :=
  mkReader (rd_rows r) (rd_row r) (rd_field r +:+ c) (rd_quoted r).
Definition open_quote (r : Reader) : Reader := mkReader (rd_rows r) (rd_row r) (rd_field r) true.
Definition end_field (r : Reader) : Reader :=
  mkReader (rd_rows r) (rd_row r ++ [(rd_field r, rd_quoted r)]) "" false.
Definition end_row (r : Reader) : Reader :=
  mkReader (rd_rows r ++ [rd_row r ++ [(rd_field r, rd_quoted r)]]) [] "" false.

Fixpoint parse_chars (in_quotes : bool) (r : Reader) (cs : list string) : result string (list CsvRow) :=
  match cs with
  | [] =>
      if in_quotes then Err "unterminated quoted field"
      else Ok (rd_rows (if negb (is_empty (rd_field r)) || rd_quoted r || negb (bool_decide (rd_row r = []))
                        then end_row r else r))
  | c :: cs' =>
      if in_quotes then
        if bool_decide (c = dq) then
          match cs' with
          | d :: cs'' => if bool_decide (d = dq) then parse_chars true (push dq r) cs'' else parse_chars false r cs'
          | [] => parse_chars false r cs'
          end
        else parse_chars true (push c r) cs'
      else if bool_decide (c = dq) then
        if is_empty (rd_field r) && negb (rd_quoted r) then parse_chars true (open_quote r) cs'
        else Err "quote inside an unquoted field"
      else if bool_decide (c = COMMA) then parse_chars false (end_field r) cs'
      else if bool_decide (c = char_str CR) then
        match cs' with
        | d :: cs'' => if bool_decide (d = nl) then parse_chars false (end_row r) cs''
                       else parse_chars false (end_row r) cs'
        | [] => parse_chars false (end_row r) cs'
        end
      else if bool_decide (c = nl) then parse_chars false (end_row r) cs'
      else if rd_quoted r && negb (is_whitespace c) then Err "data after a closing quote"
      else parse_chars false (push c r) cs'
  end.

Definition parse_csv (text : string) : result string (list CsvRow) :=
  let? rows := parse_chars false (mkReader [] [] "" false) (chars text) in
  if is_empty text then Err "empty document" else Ok rows.

(** ** Export *)

Section tables.
Context {D : Type} `{HT : !CsvText} `{HF : !FrameText} `{HL : !LocalNode D} `{HU : !UlidLib} `{HR : !RowIds}.

Definition table_meta (table : string) : Web (D:=D) TableMeta :=
  let* meta := read_table_meta table in
  match meta with
  | Some meta => eret meta
  | None => ethrow (not_found ("no such table " +:+ tag_debug table))
  end.

Definition col_list (cols : list string) : string := join ", " (map quote_ident cols).

(** [run_collect] of a fresh request of the owner. *)
Definition run_owner (peer : list Byte.byte) (kind : RequestKind) (sql : string) (params : list Value) :
    Web (D:=D) Collected :=
  let* id := etotal new_ulid in
  run_collect peer (to_envelope (mkRequest id kind "sql-sqlite" sql params None RequestOptions_default)).

Definition csv_header (cols : list string) : string := join "," (map encode_text cols) +:+ CRLF.

(** The cell of a column, which the wire leaves out when it is NULL. *)
Definition csv_cell (row : Row) (name : string) : Value :=
  match List.find (fun cell => bool_decide (fst cell = name)) (row_cells row) with
  | Some (_, v) => v
  | None => Null
  end.

Definition csv_line (values : list Value) : string := join "," (map encode_field values) +:+ CRLF.

Definition csv_document (cols : list string) (rows : list Row) : string :=
  csv_header cols +:+ str_concat (map (fun row => csv_line (map (csv_cell row) cols)) rows).

Definition export_csv (owner table : string) : Web (D:=D) string :=
  let* peer := elift (owner_peer_id owner) in
  let* meta := table_meta table in
  let cols := map cm_name (tm_columns meta) in
  let sql := "SELECT " +:+ col_list cols +:+ " FROM " +:+ quote_ident table in
  let* collected := run_owner peer Query sql [] in
  match collected with
  | CRows _ rows done =>
      if dn_truncated done then
        ethrow (ApiError "limit-exceeded"
                  ("table " +:+ tag_debug table +:+ " exceeds the node's row cap; export would be incomplete"))
      else eret (csv_document cols rows)
  | CGraph _ _ => ethrow (internal "unexpected response shape")
  end.

(** ** Import *)

Record ImportReport : Type := mkImportReport {
  ir_table : string;
  ir_created : bool;
  ir_rows_inserted : Z
}.

(** The size of a set, as [sort] and [dedup] count it. *)
Definition distinct (l : list string) : nat := length (remove_dups l).

Fixpoint check_rows (width : nat) (i : Z) (rows : list CsvRow) : result ApiFailure unit :=
  match rows with
  | [] => Ok tt
  | row :: rows' =>
      if (length row =? width)%nat then check_rows width (i + 1) rows'
      else Err (bad_request ("csv: row " +:+ int_to_string (i + 1) +:+ " has " +:+ int_to_string (zlen row) +:+
                             " fields, header has " +:+ int_to_string (Z.of_nat width)))
  end.

(** The checks on the document alone: its header and its data rows. *)
Definition read_document (text : string) : result ApiFailure (list string * list CsvRow) :=
  let? parsed := map_err (fun e => bad_request ("csv: " +:+ e)) (parse_csv text) in
  match parsed with
  | [] => Err (bad_request "csv: a header line is required")
  | first :: parsed =>
      let header := map fst first in
      if existsb is_empty header then Err (bad_request "csv: empty header field")
      else if negb (distinct (map to_lowercase header) =? length header)%nat then
        Err (bad_request "csv: duplicate header field")
      else let? _ := check_rows (length header) 0 parsed in Ok (header, parsed)
  end.

Definition create_sql (table : string) (header : list string) : string :=
  "CREATE TABLE " +:+ quote_ident table +:+ " (" +:+
  join ", " (map (fun h => quote_ident h +:+ " TEXT") header) +:+ ")".

(** On the owner surface, with its own audit row. *)
Definition create_table (owner table sql : string) : Web (D:=D) unit := fun conn =>
  match db_call conn with
  | Err e => (Err (internal e), conn)
  | Ok _ =>
      let '(res, conn) := execute sql conn in
      let '(id, conn) := new_ulid conn in
      let '(decision, reason) := match res with
                                 | Ok _ => ("allow", "csv import created the table")
                                 | Err e => ("deny", "create failed: " +:+ e)
                                 end in
      let conn := audit_direct owner (ulid_to_string id) sql decision "node" reason conn in
      (match res with
       | Ok _ => Ok tt
       | Err e => Err (internal ("creating " +:+ tag_debug table +:+ ": " +:+ e))
       end, conn)
  end.

(** Equal as sorted vectors: the same column names, as often. *)
Definition same_columns (have want : list string) : bool := bool_decide (Permutation have want).

Definition ensure_table (owner table : string) (create : bool) (header : list string) : Web (D:=D) bool :=
  let* meta := read_table_meta table in
  match meta with
  | Some meta =>
      if same_columns (map (fun c => to_lowercase (cm_name c)) (tm_columns meta)) (map to_lowercase header)
      then eret false
      else ethrow (bad_request ("csv header does not match the columns of " +:+ tag_debug table))
  | None =>
      if negb create then ethrow (not_found ("no such table " +:+ tag_debug table))
      else let* _ := create_table owner table (create_sql table header) in eret true
  end.

Definition chunk_rows (cols : nat) : nat := Z.to_nat (Z.max 1 (Z.min (20000 / Z.max 1 (Z.of_nat cols)) 500)).

Definition row_tuple (width : nat) : string := "(" +:+ join ", " (replicate width "?") +:+ ")".

Definition insert_sql (table : string) (header : list string) (n : nat) : string :=
  "INSERT INTO " +:+ quote_ident table +:+ " (" +:+ col_list header +:+ ") VALUES " +:+
  join ", " (replicate n (row_tuple (length header))).

Definition row_params (row : CsvRow) : list Value := map (fun cell => field_value (fst cell) (snd cell)) row.

Definition insert_chunk (peer : list Byte.byte) (table : string) (header : list string) (inserted : Z)
    (chunk : list CsvRow) : Web (D:=D) Z :=
  let* collected := run_owner peer Execute (insert_sql table header (length chunk)) (chunk ≫= row_params) in
  match collected with
  | CRows _ _ done => eret (inserted + default (zlen chunk) (dn_affected_rows done))
  | CGraph _ _ => eret inserted
  end.

Definition import_csv (owner table text : string) (create : bool) : Web (D:=D) ImportReport :=
  let* peer := elift (owner_peer_id owner) in
  let* (header, parsed) := elift (read_document text) in
  let* created := ensure_table owner table create header in
  let* inserted := efold (insert_chunk peer table header) 0 (chunks (chunk_rows (length header)) parsed) in
  eret (mkImportReport table created inserted).
End tables.

(** * exported tables read back

    The reader takes apart what the cell encoding and the lines of an export put
    together, whatever the cells hold; what an import binds re-exports to the
    same bytes; the batches of an import. *)

(** ** Characters *)

Lemma chars_ascii c s : is_ascii c = true -> chars (String c s) = char_str c :: chars s.
Proof. intros Hc. cbn [chars]. by rewrite Hc. Qed.

Lemma chars_nonempty c s : chars (String c s) <> [].
Proof. cbn [chars]. destruct (_ && _); [by destruct (chars s)|done]. Qed.

Lemma ascii_not_cont c : is_ascii c = true -> cont c = false.
Proof. unfold is_ascii, cont, in_range. lia. Qed.

(** A text ends where an ASCII character follows. *)
Lemma chars_app_ascii a c b : is_ascii c = true -> chars (a +:+ String c b) = chars a ++ char_str c :: chars b.
Proof.
  intros Hc. induction a as [|d a IH]; [by rewrite app_str_nil_l, chars_ascii|].
  rewrite app_str_cons. cbn [chars]. rewrite IH.
  assert (head_cont (a +:+ String c b) = head_cont a) as ->.
  { destruct a; [by apply ascii_not_cont|done]. }
  destruct (negb (is_ascii d) && head_cont a) eqn:E; [|done].
  destruct a as [|e a]; [by rewrite andb_false_r in E|].
  destruct (chars (String e a)) eqn:Ea; [by apply chars_nonempty in Ea|done].
Qed.

Lemma chars_app_line a c b s : is_ascii c = true -> b = String c s -> chars (a +:+ b) = chars a ++ chars b.
Proof. intros Hc ->. by rewrite chars_app_ascii, chars_ascii. Qed.

Lemma concat_chars s : str_concat (chars s) = s.
Proof.
  induction s as [|c s IH]; [done|]. cbn [chars].
  assert (str_concat (char_str c :: chars s) = String c s) as Hone by (cbn; by f_equal).
  destruct (_ && _) eqn:E; [|done]. destruct s as [|d s]; [by rewrite andb_false_r in E|].
  destruct (chars (String d s)) eqn:Es; [by apply chars_nonempty in Es|].
  change (String c (str_concat (s0 :: l)) = String c (String d s)). by f_equal.
Qed.

Lemma contains_char_app c s1 s2 : contains_char c (s1 +:+ s2) = contains_char c s1 || contains_char c s2.
Proof.
  induction s1 as [|d s1 IH]; [done|]. rewrite app_str_cons. cbn [contains_char]. rewrite IH. by destruct (bool_decide _).
Qed.

Lemma not_in_chars c s : contains_char c s = false -> char_str c ∉ chars s.
Proof.
  intros Hs Hin. rewrite <- (concat_chars s) in Hs. induction (chars s) as [|g gs IH]; [by apply elem_of_nil in Hin|].
  change (str_concat (g :: gs)) with (g +:+ str_concat gs) in Hs. rewrite contains_char_app in Hs.
  apply orb_false_iff in Hs as [Hg Hgs]. apply elem_of_cons in Hin as [<-|Hin]; [|by apply IH].
  cbn [char_str contains_char] in Hg. by rewrite bool_decide_eq_true_2 in Hg.
Qed.

(** What [quote] writes for a character. *)
Definition esc (g : string) : list string := if bool_decide (g = dq) then [dq; dq] else [g].

Lemma head_cont_quoted s :
  head_cont (str_map (fun c => if bool_decide (c = DQ) then dq +:+ char_str c else char_str c) s) = head_cont s.
Proof. destruct s as [|c s]; [done|]. cbn [str_map]. by case_bool_decide as Hc; [rewrite Hc|]. Qed.

Lemma chars_quoted s :
  chars (str_map (fun c => if bool_decide (c = DQ) then dq +:+ char_str c else char_str c) s) = chars s ≫= esc.
Proof.
  induction s as [|c s IH]; [done|]. cbn [str_map]. destruct (bool_decide_reflect (c = DQ)) as [->|Hc].
  - change ((dq +:+ char_str DQ) +:+ ?s) with (String DQ (String DQ s)).
    rewrite !chars_ascii by done. rewrite IH. done.
  - change (char_str c +:+ ?s) with (String c s). cbn [chars]. rewrite head_cont_quoted, IH.
    assert (forall g, g = "" \/ g <> dq /\ g <> "" -> esc g = [g]) as Hesc.
    { intros g [-> | [Hg _]]; [done|]. unfold esc. by rewrite bool_decide_eq_false_2. }
    assert (char_str c <> dq) as Hcd by (unfold dq, char_str; congruence).
    destruct (negb (is_ascii c) && head_cont s) eqn:E.
    + destruct s as [|d s]; [by rewrite andb_false_r in E|].
      apply andb_prop in E as [Ec Ed]. cbn [head_cont] in Ed.
      destruct (chars (String d s)) as [|g gs] eqn:Es; [by apply chars_nonempty in Es|].
      change ((g :: gs) ≫= esc) with (esc g ++ (gs ≫= esc)).
      assert (g <> dq) as Hg.
      { intros ->. pose proof (concat_chars (String d s)) as Hcat. rewrite Es in Hcat.
        change (str_concat (dq :: gs)) with (String DQ (str_concat gs)) in Hcat. by injection Hcat as <- _. }
      unfold esc at 1. rewrite bool_decide_eq_false_2 by done. cbn [app].
      change ((String c g :: gs) ≫= esc) with (esc (String c g) ++ (gs ≫= esc)).
      unfold esc at 2. rewrite bool_decide_eq_false_2; [done|].
      intros [= -> ->]. done.
    + change ((char_str c :: chars s) ≫= esc) with (esc (char_str c) ++ (chars s ≫= esc)).
      rewrite Hesc; [done|]. right. by split.
Qed.

(** ** The reader on what the writer writes *)

(** The reader's locals at the start of a field, and inside one. *)
Definition at_field (rows : list CsvRow) (row : CsvRow) : Reader := mkReader rows row "" false.
Definition in_field (rows : list CsvRow) (row : CsvRow) (cell : string * bool) : Reader :=
  mkReader rows row (fst cell) (snd cell).

Definition plain (g : string) : Prop := g ∉ [dq; COMMA; char_str CR; nl].

Lemma parse_quoted gs rows row field q rest :
  head rest <> Some dq ->
  parse_chars true (mkReader rows row field q) ((gs ≫= esc) ++ dq :: rest) =
  parse_chars false (mkReader rows row (field +:+ str_concat gs) q) rest.
Proof.
  intros Hrest. revert field. induction gs as [|g gs IH]; intros field.
  - change (str_concat []) with "". rewrite app_str_nil_r.
    change ([] ≫= esc) with (@nil string). cbn [app parse_chars].
    rewrite bool_decide_eq_true_2 by done. destruct rest as [|d rest]; [done|].
    rewrite bool_decide_eq_false_2; [done|]. intros ->. by apply Hrest.
  - change ((g :: gs) ≫= esc) with (esc g ++ (gs ≫= esc)). change (str_concat (g :: gs)) with (g +:+ str_concat gs).
    rewrite <- app_str_assoc. unfold esc at 1. case_bool_decide as Hg.
    + subst g. cbn [app parse_chars]. rewrite !bool_decide_eq_true_2 by done. apply IH.
    + cbn [app parse_chars]. rewrite bool_decide_eq_false_2 by done. apply IH.
Qed.

Lemma parse_plain gs rows row field rest :
  Forall plain gs ->
  parse_chars false (mkReader rows row field false) (gs ++ rest) =
  parse_chars false (mkReader rows row (field +:+ str_concat gs) false) rest.
Proof.
  intros Hgs. revert field. induction Hgs as [|g gs Hg _ IH]; intros field.
  - change (str_concat []) with "". by rewrite app_str_nil_r.
  - change (str_concat (g :: gs)) with (g +:+ str_concat gs). rewrite <- app_str_assoc, <- IH.
    unfold plain in Hg. cbn [app parse_chars].
    rewrite !bool_decide_eq_false_2 by (intros ->; apply Hg; set_solver). done.
Qed.

Lemma contains_not_forall c p s : p c = false -> str_forallb p s = true -> contains_char c s = false.
Proof.
  intros Hc. induction s as [|d s IH]; [done|]. cbn [str_forallb contains_char]. intros [Hd Hs]%andb_prop.
  rewrite bool_decide_eq_false_2; [by apply IH|]. intros ->. congruence.
Qed.

Definition unmarked (s : string) : bool :=
  negb (contains_char ","%char s || contains_char DQ s || contains_char NL s || contains_char CR s).

Lemma unmarked_plain s : unmarked s = true -> Forall plain (chars s).
Proof.
  unfold unmarked. rewrite !negb_orb. intros [[[Hcomma Hdq]%andb_prop Hnl]%andb_prop Hcr]%andb_prop.
  apply negb_true_iff in Hcomma, Hdq, Hnl, Hcr. apply Forall_forall. intros g Hg Hin.
  rewrite !elem_of_cons, elem_of_nil in Hin.
  destruct Hin as [-> | [-> | [-> | [-> | []]]]].
  - by apply (not_in_chars DQ s Hdq).
  - by apply (not_in_chars ","%char s Hcomma).
  - by apply (not_in_chars CR s Hcr).
  - by apply (not_in_chars NL s Hnl).
Qed.

(** Bytes none of which has a meaning in a document. *)
Definition inert (c : ascii) : bool := negb (bool_decide (c ∈ [","%char; DQ; NL; CR])).

Lemma inert_unmarked s : str_forallb inert s = true -> unmarked s = true.
Proof. intros Hs. unfold unmarked. by rewrite !(contains_not_forall _ inert s) by done. Qed.

Lemma hex_inert bytes : str_forallb inert (hex bytes) = true.
Proof.
  induction bytes as [|b bytes IH]; [done|].
  change (hex (b :: bytes)) with (hex2 HEX_LOWER (u8_val b) +:+ hex bytes).
  rewrite str_forallb_app, IH, andb_true_r. by destruct b.
Qed.

Lemma hex_digits bytes : str_forallb is_ascii_hexdigit (hex bytes) = true /\ str_even (hex bytes) = true.
Proof.
  unfold str_even. induction bytes as [|b bytes [IH1 IH2]]; [done|].
  change (hex (b :: bytes)) with (hex2 HEX_LOWER (u8_val b) +:+ hex bytes).
  rewrite str_forallb_app, IH1, str_len_app, andb_true_r. split; [by destruct b|]. by rewrite Nat.even_add, IH2.
Qed.

Lemma blob_lexical b : is_blob_lexical ("x'" +:+ hex b +:+ "'") = true.
Proof.
  unfold is_blob_lexical. rewrite strip_prefix_app. unfold strip_suffix.
  change (Some ?x ≫= ?f) with (f x). cbv beta.
  rewrite str_rev_app. change (str_rev "'") with "'". rewrite strip_prefix_app. cbn [fmap option_fmap option_map].
  rewrite str_rev_involutive. by destruct (hex_digits b) as [-> ->].
Qed.

Lemma blob_substring b : String.substring 2 (str_len ("x'" +:+ hex b +:+ "'") - 3) ("x'" +:+ hex b +:+ "'") = hex b.
Proof.
  rewrite !str_len_app. change (str_len "x'") with 2%nat. change (str_len "'") with 1%nat.
  replace (2 + (str_len (hex b) + 1) - 3)%nat with (str_len (hex b)) by lia.
  change ("x'" +:+ hex b +:+ "'") with (String "x" (String "'" (hex b +:+ "'"))). cbn [String.substring].
  induction (hex b) as [|c s IH]; [done|]. rewrite str_len_cons, app_str_cons. cbn [String.substring]. by rewrite IH.
Qed.

Lemma blob_lexical_head c s : c <> "x"%char -> c <> "X"%char -> is_blob_lexical (String c s) = false.
Proof.
  intros Hx HX. unfold is_blob_lexical. cbn [strip_prefix].
  by rewrite !bool_decide_eq_false_2 by congruence.
Qed.

Section codec.
Context `{HT : !CsvText} `{HTL : !CsvTextLaws}.

(** What the reader makes of an encoded field. *)
Definition field_read (v : Value) : string * bool :=
  match v with
  | Null => ("", false)
  | Integer i => (int_to_string i, false)
  | Real f => (f64_display f, false)
  | Blob b => ("x'" +:+ hex b +:+ "'", false)
  | BlobRef hash bytes => ("blobref(" +:+ hash +:+ ", " +:+ int_to_string bytes +:+ " bytes)", true)
  | Text t => (t, is_empty t || needs_quotes t)
  end.

(** What an import stores of a cell: numbers and references as their text. *)
Definition stored (v : Value) : Value :=
  match v with
  | Integer i => Text (int_to_string i)
  | Real f => Text (f64_display f)
  | BlobRef hash bytes => Text ("blobref(" +:+ hash +:+ ", " +:+ int_to_string bytes +:+ " bytes)")
  | v => v
  end.

(** Texts of numbers are neither empty nor blobs. *)
Definition numeric (s : string) : bool := negb (is_empty s) && str_forallb is_float_byte s.

Lemma numeric_not_blob s : numeric s = true -> is_blob_lexical s = false.
Proof.
  destruct s as [|c s]; [done|]. intros [_ [Hc _]%andb_prop]%andb_prop. apply blob_lexical_head; by intros ->.
Qed.

Lemma float_byte_inert c : is_float_byte c = true -> inert c = true.
Proof. destruct c as [[] [] [] [] [] [] [] []]; vm_compute; congruence. Qed.

Lemma numeric_unmarked s : numeric s = true -> unmarked s = true.
Proof. intros [_ Hs]%andb_prop. apply inert_unmarked. eapply str_forallb_impl; [apply float_byte_inert|done]. Qed.

Lemma int_numeric i : numeric (int_to_string i) = true.
Proof.
  apply andb_true_intro. split.
  - unfold int_to_string. destruct (Z.to_int i) as [d|d]; [by destruct d|done].
  - eapply str_forallb_impl; [|apply int_to_string_bytes]. unfold is_float_byte. by intros c ->.
Qed.

Lemma float_numeric f : numeric (f64_display f) = true.
Proof.
  apply andb_true_intro. split; [|apply f64_display_bytes]. pose proof (f64_display_nonempty f). by destruct (f64_display f).
Qed.

Lemma field_value_read v : field_value (fst (field_read v)) (snd (field_read v)) = stored v.
Proof.
  assert (forall s, numeric s = true -> field_value s false = Text s) as Hnum.
  { intros s Hs. unfold field_value. rewrite (numeric_not_blob s Hs). by destruct s. }
  destruct v as [|i|f|t|b|h n]; cbn [fst snd field_read stored]; [done|..].
  - apply Hnum, int_numeric.
  - apply Hnum, float_numeric.
  - unfold field_value. destruct t as [|c t]; [done|]. cbn [is_empty orb]. rewrite andb_false_r.
    destruct (needs_quotes _) eqn:E; [done|]. unfold needs_quotes in E. by apply orb_false_iff in E as [_ ->].
  - unfold field_value. rewrite blob_lexical, blob_substring, hex_pairs_hex. done.
  - done.
Qed.

(** What is bound writes the same field again. *)
Lemma encode_stored v : encode_field (stored v) = encode_field v.
Proof.
  assert (forall s, numeric s = true -> encode_text s = s) as Hnum.
  { intros s Hs. unfold encode_text, needs_quotes. rewrite (numeric_not_blob s Hs), orb_false_r.
    pose proof (numeric_unmarked s Hs) as Hu. unfold unmarked in Hu. apply negb_true_iff in Hu. rewrite Hu. by destruct s. }
  destruct v as [|i|f|t|b|h n]; try done; cbn [stored encode_field].
  - apply Hnum, int_numeric.
  - apply Hnum, float_numeric.
  - unfold encode_text, needs_quotes. rewrite !contains_char_app. cbn [is_empty String.append contains_char].
    rewrite (bool_decide_eq_true_2 (","%char = ","%char)) by done. cbn [orb].
    by rewrite !orb_true_r.
Qed.

Lemma parse_field_plain t rows row rest :
  unmarked t = true ->
  parse_chars false (at_field rows row) (chars t ++ rest) = parse_chars false (in_field rows row (t, false)) rest.
Proof. intros Ht. unfold at_field. by rewrite parse_plain, app_str_nil_l, concat_chars by by apply unmarked_plain. Qed.

Lemma parse_field_quoted t rows row rest :
  head rest <> Some dq ->
  parse_chars false (at_field rows row) (chars (quote t) ++ rest) = parse_chars false (in_field rows row (t, true)) rest.
Proof.
  intros Hrest. unfold quote. change (dq +:+ ?s) with (String DQ s). change dq with (String DQ "") at 2.
  rewrite chars_ascii, chars_app_ascii by done. rewrite chars_quoted. cbn [app].
  change (parse_chars true (open_quote (at_field rows row)) (((chars t ≫= esc) ++ char_str DQ :: chars "") ++ rest) =
          parse_chars false (in_field rows row (t, true)) rest).
  rewrite <- app_assoc. change ((char_str DQ :: chars "") ++ rest) with (dq :: rest).
  unfold open_quote. cbn [rd_rows rd_row rd_field at_field]. by rewrite parse_quoted, app_str_nil_l, concat_chars.
Qed.

Lemma parse_field v rows row rest :
  head rest <> Some dq ->
  parse_chars false (at_field rows row) (chars (encode_field v) ++ rest) =
  parse_chars false (in_field rows row (field_read v)) rest.
Proof.
  intros Hrest. destruct v as [|i|f|t|b|h n]; cbn [encode_field field_read].
  - done.
  - apply parse_field_plain, numeric_unmarked, int_numeric.
  - apply parse_field_plain, numeric_unmarked, float_numeric.
  - unfold encode_text. destruct (is_empty t) eqn:Et.
    { destruct t; [|done]. by apply (parse_field_quoted ""). }
    destruct (needs_quotes t) eqn:En; [by apply parse_field_quoted|]. apply parse_field_plain.
    unfold needs_quotes in En. apply orb_false_iff in En as [En _]. unfold unmarked. by rewrite En.
  - apply parse_field_plain. unfold unmarked. rewrite !contains_char_app.
    pose proof (inert_unmarked _ (hex_inert b)) as Hb. apply negb_true_iff in Hb.
    apply orb_false_iff in Hb as [[[-> ->]%orb_false_iff ->]%orb_false_iff ->]. done.
  - by apply parse_field_quoted.
Qed.

Lemma csv_line_last v s : csv_line [v] +:+ s = encode_field v +:+ String CR (String NL s).
Proof. unfold csv_line. cbn [map join]. by rewrite !app_str_assoc. Qed.

Lemma csv_line_more v w vs s : csv_line (v :: w :: vs) +:+ s = encode_field v +:+ String "," (csv_line (w :: vs) +:+ s).
Proof. unfold csv_line. cbn [map]. cbn [join]. by rewrite !app_str_assoc. Qed.

Lemma parse_line vs rows row s :
  vs <> [] ->
  parse_chars false (at_field rows row) (chars (csv_line vs +:+ s)) =
  parse_chars false (at_field (rows ++ [row ++ map field_read vs]) []) (chars s).
Proof.
  intros Hvs. revert row. induction vs as [|v vs IH]; intros row; [done|]. destruct vs as [|w vs].
  - rewrite csv_line_last, chars_app_ascii, (chars_ascii NL) by done. rewrite parse_field by done.
    cbn [parse_chars map]. rewrite !bool_decide_eq_false_2 by done. rewrite !bool_decide_eq_true_2 by done.
    by destruct (field_read v).
  - rewrite csv_line_more, chars_app_ascii by done. rewrite parse_field by done.
    destruct (field_read v) as [t q] eqn:Ev. cbn [parse_chars]. rewrite bool_decide_eq_false_2 by done.
    rewrite bool_decide_eq_true_2 by done. unfold end_field. cbn [rd_rows rd_row rd_field rd_quoted in_field fst snd].
    change (mkReader rows (row ++ [(t, q)]) "" false) with (at_field rows (row ++ [(t, q)])).
    rewrite IH by done. rewrite <- app_assoc. cbn [map]. by rewrite Ev.
Qed.

Lemma parse_lines lines rows :
  Forall (fun vs => vs <> []) lines ->
  parse_chars false (at_field rows []) (chars (str_concat (map csv_line lines))) = Ok (rows ++ map (map field_read) lines).
Proof.
  intros Hl. revert rows. induction Hl as [|vs lines Hvs _ IH]; intros rows; [by rewrite app_nil_r|].
  change (str_concat (map csv_line (vs :: lines))) with (csv_line vs +:+ str_concat (map csv_line lines)).
  rewrite parse_line, IH by done. by rewrite <- app_assoc.
Qed.

Lemma parse_csv_lines vs lines :
  Forall (fun vs => vs <> []) (vs :: lines) ->
  parse_csv (str_concat (map csv_line (vs :: lines))) = Ok (map (map field_read) (vs :: lines)).
Proof.
  intros Hl. unfold parse_csv. fold (at_field [] []). rewrite parse_lines by done. cbn [rbind app].
  assert (forall vs, is_empty (csv_line vs) = false) as Hne.
  { intros us. unfold csv_line. by destruct (join "," _). }
  change (str_concat (map csv_line (vs :: lines))) with (csv_line vs +:+ str_concat (map csv_line lines)).
  specialize (Hne vs). by destruct (csv_line vs).
Qed.
End codec.

(** ** Documents *)

Section documents.
Context `{HT : !CsvText} `{HTL : !CsvTextLaws}.

Definition table_lines (cols : list string) (rows : list Row) : list (list Value) :=
  map Text cols :: map (fun row => map (csv_cell row) cols) rows.

Lemma csv_document_lines cols rows : csv_document cols rows = str_concat (map csv_line (table_lines cols rows)).
Proof.
  unfold csv_document, table_lines, csv_header. cbn [map]. rewrite map_map.
  change (str_concat (?l :: ?ls)) with (l +:+ str_concat ls). f_equal.
  unfold csv_line. rewrite map_map. done.
Qed.

Lemma check_rows_ok width rows i : Forall (fun row => length row = width) rows -> check_rows width i rows = Ok tt.
Proof. intros Hr. revert i. induction Hr as [|row rows Hrow _ IH]; intros i; [done|]. cbn. by rewrite Hrow, Nat.eqb_refl. Qed.

Lemma check_rows_widths width rows i : check_rows width i rows = Ok tt -> Forall (fun row => length row = width) rows.
Proof.
  revert i. induction rows as [|row rows IH]; intros i; [by constructor|]. cbn.
  destruct (length row =? width)%nat eqn:E; [|done]. intros Hr. constructor; [by apply Nat.eqb_eq|by eapply IH].
Qed.

Lemma distinct_NoDup l : NoDup l -> distinct l = length l.
Proof.
  unfold distinct. induction 1 as [|x l Hx Hl IH]; [done|]. cbn [remove_dups]. case_match; [done|]. cbn. by f_equal.
Qed.

Lemma texts_read cols : map fst (map field_read (map Text cols)) = cols.
Proof. rewrite !map_map. cbn. apply map_id. Qed.

Lemma row_params_read vs : row_params (map field_read vs) = map stored vs.
Proof. unfold row_params. rewrite map_map. apply map_ext. intros v. apply field_value_read. Qed.

(** C32. The document that [export_csv] writes for a table whose columns have
    names, different ones but for case, is accepted by [import_csv], whatever the
    cells hold: the header reads as the columns, and
    every row binds its cells, numbers and blob references as their text. What
    is bound writes the very same document again. *)
Theorem exported_table_reads_back (cols : list string) (rows : list Row)
    (Hne : cols <> []) (Hnamed : Forall (fun c => c <> "") cols) (Hdistinct : NoDup (map to_lowercase cols)) :
  exists data, read_document (csv_document cols rows) = Ok (cols, data) /\
               map row_params data = map (fun row => map (fun name => stored (csv_cell row name)) cols) rows /\
               str_concat (map csv_line (map Text cols :: map row_params data)) = csv_document cols rows.
Proof.
  exists (map (map field_read) (map (fun row => map (csv_cell row) cols) rows)).
  assert (map row_params (map (map field_read) (map (fun row => map (csv_cell row) cols) rows)) =
          map (fun row => map (fun name => stored (csv_cell row name)) cols) rows) as Hparams.
  { rewrite !map_map. apply map_ext. intros row. rewrite row_params_read, map_map. done. }
  split; [|split; [done|]].
  - unfold read_document. rewrite csv_document_lines. unfold table_lines. rewrite parse_csv_lines.
    + cbn [map map_err rbind]. rewrite texts_read.
      assert (existsb is_empty cols = false) as ->.
      { clear -Hnamed. induction Hnamed as [|c cols Hc _ IH]; [done|]. cbn. rewrite IH. by destruct c. }
      rewrite distinct_NoDup by done. rewrite length_map, Nat.eqb_refl. cbn [negb].
      rewrite check_rows_ok; [done|]. apply Forall_forall. intros r Hr.
      apply list_elem_of_In, in_map_iff in Hr as (vs & <- & Hr). apply in_map_iff in Hr as (row & <- & _). by rewrite !length_map.
    + constructor; [by destruct cols|]. apply Forall_forall. intros r Hr.
      apply list_elem_of_In, in_map_iff in Hr as (row & <- & _). by destruct cols.
  - rewrite Hparams, csv_document_lines. unfold table_lines. cbn [map]. f_equal. f_equal. rewrite !map_map.
    apply map_ext. intros row. unfold csv_line. rewrite !map_map. do 2 f_equal. apply map_ext. intros name. apply encode_stored.
Qed.

(** ** Batches *)

Lemma chunk_rows_bounds cols :
  (0 < cols)%nat -> (1 <= chunk_rows cols <= 500)%nat /\ (Z.of_nat cols <= 20000 -> Z.of_nat (chunk_rows cols * cols) <= 20000).
Proof.
  intros Hc. unfold chunk_rows. split; [lia|]. intros Hle. rewrite Nat2Z.inj_mul, Z2Nat.id by lia.
  rewrite (Z.max_r 1 (Z.of_nat cols)) by lia.
  pose proof (Z.mul_div_le 20000 (Z.of_nat cols) ltac:(lia)).
  assert (1 <= 20000 / Z.of_nat cols) by (apply Z.div_le_lower_bound; lia). nia.
Qed.

Lemma count_params width rows :
  Forall (fun row : CsvRow => length row = width) rows -> length (rows ≫= row_params) = (length rows * width)%nat.
Proof.
  induction 1 as [|row rows Hr _ IH]; [done|]. change ((row :: rows) ≫= row_params) with (row_params row ++ (rows ≫= row_params)).
  rewrite length_app, IH. unfold row_params. rewrite length_map, Hr. cbn [length]. lia.
Qed.

Lemma read_document_widths text header data :
  read_document text = Ok (header, data) -> Forall (fun row => length row = length header) data.
Proof.
  unfold read_document. destruct (parse_csv text) as [rows|e]; cbn [map_err rbind]; [|done].
  destruct rows as [|first rows]; [done|]. destruct (existsb _ _); [done|]. destruct (negb _); [done|].
  destruct (check_rows _ 0 rows) as [[]|e] eqn:E; cbn [rbind]; [|done]. intros [= <- <-]. by eapply check_rows_widths.
Qed.

Lemma end_row_nonempty r :
  Forall (fun row => row <> []) (rd_rows r) -> Forall (fun row => row <> []) (rd_rows (end_row r)).
Proof. intros Hr. cbn. apply Forall_app. split; [done|]. constructor; [by destruct (rd_row r)|done]. Qed.

(** Every row that the reader yields has a field. *)
Lemma parse_chars_nonempty n in_quotes r cs rows :
  (length cs <= n)%nat -> Forall (fun row => row <> []) (rd_rows r) ->
  parse_chars in_quotes r cs = Ok rows -> Forall (fun row => row <> []) rows.
Proof.
  revert in_quotes r cs. induction n as [|n IH]; intros in_quotes r [|c cs] Hn Hr; cbn [length] in Hn; try lia.
  1,2: cbn [parse_chars]; destruct in_quotes; [done|]; intros [= <-]; destruct (_ || _); [by apply end_row_nonempty|done].
  pose proof (end_row_nonempty r Hr) as He. cbn [parse_chars].
  repeat (case_match; try done); subst; cbn [length] in Hn; eapply IH; try done; try lia; by cbn [length]; lia.
Qed.

Lemma read_document_header text header data : read_document text = Ok (header, data) -> (0 < length header)%nat.
Proof.
  unfold read_document, parse_csv. destruct (parse_chars _ _ _) as [rows|e] eqn:E; cbn [rbind map_err]; [|done].
  apply (parse_chars_nonempty (length (chars text))) in E; [|done|by constructor].
  destruct (is_empty text); cbn [map_err rbind]; [done|].
  destruct E as [|first rows Hf _]; [done|]. destruct (existsb _ _); [done|]. destruct (negb _); [done|].
  destruct (check_rows _ 0 rows) as [[]|e]; cbn [rbind]; [|done]. intros [= <- _]. rewrite length_map. destruct first; [done|cbn; lia].
Qed.

(** the statements of an import carry all the rows of the document, each
    once and in order, in batches of one to 500 rows that bind at most 20,000
    values (for a table of up to 20,000 columns), as many as the statement has
    place holders. *)
Theorem import_batches (text : string) (header : list string) (data : list CsvRow)
    (Hread : read_document text = Ok (header, data)) :
  let batches := chunks (chunk_rows (length header)) data in
  concat batches = data /\
  Forall (fun batch => (1 <= length batch <= 500)%nat /\
                       length (batch ≫= row_params) = (length batch * length header)%nat /\
                       (Z.of_nat (length header) <= 20000 -> zlen (batch ≫= row_params) <= 20000)) batches.
Proof.
  intros batches. pose proof (read_document_widths _ _ _ Hread) as Hw.
  destruct (chunk_rows_bounds (length header)) as [Hb Hmax]; [by eapply read_document_header|]. clear Hread.
  assert (concat batches = data) as Hcat by (apply chunks_concat; lia). split; [done|].
  pose proof (chunks_sizes (chunk_rows (length header)) data ltac:(lia)) as Hs. fold batches in Hs. rewrite <- Hcat in Hw. clear Hcat.
  induction Hs as [|b batches' Hb' Hs IH]; constructor.
  - cbn [concat] in Hw. apply Forall_app in Hw as [Hw _]. unfold zlen.
    rewrite (count_params (length header)) by done. split; [lia|]. split; [done|]. intros Hle. specialize (Hmax Hle). nia.
  - apply IH. cbn [concat] in Hw. by apply Forall_app in Hw as [_ Hw].
Qed.
End documents.

(** ** A table on paper *)

Module Sheet.

#[local] Instance plain_csv : CsvText := {| f64_display := int_to_string; to_lowercase := str_lower |}.

#[local] Instance plain_csv_laws : CsvTextLaws.
Proof.
  split; cbn; intros b.
  - eapply str_forallb_impl; [|apply int_to_string_bytes]. unfold is_float_byte. by intros c ->.
  - pose proof (int_numeric b) as H. intros E. by rewrite E in H.
Qed.

Definition cols : list string := ["id"; "na,me"; "data"].

Definition rows : list Row :=
  [mkRow 0 [("id", Integer (-7)); ("na,me", Text ("say " +:+ dq +:+ "hi" +:+ dq)); ("data", Blob [Byte.xab; Byte.x01])];
   mkRow 1 [("data", Text ""); ("id", Real 3)];
   mkRow 2 [("na,me", Text "x'00'"); ("data", BlobRef "h" 12)]].

Lemma exported_table_reads_back_witness :
  exists data, read_document (csv_document cols rows) = Ok (cols, data) /\
               map row_params data =
                 [[Text "-7"; Text ("say " +:+ dq +:+ "hi" +:+ dq); Blob [Byte.xab; Byte.x01]]; [Text "3"; Null; Text ""];
                  [Null; Text "x'00'"; Text "blobref(h, 12 bytes)"]] /\
               str_concat (map csv_line (map Text cols :: map row_params data)) = csv_document cols rows.
Proof.
  refine (exported_table_reads_back cols rows _ _ _).
  - done.
  - by repeat constructor.
  - apply (bool_decide_unpack _). by vm_compute.
Defined.

Definition short : string := "a,b" +:+ CRLF +:+ "1,2" +:+ CRLF +:+ ",x" +:+ nl.

Lemma import_batches_witness :
  let batches := chunks (chunk_rows 2) [[("1", false); ("2", false)]; [("", false); ("x", false)]] in
  concat batches = [[("1", false); ("2", false)]; [("", false); ("x", false)]] /\
  Forall (fun batch => (1 <= length batch <= 500)%nat /\
                       length (batch ≫= row_params) = (length batch * 2)%nat /\
                       (2 <= 20000 -> zlen (batch ≫= row_params) <= 20000)) batches.
Proof.
  refine (import_batches short ["a"; "b"] [[("1", false); ("2", false)]; [("", false); ("x", false)]] _).
  by vm_compute.
Defined.

(** White space after a closing quote becomes part of the field. *)
Example space_after_quote : parse_csv (dq +:+ "a" +:+ dq +:+ " ,b") = Ok [[("a ", true); ("b", false)]].
Proof. reflexivity. Qed.

Example data_after_quote : parse_csv (dq +:+ "a" +:+ dq +:+ "x,b") = Err "data after a closing quote".
Proof. reflexivity. Qed.

Example open_field : parse_csv (dq +:+ "open") = Err "unterminated quoted field".
Proof. reflexivity. Qed.

Example quoted_lines :
  parse_csv ("a,b" +:+ CRLF +:+ dq +:+ "1" +:+ CRLF +:+ "2" +:+ dq +:+ ",x" +:+ CRLF +:+ "," +:+ dq +:+ dq +:+ CRLF) =
  Ok [[("a", false); ("b", false)]; [("1" +:+ CRLF +:+ "2", true); ("x", false)]; [("", false); ("", true)]].
Proof. reflexivity. Qed.

End Sheet.
