(* ===== verification/WebApi.v ===== *)
(** * WebApi: the HTTP surface of a node

    Models the framed endpoints ([web/src/frames.rs]), the JSON API
    ([web/src/api.rs]) and the token gate and routes ([web/src/lib.rs]). A
    response is its status, headers and body; a handler is code over the
    connection that may also panic. The exchange with a remote peer, the duplex
    and stream routes and the pages compiled into the binary are interfaces.
    Proved are the gate, the framed bodies and the decision on uploads. *)

From Stdlib Require Import SpecFloat.
From S2P Require Import Prelude RustStd Collections Effect Vocab External Instances Value Envelope Frame Decode Encode Turtle Wire.
From S2P Require Import RoundTrip TurtleParse Request AuthTypes Chain Fingerprint Human Auth Authorizer NodeDb NodeSql NodeGate NodeDemo.
From S2P Require Import NodeFrames NodeProjection NodeSparql Outbox Web Csv.
From S2P Require SparqlStore.

Open Scope Z_scope.

(** ** Requests and responses *)

(** [Content-Type] and the like, by the name in lower case, with what [to_str]
    gives. *)
Definition Headers : Type := list (string * option string).

Definition header (name : string) (h : Headers) : option string :=
  List.find (fun e => bool_decide (fst e = name)) h ≫= snd.

Inductive Method : Type := GET | HEAD | POST | PATCH | DELETE | OtherMethod.

#[export] Instance Method_eq_dec : EqDecision Method.
Proof. solve_decision. Defined.

(** A body is what arrives of it, or a failure on the way. *)
Record HttpRequest : Type := mkHttpRequest {
  hq_method : Method;
  hq_path : string;
  hq_peer : option string;
  hq_limit : option Z;
  hq_offset : option Z;
  hq_base : option string;
  hq_headers : Headers;
  hq_body : option (list Byte.byte)
}.

Inductive Body : Type :=
| BJson (j : Json)
| BText (s : string)
| BBytes (bytes : list Byte.byte)
| BPage (name : string).

Record Response : Type := mkResponse {
  rs_status : Z;
  rs_headers : list (string * string);
  rs_body : Body
}.

(** [axum::body::to_bytes]. *)
Definition to_bytes (body : option (list Byte.byte)) (max : Z) : option (list Byte.byte) :=
  match body with
  | Some bytes => if zlen bytes <=? max then Some bytes else None
  | None => None
  end.

(** The media type before the parameters, trimmed. *)
Definition media_type (h : Headers) : option string :=
  (fun v => trim (match split_once ";"%char v with Some (first, _) => first | None => v end)) <$> header "content-type" h.

Definition is_media_type (expected : string) (h : Headers) : bool :=
  match media_type h with
  | Some v => bool_decide (str_lower v = expected)
  | None => false
  end.

(** The JSON of a body and the text of a failure to read one as a given type,
    the [Display] of a triple, the decoding of a path segment, and the text of an
    error of [answer_inbox]. *)
Class HttpText : Type := {
  json_from_slice : list Byte.byte -> result string Json;
  shape_error : string -> Json -> string;
  triple_text : Triple -> string;
  segment : string -> option string;
  answer_error_text : msg -> string
}.

(** ** [frames.rs] *)

Section frames.
Context `{HS : !OxDisplay} `{HF64 : !F64Text} `{HB : !Base64} `{HP : !TurtleParser} `{HF : !FrameText}.

Definition FRAMES_CONTENT_TYPE : string := "application/rsntr-frames".

Definition frames_error (status : Z) (code reason : string) (id : option string) : Response :=
  let wire_code := if bool_decide (code ∈ ["not-found"; "conflict"; "bad-request"; "unauthorized"])
                   then "protocol-error" else code in
  let body := match encode_envelope (OError (mkErrorEnvelope id wire_code (Some reason))) [] with
              | (Ok _, buf) => buf
              | (Err _, _) => []
              end in
  mkResponse status [("Content-Type", FRAMES_CONTENT_TYPE); ("Cache-Control", "no-store")] (BBytes body).

(** [eq_ignore_ascii_case] with a name in lower case. *)
Definition is_frames_content_type : Headers -> bool := is_media_type FRAMES_CONTENT_TYPE.

(** The loop over the buffer; each turn takes a frame off it, so its length and
    one is enough fuel. *)
Fixpoint decode_frames (fuel : nat) (buf : list Byte.byte) (frames : list EnvelopeObject) :
    result Response (list EnvelopeObject) :=
  match fuel with
  | O => Ok frames
  | S fuel =>
      match decode_frame_eof buf with
      | (Ok None, _) => Ok frames
      | (Ok (Some doc), buf) =>
          match from_turtle doc with
          | Ok obj => decode_frames fuel buf (frames ++ [obj])
          | Err e => Err (frames_error 400 "protocol-error" ("frame is not a valid envelope: " +:+ protocol_error_text e) None)
          end
      | (Err (FrameTooLarge len), _) =>
          Err (frames_error 413 "limit-exceeded"
                 ("frame of " +:+ int_to_string len +:+ " bytes exceeds the " +:+ int_to_string MAX_FRAME_LEN +:+ " byte budget") None)
      | (Err e, _) => Err (frames_error 400 "protocol-error" ("malformed frame stream: " +:+ protocol_error_text e) None)
      end
  end.

Definition decode_frames_body (h : Headers) (body : option (list Byte.byte)) (max : Z) :
    result Response (list EnvelopeObject) :=
  if negb (is_frames_content_type h) then
    Err (frames_error 415 "protocol-error" ("expected Content-Type " +:+ FRAMES_CONTENT_TYPE) None)
  else match to_bytes body max with
       | None => Err (frames_error 413 "limit-exceeded" "request body exceeds the budget" None)
       | Some bytes => decode_frames (S (length bytes)) bytes []
       end.

Definition read_one_frame (h : Headers) (body : option (list Byte.byte)) : result Response EnvelopeObject :=
  let? frames := decode_frames_body h body (4 + MAX_FRAME_LEN) in
  match frames with
  | [obj] => Ok obj
  | _ => Err (frames_error 400 "protocol-error" "the body must carry exactly one framed request" None)
  end.

Definition first_frame_status (piece : Piece) : Z :=
  match piece with
  | PFrame (ODenied _) => 403
  | PFrame (OError e) => error_status (er_code e)
  | _ => 200
  end.

Definition encode_piece (piece : Piece) : option (list Byte.byte) :=
  match piece with
  | PFrame obj => match encode_envelope obj [] with
                  | (Ok _, buf) => Some buf
                  | (Err _, _) => None
                  end
  | PRaw bytes => Some bytes
  end.

(** The body as far as the pieces encode. *)
Fixpoint body_from_pieces (pieces : list Piece) : list Byte.byte :=
  match pieces with
  | [] => []
  | piece :: rest => match encode_piece piece with
                     | Some bytes => bytes ++ body_from_pieces rest
                     | None => []
                     end
  end.

Definition respond_with_pieces (pieces : list Piece) : Response :=
  mkResponse (match pieces with first :: _ => first_frame_status first | [] => 200 end)
    [("Content-Type", FRAMES_CONTENT_TYPE); ("Cache-Control", "no-store"); ("X-Accel-Buffering", "no")]
    (BBytes (body_from_pieces pieces)).

(** [Display] of what [PeerId::from_str] refuses. *)
Fixpoint bad_pair (s : string) : string :=
  match s with
  | String a (String b s') => if radix_pair a b is Some _ then bad_pair s' else tag_debug (String a (String b ""))
  | _ => ""
  end.
Definition peer_id_error (s : string) : string :=
  "invalid peer id: " +:+
  (if negb (str_len s =? 64)%nat || negb (str_forallb is_ascii s) then "expected 64 hex chars, got " +:+ tag_debug s
   else "non-hex characters in " +:+ bad_pair s).

Definition parse_peer (peer : option string) : result Response (option (list Byte.byte)) :=
  match peer with
  | None => Ok None
  | Some s => match PeerId_from_str s with
              | Some id => Ok (Some id)
              | None => Err (frames_error 400 "protocol-error" ("invalid peer parameter: " +:+ peer_id_error s) None)
              end
  end.
End frames.

(** The exchanges that are not the node's own pipeline: a peer dialed over the
    network, and the two kinds of audio duplex. *)
Class WebNet (D : Type) : Type := {
  spawn_remote : list Byte.byte -> EnvelopeObject -> bool -> NConn D -> result Response (list Piece) * NConn D;
  spawn_duplex : option (list Byte.byte) -> EnvelopeObject -> NConn D -> result Response (list Piece) * NConn D
}.

(** [WebState]: the node's own id, as text and as a peer, and the token. *)
Record WebState : Type := mkWebState {
  ws_node_id : string;
  ws_owner : list Byte.byte;
  ws_token : string
}.

(** A handler may panic: [None] is no response. *)
Definition Outcome : Type := option Response.

Section api.
Context {D : Type} `{HS : !OxDisplay} `{HF64 : !F64Text} `{HB : !Base64} `{HP : !TurtleParser} `{HF : !FrameText}.
Context `{HL : !LocalNode D} `{HN : !WebNet D} `{HU : !UlidLib} `{HR : !RowIds} `{HJ : !JsonRows} `{HW : !HttpText} `{HC : !CsvText}.

Definition Handler : Type := NConn D -> Outcome * NConn D.

(** ** [api.rs]: JSON *)

Definition jint (z : Z) : Json := JNumber (Some z) (Some (f64_of_i64 z)).
Definition jopt {A} (f : A -> Json) (o : option A) : Json := match o with Some a => f a | None => JNull end.

Definition value_to_json (v : Value) : Json :=
  match v with
  | Null => JNull
  | Integer i => jint i
  | Real f => if is_finite f then JNumber None (Some f) else JString (f64_display f)
  | Text t => JString t
  | Blob b => JObject [("blob_hex", JString (hex b))]
  | BlobRef hash bytes => JObject [("blobref", JObject [("hash", JString hash); ("bytes", jint bytes)])]
  end.

(** [&hex[i..i + 2]] and [from_str_radix] for each pair; a pair that ends inside
    a character panics. *)
Fixpoint blob_pairs (s : string) : option (option (list Byte.byte)) :=
  match s with
  | String a (String b s') =>
      if head_cont s' then None
      else match radix_pair a b with
           | None => Some None
           | Some z => match blob_pairs s' with
                       | Some (Some bytes) => Some (Some (u8 z :: bytes))
                       | other => other
                       end
           end
  | _ => Some (Some [])
  end.

Definition json_to_value (j : Json) : option (result ApiFailure Value) :=
  match j with
  | JNull => Some (Ok Null)
  | JNumber (Some i) _ => Some (Ok (Integer i))
  | JNumber None (Some f) => Some (Ok (Real f))
  | JNumber None None => Some (Err (bad_request ("unbindable number " +:+ json_show j)))
  | JString s => Some (Ok (Text s))
  | JObject o =>
      match json_get "blob_hex" o with
      | Some (JString hex) =>
          if negb (str_even hex) then Some (Err (bad_request "blob_hex has odd length"))
          else match blob_pairs hex with
               | None => None
               | Some None => Some (Err (bad_request "blob_hex is not hex"))
               | Some (Some bytes) => Some (Ok (Blob bytes))
               end
      | _ => Some (Err (bad_request ("objects bind only as {" +:+ dq +:+ "blob_hex" +:+ dq +:+ ": " +:+ dq +:+ "..." +:+ dq +:+ "}")))
      end
  | JBool _ | JArray _ => Some (Err (bad_request ("JSON value " +:+ json_show j +:+ " cannot bind as an engine value")))
  end.

(** A loop of conversions with [?]: [None] is a panic. *)
Fixpoint bind_all {A} (f : A -> option (result ApiFailure Value)) (l : list A) : option (result ApiFailure (list Value)) :=
  match l with
  | [] => Some (Ok [])
  | a :: l' => match f a with
               | None => None
               | Some (Err e) => Some (Err e)
               | Some (Ok v) => rmap (cons v) <$> bind_all f l'
               end
  end.

(** A cell by its column; NULLs are not on the wire. *)
Definition cell_json (row : Row) (name : string) : Json :=
  match List.find (fun cell => bool_decide (fst cell = name)) (Envelope.row_cells row) with
  | Some (_, v) => value_to_json v
  | None => JNull
  end.

Definition row_to_json (columns : list string) (row : Row) : Json := JArray (map (cell_json row) columns).

Definition json_response (status : Z) (body : Json) : Response :=
  mkResponse status [("Content-Type", "application/json"); ("Cache-Control", "no-store")] (BJson body).
Definition ok_json : Json -> Response := json_response 200.

Definition failure_response (f : ApiFailure) (id : option string) : Response :=
  let body := match f with
              | ApiDenied reason => [("ok", JBool false); ("denied", jopt JString reason)]
              | ApiError code reason =>
                  [("ok", JBool false); ("error", JObject [("code", JString code); ("reason", JString reason)])]
              end in
  json_response (status f) (JObject (body ++ match id with Some id => [("id", JString id)] | None => [] end)).

Definition into_status (r : Response) (status : Z) : Response := mkResponse status (rs_headers r) (rs_body r).

Definition too_large : Response :=
  json_response 413 (JObject [("ok", JBool false);
                              ("error", JObject [("code", JString "limit-exceeded"); ("reason", JString "body too large")])]).

Definition unsupported (expected : string) : Response :=
  into_status (failure_response (bad_request ("expected Content-Type " +:+ expected)) None) 415.

Definition MAX_JSON_BODY : Z := 8 * 1024 * 1024.
Definition MAX_UPLOAD_BODY : Z := 64 * 1024 * 1024.

Definition read_json_body (h : Headers) (body : option (list Byte.byte)) : result Response Json :=
  if negb (is_media_type "application/json" h) then Err (unsupported "application/json")
  else match to_bytes body MAX_JSON_BODY with
       | None => Err too_large
       | Some bytes => map_err (fun e => failure_response (bad_request ("invalid JSON body: " +:+ e)) None) (json_from_slice bytes)
       end.

(** The body of an upload of the given type, as text. *)
Definition read_upload (expected : string) (req : HttpRequest) : result Response string :=
  if negb (is_media_type expected (hq_headers req)) then Err (unsupported expected)
  else match to_bytes (hq_body req) MAX_UPLOAD_BODY with
       | None => Err too_large
       | Some bytes => match from_utf8 bytes with
                       | Some text => Ok text
                       | None => Err (failure_response (bad_request "body is not UTF-8") None)
                       end
       end.

(** Handlers answer, or run on. *)
Definition answer (r : Response) : Handler := fun conn => (Some r, conn).
Definition or_answer {A} (r : result Response A) (k : A -> Handler) : Handler :=
  match r with Ok a => k a | Err resp => answer resp end.
Definition or_fail {A} (m : Web (D:=D) A) (id : option string) (k : A -> Handler) : Handler := fun conn =>
  match m conn with
  | (Ok a, conn) => k a conn
  | (Err f, conn) => (Some (failure_response f id), conn)
  end.

Variable state : WebState.

(** [run_owner]: the id of the fresh request, and what is collected. *)
Definition run_owner (kind : RequestKind) (modulation signal : string) (params : list Value)
    (k : string -> result ApiFailure Collected -> Handler) : Handler := fun conn =>
  let '(id, conn) := new_ulid conn in
  let request := mkRequest id kind modulation signal params None RequestOptions_default in
  let '(collected, conn) := run_collect (ws_owner state) (to_envelope request) conn in
  k (id_string request) collected conn.

(** The rows of an exchange, or the failure; a graph has an unexpected shape. *)
Definition rows_or (id : string) (collected : result ApiFailure Collected)
    (k : list string -> list Row -> Done -> Handler) : Handler :=
  match collected with
  | Ok (CRows columns rows done) => k columns rows done
  | Ok (CGraph _ _) => answer (failure_response (internal "unexpected shape") (Some id))
  | Err f => answer (failure_response f (Some id))
  end.

Definition report_json (id : string) (columns : list string) (rows : list Row) (done : Done) : Json :=
  JObject [("ok", JBool true); ("id", JString id); ("columns", JArray (map JString columns));
           ("rows", JArray (map (row_to_json columns) rows)); ("row_count", jopt jint (dn_row_count done));
           ("affected_rows", jopt jint (dn_affected_rows done));
           ("last_insert_rowid", jopt jint (dn_last_insert_rowid done)); ("truncated", JBool (dn_truncated done))].

Definition no_such_table (name : string) : ApiFailure := not_found ("no such table " +:+ tag_debug name).

Definition require_table (name : string) (k : TableMeta -> Handler) : Handler :=
  or_fail (read_table_meta name) None (fun meta =>
    match meta with
    | Some meta => k meta
    | None => answer (failure_response (no_such_table name) None)
    end).

(** ** Tables *)

Definition clamp (lo hi z : Z) : Z := Z.max lo (Z.min z hi).

(** Paging shows row ids when the table has them under that name. *)
Definition has_rowids (meta : TableMeta) : bool :=
  negb (tm_without_rowid meta) && negb (existsb (fun c => eq_nocase (cm_name c) "rowid") (tm_columns meta)).

Definition page_sql (name : string) (meta : TableMeta) : string :=
  "SELECT " +:+ (if has_rowids meta then "rowid AS __rsntr_rowid, " else "") +:+
  col_list (map cm_name (tm_columns meta)) +:+ " FROM " +:+ quote_ident name +:+ " LIMIT ?1 OFFSET ?2".

Definition row_total (rows : list Row) : Z :=
  match rows with
  | row :: _ => match Envelope.row_cells row with (_, Integer n) :: _ => n | _ => 0 end
  | [] => 0
  end.

Definition column_json (c : ColumnMeta) : Json :=
  JObject [("name", JString (cm_name c)); ("decltype", jopt JString (cm_decltype c)); ("pk", JBool (cm_pk c));
           ("notnull", JBool (cm_notnull c))].

Definition table_get (name : string) (req : HttpRequest) : Handler :=
  let limit := clamp 0 1000 (default 100 (hq_limit req)) in
  let offset := Z.max (default 0 (hq_offset req)) 0 in
  require_table name (fun meta =>
    run_owner Query "sql-sqlite" ("SELECT count(*) AS n FROM " +:+ quote_ident name) [] (fun id counted =>
      rows_or id counted (fun _ counts _ =>
        run_owner Query "sql-sqlite" (page_sql name meta) [Integer limit; Integer offset] (fun id collected =>
          rows_or id collected (fun _ rows _ =>
            answer (ok_json (JObject
              [("ok", JBool true); ("table", JString name); ("columns", JArray (map column_json (tm_columns meta)));
               ("rows", JArray (map (row_to_json (map cm_name (tm_columns meta))) rows));
               ("rowids", JArray (map (fun row => if has_rowids meta then cell_json row "__rsntr_rowid" else JNull) rows));
               ("total", jint (row_total counts)); ("limit", jint limit); ("offset", jint offset)]))))))).

(** ** Rows *)

(** [serde] reads a struct from an object or from the array of its fields. *)
Definition values_body (body : Json) : option (list (string * Json)) :=
  match body with
  | JObject o => json_get "values" o ≫= as_object
  | JArray [JObject m] => Some m
  | _ => None
  end.

Definition parse_values (body : Json) : option (result ApiFailure (list (string * Value))) :=
  match values_body body with
  | None => Some (Err (bad_request ("expected {" +:+ dq +:+ "values" +:+ dq +:+ ": {...}}: " +:+ shape_error "ValuesBody" body)))
  | Some values => rmap (zip (map fst values)) <$> bind_all (fun m => json_to_value (snd m)) values
  end.

(** A conversion that may panic, or fail with a response. *)
Definition or_panic {A} (r : option (result ApiFailure A)) (k : A -> Handler) : Handler :=
  match r with
  | None => fun conn => (None, conn)
  | Some (Err f) => answer (failure_response f None)
  | Some (Ok a) => k a
  end.

Definition place (i : nat) : string := "?" +:+ int_to_string (Z.of_nat i).

Definition row_insert_sql (name : string) (columns : list string) : string :=
  "INSERT INTO " +:+ quote_ident name +:+
  match columns with
  | [] => " DEFAULT VALUES"
  | _ => " (" +:+ col_list columns +:+ ") VALUES (" +:+ RustStd.join ", " (map place (seq 1 (length columns))) +:+ ")"
  end.

Definition row_insert (name : string) (req : HttpRequest) : Handler :=
  require_table name (fun _ =>
    or_answer (read_json_body (hq_headers req) (hq_body req)) (fun body =>
      or_panic (parse_values body) (fun values =>
        run_owner Execute "sql-sqlite" (row_insert_sql name (map fst values)) (map snd values) (fun id collected =>
          rows_or id collected (fun _ _ done =>
            answer (json_response 201 (JObject [("ok", JBool true);
                                                ("last_insert_rowid", jopt jint (dn_last_insert_rowid done))]))))))).

(** Nothing affected is no such row. *)
Definition affected_answer (name : string) (rowid : Z) (id : string) (done : Done) : Handler :=
  answer (if bool_decide (dn_affected_rows done = Some 0)
          then failure_response (not_found ("no row " +:+ int_to_string rowid +:+ " in " +:+ tag_debug name)) (Some id)
          else ok_json (JObject [("ok", JBool true); ("affected_rows", jopt jint (dn_affected_rows done))])).

Definition row_update_sql (name : string) (columns : list string) : string :=
  "UPDATE " +:+ quote_ident name +:+ " SET " +:+
  RustStd.join ", " (zip_with (fun c i => quote_ident c +:+ " = " +:+ place i) columns (seq 1 (length columns))) +:+
  " WHERE rowid = " +:+ place (length columns + 1).

Definition row_update (name : string) (rowid : Z) (req : HttpRequest) : Handler :=
  require_table name (fun _ =>
    or_answer (read_json_body (hq_headers req) (hq_body req)) (fun body =>
      or_panic (parse_values body) (fun values =>
        match values with
        | [] => answer (failure_response (bad_request "no values to set") None)
        | _ =>
            run_owner Execute "sql-sqlite" (row_update_sql name (map fst values)) (map snd values ++ [Integer rowid])
              (fun id collected => rows_or id collected (fun _ _ done => affected_answer name rowid id done))
        end))).

Definition row_delete (name : string) (rowid : Z) : Handler :=
  require_table name (fun _ =>
    run_owner Execute "sql-sqlite" ("DELETE FROM " +:+ quote_ident name +:+ " WHERE rowid = ?1") [Integer rowid]
      (fun id collected => rows_or id collected (fun _ _ done => affected_answer name rowid id done))).

(** ** SQL and SPARQL *)

Definition classify_sql (sql : string) : RequestKind :=
  if bool_decide (str_lower (hd "" (split_whitespace sql)) ∈ ["select"; "with"; "values"; "explain"]) then Query else Execute.

Fixpoint classify_words (words : list string) : RequestKind :=
  match words with
  | [] => Query
  | word :: words =>
      let w := str_lower word in
      if bool_decide (w ∈ ["select"; "ask"; "construct"; "describe"]) then Query
      else if bool_decide (w ∈ ["insert"; "delete"; "load"; "clear"; "create"; "drop"; "with"; "move"; "copy"; "add"])
      then Execute
      else classify_words words
  end.
Definition classify_sparql (text : string) : RequestKind := classify_words (split_whitespace text).

Definition sql_body (body : Json) : option (string * list Json) :=
  match body with
  | JObject o =>
      match json_get "sql" o, json_get "params" o with
      | Some (JString sql), None => Some (sql, [])
      | Some (JString sql), Some (JArray params) => Some (sql, params)
      | _, _ => None
      end
  | JArray [JString sql] => Some (sql, [])
  | JArray [JString sql; JArray params] => Some (sql, params)
  | _ => None
  end.

Definition quoted (s : string) : string := dq +:+ s +:+ dq.

Definition sql (req : HttpRequest) : Handler :=
  or_answer (read_json_body (hq_headers req) (hq_body req)) (fun body =>
    match sql_body body with
    | None => answer (failure_response (bad_request ("expected {" +:+ quoted "sql" +:+ ", " +:+ quoted "params" +:+ "?}: " +:+
                                                     shape_error "SqlBody" body)) None)
    | Some (text, params) =>
        or_panic (bind_all json_to_value params) (fun params =>
          run_owner (classify_sql text) "sql-sqlite" text params (fun id collected =>
            rows_or id collected (fun columns rows done => answer (ok_json (report_json id columns rows done)))))
    end).

Definition sparql_body (body : Json) : option string :=
  match body with
  | JObject o => json_get "query" o ≫= as_str
  | JArray [JString text] => Some text
  | _ => None
  end.

Definition sparql (req : HttpRequest) : Handler :=
  or_answer (read_json_body (hq_headers req) (hq_body req)) (fun body =>
    match sparql_body body with
    | None => answer (failure_response (bad_request ("expected {" +:+ quoted "query" +:+ "}: " +:+ shape_error "SparqlBody" body)) None)
    | Some text =>
        let kind := classify_sparql text in
        run_owner kind "sparql" text [] (fun id collected =>
          answer match kind, collected with
                 | Execute, Ok (CRows _ _ done) =>
                     ok_json (JObject [("ok", JBool true); ("id", JString id); ("affected_rows", jopt jint (dn_affected_rows done))])
                 | _, Ok (CRows columns rows done) => ok_json (report_json id columns rows done)
                 | _, Ok (CGraph triples done) =>
                     ok_json (JObject [("ok", JBool true); ("id", JString id);
                                       ("triples", JArray (map (fun t => JString (triple_text t +:+ " .")) triples));
                                       ("triple_count", jopt jint (dn_row_count done)); ("truncated", JBool (dn_truncated done))])
                 | _, Err f => failure_response f (Some id)
                 end)
    end).
End api.

(** ** Turtle, CSV and the inbox *)

(** The routes that are not modelled, and the text of a database call whose job
    panicked. *)
Class WebRest (D : Type) : Type := {
  other_route : HttpRequest -> NConn D -> option Response * NConn D;
  job_panicked : string
}.

Section uploads.
Context {D : Type} `{HS : !OxDisplay} `{HF64 : !F64Text} `{HB : !Base64} `{HP : !TurtleParser} `{HF : !FrameText}.
Context `{HL : !LocalNode D} `{HN : !WebNet D} `{HU : !UlidLib} `{HR : !RowIds} `{HJ : !JsonRows} `{HW : !HttpText} `{HC : !CsvText}.
Context `{HT : !NodeText} `{HCJ : !ChainJson} `{HRD : !RdfTables D} `{HE : !SparqlStore.SqlEngine} `{HO : !SparqlStore.OxTurtle} `{HH : !SparqlStore.StoreHost}.
Context `{HPK : !ParkedJson} `{HSH : !Sha256} `{HJT : !JsonText} `{HWR : !WebRest D}.
Variables (state : WebState) (chain : Chain).
Abbreviation Handler := (@Handler D).

(** The write of the store is decided as the SPARQL lane decides one. *)
Definition load_decided (base : option string) (text : string) (decided : Decision) : Web (D:=D) Z := fun conn =>
  match decided with
  | Allow | AllowNarrowed _ =>
      let '(r, conn) := on_rdf (SparqlStore.load_turtle text base) conn in
      (match r with
       | Ok n => Ok n
       | Err (SparqlStore.SMsg m) => Err (ApiError "engine-error" m)
       | Err SparqlStore.SPanic => Err (internal job_panicked)
       end, conn)
  | Deny reason => (Err (ApiDenied (Some reason)), conn)
  | Escalate => (Err (ApiDenied (Some not_decided)), conn)
  end.

(** A job on the database. *)
Definition on_database {A} (job : Web (D:=D) A) : Web (D:=D) A := fun conn =>
  match db_call conn with
  | Err e => (Err (internal e), conn)
  | Ok _ => job conn
  end.

Definition turtle_job (id text : string) (base : option string) : Web (D:=D) Z := fun conn =>
  let footprint := sparql_footprint Write in
  let '(decided, duration, conn) := timed_decide chain (ws_node_id state) "write" footprint "rdf_load_turtle" conn in
  let '(decision, reason) := sparql_decision_str (dc_decision decided) in
  let '(_, conn) := audit_full (ws_node_id state) id "rdf_load_turtle" (footprint_to_json footprint) decision
                      (dc_decided_by decided) reason duration conn in
  load_decided base text (dc_decision decided) conn.

Definition turtle (req : HttpRequest) : Handler :=
  or_answer (read_upload "text/turtle" req) (fun text conn =>
    let '(id, conn) := new_ulid conn in
    let id := ulid_to_string id in
    or_fail (on_database (turtle_job id text (hq_base req))) (Some id) (fun count =>
      answer (ok_json (JObject [("ok", JBool true); ("triple_count", jint count)]))) conn).

Definition csv_get (name : string) : Handler :=
  or_fail (export_csv (ws_node_id state) name) None (fun doc =>
    answer (mkResponse 200
      [("Content-Type", "text/csv; charset=utf-8");
       ("Content-Disposition", "attachment; filename=" +:+ dq +:+
                               str_map (fun c => if bool_decide (c = DQ) then "" else char_str c) name +:+ ".csv" +:+ dq);
       ("Cache-Control", "no-store")] (BText doc))).

Definition csv_post (name : string) (req : HttpRequest) : Handler :=
  or_answer (read_upload "text/csv" req) (fun text =>
    or_fail (import_csv (ws_node_id state) name text true) None (fun report =>
      answer (ok_json (JObject [("ok", JBool true); ("table", JString (ir_table report)); ("created", JBool (ir_created report));
                                ("rows_inserted", jint (ir_rows_inserted report))])))).

(** [str::split(p).nth(1)]: the text after the first [p], up to the next. *)
Fixpoint before (p s : string) : string :=
  match s with
  | EmptyString => EmptyString
  | String c s' => if starts_with p s then EmptyString else String c (before p s')
  end.
Fixpoint after (p s : string) : option string :=
  match RustStd.strip_prefix p s with
  | Some rest => Some rest
  | None => match s with EmptyString => None | String _ s' => after p s' end
  end.

Definition summarize_request (action sql : string) : string :=
  if bool_decide (action = "mod-install") then
    match (rest ← before "rsntr:name" <$> after "rsntr:name" sql;
           '(_, rest) ← split_once DQ rest;
           fst <$> split_once DQ rest) with
    | Some name => (if str_contains "ModRemove" sql then "remove the mod" else "install the mod") +:+ " " +:+ tag_debug name
    | None => "install a mod"
    end
  else
    let one_line := RustStd.join " " (split_whitespace sql) in
    let head := str_concat (firstn 90 (chars one_line)) in
    if (str_len head <? str_len one_line)%nat then head +:+ "..." else head.

Definition inbox_row_json (row : InboxRow) : Json :=
  if is_empty (in_sql row) then
    JObject [("request_id", JString (in_request_id row)); ("peer", JString (in_peer row)); ("kind", JString "knock");
             ("action", JString "knock"); ("summary", JString (default (in_params row) (RustStd.strip_prefix "knock: " (in_params row))));
             ("received_at", JString (in_received_at row))]
  else
    let action := default "request" (p ← json_value (in_params row); o ← as_object p; a ← json_get "action" o; as_str a) in
    JObject [("request_id", JString (in_request_id row)); ("peer", JString (in_peer row)); ("kind", JString "request");
             ("action", JString action); ("summary", JString (summarize_request action (in_sql row)));
             ("received_at", JString (in_received_at row))].

(** [ORDER BY received_at, request_id]. *)
Definition inbox_le (a b : InboxRow) : Prop :=
  String.le (in_received_at a) (in_received_at b) /\
  (in_received_at a = in_received_at b -> String.le (in_request_id a) (in_request_id b)).
#[export] Instance inbox_le_dec a b : base.Decision (inbox_le a b).
Proof. unfold inbox_le. apply _. Defined.

Definition is_pending (row : InboxRow) : bool := bool_decide (in_decision row = None).

Definition pending_inbox : Web (D:=D) (list InboxRow) :=
  emap_err (fun e => internal (se_text e))
    (nquery (fun d => let? rows := nneed "_inbox" (db_inbox (nd_auth d)) in
                      Ok (merge_sort inbox_le (base.filter is_pending rows)))).

Definition inbox_list : Handler :=
  or_fail (on_database pending_inbox) None (fun rows =>
    answer (ok_json (JObject [("ok", JBool true); ("inbox", JArray (map inbox_row_json rows))]))).

Record InboxAnswerBody : Type := mkInboxAnswerBody {
  ib_request_id : string;
  ib_allow : bool;
  ib_remember : bool;
  ib_grants : list string
}.

(** A field of a struct; absent, it has its default if it has one. *)
Definition field {A} (o : list (string * Json)) (name : string) (read : Json -> option A) (absent : option A) : option A :=
  match json_get name o with Some j => read j | None => absent end.

Definition strings (j : Json) : option (list string) := as_array j ≫= mapM as_str.

Definition inbox_answer_body (body : Json) : option InboxAnswerBody :=
  let fields := match body with
                | JObject o => Some o
                | JArray items => if (length items <=? 4)%nat
                                  then Some (zip ["request_id"; "allow"; "remember"; "grants"] items) else None
                | _ => None
                end in
  o ← fields;
  id ← field o "request_id" as_str None;
  allow ← field o "allow" as_bool None;
  remember ← field o "remember" as_bool (Some false);
  grants ← field o "grants" strings (Some []);
  Some (mkInboxAnswerBody id allow remember grants).

Definition inbox_answer (req : HttpRequest) : Handler :=
  or_answer (read_json_body (hq_headers req) (hq_body req)) (fun body =>
    match inbox_answer_body body with
    | None =>
        answer (failure_response (bad_request ("expected {" +:+ quoted "request_id" +:+ ", " +:+ quoted "allow" +:+ ", " +:+
          quoted "remember" +:+ "?, " +:+ quoted "grants" +:+ "?}: " +:+ shape_error "InboxAnswerBody" body)) None)
    | Some a =>
        or_fail (on_database (emap_err (fun e => bad_request (answer_error_text e))
                   (on_auth (Human.answer_inbox (ib_request_id a) (ib_allow a) (ib_remember a) (ib_grants a))))) None
          (fun ans => answer (ok_json (JObject
             [("ok", JBool true); ("peer", JString (ia_peer ans)); ("knock", JBool (ia_knock ans));
              ("remembered", JArray (map JString (ia_remembered ans))); ("granted", JArray (map JString (ia_granted ans)))])))
    end).

(** ** [frames.rs]: requests and entrainments *)

Definition fresh_id : NConn D -> string * NConn D := fun conn =>
  let '(id, conn) := new_ulid conn in (ulid_to_string id, conn).

(** A ULID in its canonical text, or a fresh one. *)
Definition normalize_statement_id (id : string) (conn : NConn D) : string * NConn D :=
  match ulid_from_string id with
  | Ok u => (ulid_to_string u, conn)
  | Err _ => fresh_id conn
  end.

Definition with_id (st : Statement) (id : string) : Statement :=
  mkStatement id (st_modulation st) (st_signal st) (st_params st) (st_database st) (st_row_limit st) (st_byte_limit st)
    (st_timeout_ms st).

(** The envelope that goes on, or what is answered. *)
Definition normalized (peer : option (list Byte.byte)) (obj : EnvelopeObject) (conn : NConn D) :
    result Response EnvelopeObject * NConn D :=
  match obj with
  | OQuery st => let '(id, conn) := normalize_statement_id (st_id st) conn in (Ok (OQuery (with_id st id)), conn)
  | OExecute st => let '(id, conn) := normalize_statement_id (st_id st) conn in (Ok (OExecute (with_id st id)), conn)
  | OKnock k =>
      match peer with
      | None => (Err (frames_error 400 "protocol-error" "a knock introduces this node to a peer; it needs ?peer=" None), conn)
      | Some _ =>
          let '(id, conn) := match kn_id k with
                             | Some id => normalize_statement_id id conn
                             | None => fresh_id conn
                             end in
          (Ok (OKnock (mkKnock (Some id) (kn_message k))), conn)
      end
  | other =>
      (Err (frames_error 400 "protocol-error"
              ("/request carries rsntr:Query, rsntr:Execute, or rsntr:Knock only, got " +:+ frame_debug other) None), conn)
  end.

Definition is_duplex (obj : EnvelopeObject) : bool :=
  match obj with OQuery st => mod_matches "audio-duplex" (st_modulation st) | _ => false end.

Definition respond (r : result Response (list Piece)) : Outcome :=
  Some (match r with Ok pieces => respond_with_pieces pieces | Err resp => resp end).

Definition run_here (envelope : EnvelopeObject) (conn : NConn D) : result Response (list Piece) * NConn D :=
  let '(pieces, conn) := spawn_local (ws_owner state) envelope conn in (Ok pieces, conn).

Definition request (req : HttpRequest) : Handler :=
  or_answer (parse_peer (hq_peer req)) (fun peer =>
    or_answer (read_one_frame (hq_headers req) (hq_body req)) (fun obj conn =>
      let '(envelope, conn) := normalized peer obj conn in
      or_answer envelope (fun envelope conn =>
        let '(r, conn) := match peer, is_duplex envelope with
                          | None, false => run_here envelope conn
                          | Some peer, false => spawn_remote peer envelope true conn
                          | peer, true => spawn_duplex peer envelope conn
                          end in
        (respond r, conn)) conn)).

Definition entrain (req : HttpRequest) : Handler :=
  or_answer (parse_peer (hq_peer req)) (fun peer =>
    or_answer (read_one_frame (hq_headers req) (hq_body req)) (fun envelope =>
      match envelope with
      | OEntrain _ => fun conn =>
          let '(r, conn) := match peer with
                            | None => run_here envelope conn
                            | Some peer => spawn_remote peer envelope false conn
                            end in
          (respond r, conn)
      | _ => answer (frames_error 400 "protocol-error" "/entrain carries one rsntr:Entrain frame" None)
      end)).

(** ** [lib.rs]: the gate and the routes *)

(** The bytes compared without an early exit. *)
Definition ct_eq (a b : list Byte.byte) : bool :=
  if negb (length a =? length b)%nat then false
  else foldl (fun acc '(x, y) => Z.lor acc (Z.lxor (u8_val x) (u8_val y))) 0 (zip a b) =? 0.

Fixpoint split_on (c : ascii) (s : string) : list string :=
  match s with
  | EmptyString => [EmptyString]
  | String d s' =>
      if bool_decide (d = c) then EmptyString :: split_on c s'
      else match split_on c s' with
           | first :: rest => String d first :: rest
           | [] => [String d EmptyString]
           end
  end.

Definition cookie_token (cookies : string) : option string :=
  head (omap (fun pair => trim <$> RustStd.strip_prefix "rsntr_token=" (trim pair)) (split_on ";"%char cookies)).

Definition request_token (req : HttpRequest) : option string :=
  match header "authorization" (hq_headers req) ≫= RustStd.strip_prefix "Bearer " with
  | Some token => Some (trim token)
  | None => header "cookie" (hq_headers req) ≫= cookie_token
  end.

Definition authed (req : HttpRequest) : bool :=
  match request_token req with
  | Some t => ct_eq (as_bytes t) (as_bytes (ws_token state))
  | None => false
  end.

(** The pages compiled in: their content type and how long they may be kept. *)
Definition pages : list (string * (string * string)) :=
  [("/manifest.webmanifest", ("application/manifest+json", "public, max-age=3600"));
   ("/sw.js", ("text/javascript; charset=utf-8", "no-cache"));
   ("/icon-192.png", ("image/png", "public, max-age=86400"));
   ("/icon-512.png", ("image/png", "public, max-age=86400"));
   ("/icon-maskable-512.png", ("image/png", "public, max-age=86400"));
   ("/apple-touch-icon.png", ("image/png", "public, max-age=86400"));
   ("/favicon.ico", ("image/png", "public, max-age=86400"))].

Definition public_path (path : string) : bool :=
  starts_with "/o/" path || bool_decide (path = "/") || existsb (fun p => bool_decide (path = fst p)) pages.

Definition reads (req : HttpRequest) : bool := bool_decide (hq_method req = GET \/ hq_method req = HEAD).

Definition exempt (req : HttpRequest) : bool := public_path (hq_path req) && reads req.

Definition token_cookie : string :=
  "rsntr_token=" +:+ ws_token state +:+ "; Path=/; HttpOnly; SameSite=Strict; Max-Age=31536000".

(** What an HTTP header takes: visible ASCII, spaces and tabs. *)
Definition header_ok (s : string) : bool := str_forallb (fun c => RustStd.in_range 32 126 c || bool_decide (c = "009"%char)) s.

Definition ui (req : HttpRequest) : Response :=
  mkResponse 200 ([("Content-Type", "text/html; charset=utf-8"); ("Cache-Control", "no-store")] ++
                  (if authed req && header_ok token_cookie then [("Set-Cookie", token_cookie)] else []))
    (BPage "index.html").

Definition session : Response := mkResponse 204 [("Set-Cookie", token_cookie); ("Cache-Control", "no-store")] (BText "").

Definition page (path : string) (form : string * string) : Response :=
  mkResponse 200 [("Content-Type", fst form); ("Cache-Control", snd form)]
    (BPage (if bool_decide (path = "/favicon.ico") then "/icon-192.png" else path)).

Definition json_error (code reason : string) : Body :=
  BText ("{" +:+ quoted "ok" +:+ ":false," +:+ quoted "error" +:+ ":{" +:+ quoted "code" +:+ ":" +:+ quoted code +:+ "," +:+
         quoted "reason" +:+ ":" +:+ quoted reason +:+ "}}").

Definition not_found_page : Response :=
  mkResponse 404 [("Content-Type", "application/json"); ("Cache-Control", "no-store")] (json_error "not-found" "unknown route").

Definition unauthorized : Response :=
  mkResponse 401 [("Content-Type", "application/json"); ("Cache-Control", "no-store")]
    (json_error "unauthorized" "missing or invalid token").

(** The shell and the pages. *)
Definition public_page (req : HttpRequest) : option Response :=
  if bool_decide (hq_path req = "/") then Some (ui req)
  else match RustStd.strip_prefix "/o/" (hq_path req) with
       | Some rest => Some (if is_empty rest then not_found_page else ui req)
       | None => page (hq_path req) <$> (snd <$> List.find (fun p => bool_decide (hq_path req = fst p)) pages)
       end.

(** A path whose segment does not
    decode, or another method, is answered by the router. *)
Definition api_route (req : HttpRequest) : Handler :=
  let other := other_route req in
  let named s (k : string -> Handler) := match segment s with Some name => k name | None => other end in
  let numbered s (k : Z -> Handler) := match parse_i64 s with Ok z => k z | Err _ => other end in
  match hq_method req, split_on "/"%char (hq_path req) with
  | POST, [""; "api"; "session"] => answer session
  | POST, [""; "request"] => request req
  | POST, [""; "entrain"] => entrain req
  | GET, [""; "api"; "table"; name] => named name (fun name => table_get state name req)
  | POST, [""; "api"; "table"; name; "rows"] => named name (fun name => row_insert state name req)
  | PATCH, [""; "api"; "table"; name; "rows"; rowid] =>
      named name (fun name => numbered rowid (fun rowid => row_update state name rowid req))
  | DELETE, [""; "api"; "table"; name; "rows"; rowid] =>
      named name (fun name => numbered rowid (fun rowid => row_delete state name rowid))
  | GET, [""; "api"; "inbox"] => inbox_list
  | POST, [""; "api"; "inbox"; "answer"] => inbox_answer req
  | POST, [""; "api"; "sql"] => sql state req
  | POST, [""; "api"; "sparql"] => sparql state req
  | POST, [""; "api"; "turtle"] => turtle req
  | GET, [""; "api"; "csv"; name] => named name (fun name => csv_get name)
  | POST, [""; "api"; "csv"; name] => named name (fun name => csv_post name req)
  | _, _ => other
  end.

Definition dispatch (req : HttpRequest) : Handler :=
  match (if reads req then public_page req else None) with
  | Some resp => answer resp
  | None => api_route req
  end.

Definition serve (req : HttpRequest) : Handler :=
  if negb (exempt req) && negb (authed req) then answer unauthorized else dispatch req.
End uploads.

(** * the HTTP surface keeps its gate and its wire

    Without the token nothing of the node is seen or changed; the framed bodies
    are the frames of the peer protocol; a Turtle upload is subject to the
    chain. *)

(** ** The token *)

Lemma lxor_byte_zero x y : Z.lxor (u8_val x) (u8_val y) = 0 <-> x = y.
Proof.
  rewrite Z.lxor_eq_0_iff. split; [|by intros ->]. intros H.
  rewrite <- (u8_of_val (u8_val x) x), <- (u8_of_val (u8_val y) y); [by rewrite H|..];
    apply Z.mod_small, u8_val_range.
Qed.

Lemma ct_fold a b acc :
  length a = length b ->
  (foldl (fun acc '(x, y) => Z.lor acc (Z.lxor (u8_val x) (u8_val y))) acc (zip a b) = 0 <-> acc = 0 /\ a = b).
Proof.
  revert b acc. induction a as [|x a IH]; intros [|y b] acc Hl; cbn [length] in Hl; [|done|done|]; cbn [zip zip_with foldl].
  { naive_solver. }
  rewrite IH by lia. rewrite Z.lor_eq_0_iff, lxor_byte_zero. naive_solver.
Qed.

(** The comparison is equality. *)
Lemma ct_eq_spec a b : ct_eq a b = true <-> a = b.
Proof.
  unfold ct_eq. destruct (length a =? length b)%nat eqn:E; cbn [negb].
  - rewrite Z.eqb_eq, ct_fold by by apply Nat.eqb_eq. naive_solver.
  - split; [done|]. intros ->. by rewrite Nat.eqb_refl in E.
Qed.

Section gate.
Context {D : Type} `{HS : !OxDisplay} `{HF64 : !F64Text} `{HB : !Base64} `{HP : !TurtleParser} `{HF : !FrameText}.
Context `{HL : !LocalNode D} `{HN : !WebNet D} `{HU : !UlidLib} `{HR : !RowIds} `{HJ : !JsonRows} `{HW : !HttpText} `{HC : !CsvText}.
Context `{HT : !NodeText} `{HCJ : !ChainJson} `{HRD : !RdfTables D} `{HE : !SparqlStore.SqlEngine} `{HO : !SparqlStore.OxTurtle} `{HH : !SparqlStore.StoreHost}.
Context `{HPK : !ParkedJson} `{HSH : !Sha256} `{HJT : !JsonText} `{HWR : !WebRest D}.
Abbreviation serve := (serve (D:=D)).

Lemma authed_token state req :
  authed state req = true <-> exists t, request_token req = Some t /\ as_bytes t = as_bytes (ws_token state).
Proof.
  unfold authed. destruct (request_token req) as [t|]; [|naive_solver]. rewrite ct_eq_spec. naive_solver.
Qed.

(** A request for a public page is for one of the pages of the binary. *)
Lemma public_has_page state req : public_path (hq_path req) = true -> is_Some (public_page state req).
Proof.
  unfold public_path, public_page, starts_with. intros Hp. case_bool_decide as Hroot; [by eexists|].
  destruct (RustStd.strip_prefix "/o/" (hq_path req)) as [rest|]; [by eexists|].
  cbn [orb] in Hp. apply existsb_exists in Hp as (p & Hin & Hp).
  destruct (List.find _ pages) as [q|] eqn:Ef; [by eexists|]. by rewrite (List.find_none _ _ Ef p Hin) in Hp.
Qed.

Lemma unauthed_page state state' req :
  authed state req = false -> authed state' req = false -> public_page state req = public_page state' req.
Proof. intros H H'. unfold public_page, ui. by rewrite H, H'. Qed.

(** C27. a request without the token changes nothing, and its answer is the same
    on every node and in every state of its database: no handler runs for it,
    and nothing of the node or of the token shows in what it gets. *)
Theorem unauthenticated_learns_nothing (state : WebState) (chain : Chain) (req : HttpRequest)
    (Hno : authed state req = false) :
  exists resp, forall state' chain' conn, authed state' req = false -> serve state' chain' req conn = (Some resp, conn).
Proof.
  destruct (exempt req) eqn:Eex.
  - pose proof Eex as Hex. apply andb_prop in Eex as [Hpath Hreads]. destruct (public_has_page state req Hpath) as [resp Hresp].
    exists resp. intros state' chain' conn Hno'. unfold WebApi.serve, dispatch. rewrite Hex, Hreads. cbn [negb andb].
    by rewrite (unauthed_page state' state), Hresp by done.
  - exists unauthorized. intros state' chain' conn Hno'. unfold WebApi.serve. by rewrite Eex, Hno'.
Qed.

(** an upload of Turtle that the chain does not allow leaves the triple store
    as it was, and is answered as a denial. *)
Theorem turtle_needs_clearance (state : WebState) (chain : Chain) (id text : string) (base : option string)
    (conn : NConn D) (decided : Decided) (duration : Z) (conn1 : NConn D)
    (Hdec : timed_decide chain (ws_node_id state) "write" (sparql_footprint Write) "rdf_load_turtle" conn =
            (decided, duration, conn1))
    (Hno : dc_decision decided <> Allow /\ forall rewrite, dc_decision decided <> AllowNarrowed rewrite) :
  exists reason, fst (turtle_job state chain id text base conn) = Err (ApiDenied (Some reason)) /\
                 nd_user (n_db (snd (turtle_job state chain id text base conn))) = nd_user (n_db conn1).
Proof.
  unfold turtle_job. rewrite Hdec. destruct (sparql_decision_str (dc_decision decided)) as [str reason].
  destruct (audit_full _ _ _ _ _ _ _ _ conn1) as [aid conn2] eqn:Ea.
  assert (nd_user (n_db conn2) = nd_user (n_db conn1)) as Hu.
  { unfold audit_full, audit_full_dir, nsql in Ea. destruct (n_faults conn1) as [|[e|] fs]; cbn in Ea.
    2: by simplify_eq.
    all: destruct (insert_audit _ _ _) as [[z d]|e] eqn:Ei; simplify_eq; cbn; [|done].
    all: unfold insert_audit in Ei; destruct (nneed _ _) as [rows|]; cbn in Ei; [|done].
    all: destruct (ok_or _ _) as [z0|]; cbn in Ei; [|done]; by simplify_eq. }
  destruct Hno as [Ha Hn]. destruct (dc_decision decided) as [|rw|why|]; [done|by specialize (Hn rw)|..]; cbn; eauto.
Qed.
End gate.

(** ** Framed bodies *)

Section bodies.
Context `{!IriSyntax, !OxDisplay, !F64Text, !F64TextLaws, !Base64, !Base64Laws}.
Context `{!TurtleParser, !TurtleParserLaws, !FrameText}.

Definition sendable (obj : EnvelopeObject) : Prop := envelope_ok obj = true /\ text_ok obj.

Lemma encoded_frame obj dst dst' :
  sendable obj -> encode_envelope obj dst = (Ok tt, dst') ->
  exists text, dst' = dst ++ frame_bytes (as_bytes text) /\ utf8_valid text = true /\
               zlen (as_bytes text) <= MAX_FRAME_LEN /\ from_turtle text = Ok (normal obj).
Proof.
  intros [Hok Htext] Henc. destruct (envelope_ok_text obj Hok) as (text & Ht & Hrt).
  destruct (Htext text Ht) as [Hutf Hconf]. unfold encode_envelope in Henc. rewrite Ht in Henc.
  unfold encode_frame in Henc. case_match; simplify_eq.
  exists text. split; [done|]. split; [done|]. split; [lia|]. by apply Hrt.
Qed.

Lemma decode_frames_step fuel text obj rest frames :
  utf8_valid text = true -> zlen (as_bytes text) <= MAX_FRAME_LEN -> from_turtle text = Ok obj ->
  decode_frames (S fuel) (frame_bytes (as_bytes text) ++ rest) frames = decode_frames fuel rest (frames ++ [obj]).
Proof.
  intros Hutf Hlen Ht. cbn [decode_frames]. unfold decode_frame_eof.
  rewrite decode_frame_complete, from_utf8_as_bytes by done. by rewrite Ht.
Qed.

(** The frames of several objects, one after the other. *)
Lemma encode_all_pieces objs dst bytes :
  Forall sendable objs -> encode_all objs dst = Some bytes ->
  exists texts, bytes = dst ++ concat (map (fun t => frame_bytes (as_bytes t)) texts) /\
                Forall2 (fun obj text => utf8_valid text = true /\ zlen (as_bytes text) <= MAX_FRAME_LEN /\
                                         from_turtle text = Ok (normal obj)) objs texts.
Proof.
  intros Hobjs. revert dst. induction Hobjs as [|obj objs Hobj _ IH]; intros dst Henc; cbn [encode_all] in Henc.
  - injection Henc as <-. exists []. by rewrite app_nil_r.
  - destruct (encode_envelope obj dst) as [[[]|e] dst'] eqn:E; [|done].
    apply encoded_frame in E as (text & -> & Hutf & Hlen & Hrt); [|done].
    destruct (IH _ Henc) as (texts & -> & Hall). exists (text :: texts).
    cbn [map concat]. rewrite app_assoc. split; [done|]. by constructor.
Qed.

Lemma body_of_frames objs dst bytes :
  encode_all objs dst = Some bytes -> bytes = dst ++ body_from_pieces (map PFrame objs).
Proof.
  revert dst. induction objs as [|obj objs IH]; intros dst Henc; cbn [encode_all] in Henc.
  - injection Henc as <-. by rewrite app_nil_r.
  - destruct (encode_envelope obj dst) as [[[]|e] dst'] eqn:E; [|done]. apply IH in Henc as ->.
    cbn [map body_from_pieces]. unfold encode_piece, encode_envelope, encode_frame in *.
    destruct (to_turtle obj) as [text|e]; [|done].
    destruct (MAX_FRAME_LEN <? zlen (as_bytes text)); [done|]. injection E as <-. cbn [app]. by rewrite <- app_assoc.
Qed.

Lemma decode_frames_all objs texts frames fuel :
  Forall2 (fun obj text => utf8_valid text = true /\ zlen (as_bytes text) <= MAX_FRAME_LEN /\
                           from_turtle text = Ok (normal obj)) objs texts ->
  (length texts < fuel)%nat ->
  decode_frames fuel (concat (map (fun t => frame_bytes (as_bytes t)) texts)) frames = Ok (frames ++ map normal objs).
Proof.
  intros Hall. revert frames fuel. induction Hall as [|obj text objs texts (Hutf & Hlen & Hrt) Hall IH]; intros frames [|fuel] Hf;
    cbn [length] in Hf; try lia; [by rewrite app_nil_r|].
  cbn [map concat]. erewrite decode_frames_step by done. rewrite IH by lia. by rewrite <- app_assoc.
Qed.

Lemma frame_counts texts : (length texts <= length (concat (map (fun t => frame_bytes (as_bytes t)) texts)))%nat.
Proof.
  induction texts as [|t texts IH]; [done|]. cbn [map concat length]. rewrite length_app. unfold frame_bytes at 1.
  rewrite length_app, u32_le_length. lia.
Qed.

(** the body that a framed endpoint streams for a response is the wire form
    of its frames, and decodes to the frames, in order; so does the body of a
    request, in either direction the format of the peer protocol. *)
Theorem framed_body_reads_back (objs : list EnvelopeObject) (bytes : list Byte.byte) (h : Headers) (max : Z)
    (Hobjs : Forall sendable objs) (Henc : encode_all objs [] = Some bytes)
    (Htype : is_frames_content_type h = true) (Hmax : zlen bytes <= max) :
  rs_body (respond_with_pieces (map PFrame objs)) = BBytes bytes /\
  decode_frames_body h (Some bytes) max = Ok (map normal objs).
Proof.
  split; [cbn; by rewrite (body_of_frames objs [] bytes Henc)|].
  unfold decode_frames_body, to_bytes. rewrite Htype. cbn [negb]. rewrite (proj2 (Z.leb_le _ _)) by done.
  destruct (encode_all_pieces objs [] bytes Hobjs Henc) as (texts & -> & Hall). cbn [app].
  rewrite (decode_frames_all objs texts) by (done || (pose proof (frame_counts texts); lia)). done.
Qed.
End bodies.

(** ** A browser and a node *)

Module Browser.

Definition D : Type := SparqlStore.RdfDb.

#[local] Existing Instance low_ids.
#[local] Existing Instance plain_text.
#[local] Existing Instance open_json.
#[local] Existing Instance wit_sha.
#[local] Existing Instance wit_parked.
#[local] Instance only_rdf : RdfTables D := { get_rdf := fun d => d; put_rdf := fun r _ => r }.
#[local] Instance no_answers : SparqlStore.SqlEngine := {
  SparqlStore.sql_query := fun _ _ => Ok [];
  SparqlStore.random_rowid := fun _ => None;
  SparqlStore.f64_display := fun _ => ""
}.
#[local] Instance no_triples : SparqlStore.OxTurtle := {
  SparqlStore.ox_invalid_base := fun _ => None;
  SparqlStore.ox_items := fun _ _ => [];
  SparqlStore.ox_literal_destruct := fun l => (lit_value l, None, None)
}.
#[local] Instance no_files : SparqlStore.StoreHost := {
  SparqlStore.regex_is_match := fun _ _ => Ok false;
  SparqlStore.read_to_string := fun _ => None;
  SparqlStore.rusqlite_invalid_type := ""
}.
#[local] Instance plain_display : OxDisplay := { show_named := id; show_node := fun _ => "node"; show_term := fun _ => "term" }.
#[local] Instance plain_frames : FrameText := {
  frame_debug := fun _ => "Frame";
  tag_debug := id;
  protocol_error_text := fun _ => "protocol error"
}.
#[local] Instance plain_json : JsonText := { json_value := fun _ => None; json_strings := fun _ => None }.
#[local] Instance plain_rows : JsonRows := { json_array := fun _ => Ok []; json_show := fun _ => "json"; f64_of_i64 := id }.
#[local] Instance plain_csv : CsvText := { f64_display := int_to_string; to_lowercase := str_lower }.
#[local] Instance plain_http : HttpText := {
  json_from_slice := fun _ => Ok JNull;
  shape_error := fun _ _ => "shape";
  triple_text := fun _ => "triple";
  segment := Some;
  answer_error_text := fun _ => "error"
}.
#[local] Instance quiet_node : LocalNode D := {
  spawn_local := fun _ _ conn => ([], conn);
  db_call := fun _ => Ok tt;
  master_sql := fun _ _ => Ok None;
  table_info := fun _ _ => Ok [];
  execute := fun _ conn => (Ok 0, conn);
  new_ulid := fun conn => (replicate 16 Byte.x00, conn)
}.
#[local] Instance no_net : WebNet D := {
  spawn_remote := fun _ _ _ conn => (Ok [], conn);
  spawn_duplex := fun _ _ conn => (Ok [], conn)
}.
#[local] Instance no_rest : WebRest D := { other_route := fun _ conn => (None, conn); job_panicked := "panicked" }.

Definition state : WebState := mkWebState "00" [] "secret".
Definition other_state : WebState := mkWebState "11" [] "sesame".

(** A guess at the token, with a statement that would empty a table. *)
Definition guess : HttpRequest :=
  mkHttpRequest POST "/api/sql" None None None None [("authorization", Some "Bearer Secret"); ("content-type", Some "application/json")]
    (Some []).

Definition conn : NConn D :=
  mkNConn (mkNodeDb (mkDb (Some ∅) (Some []) (Some ∅) (Some []) (Some ∅) None) (Some []) (Some ∅) (Some ∅) (Some ∅) no_surface
             (SparqlStore.mkRdfDb None None)) None [] 0 (S754_zero false) [] (fun _ => 0) 0 (0, 0).

Lemma unauthenticated_learns_nothing_witness :
  authed state guess = false /\
  exists resp, forall state' chain' conn, authed state' guess = false -> serve state' chain' guess conn = (Some resp, conn).
Proof. split; [by vm_compute|]. refine (unauthenticated_learns_nothing (D:=D) state Chain_new guess _). by vm_compute. Defined.

Definition asked : Decided * Z * NConn D :=
  timed_decide Chain_new (ws_node_id state) "write" (sparql_footprint Write) "rdf_load_turtle" conn.

Lemma turtle_needs_clearance_witness :
  exists reason, fst (turtle_job state Chain_new "01" "<a> <b> <c> ." None conn) = Err (ApiDenied (Some reason)) /\
                 nd_user (n_db (snd (turtle_job state Chain_new "01" "<a> <b> <c> ." None conn))) = nd_user (n_db (snd asked)).
Proof.
  refine (turtle_needs_clearance state Chain_new "01" "<a> <b> <c> ." None conn (fst (fst asked)) (snd (fst asked)) (snd asked) _ _).
  - unfold asked. destruct (timed_decide _ _ _ _ _ _) as [[? ?] ?]. reflexivity.
  - split; [|intros rewrite_]; by vm_compute.
Defined.

Definition frames_header : Headers := [("content-type", Some "Application/rsntr-frames; v=1")].

Lemma framed_body_reads_back_witness :
  match encode_all [wit_query; wit_done] [] with
  | Some bytes => rs_body (respond_with_pieces (map PFrame [wit_query; wit_done])) = BBytes bytes /\
                  decode_frames_body frames_header (Some bytes) 100000 = Ok [normal wit_query; normal wit_done]
  | None => False
  end.
Proof.
  destruct (encode_all [wit_query; wit_done] []) as [bytes|] eqn:E; [|exfalso; revert E; vm_compute; discriminate].
  refine (framed_body_reads_back [wit_query; wit_done] bytes frames_header 100000 _ E _ _).
  - apply Forall_cons; split; [|apply Forall_cons; split; [|apply Forall_nil; exact I]].
    all: split; [vm_compute; reflexivity|]; intros text Ht; split; [|apply ref_parser_conforms].
    all: vm_compute in Ht; injection Ht as <-; vm_compute; reflexivity.
  - by vm_compute.
  - revert E. vm_compute. intros [= <-]. discriminate.
Defined.

(** A query whose first keyword touches what follows, with a literal that holds
    the name of an update, goes out as an update, which the SPARQL lane
    refuses. *)
Definition tight_query : string := "SELECT*WHERE{?s ?p " +:+ dq +:+ "to delete now" +:+ dq +:+ "}".

Example tight_query_is_refused :
  classify_sparql tight_query = Execute /\
  classified (mkRequest [] (classify_sparql tight_query) "sparql" tight_query [] None RequestOptions_default) =
    Err (Some (SBadRequest "a SPARQL query rides a rsntr:Query, not rsntr:Execute")).
Proof. split; [reflexivity|]. vm_compute. reflexivity. Qed.

(** A pair of bytes that splits a character panics: an e with an accent between
    two digits. *)
Example blob_hex_panics : json_to_value (JObject [("blob_hex", JString ("a" +:+ byte_str [0xC3; 0xA9] +:+ "a"))]) = None.
Proof. vm_compute. reflexivity. Qed.

(** A narrowed decision loads the whole upload. *)
Lemma narrowed_upload_loads text rewrite_ c :
  load_decided None text (AllowNarrowed rewrite_) c = load_decided None text Allow c.
Proof. done. Qed.

(** The summary names what a comment says. *)
Example summary_misleads :
  summarize_request "mod-install"
    ("# rsntr:name " +:+ dq +:+ "calendar" +:+ dq +:+ nl +:+ "[] a rsntr:ModInstall ; rsntr:name " +:+ dq +:+ "miner" +:+ dq +:+ " .") =
  "install the mod calendar".
Proof. vm_compute. reflexivity. Qed.
End Browser.
