(* ===== verification/NodeApps.v ===== *)
(** * NodeApps: the registry of the apps that share a node

    Models [crates/node/src/apps.rs]: registration, the refresh of the last time
    an app was seen, and the declaration of tables; and proves that a table
    belongs to one app at most. *)

From S2P Require Import Prelude RustStd Collections Effect Vocab External Instances Value Envelope CivilDate AuthTypes Chain.
From S2P Require Import Authorizer NodeDb NodeGateProps NodeFrames NodeProjection NodeDdl NodeSpec.

From Stdlib Require Import SpecFloat DecimalPos.
From Stdlib Require Import DecimalString.

Open Scope Z_scope.

Record AppInfo : Type := mkAppInfo {
  ai_id : string;
  ai_name : option string;
  ai_version : option string
}.

Record TableDecl : Type := mkTableDecl {
  td_name : string;
  td_comment : string
}.

Record AppRow : Type := mkAppRow {
  ar_app_id : string;
  ar_name : string;
  ar_version : option string;
  ar_lib_version : string;
  ar_platform : string;
  ar_tables : list string;
  ar_first_seen : string;
  ar_last_seen : string;
  ar_note : option string
}.

Definition UNCLAIMABLE : list string :=
  ["pages"; "rdf_terms"; "rdf_triples"; "chat_messages"; "chat_rooms"; "chat_members"; "chat_log_v"].

(** The build, SQLite's age of a date in seconds, the tables and views of the
    database, and the order in which an unordered query gives the apps. *)
Class AppHost (D : Type) : Type := {
  lib_version : string;
  platform : string;
  seen_age : Z -> Cell -> option Z;
  master_has : string -> NodeDb D -> bool;
  apps_scan : gmap string AppTableRow -> list (string * AppTableRow);
  apps_scan_rows t : Permutation (apps_scan t) (map_to_list t)
}.

Definition is_id_char (c : ascii) : bool := is_ascii_alphanumeric c || bool_decide (c ∈ ["."; "_"; "-"]%char).

Definition app_id_ok (id : string) : bool :=
  negb (is_empty id) && (str_len id <=? 128)%nat && negb (starts_with "_" id) && str_forallb is_id_char id.

(** [rsplit('.').next()]. *)
Fixpoint last_label (s : string) : string :=
  match split_once "."%char s with
  | Some _ => match s with String _ s' => last_label s' | EmptyString => s end
  | None => s
  end.

(** A character beyond ASCII is one underscore. *)
Definition slug_byte (c : ascii) : string :=
  if is_ascii_alphanumeric c then char_str (to_ascii_lowercase c) else if cont c then "" else "_".
Definition slug (app_id : string) : string := str_map slug_byte (last_label app_id) +:+ "_".

Section apps.
Context {D : Type} `{HA : !AppHost D} `{HW : !JsonText} `{HJ : !JsonPrint} `{HF : !FrameText}.
Implicit Types (d : NodeDb D) (conn : NConn D).
Abbreviation DM := (Eff (NConn D) NodeError).

Definition need_apps d : result SqlError (gmap string AppTableRow) := nneed "_apps" (sv_apps (nd_surface d)).

Definition validate_app_id (id : string) : DM unit :=
  if app_id_ok id then eret tt
  else ethrow (NSparql ("invalid app id " +:+ tag_debug id +:+ ": 1..=128 of [A-Za-z0-9._-], not starting with '_'")).

Definition opt_text (o : option string) : Cell := match o with Some s => SText s | None => SNull end.

Definition upsert_app (app : AppInfo) (now : string) d : result SqlError (unit * NodeDb D) :=
  let? t := need_apps d in
  let name := SText (default (ai_id app) (ai_name app)) in
  let row := match t !! ai_id app with
             | Some r => mkAppTableRow name (opt_text (ai_version app)) (SText lib_version) (SText platform) (ap_tables r)
                           (ap_first_seen r) (SText now) (ap_note r)
             | None => mkAppTableRow name (opt_text (ai_version app)) (SText lib_version) (SText platform) (SText "[]")
                         (SText now) (SText now) SNull
             end in
  Ok (tt, on_surface (set_apps (<[ai_id app := row]> t)) d).

Definition register_app (app : AppInfo) : DM unit :=
  let* _ := validate_app_id (ai_id app) in
  fun conn => run_sql (upsert_app app (rfc3339 (n_secs conn))) conn.

Definition app_age (app_id : string) (now : Z) d : result SqlError (option Z) :=
  let? t := need_apps d in
  match t !! app_id with
  | None => Ok None
  | Some r => match seen_age now (ap_last_seen r) with
              | Some age => Ok (Some age)
              | None => Err (sql_failure "Invalid column type")
              end
  end.

Definition update_app (app_id : string) (f : AppTableRow -> AppTableRow) d : result SqlError (unit * NodeDb D) :=
  let? t := need_apps d in Ok (tt, on_surface (set_apps (alter f app_id t)) d).

Definition set_last_seen (now : string) (r : AppTableRow) : AppTableRow :=
  mkAppTableRow (ap_name r) (ap_version r) (ap_lib_version r) (ap_platform r) (ap_tables r) (ap_first_seen r) (SText now) (ap_note r).
Definition set_tables (json : string) (r : AppTableRow) : AppTableRow :=
  mkAppTableRow (ap_name r) (ap_version r) (ap_lib_version r) (ap_platform r) (SText json) (ap_first_seen r) (ap_last_seen r) (ap_note r).

Definition touch_app (app_id : string) (max_age_secs : Z) : DM bool :=
  let* stale := (fun conn => ask_sql (app_age app_id (n_secs conn)) conn) in
  match stale with
  | Some age =>
      if max_age_secs <=? age
      then let* _ := (fun conn => run_sql (update_app app_id (set_last_seen (rfc3339 (n_secs conn)))) conn) in eret true
      else eret false
  | None => eret false
  end.

(** [serde_json::from_str(..).unwrap_or_default()]. *)
Definition tables_of_json (json : string) : list string := default [] (json_strings json).

Definition read_app (entry : string * AppTableRow) : result SqlError AppRow :=
  let '(id, r) := entry in
  map_err sql_failure
    (let? tables := get_string (ap_tables r) in
     let? name := get_string (ap_name r) in
     let? version := get_opt_string (ap_version r) in
     let? lib := get_string (ap_lib_version r) in
     let? platform := get_string (ap_platform r) in
     let? first_seen := get_string (ap_first_seen r) in
     let? last_seen := get_string (ap_last_seen r) in
     let? note := get_opt_string (ap_note r) in
     Ok (mkAppRow id name version lib platform (tables_of_json tables) first_seen last_seen note)).

(** The rows of a table in the order of their text key. *)
Definition key_le {A} (a b : string * A) : Prop := String.le (fst a) (fst b).
#[export] Instance key_le_dec {A} (a b : string * A) : base.Decision (key_le a b).
Proof. unfold key_le. apply _. Defined.
Definition by_key {A} (t : gmap string A) : list (string * A) := merge_sort key_le (map_to_list t).

Definition list_apps : DM (list AppRow) :=
  ask_sql (fun d => let? t := need_apps d in traverse read_app (by_key t)).

(** The first row that names the table; a row that does not read stops. *)
Fixpoint claimant (table : string) (rows : list (string * AppTableRow)) : result SqlError (option string) :=
  match rows with
  | [] => Ok None
  | (id, r) :: rows =>
      let? tables := map_err sql_failure (get_string (ap_tables r)) in
      if existsb (fun t => bool_decide (t = table)) (tables_of_json tables) then Ok (Some id) else claimant table rows
  end.

Definition claimed_by (table : string) : DM (option string) :=
  ask_sql (fun d => let? t := need_apps d in claimant table (apps_scan t)).

Definition table_exists (table : string) : DM bool := ask_sql (fun d => Ok (master_has table d)).

(** The tables of a row, if the app is there and they read. *)
Definition owned_tables (app_id : string) d : result SqlError (list string) :=
  let? t := need_apps d in
  match t !! app_id with
  | None => Ok []
  | Some r => map_err sql_failure (rmap tables_of_json (get_string (ap_tables r)))
  end.

(** The statements of a declaration, with their parameters. *)
Inductive AppStmt : Type :=
| InsertComment (name comment : string)
| SetTables (app_id json : string).

Definition refuse {A} (text : string) : DM A := ethrow (NSparql text).

(** One turn of the loop; the statements so far and the tables owned. *)
Definition declare_one (app_id : string) (acc : list AppStmt * list string) (decl : TableDecl) : DM (list AppStmt * list string) :=
  let '(statements, owned) := acc in
  let name := td_name decl in
  if starts_with "_" name || existsb (fun t => bool_decide (t = name)) UNCLAIMABLE then
    refuse ("table " +:+ tag_debug name +:+ " is reserved; apps declare their own tables")
  else
    let* exists_ := table_exists name in
    if negb exists_ then refuse ("table " +:+ tag_debug name +:+ " does not exist; create it before declaring it")
    else
      let* by_ := claimed_by name in
      let* _ := match by_ with
      | Some other =>
          if bool_decide (other <> app_id) then refuse ("table " +:+ tag_debug name +:+ " is already declared by app " +:+ other)
          else eret tt
      | None => eret tt
      end in
      if is_empty (trim (td_comment decl)) then refuse ("table " +:+ tag_debug name +:+ " needs a comment: say what it is for")
      else eret (statements ++ [InsertComment name (trim (td_comment decl))],
                 if existsb (fun t => bool_decide (t = name)) owned then owned else owned ++ [name]).

Definition declare_statements (app_id : string) (tables : list TableDecl) : DM (list AppStmt) :=
  let* _ := validate_app_id app_id in
  let* owned := ask_sql (owned_tables app_id) in
  let* (statements, owned) := efold (declare_one app_id) ([], owned) tables in
  eret (statements ++ [SetTables app_id (json_of_strings (merge_sort String.le owned))]).

Definition run_app_stmt (_ : unit) (stmt : AppStmt) : Eff (NConn D) SqlError unit := fun conn =>
  match stmt with
  | InsertComment name comment =>
      nsql (fun d => let? t := nneed "_comments" (sv_comments (nd_surface d)) in
                     Ok (tt, match t !! name with
                             | Some _ => d
                             | None => on_surface (set_comments (<[name := mkCommentRow (SText comment) (SText (sql_now conn))]> t)) d
                             end)) conn
  | SetTables app_id json => nsql (update_app app_id (set_tables json)) conn
  end.

Definition is_registered (app_id : string) d : result SqlError bool :=
  let? t := need_apps d in Ok (bool_decide (is_Some (t !! app_id))).

(** [others]: what other connections do before the transaction takes the lock. *)
Definition declare_tables (others : NConn D -> NConn D) (app_id : string) (tables : list TableDecl) : DM unit :=
  let* registered := ask_sql (is_registered app_id) in
  if negb registered then refuse ("app " +:+ app_id +:+ " is not registered; open the node with its AppInfo first")
  else
    let* statements := declare_statements app_id tables in
    let* _ := etotal (fun conn => (tt, others conn)) in
    emap_err NDb (let* _ := begin_transaction in in_transaction (let* _ := efold run_app_stmt tt statements in commit)).
End apps.

(** ** Who owns a table *)

Section claims.
Context {D : Type} `{HA : !AppHost D} `{HW : !JsonText} `{HJ : !JsonPrint} `{HF : !FrameText}.
Implicit Types (d : NodeDb D) (conn : NConn D).
Hypothesis json_strings_print : forall l, json_strings (json_of_strings l) = Some l.

Definition row_tables (r : AppTableRow) : list string :=
  match ap_tables r with SText json => tables_of_json json | _ => [] end.

Definition claimable (name : string) : bool :=
  negb (starts_with "_" name || existsb (fun t => bool_decide (t = name)) UNCLAIMABLE).

(** No table has two apps, and none is reserved. *)
Definition claims_ok (apps : option (gmap string AppTableRow)) : Prop :=
  forall t a r x, apps = Some t -> t !! a = Some r -> x ∈ row_tables r ->
    claimable x = true /\ forall b rb, t !! b = Some rb -> x ∈ row_tables rb -> b = a.

Abbreviation apps_of d := (sv_apps (nd_surface d)).
Abbreviation never := (fun _ => False).

Lemma existsb_in (x : string) l : existsb (fun t => bool_decide (t = x)) l = true <-> x ∈ l.
Proof.
  rewrite existsb_exists. setoid_rewrite bool_decide_eq_true. rewrite list_elem_of_In. naive_solver.
Qed.

(** A row that is scanned is a row of the table, with its tables. *)
Lemma claimant_spec x rows o : claimant x rows = Ok o ->
  match o with
  | Some a => exists r, (a, r) ∈ rows /\ x ∈ row_tables r
  | None => forall a r, (a, r) ∈ rows -> x ∉ row_tables r
  end.
Proof.
  induction rows as [|[a r] rows IH]; cbn [claimant]; [intros [= <-] a r []%elem_of_nil|].
  destruct (get_string (ap_tables r)) as [json|] eqn:Ej; cbn [map_err rbind]; [|done].
  assert (row_tables r = tables_of_json json) as Hr.
  { unfold row_tables. destruct (ap_tables r); cbn in Ej; by simplify_eq. }
  destruct (existsb _ _) eqn:Ex.
  - intros [= <-]. exists r. split; [by left|]. rewrite Hr. by apply existsb_in.
  - intros Ho. specialize (IH Ho). destruct o as [b|].
    + destruct IH as (r' & Hin & Hx). exists r'. split; [by right|done].
    + intros b r' [[= -> ->]|Hin]%elem_of_cons; [|by eapply IH]. rewrite Hr. intros Hx%existsb_in. congruence.
Qed.

Lemma claimed_by_spec x c res c' :
  claimed_by x c = (res, c') ->
  quiet c c' /\ forall o, res = Ok o -> exists t, apps_of (n_db c) = Some t /\
    match o with
    | Some a => exists r, t !! a = Some r /\ x ∈ row_tables r
    | None => forall a r, t !! a = Some r -> x ∉ row_tables r
    end.
Proof.
  unfold claimed_by, ask_sql, emap_err. destruct (nquery _ c) as [[o'|e] c1] eqn:E; intros [= <- <-];
    apply nquery_cases in E as (Hq & _ & Hok); (split; [done|]); intros o [= ->].
  specialize (Hok o eq_refl). unfold need_apps, nneed, ok_or in Hok. destruct (apps_of (n_db c)) as [t|] eqn:Et; [|done].
  exists t. split; [done|]. cbn [rbind] in Hok. pose proof (claimant_spec x _ _ Hok) as Hfound. clear Hok. rename Hfound into Hok. destruct o as [a|].
  - destruct Hok as (row & Hin & Hx). exists row. split; [|done]. rewrite (apps_scan_rows t) in Hin. by apply elem_of_map_to_list in Hin.
  - intros a row Hrow. apply (Hok a row). rewrite (apps_scan_rows t). by apply elem_of_map_to_list.
Qed.

(** A name the app may add: claimable, and no other app's. *)
Definition addable (app_id x : string) d : Prop :=
  claimable x = true /\ forall t b r, apps_of d = Some t -> t !! b = Some r -> x ∈ row_tables r -> b = app_id.

Definition no_tables (stmt : AppStmt) : Prop := match stmt with InsertComment _ _ => True | SetTables _ _ => False end.

(** What a turn of the loop adds. *)
Definition declared (app_id : string) (acc acc' : list AppStmt * list string) (names : list string) d : Prop :=
  (forall x, x ∈ snd acc' <-> x ∈ snd acc \/ x ∈ names) /\ Forall (fun x => addable app_id x d) names /\
  (Forall no_tables (fst acc) -> Forall no_tables (fst acc')).

Lemma fails_quietly (c c' : NConn D) : quiet c c' ->
  n_saved c' = n_saved c /\ (n_healthy c -> n_healthy c') /\ unchanged (n_db c) (n_db c') /\ (n_healthy c -> ~ False).
Proof. intros (Hd & Hs & Hh). split_and!; try done. by intros ? []. Qed.

Lemma table_exists_quiet x c r c' : table_exists (D:=D) x c = (r, c') -> quiet c c'.
Proof.
  unfold table_exists, ask_sql, emap_err. destruct (nquery _ c) as [[o|e] c1] eqn:E; intros [= <- <-]; by apply nquery_cases in E as [Hq _].
Qed.

(** A turn that comes through, given who claims the table. *)
Lemma declared_one app_id stmts owned name comment o t d :
  claimable name = true -> apps_of d = Some t -> o = None \/ o = Some app_id ->
  match o with
  | Some a => exists r, t !! a = Some r /\ name ∈ row_tables r
  | None => forall a r, t !! a = Some r -> name ∉ row_tables r
  end ->
  claims_ok (apps_of d) ->
  declared app_id (stmts, owned)
    (stmts ++ [InsertComment name comment], if existsb (fun t => bool_decide (t = name)) owned then owned else owned ++ [name]) [name] d.
Proof.
  intros Hname Ht Ho Hcl Hok. split_and!; cbn [fst snd].
  - intros x. destruct (existsb _ owned) eqn:Eo; [|set_solver]. apply existsb_in in Eo. set_solver.
  - constructor; [|done]. split; [done|]. intros t' b rb Ht' Hb Hx. rewrite Ht in Ht'. injection Ht' as <-. destruct Ho as [-> | ->].
    + by destruct (Hcl b rb Hb).
    + destruct Hcl as (r & Hr & Hxr). destruct (Hok t app_id r name Ht Hr Hxr) as [_ Hu]. by apply (Hu b rb).
  - intros Hst. apply Forall_app. split; [done|]. by repeat constructor.
Qed.

Lemma declare_one_does app_id acc decl :
  does never (declare_one app_id acc decl)
    (fun d acc' d' => d' = d /\ (claims_ok (apps_of d) -> declared app_id acc acc' [td_name decl] d)) unchanged.
Proof.
  destruct acc as [stmts owned]. intros c r c' Hrun. unfold declare_one in Hrun.
  destruct (_ || _) eqn:Eres; [injection Hrun as <- <-; by apply fails_quietly|]. unfold ebind in Hrun.
  destruct (table_exists _ c) as [[ex|e] c1] eqn:E1; apply table_exists_quiet in E1; [|simplify_eq; by apply fails_quietly].
  destruct ex; cbn [negb] in Hrun; [|injection Hrun as <- <-; by apply fails_quietly].
  destruct (claimed_by _ c1) as [[o|e] c2] eqn:E2; apply claimed_by_spec in E2 as [Hq2 Hcl];
    (assert (quiet c c2) as Hq by (by transitivity c1)); [|simplify_eq; by apply fails_quietly].
  specialize (Hcl o eq_refl) as (t & Ht & Hcl). rewrite (proj1 E1) in Ht. destruct Hq as (Hd & Hs & Hh).
  assert (claimable (td_name decl) = true) as Hname by (unfold claimable; by rewrite Eres).
  destruct o as [other|].
  - destruct (bool_decide (other <> app_id)) eqn:Eo; [injection Hrun as <- <-; by apply fails_quietly|].
    apply bool_decide_eq_false, dec_stable in Eo as ->. cbn [eret] in Hrun.
    destruct (is_empty _); injection Hrun as <- <-; [by apply fails_quietly|]. split_and!; try done.
    intros Hok. eapply (declared_one _ _ _ _ _ (Some app_id)); [done..|by right|done|done].
  - destruct (is_empty _); injection Hrun as <- <-; [by apply fails_quietly|]. split_and!; try done.
    intros Hok. eapply (declared_one _ _ _ _ _ None); [done..|by left|done|done].
Qed.

Lemma declare_all_does app_id decls acc :
  does never (efold (declare_one app_id) acc decls)
    (fun d acc' d' => d' = d /\ (claims_ok (apps_of d) -> declared app_id acc acc' (map td_name decls) d)) unchanged.
Proof.
  revert acc. induction decls as [|decl decls IH]; intros acc c r c' Hrun; cbn [efold] in Hrun.
  - injection Hrun as <- <-. split_and!; try done. intros _. split_and!; [set_solver|by constructor|done].
  - unfold ebind in Hrun. destruct (declare_one app_id acc decl c) as [[acc1|e] c1] eqn:E1.
    2: { injection Hrun as <- <-. by apply declare_one_does in E1. }
    apply declare_one_does in E1 as (Hs1 & Hh1 & Hd1 & H1). apply IH in Hrun as (Hs & Hh & Hres). rewrite Hd1 in Hres.
    split_and!; [congruence|auto|]. destruct r as [acc2|e]; [|destruct Hres as [Hu _]; split; [done|by intros ? []]].
    destruct Hres as [Hd Hres]. split; [done|]. intros Hok. specialize (H1 Hok). specialize (Hres Hok).
    destruct H1 as (Ha1 & Hb1 & Hc1), Hres as (Ha2 & Hb2 & Hc2). cbn [map]. split_and!; [|constructor; [by inversion Hb1|done]|auto].
    intros x. rewrite Ha2, Ha1. set_solver.
Qed.

Lemma owned_tables_spec app_id (c : NConn D) res c' : ask_sql (owned_tables app_id) c = (res, c') ->
  quiet c c' /\ forall owned, res = Ok owned ->
    exists t, apps_of (n_db c) = Some t /\ owned = match t !! app_id with Some r => row_tables r | None => [] end.
Proof.
  unfold ask_sql, emap_err. destruct (nquery _ c) as [[o'|e] c1] eqn:E; intros [= <- <-];
    apply nquery_cases in E as (Hq & _ & Hok); (split; [done|]); intros o [= ->].
  specialize (Hok o eq_refl). unfold owned_tables, need_apps, nneed, ok_or in Hok. destruct (apps_of (n_db c)) as [t|]; [|done].
  exists t. split; [done|]. cbn [rbind] in Hok. destruct (t !! app_id) as [r|]; [|by injection Hok].
  unfold row_tables. destruct (ap_tables r); cbn in Hok; by simplify_eq.
Qed.

(** What a declaration makes of the apps. *)
Definition after_stmt (stmt : AppStmt) (t : gmap string AppTableRow) : gmap string AppTableRow :=
  match stmt with InsertComment _ _ => t | SetTables app_id json => alter (set_tables json) app_id t end.

Lemma run_app_stmt_does u stmt :
  does never (run_app_stmt u stmt) (fun d _ d' => apps_of d' = after_stmt stmt <$> apps_of d) (fun _ _ => True).
Proof.
  intros c r c' Hrun. destruct stmt as [name comment|app_id json]; cbn [run_app_stmt] in Hrun;
    apply nsql_cases in Hrun as [(e & -> & (Hd & Hs & Hh) & _)|(a & d & -> & Hf & Hd & Hs & Hh)]; split_and!; try done;
    try (by intros ? []); rewrite Hd.
  - destruct (nneed "_comments" _) as [t|e] eqn:Et; cbn in Hf; [|done]. injection Hf as _ <-.
    destruct (t !! name); [by rewrite option_fmap_id|]. cbn. by rewrite option_fmap_id.
  - unfold update_app, need_apps, nneed, ok_or in Hf. destruct (apps_of (n_db c)) as [t|] eqn:Et; cbn in Hf; [|done]. by injection Hf as _ <-.
Qed.

Lemma run_app_stmts_does stmts :
  does never (efold run_app_stmt tt stmts) (fun d _ d' => apps_of d' = (fun t => foldl (fun t s => after_stmt s t) t stmts) <$> apps_of d) (fun _ _ => True).
Proof.
  induction stmts as [|stmt stmts IH]; intros c r c' Hrun; cbn [efold] in Hrun.
  - injection Hrun as <- <-. split_and!; try done. by destruct (apps_of (n_db c)).
  - unfold ebind in Hrun. destruct (run_app_stmt tt stmt c) as [[[]|e] c1] eqn:E1; apply run_app_stmt_does in E1 as (Hs1 & Hh1 & H1).
    + apply IH in Hrun as (Hs & Hh & Hres). split_and!; [congruence|auto|]. destruct r as [[]|e]; [|split; [done|by intros ? []]].
      rewrite Hres, H1. by destruct (apps_of (n_db c)).
    + injection Hrun as <- <-. split_and!; try done. by intros ? [].
Qed.

Lemma foldl_no_tables stmts t : Forall no_tables stmts -> foldl (fun t s => after_stmt s t) t stmts = t.
Proof. intros Hst. induction Hst as [|[] stmts Hs _ IH]; [done|apply IH|done]. Qed.

(** The tables of the app afterwards. *)
Definition owns (app_id x : string) d : Prop :=
  exists t r, apps_of d = Some t /\ t !! app_id = Some r /\ x ∈ row_tables r.

Lemma set_tables_claims t app_id r owned :
  claims_ok (Some t) -> t !! app_id = Some r ->
  (forall x, x ∈ owned -> x ∈ row_tables r \/ claimable x = true /\ forall b rb, t !! b = Some rb -> x ∈ row_tables rb -> b = app_id) ->
  claims_ok (Some (alter (set_tables (json_of_strings (merge_sort String.le owned))) app_id t)).
Proof.
  intros Hok Hr Howned t' a ra x [= <-] Ha Hx.
  assert (forall b rb, alter (set_tables (json_of_strings (merge_sort String.le owned))) app_id t !! b = Some rb -> x ∈ row_tables rb ->
            (b = app_id /\ x ∈ owned) \/ (b <> app_id /\ exists r', t !! b = Some r' /\ x ∈ row_tables r')) as Hread.
  { intros b rb Hb Hxb. destruct (base.decide (b = app_id)) as [->|Hne].
    - left. split; [done|]. rewrite lookup_alter_eq, Hr in Hb. injection Hb as <-. unfold row_tables, set_tables, tables_of_json in Hxb.
      cbn in Hxb. rewrite json_strings_print in Hxb. cbn in Hxb. by rewrite merge_sort_Permutation in Hxb.
    - right. split; [done|]. rewrite lookup_alter_ne in Hb by done. by exists rb. }
  assert (x ∈ owned -> claimable x = true /\ forall b rb, t !! b = Some rb -> x ∈ row_tables rb -> b = app_id) as Hmine.
  { intros Hin. destruct (Howned x Hin) as [Hxr|Hadd]; [|done]. by apply (Hok t app_id r x). }
  destruct (Hread a ra Ha Hx) as [[-> Hin]|[Hne (r' & Hr' & Hx')]].
  - destruct (Hmine Hin) as [Hc Hu]. split; [done|]. intros b rb Hb Hxb.
    destruct (Hread b rb Hb Hxb) as [[-> _]|[_ (rb' & Hrb' & Hxb')]]; [done|by eapply Hu].
  - destruct (Hok t a r' x eq_refl Hr' Hx') as [Hc Hu]. split; [done|]. intros b rb Hb Hxb.
    destruct (Hread b rb Hb Hxb) as [[-> Hin]|[_ (rb' & Hrb' & Hxb')]]; [|by eapply Hu].
    exfalso. apply Hne. by eapply (proj2 (Hmine Hin)).
Qed.

(** The statements of a declaration: comments, and then the tables of the app. *)
Lemma declare_statements_does app_id tables :
  does never (declare_statements app_id tables)
    (fun d stmts d' => d' = d /\ (claims_ok (apps_of d) -> exists t owned comments, apps_of d = Some t /\
       stmts = comments ++ [SetTables app_id (json_of_strings (merge_sort String.le owned))] /\ Forall no_tables comments /\
       (forall x, x ∈ owned <-> x ∈ (match t !! app_id with Some r => row_tables r | None => [] end) \/ x ∈ map td_name tables) /\
       Forall (fun x => addable app_id x d) (map td_name tables))) unchanged.
Proof.
  intros c r c' Hrun. unfold declare_statements, validate_app_id in Hrun. unfold ebind in Hrun.
  destruct (app_id_ok app_id); [|injection Hrun as <- <-; by apply fails_quietly]. cbn [eret] in Hrun.
  destruct (ask_sql _ c) as [[owned|e] c1] eqn:E1; apply owned_tables_spec in E1 as [Hq Hown]; [|simplify_eq; by apply fails_quietly].
  specialize (Hown owned eq_refl) as (t & Ht & ->). destruct Hq as (Hd & Hs & Hh).
  destruct (efold _ _ _ c1) as [[[stmts owned]|e] c2] eqn:E2; apply declare_all_does in E2 as (Hs2 & Hh2 & Hres); rewrite Hd in Hres.
  - destruct Hres as [Hd2 Hres]. injection Hrun as <- <-. split_and!; [congruence|auto|done|]. intros Hok.
    destruct (Hres Hok) as (Hin & Hadd & Hst). exists t, owned, stmts. split_and!; [done..|by apply Hst|exact Hin|done].
  - injection Hrun as <- <-. destruct Hres as [Hu _]. split_and!; [congruence|auto|done|by intros ? []].
Qed.

(** C28. Declaring tables keeps every table with one app and none that is
    reserved with any, provided that nobody else declares tables between its
    read of the claims and its transaction. When it succeeds the app owns what
    it declared; when it fails it has changed nothing. ([raced_declarations_share]:
    two declarations that race do end up with the same table.) *)
Theorem declarations_are_exclusive (others : NConn D -> NConn D) (app_id : string) (tables : list TableDecl)
    (conn : NConn D) (r : result NodeError unit) (conn' : NConn D)
    (Hothers : forall c, apps_of (n_db (others c)) = apps_of (n_db c) /\ n_saved (others c) = n_saved c)
    (Hok : claims_ok (apps_of (n_db conn))) (Hopen : n_saved conn = None)
    (Hrun : declare_tables others app_id tables conn = (r, conn')) :
  claims_ok (apps_of (n_db conn')) /\
  match r with
  | Ok _ => Forall (fun decl => owns app_id (td_name decl) (n_db conn')) tables
  | Err _ => n_db conn' = n_db conn \/ exists c, n_db c = n_db conn /\ n_db conn' = n_db (others c)
  end.
Proof.
  unfold declare_tables, ebind at 1 in Hrun. destruct (ask_sql _ conn) as [[reg|e] c1] eqn:E1.
  2: { injection Hrun as <- <-. unfold ask_sql, emap_err in E1. destruct (nquery _ conn) as [[?|?] ?] eqn:E; simplify_eq.
       apply nquery_cases in E as ((-> & _) & _). by auto. }
  unfold ask_sql, emap_err in E1. destruct (nquery _ conn) as [[?|?] ?] eqn:E; simplify_eq.
  apply nquery_cases in E as ((Hd & Hs & Hh) & _ & Hreg). specialize (Hreg reg eq_refl).
  destruct reg; cbn [negb] in Hrun; [|injection Hrun as <- <-; rewrite Hd; by auto].
  unfold ebind at 1 in Hrun. destruct (declare_statements _ _ c1) as [[stmts|e] c2] eqn:E2;
    apply declare_statements_does in E2 as (Hs2 & _ & Hst); rewrite Hd in Hst.
  2: { injection Hrun as <- <-. destruct Hst as [Hu _]. rewrite Hu. by auto. }
  destruct Hst as [Hd2 Hst]. destruct (Hst Hok) as (t & owned & comments & Ht & -> & Hcom & Hown & Hadd).
  unfold ebind at 1, etotal in Hrun. destruct (Hothers c2) as [Ho Hos].
  unfold emap_err in Hrun. destruct ((let* _ := begin_transaction in _) (others c2)) as [res c3] eqn:E3.
  eapply (transaction_does never) in E3 as (_ & _ & Hres); [|eapply (commits_then _ _ never (fun _ _ => True) _ (fun _ d _ d' => d' = d)); [apply run_app_stmts_does|intros []; apply commits_commit|by intros d []]|congruence].
  destruct res as [[]|e]; injection Hrun as <- <-; [|destruct Hres as [-> _]; split; [by rewrite Ho, Hd2|right; by exists c2]].
  destruct Hres as ([] & d1 & H1 & Hd3). rewrite Hd3, H1, Ho, Hd2, Ht. cbn [fmap option_fmap option_map].
  rewrite foldl_app, (foldl_no_tables comments) by done. cbn [foldl after_stmt].
  unfold is_registered, need_apps, nneed, ok_or in Hreg. rewrite Ht in Hreg. cbn in Hreg. injection Hreg as Hreg.
  apply bool_decide_eq_true in Hreg as [row Hrow]. rewrite Hrow in Hown. rewrite Forall_forall in Hadd. split.
  - eapply set_tables_claims; [by rewrite <- Ht|done|]. intros x Hx. apply Hown in Hx as [Hx|Hx]; [by left|right].
    destruct (Hadd x Hx) as [Hc Hu]. split; [done|]. intros b rb Hb Hxb. by eapply Hu.
  - apply Forall_forall. intros decl Hdecl. eexists _, _. split; [by rewrite H1, Ho, Hd2, Ht|]. cbn.
    rewrite foldl_app, (foldl_no_tables comments) by done. cbn [foldl after_stmt]. rewrite lookup_alter_eq, Hrow. split; [done|].
    unfold row_tables, set_tables, tables_of_json. cbn. rewrite json_strings_print. cbn. rewrite merge_sort_Permutation.
    apply Hown. right. apply list_elem_of_In, in_map, list_elem_of_In. done.
Qed.
End claims.

(** ** Two apps *)

Module Shelf.

(** Lists of strings as numbers in decimal. *)
#[local] Instance numeral_print : JsonPrint := {
  json_of_strings := fun l => NilEmpty.string_of_uint (Pos.to_uint (encode l))
}.
#[local] Instance numeral_text : JsonText := {
  json_value := fun _ => None;
  json_strings := fun s => d ← NilEmpty.uint_of_string s; match Pos.of_uint d with N.pos p => decode p | N0 => None end
}.

Lemma numeral_law l : json_strings (json_of_strings l) = Some l.
Proof. cbn. rewrite NilEmpty.usu. cbn. rewrite DecimalPos.Unsigned.of_to. apply decode_encode. Qed.

#[local] Instance any_table : AppHost unit.
Proof.
  refine {| lib_version := "1"; platform := "linux"; seen_age := fun _ _ => Some 0; master_has := fun _ _ => true;
            apps_scan := map_to_list |}.
  done.
Defined.
#[local] Instance plain_frames : FrameText := {
  frame_debug := fun _ => "Frame";
  tag_debug := id;
  protocol_error_text := fun _ => "protocol error"
}.

Definition row (name : string) : AppTableRow :=
  mkAppTableRow (SText name) SNull (SText "1") (SText "linux") (SText "[]") (SText "then") (SText "now") SNull.

Definition conn : NConn unit :=
  mkNConn (mkNodeDb (mkDb (Some ∅) (Some []) (Some ∅) (Some []) (Some ∅) None) (Some []) (Some ∅) (Some ∅) (Some ∅)
             (set_comments ∅ (set_apps (<["org.a" := row "A"]> (<["org.b" := row "B"]> ∅)) no_surface)) tt)
    None [] 0 (S754_zero false) [] (fun _ => 0) 0 (0, 0).

Definition notes : list TableDecl := [mkTableDecl "a_notes" "what was noted"].

(** What another process may do meanwhile: write the comments. *)
Definition commenter (c : NConn unit) : NConn unit := set_db (on_surface (set_comments ∅) (n_db c)) c.

Definition ran : result NodeError unit * NConn unit := declare_tables commenter "org.a" notes conn.

Lemma declarations_are_exclusive_witness :
  fst ran = Ok tt /\ claims_ok (sv_apps (nd_surface (n_db (snd ran)))) /\
  match fst ran with
  | Ok _ => Forall (fun decl => owns "org.a" (td_name decl) (n_db (snd ran))) notes
  | Err _ => n_db (snd ran) = n_db conn \/ exists c, n_db c = n_db conn /\ n_db (snd ran) = n_db (commenter c)
  end.
Proof.
  split; [by vm_compute|].
  refine (declarations_are_exclusive numeral_law commenter "org.a" notes conn (fst ran) (snd ran) _ _ _ _); [|..|done|].
  - intros c. by split.
  - intros t a r x Ht Hr Hx. injection Ht as <-. exfalso.
    apply lookup_insert_Some in Hr as [[_ <-]|[_ Hr]]; [by apply elem_of_nil in Hx|].
    apply lookup_insert_Some in Hr as [[_ <-]|[_ Hr]]; [by apply elem_of_nil in Hx|done].
  - unfold ran. destruct (declare_tables _ _ _ _). reflexivity.
Defined.

(** The claims are read before the transaction: another process that declares in
    between ends up with the same table. *)
Definition race : result NodeError unit * NConn unit :=
  declare_tables (fun c => snd (declare_tables id "org.b" notes c)) "org.a" notes conn.

Definition tables_of (app : string) (c : NConn unit) : list string :=
  match sv_apps (nd_surface (n_db c)) with Some t => match t !! app with Some r => row_tables r | None => [] end | None => [] end.

Example raced_declarations_share :
  fst race = Ok tt /\ tables_of "org.a" (snd race) = ["a_notes"] /\ tables_of "org.b" (snd race) = ["a_notes"].
Proof. split_and!; vm_compute; reflexivity. Qed.
End Shelf.
