(* ===== verification/NodeSystem.v ===== *)
(** * NodeSystem: the node's own state as RDF

    Models [crates/node/src/system.rs] and [serve_system_lane] of [pipeline.rs]:
    the graph of the system tables that a caller may read; and proves that the
    tables a caller may not read do not show in it. *)

From S2P Require Import Prelude RustStd Collections Effect Vocab External Instances Value Envelope Encode AuthTypes Chain Policy.
From S2P Require Import Authorizer NodeDb NodeGate NodeGateProps NodeExecute NodeFrames NodeProjection NodeSparql NodeDdl NodeSpec NodeChatMsg NodeApps.

From Stdlib Require Import SpecFloat.

Open Scope Z_scope.

Definition SYSTEM_MOD : string := "system".
Definition GRAPH_SIGNAL : string := "graph".

Definition rsntr (local : string) : string := RSNTR_NS +:+ local.
Definition text (s : string) : Term := TLit (mkLiteral s XSD_STRING None).
Definition typed (s xsd_local : string) : Term := TLit (mkLiteral s (XSD_NS +:+ xsd_local) None).
Definition boolean (b : bool) : Term := typed (if b then "true" else "false") "boolean".
Definition peer_iri (hex : string) : string := "urn:rsntr:peer:" +:+ hex.
Definition node_iri (hex : string) : string := "urn:rsntr:node:" +:+ hex.

(** A triple of the node's own: named subject, predicate of the vocabulary. *)
Definition says (s local : string) (o : Term) : Triple := mkTriple (NNode s) (rsntr local) o.
Definition is_a (s local : string) : Triple := mkTriple (NNode s) RDF_TYPE (TNamed (rsntr local)).
Definition opt_says (s local : string) (f : string -> Term) (o : option string) : list Triple :=
  match o with Some v => [says s local (f v)] | None => [] end.

Record GraphSections : Type := mkGraphSections {
  gs_peers : bool;
  gs_policy : bool;
  gs_modulations : bool;
  gs_rooms : bool;
  gs_points : Z;
  gs_apps : bool
}.

(** The row ids of [_policy], by position. *)
Class PolicyIds : Type := { policy_rowid : list PolicyRow -> nat -> Z }.

Section system.
Context {D : Type} `{HR : !RowIds} `{HF : !FrameText} `{HW : !JsonText} `{HA : !AppHost D} `{HI : !PolicyIds}.
Context `{HS : !OxDisplay} `{HF64 : !F64Text} `{HB : !Base64} `{HP : !OxTtl} `{HX : !OxRdf}.
Implicit Types (d : NodeDb D) (conn : NConn D).
Abbreviation Sys := (Eff (NConn D) SqlError).

(** Whether an allow row for [read] names the table and the peer, or stars. *)
Definition readable (peer table : string) : Sys bool :=
  let* n := nquery (count_allows peer "read" table) in eret (0 <? n).

(** The owner sees everything. *)
Definition may_read (unfiltered : bool) (peer table : string) : Sys bool :=
  if unfiltered then eret true else readable peer table.

(** A section of the graph, if the caller may read its table. *)
Definition section_ (unfiltered : bool) (peer table : string) (rows : Sys (list Triple)) : Sys (bool * list Triple) :=
  let* ok := may_read unfiltered peer table in
  if (ok : bool) then let* ts := rows in eret (true, ts) else eret (false, []).

(** The rows of a table in the order of their key, each made into triples. *)
Definition triples_of {A} (name : string) (table : Surface -> option (gmap string A)) (f : string * A -> result string (list Triple)) :
    Sys (list Triple) :=
  nquery (fun d => let? t := nneed name (table (nd_surface d)) in
                   map_err sql_failure (rmap (@concat Triple) (traverse f (by_key t)))).

(** ** The sections *)

Definition node_triples (self_hex : string) (mods : list string) : list Triple :=
  let node := node_iri self_hex in
  [is_a node "Node"; says node "endpointId" (text self_hex)] ++ map (fun m => says node "serves" (text m)) mods.

Definition peer_triples (node : string) (entry : string * PeerRow) : result string (list Triple) :=
  let '(hex, r) := entry in
  let? name := get_opt_string (pe_name r) in
  let? relay := get_opt_string (pe_relay_url r) in
  let? addrs := get_opt_string (pe_addrs r) in
  let? seen := get_opt_string (pe_last_seen r) in
  let s := peer_iri hex in
  Ok ([is_a s "Peer"; says s "endpointId" (text hex); says node "knows" (TNamed s)] ++
      opt_says s "name" text name ++ opt_says s "relay" text relay ++
      map (fun a => says s "addr" (text a)) (default [] (addrs ≫= json_strings)) ++
      [says s "addedAt" (typed (pe_added_at r) "dateTime")] ++
      opt_says s "lastSeen" (fun t => typed t "dateTime") seen ++ opt_says s "note" text (pe_notes r)).

Definition peers_section (node : string) : Sys (list Triple) :=
  nquery (fun d => let? t := nneed "_peers" (db_peers (nd_auth d)) in
                   map_err sql_failure (rmap (@concat Triple) (traverse (peer_triples node) (by_key t)))).

Definition policy_triples (node : string) (entry : Z * PolicyRow) : result string (list Triple) :=
  let '(rowid, r) := entry in
  let? who := get_string (po_peer r) in
  let? table := get_string (po_table r) in
  let? action := get_string (po_action r) in
  let? effect := get_string (po_effect r) in
  let? note := get_opt_string (po_note r) in
  let s := "urn:rsntr:policy:" +:+ int_to_string rowid in
  Ok ([is_a s "PolicyRule"; says node "rule" (TNamed s); says s "peerOrGroup" (text who); says s "resource" (text table);
       says s "action" (text action); says s "effect" (text effect)] ++ opt_says s "note" text note).

Definition policy_section (node : string) : Sys (list Triple) :=
  nquery (fun d => let? rows := nneed "_policy" (db_policy (nd_auth d)) in
                   map_err sql_failure
                     (rmap (@concat Triple) (traverse (policy_triples node)
                        (zip (map (policy_rowid rows) (seq 0 (length rows))) rows)))).

(** [enabled] holds 0 or 1. *)
Definition modulation_triples (node : string) (entry : string * ModRow) : result string (list Triple) :=
  let '(name, r) := entry in
  let? caps := get_string (mo_caps r) in
  let? sha := get_string (mo_sha256 r) in
  let? note := get_opt_string (mo_note r) in
  let s := "urn:rsntr:mod:" +:+ name in
  Ok ([is_a s "Modulation"; says node "installed" (TNamed s); says s "name" (text name);
       says s "enabled" (boolean (mo_enabled r)); says s "hash" (text sha)] ++
      map (fun c => says s "cap" (text c)) (tables_of_json caps) ++ opt_says s "note" text note).

Definition app_triples (node : string) (app : AppRow) : list Triple :=
  let s := "urn:rsntr:app:" +:+ ar_app_id app in
  [is_a s "App"; says node "hosts" (TNamed s); says s "name" (text (ar_name app))] ++
  opt_says s "version" text (ar_version app) ++
  [says s "libVersion" (text (ar_lib_version app)); says s "platform" (text (ar_platform app));
   says s "firstSeen" (typed (ar_first_seen app) "dateTime"); says s "lastSeen" (typed (ar_last_seen app) "dateTime")] ++
  opt_says s "note" text (ar_note app).

Definition table_comment (table : string) d : result SqlError (option string) :=
  let? t := nneed "_comments" (sv_comments (nd_surface d)) in
  match t !! table with
  | None => Ok None
  | Some r => map_err sql_failure (rmap Some (get_string (cm_comment r)))
  end.

(** A table is named only to a caller who may read it. *)
Definition app_table (unfiltered : bool) (peer s : string) (out : list Triple) (table : string) : Sys (list Triple) :=
  let* ok := may_read unfiltered peer table in
  if negb ok then eret out
  else
    let t := "urn:rsntr:table:" +:+ table in
    let* comment := nquery (table_comment table) in
    eret (out ++ [says s "declares" (TNamed t); is_a t "Table"; says t "name" (text table)] ++
          match comment with Some c => [mkTriple (NNode t) (RDFS_NS +:+ "comment") (text c)] | None => [] end).

(** [map_err] of an error of [list_apps]. *)
Definition app_error (e : NodeError) : SqlError :=
  match e with NDb e => e | NSparql m => sql_failure m | NSchemaTooNew _ _ | NBusy _ => sql_failure "" end.

Definition apps_section (unfiltered : bool) (peer node : string) : Sys (list Triple) :=
  let* apps := emap_err app_error list_apps in
  efold (fun out app => efold (app_table unfiltered peer ("urn:rsntr:app:" +:+ ar_app_id app))
                          (out ++ app_triples node app) (ar_tables app)) [] apps.

Definition read_room (entry : string * RoomRow) : result string (string * string * string) :=
  let '(id, r) := entry in
  let? name := get_string (ro_name r) in
  let? host := get_string (ro_host r) in
  Ok (id, name, host).

Definition room_members (room_id : string) d : result SqlError (list string) :=
  let? t := nneed "chat_members" (ct_members (sv_chat (nd_surface d))) in
  Ok (merge_sort String.le (map snd (base.filter (fun e => fst e = room_id) (elements t)))).

Definition room_triples (node : string) (members_ok : bool) (out : list Triple) (room : string * string * string) :
    Sys (list Triple) :=
  let '(room_id, name, host) := room in
  match named_node room_id with
  | None => eret out
  | Some s =>
      let own := [is_a s "Room"; says node "room" (TNamed s); says s "name" (text name); says s "host" (TNamed (peer_iri host))] in
      let* members := (if members_ok then nquery (room_members room_id) else eret []) in
      eret (out ++ own ++ map (fun m => says s "member" (TNamed (peer_iri m))) members)
  end.

Definition rooms_section (node : string) : Sys (list Triple) :=
  let* rooms := nquery (fun d => let? t := nneed "chat_rooms" (ct_rooms (sv_chat (nd_surface d))) in
                                 map_err sql_failure (traverse read_room (by_key t))) in
  let* members_ok := nquery (fun d => Ok (bool_decide (is_Some (ct_members (sv_chat (nd_surface d)))))) in
  efold (room_triples node members_ok) [] rooms.

(** The table is looked for first. *)
Definition rooms_part (unfiltered : bool) (peer node : string) : Sys (bool * list Triple) :=
  let* there := nquery (fun d => Ok (bool_decide (is_Some (ct_rooms (sv_chat (nd_surface d)))))) in
  if (there : bool) then section_ unfiltered peer "chat_rooms" (rooms_section node) else eret (false, []).

(** ** The points *)

(** [for_slice(..).flatten()]: what parses. *)
Definition parse_slice (doc : string) : list Triple :=
  omap (fun item => match item with Ok t => Some t | Err _ => None end) (ttl_items IMPLIED_PREFIXES doc).

Definition node_of_term (t : Term) : option NamedOrBlankNode :=
  match t with TNamed n => Some (NNode n) | TBlank b => Some (BNode b) | TLit _ => None end.

(** The object of the first triple with this subject and predicate. *)
Definition next_cell (parsed : list Triple) (s : NamedOrBlankNode) (pred : string) : option NamedOrBlankNode :=
  List.find (fun t => bool_decide (subject t = s) && bool_decide (predicate t = pred)) parsed ≫= (fun t => node_of_term (object t)).

(** The cells of the list of offers; each turn adds a subject of a triple, so
    one more than the triples is enough. *)
Fixpoint drop_cells (fuel : nat) (parsed : list Triple) (drop : list NamedOrBlankNode) (cell : option NamedOrBlankNode) :
    list NamedOrBlankNode :=
  match fuel, cell with
  | S fuel, Some c =>
      if bool_decide (c ∈ drop) then drop
      else drop_cells fuel parsed (drop ++ [c]) (next_cell parsed c (RDF_NS +:+ "rest"))
  | _, _ => drop
  end.

Definition is_header (t : Triple) : bool :=
  bool_decide (predicate t = RDF_NS +:+ "type") && bool_decide (object t = TNamed (RSNTR_NS +:+ "Projection")).

Definition scaffolding (parsed : list Triple) : list NamedOrBlankNode :=
  match List.find is_header parsed with
  | None => []
  | Some t => drop_cells (S (S (length parsed))) parsed [subject t] (next_cell parsed (subject t) (RSNTR_NS +:+ "offers"))
  end.

(** The triples of the projection frame without its header, and the offers of
    the node. *)
Definition projection_triples (node : string) (p : Projection) : list Triple * list Triple :=
  let doc := match to_turtle (OProjection p) with Ok doc => doc | Err _ => "" end in
  let parsed := parse_slice doc in
  let dropped := scaffolding parsed in
  (base.filter (fun t => subject t ∉ dropped) parsed,
   omap (fun pt => (fun iri => says node "offers" (TNamed iri)) <$> named_node (pt_iri pt)) (pj_offers p)).

Definition points_part (unfiltered : bool) (peer node : string) : Sys (Z * list Triple) :=
  let* outcome := build_projection peer "" "" unfiltered in
  match outcome with
  | Built p => let '(ts, offers) := projection_triples node p in eret (zlen offers, ts ++ offers)
  | UnknownPath => eret (0, [])
  end.

(** ** The graph *)

Definition build_system_graph (peer : string) (unfiltered : bool) : Sys (list Triple * GraphSections) :=
  let* self_hex := etotal (get_rsntr "endpoint_id") in
  let self_hex := default "" self_hex in
  let node := node_iri self_hex in
  let* mods := etotal served_modulations in
  let* (peers, t1) := section_ unfiltered peer "_peers" (peers_section node) in
  let* (policy, t2) := section_ unfiltered peer "_policy" (policy_section node) in
  let* (modulations, t3) := section_ unfiltered peer "_modulations" (triples_of "_modulations" sv_modulations (modulation_triples node)) in
  let* (apps, t4) := section_ unfiltered peer "_apps" (apps_section unfiltered peer node) in
  let* (rooms, t5) := rooms_part unfiltered peer node in
  let* (points, t6) := points_part unfiltered peer node in
  eret (node_triples self_hex mods ++ t1 ++ t2 ++ t3 ++ t4 ++ t5 ++ t6, mkGraphSections peers policy modulations rooms points apps).

(** ** The lane *)

Definition show_bool (b : bool) : string := if b then "true" else "false".

Definition graph_reason (triples : list Triple) (s : GraphSections) : string :=
  "system graph: " +:+ int_to_string (zlen triples) +:+ " triples (peers " +:+ show_bool (gs_peers s) +:+ ", policy " +:+
  show_bool (gs_policy s) +:+ ", modulations " +:+ show_bool (gs_modulations s) +:+ ", rooms " +:+ show_bool (gs_rooms s) +:+
  ", " +:+ int_to_string (gs_points s) +:+ " points)".

Definition serve_system_lane (frame_byte_budget : Z) (peer id signal : string) (lane : Lane) : Serve (D:=D) := fun '(conn, ch) =>
  if negb (bool_decide (trim signal = GRAPH_SIGNAL)) then
    send_error (Some id) ProtocolErrorCode
      ("unknown system signal " +:+ tag_debug (trim signal) +:+ "; the system modulation serves `graph`") (conn, ch)
  else
    let '(built, conn) := build_system_graph peer (bool_decide (lane = Owner)) conn in
    let '(decision, reason) := match built with
                               | Ok (triples, sections) => ("allow", graph_reason triples sections)
                               | Err e => ("deny", "system graph failed: " +:+ se_text e)
                               end in
    let '(direction, decided_by) := lane_audit lane in
    let conn := audit_direct_dir direction peer id "system graph" decision decided_by reason conn in
    match built with
    | Err e => send_error (Some id) EngineError (se_text e) (conn, ch)
    | Ok (triples, _) =>
        tell_all (graph_chunks frame_byte_budget id triples 0 [] 0 ++
                  [ODone (mkDone id (Some (zlen triples)) None None false)]) (conn, ch)
    end.
End system.

(** ** What a caller cannot see *)

Section blind.
Context {D : Type}.
Implicit Types (d : NodeDb D) (c : NConn D).

(** On databases that [R] relates, code that gives the same and writes nothing. *)
Definition blind (R : NodeDb D -> NodeDb D -> Prop) {E A} (m : Eff (NConn D) E A) : Prop :=
  forall c1 c2, n_healthy c1 -> n_healthy c2 -> R (n_db c1) (n_db c2) ->
    fst (m c1) = fst (m c2) /\ quiet c1 (snd (m c1)) /\ quiet c2 (snd (m c2)).

Lemma blind_sub R R' {E A} (m : Eff (NConn D) E A) : blind R m -> (forall d1 d2, R' d1 d2 -> R d1 d2) -> blind R' m.
Proof. intros Hm HR c1 c2 H1 H2 H. apply Hm; auto. Qed.

Lemma blind_ret R {E A} (a : A) : blind R (eret (E:=E) a).
Proof. by intros c1 c2 _ _ _. Qed.

Lemma blind_query R {A} (f : NodeDb D -> result SqlError A) : (forall d1 d2, R d1 d2 -> f d1 = f d2) -> blind R (nquery f).
Proof.
  intros Hf c1 c2 H1 H2 HR. destruct (nquery f c1) as [r1 c1'] eqn:E1, (nquery f c2) as [r2 c2'] eqn:E2.
  apply nquery_cases in E1 as (Hq1 & Hr1 & _), E2 as (Hq2 & Hr2 & _). cbn. rewrite Hr1, Hr2 by done. by rewrite (Hf _ _ HR).
Qed.

(** What follows may use what the first result says of the database. *)
Lemma blind_bind_with R {E A B} (P : A -> NodeDb D -> Prop) (m : Eff (NConn D) E A) (f : A -> Eff (NConn D) E B) :
  blind R m -> (forall c a, n_healthy c -> fst (m c) = Ok a -> P a (n_db c)) ->
  (forall a, blind (fun d1 d2 => R d1 d2 /\ P a d1) (f a)) -> blind R (ebind f m).
Proof.
  intros Hm HP Hf c1 c2 H1 H2 HR. destruct (Hm c1 c2 H1 H2 HR) as (He & Hq1 & Hq2). pose proof (HP c1) as HP1.
  unfold ebind. destruct (m c1) as [[a|e] c1'], (m c2) as [[a2|e2] c2']; cbn in *; simplify_eq; [|done].
  destruct (Hf a2 c1' c2') as (He' & Hq1' & Hq2'); [by apply Hq1|by apply Hq2| |].
  - rewrite (proj1 Hq1), (proj1 Hq2). split; [done|]. by apply HP1.
  - split; [done|]. split; etrans; done.
Qed.

Lemma blind_bind R {E A B} (m : Eff (NConn D) E A) (f : A -> Eff (NConn D) E B) :
  blind R m -> (forall a, blind R (f a)) -> blind R (ebind f m).
Proof.
  intros Hm Hf. apply (blind_bind_with R (fun _ _ => True)); [done..|]. intros a. eapply blind_sub; [apply Hf|]. by intros d1 d2 [].
Qed.

Lemma blind_fold R {E A B} (f : B -> A -> Eff (NConn D) E B) l b : (forall b a, blind R (f b a)) -> blind R (efold f b l).
Proof. intros Hf. revert b. induction l as [|a l IH]; intros b; [apply blind_ret|]. cbn. apply blind_bind; auto. Qed.

Lemma blind_map_err R {E F A} (g : E -> F) (m : Eff (NConn D) E A) : blind R m -> blind R (emap_err g m).
Proof.
  intros Hm c1 c2 H1 H2 HR. destruct (Hm c1 c2 H1 H2 HR) as (He & Hq). unfold emap_err.
  destruct (m c1) as [[a|e] c1'], (m c2) as [[a2|e2] c2']; cbn in *; by simplify_eq.
Qed.
End blind.

Section hidden.
Context {D : Type} `{HR : !RowIds} `{HF : !FrameText} `{HW : !JsonText} `{HA : !AppHost D} `{HI : !PolicyIds}.
Context `{HS : !OxDisplay} `{HF64 : !F64Text} `{HB : !Base64} `{HP : !OxTtl} `{HX : !OxRdf}.
Implicit Types (d : NodeDb D) (c : NConn D).

(** Some rule lets the peer read the table. *)
Definition granted (peer table : string) d : Prop :=
  exists rows, db_policy (nd_auth d) = Some rows /\ 0 < zlen (base.filter (fun r => allow_row peer "read" table r = true) rows).

(** Two databases with the same settings, rules (which there are) and points, and
    otherwise the same in what the peer may read. *)
Definition same_view (peer : string) d1 d2 : Prop :=
  is_Some (db_policy (nd_auth d1)) /\
  db_rsntr (nd_auth d1) = db_rsntr (nd_auth d2) /\
  db_policy (nd_auth d1) = db_policy (nd_auth d2) /\
  sv_projection (nd_surface d1) = sv_projection (nd_surface d2) /\
  (granted peer "_peers" d1 -> db_peers (nd_auth d1) = db_peers (nd_auth d2)) /\
  (granted peer "_modulations" d1 -> sv_modulations (nd_surface d1) = sv_modulations (nd_surface d2)) /\
  (granted peer "_apps" d1 -> sv_apps (nd_surface d1) = sv_apps (nd_surface d2)) /\
  (forall table, granted peer table d1 -> table_comment table d1 = table_comment table d2) /\
  (granted peer "chat_rooms" d1 ->
     ct_rooms (sv_chat (nd_surface d1)) = ct_rooms (sv_chat (nd_surface d2)) /\
     ct_members (sv_chat (nd_surface d1)) = ct_members (sv_chat (nd_surface d2))).

Variable peer : string.
Abbreviation R := (same_view peer).

Lemma blind_counts action table : blind R (nquery (count_allows peer action table)).
Proof. apply blind_query. intros d1 d2 (_ & _ & Hp & _). unfold count_allows. by rewrite Hp. Qed.

Lemma blind_readable table : blind R (may_read false peer table).
Proof. apply blind_bind; [apply blind_counts|intros n; apply blind_ret]. Qed.

Lemma readable_granted table c b : n_healthy c -> fst (may_read false peer table c) = Ok b -> b = true -> granted peer table (n_db c).
Proof.
  intros Hc. unfold may_read, readable, ebind. destruct (nquery _ c) as [[n|e] c'] eqn:E; [|done].
  apply nquery_cases in E as (_ & _ & Hok). specialize (Hok n eq_refl). cbn. intros [= <-] Hn. apply Z.ltb_lt in Hn.
  unfold count_allows, nneed, ok_or in Hok. destruct (db_policy (nd_auth (n_db c))) as [rows|] eqn:Er; cbn in Hok; [|done].
  injection Hok as <-. by exists rows.
Qed.

Definition view_of table d1 d2 : Prop := R d1 d2 /\ granted peer table d1.

Lemma blind_section table rows : blind (view_of table) rows -> blind R (section_ false peer table rows).
Proof.
  intros Hrows. apply (blind_bind_with R (fun b d => b = true -> granted peer table d)); [apply blind_readable| |].
  - intros c b Hc Hb. by apply readable_granted.
  - intros [|]; [|apply blind_ret]. apply blind_bind; [|intros ts; apply blind_ret]. eapply blind_sub; [exact Hrows|].
    intros d1 d2 [HR1 Hg]. split; [done|by apply Hg].
Qed.

Lemma blind_peers node : blind (view_of "_peers") (peers_section node).
Proof. apply blind_query. intros d1 d2 [(_ & _ & _ & _ & H & _) Hg]. by rewrite (H Hg). Qed.

Lemma blind_policy node : blind (view_of "_policy") (policy_section node).
Proof. apply blind_query. intros d1 d2 [(_ & _ & H & _) _]. by rewrite H. Qed.

Lemma blind_modulations node : blind (view_of "_modulations") (triples_of "_modulations" sv_modulations (modulation_triples node)).
Proof. apply blind_query. intros d1 d2 [(_ & _ & _ & _ & _ & H & _) Hg]. by rewrite (H Hg). Qed.

Lemma blind_app_table s out table : blind R (app_table false peer s out table).
Proof.
  apply (blind_bind_with R (fun b d => b = true -> granted peer table d)); [apply blind_readable| |].
  - intros c b Hc Hb. by apply readable_granted.
  - intros [|]; cbn [negb]; [|apply blind_ret]. apply blind_bind; [|intros o; apply blind_ret]. apply blind_query.
    intros d1 d2 [(_ & _ & _ & _ & _ & _ & _ & H & _) Hg]. by rewrite (H table (Hg eq_refl)).
Qed.

Lemma blind_apps node : blind (view_of "_apps") (apps_section false peer node).
Proof.
  apply blind_bind.
  - apply blind_map_err, blind_map_err, blind_query. intros d1 d2 [(_ & _ & _ & _ & _ & _ & H & _) Hg]. unfold need_apps. by rewrite (H Hg).
  - intros apps. apply blind_fold. intros out app. apply blind_fold. intros out' table.
    eapply blind_sub; [apply blind_app_table|]. by intros d1 d2 [].
Qed.

Lemma blind_rooms node : blind (view_of "chat_rooms") (rooms_section node).
Proof.
  apply blind_bind; [|intros rooms; apply blind_bind; [|intros ok; apply blind_fold; intros out [[id name] host]]].
  - apply blind_query. intros d1 d2 [(_ & _ & _ & _ & _ & _ & _ & _ & H) Hg]. by rewrite (proj1 (H Hg)).
  - apply blind_query. intros d1 d2 [(_ & _ & _ & _ & _ & _ & _ & _ & H) Hg]. by rewrite (proj2 (H Hg)).
  - cbn [room_triples]. destruct (named_node id); [|apply blind_ret]. apply blind_bind; [|intros ms; apply blind_ret].
    destruct ok; [|apply blind_ret]. apply blind_query.
    intros d1 d2 [(_ & _ & _ & _ & _ & _ & _ & _ & H) Hg]. unfold room_members. by rewrite (proj2 (H Hg)).
Qed.

(** A section that may not be read is left out. *)
Lemma section_left_out table rows c :
  n_healthy c -> is_Some (db_policy (nd_auth (n_db c))) -> ~ granted peer table (n_db c) ->
  exists c', section_ false peer table rows c = (Ok (false, []), c') /\ quiet c c'.
Proof.
  intros Hc [ps Hp] Hno. unfold section_, may_read, readable, ebind.
  destruct (nquery _ c) as [r c'] eqn:E. apply nquery_cases in E as (Hq & Hr & _). specialize (Hr Hc).
  unfold count_allows in Hr. rewrite Hp in Hr. cbn in Hr. subst r. exists c'. split; [|done]. cbn [eret].
  destruct (Z.ltb_spec 0 (zlen (base.filter (fun r => allow_row peer "read" table r = true) ps))) as [Hlt|Hge]; [|done].
  exfalso. apply Hno. by exists ps.
Qed.

(** Whether the table of the rooms exists does not show either. *)
Lemma blind_rooms_part node : blind R (rooms_part false peer node).
Proof.
  intros c1 c2 H1 H2 HR12. pose proof HR12 as (Hsome & _ & Hpol & _ & _ & _ & _ & _ & Hrooms).
  assert (granted peer "chat_rooms" (n_db c1) \/ ~ granted peer "chat_rooms" (n_db c1)) as [Hg|Hno].
  { destruct Hsome as [ps Hp]. destruct (Z.ltb_spec 0 (zlen (base.filter (fun r => allow_row peer "read" "chat_rooms" r = true) ps))).
    - left. by exists ps.
    - right. intros (ps' & Hp' & Hlt). rewrite Hp in Hp'. injection Hp' as <-. lia. }
  - refine (blind_bind (view_of "chat_rooms") _ _ _ _ c1 c2 H1 H2 (conj HR12 Hg)).
    + apply blind_query. intros d1 d2 [(_ & _ & _ & _ & _ & _ & _ & _ & H) Hgr]. by rewrite (proj1 (H Hgr)).
    + intros [|]; [|apply blind_ret]. eapply blind_sub; [apply blind_section, blind_rooms|]. by intros d1 d2 [].
  - assert (forall c, n_healthy c -> is_Some (db_policy (nd_auth (n_db c))) -> ~ granted peer "chat_rooms" (n_db c) ->
              fst (rooms_part false peer node c) = Ok (false, []) /\ quiet c (snd (rooms_part false peer node c))) as Hout.
    { intros c Hc Hs Hn. unfold rooms_part, ebind. destruct (nquery _ c) as [r c'] eqn:E. apply nquery_cases in E as (Hq & Hr & _).
      specialize (Hr Hc). subst r. destruct (bool_decide _); [|done].
      destruct (section_left_out "chat_rooms" (rooms_section node) c') as (c'' & -> & Hq'); [by apply Hq|by rewrite (proj1 Hq)..|].
      split; [done|]. cbn. by etrans. }
    destruct (Hout c1) as [E1 Q1]; [done..|]. destruct (Hout c2) as [E2 Q2]; [done|by rewrite <- Hpol| |].
    { intros (ps & Hp & Hlt). apply Hno. exists ps. by rewrite Hpol. }
    by rewrite E1, E2.
Qed.

Lemma blind_points node : blind R (points_part false peer node).
Proof.
  apply blind_bind; [|intros [|p]; [apply blind_ret|destruct (projection_triples node p); apply blind_ret]].
  apply blind_bind; [apply blind_query; intros d1 d2 (_ & _ & _ & H & _); unfold points_at; by rewrite H|].
  intros rows. destruct (_ && _); [apply blind_ret|]. apply blind_bind; [|intros o; apply blind_ret].
  apply blind_fold. intros offers pt. apply blind_bind; [|intros b; apply blind_ret].
  unfold visible. destruct (pc_resource pt) as [res|]; [|apply blind_ret].
  induction (visible_actions _ _) as [|action actions IH]; [apply blind_ret|]. cbn [any_allowed].
  apply blind_bind; [apply blind_counts|]. intros n. destruct (0 <? n); [apply blind_ret|apply IH].
Qed.

Lemma blind_setting key : blind (E:=SqlError) R (etotal (get_rsntr key)).
Proof.
  intros c1 c2 H1 H2 HR12. unfold etotal, get_rsntr.
  destruct (blind_query R (get_rsntr_row key)) with c1 c2 as (He & Q1 & Q2); [|done..|].
  - intros d1 d2 (_ & H & _). unfold get_rsntr_row. by rewrite H.
  - destruct (nquery _ c1) as [[v|e] c1'], (nquery _ c2) as [[v2|e2] c2']; cbn in *; by simplify_eq.
Qed.

Lemma blind_served : blind (E:=SqlError) R (etotal served_modulations).
Proof.
  intros c1 c2 H1 H2 HR12. destruct (blind_setting "modulations" c1 c2 H1 H2 HR12) as (He & Q1 & Q2).
  unfold etotal, served_modulations in *. destruct (get_rsntr _ c1) as [v1 c1'], (get_rsntr _ c2) as [v2 c2']. cbn in *. by simplify_eq.
Qed.

Lemma blind_graph : blind R (build_system_graph peer false).
Proof.
  unfold build_system_graph. apply blind_bind; [apply blind_setting|intros self]. apply blind_bind; [apply blind_served|intros mods].
  apply blind_bind; [apply blind_section, blind_peers|intros [b1 t1]].
  apply blind_bind; [apply blind_section, blind_policy|intros [b2 t2]].
  apply blind_bind; [apply blind_section, blind_modulations|intros [b3 t3]].
  apply blind_bind; [apply blind_section, blind_apps|intros [b4 t4]].
  apply blind_bind; [apply blind_rooms_part|intros [b5 t5]].
  apply blind_bind; [apply blind_points|intros [b6 t6]]. apply blind_ret.
Qed.

(** C26. a remote caller gets the same frames from any two databases that agree on
    the settings, the rules and the points, and on the tables a rule lets the
    caller read: what is in the others, down to whether the tables of the chat
    exist, does not show in the system graph. *)
Theorem hidden_tables_do_not_show (budget : Z) (id signal : string) (c1 c2 : NConn D) (ch : Chan)
    (Hc1 : n_healthy c1) (Hc2 : n_healthy c2) (Hsame : same_view peer (n_db c1) (n_db c2)) :
  snd (serve_system_lane budget peer id signal Remote (c1, ch)) = snd (serve_system_lane budget peer id signal Remote (c2, ch)).
Proof.
  unfold serve_system_lane. destruct (negb _); [done|].
  rewrite !bool_decide_eq_false_2 by done. destruct (blind_graph c1 c2 Hc1 Hc2 Hsame) as [He _].
  destruct (build_system_graph peer false c1) as [r1 c1'], (build_system_graph peer false c2) as [r2 c2']. cbn in He. subst r2.
  destruct r1 as [[triples sections]|e]; cbn; [|by destruct (send _ ch)]. done.
Qed.
End hidden.

(** ** A stranger's view *)

Module Snoop.

#[local] Existing Instance Shelf.any_table.
#[local] Existing Instance Shelf.plain_frames.
#[local] Instance no_ids : RowIds := { random_id := fun _ => None }.
#[local] Instance no_json : JsonText := { json_value := fun _ => None; json_strings := fun _ => None }.
#[local] Instance by_position : PolicyIds := { policy_rowid := fun _ n => Z.of_nat n }.
#[local] Instance no_turtle : OxTtl := { ttl_items := fun _ _ => [] }.
#[local] Instance plain_display : OxDisplay := { show_named := id; show_node := fun _ => "node"; show_term := fun _ => "term" }.
#[local] Instance any_rdf : OxRdf := { ox_iri_ok := fun _ => true; ox_label_ok := fun _ => true; ox_language := Some }.

(** Alice may read the apps and nothing else. *)
Definition rules : list PolicyRow := [mkPolicyRow (SText "alice") (SText "_apps") (SText "read") (SText "allow") SNull].

Definition node_with (peers : gmap string PeerRow) (chat : ChatTables) : NConn unit :=
  mkNConn (mkNodeDb (mkDb (Some ∅) (Some rules) (Some ∅) (Some []) (Some peers) None) (Some []) (Some ∅) (Some ∅) (Some ∅)
             (set_chat chat (set_projection ∅ (set_comments ∅ (set_apps (<["org.a" := Shelf.row "A"]> ∅) no_surface)))) tt)
    None [] 0 (S754_zero false) [] (fun _ => 0) 0 (0, 0).

(** One has a friend and a room, the other has neither. *)
Definition sociable : NConn unit :=
  node_with (<["bob" := new_peer "2026" (Some "met in secret")]> ∅)
    (mkChatTables (Some ∅) true true (Some (<["urn:room:1" := mkRoomRow (SText "den") (SText "bob") (SText "2026")]> ∅)) (Some {[("urn:room:1", "bob")]}) true).
Definition lonely : NConn unit := node_with ∅ no_chat.

Lemma not_granted table c : db_policy (nd_auth (n_db c)) = Some rules -> table <> "_apps" -> ~ granted (D:=unit) "alice" table (n_db c).
Proof.
  intros Hp Hne (rows & Hr & Hlt). rewrite Hp in Hr. injection Hr as <-. unfold rules in Hlt. rewrite filter_cons, filter_nil in Hlt.
  rewrite decide_False in Hlt; [done|]. unfold allow_row, cell_is. cbn.
  rewrite (bool_decide_eq_false_2 ("_apps" = table)) by congruence. done.
Qed.

Lemma hidden_tables_do_not_show_witness :
  db_peers (nd_auth (n_db sociable)) <> db_peers (nd_auth (n_db lonely)) /\
  snd (serve_system_lane 1000 "alice" "01" "graph" Remote (sociable, mkChan [] None)) =
  snd (serve_system_lane 1000 "alice" "01" "graph" Remote (lonely, mkChan [] None)).
Proof.
  split; [done|]. refine (hidden_tables_do_not_show "alice" 1000 "01" "graph" sociable lonely (mkChan [] None) _ _ _);
    [by constructor|by constructor|].
  split; [by eexists|]. split; [done|]. split; [done|]. split; [done|].
  split; [intros H; by apply not_granted in H|]. split; [intros H; by apply not_granted in H|]. split; [done|].
  split; [done|intros H; by apply not_granted in H].
Defined.
End Snoop.
