(* ===== verification/NodeMods.v ===== *)
(** * NodeMods: mods installed over the wire, and pages

    Models [crates/node/src/mod_install.rs] and, of [pipeline.rs], the lanes that
    install and remove mods, import a blob for the owner, and serve a page of
    the [pages] table as a hologram. Fetching a blob, importing a file and
    loading the mods anew are callbacks that the serving process wires. *)

From S2P Require Import Prelude RustStd Collections Effect Vocab External Instances Value Envelope Wire Request Response AuthTypes Chain.
From S2P Require Import Policy Fingerprint CivilDate Human Authorizer NodeDb NodeSql NodeGate NodeGateProps NodeKnock NodeExecute NodeExecuteProps.
From S2P Require Import NodeFrames NodeProjection NodeSparql NodeSparqlProps NodeDdl NodeSpec NodeChatMsg NodeServe NodeDemo.
From S2P Require SparqlStore NodeApps NodeSystem.

Open Scope Z_scope.

Definition DEFAULT_MOD_MEMORY_MB : Z := 64.
Definition MAX_WASM_BYTES : Z := 4 * 1024 * 1024.

(** ** The request *)

Inductive Verb : Type := Install | Remove.

#[export] Instance Verb_eq_dec : EqDecision Verb.
Proof. solve_decision. Defined.

Record ModInstall : Type := mkModInstall {
  mi_verb : Verb;
  mi_name : string;
  mi_hash : option string;
  mi_bytes : option Z;
  mi_caps : list string;
  mi_addrs : list string;
  mi_timeout_ms : option Z;
  mi_memory_mb : option Z;
  mi_note : option string
}.

Definition term_text (t : Term) : option string :=
  match t with
  | TNamed n => Some n
  | TLit l => Some (lit_value l)
  | TBlank _ => None
  end.

Definition rsntr (local : string) : string := RSNTR_NS +:+ local.

Definition is_name_char (c : ascii) : bool :=
  is_ascii_alphanumeric c || bool_decide (c ∈ ["-"; "_"; "."]%char).

Definition name_ok (name : string) : bool := negb (is_empty name) && str_forallb is_name_char name.

(** The last triple that types a node with one of the two classes counts. *)
Definition verb_step (acc : option (Verb * NamedOrBlankNode)) (t : Triple) : option (Verb * NamedOrBlankNode) :=
  if bool_decide (predicate t = RDF_TYPE) then
    if bool_decide (object t = TNamed (rsntr "ModInstall")) then Some (Install, subject t)
    else if bool_decide (object t = TNamed (rsntr "ModRemove")) then Some (Remove, subject t)
    else acc
  else acc.

(** The text of the first object of a property, if it has one. *)
Definition one (props : list (string * Term)) (local : string) : option string :=
  List.find (fun kv => bool_decide (fst kv = rsntr local)) props ≫= (fun kv => term_text (snd kv)).

Definition all (props : list (string * Term)) (local : string) : list string :=
  omap (fun kv => term_text (snd kv)) (base.filter (fun kv => fst kv = rsntr local) props).

Definition number (s : option string) : option Z :=
  s ≫= (fun s => match parse_u64 s with Ok n => Some n | Err _ => None end).

Section parse.
Context `{HT : !OxTtl} `{HN : !NodeText}.

Definition install_of (triples : list Triple) : result string ModInstall :=
  match foldl verb_step None triples with
  | None => Err "mod-install signal carries no rsntr:ModInstall or rsntr:ModRemove node"
  | Some (verb, node) =>
      let props := pairs triples node in
      let? name := ok_or "mod-install signal has no rsntr:name" (one props "name") in
      if negb (name_ok name) then Err ("mod name " +:+ debug_str name +:+ " must be ASCII alphanumeric plus - _ .")
      else Ok (mkModInstall verb name (one props "hash") (number (one props "bytes")) (all props "caps") (all props "addr")
                 (number (one props "timeoutMs")) (number (one props "memoryMb")) (one props "note"))
  end.

Definition parse (signal : string) : result string ModInstall :=
  let? triples := map_err (fun e => "mod-install signal is not valid Turtle: " +:+ e)
                    (traverse (fun item => item) (ttl_items IMPLIED_PREFIXES signal)) in
  install_of triples.
End parse.

(** ** The gate *)

Inductive Gate : Type :=
| GateUnknownPeer
| GateDenied (reason : string)
| GatePending
| GateAllowed.

Section gate.
Context {D : Type} `{HR : !RowIds} `{HN : !NodeText} `{HS : !Sha256} `{HP : !ParkedJson}.
Implicit Types (d : NodeDb D) (conn : NConn D).

(** A lookup that fails counts as no match. *)
Definition policy_matches (peer name action effect : string) conn : bool * NConn D :=
  source_policy_match peer name action effect conn.

(** Whether a row of the same shape waits. *)
Definition install_pending (peer fp : string) d : result SqlError bool :=
  map_err sql_failure (let? rows := need_table "_inbox" (db_inbox (nd_auth d)) in find_pending peer fp rows).

Definition install_footprint (name : string) : Footprint := from_tables OtherKind [(name, [])].

(** [None]: the parameters have no JSON text, and the job panics. *)
Definition park_install (peer signal name : string) conn : option (result SqlError unit) * NConn D :=
  let footprint := install_footprint name in
  let fp := statement_fingerprint "mod-install" signal footprint in
  match nquery (install_pending peer fp) conn with
  | (Err e, conn) => (Some (Err e), conn)
  | (Ok true, conn) => (Some (Ok tt), conn)
  | (Ok false, conn) =>
      let '(id, conn) := draw_node_ulid conn in
      match params_to_json (mkParkedParams "mod-install" fp footprint) with
      | Err _ => (None, conn)
      | Ok json =>
          let row := mkInboxRow id peer signal json None None (rfc3339 (n_secs conn)) in
          let '(r, conn) := nsql (fun d => map_err sql_failure
                                            (let? t := insert_inbox row (nd_auth d) in Ok (tt, set_auth t d))) conn in
          (Some r, conn)
      end
  end.

(** The caps no rule allows, or some rule denies; a denial ends the look. *)
Fixpoint missing_caps (peer name : string) (caps : list string) conn : list string * NConn D :=
  match caps with
  | [] => ([], conn)
  | c :: caps' =>
      let action := "mod-cap:" +:+ c in
      let '(denied, conn) := policy_matches peer name action "deny" conn in
      let '(missing, conn) := if (denied : bool) then (true, conn)
                              else let '(allowed, conn) := policy_matches peer name action "allow" conn in (negb allowed, conn) in
      let '(rest, conn) := missing_caps peer name caps' conn in
      (if (missing : bool) then c :: rest else rest, conn)
  end.

Definition gate (peer id name : string) (caps : list string) (signal : string) conn : option Gate * NConn D :=
  let audit decision by_ reason conn := audit_direct peer id ("mod-install " +:+ name) decision by_ reason conn in
  let '(known, conn) := peer_known peer conn in
  if negb known then (Some GateUnknownPeer, audit "deny" "peer-gate" "unknown peer" conn)
  else
    let '(denied, conn) := policy_matches peer name "mod-install" "deny" conn in
    if (denied : bool) then
      let reason := "mod-install on " +:+ debug_str name +:+ " is denied by policy" in
      (Some (GateDenied reason), audit "deny" "policy" reason conn)
    else
      let '(allowed, conn) := policy_matches peer name "mod-install" "allow" conn in
      if negb allowed then
        match park_install peer signal name conn with
        | (None, conn) => (None, conn)
        | (Some (Ok _), conn) => (Some GatePending, audit "deny" "human" PENDING_REASON conn)
        | (Some (Err e), conn) =>
            let reason := "no policy grants you mod-install on " +:+ debug_str name in
            (Some (GateDenied reason), audit "deny" "policy" (reason +:+ " (park failed: " +:+ se_text e +:+ ")") conn)
        end
      else
        let '(missing, conn) := missing_caps peer name caps conn in
        match missing with
        | [] => (Some GateAllowed, audit "allow" "policy" "mod-install" conn)
        | _ =>
            let reason := "the caps ceiling for " +:+ debug_str name +:+ " does not grant: " +:+ RustStd.join ", " missing in
            (Some (GateDenied reason), audit "deny" "policy" reason conn)
        end.

(** ** The rows *)

Definition sha256_hex (bytes : list Byte.byte) : string :=
  str_concat (map Fingerprint.byte_hex (sha256 (String.string_of_list_byte bytes))).

Definition opt_cell (o : option string) : Cell := match o with Some s => SText s | None => SNull end.

(** The row of an enabled mod; the configuration stays when there is a row. *)
Definition enabled_row (wasm : list Byte.byte) (sha caps_json limits_json : string) (note : option string)
    (old : option ModRow) : ModRow :=
  mkModRow (Some wasm) (SText sha) true (SText caps_json)
    (match old with Some r => mo_config r | None => SText "{}" end) (SText limits_json) (opt_cell note).

Definition need_mods d : result SqlError (gmap string ModRow) := nneed "_modulations" (sv_modulations (nd_surface d)).
Definition put_mods (t : gmap string ModRow) d : NodeDb D := set_surface (set_modulations t (nd_surface d)) d.

Definition upsert (name : string) (wasm : list Byte.byte) (sha caps_json limits_json : string) (note : option string) :
    NM SqlError unit :=
  nsql (fun d => let? t := need_mods d in
                 Ok (tt, put_mods (<[name := enabled_row wasm sha caps_json limits_json note (t !! name)]> t) d)).

Definition with_enabled (enabled : bool) (r : ModRow) : ModRow :=
  mkModRow (mo_wasm r) (mo_sha256 r) enabled (mo_caps r) (mo_config r) (mo_limits r) (mo_note r).

Definition set_enabled (name : string) (enabled : bool) : NM SqlError unit :=
  nsql (fun d => let? t := need_mods d in Ok (tt, put_mods (alter (with_enabled enabled) name t) d)).

Definition remove (name : string) : NM SqlError bool :=
  nsql (fun d => let? t := need_mods d in Ok (bool_decide (is_Some (t !! name)), put_mods (delete name t) d)).
End gate.

(** ** The lanes *)

(** What the serving process wires: fetching a blob from a peer, importing a
    file, and loading the mods anew, which gives the mods refused. *)
Record ModHost (D : Type) : Type := mkModHost {
  mh_fetcher : option (string -> string -> list string -> result string (list Byte.byte));
  mh_importer : option (string -> result string (string * Z));
  mh_reloader : option (NConn D -> result string (list (string * string)) * NConn D)
}.
Arguments mkModHost {D}.
Arguments mh_fetcher {D}.
Arguments mh_importer {D}.
Arguments mh_reloader {D}.

(** A header, one row and the end. *)
Definition one_row (id : string) (cells : list (string * Value)) : list EnvelopeObject :=
  [OResult (mkResultHeader id (map fst cells) []);
   ORow [mkRow 0 cells];
   ODone (mkDone id (Some 1) None None false)].

Section lanes.
Context {D : Type} `{HQ : !Sqlite D} `{HR : !RowIds} `{HD : !AuthDebug} `{HN : !NodeText} `{HJ : !ChainJson} `{HU : !UlidLib}.
Context `{HS : !Sha256} `{HP : !ParkedJson} `{HT : !OxTtl} `{HJP : !JsonPrint} `{HB : !Base64}.
Abbreviation Serve := (@Serve D).
Variables (self : Node (D:=D)) (host : ModHost D).

Definition reload_mods (conn : NConn D) : result string (list (string * string)) * NConn D :=
  match mh_reloader host with
  | None => (Err "no mod reloader is wired on this node", conn)
  | Some reloader => reloader conn
  end.

Definition answer_mod_applied (id name verb : string) : Serve :=
  tell_all (one_row id [("name", Text name); ("status", Text verb)]).

Definition mod_error (id : string) (code : ErrorCode) (reason : string) : Serve := send_error (Some id) code reason.

Definition apply_remove (id name : string) : Serve := fun '(conn, ch) =>
  match remove name (nn_meanwhile self conn) with
  | (Err _, conn) => (conn, ch)
  | (Ok _, conn) =>
      match reload_mods conn with
      | (Err e, conn) => mod_error id EngineError e (conn, ch)
      | (Ok _, conn) => answer_mod_applied id name "removed" (conn, ch)
      end
  end.

(** The bytes, or the code and the text of the error. *)
Definition fetch_wasm (peer : string) (req : ModInstall) : result (ErrorCode * string) (list Byte.byte) :=
  let? hash := ok_or (ProtocolErrorCode, "a mod-install carries an rsntr:hash naming the wasm blob") (mi_hash req) in
  let? fetcher := ok_or (EngineError, "no blob fetcher is wired on this node") (mh_fetcher host) in
  let? wasm := map_err (fun e => (EngineError, "fetching the wasm from you failed: " +:+ e)) (fetcher peer hash (mi_addrs req)) in
  let size := zlen wasm in
  if MAX_WASM_BYTES <? size then
    Err (LimitExceeded, "the wasm is " +:+ int_to_string size +:+ " bytes; the ceiling is " +:+ int_to_string MAX_WASM_BYTES)
  else match mi_bytes req with
       | Some declared =>
           if negb (declared =? size) then
             Err (ProtocolErrorCode, "rsntr:bytes says " +:+ int_to_string declared +:+ " but the fetched blob is " +:+
                                     int_to_string size)
           else Ok wasm
       | None => Ok wasm
       end.

Definition eff_timeout (req : ModInstall) : Z :=
  match mi_timeout_ms req with
  | Some t => Z.min t (max_duration_ms (nn_config self))
  | None => max_duration_ms (nn_config self)
  end.

Definition eff_memory (req : ModInstall) : Z :=
  Z.min (default DEFAULT_MOD_MEMORY_MB (mi_memory_mb req)) (max_mod_memory_mb (nn_config self)).

Definition limits_json (req : ModInstall) : string :=
  "{" +:+ jq "'timeout_ms'" +:+ ":" +:+ int_to_string (eff_timeout req) +:+ "," +:+ jq "'memory_mb'" +:+ ":" +:+
  int_to_string (eff_memory req) +:+ "}".

Definition caps_json (req : ModInstall) : string := json_of_strings (mi_caps req).

Definition installed_cells (req : ModInstall) (sha : string) : list (string * Value) :=
  [("name", Text (mi_name req)); ("sha256", Text sha); ("caps", Text (caps_json req));
   ("timeout_ms", Integer (as_i64 (eff_timeout req))); ("memory_mb", Integer (as_i64 (eff_memory req)))].

(** A mod refused at load is disabled, and the mods are loaded once more. *)
Definition load_installed (id : string) (req : ModInstall) (sha : string) : Serve := fun '(conn, ch) =>
  match reload_mods conn with
  | (Err e, conn) => mod_error id EngineError e (conn, ch)
  | (Ok refused, conn) =>
      match List.find (fun r => bool_decide (fst r = mi_name req)) refused with
      | Some (_, reason) =>
          match set_enabled (mi_name req) false conn with
          | (Err _, conn) => (conn, ch)
          | (Ok _, conn) =>
              let '(_, conn) := reload_mods conn in
              mod_error id EngineError
                ("mod " +:+ debug_str (mi_name req) +:+ " was refused at load and disabled: " +:+ reason) (conn, ch)
          end
      | None => tell_all (one_row id (installed_cells req sha)) (conn, ch)
      end
  end.

Definition apply_install (peer id : string) (req : ModInstall) : Serve := fun '(conn, ch) =>
  match fetch_wasm peer req with
  | Err (code, reason) => mod_error id code reason (conn, ch)
  | Ok wasm =>
      let sha := sha256_hex wasm in
      match upsert (mi_name req) wasm sha (caps_json req) (limits_json req) (mi_note req) (nn_meanwhile self conn) with
      | (Err _, conn) => (conn, ch)
      | (Ok _, conn) => load_installed id req sha (conn, ch)
      end
  end.

(** What is gated: removing needs no caps. *)
Definition gated_caps (req : ModInstall) : list string :=
  match mi_verb req with Remove => [] | Install => mi_caps req end.

Definition serve_mod_install (peer : string) (request : Request) : Serve := fun '(conn, ch) =>
  let id := id_string request in
  match rq_params request with
  | _ :: _ =>
      mod_error id ProtocolErrorCode "the mod-install blob-import parameter is served only on the owner channel" (conn, ch)
  | [] =>
      match parse (rq_signal request) with
      | Err e => mod_error id ProtocolErrorCode e (conn, ch)
      | Ok req =>
          match gate peer id (mi_name req) (gated_caps req) (rq_signal request) conn with
          | (None, conn) => (conn, ch)
          | (Some GateUnknownPeer, conn) => send_denied (Some id) unknown_peer_reason (conn, ch)
          | (Some (GateDenied reason), conn) => send_denied (Some id) reason (conn, ch)
          | (Some GatePending, conn) => send_denied (Some id) PENDING_REASON (conn, ch)
          | (Some GateAllowed, conn) =>
              match mi_verb req with
              | Remove => apply_remove id (mi_name req) (conn, ch)
              | Install => apply_install peer id req (conn, ch)
              end
          end
      end
  end.

(** On the owner channel: only the import of a blob. *)
Definition serve_mod_install_owner (request : Request) : Serve :=
  let id := id_string request in
  match rq_params request with
  | [Text path] =>
      match mh_importer host with
      | None => mod_error id EngineError "no blob store is wired on this node"
      | Some importer =>
          match importer path with
          | Err e => mod_error id EngineError ("importing the wasm failed: " +:+ e)
          | Ok (hash, bytes) =>
              tell_all (one_row id [("hash", Text ("blake3:" +:+ hash)); ("bytes", Integer (as_i64 bytes))])
          end
      end
  | [] => mod_error id ModUnsupported
            "install mods locally with `rsntr mod add`; the owner-lane mod-install modulation only imports a wasm blob (one path parameter)"
  | _ => mod_error id ProtocolErrorCode "the owner-lane mod-install carries at most one parameter: the wasm source path"
  end.
End lanes.

(** ** Pages *)

(** [split_once(char::is_whitespace)]. *)
Fixpoint split_ws (s : string) : option (string * string) :=
  match strip_any ws_encodings s with
  | Some rest => Some ("", rest)
  | None => match s with
            | "" => None
            | String c s' => match split_ws s' with
                             | Some (l, r) => Some (String c l, r)
                             | None => None
                             end
            end
  end.

Definition page_name (signal : string) : option string :=
  match split_ws (trim signal) with
  | Some (verb, rest) => if bool_decide (verb = "hologram") && negb (is_empty (trim rest)) then Some (trim rest) else None
  | None => None
  end.

Fixpoint position_ (want : string) (columns : list string) : option nat :=
  match columns with
  | [] => None
  | c :: columns' => if bool_decide (c = want) then Some O else S <$> position_ want columns'
  end.

(** The text of a cell; anything else is empty. *)
Definition page_cell (columns : list string) (row : list CellRef) (want : string) : string :=
  match (i ← position_ want columns; row !! i) with
  | Some (RText t) => t
  | _ => ""
  end.

Definition pages_iri (local : string) : string := RSNTR_NS +:+ local.
Definition simple (s : string) : Term := TLit (mkLiteral s XSD_STRING None).
Definition whole (n : Z) : Term := TLit (mkLiteral (int_to_string n) XSD_INTEGER None).

Definition RAW_CHUNK : nat := Z.to_nat (128 * 1024).

(** The product wraps as [usize] does. *)
Definition page_ceiling (config : NodeConfig) : Z := ((max_response_bytes config mod 2 ^ 64) * 3) mod 2 ^ 64 / 4.

Section pages.
Context {D : Type} `{HQ : !Sqlite D} `{HR : !RowIds} `{HD : !AuthDebug} `{HN : !NodeText} `{HJ : !ChainJson} `{HU : !UlidLib} `{HB : !Base64}.
Abbreviation Serve := (@Serve D).
Variable self : Node (D:=D).

Definition hologram_header (name content_type : string) (size : Z) : EnvelopeObject :=
  OGeneric (mkGeneric "Hologram" [(pages_iri "contentType", simple content_type); (pages_iri "size", whole size);
                                  (pages_iri "name", simple name)]).

Definition hologram_chunk (i : nat) (slice : list Byte.byte) : EnvelopeObject :=
  OGeneric (mkGeneric "Chunk" [(pages_iri "seq", whole (Z.of_nat i));
                               (pages_iri "data", TLit (mkLiteral (b64_encode slice) XSD_BASE64_BINARY None))]).

Definition hologram (id name html content_type : string) : list EnvelopeObject :=
  let bytes := as_bytes html in
  let slices := chunks RAW_CHUNK bytes in
  hologram_header name content_type (zlen bytes) :: imap hologram_chunk slices ++
  [ODone (mkDone id (Some (zlen slices)) None None false)].

Definition answer_page (id name : string) (columns : list string) (row : list CellRef) : Serve :=
  let html := page_cell columns row "html" in
  let ct := page_cell columns row "content_type" in
  let ct := if is_empty ct then "text/html; charset=utf-8" else ct in
  let ceiling := page_ceiling (nn_config self) in
  if ceiling <? str_size html then
    send_error (Some id) LimitExceeded
      ("page " +:+ debug_str name +:+ " is " +:+ int_to_string (str_size html) +:+ " bytes; the ceiling is " +:+ int_to_string ceiling)
  else tell_all (hologram id name html ct).

Definition page_sql : string := "SELECT html, content_type FROM pages WHERE name = ?1".

(** The row, read as the peer; [None]: the statement does not end. *)
Definition page_read (peer id name : string) (conn : NConn D) : option (ModDbOutcome * NConn D) :=
  let '(known, conn) := peer_known peer conn in
  if negb known then Some (MDenied "unknown peer", conn)
  else run_mod_statement peer id (nn_chain self) (nn_config self) page_sql [Text name] false conn.

Definition serve_pages (peer : string) (request : Request) : Serve := fun '(conn, ch) =>
  let id := id_string request in
  match page_name (rq_signal request) with
  | None => send_error (Some id) PointUnknown "the pages modulation serves `hologram <name>`" (conn, ch)
  | Some name =>
      match page_read peer id name conn with
      | None => (conn, ch)
      | Some (MRows columns [], conn) => send_error (Some id) PointUnknown ("no page named " +:+ debug_str name) (conn, ch)
      | Some (MRows columns (row :: _), conn) => answer_page id name columns row (conn, ch)
      | Some (MDenied reason, conn) =>
          send_denied (Some id) (if bool_decide (reason = "unknown peer") then unknown_peer_reason else reason) (conn, ch)
      | Some (MError message, conn) => send_error (Some id) EngineError message (conn, ch)
      | Some (MExecuted _, conn) => send_error (Some id) EngineError "unexpected write result for a page read" (conn, ch)
      end
  end.
End pages.

(** * Who may install what *)

Section granted.
Context {D : Type} `{HR : !RowIds} `{HN : !NodeText} `{HS : !Sha256} `{HP : !ParkedJson}.
Implicit Types (d : NodeDb D) (c : NConn D).

Lemma matches_cases peer name action effect c b c' :
  policy_matches peer name action effect c = (b, c') ->
  quiet c c' /\ (b = true -> policy_says (n_db c) peer name action effect = true) /\
  (n_healthy c -> b = policy_says (n_db c) peer name action effect).
Proof.
  intros E. split_and!; [by eapply policy_match_cases| |by eapply policy_match_cases].
  unfold policy_matches, source_policy_match in E. destruct (nquery _ c) as [r c1] eqn:Eq.
  apply nquery_cases in Eq as (_ & _ & Hok). intros ->. destruct r as [b'|e]; simplify_eq.
  specialize (Hok _ eq_refl). unfold policy_says, nneed in *. by destruct (db_policy _); simplify_eq/=.
Qed.

(** A rule allows it and, as long as the rules can be read, none denies it. *)
Definition granted peer name action c : Prop :=
  policy_says (n_db c) peer name action "allow" = true /\
  (n_healthy c -> policy_says (n_db c) peer name action "deny" = false).

Lemma granted_back peer name action c c' : quiet c c' -> granted peer name action c' -> granted peer name action c.
Proof. intros (Hd & _ & Hh) [Ha Hn]. split; [by rewrite <-Hd|]. intros Hc. rewrite <-Hd. auto. Qed.

Lemma missing_caps_cases peer name caps : forall c missing c',
  missing_caps peer name caps c = (missing, c') ->
  quiet c c' /\ (missing = [] -> Forall (fun cap => granted peer name ("mod-cap:" +:+ cap) c) caps).
Proof.
  induction caps as [|cap caps IH]; intros c missing c'; cbn [missing_caps]; [by intros [= <- <-]|].
  destruct (policy_matches _ _ _ "deny" c) as [denied c1] eqn:E1. apply matches_cases in E1 as (Hq1 & _ & Hd).
  destruct denied.
  - destruct (missing_caps _ _ _ c1) as [rest c2] eqn:E2. apply IH in E2 as [Hq2 _]. intros [= <- <-].
    split; [by etrans|done].
  - destruct (policy_matches _ _ _ "allow" c1) as [allowed c2] eqn:E2. apply matches_cases in E2 as (Hq2 & Ha & _).
    destruct (missing_caps _ _ _ c2) as [rest c3] eqn:E3. apply IH in E3 as [Hq3 Hrest]. intros [= <- <-].
    assert (quiet c c2) as Hq by (by etrans). split; [by etrans|]. destruct allowed; cbn; [|done]. intros ->.
    constructor.
    + split; [rewrite <-(proj1 Hq1); auto|]. intros Hc. by rewrite <-Hd.
    + eapply Forall_impl; [by apply Hrest|]. intros cap' Hg. by eapply granted_back.
Qed.

(** The data stays, and statements go on not failing. *)
Definition steady c c' : Prop := same_data (n_db c) (n_db c') /\ (n_healthy c -> n_healthy c').

#[local] Instance steady_preorder : PreOrder steady.
Proof. split; [by intros c|]. intros c1 c2 c3 [H1 G1] [H2 G2]. split; [by etrans|auto]. Qed.

Lemma steady_quiet c c' : quiet c c' -> steady c c'.
Proof. intros Hq. split; [by apply same_data_quiet|apply Hq]. Qed.

Lemma park_steady peer signal name c r c' : park_install peer signal name c = (r, c') -> steady c c'.
Proof.
  unfold park_install. destruct (nquery _ c) as [q c1] eqn:E1. apply nquery_cases in E1 as (Hq & _). apply steady_quiet in Hq.
  destruct q as [[|]|e]; [by intros [= _ <-]| |by intros [= _ <-]].
  cbn. destruct (params_to_json _) as [json|]; [|by intros [= _ <-]].
  destruct (nsql _ _) as [r2 c2] eqn:E2. intros [= _ <-]. etrans; [exact Hq|].
  apply nsql_cases in E2 as [(e & _ & (Hd & _ & Hh) & _)|(a & d & _ & Hf & Hd & _ & Hh)];
    (split; [rewrite Hd|exact Hh]); [done|].
  cbn in Hf. destruct (insert_inbox _ _); [|done]. cbn in Hf. injection Hf as _ <-. done.
Qed.

Lemma direct_steady peer id signal decision by_ reason c : steady c (audit_direct peer id signal decision by_ reason c).
Proof.
  unfold audit_direct, audit_direct_dir. destruct (audit_full_dir _ c) as [i c'] eqn:E.
  split; [by eapply audit_data|by apply audit_cases in E as (_ & ? & _)].
Qed.

(** What the gate leaves, and what it means that it opens. *)
Lemma install_gate_cases peer id name caps signal c r c' :
  gate peer id name caps signal c = (r, c') ->
  steady c c' /\
  (r = Some GateAllowed -> known_peer (n_db c) peer = true /\ granted peer name "mod-install" c /\
                           Forall (fun cap => granted peer name ("mod-cap:" +:+ cap) c) caps).
Proof.
  unfold gate. destruct (peer_known peer c) as [known c1] eqn:E1. apply peer_known_cases in E1 as (Hq1 & Hk & _).
  pose proof (steady_quiet _ _ Hq1) as H1.
  destruct known; cbn [negb]; [|intros [= <- <-]; split; [etrans; [exact H1|apply direct_steady]|done]].
  destruct (policy_matches _ _ _ "deny" c1) as [denied c2] eqn:E2. apply matches_cases in E2 as (Hq2 & _ & Hd).
  assert (quiet c c2) as H2 by (by etrans). pose proof (steady_quiet _ _ H2) as S2.
  destruct denied; [intros [= <- <-]; split; [etrans; [exact S2|apply direct_steady]|done]|].
  destruct (policy_matches _ _ _ "allow" c2) as [allowed c3] eqn:E3. apply matches_cases in E3 as (Hq3 & Ha & _).
  assert (quiet c c3) as H3 by (by etrans). pose proof (steady_quiet _ _ H3) as S3. destruct allowed; cbn [negb].
  - destruct (missing_caps _ _ _ c3) as [missing c4] eqn:E4. apply missing_caps_cases in E4 as [Hq4 Hm].
    assert (quiet c c4) as H4 by (by etrans). pose proof (steady_quiet _ _ H4) as S4.
    destruct missing as [|m l]; intros [= <- <-]; (split; [etrans; [exact S4|apply direct_steady]|]); [|done].
    intros _. split; [auto|]. split.
    + split; [rewrite <-(proj1 H2); auto|]. intros Hc. rewrite <-(proj1 Hq1). symmetry. apply Hd. by apply Hq1.
    + eapply Forall_impl; [by apply Hm|]. intros cap Hg. by apply (granted_back _ _ _ c c3).
  - destruct (park_install _ _ _ c3) as [[[u|e]|] c4] eqn:E4; apply park_steady in E4; intros [= <- <-];
      (split; [|done]); (etrans; [exact S3|]); first [exact E4|etrans; [exact E4|apply direct_steady]].
Qed.

(** Without a JSON text for the parameters the job would panic; there always is
    one. *)
Lemma gate_answers peer id name caps signal c :
  (forall p, exists j, params_to_json p = Ok j) -> exists g, fst (gate peer id name caps signal c) = Some g.
Proof.
  intros Hj. unfold gate. destruct (peer_known peer c) as [known c1]. destruct known; cbn [negb]; [|by eexists].
  destruct (policy_matches _ _ _ "deny" c1) as [[|] c2]; [by eexists|].
  destruct (policy_matches _ _ _ "allow" c2) as [[|] c3]; cbn [negb].
  - destruct (missing_caps _ _ _ c3) as [[|m l] c4]; by eexists.
  - unfold park_install. destruct (nquery _ c3) as [[[|]|e] c4]; [by eexists| |by eexists].
    cbn. destruct (Hj (mkParkedParams "mod-install" (statement_fingerprint "mod-install" signal (install_footprint name)) (install_footprint name))) as [j ->].
    destruct (nsql _ _) as [[u|e] c5]; by eexists.
Qed.
End granted.

Section install.
Context {D : Type} `{HQ : !Sqlite D} `{HR : !RowIds} `{HD : !AuthDebug} `{HN : !NodeText} `{HJ : !ChainJson} `{HU : !UlidLib}.
Context `{HS : !Sha256} `{HP : !ParkedJson} `{HT : !OxTtl} `{HJP : !JsonPrint} `{HB : !Base64}.
Implicit Types (c : NConn D) (ch : Chan).

Definition mods_of c : option (gmap string ModRow) := sv_modulations (nd_surface (n_db c)).

Lemma same_mods c c' : steady c c' -> mods_of c' = mods_of c.
Proof. intros [(_ & _ & _ & _ & H) _]. unfold mods_of. by rewrite H. Qed.

(** C29. A mod-install request changes the table of mods only for a peer the node
    knows, whom a rule allows to install a mod of the name in its request; and to install
    one with capabilities, each of them is allowed too. As long as the rules can
    be read, none of this is denied by a rule. (It is the one lane that is meant
    to write the table; a mod with [db_write] can write it too, see
    [NodeGateProps.mods_bypass_reserved_guard].) *)
Theorem mods_need_grants (self : Node) (host : ModHost D) (peer : string) (request : Request) (c : NConn D) (ch : Chan) :
  mods_of (fst (serve_mod_install self host peer request (c, ch))) = mods_of c \/
  exists req, rq_params request = [] /\ parse (rq_signal request) = Ok req /\ name_ok (mi_name req) = true /\
    known_peer (n_db c) peer = true /\ granted peer (mi_name req) "mod-install" c /\
    (mi_verb req = Install -> Forall (fun cap => granted peer (mi_name req) ("mod-cap:" +:+ cap) c) (mi_caps req)).
Proof.
  unfold serve_mod_install. destruct (rq_params request) as [|v vs]; [|by left].
  destruct (parse _) as [req|e] eqn:Ep; [|by left].
  destruct (gate _ _ _ _ _ c) as [g c1] eqn:Eg. apply install_gate_cases in Eg as [Hs Hg].
  destruct g as [[|reason| |]|]; try (left; by apply same_mods).
  right. destruct (Hg eq_refl) as (Hk & Hi & Hcaps). exists req. split_and!; try done.
  - unfold parse in Ep. destruct (map_err _ _) as [triples|]; [|done]. cbn in Ep. unfold install_of in Ep.
    destruct (foldl _ _ _) as [[verb node]|]; [|done]. destruct (one _ "name") as [name|]; [|done]. cbn in Ep.
    destruct (name_ok name) eqn:En; by simplify_eq/=.
  - intros Hv. unfold gated_caps in Hcaps. by rewrite Hv in Hcaps.
Qed.
End install.

(** ** What an install leaves *)

Section effect.
Context {D : Type} `{HQ : !Sqlite D} `{HR : !RowIds} `{HD : !AuthDebug} `{HN : !NodeText} `{HJ : !ChainJson} `{HU : !UlidLib}.
Context `{HS : !Sha256} `{HP : !ParkedJson} `{HT : !OxTtl} `{HJP : !JsonPrint} `{HB : !Base64}.
Implicit Types (c : NConn D) (ch : Chan).
Variables (self : Node (D:=D)) (host : ModHost D).

(** Other jobs, and loading the mods, write nothing in the table. *)
Hypothesis meanwhile_keeps : forall c, mods_of (nn_meanwhile self c) = mods_of c.
Hypothesis reloading_keeps : forall reloader c, mh_reloader host = Some reloader -> mods_of (snd (reloader c)) = mods_of c.

Lemma reload_keeps c r c' : reload_mods host c = (r, c') -> mods_of c' = mods_of c.
Proof.
  unfold reload_mods. destruct (mh_reloader host) as [reloader|] eqn:E; [|by intros [= _ <-]].
  intros Hr. rewrite <-(reloading_keeps reloader c eq_refl). by rewrite Hr.
Qed.

Lemma nsql_mods {A} (f : gmap string ModRow -> A * gmap string ModRow) c r c' :
  nsql (fun d => let? t := need_mods d in Ok (fst (f t), put_mods (snd (f t)) d)) c = (r, c') ->
  match r with
  | Ok _ => exists t, mods_of c = Some t /\ mods_of c' = Some (snd (f t))
  | Err _ => mods_of c' = mods_of c
  end.
Proof.
  intros E. apply nsql_cases in E as [(e & -> & (Hd & _) & _)|(a & d & -> & Hf & Hd & _)].
  - unfold mods_of. by rewrite Hd.
  - unfold need_mods, nneed in Hf. unfold mods_of. destruct (sv_modulations _) as [t|]; [|done]. cbn in Hf.
    exists t. split; [done|]. rewrite Hd. by injection Hf as _ <-.
Qed.

Lemma upsert_mods name wasm sha caps limits note c r c' : upsert name wasm sha caps limits note c = (r, c') ->
  match r with
  | Ok _ => exists t, mods_of c = Some t /\
              mods_of c' = Some (<[name := enabled_row wasm sha caps limits note (t !! name)]> t)
  | Err _ => mods_of c' = mods_of c
  end.
Proof. exact (nsql_mods (fun t => (tt, <[name := enabled_row wasm sha caps limits note (t !! name)]> t)) c r c'). Qed.

Lemma set_enabled_mods name b c r c' : set_enabled name b c = (r, c') ->
  match r with
  | Ok _ => exists t, mods_of c = Some t /\ mods_of c' = Some (alter (with_enabled b) name t)
  | Err _ => mods_of c' = mods_of c
  end.
Proof. exact (nsql_mods (fun t => (tt, alter (with_enabled b) name t)) c r c'). Qed.

Lemma remove_mods name c r c' : remove name c = (r, c') ->
  match r with
  | Ok _ => exists t, mods_of c = Some t /\ mods_of c' = Some (delete name t)
  | Err _ => mods_of c' = mods_of c
  end.
Proof. exact (nsql_mods (fun t => (bool_decide (is_Some (t !! name)), delete name t)) c r c'). Qed.

(** The row of the install, enabled or, when it was refused, not. *)
Definition installed (req : ModInstall) (wasm : list Byte.byte) (old : option ModRow) (b : bool) : ModRow :=
  with_enabled b (enabled_row wasm (sha256_hex wasm) (caps_json req) (limits_json self req) (mi_note req) old).

Lemma load_installed_mods id req sha c ch row t :
  mods_of c = Some (<[mi_name req := row]> t) -> mo_enabled row = true ->
  exists b, mods_of (fst (load_installed self host id req sha (c, ch))) = Some (<[mi_name req := with_enabled b row]> t).
Proof.
  intros Hc Hrow. assert (with_enabled true row = row) as Hsame by (destruct row; cbn in *; by subst).
  unfold load_installed. destruct (reload_mods host c) as [r c1] eqn:E1. apply reload_keeps in E1.
  destruct r as [refused|e]; [|exists true; rewrite Hsame; cbn; by rewrite E1].
  destruct (List.find _ refused) as [[n reason]|]; [|exists true; rewrite Hsame; cbn; by rewrite E1].
  destruct (set_enabled _ _ c1) as [r2 c2] eqn:E2. apply set_enabled_mods in E2.
  destruct r2 as [u|e]; [|exists true; rewrite Hsame; cbn; by rewrite E2, E1].
  destruct E2 as (t2 & Ht2 & Hc2). destruct (reload_mods host c2) as [r3 c3] eqn:E3. apply reload_keeps in E3.
  exists false. cbn. rewrite E3, Hc2. f_equal. rewrite E1, Hc in Ht2. injection Ht2 as <-. by rewrite alter_insert_eq.
Qed.

(** An allowed request removes the mod, or puts the bytes that were fetched, at
    most four MiB of them, under its name, with their hash, the capabilities asked
    for and limits within the ceilings of the node; and nothing else changes. *)
Theorem installs_as_asked (peer : string) (request : Request) (req : ModInstall) (c : NConn D) (ch : Chan)
    (Hparse : parse (rq_signal request) = Ok req) :
  let after := mods_of (fst (serve_mod_install self host peer request (c, ch))) in
  after = mods_of c \/ exists t, mods_of c = Some t /\
    match mi_verb req with
    | Remove => after = Some (delete (mi_name req) t)
    | Install => exists wasm b, fetch_wasm host peer req = Ok wasm /\ zlen wasm <= MAX_WASM_BYTES /\
        after = Some (<[mi_name req := installed req wasm (t !! mi_name req) b]> t) /\
        eff_timeout self req <= max_duration_ms (nn_config self) /\ eff_memory self req <= max_mod_memory_mb (nn_config self)
    end.
Proof.
  cbn zeta. unfold serve_mod_install. destruct (rq_params request) as [|v vs]; [|by left]. rewrite Hparse.
  destruct (gate _ _ _ _ _ c) as [g c1] eqn:Eg. apply install_gate_cases in Eg as [Hs _]. apply same_mods in Hs.
  destruct g as [[|reason| |]|]; try (left; exact Hs). destruct (mi_verb req).
  - unfold apply_install. destruct (fetch_wasm host peer req) as [wasm|[code reason]] eqn:Ef; [|left; exact Hs].
    destruct (upsert _ _ _ _ _ _ _) as [r c2] eqn:E2. apply upsert_mods in E2. rewrite meanwhile_keeps, Hs in E2.
    destruct r as [u|e]; [|by left]. destruct E2 as (t & Ht & Hc2). right. exists t. split; [done|]. exists wasm.
    destruct (load_installed_mods (id_string request) req (sha256_hex wasm) c2 ch _ t Hc2 eq_refl) as [b Hb].
    exists b. split_and!; try done.
    + unfold fetch_wasm in Ef. destruct (ok_or _ (mi_hash req)) as [hash|]; [|done]. cbn in Ef.
      destruct (ok_or _ (mh_fetcher host)) as [fetcher|]; [|done]. cbn in Ef.
      destruct (map_err _ _) as [bytes|]; [|done]. cbn in Ef. destruct (Z.ltb_spec MAX_WASM_BYTES (zlen bytes)); [done|].
      destruct (mi_bytes req) as [n|]; [destruct (negb _)|]; by simplify_eq.
    + unfold eff_timeout. destruct (mi_timeout_ms req); lia.
    + unfold eff_memory. lia.
  - unfold apply_remove. destruct (remove _ _) as [r c2] eqn:E2. apply remove_mods in E2. rewrite meanwhile_keeps, Hs in E2.
    destruct r as [u|e]; [|by left]. destruct E2 as (t & Ht & Hc2). right. exists t. split; [done|].
    destruct (reload_mods host c2) as [r3 c3] eqn:E3. apply reload_keeps in E3. rewrite <-Hc2, <-E3. by destruct r3.
Qed.
End effect.

(** ** The answers *)

Lemma one_row_response id cells : response id (one_row id cells).
Proof.
  apply resp_result; [done|]. cbn [rh_columns]. eapply (rows_batch _ _ _ [mkRow 0 cells] 1); [done| |by apply rows_end, end_done].
  constructor; [done| |constructor]. cbn. apply Forall_forall. intros [name v] Hin. by apply (list_elem_of_fmap_2 fst) in Hin.
Qed.

Section answers.
Context {D : Type} `{HQ : !Sqlite D} `{HR : !RowIds} `{HD : !AuthDebug} `{HN : !NodeText} `{HJ : !ChainJson} `{HU : !UlidLib}.
Context `{HS : !Sha256} `{HP : !ParkedJson} `{HT : !OxTtl} `{HJP : !JsonPrint} `{HB : !Base64}.
Implicit Types (c : NConn D).
Variables (self : Node (D:=D)) (host : ModHost D).

(** The table of mods is there, and statements do not fail. *)
Definition ready c : Prop := n_healthy c /\ is_Some (mods_of c).

Hypothesis always_json : forall p, exists j, params_to_json p = Ok j.
Hypothesis meanwhile_ready : forall c, ready c -> ready (nn_meanwhile self c).
Hypothesis reloading_ready : forall reloader c, mh_reloader host = Some reloader -> ready c -> ready (snd (reloader c)).

Lemma reload_ready c r c' : reload_mods host c = (r, c') -> ready c -> ready c'.
Proof.
  unfold reload_mods. destruct (mh_reloader host) as [reloader|] eqn:E; [|by intros [= _ <-]].
  intros Hr Hc. pose proof (reloading_ready reloader c eq_refl Hc) as H. by rewrite Hr in H.
Qed.

Lemma nsql_ready {A} (f : gmap string ModRow -> A * gmap string ModRow) c :
  ready c -> exists a c', nsql (fun d => let? t := need_mods d in Ok (fst (f t), put_mods (snd (f t)) d)) c = (Ok a, c') /\ ready c'.
Proof.
  intros [Hc [t Ht]]. destruct (nsql _ c) as [r c'] eqn:E. pose proof E as E'. apply nsql_mods in E'.
  apply nsql_cases in E as [(e & -> & _ & Hf)|(a & d & -> & Hf & Hd & _ & Hh)].
  - specialize (Hf Hc). unfold need_mods, nneed in Hf. unfold mods_of in Ht. by rewrite Ht in Hf.
  - exists a, c'. split; [done|]. split; [auto|]. destruct E' as (t' & _ & ->). by eexists.
Qed.

Lemma apply_remove_response id name c : ready c -> response id (ch_sent (snd (apply_remove self host id name (c, mkChan [] None)))).
Proof.
  intros Hc. unfold apply_remove.
  destruct (nsql_ready (fun t => (bool_decide (is_Some (t !! name)), delete name t)) _ (meanwhile_ready c Hc)) as (b & c2 & E & Hc2).
  change (remove name (nn_meanwhile self c) = (Ok b, c2)) in E. rewrite E.
  destruct (reload_mods host c2) as [[l|e] c3]; [apply one_row_response|apply resp_error; by right].
Qed.

Lemma load_installed_response id req sha c :
  ready c -> response id (ch_sent (snd (load_installed self host id req sha (c, mkChan [] None)))).
Proof.
  intros Hc. unfold load_installed. destruct (reload_mods host c) as [r c1] eqn:E1. apply reload_ready in E1; [|done].
  destruct r as [refused|e]; [|apply resp_error; by right].
  destruct (List.find _ refused) as [[n reason]|]; [|apply one_row_response].
  destruct (nsql_ready (fun t => (tt, alter (with_enabled false) (mi_name req) t)) c1 E1) as (u & c2 & E & Hc2).
  change (set_enabled (mi_name req) false c1 = (Ok u, c2)) in E. rewrite E.
  destruct (reload_mods host c2) as [r3 c3]. apply resp_error. by right.
Qed.

Lemma serve_mod_install_response peer request c :
  ready c -> response (id_string request) (ch_sent (snd (serve_mod_install self host peer request (c, mkChan [] None)))).
Proof.
  intros Hc. unfold serve_mod_install. destruct (rq_params request) as [|v vs]; [|apply resp_error; by right].
  destruct (parse _) as [req|e]; [|apply resp_error; by right].
  destruct (gate_answers peer (id_string request) (mi_name req) (gated_caps req) (rq_signal request) c always_json) as [g Hg].
  destruct (gate _ _ _ _ _ c) as [g' c1] eqn:Eg. cbn in Hg. subst g'. apply install_gate_cases in Eg as [Hst _].
  assert (ready c1) as Hc1.
  { split; [by apply Hst, Hc|]. rewrite (same_mods _ _ Hst). apply Hc. }
  destruct g as [|reason| |]; try (apply resp_denied; by right). destruct (mi_verb req); [|by apply apply_remove_response].
  unfold apply_install. destruct (fetch_wasm host peer req) as [wasm|[code reason]]; [|apply resp_error; by right].
  match goal with |- context [upsert ?n ?w ?s ?cj ?lj ?note _] =>
    destruct (nsql_ready (fun t => (tt, <[n := enabled_row w s cj lj note (t !! n)]> t)) _ (meanwhile_ready c1 Hc1)) as (u & c2 & E & Hc2);
    change (upsert n w s cj lj note (nn_meanwhile self c1) = (Ok u, c2)) in E end.
  rewrite E. by apply load_installed_response.
Qed.

Lemma serve_mod_install_owner_response request c :
  response (id_string request) (ch_sent (snd (serve_mod_install_owner host request (c, mkChan [] None)))).
Proof.
  unfold serve_mod_install_owner. destruct (rq_params request) as [|[] [|? ?]]; try (apply resp_error; by right).
  destruct (mh_importer host) as [importer|]; [|apply resp_error; by right].
  destruct (importer _) as [[hash bytes]|e]; [apply one_row_response|apply resp_error; by right].
Qed.
End answers.

(** ** A page reads back *)

Section hologram.
Context {D : Type} `{HQ : !Sqlite D} `{HR : !RowIds} `{HD : !AuthDebug} `{HN : !NodeText} `{HJ : !ChainJson} `{HU : !UlidLib} `{HB : !Base64}.
Context `{HBL : !Base64Laws}.

(** What a client takes from a frame: the bytes of a chunk, its number. *)
Definition prop_of (g : Generic) (local : string) : option string :=
  match List.find (fun kv => bool_decide (fst kv = pages_iri local)) (gn_props g) with
  | Some (_, TLit l) => Some (lit_value l)
  | _ => None
  end.

Definition chunk_of (obj : EnvelopeObject) : option (string * list Byte.byte) :=
  match obj with
  | OGeneric g =>
      if bool_decide (gn_class g = "Chunk") then
        n ← prop_of g "seq"; data ← prop_of g "data";
        match b64_decode data with Ok bs => Some (n, bs) | Err _ => None end
      else None
  | _ => None
  end.

Lemma hologram_chunk_of i slice : chunk_of (hologram_chunk i slice) = Some (int_to_string (Z.of_nat i), slice).
Proof.
  unfold chunk_of, hologram_chunk. cbn [gn_class]. rewrite bool_decide_eq_true_2 by done.
  unfold prop_of. cbn [gn_props List.find fst]. rewrite (bool_decide_eq_true_2 (pages_iri "seq" = pages_iri "seq")) by done.
  rewrite (bool_decide_eq_true_2 (pages_iri "data" = pages_iri "data")) by done. rewrite (bool_decide_eq_false_2 (pages_iri "seq" = pages_iri "data")) by (by vm_compute).
  cbn [mbind option_bind snd whole lit_value]. cbn.
  by rewrite b64_roundtrip.
Qed.

Lemma hologram_chunks id name html ct :
  omap chunk_of (hologram id name html ct) = imap (fun i slice => (int_to_string (Z.of_nat i), slice)) (chunks RAW_CHUNK (as_bytes html)).
Proof.
  unfold hologram. cbn zeta. set (slices := chunks RAW_CHUNK (as_bytes html)).
  transitivity (omap chunk_of (imap hologram_chunk slices ++ [ODone (mkDone id (Some (zlen slices)) None None false)])); [done|].
  rewrite omap_app. change (omap chunk_of [ODone (mkDone id (Some (zlen slices)) None None false)]) with (@nil (string * list Byte.byte)).
  rewrite app_nil_r. clearbody slices. revert slices.
  assert (forall k slices, omap chunk_of (imap (hologram_chunk ∘ (plus k)) slices) =
            imap ((fun i slice => (int_to_string (Z.of_nat i), slice)) ∘ (plus k)) slices) as H.
  { intros k slices. revert k. induction slices as [|slice slices IH]; intros k; [done|].
    rewrite !imap_cons.
    match goal with |- omap chunk_of (?x :: ?l) = _ =>
      change (omap chunk_of (x :: l)) with (match chunk_of x with Some y => y :: omap chunk_of l | None => omap chunk_of l end) end.
    cbn [compose]. rewrite hologram_chunk_of. f_equal.
    assert (forall A (f : nat -> list Byte.byte -> A), imap ((f ∘ plus k) ∘ S) slices = imap (f ∘ plus (S k)) slices) as Hs.
    { intros A f. apply imap_ext. intros i x _. cbn. by rewrite Nat.add_succ_r. }
    rewrite !Hs. apply IH. }
  intros slices. exact (H O slices).
Qed.

Lemma generics_frames id l n : generics_body id (imap hologram_chunk l ++ [ODone (mkDone id n None None false)]).
Proof.
  assert (forall k, generics_body id (imap (hologram_chunk ∘ (plus k)) l ++ [ODone (mkDone id n None None false)])) as H.
  { induction l as [|slice l IH]; intros k; [by apply generics_end, end_done|]. rewrite imap_cons. apply generics_next.
    erewrite imap_ext; [apply (IH (S k))|]. intros i x _. cbn. by rewrite Nat.add_succ_r. }
  exact (H O).
Qed.

(** A page that its reader may see arrives whole: the frames are a response of
    the protocol, the chunks are numbered from 0, none is empty or larger than 128
    KiB, and together they are the bytes of the row. *)
Theorem page_reads_back (self : Node) (peer : string) (request : Request) (name : string) (columns : list string)
    (row : list CellRef) (rest : list (list CellRef)) (c c1 : NConn D)
    (Hname : page_name (rq_signal request) = Some name)
    (Hread : page_read self peer (id_string request) name c = Some (MRows columns (row :: rest), c1))
    (Hfits : str_size (page_cell columns row "html") <= page_ceiling (nn_config self)) :
  let frames := ch_sent (snd (serve_pages self peer request (c, mkChan [] None))) in
  response (id_string request) frames /\
  concat (map snd (omap chunk_of frames)) = as_bytes (page_cell columns row "html") /\
  map fst (omap chunk_of frames) = map (fun i => int_to_string (Z.of_nat i)) (seq 0 (length (omap chunk_of frames))) /\
  Forall (fun bytes => (0 < length bytes <= RAW_CHUNK)%nat) (map snd (omap chunk_of frames)).
Proof.
  cbn zeta. unfold serve_pages. rewrite Hname, Hread. unfold answer_page.
  destruct (Z.ltb_spec (page_ceiling (nn_config self)) (str_size (page_cell columns row "html"))); [lia|].
  cbn [tell_all snd]. rewrite send_all_open. cbn [app]. set (slices := chunks RAW_CHUNK (as_bytes (page_cell columns row "html"))).
  assert (0 < RAW_CHUNK)%nat as Hpos by (unfold RAW_CHUNK; lia).
  assert (forall ct, omap chunk_of (hologram (id_string request) name (page_cell columns row "html") ct) =
                     imap (fun i slice => (int_to_string (Z.of_nat i), slice)) slices) as Hchunks by (intros ct; apply hologram_chunks).
  rewrite !Hchunks.
  assert (map snd (imap (fun i slice => (int_to_string (Z.of_nat i), slice)) slices) = slices) as Hsnd.
  { apply list_eq. intros i. rewrite list_lookup_fmap, list_lookup_imap. by destruct (slices !! i). }
  split_and!.
  - apply resp_generics, generics_frames.
  - rewrite Hsnd. by apply chunks_concat.
  - apply list_eq. intros i. rewrite length_imap, !list_lookup_fmap, list_lookup_imap.
    destruct (slices !! i) as [x|] eqn:E; cbn.
    + rewrite lookup_seq_lt by (by eapply lookup_lt_Some). done.
    + rewrite lookup_seq_ge by (by apply lookup_ge_None). done.
  - rewrite Hsnd. by apply chunks_sizes.
Qed.
End hologram.

(** * The lanes of the node together *)

Section whole.
Context {D : Type} `{HQ : !Sqlite D} `{HR : !RowIds} `{HD : !AuthDebug} `{HO : !AppliedJson} `{HN : !NodeText}.
Context `{HJ : !ChainJson} `{HU : !UlidLib} `{HF : !FrameText} `{HP : !RdfTables D} `{HE : !SparqlStore.SqlEngine}.
Context `{HX : !OxRdf} `{HX2 : !OxDisplay} `{HA : !AffectedJson} `{HW : !JsonText} `{HJP : !JsonPrint} `{HT : !OxTtl}.
Context `{HS : !Sha256} `{HPJ : !ParkedJson} `{HB : !Base64} `{HF64 : !F64Text} `{HH : !NodeApps.AppHost D} `{HI : !NodeSystem.PolicyIds}.
Implicit Types (c : NConn D).
Variables (self : Node (D:=D)) (host : ModHost D) (others : Lanes (D:=D)).

(** The dispatch of NodeServe with the lanes modelled here and in NodeSystem;
    entrainment keeps its registry elsewhere, and media streams bytes. *)
Definition node_lanes : Lanes (D:=D) :=
  mkLanes
    (fun peer id signal lane => NodeSystem.serve_system_lane (frame_byte_budget (nn_config self)) peer id signal lane)
    (ln_entrain others) (ln_media others) (ln_audio_duplex others)
    (fun peer request lane => match lane with
                              | Remote => serve_mod_install self host peer request
                              | Owner => serve_mod_install_owner host request
                              end)
    (fun peer request => serve_pages self peer request).

(** A request to install or remove a mod, or for the graph of the system, sent
    as a frame, is answered with a response that the reader of the client takes to
    a clean end, on a node whose statements do not fail. *)
Theorem lanes_are_answered (peer : string) (req : Request) (c : NConn D)
    (Hlaws : UlidLaws) (Hid : length (rq_id req) = 16%nat)
    (Hmod : rq_modulation req = "mod-install" \/ (rq_modulation req = "system" /\ rq_kind req = Query))
    (Hready : ready c) (Hjson : forall p, exists j, params_to_json p = Ok j)
    (Hmean : forall c, ready c -> ready (nn_meanwhile self c))
    (Hload : forall reloader c, mh_reloader host = Some reloader -> ready c -> ready (snd (reloader c)))
    (Hfits : forall triples sections c', NodeSystem.build_system_graph peer false c = (Ok (triples, sections), c') ->
               zlen triples < I64_MAX) :
  exists evs r,
    accept_all (ch_sent (snd (dispatch self node_lanes peer (to_envelope req) (c, mkChan [] None))))
      (ResponseReader_new (id_string req)) = (Ok evs, r) /\ finish r = Ok tt.
Proof.
  apply accepted. destruct Hmod as [Hmod|[Hmod Hkind]].
  - assert (dispatch self node_lanes peer (to_envelope req) (c, mkChan [] None) =
            serve_mod_install self host peer req (c, mkChan [] None)) as ->; [|by apply serve_mod_install_response].
    assert (dispatch_request self node_lanes Remote peer (to_envelope req) (c, mkChan [] None) =
            serve_mod_install self host peer req (c, mkChan [] None)) as Hr.
    { unfold dispatch_request. by rewrite from_to_envelope, Hmod. }
    rewrite <-Hr. unfold to_envelope. destruct (rq_kind req); cbn -[dispatch_request]; [|done]. by rewrite Hmod.
  - assert (dispatch self node_lanes peer (to_envelope req) (c, mkChan [] None) =
            NodeSystem.serve_system_lane (frame_byte_budget (nn_config self)) peer (id_string req) (rq_signal req) Remote
              (c, mkChan [] None)) as ->.
    { unfold to_envelope. rewrite Hkind. cbn -[NodeSystem.serve_system_lane]. by rewrite Hmod. }
    unfold NodeSystem.serve_system_lane. destruct (negb _); [apply resp_error; by right|].
    rewrite (bool_decide_eq_false_2 (Remote = Owner)) by done.
    destruct (NodeSystem.build_system_graph peer false c) as [[[triples sections]|e] c'] eqn:E; cbn.
    + rewrite send_all_open. apply graph_chunks_response; [by apply end_done|]. specialize (Hfits _ _ _ eq_refl).
      unfold zlen in Hfits. lia.
    + apply resp_error. by right.
Qed.
End whole.

(** ** A mod installed, and a denial that is not read *)

Module Installer.

#[local] Existing Instance low_ids.
#[local] Existing Instance plain_text.
#[local] Existing Instance note_sqlite.
#[local] Existing Instance open_json.
#[local] Instance plain_action : AuthDebug := { action_debug := fun _ => "Action" }.
#[local] Instance tiny_sha : Sha256 := { sha256 := fun _ => [Byte.xab] }.
#[local] Instance plain_parked : ParkedJson :=
  { params_to_json := fun p => Ok (pk_fingerprint p); params_from_json := fun _ => Err "json";
    json_fingerprint := fun s => Ok (Some s) }.
#[local] Instance comma_print : JsonPrint := { json_of_strings := RustStd.join "," }.

(** One document: bob's wiki, which wants to read the database. *)
Definition wiki : list Triple :=
  let says p o := mkTriple (BNode "m") p o in
  [says RDF_TYPE (TNamed (rsntr "ModInstall")); says (rsntr "name") (simple "wiki");
   says (rsntr "hash") (simple "blake3:00"); says (rsntr "caps") (simple "db_read"); says (rsntr "memoryMb") (whole 4096)].
#[local] Instance one_document : OxTtl := { ttl_items := fun _ _ => map Ok wiki }.

Definition rule action effect : PolicyRow := mkPolicyRow (SText "alice") (SText "wiki") (SText action) (SText effect) SNull.

Definition ruled (rules : list PolicyRow) (faults : list (option SqlError)) : NConn (list string) :=
  let d := demo_db [] in
  let a := nd_auth d in
  set_faults faults
    (set_db (set_surface (set_modulations ∅ (nd_surface d))
               (set_auth (mkDb (db_rsntr a) (Some rules) (db_decisions a) (Some []) (db_peers a) (db_scripts a)) d)) (demo_conn [])).

Definition demo_node : Node (D:=list string) := mkNode open_chain NodeConfig_default None id None.
Definition demo_host : ModHost (list string) :=
  mkModHost (Some (fun _ _ _ => Ok [Byte.x00])) None (Some (fun c => (Ok [], c))).
Definition install : Request := mkRequest (repeat Byte.x00 16) Execute "mod-install" "" [] None RequestOptions_default.

Definition serve rules faults : NConn (list string) * Chan :=
  serve_mod_install demo_node demo_host "alice" install (ruled rules faults, mkChan [] None).

(** Allowed with its capability, the mod is stored enabled, its memory cut to
    the ceiling of the node; without the capability it is not. *)
Example allowed_mod_is_stored :
  (fun t => mo_limits <$> t !! "wiki") <$> mods_of (fst (serve [rule "mod-install" "allow"; rule "mod-cap:db_read" "allow"] [])) =
    Some (Some (SText (jq "{'timeout_ms':30000,'memory_mb':256}"))) /\
  mods_of (fst (serve [rule "mod-install" "allow"] [])) = Some ∅.
Proof. split; vm_compute; reflexivity. Qed.

(** An error while the denying rules are looked up is taken for no denial: the
    third statement fails, and the mod is installed although a rule denies it. *)
Example failed_deny_read_opens :
  let rules := [rule "mod-install" "deny"; rule "mod-install" "allow"; rule "mod-cap:db_read" "allow"] in
  mods_of (fst (serve rules [])) = Some ∅ /\
  (fun t => mo_enabled <$> t !! "wiki") <$> mods_of (fst (serve rules [None; None; Some (sql_failure "disk I/O error")])) =
    Some (Some true).
Proof. split; vm_compute; reflexivity. Qed.
End Installer.
