(* ===== verification/NodeMedia.v ===== *)
(** * NodeMedia: media sources, streamed

    Models [crates/node/src/media.rs], the registry of the feeds a host
    publishes, and, of [pipeline.rs], the lanes that stream a source: from a
    command, from such a feed, and both ways for audio. What a source and a client
    do is a sequence of events; a sequence that stops before an end is a stream
    that still runs. *)

From S2P Require Import Prelude RustStd Collections Vocab External Instances Value Envelope Request Response AuthTypes Chain CivilDate Authorizer.
From S2P Require Import NodeDb NodeSql NodeGate NodeDemo NodeGateProps NodeKnock NodeExecute NodeExecuteProps.
From S2P Require Import NodeFrames NodeProjection NodeSparql NodeSparqlProps NodeDdl NodeHelp NodeChatMsg NodeChat.
From S2P Require Import NodeServe Web.
From S2P Require SparqlStore.

Open Scope Z_scope.

(** ** [media.rs] *)

Definition FEED_CAPACITY : Z := 64.
Definition usize (z : Z) : Z := z mod 2 ^ 64.

(** A feed: what it is, and its viewers as they are counted; the receivers of its
    channel, as the channel counts them; and its observer. *)
Record Feed : Type := mkFeed {
  fd_content_type : string;
  fd_receivers : Z;
  fd_viewers : Z;
  fd_observer : option nat
}.

(** The registry: the feeds there are or were, the names of those published, and
    the calls of observers. Writers and readers are the place of their feed. *)
Record MediaFeeds : Type := mkFeeds {
  mf_heap : list Feed;
  mf_names : gmap string nat;
  mf_calls : list (nat * Z)
}.

Definition MediaFeeds_new : MediaFeeds := mkFeeds [] ∅ [].

Definition set_feed (i : nat) (f : Feed -> Feed) (m : MediaFeeds) : MediaFeeds := mkFeeds (alter f i (mf_heap m)) (mf_names m) (mf_calls m).

Definition notify (i : nat) (count : Z) (m : MediaFeeds) : MediaFeeds :=
  match mf_heap m !! i ≫= fd_observer with
  | Some f => mkFeeds (mf_heap m) (mf_names m) (mf_calls m ++ [(f, count)])
  | None => m
  end.

Definition publish (name content_type : string) (m : MediaFeeds) : nat * MediaFeeds :=
  let i := length (mf_heap m) in
  (i, mkFeeds (mf_heap m ++ [mkFeed content_type 0 0 None]) (<[name := i]> (mf_names m)) (mf_calls m)).

Definition withdraw (name : string) (m : MediaFeeds) : bool * MediaFeeds :=
  (bool_decide (is_Some (mf_names m !! name)), mkFeeds (mf_heap m) (delete name (mf_names m)) (mf_calls m)).

Definition feed_content_type (name : string) (m : MediaFeeds) : option string :=
  fd_content_type <$> (mf_names m !! name ≫= fun i => mf_heap m !! i).

Definition set_count (receivers viewers : Z) (f : Feed) : Feed := mkFeed (fd_content_type f) receivers viewers (fd_observer f).

Definition subscribe (name : string) (m : MediaFeeds) : option nat * MediaFeeds :=
  match mf_names m !! name ≫= fun i => pair i <$> mf_heap m !! i with
  | None => (None, m)
  | Some (i, f) =>
      let m := set_feed i (fun f => set_count (fd_receivers f + 1) (usize (fd_viewers f + 1)) f) m in
      (Some i, notify i (fd_viewers f + 1) m)
  end.

(** [Drop for FeedReader], and then of the receiver it holds. *)
Definition drop_reader (i : nat) (m : MediaFeeds) : MediaFeeds :=
  match mf_heap m !! i with
  | None => m
  | Some f =>
      let left := Z.max 0 (fd_viewers f - 1) in
      let m := notify i left (set_feed i (fun f => set_count (fd_receivers f) (usize (fd_viewers f - 1)) f) m) in
      set_feed i (fun f => set_count (fd_receivers f - 1) (fd_viewers f) f) m
  end.

(** The writer: [write] gives the receivers the chunk went to. *)
Definition write (i : nat) (m : MediaFeeds) : Z :=
  match mf_heap m !! i with Some f => if fd_receivers f =? 0 then 0 else fd_receivers f | None => 0 end.
Definition viewers (i : nat) (m : MediaFeeds) : Z := match mf_heap m !! i with Some f => fd_viewers f | None => 0 end.
Definition set_viewer_observer (i : nat) (observer : option nat) : MediaFeeds -> MediaFeeds :=
  set_feed i (fun f => mkFeed (fd_content_type f) (fd_receivers f) (fd_viewers f) observer).
Definition writer_content_type (i : nat) (m : MediaFeeds) : option string := fd_content_type <$> mf_heap m !! i.

Definition published (m : MediaFeeds) : list string := bt_keys (mf_names m).

(** What [recv] of the channel gives a reader. *)
Inductive Recv : Type := RecvOk (bytes : list Byte.byte) | Lagged (n : Z) | RecvClosed.

Inductive FeedChunk : Type := ChunkBytes (bytes : list Byte.byte) (skipped : Z) | ChunkEnded.

(** ** The stream of a lane *)

(** What was sent, and how many sends the client still takes. *)
Record Out : Type := mkOut { ou_sent : list Piece; ou_room : option nat }.

Definition put (p : Piece) (o : Out) : bool * Out :=
  match ou_room o with
  | Some O => (false, o)
  | Some (S n) => (true, mkOut (ou_sent o ++ [p]) (Some n))
  | None => (true, mkOut (ou_sent o ++ [p]) None)
  end.

(** What is done to processes. *)
Inductive Act : Type := Spawned (command : string) | TermGroup | KillShell | Reaped | KillGroup.

(** How a lane ends: [Ok], an error, or not yet. *)
Inductive Ending : Type := Finished_ | FailedWith (e : string) | Running.

Record MediaWorld (D : Type) : Type := mkWorld { mw_conn : NConn D; mw_out : Out; mw_acts : list Act }.
Arguments mkWorld {D}.
Arguments mw_conn {D}.
Arguments mw_out {D}.
Arguments mw_acts {D}.

(** A read of the source's output, or the client's departure, as the loop sees
    them in turn. *)
Inductive SourceEvent : Type := Read (bytes : list Byte.byte) | ReadEnd | ReadFails (e : string) | Departed.

(** A source: its output, the chunks of its stderr, and its exit status, whether
    it is a success and its text. *)
Record Source : Type := mkSource {
  so_events : list SourceEvent;
  so_stderr : list (list Byte.byte);
  so_status : option (bool * string)
}.

Definition TAIL_BYTES : nat := 2048.

Definition keep_tail (kept chunk : list Byte.byte) : list Byte.byte :=
  let kept := kept ++ chunk in
  if (TAIL_BYTES <? length kept)%nat then drop (length kept - TAIL_BYTES) kept else kept.

Definition stderr_tail (chunks : list (list Byte.byte)) : string :=
  from_utf8_lossy (String.string_of_list_byte (foldl keep_tail [] chunks)).

(** The loop of [serve_media]: it ends (whether the feed had started); the header
    does not go out; it still runs. *)
Inductive Pumped : Type := PumpEnd (started : bool) (r : result string unit) | HeaderLost | Pumping.

Fixpoint pump (header : EnvelopeObject) (started : bool) (events : list SourceEvent) (o : Out) : Pumped * Out :=
  match events with
  | [] => (Pumping, o)
  | Departed :: _ => (PumpEnd started (Ok tt), o)
  | ReadEnd :: _ => (PumpEnd started (Ok tt), o)
  | ReadFails e :: _ => (PumpEnd started (Err ("media source read failed: " +:+ e)), o)
  | Read bytes :: events =>
      let '(sent, o) := if started then (true, o) else put (PFrame header) o in
      if negb sent then (HeaderLost, o)
      else match put (PRaw bytes) o with
           | (true, o) => pump header true events o
           | (false, o) => (PumpEnd true (Ok tt), o)
           end
  end.

Definition as_ending (r : result string unit) : Ending := match r with Ok _ => Finished_ | Err e => FailedWith e end.

(** The stream was closed on the first of the events of a feed. *)
Inductive HostEvent : Type := FromFeed (r : Recv) | HostDeparted.

(** [FeedReader::next] within the loop of [serve_host_media]: what was skipped
    until a chunk comes. *)
Fixpoint feed_loop (skipped : Z) (events : list HostEvent) (o : Out) : Ending * Out :=
  match events with
  | [] => (Running, o)
  | HostDeparted :: _ => (Finished_, o)
  | FromFeed (Lagged n) :: events => feed_loop (skipped + n) events o
  | FromFeed RecvClosed :: _ => (Finished_, o)
  | FromFeed (RecvOk bytes) :: events =>
      match put (PRaw bytes) o with
      | (true, o) => feed_loop 0 events o
      | (false, o) => (Finished_, o)
      end
  end.

(** [FeedReader::next] by itself; [None] while nothing comes. *)
Fixpoint next (skipped : Z) (recvs : list Recv) : option (FeedChunk * list Recv) :=
  match recvs with
  | [] => None
  | RecvOk bytes :: recvs => Some (ChunkBytes bytes skipped, recvs)
  | Lagged n :: recvs => next (skipped + n) recvs
  | RecvClosed :: recvs => Some (ChunkEnded, recvs)
  end.

(** ** Both ways *)

(** The way into the source: whether the lane holds the sender, the channel of
    eight chunks, whether the writer task lives, and what it has written. *)
Record Stdin : Type := mkStdin {
  si_tx : bool;
  si_queue : list (list Byte.byte);
  si_alive : bool;
  si_written : list (list Byte.byte)
}.

Definition STDIN_CHUNKS : nat := 8.

Inductive DuplexEvent : Type :=
| DRead (bytes : list Byte.byte)
| DReadEnd
| DReadFails (e : string)
| DCaller (bytes : list Byte.byte)
| DCallerFin
| DCallerReset
| DDeparted
| DIdle
| DWritten
| DWriteFails.

(** [try_send]: a full channel drops this chunk, a closed one is let go. *)
Definition try_send (bytes : list Byte.byte) (s : Stdin) : Stdin :=
  if negb (si_tx s) then s
  else if negb (si_alive s) then mkStdin false (si_queue s) false (si_written s)
  else if (STDIN_CHUNKS <=? length (si_queue s))%nat then s
  else mkStdin true (si_queue s ++ [bytes]) true (si_written s).

Definition drop_sender (s : Stdin) : Stdin := mkStdin false (si_queue s) (si_alive s) (si_written s).

(** The writer task takes a chunk, and writes it or stops. *)
Definition writer_step (ok : bool) (s : Stdin) : Stdin :=
  match si_alive s, si_queue s with
  | true, c :: q => if ok then mkStdin (si_tx s) q true (si_written s ++ [c]) else mkStdin (si_tx s) [] false (si_written s)
  | _, _ => s
  end.

Definition duplex_read_failed (e : string) : string := "audio-duplex source read failed: " +:+ e.

(** The second phase, without the caller's half. *)
Fixpoint half_open (events : list DuplexEvent) (s : Stdin) (o : Out) : Ending * Stdin * Out :=
  match events with
  | [] => (Running, s, o)
  | DRead bytes :: events => match put (PRaw bytes) o with
                             | (true, o) => half_open events s o
                             | (false, o) => (Finished_, s, o)
                             end
  | DReadEnd :: _ | DDeparted :: _ | DIdle :: _ => (Finished_, s, o)
  | DReadFails e :: _ => (FailedWith (duplex_read_failed e), s, o)
  | DWritten :: events => half_open events (writer_step true s) o
  | DWriteFails :: events => half_open events (writer_step false s) o
  | _ :: events => half_open events s o
  end.

(** The first phase, up to the caller's end. *)
Fixpoint duplex (events : list DuplexEvent) (s : Stdin) (o : Out) : Ending * Stdin * Out :=
  match events with
  | [] => (Running, s, o)
  | DRead bytes :: events => match put (PRaw bytes) o with
                             | (true, o) => duplex events s o
                             | (false, o) => (Finished_, s, o)
                             end
  | DReadEnd :: _ | DCallerReset :: _ => (Finished_, s, o)
  | DReadFails e :: _ => (FailedWith (duplex_read_failed e), s, o)
  | DCaller bytes :: events => duplex events (try_send bytes s) o
  | DCallerFin :: events => half_open events (drop_sender s) o
  | DWritten :: events => duplex events (writer_step true s) o
  | DWriteFails :: events => duplex events (writer_step false s) o
  | _ :: events => duplex events s o
  end.

(** What runs behind the lanes: the shell, and the events of the feed that a
    client attaches to. *)
Record Host : Type := mkHost {
  ho_spawn : string -> result string Source;
  ho_duplex : string -> result string (list DuplexEvent);
  ho_feed : string -> list HostEvent
}.

(** ** The lanes *)

Section lanes.
Context {D : Type} `{HR : !RowIds} `{HT : !NodeText} `{HF : !FrameText}.
Variables (host : Host) (feeds : MediaFeeds).

Abbreviation World := (MediaWorld D).

(** A frame and the end of the lane; a send that fails is its error. *)
Definition answer (obj : EnvelopeObject) (w : World) : Ending * World :=
  let '(sent, o) := put (PFrame obj) (mw_out w) in
  (if sent then Finished_ else FailedWith "stream", mkWorld (mw_conn w) o (mw_acts w)).

Definition refuse (id reason : string) : World -> Ending * World := answer (ODenied (mkDenied (Some id) (Some reason))).
Definition engine_error (id reason : string) : World -> Ending * World :=
  answer (OError (mkErrorEnvelope (Some id) (ErrorCode_as_str EngineError) (Some reason))).

Definition acted (acts : list Act) (w : World) : World := mkWorld (mw_conn w) (mw_out w) (mw_acts w ++ acts).
Definition with_out (o : Out) (w : World) : World := mkWorld (mw_conn w) o (mw_acts w).

(** The group is asked to stop, the shell reaped, the rest killed. *)
Definition TEARDOWN : list Act := [TermGroup; KillShell; Reaped; KillGroup].

Definition serve_host_media (name id declared_type : string) (w : World) : Ending * World :=
  match fst (subscribe name feeds) with
  | None => engine_error id ("media source " +:+ tag_debug name +:+ " is host-provided (its `_media` command is empty)                      but nothing is publishing it right now") w
  | Some _ =>
      let content_type := match feed_content_type name feeds with
                          | Some t => if is_empty (trim t) then declared_type else t
                          | None => declared_type
                          end in
      match put (PFrame (OMedia (mkMedia id content_type))) (mw_out w) with
      | (false, o) => (FailedWith "stream", with_out o w)
      | (true, o) => let '(r, o) := feed_loop 0 (ho_feed host name) o in (r, with_out o w)
      end
  end.

(** Why a source gave nothing. *)
Definition no_data_detail (source : Source) : string :=
  let why := stderr_tail (so_stderr source) in
  if is_empty (trim why) then
    match so_status source with
    | Some (false, status) => "it exited with " +:+ status
    | Some (true, _) => "it exited without writing anything"
    | None => "it could not be reaped"
    end
  else "it wrote no data and reported: " +:+ trim why.

(** A header that does not go out drops the child, which kills the shell. *)
Definition serve_command (name id command content_type : string) (w : World) : Ending * World :=
  match ho_spawn host command with
  | Err e => engine_error id ("media source failed to start: " +:+ e) w
  | Ok source =>
      let w := acted [Spawned command] w in
      let '(pumped, o) := pump (OMedia (mkMedia id content_type)) false (so_events source) (mw_out w) in
      let w := with_out o w in
      match pumped with
      | HeaderLost => (FailedWith "stream", acted [KillShell] w)
      | Pumping => (Running, w)
      | PumpEnd started r =>
          let w := acted TEARDOWN w in
          match started, r with
          | false, Ok _ => engine_error id ("media source " +:+ tag_debug name +:+ " produced no data: " +:+ no_data_detail source) w
          | _, _ => (as_ending r, w)
          end
      end
  end.

(** The verdict on a source, or the refusal. *)
Definition screened (action peer id name : string) (go : string -> string -> option string -> World -> Ending * World) (w : World) : Ending * World :=
  let '(verdict, conn) := screen_source peer id name action (mw_conn w) in
  let w := mkWorld conn (mw_out w) (mw_acts w) in
  match verdict with
  | MediaUnknownPeer => refuse id unknown_peer_reason w
  | MediaDenied reason => refuse id reason w
  | UnknownSource => engine_error id ("unknown media source " +:+ tag_debug name) w
  | MediaAllowed command content_type accepts => go command content_type accepts w
  end.

Definition serve_media (peer : string) (st : Statement) : World -> Ending * World :=
  let id := st_id st in
  let name := trim (st_signal st) in
  screened "media" peer id name (fun command content_type _ w =>
    if is_empty (trim command) then serve_host_media name id content_type w
    else serve_command name id command content_type w).

Definition serve_duplex_command (id command content_type accepts : string) (w : World) : Ending * World * Stdin :=
  let stdin := mkStdin true [] true [] in
  match ho_duplex host command with
  | Err e => (engine_error id ("audio-duplex source failed to start: " +:+ e) w, stdin)
  | Ok events =>
      let w := acted [Spawned command] w in
      let header := OAudioDuplex (mkAudioDuplex id (if is_empty content_type then None else Some content_type) accepts) in
      match put (PFrame header) (mw_out w) with
      | (false, o) => (FailedWith "stream", acted [KillShell] (with_out o w), stdin)
      | (true, o) =>
          let '(r, stdin, o) := duplex events stdin o in
          match r with
          | Running => (Running, with_out o w, stdin)
          | _ => (r, acted TEARDOWN (with_out o w), drop_sender stdin)
          end
      end
  end.

Definition serve_audio_duplex (peer : string) (st : Statement) : World -> Ending * World :=
  let id := st_id st in
  let name := trim (st_signal st) in
  screened "audio-duplex" peer id name (fun command content_type accepts w =>
    match accepts with
    | Some accepts => fst (serve_duplex_command id command content_type accepts w)
    | None => engine_error id ("source " +:+ tag_debug name +:+ " is not a duplex source (no accepts)") w
    end).

(** The frames of a lane, on the channel of the dispatch; raw bytes after them
    are no frames. *)
Definition frames_of (pieces : list Piece) : list EnvelopeObject := omap (fun p => match p with PFrame obj => Some obj | PRaw _ => None end) pieces.

Definition as_serve (lane : World -> Ending * World) : Serve (D:=D) := fun '(conn, ch) =>
  let w := snd (lane (mkWorld conn (mkOut (map PFrame (ch_sent ch)) (ch_room ch)) [])) in
  (mw_conn w, mkChan (frames_of (ou_sent (mw_out w))) (ou_room (mw_out w))).

(** Lanes with those for media in their place. *)
Definition media_lanes (others : Lanes (D:=D)) : Lanes (D:=D) :=
  mkLanes (ln_system others) (ln_entrain others) (fun peer st => as_serve (serve_media peer st)) (fun peer st => as_serve (serve_audio_duplex peer st))
    (ln_mod_install others) (ln_pages others).
End lanes.

(** ** What a feed delivers *)

(** The chunks of a source up to its end. *)
Fixpoint reads (events : list SourceEvent) : list (list Byte.byte) :=
  match events with Read bytes :: events => bytes :: reads events | _ => [] end.

Fixpoint chunks (events : list HostEvent) : list (list Byte.byte) :=
  match events with
  | FromFeed (RecvOk bytes) :: events => bytes :: chunks events
  | FromFeed (Lagged _) :: events => chunks events
  | _ => []
  end.

Definition open_out (sent : list Piece) : Out := mkOut sent None.

Definition after_header (header : EnvelopeObject) (raws : list (list Byte.byte)) : list Piece :=
  match raws with _ :: _ => [PFrame header] | [] => [] end.

Definition pumped_on (started : bool) (p : Pumped) : Prop :=
  match p with PumpEnd st _ => st = started | HeaderLost => False | Pumping => True end.

Lemma pump_started header events : forall sent,
  exists pumped, pump header true events (open_out sent) = (pumped, open_out (sent ++ map PRaw (reads events))) /\ pumped_on true pumped.
Proof.
  induction events as [|[bytes| |e|] events IH]; intros sent; cbn [pump reads map].
  all: try (eexists; split; [by rewrite app_nil_r|done]).
  cbn [put ou_room open_out]. destruct (IH (sent ++ [PRaw bytes])) as (pumped & Hp & Hm). exists pumped. split; [|done].
  unfold open_out in *. cbn [ou_sent]. rewrite Hp. by rewrite <-app_assoc.
Qed.

Lemma pump_open header events sent :
  exists pumped, pump header false events (open_out sent) = (pumped, open_out (sent ++ after_header header (reads events) ++ map PRaw (reads events))) /\
    pumped_on (negb (bool_decide (reads events = []))) pumped.
Proof.
  destruct events as [|[bytes| |e|] events]; cbn [pump reads map].
  all: try (eexists; split; [by rewrite app_nil_r|done]).
  cbn [put ou_room open_out]. destruct (pump_started header events ((sent ++ [PFrame header]) ++ [PRaw bytes])) as (pumped & Hp & Hm).
  exists pumped. split; [|by destruct pumped]. unfold open_out in *. cbn [ou_sent negb put ou_room]. rewrite Hp. by rewrite <-!app_assoc.
Qed.

Lemma feed_loop_open events : forall skipped sent,
  exists r, feed_loop skipped events (open_out sent) = (r, open_out (sent ++ map PRaw (chunks events))) /\ forall e, r <> FailedWith e.
Proof.
  induction events as [|[[bytes|n|]|] events IH]; intros skipped sent; cbn [feed_loop chunks map].
  all: try (eexists; split; [by rewrite app_nil_r|done]).
  - cbn [put ou_room open_out]. destruct (IH 0 (sent ++ [PRaw bytes])) as (r & Hr & Hne). exists r. split; [|done].
    unfold open_out in *. cbn [ou_sent]. rewrite Hr. by rewrite <-app_assoc.
  - apply IH.
Qed.

(** A turn of the loop takes what [next] gives. *)
Lemma feed_loop_next recvs rest o : forall skipped bytes n recvs', next skipped recvs = Some (ChunkBytes bytes n, recvs') ->
  feed_loop skipped (map FromFeed recvs ++ rest) o =
  match put (PRaw bytes) o with
  | (true, o) => feed_loop 0 (map FromFeed recvs' ++ rest) o
  | (false, o) => (Finished_, o)
  end.
Proof.
  induction recvs as [|[b|k|] recvs IH]; intros skipped bytes n recvs'; cbn [next map app feed_loop]; try done; [by intros [= -> _ ->]|apply IH].
Qed.

(** ** The lanes *)

Section guarded.
Context {D : Type} `{HR : !RowIds} `{HT : !NodeText} `{HF : !FrameText}.
Variables (host : Host) (feeds : MediaFeeds).
Implicit Types (w : MediaWorld D) (c : NConn D).

Definition fresh c : MediaWorld D := mkWorld c (open_out []) [].

Definition media_header (id : string) (objs : list EnvelopeObject) : Prop := exists ct, objs = [OMedia (mkMedia id ct)].

(** What a lane for media sent, and what became of the processes: at most one
    frame, raw bytes only behind a header, and a group taken down. *)
Record served (id : string) (r : Ending) w (objs : list EnvelopeObject) (raws : list (list Byte.byte)) : Prop := mkServed {
  sv_out : mw_out w = open_out (map PFrame objs ++ map PRaw raws);
  sv_objs : objs = [] \/ response id objs;
  sv_done : r = Finished_ -> objs <> [];
  sv_raws : raws <> [] -> media_header id objs;
  sv_acts : r <> Running -> mw_acts w = [] \/ exists command, mw_acts w = [Spawned command; TermGroup; KillShell; Reaped; KillGroup]
}.

Definition unserved (objs : list EnvelopeObject) id w : Prop := ~ media_header id objs /\ mw_acts w = [].

Lemma error_served id reason w : mw_out w = open_out [] -> (mw_acts w = [] \/ exists command, mw_acts w = [Spawned command; TermGroup; KillShell; Reaped; KillGroup]) ->
  let '(r, w') := engine_error id reason w in
  let objs := [OError (mkErrorEnvelope (Some id) (ErrorCode_as_str EngineError) (Some reason))] in
  served id r w' objs [] /\ ~ media_header id objs /\ mw_acts w' = mw_acts w.
Proof.
  intros Ho Ha. unfold engine_error, answer. rewrite Ho. cbn. split; [|by split; [intros [ct Hct]|]]. split; try done.
  right. apply resp_error. by right.
Qed.

Lemma error_ends id reason c acts : (acts = [] \/ exists command, acts = [Spawned command; TermGroup; KillShell; Reaped; KillGroup]) ->
  let '(r, w') := engine_error id reason (mkWorld c (open_out []) acts) in exists objs raws, served id r w' objs raws.
Proof.
  intros Ha. pose proof (error_served id reason (mkWorld c (open_out []) acts) eq_refl Ha) as H.
  destruct (engine_error _ _ _) as [r w']. destruct H as [H _]. by eexists _, _.
Qed.

Lemma refuse_served id reason w : mw_out w = open_out [] -> mw_acts w = [] ->
  let '(r, w') := refuse id reason w in
  let objs := [ODenied (mkDenied (Some id) (Some reason))] in served id r w' objs [] /\ unserved objs id w'.
Proof.
  intros Ho Ha. unfold refuse, answer. rewrite Ho. cbn. split; [|split; [by intros [ct Hct]|done]]. split; try done; [|by left].
  right. apply resp_denied. by right.
Qed.

Lemma header_response id ct : response id [OMedia (mkMedia id ct)].
Proof. by apply resp_media. Qed.

Lemma host_served name id ct w : mw_out w = open_out [] -> mw_acts w = [] ->
  let '(r, w') := serve_host_media host feeds name id ct w in exists objs raws, served id r w' objs raws.
Proof.
  destruct w as [c0 out acts0]. cbn [mw_out mw_acts]. intros -> ->. unfold serve_host_media. destruct (fst _).
  - cbn [put mw_out ou_room open_out ou_sent app]. set (header := OMedia _).
    destruct (feed_loop_open (ho_feed host name) 0 [PFrame header]) as (r & Hr & Hne). unfold open_out in Hr. rewrite Hr.
    exists [header], (chunks (ho_feed host name)). split; cbn; try done; [right; apply header_response|by eexists|by left].
  - apply error_ends. by left.
Qed.

Lemma command_served name id command ct w : mw_out w = open_out [] -> mw_acts w = [] ->
  let '(r, w') := serve_command host name id command ct w in exists objs raws, served id r w' objs raws.
Proof.
  destruct w as [c0 out acts0]. cbn [mw_out mw_acts]. intros -> ->. unfold serve_command. destruct (ho_spawn host command) as [source|e].
  - unfold acted, with_out. cbn [mw_out mw_conn mw_acts app]. set (header := OMedia _).
    destruct (pump_open header (so_events source) []) as (pumped & Hp & Hm). rewrite Hp. cbn [app].
    assert (Hhead : forall r acts, (r <> Running -> acts = [] \/ exists command, acts = [Spawned command; TermGroup; KillShell; Reaped; KillGroup]) ->
      (r = Finished_ -> reads (so_events source) <> []) ->
      exists objs raws, served id r (mkWorld c0 (open_out (after_header header (reads (so_events source)) ++ map PRaw (reads (so_events source)))) acts) objs raws).
    { intros r acts Hacts Hfin. exists (match reads (so_events source) with [] => [] | _ => [header] end), (reads (so_events source)).
      destruct (reads (so_events source)) as [|b bs]; split; cbn; try done; [by left|by intros Hr; destruct (Hfin Hr)|right; apply header_response|by eexists]. }
    destruct pumped as [started r| |]; [|done|by apply Hhead].
    destruct started, r as [[]|e]; cbn [as_ending].
    + apply Hhead; [by right; eexists|]. intros _ Hr. cbn in Hm. by rewrite bool_decide_true in Hm.
    + apply Hhead; [by right; eexists|done].
    + assert (reads (so_events source) = []) as -> by (cbn in Hm; symmetry in Hm; by apply negb_false_iff, bool_decide_eq_true in Hm). cbn [after_header app map].
      apply error_ends. right. by eexists.
    + apply Hhead; [by right; eexists|done].
  - apply error_ends. by left.
Qed.

(** What a lane for media may do, for whom. *)
Definition entitled c (peer name : string) : Prop :=
  known_peer (n_db c) peer = true /\ policy_says (n_db c) peer name "media" "deny" = false /\ policy_says (n_db c) peer name "media" "allow" = true.

Lemma media_guard (peer : string) (st : Statement) (c : NConn D) (Hhealthy : n_healthy c) :
  let '(r, w) := serve_media host feeds peer st (fresh c) in
  exists objs raws, served (st_id st) r w objs raws /\
    (media_header (st_id st) objs \/ mw_acts w <> [] -> entitled c peer (trim (st_signal st))).
Proof.
  unfold serve_media, screened. pose proof (source_gate peer (st_id st) (trim (st_signal st)) "media" c Hhealthy) as Hgate. cbn [fresh mw_conn mw_out].
  destruct (screen_source _ _ _ _ c) as [verdict c']. cbn [fst] in Hgate.
  assert (Hrefused : forall m : MediaWorld D -> Ending * MediaWorld D,
    (let '(r, w') := m (mkWorld c' (open_out []) []) in exists objs, served (st_id st) r w' objs [] /\ unserved objs (st_id st) w') ->
    let '(r, w) := m (mkWorld c' (open_out []) []) in exists objs raws, served (st_id st) r w objs raws /\
      (media_header (st_id st) objs \/ mw_acts w <> [] -> entitled c peer (trim (st_signal st)))).
  { intros m. destruct (m _) as [r w']. intros (objs & Hs & Hno & Ha). exists objs, []. split; [done|]. by intros [?|?]. }
  destruct verdict as [|reason| |command ct accepts].
  - apply Hrefused. pose proof (refuse_served (st_id st) unknown_peer_reason (mkWorld c' (open_out []) []) eq_refl eq_refl). by destruct (refuse _ _ _); eexists.
  - apply Hrefused. pose proof (refuse_served (st_id st) reason (mkWorld c' (open_out []) []) eq_refl eq_refl). by destruct (refuse _ _ _); eexists.
  - apply Hrefused. epose proof (error_served (st_id st) ("unknown media source " +:+ tag_debug (trim (st_signal st))) (mkWorld c' (open_out []) []) eq_refl (or_introl eq_refl)) as H.
    destruct (engine_error _ _ _). destruct H as (? & ? & ?). by eexists.
  - assert (Hok : entitled c peer (trim (st_signal st))).
    { unfold entitled. destruct (known_peer _ _); [|done]. destruct (policy_says _ _ _ _ "deny"); [done|]. by destruct (policy_says _ _ _ _ "allow"). }
    destruct (is_empty _).
    + pose proof (host_served (trim (st_signal st)) (st_id st) ct (mkWorld c' (open_out []) []) eq_refl eq_refl) as H.
      destruct (serve_host_media _ _ _ _ _ _) as [r w]. destruct H as (objs & raws & H). by exists objs, raws.
    + pose proof (command_served (trim (st_signal st)) (st_id st) command ct (mkWorld c' (open_out []) []) eq_refl eq_refl) as H.
      destruct (serve_command _ _ _ _ _ _) as [r w]. destruct H as (objs & raws & H). by exists objs, raws.
Qed.
End guarded.

(** ** Both ways *)

Definition said (events : list DuplexEvent) : list (list Byte.byte) :=
  omap (fun e => match e with DCaller bytes => Some bytes | _ => None end) events.
(** What the source was given or is about to be given. *)
Definition passed (s : Stdin) : list (list Byte.byte) := si_written s ++ si_queue s.
Definition roomy (s : Stdin) : Prop := (length (si_queue s) <= STDIN_CHUNKS)%nat.

Lemma try_send_passed bytes s : roomy s -> roomy (try_send bytes s) /\ sublist (passed (try_send bytes s)) (passed s ++ [bytes]).
Proof.
  unfold roomy, passed, try_send. intros Hr. destruct (si_tx s); cbn [negb]; [|split; [done|by apply sublist_inserts_r]].
  destruct (si_alive s); cbn [negb]; [|split; [done|by apply sublist_inserts_r]].
  destruct (Nat.leb_spec STDIN_CHUNKS (length (si_queue s))); [split; [done|by apply sublist_inserts_r]|].
  cbn [si_written si_queue]. rewrite length_app. cbn. split; [lia|by rewrite app_assoc].
Qed.

Lemma writer_passed ok s : roomy s -> roomy (writer_step ok s) /\ sublist (passed (writer_step ok s)) (passed s).
Proof.
  unfold roomy, passed, writer_step. intros Hr. destruct (si_alive s); [|done]. destruct (si_queue s) as [|c q] eqn:Eq; [by rewrite Eq|].
  destruct ok; cbn [si_written si_queue length] in *; [split; [lia|by rewrite <-app_assoc]|]. split; [lia|].
  apply sublist_app; [done|apply sublist_nil_l].
Qed.

(** One step of the way in, and the rest. *)
Lemma passed_step s1 s s' (more rest : list (list Byte.byte)) :
  sublist (passed s1) (passed s ++ more) -> sublist (passed s') (passed s1 ++ rest) -> sublist (passed s') (passed s ++ more ++ rest).
Proof. intros H1 H2. etrans; [exact H2|]. rewrite app_assoc. by apply sublist_app. Qed.

Lemma half_open_in events : forall s o r s' o', half_open events s o = (r, s', o') -> roomy s -> roomy s' /\ sublist (passed s') (passed s ++ said events).
Proof.
  assert (Hdone : forall s l, roomy s -> roomy s /\ sublist (passed s) (passed s ++ l)) by (intros s l Hr; split; [done|by apply sublist_inserts_r]).
  induction events as [|[bytes| |e|bytes| | | | | |] events IH]; intros s o r s' o'; cbn [half_open said omap list_omap].
  all: try (intros [= <- <- <-]; by apply Hdone).
  - destruct (put _ o) as [[] o1]; [by apply IH|intros [= <- <- <-]; by apply Hdone].
  - intros H Hr. apply IH in H as [Hr' Hs]; [|done]. split; [done|]. etrans; [exact Hs|]. apply sublist_app; [done|by apply sublist_cons].
  - by apply IH.
  - by apply IH.
  - intros H Hr. destruct (writer_passed true s Hr) as [Hr1 Hs1]. apply IH in H as [Hr' Hs]; [|done]. split; [done|].
    etrans; [exact Hs|]. by apply sublist_app.
  - intros H Hr. destruct (writer_passed false s Hr) as [Hr1 Hs1]. apply IH in H as [Hr' Hs]; [|done]. split; [done|].
    etrans; [exact Hs|]. by apply sublist_app.
Qed.

(** What the source is given is what the caller said, in its order, less what it
    did not take in time; and no more than eight chunks wait for it. *)
Theorem caller_is_heard_in_order events : forall s o r s' o',
  duplex events s o = (r, s', o') -> roomy s -> roomy s' /\ sublist (passed s') (passed s ++ said events).
Proof.
  assert (Hdone : forall s l, roomy s -> roomy s /\ sublist (passed s) (passed s ++ l)) by (intros s l Hr; split; [done|by apply sublist_inserts_r]).
  induction events as [|[bytes| |e|bytes| | | | | |] events IH]; intros s o r s' o'; cbn [duplex said omap list_omap].
  all: try (intros [= <- <- <-]; by apply Hdone).
  - destruct (put _ o) as [[] o1]; [by apply IH|intros [= <- <- <-]; by apply Hdone].
  - intros H Hr. destruct (try_send_passed bytes s Hr) as [Hr1 Hs1]. apply IH in H as [Hr' Hs]; [|done]. split; [done|].
    by apply (passed_step (try_send bytes s) s s' [bytes]).
  - intros H Hr. by apply half_open_in in H.
  - by apply IH.
  - by apply IH.
  - intros H Hr. destruct (writer_passed true s Hr) as [Hr1 Hs1]. apply IH in H as [Hr' Hs]; [|done]. split; [done|].
    etrans; [exact Hs|]. by apply sublist_app.
  - intros H Hr. destruct (writer_passed false s Hr) as [Hr1 Hs1]. apply IH in H as [Hr' Hs]; [|done]. split; [done|].
    etrans; [exact Hs|]. by apply sublist_app.
Qed.

(** ** The registry of feeds *)

Inductive FeedOp : Type :=
| Publish (name content_type : string)
| Withdraw (name : string)
| Subscribe (name : string)
| DropReader (k : nat)
| Observe (i : nat) (observer : option nat).

(** The registry and the readers that are open. *)
Definition feed_step (st : MediaFeeds * list nat) (op : FeedOp) : MediaFeeds * list nat :=
  let '(m, readers) := st in
  match op with
  | Publish name content_type => (snd (publish name content_type m), readers)
  | Withdraw name => (snd (withdraw name m), readers)
  | Subscribe name => match subscribe name m with
                      | (Some i, m) => (m, i :: readers)
                      | (None, m) => (m, readers)
                      end
  | DropReader k => match readers !! k with
                    | Some i => (drop_reader i m, delete k readers)
                    | None => st
                    end
  | Observe i observer => (set_viewer_observer i observer m, readers)
  end.

Definition feed_run (ops : list FeedOp) : MediaFeeds * list nat := foldl feed_step (MediaFeeds_new, []) ops.

Definition attached (i : nat) (readers : list nat) : Z := zlen (filter (fun j => j = i) readers).

Definition counted (st : MediaFeeds * list nat) : Prop :=
  (forall i f, mf_heap (fst st) !! i = Some f -> fd_viewers f = attached i (snd st) /\ fd_receivers f = attached i (snd st)) /\
  Forall (fun i => (i < length (mf_heap (fst st)))%nat) (snd st).

Lemma attached_cons i j readers : attached i (j :: readers) = (if Nat.eqb i j then 1 else 0) + attached i readers.
Proof.
  unfold attached, zlen. rewrite filter_cons. destruct (Nat.eqb_spec i j) as [->|Hne]; case_decide; try congruence; cbn [length]; lia.
Qed.

Lemma attached_delete i k readers j : readers !! k = Some j -> attached i readers = (if Nat.eqb i j then 1 else 0) + attached i (delete k readers).
Proof.
  intros Hk. rewrite <-attached_cons. unfold attached, zlen. f_equal. apply Permutation_length.
  by rewrite <-(delete_Permutation readers k j).
Qed.

Lemma attached_bounds i readers : 0 <= attached i readers <= zlen readers.
Proof. unfold attached, zlen. pose proof (length_filter (fun j => j = i) readers). lia. Qed.

Lemma notify_heap i n m : mf_heap (notify i n m) = mf_heap m.
Proof. unfold notify. by destruct (_ ≫= _). Qed.

Lemma counted_alter m readers readers' i g :
  counted (m, readers) -> Forall (fun j => (j < length (mf_heap m))%nat) readers' ->
  (forall f, mf_heap m !! i = Some f -> fd_viewers f = attached i readers -> fd_receivers f = attached i readers ->
     fd_viewers (g f) = attached i readers' /\ fd_receivers (g f) = attached i readers') ->
  (forall j, j <> i -> attached j readers' = attached j readers) ->
  forall m', mf_heap m' = alter g i (mf_heap m) -> counted (m', readers').
Proof.
  intros [Hc Hv] Hv' Hg Hother m' Hheap. split; cbn [fst snd] in *; [|by rewrite Hheap, length_alter].
  intros j f. rewrite Hheap. destruct (base.decide (j = i)) as [->|Hne].
  - rewrite list_lookup_alter_eq. destruct (mf_heap m !! i) as [f0|] eqn:E; cbn; intros [= <-]. destruct (Hc i f0 E). by apply Hg.
  - rewrite list_lookup_alter_ne by done. intros Hf. rewrite Hother by done. by apply Hc.
Qed.

Lemma alter_alter {A} (f g : A -> A) i (l : list A) : alter f i (alter g i l) = alter (f ∘ g) i l.
Proof. apply list_eq. intros j. destruct (Nat.eq_dec j i) as [->|]; [|by rewrite !list_lookup_alter_ne]. rewrite !list_lookup_alter_eq. by destruct (l !! i). Qed.

Lemma alter_absent {A} (f : A -> A) i (l : list A) : l !! i = None -> alter f i l = l.
Proof.
  intros H. apply list_eq. intros j. destruct (Nat.eq_dec j i) as [->|]; [|by rewrite list_lookup_alter_ne]. by rewrite list_lookup_alter_eq, H.
Qed.

Lemma attached_absent i readers : Forall (fun j => (j < i)%nat) readers -> attached i readers = 0.
Proof.
  induction 1 as [|j readers Hj _ IH]; [done|]. rewrite attached_cons, IH. by rewrite (proj2 (Nat.eqb_neq i j)) by lia.
Qed.

Lemma subscribe_cases name m r m' : subscribe name m = (r, m') ->
  match r with
  | Some i => (i < length (mf_heap m))%nat /\
              mf_heap m' = alter (fun f => set_count (fd_receivers f + 1) (usize (fd_viewers f + 1)) f) i (mf_heap m)
  | None => m' = m
  end.
Proof.
  unfold subscribe. destruct (mf_names m !! name ≫= _) as [[i f]|] eqn:E; intros [= <- <-]; [|done]. rewrite notify_heap. split; [|done].
  destruct (mf_names m !! name) as [j|]; cbn in E; [|done]. destruct (mf_heap m !! j) eqn:Ej; cbn in E; simplify_eq. by eapply lookup_lt_Some.
Qed.

Lemma drop_heap i m : mf_heap (drop_reader i m) =
  alter (fun f => set_count (fd_receivers f - 1) (usize (fd_viewers f - 1)) f) i (mf_heap m).
Proof.
  unfold drop_reader. destruct (mf_heap m !! i) eqn:E; [|by rewrite alter_absent].
  cbn [set_feed mf_heap]. rewrite notify_heap. cbn [set_feed mf_heap]. rewrite alter_alter. done.
Qed.

Lemma usize_small z : 0 <= z < 2 ^ 64 -> usize z = z.
Proof. apply Z.mod_small. Qed.

Lemma counted_step st op : counted st -> zlen (snd st) + 1 < 2 ^ 64 -> counted (feed_step st op).
Proof.
  destruct st as [m readers]. intros Hc Hlen. cbn [snd] in Hlen. destruct op as [name ct|name|name|k|i obs]; cbn [feed_step].
  - destruct Hc as [Hc Hv]. cbn [fst snd] in *. split; cbn [publish fst snd mf_heap].
    + intros i f Hf. apply lookup_app_Some in Hf as [Hf|[Hge Hf]]; [by apply Hc|]. apply list_lookup_singleton_Some in Hf as [Hi <-]. cbn.
      rewrite attached_absent; [done|]. assert (i = length (mf_heap m)) as -> by lia. exact Hv.
    + eapply Forall_impl; [exact Hv|]. intros j. cbn. rewrite length_app. lia.
  - destruct Hc as [Hc Hv]. by split.
  - destruct (subscribe name m) as [[i|] m'] eqn:E; apply subscribe_cases in E; [|by subst]. destruct E as [Hi Hh].
    eapply counted_alter; [exact Hc|constructor; [done|apply Hc]| | |exact Hh].
    + intros f _ Hv Hr. cbn. rewrite Hv, Hr, attached_cons, Nat.eqb_refl. pose proof (attached_bounds i readers). rewrite usize_small by lia. lia.
    + intros j Hj. rewrite attached_cons. by rewrite (proj2 (Nat.eqb_neq _ _) Hj).
  - destruct (readers !! k) as [i|] eqn:Ek; [|done].
    eapply counted_alter; [exact Hc| | | |apply drop_heap].
    + apply Forall_delete, Hc.
    + intros f _ Hv Hr. cbn. rewrite Hv, Hr, (attached_delete i k readers i Ek), Nat.eqb_refl. pose proof (attached_bounds i (delete k readers)).
      assert (zlen (delete k readers) <= zlen readers) by (unfold zlen; rewrite length_delete by done; lia). rewrite usize_small by lia. lia.
    + intros j Hj. rewrite (attached_delete j k readers i Ek). by rewrite (proj2 (Nat.eqb_neq _ _) Hj).
  - eapply counted_alter; [exact Hc|apply Hc| | |reflexivity]; [|done]. by intros f _ Hv Hr.
Qed.

(** The count of the viewers of a feed, what its observer is told from and what
    [write] gives, is the number of readers that are attached to it, published
    or withdrawn. *)
Theorem viewers_are_counted ops : zlen ops < 2 ^ 64 ->
  forall i f, mf_heap (fst (feed_run ops)) !! i = Some f ->
    fd_viewers f = attached i (snd (feed_run ops)) /\ write i (fst (feed_run ops)) = attached i (snd (feed_run ops)).
Proof.
  intros Hlen.
  assert (Hrun : counted (feed_run ops) /\ zlen (snd (feed_run ops)) <= zlen ops).
  { revert Hlen. induction ops as [|op ops IH] using rev_ind; intros Hlen; [split; [split; [done|constructor]|done]|].
    unfold feed_run in *. rewrite foldl_app. cbn [foldl]. unfold zlen in *. rewrite length_app in *. cbn [length] in *.
    destruct IH as [Hc Hr]; [lia|]. split; [apply counted_step; [done|unfold zlen; lia]|].
    destruct (foldl _ _ ops) as [m readers]. cbn [snd] in *. destruct op as [name ct|name|name|k|i obs]; cbn [feed_step snd]; try lia.
    - destruct (subscribe name m) as [[?|] ?]; cbn; lia.
    - destruct (readers !! k) eqn:Ek; cbn; [|lia]. apply lookup_lt_Some in Ek as Hk. rewrite length_delete by done. lia. }
  destruct Hrun as [[Hc _] _]. intros i f Hf. destruct (Hc i f Hf) as [Hv Hr]. split; [done|]. unfold write. rewrite Hf, Hr.
  by destruct (Z.eqb_spec (attached i (snd (feed_run ops))) 0).
Qed.

(** ** A request for media through the node *)

Section through.
Context {D : Type} `{HQ : !Sqlite D} `{HR : !RowIds} `{HD : !AuthDebug} `{HO : !AppliedJson} `{HT : !NodeText}.
Context `{HJ : !ChainJson} `{HU : !UlidLib} `{HF : !FrameText} `{HP : !RdfTables D} `{HE : !SparqlStore.SqlEngine}.
Context `{HX : !OxRdf} `{HS : !OxDisplay} `{HA : !AffectedJson} `{HW : !JsonText}.
Context `{HJP : !JsonPrint} `{HTT : !OxTtl}.
Variables (self : Node (D:=D)) (host : Host) (feeds : MediaFeeds) (others : Lanes (D:=D)).

Lemma frames_of_served objs raws : frames_of (map PFrame objs ++ map PRaw raws) = objs.
Proof.
  unfold frames_of. rewrite omap_app. replace (omap _ (map PRaw raws)) with (@nil EnvelopeObject) by (by induction raws).
  rewrite app_nil_r. induction objs as [|obj objs IH]; [done|]. cbn. by rewrite IH.
Qed.

(** C30. A stream of media is guarded and well-formed, when no statement on the
    database fails and the client stays. Whatever the source of a query for media
    does, the node then sends nothing or one frame, and raw bytes only behind the
    header of a feed; what it sends by a good end is a response that the reader
    of the client takes to a clean end. A header goes out and a process starts
    only for a known peer to whom no policy row denies the source and one allows
    it. And when the lane is over, the process that it started, if any, was taken
    down: its group told to end, the shell killed and reaped, the group killed.
    (A client that leaves at the header leaves the group running:
    [lost_header_leaves_the_group].) *)
Theorem media_is_guarded (peer : string) (st : Statement) (c : NConn D) (Hhealthy : n_healthy c) (Hmod : st_modulation st = "media") :
  let '(r, w) := serve_media host feeds peer st (fresh c) in
  exists objs raws,
    dispatch self (media_lanes host feeds others) peer (OQuery st) (c, mkChan [] None) = (mw_conn w, mkChan objs None) /\
    served (st_id st) r w objs raws /\
    (media_header (st_id st) objs \/ mw_acts w <> [] -> entitled c peer (trim (st_signal st))) /\
    (r = Finished_ -> exists evs rd, accept_all objs (ResponseReader_new (st_id st)) = (Ok evs, rd) /\ finish rd = Ok tt).
Proof.
  assert (dispatch self (media_lanes host feeds others) peer (OQuery st) (c, mkChan [] None) =
    as_serve (serve_media host feeds peer st) (c, mkChan [] None)) as -> by (cbn -[serve_media]; by rewrite Hmod).
  unfold as_serve. cbn [ch_sent ch_room map]. fold (open_out []). fold (fresh c).
  pose proof (media_guard host feeds peer st c Hhealthy) as H. destruct (serve_media _ _ _ _ _) as [r w]. cbn [snd].
  destruct H as (objs & raws & Hs & Hpol). exists objs, raws. destruct Hs as [Hout Hobjs Hdone Hraws Hacts]. split_and!; [|done..|].
  - rewrite Hout. cbn [open_out ou_sent ou_room]. by rewrite frames_of_served.
  - intros Hr. apply accepted. destruct Hobjs as [->|?]; [by destruct (Hdone Hr)|done].
Qed.
End through.

(** ** A camera *)

Module Camera.

#[local] Existing Instances note_sqlite low_ids plain_text open_json plain_action plain_outcome plain_frames no_rdf no_answers any_rdf plain_display
  plain_affected plain_json plain_print no_turtle.

Definition may_watch : PolicyRow := mkPolicyRow (SText "alice") (SText "cam") (SText "media") (SText "allow") SNull.

Definition node : NConn (list string) :=
  let d := demo_db [] in
  let a := nd_auth d in
  mkNConn (mkNodeDb (mkDb (db_rsntr a) (Some [may_watch]) (db_decisions a) (db_inbox a) (db_peers a) (db_scripts a)) (nd_audit d) (nd_applied d) (nd_knock d)
             (Some {["cam" := mkMediaRow (SText "camera") (SText "video/mp4") SNull]}) (nd_surface d) [])
    None [] 0 (S754_zero false) [] (fun n => 1000000 * Z.of_nat n) 0 (0, 0).

Definition frame (n : Z) : list Byte.byte := [u8 n].

(** A camera that gives two frames and stops, or only an excuse. *)
Definition camera (events : list SourceEvent) : Host :=
  mkHost (fun _ => Ok (mkSource events [as_bytes "no permission"] (Some (false, "exit status: 1")))) (fun _ => Err "none") (fun _ => []).

Definition ask_for (signal : string) : Statement := mkStatement "01J" "media" signal [] None None None None.

Definition watch (peer : string) (events : list SourceEvent) : Ending * MediaWorld (list string) :=
  serve_media (camera events) MediaFeeds_new peer (ask_for " cam ") (fresh node).

Example camera_streams :
  let '(r, w) := watch "alice" [Read (frame 1); Read (frame 2); ReadEnd] in
  r = Finished_ /\ ou_sent (mw_out w) = [PFrame (OMedia (mkMedia "01J" "video/mp4")); PRaw (frame 1); PRaw (frame 2)] /\
  mw_acts w = [Spawned "camera"; TermGroup; KillShell; Reaped; KillGroup].
Proof. vm_compute. done. Qed.

Example camera_excuses : ou_sent (mw_out (snd (watch "alice" [ReadEnd]))) =
  [PFrame (OError (mkErrorEnvelope (Some "01J") "engine-error"
     (Some "media source cam produced no data: it wrote no data and reported: no permission")))].
Proof. vm_compute. reflexivity. Qed.

Example stranger_starts_nothing : mw_acts (snd (watch "bob" [Read (frame 1)])) = [].
Proof. vm_compute. reflexivity. Qed.

(** A client that leaves with the header leaves the group running: only the
    shell is killed. *)
Example lost_header_leaves_the_group :
  mw_acts (snd (serve_media (camera [Read (frame 1)]) MediaFeeds_new "alice" (ask_for "cam") (mkWorld node (mkOut [] (Some 0%nat)) []))) =
  [Spawned "camera"; KillShell].
Proof. vm_compute. reflexivity. Qed.

(** A full channel drops the newest chunk of the caller. *)
Example full_channel_drops_the_newest :
  let chunks := map (fun k => [u8 k]) [1; 2; 3; 4; 5; 6; 7; 8; 9] in
  si_queue (snd (fst (duplex (map DCaller chunks) (mkStdin true [] true []) (open_out [])))) = take 8 chunks.
Proof. vm_compute. reflexivity. Qed.
End Camera.

Import Camera.
#[local] Existing Instances note_sqlite low_ids plain_text open_json plain_action plain_outcome plain_frames no_rdf no_answers any_rdf plain_display
  plain_affected plain_json plain_print no_turtle.

Lemma media_is_guarded_witness :
  let '(r, w) := serve_media (camera [Read (frame 1); ReadEnd]) MediaFeeds_new "alice" (ask_for "cam") (fresh node) in
  exists objs raws,
    dispatch demo_node (media_lanes (camera [Read (frame 1); ReadEnd]) MediaFeeds_new demo_lanes) "alice" (OQuery (ask_for "cam")) (node, mkChan [] None) =
      (mw_conn w, mkChan objs None) /\
    served "01J" r w objs raws /\
    (media_header "01J" objs \/ mw_acts w <> [] -> entitled node "alice" "cam") /\
    (r = Finished_ -> exists evs rd, accept_all objs (ResponseReader_new "01J") = (Ok evs, rd) /\ finish rd = Ok tt).
Proof.
  apply (media_is_guarded demo_node (camera [Read (frame 1); ReadEnd]) MediaFeeds_new demo_lanes "alice" (ask_for "cam") node); [constructor|reflexivity].
Defined.
