(* ===== verification/Remote.v ===== *)
(** * Remote: tables that live at a peer

    Models [crates/surfaces/src/remote.rs]: one request to a peer and its
    response ([run_remote], [run_blocking]), and the two virtual tables over it,
    [remote_query] and [iroh_remote]. The network is a class: what each stage of
    an exchange gives before the deadline, with a source of fresh ids. *)

From S2P Require Import Prelude RustStd Collections Effect Vocab External Instances Value Envelope Request Response AuthTypes Chain CivilDate.
From S2P Require Import Authorizer NodeDb NodeSql NodeKnock NodeExecute NodeExecuteProps NodeFrames NodeProjection NodeSparql Outbox Web Csv.
From S2P Require WebApi NodeDemo.
From Stdlib Require DecimalString.

Open Scope Z_scope.

(** [Duration::from_secs(15)]; durations are in nanoseconds. *)
Definition DEFAULT_REMOTE_TIMEOUT : Z := 15 * NANOS.

Inductive RemoteError : Type :=
| UnknownPeer (peer : string)
| DeniedByPeer (reason : string)
| FailedRemotely (message : string)
| TransportFailed (message : string)
| TimedOut (duration : Z)
| ProtocolBroken (message : string).

Record RemoteReply : Type := mkReply {
  rp_columns : list string;
  rp_rows : list Row;
  rp_done : Done
}.

(** [Duration::as_millis]. *)
Definition as_millis (duration : Z) : Z := duration / 1000000.

(** One stage of an exchange: done, failed with a text, or not done by the
    deadline. *)
Inductive Stage (A : Type) : Type :=
| Gives (a : A)
| Fails (e : string)
| Late.
Arguments Gives {A} a.
Arguments Fails {A} e.
Arguments Late {A}.

(** The transport, opened stream included, and [Ulid::new]. What [recv] gives,
    in order; after the last, a clean end. *)
Class RemoteNet (N : Type) : Type := {
  rn_fresh : N -> list Byte.byte * N;
  rn_open : list Byte.byte -> N -> Stage unit * N;
  rn_send : EnvelopeObject -> N -> Stage unit * N;
  rn_finish : N -> Stage unit * N;
  rn_recv : N -> list (Stage EnvelopeObject) * N
}.

(** [Debug] of a value of SQLite that is not a rowid. *)
Class CellDebug : Type := {
  cell_debug : CellRef -> string;
  next_cell_debug : option CellRef -> string
}.

(** ** Helpers *)

Definition classify_sql (sql : string) : RequestKind :=
  let first := str_lower (default "" (head (split_whitespace sql))) in
  if bool_decide (first ∈ ["select"; "with"; "values"; "explain"; "pragma"]) then Query else Execute.

Definition value_from_ref (v : CellRef) : Value :=
  match v with
  | RNull => Null
  | RInteger i => Integer i
  | RReal f => Real f
  | RText t => Text (from_utf8_lossy t)
  | RBlob b => Blob b
  end.

(** What [set_value] gives SQLite for a column. *)
Definition set_value (v : Value) : CellRef :=
  match v with
  | Null => RNull
  | Integer i => RInteger i
  | Real f => RReal f
  | Text s => RText s
  | Blob b => RBlob b
  | BlobRef hash _ => RText hash
  end.

Record RemoteContext : Type := mkContext {
  cx_resolver : option (string -> option (list Byte.byte));
  cx_timeout : Z
}.

(** [RemoteContext::new], [with_resolver] and [with_timeout]. *)
Definition RemoteContext_new : RemoteContext := mkContext None DEFAULT_REMOTE_TIMEOUT.
Definition with_resolver (resolver : string -> option (list Byte.byte)) (cx : RemoteContext) : RemoteContext :=
  mkContext (Some resolver) (cx_timeout cx).
Definition with_timeout (timeout : Z) (cx : RemoteContext) : RemoteContext := mkContext (cx_resolver cx) timeout.

Definition resolve (cx : RemoteContext) (peer : string) : result RemoteError (list Byte.byte) :=
  match cx_resolver cx ≫= (fun resolver => resolver peer) with
  | Some id => Ok id
  | None => ok_or (UnknownPeer peer) (PeerId_from_str peer)
  end.

(** A request with the deadline among its options. *)
Definition make_request (fresh : list Byte.byte) (kind : RequestKind) (signal : string) (params : list Value) (timeout : Z) : Request :=
  mkRequest fresh kind "sql-sqlite" signal params None
    (mkRequestOptions None None (Some (as_i64 (as_millis timeout)))).

Section remote.
Context {N : Type} `{HN : !RemoteNet N} `{HU : !UlidLib} `{HF : !FrameText} `{HS : !OxDisplay} `{HJ : !JsonRows} `{HC : !CellDebug}.

(** [Display] of [RemoteError]. *)
Definition error_text (e : RemoteError) : string :=
  match e with
  | UnknownPeer peer => "unknown peer " +:+ tag_debug peer
  | DeniedByPeer reason => "denied by the peer: " +:+ reason
  | FailedRemotely message => "remote error: " +:+ message
  | TransportFailed message => "transport: " +:+ message
  | TimedOut duration => "timed out: no answer within " +:+ int_to_string (as_millis duration) +:+ "ms"
  | ProtocolBroken message => "protocol: " +:+ message
  end.

Definition module_err (surface : string) (e : RemoteError) : string := surface +:+ ": " +:+ error_text e.

(** ** One request *)

(** The call did not end by itself before the deadline, or it failed. *)
Inductive Stop : Type := Elapsed | Failure (e : RemoteError).

Definition staged {A} (label : string) (s : Stage A) : result Stop A :=
  match s with
  | Gives a => Ok a
  | Fails e => Err (Failure (TransportFailed (label +:+ ": " +:+ e)))
  | Late => Err Elapsed
  end.

Definition stage {A} (label : string) (m : N -> Stage A * N) : Eff N Stop A := fun net =>
  let '(s, net) := m net in (staged label s, net).

(** The columns and the rows so far. *)
Definition Received : Type := (list string * list Row)%type.

Definition triple_row (acc : list Row) (t : Triple) : list Row :=
  acc ++ [mkRow (zlen acc) [("triple", Text (show_node (subject t) +:+ " " +:+ show_named (predicate t) +:+ " " +:+
                                             show_term (object t) +:+ " ."))]].

(** An event that does not end the response, or how the call ends. *)
Definition take_event (ev : ResponseEvent) (acc : Received) : Received + result RemoteError RemoteReply :=
  let '(columns, rows) := acc in
  match ev with
  | EvHeader h => inl (rh_columns h, rows)
  | EvRows batch => inl (columns, rows ++ batch)
  | EvGraph g => inl (["triple"], foldl triple_row rows (gr_payload g))
  | EvGeneric _ => inl (columns, rows)
  | EvDone done => inr (Ok (mkReply columns rows done))
  | EvDenied d => inr (Err (DeniedByPeer (default "request denied" (dd_reason d))))
  | EvError e => inr (Err (FailedRemotely (er_code e +:+ ": " +:+ default "" (er_reason e))))
  | EvHelp _ _ | EvMedia _ => inr (Err (ProtocolBroken "unexpected help/media response to a SQL request"))
  end.

Definition failure {A} (r : result RemoteError A) : result Stop A := map_err Failure r.

Fixpoint receive (reader : ResponseReader) (acc : Received) (incoming : list (Stage EnvelopeObject)) : result Stop RemoteReply :=
  match incoming with
  | [] => match finish reader with
          | Err e => Err (Failure (ProtocolBroken (protocol_error_text e)))
          | Ok _ => Err (Failure (ProtocolBroken "response ended without a terminal frame"))
          end
  | s :: incoming =>
      let? frame := staged "receiving the response" s in
      match accept frame reader with
      | (Err e, _) => Err (Failure (ProtocolBroken (protocol_error_text e)))
      | (Ok ev, reader) => match take_event ev acc with
                           | inl acc => receive reader acc incoming
                           | inr out => failure out
                           end
      end
  end.

Definition run_remote (peer : list Byte.byte) (request : Request) : Eff N Stop RemoteReply :=
  let* _ := stage ("opening a stream to " +:+ PeerId_to_string peer) (rn_open peer) in
  let* _ := stage "sending the request" (rn_send (to_envelope request)) in
  let* _ := stage "half-closing the request stream" rn_finish in
  let* incoming := etotal rn_recv in
  elift (receive (ResponseReader_new (id_string request)) ([], []) incoming).

Definition stopped (timeout : Z) (s : Stop) : RemoteError :=
  match s with Elapsed => TimedOut timeout | Failure e => e end.

Definition run_blocking (cx : RemoteContext) (peer : string) (request : Request) (timeout : option Z) : Eff N RemoteError RemoteReply :=
  let timeout := default (cx_timeout cx) timeout in
  let* id := elift (resolve cx peer) in
  emap_err (stopped timeout) (run_remote id request).

(** A request of a table, made and run. *)
Definition ask (surface : string) (cx : RemoteContext) (peer : string) (kind : RequestKind) (sql : string) (params : list Value)
    (timeout : option Z) : Eff N string RemoteReply :=
  let* fresh := etotal rn_fresh in
  let request := make_request fresh kind sql params (default (cx_timeout cx) timeout) in
  emap_err (module_err surface) (run_blocking cx peer request timeout).
End remote.

(** ** What SQLite asks of a plan *)

Inductive ConstraintOp : Type := EQ | GT | GE | LT | LE | NE | LIKE | OTHER.

#[export] Instance ConstraintOp_eq_dec : EqDecision ConstraintOp.
Proof. solve_decision. Defined.

(** A constraint of a query; a negative column is the rowid. *)
Record Constraint : Type := mkConstraint { ct_column : Z; ct_op : ConstraintOp; ct_usable : bool }.

(** What [best_index] leaves in [IndexInfo]: the constraints that are passed to
    [filter], in order (the first as argument 1, none checked again), the
    number, the string and the cost of the plan. *)
Record Plan : Type := mkPlan {
  pl_used : list nat;
  pl_num : Z;
  pl_str : option string;
  pl_cost : Z
}.

(** ** [remote_query] *)

Definition RQ_COL_ROW : Z := 0.
Definition RQ_COL_CELLS : Z := 1.
Definition RQ_COL_COLUMNS : Z := 2.
Definition RQ_COL_PEER : Z := 3.
Definition RQ_COL_SIGNAL : Z := 4.
Definition RQ_MAX_PARAMS : Z := 8.
Definition RQ_USAGE : string :=
  "remote_query: usage SELECT row FROM remote_query('peer', 'SELECT ...' [, p1..p8])".

Definition RQ_SCHEMA : string :=
  "CREATE TABLE x(row TEXT, cells TEXT, columns TEXT, peer TEXT HIDDEN, signal TEXT HIDDEN, " +:+
  "p1 HIDDEN, p2 HIDDEN, p3 HIDDEN, p4 HIDDEN, p5 HIDDEN, p6 HIDDEN, p7 HIDDEN, p8 HIDDEN)".

Definition is_input (col : Z) : bool := (RQ_COL_PEER <=? col) && (col <? RQ_COL_PEER + 2 + RQ_MAX_PARAMS).

Definition have (present : list (Z * nat)) (col : Z) : bool := existsb (fun p => fst p =? col) present.

(** The loop over the constraints: the usable equalities, and whether a required
    one is not usable. *)
Fixpoint rq_scan (i : nat) (cs : list Constraint) (present : list (Z * nat)) (required_unusable : bool) : list (Z * nat) * bool :=
  match cs with
  | [] => (present, required_unusable)
  | c :: cs =>
      let col := ct_column c in
      if negb (is_input col) then rq_scan (S i) cs present required_unusable
      else if negb (ct_usable c) then
        rq_scan (S i) cs present (required_unusable || (col =? RQ_COL_PEER) || (col =? RQ_COL_SIGNAL))
      else if bool_decide (ct_op c = EQ) && negb (have present col) then rq_scan (S i) cs (present ++ [(col, i)]) required_unusable
      else rq_scan (S i) cs present required_unusable
  end.

(** The order of pairs. *)
Definition pair_le (a b : Z * nat) : Prop := fst a < fst b \/ (fst a = fst b /\ (snd a <= snd b)%nat).

#[export] Instance pair_le_dec : RelDecision pair_le.
Proof. intros a b. unfold pair_le. apply _. Defined.

Definition mask_of (present : list (Z * nat)) : Z :=
  foldl (fun mask p => Z.lor mask (Z.shiftl 1 (fst p - RQ_COL_PEER))) 0 present.

(** [None] when the plan cannot deliver the required arguments. *)
Definition rq_best_index (cs : list Constraint) : option Plan :=
  let '(present, required_unusable) := rq_scan 0 cs [] false in
  if required_unusable && (negb (have present RQ_COL_PEER) || negb (have present RQ_COL_SIGNAL)) then None
  else
    let present := merge_sort pair_le present in
    Some (mkPlan (map snd present) (mask_of present) None 1000000).

Record QueryCursor : Type := mkQueryCursor {
  qc_peer : string;
  qc_signal : string;
  qc_params : list Value;
  qc_columns_json : string;
  qc_rows : list (string * string);
  qc_pos : Z
}.

Definition rq_open : QueryCursor := mkQueryCursor "" "" [] "" [] 0.

(** The locals of [filter] that the arguments set. *)
Record Inputs : Type := mkInputs { in_peer : option string; in_signal : option string; in_params : list Value }.

(** The loop over the bits, the arguments handed out as they come. *)
Fixpoint rq_inputs (idx_num : Z) (bits : list Z) (args : list CellRef) (inputs : Inputs) : result string Inputs * list Value :=
  match bits with
  | [] => (Ok inputs, in_params inputs)
  | bit :: bits =>
      if negb (Z.testbit idx_num bit) then rq_inputs idx_num bits args inputs
      else
        match args with
        | [] => (Err RQ_USAGE, in_params inputs)
        | value :: args =>
            let 'mkInputs peer signal params := inputs in
            if bit <=? 1 then
              match value_from_ref value with
              | Text text => rq_inputs idx_num bits args
                               (if bit =? 0 then mkInputs (Some text) signal params else mkInputs peer (Some text) params)
              | _ => (Err RQ_USAGE, params)
              end
            else rq_inputs idx_num bits args (mkInputs peer signal (params ++ [value_from_ref value]))
        end
  end.

Definition RQ_BITS : list Z := [0; 1; 2; 3; 4; 5; 6; 7; 8; 9].

(** A column of the row at the cursor; [None] where the code panics. *)
Definition rq_column (cu : QueryCursor) (i : Z) : option CellRef :=
  let row := if qc_pos cu <? 0 then None else qc_rows cu !! Z.to_nat (qc_pos cu) in
  if i =? RQ_COL_ROW then RText ∘ fst <$> row
  else if i =? RQ_COL_CELLS then RText ∘ snd <$> row
  else if i =? RQ_COL_COLUMNS then Some (RText (qc_columns_json cu))
  else if i =? RQ_COL_PEER then Some (RText (qc_peer cu))
  else if i =? RQ_COL_SIGNAL then Some (RText (qc_signal cu))
  else
    let idx := i - RQ_COL_SIGNAL - 1 in
    Some (match (if idx <? 0 then None else qc_params cu !! Z.to_nat idx) with Some v => set_value v | None => RNull end).

Definition rq_next (cu : QueryCursor) : QueryCursor :=
  mkQueryCursor (qc_peer cu) (qc_signal cu) (qc_params cu) (qc_columns_json cu) (qc_rows cu) (qc_pos cu + 1).
Definition rq_eof (cu : QueryCursor) : bool := zlen (qc_rows cu) <=? qc_pos cu.
Definition rq_rowid (cu : QueryCursor) : Z := qc_pos cu + 1.

Section remote_query.
Context {N : Type} `{HN : !RemoteNet N} `{HU : !UlidLib} `{HF : !FrameText} `{HS : !OxDisplay} `{HJ : !JsonRows}.

(** The row as an array aligned to the columns, and as an object. *)
Definition rq_row (columns : list string) (row : Row) : string * string :=
  let obj := bt_iter (bt_from_iter (map (fun '(name, v) => (name, value_to_json v)) (Envelope.row_cells row))) in
  (row_to_json columns row, json_show (JObject obj)).

(** [filter] once the arguments are read. *)
Definition rq_call (cx : RemoteContext) (peer signal : string) (params : list Value) (cu : QueryCursor) (net : N) :
    result string unit * (QueryCursor * N) :=
  match ask "remote_query" cx peer (classify_sql signal) signal params None net with
  | (Err e, net) => (Err e, (mkQueryCursor peer signal params (qc_columns_json cu) [] 0, net))
  | (Ok reply, net) =>
      (Ok tt, (mkQueryCursor peer signal params (json_show (JArray (map JString (rp_columns reply))))
                 (map (rq_row (rp_columns reply)) (rp_rows reply)) 0, net))
  end.

Definition rq_filter (cx : RemoteContext) (idx_num : Z) (args : list CellRef) : Eff (QueryCursor * N) string unit := fun '(cu, net) =>
  let left params := mkQueryCursor (qc_peer cu) (qc_signal cu) params (qc_columns_json cu) [] 0 in
  match rq_inputs idx_num RQ_BITS args (mkInputs None None []) with
  | (Err e, params) => (Err e, (left params, net))
  | (Ok (mkInputs (Some peer) (Some signal) params), _) => rq_call cx peer signal params cu net
  | (Ok _, params) => (Err RQ_USAGE, (left params, net))
  end.
End remote_query.

(** ** [iroh_remote] *)

(** The value without the quotes around it, if it has them. *)
Definition unquoted (value : string) : string :=
  match RustStd.strip_prefix "'" value ≫= strip_suffix "'" with
  | Some v => v
  | None => match RustStd.strip_prefix dq value ≫= strip_suffix dq with
            | Some v => v
            | None => value
            end
  end.

Record RemoteTable : Type := mkRemoteTable {
  rt_peer : string;
  rt_table : string;
  rt_cols : list string;
  rt_timeout : option Z
}.

(** The locals of [connect] that the arguments set. *)
Record Arguments_ : Type := mkArguments {
  ar_peer : option string;
  ar_table : option string;
  ar_cols : list string;
  ar_timeout : option Z
}.

Definition op_text (op : ConstraintOp) : option string :=
  match op with
  | EQ => Some "="
  | GT => Some ">"
  | GE => Some ">="
  | LT => Some "<"
  | LE => Some "<="
  | NE => Some "<>"
  | LIKE => Some "LIKE"
  | OTHER => None
  end.

(** The name of a constraint's column; [None] past the columns. *)
Definition column_sql (cols : list string) (col : Z) : option string :=
  if col <? 0 then Some "rowid" else quote_ident <$> cols !! Z.to_nat col.

Definition placeholder (n : nat) : string := "?" +:+ int_to_string (Z.of_nat n).

Definition predicate_sql (cols : list string) (c : Constraint) (n : nat) : option string :=
  if negb (ct_usable c) then None
  else match op_text (ct_op c), column_sql cols (ct_column c) with
       | Some op, Some name => Some (name +:+ " " +:+ op +:+ " " +:+ placeholder n)
       | _, _ => None
       end.

(** The constraints that become part of the remote statement, with their text. *)
Fixpoint ir_pick (cols : list string) (i : nat) (cs : list Constraint) (picked : list (nat * string)) : list (nat * string) :=
  match cs with
  | [] => picked
  | c :: cs => match predicate_sql cols c (S (length picked)) with
               | Some text => ir_pick cols (S i) cs (picked ++ [(i, text)])
               | None => ir_pick cols (S i) cs picked
               end
  end.

Definition ir_best_index (tab : RemoteTable) (cs : list Constraint) : Plan :=
  let picked := ir_pick (rt_cols tab) 0 cs [] in
  mkPlan (map fst picked) (zlen picked)
    (match picked with [] => None | _ => Some (RustStd.join " AND " (map snd picked)) end)
    (match picked with [] => 1000000 | _ => 10000 end).

(** *** The statements *)

Definition ROWID : string := "_rsntr_rowid_".

Definition probe_sql (table : string) : string := "SELECT * FROM " +:+ quote_ident table +:+ " LIMIT 0".

Definition schema_sql (cols : list string) : string := "CREATE TABLE x(" +:+ RustStd.join ", " (map quote_ident cols) +:+ ")".

Definition select_sql (tab : RemoteTable) (idx_str : option string) : string :=
  "SELECT rowid AS " +:+ ROWID +:+ ", " +:+ RustStd.join ", " (map quote_ident (rt_cols tab)) +:+ " FROM " +:+ quote_ident (rt_table tab) +:+
  match idx_str with
  | Some clause => if is_empty clause then "" else " WHERE " +:+ clause
  | None => ""
  end.

Definition delete_sql (tab : RemoteTable) : string := "DELETE FROM " +:+ quote_ident (rt_table tab) +:+ " WHERE rowid = ?1".

Definition insert_names (tab : RemoteTable) (rowid : option Z) : list string :=
  (match rowid with Some _ => ["rowid"] | None => [] end) ++ map quote_ident (rt_cols tab).
Definition insert_params (rowid : option Z) (values : list Value) : list Value :=
  (match rowid with Some i => [Integer i] | None => [] end) ++ values.
Definition insert_sql (tab : RemoteTable) (rowid : option Z) (params : list Value) : string :=
  "INSERT INTO " +:+ quote_ident (rt_table tab) +:+ " (" +:+ RustStd.join ", " (insert_names tab rowid) +:+ ") VALUES (" +:+
  RustStd.join ", " (map placeholder (seq 1 (length params))) +:+ ")".

(** The rowid that an update changes. *)
Definition moved (old_rowid : Z) (new_rowid : option Z) : option Z :=
  match new_rowid with
  | Some new => if new =? old_rowid then None else Some new
  | None => None
  end.

Definition update_params (old_rowid : Z) (new_rowid : option Z) (values : list Value) : list Value :=
  values ++ (match moved old_rowid new_rowid with Some new => [Integer new] | None => [] end) ++ [Integer old_rowid].
Definition update_sets (cols : list string) (move : option Z) : list string :=
  imap (fun i c => quote_ident c +:+ " = " +:+ placeholder (S i)) cols ++
  (match move with Some _ => ["rowid = " +:+ placeholder (S (length cols))] | None => [] end).
Definition update_sql (tab : RemoteTable) (old_rowid : Z) (new_rowid : option Z) (params : list Value) : string :=
  "UPDATE " +:+ quote_ident (rt_table tab) +:+ " SET " +:+ RustStd.join ", " (update_sets (rt_cols tab) (moved old_rowid new_rowid)) +:+
  " WHERE rowid = " +:+ placeholder (length params).

(** *** Rows *)

Record RemoteCursor : Type := mkRemoteCursor { rc_rows : list (Z * list Value); rc_pos : Z }.

Definition ir_open : RemoteCursor := mkRemoteCursor [] 0.

(** [get]: the first cell of the name. *)
Definition get_cell (row : Row) (name : string) : option Value :=
  snd <$> List.find (fun cell => bool_decide (fst cell = name)) (Envelope.row_cells row).

Definition ir_next (cu : RemoteCursor) : RemoteCursor := mkRemoteCursor (rc_rows cu) (rc_pos cu + 1).
Definition ir_eof (cu : RemoteCursor) : bool := zlen (rc_rows cu) <=? rc_pos cu.
Definition ir_row (cu : RemoteCursor) : option (Z * list Value) :=
  if rc_pos cu <? 0 then None else rc_rows cu !! Z.to_nat (rc_pos cu).
Definition ir_rowid (cu : RemoteCursor) : option Z := fst <$> ir_row cu.

(** A column of the row at the cursor; [None] where the code panics. *)
Definition ir_column (cu : RemoteCursor) (i : Z) : option CellRef :=
  (fun row => match (if i <? 0 then None else snd row !! Z.to_nat i) with Some v => set_value v | None => RNull end) <$> ir_row cu.

Definition explicit_rowid (arg : option CellRef) : option Z :=
  match arg with Some (RInteger i) => Some i | _ => None end.

Section iroh_remote.
Context {N : Type} `{HN : !RemoteNet N} `{HU : !UlidLib} `{HF : !FrameText} `{HS : !OxDisplay} `{HC : !CellDebug}.

Abbreviation RM := (Eff N string).

(** *** Connecting *)

Definition parse_module_arg (raw : string) : result string (string * string) :=
  if negb (utf8_valid raw) then Err "iroh_remote: argument is not UTF-8"
  else match split_once "="%char raw with
       | None => Err ("iroh_remote: argument " +:+ tag_debug raw +:+ " is not key=value")
       | Some (key, value) => Ok (str_lower (trim key), unquoted (trim value))
       end.

Definition parse_module_args (args : list string) : result string (list (string * string)) := traverse parse_module_arg args.

Definition ir_argument (acc : Arguments_) (kv : string * string) : result string Arguments_ :=
  let '(key, value) := kv in
  let 'mkArguments peer table cols timeout := acc in
  if bool_decide (key = "peer") then Ok (mkArguments (Some value) table cols timeout)
  else if bool_decide (key = "table") then Ok (mkArguments peer (Some value) cols timeout)
  else if bool_decide (key = "columns") then
    Ok (mkArguments peer table (List.filter (fun c => negb (is_empty c)) (map trim (WebApi.split_on ","%char value))) timeout)
  else if bool_decide (key = "timeout_ms") then
    match parse_u64 value with
    | Ok ms => Ok (mkArguments peer table cols (Some (ms * 1000000)))
    | Err _ => Err ("iroh_remote: bad timeout_ms " +:+ tag_debug value)
    end
  else Err ("iroh_remote: unknown argument " +:+ tag_debug key +:+ " (expected peer, table, columns, timeout_ms)").

Fixpoint ir_arguments (acc : Arguments_) (kvs : list (string * string)) : result string Arguments_ :=
  match kvs with
  | [] => Ok acc
  | kv :: kvs => let? acc := ir_argument acc kv in ir_arguments acc kvs
  end.

(** The declared columns, or those of a probe. *)
Definition ir_columns (cx : RemoteContext) (peer table : string) (cols : list string) (timeout : option Z) : RM (list string) :=
  match cols with
  | [] => let* reply := ask "iroh_remote" cx peer Query (probe_sql table) [] timeout in eret (rp_columns reply)
  | _ => eret cols
  end.

(** The schema that is declared to SQLite, and the table. *)
Definition ir_connect (cx : RemoteContext) (args : list string) : RM (string * RemoteTable) :=
  let* kvs := elift (parse_module_args args) in
  let* ar := elift (ir_arguments (mkArguments None None [] None) kvs) in
  let* peer := elift (ok_or "iroh_remote: peer=... argument is required" (ar_peer ar)) in
  let* table := elift (ok_or "iroh_remote: table=... argument is required" (ar_table ar)) in
  let* cols := ir_columns cx peer table (ar_cols ar) (ar_timeout ar) in
  match cols with
  | [] => ethrow ("iroh_remote: no columns for remote table " +:+ tag_debug table)
  | _ => if contains_char "000"%char (schema_sql cols) then ethrow "iroh_remote: NUL in a column name"
         else eret (schema_sql cols, mkRemoteTable peer table cols (ar_timeout ar))
  end.

(** *** Reading *)

(** The row against the declared columns; a NULL is not on the wire. *)
Definition rebuild (tab : RemoteTable) (row : Row) : result string (Z * list Value) :=
  match get_cell row ROWID with
  | Some (Integer i) => Ok (i, map (fun c => default Null (get_cell row c)) (rt_cols tab))
  | _ => Err ("iroh_remote: remote table " +:+ tag_debug (rt_table tab) +:+
              " returned no integer rowid (WITHOUT ROWID tables are not supported)")
  end.

Definition ir_filter (cx : RemoteContext) (tab : RemoteTable) (idx_str : option string) (args : list CellRef) :
    Eff (RemoteCursor * N) string unit := fun '(_, net) =>
  let '(r, net) := ask "iroh_remote" cx (rt_peer tab) Query (select_sql tab idx_str) (map value_from_ref args) (rt_timeout tab) net in
  match (let? reply := r in traverse (rebuild tab) (rp_rows reply)) with
  | Ok rows => (Ok tt, (mkRemoteCursor rows 0, net))
  | Err e => (Err e, (mkRemoteCursor [] 0, net))
  end.

(** *** Writing *)

Definition exec (cx : RemoteContext) (tab : RemoteTable) (sql : string) (params : list Value) : RM RemoteReply :=
  ask "iroh_remote" cx (rt_peer tab) Execute sql params (rt_timeout tab).

Definition delete (cx : RemoteContext) (tab : RemoteTable) (arg : CellRef) : RM unit :=
  match arg with
  | RInteger rowid => let* _ := exec cx tab (delete_sql tab) [Integer rowid] in eret tt
  | other => ethrow ("iroh_remote: non-integer rowid " +:+ cell_debug other +:+ " in DELETE")
  end.

(** The values of a write, one for each column. *)
Definition check_width (verb : string) (tab : RemoteTable) (values : list Value) : RM unit :=
  if (length values =? length (rt_cols tab))%nat then eret tt
  else ethrow ("iroh_remote: " +:+ verb +:+ " carries " +:+ int_to_string (zlen values) +:+ " values for " +:+
               int_to_string (zlen (rt_cols tab)) +:+ " columns").

(** [args] are NULL, the rowid or NULL, and the values. *)
Definition insert (cx : RemoteContext) (tab : RemoteTable) (args : list CellRef) : RM Z :=
  let values := map value_from_ref (drop 2 args) in
  let* _ := check_width "INSERT" tab values in
  let rowid := explicit_rowid (args !! 1%nat) in
  let params := insert_params rowid values in
  let* reply := exec cx tab (insert_sql tab rowid params) params in
  eret (default 0 (match rowid with Some i => Some i | None => dn_last_insert_rowid (rp_done reply) end)).

(** [args] are the old rowid, the new one, and the values. *)
Definition update (cx : RemoteContext) (tab : RemoteTable) (args : list CellRef) : RM unit :=
  match head args with
  | Some (RInteger old_rowid) =>
      let new_rowid := explicit_rowid (args !! 1%nat) in
      let values := map value_from_ref (drop 2 args) in
      let* _ := check_width "UPDATE" tab values in
      let params := update_params old_rowid new_rowid values in
      let* _ := exec cx tab (update_sql tab old_rowid new_rowid params) params in
      eret tt
  | other => ethrow ("iroh_remote: non-integer rowid " +:+ next_cell_debug other +:+ " in UPDATE")
  end.
End iroh_remote.

#[export] Instance pair_le_total : Total pair_le.
Proof. intros a b. unfold pair_le. lia. Qed.
#[export] Instance pair_le_trans : Transitive pair_le.
Proof. intros a b c. unfold pair_le. lia. Qed.

(** ** SQL, as far as the statements need it

    SQLite's tokens: a word (a keyword, a name, a numeral or a placeholder), an
    identifier in double quotes, which stand doubled for one of them, and any
    other character but a space by itself. *)

Inductive Token : Type := TWord (w : string) | TName (n : string) | TMark (c : ascii).

(** Between tokens; in a word; in quotes; after a quote that may end a name. *)
Inductive Lexing : Type := Between | InWord (w : string) | InName (n : string) | AtQuote (n : string).

Definition is_word_char (c : ascii) : bool := is_ascii_alphanumeric c || bool_decide (c = "_"%char) || bool_decide (c = "?"%char).

Definition lex_start (c : ascii) : Lexing * list Token :=
  if bool_decide (c = " "%char) then (Between, [])
  else if bool_decide (c = DQ) then (InName "", [])
  else if is_word_char c then (InWord (char_str c), [])
  else (Between, [TMark c]).

Definition lex_char (m : Lexing) (c : ascii) : Lexing * list Token :=
  match m with
  | Between => lex_start c
  | InWord w => if is_word_char c then (InWord (w +:+ char_str c), []) else prod_map id (cons (TWord w)) (lex_start c)
  | InName n => if bool_decide (c = DQ) then (AtQuote n, []) else (InName (n +:+ char_str c), [])
  | AtQuote n => if bool_decide (c = DQ) then (InName (n +:+ dq), []) else prod_map id (cons (TName n)) (lex_start c)
  end.

Fixpoint lex_from (m : Lexing) (s : string) : Lexing * list Token :=
  match s with
  | EmptyString => (m, [])
  | String c s => let '(m, ts) := lex_char m c in let '(m, us) := lex_from m s in (m, ts ++ us)
  end.

(** The tokens of a whole text; [None] if a quote is left open. *)
Definition lex (s : string) : option (list Token) :=
  match lex_from Between s with
  | (Between, ts) => Some ts
  | (InWord w, ts) => Some (ts ++ [TWord w])
  | (AtQuote n, ts) => Some (ts ++ [TName n])
  | (InName _, _) => None
  end.

Definition words (ws : list string) : list Token := map TWord ws.

(** Lists of tokens with a separator between them. *)
Fixpoint separated (sep : list Token) (l : list (list Token)) : list Token :=
  match l with
  | [] => []
  | [ts] => ts
  | ts :: l => ts ++ sep ++ separated sep l
  end.

Definition comma : list Token := [TMark ","%char].
Definition names (cols : list string) : list Token := separated comma (map (fun c => [TName c]) cols).

(** What each statement is to be. *)
Definition select_tokens (tab : RemoteTable) (condition : list Token) : list Token :=
  words ["SELECT"; "rowid"; "AS"; ROWID] ++ comma ++ names (rt_cols tab) ++ words ["FROM"] ++ [TName (rt_table tab)] ++ condition.

Definition op_tokens (op : ConstraintOp) : list Token :=
  match op with
  | EQ => [TMark "="%char]
  | GT => [TMark ">"%char]
  | GE => [TMark ">"%char; TMark "="%char]
  | LT => [TMark "<"%char]
  | LE => [TMark "<"%char; TMark "="%char]
  | NE => [TMark "<"%char; TMark ">"%char]
  | LIKE => words ["LIKE"]
  | OTHER => []
  end.

(** A constraint that can be passed on: its column and its operator. *)
Definition pushable (cols : list string) (c : Constraint) : option (list Token * ConstraintOp) :=
  if negb (ct_usable c) || bool_decide (ct_op c = OTHER) then None
  else if ct_column c <? 0 then Some (words ["rowid"], ct_op c)
  else (fun name => ([TName name], ct_op c)) <$> cols !! Z.to_nat (ct_column c).

Definition predicate_tokens (n : nat) (p : list Token * ConstraintOp) : list Token :=
  fst p ++ op_tokens (snd p) ++ words [placeholder (S n)].

Definition where_tokens (ps : list (list Token * ConstraintOp)) : list Token :=
  match ps with
  | [] => []
  | _ => words ["WHERE"] ++ separated (words ["AND"]) (imap predicate_tokens ps)
  end.

Definition parens (ts : list Token) : list Token := [TMark "("%char] ++ ts ++ [TMark ")"%char].

Definition insert_tokens (tab : RemoteTable) (rowid : option Z) (n : nat) : list Token :=
  words ["INSERT"; "INTO"] ++ [TName (rt_table tab)] ++
  parens (separated comma ((match rowid with Some _ => [words ["rowid"]] | None => [] end) ++ map (fun c => [TName c]) (rt_cols tab))) ++
  words ["VALUES"] ++ parens (separated comma (map (fun k => words [placeholder k]) (seq 1 n))).

Definition update_tokens (tab : RemoteTable) (move : option Z) (n : nat) : list Token :=
  words ["UPDATE"] ++ [TName (rt_table tab)] ++ words ["SET"] ++
  separated comma (imap (fun i c => [TName c; TMark "="%char] ++ words [placeholder (S i)]) (rt_cols tab) ++
                   (match move with Some _ => [words ["rowid"] ++ [TMark "="%char] ++ words [placeholder (S (length (rt_cols tab)))]]
                               | None => [] end)) ++
  words ["WHERE"; "rowid"] ++ [TMark "="%char] ++ words [placeholder n].

Definition delete_tokens (tab : RemoteTable) : list Token :=
  words ["DELETE"; "FROM"] ++ [TName (rt_table tab)] ++ words ["WHERE"; "rowid"] ++ [TMark "="%char] ++ words ["?1"].

Definition schema_tokens (cols : list string) : list Token := words ["CREATE"; "TABLE"; "x"] ++ parens (names cols).

(** The first usable equality on a column, and the value on its right. *)
Definition equates (col : Z) (c : Constraint) : Prop := ct_usable c = true /\ ct_op c = EQ /\ ct_column c = col.
Definition first_at (cs : list Constraint) (col : Z) : option nat := fst <$> list_find (equates col) cs.
Definition argument (cs : list Constraint) (rhs : list CellRef) (col : Z) : option CellRef := first_at cs col ≫= fun i => rhs !! i.

(** What SQLite passes to [filter] for the constraints' right-hand sides. *)
Definition delivered (plan : Plan) (rhs : list CellRef) : list CellRef := omap (fun i => rhs !! i) (pl_used plan).

(** ** Lemmas on texts *)

Lemma lex_from_app s : forall m t,
  lex_from m (s +:+ t) = let '(m1, ts) := lex_from m s in let '(m2, us) := lex_from m1 t in (m2, ts ++ us).
Proof.
  induction s as [|c s IH]; intros m t; [rewrite app_str_nil_l; cbn; by destruct (lex_from m t)|]. rewrite app_str_cons. cbn [lex_from].
  destruct (lex_char m c) as [m1 ts]. rewrite IH. destruct (lex_from m1 s) as [m2 us]. destruct (lex_from m2 t) as [m3 vs].
  by rewrite app_assoc.
Qed.

(** From one state to the next, with what is read on the way. *)
Definition lexes (m : Lexing) (s : string) (ts : list Token) (m' : Lexing) : Prop := lex_from m s = (m', ts).

Lemma lexes_app m s ts m1 t us m2 : lexes m s ts m1 -> lexes m1 t us m2 -> lexes m (s +:+ t) (ts ++ us) m2.
Proof. unfold lexes. intros Hs Ht. by rewrite lex_from_app, Hs, Ht. Qed.

Lemma lex_quoted s : forall n, lexes (InName n) (str_map (fun c => if bool_decide (c = DQ) then dq +:+ dq else char_str c) s) [] (InName (n +:+ s)).
Proof.
  unfold lexes. induction s as [|c s IH]; intros n; [by rewrite app_str_nil_r|]. cbn [str_map]. rewrite lex_from_app.
  case_bool_decide as Hc.
  - subst c. change (lex_from (InName n) (dq +:+ dq)) with (InName (n +:+ dq), @nil Token). cbv beta iota. by rewrite IH, app_str_assoc.
  - assert (lex_from (InName n) (char_str c) = (InName (n +:+ char_str c), [])) as -> by (cbn; by rewrite bool_decide_false).
    cbv beta iota. by rewrite IH, app_str_assoc.
Qed.

Lemma lex_word s : forall w, str_forallb is_word_char s = true -> lexes (InWord w) s [] (InWord (w +:+ s)).
Proof.
  unfold lexes. induction s as [|c s IH]; intros w; cbn; [by rewrite app_str_nil_r|]. intros [Hc Hs]%andb_prop. rewrite Hc. cbn.
  rewrite IH by done. by rewrite app_str_assoc.
Qed.

(** The token that is complete if the text ends here. *)
Definition closing (m : Lexing) : option (list Token) :=
  match m with
  | Between => Some []
  | InWord w => Some [TWord w]
  | InName _ => None
  | AtQuote n => Some [TName n]
  end.

(** The tokens of a text that ends where a token may end. *)
Definition reads (s : string) (ts : list Token) : Prop :=
  exists m pre last, lexes Between s pre m /\ closing m = Some last /\ ts = pre ++ last.

Lemma reads_lex s ts : reads s ts -> lex s = Some ts.
Proof.
  intros (m & pre & last & Hs & Hm & ->). unfold lex. rewrite Hs. destruct m; cbn in Hm; simplify_eq; [by rewrite app_nil_r|done..].
Qed.

(** A text after which the token before it is complete. *)
Definition delimited (s : string) : bool :=
  match s with String c _ => negb (is_word_char c) && negb (bool_decide (c = DQ)) | EmptyString => true end.

Lemma reads_app s ts t us : reads s ts -> delimited t = true -> reads t us -> reads (s +:+ t) (ts ++ us).
Proof.
  intros (m & pre & last & Hs & Hm & ->) Hd (m' & pre' & last' & Ht & Hm' & ->). destruct t as [|c t].
  - injection Ht as <- <-. injection Hm' as <-. rewrite app_str_nil_r, app_nil_r. by exists m, pre, last.
  - exists m', (pre ++ last ++ pre'), last'. rewrite <-!app_assoc. split_and!; [|done..].
    eapply lexes_app; [exact Hs|]. apply andb_prop in Hd as [Hw Hq]. apply negb_true_iff in Hw, Hq. unfold lexes in *. cbn [lex_from] in *.
    destruct m; cbn in Hm; try discriminate Hm; injection Hm as <-; cbn [lex_char] in *; [done| |]; rewrite ?Hw, ?Hq;
      destruct (lex_start c) as [m1 ts1]; cbn; destruct (lex_from m1 t) as [m2 ts2]; by injection Ht as <- <-.
Qed.

Lemma reads_after s ts t us : lexes Between s ts Between -> reads t us -> reads (s +:+ t) (ts ++ us).
Proof.
  intros Hs (m & pre & last & Ht & Hm & ->). exists m, (ts ++ pre), last. rewrite app_assoc. split; [by eapply lexes_app|done].
Qed.

Lemma reads_quoted n : reads (quote_ident n) [TName n].
Proof.
  exists (AtQuote n), [], [TName n]. split_and!; [|done..]. unfold quote_ident. apply (lexes_app _ _ [] (InName "") _ []); [done|].
  apply (lexes_app _ _ [] (InName n) _ []); [|done]. apply (lex_quoted n "").
Qed.

Lemma reads_word c s : is_word_char c = true -> str_forallb is_word_char s = true -> reads (String c s) (words [String c s]).
Proof.
  intros Hc Hs. exists (InWord (String c s)), [], [TWord (String c s)]. split_and!; [|done..].
  apply (lexes_app _ (char_str c) [] (InWord (char_str c)) s []); [|by apply lex_word].
  unfold lexes. cbn. unfold lex_start. rewrite Hc. case_bool_decide as H1; [by subst|]. case_bool_decide as H2; [by subst|done].
Qed.

Lemma reads_placeholder n : reads (placeholder n) (words [placeholder n]).
Proof.
  apply reads_word; [done|]. unfold int_to_string. destruct (Z.of_nat n) eqn:En; [done| |lia].
  unfold Z.to_int, DecimalString.NilZero.string_of_int, DecimalString.NilZero.string_of_uint. destruct (Pos.to_uint p) eqn:Ep; [done|..].
  all: eapply str_forallb_impl; [|apply string_of_uint_digits]; intros c Hc; unfold is_word_char, is_ascii_alphanumeric; by rewrite Hc, orb_true_r.
Qed.

Lemma reads_join sep sts ss tss :
  delimited sep = true -> sep <> "" -> lexes Between sep sts Between -> Forall2 reads ss tss ->
  reads (RustStd.join sep ss) (separated sts tss).
Proof.
  intros Hd Hne Hsep. induction 1 as [|s ts ss tss Hs Hss IH]; [by exists Between, [], []|].
  destruct Hss as [|s' ts' ss tss Hs' Hss]; [done|]. cbn [RustStd.join separated]. apply reads_app; [done|by destruct sep|].
  by apply reads_after.
Qed.

Lemma Forall2_maps {A B C} (R : B -> C -> Prop) (f : A -> B) (g : A -> C) l : (forall x, R (f x) (g x)) -> Forall2 R (map f l) (map g l).
Proof. intros H. induction l; by constructor. Qed.

Lemma Forall2_imaps {A B C} (R : B -> C -> Prop) (l : list A) : forall (f : nat -> A -> B) (g : nat -> A -> C),
  (forall i x, R (f i x) (g i x)) -> Forall2 R (imap f l) (imap g l).
Proof. induction l as [|x l IH]; intros f g H; [constructor|]. cbn [imap]. constructor; [done|]. apply IH. intros i y. apply H. Qed.

Lemma reads_names cols : reads (RustStd.join ", " (map quote_ident cols)) (names cols).
Proof. apply reads_join; [done..|]. apply Forall2_maps, reads_quoted. Qed.

(** A literal part of a statement. *)
Ltac literal := first [done | reflexivity].

(** ** The statements *)

Lemma reads_list {A} (sql : A -> string) (ts : A -> list Token) l :
  (forall x, reads (sql x) (ts x)) -> reads (RustStd.join ", " (map sql l)) (separated comma (map ts l)).
Proof. intros H. apply reads_join; [done..|]. by apply Forall2_maps. Qed.

(** A text that starts with a literal, and one that follows a token. *)
Lemma reads_literal lit ts t us : lex_from Between lit = (Between, ts) -> reads t us -> reads (lit +:+ t) (ts ++ us).
Proof. apply reads_after. Qed.

Lemma reads_literal_then s ts lit us t vs :
  reads s ts -> delimited lit = true -> lit <> "" -> lex_from Between lit = (Between, us) -> reads t vs ->
  reads (s +:+ lit +:+ t) (ts ++ us ++ vs).
Proof. intros Hs Hd Hne Hl Ht. apply reads_app; [done|by destruct lit|]. by apply reads_after. Qed.

Lemma reads_end s ts lit us : reads s ts -> delimited lit = true -> lex_from Between lit = (Between, us) -> reads (s +:+ lit) (ts ++ us).
Proof. intros Hs Hd Hl. apply reads_app; [done..|]. by exists Between, us, []; rewrite app_nil_r. Qed.

Lemma op_literal op text :
  op_text op = Some text ->
  lex_from Between (" " +:+ text +:+ " ") = (Between, op_tokens op) /\ delimited (" " +:+ text +:+ " ") = true.
Proof. by destruct op; intros [= <-]. Qed.

Lemma op_text_None op : op_text op = None <-> op = OTHER.
Proof. by destruct op. Qed.

Lemma predicate_reads cols c n :
  match predicate_sql cols c (S n), pushable cols c with
  | Some text, Some p => reads text (predicate_tokens n p)
  | None, None => True
  | _, _ => False
  end.
Proof.
  unfold predicate_sql, pushable. destruct (ct_usable c); [|done]. cbn [negb orb].
  destruct (op_text (ct_op c)) as [op|] eqn:Eop; [rewrite bool_decide_false|rewrite bool_decide_true]; [|by rewrite <-op_text_None, Eop|done|by apply op_text_None].
  assert (Hp : forall name ts, reads name ts -> reads (name +:+ " " +:+ op +:+ " " +:+ placeholder (S n)) (predicate_tokens n (ts, ct_op c))).
  { intros name ts Hname. apply op_literal in Eop as [Hl Hd].
    pose proof (reads_literal_then _ _ _ _ _ _ Hname Hd ltac:(done) Hl (reads_placeholder (S n))) as H. by rewrite !app_str_assoc in H. }
  unfold column_sql. destruct (ct_column c <? 0); [by apply Hp, reads_word|]. destruct (cols !! _); [apply Hp, reads_quoted|done].
Qed.

(** The places of the constraints that are passed on, from [i]. *)
Fixpoint pushed_at (cols : list string) (i : nat) (cs : list Constraint) : list nat :=
  match cs with
  | [] => []
  | c :: cs => match pushable cols c with Some _ => i :: pushed_at cols (S i) cs | None => pushed_at cols (S i) cs end
  end.

Lemma ir_pick_spec cols cs : forall i picked, exists more,
  ir_pick cols i cs picked = picked ++ more /\ map fst more = pushed_at cols i cs /\
  Forall2 reads (map snd more) (imap (fun k => predicate_tokens (length picked + k)) (omap (pushable cols) cs)).
Proof.
  induction cs as [|c cs IH]; intros i picked; cbn [ir_pick pushed_at omap list_omap].
  { exists []. rewrite app_nil_r. split_and!; done. }
  pose proof (predicate_reads cols c (length picked)) as Hc.
  destruct (predicate_sql _ _ _) as [text|], (pushable cols c) as [p|]; try done.
  destruct (IH (S i) (picked ++ [(i, text)])) as (more & -> & Hf & Hr). exists ((i, text) :: more). rewrite <-app_assoc.
  split_and!; [done|cbn; by rewrite Hf|]. cbn [map imap snd]. rewrite Nat.add_0_r. constructor; [done|].
  rewrite length_app in Hr. erewrite imap_ext; [exact Hr|]. intros k x _. cbn. f_equal. lia.
Qed.

Lemma pushed_at_after cols cs : forall i, Forall (fun k => (i <= k)%nat) (pushed_at cols i cs).
Proof.
  induction cs as [|c cs IH]; intros i; cbn [pushed_at]; [constructor|]. assert (Forall (fun k => (i <= k)%nat) (pushed_at cols (S i) cs)).
  { eapply Forall_impl; [apply IH|]. cbn. lia. }
  destruct (pushable cols c); [constructor|]; done.
Qed.

Lemma pushed_delivered cols cs : forall i (before rhs : list CellRef), length before = i ->
  omap (fun k => (before ++ rhs) !! k) (pushed_at cols i cs) = omap (fun '(c, v) => const v <$> pushable cols c) (zip cs rhs).
Proof.
  induction cs as [|c cs IH]; intros i before rhs Hi; [done|]. destruct rhs as [|v rhs].
  { rewrite app_nil_r. cbn [zip zip_with omap list_omap]. pose proof (pushed_at_after cols (c :: cs) i) as Hk.
    induction Hk as [|k l Hk _ IHl]; [done|]. cbn [omap list_omap]. by rewrite lookup_ge_None_2 by lia. }
  specialize (IH (S i) (before ++ [v]) rhs). rewrite length_app, Hi, <-app_assoc in IH. specialize (IH ltac:(cbn; lia)).
  cbn [pushed_at zip zip_with omap list_omap].
  destruct (pushable cols c); cbn [omap list_omap fmap option_fmap option_map const]; [|exact IH].
  rewrite lookup_app_r, Hi, Nat.sub_diag by lia. cbn. by f_equal.
Qed.

Lemma where_reads tab cs :
  match pl_str (ir_best_index tab cs), omap (pushable (rt_cols tab)) cs with
  | Some clause, (_ :: _) as ps => is_empty clause = false /\ reads (" WHERE " +:+ clause) (where_tokens ps)
  | None, [] => True
  | _, _ => False
  end.
Proof.
  unfold ir_best_index. cbn [pl_str]. destruct (ir_pick_spec (rt_cols tab) cs 0 []) as (more & -> & _ & Hr). cbn [app length] in *.
  destruct more as [|m more], (omap _ _) as [|p ps]; try (by inversion Hr); try done.
  assert (reads (RustStd.join " AND " (map snd (m :: more))) (separated (words ["AND"]) (imap predicate_tokens (p :: ps)))) as Hj
    by (by apply reads_join).
  split; [|by apply (reads_after " WHERE " (words ["WHERE"]))].
  destruct (RustStd.join _ _) eqn:Ej; [|done]. apply reads_lex in Hj. cbn [imap] in Hj. unfold predicate_tokens in Hj at 1.
  cbn in Hj. destruct (fst p), (op_tokens (snd p)); by destruct (imap _ ps).
Qed.

Lemma select_reads tab cs :
  reads (select_sql tab (pl_str (ir_best_index tab cs))) (select_tokens tab (where_tokens (omap (pushable (rt_cols tab)) cs))).
Proof.
  unfold select_sql, select_tokens.
  apply (reads_literal "SELECT rowid AS _rsntr_rowid_, " (words ["SELECT"; "rowid"; "AS"; ROWID] ++ comma)); [done|].
  apply (reads_literal_then _ _ " FROM " (words ["FROM"])); [apply reads_names|done..|]. apply reads_app; [apply reads_quoted|..].
  all: pose proof (where_reads tab cs) as H; destruct (pl_str _), (omap _ cs); try done; [|by exists Between, [], []..].
  all: by destruct H as [-> ?].
Qed.

Lemma insert_names_reads tab rowid :
  reads (RustStd.join ", " (insert_names tab rowid))
    (separated comma ((match rowid with Some _ => [words ["rowid"]] | None => [] end) ++ map (fun c => [TName c]) (rt_cols tab))).
Proof.
  apply reads_join; [done..|]. unfold insert_names. apply Forall2_app; [|apply Forall2_maps, reads_quoted].
  destruct rowid; constructor; [by apply reads_word|done].
Qed.

Lemma insert_reads tab rowid params : reads (insert_sql tab rowid params) (insert_tokens tab rowid (length params)).
Proof.
  unfold insert_sql, insert_tokens, parens. rewrite <-!app_assoc.
  apply (reads_literal "INSERT INTO " (words ["INSERT"; "INTO"])); [done|].
  apply (reads_literal_then _ _ " (" [TMark "("%char]); [apply reads_quoted|done..|].
  apply (reads_literal_then _ _ ") VALUES (" ([TMark ")"%char] ++ words ["VALUES"] ++ [TMark "("%char])); [apply insert_names_reads|done..|].
  apply reads_end; [|done..]. apply (reads_list placeholder (fun k => words [placeholder k])), reads_placeholder.
Qed.

Lemma update_sets_reads cols move :
  Forall2 reads (update_sets cols move)
    (imap (fun i c => [TName c; TMark "="%char] ++ words [placeholder (S i)]) cols ++
     (match move with Some _ => [words ["rowid"] ++ [TMark "="%char] ++ words [placeholder (S (length cols))]] | None => [] end)).
Proof.
  unfold update_sets. apply Forall2_app.
  - apply Forall2_imaps. intros i c. apply (reads_literal_then _ [TName c] " = " [TMark "="%char]); [apply reads_quoted|done..|apply reads_placeholder].
  - destruct move; constructor; [|constructor]. apply (reads_literal "rowid = " (words ["rowid"] ++ [TMark "="%char])); [done|]. apply reads_placeholder.
Qed.

Lemma update_reads tab old new params : reads (update_sql tab old new params) (update_tokens tab (moved old new) (length params)).
Proof.
  unfold update_sql, update_tokens. apply (reads_literal "UPDATE " (words ["UPDATE"])); [done|].
  apply (reads_literal_then _ _ " SET " (words ["SET"])); [apply reads_quoted|done..|].
  apply (reads_literal_then _ _ " WHERE rowid = " (words ["WHERE"; "rowid"] ++ [TMark "="%char])); [|done..|apply reads_placeholder].
  apply reads_join; [done..|]. apply update_sets_reads.
Qed.

Lemma delete_reads tab : reads (delete_sql tab) (delete_tokens tab).
Proof.
  apply (reads_literal "DELETE FROM " (words ["DELETE"; "FROM"])); [done|]. apply reads_app; [apply reads_quoted|done|].
  apply (reads_literal " WHERE rowid = " (words ["WHERE"; "rowid"] ++ [TMark "="%char])); [done|]. by apply reads_word.
Qed.

Lemma schema_reads cols : reads (schema_sql cols) (schema_tokens cols).
Proof.
  unfold schema_tokens, parens. apply (reads_literal "CREATE TABLE x(" (words ["CREATE"; "TABLE"; "x"] ++ [TMark "("%char])); [done|].
  apply reads_end; [apply reads_names|done..].
Qed.

Lemma probe_reads table : reads (probe_sql table) (words ["SELECT"] ++ [TMark "*"%char] ++ words ["FROM"] ++ [TName table] ++ words ["LIMIT"; "0"]).
Proof.
  apply (reads_literal "SELECT * FROM " (words ["SELECT"] ++ [TMark "*"%char] ++ words ["FROM"])); [done|].
  apply reads_app; [apply reads_quoted|done|]. apply (reads_literal " LIMIT " (words ["LIMIT"])); [done|]. by apply reads_word.
Qed.

(** ** The arguments of [remote_query] *)

Lemma have_spec present col : have present col = true <-> exists k, (col, k) ∈ present.
Proof.
  unfold have. rewrite existsb_exists. split.
  - intros ([c k] & Hin & Hc). cbn in Hc. exists k. apply list_elem_of_In. by replace col with c by lia.
  - intros (k & Hin). exists (col, k). split; [by apply list_elem_of_In|]. cbn. lia.
Qed.

Lemma first_at_cons c cs col : first_at (c :: cs) col = if base.decide (equates col c) then Some 0%nat else S <$> first_at cs col.
Proof. unfold first_at. cbn [list_find]. case_decide; [done|]. by destruct (list_find _ cs) as [[]|]. Qed.

Lemma rq_scan_spec cs : forall i present ru,
  NoDup (map fst present) -> NoDup (map fst (fst (rq_scan i cs present ru))) /\
  forall col k, (col, k) ∈ fst (rq_scan i cs present ru) <->
    (col, k) ∈ present \/ (have present col = false /\ is_input col = true /\ exists j, first_at cs col = Some j /\ k = (i + j)%nat).
Proof.
  induction cs as [|c cs IH]; intros i present ru Hnd; cbn [rq_scan].
  { split; [done|]. intros col k. cbn. naive_solver. }
  assert (Hskip : forall ru', (is_input (ct_column c) = false \/ ct_usable c = false \/ ct_op c <> EQ \/ have present (ct_column c) = true) ->
    NoDup (map fst (fst (rq_scan (S i) cs present ru'))) /\ forall col k, (col, k) ∈ fst (rq_scan (S i) cs present ru') <->
    (col, k) ∈ present \/ (have present col = false /\ is_input col = true /\ exists j, first_at (c :: cs) col = Some j /\ k = (i + j)%nat)).
  { intros ru' Hc. destruct (IH (S i) present ru' Hnd) as [Hn Hm]. split; [done|]. intros col k. rewrite Hm, first_at_cons.
    destruct (base.decide (equates col c)) as [(Hu & Ho & <-)|_]; [naive_solver congruence|].
    split; (intros [?|(? & ? & j & Hj & ->)]; [by left|right]); split_and!; try done.
    - exists (S j). rewrite Hj. split; [done|lia].
    - destruct (first_at cs col) as [j'|]; cbn in Hj; simplify_eq. exists j'. split; [done|lia]. }
  destruct (is_input (ct_column c)) eqn:Ein; cbn [negb]; [|apply Hskip; auto].
  destruct (ct_usable c) eqn:Eu; cbn [negb]; [|apply Hskip; auto].
  case_bool_decide as Eo; cbn [andb]; [|apply Hskip; auto]. destruct (have present (ct_column c)) eqn:Eh; cbn [negb]; [apply Hskip; auto|].
  assert (Hnot : ct_column c ∉ map fst present).
  { intros ([c' k] & Hc & Hin)%list_elem_of_fmap. cbn in Hc. subst c'.
    assert (have present (ct_column c) = true) by (apply have_spec; eauto). congruence. }
  destruct (IH (S i) (present ++ [(ct_column c, i)]) ru) as [Hn Hm].
  { rewrite map_app. apply NoDup_app. split_and!; [done| |apply NoDup_singleton]. intros x Hx ->%list_elem_of_singleton. done. }
  split; [done|]. intros col k. rewrite Hm, first_at_cons, elem_of_app, list_elem_of_singleton.
  assert (Hhave : have (present ++ [(ct_column c, i)]) col = have present col || (ct_column c =? col)).
  { unfold have. rewrite existsb_app. cbn. by rewrite orb_false_r. }
  rewrite Hhave. destruct (base.decide (equates col c)) as [(_ & _ & <-)|Hne].
  - rewrite Eh, Z.eqb_refl. cbn. split; [|intros [?|(_ & _ & j & [= <-] & ->)]; [by left; left|left; right; f_equal; lia]].
    intros [[?|[= ->]]|(? & _)]; [by left|right|done]. split_and!; [done..|]. exists 0%nat. split; [done|lia].
  - assert (ct_column c <> col) as Hcol by (intros <-; by apply Hne). rewrite (proj2 (Z.eqb_neq _ _) Hcol), orb_false_r.
    split.
    + intros [[?|?]|(? & ? & j & -> & ->)]; [by left|congruence|right]. split_and!; [done..|]. exists (S j). split; [done|lia].
    + intros [?|(? & ? & j & Hj & ->)]; [by left; left|right]. split_and!; [done..|].
      destruct (first_at cs col) as [j'|]; cbn in Hj; simplify_eq. exists j'. split; [done|lia].
Qed.

(** The bits of the mask are the columns that are there. *)
Lemma mask_bits present b : 0 <= b -> Forall (fun p => RQ_COL_PEER <= fst p) present ->
  Z.testbit (mask_of present) b = have present (b + RQ_COL_PEER).
Proof.
  intros Hb Hp. unfold mask_of. cut (forall m, Z.testbit (foldl (fun mask p => Z.lor mask (Z.shiftl 1 (fst p - RQ_COL_PEER))) m present) b =
                                         Z.testbit m b || have present (b + RQ_COL_PEER)); [intros ->; by rewrite Z.testbit_0_l|].
  induction Hp as [|p present Hp _ IH]; intros m; cbn [foldl]; [unfold have; cbn; by rewrite orb_false_r|].
  rewrite IH, Z.lor_spec, <-orb_assoc. f_equal. unfold have. cbn [existsb]. f_equal.
  rewrite Z.shiftl_1_l, Z.pow2_bits_eqb by lia. destruct (Z.eqb_spec (fst p - RQ_COL_PEER) b), (Z.eqb_spec (fst p) (b + RQ_COL_PEER)); lia.
Qed.

#[export] Instance pair_le_antisymm : AntiSymm (=) pair_le.
Proof. intros [a i] [b j]. unfold pair_le. cbn. intros ? ?. f_equal; lia. Qed.

(** Columns in order, each with its place if it has one. *)
Definition placed (f : Z -> option nat) (bits : list Z) : list (Z * nat) :=
  omap (fun b => (fun k => (b + RQ_COL_PEER, k)) <$> f (b + RQ_COL_PEER)) bits.

Lemma elem_of_placed f bits col k : (col, k) ∈ placed f bits <-> col - RQ_COL_PEER ∈ bits /\ f col = Some k.
Proof.
  unfold placed. rewrite list_elem_of_omap. split.
  - intros (b & Hb & Hf). destruct (f (b + RQ_COL_PEER)) as [k'|] eqn:Ef; cbn in Hf; simplify_eq.
    by replace (b + RQ_COL_PEER - RQ_COL_PEER) with b by lia.
  - intros [Hb Hf]. exists (col - RQ_COL_PEER). split; [done|]. replace (col - RQ_COL_PEER + RQ_COL_PEER) with col by lia. by rewrite Hf.
Qed.

Lemma placed_sorted f bits : StronglySorted Z.lt bits -> StronglySorted pair_le (placed f bits) /\ NoDup (placed f bits).
Proof.
  induction 1 as [|b bits _ [IH1 IH2] Hb]; [split; constructor|]. unfold placed in *. cbn [omap list_omap].
  destruct (f (b + RQ_COL_PEER)) as [k|]; cbn [fmap option_fmap option_map]; [|done].
  assert (Hlt : forall c j, (c, j) ∈ placed f bits -> b + RQ_COL_PEER < c).
  { intros c j [Hc _]%elem_of_placed. rewrite Forall_forall in Hb. specialize (Hb _ Hc). lia. }
  split; constructor; [done| |intros ?%Hlt; lia|done].
  apply Forall_forall. intros [c j] ?%Hlt. left. cbn. lia.
Qed.

Lemma is_input_bits col : is_input col = true <-> col - RQ_COL_PEER ∈ RQ_BITS.
Proof.
  unfold is_input, RQ_BITS, RQ_COL_PEER, RQ_MAX_PARAMS. rewrite !elem_of_cons, elem_of_nil. lia.
Qed.

Lemma rq_present cs : merge_sort pair_le (fst (rq_scan 0 cs [] false)) = placed (first_at cs) RQ_BITS.
Proof.
  destruct (rq_scan_spec cs 0 [] false) as [Hn Hm]; [constructor|].
  assert (StronglySorted Z.lt RQ_BITS) as Hbits by (unfold RQ_BITS; repeat constructor).
  destruct (placed_sorted (first_at cs) _ Hbits) as [Hs Hd].
  apply (StronglySorted_unique pair_le); [apply StronglySorted_merge_sort; apply _|done|]. rewrite merge_sort_Permutation.
  apply NoDup_Permutation; [by eapply NoDup_fmap_1|done|]. intros [col k]. rewrite Hm, elem_of_placed, <-is_input_bits, elem_of_nil.
  unfold have. cbn. split; [intros [[]|(_ & ? & j & ? & ->)]; done|intros [? ?]; right; eauto 10].
Qed.

(** The inputs of the arguments that are there, bit by bit. *)
Fixpoint take_inputs (arg : Z -> option CellRef) (bits : list Z) (inputs : Inputs) : result string Inputs * list Value :=
  match bits with
  | [] => (Ok inputs, in_params inputs)
  | bit :: bits =>
      match arg bit with
      | None => take_inputs arg bits inputs
      | Some value =>
          let 'mkInputs peer signal params := inputs in
          if bit <=? 1 then
            match value_from_ref value with
            | Text text => take_inputs arg bits (if bit =? 0 then mkInputs (Some text) signal params else mkInputs peer (Some text) params)
            | _ => (Err RQ_USAGE, params)
            end
          else take_inputs arg bits (mkInputs peer signal (params ++ [value_from_ref value]))
      end
  end.

Lemma rq_inputs_take idx arg bits : forall inputs,
  Forall (fun b => Z.testbit idx b = bool_decide (is_Some (arg b))) bits -> rq_inputs idx bits (omap arg bits) inputs = take_inputs arg bits inputs.
Proof.
  induction bits as [|b bits IH]; intros inputs; [done|]. intros [Hb Hbs]%Forall_cons. cbn [rq_inputs omap list_omap take_inputs].
  rewrite Hb. destruct (arg b) as [v|]; [|by apply IH]. cbn [bool_decide base.decide is_Some_dec negb]. destruct inputs as [p s params].
  destruct (b <=? 1); [|by apply IH]. destruct (value_from_ref v); try done. by apply IH.
Qed.

Lemma take_params arg bits : forall p s params, Forall (fun b => 1 < b) bits ->
  take_inputs arg bits (mkInputs p s params) =
  (Ok (mkInputs p s (params ++ map value_from_ref (omap arg bits))), params ++ map value_from_ref (omap arg bits)).
Proof.
  induction bits as [|b bits IH]; intros p s params Hb; cbn [take_inputs omap list_omap map]; [by rewrite app_nil_r|].
  apply Forall_cons in Hb as [Hb Hbs]. destruct (arg b) as [v|]; [|by apply IH]. rewrite (proj2 (Z.leb_gt _ _)) by lia. rewrite IH by done.
  cbn [map]. by rewrite <-app_assoc.
Qed.

(** The input of a bit that takes a text, and then what follows. *)
Definition with_text {A} (v : option CellRef) (text : string -> A) (absent other : A) : A :=
  match v with
  | Some v => match value_from_ref v with Text t => text t | _ => other end
  | None => absent
  end.

Lemma take_two arg bits : Forall (fun b => 1 < b) bits ->
  let params := map value_from_ref (omap arg bits) in
  take_inputs arg (0 :: 1 :: bits) (mkInputs None None []) =
  let signal p := with_text (arg 1) (fun s => (Ok (mkInputs p (Some s) params), params)) (Ok (mkInputs p None params), params) (Err RQ_USAGE, []) in
  with_text (arg 0) (fun p => signal (Some p)) (signal None) (Err RQ_USAGE, []).
Proof.
  intros Hb params. unfold with_text. cbn [take_inputs]. change (0 <=? 1) with true. change (1 <=? 1) with true. change (0 =? 0) with true.
  change (1 =? 0) with false. cbv iota.
  destruct (arg 0) as [v0|]; [destruct (value_from_ref v0); try reflexivity|];
    (destruct (arg 1) as [v1|]; [destruct (value_from_ref v1); try reflexivity|]); by rewrite take_params.
Qed.

Lemma placed_values f (rhs : list CellRef) bits :
  omap (fun k => rhs !! k) (map snd (placed f bits)) = omap (fun b => f (b + RQ_COL_PEER) ≫= fun k => rhs !! k) bits.
Proof.
  unfold placed. induction bits as [|b bits IH]; [done|]. cbn [omap list_omap]. destruct (f (b + RQ_COL_PEER)) as [k|]; [|exact IH].
  cbn [fmap option_fmap option_map map snd omap list_omap mbind option_bind]. by rewrite IH.
Qed.

Lemma first_at_bound cs col k : first_at cs col = Some k -> (k < length cs)%nat.
Proof.
  unfold first_at. destruct (list_find _ cs) as [[i c]|] eqn:E; intros [= <-]. apply list_find_Some in E as (Hl & _). by eapply lookup_lt_Some.
Qed.

Section query_arguments.
Context {N : Type} `{HN : !RemoteNet N} `{HU : !UlidLib} `{HF : !FrameText} `{HS : !OxDisplay} `{HJ : !JsonRows}.

(** The value of one of the hidden columns, by its number from the peer's. *)
Definition input (cs : list Constraint) (rhs : list CellRef) (bit : Z) : option CellRef := argument cs rhs (bit + RQ_COL_PEER).

(** However SQLite orders the constraints, what [filter] is passed are the peer,
    the signal and the parameters that the query gives, the parameters that it
    leaves out not counted; without a peer or a signal that is a text there is
    no request, and the usage is the error. *)
Theorem arguments_are_passed (cx : RemoteContext) (cs : list Constraint) (rhs : list CellRef) (plan : Plan) (cu : QueryCursor) (net : N)
    (Hlen : length rhs = length cs) (Hplan : rq_best_index cs = Some plan) :
  match input cs rhs 0, input cs rhs 1 with
  | Some (RText peer), Some (RText signal) =>
      rq_filter cx (pl_num plan) (delivered plan rhs) (cu, net) =
      rq_call cx (from_utf8_lossy peer) (from_utf8_lossy signal) (map value_from_ref (omap (input cs rhs) [2; 3; 4; 5; 6; 7; 8; 9])) cu net
  | _, _ => exists cu', rq_filter cx (pl_num plan) (delivered plan rhs) (cu, net) = (Err RQ_USAGE, (cu', net)) /\ qc_rows cu' = []
  end.
Proof.
  unfold rq_best_index in Hplan. pose proof (rq_present cs) as Hpre. destruct (rq_scan 0 cs [] false) as [present ru] eqn:Es. cbn [fst] in Hpre.
  destruct (_ && _); [done|]. injection Hplan as <-. unfold delivered, rq_filter. cbn [pl_used pl_num]. rewrite Hpre, placed_values.
  change (fun b => first_at cs (b + RQ_COL_PEER) ≫= fun k => rhs !! k) with (input cs rhs).
  rewrite rq_inputs_take.
  - unfold RQ_BITS. rewrite take_two by (repeat constructor). unfold with_text.
    destruct (input cs rhs 0) as [[| | |peer|]|]; cbn [value_from_ref];
      try (destruct (input cs rhs 1) as [[| | |signal|]|]; cbn [value_from_ref]); first [reflexivity|eexists; split; [reflexivity|done]].
  - apply Forall_forall. intros b Hb. assert (0 <= b) as Hb0.
    { revert b Hb. apply Forall_forall. unfold RQ_BITS. repeat constructor; lia. }
    rewrite mask_bits; [|done|].
    + apply eq_bool_prop_intro. rewrite bool_decide_spec, Is_true_true, have_spec. unfold input, argument. split.
      * intros (k & [_ Hf]%elem_of_placed). rewrite Hf. cbn. apply lookup_lt_is_Some. rewrite Hlen. by eapply first_at_bound.
      * intros [v Hv]. destruct (first_at cs _) as [k|] eqn:Ef; [|done]. exists k. apply elem_of_placed. split; [|done].
        by replace (b + RQ_COL_PEER - RQ_COL_PEER) with b by lia.
    + apply Forall_forall. intros [c k] [Hc _]%elem_of_placed. apply is_input_bits in Hc. unfold is_input in Hc. cbn. lia.
Qed.
End query_arguments.

(** ** Responses *)

Section responses.
Context `{HF : !FrameText} `{HS : !OxDisplay}.

(** What a whole response comes to, without the reader. *)
Fixpoint conclude (acc : Received) (objs : list EnvelopeObject) : option (result RemoteError RemoteReply) :=
  match objs with
  | [] => None
  | obj :: objs =>
      match event_of obj with
      | None => None
      | Some ev => match take_event ev acc with
                   | inl acc => conclude acc objs
                   | inr out => Some out
                   end
      end
  end.

Lemma take_event_terminal ev acc : (exists out, take_event ev acc = inr out) <-> is_terminal ev = true.
Proof. destruct acc as [columns rows]. destruct ev; cbn; naive_solver. Qed.

Lemma receive_complete id objs rest : forall s n acc, (s = AwaitHeader -> n = 0) -> expects id s n objs -> s <> Finished ->
  exists out, conclude acc objs = Some out /\ receive (at_state id s n) acc (map Gives objs ++ rest) = failure out.
Proof.
  induction objs as [|obj objs IH]; intros s n acc Hn He Hs.
  { destruct s; cbn in He; try done; [destruct He as [_ He]| | |]; by inversion He. }
  apply expects_step in He as (s' & n' & Hstep & He); [|done]. pose proof (step_leaves_start _ _ _ _ _ _ Hstep).
  destruct (accept_complete _ _ _ _ _ _ Hstep) as (ev & Hev & Ha). destruct (accept_state _ _ _ _ _ _ Ha) as [Hfin _].
  cbn [map app receive conclude staged rbind]. rewrite Ha, Hev. destruct (take_event ev acc) as [acc'|out] eqn:Et; [|by exists out].
  apply IH; [done..|]. intros ->. cbn in Hfin. symmetry in Hfin. apply (take_event_terminal ev acc) in Hfin as [out Ho]. congruence.
Qed.

Lemma conclude_batches columns batches end_ : forall rows,
  conclude (columns, rows) (map ORow batches ++ [end_]) = conclude (columns, rows ++ concat batches) [end_].
Proof.
  induction batches as [|b batches IH]; intros rows; cbn [map app concat]; [by rewrite app_nil_r|].
  cbn [conclude event_of take_event]. by rewrite IH, app_assoc.
Qed.
End responses.

(** ** The rows of a mirrored table *)

(** The rowid, and the value of each column. *)
Definition shows (n : nat) (vs : list CellRef) : option (Z * list Value) :=
  match vs with RInteger i :: vs => Some (i, map value_from_ref (take n vs)) | _ => None end.

Definition find_cell (cells : list (string * Value)) (name : string) : option Value :=
  snd <$> List.find (fun cell => bool_decide (fst cell = name)) cells.

Lemma find_cell_cons name v cells name' :
  find_cell ((name, v) :: cells) name' = if bool_decide (name = name') then Some v else find_cell cells name'.
Proof. unfold find_cell. cbn. by case_bool_decide. Qed.

Lemma find_cell_None cells name : Forall (fun '(n, _) => n <> name) cells -> find_cell cells name = None.
Proof. induction 1 as [|[n v] cells Hn _ IH]; [done|]. rewrite find_cell_cons. by rewrite bool_decide_false. Qed.

Lemma row_cells_find cols : forall vs cells est, NoDup cols -> row_cells_from cols vs = Ok (cells, est) ->
  (length cols <= length vs)%nat /\
  map (find_cell cells) cols = map (fun v => snd <$> cell_value v) (take (length cols) vs).
Proof.
  induction cols as [|name cols IH]; intros vs cells est Hnd; [by cbn; split; [lia|]|]. apply NoDup_cons in Hnd as [Hnot Hnd]. cbn [row_cells_from].
  destruct vs as [|v vs]; [done|]. destruct (row_cells_from cols vs) as [[cells' est']|e] eqn:E; [|done]. cbn [rbind].
  pose proof (row_cells_names _ _ _ _ E) as Hnames. destruct (IH _ _ _ Hnd E) as [Hlen Hfind]. intros [= Hres].
  split; [cbn; lia|]. cbn [length take map].
  assert (Hothers : map (find_cell cells) cols = map (find_cell cells') cols).
  { destruct (cell_value v) as [[e w]|]; injection Hres as <- _; [|done]. apply map_ext_in. intros c Hc. rewrite find_cell_cons.
    apply list_elem_of_In in Hc. by rewrite bool_decide_false by (by intros ->). }
  rewrite Hothers, Hfind. f_equal. destruct (cell_value v) as [[e w]|]; injection Hres as <- _.
  - rewrite find_cell_cons. by rewrite bool_decide_true.
  - apply find_cell_None. eapply Forall_impl; [exact Hnames|]. intros [n w]; cbn; by intros Hn ->.
Qed.

Lemma cell_value_ref v : default Null (snd <$> cell_value v) = value_from_ref v.
Proof. by destruct v. Qed.

Section mirror.
Context {N : Type} `{HN : !RemoteNet N} `{HU : !UlidLib} `{HF : !FrameText} `{HS : !OxDisplay}.
Context {D : Type} `{HQ : !Sqlite D} `{HD : !AuthDebug} `{HO : !AppliedJson}.

Lemma rebuild_shows (tab : RemoteTable) vs seq row est :
  NoDup (ROWID :: rt_cols tab) -> row_from_sql vs (ROWID :: rt_cols tab) seq = Ok (row, est) ->
  match shows (length (rt_cols tab)) vs with
  | Some r => rebuild tab row = Ok r
  | None => exists e, rebuild tab row = Err e
  end.
Proof.
  intros Hnd. unfold row_from_sql. destruct (row_cells_from _ vs) as [[cells e]|] eqn:E; [|done]. intros [= <- _].
  apply row_cells_find in E as [Hlen Hf]; [|done]. destruct vs as [|v vs]; [done|]. cbn [length take map] in Hf. injection Hf as Hid Hvals.
  unfold rebuild. change (get_cell _ ROWID) with (find_cell cells ROWID). rewrite Hid. cbn [shows].
  destruct v as [|i| | |]; cbn; try (by eexists). f_equal. f_equal. rewrite <-(map_map (find_cell cells) (default Null)), Hvals, map_map.
  apply map_ext, cell_value_ref.
Qed.

Lemma converted_rows columns taken protos est : converted columns taken protos est ->
  Forall2 (fun vs row => exists seq e, row_from_sql vs columns seq = Ok (row, e)) taken protos.
Proof. induction 1 as [|taken protos est vs row e _ IH Hrow]; [constructor|]. apply Forall2_app; [done|]. constructor; [eauto|done]. Qed.

Lemma rebuild_rows (tab : RemoteTable) taken protos :
  NoDup (ROWID :: rt_cols tab) ->
  Forall2 (fun vs row => exists seq e, row_from_sql vs (ROWID :: rt_cols tab) seq = Ok (row, e)) taken protos ->
  match traverse (rebuild tab) protos with
  | Ok rows => map (shows (length (rt_cols tab))) taken = map Some rows
  | Err _ => None ∈ map (shows (length (rt_cols tab))) taken
  end.
Proof.
  intros Hnd. induction 1 as [|vs row taken protos (seq & e & Hrow) _ IH]; [done|]. apply rebuild_shows in Hrow; [|done]. cbn [map traverse].
  destruct (shows _ vs) as [r|]; [rewrite Hrow|destruct Hrow as [e' ->]]; cbn [rbind]; [|by left].
  destruct (traverse _ protos); cbn; [by f_equal|by right].
Qed.

(** The network takes the request, and hands over this response. *)
Definition responds (peer : list Byte.byte) (obj : EnvelopeObject) (net : N) (objs : list EnvelopeObject) : Prop :=
  exists n1 n2 n3 n4 rest, rn_open peer net = (Gives tt, n1) /\ rn_send obj n1 = (Gives tt, n2) /\ rn_finish n2 = (Gives tt, n3) /\
    rn_recv n3 = (map Gives objs ++ rest, n4).

Lemma ask_answered surface cx peer pid kind sql params timeout net fresh net1 objs :
  let request := make_request fresh kind sql params (default (cx_timeout cx) timeout) in
  rn_fresh net = (fresh, net1) -> resolve cx peer = Ok pid -> responds pid (to_envelope request) net1 objs -> response (id_string request) objs ->
  exists out, conclude ([], []) objs = Some out /\ fst (ask surface cx peer kind sql params timeout net) = map_err (module_err surface) out.
Proof.
  intros request Hf Hp (n1 & n2 & n3 & n4 & rest & Ho & Hs & Hh & Hr) Hresp.
  destruct (receive_complete (id_string request) objs rest AwaitHeader 0 ([], [])) as (out & Hc & Hrec); [done|by split|done|].
  exists out. split; [exact Hc|]. unfold ask, run_blocking, run_remote, ebind, etotal, emap_err, elift, stage. rewrite Hf. cbn beta iota. fold request.
  rewrite Hp, Ho. cbn [staged]. rewrite Hs. cbn [staged]. rewrite Hh. cbn [staged]. rewrite Hr. unfold ResponseReader_new. fold (at_state (id_string request) AwaitHeader 0).
  rewrite Hrec. by destruct out.
Qed.
(** The frames are a whole response to the job, and [taken] are the rows in it:
    the batches carry them converted, the trailer counts them and says whether
    the answer of the statement was cut after them, the next row being beyond a
    cap. *)
Definition answer_frames (job : ExecJob) (d : NodeDb D) (objs : list EnvelopeObject) (cols : list string)
    (taken : list (list CellRef)) (truncated : bool) : Prop :=
  exists stmt0 stmt batches est affected last_rowid,
    started job d stmt0 stmt /\
    objs = header job stmt0 :: map ORow batches ++
             [ODone (mkDone (jb_id job) (Some (Z.of_nat (length taken))) affected last_rowid truncated)] /\
    converted cols taken (concat batches) est /\ (keeps_tx (D:=D) -> answers_with job cols d stmt taken (negb truncated)).

(** The responses of a job, as the call reports them. *)
Lemma executed_concludes job (d : NodeDb D) objs cols out :
  is_write job = false -> (forall stmt0, prepared job d stmt0 -> map fst (sq_columns stmt0) = cols) ->
  executed job d objs -> conclude ([], []) objs = Some out ->
  match out with
  | Ok reply => exists taken truncated est, answer_frames job d objs cols taken truncated /\ converted cols taken (rp_rows reply) est
  | Err _ => exists e, last objs = Some (OError e)
  end.
Proof.
  intros Hread Hcols [e _|json Hw _|stmt0 batches n e _ _ _ _|stmt0 stmt taken batches est tr a l Hs Hc _ _ Ha] Hout; cbn [conclude event_of take_event] in Hout.
  - injection Hout as <-. by exists e.
  - congruence.
  - unfold header in Hout. cbn [conclude event_of take_event] in Hout. rewrite conclude_batches in Hout. injection Hout as <-. exists e.
    by rewrite app_comm_cons, last_snoc.
  - unfold header in Hout. cbn [conclude event_of take_event rh_columns] in Hout. rewrite conclude_batches in Hout. injection Hout as <-.
    destruct Hs as [Hp Hb]. rewrite (Hcols _ Hp) in Hc, Ha. exists taken, tr, est. split; [|exact Hc].
    by exists stmt0, stmt, batches, est, a, l.
Qed.

(** C31. A table mirrored with [iroh_remote] shows what its peer's statement
    answers: when a peer executes the SELECT that the plan of a query makes,
    whatever the batches, the cursor holds one row for each row that the
    response carries and its trailer counts, in order, with its rowid and the
    value of every declared column, the NULLs that the wire leaves out among
    them. These rows are the whole answer of the statement, which leaves the
    transaction alone, unless the trailer says that it was cut: then they are the
    rows before one that would go beyond a cap, and are shown like a whole
    answer, for the cursor does not look at that flag. It fails only if the
    response ends in an error or a row has no integer rowid; then it holds no
    row. *)
Theorem mirror_shows_answer (cx : RemoteContext) (tab : RemoteTable) (cs : list Constraint) (rhs : list CellRef) (cu : RemoteCursor)
    (net net1 : N) (fresh pid : list Byte.byte) (job : ExecJob) (d : NodeDb D) (objs : list EnvelopeObject) :
  let plan := ir_best_index tab cs in
  let request := make_request fresh Query (select_sql tab (pl_str plan)) (map value_from_ref (delivered plan rhs))
                   (default (cx_timeout cx) (rt_timeout tab)) in
  rn_fresh net = (fresh, net1) -> resolve cx (rt_peer tab) = Ok pid -> responds pid (to_envelope request) net1 objs ->
  jb_id job = id_string request -> is_write job = false -> row_cap (jb_limits job) <= I64_MAX -> executed job d objs ->
  (forall stmt0, prepared job d stmt0 -> map fst (sq_columns stmt0) = ROWID :: rt_cols tab) -> NoDup (ROWID :: rt_cols tab) ->
  match ir_filter cx tab (pl_str plan) (delivered plan rhs) (cu, net) with
  | (Ok _, (cu', _)) =>
      exists taken truncated, answer_frames job d objs (ROWID :: rt_cols tab) taken truncated /\
        map (shows (length (rt_cols tab))) taken = map Some (rc_rows cu')
  | (Err _, (cu', _)) =>
      rc_rows cu' = [] /\
      ((exists e, last objs = Some (OError e)) \/
       exists taken truncated, answer_frames job d objs (ROWID :: rt_cols tab) taken truncated /\
         None ∈ map (shows (length (rt_cols tab))) taken)
  end.
Proof.
  intros plan request Hfresh Hpeer Hnet Hid Hread Hcap Hex Hcols Hnd.
  pose proof (executed_response job d objs Hcap Hex) as Hresp. rewrite Hid in Hresp.
  destruct (ask_answered "iroh_remote" cx (rt_peer tab) pid Query _ _ (rt_timeout tab) net fresh net1 objs Hfresh Hpeer Hnet Hresp) as (out & Hout & Hask).
  pose proof (executed_concludes job d objs _ out Hread Hcols Hex Hout) as Hres. unfold ir_filter.
  destruct (ask _ _ _ _ _ _ _ net) as [r net']. cbn [fst] in Hask. subst r. destruct out as [reply|e]; cbn [map_err rbind].
  - destruct Hres as (taken & tr & est & Ha & Hc). apply converted_rows, rebuild_rows in Hc; [|done].
    destruct (traverse _ _) as [rows|e]; [by exists taken, tr|]. split; [done|right]. by exists taken, tr.
  - split; [done|by left].
Qed.

(** The statements that the tables send are the statements they mean, whatever
    the names hold: read as SQL, a name is one quoted identifier and no part of
    a statement; each constraint that is passed on is one predicate with its
    own placeholder, bound to its own right-hand side; and the columns of a
    write, its placeholders and its parameters are in the same order. *)
Theorem statements_keep_names (tab : RemoteTable) (cs : list Constraint) (rhs : list CellRef) (values : list Value) (rowid new : option Z) (old : Z) :
  let plan := ir_best_index tab cs in
  lex (select_sql tab (pl_str plan)) = Some (select_tokens tab (where_tokens (omap (pushable (rt_cols tab)) cs))) /\
  delivered plan rhs = omap (fun '(c, v) => const v <$> pushable (rt_cols tab) c) (zip cs rhs) /\
  (let params := insert_params rowid values in lex (insert_sql tab rowid params) = Some (insert_tokens tab rowid (length params))) /\
  (let params := update_params old new values in
   lex (update_sql tab old new params) = Some (update_tokens tab (moved old new) (length params)) /\
   last params = Some (Integer old)) /\
  lex (delete_sql tab) = Some (delete_tokens tab) /\ lex (schema_sql (rt_cols tab)) = Some (schema_tokens (rt_cols tab)).
Proof.
  cbv zeta. split_and!; [apply reads_lex, select_reads| |apply reads_lex, insert_reads|apply reads_lex, update_reads|
    |apply reads_lex, delete_reads|apply reads_lex, schema_reads].
  - unfold delivered, ir_best_index. cbn [pl_used]. destruct (ir_pick_spec (rt_cols tab) cs 0 []) as (more & -> & Hf & _).
    cbn [app]. rewrite Hf. by apply (pushed_delivered (rt_cols tab) cs 0 [] rhs).
  - unfold update_params. by rewrite app_assoc, last_snoc.
Qed.
End mirror.

(** ** Witnesses *)

Module Mirrored.

(** A peer with one table of notes, some without a body; its engine has the one
    statement of a mirror's plan. *)
Abbreviation Notes := (list (Z * option string)).

Definition tab : RemoteTable := mkRemoteTable (str_concat (repeat "a1" 32)) "notes" ["body"] None.
Definition from_two : list Constraint := [mkConstraint (-1) GE true].
Definition plan : Plan := ir_best_index tab from_two.

(** The place of the next row, and the least rowid once it is bound. *)
#[local] Instance notes_sqlite : Sqlite Notes := {|
  Stmt := (nat * option Z)%type;
  sq_prepare := fun _ sql =>
    if bool_decide (sql = select_sql tab (pl_str plan)) then Authorize ASelect (fun b => Prepared (if b then Ok (0%nat, None) else Err (sql_failure "not authorized")))
    else Prepared (Err (sql_failure "syntax error"));
  sq_columns := fun _ => [(ROWID, Some "INTEGER"); ("body", Some "TEXT")];
  sq_bind := fun params s => match params with [Integer i] => Ok (fst s, Some i) | _ => Err (sql_failure "wrong number of parameters") end;
  sq_step := fun d '(n, least) =>
    let rows := List.filter (fun row => default 0 least <=? fst row) (nd_user d) in
    match rows !! n with
    | Some (i, body) => (Some 1%nat, mkStep (Ok (Some [RInteger i; match body with Some s => RText s | None => RNull end])) (S n, least) d TxKept)
    | None => (Some 1%nat, mkStep (Ok None) (n, least) d TxKept)
    end;
  sq_finish := fun _ counts => counts
|}.
#[local] Instance plain_action : AuthDebug := { action_debug := fun _ => "Action" }.
#[local] Instance plain_outcome : AppliedJson := { outcome_json := fun a _ => int_to_string a; parse_outcome := fun _ => (None, None) }.
#[local] Instance plain_frames : FrameText := { frame_debug := fun _ => "Frame"; tag_debug := id; protocol_error_text := fun _ => "protocol error" }.
#[local] Instance plain_display : OxDisplay := { show_named := id; show_node := fun _ => "node"; show_term := fun _ => "term" }.

Definition peer_conn : NConn Notes :=
  mkNConn (mkNodeDb NodeDemo.demo_auth (Some []) (Some ∅) (Some ∅) (Some ∅) no_surface [(1, Some "a"); (2, None); (5, Some "b")])
    None [] 0 (S754_zero false) [] (fun n => 1000000 * Z.of_nat n) 0 (0, 0).

Definition job_of (st : Statement) : ExecJob :=
  mkExecJob (st_id st) (st_signal st) (st_params st) (mkApproved (mkFootprint Read {["notes" := {["body"]}]} ∅) Remote)
    (mkLimits 10 1000 1000 5000) 1 10000 [] 0.

Definition answer_of (obj : EnvelopeObject) : list EnvelopeObject :=
  match obj with OQuery st => ch_sent (snd (run_execute (job_of st) peer_conn (mkChan [] None))) | _ => [] end.

(** The network holds the frames that wait to be read. *)
#[local] Instance to_peer : RemoteNet (list EnvelopeObject) := {
  rn_fresh := fun net => (repeat Byte.x00 16, net);
  rn_open := fun _ net => (Gives tt, net);
  rn_send := fun obj net => (Gives tt, answer_of obj);
  rn_finish := fun net => (Gives tt, net);
  rn_recv := fun net => (map Gives net, [])
}.

Definition shown : result string unit * (RemoteCursor * list EnvelopeObject) :=
  ir_filter RemoteContext_new tab (pl_str plan) (delivered plan [RInteger 2]) (ir_open, []).

Example mirror_rows : rc_rows (fst (snd shown)) = [(2, [Null]); (5, [Text "b"])].
Proof. vm_compute. reflexivity. Qed.

Example mirror_statement :
  select_sql tab (pl_str plan) = "SELECT rowid AS _rsntr_rowid_, " +:+ quote_ident "body" +:+ " FROM " +:+ quote_ident "notes" +:+ " WHERE rowid >= ?1".
Proof. reflexivity. Qed.

(** SQLite asks for p2 without p1: the peer is sent one parameter, and the row
    shows it as p1. *)
Definition gap : list Constraint := [mkConstraint 6 EQ true; mkConstraint 3 EQ true; mkConstraint 4 EQ true].
Definition gap_values : list CellRef := [RInteger 7; RText (rt_peer tab); RText "SELECT ?2"].

Example gap_shifts :
  let result plan := rq_filter (N:=list EnvelopeObject) (HJ:=Build_JsonRows (fun _ => Ok []) (fun _ => "json") id) RemoteContext_new
                       (pl_num plan) (delivered plan gap_values) (rq_open, []) in
  (fun plan => let cu := fst (snd (result plan)) in (qc_params cu, rq_column cu 5, rq_column cu 6)) <$> rq_best_index gap =
  Some ([Integer 7], Some (RInteger 7), Some RNull).
Proof. vm_compute. reflexivity. Qed.
End Mirrored.

Import Mirrored.
#[local] Existing Instances notes_sqlite plain_action plain_outcome plain_frames plain_display to_peer.

Definition asked : Statement :=
  mkStatement (ulid_to_string (repeat Byte.x00 16)) "sql-sqlite" (select_sql tab (pl_str plan)) [Integer 2] None None None (Some 15000).

Lemma mirror_shows_answer_witness :
  match ir_filter RemoteContext_new tab (pl_str (ir_best_index tab from_two)) (delivered (ir_best_index tab from_two) [RInteger 2]) (ir_open, []) with
  | (Ok _, (cu', _)) =>
      exists taken truncated, answer_frames (job_of asked) (n_db peer_conn) (answer_of (OQuery asked)) (ROWID :: rt_cols tab) taken truncated /\
        map (shows (length (rt_cols tab))) taken = map Some (rc_rows cu')
  | (Err _, (cu', _)) =>
      rc_rows cu' = [] /\
      ((exists e, last (answer_of (OQuery asked)) = Some (OError e)) \/
       exists taken truncated, answer_frames (job_of asked) (n_db peer_conn) (answer_of (OQuery asked)) (ROWID :: rt_cols tab) taken truncated /\
         None ∈ map (shows (length (rt_cols tab))) taken)
  end.
Proof.
  apply (mirror_shows_answer RemoteContext_new tab from_two [RInteger 2] ir_open [] [] (repeat Byte.x00 16)
           (default [] (PeerId_from_str (rt_peer tab))) (job_of asked) (n_db peer_conn) (answer_of (OQuery asked))).
  - reflexivity.
  - vm_compute. reflexivity.
  - do 5 eexists. split_and!; [reflexivity|reflexivity|reflexivity|]. symmetry. apply pair_equal_spec. split; [apply app_nil_r|reflexivity].
  - vm_compute. reflexivity.
  - reflexivity.
  - vm_compute. discriminate.
  - apply (execution_is_a_response (job_of asked) peer_conn). vm_compute. discriminate.
  - reflexivity.
  - vm_compute. repeat constructor; set_solver.
Defined.
